(* ===== verification/_CoqProject ===== *)
-Q . S2P
Prelude.v
Dll.v
Heap.v
Queue.v
StackDs.v
Ringbuf.v
Btree.v
Vmm.v
VmmSpec.v
Mmap.v
MmapSpec.v
MmapThms.v
MmapProps.v
Zone.v
ZoneSpec.v
Hash.v
Paging.v
PagingSpec.v
PagingOps.v
PagingRange.v
PagingProps.v
CString.v
CStringSpec.v
CStringProps.v
SpinLock.v
Lock.v
Cond.v
Pipe.v
PipeSpec.v
PipeProps.v
MmLink.v
Vfs.v
Cred.v
Inode.v
Dentry.v
DentrySpec.v
DentryProps.v
File.v
FdTable.v
FdSpec.v
FdProps.v
PageCache.v
PageSpec.v
PageProps.v
Sched.v
SchedSpec.v
SchedInv.v
SchedStep.v
SchedProps.v
SchedEx.v
SchedFair.v
Tgroup.v
Proc.v
ProcProps.v
Signal.v
SignalProps.v
SignalPend.v
SignalEx.v
Tmpfs.v
TmpfsSpec.v
TmpfsProps.v
TmpfsEx.v
Traverse.v
TraverseProps.v
TraverseEx.v
Path.v
PathProps.v
