(* ===== verification/Prelude.v ===== *)
(** * Verification of the gingerOs-x86_64 kernel core

    gingerOs is a small C kernel.  Its memory management and the generic data
    structures under it are modelled here as Rocq functions on explicit
    states, translated function by function from src/kernel, and proved
    correct against abstract specifications.

    ** Method

    A C function is a computation [M S A] (this file): it takes a state and
    returns a result with a new state ([Ok]), or stops.  It stops with
    [Panic] where the C code panics or fails an assertion, [BadAccess] where
    it loads or stores through [NULL] or a dead object or frees one twice,
    [OutOfFuel] where a loop has not ended within its bound, and [Blocked]
    where the thread sleeps and nothing in the model wakes it.  [wp c s Q]
    says that [c] started in [s] returns with a result and state that satisfy
    [Q]: it excludes all these ways to stop, so every theorem stated with
    [wp] (or with [= Ok]) also shows that the call terminates, does not panic
    and touches live memory only.

    Memory is a finite map from addresses to objects for every struct type
    ([Heaplet]).  Pointers are 64-bit addresses in [Z] with [NULL] = 0, and
    unsigned C arithmetic is followed by an explicit wrap ([u64], [u32]).  An
    out-parameter is a Boolean argument, whether the caller's pointer is
    non-null, and an extra result.  The allocator behind [kmalloc] is the
    class [Kmalloc]: it may refuse any request, and otherwise chooses an
    address that is not live.  Theorems hold for every allocator; examples
    run with [bump_kmalloc].  A spin lock is a Boolean, "held by the running
    thread": the code runs on one thread between lock and unlock, taking a
    held lock panics, and the many lock assertions of the code are guards
    that the theorems discharge.

    Loops over linked objects carry fuel, the number of live nodes of that
    type (plus one): a list or tree in memory cannot be longer, which
    [dll_length] (Dll.v) and [tree_fuel] (Btree.v) prove, so the fuel is
    always enough in a well-formed state and [wp] shows that it is.  Other
    loops are bounded by what they count (bytes, pages, nodes of an array).
    The retry loop of [alloc_pages] has no bound in C; its model takes the
    number of passes as a parameter and the theorems quantify over it.

    ** Files and the code they model

    - Prelude.v: integers, error codes, the monad, [wp], the heap classes,
      the allocator interface, the [wp_step] tactic.
    - Dll.v: intrusive doubly linked lists, generic in the node type: what
      unlinking, linking and changing a payload do ([dll_unlink],
      [dll_link], [dll_payload]).
    - Heap.v: the objects of kernel/include/ds.
    - Queue.v (ds/queue.c), StackDs.v (ds/stack.c), Ringbuf.v
      (ds/ringbuf.c), Btree.v (ds/btree.c), Hash.v (ds/hash.c): each
      operation under its C name, then the representation predicate and the
      refinement of a deque, a LIFO list, a bounded byte stream, a finite
      map, and a map from hash values to sequences.
    - Vmm.v and VmmSpec.v (mm/vmm/vmm.c): the allocator of kernel virtual
      address ranges, its node pool, coalescing free list and used list.
    - Mmap.v (mm/mmap.c): user address spaces; MmapSpec.v, MmapThms.v and
      MmapProps.v hold the invariant, the specifications of the operations
      and the theorems.  The paging layer they call is the class [ArchVm].
    - Zone.v and ZoneSpec.v (mm/pmm/mm_zone.c, mm/pmm/zone_page.c): zones of
      physical pages, allocation by first fit, reference counts, start-up.
      What they ask of the machine is the class [PhysMem].
    - Paging.v (arch/x86_64/paging.c, arch/paging.c): page tables on a machine
      with physical memory and the four-level address translation; entries
      are read and written through the recursive window, as the code does.
      PagingSpec.v (the tables as a tree, the invariant [wf], the window),
      PagingOps.v (one page), PagingRange.v (ranges) and PagingProps.v (the
      theorems).  The allocators of frames and kernel addresses are the
      classes [Frames] and [Kva].
    - MmLink.v: a zone of physical pages is an instance of [Frames], and the
      calls on its page array simulate the calls on the interface.

    - CString.v (lib/string.c, lib/ctype.c): strings and blocks of bytes on a
      byte memory, with the tests of eight bytes at a time; CStringSpec.v
      (strings in memory, the zero-byte test, scans) and CStringProps.v.  A
      word load needs its first byte mapped and may read any value in the
      others: an aligned word lies in one page.  The allocator under [strdup]
      and [tokenize] is the class [Balloc].

    - SpinLock.v (include/sync/spinlock.h, preempt.h): the spin lock, one
      memory access at a time, for any number of threads and processors.  It
      stands apart: it justifies the Boolean locks and the atomic calls of
      the other files.
    - Cond.v (sync/cond.c): condition variables, one atomic step per call; a
      wake-up without memory for the run queue is [None], a stop of the kernel.
    - Pipe.v (fs/pipefs/pipefs.c): reads, writes and closes of a
      pipe by any number of threads, cut into steps at the pipe lock and at
      every use of a condition variable, on the ring buffer of Ringbuf.v; a
      history is a list of events.  PipeSpec.v (the abstract pipe, the
      refinement) and PipeProps.v (the theorems).

    - Vfs.v: the objects of the virtual file system (credentials, inodes,
      dentries, files, descriptor tables), one heap for all of them, and their
      locks.
    - Cred.v (sys/syscall/cred.c): the identities of a thread.
    - Inode.v (fs/inode.c): the calls of a driver through the table of its
      operations, counts, aliases, permissions, status.  Drivers are the class
      [Drivers], the page cache the class [Icache].
    - Dentry.v (fs/dentry.c): directory entries and the list of the children
      of a directory; DentrySpec.v and DentryProps.v.
    - File.v (fs/file.c) and FdTable.v (fs/sysfile.c): open files and the
      descriptor tables of processes; FdSpec.v and FdProps.v.  A write that has to sleep
      stops with [Blocked]: nothing in this model wakes it.
    - Traverse.v (fs/vfs_traverse.c): the walk along the names of a parsed path,
      through the entries in memory and then through the driver; TraverseProps.v
      and TraverseEx.v (a concrete tree).
    - Path.v (fs/path.c, fs/vfspath.c): the checks and the parsing of path names,
      on the byte memory of CString.v; PathProps.v.
    - PageCache.v (fs/icache.c): the cached pages of an inode, on the search
      tree of Btree.v; an instance of [Icache].  Copying to and from a page
      frame is the class [FrameCopy].  PageSpec.v and PageProps.v.  A write
      that waits for memory retries without a bound; [tries] bounds it, and
      [wpo X] says that a call can run out of it only if [X].

    - Tmpfs.v (fs/tmpfs/tmpfs.c): the file system in memory, on the hash tables of
      Hash.v, beside the page cache; TmpfsSpec.v (directories), TmpfsProps.v (the
      theorems) and TmpfsEx.v (a concrete machine).  As for the scheduler, the
      allocator grants [N] objects of a heap at a time where an operation that
      runs out of memory would stop the kernel ([room]).

    - Lock.v: the lock macros of the headers ([Lockable], [LockLaws]) and calls
      on a part of the state ([zoom]).
    - Sched.v (sys/sched/sched.c, sys/sched/queues.c, parts of
      sys/threads/thread.c and tgroup.c, sync/cond.c): threads, the queues they
      are on and the scheduler of one processor.  A context switch ends a
      function: the loop of [schedule] is [schedule_pick] and
      [schedule_return], [sched_sleep] goes on in [sched_sleep_end].
      SchedSpec.v: families of queues, and threads that agree with them.
      SchedInv.v: the invariant, and waking.  SchedStep.v: the end of a
      thread and the choice of the next one.  SchedProps.v: events, the
      theorems; SchedEx.v: a concrete machine; SchedFair.v: round robin.  The
      allocator grants [N] objects at a time ([Hroom]); the invariant keeps
      room for the nodes of every thread outside the queues.
    - Tgroup.v (sys/threads/tgroup.c, sys/sleep.c): threads of a group.
    - Proc.v (sys/proc.c, sys/syscall/proc.c, sysproc.c, waitpid.c): processes,
      their children, sessions and groups; [waitpid] ends where it sleeps.
      ProcProps.v holds the theorems.  The static queues are the class
      [ProcQueues].
    - Signal.v (sys/signals, sys/threads/thread.c): signal sets, actions,
      masks, the queues of pending signals, and the way of a signal from
      [kill] to the thread that takes it.  SignalProps.v (sets, permission,
      waking), SignalPend.v (pending signals refine one queue per signal),
      SignalEx.v (a concrete machine, and runs outside the hypotheses).

    ** What the theorems show

    Refinement: sequences of calls return the results of the abstract
    structure and keep the representation ([queue_refines_deque],
    [stack_refines_lifo], [ringbuf_refines_stream], [btree_refines_map],
    [hash_refines_map], [vmm_refines_ranges]).  Address spaces: the
    regions stay sorted, disjoint and below the limit in every reachable
    state ([mmap_reachable_ok]); mapping, unmapping, growing and searching
    change exactly the addresses asked for ([mmap_map_region_correct] and
    its neighbours).  Physical pages: allocation is first fit and release is
    its inverse ([get_free_pages_first_fit], [alloc_put_roundtrip]).  Page
    tables: mapping and unmapping change the translation of exactly the
    pages asked for, keep the tables disjoint and account for every frame
    ([x86_64_map_correct], [x86_64_unmap_correct], [x86_64_map_n_correct],
    [pagealloc_pagefree_roundtrip]), and the frames they take are those of
    the physical page allocator ([zone_implements_frames]).  Strings: the word-at-a-time routines
    agree with their byte-by-byte meaning ([strlen_correct],
    [memchr_correct], [memmove_correct], [strtok_r_splits]).  Concurrency:
    the spin lock excludes ([spin_mutual_exclusion]) and its checks are exact
    ([spin_checks_exact]); pipes are first in first out under every
    interleaving ([pipe_fifo], [pipe_refines]; they stop only at a wake-up without
    memory for the run queue) and lose no wake-up between one reader and one
    writer ([pipe_no_lost_wakeup]).  Files: the permission check
    grants exactly the rights of the mode ([icheck_perm_correct]), a process
    cannot regain rights it gave up ([dropped_privileges_stay]) and a
    directory is a set of names ([directory_refines_names]); a walk along a path
    ends at the entry named or at the first one that is closed to the caller or
    not a directory, and holds nothing else ([vfs_traverse_walks]); a path name
    is printable ASCII without backslashes ([verify_path_correct]); the descriptors of
    all processes refer to live files with exact counts
    ([descriptors_refine], [exit_releases]); reads and writes through the page
    cache are reads and writes of the bytes of the file
    ([cached_read_correct], [cached_write_correct], [write_then_read]); a directory of tmpfs is the
    sequence of its nodes ([tmpfs_refines_listing]), a file its bytes until a
    write inside it faults ([tmpfs_file_refines]).  Threads:
    every event keeps each thread on exactly the queue its state asks for, and
    none stops the kernel ([scheduler_safe], [no_thread_lost]); threads of a
    level get the processor in turn ([round_robin]).  Processes:
    [waitpid] finds the child its rules name and leaves the lists as they were
    ([waitpid_correct]), the children of an ending process go to another
    ([proc_abandon_children_correct]).  Signals: a signal that may be sent and
    is not blocked is queued and wakes a sleeping thread
    ([signal_send_wakes]), pending signals are taken in order
    ([signals_refine_queues]), and sets are sets ([sigset_well_typed]).  Error
    behaviour: the paths on which the code faults, hangs, panics or loses an
    object are theorems too ([mmap_unmap_inside_faults],
    [mmap_clone_never_succeeds], [alloc_pages_wait_hangs],
    [hash_free_panics], [ringbuf_new_outcomes], [pipe_no_eof], and the closed examples
    [hash_delete_misplaces], [zone_arrays_overlap] and others).

    ** Not modelled

    Concurrency beyond the spin lock, pipes and the interleaving of threads on
    one processor at context switches (elsewhere a call between lock and unlock
    is one step); the creation of pipes; the creation of threads, groups and processes, and
    the end of a process; the clock behind [alarm] and the frame that runs a
    handler on the user stack; the calls that parse,
    resolve and release a path in one, mounts and drivers other than tmpfs; page faults; debug printers;
    [mmap_argenvcpy] of mm/mmap.c; the vendored allocator, printf, font and
    image code; devices and assembly.  [mmap_protect] and [mmap_copy] are
    modelled without a theorem of their own, and so is [strstr_twoway]. *)

From stdpp Require Export prelude gmap fin_maps sorting.
From Stdlib Require Export ZArith Lia.

#[export] Set Default Goal Selector "!".

Declare Scope kernel_scope.
Delimit Scope kernel_scope with K.
Open Scope Z_scope.

(** ** Machine integers

    Every C integer is a [Z]; an operation that may leave the width of its
    C type is followed by the wrap-around written here.  The kernel is built
    for x86_64: [size_t], [usize], [uintptr_t] and [atomic_t] are 64 bits. *)

Definition two64 : Z := 18446744073709551616.
Definition u64 (z : Z) : Z := z mod two64.
Definition u32 (z : Z) : Z := z mod 4294967296.
Definition u16 (z : Z) : Z := z mod 65536.
Definition u8 (z : Z) : Z := z mod 256.

(** Reading a 64-bit pattern as a signed [long] (a C cast). *)
Definition s64 (z : Z) : Z :=
  let w := u64 z in if decide (w < 9223372036854775808) then w else w - two64.

(** Reading a 32-bit pattern as a signed [int]. *)
Definition s32 (z : Z) : Z :=
  let w := u32 z in if decide (w < 2147483648) then w else w - 4294967296.

Definition in_u64 (z : Z) : Prop := 0 <= z < two64.

Lemma u64_small z : in_u64 z -> u64 z = z.
Proof. unfold u64, in_u64. apply Z.mod_small. Qed.

Lemma u64_range z : in_u64 (u64 z).
Proof. unfold u64, in_u64. apply Z.mod_pos_bound. reflexivity. Qed.

Lemma u64_add_l a b : u64 (u64 a + b) = u64 (a + b).
Proof. unfold u64. by rewrite Zplus_mod_idemp_l. Qed.

Lemma u64_sub_l a b : u64 (u64 a - b) = u64 (a - b).
Proof. unfold u64. by rewrite Zminus_mod_idemp_l. Qed.

(** ** Error numbers (kernel/include/bits/errno.h) *)

Definition EPERM : Z := 1.
Definition ENOENT : Z := 2.
Definition EINTR : Z := 4.
Definition EBADF : Z := 9.
Definition EAGAIN : Z := 11.
Definition ENOMEM : Z := 12.
Definition EACCES : Z := 13.
Definition EFAULT : Z := 14.
Definition EEXIST : Z := 17.
Definition ENOTDIR : Z := 20.
Definition EINVAL : Z := 22.
Definition EPIPE : Z := 32.
Definition ERANGE : Z := 34.
Definition ENAMETOOLONG : Z := 36.
Definition ENOSYS : Z := 38.
Definition ENOTEMPTY : Z := 39.
Definition ENOTSUP : Z := 95.
Definition EADDRNOTAVAIL : Z := 99.
Definition ENOTNAM : Z := 118.

(** ** Kernel code as state-passing computations

    A computation either returns a value and the new state, or stops: by a
    failed [assert] or [panic], by an access through a pointer that does not
    designate a live object, because a loop used up its fuel (the C loop
    would not have ended within the bound the definition states), or because
    the thread sleeps and nothing in the model wakes it. *)

Variant stop := Panic | BadAccess | OutOfFuel | Blocked.

Variant outcome (S A : Type) :=
  | Ok (a : A) (s : S)
  | Stop (w : stop).
Arguments Ok {S A} a s.
Arguments Stop {S A} w.

Definition M (S A : Type) : Type := S -> outcome S A.

#[export] Instance M_ret S : MRet (M S) := λ A a s, Ok a s.
#[export] Instance M_bind S : MBind (M S) := λ A B f c s,
  match c s with Ok a s' => f a s' | Stop w => Stop w end.
#[export] Instance M_fmap S : FMap (M S) := λ A B f c s,
  match c s with Ok a s' => Ok (f a) s' | Stop w => Stop w end.

Definition halt {S A} (w : stop) : M S A := λ _, Stop w.
Definition get_state {S} : M S S := λ s, Ok s s.
Definition put_state {S} (s' : S) : M S unit := λ _, Ok tt s'.
Definition modify {S} (f : S -> S) : M S unit := λ s, Ok tt (f s).
Definition gets {S A} (f : S -> A) : M S A := λ s, Ok (f s) s.

(** [assert(c, msg)]: panics when the condition is zero. *)
Definition assert_ {S} (c : bool) : M S unit := λ s,
  if c then Ok tt s else Stop Panic.

(** [if (c) body;] with no [else]. *)
Definition when {S} (c : bool) (body : M S unit) : M S unit :=
  if c then body else mret tt.

(** ** Total-correctness predicate transformer

    [wp c s Q]: from [s] the computation [c] returns (it neither panics, nor
    accesses a bad pointer, nor runs out of fuel) and its result and final
    state satisfy [Q]. *)

Definition wp {S A} (c : M S A) (s : S) (Q : A -> S -> Prop) : Prop :=
  match c s with Ok a s' => Q a s' | Stop _ => False end.

Section wp_rules.
Context {S A B : Type}.
Implicit Types (s : S).

Lemma wp_ret (a : A) s (Q : A -> S -> Prop) : Q a s -> wp (mret a) s Q.
Proof. done. Qed.

Lemma wp_bind (c : M S A) (k : A -> M S B) s Q :
  wp c s (λ a s', wp (k a) s' Q) -> wp (c ≫= k) s Q.
Proof. unfold wp, mbind, M_bind. by destruct (c s). Qed.

Lemma wp_mono (c : M S A) s (Q R : A -> S -> Prop) :
  wp c s Q -> (∀ a s', Q a s' -> R a s') -> wp c s R.
Proof. unfold wp. destruct (c s); naive_solver. Qed.

Lemma wp_run (c : M S A) s (Q : A -> S -> Prop) :
  wp c s Q <-> ∃ a s', c s = Ok a s' ∧ Q a s'.
Proof.
  unfold wp. destruct (c s) as [a s'|]; split.
  - eauto.
  - by intros (? & ? & [= <- <-] & ?).
  - done.
  - by intros (? & ? & ? & ?).
Qed.

Lemma wp_eq (c : M S A) s (Q : A -> S -> Prop) a s' :
  c s = Ok a s' -> Q a s' -> wp c s Q.
Proof. unfold wp. by intros ->. Qed.

Lemma wp_assert (b : bool) s (Q : unit -> S -> Prop) :
  b = true -> Q tt s -> wp (assert_ b) s Q.
Proof. by intros ->. Qed.

Lemma wp_gets (f : S -> A) s (Q : A -> S -> Prop) : Q (f s) s -> wp (gets f) s Q.
Proof. done. Qed.

Lemma wp_modify (f : S -> S) s (Q : unit -> S -> Prop) : Q tt (f s) -> wp (modify f) s Q.
Proof. done. Qed.

Lemma wp_when (b : bool) (c : M S unit) s (Q : unit -> S -> Prop) :
  (b = true -> wp c s Q) -> (b = false -> Q tt s) -> wp (when b c) s Q.
Proof. destruct b; unfold when; naive_solver. Qed.

Lemma wp_fmap (f : A -> B) (c : M S A) s (Q : B -> S -> Prop) :
  wp c s (λ a s', Q (f a) s') -> wp (f <$> c) s Q.
Proof. unfold wp, fmap, M_fmap. by destruct (c s). Qed.

Lemma bind_ok (c : M S A) (k : A -> M S B) s a s' : c s = Ok a s' -> (c ≫= k) s = k a s'.
Proof. unfold mbind, M_bind. by intros ->. Qed.

(** A computation stops when what it runs first returns into a stop, or stops. *)
Lemma stop_bind (c : M S A) (k : A -> M S B) s w :
  wp c s (λ a s', k a s' = Stop w) -> (c ≫= k) s = Stop w.
Proof. unfold wp, mbind, M_bind. by destruct (c s). Qed.

Lemma stop_bind_stop (c : M S A) (k : A -> M S B) s w : c s = Stop w -> (c ≫= k) s = Stop w.
Proof. unfold mbind, M_bind. by intros ->. Qed.
End wp_rules.

(** ** Typed memory

    Objects of one C struct type live in one finite map from addresses to
    records.  [NULL] is never a key.  A state that holds such a map for the
    type [V] is a [Heaplet]. *)

Abbreviation ptr := Z.
Definition NULL : ptr := 0.

(** An address a pointer variable can hold and that is not [NULL]. *)
Definition valid_ptr (p : ptr) : Prop := 0 < p < two64.

Lemma valid_ptr_nonnull p : valid_ptr p -> p ≠ NULL.
Proof. unfold valid_ptr, NULL. lia. Qed.

Class Heaplet (S V : Type) := {
  hl_get : S -> gmap ptr V;
  hl_put : gmap ptr V -> S -> S;
}.

Definition load {S V} `{Heaplet S V} (p : ptr) : M S V := λ s,
  if decide (p = NULL) then Stop BadAccess
  else match hl_get s !! p with Some v => Ok v s | None => Stop BadAccess end.

(** [p->field = x] and friends: a store to one field of a live object. *)
Definition update {S V} `{Heaplet S V} (p : ptr) (f : V -> V) : M S unit := λ s,
  if decide (p = NULL) then Stop BadAccess
  else match hl_get s !! p with
       | Some v => Ok tt (hl_put (<[p := f v]> (hl_get s)) s)
       | None => Stop BadAccess
       end.

(** [kfree(p)] of an object of type [V]; [kfree(NULL)] does nothing. *)
Definition kfree {S} (V : Type) `{Heaplet S V} (p : ptr) : M S unit := λ s,
  if decide (p = NULL) then Ok tt s
  else match hl_get s !! p with
       | Some _ => Ok tt (hl_put (delete p (hl_get s)) s)
       | None => Stop BadAccess
       end.

(** *** The allocator interface

    What [kmalloc] promises to its callers: an address that is not [NULL] and
    not the address of a live object, or failure.  The choice may depend on
    the live addresses and on how many requests were made before. *)
Class Kmalloc := {
  km_choose : nat -> gset ptr -> option ptr;
  km_fresh n D p : km_choose n D = Some p -> valid_ptr p ∧ p ∉ D;
}.

Class Kheap (S : Type) := {
  kh_live : S -> gset ptr;
  kh_ticks : S -> nat;
  kh_tick : S -> S;
}.

(** [kmalloc(sizeof *p)] followed by the initialisation of [*p] to [v];
    returns [NULL] when memory is exhausted. *)
Definition kmalloc {S V} `{Kmalloc, Kheap S, Heaplet S V} (v : V) : M S ptr := λ s,
  match km_choose (kh_ticks s) (kh_live s) with
  | Some p => let s' := kh_tick s in Ok p (hl_put (<[p := v]> (hl_get s')) s')
  | None => Ok NULL (kh_tick s)
  end.

Section heap_rules.
Context {S V : Type} {HL : Heaplet S V}.

Lemma wp_load (p : ptr) (v : V) (s : S) (Q : V -> S -> Prop) :
  p ≠ NULL -> hl_get s !! p = Some v -> Q v s -> wp (load p) s Q.
Proof. intros Hp Hv HQ. unfold wp, load. case_decide; [done|]. by rewrite Hv. Qed.

Lemma wp_update (p : ptr) (f : V -> V) (v : V) (s : S) (Q : unit -> S -> Prop) :
  p ≠ NULL -> hl_get s !! p = Some v ->
  Q tt (hl_put (<[p := f v]> (hl_get s)) s) -> wp (update p f) s Q.
Proof. intros Hp Hv HQ. unfold wp, update. case_decide; [done|]. by rewrite Hv. Qed.

Lemma wp_kfree (p : ptr) (v : V) (s : S) (Q : unit -> S -> Prop) :
  p ≠ NULL -> hl_get s !! p = Some v ->
  Q tt (hl_put (delete p (hl_get s)) s) -> wp (kfree V p) s Q.
Proof. intros Hp Hv HQ. unfold wp, kfree. case_decide; [done|]. by rewrite Hv. Qed.

Lemma wp_kmalloc `{Kmalloc, Kheap S} (v : V) (s : S) (Q : ptr -> S -> Prop) :
  Q NULL (kh_tick s) ->
  (∀ p, valid_ptr p -> p ∉ kh_live s ->
     km_choose (kh_ticks s) (kh_live s) = Some p ->
     Q p (hl_put (<[p := v]> (hl_get (kh_tick s))) (kh_tick s))) ->
  wp (kmalloc v) s Q.
Proof.
  intros Hfail Hok. unfold wp, kmalloc.
  destruct (km_choose _ _) as [p|] eqn:E; [|done].
  destruct (km_fresh _ _ _ E). by apply Hok.
Qed.

(** The same with the reason why there is no memory. *)
Lemma wp_kmalloc_why `{Kmalloc, Kheap S} (v : V) (s : S) (Q : ptr -> S -> Prop) :
  (km_choose (kh_ticks s) (kh_live s) = None -> Q NULL (kh_tick s)) ->
  (∀ p, valid_ptr p -> p ∉ kh_live s -> Q p (hl_put (<[p := v]> (hl_get (kh_tick s))) (kh_tick s))) ->
  wp (kmalloc v) s Q.
Proof.
  intros Hfail Hok. unfold wp, kmalloc.
  destruct (km_choose _ _) as [p|] eqn:E; [|by apply Hfail].
  destruct (km_fresh _ _ _ E). by apply Hok.
Qed.
End heap_rules.

(** An allocator that takes the address above every live one.
    It shows the interface can be met and runs the examples. *)
Definition bump_choose (n : nat) (D : gset ptr) : option ptr :=
  let p := 1 + foldr Z.max 0 (elements D) in
  if decide (p < two64) then Some p else None.

Lemma foldr_max_ge (l : list Z) x : x ∈ l -> x <= foldr Z.max 0 l.
Proof. induction 1; simpl; lia. Qed.

Lemma foldr_max_nonneg (l : list Z) : 0 <= foldr Z.max 0 l.
Proof. induction l; simpl; lia. Qed.

#[global] Program Definition bump_kmalloc : Kmalloc := {| km_choose := bump_choose |}.
Next Obligation.
  intros n D p. unfold bump_choose. case_decide; [|done]. intros [= <-].
  pose proof (foldr_max_nonneg (elements D)). split.
  - unfold valid_ptr. lia.
  - intros Hin. apply elem_of_elements, foldr_max_ge in Hin. lia.
Qed.

(** An allocator that always fails, for the error paths. *)
Program Definition failing_kmalloc : Kmalloc := {| km_choose := λ _ _, None |}.
Next Obligation. done. Qed.

Lemma alter_insert_Some `{Countable A} {B} (m : gmap A B) i x f :
  m !! i = Some x -> <[i := f x]> m = alter f i m.
Proof.
  intros Hi. apply map_eq. intros j. destruct (decide (i = j)) as [->|].
  - by rewrite lookup_insert_eq, lookup_alter_eq, Hi.
  - by rewrite lookup_insert_ne, lookup_alter_ne.
Qed.

(** Fewer than 2^64 distinct objects fit in the address space. *)
Lemma valid_ptrs_length (l : list ptr) :
  NoDup l -> Forall valid_ptr l -> Z.of_nat (length l) < two64.
Proof.
  intros Hnd Hv.
  assert (length l <= length (seqZ 1 (two64 - 1)))%nat as Hle.
  { apply submseteq_length, NoDup_submseteq; [done|]. intros p Hp.
    rewrite Forall_forall in Hv. specialize (Hv p Hp). unfold valid_ptr in Hv.
    apply elem_of_seqZ. lia. }
  rewrite length_seqZ in Hle. unfold two64 in *. lia.
Qed.

(** ** Automation *)

Create HintDb kernel.
#[export] Hint Resolve u64_range valid_ptr_nonnull : kernel.

(** One step of symbolic execution under [wp]. *)
Ltac wp_step :=
  lazymatch goal with
  | |- wp (mbind _ _) _ _ => apply wp_bind
  | |- wp (mret _) _ _ => apply wp_ret
  | |- wp (assert_ _) _ _ => apply wp_assert; [try done|]
  | |- wp (gets _) _ _ => apply wp_gets; cbn beta
  | |- wp (modify _) _ _ => apply wp_modify; cbn beta
  | |- wp (if decide _ then _ else _) _ _ => case_decide; try done
  end.
Ltac wp_auto := repeat (wp_step; cbn beta).
