(* ===== verification/Dll.v ===== *)
(** * Doubly linked lists in memory

    The kernel keeps queues, free and used address ranges and memory regions
    in intrusive doubly linked lists that are edited by the same few pointer
    updates.  This file relates such a list in a heap to the list of its
    nodes, and states once what unlinking a node, appending one at either end
    and linking one between two neighbours do.  It is generic in the struct
    type: a [Linked] instance says how a node splits into its two links and
    the rest of its fields. *)

From S2P Require Import Prelude.

Class Linked (V D : Type) := {
  l_mk : ptr -> D -> ptr -> V;
  set_prev : ptr -> V -> V;
  set_next : ptr -> V -> V;
  set_prev_mk q a d n : set_prev q (l_mk a d n) = l_mk q d n;
  set_next_mk q a d n : set_next q (l_mk a d n) = l_mk a d q;
}.

(** First and last address of a node list, with the value to use when the
    list is empty. *)
Definition hd_or {D} (b : ptr) (xs : list (ptr * D)) : ptr :=
  match xs with [] => b | x :: _ => x.1 end.
Fixpoint last_or {D} (a : ptr) (xs : list (ptr * D)) : ptr :=
  match xs with [] => a | x :: xs => last_or x.1 xs end.

Abbreviation addrs xs := (fst <$> xs).

Section ends.
Context {D : Type}.
Implicit Types xs ys : list (ptr * D).

Lemma hd_or_app b xs ys : hd_or b (xs ++ ys) = hd_or (hd_or b ys) xs.
Proof. by destruct xs. Qed.

Lemma last_or_app a xs ys : last_or a (xs ++ ys) = last_or (last_or a xs) ys.
Proof. revert a. induction xs; simpl; auto. Qed.

Lemma last_or_snoc a xs x : last_or a (xs ++ [x]) = x.1.
Proof. by rewrite last_or_app. Qed.

Lemma hd_or_in b xs : xs ≠ [] -> hd_or b xs ∈ addrs xs.
Proof. destruct xs; [done|]. intros _. simpl. left. Qed.

Lemma last_or_in a xs : xs ≠ [] -> last_or a xs ∈ addrs xs.
Proof.
  intros Hne. destruct (exists_last Hne) as (ys & y & ->).
  rewrite last_or_snoc, fmap_app, elem_of_app. right. simpl. left.
Qed.

Lemma hd_or_null xs : NULL ∉ addrs xs -> hd_or NULL xs = NULL -> xs = [].
Proof.
  intros Hn He. destruct xs as [|x xs]; [done|]. exfalso. apply Hn.
  simpl in He. rewrite <- He. simpl. left.
Qed.

Lemma last_or_null xs : NULL ∉ addrs xs -> last_or NULL xs = NULL -> xs = [].
Proof.
  intros Hn He. destruct (decide (xs = [])) as [|Hne]; [done|].
  apply (last_or_in NULL) in Hne. congruence.
Qed.
(** The new ends after the node [p] is taken out, computed as the code does. *)
Lemma hd_or_unlink xs p d ys :
  NoDup (addrs (xs ++ (p, d) :: ys)) ->
  (if decide (p = hd_or NULL (xs ++ (p, d) :: ys)) then hd_or NULL ys
   else hd_or NULL (xs ++ (p, d) :: ys)) = hd_or NULL (xs ++ ys).
Proof.
  destruct xs as [|[x e] xs]; simpl.
  - intros _. by rewrite decide_True.
  - intros [Hx _]%NoDup_cons. rewrite decide_False; [done|]. intros ->.
    apply Hx. rewrite fmap_app. set_solver.
Qed.

Lemma last_or_unlink xs p d ys :
  NoDup (addrs (xs ++ (p, d) :: ys)) ->
  (if decide (p = last_or NULL (xs ++ (p, d) :: ys)) then last_or NULL xs
   else last_or NULL (xs ++ (p, d) :: ys)) = last_or NULL (xs ++ ys).
Proof.
  destruct ys as [|y ys _] using rev_ind.
  - intros _. rewrite last_or_snoc, app_nil_r. by rewrite decide_True.
  - rewrite app_comm_cons, !app_assoc, !last_or_snoc, <- app_assoc, fmap_app.
    simpl. intros (_ & _ & [Hp _]%NoDup_cons)%NoDup_app.
    rewrite decide_False; [done|]. intros ->. apply Hp. rewrite fmap_app. set_solver.
Qed.
End ends.

Section dll.
Context {V D : Type} {LK : Linked V D}.
Implicit Types (h : gmap ptr V) (xs ys : list (ptr * D)) (p a b : ptr).

(** The nodes [xs] are linked in [h], entered from [a], left to [b]. *)
Fixpoint dseg h (a : ptr) xs (b : ptr) : Prop :=
  match xs with
  | [] => True
  | (p, d) :: xs' => h !! p = Some (l_mk a d (hd_or b xs')) ∧ dseg h p xs' b
  end.

(** A complete list with head [hd] and tail [tl]. *)
Definition dll h (hd tl : ptr) xs : Prop :=
  hd = hd_or NULL xs ∧ tl = last_or NULL xs ∧
  NoDup (addrs xs) ∧ NULL ∉ addrs xs ∧ dseg h NULL xs NULL.

Lemma dseg_app h a xs ys b :
  dseg h a (xs ++ ys) b <-> dseg h a xs (hd_or b ys) ∧ dseg h (last_or a xs) ys b.
Proof.
  revert a. induction xs as [|[p d] xs IH]; intros a; simpl; [naive_solver|].
  rewrite IH, hd_or_app. naive_solver.
Qed.

Lemma dseg_frame h h' a xs b :
  (∀ p, p ∈ addrs xs -> h' !! p = h !! p) -> dseg h a xs b -> dseg h' a xs b.
Proof.
  revert a. induction xs as [|[p d] xs IH]; intros a Heq; simpl; [done|].
  intros [Hp Hs]. split.
  - rewrite Heq; [done|]. simpl. left.
  - apply IH; [|done]. intros q Hq. apply Heq. simpl. by right.
Qed.

Lemma dseg_insert h a xs b p v :
  p ∉ addrs xs -> dseg h a xs b -> dseg (<[p := v]> h) a xs b.
Proof.
  intros Hp. apply dseg_frame. intros q Hq.
  apply lookup_insert_ne. congruence.
Qed.

Lemma dseg_delete h a xs b p :
  p ∉ addrs xs -> dseg h a xs b -> dseg (delete p h) a xs b.
Proof.
  intros Hp. apply dseg_frame. intros q Hq.
  apply lookup_delete_ne. congruence.
Qed.

Lemma dseg_lookup h a xs ys b p d :
  dseg h a (xs ++ (p, d) :: ys) b ->
  h !! p = Some (l_mk (last_or a xs) d (hd_or b ys)).
Proof. rewrite dseg_app. simpl. naive_solver. Qed.

(** [if (p) p->next = n;] and [if (p) p->prev = n;] as heap functions. *)
Definition put_next (p n : ptr) h : gmap ptr V :=
  if decide (p = NULL) then h else alter (set_next n) p h.
Definition put_prev (p n : ptr) h : gmap ptr V :=
  if decide (p = NULL) then h else alter (set_prev n) p h.

Lemma put_next_ne p n h q : q ≠ p -> put_next p n h !! q = h !! q.
Proof. unfold put_next. case_decide; [done|]. intros. by rewrite lookup_alter_ne. Qed.
Lemma put_prev_ne p n h q : q ≠ p -> put_prev p n h !! q = h !! q.
Proof. unfold put_prev. case_decide; [done|]. intros. by rewrite lookup_alter_ne. Qed.

(** Redirecting the last node of a segment, or the first one. *)
Lemma dseg_put_next h a xs b n :
  NoDup (addrs xs) -> NULL ∉ addrs xs ->
  dseg h a xs b -> dseg (put_next (last_or a xs) n h) a xs n.
Proof.
  destruct xs as [|x xs' _] using rev_ind; [done|].
  destruct x as [p d]. rewrite last_or_snoc. simpl.
  rewrite fmap_app. intros [Hnd [Hdis _]]%NoDup_app Hnull.
  rewrite !dseg_app. simpl. intros [Hl [Hp _]].
  assert (p ≠ NULL) as Hpn by (intros ->; apply Hnull; set_solver).
  unfold put_next. rewrite decide_False by done.
  split; [|split; [|done]].
  - eapply dseg_frame; [|done]. intros q Hq. apply lookup_alter_ne.
    intros <-. apply (Hdis p Hq). simpl. left.
  - rewrite lookup_alter_eq, Hp. simpl. by rewrite set_next_mk.
Qed.

Lemma dseg_put_prev h a xs b n :
  NoDup (addrs xs) -> NULL ∉ addrs xs -> xs ≠ [] ->
  dseg h a xs b -> dseg (put_prev (hd_or b xs) n h) n xs b.
Proof.
  destruct xs as [|[p d] xs']; [done|]. simpl.
  intros [Hdis Hnd]%NoDup_cons Hnull _ [Hp Hs].
  assert (p ≠ NULL) as Hpn by set_solver.
  unfold put_prev. rewrite decide_False by done. split.
  - rewrite lookup_alter_eq, Hp. simpl. by rewrite set_prev_mk.
  - eapply dseg_frame; [|done]. intros q Hq. apply lookup_alter_ne. by intros ->.
Qed.

Lemma dll_nil h : dll h NULL NULL [].
Proof. repeat split; [constructor|set_solver]. Qed.

Lemma dll_frame h h' hd tl xs :
  (∀ p, p ∈ addrs xs -> h' !! p = h !! p) -> dll h hd tl xs -> dll h' hd tl xs.
Proof. intros Heq (? & ? & ? & ? & ?). repeat split; eauto using dseg_frame. Qed.

Lemma dll_in_heap h hd tl xs p d :
  dll h hd tl xs -> (p, d) ∈ xs -> p ≠ NULL ∧ is_Some (h !! p).
Proof.
  intros (_ & _ & _ & Hn & Hs) (l1 & l2 & ->)%list_elem_of_split. split.
  - intros ->. apply Hn. rewrite fmap_app. set_solver.
  - apply dseg_lookup in Hs. eauto.
Qed.

Lemma dom_put_next p n h : dom (put_next p n h) = dom h.
Proof. unfold put_next. case_decide; [done|]. apply dom_alter_L. Qed.
Lemma dom_put_prev p n h : dom (put_prev p n h) = dom h.
Proof. unfold put_prev. case_decide; [done|]. apply dom_alter_L. Qed.

(** The neighbours of a position are [NULL] or live. *)
Lemma dll_last_live h hd tl xs ys :
  dll h hd tl (xs ++ ys) -> last_or NULL xs = NULL ∨ is_Some (h !! last_or NULL xs).
Proof.
  intros Hd. destruct (decide (xs = [])) as [->|Hne]; [by left|right].
  apply (last_or_in NULL), list_elem_of_fmap in Hne as ([p d] & -> & Hin).
  eapply dll_in_heap; [done|]. apply elem_of_app. by left.
Qed.

Lemma dll_hd_live h hd tl xs ys :
  dll h hd tl (xs ++ ys) -> hd_or NULL ys = NULL ∨ is_Some (h !! hd_or NULL ys).
Proof.
  intros Hd. destruct (decide (ys = [])) as [->|Hne]; [by left|right].
  apply (hd_or_in NULL), list_elem_of_fmap in Hne as ([p d] & -> & Hin).
  eapply dll_in_heap; [done|]. apply elem_of_app. by right.
Qed.

Lemma dll_next_live h hd tl xs x ys :
  dll h hd tl (xs ++ x :: ys) -> hd_or NULL ys = NULL ∨ is_Some (h !! hd_or NULL ys).
Proof. rewrite cons_middle, app_assoc. apply dll_hd_live. Qed.

(** *** Unlinking a node *)

Definition unlink (p prev next : ptr) h : gmap ptr V :=
  put_prev next prev (put_next prev next h).

Lemma dom_unlink p a b h : dom (unlink p a b h) = dom h.
Proof. unfold unlink. by rewrite dom_put_prev, dom_put_next. Qed.

Lemma dll_mid h hd tl xs p d ys :
  dll h hd tl (xs ++ (p, d) :: ys) ->
  p ≠ NULL ∧ p ∉ addrs xs ∧ p ∉ addrs ys ∧
  h !! p = Some (l_mk (last_or NULL xs) d (hd_or NULL ys)).
Proof.
  intros (_ & _ & Hnd & Hn & Hs). rewrite fmap_app in Hnd, Hn. simpl in *.
  apply NoDup_app in Hnd as (_ & Hd1 & [Hd2 _]%NoDup_cons).
  repeat split.
  - intros ->. apply Hn. set_solver.
  - intros Hin. apply (Hd1 p Hin). left.
  - done.
  - by apply dseg_lookup in Hs.
Qed.

Lemma dll_unlink h hd tl xs p d ys :
  dll h hd tl (xs ++ (p, d) :: ys) ->
  dll (unlink p (last_or NULL xs) (hd_or NULL ys) h)
      (hd_or NULL (xs ++ ys)) (last_or NULL (xs ++ ys)) (xs ++ ys).
Proof.
  intros (_ & _ & Hnd & Hn & Hs). unfold unlink.
  rewrite fmap_app in Hnd, Hn. simpl in *.
  apply NoDup_app in Hnd as (Hnd1 & Hd1 & [Hd2 Hnd2]%NoDup_cons).
  apply not_elem_of_app in Hn as [Hn1 [_ Hn2]%not_elem_of_cons].
  assert (∀ q, q ∈ addrs xs -> q ∉ addrs ys) as Hdis by set_solver.
  rewrite dseg_app in Hs. simpl in Hs. destruct Hs as (Hs1 & Hp & Hs2).
  split; [done|]. split; [done|]. rewrite !fmap_app.
  split; [by apply NoDup_app|]. split; [set_solver|].
  apply dseg_app. split.
  - (* the left part, its last node now pointing to [ys] *)
    apply dseg_frame with (h := put_next (last_or NULL xs) (hd_or NULL ys) h).
    + intros q Hq. destruct ys as [|y ys]; [done|].
      apply put_prev_ne. intros ->. apply (Hdis _ Hq). simpl. left.
    + apply dseg_put_next with (b := p); auto.
  - (* the right part, its first node now pointing back to [xs] *)
    destruct ys as [|y ys]; [done|].
    apply dseg_put_prev with (a := p); auto.
    eapply dseg_frame; [|apply Hs2]. intros q Hq.
    destruct (decide (xs = [])) as [->|Hne]; [done|].
    apply put_next_ne. intros ->. by apply (Hdis _ (last_or_in NULL _ Hne)).
Qed.

(** The heap outside the list and the links of the unlinked node are kept. *)
Lemma unlink_outside h hd tl xs p d ys q :
  dll h hd tl (xs ++ (p, d) :: ys) -> q ∉ addrs (xs ++ ys) ->
  unlink p (last_or NULL xs) (hd_or NULL ys) h !! q = h !! q.
Proof.
  intros _ Hq. rewrite fmap_app, elem_of_app in Hq. unfold unlink.
  destruct (decide (ys = [])) as [->|Hys].
  - unfold put_prev. simpl. destruct (decide (xs = [])) as [->|Hxs]; [done|].
    apply put_next_ne. intros ->. apply Hq. left. by apply last_or_in.
  - rewrite put_prev_ne.
    + destruct (decide (xs = [])) as [->|Hxs]; [done|].
      apply put_next_ne. intros ->. apply Hq. left. by apply last_or_in.
    + intros ->. apply Hq. right. by apply hd_or_in.
Qed.

Lemma put_comm a b n m h :
  a ≠ b ∨ a = NULL -> put_next a n (put_prev b m h) = put_prev b m (put_next a n h).
Proof.
  intros Hab. unfold put_next, put_prev. case_decide; [done|]. case_decide; [done|].
  apply alter_alter_ne. naive_solver.
Qed.

(** The neighbours of a node are different nodes. *)
Lemma dll_neighbours_ne h hd tl xs x ys :
  dll h hd tl (xs ++ x :: ys) -> last_or NULL xs ≠ hd_or NULL ys ∨ last_or NULL xs = NULL.
Proof.
  intros (_ & _ & Hnd & Hn & _). destruct (decide (xs = [])) as [->|Hx]; [by right|left].
  rewrite fmap_app in Hnd, Hn. simpl in *.
  apply NoDup_app in Hnd as (_ & Hdis & _). apply (last_or_in NULL) in Hx.
  destruct (decide (ys = [])) as [->|Hy].
  - simpl. intros Heq. rewrite Heq in Hx. set_solver.
  - apply (hd_or_in NULL) in Hy. intros Heq. rewrite Heq in Hx. apply (Hdis _ Hx). by right.
Qed.

(** *** Linking a node [p] between the nodes [xs] and [ys] *)

Definition link (p : ptr) (d : D) (prev next : ptr) h : gmap ptr V :=
  <[p := l_mk prev d next]> (put_prev next p (put_next prev p h)).

Lemma dll_link h hd tl xs p d ys :
  dll h hd tl (xs ++ ys) -> p ≠ NULL -> p ∉ addrs (xs ++ ys) ->
  dll (link p d (last_or NULL xs) (hd_or NULL ys) h)
      (hd_or p xs) (last_or p ys) (xs ++ (p, d) :: ys).
Proof.
  intros (_ & _ & Hnd & Hn & Hs) Hp Hpf. unfold link.
  rewrite fmap_app in Hnd, Hn, Hpf.
  apply not_elem_of_app in Hn as [Hn1 Hn2].
  apply not_elem_of_app in Hpf as [Hp1 Hp2].
  apply NoDup_app in Hnd as (Hnd1 & Hd1 & Hnd2).
  rewrite dseg_app in Hs. destruct Hs as (Hs1 & Hs2).
  split; [by rewrite hd_or_app|]. split; [by rewrite last_or_app|].
  rewrite !fmap_app. simpl. split.
  { apply NoDup_app. repeat split; [done| |by apply NoDup_cons].
    intros q Hq. apply not_elem_of_cons. split; [congruence|auto]. }
  split; [set_solver|].
  apply dseg_app. simpl. split; [|split; [apply lookup_insert_eq|]].
  - apply dseg_insert; [done|].
    apply dseg_frame with (h := put_next (last_or NULL xs) p h).
    + intros q Hq. destruct ys as [|y ys]; [done|].
      apply put_prev_ne. intros ->. apply (Hd1 _ Hq). simpl. left.
    + apply dseg_put_next with (b := hd_or NULL ys); auto.
  - apply dseg_insert; [done|].
    destruct ys as [|y ys]; [done|].
    apply dseg_put_prev with (a := last_or NULL xs); auto.
    eapply dseg_frame; [|apply Hs2]. intros q Hq.
    destruct (decide (xs = [])) as [->|Hne]; [done|].
    apply put_next_ne. intros ->. by apply (Hd1 _ (last_or_in NULL _ Hne)).
Qed.

Lemma link_outside h hd tl xs p d ys q :
  dll h hd tl (xs ++ ys) -> q ∉ addrs (xs ++ (p, d) :: ys) ->
  link p d (last_or NULL xs) (hd_or NULL ys) h !! q = h !! q.
Proof.
  intros _ Hq. rewrite fmap_app, elem_of_app in Hq. simpl in Hq.
  rewrite elem_of_cons in Hq. unfold link.
  rewrite lookup_insert_ne by naive_solver.
  destruct (decide (ys = [])) as [->|Hys].
  - unfold put_prev. simpl. destruct (decide (xs = [])) as [->|Hxs]; [done|].
    apply put_next_ne. intros ->. apply Hq. left. by apply last_or_in.
  - rewrite put_prev_ne.
    + destruct (decide (xs = [])) as [->|Hxs]; [done|].
      apply put_next_ne. intros ->. apply Hq. left. by apply last_or_in.
    + intros ->. apply Hq. right. right. by apply hd_or_in.
Qed.

(** The payload of a list node changes; its links do not. *)
Lemma dll_payload (m : gmap ptr V) hd tl xs p d d' ys f :
  (∀ a n, f (l_mk a d n) = l_mk a d' n) ->
  dll m hd tl (xs ++ (p, d) :: ys) -> dll (alter f p m) hd tl (xs ++ (p, d') :: ys).
Proof.
  intros Hf Hd. pose proof (dll_mid _ _ _ _ _ _ _ Hd) as (Hp & Hx & Hy & Hm).
  destruct Hd as (-> & -> & Hnd & Hnull & Hs). split_and!.
  - by destruct xs.
  - by rewrite !last_or_app.
  - by rewrite fmap_app in *.
  - by rewrite fmap_app in *.
  - apply dseg_app in Hs as [H1 [H2 H3]]. apply dseg_app. simpl in *. split_and!.
    + eapply dseg_frame; [|done]. intros q Hq. rewrite lookup_alter_ne; [done|by intros ->].
    + rewrite lookup_alter_eq, H2. simpl. f_equal. apply Hf.
    + eapply dseg_frame; [|done]. intros q Hq. rewrite lookup_alter_ne; [done|by intros ->].
Qed.

(** A list is no longer than the heap it lives in: the bound used as fuel
    by the traversals. *)
Lemma dll_length h hd tl xs : dll h hd tl xs -> (length xs <= size h)%nat.
Proof.
  intros Hd. pose proof Hd as (_ & _ & Hnd & _ & _).
  rewrite <- (length_fmap fst), <- size_dom.
  rewrite <- (size_list_to_set (C := gset ptr)) by done.
  apply subseteq_size. intros q Hq.
  apply elem_of_list_to_set, list_elem_of_fmap in Hq as ([q' d] & -> & Hin).
  apply elem_of_dom. by eapply dll_in_heap.
Qed.
End dll.

Arguments unlink : simpl never.
Arguments link : simpl never.
