(* ===== verification/Heap.v ===== *)
(** * The heap of the generic data structures

    The struct types of kernel/include/ds and the part of kernel memory that
    holds their instances.  A lock embedded in a struct is the Boolean "held
    by the running thread": the code below runs on one thread and the locks
    serve as guards that the operations check. *)

From S2P Require Import Prelude Dll.

(** struct queue_node *)
Record queue_node_t := QNode {
  qn_prev : ptr;
  qn_data : ptr;
  qn_next : ptr;
  qn_queue : ptr;
}.

(** struct queue *)
Record queue_t := Queue {
  q_head : ptr;
  q_tail : ptr;
  q_count : Z;
  q_lock : bool;
}.

(** struct stack: the embedded [s_queue] is the first member, so it has the
    address of the stack and is an object of [d_queues]. *)
Record stack_t := Stack {
  s_lock : bool;
}.

(** struct btree_node *)
Record btree_node_t := BNode {
  bn_key : Z;
  bn_data : ptr;
  bn_left : ptr;
  bn_parent : ptr;
  bn_right : ptr;
  bn_btree : ptr;
}.

(** struct btree *)
Record btree_t := Btree {
  bt_root : ptr;
  bt_nr_nodes : Z;
  bt_lock : bool;
}.

(** struct hash_node_t *)
Record hash_node_t := HNode {
  hn_prev : ptr;
  hn_data : ptr;
  hn_next : ptr;
}.

(** struct hash_table_t: the context pointer and the lock; the embedded
    [h_btree] is the object of [d_btrees] named by the address of the table. *)
Record hash_table_t := Htab {
  h_ctx : ptr;
  h_spinlock : bool;
}.

(** struct ringbuf, and the byte arrays [buf] points to *)
Record ringbuf_t := Ringbuf {
  r_buf : ptr;
  r_size : Z;
  r_head : Z;
  r_tail : Z;
  r_count : Z;
  r_lock : bool;
}.

Record dsheap := DsHeap {
  d_queues : gmap ptr queue_t;
  d_qnodes : gmap ptr queue_node_t;
  d_stacks : gmap ptr stack_t;
  d_btrees : gmap ptr btree_t;
  d_bnodes : gmap ptr btree_node_t;
  d_htabs : gmap ptr hash_table_t;
  d_hnodes : gmap ptr hash_node_t;
  d_rings : gmap ptr ringbuf_t;
  d_bufs : gmap ptr (list Z);
  d_ticks : nat;
}.

Definition empty_dsheap : dsheap := DsHeap ∅ ∅ ∅ ∅ ∅ ∅ ∅ ∅ ∅ 0.

Definition set_queues m s := DsHeap m (d_qnodes s) (d_stacks s) (d_btrees s)
  (d_bnodes s) (d_htabs s) (d_hnodes s) (d_rings s) (d_bufs s) (d_ticks s).
Definition set_qnodes m s := DsHeap (d_queues s) m (d_stacks s) (d_btrees s)
  (d_bnodes s) (d_htabs s) (d_hnodes s) (d_rings s) (d_bufs s) (d_ticks s).
Definition set_stacks m s := DsHeap (d_queues s) (d_qnodes s) m (d_btrees s)
  (d_bnodes s) (d_htabs s) (d_hnodes s) (d_rings s) (d_bufs s) (d_ticks s).
Definition set_btrees m s := DsHeap (d_queues s) (d_qnodes s) (d_stacks s) m
  (d_bnodes s) (d_htabs s) (d_hnodes s) (d_rings s) (d_bufs s) (d_ticks s).
Definition set_bnodes m s := DsHeap (d_queues s) (d_qnodes s) (d_stacks s) (d_btrees s)
  m (d_htabs s) (d_hnodes s) (d_rings s) (d_bufs s) (d_ticks s).
Definition set_htabs m s := DsHeap (d_queues s) (d_qnodes s) (d_stacks s) (d_btrees s)
  (d_bnodes s) m (d_hnodes s) (d_rings s) (d_bufs s) (d_ticks s).
Definition set_hnodes m s := DsHeap (d_queues s) (d_qnodes s) (d_stacks s) (d_btrees s)
  (d_bnodes s) (d_htabs s) m (d_rings s) (d_bufs s) (d_ticks s).
Definition set_rings m s := DsHeap (d_queues s) (d_qnodes s) (d_stacks s) (d_btrees s)
  (d_bnodes s) (d_htabs s) (d_hnodes s) m (d_bufs s) (d_ticks s).
Definition set_bufs m s := DsHeap (d_queues s) (d_qnodes s) (d_stacks s) (d_btrees s)
  (d_bnodes s) (d_htabs s) (d_hnodes s) (d_rings s) m (d_ticks s).

#[export] Instance hl_queues : Heaplet dsheap queue_t := {| hl_get := d_queues; hl_put := set_queues |}.
#[export] Instance hl_qnodes : Heaplet dsheap queue_node_t := {| hl_get := d_qnodes; hl_put := set_qnodes |}.
#[export] Instance hl_stacks : Heaplet dsheap stack_t := {| hl_get := d_stacks; hl_put := set_stacks |}.
#[export] Instance hl_btrees : Heaplet dsheap btree_t := {| hl_get := d_btrees; hl_put := set_btrees |}.
#[export] Instance hl_bnodes : Heaplet dsheap btree_node_t := {| hl_get := d_bnodes; hl_put := set_bnodes |}.
#[export] Instance hl_htabs : Heaplet dsheap hash_table_t := {| hl_get := d_htabs; hl_put := set_htabs |}.
#[export] Instance hl_hnodes : Heaplet dsheap hash_node_t := {| hl_get := d_hnodes; hl_put := set_hnodes |}.
#[export] Instance hl_rings : Heaplet dsheap ringbuf_t := {| hl_get := d_rings; hl_put := set_rings |}.
#[export] Instance hl_bufs : Heaplet dsheap (list Z) := {| hl_get := d_bufs; hl_put := set_bufs |}.

Definition ds_tick (s : dsheap) : dsheap :=
  DsHeap (d_queues s) (d_qnodes s) (d_stacks s) (d_btrees s) (d_bnodes s)
    (d_htabs s) (d_hnodes s) (d_rings s) (d_bufs s) (S (d_ticks s)).

#[export] Instance kheap_ds : Kheap dsheap := {|
  kh_live s := dom (d_queues s) ∪ dom (d_qnodes s) ∪ dom (d_stacks s) ∪ dom (d_btrees s) ∪
    dom (d_bnodes s) ∪ dom (d_htabs s) ∪ dom (d_hnodes s) ∪ dom (d_rings s) ∪ dom (d_bufs s);
  kh_ticks := d_ticks;
  kh_tick := ds_tick;
|}.

(** Field updates. *)
Definition qn_set_prev v n := QNode v (qn_data n) (qn_next n) (qn_queue n).
Definition qn_set_data v n := QNode (qn_prev n) v (qn_next n) (qn_queue n).
Definition qn_set_next v n := QNode (qn_prev n) (qn_data n) v (qn_queue n).
Definition qn_set_queue v n := QNode (qn_prev n) (qn_data n) (qn_next n) v.
Definition q_set_head v q := Queue v (q_tail q) (q_count q) (q_lock q).
Definition q_set_tail v q := Queue (q_head q) v (q_count q) (q_lock q).
Definition q_set_count v q := Queue (q_head q) (q_tail q) v (q_lock q).
Definition q_set_lock v q := Queue (q_head q) (q_tail q) (q_count q) v.

(** A queue node is its two links and the pair of its datum and owner. *)
#[export] Program Instance linked_qnode : Linked queue_node_t (ptr * ptr) := {|
  l_mk a d n := QNode a d.1 n d.2;
  set_prev := qn_set_prev;
  set_next := qn_set_next;
|}.
Next Obligation. done. Qed.
Next Obligation. done. Qed.

(** A chain node of a hash bucket is its two links and its datum. *)
Definition hn_set_prev v n := HNode v (hn_data n) (hn_next n).
Definition hn_set_next v n := HNode (hn_prev n) (hn_data n) v.
#[export] Program Instance linked_hnode : Linked hash_node_t ptr := {|
  l_mk a d n := HNode a d n;
  set_prev := hn_set_prev;
  set_next := hn_set_next;
|}.
Next Obligation. done. Qed.
Next Obligation. done. Qed.

(** ** Normal forms of the heap after field updates *)

Create Rewrite HintDb dsheap.
Lemma d_queues_set_queues m s : d_queues (set_queues m s) = m. Proof. done. Qed.
Lemma d_queues_set_qnodes m s : d_queues (set_qnodes m s) = d_queues s. Proof. done. Qed.
Lemma d_qnodes_set_qnodes m s : d_qnodes (set_qnodes m s) = m. Proof. done. Qed.
Lemma d_qnodes_set_queues m s : d_qnodes (set_queues m s) = d_qnodes s. Proof. done. Qed.
Lemma set_queues_queues m m' s : set_queues m (set_queues m' s) = set_queues m s. Proof. done. Qed.
Lemma set_qnodes_qnodes m m' s : set_qnodes m (set_qnodes m' s) = set_qnodes m s. Proof. done. Qed.
Lemma set_qnodes_queues m m' s :
  set_qnodes m (set_queues m' s) = set_queues m' (set_qnodes m s). Proof. done. Qed.
Lemma set_queues_id s : set_queues (d_queues s) s = s. Proof. by destruct s. Qed.
Lemma set_qnodes_id s : set_qnodes (d_qnodes s) s = s. Proof. by destruct s. Qed.
Lemma d_queues_tick s : d_queues (ds_tick s) = d_queues s. Proof. done. Qed.
Lemma d_qnodes_tick s : d_qnodes (ds_tick s) = d_qnodes s. Proof. done. Qed.
#[export] Hint Rewrite d_queues_tick d_qnodes_tick d_queues_set_queues d_queues_set_qnodes d_qnodes_set_qnodes
  d_qnodes_set_queues set_queues_queues set_qnodes_qnodes set_qnodes_queues
  set_queues_id set_qnodes_id : dsheap.
Arguments set_queues : simpl never.
Arguments set_qnodes : simpl never.
Arguments ds_tick : simpl never.

Ltac ds_norm :=
  cbn [hl_get hl_put hl_queues hl_qnodes kh_tick kheap_ds] in *;
  autorewrite with dsheap in *.

(** The objects that the queue code never touches. *)
Definition ds_rest (s : dsheap) :=
  (d_stacks s, d_btrees s, d_bnodes s, (d_htabs s, d_hnodes s, d_rings s, d_bufs s)).
