(* ===== verification/Queue.v ===== *)
(** * kernel/ds/queue.c: the doubly linked queue

    The queue every other part of the kernel uses (threads, signals, mounts,
    superblocks).  The operations are the C functions, statement by
    statement, on the heap of Heap.v; an output parameter [T **p] is the
    Boolean "p is not NULL" together with the value stored, if any, in the
    result.  The specifications relate the heap to the list of the queue's
    data by [queue_rep], and [Deque] is the abstract machine the operations
    refine. *)

From S2P Require Import Prelude Dll Heap.

(** ** Operations *)

Section operations.
Context {K : Kmalloc}.

Definition qload (q : ptr) : M dsheap queue_t := load q.
Definition qupd (q : ptr) (f : queue_t -> queue_t) : M dsheap unit := update q f.
Definition nload (n : ptr) : M dsheap queue_node_t := load n.
Definition nupd (n : ptr) (f : queue_node_t -> queue_node_t) : M dsheap unit := update n f.

Definition queue_assert (q : ptr) : M dsheap unit := assert_ (bool_decide (q ≠ NULL)).

Definition queue_lock (q : ptr) : M dsheap unit :=
  queue_assert q;;
  qs ← qload q;
  assert_ (negb (q_lock qs));;
  qupd q (q_set_lock true).

Definition queue_unlock (q : ptr) : M dsheap unit :=
  queue_assert q;;
  qs ← qload q;
  assert_ (q_lock qs);;
  qupd q (q_set_lock false).

Definition queue_islocked (q : ptr) : M dsheap bool :=
  queue_assert q;;
  qs ← qload q;
  mret (q_lock qs).

Definition queue_assert_locked (q : ptr) : M dsheap unit :=
  b ← queue_islocked q;
  assert_ b.

(** The bound on the iterations of a walk along a list of nodes: the number
    of nodes there are. *)
Definition walk_fuel : M dsheap nat := gets (λ s, size (d_qnodes s)).

Definition QUEUE_INIT : queue_t := Queue NULL NULL 0 false.

Definition queue_alloc (pqp : bool) : M dsheap (Z * option ptr) :=
  if negb pqp then mret (- EINVAL, None) else
  q ← kmalloc QUEUE_INIT;
  if decide (q = NULL) then mret (- ENOMEM, None) else
  mret (0, Some q).

(** The statements that take [node] out of [q] and free it, shared by the
    functions below:
<<
    if (prev) prev->next = next;
    if (next) next->prev = prev;
    if (node == q->head) q->head = next;
    if (node == q->tail) q->tail = prev;
    q->q_count--;
    node->queue = NULL;
    kfree(node);
>> *)
Definition queue_unlink_node (q node prev next : ptr) : M dsheap unit :=
  when (bool_decide (prev ≠ NULL)) (nupd prev (qn_set_next next));;
  when (bool_decide (next ≠ NULL)) (nupd next (qn_set_prev prev));;
  qs ← qload q;
  when (bool_decide (node = q_head qs)) (qupd q (q_set_head next));;
  qs ← qload q;
  when (bool_decide (node = q_tail qs)) (qupd q (q_set_tail prev));;
  qupd q (λ qs, q_set_count (u64 (q_count qs - 1)) qs);;
  nupd node (qn_set_queue NULL);;
  kfree queue_node_t node.

Fixpoint queue_flush_loop (fuel : nat) (q node : ptr) : M dsheap unit :=
  if decide (node = NULL) then mret tt else
  match fuel with
  | O => halt OutOfFuel
  | S fuel =>
      n ← nload node;
      queue_unlink_node q node (qn_prev n) (qn_next n);;
      queue_flush_loop fuel q (qn_next n)
  end.

Definition queue_flush (q : ptr) : M dsheap unit :=
  queue_assert_locked q;;
  qs ← qload q;
  fuel ← walk_fuel;
  queue_flush_loop fuel q (q_head qs).

Definition queue_free (q : ptr) : M dsheap unit :=
  b ← queue_islocked q;
  when (negb b) (queue_lock q);;
  queue_flush q;;
  queue_unlock q;;
  kfree queue_t q.

Definition queue_count (q : ptr) : M dsheap Z :=
  queue_assert_locked q;;
  qs ← qload q;
  mret (q_count qs).

Definition queue_peek (q : ptr) (tail : bool) (pdp : bool) : M dsheap (Z * option ptr) :=
  queue_assert_locked q;;
  if decide (q = NULL ∨ pdp = false) then mret (- EINVAL, None) else
  c ← queue_count q;
  if decide (c = 0) then mret (- ENOENT, None) else
  qs ← qload q;
  n ← nload (if tail then q_tail qs else q_head qs);
  mret (0, Some (qn_data n)).

Fixpoint queue_contains_loop (fuel : nat) (node data : ptr) (pnp : bool) : M dsheap (Z * option ptr) :=
  if decide (node = NULL) then mret (- ENOENT, None) else
  match fuel with
  | O => halt OutOfFuel
  | S fuel =>
      n ← nload node;
      if decide (qn_data n = data) then mret (0, if pnp then Some node else None)
      else queue_contains_loop fuel (qn_next n) data pnp
  end.

Definition queue_contains (q data : ptr) (pnp : bool) : M dsheap (Z * option ptr) :=
  queue_assert_locked q;;
  if decide (q = NULL) then mret (- EINVAL, None) else
  qs ← qload q;
  fuel ← walk_fuel;
  queue_contains_loop fuel (q_head qs) data pnp.

Definition enqueue (q data : ptr) (unique pnp : bool) : M dsheap (Z * option ptr) :=
  queue_assert_locked q;;
  if decide (q = NULL) then mret (- EINVAL, None) else
  err ← (if unique then fst <$> queue_contains q data false else mret 1);
  if decide (unique = true ∧ err = 0) then mret (- EEXIST, None) else
  node ← kmalloc (QNode NULL NULL NULL NULL);
  if decide (node = NULL) then mret (- ENOMEM, None) else
  nupd node (qn_set_data data);;
  qs ← qload q;
  (if decide (q_head qs = NULL) then qupd q (q_set_head node)
   else nupd (q_tail qs) (qn_set_next node);; nupd node (qn_set_prev (q_tail qs)));;
  qupd q (q_set_tail node);;
  nupd node (qn_set_queue q);;
  qupd q (λ qs, q_set_count (u64 (q_count qs + 1)) qs);;
  mret (0, if pnp then Some node else None).

Definition enqueue_head (q : ptr) (unique : bool) (data : ptr) (pnp : bool) : M dsheap (Z * option ptr) :=
  queue_assert_locked q;;
  if decide (q = NULL) then mret (- EINVAL, None) else
  err ← (if unique then fst <$> queue_contains q data false else mret 1);
  if decide (unique = true ∧ err = 0) then mret (- EEXIST, None) else
  node ← kmalloc (QNode NULL NULL NULL NULL);
  if decide (node = NULL) then mret (- ENOMEM, None) else
  nupd node (qn_set_data data);;
  qs ← qload q;
  (if decide (q_head qs = NULL) then qupd q (q_set_tail node)
   else nupd (q_head qs) (qn_set_prev node);; nupd node (qn_set_next (q_head qs)));;
  qupd q (q_set_head node);;
  nupd node (qn_set_queue q);;
  qupd q (λ qs, q_set_count (u64 (q_count qs + 1)) qs);;
  mret (0, if pnp then Some node else None).

Definition dequeue (q : ptr) (pdp : bool) : M dsheap (Z * option ptr) :=
  queue_assert_locked q;;
  if decide (q = NULL ∨ pdp = false) then mret (- EINVAL, None) else
  qs ← qload q;
  let node := q_head qs in
  if decide (node = NULL) then mret (- ENOENT, None) else
  n ← nload node;
  queue_unlink_node q node (qn_prev n) (qn_next n);;
  mret (0, Some (qn_data n)).

Fixpoint queue_remove_node_loop (fuel : nat) (q node target : ptr) : M dsheap Z :=
  if decide (node = NULL) then mret (- ENOENT) else
  match fuel with
  | O => halt OutOfFuel
  | S fuel =>
      n ← nload node;
      if decide (target = node) then
        queue_unlink_node q node (qn_prev n) (qn_next n);;
        mret 0
      else queue_remove_node_loop fuel q (qn_next n) target
  end.

Definition queue_remove_node (q target : ptr) : M dsheap Z :=
  queue_assert_locked q;;
  if decide (q = NULL ∨ target = NULL) then mret (- EINVAL) else
  qs ← qload q;
  fuel ← walk_fuel;
  queue_remove_node_loop fuel q (q_head qs) target.

Fixpoint queue_remove_loop (fuel : nat) (q node data : ptr) : M dsheap Z :=
  if decide (node = NULL) then mret (- ENOENT) else
  match fuel with
  | O => halt OutOfFuel
  | S fuel =>
      n ← nload node;
      if decide (qn_data n = data) then
        queue_unlink_node q node (qn_prev n) (qn_next n);;
        mret 0
      else queue_remove_loop fuel q (qn_next n) data
  end.

Definition queue_remove (q data : ptr) : M dsheap Z :=
  queue_assert_locked q;;
  if decide (q = NULL) then mret (- EINVAL) else
  qs ← qload q;
  fuel ← walk_fuel;
  queue_remove_loop fuel q (q_head qs) data.

Definition dequeue_tail (q : ptr) (pdp : bool) : M dsheap (Z * option ptr) :=
  queue_assert_locked q;;
  if decide (q = NULL ∨ pdp = false) then mret (- EINVAL, None) else
  qs ← qload q;
  let node := q_tail qs in
  if decide (node = NULL) then mret (- ENOENT, None) else
  n ← nload node;
  queue_unlink_node q node (qn_prev n) (qn_next n);;
  mret (0, Some (qn_data n)).

(** queue_relloc_t; a C enum can also hold any other integer. *)
Variant queue_relloc_t := QUEUE_RELLOC_TAIL | QUEUE_RELLOC_HEAD | QUEUE_RELLOC_OTHER.
#[global] Instance queue_relloc_eq_dec : EqDecision queue_relloc_t.
Proof. solve_decision. Defined.

Definition queue_rellocate_node (q node : ptr) (whence : queue_relloc_t) : M dsheap Z :=
  if decide (q = NULL ∨ node = NULL) then mret (- EINVAL) else
  queue_assert_locked q;;
  n ← nload node;
  if decide (qn_queue n ≠ q) then mret (- EPERM) else
  if decide (whence ≠ QUEUE_RELLOC_HEAD ∧ whence ≠ QUEUE_RELLOC_TAIL) then mret (- EINVAL) else
  let prev := qn_prev n in
  let next := qn_next n in
  when (bool_decide (next ≠ NULL)) (nupd next (qn_set_prev prev));;
  when (bool_decide (prev ≠ NULL)) (nupd prev (qn_set_next next));;
  qs ← qload q;
  when (bool_decide (q_head qs = node)) (qupd q (q_set_head next));;
  qs ← qload q;
  when (bool_decide (q_tail qs = node)) (qupd q (q_set_tail prev));;
  nupd node (qn_set_prev NULL);;
  nupd node (qn_set_next NULL);;
  qs ← qload q;
  match whence with
  | QUEUE_RELLOC_HEAD =>
      (if decide (q_head qs = NULL) then qupd q (q_set_tail node)
       else nupd (q_head qs) (qn_set_prev node);; nupd node (qn_set_next (q_head qs)));;
      qupd q (q_set_head node)
  | QUEUE_RELLOC_TAIL =>
      (if decide (q_head qs = NULL) then qupd q (q_set_head node)
       else nupd (q_tail qs) (qn_set_next node);; nupd node (qn_set_prev (q_tail qs)));;
      qupd q (q_set_tail node)
  | QUEUE_RELLOC_OTHER => mret tt
  end;;
  mret 0.

Definition queue_rellocate (q data : ptr) (whence : queue_relloc_t) : M dsheap Z :=
  if decide (q = NULL) then mret (- EINVAL) else
  queue_assert_locked q;;
  '(err, node) ← queue_contains q data true;
  if decide (err ≠ 0) then mret err else
  queue_rellocate_node q (default NULL node) whence.

End operations.

(** ** Representation *)

(** The nodes of queue [q]: each carries its datum and names [q] as owner. *)
Definition own (q : ptr) (xs : list (ptr * ptr)) : list (ptr * (ptr * ptr)) :=
  (λ x, (x.1, (x.2, q))) <$> xs.

(** [queue_rep s q lk xs]: the queue at [q] holds the nodes and data [xs], in
    order, and its lock is held iff [lk]. *)
Definition queue_rep (s : dsheap) (q : ptr) (lk : bool) (xs : list (ptr * ptr)) : Prop :=
  q ≠ NULL ∧
  d_queues s !! q = Some (Queue (hd_or NULL xs) (last_or NULL xs) (Z.of_nat (length xs)) lk) ∧
  dll (d_qnodes s) (hd_or NULL xs) (last_or NULL xs) (own q xs) ∧
  Forall valid_ptr (addrs xs).

(** What an operation on [q] leaves alone: every other queue, the nodes of
    every other queue, and every object of another kind. *)
Definition queue_frame (q : ptr) (s s' : dsheap) : Prop :=
  (∀ q', q' ≠ q -> d_queues s' !! q' = d_queues s !! q') ∧
  (∀ p n, d_qnodes s !! p = Some n -> qn_queue n ≠ q -> d_qnodes s' !! p = Some n) ∧
  ds_rest s' = ds_rest s.

Lemma hd_or_own q b xs : hd_or b (own q xs) = hd_or b xs.
Proof. by destruct xs. Qed.
Lemma last_or_own q a xs : last_or a (own q xs) = last_or a xs.
Proof. revert a. induction xs; simpl; auto. Qed.
Lemma own_app q xs ys : own q (xs ++ ys) = own q xs ++ own q ys.
Proof. apply fmap_app. Qed.
Lemma addrs_own q xs : addrs (own q xs) = addrs xs.
Proof. unfold own. rewrite <- list_fmap_compose. by apply list_fmap_ext. Qed.

Lemma queue_frame_refl q s : queue_frame q s s.
Proof. by repeat split. Qed.

Lemma queue_frame_trans q s1 s2 s3 :
  queue_frame q s1 s2 -> queue_frame q s2 s3 -> queue_frame q s1 s3.
Proof.
  intros (Ha & Hb & Hc) (Ha' & Hb' & Hc'). split; [|split; [|congruence]].
  - intros q' Hq. by rewrite Ha', Ha.
  - intros p n Hp Hn. apply Hb'; auto.
Qed.

Lemma queue_rep_frame q q' s s' lk xs :
  q' ≠ q -> queue_frame q s s' -> queue_rep s q' lk xs -> queue_rep s' q' lk xs.
Proof.
  intros Hne (Hq & Hn & _) (Hv & Hl & Hd & Hx). split; [done|].
  rewrite Hq by done. split; [done|]. split; [|done].
  eapply dll_frame; [|done]. intros p Hp. rewrite addrs_own in Hp.
  apply list_elem_of_fmap in Hp as ([p' d] & -> & Hin). simpl.
  apply list_elem_of_split in Hin as (l1 & l2 & ->).
  rewrite own_app in Hd. apply dll_mid in Hd as (_ & _ & _ & Hp).
  simpl in *. rewrite Hp. apply Hn; [done|]. simpl. congruence.
Qed.

Lemma queue_rep_count s q lk xs :
  queue_rep s q lk xs -> Z.of_nat (length xs) < two64.
Proof.
  intros (_ & _ & (_ & _ & Hnd & _) & Hv). rewrite addrs_own in Hnd.
  rewrite <- (length_fmap fst xs). by apply valid_ptrs_length.
Qed.

(** ** Symbolic execution of the primitive statements *)

Lemma wp_qload s q qs (Q : queue_t -> dsheap -> Prop) :
  q ≠ NULL -> d_queues s !! q = Some qs -> Q qs s -> wp (qload q) s Q.
Proof. intros. by eapply wp_load. Qed.

Lemma wp_nload s p n (Q : queue_node_t -> dsheap -> Prop) :
  p ≠ NULL -> d_qnodes s !! p = Some n -> Q n s -> wp (nload p) s Q.
Proof. intros. by eapply wp_load. Qed.

Lemma wp_qupd s q qs f (Q : unit -> dsheap -> Prop) :
  q ≠ NULL -> d_queues s !! q = Some qs ->
  Q tt (set_queues (<[q := f qs]> (d_queues s)) s) -> wp (qupd q f) s Q.
Proof. intros. by eapply wp_update. Qed.

Lemma wp_nupd s p n f (Q : unit -> dsheap -> Prop) :
  p ≠ NULL -> d_qnodes s !! p = Some n ->
  Q tt (set_qnodes (<[p := f n]> (d_qnodes s)) s) -> wp (nupd p f) s Q.
Proof. intros. by eapply wp_update. Qed.

Lemma wp_put_next s p n (Q : unit -> dsheap -> Prop) :
  p = NULL ∨ is_Some (d_qnodes s !! p) ->
  Q tt (set_qnodes (put_next p n (d_qnodes s)) s) ->
  wp (when (bool_decide (p ≠ NULL)) (nupd p (qn_set_next n))) s Q.
Proof.
  intros Hp HQ. unfold put_next in HQ. apply wp_when; intros Hb.
  - apply bool_decide_eq_true in Hb. rewrite decide_False in HQ by done.
    destruct Hp as [|[v Hv]]; [done|]. eapply wp_nupd; [done|done|].
    by rewrite (alter_insert_Some _ _ _ _ Hv).
  - apply bool_decide_eq_false, dec_stable in Hb. rewrite decide_True in HQ by done.
    by rewrite set_qnodes_id in HQ.
Qed.

Lemma wp_put_prev s p n (Q : unit -> dsheap -> Prop) :
  p = NULL ∨ is_Some (d_qnodes s !! p) ->
  Q tt (set_qnodes (put_prev p n (d_qnodes s)) s) ->
  wp (when (bool_decide (p ≠ NULL)) (nupd p (qn_set_prev n))) s Q.
Proof.
  intros Hp HQ. unfold put_prev in HQ. apply wp_when; intros Hb.
  - apply bool_decide_eq_true in Hb. rewrite decide_False in HQ by done.
    destruct Hp as [|[v Hv]]; [done|]. eapply wp_nupd; [done|done|].
    by rewrite (alter_insert_Some _ _ _ _ Hv).
  - apply bool_decide_eq_false, dec_stable in Hb. rewrite decide_True in HQ by done.
    by rewrite set_qnodes_id in HQ.
Qed.

Lemma wp_queue_assert_locked s q lk xs (Q : unit -> dsheap -> Prop) :
  queue_rep s q lk xs -> lk = true -> Q tt s -> wp (queue_assert_locked q) s Q.
Proof.
  intros (Hv & Hl & _) -> HQ. unfold queue_assert_locked, queue_islocked, queue_assert.
  wp_auto. { by apply bool_decide_eq_true. }
  eapply wp_qload; [done|done|]. by wp_auto.
Qed.

Lemma own_mid q xs p d ys : own q (xs ++ (p, d) :: ys) = own q xs ++ (p, (d, q)) :: own q ys.
Proof. by rewrite own_app. Qed.

Lemma queue_count_pred (xs ys : list (ptr * ptr)) x :
  Z.of_nat (length (xs ++ x :: ys)) < two64 ->
  u64 (Z.of_nat (length (xs ++ x :: ys)) - 1) = Z.of_nat (length (xs ++ ys)).
Proof.
  rewrite !length_app. simpl. intros Hlt. rewrite u64_small; [lia|].
  unfold in_u64, two64 in *. lia.
Qed.

Lemma wp_when_qupd s q qs (P : Prop) `{Decision P} f (Q : unit -> dsheap -> Prop) :
  q ≠ NULL -> d_queues s !! q = Some qs ->
  Q tt (set_queues (<[q := if decide P then f qs else qs]> (d_queues s)) s) ->
  wp (when (bool_decide P) (qupd q f)) s Q.
Proof.
  intros Hq Hl HQ. apply wp_when; intros Hb.
  - apply bool_decide_eq_true in Hb. rewrite decide_True in HQ by done.
    by eapply wp_qupd.
  - apply bool_decide_eq_false in Hb. rewrite decide_False in HQ by done.
    rewrite insert_id in HQ by done. by rewrite set_queues_id in HQ.
Qed.

Lemma wp_when_set_head s q h t c l (P : Prop) `{Decision P} v (Q : unit -> dsheap -> Prop) :
  q ≠ NULL -> d_queues s !! q = Some (Queue h t c l) ->
  Q tt (set_queues (<[q := Queue (if decide P then v else h) t c l]> (d_queues s)) s) ->
  wp (when (bool_decide P) (qupd q (q_set_head v))) s Q.
Proof. intros ?? HQ. eapply wp_when_qupd; [done|done|]. by case_decide. Qed.

Lemma wp_when_set_tail s q h t c l (P : Prop) `{Decision P} v (Q : unit -> dsheap -> Prop) :
  q ≠ NULL -> d_queues s !! q = Some (Queue h t c l) ->
  Q tt (set_queues (<[q := Queue h (if decide P then v else t) c l]> (d_queues s)) s) ->
  wp (when (bool_decide P) (qupd q (q_set_tail v))) s Q.
Proof. intros ?? HQ. eapply wp_when_qupd; [done|done|]. by case_decide. Qed.

(** A node owned by another queue is not a node of this one. *)
Lemma foreign_node h hd tl q xs p n :
  dll h hd tl (own q xs) -> h !! p = Some n -> qn_queue n ≠ q -> p ∉ addrs xs.
Proof.
  intros Hd Hp Hn ([p' d] & -> & (l1 & l2 & ->)%list_elem_of_split)%list_elem_of_fmap.
  rewrite own_mid in Hd. apply dll_mid in Hd as (_ & _ & _ & Hp').
  simpl in *. rewrite Hp in Hp'. injection Hp' as ->. by simpl in Hn.
Qed.

Lemma queue_rep_build s q lk xs N :
  q ≠ NULL -> Forall valid_ptr (addrs xs) ->
  dll N (hd_or NULL xs) (last_or NULL xs) (own q xs) ->
  queue_rep (set_queues (<[q := Queue (hd_or NULL xs) (last_or NULL xs)
    (Z.of_nat (length xs)) lk]> (d_queues s)) (set_qnodes N s)) q lk xs.
Proof.
  intros Hq Hv Hd. unfold queue_rep. ds_norm. rewrite lookup_insert_eq. done.
Qed.

Lemma queue_frame_build s q v N :
  (∀ p n, d_qnodes s !! p = Some n -> qn_queue n ≠ q -> N !! p = Some n) ->
  queue_frame q s (set_queues (<[q := v]> (d_queues s)) (set_qnodes N s)).
Proof.
  intros HN. split; [|split; [|done]]; ds_norm; [|done].
  intros q' Hq'. by rewrite lookup_insert_ne.
Qed.

(** The block that unlinks a node, run on the node in the middle of a queue. *)
Lemma wp_queue_unlink s q xs p d ys (Q : unit -> dsheap -> Prop) :
  queue_rep s q true (xs ++ (p, d) :: ys) ->
  (∀ s', queue_rep s' q true (xs ++ ys) -> queue_frame q s s' ->
     dom (d_qnodes s') = dom (d_qnodes s) ∖ {[p]} -> d_ticks s' = d_ticks s -> Q tt s') ->
  wp (queue_unlink_node q p (last_or NULL xs) (hd_or NULL ys)) s Q.
Proof.
  intros Hrep HQ. pose proof (queue_rep_count _ _ _ _ Hrep) as Hlt.
  destruct Hrep as (Hq & Hl & Hd & Hv). rewrite own_mid in Hd.
  pose proof (dll_mid _ _ _ _ _ _ _ Hd) as (Hp & Hpx & Hpy & Hnp).
  pose proof (dll_unlink _ _ _ _ _ _ _ Hd) as Hd'.
  rewrite addrs_own in Hpx, Hpy. rewrite last_or_own, hd_or_own in Hnp, Hd'.
  rewrite <- own_app, hd_or_own, last_or_own in Hd'.
  pose proof Hq as Hq0.
  pose proof Hd as (_ & _ & Hnd & _ & _). rewrite <- own_mid, addrs_own in Hnd.
  unfold queue_unlink_node. wp_step. apply wp_put_next.
  { rewrite <- (last_or_own q). by eapply dll_last_live. }
  wp_step. apply wp_put_prev.
  { ds_norm. rewrite <- !elem_of_dom, dom_put_next, elem_of_dom, <- (hd_or_own q).
    by eapply dll_next_live. }
  wp_step. eapply wp_qload; [done|by ds_norm|]. ds_norm.
  wp_step. eapply wp_when_set_head; [done|by ds_norm|]. ds_norm.
  wp_step. eapply wp_qload; [done|ds_norm; apply lookup_insert_eq|].
  wp_step. eapply wp_when_set_tail; [done|ds_norm; apply lookup_insert_eq|]. ds_norm.
  wp_step. eapply wp_qupd; [done|ds_norm; apply lookup_insert_eq|]. ds_norm.
  rewrite !insert_insert_eq. unfold q_set_count. cbn [q_head q_tail q_count q_lock].
  rewrite hd_or_unlink, last_or_unlink, queue_count_pred by done.
  fold (unlink p (last_or NULL xs) (hd_or NULL ys) (d_qnodes s)).
  assert (unlink p (last_or NULL xs) (hd_or NULL ys) (d_qnodes s) !! p =
          Some (l_mk (last_or NULL xs) (d, q) (hd_or NULL ys))) as Hup.
  { rewrite <- (last_or_own q), <- (hd_or_own q). 
    erewrite unlink_outside; [|done|].
    - by rewrite last_or_own, hd_or_own.
    - rewrite <- own_app, addrs_own, fmap_app, elem_of_app. tauto. }
  wp_step. eapply wp_nupd; [done|by ds_norm|]. ds_norm.
  eapply (wp_kfree (V := queue_node_t)); [done|ds_norm; apply lookup_insert_eq|]. ds_norm.
  rewrite delete_insert_eq.
  apply HQ; [| | |done].
  - apply queue_rep_build; [done| |].
    + rewrite fmap_app in *. simpl in Hv. apply Forall_app in Hv as [? [_ ?]%Forall_cons].
      by apply Forall_app.
    + eapply dll_frame; [|done]. intros p' Hp'. apply lookup_delete_ne. intros ->.
      rewrite addrs_own, fmap_app, elem_of_app in Hp'. tauto.
  - apply queue_frame_build. intros p' n Hp' Hn.
    rewrite <- own_mid in Hd. pose proof (foreign_node _ _ _ _ _ _ _ Hd Hp' Hn) as Hf.
    rewrite fmap_app, elem_of_app in Hf. simpl in Hf. rewrite elem_of_cons in Hf.
    rewrite lookup_delete_ne by naive_solver.
    rewrite <- (last_or_own q), <- (hd_or_own q). rewrite own_mid in Hd.
    erewrite unlink_outside; [done|done|].
    rewrite <- own_app, addrs_own, fmap_app, elem_of_app. tauto.
  - ds_norm. rewrite dom_delete_L. by rewrite dom_unlink.
Qed.

(** ** Specifications of the operations *)

(** The first node holding [data], and the list without it. *)
Fixpoint find_node (data : ptr) (xs : list (ptr * ptr)) : option ptr :=
  match xs with
  | [] => None
  | (p, d) :: xs => if decide (d = data) then Some p else find_node data xs
  end.
Fixpoint remove_data (data : ptr) (xs : list (ptr * ptr)) : list (ptr * ptr) :=
  match xs with
  | [] => []
  | (p, d) :: xs => if decide (d = data) then xs else (p, d) :: remove_data data xs
  end.
Fixpoint remove_addr (a : ptr) (xs : list (ptr * ptr)) : list (ptr * ptr) :=
  match xs with
  | [] => []
  | (p, d) :: xs => if decide (p = a) then xs else (p, d) :: remove_addr a xs
  end.

Lemma find_node_None data xs : find_node data xs = None <-> data ∉ xs.*2.
Proof.
  induction xs as [|[p d] xs IH]; simpl; [set_solver|].
  rewrite not_elem_of_cons. case_decide; naive_solver.
Qed.

Lemma find_node_split data xs p :
  find_node data xs = Some p ->
  ∃ l1 l2, xs = l1 ++ (p, data) :: l2 ∧ data ∉ l1.*2 ∧ remove_data data xs = l1 ++ l2.
Proof.
  induction xs as [|[p' d] xs IH]; simpl; [done|]. case_decide as Hd.
  - intros [= ->]. subst d. exists [], xs. simpl. split; [done|]. set_solver.
  - intros (l1 & l2 & -> & Hn & ->)%IH. exists ((p', d) :: l1), l2. simpl.
    split; [done|]. split; [|done]. rewrite not_elem_of_cons. done.
Qed.

Lemma remove_data_None data xs : find_node data xs = None -> remove_data data xs = xs.
Proof.
  induction xs as [|[p d] xs IH]; simpl; [done|]. case_decide; [done|].
  intros. f_equal. auto.
Qed.

Lemma remove_addr_split a xs :
  a ∈ addrs xs -> ∃ l1 d l2, xs = l1 ++ (a, d) :: l2 ∧ a ∉ addrs l1 ∧ remove_addr a xs = l1 ++ l2.
Proof.
  induction xs as [|[p d] xs IH]; simpl; [set_solver|]. rewrite elem_of_cons.
  case_decide as Hp; [|intros [->|(l1 & d' & l2 & -> & Hn & ->)%IH]; [done|]].
  - intros _. subst. exists [], d, xs. simpl. set_solver.
  - exists ((p, d) :: l1), d', l2. simpl. rewrite not_elem_of_cons. naive_solver.
Qed.

(** A node at a known position of a queue, as the walks read it. *)
Lemma queue_rep_node s q lk xs p d ys :
  queue_rep s q lk (xs ++ (p, d) :: ys) ->
  p ≠ NULL ∧ p ∉ addrs xs ∧ p ∉ addrs ys ∧
  d_qnodes s !! p = Some (QNode (last_or NULL xs) d (hd_or NULL ys) q).
Proof.
  intros (_ & _ & Hd & _). rewrite own_mid in Hd.
  apply dll_mid in Hd as (? & ? & ? & Hp). rewrite !addrs_own in *.
  rewrite last_or_own, hd_or_own in Hp. done.
Qed.

Lemma queue_rep_null s q lk xs ys :
  queue_rep s q lk (xs ++ ys) -> hd_or NULL ys = NULL -> ys = [].
Proof.
  intros (_ & _ & (_ & _ & _ & Hn & _) & _). rewrite addrs_own, fmap_app in Hn.
  apply hd_or_null. set_solver.
Qed.

Lemma queue_rep_fuel s q lk xs : queue_rep s q lk xs -> (length xs <= size (d_qnodes s))%nat.
Proof.
  intros (_ & _ & Hd & _). apply dll_length in Hd. unfold own in Hd. by rewrite length_fmap in Hd.
Qed.

Lemma wp_queue_head s q lk xs (Q : queue_t -> dsheap -> Prop) :
  queue_rep s q lk xs ->
  Q (Queue (hd_or NULL xs) (last_or NULL xs) (Z.of_nat (length xs)) lk) s ->
  wp (qload q) s Q.
Proof.
  intros (Hv & Hl & _) HQ. by eapply wp_qload.
Qed.

Lemma wp_contains_loop fuel s q lk xs ys data (pnp : bool) (Q : Z * option ptr -> dsheap -> Prop) :
  queue_rep s q lk (xs ++ ys) -> (length ys <= fuel)%nat ->
  Q (match find_node data ys with
     | Some p => (0, if pnp then Some p else None)
     | None => (- ENOENT, None) end) s ->
  wp (queue_contains_loop fuel (hd_or NULL ys) data pnp) s Q.
Proof.
  revert xs ys. induction fuel as [|fuel IH]; intros xs ys Hrep Hf HQ; simpl.
  - destruct ys as [|]; [|simpl in Hf; lia]. by apply wp_ret.
  - case_decide as Hn.
    { apply (queue_rep_null _ _ _ _ _ Hrep) in Hn as ->. by apply wp_ret. }
    destruct ys as [|[p d] ys]; [done|].
    pose proof (queue_rep_node _ _ _ _ _ _ _ Hrep) as (Hp & _ & _ & Hl).
    wp_step. eapply wp_nload; [done|done|]. simpl in *.
    case_decide as Hd; [by apply wp_ret|].
    rewrite cons_middle, app_assoc in Hrep. eapply IH; [done|lia|done].
Qed.

Lemma wp_queue_contains s q xs data (pnp : bool) (Q : Z * option ptr -> dsheap -> Prop) :
  queue_rep s q true xs ->
  Q (match find_node data xs with
     | Some p => (0, if pnp then Some p else None)
     | None => (- ENOENT, None) end) s ->
  wp (queue_contains q data pnp) s Q.
Proof.
  intros Hrep HQ. unfold queue_contains. wp_step.
  eapply wp_queue_assert_locked; [done|done|].
  rewrite decide_False by (by destruct Hrep as (? & _)).
  wp_step. eapply wp_queue_head; [done|]. wp_step. unfold walk_fuel. wp_step.
  eapply (wp_contains_loop _ _ _ _ []); [done|by eapply queue_rep_fuel|done].
Qed.

Lemma wp_remove_loop fuel s q xs ys data (Q : Z -> dsheap -> Prop) :
  queue_rep s q true (xs ++ ys) -> (length ys <= fuel)%nat ->
  (find_node data ys = None -> Q (- ENOENT) s) ->
  (∀ p s', find_node data ys = Some p -> queue_rep s' q true (xs ++ remove_data data ys) ->
     queue_frame q s s' -> dom (d_qnodes s') = dom (d_qnodes s) ∖ {[p]} -> Q 0 s') ->
  wp (queue_remove_loop fuel q (hd_or NULL ys) data) s Q.
Proof.
  revert xs ys. induction fuel as [|fuel IH]; intros xs ys Hrep Hf HN HS; simpl.
  - destruct ys as [|]; [|simpl in Hf; lia]. apply wp_ret. auto.
  - case_decide as Hn.
    { apply (queue_rep_null _ _ _ _ _ Hrep) in Hn as ->. apply wp_ret. auto. }
    destruct ys as [|[p d] ys]; [done|].
    pose proof (queue_rep_node _ _ _ _ _ _ _ Hrep) as (Hp & _ & _ & Hl).
    wp_step. eapply wp_nload; [done|done|]. simpl in *.
    case_decide as Hd.
    + wp_step. eapply wp_queue_unlink; [done|]. intros. apply wp_ret. eauto.
    + rewrite cons_middle, app_assoc in Hrep. eapply IH; [done|lia|done|].
      intros p' s'. rewrite <- app_assoc. simpl. eauto.
Qed.

Lemma wp_remove_node_loop fuel s q xs ys target (Q : Z -> dsheap -> Prop) :
  queue_rep s q true (xs ++ ys) -> (length ys <= fuel)%nat ->
  (target ∉ addrs ys -> Q (- ENOENT) s) ->
  (∀ s', target ∈ addrs ys -> queue_rep s' q true (xs ++ remove_addr target ys) ->
     queue_frame q s s' -> dom (d_qnodes s') = dom (d_qnodes s) ∖ {[target]} -> Q 0 s') ->
  wp (queue_remove_node_loop fuel q (hd_or NULL ys) target) s Q.
Proof.
  revert xs ys. induction fuel as [|fuel IH]; intros xs ys Hrep Hf HN HS; simpl.
  - destruct ys as [|]; [|simpl in Hf; lia]. apply wp_ret. set_solver.
  - case_decide as Hn.
    { apply (queue_rep_null _ _ _ _ _ Hrep) in Hn as ->. apply wp_ret. set_solver. }
    destruct ys as [|[p d] ys]; [done|].
    pose proof (queue_rep_node _ _ _ _ _ _ _ Hrep) as (Hp & _ & _ & Hl).
    wp_step. eapply wp_nload; [done|done|]. simpl in Hf, HN, HS |- *.
    destruct (decide (target = p)) as [<-|Hd].
    + wp_step. eapply wp_queue_unlink; [done|]. intros. apply wp_ret.
      rewrite decide_True in HS by done. apply HS; [left|done..].
    + rewrite cons_middle, app_assoc in Hrep. eapply IH; [done|lia| |].
      * intros Hnin. apply HN. rewrite not_elem_of_cons. done.
      * intros s'. rewrite <- app_assoc. simpl. intros.
        rewrite decide_False in HS by done. apply HS; [by right|done..].
Qed.

Lemma queue_rep_app_valid s q lk xs : queue_rep s q lk xs -> q ≠ NULL.
Proof. intros (? & _). done. Qed.

Lemma fresh_node p s :
  p ∉ kh_live s -> d_qnodes s !! p = None ∧ d_queues s !! p = None.
Proof. simpl. rewrite !not_elem_of_union, !not_elem_of_dom. naive_solver. Qed.

Lemma queue_count_succ (xs : list (ptr * ptr)) :
  Z.of_nat (length xs) + 1 < two64 ->
  u64 (Z.of_nat (length xs) + 1) = Z.of_nat (S (length xs)).
Proof. intros. rewrite u64_small; [lia|]. unfold in_u64. lia. Qed.

(** Linking a fresh node anywhere in a queue, as a fact about the heap. *)
Lemma queue_link s q xs ys p data :
  queue_rep s q true (xs ++ ys) -> valid_ptr p -> d_qnodes s !! p = None ->
  let N := link p (data, q) (last_or NULL xs) (hd_or NULL ys) (d_qnodes s) in
  let s' := set_queues (<[q := Queue (hd_or p xs) (last_or p ys)
              (Z.of_nat (S (length (xs ++ ys)))) true]> (d_queues s)) (set_qnodes N (ds_tick s)) in
  queue_rep s' q true (xs ++ (p, data) :: ys) ∧ queue_frame q s s' ∧
  dom (d_qnodes s') = {[p]} ∪ dom (d_qnodes s) ∧
  Z.of_nat (length (xs ++ ys)) + 1 < two64.
Proof.
  intros (Hq & Hl & Hd & Hv) Hp Hfresh N s'.
  assert (p ∉ addrs (own q xs ++ own q ys)) as Hpf.
  { intros ([p' d] & Heq & Hin)%list_elem_of_fmap. simpl in Heq. subst p'.
    rewrite <- own_app in Hin. eapply dll_in_heap in Hin as [_ [? ?]]; [|done]. congruence. }
  rewrite own_app in Hd.
  pose proof (dll_link _ _ _ _ p (data, q) _ Hd (valid_ptr_nonnull _ Hp) Hpf) as Hd'.
  rewrite last_or_own, !hd_or_own, last_or_own, <- own_mid in Hd'. fold N in Hd'.
  assert (hd_or p xs = hd_or NULL (xs ++ (p, data) :: ys)) as E1 by (by rewrite hd_or_app).
  assert (last_or p ys = last_or NULL (xs ++ (p, data) :: ys)) as E2 by (by rewrite last_or_app).
  assert (Forall valid_ptr (addrs (xs ++ (p, data) :: ys))) as Hv'.
  { rewrite fmap_app in *. simpl. apply Forall_app in Hv as [? ?].
    apply Forall_app. split; [done|]. by apply Forall_cons. }
  split; [|split; [|split]].
  - subst s'. rewrite E1, E2.
    replace (S (length (xs ++ ys))) with (length (xs ++ (p, data) :: ys))
      by (rewrite !length_app; simpl; lia).
    rewrite E1, E2 in Hd'.
    change (d_queues s) with (d_queues (ds_tick s)). by apply queue_rep_build.
  - change (queue_frame q (ds_tick s) s'). subst s'.
    change (d_queues s) with (d_queues (ds_tick s)).
    apply queue_frame_build. ds_norm. intros p' n Hp' Hn. subst N.
    rewrite <- own_app in Hd. pose proof (foreign_node _ _ _ _ _ _ _ Hd Hp' Hn) as Hf.
    rewrite <- (last_or_own q), <- (hd_or_own q). rewrite own_app in Hd.
    erewrite link_outside; [done|done|].
    rewrite <- own_mid, addrs_own, fmap_app, elem_of_app. simpl. rewrite elem_of_cons.
    rewrite fmap_app, elem_of_app in Hf. naive_solver congruence.
  - subst s' N. ds_norm. unfold link. by rewrite dom_insert_L, dom_put_prev, dom_put_next.
  - destruct Hd' as (_ & _ & Hnd & _). rewrite addrs_own in Hnd.
    pose proof (valid_ptrs_length _ Hnd Hv') as Hlen.
    rewrite length_fmap, length_app in Hlen. simpl in Hlen. rewrite length_app. lia.
Qed.

(** The statements of [enqueue] after the allocation of [p]. *)
Lemma wp_enqueue_link s q xs p data (pnp : bool) (Q : Z * option ptr -> dsheap -> Prop) :
  queue_rep s q true xs -> valid_ptr p -> d_qnodes s !! p = None ->
  (∀ s', queue_rep s' q true (xs ++ [(p, data)]) -> queue_frame q s s' ->
     dom (d_qnodes s') = {[p]} ∪ dom (d_qnodes s) -> Q (0, if pnp then Some p else None) s') ->
  wp (nupd p (qn_set_data data);;
      qs ← qload q;
      (if decide (q_head qs = NULL) then qupd q (q_set_head p)
       else nupd (q_tail qs) (qn_set_next p);; nupd p (qn_set_prev (q_tail qs)));;
      qupd q (q_set_tail p);;
      nupd p (qn_set_queue q);;
      qupd q (λ qs, q_set_count (u64 (q_count qs + 1)) qs);;
      mret (0, if pnp then Some p else None))
     (set_qnodes (<[p := QNode NULL NULL NULL NULL]> (d_qnodes s)) (ds_tick s)) Q.
Proof.
  intros Hrep Hp Hfn HO. pose proof Hrep as (Hq & Hl & Hd & Hv).
  apply valid_ptr_nonnull in Hp as Hp0. pose proof Hq as Hq0.
  destruct (queue_link s q xs [] p data) as (Hr' & Hf' & Hdom & Hlt); [by rewrite app_nil_r|done..|].
  rewrite app_nil_r in *. cbn zeta in *. cbn [last_or hd_or] in *.
  specialize (HO _ Hr' Hf' Hdom). clear Hr' Hf' Hdom.
  wp_step. eapply wp_nupd; [done|ds_norm; apply lookup_insert_eq|]. ds_norm.
  rewrite insert_insert_eq. wp_step. eapply wp_qload; [done|by ds_norm|].
  wp_step. cbn [q_head q_tail]. destruct (decide (xs = [])) as [->|Hne].
  - rewrite decide_True by done. eapply wp_qupd; [done|by ds_norm|]. ds_norm.
    wp_step. eapply wp_qupd; [done|ds_norm; apply lookup_insert_eq|]. ds_norm.
    wp_step. eapply wp_nupd; [done|ds_norm; apply lookup_insert_eq|]. ds_norm.
    wp_step. eapply wp_qupd; [done|ds_norm; apply lookup_insert_eq|]. ds_norm.
    rewrite !insert_insert_eq. wp_step. exact HO.
  - rewrite decide_False by (by intros ?%(queue_rep_null s q true [] xs Hrep)).
    destruct (exists_last Hne) as (xs' & [t d] & ->).
    destruct (queue_rep_node _ _ _ _ _ _ _ Hrep) as (Ht & _ & _ & Hlt').
    rewrite last_or_snoc in *. cbn [fst] in *. assert (t ≠ p) by congruence.
    wp_step. eapply wp_nupd; [done|ds_norm; by rewrite lookup_insert_ne|]. ds_norm.
    eapply wp_nupd; [done|ds_norm; rewrite lookup_insert_ne by done; apply lookup_insert_eq|].
    ds_norm. wp_step. eapply wp_qupd; [done|by ds_norm|]. ds_norm.
    wp_step. eapply wp_nupd; [done|ds_norm; apply lookup_insert_eq|]. ds_norm.
    wp_step. eapply wp_qupd; [done|ds_norm; apply lookup_insert_eq|]. ds_norm.
    wp_step. rewrite !insert_insert_eq, (insert_insert_ne _ t p) by done.
    rewrite insert_insert_eq. revert HO. unfold link, put_next, put_prev.
    rewrite decide_True, decide_False by done.
    rewrite (alter_insert_Some _ _ _ _ Hlt') by done.
    unfold q_set_tail, q_set_count. cbn [q_head q_tail q_count q_lock].
    rewrite queue_count_succ by done.
    rewrite (hd_or_app NULL), (hd_or_app p). by destruct xs'.
Qed.

(** The statements of [enqueue_head] after the allocation of [p]. *)
Lemma wp_enqueue_head_link s q xs p data (pnp : bool) (Q : Z * option ptr -> dsheap -> Prop) :
  queue_rep s q true xs -> valid_ptr p -> d_qnodes s !! p = None ->
  (∀ s', queue_rep s' q true ((p, data) :: xs) -> queue_frame q s s' ->
     dom (d_qnodes s') = {[p]} ∪ dom (d_qnodes s) -> Q (0, if pnp then Some p else None) s') ->
  wp (nupd p (qn_set_data data);;
      qs ← qload q;
      (if decide (q_head qs = NULL) then qupd q (q_set_tail p)
       else nupd (q_head qs) (qn_set_prev p);; nupd p (qn_set_next (q_head qs)));;
      qupd q (q_set_head p);;
      nupd p (qn_set_queue q);;
      qupd q (λ qs, q_set_count (u64 (q_count qs + 1)) qs);;
      mret (0, if pnp then Some p else None))
     (set_qnodes (<[p := QNode NULL NULL NULL NULL]> (d_qnodes s)) (ds_tick s)) Q.
Proof.
  intros Hrep Hp Hfn HO. pose proof Hrep as (Hq & Hl & Hd & Hv).
  apply valid_ptr_nonnull in Hp as Hp0. pose proof Hq as Hq0.
  destruct (queue_link s q [] xs p data) as (Hr' & Hf' & Hdom & Hlt); [done..|].
  cbn zeta in *. cbn [last_or hd_or app] in *.
  specialize (HO _ Hr' Hf' Hdom). clear Hr' Hf' Hdom.
  wp_step. eapply wp_nupd; [done|ds_norm; apply lookup_insert_eq|]. ds_norm.
  rewrite insert_insert_eq. wp_step. eapply wp_qload; [done|by ds_norm|].
  wp_step. cbn [q_head q_tail]. destruct xs as [|[h d] xs].
  - rewrite decide_True by done. eapply wp_qupd; [done|by ds_norm|]. ds_norm.
    wp_step. eapply wp_qupd; [done|ds_norm; apply lookup_insert_eq|]. ds_norm.
    wp_step. eapply wp_nupd; [done|ds_norm; apply lookup_insert_eq|]. ds_norm.
    wp_step. eapply wp_qupd; [done|ds_norm; apply lookup_insert_eq|]. ds_norm.
    rewrite !insert_insert_eq. wp_step. exact HO.
  - destruct (queue_rep_node s q true [] h d xs Hrep) as (Hh & _ & _ & Hlh).
    cbn [hd_or fst] in *. rewrite decide_False by done. assert (h ≠ p) by congruence.
    wp_step. eapply wp_nupd; [done|ds_norm; by rewrite lookup_insert_ne|]. ds_norm.
    eapply wp_nupd; [done|ds_norm; rewrite lookup_insert_ne by done; apply lookup_insert_eq|].
    ds_norm. wp_step. eapply wp_qupd; [done|by ds_norm|]. ds_norm.
    wp_step. eapply wp_nupd; [done|ds_norm; apply lookup_insert_eq|]. ds_norm.
    wp_step. eapply wp_qupd; [done|ds_norm; apply lookup_insert_eq|]. ds_norm.
    wp_step. rewrite !insert_insert_eq, (insert_insert_ne _ h p) by done.
    rewrite insert_insert_eq. revert HO. unfold link, put_next, put_prev.
    rewrite decide_False, decide_True by done.
    rewrite (alter_insert_Some _ _ _ _ Hlh) by done.
    unfold q_set_head, q_set_count. cbn [q_head q_tail q_count q_lock].
    by rewrite queue_count_succ by done.
Qed.

Section specs.
Context {K : Kmalloc}.

(** The code shared by [enqueue] and [enqueue_head] up to the allocation. *)
Lemma wp_unique_test s q xs data (unique : bool) (Q : Z -> dsheap -> Prop) :
  queue_rep s q true xs ->
  Q (if unique then match find_node data xs with Some _ => 0 | None => - ENOENT end else 1) s ->
  wp (if unique then fst <$> queue_contains q data false else mret 1) s Q.
Proof.
  intros Hrep HQ. destruct unique; [|by apply wp_ret].
  pose proof (wp_queue_contains s q xs data false
    (λ r s', s' = s ∧ r = match find_node data xs with
     | Some p => (0, None) | None => (- ENOENT, None) end) Hrep) as Hc.
  apply wp_run in Hc as (r & s' & Hrun & -> & ->); [|done].
  eapply wp_eq; [unfold fmap, M_fmap; by rewrite Hrun|]. by destruct (find_node _ _).
Qed.

Lemma unique_test_iff (unique : bool) data xs :
  (unique = true ∧
   (if unique then match find_node data xs with Some _ => 0 | None => - ENOENT end else 1) = 0)
  <-> (unique = true ∧ data ∈ xs.*2).
Proof.
  destruct unique; [|naive_solver]. destruct (find_node data xs) as [p|] eqn:E.
  - apply find_node_split in E as (l1 & l2 & -> & _). rewrite fmap_app. set_solver.
  - apply find_node_None in E. split; [by intros []|naive_solver].
Qed.

Lemma wp_enqueue s q xs data (unique pnp : bool) (Q : Z * option ptr -> dsheap -> Prop) :
  queue_rep s q true xs ->
  (unique = true -> data ∈ xs.*2 -> Q (- EEXIST, None) s) ->
  (¬ (unique = true ∧ data ∈ xs.*2) -> km_choose (d_ticks s) (kh_live s) = None -> Q (- ENOMEM, None) (ds_tick s)) ->
  (∀ p s', ¬ (unique = true ∧ data ∈ xs.*2) ->
     queue_rep s' q true (xs ++ [(p, data)]) -> queue_frame q s s' ->
     d_qnodes s !! p = None -> dom (d_qnodes s') = {[p]} ∪ dom (d_qnodes s) ->
     Q (0, if pnp then Some p else None) s') ->
  wp (enqueue q data unique pnp) s Q.
Proof.
  intros Hrep HE HM HO. unfold enqueue.
  wp_step. eapply wp_queue_assert_locked; [done|done|].
  rewrite decide_False by (by eapply queue_rep_app_valid).
  wp_step. eapply wp_unique_test; [done|].
  destruct (decide (unique = true ∧ data ∈ xs.*2)) as [Hu|Hu].
  - rewrite decide_True by (by apply unique_test_iff). apply wp_ret. naive_solver.
  - rewrite decide_False by (by rewrite unique_test_iff).
    wp_step. apply wp_kmalloc_why; [intros Hno; rewrite decide_True by done; apply wp_ret; auto|].
    intros p Hp [Hfn _]%fresh_node. apply valid_ptr_nonnull in Hp as Hp0.
    rewrite decide_False by done. ds_norm. eapply wp_enqueue_link; eauto.
Qed.

Lemma wp_enqueue_head s q xs data (unique pnp : bool) (Q : Z * option ptr -> dsheap -> Prop) :
  queue_rep s q true xs ->
  (unique = true -> data ∈ xs.*2 -> Q (- EEXIST, None) s) ->
  (¬ (unique = true ∧ data ∈ xs.*2) -> Q (- ENOMEM, None) (ds_tick s)) ->
  (∀ p s', ¬ (unique = true ∧ data ∈ xs.*2) ->
     queue_rep s' q true ((p, data) :: xs) -> queue_frame q s s' ->
     d_qnodes s !! p = None -> dom (d_qnodes s') = {[p]} ∪ dom (d_qnodes s) ->
     Q (0, if pnp then Some p else None) s') ->
  wp (enqueue_head q unique data pnp) s Q.
Proof.
  intros Hrep HE HM HO. unfold enqueue_head.
  wp_step. eapply wp_queue_assert_locked; [done|done|].
  rewrite decide_False by (by eapply queue_rep_app_valid).
  wp_step. eapply wp_unique_test; [done|].
  destruct (decide (unique = true ∧ data ∈ xs.*2)) as [Hu|Hu].
  - rewrite decide_True by (by apply unique_test_iff). apply wp_ret. naive_solver.
  - rewrite decide_False by (by rewrite unique_test_iff).
    wp_step. apply wp_kmalloc; [rewrite decide_True by done; apply wp_ret; auto|].
    intros p Hp [Hfn _]%fresh_node _. apply valid_ptr_nonnull in Hp as Hp0.
    rewrite decide_False by done. ds_norm. eapply wp_enqueue_head_link; eauto.
Qed.

(** Both ends of [dequeue]: the datum of the node taken is returned. *)
Lemma wp_dequeue s q xs (pdp : bool) (Q : Z * option ptr -> dsheap -> Prop) :
  queue_rep s q true xs ->
  (pdp = false -> Q (- EINVAL, None) s) ->
  (pdp = true -> xs = [] -> Q (- ENOENT, None) s) ->
  (∀ p d ys s', pdp = true -> xs = (p, d) :: ys -> queue_rep s' q true ys ->
     queue_frame q s s' -> dom (d_qnodes s') = dom (d_qnodes s) ∖ {[p]} -> Q (0, Some d) s') ->
  wp (dequeue q pdp) s Q.
Proof.
  intros Hrep HI HN HO. unfold dequeue.
  wp_step. eapply wp_queue_assert_locked; [done|done|].
  pose proof (queue_rep_app_valid _ _ _ _ Hrep) as Hq0.
  destruct pdp; [|rewrite decide_True by auto; apply wp_ret; auto].
  rewrite decide_False by naive_solver. wp_step. eapply wp_queue_head; [done|].
  cbn [q_head]. destruct xs as [|[p d] xs].
  - rewrite decide_True by done. apply wp_ret. auto.
  - destruct (queue_rep_node s q true [] p d xs Hrep) as (Hp & _ & _ & Hl).
    rewrite decide_False by done. wp_step. eapply wp_nload; [done|done|].
    wp_step. eapply (wp_queue_unlink _ _ []); [done|]. intros. apply wp_ret. eauto.
Qed.

Lemma wp_dequeue_tail s q xs (pdp : bool) (Q : Z * option ptr -> dsheap -> Prop) :
  queue_rep s q true xs ->
  (pdp = false -> Q (- EINVAL, None) s) ->
  (pdp = true -> xs = [] -> Q (- ENOENT, None) s) ->
  (∀ p d ys s', pdp = true -> xs = ys ++ [(p, d)] -> queue_rep s' q true ys ->
     queue_frame q s s' -> dom (d_qnodes s') = dom (d_qnodes s) ∖ {[p]} -> Q (0, Some d) s') ->
  wp (dequeue_tail q pdp) s Q.
Proof.
  intros Hrep HI HN HO. unfold dequeue_tail.
  wp_step. eapply wp_queue_assert_locked; [done|done|].
  pose proof (queue_rep_app_valid _ _ _ _ Hrep) as Hq0.
  destruct pdp; [|rewrite decide_True by auto; apply wp_ret; auto].
  rewrite decide_False by naive_solver. wp_step. eapply wp_queue_head; [done|].
  cbn [q_tail]. destruct xs as [|[p d] xs _] using rev_ind.
  - rewrite decide_True by done. apply wp_ret. auto.
  - destruct (queue_rep_node _ _ _ _ _ _ _ Hrep) as (Hp & _ & _ & Hl).
    rewrite last_or_snoc. cbn [fst]. rewrite decide_False by done.
    wp_step. eapply wp_nload; [done|done|].
    wp_step. eapply (wp_queue_unlink _ _ _ _ _ []); [done|].
    rewrite app_nil_r. intros. apply wp_ret. eauto.
Qed.

Lemma wp_queue_remove s q xs data (Q : Z -> dsheap -> Prop) :
  queue_rep s q true xs ->
  (data ∉ xs.*2 -> Q (- ENOENT) s) ->
  (∀ p s', find_node data xs = Some p -> queue_rep s' q true (remove_data data xs) ->
     queue_frame q s s' -> dom (d_qnodes s') = dom (d_qnodes s) ∖ {[p]} -> Q 0 s') ->
  wp (queue_remove q data) s Q.
Proof.
  intros Hrep HN HO. unfold queue_remove.
  wp_step. eapply wp_queue_assert_locked; [done|done|].
  rewrite decide_False by (by eapply queue_rep_app_valid).
  wp_step. eapply wp_queue_head; [done|]. wp_step. unfold walk_fuel. wp_step.
  eapply (wp_remove_loop _ _ _ []); [done|by eapply queue_rep_fuel| |done].
  by rewrite find_node_None.
Qed.

Lemma wp_queue_remove_node s q xs target (Q : Z -> dsheap -> Prop) :
  queue_rep s q true xs ->
  (target = NULL -> Q (- EINVAL) s) ->
  (target ≠ NULL -> target ∉ addrs xs -> Q (- ENOENT) s) ->
  (∀ s', target ∈ addrs xs -> queue_rep s' q true (remove_addr target xs) ->
     queue_frame q s s' -> dom (d_qnodes s') = dom (d_qnodes s) ∖ {[target]} -> Q 0 s') ->
  wp (queue_remove_node q target) s Q.
Proof.
  intros Hrep HI HN HO. unfold queue_remove_node.
  wp_step. eapply wp_queue_assert_locked; [done|done|].
  pose proof (queue_rep_app_valid _ _ _ _ Hrep) as Hq0.
  case_decide as Hd; [apply wp_ret; naive_solver|].
  wp_step. eapply wp_queue_head; [done|]. wp_step. unfold walk_fuel. wp_step.
  eapply (wp_remove_node_loop _ _ _ []); [done|by eapply queue_rep_fuel| |done].
  naive_solver.
Qed.

Lemma wp_queue_count s q xs (Q : Z -> dsheap -> Prop) :
  queue_rep s q true xs -> Q (Z.of_nat (length xs)) s -> wp (queue_count q) s Q.
Proof.
  intros Hrep HQ. unfold queue_count.
  wp_step. eapply wp_queue_assert_locked; [done|done|].
  wp_step. eapply wp_queue_head; [done|]. by apply wp_ret.
Qed.

Lemma wp_queue_peek s q xs (tail pdp : bool) (Q : Z * option ptr -> dsheap -> Prop) :
  queue_rep s q true xs ->
  (pdp = false -> Q (- EINVAL, None) s) ->
  (pdp = true -> xs = [] -> Q (- ENOENT, None) s) ->
  (∀ x, pdp = true -> (if tail then last xs else head xs) = Some x -> Q (0, Some x.2) s) ->
  wp (queue_peek q tail pdp) s Q.
Proof.
  intros Hrep HI HN HO. unfold queue_peek.
  wp_step. eapply wp_queue_assert_locked; [done|done|].
  pose proof (queue_rep_app_valid _ _ _ _ Hrep) as Hq0.
  destruct pdp; [|rewrite decide_True by auto; apply wp_ret; auto].
  rewrite decide_False by naive_solver. wp_step. eapply wp_queue_count; [done|].
  case_decide as Hc; [apply wp_ret, HN; [done|]; apply nil_length_inv; lia|].
  wp_step. eapply wp_queue_head; [done|]. wp_step. cbn [q_tail q_head].
  destruct tail.
  - destruct xs as [|[p d] xs _] using rev_ind; [done|].
    destruct (queue_rep_node _ _ _ _ _ _ _ Hrep) as (Hp & _ & _ & Hl).
    rewrite last_or_snoc. eapply wp_nload; [done|done|]. apply wp_ret.
    apply (HO (p, d)); [done|]. by rewrite last_snoc.
  - destruct xs as [|[p d] xs]; [done|].
    destruct (queue_rep_node s q true [] p d xs Hrep) as (Hp & _ & _ & Hl).
    eapply wp_nload; [done|done|]. apply wp_ret. by apply (HO (p, d)).
Qed.

Lemma wp_flush_loop fuel s q xs (Q : unit -> dsheap -> Prop) :
  queue_rep s q true xs -> (length xs <= fuel)%nat ->
  (∀ s', queue_rep s' q true [] -> queue_frame q s s' ->
     dom (d_qnodes s') = dom (d_qnodes s) ∖ list_to_set (addrs xs) -> Q tt s') ->
  wp (queue_flush_loop fuel q (hd_or NULL xs)) s Q.
Proof.
  revert s xs. induction fuel as [|fuel IH]; intros s xs Hrep Hf HQ; simpl.
  - destruct xs as [|]; [|simpl in Hf; lia]. apply wp_ret.
    apply HQ; [done|apply queue_frame_refl|set_solver].
  - destruct xs as [|[p d] xs].
    { apply wp_ret. apply HQ; [done|apply queue_frame_refl|set_solver]. }
    destruct (queue_rep_node s q true [] p d xs Hrep) as (Hp & _ & _ & Hl).
    cbn [hd_or fst]. rewrite decide_False by done. wp_step. eapply wp_nload; [done|done|].
    wp_step. eapply (wp_queue_unlink _ _ []); [done|].
    intros s' Hrep' Hfr Hdom _. cbn [qn_next]. eapply IH; [done|simpl in Hf; lia|].
    intros s'' ? ? Hdom'. apply HQ; [done|by eapply queue_frame_trans|].
    rewrite Hdom', Hdom. cbn. set_solver.
Qed.

Lemma wp_queue_flush s q xs (Q : unit -> dsheap -> Prop) :
  queue_rep s q true xs ->
  (∀ s', queue_rep s' q true [] -> queue_frame q s s' ->
     dom (d_qnodes s') = dom (d_qnodes s) ∖ list_to_set (addrs xs) -> Q tt s') ->
  wp (queue_flush q) s Q.
Proof.
  intros Hrep HQ. unfold queue_flush.
  wp_step. eapply wp_queue_assert_locked; [done|done|].
  wp_step. eapply wp_queue_head; [done|]. wp_step. unfold walk_fuel. wp_step.
  eapply wp_flush_loop; [done|by eapply queue_rep_fuel|done].
Qed.
End specs.

(** *** Moving a node to one end *)

(** The heap after the first half of [queue_rellocate_node]: the node is out
    of the list, with both links cleared. *)
Definition detached (q p d : ptr) (xs ys : list (ptr * ptr)) (h : gmap ptr queue_node_t) :=
  <[p := QNode NULL d NULL q]> (unlink p (last_or NULL xs) (hd_or NULL ys) h).

Lemma detached_dll s q xs p d ys :
  queue_rep s q true (xs ++ (p, d) :: ys) ->
  dll (detached q p d xs ys (d_qnodes s)) (hd_or NULL (xs ++ ys)) (last_or NULL (xs ++ ys))
    (own q (xs ++ ys)) ∧
  (∀ p' n, d_qnodes s !! p' = Some n -> qn_queue n ≠ q ->
     detached q p d xs ys (d_qnodes s) !! p' = Some n).
Proof.
  intros (_ & _ & Hd & _). rewrite own_mid in Hd. unfold detached.
  pose proof (dll_unlink _ _ _ _ _ _ _ Hd) as Hd'.
  pose proof (dll_mid _ _ _ _ _ _ _ Hd) as (_ & Hpx & Hpy & _).
  rewrite last_or_own, hd_or_own, <- own_app, hd_or_own, last_or_own in Hd'.
  rewrite addrs_own in Hpx, Hpy. split.
  - eapply dll_frame; [|done]. intros p' Hp'. apply lookup_insert_ne. intros ->.
    rewrite addrs_own, fmap_app, elem_of_app in Hp'. tauto.
  - intros p' n Hp' Hn. rewrite <- own_mid in Hd.
    pose proof (foreign_node _ _ _ _ _ _ _ Hd Hp' Hn) as Hf. rewrite own_mid in Hd.
    rewrite fmap_app, elem_of_app in Hf. simpl in Hf. rewrite elem_of_cons in Hf.
    rewrite lookup_insert_ne by naive_solver.
    rewrite <- (last_or_own q), <- (hd_or_own q). erewrite unlink_outside; [done|done|].
    rewrite <- own_app, addrs_own, fmap_app, elem_of_app. tauto.
Qed.

Lemma relloc_rep s q xs p d ys l1 l2 N :
  queue_rep s q true (xs ++ (p, d) :: ys) -> l1 ++ l2 = xs ++ ys ->
  N = link p (d, q) (last_or NULL l1) (hd_or NULL l2) (detached q p d xs ys (d_qnodes s)) ->
  let s' := set_queues (<[q := Queue (hd_or p l1) (last_or p l2)
     (Z.of_nat (length (xs ++ (p, d) :: ys))) true]> (d_queues s)) (set_qnodes N s) in
  queue_rep s' q true (l1 ++ (p, d) :: l2) ∧ queue_frame q s s' ∧ dom (d_qnodes s') = dom (d_qnodes s).
Proof.
  intros Hrep Hl HN s'. pose proof Hrep as (Hq & _ & Hd0 & Hv).
  destruct (detached_dll _ _ _ _ _ _ Hrep) as [Hd Hf].
  destruct (queue_rep_node _ _ _ _ _ _ _ Hrep) as (Hp & Hpx & Hpy & Hlp).
  assert (p ∉ addrs (xs ++ ys)) as Hpn by (rewrite fmap_app, elem_of_app; tauto).
  rewrite <- Hl in Hd, Hpn. rewrite own_app in Hd.
  assert (p ∉ addrs (own q l1 ++ own q l2)) as Hpo by (by rewrite <- own_app, addrs_own).
  pose proof (dll_link _ _ _ _ p (d, q) _ Hd Hp Hpo) as Hd'.
  rewrite last_or_own, !hd_or_own, last_or_own, <- own_mid, <- HN in Hd'.
  assert (hd_or p l1 = hd_or NULL (l1 ++ (p, d) :: l2)) as E1 by (by rewrite hd_or_app).
  assert (last_or p l2 = last_or NULL (l1 ++ (p, d) :: l2)) as E2 by (by rewrite last_or_app).
  assert (length (xs ++ (p, d) :: ys) = length (l1 ++ (p, d) :: l2)) as E3.
  { apply (f_equal length) in Hl. rewrite !length_app in *. simpl. lia. }
  assert (addrs (xs ++ (p, d) :: ys) ≡ₚ addrs (l1 ++ (p, d) :: l2)) as Hperm.
  { apply fmap_Permutation. rewrite <- !Permutation_middle. by rewrite Hl. }
  split; [|split].
  - subst s'. rewrite E1, E2, E3. rewrite E1, E2 in Hd'. apply queue_rep_build; [done| |done].
    by rewrite <- Hperm.
  - apply queue_frame_build. intros p' n Hp' Hn. rewrite HN.
    rewrite <- (last_or_own q), <- (hd_or_own q). erewrite link_outside; [by apply Hf|done|].
    assert (p' ∉ addrs (xs ++ (p, d) :: ys)) as Hne by (by eapply foreign_node).
    rewrite <- own_mid, addrs_own. by rewrite <- Hperm.
  - simpl. rewrite HN. unfold link, detached, unlink. rewrite dom_insert_L, dom_put_prev, dom_put_next, dom_insert_L, dom_put_prev, dom_put_next.
    assert (p ∈ dom (d_qnodes s)) by (apply elem_of_dom; by eexists). set_solver.
Qed.

(** The second half of [queue_rellocate_node]: relinking a detached node. *)
Lemma wp_relink_tail s q zs p d c (Q : unit -> dsheap -> Prop) :
  q ≠ NULL -> p ≠ NULL -> p ∉ addrs zs ->
  dll (d_qnodes s) (hd_or NULL zs) (last_or NULL zs) (own q zs) ->
  d_qnodes s !! p = Some (QNode NULL d NULL q) ->
  d_queues s !! q = Some (Queue (hd_or NULL zs) (last_or NULL zs) c true) ->
  Q tt (set_queues (<[q := Queue (hd_or p zs) p c true]> (d_queues s))
         (set_qnodes (link p (d, q) (last_or NULL zs) NULL (d_qnodes s)) s)) ->
  wp ((if decide (hd_or NULL zs = NULL) then qupd q (q_set_head p)
       else nupd (last_or NULL zs) (qn_set_next p);; nupd p (qn_set_prev (last_or NULL zs)));;
      qupd q (q_set_tail p)) s Q.
Proof.
  intros Hq Hp Hpz Hd Hlp Hlq HQ. wp_step.
  pose proof Hd as (_ & _ & _ & Hn & _). rewrite addrs_own in Hn.
  revert HQ. unfold link, put_prev. rewrite (decide_True (P := NULL = NULL)) by reflexivity.
  destruct (decide (zs = [])) as [->|Hne]; intros HQ.
  - rewrite decide_True by done. eapply wp_qupd; [done|done|].
    eapply wp_qupd; [done|ds_norm; apply lookup_insert_eq|]. ds_norm.
    rewrite insert_insert_eq. revert HQ. unfold put_next. rewrite decide_True by done.
    cbn [l_mk linked_qnode fst snd last_or]. rewrite (insert_id (d_qnodes s)) by done.
    by rewrite set_qnodes_id.
  - rewrite decide_False by (intros ?%hd_or_null; done).
    destruct (dll_last_live (d_qnodes s) (hd_or NULL zs) (last_or NULL zs) (own q zs) []) as [Hl|[v Hl]]; [by rewrite app_nil_r| |].
    { rewrite last_or_own in Hl. by apply last_or_null in Hl. }
    rewrite last_or_own in Hl. revert HQ. unfold put_next.
    rewrite decide_False by (intros ?%last_or_null; done). intros HQ.
    assert (last_or NULL zs ≠ p) by (intros <-; by apply Hpz, last_or_in).
    wp_step. eapply wp_nupd; [intros ?%last_or_null; done|done|].
    eapply wp_nupd; [done|ds_norm; by rewrite lookup_insert_ne|]. ds_norm.
    eapply wp_qupd; [done|by ds_norm|]. ds_norm.
    rewrite (alter_insert_Some _ _ _ _ Hl). revert HQ. by destruct zs.
Qed.

Lemma wp_relink_head s q zs p d c (Q : unit -> dsheap -> Prop) :
  q ≠ NULL -> p ≠ NULL -> p ∉ addrs zs ->
  dll (d_qnodes s) (hd_or NULL zs) (last_or NULL zs) (own q zs) ->
  d_qnodes s !! p = Some (QNode NULL d NULL q) ->
  d_queues s !! q = Some (Queue (hd_or NULL zs) (last_or NULL zs) c true) ->
  Q tt (set_queues (<[q := Queue p (last_or p zs) c true]> (d_queues s))
         (set_qnodes (link p (d, q) NULL (hd_or NULL zs) (d_qnodes s)) s)) ->
  wp ((if decide (hd_or NULL zs = NULL) then qupd q (q_set_tail p)
       else nupd (hd_or NULL zs) (qn_set_prev p);; nupd p (qn_set_next (hd_or NULL zs)));;
      qupd q (q_set_head p)) s Q.
Proof.
  intros Hq Hp Hpz Hd Hlp Hlq HQ. wp_step.
  pose proof Hd as (_ & _ & _ & Hn & _). rewrite addrs_own in Hn.
  revert HQ. unfold link, put_next. rewrite (decide_True (P := NULL = NULL)) by reflexivity.
  destruct zs as [|[h e] zs]; intros HQ.
  - rewrite decide_True by done. eapply wp_qupd; [done|done|].
    eapply wp_qupd; [done|ds_norm; apply lookup_insert_eq|]. ds_norm.
    rewrite insert_insert_eq. revert HQ. unfold put_prev. rewrite decide_True by done.
    cbn [l_mk linked_qnode fst snd hd_or]. rewrite (insert_id (d_qnodes s)) by done.
    by rewrite set_qnodes_id.
  - destruct (dll_mid _ _ _ [] h (e, q) (own q zs) Hd) as (Hh & _ & _ & Hlh).
    cbn [hd_or fst] in *. rewrite decide_False by done.
    assert (h ≠ p) by (intros ->; apply Hpz; left).
    wp_step. eapply wp_nupd; [done|done|].
    eapply wp_nupd; [done|ds_norm; by rewrite lookup_insert_ne|]. ds_norm.
    eapply wp_qupd; [done|by ds_norm|]. ds_norm.
    rewrite (alter_insert_Some _ _ _ _ Hlh). revert HQ. unfold put_prev.
    by rewrite decide_False by done.
Qed.

(** [queue_rellocate_node]: the node moves to the end asked for; the rest of
    the queue keeps its order. *)
Lemma wp_rellocate_node s q xs p d ys whence (Q : Z -> dsheap -> Prop) :
  queue_rep s q true (xs ++ (p, d) :: ys) ->
  (whence = QUEUE_RELLOC_OTHER -> Q (- EINVAL) s) ->
  (∀ s', whence = QUEUE_RELLOC_HEAD -> queue_rep s' q true ((p, d) :: xs ++ ys) ->
     queue_frame q s s' -> dom (d_qnodes s') = dom (d_qnodes s) -> Q 0 s') ->
  (∀ s', whence = QUEUE_RELLOC_TAIL -> queue_rep s' q true ((xs ++ ys) ++ [(p, d)]) ->
     queue_frame q s s' -> dom (d_qnodes s') = dom (d_qnodes s) -> Q 0 s') ->
  wp (queue_rellocate_node q p whence) s Q.
Proof.
  intros Hrep HI HH HT. unfold queue_rellocate_node.
  destruct (queue_rep_node _ _ _ _ _ _ _ Hrep) as (Hp & Hpx & Hpy & Hlp).
  pose proof (queue_rep_app_valid _ _ _ _ Hrep) as Hq0.
  rewrite decide_False by naive_solver.
  wp_step. eapply wp_queue_assert_locked; [done|done|].
  wp_step. eapply wp_nload; [done|done|]. cbn [qn_queue qn_prev qn_next].
  rewrite decide_False by naive_solver.
  case_decide as Hw.
  { apply wp_ret, HI. destruct whence; naive_solver. }
  pose proof Hrep as (Hq & Hl & Hd & Hv). rewrite own_mid in Hd.
  pose proof Hd as (_ & _ & Hnd & _ & _). rewrite <- own_mid, addrs_own in Hnd.
  wp_step. apply wp_put_prev.
  { rewrite <- (hd_or_own q). by eapply dll_next_live. }
  wp_step. apply wp_put_next.
  { ds_norm. rewrite <- !elem_of_dom, dom_put_prev, elem_of_dom, <- (last_or_own q).
    by eapply dll_last_live. }
  ds_norm. rewrite put_comm by (rewrite <- (last_or_own q), <- (hd_or_own q);
    by eapply dll_neighbours_ne).
  fold (unlink p (last_or NULL xs) (hd_or NULL ys) (d_qnodes s)).
  wp_step. eapply wp_qload; [done|by ds_norm|]. 
  wp_step. eapply wp_when_set_head; [done|by ds_norm|]. ds_norm.
  wp_step. eapply wp_qload; [done|ds_norm; apply lookup_insert_eq|].
  wp_step. eapply wp_when_set_tail; [done|ds_norm; apply lookup_insert_eq|]. ds_norm.
  cbn [q_head q_tail]. rewrite insert_insert_eq.
  rewrite (decide_ext (hd_or NULL _ = p) (p = hd_or NULL (xs ++ (p, d) :: ys))) by done.
  rewrite (decide_ext (last_or NULL _ = p) (p = last_or NULL (xs ++ (p, d) :: ys))) by done.
  rewrite hd_or_unlink, last_or_unlink by done.
  assert (unlink p (last_or NULL xs) (hd_or NULL ys) (d_qnodes s) !! p =
          Some (QNode (last_or NULL xs) d (hd_or NULL ys) q)) as Hup.
  { rewrite <- (last_or_own q), <- (hd_or_own q). erewrite unlink_outside; [|done|].
    - by rewrite last_or_own, hd_or_own.
    - rewrite <- own_app, addrs_own, fmap_app, elem_of_app. tauto. }
  wp_step. eapply wp_nupd; [done|by ds_norm|]. ds_norm.
  wp_step. eapply wp_nupd; [done|ds_norm; apply lookup_insert_eq|]. ds_norm.
  rewrite insert_insert_eq.
  change (<[p := qn_set_next NULL _]> _) with (detached q p d xs ys (d_qnodes s)).
  destruct (detached_dll _ _ _ _ _ _ Hrep) as [Hdd _].
  assert (detached q p d xs ys (d_qnodes s) !! p = Some (QNode NULL d NULL q)) as Hdp
    by apply lookup_insert_eq.
  assert (p ∉ addrs (xs ++ ys)) as Hpn by (rewrite fmap_app, elem_of_app; tauto).
  wp_step. eapply wp_qload; [done|ds_norm; apply lookup_insert_eq|].
  cbn [q_head q_tail]. wp_step. destruct whence; [| |naive_solver].
  - eapply wp_relink_tail; [done|done|done|by ds_norm|by ds_norm|ds_norm; apply lookup_insert_eq|].
    ds_norm. rewrite insert_insert_eq. apply wp_ret.
    destruct (relloc_rep s q xs p d ys (xs ++ ys) [] _ Hrep (app_nil_r _) eq_refl) as (Hr & Hf & He).
    by apply HT.
  - eapply wp_relink_head; [done|done|done|by ds_norm|by ds_norm|ds_norm; apply lookup_insert_eq|].
    ds_norm. rewrite insert_insert_eq. apply wp_ret.
    destruct (relloc_rep s q xs p d ys [] (xs ++ ys) _ Hrep eq_refl eq_refl) as (Hr & Hf & He).
    by apply HH.
Qed.

Lemma wp_queue_rellocate s q xs data whence (Q : Z -> dsheap -> Prop) :
  queue_rep s q true xs ->
  (data ∉ xs.*2 -> Q (- ENOENT) s) ->
  (data ∈ xs.*2 -> whence = QUEUE_RELLOC_OTHER -> Q (- EINVAL) s) ->
  (∀ p s', find_node data xs = Some p -> whence = QUEUE_RELLOC_HEAD ->
     queue_rep s' q true ((p, data) :: remove_data data xs) -> queue_frame q s s' -> Q 0 s') ->
  (∀ p s', find_node data xs = Some p -> whence = QUEUE_RELLOC_TAIL ->
     queue_rep s' q true (remove_data data xs ++ [(p, data)]) -> queue_frame q s s' -> Q 0 s') ->
  wp (queue_rellocate q data whence) s Q.
Proof.
  intros Hrep HN HI HH HT. unfold queue_rellocate.
  rewrite decide_False by (by eapply queue_rep_app_valid).
  wp_step. eapply wp_queue_assert_locked; [done|done|].
  wp_step. eapply wp_queue_contains; [done|].
  destruct (find_node data xs) as [p|] eqn:Hf; cbn beta iota.
  - rewrite decide_False by naive_solver. cbn [default from_option id].
    pose proof (find_node_split _ _ _ Hf) as (l1 & l2 & Hxs & _ & Hrm).
    rewrite Hrm in *. subst xs. rewrite fmap_app in HI. simpl in HI.
    eapply wp_rellocate_node; [done| |by eauto..].
    intros Ho. apply HI; [set_solver|done].
  - rewrite decide_True by done. apply wp_ret, HN. by apply find_node_None.
Qed.

(** ** The locks *)

Lemma wp_queue_lock s q xs (Q : unit -> dsheap -> Prop) :
  queue_rep s q false xs ->
  (∀ s', queue_rep s' q true xs -> queue_frame q s s' -> d_qnodes s' = d_qnodes s -> Q tt s') ->
  wp (queue_lock q) s Q.
Proof.
  intros (Hq & Hl & Hd & Hv) HQ. unfold queue_lock, queue_assert.
  pose proof Hq as Hq0. wp_step. apply wp_assert; [by apply bool_decide_eq_true|].
  wp_step. eapply wp_qload; [done|done|]. wp_step. apply wp_assert; [done|].
  eapply wp_qupd; [done|done|]. rewrite <- (set_qnodes_id s) at 2. apply HQ; [| |done].
  - by apply queue_rep_build.
  - by apply queue_frame_build.
Qed.

Lemma wp_queue_unlock s q xs (Q : unit -> dsheap -> Prop) :
  queue_rep s q true xs ->
  (∀ s', queue_rep s' q false xs -> queue_frame q s s' -> d_qnodes s' = d_qnodes s -> Q tt s') ->
  wp (queue_unlock q) s Q.
Proof.
  intros (Hq & Hl & Hd & Hv) HQ. unfold queue_unlock, queue_assert.
  pose proof Hq as Hq0. wp_step. apply wp_assert; [by apply bool_decide_eq_true|].
  wp_step. eapply wp_qload; [done|done|]. wp_step. apply wp_assert; [done|].
  eapply wp_qupd; [done|done|]. rewrite <- (set_qnodes_id s) at 2. apply HQ; [| |done].
  - by apply queue_rep_build.
  - by apply queue_frame_build.
Qed.

Lemma queue_rep_alloc `{Kmalloc} s p :
  valid_ptr p -> queue_rep (set_queues (<[p := QUEUE_INIT]> (d_queues s)) s) p false [].
Proof.
  intros Hp. unfold queue_rep. ds_norm. rewrite lookup_insert_eq.
  split; [by apply valid_ptr_nonnull|]. split; [done|]. split; [apply dll_nil|constructor].
Qed.

(** ** The abstract double-ended queue and the refinement *)

Variant qop :=
  | OEnqueue (data : ptr) (unique : bool)
  | OEnqueueHead (data : ptr) (unique : bool)
  | ODequeue
  | ODequeueTail
  | ORemove (data : ptr)
  | ORemoveNode (node : ptr)
  | OContains (data : ptr)
  | OPeek (tail : bool)
  | OCount
  | OFlush
  | ORellocate (data : ptr) (whence : queue_relloc_t).

Module Deque.
Implicit Types xs : list (ptr * ptr).

(** A list of data, each under the handle its insertion returned.  Insertion
    may always fail for lack of memory. *)
Inductive step : list (ptr * ptr) -> qop -> Z * option ptr -> list (ptr * ptr) -> Prop :=
  | enqueue_dup xs d : d ∈ xs.*2 -> step xs (OEnqueue d true) (- EEXIST, None) xs
  | enqueue_nomem xs d u : ¬ (u = true ∧ d ∈ xs.*2) -> step xs (OEnqueue d u) (- ENOMEM, None) xs
  | enqueue_ok xs d u p : ¬ (u = true ∧ d ∈ xs.*2) -> p ∉ addrs xs ->
      step xs (OEnqueue d u) (0, Some p) (xs ++ [(p, d)])
  | enqueue_head_dup xs d : d ∈ xs.*2 -> step xs (OEnqueueHead d true) (- EEXIST, None) xs
  | enqueue_head_nomem xs d u : ¬ (u = true ∧ d ∈ xs.*2) ->
      step xs (OEnqueueHead d u) (- ENOMEM, None) xs
  | enqueue_head_ok xs d u p : ¬ (u = true ∧ d ∈ xs.*2) -> p ∉ addrs xs ->
      step xs (OEnqueueHead d u) (0, Some p) ((p, d) :: xs)
  | dequeue_empty : step [] ODequeue (- ENOENT, None) []
  | dequeue_ok p d xs : step ((p, d) :: xs) ODequeue (0, Some d) xs
  | dequeue_tail_empty : step [] ODequeueTail (- ENOENT, None) []
  | dequeue_tail_ok p d xs : step (xs ++ [(p, d)]) ODequeueTail (0, Some d) xs
  | remove_none xs d : d ∉ xs.*2 -> step xs (ORemove d) (- ENOENT, None) xs
  | remove_ok l1 p d l2 : d ∉ l1.*2 -> step (l1 ++ (p, d) :: l2) (ORemove d) (0, None) (l1 ++ l2)
  | remove_node_null xs : step xs (ORemoveNode NULL) (- EINVAL, None) xs
  | remove_node_none xs p : p ≠ NULL -> p ∉ addrs xs -> step xs (ORemoveNode p) (- ENOENT, None) xs
  | remove_node_ok l1 p d l2 : p ∉ addrs l1 ->
      step (l1 ++ (p, d) :: l2) (ORemoveNode p) (0, None) (l1 ++ l2)
  | contains_no xs d : d ∉ xs.*2 -> step xs (OContains d) (- ENOENT, None) xs
  | contains_yes l1 p d l2 : d ∉ l1.*2 ->
      step (l1 ++ (p, d) :: l2) (OContains d) (0, Some p) (l1 ++ (p, d) :: l2)
  | peek_empty t : step [] (OPeek t) (- ENOENT, None) []
  | peek_ok xs (t : bool) x : (if t then last xs else head xs) = Some x ->
      step xs (OPeek t) (0, Some x.2) xs
  | count_ok xs : step xs OCount (Z.of_nat (length xs), None) xs
  | flush_ok xs : step xs OFlush (0, None) []
  | rellocate_none xs d w : d ∉ xs.*2 -> step xs (ORellocate d w) (- ENOENT, None) xs
  | rellocate_bad xs d : d ∈ xs.*2 -> step xs (ORellocate d QUEUE_RELLOC_OTHER) (- EINVAL, None) xs
  | rellocate_head l1 p d l2 : d ∉ l1.*2 ->
      step (l1 ++ (p, d) :: l2) (ORellocate d QUEUE_RELLOC_HEAD) (0, None) ((p, d) :: l1 ++ l2)
  | rellocate_tail l1 p d l2 : d ∉ l1.*2 ->
      step (l1 ++ (p, d) :: l2) (ORellocate d QUEUE_RELLOC_TAIL) (0, None) ((l1 ++ l2) ++ [(p, d)]).

Inductive run : list (ptr * ptr) -> list qop -> list (Z * option ptr) -> list (ptr * ptr) -> Prop :=
  | run_nil xs : run xs [] [] xs
  | run_cons xs op r xs' ops rs xs'' :
      step xs op r xs' -> run xs' ops rs xs'' -> run xs (op :: ops) (r :: rs) xs''.

(** An operation that only inserts data that is not there. *)
Definition unique_op (op : qop) : Prop :=
  match op with OEnqueue _ u | OEnqueueHead _ u => u = true | _ => True end.

Lemma step_nodup xs op r xs' :
  step xs op r xs' -> unique_op op -> NoDup xs.*2 -> NoDup xs'.*2.
Proof.
  destruct 1; intros Hu Hnd; simpl in *; try done; subst;
    rewrite ?fmap_app in *; simpl in *.
  - apply NoDup_app. split; [done|]. split; [|apply NoDup_singleton]. set_solver.
  - constructor; [|done]. naive_solver.
  - by apply NoDup_cons in Hnd as [_ ?].
  - by apply NoDup_app in Hnd as (? & _ & _).
  - by apply NoDup_app in Hnd as (? & ? & [_ ?]%NoDup_cons); apply NoDup_app; set_solver.
  - by apply NoDup_app in Hnd as (? & ? & [_ ?]%NoDup_cons); apply NoDup_app; set_solver.
  - constructor.
  - by rewrite Permutation_middle.
  - rewrite <- app_assoc. by rewrite <- Permutation_cons_append.
Qed.

Lemma run_nodup xs ops rs xs' :
  run xs ops rs xs' -> Forall unique_op ops -> NoDup xs.*2 -> NoDup xs'.*2.
Proof.
  induction 1 as [|xs op r xs1 ops rs xs2 Hstep _ IH]; [done|].
  intros [??]%Forall_cons ?. eauto using step_nodup.
Qed.
End Deque.

Section refinement.
Context {K : Kmalloc}.

(** One call of the concrete queue. *)
Definition run_qop (q : ptr) (op : qop) : M dsheap (Z * option ptr) :=
  match op with
  | OEnqueue d u => enqueue q d u true
  | OEnqueueHead d u => enqueue_head q u d true
  | ODequeue => dequeue q true
  | ODequeueTail => dequeue_tail q true
  | ORemove d => r ← queue_remove q d; mret (r, None)
  | ORemoveNode p => r ← queue_remove_node q p; mret (r, None)
  | OContains d => queue_contains q d true
  | OPeek t => queue_peek q t true
  | OCount => r ← queue_count q; mret (r, None)
  | OFlush => queue_flush q;; mret (0, None)
  | ORellocate d w => r ← queue_rellocate q d w; mret (r, None)
  end.

Fixpoint run_qops (q : ptr) (ops : list qop) : M dsheap (list (Z * option ptr)) :=
  match ops with
  | [] => mret []
  | op :: ops => r ← run_qop q op; rs ← run_qops q ops; mret (r :: rs)
  end.

Lemma fresh_not_in s q xs p : queue_rep s q true xs -> d_qnodes s !! p = None -> p ∉ addrs xs.
Proof.
  intros (_ & _ & Hd & _) Hp ([p' d] & -> & Hin)%list_elem_of_fmap. simpl in Hp.
  eapply (dll_in_heap _ _ _ _ p' (d, q)) in Hd as [_ [? ?]]; [congruence|].
  unfold own. apply list_elem_of_fmap. by exists (p', d).
Qed.

Lemma run_qop_refines s q xs op :
  queue_rep s q true xs ->
  wp (run_qop q op) s (λ r s', ∃ xs', Deque.step xs op r xs' ∧
    queue_rep s' q true xs' ∧ queue_frame q s s').
Proof.
  intros Hrep. pose proof (queue_frame_refl q s) as Hfr.
  destruct op as [d u|d u| | |d|p|d|t| | |d w]; simpl.
  - eapply wp_enqueue; [done|intros -> ?|intros ? _|intros p s' ????]; eexists;
      (split; [by constructor; eauto using fresh_not_in|]); done.
  - eapply wp_enqueue_head; [done|intros -> ?|intros ?|intros p s' ????]; eexists;
      (split; [by constructor; eauto using fresh_not_in|]); done.
  - eapply wp_dequeue; [done|done|intros _ ->|intros p d ys s' _ -> ??]; eexists;
      (split; [by constructor|]); done.
  - eapply wp_dequeue_tail; [done|done|intros _ ->|intros p d ys s' _ -> ??]; eexists;
      (split; [by constructor|]); done.
  - wp_step. eapply wp_queue_remove; [done|intros ?|intros p s' Hf ???]; apply wp_ret.
    + eexists. split; [by constructor|done].
    + apply find_node_split in Hf as (l1 & l2 & -> & ? & Hrm).
      rewrite Hrm in *. eexists. split; [by constructor|done].
  - wp_step. eapply wp_queue_remove_node; [done|intros ->|intros ??|intros s' Hin ???];
      apply wp_ret; [eexists; split; [by constructor|done]..|].
    apply remove_addr_split in Hin as (l1 & d & l2 & -> & ? & Hrm).
    rewrite Hrm in *. eexists. split; [by constructor|done].
  - eapply wp_queue_contains; [done|].  exists xs.
    destruct (find_node d xs) as [p|] eqn:Hf.
    + apply find_node_split in Hf as (l1 & l2 & -> & ? & _). split; [by constructor|done].
    + apply find_node_None in Hf. split; [by constructor|done].
  - eapply wp_queue_peek; [done|done|intros _ ->|intros x _ ?]; eexists;
      (split; [by constructor|]); done.
  - wp_step. eapply wp_queue_count; [done|]. apply wp_ret. eexists. split; [constructor|done].
  - wp_step. eapply wp_queue_flush; [done|]. intros s' ???. apply wp_ret.
    eexists. split; [constructor|done].
  - wp_step. eapply wp_queue_rellocate; [done|intros ?|intros ? ->|intros p s' Hf ->..];
      intros; apply wp_ret.
    + eexists. split; [by constructor|done].
    + eexists. split; [by constructor|done].
    + apply find_node_split in Hf as (l1 & l2 & -> & ? & Hrm).
      rewrite Hrm in *. eexists. split; [by constructor|done].
    + apply find_node_split in Hf as (l1 & l2 & -> & ? & Hrm).
      rewrite Hrm in *. eexists. split; [by constructor|done].
Qed.

Lemma run_qops_refines s q xs ops :
  queue_rep s q true xs ->
  wp (run_qops q ops) s (λ rs s', ∃ xs', Deque.run xs ops rs xs' ∧
    queue_rep s' q true xs' ∧ queue_frame q s s').
Proof.
  revert s xs. induction ops as [|op ops IH]; intros s xs Hrep; simpl.
  - apply wp_ret. exists xs. split; [constructor|]. by split; [|apply queue_frame_refl].
  - wp_step. eapply wp_mono; [by apply run_qop_refines|].
    intros r s' (xs' & Hstep & Hrep' & Hfr). wp_step.
    eapply wp_mono; [by eapply IH|]. intros rs s'' (xs'' & Hrun & Hrep'' & Hfr').
    apply wp_ret. exists xs''. split; [by econstructor|]. eauto using queue_frame_trans.
Qed.

(** C36. Every sequence of calls on a locked queue returns (no call panics,
    follows a bad pointer or loops), and its results are those of the
    abstract double-ended queue run on the same calls; at the end the heap
    represents the abstract contents, and every other queue, its nodes and
    all objects of other kinds are as they were. *)
Theorem queue_refines_deque s q xs ops :
  queue_rep s q true xs ->
  wp (run_qops q ops) s (λ rs s', ∃ xs',
    Deque.run xs ops rs xs' ∧ queue_rep s' q true xs' ∧ ds_rest s' = ds_rest s ∧
    ∀ q' lk ys, q' ≠ q -> queue_rep s q' lk ys -> queue_rep s' q' lk ys).
Proof.
  intros Hrep. eapply wp_mono; [by eapply run_qops_refines|].
  intros rs s' (xs' & Hrun & Hrep' & Hfr). exists xs'.
  split; [done|]. split; [done|]. split; [apply Hfr|]. eauto using queue_rep_frame.
Qed.

(** A queue filled only through the [unique] flag never holds the same
    datum twice, whatever other calls are interleaved. *)
Theorem queue_unique_nodup s q xs ops :
  queue_rep s q true xs -> NoDup xs.*2 -> Forall Deque.unique_op ops ->
  wp (run_qops q ops) s (λ _ s', ∃ xs', queue_rep s' q true xs' ∧ NoDup xs'.*2).
Proof.
  intros Hrep Hnd Hu. eapply wp_mono; [by eapply run_qops_refines|].
  intros rs s' (xs' & Hrun & Hrep' & _). exists xs'. eauto using Deque.run_nodup.
Qed.

(** [queue_free] on a queue that is locked or not frees the queue object
    and exactly its own nodes. *)
Theorem queue_free_releases s q lk xs :
  queue_rep s q lk xs ->
  wp (queue_free q) s (λ _ s',
    d_queues s' !! q = None ∧
    dom (d_qnodes s') = dom (d_qnodes s) ∖ list_to_set (addrs xs) ∧
    (∀ q' lk' ys, q' ≠ q -> queue_rep s q' lk' ys -> queue_rep s' q' lk' ys)).
Proof.
  intros Hrep. pose proof (queue_rep_app_valid _ _ _ _ Hrep) as Hq0.
  assert (∀ s1, queue_rep s1 q true xs -> queue_frame q s s1 -> d_qnodes s1 = d_qnodes s ->
    wp (queue_flush q;; queue_unlock q;; kfree queue_t q) s1 (λ _ s',
      d_queues s' !! q = None ∧
      dom (d_qnodes s') = dom (d_qnodes s) ∖ list_to_set (addrs xs) ∧
      (∀ q' lk' ys, q' ≠ q -> queue_rep s q' lk' ys -> queue_rep s' q' lk' ys))) as Hrest.
  { intros s1 Hr1 Hf1 Hn1. wp_step. eapply wp_queue_flush; [done|]. intros s2 Hr2 Hf2 Hd2.
    wp_step. eapply wp_queue_unlock; [done|]. intros s3 (_ & Hl3 & _) Hf3 Hn3.
    eapply (wp_kfree (V := queue_t)); [done|done|]. ds_norm.
    split; [apply lookup_delete_eq|]. split; [by rewrite Hn3, Hd2, Hn1|].
    intros q' lk' ys Hne Hr. assert (queue_rep s3 q' lk' ys) as Hr3.
    { eauto 6 using queue_rep_frame, queue_frame_trans. }
    destruct Hr3 as (? & Hl & ? & ?). split; [done|]. ds_norm.
    by rewrite lookup_delete_ne. }
  unfold queue_free, queue_islocked, queue_assert. wp_step. wp_step.
  apply wp_assert; [by apply bool_decide_eq_true|].
  wp_step. eapply wp_queue_head; [done|]. apply wp_ret. cbn [q_lock].
  wp_step. destruct lk; cbn [negb when].
  - apply wp_ret. apply Hrest; [done|apply queue_frame_refl|done].
  - eapply wp_queue_lock; [done|]. auto.
Qed.
End refinement.

(** ** Instances of the hypotheses *)

(** A queue at address 1000 in an otherwise empty heap, locked. *)
Definition one_queue : dsheap :=
  set_queues (<[1000 := Queue NULL NULL 0 true]> ∅) empty_dsheap.

Lemma one_queue_rep : queue_rep one_queue 1000 true [].
Proof.
  split; [done|]. split; [reflexivity|]. split; [apply dll_nil|constructor].
Qed.

Lemma queue_refines_deque_witness :
  queue_rep one_queue 1000 true [] ∧
  wp (run_qops (K := bump_kmalloc) 1000 [OEnqueue 7 true; OEnqueue 8 true; ODequeue]) one_queue
    (λ rs s', ∃ xs', Deque.run [] [OEnqueue 7 true; OEnqueue 8 true; ODequeue] rs xs' ∧
      queue_rep s' 1000 true xs' ∧ ds_rest s' = ds_rest one_queue ∧
      ∀ q' lk ys, q' ≠ 1000 -> queue_rep one_queue q' lk ys -> queue_rep s' q' lk ys).
Proof.
  split; [exact one_queue_rep|].
  apply (queue_refines_deque (K := bump_kmalloc)). exact one_queue_rep.
Defined.

Lemma queue_unique_nodup_witness :
  wp (run_qops (K := bump_kmalloc) 1000 [OEnqueue 7 true; OEnqueueHead 8 true]) one_queue
    (λ _ s', ∃ xs', queue_rep s' 1000 true xs' ∧ NoDup xs'.*2).
Proof.
  apply (queue_unique_nodup (K := bump_kmalloc) one_queue 1000 []).
  - exact one_queue_rep.
  - constructor.
  - repeat constructor.
Defined.

Lemma queue_free_releases_witness :
  wp (queue_free 1000) one_queue (λ _ s',
    d_queues s' !! 1000 = None ∧
    dom (d_qnodes s') = dom (d_qnodes one_queue) ∖ list_to_set (addrs ([] : list (ptr * ptr))) ∧
    (∀ q' lk' ys, q' ≠ 1000 -> queue_rep one_queue q' lk' ys -> queue_rep s' q' lk' ys)).
Proof. apply (queue_free_releases one_queue 1000 true []). exact one_queue_rep. Defined.

(** The operations compute: three insertions, a refused duplicate, a move to
    the front, and both ends taken. *)
Example queue_run_example :
  match run_qops (K := bump_kmalloc) 1000
    [OEnqueue 7 true; OEnqueue 8 true; OEnqueue 7 true; OEnqueueHead 9 false;
     ORellocate 8 QUEUE_RELLOC_HEAD; OCount; ODequeue; ODequeueTail; ODequeue; ODequeue] one_queue with
  | Ok rs _ => map snd rs = [Some 1001; Some 1002; None; Some 1003; None; None; Some 8; Some 7; Some 9; None]
               ∧ map fst rs = [0; 0; - EEXIST; 0; 0; 3; 0; 0; 0; - ENOENT]
  | Stop _ => False
  end.
Proof. vm_compute. split; reflexivity. Qed.
