(* ===== verification/StackDs.v ===== *)
(** * kernel/ds/stack.c: the stack

    A stack is a queue used at its tail, under a lock of its own.  The
    embedded queue is the first member of the struct, so it has the address
    of the stack.  The theorem of this file is that the operations are those
    of a last-in first-out list. *)

From S2P Require Import Prelude Dll Heap Queue.

Lemma d_stacks_set_queues m s : d_stacks (set_queues m s) = d_stacks s. Proof. done. Qed.
Lemma d_stacks_set_qnodes m s : d_stacks (set_qnodes m s) = d_stacks s. Proof. done. Qed.

Section operations.
Context {K : Kmalloc}.

Definition sload (s : ptr) : M dsheap stack_t := load s.
Definition supd (s : ptr) (f : stack_t -> stack_t) : M dsheap unit := update s f.

Definition stack_assert (s : ptr) : M dsheap unit := assert_ (bool_decide (s ≠ NULL)).
Definition stack_lock (s : ptr) : M dsheap unit :=
  stack_assert s;; st ← sload s; assert_ (negb (s_lock st));; supd s (λ _, Stack true).
Definition stack_unlock (s : ptr) : M dsheap unit :=
  stack_assert s;; st ← sload s; assert_ (s_lock st);; supd s (λ _, Stack false).
Definition stack_islocked (s : ptr) : M dsheap bool :=
  stack_assert s;; st ← sload s; mret (s_lock st).
Definition stack_assert_locked (s : ptr) : M dsheap unit :=
  b ← stack_islocked s; assert_ b.

Definition stack_init (s : ptr) : M dsheap Z :=
  if decide (s = NULL) then mret (- EINVAL) else
  modify (λ h, set_queues (<[s := QUEUE_INIT]> (d_queues h)) h);;
  supd s (λ _, Stack false);;
  mret 0.

Definition stack_push (s pd : ptr) : M dsheap Z :=
  if decide (s = NULL) then mret (- EINVAL) else
  stack_assert_locked s;;
  queue_lock s;;
  err ← enqueue s pd false false;
  queue_unlock s;;
  mret (fst err).

Definition stack_pop (s : ptr) (pdp : bool) : M dsheap (Z * option ptr) :=
  if decide (s = NULL) then mret (- EINVAL, None) else
  stack_assert_locked s;;
  queue_lock s;;
  err ← dequeue_tail s pdp;
  queue_unlock s;;
  mret err.

Definition stack_remove (s data : ptr) : M dsheap Z :=
  if decide (s = NULL) then mret (- EINVAL) else
  stack_assert_locked s;;
  queue_lock s;;
  err ← queue_remove s data;
  queue_unlock s;;
  mret err.

Definition stack_contains (s data : ptr) : M dsheap Z :=
  if decide (s = NULL) then mret (- EINVAL) else
  stack_assert_locked s;;
  queue_lock s;;
  err ← queue_contains s data false;
  queue_unlock s;;
  mret (fst err).

Definition stack_size (s : ptr) : M dsheap Z :=
  stack_assert_locked s;;
  queue_lock s;;
  size ← queue_count s;
  queue_unlock s;;
  mret size.

Definition stack_flush (s : ptr) : M dsheap Z :=
  if decide (s = NULL) then mret (- EINVAL) else
  stack_assert_locked s;;
  queue_lock s;;
  queue_flush s;;
  queue_unlock s;;
  mret 0.

(** [kmalloc] reserves the stack object; [stack_init] gives the embedded
    queue its value. *)
Definition stack_alloc (psp : bool) : M dsheap (Z * option ptr) :=
  if negb psp then mret (- EINVAL, None) else
  s ← kmalloc (Stack false);
  if decide (s = NULL) then mret (- ENOMEM, None) else
  err ← stack_init s;
  if decide (err ≠ 0) then kfree stack_t s;; mret (err, None) else
  mret (0, Some s).

Definition stack_free (s : ptr) : M dsheap unit :=
  if decide (s = NULL) then mret tt else
  b ← stack_islocked s;
  when (negb b) (stack_lock s);;
  stack_flush s;;
  stack_unlock s;;
  kfree queue_t s;;
  kfree stack_t s.

Definition stack_peek (s : ptr) (top pdp : bool) : M dsheap (Z * option ptr) :=
  if decide (s = NULL ∨ pdp = false) then mret (- EINVAL, None) else
  stack_assert_locked s;;
  queue_lock s;;
  err ← queue_peek s top pdp;
  queue_unlock s;;
  mret err.

(** ** Representation and specification *)

(** The stack at [st] holds [ds], the top first. *)
Definition stack_rep (h : dsheap) (st : ptr) (lk : bool) (ds : list ptr) : Prop :=
  d_stacks h !! st = Some (Stack lk) ∧
  ∃ xs, queue_rep h st false xs ∧ ds = reverse xs.*2.

Lemma stack_rep_nonnull h st lk ds : stack_rep h st lk ds -> st ≠ NULL.
Proof. intros (_ & xs & Hr & _). by eapply queue_rep_app_valid. Qed.

Lemma wp_stack_assert_locked h st ds (Q : unit -> dsheap -> Prop) :
  stack_rep h st true ds -> Q tt h -> wp (stack_assert_locked st) h Q.
Proof.
  intros Hr HQ. pose proof (stack_rep_nonnull _ _ _ _ Hr) as Hst. destruct Hr as (Hl & _).
  unfold stack_assert_locked, stack_islocked, stack_assert. wp_step. wp_step.
  apply wp_assert; [by apply bool_decide_eq_true|].
  wp_step. eapply wp_load; [done|done|]. apply wp_ret. by apply wp_assert.
Qed.

(** The pattern of every stack operation: lock the queue, call the queue
    operation, unlock.  The stack's own record is untouched. *)
Lemma wp_with_queue {A B} h st ds (c : M dsheap A) (f : A -> B) (Q : B -> dsheap -> Prop) :
  stack_rep h st true ds ->
  (∀ h1 xs, queue_rep h1 st true xs -> ds = reverse xs.*2 -> ds_rest h1 = ds_rest h ->
     wp c h1 (λ a h2, ∃ ys, queue_rep h2 st true ys ∧ ds_rest h2 = ds_rest h1 ∧
       ∀ h3, stack_rep h3 st true (reverse ys.*2) -> Q (f a) h3)) ->
  wp (stack_assert_locked st;; queue_lock st;; a ← c; queue_unlock st;; mret (f a)) h Q.
Proof.
  intros Hr Hc. wp_step. eapply wp_stack_assert_locked; [done|].
  destruct Hr as (Hl & xs & Hq & ->).
  wp_step. eapply wp_queue_lock; [done|]. intros h1 Hq1 Hf1 _.
  wp_step. eapply wp_mono; [eapply Hc; [exact Hq1|done|apply Hf1]|].
  intros a h2 (ys & Hq2 & Hrest & HQ). wp_step. eapply wp_queue_unlock; [done|].
  intros h3 Hq3 Hf3 _. apply wp_ret, HQ. split; [|by exists ys].
  destruct Hf1 as (_ & _ & E1). destruct Hf3 as (_ & _ & E3).
  unfold ds_rest in *. simplify_eq. congruence.
Qed.

(** The abstract stack. *)
Variant sop := SPush (d : ptr) | SPop | SRemove (d : ptr) | SContains (d : ptr)
  | SSize | SFlush | SPeek.

(** The list without the occurrence of [d] that is deepest in the stack. *)
Definition remove_deepest (d : ptr) (ds : list ptr) : list ptr :=
  match list_find (.= d) (reverse ds) with
  | Some (i, _) => reverse (delete i (reverse ds))
  | None => ds
  end.

Inductive lifo : list ptr -> sop -> Z * option ptr -> list ptr -> Prop :=
  | lifo_push ds d : lifo ds (SPush d) (0, None) (d :: ds)
  | lifo_push_nomem ds d : lifo ds (SPush d) (- ENOMEM, None) ds
  | lifo_pop d ds : lifo (d :: ds) SPop (0, Some d) ds
  | lifo_pop_empty : lifo [] SPop (- ENOENT, None) []
  | lifo_remove ds d : d ∈ ds -> lifo ds (SRemove d) (0, None) (remove_deepest d ds)
  | lifo_remove_none ds d : d ∉ ds -> lifo ds (SRemove d) (- ENOENT, None) ds
  | lifo_contains ds d : d ∈ ds -> lifo ds (SContains d) (0, None) ds
  | lifo_contains_none ds d : d ∉ ds -> lifo ds (SContains d) (- ENOENT, None) ds
  | lifo_size ds : lifo ds SSize (Z.of_nat (length ds), None) ds
  | lifo_flush ds : lifo ds SFlush (0, None) []
  | lifo_peek d ds : lifo (d :: ds) SPeek (0, Some d) (d :: ds)
  | lifo_peek_empty : lifo [] SPeek (- ENOENT, None) [].

Inductive lifo_run : list ptr -> list sop -> list (Z * option ptr) -> list ptr -> Prop :=
  | lifo_run_nil ds : lifo_run ds [] [] ds
  | lifo_run_cons ds op r ds' ops rs ds'' :
      lifo ds op r ds' -> lifo_run ds' ops rs ds'' -> lifo_run ds (op :: ops) (r :: rs) ds''.

Definition run_sop (s : ptr) (op : sop) : M dsheap (Z * option ptr) :=
  match op with
  | SPush d => r ← stack_push s d; mret (r, None)
  | SPop => stack_pop s true
  | SRemove d => r ← stack_remove s d; mret (r, None)
  | SContains d => r ← stack_contains s d; mret (r, None)
  | SSize => r ← stack_size s; mret (r, None)
  | SFlush => r ← stack_flush s; mret (r, None)
  | SPeek => stack_peek s true true
  end.

Fixpoint run_sops (s : ptr) (ops : list sop) : M dsheap (list (Z * option ptr)) :=
  match ops with
  | [] => mret []
  | op :: ops => r ← run_sop s op; rs ← run_sops s ops; mret (r :: rs)
  end.

Lemma remove_deepest_spec l1 p d l2 :
  d ∉ l1.*2 ->
  remove_deepest d (reverse (l1 ++ (p, d) :: l2 : list (ptr * ptr)).*2) = reverse (l1 ++ l2).*2.
Proof.
  intros Hd. unfold remove_deepest. rewrite reverse_involutive, fmap_app. simpl.
  rewrite list_find_app_r; [|].
  2: { apply list_find_None, Forall_forall. intros x Hx ->. done. }
  simpl. rewrite decide_True by done. simpl.
  rewrite delete_middle, fmap_app. done.
Qed.

Lemma elem_rev2 d (xs : list (ptr * ptr)) : d ∈ reverse xs.*2 <-> d ∈ xs.*2.
Proof. apply elem_of_reverse. Qed.

Lemma run_sop_refines h st ds op :
  stack_rep h st true ds ->
  wp (run_sop st op) h (λ r h', ∃ ds', lifo ds op r ds' ∧ stack_rep h' st true ds').
Proof.
  intros Hr. pose proof (stack_rep_nonnull _ _ _ _ Hr) as Hst.
  destruct op as [d| |d|d| | |]; simpl.
  - unfold stack_push. rewrite decide_False by done. wp_step.
    eapply (wp_with_queue _ _ _ _ fst); [done|]. intros h1 xs Hq -> Hrest.
    eapply wp_enqueue; [done|done|intros _ _|intros p h2 _ Hq2 Hf _ _]; (eexists; split; [done|]).
    + split; [done|]. intros h3 Hs3. apply wp_ret. eexists. split; [constructor|done].
    + split; [apply Hf|]. intros h3 Hs3. rewrite fmap_app in Hs3. simpl in Hs3. rewrite reverse_snoc in Hs3.
      apply wp_ret. eexists. split; [constructor|done].
  - unfold stack_pop. rewrite decide_False by done.
    eapply (wp_with_queue _ _ _ _ id); [done|]. intros h1 xs Hq -> Hrest.
    eapply wp_dequeue_tail; [done|done|intros _ ->|intros p d ys h2 _ -> Hq2 Hf _]; (eexists; split; [done|]).
    + split; [done|]. intros h3 Hs3. eexists. split; [constructor|done].
    + split; [apply Hf|]. intros h3 Hs3. rewrite fmap_app. simpl. rewrite reverse_snoc.
      eexists. split; [constructor|done].
  - unfold stack_remove. rewrite decide_False by done. wp_step.
    eapply (wp_with_queue _ _ _ _ id); [done|]. intros h1 xs Hq -> Hrest.
    eapply wp_queue_remove; [done|intros Hn|intros p h2 Hfind Hq2 Hf _]; (eexists; split; [done|]).
    + split; [done|]. intros h3 Hs3. apply wp_ret. eexists.
      split; [constructor; by rewrite elem_rev2|done].
    + split; [apply Hf|]. intros h3 Hs3. apply wp_ret.
      apply find_node_split in Hfind as (l1 & l2 & -> & Hn & Hrm). rewrite Hrm in Hs3.
      eexists. split; [apply lifo_remove; rewrite elem_rev2, fmap_app; set_solver|].
      by rewrite remove_deepest_spec.
  - unfold stack_contains. rewrite decide_False by done. wp_step.
    eapply (wp_with_queue _ _ _ _ fst); [done|]. intros h1 xs Hq -> Hrest.
    eapply wp_queue_contains; [done|]. eexists; split; [done|]. split; [done|].
    intros h3 Hs3. apply wp_ret. eexists. split; [|done].
    destruct (find_node d xs) as [p|] eqn:Hf.
    + apply find_node_split in Hf as (l1 & l2 & -> & _). apply lifo_contains.
      rewrite elem_rev2, fmap_app. set_solver.
    + apply lifo_contains_none. rewrite elem_rev2. by apply find_node_None.
  - unfold stack_size. wp_step. eapply (wp_with_queue _ _ _ _ id); [done|].
    intros h1 xs Hq -> Hrest. eapply wp_queue_count; [done|].
    eexists; split; [done|]. split; [done|]. intros h3 Hs3. apply wp_ret.
    replace (length xs) with (length (reverse xs.*2)) by (by rewrite length_reverse, length_fmap).
    eexists. split; [constructor|done].
  - unfold stack_flush. rewrite decide_False by done. wp_step.
    eapply (wp_with_queue _ _ _ _ (λ _, 0)); [done|]. intros h1 xs Hq -> Hrest.
    eapply wp_queue_flush; [done|]. intros h2 Hq2 Hf _. exists []. split; [done|].
    split; [apply Hf|]. intros h3 Hs3. apply wp_ret. eexists. split; [constructor|done].
  - unfold stack_peek. rewrite decide_False by naive_solver.
    eapply (wp_with_queue _ _ _ _ id); [done|]. intros h1 xs Hq -> Hrest.
    eapply wp_queue_peek; [done|done|intros _ ->|intros x _ Hlast]; eexists; (split; [done|]);
      (split; [done|]); intros h3 Hs3.
    + eexists. split; [constructor|done].
    + destruct xs as [|y xs _] using rev_ind; [done|]. rewrite last_snoc in Hlast.
      injection Hlast as ->. eexists. split; [|done]. rewrite fmap_app. simpl.
      rewrite reverse_snoc. constructor.
Qed.

(** Every sequence of stack calls on a locked stack returns, with the
    results and the final contents of a last-in first-out list; the queue
    lock is always released again. *)
Theorem stack_refines_lifo h st ds ops :
  stack_rep h st true ds ->
  wp (run_sops st ops) h (λ rs h', ∃ ds', lifo_run ds ops rs ds' ∧ stack_rep h' st true ds').
Proof.
  revert h ds. induction ops as [|op ops IH]; intros h ds Hr; simpl.
  - apply wp_ret. exists ds. split; [constructor|done].
  - wp_step. eapply wp_mono; [by apply run_sop_refines|]. intros r h1 (ds1 & Hop & Hr1).
    wp_step. eapply wp_mono; [by eapply IH|]. intros rs h2 (ds2 & Hrun & Hr2).
    apply wp_ret. exists ds2. split; [by econstructor|done].
Qed.

End operations.

(** A locked empty stack at address 1000. *)
Definition one_stack : dsheap :=
  DsHeap {[ 1000 := QUEUE_INIT ]} ∅ {[ 1000 := Stack true ]} ∅ ∅ ∅ ∅ ∅ ∅ 0.

Lemma one_stack_rep : stack_rep one_stack 1000 true [].
Proof.
  split; [reflexivity|]. exists []. split; [|done].
  split; [done|]. split; [reflexivity|]. split; [apply dll_nil|constructor].
Qed.

Lemma stack_refines_lifo_witness :
  wp (run_sops (K := bump_kmalloc) 1000 [SPush 5; SPush 6; SPop]) one_stack
    (λ rs h', ∃ ds', lifo_run [] [SPush 5; SPush 6; SPop] rs ds' ∧ stack_rep h' 1000 true ds').
Proof. apply (stack_refines_lifo (K := bump_kmalloc)). exact one_stack_rep. Defined.

Example stack_run_example :
  match run_sops (K := bump_kmalloc) 1000 [SPush 5; SPush 6; SPeek; SPop; SPop; SPop] one_stack with
  | Ok rs _ => rs = [(0, None); (0, None); (0, Some 6); (0, Some 6); (0, Some 5); (- ENOENT, None)]
  | Stop _ => False
  end.
Proof. vm_compute. reflexivity. Qed.
