(* ===== verification/Ringbuf.v ===== *)
(** * kernel/ds/ringbuf.c: the byte ring buffer

    [head] and [tail] are free-running 64-bit counters that are reduced
    modulo the size when the buffer is indexed; [count] is kept apart.  The
    theorems show that the buffer is a bounded first-in first-out byte
    stream whenever the size divides 2^64 (every power of two, as the pipes
    use), and that without this the wrap-around of a counter breaks it. *)

From S2P Require Import Prelude Dll Heap.

Definition r_set_buf v r := Ringbuf v (r_size r) (r_head r) (r_tail r) (r_count r) (r_lock r).
Definition r_set_head v r := Ringbuf (r_buf r) (r_size r) v (r_tail r) (r_count r) (r_lock r).
Definition r_set_tail v r := Ringbuf (r_buf r) (r_size r) (r_head r) v (r_count r) (r_lock r).
Definition r_set_count v r := Ringbuf (r_buf r) (r_size r) (r_head r) (r_tail r) v (r_lock r).
Definition r_set_lock v r := Ringbuf (r_buf r) (r_size r) (r_head r) (r_tail r) (r_count r) v.

Definition rload (r : ptr) : M dsheap ringbuf_t := load r.
Definition rupd (r : ptr) (f : ringbuf_t -> ringbuf_t) : M dsheap unit := update r f.

Definition RINGBUF_INDEX (ring : ringbuf_t) (i : Z) : Z := i mod r_size ring.

(** [buf[i]] as a value and as the target of a store; an index outside the
    allocation is a bad access. *)
Definition buf_read (buf : ptr) (i : Z) : M dsheap Z :=
  b ← load (V := list Z) buf;
  match b !! Z.to_nat i with Some x => mret x | None => halt BadAccess end.
Definition buf_write (buf : ptr) (i x : Z) : M dsheap unit :=
  b ← load (V := list Z) buf;
  if decide (Z.to_nat i < length b)%nat then update (V := list Z) buf (<[Z.to_nat i := x]>)
  else halt BadAccess.

Definition ringbuf_assert (r : ptr) : M dsheap unit := assert_ (bool_decide (r ≠ NULL)).
Definition ringbuf_lock (r : ptr) : M dsheap unit :=
  ringbuf_assert r;; ring ← rload r; assert_ (negb (r_lock ring));; rupd r (r_set_lock true).
Definition ringbuf_unlock (r : ptr) : M dsheap unit :=
  ringbuf_assert r;; ring ← rload r; assert_ (r_lock ring);; rupd r (r_set_lock false).
Definition ringbuf_assert_locked (r : ptr) : M dsheap unit :=
  ringbuf_assert r;; ring ← rload r; assert_ (r_lock ring).

Section alloc.
Context {K : Kmalloc}.
(** The bytes [kmalloc] leaves in a fresh array. *)
Context (junk : nat -> Z).

Definition ringbuf_init (size : Z) (ring : ptr) : M dsheap Z :=
  if decide (ring = NULL) then mret (- EINVAL) else
  buf ← kmalloc (junk <$> seq 0 (Z.to_nat size));
  if decide (buf = NULL) then kfree ringbuf_t ring;; mret (- ENOMEM) else
  rupd ring (λ _, Ringbuf buf (u64 size) 0 0 0 false);;
  mret 0.

Definition ringbuf_new (size : Z) (rref : bool) : M dsheap (Z * option ptr) :=
  assert_ rref;;
  ring ← kmalloc (Ringbuf NULL 0 0 0 0 false);
  if decide (ring = NULL) then mret (- ENOMEM, None) else
  err ← ringbuf_init size ring;
  if decide (err ≠ 0) then
    when (bool_decide (ring ≠ NULL)) (kfree ringbuf_t ring);; mret (err, None)
  else mret (0, Some ring).
End alloc.

Definition ringbuf_free (r : ptr) : M dsheap unit :=
  assert_ (bool_decide (r ≠ NULL));;
  ring ← rload r;
  kfree (list Z) (r_buf ring);;
  kfree ringbuf_t r.

Definition ringbuf_isempty (r : ptr) : M dsheap bool :=
  ringbuf_assert r;;
  ringbuf_assert_locked r;;
  ring ← rload r; mret (bool_decide (r_count ring = 0)).

Definition ringbuf_isfull (r : ptr) : M dsheap bool :=
  ringbuf_assert r;;
  ringbuf_assert_locked r;;
  ring ← rload r; mret (bool_decide (r_count ring = r_size ring)).

(** The loop of [ringbuf_read]: [n] counts down to zero.  The result is the
    remaining [n] and the bytes stored through [buf], first to last. *)
Fixpoint ringbuf_read_loop (n : nat) (r : ptr) : M dsheap (nat * list Z) :=
  match n with
  | O => mret (O, [])
  | S n' =>
      e ← ringbuf_isempty r;
      if (e : bool) then mret (n, []) else
      ring ← rload r;
      x ← buf_read (r_buf ring) (RINGBUF_INDEX ring (r_head ring));
      rupd r (λ g, r_set_head (u64 (r_head g + 1)) g);;
      rupd r (λ g, r_set_count (u64 (r_count g - 1)) g);;
      res ← ringbuf_read_loop n' r;
      mret (res.1, x :: res.2)
  end.

(** [buf] is "the pointer is not [NULL]"; the result is the number of bytes
    and the bytes themselves. *)
Definition ringbuf_read (r : ptr) (buf : bool) (n : Z) : M dsheap (Z * list Z) :=
  ringbuf_assert r;;
  ringbuf_assert_locked r;;
  assert_ buf;;
  res ← ringbuf_read_loop (Z.to_nat n) r;
  mret (n - Z.of_nat res.1, res.2).

(** The loop of [ringbuf_write]; [buf] is what is left of the caller's
    array, reading past its end is a bad access. *)
Fixpoint ringbuf_write_loop (n : nat) (r : ptr) (buf : list Z) : M dsheap nat :=
  match n with
  | O => mret O
  | S n' =>
      f ← ringbuf_isfull r;
      if (f : bool) then mret n else
      match buf with
      | [] => halt BadAccess
      | x :: buf' =>
          ring ← rload r;
          buf_write (r_buf ring) (RINGBUF_INDEX ring (r_tail ring)) x;;
          rupd r (λ g, r_set_tail (u64 (r_tail g + 1)) g);;
          rupd r (λ g, r_set_count (u64 (r_count g + 1)) g);;
          ringbuf_write_loop n' r buf'
      end
  end.

(** [None] is a [NULL] buffer. *)
Definition ringbuf_write (r : ptr) (buf : option (list Z)) (n : Z) : M dsheap Z :=
  ringbuf_assert r;;
  ringbuf_assert_locked r;;
  match buf with
  | None => halt Panic
  | Some b => left ← ringbuf_write_loop (Z.to_nat n) r b; mret (n - Z.of_nat left)
  end.

Definition ringbuf_available (r : ptr) : M dsheap Z :=
  ringbuf_assert r;;
  ringbuf_assert_locked r;;
  ring ← rload r;
  if decide (r_tail ring >= r_head ring) then mret (u64 (r_tail ring - r_head ring))
  else mret (u64 (r_tail ring + r_size ring - r_head ring)).

(** ** Representation *)

(** The ring at [r] holds the bytes [bs], oldest first. *)
Record ring_rep (h : dsheap) (r : ptr) (lk : bool) (size : Z) (bs : list Z) : Prop := {
  rr_ptr : valid_ptr r;
  rr_size : 0 < size < two64;
  rr_ring : ∃ b head arr,
    d_rings h !! r = Some (Ringbuf b size head (u64 (head + Z.of_nat (length bs)))
                             (Z.of_nat (length bs)) lk) ∧
    valid_ptr b ∧ in_u64 head ∧
    d_bufs h !! b = Some arr ∧ Z.of_nat (length arr) = size ∧
    (∀ i x, bs !! i = Some x -> arr !! Z.to_nat ((head + Z.of_nat i) mod size) = Some x);
  rr_count : Z.of_nat (length bs) <= size;
}.

Lemma mod_divide_u64 size z : 0 < size -> (size | two64) -> u64 z mod size = z mod size.
Proof.
  intros Hs [k Hk]. unfold u64. rewrite (Z.mod_eq z two64) by done. rewrite Hk.
  replace (z - k * size * (z / (k * size))) with (z + (- (k * (z / (k * size)))) * size) by ring.
  by rewrite Z.mod_add by lia.
Qed.

(** Two indices less than [size] apart select different cells. *)
Lemma mod_window_inj size h i j :
  0 < size -> 0 <= i < size -> 0 <= j < size ->
  (h + i) mod size = (h + j) mod size -> i = j.
Proof.
  intros Hs Hi Hj E.
  assert ((i - j) mod size = 0) as Hd.
  { replace (i - j) with ((h + i) - (h + j)) by ring.
    rewrite Zminus_mod, E, Z.sub_diag. apply Zmod_0_l. }
  apply Z.mod_divide in Hd as [k Hk]; [|lia].
  assert (k = 0) by nia. lia.
Qed.

(** ** One byte in, one byte out *)

Lemma wp_ringbuf_assert_locked h r size bs (Q : unit -> dsheap -> Prop) :
  ring_rep h r true size bs -> Q tt h -> wp (ringbuf_assert_locked r) h Q.
Proof.
  intros [Hp _ (b & hd & arr & Hr & _) _] HQ. unfold ringbuf_assert_locked, ringbuf_assert.
  pose proof (valid_ptr_nonnull _ Hp).
  wp_step. apply wp_assert; [by apply bool_decide_eq_true|].
  wp_step. eapply wp_load; [done|exact Hr|]. by apply wp_assert.
Qed.

Lemma wp_ringbuf_assert h r size bs (Q : unit -> dsheap -> Prop) :
  ring_rep h r true size bs -> Q tt h -> wp (ringbuf_assert r) h Q.
Proof.
  intros [Hp _ _ _] HQ. apply wp_assert; [|done].
  apply bool_decide_eq_true. by apply valid_ptr_nonnull.
Qed.

Lemma wp_ringbuf_isempty h r size bs (Q : bool -> dsheap -> Prop) :
  ring_rep h r true size bs -> Q (bool_decide (bs = [])) h -> wp (ringbuf_isempty r) h Q.
Proof.
  intros Hr HQ. unfold ringbuf_isempty. wp_step. eapply wp_ringbuf_assert; [done|].
  wp_step. eapply wp_ringbuf_assert_locked; [done|].
  destruct Hr as [Hp _ (b & hd & arr & Hr & _) _].
  wp_step. eapply wp_load; [by apply valid_ptr_nonnull|exact Hr|]. apply wp_ret. simpl.
  erewrite bool_decide_ext; [exact HQ|]. destruct bs; naive_solver lia.
Qed.

Lemma wp_ringbuf_isfull h r size bs (Q : bool -> dsheap -> Prop) :
  ring_rep h r true size bs -> Q (bool_decide (Z.of_nat (length bs) = size)) h ->
  wp (ringbuf_isfull r) h Q.
Proof.
  intros Hr HQ. unfold ringbuf_isfull. wp_step. eapply wp_ringbuf_assert; [done|].
  wp_step. eapply wp_ringbuf_assert_locked; [done|].
  destruct Hr as [Hp _ (b & hd & arr & Hr & _) _].
  wp_step. eapply wp_load; [by apply valid_ptr_nonnull|exact Hr|]. by apply wp_ret.
Qed.

(** The body of the reading loop takes the oldest byte. *)
Lemma wp_read_step h r size x bs {A} (k : Z -> M dsheap A) Q :
  (size | two64) -> ring_rep h r true size (x :: bs) ->
  (∀ h', ring_rep h' r true size bs -> wp (k x) h' Q) ->
  wp (ring ← rload r;
      x ← buf_read (r_buf ring) (RINGBUF_INDEX ring (r_head ring));
      rupd r (λ g, r_set_head (u64 (r_head g + 1)) g);;
      rupd r (λ g, r_set_count (u64 (r_count g - 1)) g);; k x) h Q.
Proof.
  intros Hdiv [Hp Hs (b & hd & arr & Hr & Hb & Hhd & Harr & Hlen & Hbs) Hc] Hk.
  pose proof (valid_ptr_nonnull _ Hp). pose proof (valid_ptr_nonnull _ Hb). simpl in Hc, Hr.
  wp_step. eapply wp_load; [done|exact Hr|]. simpl.
  wp_step. unfold buf_read. wp_step. eapply wp_load; [done|exact Harr|].
  unfold RINGBUF_INDEX. simpl.
  pose proof (Hbs 0%nat x eq_refl) as Hx. rewrite Z.add_0_r in Hx. rewrite Hx. apply wp_ret.
  wp_step. eapply wp_update; [done|exact Hr|]. simpl.
  wp_step. eapply wp_update; [done|simpl; by rewrite lookup_insert_eq|]. simpl.
  apply Hk. split; [done..| |lia].
  exists b, (u64 (hd + 1)), arr. simpl. rewrite lookup_insert_eq.
  split_and!; [|done|apply u64_range|done..|].
  - unfold r_set_head, r_set_count. simpl. rewrite u64_add_l. do 2 f_equal; [f_equal; lia|].
    rewrite u64_small; unfold in_u64, two64 in *; lia.
  - intros i y Hi. specialize (Hbs (S i) y Hi).
    rewrite Z.add_mod, mod_divide_u64, <- Z.add_mod by lia || done.
    by replace (hd + 1 + Z.of_nat i) with (hd + Z.of_nat (S i)) by lia.
Qed.

(** The body of the writing loop appends a byte when there is room. *)
Lemma wp_write_step h r size x bs {A} (k : M dsheap A) Q :
  (size | two64) -> ring_rep h r true size bs -> Z.of_nat (length bs) < size ->
  (∀ h', ring_rep h' r true size (bs ++ [x]) -> wp k h' Q) ->
  wp (ring ← rload r;
      buf_write (r_buf ring) (RINGBUF_INDEX ring (r_tail ring)) x;;
      rupd r (λ g, r_set_tail (u64 (r_tail g + 1)) g);;
      rupd r (λ g, r_set_count (u64 (r_count g + 1)) g);; k) h Q.
Proof.
  intros Hdiv [Hp Hs (b & hd & arr & Hr & Hb & Hhd & Harr & Hlen & Hbs) Hc] Hlt Hk.
  pose proof (valid_ptr_nonnull _ Hp). pose proof (valid_ptr_nonnull _ Hb).
  wp_step. eapply wp_load; [done|exact Hr|]. simpl.
  wp_step. unfold buf_write, RINGBUF_INDEX. simpl. rewrite mod_divide_u64 by lia || done.
  wp_step. eapply wp_load; [done|exact Harr|].
  pose proof (Z.mod_pos_bound (hd + Z.of_nat (length bs)) size ltac:(lia)) as Hm.
  rewrite decide_True by lia.
  eapply wp_update; [done|exact Harr|]. simpl.
  wp_step. eapply wp_update; [done|exact Hr|]. simpl.
  wp_step. eapply wp_update; [done|simpl; by rewrite lookup_insert_eq|]. simpl.
  apply Hk. split; [done..| |rewrite length_app; simpl; lia].
  eexists b, hd, _. simpl. rewrite !lookup_insert_eq, length_app. simpl.
  split_and!; [|done..|by rewrite length_insert|].
  - unfold r_set_tail, r_set_count. simpl. rewrite u64_add_l. do 2 f_equal; [f_equal; lia|].
    rewrite u64_small; unfold in_u64, two64 in *; lia.
  - intros i y [Hi|[Hge Hi]]%lookup_app_Some.
    + assert (i < length bs)%nat by (by eapply lookup_lt_Some).
      rewrite list_lookup_insert_ne; [by apply Hbs|]. intros E.
      pose proof (Z.mod_pos_bound (hd + Z.of_nat i) size ltac:(lia)).
      apply Z2Nat.inj in E; [|lia..]. apply mod_window_inj in E; lia.
    + apply list_lookup_singleton_Some in Hi as [E <-].
      replace i with (length bs) by lia. rewrite list_lookup_insert_eq; [done|lia].
Qed.

(** ** The operations *)

Lemma wp_ringbuf_read_loop n h r size bs Q :
  (size | two64) -> ring_rep h r true size bs ->
  (∀ h', ring_rep h' r true size (drop n bs) -> Q ((n - length (take n bs))%nat, take n bs) h') ->
  wp (ringbuf_read_loop n r) h Q.
Proof.
  intros Hdiv. revert h bs Q. induction n as [|n IH]; intros h bs Q Hr HQ; simpl ringbuf_read_loop.
  - apply wp_ret. by apply HQ.
  - wp_step. eapply wp_ringbuf_isempty; [done|].
    destruct bs as [|x bs].
    + rewrite bool_decide_eq_true_2 by done. apply wp_ret. by apply HQ.
    + rewrite bool_decide_eq_false_2 by done.
      eapply (wp_read_step _ _ _ _ _ (λ x, res ← ringbuf_read_loop n r; mret (res.1, x :: res.2)));
        [done..|]. intros h1 Hr1. wp_step. apply (IH h1 bs); [done|].
      intros h2 Hr2. apply wp_ret. by apply HQ.
Qed.

Lemma wp_ringbuf_read h r size bs n Q :
  (size | two64) -> 0 <= n -> ring_rep h r true size bs ->
  (∀ h', ring_rep h' r true size (drop (Z.to_nat n) bs) ->
     Q (Z.of_nat (length (take (Z.to_nat n) bs)), take (Z.to_nat n) bs) h') ->
  wp (ringbuf_read r true n) h Q.
Proof.
  intros Hdiv Hn Hr HQ. unfold ringbuf_read.
  wp_step. eapply wp_ringbuf_assert; [done|]. wp_step. eapply wp_ringbuf_assert_locked; [done|].
  wp_step. apply wp_assert; [done|]. wp_step. eapply wp_ringbuf_read_loop; [done..|].
  intros h' Hr'. apply wp_ret. simpl.
  replace (n - _) with (Z.of_nat (length (take (Z.to_nat n) bs))); [by apply HQ|].
  rewrite length_take. lia.
Qed.

(** What a write of [buf] into a ring with [room] free bytes accepts. *)
Definition accepted (size : Z) (bs buf : list Z) (n : Z) : list Z :=
  take (Z.to_nat n `min` (Z.to_nat size - length bs)) buf.

Lemma wp_ringbuf_write_loop n h r size bs buf (Q : nat -> dsheap -> Prop) :
  (size | two64) -> ring_rep h r true size bs -> (n <= length buf)%nat ->
  (∀ h', let a := take (n `min` (Z.to_nat size - length bs)) buf in
     ring_rep h' r true size (bs ++ a) -> Q (n - length a)%nat h') ->
  wp (ringbuf_write_loop n r buf) h Q.
Proof.
  intros Hdiv. revert h bs buf Q. induction n as [|n IH]; intros h bs buf Q Hr Hn HQ; simpl.
  - apply wp_ret. apply (HQ h). simpl. by rewrite take_0, app_nil_r.
  - wp_step. eapply wp_ringbuf_isfull; [done|]. pose proof (rr_count _ _ _ _ _ Hr) as Hc.
    case_bool_decide as Hfull.
    + apply wp_ret. replace (Z.to_nat size - length bs)%nat with 0%nat in HQ by lia.
      rewrite Nat.min_0_r in HQ. apply (HQ h). simpl. by rewrite take_0, app_nil_r.
    + destruct buf as [|x buf]; [simpl in Hn; lia|].
      eapply wp_write_step; [done..|lia|]. intros h1 Hr1. simpl in Hn.
      apply (IH h1 (bs ++ [x]) buf); [done|lia|].
      intros h2. simpl. rewrite length_app. simpl. intros Hr2.
      specialize (HQ h2). simpl in HQ.
      replace (Z.to_nat size - length bs)%nat
        with (S (Z.to_nat size - (length bs + 1)))%nat in HQ by lia.
      apply HQ. simpl. by rewrite <- app_assoc in Hr2.
Qed.

Lemma wp_ringbuf_write h r size bs buf n (Q : Z -> dsheap -> Prop) :
  (size | two64) -> 0 <= n <= Z.of_nat (length buf) -> ring_rep h r true size bs ->
  (∀ h', ring_rep h' r true size (bs ++ accepted size bs buf n) ->
     Q (Z.of_nat (length (accepted size bs buf n))) h') ->
  wp (ringbuf_write r (Some buf) n) h Q.
Proof.
  intros Hdiv Hn Hr HQ. unfold ringbuf_write.
  wp_step. eapply wp_ringbuf_assert; [done|]. wp_step. eapply wp_ringbuf_assert_locked; [done|].
  wp_step. eapply wp_ringbuf_write_loop; [done..|lia|].
  intros h' a Hr'. apply wp_ret.
  replace (n - _) with (Z.of_nat (length a)); [by apply HQ|].
  unfold a. rewrite length_take. lia.
Qed.

(** ** The abstract byte stream *)

Variant rop := RWrite (bytes : list Z) | RRead (n : Z).

(** Results: the count, and the bytes delivered. *)
Definition run_rop (r : ptr) (op : rop) : M dsheap (Z * list Z) :=
  match op with
  | RWrite b => c ← ringbuf_write r (Some b) (Z.of_nat (length b)); mret (c, [])
  | RRead n => ringbuf_read r true n
  end.

Fixpoint run_rops (r : ptr) (ops : list rop) : M dsheap (list (Z * list Z)) :=
  match ops with
  | [] => mret []
  | op :: ops => x ← run_rop r op; xs ← run_rops r ops; mret (x :: xs)
  end.

(** A bounded stream of capacity [size]. *)
Definition stream_step (size : Z) (bs : list Z) (op : rop) : (Z * list Z) * list Z :=
  match op with
  | RWrite b =>
      let a := take (Z.to_nat size - length bs) b in ((Z.of_nat (length a), []), bs ++ a)
  | RRead n =>
      let o := take (Z.to_nat n) bs in ((Z.of_nat (length o), o), drop (Z.to_nat n) bs)
  end.

Fixpoint stream_run (size : Z) (bs : list Z) (ops : list rop) : list (Z * list Z) * list Z :=
  match ops with
  | [] => ([], bs)
  | op :: ops =>
      let '(x, bs1) := stream_step size bs op in
      let '(xs, bs2) := stream_run size bs1 ops in (x :: xs, bs2)
  end.

Definition rop_ok (op : rop) : Prop :=
  match op with RWrite _ => True | RRead n => 0 <= n end.

Lemma run_rop_stream h r size bs op :
  (size | two64) -> rop_ok op -> ring_rep h r true size bs ->
  wp (run_rop r op) h (λ x h', stream_step size bs op = (x, (stream_step size bs op).2) ∧
    ring_rep h' r true size (stream_step size bs op).2).
Proof.
  intros Hdiv Hok Hr. destruct op as [b|n]; simpl in *.
  - wp_step. eapply wp_ringbuf_write; [done|lia|done|]. intros h'.
    replace (accepted size bs b (Z.of_nat (length b))) with (take (Z.to_nat size - length bs) b).
    + intros Hr'. by apply wp_ret.
    + unfold accepted. rewrite Nat2Z.id, Nat.min_comm, <- take_take.
      by rewrite (take_ge b (length b)) by lia.
  - eapply wp_ringbuf_read; [done..|]. auto.
Qed.

Lemma run_rops_stream h r size bs ops :
  (size | two64) -> Forall rop_ok ops -> ring_rep h r true size bs ->
  wp (run_rops r ops) h (λ xs h',
    xs = (stream_run size bs ops).1 ∧ ring_rep h' r true size (stream_run size bs ops).2).
Proof.
  intros Hdiv Hok. revert h bs. induction Hok as [|op ops Hop _ IH]; intros h bs Hr; simpl.
  - by apply wp_ret.
  - wp_step. eapply wp_mono; [by apply run_rop_stream|]. intros x h1 [E Hr1].
    wp_step. eapply wp_mono; [by apply IH|]. intros xs h2 [-> Hr2].
    apply wp_ret. rewrite E. simpl. by destruct (stream_run size _ ops).
Qed.

(** C39. Ring buffer as a bounded byte stream.  On a locked ring whose size
    divides 2^64, every sequence of writes and reads returns (no panic, no
    access outside the buffer) with the counts and bytes of a first-in
    first-out stream of that capacity, however often [head] and [tail] wrap
    around. *)
Theorem ringbuf_refines_stream h r size bs ops :
  (size | two64) -> Forall rop_ok ops -> ring_rep h r true size bs ->
  wp (run_rops r ops) h (λ xs h',
    xs = (stream_run size bs ops).1 ∧ ring_rep h' r true size (stream_run size bs ops).2).
Proof. apply run_rops_stream. Qed.

(** Bytes accepted and delivered by a run. *)
Fixpoint stream_in (size : Z) (bs : list Z) (ops : list rop) : list Z :=
  match ops with
  | [] => []
  | op :: ops =>
      match op with RWrite b => take (Z.to_nat size - length bs) b | RRead _ => [] end ++
      stream_in size (stream_step size bs op).2 ops
  end.

(** Nothing is lost, duplicated or reordered: what was delivered, followed by
    what is still buffered, is what was buffered at first, followed by what
    was accepted. *)
Lemma stream_conservation size bs ops :
  concat (stream_run size bs ops).1.*2 ++ (stream_run size bs ops).2 =
  bs ++ stream_in size bs ops.
Proof.
  revert bs. induction ops as [|op ops IH]; intros bs; [by rewrite app_nil_r|].
  destruct op as [b|n]; simpl.
  - specialize (IH (bs ++ take (Z.to_nat size - length bs) b)).
    destruct (stream_run size _ ops) as [xs bs2]. rewrite app_assoc. exact IH.
  - specialize (IH (drop (Z.to_nat n) bs)).
    destruct (stream_run size _ ops) as [xs bs2]. simpl in IH. simpl.
    rewrite <- app_assoc. etrans; [apply (f_equal (app _)), IH|]. by rewrite app_assoc, take_drop.
Qed.

(** First-in first-out delivery.  Whatever the calls, the bytes the
    reads delivered followed by those still in the ring are the bytes that
    were in the ring followed by those the writes accepted. *)
Theorem ringbuf_fifo h r size bs ops :
  (size | two64) -> Forall rop_ok ops -> ring_rep h r true size bs ->
  wp (run_rops r ops) h (λ xs h', ∃ bs',
    ring_rep h' r true size bs' ∧ concat xs.*2 ++ bs' = bs ++ stream_in size bs ops).
Proof.
  intros Hdiv Hok Hr.
  eapply wp_mono; [by apply run_rops_stream|].
  intros xs h' [-> Hr']. eexists. split; [done|]. apply stream_conservation.
Qed.

(** A locked ring of four bytes whose counters are about to wrap around,
    holding the bytes 7 and 8. *)
Definition ring4 : dsheap :=
  DsHeap ∅ ∅ ∅ ∅ ∅ ∅ ∅
    {[ 100 := Ringbuf 200 4 (two64 - 1) 1 2 true ]} {[ 200 := [8; 0; 0; 7] ]} 0.

Lemma ring4_rep : ring_rep ring4 100 true 4 [7; 8].
Proof.
  split; [done..| |done].
  exists 200, (two64 - 1), [8; 0; 0; 7]. split_and!; try done.
  intros [|[|i]] x Hi; [by injection Hi as <-..|done].
Qed.

Lemma ringbuf_refines_stream_witness :
  wp (run_rops 100 [RWrite [1; 2; 3]; RRead 3]) ring4 (λ xs h',
    xs = (stream_run 4 [7; 8] [RWrite [1; 2; 3]; RRead 3]).1 ∧
    ring_rep h' 100 true 4 (stream_run 4 [7; 8] [RWrite [1; 2; 3]; RRead 3]).2).
Proof.
  apply ringbuf_refines_stream; [by exists 4611686018427387904| |exact ring4_rep].
  repeat constructor. done.
Defined.

Lemma ringbuf_fifo_witness :
  wp (run_rops 100 [RWrite [1; 2; 3]; RRead 3]) ring4 (λ xs h', ∃ bs',
    ring_rep h' 100 true 4 bs' ∧
    concat xs.*2 ++ bs' = [7; 8] ++ stream_in 4 [7; 8] [RWrite [1; 2; 3]; RRead 3]).
Proof.
  apply ringbuf_fifo; [by exists 4611686018427387904| |exact ring4_rep].
  repeat constructor. done.
Defined.

Example ring4_run :
  match run_rops 100 [RWrite [1; 2; 3]; RRead 3; RRead 9; RRead 1] ring4 with
  | Ok xs _ => xs = [(2, []); (3, [7; 8; 1]); (1, [2]); (0, [])]
  | Stop _ => False
  end.
Proof. vm_compute. reflexivity. Qed.

(** ** Where the buffer falls short *)

(** A ring of three bytes, empty, with both counters at 2^64 - 1. *)
Definition ring3 : dsheap :=
  DsHeap ∅ ∅ ∅ ∅ ∅ ∅ ∅
    {[ 100 := Ringbuf 200 3 (two64 - 1) (two64 - 1) 0 true ]} {[ 200 := [0; 0; 0] ]} 0.

(** A size that does not divide 2^64 breaks the stream when a counter
    wraps around: with three bytes, the second byte written lands on the
    first (indices (2^64 - 1) mod 3 and 0 mod 3 are equal) and the reader
    gets it twice. *)
Theorem ringbuf_wrap_corrupts :
  ring_rep ring3 100 true 3 [] ∧
  match run_rops 100 [RWrite [1; 2]; RRead 2] ring3 with
  | Ok xs _ => xs = [(2, []); (2, [2; 2])]
  | Stop _ => False
  end.
Proof.
  split; [|vm_compute; reflexivity]. split; [done..| |done].
  exists 200, (two64 - 1), [0; 0; 0]. split_and!; done.
Qed.

(** [ringbuf_available] is the number of buffered bytes as long as the
    free-running counters have not wrapped apart, and is too large by the
    size of the ring when [tail] has wrapped and [head] has not. *)
Theorem ringbuf_available_spec h r size bs :
  ring_rep h r true size bs -> size + size < two64 ->
  wp (ringbuf_available r) h (λ a h', h' = h ∧
    ∃ ring, d_rings h !! r = Some ring ∧
    (r_head ring + Z.of_nat (length bs) < two64 -> a = Z.of_nat (length bs)) ∧
    (two64 <= r_head ring + Z.of_nat (length bs) -> a = Z.of_nat (length bs) + size)).
Proof.
  intros Hr Hsz. unfold ringbuf_available.
  wp_step. eapply wp_ringbuf_assert; [done|]. wp_step. eapply wp_ringbuf_assert_locked; [done|].
  destruct Hr as [Hp Hs (b & hd & arr & Hr & _ & Hhd & _) Hc].
  wp_step. eapply wp_load; [by apply valid_ptr_nonnull|exact Hr|]. simpl.
  unfold in_u64 in Hhd. set (n := Z.of_nat (length bs)) in *.
  assert (hd + n < two64 -> u64 (hd + n) = hd + n) as Hsmall.
  { intros. apply u64_small. unfold in_u64. lia. }
  assert (two64 <= hd + n -> u64 (hd + n) = hd + n - two64) as Hbig.
  { intros. unfold u64. symmetry. apply (Z.mod_unique _ _ 1); unfold two64 in *; lia. }
  assert (0 <= n) by lia.
  case_decide as Hge; apply wp_ret; (split; [done|]); eexists; (split; [done|]); simpl; split; intros Hov.
  - rewrite Hsmall by done. rewrite u64_small; unfold in_u64; lia.
  - rewrite Hbig in Hge by done. lia.
  - rewrite Hsmall in Hge by done. lia.
  - rewrite Hbig by done. replace (hd + n - two64 + size - hd) with (n + size - two64) by ring.
    unfold u64. symmetry. apply (Z.mod_unique _ _ (-1)); unfold two64 in *; lia.
Qed.

Lemma ringbuf_available_witness :
  wp (ringbuf_available 100) ring4 (λ a h', h' = ring4 ∧
    ∃ ring, d_rings ring4 !! 100 = Some ring ∧
    (r_head ring + Z.of_nat 2 < two64 -> a = 2) ∧ (two64 <= r_head ring + Z.of_nat 2 -> a = 2 + 4)).
Proof. apply (ringbuf_available_spec ring4 100 4 [7; 8]); [exact ring4_rep|done]. Defined.

(** An allocator that serves one request and then has no memory left. *)
Program Definition once_kmalloc : Kmalloc :=
  {| km_choose := λ n D, if decide (n = O) then bump_choose n D else None |}.
Next Obligation.
  intros n D p. simpl. case_decide; [|done]. apply (km_fresh (Kmalloc := bump_kmalloc) n).
Qed.

Section init.
Context {K : Kmalloc} (junk : nat -> Z).

(** [ringbuf_init] on a live ring object, whose two branches are decided by
    the allocator. *)
Lemma ringbuf_init_run size r ring0 h :
  r ≠ NULL -> d_rings h !! r = Some ring0 ->
  ringbuf_init junk size r h =
    match km_choose (d_ticks h) (kh_live h) with
    | Some b => Ok 0 (set_rings (<[r := Ringbuf b (u64 size) 0 0 0 false]> (d_rings h))
        (set_bufs (<[b := junk <$> seq 0 (Z.to_nat size)]> (d_bufs h)) (ds_tick h)))
    | None => Ok (- ENOMEM) (set_rings (delete r (d_rings h)) (ds_tick h))
    end.
Proof.
  intros Hr Hring. unfold ringbuf_init. rewrite decide_False by done.
  unfold mbind, M_bind, kmalloc. cbn [kh_ticks kheap_ds].
  destruct (km_choose _ _) as [b|] eqn:E.
  - destruct (km_fresh _ _ _ E) as [Hb _]. rewrite decide_False by (by apply valid_ptr_nonnull).
    unfold rupd, update. rewrite decide_False by done. simpl. by rewrite Hring.
  - simpl. unfold kfree. rewrite decide_False by done. simpl. by rewrite Hring.
Qed.

(** Creation and failure of [ringbuf_new].  When both allocations
    succeed the new ring is empty and unlocked; when the first fails the
    caller gets [-ENOMEM] and nothing is allocated; when only the second
    fails, [ringbuf_init] has already freed the ring that [ringbuf_new] frees
    again on its error path, and the second [kfree] is of a dead object. *)
Theorem ringbuf_new_outcomes size h :
  0 < size < two64 ->
  match ringbuf_new junk size true h with
  | Ok (e, Some r) h' => e = 0 ∧ ring_rep h' r false size []
  | Ok (e, None) h' => e = - ENOMEM ∧ h' = ds_tick h ∧ km_choose (d_ticks h) (kh_live h) = None
  | Stop w => w = BadAccess ∧
      ∃ r, km_choose (d_ticks h) (kh_live h) = Some r ∧
      km_choose (S (d_ticks h)) (kh_live h ∪ {[ r ]}) = None
  end.
Proof.
  intros Hs. unfold ringbuf_new. unfold mbind, M_bind, kmalloc at 1.
  cbn [assert_ kh_ticks kheap_ds].
  destruct (km_choose (d_ticks h) (kh_live h)) as [r|] eqn:E1; [|done].
  destruct (km_fresh _ _ _ E1) as [Hr Hfr]. pose proof (valid_ptr_nonnull _ Hr) as Hnn.
  rewrite decide_False by done.
  erewrite ringbuf_init_run; [|done|apply lookup_insert_eq].
  match goal with |- context [km_choose ?n ?D] =>
    destruct (km_choose n D) as [b|] eqn:E2 end.
  - simpl. split; [done|]. split; [done..| |simpl; lia].
    eexists b, 0, _. simpl. rewrite !lookup_insert_eq, u64_small by (unfold in_u64; lia).
    split_and!; [done|by eapply km_fresh|done..| |done].
    rewrite length_fmap, length_seq. lia.
  - rewrite decide_True by done. simpl. rewrite bool_decide_eq_true_2 by done. simpl.
    unfold kfree. rewrite decide_False by done. simpl. rewrite lookup_delete_eq. split; [done|].
    exists r. split; [done|]. simpl in E2. rewrite <- E2. f_equal. set_solver.
Qed.
End init.

Lemma ringbuf_new_outcomes_witness :
  0 < 4 < two64 ∧ ∃ w, ringbuf_new (K := once_kmalloc) (λ _, 0) 4 true empty_dsheap = Stop w ∧ w = BadAccess.
Proof.
  split; [done|]. exists BadAccess.
  pose proof (ringbuf_new_outcomes (K := once_kmalloc) (λ _, 0) 4 empty_dsheap ltac:(done)) as H.
  destruct (ringbuf_new _ _ _) as [[e [r|]] h'|w] eqn:E; vm_compute in E; [done..|].
  destruct H as [-> _]. done.
Defined.

Lemma ringbuf_free_spec h r size bs :
  ring_rep h r false size bs ->
  wp (ringbuf_free r) h (λ _ h', d_rings h' = delete r (d_rings h) ∧
    ∃ ring, d_rings h !! r = Some ring ∧ d_bufs h' = delete (r_buf ring) (d_bufs h)).
Proof.
  intros [Hp _ (b & hd & arr & Hr & Hb & _ & Harr & _) _].
  pose proof (valid_ptr_nonnull _ Hp). pose proof (valid_ptr_nonnull _ Hb). unfold ringbuf_free.
  wp_step. apply wp_assert; [by apply bool_decide_eq_true|]. wp_step. eapply wp_load; [done..|].
  wp_step. eapply wp_kfree; [done..|]. eapply wp_kfree; [done|exact Hr|]. simpl. eauto.
Qed.
