(* ===== verification/Btree.v ===== *)
(** * kernel/ds/btree.c: the binary search tree

    Nodes carry parent pointers and a back pointer to their tree.  Deletion
    detaches the node and inserts its two subtrees again from the root.  The
    representation uses contexts (a tree with one hole) so that descending a
    loop, linking a node and cutting a subtree are all statements about the
    hole.  The theorems show that the tree is a finite map sorted by key. *)

From S2P Require Import Prelude Dll Heap Queue.

Definition bn_set_key v n := BNode v (bn_data n) (bn_left n) (bn_parent n) (bn_right n) (bn_btree n).
Definition bn_set_data v n := BNode (bn_key n) v (bn_left n) (bn_parent n) (bn_right n) (bn_btree n).
Definition bn_set_left v n := BNode (bn_key n) (bn_data n) v (bn_parent n) (bn_right n) (bn_btree n).
Definition bn_set_parent v n := BNode (bn_key n) (bn_data n) (bn_left n) v (bn_right n) (bn_btree n).
Definition bn_set_right v n := BNode (bn_key n) (bn_data n) (bn_left n) (bn_parent n) v (bn_btree n).
Definition bn_set_btree v n := BNode (bn_key n) (bn_data n) (bn_left n) (bn_parent n) (bn_right n) v.
Definition bt_set_root v b := Btree v (bt_nr_nodes b) (bt_lock b).
Definition bt_set_nr_nodes v b := Btree (bt_root b) v (bt_lock b).
Definition bt_set_lock v b := Btree (bt_root b) (bt_nr_nodes b) v.

Definition BTREE_INIT : btree_t := Btree NULL 0 false.

Definition bnode (p : ptr) : M dsheap btree_node_t := load p.
Definition bnode_upd (p : ptr) (f : btree_node_t -> btree_node_t) : M dsheap unit := update p f.
Definition bt (b : ptr) : M dsheap btree_t := load b.
Definition bt_upd (b : ptr) (f : btree_t -> btree_t) : M dsheap unit := update b f.

Definition btree_assert (b : ptr) : M dsheap unit := assert_ (bool_decide (b ≠ NULL)).
Definition btree_lock (b : ptr) : M dsheap unit :=
  btree_assert b;; t ← bt b; assert_ (negb (bt_lock t));; bt_upd b (bt_set_lock true).
Definition btree_unlock (b : ptr) : M dsheap unit :=
  btree_assert b;; t ← bt b; assert_ (bt_lock t);; bt_upd b (bt_set_lock false).
Definition btree_islocked (b : ptr) : M dsheap bool :=
  btree_assert b;; t ← bt b; mret (bt_lock t).
Definition btree_assert_locked (b : ptr) : M dsheap unit :=
  btree_assert b;; t ← bt b; assert_ (bt_lock t).
Definition btree_nr_nodes (b : ptr) : M dsheap Z :=
  btree_assert_locked b;; t ← bt b; mret (bt_nr_nodes t).
Definition btree_isempty (b : ptr) : M dsheap bool :=
  btree_assert_locked b;; t ← bt b; mret (bool_decide (bt_root t = NULL)).

Definition btree_node_isleft (node : ptr) : M dsheap bool :=
  n ← bnode node;
  if decide (bn_parent n = NULL) then mret false
  else p ← bnode (bn_parent n); mret (bool_decide (bn_left p = node)).
Definition btree_node_isright (node : ptr) : M dsheap bool :=
  n ← bnode node;
  if decide (bn_parent n = NULL) then mret false
  else p ← bnode (bn_parent n); mret (bool_decide (bn_right p = node)).

(** A loop or recursion that visits every live node at most once. *)
Definition bnode_fuel : M dsheap nat := gets (λ h, S (size (d_bnodes h))).

Section operations.
Context {K : Kmalloc}.

Definition btree_alloc (pbtree : bool) : M dsheap (Z * option ptr) :=
  if negb pbtree then mret (- EINVAL, None) else
  b ← kmalloc BTREE_INIT;
  if decide (b = NULL) then mret (- ENOMEM, None) else
  mret (0, Some b).

Definition btree_free (b : ptr) : M dsheap unit :=
  if decide (b = NULL) then mret tt else
  bt_upd b (λ _, BTREE_INIT);;
  kfree btree_t b.

Definition btree_alloc_node : M dsheap ptr := kmalloc (BNode 0 NULL NULL NULL NULL NULL).

Definition btree_free_node (node : ptr) : M dsheap unit :=
  if decide (node = NULL) then mret tt else
  bnode_upd node (λ _, BNode 0 NULL NULL NULL NULL NULL);;
  kfree btree_node_t node.

(** The descent of [btree_insert_node]; [false] is the return of -EEXIST
    from inside the loop. *)
Fixpoint btree_insert_loop (fuel : nat) (node parent : ptr) : M dsheap bool :=
  match fuel with
  | O => halt OutOfFuel
  | S fuel =>
      if decide (parent = NULL) then mret true else
      n ← bnode node;
      p ← bnode parent;
      if decide (bn_key n = bn_key p) then mret false else
      let iter := if decide (bn_key n < bn_key p) then bn_left p else bn_right p in
      when (bool_decide (iter = NULL))
        (bnode_upd node (bn_set_parent parent);;
         if decide (bn_key n < bn_key p) then bnode_upd parent (bn_set_left node)
         else when (bool_decide (bn_key n > bn_key p)) (bnode_upd parent (bn_set_right node)));;
      btree_insert_loop fuel node iter
  end.

Definition btree_insert_node (b node : ptr) : M dsheap Z :=
  if decide (b = NULL ∨ node = NULL) then mret (- EINVAL) else
  btree_assert_locked b;;
  bnode_upd node (bn_set_parent NULL);;
  e ← btree_isempty b;
  ok ← (if (e : bool) then bt_upd b (bt_set_root node);; mret true
        else t ← bt b; fuel ← bnode_fuel; btree_insert_loop fuel node (bt_root t));
  if negb (ok : bool) then mret (- EEXIST) else
  bt_upd b (λ t, bt_set_nr_nodes (u64 (bt_nr_nodes t + 1)) t);;
  bnode_upd node (bn_set_btree b);;
  mret 0.

Definition btree_delete_node (b node : ptr) : M dsheap unit :=
  if decide (b = NULL) then mret tt else
  btree_assert_locked b;;
  if decide (node = NULL) then mret tt else
  n ← bnode node;
  let left := bn_left n in
  let right := bn_right n in
  let parent := bn_parent n in
  t ← bt b;
  (if decide (node = bt_root t) then bt_upd b (bt_set_root NULL) else
   r ← btree_node_isright node;
   if (r : bool) then bnode_upd parent (bn_set_right NULL) else
   l ← btree_node_isleft node;
   when l (bnode_upd parent (bn_set_left NULL)));;
  btree_free_node node;;
  bt_upd b (λ t, bt_set_nr_nodes (u64 (bt_nr_nodes t - 1)) t);;
  when (bool_decide (right ≠ NULL))
    (bt_upd b (λ t, bt_set_nr_nodes (u64 (bt_nr_nodes t - 1)) t);;
     btree_insert_node b right;; mret tt);;
  when (bool_decide (left ≠ NULL))
    (bt_upd b (λ t, bt_set_nr_nodes (u64 (bt_nr_nodes t - 1)) t);;
     btree_insert_node b left;; mret tt).

(** [forlinked(tmp, root, tmp->left) node = tmp;] and its mirror image. *)
Fixpoint btree_edge_loop (fuel : nat) (next : btree_node_t -> ptr) (tmp node : ptr) : M dsheap ptr :=
  match fuel with
  | O => halt OutOfFuel
  | S fuel =>
      if decide (tmp = NULL) then mret node else
      n ← bnode tmp; btree_edge_loop fuel next (next n) tmp
  end.

Definition btree_least_node (b : ptr) : M dsheap ptr :=
  if decide (b = NULL) then mret NULL else
  btree_assert_locked b;;
  t ← bt b; fuel ← bnode_fuel; btree_edge_loop fuel bn_left (bt_root t) NULL.

Definition btree_largest_node (b : ptr) : M dsheap ptr :=
  if decide (b = NULL) then mret NULL else
  btree_assert_locked b;;
  t ← bt b; fuel ← bnode_fuel; btree_edge_loop fuel bn_right (bt_root t) NULL.

Fixpoint btree_lookup_loop (fuel : nat) (key : Z) (node : ptr) : M dsheap ptr :=
  match fuel with
  | O => halt OutOfFuel
  | S fuel =>
      if decide (node = NULL) then mret NULL else
      n ← bnode node;
      if decide (bn_key n = key) then mret node else
      btree_lookup_loop fuel key (if decide (key < bn_key n) then bn_left n else bn_right n)
  end.

Definition btree_lookup (b : ptr) (key : Z) : M dsheap ptr :=
  if decide (b = NULL) then mret NULL else
  btree_assert_locked b;;
  t ← bt b; fuel ← bnode_fuel; btree_lookup_loop fuel key (bt_root t).

Definition btree_delete (b : ptr) (key : Z) : M dsheap unit :=
  btree_assert_locked b;;
  node ← btree_lookup b key;
  btree_delete_node b node.

(** The second component is the value stored through [pdata]. *)
Definition btree_search (b : ptr) (key : Z) (pdata : bool) : M dsheap (Z * option ptr) :=
  btree_assert_locked b;;
  node ← btree_lookup b key;
  if decide (node = NULL) then mret (- ENOENT, None) else
  if pdata then n ← bnode node; mret (0, Some (bn_data n)) else mret (0, None).

Definition btree_insert (b : ptr) (key : Z) (data : ptr) : M dsheap Z :=
  if decide (b = NULL) then mret (- EINVAL) else
  btree_assert_locked b;;
  node ← btree_alloc_node;
  if decide (node = NULL) then mret (- ENOMEM) else
  bnode_upd node (bn_set_key key);;
  bnode_upd node (bn_set_data data);;
  err ← btree_insert_node b node;
  if decide (err ≠ 0) then btree_free_node node;; mret err else mret 0.

Definition btree_least (b : ptr) : M dsheap ptr :=
  if decide (b = NULL) then mret NULL else
  node ← btree_least_node b;
  if decide (node = NULL) then mret NULL else n ← bnode node; mret (bn_data n).

Definition btree_largest (b : ptr) : M dsheap ptr :=
  if decide (b = NULL) then mret NULL else
  node ← btree_largest_node b;
  if decide (node = NULL) then mret NULL else n ← bnode node; mret (bn_data n).

(** The recursion descends one level per call. *)
Fixpoint btree_node_traverse (fuel : nat) (node queue : ptr) : M dsheap Z :=
  match fuel with
  | O => halt OutOfFuel
  | S fuel =>
      queue_assert_locked queue;;
      if decide (queue = NULL) then mret (- EINVAL) else
      if decide (node = NULL) then mret 0 else
      n ← bnode node;
      btree_assert_locked (bn_btree n);;
      btree_node_traverse fuel (bn_left n) queue;;
      n ← bnode node;
      r ← enqueue queue (bn_data n) true false;
      if decide (r.1 ≠ 0) then mret r.1 else
      n ← bnode node;
      btree_node_traverse fuel (bn_right n) queue;;
      mret 0
  end.

Definition btree_traverse (b queue : ptr) : M dsheap Z :=
  btree_assert_locked b;;
  queue_assert_locked queue;;
  if decide (b = NULL ∨ queue = NULL) then mret (- EINVAL) else
  t ← bt b; fuel ← bnode_fuel; btree_node_traverse fuel (bt_root t) queue.

Fixpoint btree_flush_node (fuel : nat) (node : ptr) : M dsheap Z :=
  match fuel with
  | O => halt OutOfFuel
  | S fuel =>
      if decide (node = NULL) then mret 0 else
      n ← bnode node;
      btree_assert_locked (bn_btree n);;
      btree_flush_node fuel (bn_left n);;
      n ← bnode node;
      let right := bn_right n in
      btree_delete_node (bn_btree n) node;;
      btree_flush_node fuel right;;
      mret 0
  end.

Definition btree_flush (b : ptr) : M dsheap Z :=
  btree_assert_locked b;;
  if decide (b = NULL) then mret (- EINVAL) else
  t ← bt b; fuel ← bnode_fuel; btree_flush_node fuel (bt_root t).
End operations.

(** ** Trees and contexts *)

Inductive tree :=
  | Leaf
  | Node (l : tree) (p : ptr) (k : Z) (d : ptr) (r : tree).

Definition root (t : tree) : ptr := match t with Leaf => NULL | Node _ p _ _ _ => p end.

(** In-order keys with data, and in-order addresses. *)
Fixpoint elems (t : tree) : list (Z * ptr) :=
  match t with Leaf => [] | Node l _ k d r => elems l ++ (k, d) :: elems r end.
Fixpoint taddrs (t : tree) : list ptr :=
  match t with Leaf => [] | Node l p _ _ r => taddrs l ++ p :: taddrs r end.

Variant frame := FL (p : ptr) (k : Z) (d : ptr) (r : tree) | FR (l : tree) (p : ptr) (k : Z) (d : ptr).

Definition plug1 (f : frame) (t : tree) : tree :=
  match f with FL p k d r => Node t p k d r | FR l p k d => Node l p k d t end.
Fixpoint plug (c : list frame) (t : tree) : tree :=
  match c with [] => t | f :: c => plug c (plug1 f t) end.

Definition faddr (f : frame) : ptr := match f with FL p _ _ _ => p | FR _ p _ _ => p end.
Definition top (c : list frame) : ptr := match c with [] => NULL | f :: _ => faddr f end.

(** What stands before and after the hole, in order. *)
Fixpoint before (c : list frame) : list (Z * ptr) :=
  match c with
  | [] => []
  | FL _ _ _ _ :: c => before c
  | FR l _ k d :: c => before c ++ elems l ++ [(k, d)]
  end.
Fixpoint after (c : list frame) : list (Z * ptr) :=
  match c with
  | [] => []
  | FL _ k d r :: c => (k, d) :: elems r ++ after c
  | FR _ _ _ _ :: c => after c
  end.
Fixpoint caddrs (c : list frame) : list ptr :=
  match c with
  | [] => []
  | FL p _ _ r :: c => p :: taddrs r ++ caddrs c
  | FR l p _ _ :: c => p :: taddrs l ++ caddrs c
  end.

Lemma elems_plug c t : elems (plug c t) = before c ++ elems t ++ after c.
Proof.
  revert t. induction c as [|[] c IH]; intros t; simpl.
  - by rewrite app_nil_r.
  - rewrite IH. simpl. by rewrite <- app_assoc.
  - rewrite IH. simpl. by rewrite <- !app_assoc.
Qed.

Lemma taddrs_plug c t : taddrs (plug c t) ≡ₚ taddrs t ++ caddrs c.
Proof.
  revert t. induction c as [|[] c IH]; intros t; simpl.
  - by rewrite app_nil_r.
  - rewrite IH. simpl. by rewrite <- app_assoc.
  - rewrite IH. simpl. solve_Permutation.
Qed.

(** ** Representation in memory *)

Implicit Types (m : gmap ptr btree_node_t) (b par hole : ptr) (t : tree).

Fixpoint tree_rep m b par t : Prop :=
  match t with
  | Leaf => True
  | Node l p k d r =>
      m !! p = Some (BNode k d (root l) par (root r) b) ∧ valid_ptr p ∧
      tree_rep m b p l ∧ tree_rep m b p r
  end.

Fixpoint ctx_rep m b (c : list frame) hole : Prop :=
  match c with
  | [] => True
  | FL p k d r :: c =>
      m !! p = Some (BNode k d hole (top c) (root r) b) ∧ valid_ptr p ∧
      tree_rep m b p r ∧ ctx_rep m b c p
  | FR l p k d :: c =>
      m !! p = Some (BNode k d (root l) (top c) hole b) ∧ valid_ptr p ∧
      tree_rep m b p l ∧ ctx_rep m b c p
  end.

(** The address of the node at the root, as the tree object records it. *)
Definition ctx_root (c : list frame) (hole : ptr) : ptr :=
  match last c with None => hole | Some f => faddr f end.

Lemma root_plug c t : root (plug c t) = ctx_root c (root t).
Proof.
  revert t. induction c as [|f c IH]; intros t; [done|]. simpl. rewrite IH.
  unfold ctx_root. destruct c as [|g c]; [by destruct f|]. rewrite last_cons_cons.
  destruct (last (g :: c)) eqn:E; [done|]. by apply last_None in E.
Qed.

Lemma tree_rep_plug m b c t :
  tree_rep m b NULL (plug c t) <-> ctx_rep m b c (root t) ∧ tree_rep m b (top c) t.
Proof.
  revert t. induction c as [|[p k d r|l p k d] c IH]; intros t; simpl.
  - naive_solver.
  - rewrite IH. simpl. naive_solver.
  - rewrite IH. simpl. naive_solver.
Qed.

Lemma tree_rep_frame m m' b par t :
  (∀ p, p ∈ taddrs t -> m' !! p = m !! p) -> tree_rep m b par t -> tree_rep m' b par t.
Proof.
  revert par. induction t as [|l IHl p k d r IHr]; intros par Heq; [done|]. simpl in *.
  intros (Hm & Hv & Hl & Hr). split_and!; [|done|apply IHl|apply IHr]; try done.
  - rewrite Heq; [done|set_solver].
  - intros q Hq. apply Heq. set_solver.
  - intros q Hq. apply Heq. set_solver.
Qed.

Lemma ctx_rep_frame m m' b c hole :
  (∀ p, p ∈ caddrs c -> m' !! p = m !! p) -> ctx_rep m b c hole -> ctx_rep m' b c hole.
Proof.
  revert hole. induction c as [|[p k d r|l p k d] c IH]; intros hole Heq; [done|..]; simpl in *;
    intros (Hm & Hv & Ht & Hc);
    (split_and!; [rewrite Heq; [done|set_solver]|done| |]);
    [eapply tree_rep_frame; [|done]|eapply IH; [|done]
    |eapply tree_rep_frame; [|done]|eapply IH; [|done]]; intros q Hq; apply Heq; set_solver.
Qed.

(** Writing the child pointer that the hole stands for. *)
Definition set_child (c : list frame) (x : ptr) m : gmap ptr btree_node_t :=
  match c with
  | [] => m
  | FL p _ _ _ :: _ => alter (bn_set_left x) p m
  | FR _ p _ _ :: _ => alter (bn_set_right x) p m
  end.

Lemma set_child_other c x m q : q ∉ caddrs c -> set_child c x m !! q = m !! q.
Proof.
  destruct c as [|[] c]; simpl; intros; [done|..]; rewrite lookup_alter_ne; set_solver.
Qed.

Lemma ctx_rep_set_child m b c hole x :
  NoDup (caddrs c) -> ctx_rep m b c hole -> ctx_rep (set_child c x m) b c x.
Proof.
  destruct c as [|[p k d r|l p k d] c]; [done|..]; simpl; intros Hnd (Hm & Hv & Ht & Hc);
    apply NoDup_cons in Hnd as [Hnp Hnd];
    (split_and!; [by rewrite lookup_alter_eq, Hm|done| |]);
    [eapply tree_rep_frame; [|done]|eapply ctx_rep_frame; [|done]
    |eapply tree_rep_frame; [|done]|eapply ctx_rep_frame; [|done]];
    intros q Hq; rewrite lookup_alter_ne; [done|set_solver|done|set_solver|done|set_solver|done|set_solver].
Qed.

Lemma tree_rep_dom m b par t p : tree_rep m b par t -> p ∈ taddrs t -> p ∈ dom m.
Proof.
  revert par. induction t as [|l IHl q k d r IHr]; intros par; simpl; [set_solver|].
  intros (Hm & Hv & Hl & Hr) [H|[->|H]%elem_of_cons]%elem_of_app; eauto.
  by apply elem_of_dom.
Qed.

Lemma tree_rep_valid m b par t : tree_rep m b par t -> Forall valid_ptr (taddrs t).
Proof.
  revert par. induction t as [|l IHl q k d r IHr]; intros par; simpl; [constructor|].
  intros (Hm & Hv & Hl & Hr). apply Forall_app. split; [eauto|]. constructor; eauto.
Qed.

(** The fuel of the loops covers every node of the tree. *)
Lemma tree_fuel m b par t : NoDup (taddrs t) -> tree_rep m b par t -> (length (taddrs t) <= size m)%nat.
Proof.
  intros Hnd Ht. rewrite <- size_dom, <- (size_list_to_set (C := gset ptr) (taddrs t)) by done.
  apply subseteq_size. intros p Hp%elem_of_list_to_set. by eapply tree_rep_dom.
Qed.

Fixpoint height t : nat :=
  match t with Leaf => O | Node l _ _ _ r => S (height l `max` height r) end.
Lemma height_length t : (height t <= length (taddrs t))%nat.
Proof. induction t; simpl; rewrite ?length_app; simpl; lia. Qed.
Lemma length_elems t : length (elems t) = length (taddrs t).
Proof. induction t; simpl; rewrite ?length_app; simpl; congruence. Qed.

(** The sorted order of the keys. *)
Definition sorted_keys (l : list (Z * ptr)) : Prop := StronglySorted Z.lt l.*1.
Definition bst t : Prop := sorted_keys (elems t).

(** [k] belongs in the hole. *)
Definition gap (c : list frame) (k : Z) : Prop :=
  Forall (λ x, x.1 < k) (before c) ∧ Forall (λ x, k < x.1) (after c).

Record btree_rep (h : dsheap) b (lk : bool) t : Prop := {
  br_ptr : valid_ptr b;
  br_tree : d_btrees h !! b = Some (Btree (root t) (Z.of_nat (length (elems t))) lk);
  br_nodes : tree_rep (d_bnodes h) b NULL t;
  br_nodup : NoDup (taddrs t);
  br_bst : bst t;
}.

(** ** Steps on nodes *)

Lemma wp_bnode h p n (Q : btree_node_t -> dsheap -> Prop) :
  valid_ptr p -> d_bnodes h !! p = Some n -> Q n h -> wp (bnode p) h Q.
Proof. intros Hp Hn HQ. eapply wp_load; [by apply valid_ptr_nonnull|exact Hn|done]. Qed.

Lemma wp_bnode_upd h p n f (Q : unit -> dsheap -> Prop) :
  valid_ptr p -> d_bnodes h !! p = Some n ->
  Q tt (set_bnodes (alter f p (d_bnodes h)) h) -> wp (bnode_upd p f) h Q.
Proof.
  intros Hp Hn HQ. eapply wp_update; [by apply valid_ptr_nonnull|exact Hn|].
  simpl. by rewrite (alter_insert_Some _ _ _ f Hn).
Qed.

Lemma wp_bt h b (t : btree_t) (Q : btree_t -> dsheap -> Prop) :
  valid_ptr b -> d_btrees h !! b = Some t -> Q t h -> wp (bt b) h Q.
Proof. intros Hp Hn HQ. eapply wp_load; [by apply valid_ptr_nonnull|exact Hn|done]. Qed.

Lemma wp_bt_upd h b (t : btree_t) f (Q : unit -> dsheap -> Prop) :
  valid_ptr b -> d_btrees h !! b = Some t ->
  Q tt (set_btrees (<[b := f t]> (d_btrees h)) h) -> wp (bt_upd b f) h Q.
Proof. intros Hp Hn HQ. eapply wp_update; [by apply valid_ptr_nonnull|exact Hn|done]. Qed.

Lemma wp_btree_assert_locked h b (t : btree_t) (Q : unit -> dsheap -> Prop) :
  valid_ptr b -> d_btrees h !! b = Some t -> bt_lock t = true -> Q tt h ->
  wp (btree_assert_locked b) h Q.
Proof.
  intros Hp Ht Hl HQ. unfold btree_assert_locked, btree_assert. wp_step.
  apply wp_assert; [apply bool_decide_eq_true; by apply valid_ptr_nonnull|].
  wp_step. eapply wp_bt; [done..|]. by apply wp_assert.
Qed.

Lemma sorted_keys_app l1 l2 :
  sorted_keys (l1 ++ l2) <->
  sorted_keys l1 ∧ sorted_keys l2 ∧ (∀ x y, x ∈ l1 -> y ∈ l2 -> x.1 < y.1).
Proof.
  unfold sorted_keys. rewrite fmap_app. split.
  - intros Hs. split_and!; [by eapply StronglySorted_app_1_l|by eapply StronglySorted_app_1_r|].
    intros x y Hx Hy. eapply StronglySorted_app_1_elem_of; [done|by apply list_elem_of_fmap_2..].
  - intros (H1 & H2 & H). apply StronglySorted_app_2; [|done..].
    intros ? ? (x & -> & Hx)%list_elem_of_fmap (y & -> & Hy)%list_elem_of_fmap. auto.
Qed.

Lemma sorted_keys_mid l1 k d l2 :
  sorted_keys (l1 ++ (k, d) :: l2) <->
  sorted_keys (l1 ++ l2) ∧ Forall (λ x, x.1 < k) l1 ∧ Forall (λ x, k < x.1) l2.
Proof.
  rewrite (cons_middle (k, d)), !sorted_keys_app, !Forall_forall. split.
  - intros (H1 & (_ & H2 & H3) & H4). split_and!; [done|done|..].
    + intros x y Hx Hy. apply H4; set_solver.
    + intros x Hx. apply (H4 x (k, d)); set_solver.
    + intros x Hx. apply (H3 (k, d) x); set_solver.
  - intros ((H1 & H2 & H3) & Hlo & Hhi). split_and!; [done|apply SSorted_cons; constructor|done|..].
    + intros ? y ->%list_elem_of_singleton Hy. simpl. auto.
    + intros x y Hx [->%list_elem_of_singleton|Hy]%elem_of_app; [apply (Hlo x Hx)|auto].
Qed.

(** One step down the tree keeps the gap. *)
Lemma gap_down c l p k d r k0 :
  bst (plug c (Node l p k d r)) -> gap c k0 ->
  (k0 < k -> gap (FL p k d r :: c) k0) ∧ (k < k0 -> gap (FR l p k d :: c) k0).
Proof.
  unfold bst, gap. rewrite elems_plug. simpl. rewrite <- app_assoc. simpl.
  rewrite (app_assoc (before c)), sorted_keys_mid. intros (_ & Hlo & Hhi) [Hb Ha].
  rewrite !Forall_app in *. setoid_rewrite Forall_cons. rewrite !Forall_app. simpl.
  split; intros Hk; split_and!; try done; try tauto.
  - eapply Forall_impl; [apply Hhi|]. simpl. lia.
  - eapply Forall_impl; [apply Hlo|]. simpl. lia.
Qed.

Lemma plug_sub_addrs c s p : p ∈ taddrs s -> p ∈ taddrs (plug c s).
Proof. intros Hp. rewrite taddrs_plug. set_solver. Qed.

Lemma wp_btree_insert_loop fuel h b c s node n (Q : bool -> dsheap -> Prop) :
  (height s < fuel)%nat -> s ≠ Leaf ->
  tree_rep (d_bnodes h) b NULL (plug c s) -> bst (plug c s) -> gap c (bn_key n) ->
  valid_ptr node -> d_bnodes h !! node = Some n -> node ∉ taddrs (plug c s) ->
  (∀ c', plug c s = plug c' Leaf -> c' ≠ [] -> gap c' (bn_key n) ->
     Q true (set_bnodes (set_child c' node (alter (bn_set_parent (top c')) node (d_bnodes h))) h)) ->
  (bn_key n ∈ (elems (plug c s)).*1 -> Q false h) ->
  wp (btree_insert_loop fuel node (root s)) h Q.
Proof.
  revert c s. induction fuel as [|fuel IH]; intros c s Hfuel Hs Ht Hb Hg Hv Hn Hnot HO HE; [lia|].
  destruct s as [|l p k d r]; [done|]. simpl.
  pose proof Ht as Ht'. apply tree_rep_plug in Ht' as [Hc (Hp & Hpv & Hl & Hr)].
  rewrite decide_False by (by apply valid_ptr_nonnull).
  wp_step. eapply wp_bnode; [done..|]. wp_step. eapply wp_bnode; [done..|]. simpl.
  destruct (gap_down _ _ _ _ _ _ _ Hb Hg) as [Hgl Hgr].
  assert (p ≠ node) as Hpn.
  { intros ->. apply Hnot, plug_sub_addrs. simpl. set_solver. }
  case_decide as Heq.
  { apply wp_ret, HE. rewrite elems_plug. simpl. rewrite !fmap_app. simpl. set_solver. }
  assert (∀ f iter s' fr, iter = root s' -> plug1 fr s' = Node l p k d r -> faddr fr = p ->
    (s' = Leaf -> set_child (fr :: c) node = alter f p) ->
    (height s' < fuel)%nat -> gap (fr :: c) (bn_key n) ->
    wp (when (bool_decide (iter = NULL)) (bnode_upd node (bn_set_parent p);; bnode_upd p f);;
        btree_insert_loop fuel node iter) h Q) as Hgo.
  { intros f iter s' fr -> Hplug Hfa Hsc Hf Hg'. wp_step. destruct s' as [|l' p' k' d' r'].
    - simpl. wp_step. eapply wp_bnode_upd; [done..|].
      eapply wp_bnode_upd; [done|simpl; by rewrite lookup_alter_ne|].
      destruct fuel; [lia|]. simpl. apply wp_ret.
      specialize (HO (fr :: c)). simpl in HO. rewrite Hplug, Hfa in HO. rewrite <- Hsc by done. by apply HO.
    - assert (plug (fr :: c) (Node l' p' k' d' r') = plug c (Node l p k d r)) as E
        by (simpl; by rewrite Hplug).
      assert (valid_ptr p').
      { rewrite <- E in Ht. by apply tree_rep_plug in Ht as [_ (_ & ? & _)]. }
      rewrite bool_decide_eq_false_2 by (by apply valid_ptr_nonnull). apply wp_ret.
      apply (IH (fr :: c)); rewrite ?E; done. }
  simpl in Hfuel. case_decide as Hlt.
  - eapply (Hgo _ _ l (FL p k d r)); try done; [lia|auto].
  - rewrite (bool_decide_eq_true_2 (bn_key n > k)) by lia.
    eapply (Hgo _ _ r (FR l p k d)); try done; [lia|apply Hgr; lia].
Qed.

(** ** Linking a subtree *)

Definition key_of t : Z := match t with Leaf => 0 | Node _ _ k _ _ => k end.

(** A node outside the tree, with its subtrees: its parent and tree pointers
    may be stale. *)
Definition detached m b t : Prop :=
  match t with
  | Leaf => False
  | Node l p k d r =>
      valid_ptr p ∧ (∃ par0 b0, m !! p = Some (BNode k d (root l) par0 (root r) b0)) ∧
      tree_rep m b p l ∧ tree_rep m b p r
  end.

Lemma alter_frame (m : gmap ptr btree_node_t) f p q : q ≠ p -> alter f p m !! q = m !! q.
Proof. intros. by rewrite lookup_alter_ne. Qed.

(** What the writes of [btree_insert_node] make of a detached subtree. *)
Lemma link_rep m b c s :
  NoDup (taddrs s ++ caddrs c) -> ctx_rep m b c NULL -> detached m b s ->
  let m' := alter (bn_set_btree b) (root s)
              (set_child c (root s) (alter (bn_set_parent (top c)) (root s) m)) in
  tree_rep m' b NULL (plug c s) ∧
  (∀ x, x ∉ caddrs c -> x ≠ root s -> m' !! x = m !! x) ∧ dom m' = dom m.
Proof.
  intros Hnd Hc Hs m'. destruct s as [|l p k d r]; [done|]. simpl in *.
  destruct Hs as (Hv & (par0 & b0 & Hp) & Hl & Hr).
  apply NoDup_app in Hnd as (Hnd & Hdis & Hndc). apply NoDup_app in Hnd as (_ & Hlp & Hndr).
  apply NoDup_cons in Hndr as [Hpr _].
  assert (∀ x, x ∉ caddrs c -> x ≠ p -> m' !! x = m !! x) as Hfr.
  { intros x H1 H2. unfold m'. by rewrite alter_frame, set_child_other, alter_frame. }
  assert (p ∉ caddrs c) as Hpc by (apply Hdis; set_solver).
  split_and!; [|done|].
  - apply tree_rep_plug. simpl. split; [|split_and!].
    + eapply ctx_rep_frame; [|eapply ctx_rep_set_child, ctx_rep_frame; [done| |exact Hc]].
      * intros x Hx. unfold m'. apply alter_frame. by intros ->.
      * intros x Hx. apply alter_frame. by intros ->.
    + unfold m'. rewrite lookup_alter_eq, set_child_other, lookup_alter_eq, Hp by done. done.
    + done.
    + eapply tree_rep_frame; [|done]. intros x Hx. apply Hfr; [apply Hdis; set_solver|].
      intros ->. apply (Hlp p Hx). set_solver.
    + eapply tree_rep_frame; [|done]. intros x Hx. apply Hfr; [apply Hdis; set_solver|].
      by intros ->.
  - unfold m'. rewrite dom_alter_L. destruct c as [|[] c]; simpl; by rewrite ?dom_alter_L.
Qed.

(** The end of [btree_insert_node]: the count and the back pointer. *)
Definition insert_finish b p : M dsheap Z :=
  bt_upd b (λ g, bt_set_nr_nodes (u64 (bt_nr_nodes g + 1)) g);;
  bnode_upd p (bn_set_btree b);; mret 0.

Lemma wp_insert_finish h b c s cnt (Q : Z -> dsheap -> Prop) :
  valid_ptr b -> NoDup (taddrs s ++ caddrs c) -> ctx_rep (d_bnodes h) b c NULL ->
  detached (d_bnodes h) b s ->
  (∀ m', tree_rep m' b NULL (plug c s) ->
     (∀ x, x ∉ caddrs c -> x ≠ root s -> m' !! x = d_bnodes h !! x) -> dom m' = dom (d_bnodes h) ->
     Q 0 (set_btrees (<[b := Btree (root (plug c s)) (u64 (cnt + 1)) true]> (d_btrees h))
            (set_bnodes m' h))) ->
  wp (insert_finish b (root s))
    (set_btrees (<[b := Btree (root (plug c s)) cnt true]> (d_btrees h))
      (set_bnodes (set_child c (root s) (alter (bn_set_parent (top c)) (root s) (d_bnodes h))) h)) Q.
Proof.
  intros Hb Hnd Hc Hs HQ. destruct (link_rep _ b c s Hnd Hc Hs) as (Hrep & Hframe & Hdom).
  destruct s as [|l p k d r]; [done|]. destruct Hs as (Hv & (par0 & b0 & Hp) & _). simpl in *.
  apply NoDup_app in Hnd as (_ & Hdis & _).
  unfold insert_finish. wp_step. eapply wp_bt_upd; [done|simpl; by rewrite lookup_insert_eq|].
  wp_step. eapply wp_bnode_upd; [done| |].
  { simpl. rewrite set_child_other by (apply Hdis; set_solver). by rewrite lookup_alter_eq, Hp. }
  apply wp_ret. simpl. rewrite insert_insert_eq. unfold bt_set_nr_nodes. simpl.
  by apply (HQ _ Hrep).
Qed.

Lemma wp_btree_insert_node h b t s cnt (Q : Z -> dsheap -> Prop) :
  valid_ptr b -> d_btrees h !! b = Some (Btree (root t) cnt true) ->
  tree_rep (d_bnodes h) b NULL t -> bst t -> NoDup (taddrs s ++ taddrs t) ->
  detached (d_bnodes h) b s ->
  (∀ c m', t = plug c Leaf -> gap c (key_of s) -> tree_rep m' b NULL (plug c s) ->
     (∀ x, x ∉ taddrs t -> x ≠ root s -> m' !! x = d_bnodes h !! x) -> dom m' = dom (d_bnodes h) ->
     Q 0 (set_btrees (<[b := Btree (root (plug c s)) (u64 (cnt + 1)) true]> (d_btrees h))
            (set_bnodes m' h))) ->
  (key_of s ∈ (elems t).*1 ->
     Q (- EEXIST) (set_bnodes (alter (bn_set_parent NULL) (root s) (d_bnodes h)) h)) ->
  wp (btree_insert_node b (root s)) h Q.
Proof.
  intros Hb Hbt Ht Hbst Hnd Hs HO HE. destruct s as [|l p k d r]; [done|].
  destruct Hs as (Hv & (par0 & b0 & Hp) & Hl & Hr).
  assert (p ∉ taddrs t) as Hpt.
  { apply NoDup_app in Hnd as (_ & H & _). apply H. simpl. set_solver. }
  set (h1 := set_bnodes (alter (bn_set_parent NULL) p (d_bnodes h)) h).
  assert (tree_rep (d_bnodes h1) b NULL t) as Ht1.
  { eapply tree_rep_frame; [|done]. intros x Hx. simpl. apply alter_frame. by intros ->. }
  unfold btree_insert_node. pose proof (valid_ptr_nonnull _ Hb). pose proof (valid_ptr_nonnull _ Hv).
  rewrite decide_False by naive_solver.
  wp_step. eapply wp_btree_assert_locked; [done..|].
  wp_step. eapply wp_bnode_upd; [done..|]. fold h1.
  wp_step. unfold btree_isempty. wp_step. eapply wp_btree_assert_locked; [done..|].
  wp_step. eapply wp_bt; [done..|]. apply wp_ret. simpl.
  destruct t as [|tl tp tk td tr].
  - rewrite bool_decide_eq_true_2 by done.
    wp_step. wp_step. eapply wp_bt_upd; [done|exact Hbt|]. apply wp_ret. simpl.
    eapply (wp_insert_finish h b [] (Node l p k d r)); [done|exact Hnd|done|simpl; by eauto 6|].
    intros m' Hrep Hframe Hdom. apply (HO [] m'); done.
  - set (t := Node tl tp tk td tr) in *.
    rewrite bool_decide_eq_false_2 by (destruct Ht as (_ & Hv1 & _); by apply valid_ptr_nonnull).
    wp_step. wp_step. eapply wp_bt; [done..|]. wp_step. apply (wp_eq _ _ _ _ _ eq_refl).
    assert (NoDup (taddrs t)) as Hndt by (by apply NoDup_app in Hnd as (_ & _ & ?)).
    eapply (wp_btree_insert_loop _ h1 b [] t p); [|done|exact Ht1|done|split; constructor|done| |done|..].
    + pose proof (tree_fuel _ _ _ _ Hndt Ht1). pose proof (height_length t). fold h1. lia.
    + simpl. rewrite lookup_alter_eq, Hp. done.
    + intros c Htc Hne Hg. simpl in Htc. simpl.
      assert (ctx_rep (d_bnodes h) b c NULL) as Hc.
      { rewrite Htc in Ht. by apply tree_rep_plug in Ht as [? _]. }
      assert (ctx_root c NULL = ctx_root c p) as Hroot.
      { unfold ctx_root. destruct (last c) eqn:E; [done|]. by apply last_None in E. }
      rewrite alter_alter_eq.
      assert (bn_set_parent (top c) ∘ bn_set_parent NULL = bn_set_parent (top c)) as -> by done.
      assert (Hfin := wp_insert_finish h b c (Node l p k d r) cnt Q Hb). simpl root in Hfin.
      rewrite root_plug in Hfin. simpl root in Hfin. rewrite <- Hroot in Hfin.
      assert (root t = ctx_root c NULL) as Hrt by (rewrite Htc; apply root_plug).
      assert (<[b := Btree (ctx_root c NULL) cnt true]> (d_btrees h) = d_btrees h) as Hid
        by (rewrite <- Hrt; by apply insert_id).
      rewrite Hid in Hfin. apply Hfin; clear Hfin.
      * rewrite Htc in Hnd. by rewrite taddrs_plug in Hnd.
      * done.
      * simpl. by eauto 6.
      * intros m' Hrep Hframe Hdom.
        specialize (HO c m' Htc Hg Hrep). rewrite root_plug in HO. simpl root in HO.
        rewrite <- Hroot in HO. apply HO; [|done]. intros x Hx. apply Hframe.
        rewrite Htc, taddrs_plug in Hx. set_solver.
    + intros Hin. simpl. apply HE. exact Hin.
Qed.

(** ** The functional tree *)

Fixpoint tins (s t : tree) : tree :=
  match t with
  | Leaf => s
  | Node l p k d r =>
      if decide (key_of s < k) then Node (tins s l) p k d r else Node l p k d (tins s r)
  end.

(** Two neighbouring subtrees merged the way deletion merges them. *)
Definition join (l r : tree) : tree :=
  match l with Leaf => r | Node _ _ _ _ _ => tins l r end.

Lemma tins_plug s c t : gap c (key_of s) -> tins s (plug c t) = plug c (tins s t).
Proof.
  revert t. induction c as [|[p k d r|l p k d] c IH]; intros t [Hb Ha]; [done|..]; simpl in *.
  - apply Forall_cons in Ha as [Hk [_ Ha]%Forall_app]. simpl in Hk.
    rewrite IH by done. simpl. by rewrite decide_True.
  - apply Forall_app in Hb as [Hb [_ [Hk _]%Forall_cons]%Forall_app]. simpl in Hk.
    rewrite IH by done. simpl. by rewrite decide_False by lia.
Qed.

Lemma taddrs_tins s t : taddrs (tins s t) ≡ₚ taddrs s ++ taddrs t.
Proof.
  induction t as [|l IHl p k d r IHr]; simpl; [by rewrite app_nil_r|].
  case_decide; simpl; rewrite ?IHl, ?IHr; solve_Permutation.
Qed.

Lemma taddrs_join l r : taddrs (join l r) ≡ₚ taddrs l ++ taddrs r.
Proof. destruct l; [done|]. apply taddrs_tins. Qed.

(** A subtree below every key of [t] ends up before all of [t]. *)
Lemma elems_tins_low s t :
  Forall (λ x, key_of s < x.1) (elems t) -> elems (tins s t) = elems s ++ elems t.
Proof.
  induction t as [|l IHl p k d r IHr]; simpl; intros Hlo; [by rewrite app_nil_r|].
  apply Forall_app in Hlo as [Hl [Hk Hr]%Forall_cons]. rewrite decide_True by done. simpl.
  rewrite IHl by done. by rewrite <- app_assoc.
Qed.

Lemma elems_join c l p k d r :
  bst (plug c (Node l p k d r)) -> elems (join l r) = elems l ++ elems r.
Proof.
  intros Hb. assert (∀ x y, x ∈ elems l -> y ∈ elems r -> x.1 < y.1) as Hlt.
  { unfold bst in Hb. rewrite elems_plug in Hb. simpl in Hb. rewrite <- app_assoc in Hb.
    apply sorted_keys_app in Hb as (_ & Hb & _). apply sorted_keys_app in Hb as (_ & _ & Hb).
    intros x y Hx Hy. apply Hb; [done|]. simpl. set_solver. }
  destruct l as [|ll lp lk ld lr]; [done|]. apply elems_tins_low, Forall_forall.
  intros x Hx. apply (Hlt (lk, ld) x); [|done]. simpl. set_solver.
Qed.

(** Every key of the subtree in the hole belongs in the hole. *)
Lemma gap_sub c t x : bst (plug c t) -> x ∈ elems t -> gap c x.1.
Proof.
  unfold bst. rewrite elems_plug. intros Hb Hx.
  apply sorted_keys_app in Hb as (_ & Hb & H1). apply sorted_keys_app in Hb as (_ & _ & H2).
  split; apply Forall_forall; intros y Hy.
  - apply (H1 y x); set_solver.
  - by apply (H2 x y).
Qed.

Lemma key_of_elem t : t ≠ Leaf -> ∃ d, (key_of t, d) ∈ elems t.
Proof. destruct t as [|l p k d r]; [done|]. intros _. exists d. simpl. set_solver. Qed.

Lemma gap_fresh c k : gap c k -> k ∉ (before c ++ after c).*1.
Proof.
  intros [Hb Ha]. rewrite Forall_forall in Hb, Ha.
  intros (x & -> & [Hx|Hx]%elem_of_app)%list_elem_of_fmap; [apply Hb in Hx|apply Ha in Hx]; lia.
Qed.

(** Cutting out the middle keeps a list sorted. *)
Lemma sorted_keys_cut l1 l2 l3 : sorted_keys (l1 ++ l2 ++ l3) -> sorted_keys (l1 ++ l3).
Proof.
  rewrite !sorted_keys_app. intros (H1 & (H2 & H3 & H4) & H5). split_and!; [done..|].
  intros x y Hx Hy. apply H5; set_solver.
Qed.

(** ** Lookup *)

Lemma wp_btree_lookup_loop fuel h b c s key (Q : ptr -> dsheap -> Prop) :
  (height s < fuel)%nat -> tree_rep (d_bnodes h) b NULL (plug c s) -> bst (plug c s) -> gap c key ->
  (∀ c' l p d r, plug c s = plug c' (Node l p key d r) -> Q p h) ->
  (key ∉ (elems (plug c s)).*1 -> Q NULL h) ->
  wp (btree_lookup_loop fuel key (root s)) h Q.
Proof.
  revert c s. induction fuel as [|fuel IH]; intros c s Hf Ht Hb Hg HS HN; [lia|].
  destruct s as [|l p k d r]; simpl.
  { apply wp_ret, HN. rewrite elems_plug. by apply gap_fresh. }
  pose proof Ht as Ht'. apply tree_rep_plug in Ht' as [_ (Hp & Hv & _ & _)].
  rewrite decide_False by (by apply valid_ptr_nonnull).
  wp_step. eapply wp_bnode; [done..|]. simpl in *.
  destruct (gap_down _ _ _ _ _ _ _ Hb Hg) as [Hgl Hgr].
  case_decide as E; [subst k; by apply wp_ret, (HS c l p d r)|].
  case_decide as Hlt.
  - apply (IH (FL p k d r :: c)); auto; lia.
  - apply (IH (FR l p k d :: c)); auto; [lia|]. apply Hgr. lia.
Qed.

Lemma wp_btree_lookup h b t key (Q : ptr -> dsheap -> Prop) :
  btree_rep h b true t ->
  (∀ c l p d r, t = plug c (Node l p key d r) -> Q p h) ->
  (key ∉ (elems t).*1 -> Q NULL h) ->
  wp (btree_lookup b key) h Q.
Proof.
  intros [Hb Hbt Ht Hnd Hs] HS HN. unfold btree_lookup.
  rewrite decide_False by (by apply valid_ptr_nonnull).
  wp_step. eapply wp_btree_assert_locked; [done..|].
  wp_step. eapply wp_bt; [done..|]. wp_step. apply (wp_eq _ _ _ _ _ eq_refl).
  apply (wp_btree_lookup_loop _ _ b [] t); [|done|done|split; constructor|done|done].
  pose proof (tree_fuel _ _ _ _ Hnd Ht). pose proof (height_length t). lia.
Qed.

(** The value of a key in the tree. *)
Definition find t (key : Z) : option ptr := (list_to_map (elems t) : gmap Z ptr) !! key.

Lemma bst_nodup t : bst t -> NoDup (elems t).*1.
Proof.
  unfold bst, sorted_keys. induction 1 as [|x l Hs IH Hall]; constructor; [|done].
  rewrite Forall_forall in Hall. intros Hx%Hall. lia.
Qed.

Lemma find_plug c l p k d r : bst (plug c (Node l p k d r)) -> find (plug c (Node l p k d r)) k = Some d.
Proof.
  intros Hb. unfold find. apply elem_of_list_to_map_1; [by apply bst_nodup|].
  rewrite elems_plug. simpl. set_solver.
Qed.

Lemma find_None t k : k ∉ (elems t).*1 -> find t k = None.
Proof. intros. by apply not_elem_of_list_to_map_1. Qed.

Lemma wp_btree_search h b t key (pdata : bool) (Q : Z * option ptr -> dsheap -> Prop) :
  btree_rep h b true t ->
  (∀ d, find t key = Some d -> Q (0, if pdata then Some d else None) h) ->
  (find t key = None -> Q (- ENOENT, None) h) ->
  wp (btree_search b key pdata) h Q.
Proof.
  intros Hr HS HN. pose proof Hr as [Hb Hbt Ht Hnd Hs]. unfold btree_search.
  wp_step. eapply wp_btree_assert_locked; [done..|].
  wp_step. eapply wp_btree_lookup; [done| |].
  - intros c l p d r ->. pose proof (proj1 (tree_rep_plug _ _ _ _) Ht) as [_ (Hp & Hv & _)].
    rewrite decide_False by (by apply valid_ptr_nonnull). destruct pdata.
    + wp_step. eapply wp_bnode; [done..|]. apply wp_ret. apply HS. by apply find_plug.
    + apply wp_ret, (HS d). by apply find_plug.
  - intros Hn. rewrite decide_True by done. apply wp_ret, HN. by apply find_None.
Qed.

(** ** Deletion *)

(** A tree in the middle of an operation: the count may be out of step. *)
Definition tree_at (h : dsheap) b t (cnt : Z) : Prop :=
  d_btrees h !! b = Some (Btree (root t) cnt true) ∧
  tree_rep (d_bnodes h) b NULL t ∧ bst t ∧ NoDup (taddrs t).

(** The heap after tree [b] has become [t], with the nodes in [m]. *)
Definition with_tree (h : dsheap) b t (cnt : Z) m : dsheap :=
  set_btrees (<[b := Btree (root t) cnt true]> (d_btrees h)) (set_bnodes m h).

Lemma bst_graft s c t :
  gap c (key_of s) -> t = plug c Leaf -> plug c s = tins s t.
Proof. intros Hg ->. by rewrite tins_plug. Qed.

Definition graft (s t : tree) : tree := match s with Leaf => t | _ => tins s t end.

(** [if (child) { nr_nodes--; btree_insert_node(btree, child); }] *)
Lemma wp_reinsert h b s t cnt (Q : unit -> dsheap -> Prop) :
  valid_ptr b -> tree_at h b t cnt -> NoDup (taddrs s ++ taddrs t) ->
  (s ≠ Leaf -> detached (d_bnodes h) b s ∧ key_of s ∉ (elems t).*1) -> in_u64 cnt ->
  (∀ m', tree_rep m' b NULL (graft s t) -> 
     (∀ x, x ∉ taddrs s -> x ∉ taddrs t -> m' !! x = d_bnodes h !! x) ->
     (∀ x, x ∉ taddrs t -> x ≠ root s -> m' !! x = d_bnodes h !! x) ->
     dom m' = dom (d_bnodes h) -> Q tt (with_tree h b (graft s t) cnt m')) ->
  wp (when (bool_decide (root s ≠ NULL))
        (bt_upd b (λ g, bt_set_nr_nodes (u64 (bt_nr_nodes g - 1)) g);;
         btree_insert_node b (root s);; mret tt)) h Q.
Proof.
  intros Hb (Hbt & Ht & Hbst & Hndt) Hnd Hs Hcnt HQ. destruct s as [|l p k d r].
  - simpl. apply wp_ret. unfold with_tree in HQ. specialize (HQ (d_bnodes h)).
    rewrite insert_id in HQ by done.
    assert (set_btrees (d_btrees h) (set_bnodes (d_bnodes h) h) = h) as E by (by destruct h).
    rewrite E in HQ. by apply HQ.
  - destruct Hs as [Hdet Hk]; [done|]. set (s := Node l p k d r) in *.
    assert (valid_ptr p) as Hv by apply Hdet.
    rewrite bool_decide_eq_true_2 by (by apply valid_ptr_nonnull). unfold when.
    wp_step. eapply wp_bt_upd; [done..|]. wp_step.
    eapply (wp_btree_insert_node _ b t s); [done|simpl; by rewrite lookup_insert_eq|done..| |done].
    intros c m' Htc Hg Hrep Hframe Hdom. apply wp_ret. simpl. rewrite insert_insert_eq.
    rewrite u64_add_l, Z.sub_add, (u64_small cnt) by done.
    rewrite (bst_graft s c t) in * by done. apply (HQ m'); try done.
    intros x Hx1 Hx2. apply Hframe; [done|]. intros ->. apply Hx1. simpl. set_solver.
Qed.

(** The three writes that cut the subtree at [p] out of the tree. *)
Lemma wp_prune h b c l p k d r cnt (Q : unit -> dsheap -> Prop) :
  valid_ptr b -> tree_at h b (plug c (Node l p k d r)) cnt ->
  Q tt (with_tree h b (plug c Leaf) cnt (set_child c NULL (d_bnodes h))) ->
  wp (if decide (p = root (plug c (Node l p k d r))) then bt_upd b (bt_set_root NULL) else
      x ← btree_node_isright p;
      if (x : bool) then bnode_upd (top c) (bn_set_right NULL) else
      y ← btree_node_isleft p;
      when y (bnode_upd (top c) (bn_set_left NULL))) h Q.
Proof.
  intros Hb (Hbt & Ht & _ & Hnd) HQ. unfold with_tree in HQ.
  rewrite taddrs_plug in Hnd. apply tree_rep_plug in Ht as [Hc (Hp & Hv & _)].
  rewrite root_plug in HQ. rewrite root_plug in *. simpl in *.
  apply NoDup_app in Hnd as (_ & Hdis & Hndc).
  assert (p ∉ caddrs c) as Hpc by (apply Hdis; set_solver).
  destruct c as [|f c].
  { rewrite decide_True by done. eapply wp_bt_upd; [done..|]. exact HQ. }
  assert (ctx_root (f :: c) p = ctx_root (f :: c) NULL) as Hroot.
  { unfold ctx_root. destruct (last (f :: c)) eqn:E; [done|]. by apply last_None in E. }
  assert (ctx_root (f :: c) p ∈ caddrs (f :: c)) as Hin.
  { clear. unfold ctx_root. generalize f. induction c as [|g c IH]; intros f'; simpl.
    - destruct f'; set_solver.
    - specialize (IH g). simpl in IH. destruct f'; set_solver. }
  rewrite decide_False by (intros E; apply Hpc; by rewrite E at 1).
  rewrite <- Hroot, insert_id in HQ by done.
  assert (∀ m, set_btrees (d_btrees h) (set_bnodes m h) = set_bnodes m h) as E by (by destruct h).
  rewrite E in HQ.
  destruct f as [q k' d' r'|l' q k' d']; simpl in Hc; destruct Hc as (Hq & Hqv & Ht' & _);
    (wp_step; unfold btree_node_isright; wp_step; eapply wp_bnode; [done..|]; simpl;
     rewrite decide_False by (by apply valid_ptr_nonnull);
     wp_step; eapply wp_bnode; [done..|]; apply wp_ret; simpl).
  - rewrite bool_decide_eq_false_2.
    2: { intros E'. apply Hpc. simpl. destruct r'; simpl in E'; subst; [|set_solver].
         by apply valid_ptr_nonnull in Hv. }
    wp_step. unfold btree_node_isleft. wp_step. eapply wp_bnode; [done..|]. simpl.
    rewrite decide_False by (by apply valid_ptr_nonnull).
    wp_step. eapply wp_bnode; [done..|]. apply wp_ret. simpl.
    rewrite bool_decide_eq_true_2 by done. eapply wp_bnode_upd; [done..|]. exact HQ.
  - rewrite bool_decide_eq_true_2 by done. eapply wp_bnode_upd; [done..|]. exact HQ.
Qed.

Lemma tree_count_u64 m b par t : NoDup (taddrs t) -> tree_rep m b par t ->
  in_u64 (Z.of_nat (length (elems t))).
Proof.
  intros Hnd Ht. rewrite length_elems. split; [lia|].
  apply valid_ptrs_length; [done|by eapply tree_rep_valid].
Qed.

Lemma tree_rep_detached m b par s : s ≠ Leaf -> tree_rep m b par s -> detached m b s.
Proof. destruct s; [done|]. intros _ (Hm & Hv & Hl & Hr). simpl. by eauto 6. Qed.

(** The shape and order of the tree left by deleting the node in the hole. *)
Lemma bst_delete c l p k d r :
  bst (plug c (Node l p k d r)) ->
  bst (plug c (join l r)) ∧ bst (plug c r) ∧ bst (plug c Leaf) ∧
  (r ≠ Leaf -> gap c (key_of r)) ∧ (l ≠ Leaf -> gap c (key_of l) ∧ key_of l ∉ (elems (plug c r)).*1).
Proof.
  intros Hb. pose proof (elems_join _ _ _ _ _ _ Hb) as Hj.
  assert (sorted_keys (before c ++ elems l ++ elems r ++ after c)) as Hs.
  { unfold bst in Hb. rewrite elems_plug in Hb. simpl in Hb. rewrite <- app_assoc in Hb. simpl in Hb.
    rewrite app_assoc in Hb. apply sorted_keys_mid in Hb as [Hb _]. by rewrite <- app_assoc in Hb. }
  assert (sorted_keys (before c ++ elems r ++ after c)) as Hs2 by (by apply sorted_keys_cut in Hs).
  unfold bst. rewrite !elems_plug, Hj. simpl. rewrite <- app_assoc.
  split_and!; [done|done|by eapply sorted_keys_cut| |].
  - intros Hr. destruct (key_of_elem r Hr) as [x Hx].
    apply (gap_sub _ _ (key_of r, x) Hb). simpl. set_solver.
  - intros Hl. destruct (key_of_elem l Hl) as [x Hx].
    split; [apply (gap_sub _ _ (key_of l, x) Hb); simpl; set_solver|].
    intros (y & Ey & Hy)%list_elem_of_fmap. 
    apply sorted_keys_app in Hs as (_ & Hs & Hs1). apply sorted_keys_app in Hs as (_ & _ & Hs3).
    apply elem_of_app in Hy as [Hy|Hy].
    + specialize (Hs1 y (key_of l, x) Hy ltac:(apply elem_of_app; by left)). simpl in *. lia.
    + specialize (Hs3 (key_of l, x) y Hx Hy). simpl in *. lia.
Qed.

(** Cut the node out, free it and count it off. *)
Definition cut_node b p parent (rt : ptr) : M dsheap unit :=
  (if decide (p = rt) then bt_upd b (bt_set_root NULL) else
   r ← btree_node_isright p;
   if (r : bool) then bnode_upd parent (bn_set_right NULL) else
   l ← btree_node_isleft p;
   when l (bnode_upd parent (bn_set_left NULL)));;
  btree_free_node p;;
  bt_upd b (λ g, bt_set_nr_nodes (u64 (bt_nr_nodes g - 1)) g).

Lemma wp_cut_node h b c l p k d r cnt (Q : unit -> dsheap -> Prop) :
  valid_ptr b -> tree_at h b (plug c (Node l p k d r)) cnt -> bst (plug c Leaf) ->
  (∀ m', (∀ x, x ∉ caddrs c -> x ≠ p -> m' !! x = d_bnodes h !! x) ->
     dom m' = dom (d_bnodes h) ∖ {[p]} ->
     tree_at (with_tree h b (plug c Leaf) (u64 (cnt - 1)) m') b (plug c Leaf) (u64 (cnt - 1)) ->
     Q tt (with_tree h b (plug c Leaf) (u64 (cnt - 1)) m')) ->
  wp (cut_node b p (top c) (root (plug c (Node l p k d r)))) h Q.
Proof.
  intros Hb Hat Hbl HQ. pose proof Hat as (Hbt & Ht & _ & Hnd).
  rewrite taddrs_plug in Hnd. apply tree_rep_plug in Ht as [Hc (Hp & Hv & _)].
  apply NoDup_app in Hnd as (_ & Hdis & Hndc).
  assert (p ∉ caddrs c) as Hpc by (apply Hdis; simpl; set_solver).
  unfold cut_node. wp_step. eapply wp_prune; [done..|].
  set (m1 := set_child c NULL (d_bnodes h)).
  assert (m1 !! p = Some (BNode k d (root l) (top c) (root r) b)) as Hp1
    by (unfold m1; by rewrite set_child_other).
  wp_step. unfold btree_free_node. rewrite decide_False by (by apply valid_ptr_nonnull).
  wp_step. eapply wp_bnode_upd; [done|exact Hp1|].
  eapply wp_kfree; [by apply valid_ptr_nonnull|simpl; by rewrite lookup_alter_eq, Hp1|].
  eapply wp_bt_upd; [done|simpl; by rewrite lookup_insert_eq|]. simpl.
  rewrite insert_insert_eq. unfold bt_set_nr_nodes. simpl.
  set (m2 := delete p (alter _ p m1)).
  change (Q tt (with_tree h b (plug c Leaf) (u64 (cnt - 1)) m2)). apply HQ; unfold m2.
  - intros x Hx Hxp. rewrite lookup_delete_ne, lookup_alter_ne by done. by apply set_child_other.
  - rewrite dom_delete_L, dom_alter_L. unfold m1. f_equal.
    destruct c as [|[] c]; simpl; by rewrite ?dom_alter_L.
  - split_and!; [apply lookup_insert_eq| |done|by rewrite taddrs_plug].
    apply tree_rep_plug. split; [|done]. simpl.
    eapply ctx_rep_frame; [|by eapply ctx_rep_set_child].
    intros x Hx. rewrite lookup_delete_ne, lookup_alter_ne; [done|by intros ->..].
Qed.

(** Put the two subtrees of the deleted node back. *)
Lemma wp_reinsert_both h b c l p r n (Q : unit -> dsheap -> Prop) :
  valid_ptr b -> tree_at h b (plug c Leaf) n -> in_u64 n ->
  NoDup (taddrs l ++ taddrs r ++ caddrs c) ->
  tree_rep (d_bnodes h) b p l -> tree_rep (d_bnodes h) b p r ->
  bst (plug c r) -> (r ≠ Leaf -> gap c (key_of r)) ->
  (l ≠ Leaf -> gap c (key_of l) ∧ key_of l ∉ (elems (plug c r)).*1) ->
  (∀ m', tree_rep m' b NULL (plug c (join l r)) -> dom m' = dom (d_bnodes h) ->
     (∀ x, x ∉ taddrs l ++ taddrs r ++ caddrs c -> m' !! x = d_bnodes h !! x) ->
     Q tt (with_tree h b (plug c (join l r)) n m')) ->
  wp (when (bool_decide (root r ≠ NULL))
        (bt_upd b (λ g, bt_set_nr_nodes (u64 (bt_nr_nodes g - 1)) g);;
         btree_insert_node b (root r);; mret tt);;
      when (bool_decide (root l ≠ NULL))
        (bt_upd b (λ g, bt_set_nr_nodes (u64 (bt_nr_nodes g - 1)) g);;
         btree_insert_node b (root l);; mret tt)) h Q.
Proof.
  intros Hb Hat Hn Hnd Hl Hr Hbr Hgr Hgl HQ.
  apply NoDup_app in Hnd as (Hndl & Hdl & Hnd'). pose proof Hnd' as (Hndr & Hdr & Hndc)%NoDup_app.
  wp_step. eapply (wp_reinsert h b r (plug c Leaf) n); [done|done|..|].
  { by rewrite taddrs_plug. }
  { intros Hr0. split; [by eapply tree_rep_detached|]. rewrite elems_plug. by apply gap_fresh, Hgr. }
  { done. }
  assert (graft r (plug c Leaf) = plug c r) as ->.
  { destruct r; [done|]. simpl. by rewrite tins_plug by (by apply Hgr). }
  intros m3 Hrep3 Hf3 _ Hdom3. set (h3 := with_tree _ _ _ _ _).
  eapply (wp_reinsert h3 b l (plug c r) n); [done|..].
  { split_and!; [apply lookup_insert_eq|done|done|by rewrite taddrs_plug]. }
  { rewrite taddrs_plug. by apply NoDup_app. }
  { intros Hl0. split; [|by apply Hgl].
    eapply tree_rep_detached; [done|]. eapply tree_rep_frame; [|exact Hl]. simpl.
    intros x Hx%Hdl. apply Hf3; rewrite ?taddrs_plug; simpl; set_solver. }
  { done. }
  assert (graft l (plug c r) = plug c (join l r)) as ->.
  { destruct l; [done|]. simpl. by rewrite tins_plug by (by apply Hgl). }
  intros m4 Hrep4 Hf4 _ Hdom4. unfold with_tree, h3. simpl. rewrite insert_insert_eq.
  apply (HQ m4); [done|by rewrite Hdom4|].
  intros x Hx. rewrite Hf4, <- Hf3; rewrite ?taddrs_plug; simpl; set_solver.
Qed.

Lemma wp_seq3 {S A} (c1 c2 c3 : M S unit) (k : M S A) s Q :
  wp ((c1;; c2;; c3);; k) s Q -> wp (c1;; c2;; c3;; k) s Q.
Proof. unfold wp, mbind, M_bind. destruct (c1 s) as [? s1|]; [|done]. by destruct (c2 s1). Qed.

Lemma wp_btree_delete_node h b c l p k d r (Q : unit -> dsheap -> Prop) :
  let t := plug c (Node l p k d r) in
  let t' := plug c (join l r) in
  btree_rep h b true t ->
  (∀ m', let h' := with_tree h b t' (Z.of_nat (length (elems t'))) m' in
     btree_rep h' b true t' -> dom m' = dom (d_bnodes h) ∖ {[p]} ->
     (∀ x, x ∉ taddrs t -> m' !! x = d_bnodes h !! x) -> Q tt h') ->
  wp (btree_delete_node b p) h Q.
Proof.
  intros t t' [Hb Hbt Ht Hnd Hbst] HQ.
  pose proof (tree_count_u64 _ _ _ _ Hnd Ht) as Hcnt.
  destruct (bst_delete _ _ _ _ _ _ Hbst) as (Hbj & Hbr & Hbl & Hgr & Hgl).
  assert (u64 (Z.of_nat (length (elems t)) - 1) = Z.of_nat (length (elems t'))) as Hlen.
  { assert (length (elems t) = S (length (elems t'))) as E.
    { unfold t, t'. rewrite !elems_plug, (elems_join _ _ _ _ _ _ Hbst). simpl.
      repeat (rewrite !length_app; simpl). lia. }
    rewrite E in *. unfold in_u64 in Hcnt. rewrite u64_small; unfold in_u64; lia. }
  pose proof (proj1 (tree_rep_plug _ _ _ _) Ht) as [Hc (Hp & Hv & Hl & Hr)].
  assert (NoDup (p :: taddrs l ++ taddrs r ++ caddrs c)) as Hnd'.
  { unfold t in Hnd. rewrite taddrs_plug in Hnd. simpl in Hnd.
    rewrite <- app_assoc in Hnd. simpl in Hnd. by rewrite <- Permutation_middle in Hnd. }
  apply NoDup_cons in Hnd' as [Hpn Hnd']. pose proof Hnd' as (_ & Hdl & (_ & Hdr & _)%NoDup_app)%NoDup_app.
  unfold btree_delete_node. rewrite decide_False by (by apply valid_ptr_nonnull).
  wp_step. eapply wp_btree_assert_locked; [done..|].
  rewrite decide_False by (by apply valid_ptr_nonnull).
  wp_step. eapply wp_bnode; [done..|]. simpl. wp_step. eapply wp_bt; [done..|]. simpl.
  apply wp_seq3. wp_step. eapply (wp_cut_node h b c l p k d r); [done|by split|done|].
  intros m1 Hf1 Hdom1 Hat1. fold t in Hf1, Hat1. fold t. rewrite Hlen in *.
  eapply (wp_reinsert_both _ b c l p r); [done|exact Hat1|by rewrite <- Hlen; apply u64_range|done|..].
  { eapply tree_rep_frame; [|exact Hl]. simpl. intros x Hx. apply Hf1; set_solver. }
  { eapply tree_rep_frame; [|exact Hr]. simpl. intros x Hx. apply Hf1; set_solver. }
  1-3: done.
  intros m2 Hrep2 Hdom2 Hf2. unfold with_tree. simpl. rewrite insert_insert_eq.
  apply (HQ m2); simpl in *.
  - split; [done|apply lookup_insert_eq|done| |done].
    unfold t'. rewrite taddrs_plug, taddrs_join. by rewrite <- app_assoc.
  - by rewrite Hdom2.
  - intros x Hx. unfold t in Hx. rewrite taddrs_plug in Hx. simpl in Hx.
    rewrite Hf2; [apply Hf1|]; set_solver.
Qed.

Definition tmap t : gmap Z ptr := list_to_map (elems t).

Lemma tmap_insert c p k d :
  bst (plug c Leaf) -> gap c k -> tmap (plug c (Node Leaf p k d Leaf)) = <[k := d]> (tmap (plug c Leaf)).
Proof.
  intros Hb Hg. unfold tmap. rewrite !elems_plug. simpl.
  rewrite (list_to_map_proper _ ((k, d) :: before c ++ after c)); [done| |by rewrite Permutation_middle].
  rewrite fmap_app. simpl. rewrite <- Permutation_middle, <- fmap_app. constructor.
  - by apply gap_fresh.
  - apply bst_nodup in Hb. by rewrite elems_plug in Hb.
Qed.

Lemma tmap_delete c l p k d r :
  bst (plug c (Node l p k d r)) -> tmap (plug c (join l r)) = delete k (tmap (plug c (Node l p k d r))).
Proof.
  intros Hb. pose proof (bst_nodup _ Hb) as Hnd. unfold tmap. rewrite !elems_plug in *. 
  rewrite (elems_join _ _ _ _ _ _ Hb). simpl in *.
  set (L := before c ++ elems l) in *. set (R := elems r ++ after c) in *.
  assert ((before c ++ (elems l ++ (k, d) :: elems r) ++ after c) = L ++ (k, d) :: R) as E
    by (unfold L, R; rewrite <- !app_assoc; done).
  assert (before c ++ (elems l ++ elems r) ++ after c = L ++ R) as -> by (unfold L, R; by rewrite <- !app_assoc).
  rewrite E in *.
  assert (L ++ (k, d) :: R ≡ₚ (k, d) :: L ++ R) as P by (by rewrite Permutation_middle).
  rewrite (list_to_map_proper _ _ Hnd P). simpl. rewrite delete_insert_id; [done|].
  apply not_elem_of_list_to_map_1. rewrite P in Hnd. simpl in Hnd. by apply NoDup_cons in Hnd as [? _].
Qed.

Lemma wp_btree_rep_locked h b t (Q : unit -> dsheap -> Prop) :
  btree_rep h b true t -> Q tt h -> wp (btree_assert_locked b) h Q.
Proof. intros [Hb Hbt _ _ _] HQ. by eapply wp_btree_assert_locked. Qed.

Section specs.
Context {K : Kmalloc}.

Lemma wp_btree_delete h b t key (Q : unit -> dsheap -> Prop) :
  btree_rep h b true t ->
  (key ∉ dom (tmap t) -> Q tt h) ->
  (∀ t' m' p, let h' := with_tree h b t' (Z.of_nat (length (elems t'))) m' in
     key ∈ dom (tmap t) -> btree_rep h' b true t' -> tmap t' = delete key (tmap t) ->
     p ∈ taddrs t -> dom m' = dom (d_bnodes h) ∖ {[p]} ->
     (∀ x, x ∉ taddrs t -> m' !! x = d_bnodes h !! x) -> Q tt h') ->
  wp (btree_delete b key) h Q.
Proof.
  intros Hr HN HS. unfold btree_delete. wp_step.
  eapply wp_btree_rep_locked; [done|].
  wp_step. eapply wp_btree_lookup; [done| |].
  - intros c l p d r Ht. subst t. eapply wp_btree_delete_node; [done|].
    intros m' h' Hr' Hdom Hf. eapply HS; [|exact Hr'|..|exact Hdom|done].
    + apply elem_of_dom. exists d. by apply find_plug, Hr.
    + by apply tmap_delete, Hr.
    + rewrite taddrs_plug. simpl. set_solver.
  - intros Hk. pose proof (br_ptr _ _ _ _ Hr). unfold btree_delete_node.
    rewrite decide_False by (by apply valid_ptr_nonnull).
    wp_step. eapply wp_btree_rep_locked; [done|]. rewrite decide_True by done.
    apply wp_ret, HN. rewrite not_elem_of_dom. by apply find_None.
Qed.

Lemma dom_tmap t k : k ∈ dom (tmap t) <-> k ∈ (elems t).*1.
Proof. unfold tmap. by rewrite dom_list_to_map, elem_of_list_to_set. Qed.

(** A fresh node that was not linked leaves no trace. *)
Lemma free_fresh_node (m : gmap ptr btree_node_t) p n f :
  m !! p = None -> delete p (alter f p (<[p := n]> m)) = m.
Proof.
  intros Hp. apply map_eq. intros x. destruct (decide (x = p)) as [->|].
  - by rewrite lookup_delete_eq.
  - by rewrite lookup_delete_ne, lookup_alter_ne, lookup_insert_ne by done.
Qed.

Lemma alter_insert_eq' (m : gmap ptr btree_node_t) p n f : alter f p (<[p := n]> m) = <[p := f n]> m.
Proof. apply alter_insert_eq. Qed.

Lemma wp_btree_insert h b t key data (Q : Z -> dsheap -> Prop) :
  btree_rep h b true t ->
  (km_choose (kh_ticks h) (kh_live h) = None -> Q (- ENOMEM) (ds_tick h)) ->
  (key ∈ dom (tmap t) -> Q (- EEXIST) (ds_tick h)) ->
  (∀ p t' m', let h' := with_tree (ds_tick h) b t' (Z.of_nat (length (elems t'))) m' in
     key ∉ dom (tmap t) -> btree_rep h' b true t' -> tmap t' = <[key := data]> (tmap t) ->
     p ∉ kh_live h -> dom m' = {[p]} ∪ dom (d_bnodes h) ->
     (∀ x, x ∉ taddrs t -> x ≠ p -> m' !! x = d_bnodes h !! x) -> Q 0 h') ->
  wp (btree_insert b key data) h Q.
Proof.
  intros [Hb Hbt Ht Hnd Hbst] HM HE HO. unfold btree_insert.
  rewrite decide_False by (by apply valid_ptr_nonnull).
  wp_step. eapply wp_btree_assert_locked; [done..|].
  wp_step. apply wp_kmalloc_why; [intros Hnone; apply wp_ret; by apply HM|]. intros p Hp Hlive.
  rewrite decide_False by (by apply valid_ptr_nonnull).
  assert (d_bnodes h !! p = None) as Hfresh by (apply not_elem_of_dom; simpl in Hlive; set_solver).
  wp_step. eapply wp_bnode_upd; [done|apply lookup_insert_eq|].
  wp_step. eapply wp_bnode_upd; [done|simpl; by rewrite lookup_alter_eq, lookup_insert_eq|]. simpl.
  rewrite !alter_insert_eq'. unfold bn_set_key, bn_set_data. simpl.
  set (s := Node Leaf p key data Leaf). set (m0 := <[p := _]> (d_bnodes h)). set (h0 := set_bnodes m0 _).
  assert (∀ x, x ∈ taddrs t -> x ≠ p) as Hpt.
  { intros x Hx ->. apply (tree_rep_dom _ _ _ _ _ Ht), elem_of_dom in Hx as [? Hx]. congruence. }
  assert (NoDup (taddrs s ++ taddrs t)) as Hnd'.
  { simpl. constructor; [|done]. intros Hx. by apply (Hpt p Hx). }
  wp_step. eapply (wp_btree_insert_node h0 b t s); [done|exact Hbt| |done|done|..].
  { eapply tree_rep_frame; [|exact Ht]. intros x Hx. simpl. unfold m0.
    by rewrite lookup_insert_ne by (symmetry; by apply Hpt). }
  { simpl. split_and!; [done| |done|done]. exists NULL, NULL. apply lookup_insert_eq. }
  - intros c m' Htc Hg Hrep Hframe Hdom. rewrite decide_False by (simpl; lia). apply wp_ret.
    assert (length (elems (plug c s)) = S (length (elems t))) as Hlen.
    { rewrite Htc, !elems_plug. simpl. rewrite !length_app. simpl. lia. }
    assert (NoDup (taddrs (plug c s))) as Hnd2.
    { rewrite Htc, taddrs_plug in Hnd'. by rewrite taddrs_plug. }
    assert (u64 (Z.of_nat (length (elems t)) + 1) = Z.of_nat (length (elems (plug c s)))) as Hcnt.
    { pose proof (tree_count_u64 _ _ _ _ Hnd2 Hrep) as Hu. rewrite Hlen in *.
      rewrite u64_small; unfold in_u64 in *; lia. }
    rewrite Hcnt. apply (HO p (plug c s) m').
    + rewrite dom_tmap, Htc, elems_plug. by apply gap_fresh.
    + split; [done|apply lookup_insert_eq|done|done|].
      unfold bst. rewrite elems_plug. simpl. apply sorted_keys_mid. rewrite Htc in Hbst.
      unfold bst in Hbst. rewrite elems_plug in Hbst. by destruct Hg.
    + rewrite Htc. apply tmap_insert; [by rewrite <- Htc|done].
    + done.
    + rewrite Hdom. simpl. unfold m0. set_solver.
    + intros x Hx Hxp. rewrite Hframe by done. simpl. unfold m0. by rewrite lookup_insert_ne.
  - intros Hin. simpl. wp_step. unfold btree_free_node.
    rewrite decide_False by (by apply valid_ptr_nonnull).
    wp_step. eapply wp_bnode_upd; [done|simpl; unfold m0; by rewrite lookup_alter_eq, lookup_insert_eq|].
    eapply wp_kfree; [by apply valid_ptr_nonnull
      |simpl; unfold m0; by rewrite !lookup_alter_eq, lookup_insert_eq|].
    apply wp_ret. simpl. unfold m0.
    rewrite alter_alter_eq, free_fresh_node by done.
    refine (HE _). by apply dom_tmap.
Qed.
End specs.

(** ** Least and largest *)

Fixpoint leftmost (acc : ptr) t : ptr := match t with Leaf => acc | Node l p _ _ _ => leftmost p l end.
Fixpoint rightmost (acc : ptr) t : ptr := match t with Leaf => acc | Node _ p _ _ r => rightmost p r end.

Lemma leftmost_rep m b par acc t : tree_rep m b par t -> t ≠ Leaf ->
  valid_ptr (leftmost acc t) ∧ ∃ n, m !! leftmost acc t = Some n ∧ head (elems t) = Some (bn_key n, bn_data n).
Proof.
  revert par acc. induction t as [|l IHl p k d r _]; intros par acc Ht Hne; [done|].
  destruct Ht as (Hp & Hv & Hl & _). simpl. destruct l as [|ll lp lk ld lr]; [by eauto|].
  destruct (IHl p p Hl) as (? & n & Hn & Hh); [done|]. split; [done|]. exists n. split; [done|].
  simpl elems in *. by destruct (elems ll ++ _).
Qed.

Lemma rightmost_rep m b par acc t : tree_rep m b par t -> t ≠ Leaf ->
  valid_ptr (rightmost acc t) ∧ ∃ n, m !! rightmost acc t = Some n ∧ last (elems t) = Some (bn_key n, bn_data n).
Proof.
  revert par acc. induction t as [|l _ p k d r IHr]; intros par acc Ht Hne; [done|].
  destruct Ht as (Hp & Hv & _ & Hr). simpl. rewrite last_app_cons. destruct r as [|rl rp rk rd rr]; [by eauto|].
  destruct (IHr p p Hr) as (? & n & Hn & Hh); [done|]. split; [done|]. exists n. split; [done|].
  rewrite last_cons. by rewrite Hh.
Qed.

Lemma wp_edge_loop fuel h b par acc t (Q : ptr -> dsheap -> Prop) :
  (height t < fuel)%nat -> tree_rep (d_bnodes h) b par t ->
  (Q (leftmost acc t) h -> wp (btree_edge_loop fuel bn_left (root t) acc) h Q) ∧
  (Q (rightmost acc t) h -> wp (btree_edge_loop fuel bn_right (root t) acc) h Q).
Proof.
  revert fuel par acc. induction t as [|l IHl p k d r IHr]; intros [|fuel] par acc Hf Ht; try lia; [done|].
  destruct Ht as (Hp & Hv & Hl & Hr). simpl in *.
  split; intros HQ; rewrite decide_False by (by apply valid_ptr_nonnull);
    wp_step; (eapply wp_bnode; [done..|]); simpl; [eapply IHl|eapply IHr]; (lia || done).
Qed.

Lemma root_fuel h b t : btree_rep h b true t -> (height t < S (size (d_bnodes h)))%nat.
Proof.
  intros [_ _ Ht Hnd _]. pose proof (tree_fuel _ _ _ _ Hnd Ht). pose proof (height_length t). lia.
Qed.

Definition datum (x : option (Z * ptr)) : ptr := match x with Some y => y.2 | None => NULL end.

Lemma wp_btree_least h b t (Q : ptr -> dsheap -> Prop) :
  btree_rep h b true t -> Q (datum (head (elems t))) h -> wp (btree_least b) h Q.
Proof.
  intros Hr HQ. pose proof Hr as [Hb Hbt Ht Hnd Hbst]. pose proof (valid_ptr_nonnull _ Hb).
  unfold btree_least. rewrite decide_False by done. wp_step.
  unfold btree_least_node. rewrite decide_False by done.
  wp_step. eapply wp_btree_rep_locked; [done|]. wp_step. eapply wp_bt; [done..|].
  wp_step. apply (wp_eq _ _ _ _ _ eq_refl).
  eapply wp_edge_loop; [by eapply root_fuel|done|].
  destruct t as [|l p k d r]; [by apply wp_ret|].
  destruct (leftmost_rep _ _ _ NULL _ Ht) as (Hv & n & Hn & Hh); [done|].
  rewrite decide_False by (by apply valid_ptr_nonnull).
  wp_step. eapply wp_bnode; [done..|]. apply wp_ret. by rewrite Hh in HQ.
Qed.

Lemma wp_btree_largest h b t (Q : ptr -> dsheap -> Prop) :
  btree_rep h b true t -> Q (datum (last (elems t))) h -> wp (btree_largest b) h Q.
Proof.
  intros Hr HQ. pose proof Hr as [Hb Hbt Ht Hnd Hbst]. pose proof (valid_ptr_nonnull _ Hb).
  unfold btree_largest. rewrite decide_False by done. wp_step.
  unfold btree_largest_node. rewrite decide_False by done.
  wp_step. eapply wp_btree_rep_locked; [done|]. wp_step. eapply wp_bt; [done..|].
  wp_step. apply (wp_eq _ _ _ _ _ eq_refl).
  eapply wp_edge_loop; [by eapply root_fuel|done|].
  destruct t as [|l p k d r]; [by apply wp_ret|].
  destruct (rightmost_rep _ _ _ NULL _ Ht) as (Hv & n & Hn & Hh); [done|].
  rewrite decide_False by (by apply valid_ptr_nonnull).
  wp_step. eapply wp_bnode; [done..|]. apply wp_ret. by rewrite Hh in HQ.
Qed.

(** ** Flush *)

Lemma with_tree_twice h b t1 n1 m1 t2 n2 m2 :
  with_tree (with_tree h b t1 n1 m1) b t2 n2 m2 = with_tree h b t2 n2 m2.
Proof. unfold with_tree. simpl. by rewrite insert_insert_eq. Qed.

Lemma wp_btree_flush_node s fuel h b c (Q : Z -> dsheap -> Prop) :
  (height s < fuel)%nat -> btree_rep h b true (plug c s) ->
  (∀ h' n m', h' = with_tree h b (plug c Leaf) n m' -> btree_rep h' b true (plug c Leaf) ->
     dom m' = dom (d_bnodes h) ∖ list_to_set (taddrs s) ->
     (∀ x, x ∉ taddrs (plug c s) -> m' !! x = d_bnodes h !! x) -> Q 0 h') ->
  wp (btree_flush_node fuel (root s)) h Q.
Proof.
  revert fuel h c Q. induction s as [|l IHl p k d r IHr]; intros [|fuel] h c Q Hf Hr HQ; try lia; simpl.
  - apply wp_ret. eapply (HQ h _ (d_bnodes h)); [|done|set_solver|done]. destruct Hr as [_ Hbt _ _ _].
    unfold with_tree. rewrite insert_id by done. by destruct h.
  - simpl in Hf. pose proof (proj1 (tree_rep_plug _ _ _ _) (br_nodes _ _ _ _ Hr)) as [_ (Hp & Hv & _)].
    rewrite decide_False by (by apply valid_ptr_nonnull).
    wp_step. eapply wp_bnode; [done..|]. simpl.
    wp_step. eapply wp_btree_rep_locked; [done|].
    wp_step. apply (IHl fuel h (FL p k d r :: c)); [lia|exact Hr|].
    intros h1 n1 m1 E1 Hr1 Hd1 Hf1. simpl in Hr1, E1, Hf1.
    pose proof (proj1 (tree_rep_plug _ _ _ _) (br_nodes _ _ _ _ Hr1)) as [_ (Hp1 & _)].
    wp_step. eapply wp_bnode; [done..|]. simpl.
    wp_step. eapply wp_btree_delete_node; [done|]. intros m2 h2 Hr2 Hd2 Hf2. simpl in Hr2.
    wp_step. apply (IHr fuel h2 c); [lia|exact Hr2|].
    intros h3 n3 m3 E3 Hr3 Hd3 Hf3. apply wp_ret.
    eapply (HQ h3 n3 m3); [|done|..].
    + subst h1 h2 h3. by rewrite !with_tree_twice.
    + rewrite Hd3. unfold h2. simpl. rewrite Hd2. subst h1. simpl. rewrite Hd1. simpl.
      rewrite list_to_set_app_L, list_to_set_cons. set_solver.
    + intros x Hx. rewrite taddrs_plug in Hx. simpl in Hx.
      rewrite Hf3 by (rewrite taddrs_plug; set_solver). unfold h2. simpl.
      rewrite Hf2 by (rewrite taddrs_plug; simpl; set_solver). subst h1. simpl.
      apply Hf1. rewrite taddrs_plug. simpl. set_solver.
Qed.

Lemma wp_btree_flush h b t (Q : Z -> dsheap -> Prop) :
  btree_rep h b true t ->
  (∀ n m', let h' := with_tree h b Leaf n m' in
     btree_rep h' b true Leaf -> dom m' = dom (d_bnodes h) ∖ list_to_set (taddrs t) -> Q 0 h') ->
  wp (btree_flush b) h Q.
Proof.
  intros Hr HQ. pose proof Hr as [Hb Hbt Ht Hnd Hbst]. unfold btree_flush.
  wp_step. eapply wp_btree_rep_locked; [done|].
  rewrite decide_False by (by apply valid_ptr_nonnull).
  wp_step. eapply wp_bt; [done..|]. wp_step. apply (wp_eq _ _ _ _ _ eq_refl).
  eapply (wp_btree_flush_node t _ h b []); [by eapply root_fuel|done|].
  intros h' n m' -> Hr' Hd _. by apply HQ.
Qed.

(** ** The abstract finite map *)

Variant bop := BInsert (k : Z) (d : ptr) | BDelete (k : Z) | BSearch (k : Z)
  | BLeast | BLargest | BCount | BFlush.

Implicit Types (mp : gmap Z ptr).

(** [d] is the datum of the extreme key with respect to [le]. *)
Definition extreme (le : Z -> Z -> Prop) mp (d : ptr) : Prop :=
  (mp = ∅ ∧ d = NULL) ∨ ∃ k, mp !! k = Some d ∧ ∀ k', k' ∈ dom mp -> le k k'.

Inductive map_step : gmap Z ptr -> bop -> Z * option ptr -> gmap Z ptr -> Prop :=
  | ms_insert mp k d : mp !! k = None -> map_step mp (BInsert k d) (0, None) (<[k := d]> mp)
  | ms_insert_exists mp k d : k ∈ dom mp -> map_step mp (BInsert k d) (- EEXIST, None) mp
  | ms_insert_nomem mp k d : map_step mp (BInsert k d) (- ENOMEM, None) mp
  | ms_delete mp k : map_step mp (BDelete k) (0, None) (delete k mp)
  | ms_search mp k d : mp !! k = Some d -> map_step mp (BSearch k) (0, Some d) mp
  | ms_search_none mp k : mp !! k = None -> map_step mp (BSearch k) (- ENOENT, None) mp
  | ms_least mp d : extreme Z.le mp d -> map_step mp BLeast (0, Some d) mp
  | ms_largest mp d : extreme Z.ge mp d -> map_step mp BLargest (0, Some d) mp
  | ms_count mp : map_step mp BCount (Z.of_nat (size mp), None) mp
  | ms_flush mp : map_step mp BFlush (0, None) ∅.

Inductive map_run : gmap Z ptr -> list bop -> list (Z * option ptr) -> gmap Z ptr -> Prop :=
  | mr_nil mp : map_run mp [] [] mp
  | mr_cons mp op r mp1 ops rs mp2 :
      map_step mp op r mp1 -> map_run mp1 ops rs mp2 -> map_run mp (op :: ops) (r :: rs) mp2.

Lemma extreme_least t : bst t -> extreme Z.le (tmap t) (datum (head (elems t))).
Proof.
  unfold bst, tmap. destruct (elems t) as [|[k d] l]; intros Hs; [by left|]. right. exists k. simpl.
  split; [apply lookup_insert_eq|]. unfold sorted_keys in Hs. simpl in Hs.
  apply StronglySorted_inv in Hs as [_ Hall]. rewrite Forall_forall in Hall.
  intros k'. rewrite dom_insert, dom_list_to_map. intros [->%elem_of_singleton|Hk]%elem_of_union; [lia|].
  apply elem_of_list_to_set, Hall in Hk. lia.
Qed.

Lemma extreme_largest t : bst t -> extreme Z.ge (tmap t) (datum (last (elems t))).
Proof.
  intros Hb. pose proof (bst_nodup _ Hb) as Hnd. revert Hb Hnd. unfold bst, tmap.
  destruct (elems t) as [|[k d] l _] using rev_ind; intros Hs Hnd; [by left|].
  rewrite last_snoc. right. exists k. simpl.
  split; [apply elem_of_list_to_map_1; [done|set_solver]|].
  apply sorted_keys_app in Hs as (_ & _ & Hlt).
  intros k'. rewrite dom_list_to_map, elem_of_list_to_set. intros (x & -> & Hx)%list_elem_of_fmap.
  apply elem_of_app in Hx as [Hx| ->%list_elem_of_singleton]; [|simpl; lia].
  specialize (Hlt x (k, d) Hx ltac:(set_solver)). simpl in Hlt. lia.
Qed.

Lemma size_tmap t : bst t -> size (tmap t) = length (elems t).
Proof.
  intros Hb. unfold tmap. rewrite <- size_dom, dom_list_to_map_L, size_list_to_set by (by apply bst_nodup).
  by rewrite length_fmap.
Qed.

Section refinement.
Context {K : Kmalloc}.

Definition run_bop (b : ptr) (op : bop) : M dsheap (Z * option ptr) :=
  match op with
  | BInsert k d => r ← btree_insert b k d; mret (r, None)
  | BDelete k => btree_delete b k;; mret (0, None)
  | BSearch k => btree_search b k true
  | BLeast => d ← btree_least b; mret (0, Some d)
  | BLargest => d ← btree_largest b; mret (0, Some d)
  | BCount => n ← btree_nr_nodes b; mret (n, None)
  | BFlush => r ← btree_flush b; mret (r, None)
  end.

Fixpoint run_bops (b : ptr) (ops : list bop) : M dsheap (list (Z * option ptr)) :=
  match ops with
  | [] => mret []
  | op :: ops => r ← run_bop b op; rs ← run_bops b ops; mret (r :: rs)
  end.

Lemma btree_rep_tick h b lk t : btree_rep h b lk t -> btree_rep (ds_tick h) b lk t.
Proof. intros []. by split. Qed.

Lemma run_bop_refines h b t op :
  btree_rep h b true t ->
  wp (run_bop b op) h (λ r h', ∃ t', map_step (tmap t) op r (tmap t') ∧ btree_rep h' b true t').
Proof.
  intros Hr. pose proof (br_bst _ _ _ _ Hr) as Hb. destruct op as [k d|k|k| | | |]; simpl.
  - wp_step. eapply wp_btree_insert; [done|..].
    + intros _. apply wp_ret. exists t. split; [constructor|by apply btree_rep_tick].
    + intros Hk. apply wp_ret. exists t. split; [by constructor|by apply btree_rep_tick].
    + intros p t' m' h' Hk Hr' E _ _ _. apply wp_ret. exists t'. rewrite E.
      split; [constructor; by apply not_elem_of_dom|done].
  - wp_step. eapply wp_btree_delete; [done|..].
    + intros Hk. apply wp_ret. exists t. split; [|done].
      rewrite <- (delete_id (tmap t) k) at 2 by (by apply not_elem_of_dom). constructor.
    + intros t' m' p h' Hk Hr' E _ _ _. apply wp_ret. exists t'. rewrite E. split; [constructor|done].
  - eapply wp_btree_search; [done|..].
    + intros d Hd. exists t. split; [by constructor|done].
    + intros Hn. exists t. split; [by constructor|done].
  - wp_step. eapply wp_btree_least; [done|]. apply wp_ret. exists t.
    split; [constructor; by apply extreme_least|done].
  - wp_step. eapply wp_btree_largest; [done|]. apply wp_ret. exists t.
    split; [constructor; by apply extreme_largest|done].
  - wp_step. unfold btree_nr_nodes. wp_step. eapply wp_btree_rep_locked; [done|].
    destruct Hr as [Hp Hbt Ht Hnd Hbst]. wp_step. eapply wp_bt; [done..|]. apply wp_ret, wp_ret. simpl.
    exists t. rewrite <- size_tmap by done. split; [constructor|by split; rewrite ?size_tmap].
  - wp_step. eapply wp_btree_flush; [done|]. intros n m' h' Hr' _. apply wp_ret.
    exists Leaf. split; [constructor|done].
Qed.

(** C37. The tree is a finite map.  Every sequence of insertions,
    deletions, searches, least and largest queries, counts and flushes on a
    locked tree returns (no loop runs for ever, no pointer is bad) with the
    results of a finite map from keys to data, and leaves a tree whose keys
    are sorted, whose parent and tree pointers are right and whose node
    count is the number of keys. *)
Theorem btree_refines_map h b t ops :
  btree_rep h b true t ->
  wp (run_bops b ops) h (λ rs h', ∃ t', map_run (tmap t) ops rs (tmap t') ∧ btree_rep h' b true t').
Proof.
  revert h t. induction ops as [|op ops IH]; intros h t Hr; simpl.
  - apply wp_ret. exists t. split; [constructor|done].
  - wp_step. eapply wp_mono; [by apply run_bop_refines|]. intros r h1 (t1 & Hop & Hr1).
    wp_step. eapply wp_mono; [by eapply IH|]. intros rs h2 (t2 & Hrun & Hr2).
    apply wp_ret. exists t2. split; [by econstructor|done].
Qed.

(** Flushing frees exactly the nodes of the tree: afterwards the tree
    is empty with a count of zero, and a node is live if and only if it was
    live before and did not belong to the tree. *)
Theorem btree_flush_frees h b t :
  btree_rep h b true t ->
  wp (btree_flush b) h (λ r h', r = 0 ∧ btree_rep h' b true Leaf ∧
    dom (d_bnodes h') = dom (d_bnodes h) ∖ list_to_set (taddrs t)).
Proof. intros Hr. eapply wp_btree_flush; [done|]. auto. Qed.
End refinement.

(** A locked tree at address 500 with the keys 2, 5 and 9. *)
Definition tree3 : tree := Node (Node Leaf 20 2 22 Leaf) 10 5 55 (Node Leaf 30 9 99 Leaf).
Definition tree3_heap : dsheap :=
  DsHeap ∅ ∅ ∅ {[ 500 := Btree 10 3 true ]}
    {[ 10 := BNode 5 55 20 0 30 500; 20 := BNode 2 22 0 10 0 500; 30 := BNode 9 99 0 10 0 500 ]}
    ∅ ∅ ∅ ∅ 0.

Lemma tree3_rep : btree_rep tree3_heap 500 true tree3.
Proof.
  split; [done|done|..].
  - by vm_compute.
  - by apply (bool_decide_unpack _).
  - repeat constructor.
Qed.

Lemma btree_refines_map_witness :
  wp (run_bops (K := bump_kmalloc) 500 [BInsert 7 70; BDelete 5; BLeast]) tree3_heap
    (λ rs h', ∃ t', map_run (tmap tree3) [BInsert 7 70; BDelete 5; BLeast] rs (tmap t') ∧
       btree_rep h' 500 true t').
Proof. apply (btree_refines_map (K := bump_kmalloc)). exact tree3_rep. Defined.

Lemma btree_flush_frees_witness :
  wp (btree_flush 500) tree3_heap (λ r h', r = 0 ∧ btree_rep h' 500 true Leaf ∧
    dom (d_bnodes h') = dom (d_bnodes tree3_heap) ∖ list_to_set (taddrs tree3)).
Proof. apply btree_flush_frees. exact tree3_rep. Defined.

Example btree_run_example :
  match run_bops (K := bump_kmalloc) 500
    [BInsert 7 70; BInsert 7 71; BDelete 5; BSearch 5; BSearch 7; BLeast; BLargest; BCount; BFlush; BCount]
    tree3_heap with
  | Ok rs _ => rs = [(0, None); (- EEXIST, None); (0, None); (- ENOENT, None); (0, Some 70);
                     (0, Some 22); (0, Some 99); (3, None); (0, None); (0, None)]
  | Stop _ => False
  end.
Proof. vm_compute. reflexivity. Qed.

(** The data reach the queue in key order. *)
Example btree_traverse_example :
  match btree_traverse (K := bump_kmalloc) 500 800
    (set_queues {[ 800 := q_set_lock true QUEUE_INIT ]} tree3_heap) with
  | Ok r h => r = 0 ∧ omap (λ p, qn_data <$> d_qnodes h !! p) [801; 802; 803] = [22; 55; 99]
  | Stop _ => False
  end.
Proof. vm_compute. split; reflexivity. Qed.
