(* ===== verification/Vmm.v ===== *)
(** * kernel/mm/vmm/vmm.c: the kernel virtual address allocator

    The kernel heap range is tiled by regions.  A region is a node of one of
    two lists, free regions sorted by address and used regions in the order
    of allocation; nodes without a region wait in a third list.  Allocation
    is first fit and splits; freeing merges with the neighbours.

    The theorems show that the two lists always tile the range exactly, that
    no two free regions are ever adjacent, that an allocation never overlaps
    a live one, that the assertion "no free nodes left" cannot fail, and that
    every sequence of calls behaves as a map from bases to sizes. *)

From S2P Require Import Prelude Dll.

(** struct node of vmm.c *)
Record node_t := VNode {
  n_base : Z;
  n_next : ptr;
  n_prev : ptr;
  n_size : Z;
}.

Definition n_set_base v n := VNode v (n_next n) (n_prev n) (n_size n).
Definition n_set_next v n := VNode (n_base n) v (n_prev n) (n_size n).
Definition n_set_prev v n := VNode (n_base n) (n_next n) v (n_size n).
Definition n_set_size v n := VNode (n_base n) (n_next n) (n_prev n) v.

(** A node is its two links and its region. *)
#[export] Program Instance linked_vnode : Linked node_t (Z * Z) := {|
  l_mk a d n := VNode d.1 n a d.2;
  set_prev := n_set_prev;
  set_next := n_set_next;
|}.
Next Obligation. done. Qed.
Next Obligation. done. Qed.

(** The static variables of the file. *)
Record vmm := Vmm {
  v_nodes : gmap ptr node_t;
  usedvmr_head : ptr;
  usedvmr_tail : ptr;
  freevmr_head : ptr;
  freevmr_tail : ptr;
  freenodes_head : ptr;
  freenodes_tail : ptr;
  vmm_online : bool;
  used_virtual_mmsz : Z;
  vmm_spinlock : bool;
}.

Definition set_nodes v s := Vmm v (usedvmr_head s) (usedvmr_tail s) (freevmr_head s) (freevmr_tail s)
  (freenodes_head s) (freenodes_tail s) (vmm_online s) (used_virtual_mmsz s) (vmm_spinlock s).
Definition set_usedvmr_head v s := Vmm (v_nodes s) v (usedvmr_tail s) (freevmr_head s) (freevmr_tail s)
  (freenodes_head s) (freenodes_tail s) (vmm_online s) (used_virtual_mmsz s) (vmm_spinlock s).
Definition set_usedvmr_tail v s := Vmm (v_nodes s) (usedvmr_head s) v (freevmr_head s) (freevmr_tail s)
  (freenodes_head s) (freenodes_tail s) (vmm_online s) (used_virtual_mmsz s) (vmm_spinlock s).
Definition set_freevmr_head v s := Vmm (v_nodes s) (usedvmr_head s) (usedvmr_tail s) v (freevmr_tail s)
  (freenodes_head s) (freenodes_tail s) (vmm_online s) (used_virtual_mmsz s) (vmm_spinlock s).
Definition set_freevmr_tail v s := Vmm (v_nodes s) (usedvmr_head s) (usedvmr_tail s) (freevmr_head s) v
  (freenodes_head s) (freenodes_tail s) (vmm_online s) (used_virtual_mmsz s) (vmm_spinlock s).
Definition set_freenodes_head v s := Vmm (v_nodes s) (usedvmr_head s) (usedvmr_tail s) (freevmr_head s)
  (freevmr_tail s) v (freenodes_tail s) (vmm_online s) (used_virtual_mmsz s) (vmm_spinlock s).
Definition set_freenodes_tail v s := Vmm (v_nodes s) (usedvmr_head s) (usedvmr_tail s) (freevmr_head s)
  (freevmr_tail s) (freenodes_head s) v (vmm_online s) (used_virtual_mmsz s) (vmm_spinlock s).
Definition set_vmm_online v s := Vmm (v_nodes s) (usedvmr_head s) (usedvmr_tail s) (freevmr_head s)
  (freevmr_tail s) (freenodes_head s) (freenodes_tail s) v (used_virtual_mmsz s) (vmm_spinlock s).
Definition set_used_mmsz v s := Vmm (v_nodes s) (usedvmr_head s) (usedvmr_tail s) (freevmr_head s)
  (freevmr_tail s) (freenodes_head s) (freenodes_tail s) (vmm_online s) v (vmm_spinlock s).
Definition set_vmm_lock v s := Vmm (v_nodes s) (usedvmr_head s) (usedvmr_tail s) (freevmr_head s)
  (freevmr_tail s) (freenodes_head s) (freenodes_tail s) (vmm_online s) (used_virtual_mmsz s) v.

#[export] Instance hl_vnodes : Heaplet vmm node_t := {| hl_get := v_nodes; hl_put := set_nodes |}.

Definition PAGESZ : Z := 4096.
Definition PAGEMASK : Z := PAGESZ - 1.
Definition getpagesize : Z := PAGESZ.
Definition VMA_BASE : Z := 18446743523953737728. (* 0xFFFFFF8000000000 *)
Definition VMA2HI (p : Z) : Z := u64 (VMA_BASE + p).
Definition KHEAPBASE : Z := VMA2HI 4294967296.

Definition vn (p : ptr) : M vmm node_t := load p.
Definition vupd (p : ptr) (f : node_t -> node_t) : M vmm unit := update p f.
(** [if (p) p->next = n;] and [if (p) p->prev = n;] *)
Definition if_next (p n : ptr) : M vmm unit := when (bool_decide (p ≠ NULL)) (vupd p (n_set_next n)).
Definition if_prev (p n : ptr) : M vmm unit := when (bool_decide (p ≠ NULL)) (vupd p (n_set_prev n)).
Definition assert_ptr (p : ptr) : M vmm unit := assert_ (bool_decide (p ≠ NULL)).

Definition can_merge_left (node left : ptr) : M vmm bool :=
  assert_ptr node;; assert_ptr left;;
  l ← vn left; n ← vn node;
  mret (bool_decide (u64 (n_base l + n_size l) = n_base n)).

Definition can_merge_right (node right : ptr) : M vmm bool :=
  assert_ptr node;; assert_ptr right;;
  n ← vn node; r ← vn right;
  mret (bool_decide (u64 (n_base n + n_size n) = n_base r)).

Definition can_merge_both (left node right : ptr) : M vmm bool :=
  a ← can_merge_left node left;
  if (a : bool) then can_merge_right node right else mret false.

Definition freenodes_get : M vmm ptr :=
  head ← gets freenodes_head;
  if decide (head = NULL) then mret NULL else
  n ← vn head;
  modify (set_freenodes_head (n_next n));;
  when (bool_decide (n_next n = NULL)) (modify (set_freenodes_tail NULL));;
  vupd head (λ _, VNode 0 NULL NULL 0);;
  mret head.

Definition freenodes_put (node : ptr) : M vmm unit :=
  assert_ptr node;;
  n ← vn node;
  assert_ (bool_decide (n_size n ≠ 0));;
  assert_ (bool_decide (n_base n >= KHEAPBASE));;
  vupd node (n_set_next NULL);;
  vupd node (n_set_prev NULL);;
  head ← gets freenodes_head;
  when (bool_decide (head = NULL)) (modify (set_freenodes_head node));;
  tail ← gets freenodes_tail;
  if_next tail node;;
  tail ← gets freenodes_tail;
  vupd node (n_set_prev tail);;
  modify (set_freenodes_tail node).

Definition merge_left (node left : ptr) : M vmm unit :=
  assert_ptr node;; assert_ptr left;;
  ok ← can_merge_left node left;
  assert_ ok;;
  n ← vn node;
  vupd left (λ l, n_set_size (u64 (n_size l + n_size n)) l);;
  freenodes_put node.

Definition merge_right (node right : ptr) : M vmm unit :=
  assert_ptr node;; assert_ptr right;;
  ok ← can_merge_right node right;
  assert_ ok;;
  n ← vn node;
  vupd right (λ r, n_set_base (u64 (n_base r - n_size n)) r);;
  vupd right (λ r, n_set_size (u64 (n_size r + n_size n)) r);;
  freenodes_put node.

Definition concatenate (left node right : ptr) : M vmm unit :=
  ok ← can_merge_both left node right;
  assert_ ok;;
  n ← vn node; r ← vn right;
  vupd left (λ l, n_set_size (u64 (n_size l + u64 (n_size n + n_size r))) l);;
  if_prev (n_next r) left;;
  r ← vn right;
  vupd left (n_set_next (n_next r));;
  when (bool_decide (n_next r = NULL)) (modify (set_freevmr_tail left));;
  freenodes_put node;;
  freenodes_put right.

Definition freevmr_linkto_left (node left : ptr) : M vmm unit :=
  assert_ptr node;; assert_ptr left;;
  l ← vn left;
  vupd node (n_set_next (n_next l));;
  (if decide (n_next l ≠ NULL) then vupd (n_next l) (n_set_prev node)
   else modify (set_freevmr_tail node);; vupd node (n_set_next NULL));;
  vupd left (n_set_next node);;
  vupd node (n_set_prev left).

Definition freevmr_linkto_right (node right : ptr) : M vmm unit :=
  assert_ptr node;; assert_ptr right;;
  r ← vn right;
  vupd node (n_set_prev (n_prev r));;
  (if decide (n_prev r ≠ NULL) then vupd (n_prev r) (n_set_next node)
   else modify (set_freevmr_head node);; vupd node (n_set_prev NULL));;
  vupd right (n_set_prev node);;
  vupd node (n_set_next right).

(** A traversal visits every node of the array at most once. *)
Definition node_fuel : M vmm nat := gets (λ s, S (size (v_nodes s))).

(** [for (tmp = right; tmp && right->base < node->base; tmp = right = tmp->next)
    left = right;] with the final [left] and [right] as result. *)
Fixpoint freevmr_find (fuel : nat) (base : Z) (left right : ptr) : M vmm (ptr * ptr) :=
  match fuel with
  | O => halt OutOfFuel
  | S fuel =>
      if decide (right = NULL) then mret (left, right) else
      r ← vn right;
      if decide (n_base r < base) then freevmr_find fuel base right (n_next r)
      else mret (left, right)
  end.

Definition freevmr_put (node : ptr) : M vmm unit :=
  assert_ptr node;;
  n ← vn node;
  assert_ (bool_decide (n_size n ≠ 0));;
  assert_ (bool_decide (n_base n >= KHEAPBASE));;
  vupd node (n_set_prev NULL);;
  vupd node (n_set_next NULL);;
  head ← gets freevmr_head;
  if decide (head = NULL) then
    modify (set_freevmr_head node);; modify (set_freevmr_tail node)
  else
  fuel ← node_fuel;
  lr ← freevmr_find fuel (n_base n) NULL head;
  let left := lr.1 in
  let right := lr.2 in
  if decide (left ≠ NULL ∧ right ≠ NULL) then
    both ← can_merge_both left node right;
    if (both : bool) then concatenate left node right else
    l ← can_merge_left node left;
    if (l : bool) then merge_left node left else
    r ← can_merge_right node right;
    if (r : bool) then merge_right node right else
    vupd node (n_set_prev left);;
    vupd node (n_set_next right);;
    vupd left (n_set_next node);;
    vupd right (n_set_prev node)
  else if decide (left ≠ NULL) then
    l ← can_merge_left node left;
    if (l : bool) then merge_left node left else freevmr_linkto_left node left
  else if decide (right ≠ NULL) then
    r ← can_merge_right node right;
    if (r : bool) then merge_right node right else freevmr_linkto_right node right
  else halt Panic.

Fixpoint freevmr_fit (fuel : nat) (sz : Z) (node : ptr) : M vmm ptr :=
  match fuel with
  | O => halt OutOfFuel
  | S fuel =>
      if decide (node = NULL) then mret NULL else
      n ← vn node;
      if decide (n_size n >= sz) then mret node else freevmr_fit fuel sz (n_next n)
  end.

Definition freevmr_get (sz : Z) : M vmm ptr :=
  assert_ (bool_decide (sz ≠ 0));;
  assert_ (bool_decide (Z.land sz PAGEMASK = 0));;
  head ← gets freevmr_head;
  if decide (head = NULL) then mret NULL else
  fuel ← node_fuel;
  node ← freevmr_fit fuel sz head;
  if decide (node = NULL) then mret NULL else
  n ← vn node;
  let next := n_next n in
  let prev := n_prev n in
  vupd node (n_set_next NULL);;
  vupd node (n_set_prev NULL);;
  if_next prev next;;
  head ← gets freevmr_head;
  when (bool_decide (head = node)) (modify (set_freevmr_head next);; if_prev next NULL);;
  if_prev next prev;;
  tail ← gets freevmr_tail;
  when (bool_decide (tail = node)) (modify (set_freevmr_tail next);; if_next next NULL);;
  mret node.

Definition usedvmr_put (node : ptr) : M vmm unit :=
  assert_ptr node;;
  n ← vn node;
  assert_ (bool_decide (n_size n ≠ 0));;
  assert_ (bool_decide (n_base n >= KHEAPBASE));;
  head ← gets usedvmr_head;
  when (bool_decide (head = NULL)) (modify (set_usedvmr_head node));;
  tail ← gets usedvmr_tail;
  if_next tail node;;
  vupd node (n_set_next NULL);;
  tail ← gets usedvmr_tail;
  vupd node (n_set_prev tail);;
  modify (set_usedvmr_tail node).

Fixpoint usedvmr_find (fuel : nat) (base : Z) (node : ptr) : M vmm ptr :=
  match fuel with
  | O => halt OutOfFuel
  | S fuel =>
      if decide (node = NULL) then mret NULL else
      n ← vn node;
      if decide (n_base n = base) then mret node else usedvmr_find fuel base (n_next n)
  end.

Definition usedvmr_lookup (base : Z) : M vmm ptr :=
  assert_ (bool_decide (base ≠ 0));;
  head ← gets usedvmr_head;
  if decide (head = NULL) then mret NULL else
  fuel ← node_fuel;
  node ← usedvmr_find fuel base head;
  if decide (node = NULL) then mret NULL else
  n ← vn node;
  if_next (n_prev n) (n_next n);;
  n ← vn node;
  if_prev (n_next n) (n_prev n);;
  n ← vn node;
  head ← gets usedvmr_head;
  when (bool_decide (head = node)) (modify (set_usedvmr_head (n_next n)));;
  tail ← gets usedvmr_tail;
  when (bool_decide (tail = node)) (modify (set_usedvmr_tail (n_prev n)));;
  vupd node (n_set_next NULL);;
  vupd node (n_set_prev NULL);;
  mret node.

Definition vmm_lock : M vmm unit :=
  l ← gets vmm_spinlock; assert_ (negb l);; modify (set_vmm_lock true).
Definition vmm_unlock : M vmm unit :=
  l ← gets vmm_spinlock; assert_ l;; modify (set_vmm_lock false).

(** The heap size and the array of nodes are parameters: the kernel uses
    4 GiB ([kheapsz_4G]) and a static array; small heaps run the examples. *)
Section kheap.
Context (KHEAPSZ : Z) (nodes : ptr).

Definition KHEAP_MAX_NODES : Z := KHEAPSZ / PAGESZ.
(** [nodes + i]; a node is four words. *)
Definition nodes_at (i : Z) : ptr := u64 (nodes + 32 * i).

(** [memset(nodes, 0, sizeof nodes)] *)
Definition zero_nodes : gmap ptr node_t :=
  list_to_map ((λ i, (nodes_at (Z.of_nat i), VNode 0 NULL NULL 0)) <$> seq 0 (Z.to_nat KHEAP_MAX_NODES)).

Fixpoint vmm_init_loop (idx : list nat) : M vmm unit :=
  match idx with
  | [] => mret tt
  | i :: idx =>
      let i := Z.of_nat i in
      vupd (nodes_at i) (n_set_prev (nodes_at (i - 1)));;
      vupd (nodes_at i) (n_set_next (nodes_at (i + 1)));;
      vmm_init_loop idx
  end.

Definition vmm_init : M vmm Z :=
  modify (set_nodes zero_nodes);;
  let last := KHEAP_MAX_NODES - 1 in
  vmm_init_loop (seq 0 (Z.to_nat last));;
  vupd (nodes_at 0) (n_set_prev NULL);;
  vupd (nodes_at last) (n_set_next NULL);;
  vupd (nodes_at last) (n_set_prev (nodes_at (last - 1)));;
  modify (set_freenodes_head (nodes_at 0));;
  modify (set_freenodes_tail (nodes_at last));;
  node ← freenodes_get;
  vupd node (λ _, VNode KHEAPBASE NULL NULL KHEAPSZ);;
  freevmr_put node;;
  modify (set_vmm_online true);;
  mret 0.

Definition vmm_alloc (sz : Z) : M vmm Z :=
  on ← gets vmm_online;
  when (negb on) (vmm_init;; mret tt);;
  vmm_lock;;
  split ← freevmr_get sz;
  if decide (split = NULL) then vmm_unlock;; mret 0 else
  s ← vn split;
  node ← (if decide (n_size s > sz) then
            node ← freenodes_get;
            assert_ptr node;;
            s ← vn split;
            vupd node (n_set_base (n_base s));;
            vupd node (n_set_size sz);;
            vupd split (λ g, n_set_base (u64 (n_base g + sz)) g);;
            vupd split (λ g, n_set_size (u64 (n_size g - sz)) g);;
            freevmr_put split;;
            mret node
          else if decide (n_size s < sz) then halt Panic
          else mret split);
  modify (λ s, set_used_mmsz (u64 (used_virtual_mmsz s + sz)) s);;
  n ← vn node;
  let addr := n_base n in
  usedvmr_put node;;
  vmm_unlock;;
  mret addr.

Definition vmm_free (base : Z) : M vmm unit :=
  assert_ (bool_decide (base ≠ 0));;
  vmm_lock;;
  node ← usedvmr_lookup base;
  if decide (node = NULL) then halt Panic else
  n ← vn node;
  modify (λ s, set_used_mmsz (u64 (used_virtual_mmsz s - n_size n)) s);;
  freevmr_put node;;
  vmm_unlock.

Definition vmm_getfreesize : M vmm Z :=
  vmm_lock;;
  size ← gets (λ s, u64 (KHEAPSZ - used_virtual_mmsz s));
  vmm_unlock;;
  mret (size / 1024).

Definition vmm_getinuse : M vmm Z :=
  vmm_lock;;
  size ← gets used_virtual_mmsz;
  vmm_unlock;;
  mret (size / 1024).
End kheap.

Definition vmm_active : M vmm bool := gets vmm_online.

Definition kheapsz_4G : Z := 4294967296.
Definition vmm_boot : vmm := Vmm ∅ NULL NULL NULL NULL NULL NULL false 0 false.

(** ** Symbolic execution *)

Section steps.
Implicit Types (s : vmm).

Lemma wp_vn s p n (Q : node_t -> vmm -> Prop) :
  p ≠ NULL -> v_nodes s !! p = Some n -> Q n s -> wp (vn p) s Q.
Proof. intros Hp Hn HQ. by eapply wp_load. Qed.

Lemma wp_vupd s p n f (Q : unit -> vmm -> Prop) :
  p ≠ NULL -> v_nodes s !! p = Some n ->
  Q tt (set_nodes (alter f p (v_nodes s)) s) -> wp (vupd p f) s Q.
Proof.
  intros Hp Hn HQ. eapply wp_update; [done|exact Hn|]. simpl. by rewrite (alter_insert_Some _ _ _ f Hn).
Qed.

Lemma wp_if_next s p n (Q : unit -> vmm -> Prop) :
  p = NULL ∨ is_Some (v_nodes s !! p) ->
  Q tt (set_nodes (put_next p n (v_nodes s)) s) -> wp (if_next p n) s Q.
Proof.
  intros Hp HQ. unfold if_next, put_next in *. case_decide as E.
  - rewrite bool_decide_eq_false_2 by naive_solver. apply wp_ret. by destruct s.
  - rewrite bool_decide_eq_true_2 by done. destruct Hp as [|[v Hv]]; [done|]. by eapply wp_vupd.
Qed.

Lemma wp_if_prev s p n (Q : unit -> vmm -> Prop) :
  p = NULL ∨ is_Some (v_nodes s !! p) ->
  Q tt (set_nodes (put_prev p n (v_nodes s)) s) -> wp (if_prev p n) s Q.
Proof.
  intros Hp HQ. unfold if_prev, put_prev in *. case_decide as E.
  - rewrite bool_decide_eq_false_2 by naive_solver. apply wp_ret. by destruct s.
  - rewrite bool_decide_eq_true_2 by done. destruct Hp as [|[v Hv]]; [done|]. by eapply wp_vupd.
Qed.

Lemma wp_assert_ptr s p (Q : unit -> vmm -> Prop) : p ≠ NULL -> Q tt s -> wp (assert_ptr p) s Q.
Proof. intros Hp HQ. apply wp_assert; [by apply bool_decide_eq_true|done]. Qed.
End steps.

(** ** The list of spare nodes: only the forward links are meaningful *)

Definition hd_ptr (xs : list ptr) : ptr := default NULL (head xs).
Definition last_ptr (xs : list ptr) : ptr := default NULL (last xs).

Fixpoint sseg (m : gmap ptr node_t) (xs : list ptr) : Prop :=
  match xs with
  | [] => True
  | p :: xs => (∃ n, m !! p = Some n ∧ n_next n = hd_ptr xs) ∧ sseg m xs
  end.

Lemma sseg_frame m m' xs : (∀ p, p ∈ xs -> m' !! p = m !! p) -> sseg m xs -> sseg m' xs.
Proof.
  induction xs as [|p xs IH]; intros Heq; simpl; [done|]. intros [Hp Hs]. split.
  - rewrite Heq; [done|set_solver].
  - apply IH; [|done]. intros q Hq. apply Heq. set_solver.
Qed.

Lemma sseg_last m xs : sseg m xs -> xs ≠ [] -> is_Some (m !! last_ptr xs) ∧ last_ptr xs ∈ xs.
Proof.
  induction xs as [|p xs IH]; intros Hs Hne; [done|]. destruct Hs as [(n & Hn & _) Hs].
  destruct xs as [|q xs]; [split; [by exists n|set_solver]|].
  destruct IH as [? ?]; [done|done|]. split; [done|]. right. done.
Qed.

Lemma put_last_outside m xs p x : sseg m xs -> x ∉ xs -> put_next (last_ptr xs) p m !! x = m !! x.
Proof.
  intros Hs Hx. destruct (decide (xs = [])) as [->|Hne]; [done|]. apply put_next_ne. intros ->.
  by destruct (sseg_last m xs).
Qed.

(** Appending a node behind the last one. *)
Lemma sseg_snoc m xs p n :
  NoDup xs -> p ∉ xs -> NULL ∉ xs -> m !! p = Some n -> n_next n = NULL ->
  sseg m xs -> sseg (put_next (last_ptr xs) p m) (xs ++ [p]).
Proof.
  intros Hnd Hp Hnull Hn Hnext. induction xs as [|q xs IH]; intros Hs; simpl.
  - unfold put_next. simpl. by eauto.
  - destruct Hs as [(k & Hk & Hkn) Hs]. apply NoDup_cons in Hnd as [Hq Hnd].
    apply not_elem_of_cons in Hp as [Hpq Hp]. apply not_elem_of_cons in Hnull as [Hqn Hnull].
    destruct xs as [|r xs].
    + unfold put_next, last_ptr. simpl. rewrite decide_False by done.
      rewrite lookup_alter_eq, lookup_alter_ne, Hk by done. simpl. by eauto 10.
    + assert (last_ptr (q :: r :: xs) = last_ptr (r :: xs)) as -> by done.
      split; [|by apply IH]. exists k. split; [|done].
      rewrite put_next_ne; [done|]. intros ->. apply Hq.
      by apply (sseg_last m).
Qed.

Lemma sseg_alter_prev m xs p v : sseg m xs -> sseg (alter (n_set_prev v) p m) xs.
Proof.
  induction xs as [|q xs IH]; [done|]. intros [(k & Hk & Hkn) Hs]. split; [|auto].
  destruct (decide (q = p)) as [->|].
  - rewrite lookup_alter_eq, Hk. by eexists.
  - rewrite lookup_alter_ne by done. eauto.
Qed.

(** ** The three lists together *)

Abbreviation region := (Z * Z)%type.
Abbreviation rlist := (list (ptr * region)).

Record vrep (s : vmm) (fr us : rlist) (fn : list ptr) : Prop := {
  vr_free : dll (v_nodes s) (freevmr_head s) (last_or NULL fr) fr;
  vr_used : dll (v_nodes s) (usedvmr_head s) (usedvmr_tail s) us;
  vr_pool : freenodes_head s = hd_ptr fn ∧ freenodes_tail s = last_ptr fn ∧
            NULL ∉ fn ∧ sseg (v_nodes s) fn;
  vr_nodup : NoDup (addrs fr ++ addrs us ++ fn);
  vr_tail : freevmr_tail s = NULL ∨ freevmr_tail s = last_or NULL fr;
}.

(** Nodes outside the lists concerned keep their contents. *)
Definition untouched (ps : list ptr) (s s' : vmm) : Prop :=
  ∀ x, x ∉ ps -> v_nodes s' !! x = v_nodes s !! x.

(** What the list operations never touch. *)
Definition vrest (s : vmm) := (vmm_online s, used_virtual_mmsz s, vmm_spinlock s).

Lemma vrep_frame s m' fr us fn :
  (∀ p, p ∈ addrs fr ++ addrs us ++ fn -> m' !! p = v_nodes s !! p) ->
  vrep s fr us fn -> vrep (set_nodes m' s) fr us fn.
Proof.
  intros Heq [Hf Hu (H1 & H2 & H3 & H4) Hnd Htl]. split; simpl; [..|done|done].
  - eapply dll_frame; [|done]. intros p Hp. apply Heq. set_solver.
  - eapply dll_frame; [|done]. intros p Hp. apply Heq. set_solver.
  - split_and!; [done..|]. eapply sseg_frame; [|done]. intros p Hp. apply Heq. set_solver.
Qed.

Lemma wp_freenodes_get s fr us fn (Q : ptr -> vmm -> Prop) :
  vrep s fr us fn ->
  (fn = [] -> Q NULL s) ->
  (∀ p fn' s', fn = p :: fn' -> p ≠ NULL -> vrep s' fr us fn' ->
     v_nodes s' !! p = Some (VNode 0 NULL NULL 0) ->
     (∀ x, x ≠ p -> v_nodes s' !! x = v_nodes s !! x) -> vrest s' = vrest s -> Q p s') ->
  wp freenodes_get s Q.
Proof.
  intros Hr HN HS. pose proof Hr as [Hf Hu (Hh & Ht & Hnull & Hseg) Hnd Htl]. unfold freenodes_get.
  wp_step. wp_step. destruct fn as [|p fn]; simpl in Hh; unfold hd_ptr in Hh; simpl in Hh.
  - rewrite decide_True by done. apply wp_ret. by apply HN.
  - rewrite Hh. apply not_elem_of_cons in Hnull as [Hp Hnull]. rewrite decide_False by done.
    destruct Hseg as [(n & Hn & Hnext) Hseg].
    assert (∀ q, q ∈ addrs fr ++ addrs us ++ fn -> q ≠ p) as Hne.
    { intros q Hq ->. rewrite app_assoc in Hnd. apply NoDup_app in Hnd as (_ & Hd & Hnd).
      apply NoDup_cons in Hnd as [Hnd _]. specialize (Hd p). set_solver. }
    wp_step. eapply wp_vn; [done..|]. wp_step. wp_step. wp_step.
    eapply (wp_eq _ _ _ tt
      (set_freenodes_tail (last_ptr fn) (set_freenodes_head (hd_ptr fn) s))).
    { rewrite Hnext. unfold when. case_bool_decide as E; unfold modify, mret, M_ret; simpl.
      - destruct fn as [|q fn]; [done|]. unfold hd_ptr in E. simpl in E. set_solver.
      - destruct fn as [|q fn]; [done|].
        replace (last_ptr (q :: fn)) with (freenodes_tail s) by (by rewrite Ht). by destruct s. }
    wp_step. eapply wp_vupd; [done|exact Hn|]. apply wp_ret.
    eapply (HS p fn _ eq_refl); [done|..]; simpl.
    + apply (vrep_frame (set_freenodes_tail _ (set_freenodes_head _ s))).
      * simpl. intros q Hq. rewrite lookup_alter_ne; [done|]. intros ->. by eapply Hne.
      * split; simpl; [done|done|done| |done].
        rewrite app_assoc, <- Permutation_middle in Hnd. apply NoDup_cons in Hnd as [_ Hnd].
        by rewrite <- app_assoc in Hnd.
    + by rewrite lookup_alter_eq, Hn.
    + intros x Hx. by rewrite lookup_alter_ne.
    + done.
Qed.

Lemma hd_ptr_snoc xs p : hd_ptr (xs ++ [p]) = if decide (xs = []) then p else hd_ptr xs.
Proof. by destruct xs. Qed.

Lemma wp_freenodes_put s fr us fn p n (Q : unit -> vmm -> Prop) :
  vrep s fr us fn -> p ≠ NULL -> p ∉ addrs fr ++ addrs us ++ fn ->
  v_nodes s !! p = Some n -> n_size n ≠ 0 -> KHEAPBASE <= n_base n ->
  (∀ s', vrep s' fr us (fn ++ [p]) ->
     (∀ x, x ≠ p -> x ∉ fn -> v_nodes s' !! x = v_nodes s !! x) -> vrest s' = vrest s -> Q tt s') ->
  wp (freenodes_put p) s Q.
Proof.
  intros Hr Hp Hout Hn Hsz Hbase HQ.
  pose proof Hr as [Hf Hu (Hh & Ht & Hnull & Hseg) Hnd Htl]. unfold freenodes_put.
  wp_step. apply wp_assert_ptr; [done|]. wp_step. eapply wp_vn; [done..|].
  wp_step. apply wp_assert; [by apply bool_decide_eq_true|].
  wp_step. apply wp_assert; [apply bool_decide_eq_true; lia|].
  wp_step. eapply wp_vupd; [done..|].
  wp_step. eapply wp_vupd; [done|simpl; by rewrite lookup_alter_eq, Hn|]. simpl.
  rewrite alter_alter_eq. set (m1 := alter _ p (v_nodes s)).
  assert (m1 !! p = Some (VNode (n_base n) NULL NULL (n_size n))) as Hm1.
  { unfold m1. by rewrite lookup_alter_eq, Hn. }
  assert (∀ x, x ≠ p -> m1 !! x = v_nodes s !! x) as Hm1f.
  { intros x Hx. unfold m1. by rewrite lookup_alter_ne. }
  assert (sseg m1 fn) as Hseg1.
  { eapply sseg_frame; [|done]. intros x Hx. apply Hm1f. intros ->. set_solver. }
  wp_step. wp_step. cbn [freenodes_head set_nodes]. rewrite Hh. wp_step.
  eapply (wp_eq _ _ _ tt (set_freenodes_head (hd_ptr (fn ++ [p])) (set_nodes m1 s))).
  { rewrite hd_ptr_snoc. unfold when. case_bool_decide as E; unfold modify, mret, M_ret.
    - destruct fn as [|q fn]; [done|]. unfold hd_ptr in E. simpl in E. set_solver.
    - destruct fn as [|q fn]; [done|]. rewrite decide_False by done. rewrite <- Hh. by destruct s. }
  wp_step. wp_step. cbn [freenodes_tail set_nodes set_freenodes_head]. rewrite Ht. wp_step. apply wp_if_next.
  { simpl. destruct (decide (fn = [])) as [->|Hne]; [by left|].
    right. by apply (sseg_last m1). }
  wp_step. wp_step. cbn [freenodes_tail set_nodes set_freenodes_head]. rewrite Ht.
  assert (last_ptr fn ≠ p) as Hlp.
  { destruct (decide (fn = [])) as [->|Hne]; [done|]. intros <-.
    destruct (sseg_last m1 fn) as [_ ?]; [done..|]. set_solver. }
  wp_step. eapply wp_vupd; [done|simpl; by rewrite put_next_ne, Hm1|].
  eapply (wp_eq _ _ _ _ _ eq_refl). simpl. apply HQ.
  - split; simpl.
    + eapply dll_frame; [|exact Hf]. intros x Hx. rewrite lookup_alter_ne by (intros ->; set_solver).
      rewrite put_last_outside; [apply Hm1f; set_solver|done|].
      apply NoDup_app in Hnd as (_ & Hd & _). specialize (Hd _ Hx). set_solver.
    + eapply dll_frame; [|exact Hu]. intros x Hx. rewrite lookup_alter_ne by (intros ->; set_solver).
      rewrite put_last_outside; [apply Hm1f; set_solver|done|].
      apply NoDup_app in Hnd as (_ & _ & (_ & Hd & _)%NoDup_app). specialize (Hd _ Hx). set_solver.
    + split_and!; [done|unfold last_ptr; by rewrite last_snoc|set_solver|].
      assert (NoDup fn) by (rewrite app_assoc in Hnd; by apply NoDup_app in Hnd as (_ & _ & ?)).
      eapply sseg_alter_prev, sseg_snoc; [done|set_solver|done..].
    + rewrite !app_assoc. rewrite app_assoc in Hnd. apply NoDup_app. split_and!; [done| |apply NoDup_singleton].
      intros x Hx ->%list_elem_of_singleton. rewrite <- app_assoc in Hx. done.
    + done.
  - intros x Hx Hxf. simpl. rewrite lookup_alter_ne, put_last_outside by done. by apply Hm1f.
  - done.
Qed.

(** ** Returning a region to the free list *)

(** A region of the heap range. *)
Definition reg_ok (r : region) : Prop := KHEAPBASE <= r.1 ∧ 0 < r.2 ∧ r.1 + r.2 < two64.
Definition adj (a b : region) : Prop := a.1 + a.2 = b.1.
#[export] Instance adj_dec a b : Decision (adj a b) := decide (a.1 + a.2 = b.1).

(** What putting the region [r], held by node [p], does to the free list and
    which nodes it releases.  [xs] are the nodes below [r], [ys] the others. *)
Inductive put_free (p : ptr) (r : region) : rlist -> rlist -> rlist -> list ptr -> Prop :=
  | pf_link xs ys :
      (∀ l, last xs.*2 = Some l -> ¬ adj l r) -> (∀ q, head ys.*2 = Some q -> ¬ adj r q) ->
      put_free p r xs ys (xs ++ (p, r) :: ys) []
  | pf_left xs pl l ys :
      adj l r -> (∀ q, head ys.*2 = Some q -> ¬ adj r q) ->
      put_free p r (xs ++ [(pl, l)]) ys (xs ++ (pl, (l.1, l.2 + r.2)) :: ys) [p]
  | pf_right xs pr q ys :
      (∀ l, last xs.*2 = Some l -> ¬ adj l r) -> adj r q ->
      put_free p r xs ((pr, q) :: ys) (xs ++ (pr, (r.1, q.2 + r.2)) :: ys) [p]
  | pf_both xs pl l pr q ys :
      adj l r -> adj r q ->
      put_free p r (xs ++ [(pl, l)]) ((pr, q) :: ys) (xs ++ (pl, (l.1, l.2 + (r.2 + q.2))) :: ys) [p; pr].

Section merges.
Context (s : vmm).

Lemma kheapbase_pos : 0 < KHEAPBASE.
Proof. done. Qed.

Lemma reg_ok_u64 r : reg_ok r -> u64 (r.1 + r.2) = r.1 + r.2.
Proof. intros (H1 & H2 & H3). apply u64_small. unfold in_u64. pose proof kheapbase_pos. lia. Qed.

Lemma wp_can_merge_left p l r q a b c d (Q : bool -> vmm -> Prop) :
  p ≠ NULL -> l ≠ NULL -> v_nodes s !! p = Some (VNode r.1 a b r.2) ->
  v_nodes s !! l = Some (VNode q.1 c d q.2) -> reg_ok q ->
  Q (bool_decide (adj q r)) s -> wp (can_merge_left p l) s Q.
Proof.
  intros Hp Hl Hr Hq Hok HQ. unfold can_merge_left.
  wp_step. apply wp_assert_ptr; [done|]. wp_step. apply wp_assert_ptr; [done|].
  wp_step. eapply wp_vn; [done..|]. wp_step. eapply wp_vn; [done..|]. apply wp_ret. simpl.
  by rewrite reg_ok_u64.
Qed.

Lemma wp_can_merge_right p l r q a b c d (Q : bool -> vmm -> Prop) :
  p ≠ NULL -> l ≠ NULL -> v_nodes s !! p = Some (VNode r.1 a b r.2) ->
  v_nodes s !! l = Some (VNode q.1 c d q.2) -> reg_ok r ->
  Q (bool_decide (adj r q)) s -> wp (can_merge_right p l) s Q.
Proof.
  intros Hp Hl Hr Hq Hok HQ. unfold can_merge_right.
  wp_step. apply wp_assert_ptr; [done|]. wp_step. apply wp_assert_ptr; [done|].
  wp_step. eapply wp_vn; [done..|]. wp_step. eapply wp_vn; [done..|]. apply wp_ret. simpl.
  by rewrite reg_ok_u64.
Qed.
End merges.

(** The state of [freevmr_put] once the node has been detached: the lists,
    and a node [p] with region [r] outside them. *)
Record vput (s : vmm) (fr us : rlist) (fn : list ptr) (p : ptr) (r : region) : Prop := {
  vp_rep : vrep s fr us fn;
  vp_ptr : p ≠ NULL;
  vp_out : p ∉ addrs fr ++ addrs us ++ fn;
  vp_node : ∃ a b, v_nodes s !! p = Some (VNode r.1 a b r.2);
  vp_ok : reg_ok r;
  vp_regs : Forall reg_ok fr.*2;
}.

(** Changing the region of a free node changes nothing else. *)
Lemma vrep_payload s xs p d d' ys us fn f :
  (∀ a n, f (l_mk a d n) = l_mk a d' n) ->
  vrep s (xs ++ (p, d) :: ys) us fn ->
  vrep (set_nodes (alter f p (v_nodes s)) s) (xs ++ (p, d') :: ys) us fn.
Proof.
  intros Hfun [Hf Hu (H1 & H2 & H3 & H4) Hnd Htl].
  assert (∀ x, x ∈ addrs us ++ fn -> x ≠ p) as Hne.
  { intros x Hx ->. apply NoDup_app in Hnd as (_ & Hd & _). apply (Hd p); [rewrite fmap_app|]; set_solver. }
  split; simpl.
  - rewrite last_or_app in *. by eapply dll_payload.
  - eapply dll_frame; [|exact Hu]. intros x Hx. rewrite lookup_alter_ne; [done|]. intros ->. apply (Hne x); set_solver.
  - split_and!; [done..|]. eapply sseg_frame; [|exact H4]. intros x Hx. rewrite lookup_alter_ne; [done|].
    intros ->. apply (Hne x); set_solver.
  - by rewrite fmap_app in *.
  - by rewrite last_or_app in *.
Qed.

(** A region absorbed by its left neighbour. *)
Lemma wp_merge_left s xs pl l ys us fn p r (Q : unit -> vmm -> Prop) :
  vput s (xs ++ (pl, l) :: ys) us fn p r -> adj l r -> l.2 + r.2 < two64 ->
  (∀ s', vrep s' (xs ++ (pl, (l.1, l.2 + r.2)) :: ys) us (fn ++ [p]) -> vrest s' = vrest s ->
     untouched (p :: addrs (xs ++ (pl, l) :: ys) ++ fn) s s' -> Q tt s') ->
  wp (merge_left p pl) s Q.
Proof.
  intros [Hr Hp Hout (a & b & Hn) Hok Hregs] Hadj Hsz HQ.
  pose proof (dll_mid _ _ _ _ _ _ _ (vr_free _ _ _ _ Hr)) as (Hpl & _ & _ & Hl).
  assert (reg_ok l) as Hlok by (rewrite fmap_app in Hregs; by apply Forall_app in Hregs as [_ [? _]%Forall_cons]).
  assert (p ≠ pl) as Hne by (intros ->; apply Hout; rewrite fmap_app; set_solver).
  unfold merge_left. wp_step. apply wp_assert_ptr; [done|]. wp_step. apply wp_assert_ptr; [done|].
  wp_step. eapply wp_can_merge_left; [done|done|exact Hn|exact Hl|done|].
  rewrite bool_decide_eq_true_2 by done. wp_step. apply wp_assert; [done|].
  wp_step. eapply wp_vn; [done..|]. wp_step. eapply wp_vupd; [done|exact Hl|]. simpl.
  destruct Hok as (Hb & Hs & Hend). destruct Hlok as (_ & Hls & _).
  eapply (wp_freenodes_put _ (xs ++ (pl, (l.1, l.2 + r.2)) :: ys) us fn p); [|done|..].
  - apply (vrep_payload s xs pl l); [|done]. intros ? ?. simpl. unfold n_set_size. simpl.
    rewrite u64_small; [done|]. unfold in_u64. lia.
  - by rewrite fmap_app in *.
  - simpl. rewrite lookup_alter_ne by done. exact Hn.
  - simpl. lia.
  - done.
  - intros s' Hs' Hfr Hrest. apply HQ; [done|by rewrite Hrest|].
    intros x Hx. rewrite fmap_app in Hx. rewrite Hfr by (clear -Hx; set_solver). simpl.
    apply lookup_alter_ne. intros ->. clear -Hx. set_solver.
Qed.

(** A region absorbed by its right neighbour. *)
Lemma wp_merge_right s xs pr q ys us fn p r (Q : unit -> vmm -> Prop) :
  vput s (xs ++ (pr, q) :: ys) us fn p r -> adj r q -> q.2 + r.2 < two64 ->
  (∀ s', vrep s' (xs ++ (pr, (r.1, q.2 + r.2)) :: ys) us (fn ++ [p]) -> vrest s' = vrest s ->
     untouched (p :: addrs (xs ++ (pr, q) :: ys) ++ fn) s s' -> Q tt s') ->
  wp (merge_right p pr) s Q.
Proof.
  intros [Hr Hp Hout (a & b & Hn) Hok Hregs] Hadj Hsz HQ.
  pose proof (dll_mid _ _ _ _ _ _ _ (vr_free _ _ _ _ Hr)) as (Hpl & _ & _ & Hl).
  assert (reg_ok q) as Hlok by (rewrite fmap_app in Hregs; by apply Forall_app in Hregs as [_ [? _]%Forall_cons]).
  assert (p ≠ pr) as Hne by (intros ->; apply Hout; rewrite fmap_app; set_solver).
  unfold merge_right. wp_step. apply wp_assert_ptr; [done|]. wp_step. apply wp_assert_ptr; [done|].
  wp_step. eapply wp_can_merge_right; [done|done|exact Hn|exact Hl|done|].
  rewrite bool_decide_eq_true_2 by done. wp_step. apply wp_assert; [done|].
  wp_step. eapply wp_vn; [done..|]. wp_step. eapply wp_vupd; [done|exact Hl|].
  wp_step. eapply wp_vupd; [done|simpl; by rewrite lookup_alter_eq, Hl|]. simpl.
  rewrite alter_alter_eq.
  pose proof (reg_ok_u64 _ Hok) as Hu1. destruct Hok as (Hb & Hs & Hend). destruct Hlok as (_ & Hls & _).
  eapply (wp_freenodes_put _ (xs ++ (pr, (r.1, q.2 + r.2)) :: ys) us fn p); [|done|..].
  - apply (vrep_payload s xs pr q); [|done]. intros ? ?. simpl. unfold n_set_size, n_set_base. simpl.
    unfold adj in Hadj. replace (q.1 - r.2) with r.1 by lia.
    pose proof kheapbase_pos. f_equal; rewrite u64_small; unfold in_u64; try done; lia.
  - by rewrite fmap_app in *.
  - simpl. rewrite lookup_alter_ne by done. exact Hn.
  - simpl. lia.
  - done.
  - intros s' Hs' Hfr Hrest. apply HQ; [done|by rewrite Hrest|].
    intros x Hx. rewrite fmap_app in Hx. rewrite Hfr by (clear -Hx; set_solver). simpl.
    apply lookup_alter_ne. intros ->. clear -Hx. set_solver.
Qed.

(** Taking a node out of the free list; its own fields are of no concern. *)
Lemma vrep_unlink_free s s2 xs p d ys us fn :
  vrep s (xs ++ (p, d) :: ys) us fn ->
  (∀ x, x ≠ p -> v_nodes s2 !! x = unlink p (last_or NULL xs) (hd_or NULL ys) (v_nodes s) !! x) ->
  freevmr_head s2 = hd_or NULL (xs ++ ys) ->
  (freevmr_tail s2 = NULL ∨ freevmr_tail s2 = last_or NULL (xs ++ ys)) ->
  (usedvmr_head s2, usedvmr_tail s2, freenodes_head s2, freenodes_tail s2) =
    (usedvmr_head s, usedvmr_tail s, freenodes_head s, freenodes_tail s) ->
  vrep s2 (xs ++ ys) us fn ∧ p ∉ addrs (xs ++ ys) ++ addrs us ++ fn.
Proof.
  intros [Hf Hu (H1 & H2 & H3 & H4) Hnd Htl] Hm Hh Ht2 [= E1 E2 E3 E4].
  rewrite fmap_app in Hnd. simpl in Hnd. rewrite <- app_assoc in Hnd. simpl in Hnd.
  rewrite <- Permutation_middle in Hnd. apply NoDup_cons in Hnd as [Hp Hnd].
  rewrite (app_assoc (addrs xs)), <- fmap_app in Hp, Hnd.
  assert (∀ x, x ∈ addrs us ++ fn -> v_nodes s2 !! x = v_nodes s !! x) as Hframe.
  { intros x Hx. rewrite Hm by (intros ->; apply Hp, elem_of_app; by right).
    eapply unlink_outside; [exact Hf|]. intros Hx'. apply NoDup_app in Hnd as (_ & Hd & _).
    by apply (Hd x Hx'). }
  split; [|done]. split; rewrite ?E1, ?E2, ?E3, ?E4; try done.
  - rewrite Hh. eapply dll_frame; [|by eapply dll_unlink].
    intros x Hx. apply Hm. intros ->. apply Hp, elem_of_app. by left.
  - eapply dll_frame; [|exact Hu]. intros x Hx. apply Hframe. set_solver.
  - split_and!; [done..|]. eapply sseg_frame; [|exact H4]. intros x Hx. apply Hframe. set_solver.
Qed.

(** A region that closes the gap between its two neighbours. *)
Lemma wp_concatenate s xs pl l pr q ys us fn p r (Q : unit -> vmm -> Prop) :
  vput s (xs ++ (pl, l) :: (pr, q) :: ys) us fn p r -> adj l r -> adj r q -> l.2 + (r.2 + q.2) < two64 ->
  (∀ s', vrep s' (xs ++ (pl, (l.1, l.2 + (r.2 + q.2))) :: ys) us (fn ++ [p; pr]) ->
     vrest s' = vrest s -> untouched (p :: addrs (xs ++ (pl, l) :: (pr, q) :: ys) ++ fn) s s' -> Q tt s') ->
  wp (concatenate pl p pr) s Q.
Proof.
  intros [Hr Hp Hout (a & b & Hn) Hok Hregs] Hadl Hadr Hsz HQ.
  set (l' := (l.1, l.2 + (r.2 + q.2))).
  pose proof (dll_mid _ _ _ _ _ _ _ (vr_free _ _ _ _ Hr)) as (Hpl & _ & Hply & Hl).
  assert (dll (v_nodes s) (freevmr_head s) (last_or NULL (xs ++ (pl, l) :: (pr, q) :: ys))
    ((xs ++ [(pl, l)]) ++ (pr, q) :: ys)) as Hf2 by (rewrite <- app_assoc; apply Hr).
  pose proof (dll_mid _ _ _ _ _ _ _ Hf2) as (Hpr & Hprx & Hpry & Hq).
  rewrite last_or_snoc in Hq. simpl in Hq, Hl.
  assert (reg_ok l ∧ reg_ok q) as [Hlok Hqok].
  { rewrite fmap_app in Hregs. by apply Forall_app in Hregs as [_ [? [? _]%Forall_cons]%Forall_cons]. }
  assert (p ≠ pl ∧ p ≠ pr ∧ p ∉ addrs ys) as (Hnl & Hnr & Hny).
  { rewrite fmap_app in Hout. simpl in Hout. set_solver. }
  assert (pl ≠ pr) as Hlr by (intros ->; simpl in Hply; set_solver).
  assert (pl ∉ addrs ys) as Hly by (simpl in Hply; set_solver).
  unfold concatenate. wp_step. unfold can_merge_both. wp_step.
  eapply wp_can_merge_left; [done|done|exact Hn|exact Hl|done|]. rewrite bool_decide_eq_true_2 by done.
  eapply wp_can_merge_right; [done|done|exact Hn|exact Hq|done|]. rewrite bool_decide_eq_true_2 by done.
  wp_step. apply wp_assert; [done|].
  wp_step. eapply wp_vn; [done..|]. wp_step. eapply wp_vn; [done..|]. simpl.
  wp_step. eapply wp_vupd; [done|exact Hl|].
  pose proof Hok as (Hb & Hs & Hend). destruct Hlok as (_ & Hls & _). pose proof Hqok as (Hqb & Hqs & _).
  set (f := λ g : node_t, n_set_size (u64 (n_size g + u64 (r.2 + q.2))) g).
  assert (vrep (set_nodes (alter f pl (v_nodes s)) s) (xs ++ (pl, l') :: (pr, q) :: ys) us fn) as Hr1.
  { apply (vrep_payload s xs pl l); [|done]. intros ? ?. unfold f, l'. simpl. unfold n_set_size. simpl.
    rewrite (u64_small (r.2 + q.2)), u64_small; [done|..]; unfold in_u64; lia. }
  set (s1 := set_nodes _ s) in *. set (nx := hd_or NULL ys) in *.
  assert (v_nodes s1 !! pr = Some (VNode q.1 nx pl q.2)) as Hq1.
  { simpl. by rewrite lookup_alter_ne. }
  assert (pr ≠ nx ∧ pl ≠ nx) as [Hprn Hpln].
  { unfold nx. destruct (decide (ys = [])) as [->|Hne]; [done|].
    split; intros E; [apply Hpry|apply Hly]; rewrite E; by apply hd_or_in. }
  assert (vrep s1 ((xs ++ [(pl, l')]) ++ (pr, q) :: ys) us fn) as Hr2 by (by rewrite <- app_assoc).
  wp_step. apply wp_if_prev; [eapply dll_next_live, (vr_free _ _ _ _ Hr2)|].
  wp_step. eapply wp_vn; [done|simpl; by rewrite put_prev_ne|]. cbn [n_next].
  wp_step. eapply wp_vupd; [done|simpl; rewrite put_prev_ne, lookup_alter_eq, Hl by done; done|].
  wp_step. apply (wp_mono _ _ (λ _ s2, v_nodes s2 = unlink pr pl nx (v_nodes s1) ∧
    freevmr_head s2 = freevmr_head s ∧ vrest s2 = vrest s ∧
    (freevmr_tail s2 = NULL ∨ freevmr_tail s2 = last_or pl ys) ∧
    (usedvmr_head s2, usedvmr_tail s2, freenodes_head s2, freenodes_tail s2) =
      (usedvmr_head s1, usedvmr_tail s1, freenodes_head s1, freenodes_tail s1))).
  { assert (alter (n_set_next nx) pl (put_prev nx pl (v_nodes s1)) = unlink pr pl nx (v_nodes s1)) as E.
    { unfold unlink. rewrite <- put_comm by (by left). unfold put_next. by rewrite decide_False. }
    cbn [v_nodes set_nodes]. rewrite E. apply wp_when; intros Hnx.
    - apply bool_decide_eq_true in Hnx. apply wp_modify. split_and!; [done..| |done]. right. simpl.
      assert (ys = []) as ->; [|done]. apply hd_or_null; [|done].
      destruct (vr_free _ _ _ _ Hr) as (_ & _ & _ & Hnull & _). rewrite fmap_app in Hnull. set_solver.
    - apply bool_decide_eq_false in Hnx. split_and!; [done..| |done]. simpl.
      destruct (vr_tail _ _ _ _ Hr) as [?|E']; [by left|right]. rewrite E', last_or_app. simpl.
      destruct ys; [done|]. done. }
  intros _ s2 (E1 & E2 & E3 & E5 & E4).
  destruct (vrep_unlink_free s1 s2 _ _ _ _ _ _ Hr2) as [Hr3 Hprout]; [|..|exact E4|].
  { intros x _. by rewrite E1, last_or_snoc. }
  { rewrite E2. destruct (vr_free _ _ _ _ Hr2) as [E _]. simpl in E. rewrite E. by destruct xs. }
  { by rewrite !last_or_app. }
  assert (∀ x, x ∉ addrs ((xs ++ [(pl, l')]) ++ ys) -> v_nodes s2 !! x = v_nodes s1 !! x) as Hm.
  { intros x Hx. rewrite E1. pose proof (unlink_outside _ _ _ _ _ _ _ x (vr_free _ _ _ _ Hr2) Hx) as E.
    by rewrite last_or_snoc in E. }
  rewrite <- app_assoc in Hr3, Hprout, Hm. simpl in Hr3, Hprout.
  assert (p ∉ addrs (xs ++ (pl, l') :: ys) ++ addrs us ++ fn) as Hout2.
  { rewrite fmap_app in *. simpl in *. clear -Hout. set_solver. }
  wp_step. eapply (wp_freenodes_put s2 _ us fn p); [exact Hr3|done|done|..].
  { rewrite Hm by (by apply not_elem_of_app in Hout2 as [? _]). simpl. rewrite lookup_alter_ne by done. exact Hn. }
  { simpl. lia. }
  { done. }
  intros s3 Hr4 Hm3 Hrest3.
  eapply (wp_freenodes_put s3 _ us (fn ++ [p]) pr); [exact Hr4|done| |..].
  { revert Hprout. rewrite !not_elem_of_app, list_elem_of_singleton. clear -Hnr. naive_solver. }
  { apply not_elem_of_app in Hprout as [? [_ ?]%not_elem_of_app]. rewrite Hm3, Hm; done. }
  { simpl. lia. }
  { done. }
  intros s4 Hr5 Hm4 Hrest4. apply HQ; [by rewrite <- app_assoc in Hr5|by rewrite Hrest4, Hrest3|].
  intros x Hx. rewrite fmap_app in Hx. simpl in Hx.
  assert (x ≠ p ∧ x ≠ pr ∧ x ≠ pl ∧ x ∉ addrs xs ∧ x ∉ addrs ys ∧ x ∉ fn) as (X1 & X2 & X3 & X4 & X5 & X6)
    by (clear -Hx; set_solver).
  rewrite Hm4, Hm3, Hm; [simpl; by rewrite lookup_alter_ne|..]; try done.
  - rewrite fmap_app. clear -X3 X4 X5. set_solver.
  - clear -X1 X6. set_solver.
Qed.

(** Putting a node between two neighbours of the free list. *)
Lemma vrep_link_free s s2 xs p r ys us fn :
  vrep s (xs ++ ys) us fn -> p ≠ NULL -> p ∉ addrs (xs ++ ys) ++ addrs us ++ fn ->
  v_nodes s2 !! p = Some (l_mk (last_or NULL xs) r (hd_or NULL ys)) ->
  (∀ x, x ≠ p -> v_nodes s2 !! x = put_prev (hd_or NULL ys) p (put_next (last_or NULL xs) p (v_nodes s)) !! x) ->
  freevmr_head s2 = hd_or p xs ->
  (freevmr_tail s2 = NULL ∨ freevmr_tail s2 = last_or p ys) ->
  (usedvmr_head s2, usedvmr_tail s2, freenodes_head s2, freenodes_tail s2) =
    (usedvmr_head s, usedvmr_tail s, freenodes_head s, freenodes_tail s) ->
  vrep s2 (xs ++ (p, r) :: ys) us fn.
Proof.
  intros [Hf Hu (H1 & H2 & H3 & H4) Hnd Htl] Hp Hout Hmp Hmx Hh Ht2 [= E1 E2 E3 E4].
  assert (∀ x, v_nodes s2 !! x = link p r (last_or NULL xs) (hd_or NULL ys) (v_nodes s) !! x) as Hm.
  { intros x. unfold link. destruct (decide (x = p)) as [->|Hx]; [by rewrite lookup_insert_eq|].
    rewrite lookup_insert_ne by done. by apply Hmx. }
  assert (∀ x, x ∈ addrs us ++ fn -> v_nodes s2 !! x = v_nodes s !! x) as Hframe.
  { intros x Hx. rewrite Hm. eapply link_outside; [exact Hf|]. intros Hx'.
    apply NoDup_app in Hnd as (_ & Hd & _). rewrite fmap_app in Hx'. simpl in Hx'.
    apply elem_of_app in Hx' as [Hx'|[->|Hx']%elem_of_cons].
    - apply (Hd x); [rewrite fmap_app; set_solver|done].
    - apply Hout, elem_of_app. by right.
    - apply (Hd x); [rewrite fmap_app; set_solver|done]. }
  split; rewrite ?E1, ?E2, ?E3, ?E4.
  - rewrite Hh. assert (last_or NULL (xs ++ (p, r) :: ys) = last_or p ys) as -> by (by rewrite last_or_app).
    eapply dll_frame; [|eapply dll_link; [exact Hf|done|set_solver]]. intros x Hx. apply Hm.
  - eapply dll_frame; [|exact Hu]. intros x Hx. apply Hframe. set_solver.
  - split_and!; [done..|]. eapply sseg_frame; [|exact H4]. intros x Hx. apply Hframe. set_solver.
  - rewrite fmap_app. simpl. rewrite <- app_assoc. simpl. rewrite <- Permutation_middle.
    rewrite (app_assoc (addrs xs)), <- fmap_app. by apply NoDup_cons.
  - by rewrite last_or_app.
Qed.

Lemma wp_freevmr_find fuel s fr tl b xs ys (Q : ptr * ptr -> vmm -> Prop) :
  dll (v_nodes s) (freevmr_head s) tl fr -> fr = xs ++ ys -> (length ys < fuel)%nat ->
  Forall (λ x, x.1 < b) xs.*2 ->
  (∀ xs' ys', fr = xs' ++ ys' -> Forall (λ x, x.1 < b) xs'.*2 ->
     (∀ q, head ys'.*2 = Some q -> b <= q.1) -> Q (last_or NULL xs', hd_or NULL ys') s) ->
  wp (freevmr_find fuel b (last_or NULL xs) (hd_or NULL ys)) s Q.
Proof.
  intros Hd. revert xs ys. induction fuel as [|fuel IH]; intros xs ys E Hf Hlo HQ; [lia|].
  destruct ys as [|[p r] ys]; simpl.
  - apply wp_ret. by apply (HQ xs []).
  - rewrite E in Hd. pose proof (dll_mid _ _ _ _ _ _ _ Hd) as (Hp & _ & _ & Hm).
    rewrite decide_False by done. wp_step. eapply wp_vn; [done..|]. simpl. case_decide as Hlt.
    + replace p with (last_or NULL (xs ++ [(p, r)])) by apply last_or_snoc.
      apply IH; [by rewrite <- app_assoc|simpl in Hf; lia| |done].
      rewrite fmap_app. apply Forall_app. split; [done|]. by repeat constructor.
    + apply wp_ret. apply (HQ xs ((p, r) :: ys)); [done..|]. intros q [= <-]. lia.
Qed.

Lemma last_split (xs : rlist) : xs ≠ [] -> ∃ xs' p r, xs = xs' ++ [(p, r)].
Proof. intros Hne. destruct (exists_last Hne) as (xs' & [p r] & ->). by eauto. Qed.

(** Lookups in a chain of field updates, by cases on the address. *)
Ltac solve_lookups :=
  cbn [v_nodes set_nodes set_freevmr_tail set_freevmr_head];
  unfold put_prev, put_next; repeat (case_decide; try done); rewrite ?lookup_alter;
  repeat (case_decide; subst; try done).

(** The end of [freevmr_put] when the node merges with nothing. *)
Lemma wp_put_link s xs ys us fn p r (Q : unit -> vmm -> Prop) :
  vput s (xs ++ ys) us fn p r -> xs ≠ [] ∨ ys ≠ [] ->
  (∀ s', vrep s' (xs ++ (p, r) :: ys) us fn -> vrest s' = vrest s ->
     untouched (p :: addrs (xs ++ ys) ++ fn) s s' -> Q tt s') ->
  let left := last_or NULL xs in
  let right := hd_or NULL ys in
  (xs ≠ [] -> ys ≠ [] -> wp (vupd p (n_set_prev left);; vupd p (n_set_next right);;
     vupd left (n_set_next p);; vupd right (n_set_prev p)) s Q) ∧
  (xs ≠ [] -> ys = [] -> wp (freevmr_linkto_left p left) s Q) ∧
  (xs = [] -> ys ≠ [] -> wp (freevmr_linkto_right p right) s Q).
Proof.
  intros [Hr Hp Hout (a & b & Hn) Hok Hregs] Hor HQ left right.
  assert (xs ≠ [] -> left ≠ p ∧ left ≠ NULL ∧ ∃ l c, v_nodes s !! left = Some (l_mk c l right)) as Hleft.
  { intros Hne. destruct (last_split xs Hne) as (xs' & pl & l & ->). unfold left. rewrite last_or_snoc. simpl.
    pose proof (vr_free _ _ _ _ Hr) as Hf. rewrite <- app_assoc in Hf. simpl in Hf.
    pose proof (dll_mid _ _ _ _ _ _ _ Hf) as (? & _ & _ & Hl). split_and!; [|done|exists l, (last_or NULL xs'); exact Hl].
    intros ->. apply Hout. rewrite !fmap_app. set_solver. }
  assert (ys ≠ [] -> right ≠ p ∧ right ≠ NULL ∧ ∃ q d, v_nodes s !! right = Some (l_mk left q d)) as Hright.
  { intros Hne. destruct ys as [|[pr q] ys]; [done|]. unfold right. simpl.
    pose proof (dll_mid _ _ _ _ _ _ _ (vr_free _ _ _ _ Hr)) as (? & _ & _ & Hl). split_and!; [|done|exists q, (hd_or NULL ys); exact Hl].
    intros ->. apply Hout. rewrite !fmap_app. set_solver. }
  assert (∀ x, x ∉ p :: addrs (xs ++ ys) ++ fn -> x ≠ p ∧ (xs ≠ [] -> x ≠ left) ∧ (ys ≠ [] -> x ≠ right)) as Huu.
  { intros x Hx. rewrite fmap_app in Hx. split_and!; [clear -Hx; set_solver|intros Hne ->|intros Hne ->].
    - apply (last_or_in NULL) in Hne. fold left in Hne. clear -Hx Hne. set_solver.
    - apply (hd_or_in NULL) in Hne. fold right in Hne. clear -Hx Hne. set_solver. }
  assert (xs ≠ [] -> ys ≠ [] -> left ≠ right) as Hlr.
  { intros Hx Hy E. pose proof (vr_nodup _ _ _ _ Hr) as (Hnd & _ & _)%NoDup_app. rewrite fmap_app in Hnd.
    apply NoDup_app in Hnd as (_ & Hd & _). apply (Hd left); [by apply last_or_in|].
    rewrite E. by apply hd_or_in. }
  assert (Hhead := vr_free _ _ _ _ Hr). destruct Hhead as [Hhead _].
  split_and!; intros Hx Hy.
  - destruct (Hleft Hx) as (Hl1 & Hl2 & l & c & Hl). destruct (Hright Hy) as (Hr1 & Hr2 & q & d & Hq).
    specialize (Hlr Hx Hy).
    wp_step. eapply wp_vupd; [done..|]. wp_step. eapply wp_vupd; [done|simpl; by rewrite lookup_alter_eq, Hn|].
    wp_step. eapply wp_vupd; [done|simpl; rewrite !lookup_alter_ne by done; done|].
    eapply wp_vupd; [done|simpl; rewrite !lookup_alter_ne by done; done|]. simpl.
    apply HQ; [|done|intros x (? & ? & ?)%Huu; simpl; rewrite !lookup_alter_ne by (symmetry; auto); done].
    eapply vrep_link_free; [exact Hr|done|done| |..|simpl; rewrite Hhead; by destruct xs| |done].
    + simpl. rewrite !lookup_alter_ne, !lookup_alter_eq, Hn by done. done.
    + intros x Hxp. fold left right. clear -Hxp Hl2 Hr2. generalize dependent left. generalize dependent right.
      intros. solve_lookups.
    + simpl. destruct (vr_tail _ _ _ _ Hr) as [?|E]; [by left|right]. rewrite E, last_or_app. by destruct ys.
  - destruct (Hleft Hx) as (Hl1 & Hl2 & l & c & Hl). subst ys.
    unfold freevmr_linkto_left. wp_step. apply wp_assert_ptr; [done|]. wp_step. apply wp_assert_ptr; [done|].
    wp_step. eapply wp_vn; [done..|]. simpl n_next.
    wp_step. eapply wp_vupd; [done..|]. rewrite decide_False by naive_solver.
    wp_step. wp_step. wp_step. eapply wp_vupd; [done|simpl; by rewrite lookup_alter_eq, Hn|].
    wp_step. eapply wp_vupd; [done|simpl; rewrite !lookup_alter_ne by done; done|].
    eapply wp_vupd; [done|simpl; rewrite lookup_alter_ne, !lookup_alter_eq, Hn by done; done|].
    apply HQ; [|done|intros x (? & ? & ?)%Huu; simpl; rewrite !lookup_alter_ne by (symmetry; auto); done].
    eapply vrep_link_free; [exact Hr|done|done| |..|simpl; rewrite Hhead; by destruct xs| |done].
    + simpl. rewrite lookup_alter_eq, lookup_alter_ne, !lookup_alter_eq, Hn by done. done.
    + intros x Hxp. fold left. clear -Hxp Hl2. generalize dependent left. intros. solve_lookups.
    + by right.
  - destruct (Hright Hy) as (Hr1 & Hr2 & q & d & Hq). subst xs.
    unfold freevmr_linkto_right. wp_step. apply wp_assert_ptr; [done|]. wp_step. apply wp_assert_ptr; [done|].
    wp_step. eapply wp_vn; [done..|]. simpl n_prev.
    wp_step. eapply wp_vupd; [done..|]. rewrite decide_False by naive_solver.
    wp_step. wp_step. wp_step. eapply wp_vupd; [done|simpl; by rewrite lookup_alter_eq, Hn|].
    wp_step. eapply wp_vupd; [done|simpl; rewrite !lookup_alter_ne by done; done|].
    eapply wp_vupd; [done|simpl; rewrite lookup_alter_ne, !lookup_alter_eq, Hn by done; done|].
    apply HQ; [|done|intros x (? & ? & ?)%Huu; simpl; rewrite !lookup_alter_ne by (symmetry; auto); done].
    eapply (vrep_link_free s _ []); [exact Hr|done|done| |..|done| |done].
    + simpl. rewrite lookup_alter_eq, lookup_alter_ne, !lookup_alter_eq, Hn by done. done.
    + intros x Hxp. fold right. clear -Hxp Hr2. generalize dependent right. intros. solve_lookups.
    + simpl. destruct (vr_tail _ _ _ _ Hr) as [?|E]; [by left|right]. rewrite E. by destruct ys.
Qed.

Definition by_base (fr : rlist) : Prop := StronglySorted Z.lt fr.*2.*1.

Lemma by_base_app xs ys :
  by_base (xs ++ ys) -> by_base xs ∧ by_base ys ∧ ∀ x y, x ∈ xs.*2 -> y ∈ ys.*2 -> x.1 < y.1.
Proof.
  unfold by_base. rewrite !fmap_app. intros Hs.
  split_and!; [by eapply StronglySorted_app_1_l|by eapply StronglySorted_app_1_r|].
  intros x y Hx Hy. eapply StronglySorted_app_1_elem_of; [done|by apply list_elem_of_fmap_2..].
Qed.

Lemma by_base_tail_ge ys b :
  by_base ys -> (∀ q, head ys.*2 = Some q -> b <= q.1) -> Forall (λ x, b <= x.1) ys.*2.
Proof.
  intros Hs Hh. destruct ys as [|[p q] ys]; [constructor|]. specialize (Hh q eq_refl).
  unfold by_base in Hs. simpl in *. apply StronglySorted_inv in Hs as [_ Hall].
  constructor; [done|]. apply Forall_forall. intros x Hx.
  pose proof (proj1 (Forall_forall _ _) Hall x.1 ltac:(by apply list_elem_of_fmap_2)). simpl in *. lia.
Qed.

(** Neighbouring regions fit together without overflow. *)
Lemma adj_size l r : reg_ok l -> reg_ok r -> adj l r -> l.2 + r.2 < two64.
Proof. unfold reg_ok, adj. pose proof kheapbase_pos. lia. Qed.

Lemma last_region (xs : rlist) p r : last (xs ++ [(p, r)]).*2 = Some r.
Proof. rewrite fmap_app. apply last_snoc. Qed.

Definition free_put (fr : rlist) (p : ptr) (r : region) (fr' : rlist) (rel : list ptr) : Prop :=
  ∃ xs ys, fr = xs ++ ys ∧ Forall (λ x, x.1 < r.1) xs.*2 ∧ Forall (λ x, r.1 <= x.1) ys.*2 ∧
    put_free p r xs ys fr' rel.

(** The choice [freevmr_put] makes between its two neighbours. *)
Lemma wp_put_between s xs ys us fn p r (Q : unit -> vmm -> Prop) :
  vput s (xs ++ ys) us fn p r -> xs ≠ [] ∨ ys ≠ [] ->
  (∀ s' fr' rel, put_free p r xs ys fr' rel -> vrep s' fr' us (fn ++ rel) -> vrest s' = vrest s ->
     untouched (p :: addrs (xs ++ ys) ++ fn) s s' -> Q tt s') ->
  let left := last_or NULL xs in
  let right := hd_or NULL ys in
  wp (if decide (left ≠ NULL ∧ right ≠ NULL) then
        both ← can_merge_both left p right;
        if (both : bool) then concatenate left p right else
        l ← can_merge_left p left;
        if (l : bool) then merge_left p left else
        r ← can_merge_right p right;
        if (r : bool) then merge_right p right else
        vupd p (n_set_prev left);; vupd p (n_set_next right);;
        vupd left (n_set_next p);; vupd right (n_set_prev p)
      else if decide (left ≠ NULL) then
        l ← can_merge_left p left;
        if (l : bool) then merge_left p left else freevmr_linkto_left p left
      else if decide (right ≠ NULL) then
        r ← can_merge_right p right;
        if (r : bool) then merge_right p right else freevmr_linkto_right p right
      else halt Panic) s Q.
Proof.
  intros Hv Hor HQ left right. pose proof Hv as [Hr Hp Hout (a & b & Hn) Hok Hregs].
  assert (∀ s', vrep s' (xs ++ (p, r) :: ys) us fn -> vrest s' = vrest s -> untouched (p :: addrs (xs ++ ys) ++ fn) s s' ->
    (∀ l, last xs.*2 = Some l -> ¬ adj l r) -> (∀ q, head ys.*2 = Some q -> ¬ adj r q) -> Q tt s') as Hlink.
  { intros s' Hs' Hrest Hun H1 H2. eapply (HQ s' _ []); [by constructor|by rewrite app_nil_r|done|done]. }
  rewrite fmap_app, Forall_app in Hregs. destruct Hregs as [Hrx Hry].
  destruct (decide (xs = [])) as [->|Hxs]; [|destruct (last_split xs Hxs) as (xs' & pl & l & ->)];
  (destruct ys as [|[pr q] ys]; [|apply Forall_cons in Hry as [Hqok _]]).
  - by destruct Hor.
  - unfold left, right. cbn [hd_or last_or fst]. pose proof (dll_mid _ _ _ [] _ _ _ (vr_free _ _ _ _ Hr)) as (Hpr & _ & _ & Hq).
    rewrite decide_False by (by intros [? _]). rewrite decide_False by (by intros ?). rewrite decide_True by done.
    wp_step. eapply wp_can_merge_right; [done|done|exact Hn|exact Hq|done|]. case_bool_decide as Hadj.
    + eapply (wp_merge_right s []); [exact Hv|done|rewrite Z.add_comm; by apply adj_size|].
      intros s' Hs' Hrest Hun. eapply (HQ s'); [by apply (pf_right _ _ [])|done|done|done].
    + assert (Hlk := wp_put_link s [] ((pr, q) :: ys) us fn p r Q). apply Hlk; [done|by right| |done|done].
      intros s' Hs' Hrest Hun. apply (Hlink s'); [done|done|done|done|]. simpl. intros q' [= <-]. done.
  - assert (reg_ok l) as Hlok by (rewrite fmap_app in Hrx; by apply Forall_app in Hrx as [_ [? _]%Forall_cons]).
    assert (vput s (xs' ++ (pl, l) :: []) us fn p r) as Hv2 by (by rewrite app_nil_r in Hv).
    pose proof (dll_mid _ _ _ _ _ _ _ (vr_free _ _ _ _ (vp_rep _ _ _ _ _ _ Hv2))) as (Hpl & _ & _ & Hl).
    unfold left, right. rewrite last_or_snoc. cbn [hd_or fst].
    rewrite decide_False by (by intros [_ ?]). rewrite decide_True by done.
    wp_step. eapply wp_can_merge_left; [done|done|exact Hn|exact Hl|done|]. case_bool_decide as Hadj.
    + eapply (wp_merge_left s xs'); [exact Hv2|done|by apply adj_size|].
      intros s' Hs' Hrest Hun. eapply (HQ s'); [by apply pf_left|done|done|by rewrite app_nil_r].
    + assert (Hlk := wp_put_link s (xs' ++ [(pl, l)]) [] us fn p r Q). rewrite last_or_snoc in Hlk.
      apply Hlk; [done|by left| |done|done].
      intros s' Hs' Hrest Hun. apply (Hlink s'); [done|done|done| |done].
      rewrite last_region. by intros ? [= <-].
  - assert (reg_ok l) as Hlok by (rewrite fmap_app in Hrx; by apply Forall_app in Hrx as [_ [? _]%Forall_cons]).
    assert (vput s (xs' ++ (pl, l) :: (pr, q) :: ys) us fn p r) as Hv2 by (by rewrite <- app_assoc in Hv).
    pose proof (dll_mid _ _ _ _ _ _ _ (vr_free _ _ _ _ (vp_rep _ _ _ _ _ _ Hv2))) as (Hpl & _ & _ & Hl).
    pose proof (dll_mid _ _ _ _ _ _ _ (vr_free _ _ _ _ Hr)) as (Hpr & _ & _ & Hq).
    unfold left, right. rewrite last_or_snoc. cbn [hd_or fst]. rewrite decide_True by done.
    wp_step. unfold can_merge_both. wp_step.
    eapply wp_can_merge_left; [done|done|exact Hn|exact Hl|done|].
    case_bool_decide as Hal; [eapply wp_can_merge_right; [done|done|exact Hn|exact Hq|done|];
      case_bool_decide as Har|apply wp_ret].
    + eapply (wp_concatenate s xs'); [exact Hv2|done|done| |].
      { unfold reg_ok, adj in *. simpl in Hqok. pose proof kheapbase_pos. lia. }
      intros s' Hs' Hrest Hun. eapply (HQ s'); [by apply pf_both|done|done|by rewrite <- app_assoc].
    + wp_step. eapply wp_can_merge_left; [done|done|exact Hn|exact Hl|done|].
      rewrite bool_decide_eq_true_2 by done.
      eapply (wp_merge_left s xs'); [exact Hv2|done|by apply adj_size|].
      intros s' Hs' Hrest Hun. eapply (HQ s'); [apply pf_left; [done|]|done|done|by rewrite <- app_assoc]. by intros ? [= <-].
    + wp_step. eapply wp_can_merge_left; [done|done|exact Hn|exact Hl|done|].
      rewrite bool_decide_eq_false_2 by done.
      wp_step. eapply wp_can_merge_right; [done|done|exact Hn|exact Hq|done|]. case_bool_decide as Har.
      * eapply (wp_merge_right s (xs' ++ [(pl, l)])); [exact Hv|done|rewrite Z.add_comm; by apply adj_size|].
        intros s' Hs' Hrest Hun. eapply (HQ s'); [apply pf_right; [|done]|done|done|done].
        rewrite last_region. by intros ? [= <-].
      * assert (Hlk := wp_put_link s (xs' ++ [(pl, l)]) ((pr, q) :: ys) us fn p r Q). rewrite last_or_snoc in Hlk.
        apply Hlk; [done|by left| |by destruct xs'|done].
        intros s' Hs' Hrest Hun. apply (Hlink s'); [done|done|done| |].
        -- rewrite last_region. by intros ? [= <-].
        -- by intros ? [= <-].
Qed.

Lemma wp_freevmr_put s fr us fn p r (Q : unit -> vmm -> Prop) :
  vput s fr us fn p r -> by_base fr ->
  (∀ s' fr' rel, free_put fr p r fr' rel -> vrep s' fr' us (fn ++ rel) -> vrest s' = vrest s ->
     untouched (p :: addrs fr ++ fn) s s' -> Q tt s') ->
  wp (freevmr_put p) s Q.
Proof.
  intros Hv Hsort HQ. pose proof Hv as [Hr Hp Hout (a & b & Hn) Hok Hregs].
  unfold freevmr_put. wp_step. apply wp_assert_ptr; [done|]. wp_step. eapply wp_vn; [done..|].
  pose proof Hok as (Hb & Hs & _).
  wp_step. apply wp_assert; [apply bool_decide_eq_true; simpl; lia|].
  wp_step. apply wp_assert; [apply bool_decide_eq_true; simpl; lia|].
  wp_step. eapply wp_vupd; [done..|].
  wp_step. eapply wp_vupd; [done|simpl; by rewrite lookup_alter_eq, Hn|].
  cbn [v_nodes set_nodes]. rewrite alter_alter_eq. set (m1 := alter _ p (v_nodes s)).
  set (s1 := set_nodes _ _).
  assert (vput s1 fr us fn p r) as Hv1.
  { split; try done.
    - apply (vrep_frame s m1); [|done]. intros x Hx. unfold m1. rewrite lookup_alter_ne; [done|]. by intros ->.
    - exists NULL, NULL. simpl. unfold m1. by rewrite lookup_alter_eq, Hn. }
  pose proof (vr_free _ _ _ _ (vp_rep _ _ _ _ _ _ Hv1)) as Hf.
  wp_step. wp_step. change (freevmr_head s1) with (freevmr_head s). pose proof Hf as (Hh & _ & _ & Hnull & _).
  simpl in Hh. case_decide as Hhd.
  - assert (fr = []) as -> by (apply hd_or_null; [done|by rewrite <- Hh]).
    wp_step. wp_step. wp_step. eapply (HQ _ [(p, r)] []).
    + exists [], []. split_and!; [done|constructor|constructor|]. by apply pf_link.
    + rewrite app_nil_r. destruct Hv1 as [Hr1 _ Hout1 (c & d & Hn1) _ _].
      eapply (vrep_link_free s1 _ [] p r []); [exact Hr1|done|done| |..|done|by right|done]; [|done].
      simpl. unfold m1. by rewrite lookup_alter_eq, Hn.
    + done.
    + intros x Hx. simpl. unfold m1. rewrite lookup_alter_ne; [done|]. intros ->. apply Hx. left.
  - wp_step. unfold node_fuel. wp_step. wp_step. simpl n_base.
    replace (freevmr_head s) with (hd_or NULL fr) by done.
    apply (wp_freevmr_find _ s1 fr (last_or NULL fr) r.1 [] fr); [done|done| |constructor|].
    { apply Nat.lt_succ_r. exact (dll_length _ _ _ _ Hf). }
    intros xs ys E Hlo Hhi. cbn [fst snd]. subst fr. apply (wp_put_between s1 xs ys us fn p r).
    + done.
    + destruct xs; [|by left]. destruct ys; [|by right]. done.
    + intros s' fr' rel Hpf Hs' Hrest Hun. eapply HQ; [|done|done|].
      2: { intros x Hx. rewrite Hun by done. simpl. unfold m1. rewrite lookup_alter_ne; [done|].
           intros ->. apply Hx. left. }
      exists xs, ys. split_and!; [done..| |done].
      apply by_base_app in Hsort as (_ & Hys & _). by apply by_base_tail_ge.
Qed.

(** ** First fit *)

Lemma wp_freevmr_fit fuel s fr tl sz xs ys (Q : ptr -> vmm -> Prop) :
  dll (v_nodes s) (freevmr_head s) tl fr -> fr = xs ++ ys -> (length ys < fuel)%nat ->
  Forall (λ x, x.2 < sz) xs.*2 ->
  (Forall (λ x, x.2 < sz) fr.*2 -> Q NULL s) ->
  (∀ xs' p r ys', fr = xs' ++ (p, r) :: ys' -> Forall (λ x, x.2 < sz) xs'.*2 -> sz <= r.2 -> Q p s) ->
  wp (freevmr_fit fuel sz (hd_or NULL ys)) s Q.
Proof.
  intros Hd. revert xs ys. induction fuel as [|fuel IH]; intros xs ys E Hf Hlo HN HS; [lia|].
  destruct ys as [|[p r] ys]; simpl.
  - apply wp_ret, HN. by rewrite E, app_nil_r.
  - rewrite E in Hd. pose proof (dll_mid _ _ _ _ _ _ _ Hd) as (Hp & _ & _ & Hm).
    rewrite decide_False by done. wp_step. eapply wp_vn; [done..|]. simpl. case_decide as Hge.
    + apply wp_ret. eapply (HS xs p r ys); [done..|lia].
    + apply (IH (xs ++ [(p, r)])); [by rewrite <- app_assoc|simpl in Hf; lia| |done|done].
      rewrite fmap_app. apply Forall_app. split; [done|]. repeat constructor. simpl. lia.
Qed.

Lemma unlink_twice (m : gmap ptr node_t) a b : put_prev b a (put_prev b a m) = put_prev b a m.
Proof.
  unfold put_prev. case_decide; [done|]. rewrite alter_alter_eq. apply map_eq. intros x.
  rewrite !lookup_alter. case_decide; [|done]. by destruct (m !! b).
Qed.

Lemma wp_freevmr_get s fr us fn sz (Q : ptr -> vmm -> Prop) :
  vrep s fr us fn -> sz ≠ 0 -> Z.land sz PAGEMASK = 0 ->
  (Forall (λ x, x.2 < sz) fr.*2 -> Q NULL s) ->
  (∀ s' xs p r ys, fr = xs ++ (p, r) :: ys -> Forall (λ x, x.2 < sz) xs.*2 -> sz <= r.2 -> p ≠ NULL ->
     vrep s' (xs ++ ys) us fn -> p ∉ addrs (xs ++ ys) ++ addrs us ++ fn ->
     v_nodes s' !! p = Some (VNode r.1 NULL NULL r.2) -> vrest s' = vrest s -> Q p s') ->
  wp (freevmr_get sz) s Q.
Proof.
  intros Hr Hsz Hal HN HS. pose proof (vr_free _ _ _ _ Hr) as Hf. pose proof Hf as (Hh & _ & Hnd & Hnull & _).
  unfold freevmr_get. wp_step. apply wp_assert; [by apply bool_decide_eq_true|].
  wp_step. apply wp_assert; [by apply bool_decide_eq_true|]. wp_step. wp_step. rewrite Hh.
  case_decide as Hemp.
  { apply wp_ret, HN. apply hd_or_null in Hemp; [|done]. subst fr. constructor. }
  wp_step. unfold node_fuel. wp_step. wp_step.
  apply (wp_freevmr_fit _ s fr (last_or NULL fr) sz [] fr); [done|done| |constructor|..].
  { apply Nat.lt_succ_r. exact (dll_length _ _ _ _ Hf). }
  { intros Hall. rewrite decide_True by done. apply wp_ret. by apply HN. }
  intros xs p r ys -> Hxs Hge. pose proof (dll_mid _ _ _ _ _ _ _ Hf) as (Hp & Hpx & Hpy & Hm).
  rewrite decide_False by done. wp_step. eapply wp_vn; [done|exact Hm|]. cbn [n_next n_prev l_mk linked_vnode].
  set (nx := hd_or NULL ys) in *. set (pv := last_or NULL xs) in *.
  assert (nx ≠ p) as Hnx by (intros E; destruct ys as [|y ys]; [done|]; apply Hpy; rewrite <- E; by apply hd_or_in).
  assert (pv ≠ p) as Hpv.
  { intros E. destruct (decide (xs = [])) as [->|Hne]; [done|]. apply Hpx. rewrite <- E. by apply last_or_in. }
  wp_step. eapply wp_vupd; [done|exact Hm|].
  wp_step. eapply wp_vupd; [done|simpl; by rewrite lookup_alter_eq, Hm|].
  cbn [v_nodes set_nodes]. rewrite alter_alter_eq. set (m1 := alter _ p (v_nodes s)).
  assert (∀ x, is_Some (v_nodes s !! x) -> is_Some (m1 !! x)) as Hlive.
  { intros x Hx. unfold m1. by apply lookup_alter_is_Some. }
  pose proof (dll_last_live _ _ _ _ _ Hf) as Hlp. pose proof (dll_next_live _ _ _ _ _ _ Hf) as Hln.
  fold nx in Hln. fold pv in Hlp.
  wp_step. apply wp_if_next; [simpl; naive_solver|]. cbn [v_nodes set_nodes].
  assert (∀ x, is_Some (v_nodes s !! x) -> is_Some (put_next pv nx m1 !! x)) as Hlive2.
  { intros x Hx. unfold put_next. case_decide; [by apply Hlive|]. by apply lookup_alter_is_Some, Hlive. }
  assert (∀ x, is_Some (v_nodes s !! x) -> is_Some (put_prev nx pv (put_next pv nx m1) !! x)) as Hlive3.
  { intros x Hx. unfold put_prev. case_decide; [by apply Hlive2|]. by apply lookup_alter_is_Some, Hlive2. }
  set (m3 := put_prev nx pv (put_next pv nx m1)) in *.
  wp_step. wp_step. cbn [freevmr_head set_nodes]. rewrite Hh.
  wp_step. apply (wp_mono _ _ (λ _ s3, ∃ m2, s3 = set_freevmr_head (hd_or NULL (xs ++ ys)) (set_nodes m2 s) ∧
    put_prev nx pv m2 = m3 ∧ (∀ x, is_Some (v_nodes s !! x) -> is_Some (m2 !! x)))).
  { apply wp_when; intros Hd; [apply bool_decide_eq_true in Hd|apply bool_decide_eq_false in Hd].
    - assert (xs = []) as ->.
      { destruct xs as [|[q r'] xs]; [done|]. simpl in Hd. subst q. exfalso. apply Hpx. simpl. left. }
      wp_step. wp_step. apply wp_if_prev; [simpl; naive_solver|]. exists m3.
      split_and!; [done|apply unlink_twice|done].
    - exists (put_next pv nx m1). split_and!; [|done|done]. destruct xs as [|[q r'] xs]; [done|].
      rewrite hd_or_app in Hh. simpl in *. destruct s; simpl in *. by subst. }
  intros _ s3 (m2 & -> & Hm2 & Hlive4).
  wp_step. apply wp_if_prev; [simpl; naive_solver|]. cbn [v_nodes set_nodes set_freevmr_head]. rewrite Hm2.
  wp_step. wp_step. cbn [freevmr_tail set_nodes set_freevmr_head].
  wp_step. apply (wp_mono _ _ (λ _ s4, v_nodes s4 = m3 ∧ freevmr_head s4 = hd_or NULL (xs ++ ys) ∧
    (freevmr_tail s4 = NULL ∨ freevmr_tail s4 = last_or NULL (xs ++ ys)) ∧ vrest s4 = vrest s ∧
    (usedvmr_head s4, usedvmr_tail s4, freenodes_head s4, freenodes_tail s4) =
      (usedvmr_head s, usedvmr_tail s, freenodes_head s, freenodes_tail s))).
  { apply wp_when; intros Hd; [apply bool_decide_eq_true in Hd|apply bool_decide_eq_false in Hd].
    - assert (ys = []) as ->.
      { destruct (vr_tail _ _ _ _ Hr) as [E|E]; rewrite E in Hd; [done|]. rewrite last_or_app in Hd. simpl in Hd.
        destruct ys as [|y ys]; [done|]. exfalso. apply Hpy. rewrite <- Hd. by apply last_or_in. }
      wp_step. wp_step. apply wp_if_next; [by left|]. unfold put_next, nx. simpl. split_and!; try done. by left.
    - split_and!; try done. simpl. destruct (vr_tail _ _ _ _ Hr) as [E|E]; [by left|right].
      rewrite last_or_app in E. simpl in E. rewrite last_or_app, E in *.
      destruct ys as [|y ys]; [done|]. done. }
  intros _ s4 (E1 & E2 & E3 & E4 & E5). apply wp_ret.
  destruct (vrep_unlink_free s s4 xs p r ys us fn) as [Hr4 Hout]; [done| |done..|].
  { intros x Hx. rewrite E1. unfold m3, unlink. fold nx pv. clear -Hx Hnx Hpv.
    unfold m1. generalize dependent nx. generalize dependent pv. intros. solve_lookups. }
  eapply HS; try done. rewrite E1. unfold m3. rewrite put_prev_ne, put_next_ne by done.
  unfold m1. by rewrite lookup_alter_eq, Hm.
Qed.

(** ** The used list *)

Lemma wp_usedvmr_put s fr us fn p r (Q : unit -> vmm -> Prop) :
  vput s fr us fn p r ->
  (∀ s', vrep s' fr (us ++ [(p, r)]) fn -> vrest s' = vrest s -> Q tt s') ->
  wp (usedvmr_put p) s Q.
Proof.
  intros [Hr Hp Hout (a & b & Hn) Hok _] HQ. pose proof Hr as [Hf Hu (H1 & H2 & H3 & H4) Hnd Htl].
  pose proof Hu as (Hh & Ht & _ & Hnull & _). destruct Hok as (Hb & Hs & _).
  unfold usedvmr_put. wp_step. apply wp_assert_ptr; [done|]. wp_step. eapply wp_vn; [done..|].
  wp_step. apply wp_assert; [apply bool_decide_eq_true; simpl; lia|].
  wp_step. apply wp_assert; [apply bool_decide_eq_true; simpl; lia|].
  wp_step. wp_step. wp_step.
  eapply (wp_eq _ _ _ tt (set_usedvmr_head (hd_or p us) s)).
  { rewrite Hh. unfold when. case_bool_decide as E; unfold modify, mret, M_ret.
    - apply hd_or_null in E; [|done]. by subst us.
    - destruct us as [|x us]; [done|]. simpl in *. rewrite <- Hh. by destruct s. }
  wp_step. wp_step. cbn [usedvmr_tail set_usedvmr_head]. rewrite Ht.
  set (pv := last_or NULL us) in *.
  assert (pv ≠ p) as Hpv.
  { intros E. destruct (decide (us = [])) as [->|Hne]; [done|]. apply Hout, elem_of_app. right.
    apply elem_of_app. left. rewrite <- E. by apply last_or_in. }
  assert (pv = NULL ∨ is_Some (v_nodes s !! pv)) as Hlive.
  { assert (Hu' := Hu). rewrite <- (app_nil_r us) in Hu'. exact (dll_last_live _ _ _ _ _ Hu'). }
  wp_step. apply wp_if_next; [done|].
  wp_step. eapply wp_vupd; [done|simpl; rewrite put_next_ne by done; exact Hn|].
  wp_step. wp_step. cbn [usedvmr_tail set_usedvmr_head set_nodes]. rewrite Ht.
  wp_step. eapply wp_vupd; [done|simpl; by rewrite lookup_alter_eq, put_next_ne, Hn by done|].
  wp_step. set (s' := set_usedvmr_tail _ _). apply HQ; [|done].
  assert (dll (link p r pv NULL (v_nodes s)) (hd_or p us) p (us ++ [(p, r)])) as Hlink.
  { rewrite <- (app_nil_r us) in Hu. apply (dll_link _ _ _ us p r [] Hu Hp).
    rewrite app_nil_r. set_solver. }
  assert (∀ x, v_nodes s' !! x = link p r pv NULL (v_nodes s) !! x) as Hm.
  { intros x. simpl. unfold link, put_prev. simpl. destruct (decide (x = p)) as [->|Hx].
    - by rewrite lookup_insert_eq, !lookup_alter_eq, put_next_ne, Hn by done.
    - by rewrite lookup_insert_ne, !lookup_alter_ne by done. }
  assert (∀ x, x ∈ addrs fr ++ fn -> v_nodes s' !! x = v_nodes s !! x) as Hframe.
  { intros x Hx. rewrite Hm. rewrite <- (app_nil_r us) in Hu. eapply (link_outside _ _ _ us p r []); [exact Hu|].
    rewrite fmap_app. simpl. intros [Hx'|Hx'%list_elem_of_singleton]%elem_of_app.
    - apply elem_of_app in Hx as [Hx|Hx].
      + apply NoDup_app in Hnd as (_ & Hd & _). apply (Hd x Hx). set_solver.
      + apply NoDup_app in Hnd as (_ & _ & (_ & Hd & _)%NoDup_app). by apply (Hd x).
    - subst x. set_solver. }
  split.
  - eapply dll_frame; [|exact Hf]. intros x Hx. apply Hframe. set_solver.
  - eapply dll_frame; [|exact Hlink]. intros x Hx. apply Hm.
  - split_and!; [done..|]. eapply sseg_frame; [|exact H4]. intros x Hx. apply Hframe. set_solver.
  - rewrite fmap_app. simpl. rewrite <- (app_assoc (addrs us)). simpl.
    rewrite <- Permutation_middle, <- Permutation_middle. by apply NoDup_cons.
  - done.
Qed.

Lemma wp_usedvmr_find fuel s us tl b xs ys (Q : ptr -> vmm -> Prop) :
  dll (v_nodes s) (usedvmr_head s) tl us -> us = xs ++ ys -> (length ys < fuel)%nat ->
  b ∉ xs.*2.*1 -> (b ∉ us.*2.*1 -> Q NULL s) ->
  (∀ xs' p r ys', us = xs' ++ (p, r) :: ys' -> b ∉ xs'.*2.*1 -> r.1 = b -> Q p s) ->
  wp (usedvmr_find fuel b (hd_or NULL ys)) s Q.
Proof.
  intros Hd. revert xs ys. induction fuel as [|fuel IH]; intros xs ys E Hf Hlo HN HS; [lia|].
  destruct ys as [|[p r] ys]; simpl.
  - apply wp_ret, HN. by rewrite E, app_nil_r.
  - rewrite E in Hd. pose proof (dll_mid _ _ _ _ _ _ _ Hd) as (Hp & _ & _ & Hm).
    rewrite decide_False by done. wp_step. eapply wp_vn; [done..|]. simpl. case_decide as Hge.
    + apply wp_ret. by eapply (HS xs p r ys).
    + apply (IH (xs ++ [(p, r)])); [by rewrite <- app_assoc|simpl in Hf; lia| |done|done].
      rewrite !fmap_app. simpl. set_solver.
Qed.

Lemma vrep_unlink_used s s2 fr xs p d ys fn :
  vrep s fr (xs ++ (p, d) :: ys) fn ->
  (∀ x, x ≠ p -> v_nodes s2 !! x = unlink p (last_or NULL xs) (hd_or NULL ys) (v_nodes s) !! x) ->
  usedvmr_head s2 = hd_or NULL (xs ++ ys) -> usedvmr_tail s2 = last_or NULL (xs ++ ys) ->
  (freevmr_head s2, freevmr_tail s2, freenodes_head s2, freenodes_tail s2) =
    (freevmr_head s, freevmr_tail s, freenodes_head s, freenodes_tail s) ->
  vrep s2 fr (xs ++ ys) fn ∧ p ∉ addrs fr ++ addrs (xs ++ ys) ++ fn.
Proof.
  intros [Hf Hu (H1 & H2 & H3 & H4) Hnd Htl] Hm Hh Ht [= E1 E2 E3 E4].
  rewrite fmap_app in Hnd. simpl in Hnd. rewrite <- (app_assoc (addrs xs)) in Hnd. simpl in Hnd.
  rewrite <- Permutation_middle, <- Permutation_middle in Hnd. apply NoDup_cons in Hnd as [Hp Hnd].
  rewrite (app_assoc (addrs xs)), <- fmap_app in Hp, Hnd.
  assert (∀ x, x ∈ addrs fr ++ fn -> v_nodes s2 !! x = v_nodes s !! x) as Hframe.
  { intros x Hx. rewrite Hm by (intros ->; apply Hp; set_solver).
    eapply unlink_outside; [exact Hu|]. intros Hx'.
    apply NoDup_app in Hnd as (_ & Hd1 & (_ & Hd2 & _)%NoDup_app).
    apply elem_of_app in Hx as [Hx|Hx]; [apply (Hd1 x Hx), elem_of_app; by left|by apply (Hd2 x)]. }
  split; [|done]. split; rewrite ?E1, ?E2, ?E3, ?E4; try done.
  - eapply dll_frame; [|exact Hf]. intros x Hx. apply Hframe. set_solver.
  - rewrite Hh, Ht. eapply dll_frame; [|by eapply dll_unlink].
    intros x Hx. apply Hm. intros ->. apply Hp. set_solver.
  - split_and!; [done..|]. eapply sseg_frame; [|exact H4]. intros x Hx. apply Hframe. set_solver.
Qed.

Lemma wp_usedvmr_lookup s fr us fn base (Q : ptr -> vmm -> Prop) :
  vrep s fr us fn -> base ≠ 0 ->
  (base ∉ us.*2.*1 -> Q NULL s) ->
  (∀ s' xs p r ys, us = xs ++ (p, r) :: ys -> base ∉ xs.*2.*1 -> r.1 = base -> p ≠ NULL ->
     vrep s' fr (xs ++ ys) fn -> p ∉ addrs fr ++ addrs (xs ++ ys) ++ fn ->
     v_nodes s' !! p = Some (VNode r.1 NULL NULL r.2) -> vrest s' = vrest s -> Q p s') ->
  wp (usedvmr_lookup base) s Q.
Proof.
  intros Hr Hb HN HS. pose proof Hr as [Hf Hu (H1 & H2 & H3 & H4) Hnd Htl].
  pose proof Hu as (Hh & Ht & Hndu & Hnull & _).
  unfold usedvmr_lookup. wp_step. apply wp_assert; [by apply bool_decide_eq_true|]. wp_step. wp_step. rewrite Hh.
  case_decide as Hemp.
  { apply wp_ret, HN. apply hd_or_null in Hemp; [|done]. subst us. set_solver. }
  wp_step. unfold node_fuel. wp_step. wp_step.
  apply (wp_usedvmr_find _ s us (usedvmr_tail s) base [] us); [done|done| |set_solver|..].
  { apply Nat.lt_succ_r. exact (dll_length _ _ _ _ Hu). }
  { intros Hall. rewrite decide_True by done. apply wp_ret. by apply HN. }
  intros xs p r ys -> Hxs Hbase. pose proof (dll_mid _ _ _ _ _ _ _ Hu) as (Hp & Hpx & Hpy & Hm).
  rewrite decide_False by done. wp_step. eapply wp_vn; [done|exact Hm|]. cbn [n_next n_prev l_mk linked_vnode].
  pose proof (hd_or_unlink _ _ _ _ Hndu) as Hhd. pose proof (last_or_unlink _ _ _ _ Hndu) as Hlast.
  pose proof (dll_last_live _ _ _ _ _ Hu) as Hlp. pose proof (dll_next_live _ _ _ _ _ _ Hu) as Hln.
  set (nx := hd_or NULL ys) in *. set (pv := last_or NULL xs) in *.
  assert (nx ≠ p) as Hnx by (intros E; destruct ys as [|y ys]; [done|]; apply Hpy; rewrite <- E; by apply hd_or_in).
  assert (pv ≠ p) as Hpv.
  { intros E. destruct (decide (xs = [])) as [->|Hne]; [done|]. apply Hpx. rewrite <- E. by apply last_or_in. }
  wp_step. apply wp_if_next; [done|]. wp_step. eapply wp_vn; [done|simpl; rewrite put_next_ne by done; exact Hm|].
  cbn [n_next n_prev l_mk linked_vnode v_nodes set_nodes]. fold nx pv.
  wp_step. apply wp_if_prev.
  { simpl. destruct Hln as [?|Hln]; [by left|right]. unfold put_next. destruct (decide (pv = NULL)); [exact Hln|]. by apply lookup_alter_is_Some. }
  cbn [v_nodes set_nodes]. set (m2 := put_prev nx pv (put_next pv nx (v_nodes s))) in *.
  assert (m2 !! p = Some (VNode r.1 nx pv r.2)) as Hm2 by (unfold m2; by rewrite put_prev_ne, put_next_ne).
  wp_step. eapply wp_vn; [done|exact Hm2|]. cbn [n_next n_prev].
  wp_step. wp_step. cbn [usedvmr_head set_nodes]. rewrite Hh. wp_step.
  eapply (wp_eq _ _ _ tt (set_usedvmr_head (hd_or NULL (xs ++ ys)) (set_nodes m2 s))).
  { rewrite <- Hhd. unfold when. case_bool_decide as E; [rewrite decide_True by done; done|].
    rewrite decide_False by (by intros ?). rewrite <- Hh. by destruct s. }
  wp_step. wp_step. cbn [usedvmr_tail set_usedvmr_head set_nodes]. rewrite Ht. wp_step.
  eapply (wp_eq _ _ _ tt (set_usedvmr_tail (last_or NULL (xs ++ ys)) (set_usedvmr_head (hd_or NULL (xs ++ ys)) (set_nodes m2 s)))).
  { rewrite <- Hlast. unfold when. case_bool_decide as E; [rewrite decide_True by done; done|].
    rewrite decide_False by (by intros ?). rewrite <- Ht. by destruct s. }
  wp_step. eapply wp_vupd; [done|exact Hm2|].
  wp_step. eapply wp_vupd; [done|simpl; by rewrite lookup_alter_eq, Hm2|]. apply wp_ret.
  cbn [v_nodes set_nodes set_usedvmr_tail set_usedvmr_head]. rewrite alter_alter_eq. set (s' := set_nodes _ _).
  destruct (vrep_unlink_used s s' fr xs p r ys fn) as [Hr2 Hout]; [done| |done..|].
  { intros x Hx. simpl. rewrite lookup_alter_ne by done. done. }
  eapply HS; try done. simpl. by rewrite lookup_alter_eq, Hm2.
Qed.
