(* ===== verification/VmmSpec.v ===== *)
(** * The address ranges of the kernel heap (kernel/mm/vmm/vmm.c)

    The invariant of the allocator of [Vmm] and its theorems: the free and
    the used regions tile the heap range, free regions are never adjacent,
    and every sequence of calls behaves as a map from bases to sizes. *)

From S2P Require Import Prelude Dll Vmm.

(** ** Tilings of the heap range *)

Fixpoint tiles (a b : Z) (l : list region) : Prop :=
  match l with
  | [] => a = b
  | r :: l => r.1 = a ∧ 0 < r.2 ∧ tiles (a + r.2) b l
  end.

Lemma tiles_app a b l1 l2 : tiles a b (l1 ++ l2) <-> ∃ c, tiles a c l1 ∧ tiles c b l2.
Proof.
  revert a. induction l1 as [|r l1 IH]; intros a; simpl.
  - naive_solver.
  - rewrite IH. naive_solver.
Qed.

Lemma tiles_bounds a b l : tiles a b l -> a <= b ∧ Forall (λ r, a <= r.1 ∧ 0 < r.2 ∧ r.1 + r.2 <= b) l.
Proof.
  revert a. induction l as [|r l IH]; intros a; simpl; [intros ->; split; [lia|constructor]|].
  intros (E & Hpos & Ht). apply IH in Ht as [Hle Hall]. split; [lia|]. constructor; [lia|].
  eapply Forall_impl; [done|]. simpl. lia.
Qed.

Definition total (l : list region) : Z := foldr (λ r n, r.2 + n) 0 l.

#[export] Instance total_proper : Proper ((≡ₚ) ==> (=)) total.
Proof. intros l1 l2 P. unfold total. induction P; simpl; lia. Qed.

Lemma total_app l1 l2 : total (l1 ++ l2) = total l1 + total l2.
Proof. induction l1; simpl; unfold total in *; simpl; lia. Qed.

Lemma tiles_total a b l : tiles a b l -> total l = b - a.
Proof.
  revert a. induction l as [|r l IH]; intros a; simpl; [intros ->; unfold total; simpl; lia|].
  intros (E & _ & Ht). apply IH in Ht. unfold total in *. simpl. lia.
Qed.

(** The regions [l], in some order, cover [a, b) without gap or overlap. *)
Definition tiling (a b : Z) (l : list region) : Prop := ∃ l', l' ≡ₚ l ∧ tiles a b l'.

#[export] Instance tiling_proper a b : Proper ((≡ₚ) ==> iff) (tiling a b).
Proof. intros l1 l2 P. unfold tiling. by setoid_rewrite P. Qed.

Lemma tiling_split a b x n k l :
  tiling a b ((x, n) :: l) -> 0 < k < n -> tiling a b ((x, k) :: (x + k, n - k) :: l).
Proof.
  intros (l' & P & Ht) Hk.
  assert ((x, n) ∈ l') as Hin by (rewrite P; set_solver).
  apply list_elem_of_split in Hin as (l1 & l2 & ->).
  apply tiles_app in Ht as (c & H1 & H2). simpl in H2. destruct H2 as (E & _ & H2).
  exists (l1 ++ (x, k) :: (x + k, n - k) :: l2). split.
  - rewrite <- Permutation_middle in P. apply Permutation_cons_inv in P. rewrite <- P. solve_Permutation.
  - apply tiles_app. exists c. simpl. split_and!; [done|lia..|].
    by replace (c + k + (n - k)) with (c + n) by lia.
Qed.

Lemma tiling_disjoint a b r1 r2 l :
  tiling a b (r1 :: r2 :: l) -> r1.1 + r1.2 <= r2.1 ∨ r2.1 + r2.2 <= r1.1.
Proof.
  intros (l' & P & Ht).
  assert (r1 ∈ l') as Hin by (rewrite P; set_solver).
  apply list_elem_of_split in Hin as (l1 & l2 & ->).
  rewrite <- Permutation_middle in P. apply Permutation_cons_inv in P.
  assert (r2 ∈ l1 ++ l2) as Hin by (rewrite P; set_solver).
  apply tiles_app in Ht as (c & H1 & H2). simpl in H2. destruct H2 as (E & _ & H2).
  apply tiles_bounds in H1 as [_ H1]. apply tiles_bounds in H2 as [_ H2]. rewrite Forall_forall in H1, H2.
  apply elem_of_app in Hin as [Hin|Hin]; [apply H1 in Hin|apply H2 in Hin]; lia.
Qed.

Lemma tiling_merge a b r1 r2 l :
  tiling a b (r1 :: r2 :: l) -> adj r1 r2 -> tiling a b ((r1.1, r1.2 + r2.2) :: l).
Proof.
  intros (l' & P & Ht) Hadj.
  assert (r1 ∈ l') as Hin by (rewrite P; set_solver).
  apply list_elem_of_split in Hin as (l1 & l2 & ->).
  rewrite <- Permutation_middle in P. apply Permutation_cons_inv in P.
  apply tiles_app in Ht as (c & H1 & H2). simpl in H2. destruct H2 as (E & Hpos & H2).
  assert (r2 ∈ l1 ++ l2) as Hin by (rewrite P; set_solver). unfold adj in Hadj.
  pose proof (tiles_bounds _ _ _ H1) as [_ B1]. pose proof (tiles_bounds _ _ _ H2) as [_ B2].
  rewrite Forall_forall in B1, B2.
  apply elem_of_app in Hin as [Hin|Hin]; [apply B1 in Hin; lia|].
  destruct l2 as [|q l2]; [set_solver|]. simpl in H2. destruct H2 as (Eq & Hq & H2).
  assert (q = r2) as ->.
  { apply elem_of_cons in Hin as [->|Hin]; [done|]. pose proof (tiles_bounds _ _ _ H2) as [_ B3].
    rewrite Forall_forall in B3. apply B3 in Hin. lia. }
  exists (l1 ++ (r1.1, r1.2 + r2.2) :: l2). split.
  - rewrite <- Permutation_middle in P. apply Permutation_cons_inv in P. rewrite <- P. solve_Permutation.
  - apply tiles_app. exists c. simpl. split_and!; [done|lia..|]. by replace (c + (r1.2 + r2.2)) with (c + r1.2 + r2.2) by lia.
Qed.

Lemma tiling_elem a b l r : tiling a b l -> r ∈ l -> a <= r.1 ∧ 0 < r.2 ∧ r.1 + r.2 <= b.
Proof.
  intros (l' & P & Ht) Hin. rewrite <- P in Hin. apply tiles_bounds in Ht as [_ Ht].
  rewrite Forall_forall in Ht. by apply Ht.
Qed.

Lemma tiling_total a b l : tiling a b l -> total l = b - a.
Proof. intros (l' & P & Ht). rewrite <- P. by apply tiles_total. Qed.

(** ** Free regions that are never adjacent *)

Definition apart (l r : region) : Prop := l.1 + l.2 < r.1.
Definition spread (l : list region) : Prop := StronglySorted apart l.

Lemma spread_app l1 l2 :
  spread (l1 ++ l2) <-> spread l1 ∧ spread l2 ∧ (∀ x y, x ∈ l1 -> y ∈ l2 -> apart x y).
Proof.
  unfold spread. split.
  - intros Hs. split_and!; [by eapply StronglySorted_app_1_l|by eapply StronglySorted_app_1_r|].
    intros x y Hx Hy. by eapply StronglySorted_app_1_elem_of.
  - intros (H1 & H2 & H). apply StronglySorted_app_2; done.
Qed.

Lemma spread_cons r l : spread (r :: l) <-> spread l ∧ (∀ y, y ∈ l -> apart r y).
Proof.
  change (r :: l) with ([r] ++ l). rewrite spread_app. split.
  - intros (_ & H1 & H2). split; [done|]. intros y. apply H2. set_solver.
  - intros [H1 H2]. split_and!; [repeat constructor|done|]. intros x y ->%list_elem_of_singleton. apply H2.
Qed.

Lemma spread_by_base (fr : rlist) : Forall (λ r, 0 < r.2) fr.*2 -> spread fr.*2 -> by_base fr.
Proof.
  unfold by_base, spread. induction fr as [|[p r] fr IH]; [constructor|]. simpl.
  intros [Hr Hall]%Forall_cons [Hs Hlt]%StronglySorted_inv. constructor; [by apply IH|].
  apply Forall_forall. intros x (y & -> & Hy)%list_elem_of_fmap.
  pose proof (proj1 (Forall_forall _ _) Hlt y Hy) as Ha. unfold apart in Ha. simpl in *. lia.
Qed.

(** Nothing to merge on the left: strictly apart from all of the left. *)
Lemma apart_left (l : list region) r :
  spread l -> Forall (λ x, 0 < x.2) l -> (∀ x, x ∈ l -> x.1 + x.2 <= r.1) ->
  (∀ x, last l = Some x -> ¬ adj x r) -> ∀ x, x ∈ l -> apart x r.
Proof.
  destruct l as [|y l _] using rev_ind; intros Hs Hpos Hle Hl x Hx; [set_solver|].
  rewrite last_snoc in Hl. specialize (Hl y eq_refl). unfold apart, adj in *.
  pose proof (Hle y ltac:(set_solver)).
  apply elem_of_app in Hx as [Hx| ->%list_elem_of_singleton]; [|lia].
  apply spread_app in Hs as (_ & _ & Hs). specialize (Hs x y Hx ltac:(set_solver)). unfold apart in Hs.
  rewrite Forall_forall in Hpos. specialize (Hpos y ltac:(set_solver)). lia.
Qed.

Lemma apart_right (l : list region) r :
  spread l -> Forall (λ x, 0 < x.2) l -> (∀ x, x ∈ l -> r.1 + r.2 <= x.1) ->
  (∀ x, head l = Some x -> ¬ adj r x) -> ∀ x, x ∈ l -> apart r x.
Proof.
  destruct l as [|y l]; intros Hs Hpos Hle Hl x Hx; [set_solver|].
  specialize (Hl y eq_refl). unfold apart, adj in *.
  pose proof (Hle y ltac:(set_solver)).
  apply elem_of_cons in Hx as [->|Hx]; [lia|].
  apply spread_cons in Hs as (_ & Hs). specialize (Hs x Hx). unfold apart in Hs.
  apply Forall_cons in Hpos as [? _]. lia.
Qed.

Lemma tiling_disjoint_elem a b r l x :
  tiling a b (r :: l) -> x ∈ l -> r.1 + r.2 <= x.1 ∨ x.1 + x.2 <= r.1.
Proof.
  intros Ht (l1 & l2 & ->)%list_elem_of_split. eapply (tiling_disjoint a b r x (l1 ++ l2)).
  by rewrite Permutation_middle.
Qed.

(** Inserting one region between two spread halves. *)
Lemma spread_insert (xs ys : list region) m :
  spread (xs ++ ys) -> (∀ x, x ∈ xs -> apart x m) -> (∀ y, y ∈ ys -> apart m y) -> spread (xs ++ m :: ys).
Proof.
  rewrite !spread_app, spread_cons. intros (H1 & H2 & H3) Hx Hy. split_and!; [done..|].
  intros x y Hin [->|Hin']%elem_of_cons; auto.
Qed.

Lemma put_free_inv a b xs ys us p r fr' rel :
  put_free p r xs ys fr' rel ->
  tiling a b (r :: (xs ++ ys).*2 ++ us) -> spread (xs ++ ys).*2 ->
  Forall (λ x, x.1 < r.1) xs.*2 -> Forall (λ x, r.1 <= x.1) ys.*2 ->
  tiling a b (fr'.*2 ++ us) ∧ spread fr'.*2.
Proof.
  intros Hpf Ht Hs Hlo Hhi. rewrite fmap_app in Hs.
  assert (∀ x, x ∈ xs.*2 ++ ys.*2 -> 0 < x.2) as Hpos.
  { intros x Hx. eapply tiling_elem in Ht; [apply Ht|]. right. rewrite fmap_app. set_solver. }
  assert (0 < r.2) as Hr by (eapply tiling_elem in Ht; [apply Ht|left]).
  assert (∀ x, x ∈ xs.*2 -> x.1 + x.2 <= r.1) as Hxle.
  { intros x Hx. destruct (tiling_disjoint_elem _ _ _ _ x Ht); [rewrite fmap_app; set_solver| |done].
    rewrite Forall_forall in Hlo. specialize (Hlo x Hx). specialize (Hpos x ltac:(set_solver)). lia. }
  assert (∀ y, y ∈ ys.*2 -> r.1 + r.2 <= y.1) as Hyle.
  { intros y Hy. destruct (tiling_disjoint_elem _ _ _ _ y Ht); [rewrite fmap_app; set_solver|done|].
    rewrite Forall_forall in Hhi. specialize (Hhi y Hy). specialize (Hpos y ltac:(set_solver)). lia. }
  assert (Forall (λ x : region, 0 < x.2) xs.*2) as Hpx by (apply Forall_forall; set_solver).
  assert (Forall (λ x : region, 0 < x.2) ys.*2) as Hpy by (apply Forall_forall; set_solver).
  pose proof Hs as (Hsx & Hsy & Hxy)%spread_app.
  destruct Hpf as [xs ys H1 H2|xs pl l ys Hl H2|xs pr q ys H1 Hq|xs pl l pr q ys Hl Hq].
  - pose proof (apart_left _ _ Hsx Hpx Hxle H1) as Ax. pose proof (apart_right _ _ Hsy Hpy Hyle H2) as Ay.
    rewrite !fmap_app in *. simpl. split; [|by apply spread_insert].
    rewrite <- app_assoc. simpl. rewrite <- Permutation_middle, app_assoc. done.
  - pose proof (apart_right _ _ Hsy Hpy Hyle H2) as Ay. rewrite !fmap_app in *. simpl in *.
    apply spread_app in Hsx as (Hsx & _ & Hxl). split.
    + rewrite <- !app_assoc in *. simpl in *. rewrite <- Permutation_middle in *.
      apply tiling_merge; [|done]. by rewrite Permutation_swap.
    + apply spread_insert.
      * apply spread_app. split_and!; [done..|]. intros x y Hx Hy. apply Hxy; set_solver.
      * intros x Hx. apply (Hxl x l); set_solver.
      * intros y Hy. specialize (Ay y Hy). unfold apart, adj in *. simpl. lia.
  - pose proof (apart_left _ _ Hsx Hpx Hxle H1) as Ax. rewrite !fmap_app in *. simpl in *.
    apply spread_cons in Hsy as (Hsy & Hqy). split.
    + rewrite <- !app_assoc in *. simpl in *. rewrite <- Permutation_middle in *.
      rewrite (Z.add_comm q.2). by apply tiling_merge.
    + apply spread_insert.
      * apply spread_app. split_and!; [done..|]. intros x y Hx Hy. apply Hxy; set_solver.
      * intros x Hx. by apply Ax.
      * intros y Hy. specialize (Hqy y Hy). unfold apart, adj in *. simpl. lia.
  - rewrite !fmap_app in *. simpl in *. apply spread_app in Hsx as (Hsx & _ & Hxl).
    apply spread_cons in Hsy as (Hsy & Hqy). split.
    + rewrite <- !app_assoc in *. simpl in *. rewrite <- Permutation_middle.
      apply (tiling_merge a b l (r.1, r.2 + q.2)); [|done].
      rewrite Permutation_swap. apply tiling_merge; [|done]. eapply tiling_proper; [|exact Ht].
      solve_Permutation.
    + apply spread_insert.
      * apply spread_app. split_and!; [done..|]. intros x y Hx Hy. apply Hxy; set_solver.
      * intros x Hx. apply (Hxl x l); set_solver.
      * intros y Hy. specialize (Hqy y Hy). unfold apart, adj in *. simpl. lia.
Qed.

Definition paged (l : list region) : Prop := Forall (λ r, (PAGESZ | r.2)) l.

Lemma put_free_paged xs ys p r fr' rel :
  put_free p r xs ys fr' rel -> (PAGESZ | r.2) -> paged (xs ++ ys).*2 ->
  paged fr'.*2 ∧ (length fr' + length rel = S (length (xs ++ ys)))%nat.
Proof.
  unfold paged. intros Hpf Hr.
  destruct Hpf; rewrite !fmap_app, !Forall_app; simpl; rewrite ?Forall_cons; simpl;
    rewrite !length_app; simpl; intros H'; split_and!; try lia; try tauto; destruct_and?;
    repeat match goal with H : Forall _ (_ ++ _) |- _ => apply Forall_app in H as [? ?]
      | H : Forall _ (_ :: _) |- _ => apply Forall_cons in H as [? ?] end; simpl in *;
    try rewrite !length_app; simpl; auto using Z.divide_add_r; lia.
Qed.

(** ** The invariant of the allocator *)

Definition kheap_ok (SZ : Z) : Prop := 0 < SZ ∧ (PAGESZ | SZ) ∧ KHEAPBASE + SZ < two64.

Record vinv (SZ : Z) (s : vmm) (fr us : rlist) (fn : list ptr) : Prop := {
  vi_rep : vrep s fr us fn;
  vi_tiling : tiling KHEAPBASE (KHEAPBASE + SZ) (fr.*2 ++ us.*2);
  vi_spread : spread fr.*2;
  vi_paged : paged (fr.*2 ++ us.*2);
  vi_nodes : (length fr + length us + length fn)%nat = Z.to_nat (SZ / PAGESZ);
  vi_used : used_virtual_mmsz s = total us.*2;
  vi_online : vmm_online s = true;
  vi_lock : vmm_spinlock s = false;
}.

Lemma paged_total l :
  paged l -> Forall (λ r, 0 < r.2) l ->
  PAGESZ * Z.of_nat (length l) <= total l ∧
  ∀ r, r ∈ l -> PAGESZ * Z.of_nat (length l) + (r.2 - PAGESZ) <= total l.
Proof.
  unfold paged, total. induction l as [|r l IH]; [intros; split; [simpl; lia|set_solver]|].
  intros [Hr Hp]%Forall_cons [Hr0 Hp0]%Forall_cons. destruct (IH Hp Hp0) as [H1 H2]. simpl.
  assert (PAGESZ <= r.2) by (destruct Hr as [k Hk]; unfold PAGESZ in *; nia).
  split; [lia|]. intros x [->|Hx]%elem_of_cons; [lia|]. specialize (H2 x Hx). lia.
Qed.

(** When no spare node is left, every region is one page. *)
Lemma pool_exhausted SZ s fr us r :
  kheap_ok SZ -> vinv SZ s fr us [] -> r ∈ fr.*2 ++ us.*2 -> r.2 = PAGESZ.
Proof.
  intros (Hsz & [k Hk] & _) [_ Ht _ Hp Hn _ _ _] Hr.
  pose proof (tiling_total _ _ _ Ht) as Htot.
  assert (Forall (λ r : region, 0 < r.2) (fr.*2 ++ us.*2)) as Hpos.
  { apply Forall_forall. intros x Hx. by eapply tiling_elem in Ht as (_ & ? & _). }
  destruct (paged_total _ Hp Hpos) as [_ Hle]. specialize (Hle r Hr).
  rewrite Forall_forall in Hpos. specialize (Hpos r Hr).
  assert (PAGESZ <= r.2).
  { unfold paged in Hp. rewrite Forall_forall in Hp. destruct (Hp r Hr) as [j Hj]. unfold PAGESZ in *. nia. }
  rewrite length_app, !length_fmap in Hle. simpl in Hn. rewrite Nat.add_0_r in Hn. rewrite Hn in Hle.
  subst SZ. unfold PAGESZ in *. rewrite Z.div_mul in Hle by lia. lia.
Qed.

Lemma tiling_regs SZ l : kheap_ok SZ -> tiling KHEAPBASE (KHEAPBASE + SZ) l -> Forall reg_ok l.
Proof.
  intros (_ & _ & Hend) Ht. apply Forall_forall. intros r Hr.
  eapply tiling_elem in Ht; [|done]. unfold reg_ok. lia.
Qed.

Lemma page_aligned sz : Z.land sz PAGEMASK = 0 <-> (PAGESZ | sz).
Proof.
  unfold PAGEMASK, PAGESZ. change (4096 - 1) with (Z.ones 12). rewrite Z.land_ones by lia.
  change (2 ^ 12) with 4096. rewrite <- Z.mod_divide by lia. done.
Qed.

Section ops.
Context (SZ : Z) (nodes : ptr) (Hheap : kheap_ok SZ).

Lemma wp_vmm_lock s (Q : unit -> vmm -> Prop) :
  vmm_spinlock s = false -> Q tt (set_vmm_lock true s) -> wp vmm_lock s Q.
Proof. intros Hl HQ. unfold vmm_lock. wp_step. wp_step. rewrite Hl. wp_step. apply wp_assert; [done|]. by wp_step. Qed.

Lemma wp_vmm_unlock s (Q : unit -> vmm -> Prop) :
  vmm_spinlock s = true -> Q tt (set_vmm_lock false s) -> wp vmm_unlock s Q.
Proof. intros Hl HQ. unfold vmm_unlock. wp_step. wp_step. rewrite Hl. wp_step. apply wp_assert; [done|]. by wp_step. Qed.

Lemma vrep_misc s s' fr us fn :
  vrep s fr us fn ->
  (v_nodes s', usedvmr_head s', usedvmr_tail s', freevmr_head s', freevmr_tail s', freenodes_head s', freenodes_tail s') =
  (v_nodes s, usedvmr_head s, usedvmr_tail s, freevmr_head s, freevmr_tail s, freenodes_head s, freenodes_tail s) ->
  vrep s' fr us fn.
Proof. intros [H1 H2 H3 H4 H5] [= E1 E2 E3 E4 E5 E6 E7]. split; congruence. Qed.

(** The end of [vmm_alloc], common to both ways of finding the node. *)
Lemma wp_alloc_finish s fr us fn p r (Q : Z -> vmm -> Prop) :
  vput s fr us fn p r -> vmm_spinlock s = true -> vmm_online s = true ->
  tiling KHEAPBASE (KHEAPBASE + SZ) (fr.*2 ++ us.*2 ++ [r]) -> spread fr.*2 ->
  paged (fr.*2 ++ us.*2 ++ [r]) ->
  (S (length fr + length us + length fn))%nat = Z.to_nat (SZ / PAGESZ) ->
  used_virtual_mmsz s = total us.*2 ->
  (∀ s', vinv SZ s' fr (us ++ [(p, r)]) fn -> Q r.1 s') ->
  wp (modify (λ s, set_used_mmsz (u64 (used_virtual_mmsz s + r.2)) s);;
      n ← vn p;
      let addr := n_base n in
      usedvmr_put p;; vmm_unlock;; mret addr) s Q.
Proof.
  intros Hv Hlk Hon Ht Hs Hp Hn Hu HQ. wp_step. wp_step.
  pose proof Hv as [Hr Hp0 Hout (a & b & Hnode) Hok Hregs].
  wp_step. eapply wp_vn; [done|exact Hnode|]. simpl. wp_step.
  eapply (wp_usedvmr_put _ fr us fn p r).
  { split; try done; [|by exists a, b]. by eapply vrep_misc. }
  intros s' Hr' Hrest. injection Hrest as E1 E2 E3.
  wp_step. eapply wp_vmm_unlock; [by rewrite E3|]. apply wp_ret. apply HQ.
  split; simpl.
  - by eapply vrep_misc.
  - by rewrite fmap_app.
  - done.
  - by rewrite fmap_app.
  - rewrite length_app. simpl. lia.
  - rewrite E2, fmap_app, total_app, Hu. simpl.
    pose proof (tiling_total _ _ _ Ht) as Htot. rewrite !total_app in Htot.
    assert (∀ l, Forall reg_ok l -> 0 <= total l) as Hnn.
    { intros l. unfold total. induction 1 as [|x l (_ & ? & _) _ IH]; simpl; lia. }
    pose proof (tiling_regs _ _ Hheap Ht) as Hall. rewrite !Forall_app in Hall. destruct Hall as (? & ? & ?).
    pose proof (Hnn fr.*2 ltac:(done)). pose proof (Hnn us.*2 ltac:(done)).
    pose proof (Hnn [r] ltac:(done)). destruct Hheap as (_ & _ & ?). pose proof kheapbase_pos.
    unfold total in *. simpl in *. rewrite u64_small; [lia|]. unfold in_u64. lia.
  - by rewrite E1.
  - done.
Qed.

Lemma free_pull (xs ys : rlist) p r us :
  (xs ++ (p, r) :: ys).*2 ++ us ≡ₚ r :: (xs ++ ys).*2 ++ us.
Proof. rewrite !fmap_app. simpl. rewrite <- !app_assoc. simpl. by rewrite <- Permutation_middle. Qed.

Lemma spread_pull (xs ys : rlist) p r : spread (xs ++ (p, r) :: ys).*2 -> spread (xs ++ ys).*2.
Proof.
  rewrite !fmap_app. simpl. rewrite !spread_app, spread_cons. intros (H1 & [H2 H3] & H4).
  split_and!; [done..|]. intros x y Hx Hy. apply H4; set_solver.
Qed.

(** The split branch: the spare node [q] takes the front of the region, the
    rest goes back to the free list. *)
Lemma wp_split_region s xs ys us fn p r sz (Q : ptr -> vmm -> Prop) :
  vrep s (xs ++ ys) us fn -> p ≠ NULL -> p ∉ addrs (xs ++ ys) ++ addrs us ++ fn ->
  v_nodes s !! p = Some (VNode r.1 NULL NULL r.2) -> fn ≠ [] ->
  tiling KHEAPBASE (KHEAPBASE + SZ) (r :: (xs ++ ys).*2 ++ us.*2) -> spread (xs ++ ys).*2 -> 0 < sz < r.2 ->
  (∀ s' q fr' fn', free_put (xs ++ ys) p (r.1 + sz, r.2 - sz) fr' fn' ->
     vput s' fr' us (tail fn ++ fn') q (r.1, sz) -> vrest s' = vrest s -> Q q s') ->
  wp (node ← freenodes_get;
      assert_ptr node;;
      s ← vn p;
      vupd node (n_set_base (n_base s));;
      vupd node (n_set_size sz);;
      vupd p (λ g, n_set_base (u64 (n_base g + sz)) g);;
      vupd p (λ g, n_set_size (u64 (n_size g - sz)) g);;
      freevmr_put p;;
      mret node) s Q.
Proof.
  intros Hr Hp Hout Hnode Hfn Ht Hspr Hsz HQ.
  pose proof (tiling_regs _ _ Hheap Ht) as [Hok Hregs]%Forall_cons. pose proof Hregs as [Hregs' _]%Forall_app.
  wp_step. eapply (wp_freenodes_get s); [done|done|].
  intros q fn' s2 -> Hq Hr2 Hqn Hframe2 Hrest2.
  assert (p ≠ q) as Hpq by (intros ->; apply Hout; rewrite !elem_of_app; right; right; left).
  assert (q ∉ addrs (xs ++ ys) ++ addrs us ++ fn') as Hqout.
  { pose proof (vr_nodup _ _ _ _ Hr) as Hnd. rewrite <- !Permutation_middle in Hnd.
    by apply NoDup_cons in Hnd as [? _]. }
  wp_step. apply wp_assert_ptr; [done|].
  assert (v_nodes s2 !! p = Some (VNode r.1 NULL NULL r.2)) as Hpn by (by rewrite Hframe2).
  wp_step. eapply wp_vn; [done|exact Hpn|]. simpl n_base.
  wp_step. eapply wp_vupd; [done|exact Hqn|].
  wp_step. eapply wp_vupd; [done|simpl; by rewrite lookup_alter_eq, Hqn|].
  wp_step. eapply wp_vupd; [done|simpl; rewrite !lookup_alter_ne by done; exact Hpn|].
  wp_step. eapply wp_vupd; [done|simpl; rewrite lookup_alter_eq, !lookup_alter_ne, Hpn by done; done|].
  cbn [v_nodes set_nodes]. rewrite !alter_alter_eq.
  match goal with |- wp _ (set_nodes ?m _) _ => set (m3 := m) end. set (s3 := set_nodes _ _).
  assert (m3 !! q = Some (VNode r.1 NULL NULL sz)) as Hq3.
  { unfold m3. by rewrite lookup_alter_ne, lookup_alter_eq, Hqn by done. }
  unfold reg_ok in Hok. pose proof kheapbase_pos.
  assert (m3 !! p = Some (VNode (r.1 + sz) NULL NULL (r.2 - sz))) as Hp3.
  { unfold m3. rewrite lookup_alter_eq, lookup_alter_ne, Hpn by done. unfold compose, n_set_size, n_set_base. simpl.
    rewrite !u64_small by (unfold in_u64; lia). done. }
  assert (p ∉ addrs (xs ++ ys) ++ addrs us ++ fn') as Hout'.
  { intros Hx. apply Hout. rewrite !elem_of_app in *. rewrite elem_of_cons. clear -Hx. naive_solver. }
  assert (vrep s3 (xs ++ ys) us fn') as Hr3.
  { apply (vrep_misc (set_nodes m3 s2)); [|done]. apply vrep_frame; [|done].
    intros x Hx. unfold m3. rewrite !lookup_alter_ne; [done|by intros ->..]. }
  wp_step. eapply (wp_freevmr_put s3 (xs ++ ys) us fn' p (r.1 + sz, r.2 - sz)).
  { split; [done|done|done|by exists NULL, NULL|unfold reg_ok; simpl; lia|done]. }
  { apply spread_by_base; [|done]. eapply Forall_impl; [exact Hregs'|]. unfold reg_ok. simpl. tauto. }
  intros s4 fr' rel Hfp Hr4 Hrest4 Hun. apply wp_ret. eapply HQ; [exact Hfp| |by rewrite Hrest4].
  assert (Forall reg_ok fr'.*2 ∧ q ∉ addrs fr' ++ addrs us ++ fn' ++ rel) as [Hregs4 Hqout4].
  { destruct Hfp as (xs0 & ys0 & E & Hlo & Hhi & Hpf). rewrite E in *. split.
    - destruct (put_free_inv KHEAPBASE (KHEAPBASE + SZ) xs0 ys0 ((r.1, sz) :: us.*2) p _ fr' rel Hpf) as [Ht4 _]; [|done..|].
      + rewrite <- Permutation_middle. rewrite Permutation_swap. destruct r. by apply tiling_split.
      + apply (tiling_regs _ _ Hheap), Forall_app in Ht4 as [? _]. done.
    - clear -Hpf Hqout Hpq. destruct Hpf; repeat rewrite fmap_app in *; simpl in *; set_solver. }
  split; try done.
  - exists NULL, NULL. simpl. rewrite Hun; [exact Hq3|]. clear -Hqout Hpq. set_solver.
  - unfold reg_ok. simpl. lia.
Qed.

Lemma wp_vmm_alloc s fr us fn sz (Q : Z -> vmm -> Prop) :
  vinv SZ s fr us fn -> 0 < sz -> (PAGESZ | sz) ->
  (Forall (λ x, x.2 < sz) fr.*2 -> Q 0 s) ->
  (∀ s' fr' fn' p r, r ∈ fr.*2 -> sz <= r.2 ->
     vinv SZ s' fr' (us ++ [(p, (r.1, sz))]) fn' -> Q r.1 s') ->
  wp (vmm_alloc SZ nodes sz) s Q.
Proof.
  intros Hi Hsz Hpg HN HS. pose proof Hi as [Hr Ht Hspr Hpaged Hlen Hused Hon Hlk].
  unfold vmm_alloc. wp_step. wp_step. rewrite Hon. wp_step. apply wp_ret.
  wp_step. apply wp_vmm_lock; [done|]. set (s0 := set_vmm_lock true s).
  assert (vrep s0 fr us fn) as Hr0 by (by eapply vrep_misc).
  wp_step. eapply (wp_freevmr_get s0 fr us fn sz); [done|lia|by apply page_aligned|..].
  - intros Hall. rewrite decide_True by done. wp_step. apply wp_vmm_unlock; [done|]. apply wp_ret.
    replace (set_vmm_lock false s0) with s; [by apply HN|]. destruct s. simpl in *. by subst.
  - intros s1 xs p r ys -> Hxs Hge Hp Hr1 Hout Hnode Hrest. injection Hrest as E1 E2 E3.
    rewrite free_pull in Ht. unfold paged in Hpaged. rewrite free_pull in Hpaged.
    apply Forall_cons in Hpaged as [Hrp Hpaged]. apply spread_pull in Hspr.
    pose proof (tiling_regs _ _ Hheap Ht) as [Hok Hregs]%Forall_cons. apply Forall_app in Hregs as [Hregs _].
    assert (r ∈ (xs ++ (p, r) :: ys).*2) as Hrin by (rewrite fmap_app; set_solver).
    rewrite length_app in Hlen. simpl in Hlen.
    rewrite decide_False by done. wp_step. eapply wp_vn; [done|exact Hnode|]. simpl n_size.
    destruct (decide (r.2 > sz)) as [Hgt|Hle].
    + assert (fn ≠ []) as Hfn.
      { intros ->. assert (r.2 = PAGESZ) as E.
        { eapply (pool_exhausted SZ s); [done|exact Hi|]. by apply elem_of_app; left. }
        destruct Hpg as [k Hk]. unfold PAGESZ in *. nia. }
      wp_step. apply (wp_split_region s1 xs ys us fn p r sz); try done; [lia|].
      intros s4 q fr' rel (xs0 & ys0 & E & Hlo & Hhi & Hpf) Hv Hrest. injection Hrest as E4 E5 E6.
      assert (length xs + length ys = length (xs0 ++ ys0))%nat as El by (by rewrite <- E, length_app).
      rewrite E in *.
      destruct (put_free_inv KHEAPBASE (KHEAPBASE + SZ) xs0 ys0 ((r.1, sz) :: us.*2) p _ fr' rel Hpf)
        as [Ht4 Hspr4]; [|done..|].
      { rewrite <- Permutation_middle. rewrite Permutation_swap. destruct r. apply tiling_split; [done|simpl in *; lia]. }
      destruct (put_free_paged _ _ _ _ _ _ Hpf) as [Hpaged4 Hlen4].
      { simpl. apply Z.divide_sub_r; done. }
      { by apply Forall_app in Hpaged as [? _]. }
      apply (wp_alloc_finish s4 fr' us (tail fn ++ rel) q (r.1, sz)); try done; try congruence.
      * rewrite (app_assoc fr'.*2), <- Permutation_cons_append. by rewrite <- Permutation_middle in Ht4.
      * apply Forall_app in Hpaged as [_ ?]. apply Forall_app. split; [done|]. apply Forall_app. by repeat constructor.
      * rewrite !length_app in *. destruct fn; [done|]. simpl in *. lia.
      * intros s5 Hi5. by apply (HS s5 fr' (tail fn ++ rel) q r).
    + assert (r.2 = sz) as Eq by lia. rewrite decide_False by lia. wp_step. apply wp_ret. subst sz.
      apply (wp_alloc_finish s1 (xs ++ ys) us fn p r); try done; try congruence.
      * split; try done. by exists NULL, NULL.
      * rewrite (app_assoc (xs ++ ys).*2), <- Permutation_cons_append. done.
      * apply Forall_app in Hpaged as [? ?]. apply Forall_app. split; [done|]. apply Forall_app. by repeat constructor.
      * rewrite length_app. lia.
      * intros s5 Hi5. destruct r. by apply (HS s5 (xs ++ ys) fn p).
Qed.

Lemma used_pull (fr xs ys : rlist) p r :
  fr.*2 ++ (xs ++ (p, r) :: ys).*2 ≡ₚ r :: fr.*2 ++ (xs ++ ys).*2.
Proof. rewrite !fmap_app. simpl. by rewrite <- !Permutation_middle. Qed.

Lemma total_nonneg l : Forall reg_ok l -> 0 <= total l.
Proof. unfold total. induction 1 as [|x l (_ & ? & _) _ IH]; simpl; lia. Qed.

Lemma wp_vmm_free s fr us fn base (Q : unit -> vmm -> Prop) :
  vinv SZ s fr us fn -> base ∈ us.*2.*1 ->
  (∀ s' fr' fn' xs p r ys, us = xs ++ (p, r) :: ys -> r.1 = base ->
     vinv SZ s' fr' (xs ++ ys) fn' -> Q tt s') ->
  wp (vmm_free base) s Q.
Proof.
  intros Hi Hbase HQ. pose proof Hi as [Hr Ht Hspr Hpaged Hlen Hused Hon Hlk].
  assert (base ≠ 0) as Hb0.
  { apply list_elem_of_fmap in Hbase as (r & -> & Hin).
    eapply tiling_elem in Ht as (? & _); [|by apply elem_of_app; right]. pose proof kheapbase_pos. lia. }
  unfold vmm_free. wp_step. apply wp_assert; [by apply bool_decide_eq_true|].
  wp_step. apply wp_vmm_lock; [done|]. set (s0 := set_vmm_lock true s).
  assert (vrep s0 fr us fn) as Hr0 by (by eapply vrep_misc).
  wp_step. eapply (wp_usedvmr_lookup s0 fr us fn base); [done|done|done|].
  intros s1 xs p r ys -> Hxs Hrb Hp Hr1 Hout Hnode Hrest. injection Hrest as E1 E2 E3.
  rewrite used_pull in Ht. unfold paged in Hpaged. rewrite used_pull in Hpaged.
  apply Forall_cons in Hpaged as [Hrp Hpaged].
  pose proof (tiling_regs _ _ Hheap Ht) as [Hok Hregs]%Forall_cons.
  pose proof Hregs as [Hregf Hregu]%Forall_app.
  assert (total (xs ++ (p, r) :: ys).*2 = r.2 + total (xs ++ ys).*2) as Htot.
  { rewrite !fmap_app. simpl. by rewrite <- Permutation_middle. }
  assert (u64 (total (xs ++ (p, r) :: ys).*2 - r.2) = total (xs ++ ys).*2) as Htot2.
  { pose proof (tiling_total _ _ _ Ht) as Hall.
    change (total (r :: fr.*2 ++ (xs ++ ys).*2)) with (r.2 + total (fr.*2 ++ (xs ++ ys).*2)) in Hall.
    rewrite total_app in Hall. pose proof (total_nonneg _ Hregf). pose proof (total_nonneg _ Hregu).
    destruct Hheap as (_ & _ & ?). destruct Hok as (? & ? & ?). pose proof kheapbase_pos.
    rewrite u64_small; unfold in_u64; lia. }
  rewrite decide_False by done. wp_step. eapply wp_vn; [done|exact Hnode|]. simpl n_size.
  wp_step. wp_step. wp_step.
  eapply (wp_freevmr_put _ fr (xs ++ ys) fn p r).
  { split; [|done|done|by exists NULL, NULL|done|done]. by eapply vrep_misc. }
  { apply spread_by_base; [|done]. eapply Forall_impl; [exact Hregf|]. unfold reg_ok. tauto. }
  intros s2 fr' rel (xs0 & ys0 & -> & Hlo & Hhi & Hpf) Hr2 Hrest2 _. injection Hrest2 as E4 E5 E6.
  simpl in E4, E5, E6. apply wp_vmm_unlock; [congruence|].
  destruct (put_free_inv _ _ _ _ _ _ _ _ _ Hpf Ht Hspr Hlo Hhi) as [Ht2 Hspr2].
  apply Forall_app in Hpaged as [Hpf1 Hpu].
  destruct (put_free_paged _ _ _ _ _ _ Hpf Hrp Hpf1) as [Hpf2 Hlen2].
  eapply (HQ _ fr' (fn ++ rel) xs p r ys); [done|done|]. split; simpl.
  - by eapply vrep_misc.
  - done.
  - done.
  - by apply Forall_app.
  - rewrite !length_app in *. simpl in *. lia.
  - rewrite E5, E2. simpl. by rewrite Hused.
  - congruence.
  - done.
Qed.

Lemma vmm_free_unknown s fr us fn base :
  vinv SZ s fr us fn -> base ∉ us.*2.*1 -> vmm_free base s = Stop Panic.
Proof.
  intros [Hr Ht Hspr Hpaged Hlen Hused Hon Hlk] Hbase. unfold vmm_free, mbind, M_bind, assert_.
  case_bool_decide as Hb; [|done]. unfold vmm_lock, mbind, M_bind, gets, assert_, modify. rewrite Hlk. simpl.
  set (s0 := set_vmm_lock true s).
  assert (wp (usedvmr_lookup base) s0 (λ q s', q = NULL)) as Hwp.
  { eapply (wp_usedvmr_lookup s0 fr us fn base); [by eapply vrep_misc|done|done|].
    intros s1 xs p r ys -> _ Hrb _ _ _ _ _. exfalso. apply Hbase. rewrite !fmap_app. set_solver. }
  apply wp_run in Hwp as (q & s' & -> & ->). done.
Qed.

End ops.

(** ** Allocation fails only when no gap is large enough *)

Definition disjoint (r1 r2 : region) : Prop := r1.1 + r1.2 <= r2.1 ∨ r2.1 + r2.2 <= r1.1.
#[export] Instance disjoint_dec r1 r2 : Decision (disjoint r1 r2).
Proof. unfold disjoint. apply _. Defined.

Lemma tiles_cover a b l x : tiles a b l -> a <= x < b ->
  ∃ l1 r l2, l = l1 ++ r :: l2 ∧ r.1 <= x < r.1 + r.2.
Proof.
  revert a. induction l as [|r l IH]; intros a; simpl; [lia|]. intros (E & Hpos & Ht) Hx.
  destruct (decide (x < r.1 + r.2)).
  - exists [], r, l. split; [done|lia].
  - destruct (IH _ Ht ltac:(lia)) as (l1 & r' & l2 & -> & H). by exists (r :: l1), r', l2.
Qed.

(** A range disjoint from every used region lies in one free region. *)
Lemma gap_in_free a b (fr us : list region) x n :
  tiling a b (fr ++ us) -> spread fr -> a <= x -> x + n <= b -> 0 < n ->
  (∀ r, r ∈ us -> disjoint (x, n) r) -> ∃ r, r ∈ fr ∧ n <= r.2.
Proof.
  intros (l & P & Ht) Hs Ha Hb Hn Hdis.
  destruct (tiles_cover a b l x Ht ltac:(lia)) as (l1 & r & l2 & -> & Hx).
  assert (r ∈ fr ++ us) as Hin by (rewrite <- P; set_solver).
  apply elem_of_app in Hin as [Hin|Hin].
  2: { destruct (Hdis r Hin); simpl in *; lia. }
  exists r. split; [done|]. destruct (decide (x + n <= r.1 + r.2)); [lia|].
  apply tiles_app in Ht as (c & _ & Hr). simpl in Hr. destruct Hr as (Ec & Hpos & Ht2).
  destruct l2 as [|q l2]; simpl in Ht2; [lia|]. destruct Ht2 as (Eq & Hq & _).
  assert (q ∈ fr ++ us) as Hqin by (rewrite <- P; set_solver).
  apply elem_of_app in Hqin as [Hqin|Hqin].
  - exfalso. apply list_elem_of_split in Hin as (f1 & f2 & ->).
    apply spread_app in Hs as (_ & Hs2 & Hs1). apply spread_cons in Hs2 as [_ Hs2]. unfold apart in *.
    apply elem_of_app in Hqin as [Hqin|[->|Hqin]%elem_of_cons].
    + specialize (Hs1 q r Hqin ltac:(set_solver)). lia.
    + lia.
    + specialize (Hs2 q Hqin). lia.
  - destruct (Hdis q Hqin); simpl in *; lia.
Qed.

(** ** The allocator as a map from bases to sizes *)

Lemma tiling_nodup a b l : tiling a b l -> NoDup l.*1.
Proof.
  intros (l' & P & Ht). rewrite <- P. clear P l. revert a Ht. induction l' as [|r l IH]; intros a; simpl; [constructor|].
  intros (E & Hpos & Ht). constructor; [|by eapply IH]. intros (x & Ex & Hx)%list_elem_of_fmap.
  apply tiles_bounds in Ht as [_ Ht]. rewrite Forall_forall in Ht. specialize (Ht x Hx). lia.
Qed.

Definition live_map (us : rlist) : gmap Z Z := list_to_map us.*2.
Definition live_total (live : gmap Z Z) : Z := total (map_to_list live).

Definition vmm_ok (SZ : Z) (s : vmm) (live : gmap Z Z) : Prop :=
  ∃ fr us fn, vinv SZ s fr us fn ∧ live = live_map us.

Lemma used_nodup SZ s fr us fn : vinv SZ s fr us fn -> NoDup us.*2.*1.
Proof.
  intros [_ Ht _ _ _ _ _ _]. apply tiling_nodup in Ht. rewrite fmap_app in Ht.
  by apply NoDup_app in Ht as (_ & _ & ?).
Qed.

Lemma live_lookup us b n : NoDup us.*2.*1 -> live_map us !! b = Some n <-> (b, n) ∈ us.*2.
Proof. intros Hnd. symmetry. by apply elem_of_list_to_map. Qed.

Lemma live_dom us b : b ∈ dom (live_map us) <-> b ∈ us.*2.*1.
Proof. unfold live_map. by rewrite dom_list_to_map, elem_of_list_to_set. Qed.

Lemma live_total_spec us : NoDup us.*2.*1 -> live_total (live_map us) = total us.*2.
Proof. intros Hnd. unfold live_total, live_map. by rewrite map_to_list_to_map. Qed.

Variant vop := VAlloc (sz : Z) | VFree (base : Z) | VInUse | VFreeSize.

Definition in_heap (SZ : Z) (r : region) : Prop := KHEAPBASE <= r.1 ∧ r.1 + r.2 <= KHEAPBASE + SZ.

Inductive vstep (SZ : Z) : gmap Z Z -> vop -> Z -> gmap Z Z -> Prop :=
  | vs_alloc live sz addr :
      in_heap SZ (addr, sz) -> (∀ b n, live !! b = Some n -> disjoint (addr, sz) (b, n)) ->
      vstep SZ live (VAlloc sz) addr (<[addr := sz]> live)
  | vs_alloc_full live sz :
      (∀ x, in_heap SZ (x, sz) -> ∃ b n, live !! b = Some n ∧ ¬ disjoint (x, sz) (b, n)) ->
      vstep SZ live (VAlloc sz) 0 live
  | vs_free live b : b ∈ dom live -> vstep SZ live (VFree b) 0 (delete b live)
  | vs_inuse live : vstep SZ live VInUse (live_total live / 1024) live
  | vs_freesize live : vstep SZ live VFreeSize ((SZ - live_total live) / 1024) live.

Inductive vrun (SZ : Z) : gmap Z Z -> list vop -> list Z -> gmap Z Z -> Prop :=
  | vrun_nil live : vrun SZ live [] [] live
  | vrun_cons live op r live1 ops rs live2 :
      vstep SZ live op r live1 -> vrun SZ live1 ops rs live2 -> vrun SZ live (op :: ops) (r :: rs) live2.

Definition vop_ok (op : vop) : Prop :=
  match op with VAlloc sz => 0 < sz ∧ (PAGESZ | sz) | _ => True end.

Section refinement.
Context (SZ : Z) (nodes : ptr) (Hheap : kheap_ok SZ).

Definition run_vop (op : vop) : M vmm Z :=
  match op with
  | VAlloc sz => vmm_alloc SZ nodes sz
  | VFree b => vmm_free b;; mret 0
  | VInUse => vmm_getinuse
  | VFreeSize => vmm_getfreesize SZ
  end.

Fixpoint run_vops (ops : list vop) : M vmm (list Z) :=
  match ops with
  | [] => mret []
  | op :: ops => r ← run_vop op; rs ← run_vops ops; mret (r :: rs)
  end.

Lemma vinv_misc s s' fr us fn :
  vinv SZ s fr us fn -> s' = set_vmm_lock false (set_vmm_lock true s) -> s' = s.
Proof. intros [_ _ _ _ _ _ _ Hl] ->. destruct s. simpl in *. by subst. Qed.

Lemma run_valloc s live sz :
  vmm_ok SZ s live -> 0 < sz -> (PAGESZ | sz) ->
  wp (vmm_alloc SZ nodes sz) s (λ r s', ∃ live', vstep SZ live (VAlloc sz) r live' ∧ vmm_ok SZ s' live').
Proof.
  intros (fr & us & fn & Hi & ->) Hsz Hpg. pose proof (used_nodup _ _ _ _ _ Hi) as Hnd.
  eapply wp_vmm_alloc; [done|done|done|done|..].
  - intros Hall. exists (live_map us). split; [|by exists fr, us, fn].
    constructor. intros x [Hx1 Hx2].
    destruct (decide (Forall (disjoint (x, sz)) us.*2)) as [Hd|([b n] & Hin & Hd)%not_Forall_Exists%Exists_exists]; [| |apply _].
    + destruct (gap_in_free KHEAPBASE (KHEAPBASE + SZ) fr.*2 us.*2 x sz) as (r & Hr & Hle); try done; [apply Hi..| |].
      * by apply Forall_forall.
      * rewrite Forall_forall in Hall. specialize (Hall r Hr). lia.
    + exists b, n. by rewrite live_lookup.
  - intros s' fr' fn' p r Hr Hle Hi'. exists (live_map (us ++ [(p, (r.1, sz))])).
    split; [|by exists fr', (us ++ [(p, (r.1, sz))]), fn'].
    pose proof (used_nodup _ _ _ _ _ Hi') as Hnd'. rewrite !fmap_app in Hnd'. simpl in Hnd'.
    assert (live_map (us ++ [(p, (r.1, sz))]) = <[r.1 := sz]> (live_map us)) as ->.
    { unfold live_map. rewrite fmap_app. simpl. rewrite list_to_map_snoc; [done|].
      apply NoDup_app in Hnd' as (_ & Hd & _). intros Hx. apply (Hd _ Hx). set_solver. }
    pose proof (vi_tiling _ _ _ _ _ Hi') as Ht. rewrite fmap_app in Ht. simpl in Ht.
    rewrite app_assoc, <- Permutation_cons_append in Ht. constructor.
    + eapply tiling_elem in Ht as (? & ? & ?); [|left]. by split.
    + intros b n Hb. rewrite live_lookup in Hb by done.
      eapply tiling_disjoint_elem in Ht; [exact Ht|]. set_solver.
Qed.

Lemma run_vfree s live b :
  vmm_ok SZ s live -> b ∈ dom live ->
  wp (vmm_free b) s (λ _ s', vmm_ok SZ s' (delete b live)).
Proof.
  intros (fr & us & fn & Hi & ->) Hb. pose proof (used_nodup _ _ _ _ _ Hi) as Hnd.
  eapply (wp_vmm_free SZ); [done|done|by apply live_dom|].
  intros s' fr' fn' xs p r ys -> <- Hi'. exists fr', (xs ++ ys), fn'. split; [done|].
  unfold live_map.
  assert ((xs ++ (p, r) :: ys).*2 ≡ₚ r :: (xs ++ ys).*2) as P.
  { rewrite !fmap_app. simpl. by rewrite <- Permutation_middle. }
  rewrite (list_to_map_proper _ _ Hnd P). destruct r as [b n]. simpl. rewrite delete_insert_id; [done|].
  apply not_elem_of_list_to_map_1. rewrite P in Hnd. by apply NoDup_cons in Hnd as [? _].
Qed.

Lemma run_vsizes s live :
  vmm_ok SZ s live ->
  wp vmm_getinuse s (λ r s', r = live_total live / 1024 ∧ s' = s) ∧
  wp (vmm_getfreesize SZ) s (λ r s', r = (SZ - live_total live) / 1024 ∧ s' = s).
Proof.
  intros (fr & us & fn & Hi & ->). pose proof Hi as [_ Ht _ _ _ Hu _ Hl].
  rewrite live_total_spec by (by eapply used_nodup). split.
  - unfold vmm_getinuse. wp_step. apply wp_vmm_lock; [done|]. wp_step. wp_step.
    wp_step. apply wp_vmm_unlock; [done|]. apply wp_ret. simpl. rewrite Hu.
    split; [done|]. by eapply vinv_misc.
  - unfold vmm_getfreesize. wp_step. apply wp_vmm_lock; [done|]. wp_step. wp_step.
    wp_step. apply wp_vmm_unlock; [done|]. apply wp_ret. simpl. rewrite Hu.
    split; [|by eapply vinv_misc]. pose proof (tiling_total _ _ _ Ht) as Htot. rewrite total_app in Htot.
    pose proof (tiling_regs _ _ Hheap Ht) as [H1 H2]%Forall_app.
    pose proof (total_nonneg _ H1). pose proof (total_nonneg _ H2). destruct Hheap as (? & ? & ?).
    pose proof kheapbase_pos. rewrite u64_small; [done|]. unfold in_u64. lia.
Qed.

(** C13. The kernel heap allocator.  From a state that satisfies the
    invariant, any sequence of allocations (of page multiples), frees and
    size queries runs to the end or panics at the free of a base that is
    not live; it never touches a bad node, loops for ever or runs out of
    nodes.  Every result is that of a map of live ranges: an allocated
    range lies in the heap and overlaps no live one, 0 is returned only
    when no gap of that size exists anywhere, and the sizes reported are the
    sums of the live ranges. *)
Theorem vmm_refines_ranges s live ops :
  vmm_ok SZ s live -> Forall vop_ok ops ->
  match run_vops ops s with
  | Ok rs s' => ∃ live', vrun SZ live ops rs live' ∧ vmm_ok SZ s' live'
  | Stop w => w = Panic ∧ ∃ ops1 b ops2 rs live',
      ops = ops1 ++ VFree b :: ops2 ∧ vrun SZ live ops1 rs live' ∧ b ∉ dom live'
  end.
Proof.
  intros Hok Hops. revert s live Hok. induction Hops as [|op ops Hop _ IH]; intros s live Hok; simpl.
  { exists live. split; [constructor|done]. }
  assert ((∃ r s1 live1, run_vop op s = Ok r s1 ∧ vstep SZ live op r live1 ∧ vmm_ok SZ s1 live1) ∨
    (run_vop op s = Stop Panic ∧ ∃ b, op = VFree b ∧ b ∉ dom live)) as Hstep.
  { destruct op as [sz|b| |].
    - left. destruct Hop as [? ?]. destruct (proj1 (wp_run _ _ _) (run_valloc s live sz Hok ltac:(done) ltac:(done)))
        as (r & s1 & E & live1 & ? & ?). by eauto 10.
    - destruct (decide (b ∈ dom live)) as [Hb|Hb].
      + left. destruct (proj1 (wp_run _ _ _) (run_vfree s live b Hok Hb)) as ([] & s1 & E & ?).
        exists 0, s1, (delete b live). simpl. unfold mbind, M_bind. rewrite E. split_and!; [done|by constructor|done].
      + right. split; [|by eauto]. destruct Hok as (fr & us & fn & Hi & ->). simpl. unfold mbind, M_bind.
        rewrite (vmm_free_unknown SZ Hheap s fr us fn b); [done|done|]. by rewrite live_dom in Hb.
    - left. destruct (proj1 (wp_run _ _ _) (proj1 (run_vsizes s live Hok))) as (r & s1 & E & -> & ->).
      eexists _, s, live. split_and!; [exact E|constructor|done].
    - left. destruct (proj1 (wp_run _ _ _) (proj2 (run_vsizes s live Hok))) as (r & s1 & E & -> & ->).
      eexists _, s, live. split_and!; [exact E|constructor|done]. }
  unfold mbind, M_bind. destruct Hstep as [(r & s1 & live1 & -> & Hst & Hok1)|(-> & b & -> & Hb)].
  - specialize (IH s1 live1 Hok1). destruct (run_vops ops s1) as [rs s2|w].
    + destruct IH as (live2 & Hrun & Hok2). exists live2. split; [by econstructor|done].
    + destruct IH as (-> & ops1 & b & ops2 & rs & live2 & -> & Hrun & Hb). split; [done|].
      exists (op :: ops1), b, ops2, (r :: rs), live2. split_and!; [done|by econstructor|done].
  - split; [done|]. exists [], b, ops, [], live. split_and!; [done|constructor|done].
Qed.

Lemma spread_single l : tiling KHEAPBASE (KHEAPBASE + SZ) l -> spread l -> l = [(KHEAPBASE, SZ)].
Proof.
  intros (l' & P & Ht) Hs. destruct l' as [|r l'].
  - simpl in Ht. destruct Hheap as (? & _). lia.
  - simpl in Ht. destruct Ht as (E & Hpos & Ht). destruct l' as [|q l'].
    + simpl in Ht. apply Permutation_singleton_l in P. subst l. destruct r as [b n]. simpl in *. subst b.
      f_equal. f_equal. lia.
    + exfalso. simpl in Ht. destruct Ht as (Eq & Hq & _).
      assert (r ∈ l) as Hr by (rewrite <- P; set_solver). assert (q ∈ l) as Hq' by (rewrite <- P; set_solver).
      apply list_elem_of_split in Hr as (l1 & l2 & ->).
      apply spread_app in Hs as (_ & Hs2 & Hs1). apply spread_cons in Hs2 as [_ Hs2]. unfold apart in *.
      apply elem_of_app in Hq' as [Hx|[->|Hx]%elem_of_cons]; [|lia|].
      * specialize (Hs1 q r Hx ltac:(set_solver)). lia.
      * specialize (Hs2 q Hx). lia.
Qed.

(** With nothing allocated, the free list is one node with the whole heap. *)
Lemma empty_free_list s fr us fn : vinv SZ s fr us fn -> live_map us = ∅ ->
  us = [] ∧ ∃ p, fr = [(p, (KHEAPBASE, SZ))].
Proof.
  intros Hi E. assert (us = []) as ->.
  { destruct us as [|[p [b n]] us]; [done|]. unfold live_map in E. simpl in E.
    by apply insert_non_empty in E. }
  split; [done|]. pose proof (vi_tiling _ _ _ _ _ Hi) as Ht. rewrite app_nil_r in Ht.
  pose proof (spread_single _ Ht (vi_spread _ _ _ _ _ Hi)) as Hsp.
  destruct fr as [|[p r] [|? ?]]; [done| |done]. exists p. simpl in Hsp. by injection Hsp as ->.
Qed.

Lemma alloc_from_empty s sz :
  vmm_ok SZ s ∅ -> 0 < sz <= SZ -> (PAGESZ | sz) ->
  wp (vmm_alloc SZ nodes sz) s (λ a s', a = KHEAPBASE ∧ vmm_ok SZ s' {[ KHEAPBASE := sz ]}).
Proof.
  intros (fr & us & fn & Hi & E) Hsz Hpg. symmetry in E.
  destruct (empty_free_list _ _ _ _ Hi E) as [-> [p ->]].
  eapply wp_vmm_alloc; [done|done|lia|done|..].
  - simpl. intros [Hlt _]%Forall_cons. simpl in Hlt. lia.
  - intros s' fr' fn' q r Hr _ Hi'. simpl in Hr. apply list_elem_of_singleton in Hr as ->. simpl in *.
    split; [done|]. exists fr', [(q, (KHEAPBASE, sz))], fn'. split; [done|].
    unfold live_map. simpl. by rewrite insert_empty.
Qed.

(** C14. No fragmentation survives.  Whenever nothing is allocated, however
    many ranges of whatever sizes were allocated and freed in whatever order
    before, the free list is one node with the whole heap and every request
    up to the size of the heap succeeds. *)
Theorem vmm_coalesces s :
  vmm_ok SZ s ∅ ->
  ∃ p fn, vrep s [(p, (KHEAPBASE, SZ))] [] fn ∧ used_virtual_mmsz s = 0 ∧
    ∀ sz, 0 < sz <= SZ -> (PAGESZ | sz) ->
      wp (vmm_alloc SZ nodes sz) s (λ a s', a = KHEAPBASE ∧ vmm_ok SZ s' {[ KHEAPBASE := sz ]}).
Proof.
  intros Hok. pose proof Hok as (fr & us & fn & Hi & E). symmetry in E.
  destruct (empty_free_list _ _ _ _ Hi E) as [-> [p ->]].
  exists p, fn. split; [apply Hi|]. split; [by rewrite (vi_used _ _ _ _ _ Hi)|].
  intros sz. by apply alloc_from_empty.
Qed.
End refinement.

(** ** Start-up *)

Section init.
Context (SZ : Z) (nodes : ptr) (Hheap : kheap_ok SZ).
(** The static array of nodes lies in the address space. *)
Context (Harr : 0 < nodes ∧ nodes + 32 * (SZ / PAGESZ) < two64).

Abbreviation N := (Z.to_nat (KHEAP_MAX_NODES SZ)).
Abbreviation at_ := (λ i : nat, nodes_at nodes (Z.of_nat i)).

Lemma max_nodes_pos : 0 < KHEAP_MAX_NODES SZ.
Proof.
  destruct Hheap as (Hs & [k ->] & _). unfold KHEAP_MAX_NODES, PAGESZ in *. rewrite Z.div_mul by lia. lia.
Qed.

Lemma at_eq i : (i < N)%nat -> at_ i = nodes + 32 * Z.of_nat i ∧ at_ i ≠ NULL.
Proof.
  intros Hi. unfold nodes_at, KHEAP_MAX_NODES in *. rewrite u64_small; unfold in_u64, NULL; lia.
Qed.

Lemma at_inj i j : (i < N)%nat -> (j < N)%nat -> at_ i = at_ j -> i = j.
Proof. intros Hi Hj. destruct (at_eq i Hi) as [-> _]. destruct (at_eq j Hj) as [-> _]. lia. Qed.

(** After [k] rounds of the loop the first [k] nodes are chained. *)
Definition chained (k : nat) (m : gmap ptr node_t) : Prop :=
  ∀ i, (i < N)%nat -> m !! at_ i = Some (if decide (i < k)%nat
    then VNode 0 (nodes_at nodes (Z.of_nat i + 1)) (nodes_at nodes (Z.of_nat i - 1)) 0 else VNode 0 NULL NULL 0).

Lemma zero_chained : chained 0 (zero_nodes SZ nodes).
Proof.
  intros i Hi. rewrite decide_False by lia. unfold zero_nodes.
  apply elem_of_list_to_map_1; [|apply (list_elem_of_fmap_2' _ _ i); [apply elem_of_seq; lia|done]].
  rewrite <- list_fmap_compose. apply NoDup_fmap_2_strong; [|apply NoDup_seq].
  intros j k Hj%elem_of_seq Hk%elem_of_seq E. apply at_inj in E; lia.
Qed.

Lemma wp_vmm_init_loop n j m s (Q : unit -> vmm -> Prop) :
  chained j m -> (j + n <= N)%nat ->
  (∀ m', chained (j + n) m' -> Q tt (set_nodes m' s)) ->
  wp (vmm_init_loop nodes (seq j n)) (set_nodes m s) Q.
Proof.
  revert j m. induction n as [|n IH]; intros j m Hc Hle HQ; simpl.
  - apply wp_ret. apply HQ. by rewrite Nat.add_0_r.
  - destruct (at_eq j ltac:(lia)) as [_ Hnn]. pose proof (Hc j ltac:(lia)) as Hj.
    wp_step. eapply wp_vupd; [done|exact Hj|].
    wp_step. eapply wp_vupd; [done|simpl; by rewrite lookup_alter_eq, Hj|].
    cbn [v_nodes set_nodes]. rewrite alter_alter_eq. apply (IH (S j)); [|lia|].
    + intros i Hi. destruct (decide (i = j)) as [->|Hne].
      * rewrite lookup_alter_eq, Hj. rewrite decide_False, decide_True by lia. done.
      * rewrite lookup_alter_ne by (intros E; apply at_inj in E; lia). rewrite (Hc i Hi).
        by rewrite (decide_ext (i < j)%nat (i < S j)%nat) by lia.
    + intros m' Hm'. apply HQ. by rewrite Nat.add_succ_r.
Qed.

(** The free-node list of a chained array. *)
Lemma chain_sseg (m : gmap ptr node_t) n j :
  (j + n = N)%nat ->
  (∀ i, (i < N)%nat -> ∃ v, m !! at_ i = Some v ∧
     n_next v = if decide (S i = N) then NULL else at_ (S i)) ->
  sseg m (at_ <$> seq j n).
Proof.
  intros Hn Hm. revert j Hn. induction n as [|n IH]; intros j Hn; simpl; [done|]. split; [|apply IH; lia].
  destruct (Hm j ltac:(lia)) as (v & Hv & Hnx). exists v. split; [done|]. rewrite Hnx.
  destruct n as [|n]; [by rewrite decide_True by lia|]. by rewrite decide_False by lia.
Qed.

Lemma wp_vmm_init_nodes {A} (k : M vmm A) Q :
  (∀ s, vrep s [] [] (at_ <$> seq 0 N) -> vrest s = (false, 0, false) -> wp k s Q) ->
  wp (modify (set_nodes (zero_nodes SZ nodes));;
      vmm_init_loop nodes (seq 0 (Z.to_nat (KHEAP_MAX_NODES SZ - 1)));;
      vupd (nodes_at nodes 0) (n_set_prev NULL);;
      vupd (nodes_at nodes (KHEAP_MAX_NODES SZ - 1)) (n_set_next NULL);;
      vupd (nodes_at nodes (KHEAP_MAX_NODES SZ - 1)) (n_set_prev (nodes_at nodes (KHEAP_MAX_NODES SZ - 1 - 1)));;
      modify (set_freenodes_head (nodes_at nodes 0));;
      modify (set_freenodes_tail (nodes_at nodes (KHEAP_MAX_NODES SZ - 1)));; k) vmm_boot Q.
Proof.
  intros HQ. pose proof max_nodes_pos as HN. wp_step. wp_step.
  wp_step. apply wp_vmm_init_loop; [apply zero_chained|lia|]. intros m Hm. rewrite Nat.add_0_l in Hm.
  set (last := (N - 1)%nat).
  assert (nodes_at nodes (KHEAP_MAX_NODES SZ - 1) = at_ last) as -> by (f_equal; lia).
  replace (nodes_at nodes 0) with (at_ 0%nat) by done.
  pose proof (Hm 0%nat ltac:(lia)) as H0. pose proof (Hm last ltac:(lia)) as Hlast.
  destruct (at_eq 0 ltac:(lia)) as [_ Hn0]. destruct (at_eq last ltac:(lia)) as [_ Hnl].
  wp_step. eapply wp_vupd; [done|exact H0|].
  assert (∃ v, alter (n_set_prev NULL) (at_ 0%nat) m !! at_ last = Some v) as [v Hv].
  { apply lookup_alter_is_Some. by eexists. }
  wp_step. eapply wp_vupd; [done|exact Hv|].
  wp_step. eapply wp_vupd; [done|simpl; by rewrite lookup_alter_eq, Hv|]. simpl v_nodes.
  rewrite alter_alter_eq. wp_step. wp_step. wp_step. wp_step. set (s' := set_freenodes_tail _ _).
  apply HQ; [|done]. split; simpl; [apply dll_nil|apply dll_nil| |simpl; apply NoDup_fmap_2_strong; [|apply NoDup_seq]|by left].
  - split_and!.
    + destruct N eqn:E; [lia|]. done.
    + unfold last_ptr. rewrite fmap_last. replace N with (S last) by lia. rewrite seq_S, last_snoc. done.
    + intros (i & Ei & Hi%elem_of_seq)%list_elem_of_fmap. destruct (at_eq i ltac:(lia)) as [_ ?]. done.
    + apply chain_sseg; [lia|]. intros i Hi. pose proof (Hm i Hi) as Hmi.
      destruct (decide (i = last)) as [->|Hne].
      * rewrite lookup_alter_eq, Hv. eexists. split; [done|]. by rewrite decide_True by lia.
      * rewrite lookup_alter_ne by (intros E; apply at_inj in E; lia).
        rewrite decide_True in Hmi by lia. rewrite (decide_False (P := S i = N)) by lia.
        destruct (decide (i = 0%nat)) as [->|H0i].
        -- rewrite lookup_alter_eq, Hmi. eexists. split; [done|]. simpl. f_equal.
        -- rewrite lookup_alter_ne by (intros E; apply (at_inj 0) in E; lia). rewrite Hmi.
           eexists. split; [done|]. simpl. f_equal. lia.
  - intros i i' Hi%elem_of_seq Hk%elem_of_seq E. apply at_inj in E; lia.
Qed.

Lemma wp_vmm_init (Q : Z -> vmm -> Prop) :
  (∀ s, vmm_ok SZ s ∅ -> Q 0 s) -> wp (vmm_init SZ nodes) vmm_boot Q.
Proof.
  intros HQ. unfold vmm_init. pose proof max_nodes_pos as HN. pose proof Hheap as (Hs & Hpg & Hend).
  apply wp_vmm_init_nodes. intros s Hr Hrest. injection Hrest as E1 E2 E3.
  wp_step. eapply (wp_freenodes_get s); [exact Hr|..].
  { intros E. apply fmap_nil_inv, (f_equal length) in E. rewrite length_seq in E. simpl in E. lia. }
  intros p fn s1 Ep Hp Hr1 Hn1 _ Hrest1. injection Hrest1 as E4 E5 E6.
  assert (p ∉ addrs ([] : rlist) ++ addrs ([] : rlist) ++ fn) as Hout.
  { pose proof (vr_nodup _ _ _ _ Hr) as Hnd. rewrite Ep in Hnd. simpl in Hnd. by apply NoDup_cons in Hnd as [? _]. }
  assert (length fn = (N - 1)%nat) as Hlen.
  { apply (f_equal length) in Ep. rewrite length_fmap, length_seq in Ep. simpl in Ep. lia. }
  wp_step. eapply wp_vupd; [done|exact Hn1|].
  wp_step. eapply (wp_freevmr_put _ [] [] fn p (KHEAPBASE, SZ)).
  { split; [|done|done| |unfold reg_ok; simpl; lia|constructor].
    - apply vrep_frame; [|done]. intros x Hx. rewrite lookup_alter_ne; [done|]. by intros ->.
    - exists NULL, NULL. simpl. by rewrite lookup_alter_eq, Hn1. }
  { constructor. }
  intros s2 fr' rel (xs & ys & E & _ & _ & Hpf) Hr2 Hrest2 _. injection Hrest2 as E7 E8 E9.
  symmetry in E. apply app_nil in E as [-> ->].
  assert (fr' = [(p, (KHEAPBASE, SZ))] ∧ rel = []) as [-> ->].
  { inversion Hpf; subst; try done;
      match goal with H : _ ++ [_] = [] |- _ => by apply app_nil in H as [_ ?] end. }
  rewrite app_nil_r in Hr2. wp_step. wp_step. apply wp_ret, HQ.
  exists [(p, (KHEAPBASE, SZ))], [], fn. split; [|done]. split; simpl.
  - by eapply vrep_misc.
  - exists [(KHEAPBASE, SZ)]. split; [done|]. simpl. lia.
  - repeat constructor.
  - by repeat constructor.
  - rewrite Hlen. unfold KHEAP_MAX_NODES in *. lia.
  - rewrite E8. simpl. congruence.
  - done.
  - rewrite E9. simpl. congruence.
Qed.

(** An allocation on a heap that is not online yet initialises it first. *)
Lemma wp_vmm_alloc_offline s sz (Q : Z -> vmm -> Prop) :
  vmm_online s = false ->
  wp (vmm_init SZ nodes) s (λ _ s1, vmm_online s1 = true ∧ wp (vmm_alloc SZ nodes sz) s1 Q) ->
  wp (vmm_alloc SZ nodes sz) s Q.
Proof.
  intros Hoff Hwp. unfold vmm_alloc at 1. wp_step. wp_step. rewrite Hoff. wp_step. simpl. wp_step.
  eapply wp_mono; [exact Hwp|]. intros _ s1 [Hon Hal]. apply wp_ret.
  unfold vmm_alloc, wp at 1, mbind at 1, M_bind at 1, gets at 1 in Hal. rewrite Hon in Hal. exact Hal.
Qed.

(** Start-up.  [vmm_init] turns the static array into the pool of
    spare nodes and one free region that is the whole heap; the first
    allocation may come before it and initialises on its own. *)
Theorem vmm_init_establishes :
  wp (vmm_init SZ nodes) vmm_boot (λ r s, r = 0 ∧ vmm_ok SZ s ∅) ∧
  ∀ sz, 0 < sz <= SZ -> (PAGESZ | sz) ->
    wp (vmm_alloc SZ nodes sz) vmm_boot (λ a s, a = KHEAPBASE ∧ vmm_ok SZ s {[ KHEAPBASE := sz ]}).
Proof.
  split; [by apply wp_vmm_init|]. intros sz Hsz Hpg. apply wp_vmm_alloc_offline; [done|].
  apply wp_vmm_init. intros s Hok. split; [|by apply alloc_from_empty].
  by destruct Hok as (fr & us & fn & [] & _).
Qed.
End init.

(** A heap of sixteen pages with its node array at address 1000. *)
Lemma kheap_16 : kheap_ok 65536.
Proof. split_and!; [done|by exists 16|done]. Qed.
Lemma kheap_4G_ok : kheap_ok kheapsz_4G.
Proof. split_and!; [done|by exists 1048576|done]. Qed.

Lemma vmm_init_establishes_witness :
  wp (vmm_init 65536 1000) vmm_boot (λ r s, r = 0 ∧ vmm_ok 65536 s ∅) ∧
  ∀ sz, 0 < sz <= 65536 -> (PAGESZ | sz) ->
    wp (vmm_alloc 65536 1000 sz) vmm_boot (λ a s, a = KHEAPBASE ∧ vmm_ok 65536 s {[ KHEAPBASE := sz ]}).
Proof. apply vmm_init_establishes; [exact kheap_16|done]. Defined.

(** The state after start-up of that heap. *)
Definition heap16 : vmm :=
  match vmm_init 65536 1000 vmm_boot with Ok _ s => s | Stop _ => vmm_boot end.

Lemma heap16_ok : vmm_ok 65536 heap16 ∅.
Proof.
  pose proof (wp_vmm_init 65536 1000 kheap_16 ltac:(done) (λ _ s, vmm_ok 65536 s ∅) (λ _ H, H)) as H.
  unfold heap16. unfold wp in H. by destruct (vmm_init 65536 1000 vmm_boot).
Qed.

Lemma vmm_refines_ranges_witness :
  let ops := [VAlloc 8192; VFree KHEAPBASE; VInUse] in
  match run_vops 65536 1000 ops heap16 with
  | Ok rs s' => ∃ live', vrun 65536 ∅ ops rs live' ∧ vmm_ok 65536 s' live'
  | Stop w => w = Panic ∧ ∃ ops1 b ops2 rs live',
      ops = ops1 ++ VFree b :: ops2 ∧ vrun 65536 ∅ ops1 rs live' ∧ b ∉ dom live'
  end.
Proof.
  apply (vmm_refines_ranges 65536 1000 kheap_16 heap16 ∅); [exact heap16_ok|].
  repeat constructor. by exists 2.
Defined.

Lemma vmm_coalesces_witness :
  ∃ p fn, vrep heap16 [(p, (KHEAPBASE, 65536))] [] fn ∧ used_virtual_mmsz heap16 = 0 ∧
    ∀ sz, 0 < sz <= 65536 -> (PAGESZ | sz) ->
      wp (vmm_alloc 65536 1000 sz) heap16 (λ a s', a = KHEAPBASE ∧ vmm_ok 65536 s' {[ KHEAPBASE := sz ]}).
Proof. apply (vmm_coalesces 65536 1000 kheap_16). exact heap16_ok. Defined.

Example vmm_run_example :
  match run_vops 65536 1000 [VAlloc 4096; VAlloc 8192; VAlloc 4096; VFree (KHEAPBASE + 4096); VAlloc 4096;
      VInUse; VFree KHEAPBASE; VFree (KHEAPBASE + 12288); VFree (KHEAPBASE + 4096); VAlloc 65536; VAlloc 4096]
    vmm_boot with
  | Ok rs _ => rs = [KHEAPBASE; KHEAPBASE + 4096; KHEAPBASE + 12288; 0; KHEAPBASE + 4096;
                     12; 0; 0; 0; KHEAPBASE; 0]
  | Stop _ => False
  end.
Proof. vm_compute. reflexivity. Qed.
