(* ===== verification/Mmap.v ===== *)
(** * kernel/mm/mmap.c: user address spaces

    An address space is a sorted list of disjoint memory regions with holes
    between them.  This file holds the structures and every operation of
    mmap.c but the printing ones and [mmap_argenvcpy]; [MmapSpec] has the
    theorems.

    The page tables are another component: what mmap.c calls of it is the
    class [ArchVm], an abstract machine state and the calls that change it. *)

From S2P Require Import Prelude Dll.

(** struct vmr without its two links *)
Record vbody := VBody {
  v_refs : Z;
  v_flags : Z;
  v_vflags : Z;
  v_priv : ptr;
  v_file : ptr;
  v_filesz : Z;
  v_memsz : Z;
  v_file_pos : Z;
  v_mmap : ptr;
  v_vmops : ptr;
  v_paddr : Z;
  v_start : Z;
  v_end : Z;
}.

(** struct vmr *)
Record vmr_t := Vmr {
  v_prev : ptr;
  v_body : vbody;
  v_next : ptr;
}.

Definition vmr_zero : vmr_t := Vmr NULL (VBody 0 0 0 0 0 0 0 0 0 0 0 0 0) NULL.

Definition vset_prev v r := Vmr v (v_body r) (v_next r).
Definition vset_next v r := Vmr (v_prev r) (v_body r) v.
Definition on_body (f : vbody -> vbody) (r : vmr_t) : vmr_t := Vmr (v_prev r) (f (v_body r)) (v_next r).
Definition bset_refs v b := VBody v (v_flags b) (v_vflags b) (v_priv b) (v_file b) (v_filesz b)
  (v_memsz b) (v_file_pos b) (v_mmap b) (v_vmops b) (v_paddr b) (v_start b) (v_end b).
Definition bset_flags v b := VBody (v_refs b) v (v_vflags b) (v_priv b) (v_file b) (v_filesz b)
  (v_memsz b) (v_file_pos b) (v_mmap b) (v_vmops b) (v_paddr b) (v_start b) (v_end b).
Definition bset_vflags v b := VBody (v_refs b) (v_flags b) v (v_priv b) (v_file b) (v_filesz b)
  (v_memsz b) (v_file_pos b) (v_mmap b) (v_vmops b) (v_paddr b) (v_start b) (v_end b).
Definition bset_priv v b := VBody (v_refs b) (v_flags b) (v_vflags b) v (v_file b) (v_filesz b)
  (v_memsz b) (v_file_pos b) (v_mmap b) (v_vmops b) (v_paddr b) (v_start b) (v_end b).
Definition bset_file v b := VBody (v_refs b) (v_flags b) (v_vflags b) (v_priv b) v (v_filesz b)
  (v_memsz b) (v_file_pos b) (v_mmap b) (v_vmops b) (v_paddr b) (v_start b) (v_end b).
Definition bset_file_pos v b := VBody (v_refs b) (v_flags b) (v_vflags b) (v_priv b) (v_file b) (v_filesz b)
  (v_memsz b) v (v_mmap b) (v_vmops b) (v_paddr b) (v_start b) (v_end b).
Definition bset_mmap v b := VBody (v_refs b) (v_flags b) (v_vflags b) (v_priv b) (v_file b) (v_filesz b)
  (v_memsz b) (v_file_pos b) v (v_vmops b) (v_paddr b) (v_start b) (v_end b).
Definition bset_start v b := VBody (v_refs b) (v_flags b) (v_vflags b) (v_priv b) (v_file b) (v_filesz b)
  (v_memsz b) (v_file_pos b) (v_mmap b) (v_vmops b) (v_paddr b) v (v_end b).
Definition bset_end v b := VBody (v_refs b) (v_flags b) (v_vflags b) (v_priv b) (v_file b) (v_filesz b)
  (v_memsz b) (v_file_pos b) (v_mmap b) (v_vmops b) (v_paddr b) (v_start b) v.

#[export] Program Instance linked_vmr : Linked vmr_t vbody := {|
  l_mk a b n := Vmr a b n;
  set_prev := vset_prev;
  set_next := vset_next;
|}.
Next Obligation. done. Qed.
Next Obligation. done. Qed.

(** struct mmap *)
Record mmap_t := Mmap {
  m_flags : Z;
  m_refs : Z;
  m_priv : ptr;
  m_arg : ptr;
  m_env : ptr;
  m_heap : ptr;
  m_brk : Z;
  m_pgdir : Z;
  m_limit : Z;
  m_guard_len : Z;
  m_used_space : Z;
  m_head : ptr;
  m_tail : ptr;
  m_lock : bool;
}.

Definition mset_refs v m := Mmap (m_flags m) v (m_priv m) (m_arg m) (m_env m) (m_heap m) (m_brk m)
  (m_pgdir m) (m_limit m) (m_guard_len m) (m_used_space m) (m_head m) (m_tail m) (m_lock m).
Definition mset_used v m := Mmap (m_flags m) (m_refs m) (m_priv m) (m_arg m) (m_env m) (m_heap m) (m_brk m)
  (m_pgdir m) (m_limit m) (m_guard_len m) v (m_head m) (m_tail m) (m_lock m).
Definition mset_head v m := Mmap (m_flags m) (m_refs m) (m_priv m) (m_arg m) (m_env m) (m_heap m) (m_brk m)
  (m_pgdir m) (m_limit m) (m_guard_len m) (m_used_space m) v (m_tail m) (m_lock m).
Definition mset_tail v m := Mmap (m_flags m) (m_refs m) (m_priv m) (m_arg m) (m_env m) (m_heap m) (m_brk m)
  (m_pgdir m) (m_limit m) (m_guard_len m) (m_used_space m) (m_head m) v (m_lock m).
Definition mset_lock v m := Mmap (m_flags m) (m_refs m) (m_priv m) (m_arg m) (m_env m) (m_heap m) (m_brk m)
  (m_pgdir m) (m_limit m) (m_guard_len m) (m_used_space m) (m_head m) (m_tail m) v.
Definition mset_regions (arg env heap : ptr) m := Mmap (m_flags m) (m_refs m) (m_priv m) arg env heap (m_brk m)
  (m_pgdir m) (m_limit m) (m_guard_len m) (m_used_space m) (m_head m) (m_tail m) (m_lock m).

Definition PAGESZ : Z := 4096.
Definition USTACK : Z := 140737488355328.
Definition mmap_limit : Z := USTACK - 1.
Definition isaligned (p : Z) : bool := bool_decide (Z.land p (PAGESZ - 1) = 0).
Definition valid_addr (a : Z) : bool := bool_decide (a <= mmap_limit).
Definition has (flags bit : Z) : bool := bool_decide (Z.land flags bit ≠ 0).

Definition MMAP_USER : Z := 1.
Definition MAP_PRIVATE : Z := 1.
Definition MAP_SHARED : Z := 2.
Definition MAP_DONTEXPAND : Z := 4.
Definition MAP_ZERO : Z := 16.
Definition MAP_STACK : Z := 256.
Definition MAP_FIXED : Z := 4096.
Definition PROT_READ : Z := 1.
Definition PROT_WRITE : Z := 2.
Definition PROT_EXEC : Z := 4.
Definition VM_EXEC : Z := 1.
Definition VM_WRITE : Z := 2.
Definition VM_READ : Z := 4.
Definition VM_ZERO : Z := 8.
Definition VM_SHARED : Z := 16.
Definition VM_GROWSDOWN : Z := 256.
Definition VM_DONTEXPAND : Z := 512.
Definition PTE_R : Z := 1.
Definition PTE_W : Z := 2.
Definition PTE_X : Z := 1.
Definition PTE_U : Z := 4.

Definition vmr_size (b : vbody) : Z := u64 (v_end b - v_start b + 1).
Definition vmr_upper_bound (b : vbody) : Z := u64 (v_end b + 1).
Definition vmr_lower_bound (b : vbody) : Z := u64 (v_start b - 1).

(** What mmap.c uses of the page tables and the physical allocator. *)
Class ArchVm (H : Type) := {
  arch_unmap_n : Z -> Z -> H -> H;
  arch_mprotect : Z -> Z -> Z -> H -> Z * H;
  arch_getpgdir : H -> Z * Z * H;
  arch_putpgdir : Z -> H -> H;
  arch_fullvm_unmap : Z -> H -> H;
  arch_lazycpy : Z -> Z -> H -> Z * H;
  arch_swtchvm : Z -> H -> H;
  pmman_free : Z -> H -> H;
}.

Record mm (H : Type) := Mm {
  mm_vmrs : gmap ptr vmr_t;
  mm_maps : gmap ptr mmap_t;
  mm_arch : H;
  mm_ticks : nat;
}.
Arguments Mm {H} _ _ _ _.
Arguments mm_vmrs {H} _.
Arguments mm_maps {H} _.
Arguments mm_arch {H} _.
Arguments mm_ticks {H} _.

Section operations.
Context {H : Type} {AV : ArchVm H} {K : Kmalloc}.

Definition set_vmrs (v : gmap ptr vmr_t) (s : mm H) : mm H := Mm v (mm_maps s) (mm_arch s) (mm_ticks s).
Definition set_maps (v : gmap ptr mmap_t) (s : mm H) : mm H := Mm (mm_vmrs s) v (mm_arch s) (mm_ticks s).
Definition set_arch (v : H) (s : mm H) : mm H := Mm (mm_vmrs s) (mm_maps s) v (mm_ticks s).

#[export] Instance hl_vmrs : Heaplet (mm H) vmr_t := {| hl_get := mm_vmrs; hl_put := set_vmrs |}.
#[export] Instance hl_maps : Heaplet (mm H) mmap_t := {| hl_get := mm_maps; hl_put := set_maps |}.
#[export] Instance kheap_mm : Kheap (mm H) := {|
  kh_live s := dom (mm_vmrs s) ∪ dom (mm_maps s);
  kh_ticks := mm_ticks;
  kh_tick s := Mm (mm_vmrs s) (mm_maps s) (mm_arch s) (S (mm_ticks s));
|}.

Definition vm (p : ptr) : M (mm H) vmr_t := load p.
Definition vm_upd (p : ptr) (f : vmr_t -> vmr_t) : M (mm H) unit := update p f.
Definition vm_body (p : ptr) (f : vbody -> vbody) : M (mm H) unit := update p (on_body f).
Definition vm_refs (p : ptr) (d : Z) : M (mm H) unit := vm_body p (λ b, bset_refs (v_refs b + d) b).
Definition map_ (p : ptr) : M (mm H) mmap_t := load p.
Definition map_upd (p : ptr) (f : mmap_t -> mmap_t) : M (mm H) unit := update p f.
(** A call that changes the machine, and one that also returns a code. *)
Definition arch (f : H -> H) : M (mm H) unit := modify (λ s, set_arch (f (mm_arch s)) s).
Definition archr {A} (f : H -> A * H) : M (mm H) A := λ s,
  let '(a, h) := f (mm_arch s) in Ok a (set_arch h s).

Definition mmap_assert (m : ptr) : M (mm H) unit := assert_ (bool_decide (m ≠ NULL)).
Definition mmap_lock (m : ptr) : M (mm H) unit :=
  mmap_assert m;; x ← map_ m; assert_ (negb (m_lock x));; map_upd m (mset_lock true).
Definition mmap_unlock (m : ptr) : M (mm H) unit :=
  mmap_assert m;; x ← map_ m; assert_ (m_lock x);; map_upd m (mset_lock false).
Definition mmap_islocked (m : ptr) : M (mm H) bool := mmap_assert m;; x ← map_ m; mret (m_lock x).
Definition mmap_assert_locked (m : ptr) : M (mm H) unit := mmap_assert m;; x ← map_ m; assert_ (m_lock x).

(** A walk along the list visits every region at most once. *)
Definition vm_fuel : M (mm H) nat := gets (λ s, S (size (mm_vmrs s))).

(** [forlinked(tmp, first, next(tmp)) if (c(tmp)) return tmp;] *)
Fixpoint vm_walk (fuel : nat) (next : vmr_t -> ptr) (c : ptr -> vbody -> bool) (tmp : ptr) : M (mm H) ptr :=
  match fuel with
  | O => halt OutOfFuel
  | S fuel =>
      if decide (tmp = NULL) then mret NULL else
      v ← vm tmp;
      if c tmp (v_body v) then mret tmp else vm_walk fuel next c (next v)
  end.

Definition mmap_contains (m r : ptr) : M (mm H) Z :=
  if decide (m = NULL ∨ r = NULL) then mret (- EINVAL) else
  mmap_assert_locked m;;
  x ← map_ m; fuel ← vm_fuel;
  t ← vm_walk fuel v_next (λ t _, bool_decide (t = r)) (m_head x);
  mret (if decide (t = NULL) then 0 else 1).

Definition mmap_find (m : ptr) (addr : Z) : M (mm H) ptr :=
  if decide (m = NULL) then mret NULL else
  mmap_assert_locked m;;
  x ← map_ m; fuel ← vm_fuel;
  vm_walk fuel v_next (λ _ b, bool_decide (addr >= v_start b ∧ addr <= v_end b)) (m_head x).

Definition mmap_find_exact (m : ptr) (start end_ : Z) : M (mm H) ptr :=
  if decide (m = NULL) then mret NULL else
  mmap_assert_locked m;;
  p ← mmap_find m start;
  if decide (p = NULL) then mret NULL else
  v ← vm p;
  if decide (start ≠ v_start (v_body v) ∨ end_ ≠ v_end (v_body v)) then mret NULL else mret p.

(** The result and the value stored through [pnext]. *)
Definition mmap_find_vmr_next (m : ptr) (addr : Z) (pnext : bool) : M (mm H) (ptr * ptr) :=
  if decide (m = NULL ∨ pnext = false) then mret (NULL, NULL) else
  mmap_assert_locked m;;
  r ← mmap_find m addr;
  if decide (r ≠ NULL) then v ← vm r; mret (r, v_next v) else
  x ← map_ m; fuel ← vm_fuel;
  t ← vm_walk fuel v_next (λ _ b, bool_decide (addr < v_start b)) (m_head x);
  mret (NULL, t).

Definition mmap_find_vmr_prev (m : ptr) (addr : Z) (pprev : bool) : M (mm H) (ptr * ptr) :=
  if decide (m = NULL ∨ pprev = false) then mret (NULL, NULL) else
  mmap_assert_locked m;;
  r ← mmap_find m addr;
  if decide (r ≠ NULL) then v ← vm r; mret (r, v_prev v) else
  x ← map_ m; fuel ← vm_fuel;
  t ← vm_walk fuel v_prev (λ _ b, bool_decide (v_end b < addr)) (m_tail x);
  mret (NULL, t).

Definition mmap_find_vmr_overlap (m : ptr) (start end_ : Z) : M (mm H) ptr :=
  if decide (m = NULL) then mret NULL else
  mmap_assert_locked m;;
  r ← mmap_find m start;
  if decide (r = NULL) then mret NULL else
  v ← vm r;
  if decide (end_ <= v_end (v_body v)) then mret r else mret NULL.

Definition ishole (m : ptr) (addr : Z) : M (mm H) bool :=
  r ← mmap_find m addr; mret (bool_decide (r = NULL)).

(** The result and the value left in [*plen]. *)
Definition mmap_holesize (m : ptr) (addr : Z) (plen : bool) : M (mm H) (Z * Z) :=
  if decide (m = NULL ∨ plen = false) then mret (- EINVAL, 0) else
  mmap_assert_locked m;;
  x ← map_ m;
  if decide (addr > m_limit x) then mret (- EINVAL, 0) else
  hole ← ishole m addr;
  if negb hole then mret (- EINVAL, 0) else
  n ← mmap_find_vmr_next m addr true;
  if decide (n.2 = NULL) then mret (0, u64 (m_limit x + 1 - addr))
  else v ← vm n.2; mret (0, u64 (v_start (v_body v) - addr)).

(** [while (addr <= r->end) ...] of [mmap_mapin]. *)
Fixpoint mapin_check (fuel : nat) (m : ptr) (addr end_ : Z) : M (mm H) Z :=
  match fuel with
  | O => halt OutOfFuel
  | S fuel =>
      if decide (addr > end_) then mret 0 else
      f ← mmap_find m addr;
      if decide (f ≠ NULL) then mret (- EEXIST) else
      h ← mmap_holesize m addr true;
      if decide (h.2 = 0) then halt Panic else
      mapin_check fuel m (u64 (addr + h.2)) end_
  end.

(** [for (; right && right->start < r->start;) ...] of [mmap_mapin]. *)
Fixpoint mapin_place (fuel : nat) (start : Z) (left right : ptr) : M (mm H) (ptr * ptr) :=
  match fuel with
  | O => halt OutOfFuel
  | S fuel =>
      if decide (right = NULL) then mret (left, right) else
      v ← vm right;
      if decide (v_start (v_body v) < start) then
        mapin_place fuel start
          (if decide (vmr_upper_bound (v_body v) <= start) then right else left) (v_next v)
      else mret (left, right)
  end.

(** The [if (left)] and [else if (right)] branches of [mmap_mapin]: [r] is
    put behind [left], or in front of [right]. *)
Definition link_left (m r left : ptr) : M (mm H) unit :=
  vm_upd r (vset_prev left);;
  l ← vm left;
  when (bool_decide (v_next l = NULL)) (vm_refs left 1);;
  l ← vm left;
  vm_upd r (vset_next (v_next l));;
  (if decide (v_next l ≠ NULL) then
     vm_upd (v_next l) (vset_prev r);; vm_refs r 1
   else
     x ← map_ m;
     vm_refs (m_tail x) (-1);;
     map_upd m (mset_tail r);;
     vm_refs r 1);;
  vm_upd left (vset_next r);;
  vm_refs r 1.

Definition link_right (m r right : ptr) : M (mm H) unit :=
  vm_upd r (vset_next right);;
  g ← vm right;
  when (bool_decide (v_prev g = NULL)) (vm_refs right 1);;
  g ← vm right;
  vm_upd r (vset_prev (v_prev g));;
  (if decide (v_prev g ≠ NULL) then
     vm_upd (v_prev g) (vset_next r);; vm_refs r 1
   else
     x ← map_ m;
     vm_refs (m_head x) (-1);;
     map_upd m (mset_head r);;
     vm_refs r 1);;
  vm_upd right (vset_prev r);;
  vm_refs r 1.

(** The part of [mmap_mapin] that links [r], once its range is known to be free. *)
Definition mapin_link (m r : ptr) (fuel : nat) (st : Z) : M (mm H) unit :=
  x ← map_ m;
  if decide (m_head x = NULL) then
    map_upd m (mset_tail r);; map_upd m (mset_head r);; vm_refs r 1;; vm_refs r 1
  else
    lr ← mapin_place fuel st NULL (m_head x);
    left ← (if decide (lr.1 = NULL) then mret NULL else
            l ← vm lr.1;
            mret (if decide (v_start (v_body l) > st) then NULL else lr.1));
    let right := lr.2 in
    if decide (left ≠ NULL) then
      link_left m r left
    else when (bool_decide (right ≠ NULL)) (link_right m r right).

Definition mmap_mapin (m r : ptr) : M (mm H) Z :=
  if decide (m = NULL ∨ r = NULL) then mret (- EINVAL) else
  mmap_assert_locked m;;
  v ← vm r;
  if decide (vmr_size (v_body v) = 0) then mret (- EINVAL) else
  if decide (v_end (v_body v) > mmap_limit) then mret (- EINVAL) else
  c ← mmap_contains m r;
  if decide (c ≠ 0) then mret (- EEXIST) else
  fuel ← vm_fuel;
  err ← mapin_check fuel m (v_start (v_body v)) (v_end (v_body v));
  if decide (err ≠ 0) then mret err else
  vm_upd r (vset_next NULL);;
  vm_upd r (vset_prev NULL);;
  mapin_link m r fuel (v_start (v_body v));;
  vm_body r (bset_mmap m);;
  map_upd m (λ x, mset_refs (m_refs x + 1) x);;
  map_upd m (λ x, mset_used (u64 (m_used_space x + vmr_size (v_body v))) x);;
  mret 0.

Definition vmr_free (r : ptr) : M (mm H) unit :=
  if decide (r = NULL) then mret tt else
  v ← vm r;
  when (bool_decide (v_refs (v_body v) <= 0)) (vm_upd r (λ _, vmr_zero);; kfree vmr_t r).

Definition vmr_alloc : M (mm H) (Z * ptr) :=
  r ← kmalloc vmr_zero;
  if decide (r = NULL) then mret (- ENOMEM, NULL) else mret (0, r).

Definition vmr_can_split (b : vbody) (addr : Z) : bool :=
  bool_decide (v_start b < addr ∧ addr < v_end b).

(** [pvmr] is "not [NULL]"; the store [*pvmr = NULL] comes before the test. *)
Definition vmr_split (r : ptr) (addr : Z) (pvmr : bool) : M (mm H) (Z * ptr) :=
  if decide (r = NULL) then mret (- EINVAL, NULL) else
  v ← vm r;
  if negb (vmr_can_split (v_body v) addr) then mret (- EINVAL, NULL) else
  if negb pvmr then halt BadAccess else
  a ← vmr_alloc;
  if decide (a.1 ≠ 0) then mret (a.1, NULL) else
  let new := a.2 in
  vm_body new (λ b, bset_vflags (v_vflags (v_body v)) (bset_flags (v_flags (v_body v))
    (bset_file (v_file (v_body v)) (bset_end (v_end (v_body v)) (bset_start addr b)))));;
  when (bool_decide (v_file (v_body v) ≠ NULL))
    (vm_body new (λ b, bset_file_pos (v_file_pos b + (addr - v_start (v_body v))) b));;
  vm_body r (bset_end (u64 (addr - 1)));;
  err ← mmap_mapin (v_mmap (v_body v)) new;
  if decide (err ≠ 0) then vmr_free new;; mret (err, NULL) else
  mret (0, new).

Definition vmr_copy (rdst rsrc : ptr) : M (mm H) Z :=
  if decide (rdst = NULL ∨ rsrc = NULL) then mret (- EINVAL) else
  d ← vm rdst;
  s ← vm rsrc;
  if decide (v_mmap (v_body d) ≠ NULL ∧ v_mmap (v_body d) = v_mmap (v_body s)) then mret (- EINVAL) else
  vm_upd rdst (λ _, Vmr NULL (bset_priv NULL (bset_mmap NULL (bset_refs 0 (v_body s)))) NULL);;
  mret 0.

Definition vmr_clone (src : ptr) (pclone : bool) : M (mm H) (Z * ptr) :=
  if decide (src = NULL ∨ pclone = false) then mret (- EINVAL, NULL) else
  a ← vmr_alloc;
  if decide (a.1 ≠ 0) then mret (a.1, NULL) else
  err ← vmr_copy a.2 src;
  if decide (err ≠ 0) then vmr_free a.2;; mret (err, NULL) else
  mret (0, a.2).

(** The part of [mmap_remove] that takes [r] off the list. *)
Definition remove_unlink (m r : ptr) : M (mm H) unit :=
  v ← vm r;
  when (bool_decide (v_prev v ≠ NULL)) (vm_upd (v_prev v) (vset_next (v_next v));; vm_refs r (-1));;
  v ← vm r;
  when (bool_decide (v_next v ≠ NULL)) (vm_upd (v_next v) (vset_prev (v_prev v));; vm_refs r (-1));;
  v ← vm r;
  x ← map_ m;
  when (bool_decide (m_head x = r)) (
    map_upd m (mset_head (v_next v));;
    when (bool_decide (v_next v ≠ NULL)) (
      vm_upd (v_next v) (vset_prev NULL);;
      h ← vm (v_next v);
      when (bool_decide (v_next h = NULL)) (vm_refs (v_next v) (-1))));;
  v ← vm r;
  x ← map_ m;
  when (bool_decide (m_tail x = r)) (
    map_upd m (mset_tail (v_prev v));;
    when (bool_decide (v_prev v ≠ NULL)) (
      vm_upd (v_prev v) (vset_next NULL);;
      t ← vm (v_prev v);
      when (bool_decide (v_prev t = NULL)) (vm_refs (v_prev v) (-1)))).

Definition mmap_remove (m r : ptr) : M (mm H) Z :=
  if decide (m = NULL ∨ r = NULL) then mret (- EINVAL) else
  mmap_assert_locked m;;
  c ← mmap_contains m r;
  if decide (c = 0) then mret (- ENOENT) else
  remove_unlink m r;;
  vm_refs r (-1);;
  vm_body r (bset_mmap NULL);;
  map_upd m (λ x, mset_refs (m_refs x - 1) x);;
  v ← vm r;
  arch (arch_unmap_n (v_start (v_body v)) (vmr_size (v_body v)));;
  vmr_free r;;
  mret 0.

(** The rounds of [mmap_unmap]: per region at most one removal and one step
    over the hole behind it, plus the trimming of the first and last region. *)
Definition unmap_fuel : M (mm H) nat := gets (λ s, 2 * size (mm_vmrs s) + 4)%nat.

Fixpoint mmap_unmap_loop (fuel : nat) (m : ptr) (start len : Z) : M (mm H) unit :=
  match fuel with
  | O => halt OutOfFuel
  | S fuel =>
      if decide (len = 0) then mret tt else
      let end_ := u64 (start + len - 1) in
      e ← mmap_find_exact m start end_;
      if decide (e ≠ NULL) then
        mmap_remove m e;;
        mmap_unmap_loop fuel m (u64 (start + (end_ - start))) (u64 (len - (end_ - start)))
      else
      p ← mmap_find m start;
      if decide (p ≠ NULL) then
        v ← vm p;
        if decide (v_start (v_body v) = start) then
          if decide (vmr_size (v_body v) > len) then
            vm_body p (λ b, bset_start (u64 (v_start b + len)) b);;
            mmap_unmap_loop fuel m start 0
          else if decide (vmr_size (v_body v) < len) then
            mmap_remove m p;;
            mmap_unmap_loop fuel m (vmr_upper_bound (v_body v)) (u64 (len - vmr_size (v_body v)))
          else mmap_unmap_loop fuel m start len
        else if decide (v_end (v_body v) = start) then
          vm_body p (λ b, bset_end (u64 (v_end b - 1)) b);;
          mmap_unmap_loop fuel m start len
        else
          vmr_split p start false;;
          mmap_unmap_loop fuel m start len
      else
        h ← mmap_holesize m start true;
        if decide (h.2 = 0) then mret tt else
        let holesz := if decide (h.2 > len) then len else h.2 in
        mmap_unmap_loop fuel m (u64 (start + holesz)) (u64 (len - holesz))
  end.

Definition mmap_unmap (m : ptr) (start len : Z) : M (mm H) Z :=
  if decide (m = NULL ∨ len = 0) then mret (- EINVAL) else
  mmap_assert_locked m;;
  if negb (valid_addr (u64 (start + len - 1))) then mret (- EINVAL) else
  fuel ← unmap_fuel;
  mmap_unmap_loop fuel m start len;;
  mret 0.

Definition mmap_forced_mapin (m r : ptr) : M (mm H) Z :=
  if decide (m = NULL ∨ r = NULL) then mret (- EINVAL) else
  mmap_assert_locked m;;
  v ← vm r;
  err ← mmap_unmap m (v_start (v_body v)) (vmr_size (v_body v));
  if decide (err ≠ 0) then mret err else
  mmap_mapin m r.
(** [forlinked(tmp, ..., next)]: the gap behind [tmp], or the space above the
    last region; [None] when no gap is large enough. *)
Fixpoint hole_up (fuel : nat) (m : ptr) (size : Z) (tmp : ptr) : M (mm H) (option Z) :=
  match fuel with
  | O => halt OutOfFuel
  | S fuel =>
      if decide (tmp = NULL) then mret None else
      v ← vm tmp;
      let ub := vmr_upper_bound (v_body v) in
      if decide (v_next v ≠ NULL) then
        n ← vm (v_next v);
        if decide (u64 (v_start (v_body n) - ub) >= size) then mret (Some ub)
        else hole_up fuel m size (v_next v)
      else
        h ← mmap_holesize m ub true;
        mret (if decide (h.2 >= size) then Some ub else None)
  end.

(** The same walk downwards; the space below the first region counts only
    when [start - 1 > 0]. *)
Fixpoint hole_down (fuel : nat) (size : Z) (tmp : ptr) : M (mm H) (option Z) :=
  match fuel with
  | O => halt OutOfFuel
  | S fuel =>
      if decide (tmp = NULL) then mret None else
      v ← vm tmp;
      let st := v_start (v_body v) in
      if decide (v_prev v ≠ NULL) then
        q ← vm (v_prev v);
        if decide (u64 (st - vmr_upper_bound (v_body q)) >= size) then mret (Some (u64 (st - size)))
        else hole_down fuel size (v_prev v)
      else if decide (vmr_lower_bound (v_body v) > NULL ∧ st >= size) then mret (Some (u64 (st - size)))
      else hole_down fuel size (v_prev v)
  end.

Definition whence_start : Z := 0.
Definition whence_end : Z := 1.

Definition found (o : option Z) : Z * Z :=
  match o with Some a => (0, a) | None => (- ENOMEM, 0) end.

(** The result and the value left in [*paddr]. *)
Definition mmap_find_hole (m : ptr) (size : Z) (paddr : bool) (whence : Z) : M (mm H) (Z * Z) :=
  if decide (m = NULL ∨ paddr = false ∨ size = 0) then mret (- EINVAL, 0) else
  mmap_assert_locked m;;
  fuel ← vm_fuel;
  x ← map_ m;
  if decide (whence = whence_start) then
    h ← mmap_holesize m 0 true;
    if decide (h.2 >= size) then mret (0, 0) else
    found <$> hole_up fuel m size (m_head x)
  else if decide (whence = whence_end) then
    let a := u64 (m_limit x + 1 - size) in
    h ← mmap_holesize m a true;
    if decide (h.2 >= size) then mret (0, a) else
    found <$> hole_down fuel size (m_tail x)
  else mret (- ENOMEM, 0).

(** The part of [mmap_find_holeat] before its [error:] label; [None] is the
    jump there. *)
Definition holeat_start (m : ptr) (addr size : Z) (near : ptr) : M (mm H) (option Z) :=
  fuel ← vm_fuel;
  h ← mmap_holesize m addr true;
  if decide (h.2 >= size) then mret (Some addr) else
  x ← map_ m;
  let near := if decide (near ≠ NULL) then near else m_head x in
  gap ← (if decide (near = NULL) then mret None else
         v ← vm near;
         if decide (v_prev v = NULL) then mret None else
         q ← vm (v_prev v);
         let ub := vmr_upper_bound (v_body q) in
         mret (if decide (u64 (v_start (v_body v) - ub) >= size) then Some ub else None));
  match gap with
  | Some a => mret (Some a)
  | None => hole_up fuel m size near
  end.

Definition holeat_end (m : ptr) (size : Z) (near : ptr) : M (mm H) (option Z) :=
  fuel ← vm_fuel;
  x ← map_ m;
  let near := if decide (near ≠ NULL) then near else m_tail x in
  gap ← (if decide (near = NULL) then
           let a := u64 (m_limit x + 1 - size) in
           h ← mmap_holesize m a true;
           mret (if decide (h.2 >= size) then Some a else None)
         else
           v ← vm near;
           let ub := vmr_upper_bound (v_body v) in
           if decide (v_next v ≠ NULL) then
             n ← vm (v_next v);
             let st := v_start (v_body n) in
             mret (if decide (u64 (st - ub) >= size) then Some (u64 (st - size)) else None)
           else
             h ← mmap_holesize m ub true;
             mret (if decide (h.2 > size) then Some (u64 (ub + h.2 - size))
                   else if decide (h.2 = size) then Some ub else None));
  match gap with
  | Some a => mret (Some a)
  | None => hole_down fuel size near
  end.

Definition mmap_find_holeat (m : ptr) (addr size : Z) (paddr : bool) (whence : Z) : M (mm H) (Z * Z) :=
  if decide (m = NULL ∨ paddr = false ∨ size = 0) then mret (- EINVAL, 0) else
  mmap_assert_locked m;;
  near ← (if decide (addr = 0) then mret NULL
          else if decide (whence = whence_start) then snd <$> mmap_find_vmr_next m addr true
          else if decide (whence = whence_end) then snd <$> mmap_find_vmr_prev m addr true
          else mret NULL);
  r ← (if decide (whence = whence_start) then holeat_start m addr size near
       else if decide (whence = whence_end) then holeat_end m size near
       else mret None);
  match r with
  | Some a => mret (0, a)
  | None => mmap_find_hole m size true whence
  end.

Definition flag_if (c : bool) (bit : Z) : Z := if c then bit else 0.

(** [r->flags] from [prot] and [flags], and [r->vflags] from [r->flags]. *)
Definition region_flags (prot flags : Z) : Z :=
  Z.lor (flag_if (has prot PROT_EXEC) VM_EXEC) (Z.lor (flag_if (has prot PROT_READ) VM_READ)
    (Z.lor (flag_if (has prot PROT_WRITE) VM_WRITE) (Z.lor (flag_if (has flags MAP_ZERO) VM_ZERO)
    (Z.lor (flag_if (has flags MAP_SHARED) VM_SHARED) (Z.lor (flag_if (has flags MAP_STACK) VM_GROWSDOWN)
    (flag_if (has flags MAP_DONTEXPAND) VM_DONTEXPAND)))))).
Definition region_vflags (vmflags mapflags : Z) : Z :=
  Z.lor (flag_if (has vmflags VM_READ) PTE_R) (Z.lor (flag_if (has vmflags VM_WRITE) PTE_W)
    (Z.lor (flag_if (has vmflags VM_EXEC) PTE_X) (flag_if (has mapflags MMAP_USER) PTE_U))).

(** The result and the value left in [*pvmr]. *)
Definition mmap_map_region (m : ptr) (addr len prot flags : Z) (pvmr : bool) : M (mm H) (Z * ptr) :=
  let fixed := has flags MAP_FIXED in
  let stack := has flags MAP_STACK in
  if decide (m = NULL ∨ (fixed = false ∧ pvmr = false) ∨ len = 0) then mret (- EINVAL, NULL) else
  mmap_assert_locked m;;
  if fixed && negb (isaligned addr) then mret (- EINVAL, NULL) else
  if fixed && negb (valid_addr addr) then mret (- EINVAL, NULL) else
  if stack && (negb (isaligned addr) || negb (isaligned len)) then mret (- EINVAL, NULL) else
  if eqb (has flags MAP_PRIVATE) (has flags MAP_SHARED) then mret (- EINVAL, NULL) else
  if stack && negb (has prot PROT_READ && has prot PROT_WRITE) then mret (- EINVAL, NULL) else
  x ← map_ m;
  let len := if stack then u64 (len + m_guard_len x) else len in
  let whence := if stack then whence_end else whence_start in
  a ← (if fixed then mret (0, addr) else mmap_find_holeat m addr len true whence);
  if decide (a.1 ≠ 0) then mret (a.1, NULL) else
  let addr := a.2 in
  n ← vmr_alloc;
  if decide (n.1 ≠ 0) then mret (n.1, NULL) else
  let r := n.2 in
  let vf := region_flags prot flags in
  vm_body r (λ b, bset_vflags (region_vflags vf (m_flags x)) (bset_flags vf
    (bset_end (u64 (addr + len - 1)) (bset_start addr b))));;
  err ← (if fixed then mmap_forced_mapin m r else mmap_mapin m r);
  if decide (err ≠ 0) then vmr_free r;; mret (err, NULL) else
  mret (0, r).

Definition mmap_alloc_vmr (m : ptr) (size prot flags : Z) (pvmr : bool) : M (mm H) (Z * ptr) :=
  if decide (m = NULL ∨ pvmr = false) then mret (- EINVAL, NULL) else
  mmap_assert_locked m;;
  if has flags MAP_FIXED then mret (- EINVAL, NULL) else
  mmap_map_region m 0 size prot flags pvmr.

Definition mmap_alloc_stack (m : ptr) (size : Z) (pstack : bool) : M (mm H) (Z * ptr) :=
  if decide (m = NULL ∨ pstack = false) then mret (- EINVAL, NULL) else
  mmap_assert_locked m;;
  mmap_map_region m 0 size (Z.lor PROT_READ PROT_WRITE) (Z.lor MAP_STACK MAP_PRIVATE) pstack.

(** [incr] is signed; the sizes are read as signed 64-bit numbers. *)
Definition mmap_vmr_expand (m r : ptr) (incr : Z) : M (mm H) Z :=
  if decide (m = NULL ∨ r = NULL ∨ incr = 0) then mret (- EINVAL) else
  mmap_assert_locked m;;
  v ← vm r;
  let b := v_body v in
  if has (v_flags b) VM_DONTEXPAND then mret (- EINVAL) else
  let oldsz := s64 (vmr_size b) in
  let newsz := s64 (vmr_size b + incr) in
  if negb (has (v_flags b) VM_GROWSDOWN) then
    if decide (newsz > oldsz) then
      h ← mmap_holesize m (vmr_upper_bound b) true;
      if decide (h.1 ≠ 0) then mret h.1 else
      if decide (h.2 >= u64 incr) then
        vm_body r (λ b, bset_end (u64 (v_start b + newsz - 1)) b);; mret 0
      else mret (- ENOMEM)
    else if decide (newsz < 0) then mret (- EINVAL)
    else if decide (newsz = 0) then mmap_remove m r
    else vm_body r (λ b, bset_end (u64 (v_end b - (oldsz - newsz))) b);; mret 0
  else
    if decide (newsz > oldsz) then
      let hole_addr := u64 (v_start b - incr) in
      h ← mmap_holesize m hole_addr true;
      if decide (h.1 ≠ 0) then mret h.1 else
      if decide (h.2 >= u64 incr) then
        vm_body r (bset_start hole_addr);; mret 0
      else mret (- ENOMEM)
    else if decide (newsz < 0) then mret (- EINVAL)
    else if decide (newsz = 0) then mmap_remove m r
    else vm_body r (λ b, bset_start (u64 (v_start b + (oldsz - newsz))) b);; mret 0.

(** [*q = *r] with the links cleared, for a region just allocated. *)
Definition vm_dup (q r : ptr) (refs : Z) : M (mm H) unit :=
  v ← vm r; vm_upd q (λ _, Vmr NULL (bset_refs refs (v_body v)) NULL).

(** The splitting branch of [mmap_protect]: [r] is narrowed to
    [[addr, end_]] and the rest is mapped as one or two new regions. *)
Definition protect_split (m r : ptr) (addr end_ : Z) : M (mm H) Z :=
  tmp ← vm r;
  a ← vmr_alloc;
  if decide (a.1 ≠ 0) then mret a.1 else
  let split0 := a.2 in
  vm_dup split0 r 0;;
  if decide (v_start (v_body tmp) = addr) then
    vm_body r (bset_end end_);;
    vm_body split0 (bset_start (u64 (end_ + 1)));;
    err ← mmap_mapin m split0;
    if decide (err ≠ 0) then
      s0 ← vm split0;
      vm_body r (bset_end (v_end (v_body s0)));; vmr_free split0;; mret err
    else mret 0
  else if decide (v_end (v_body tmp) = end_) then
    vm_body r (bset_start addr);;
    vm_body split0 (bset_end (u64 (addr - 1)));;
    err ← mmap_mapin m split0;
    if decide (err ≠ 0) then
      s0 ← vm split0;
      vm_body r (bset_start (v_start (v_body s0)));; vmr_free split0;; mret err
    else mret 0
  else
    c ← vmr_alloc;
    if decide (c.1 ≠ 0) then vmr_free split0;; mret c.1 else
    let split1 := c.2 in
    vm_dup split1 r (v_refs (v_body tmp));;
    vm_body split0 (bset_refs 0);;
    vm_body r (bset_start addr);;
    vm_body split0 (bset_end (u64 (addr - 1)));;
    vm_body r (bset_end end_);;
    vm_body split1 (bset_start (u64 (end_ + 1)));;
    err ← mmap_mapin m split0;
    if decide (err ≠ 0) then
      vm_upd r (λ _, tmp);; vmr_free split0;; vmr_free split1;; mret err
    else
      err ← mmap_mapin m split1;
      if decide (err ≠ 0) then
        vm_upd r (λ _, tmp);; mmap_remove m split0;; vmr_free split0;; vmr_free split1;; mret err
      else mret 0.

Definition forge_prot (flags : Z) : Z :=
  Z.lor (flag_if (has flags VM_READ) PROT_READ) (Z.lor (flag_if (has flags VM_WRITE) PROT_WRITE)
    (flag_if (has flags VM_EXEC) PROT_EXEC)).
Definition prot_flags (prot : Z) : Z :=
  Z.lor (flag_if (has prot PROT_READ) VM_READ) (Z.lor (flag_if (has prot PROT_EXEC) VM_EXEC)
    (flag_if (has prot PROT_WRITE) VM_WRITE)).

Definition mmap_protect (m : ptr) (addr len prot : Z) : M (mm H) Z :=
  let end_ := u64 (addr + len - 1) in
  if decide (m = NULL ∨ len = 0) then mret (- EINVAL) else
  mmap_assert_locked m;;
  if negb (isaligned addr) || negb (isaligned len) then mret (- EINVAL) else
  if negb (valid_addr addr) then mret (- ENOMEM) else
  r ← mmap_find_vmr_overlap m addr end_;
  if decide (r = NULL) then mret (- ENOMEM) else
  v ← vm r;
  let b := v_body v in
  if has (v_flags b) VM_GROWSDOWN then mret (- EACCES) else
  let forged := forge_prot (v_flags b) in
  if decide (forged = prot) then mret 0 else
  if has prot PROT_WRITE && has prot PROT_EXEC then mret (- EACCES) else
  if has prot PROT_WRITE && has forged PROT_EXEC then mret (- EACCES) else
  if has prot PROT_EXEC && has forged PROT_WRITE then mret (- EACCES) else
  err ← (if decide (len < vmr_size b) then protect_split m r addr end_ else mret 0);
  if decide (err ≠ 0) then mret err else
  x ← map_ m;
  vm_body r (bset_flags (prot_flags prot));;
  vm_body r (bset_vflags (region_vflags (prot_flags prot) (m_flags x)));;
  v ← vm r;
  archr (arch_mprotect (v_start (v_body v)) (vmr_size (v_body v)) (v_vflags (v_body v))).

(** The fields [mmap_clean] resets; [pgdir] and the lock are kept. *)
Definition mmap_reset (x : mmap_t) : mmap_t :=
  Mmap MMAP_USER 0 NULL NULL NULL NULL 0 (m_pgdir x) mmap_limit PAGESZ 0 NULL NULL (m_lock x).

Definition mmap_clean (m : ptr) : M (mm H) Z :=
  if decide (m = NULL) then mret (- EINVAL) else
  mmap_assert_locked m;;
  x ← map_ m;
  err ← mmap_unmap m 0 (u64 (m_limit x + 1));
  if decide (err ≠ 0) then mret err else
  x ← map_ m;
  arch (arch_fullvm_unmap (m_pgdir x));;
  map_upd m mmap_reset;;
  mret 0.

Definition mmap_init (m : ptr) : M (mm H) Z :=
  if decide (m = NULL) then mret (- EINVAL) else
  mmap_assert_locked m;;
  err ← mmap_clean m;
  if decide (err ≠ 0) then mret err else
  fst <$> mmap_map_region m 0 16777216 0 (Z.lor MAP_FIXED (Z.lor MAP_PRIVATE MAP_DONTEXPAND)) false.

Definition mmap_alloc (ref : bool) : M (mm H) (Z * ptr) :=
  if negb ref then mret (- EINVAL, NULL) else
  g ← archr arch_getpgdir;
  if decide (g.1 ≠ 0) then mret (g.1, NULL) else
  m ← kmalloc (Mmap MMAP_USER 0 NULL NULL NULL NULL 0 g.2 mmap_limit PAGESZ 0 NULL NULL false);
  if decide (m = NULL) then arch (pmman_free g.2);; mret (- ENOMEM, NULL) else
  mmap_lock m;;
  err ← mmap_init m;
  if decide (err ≠ 0) then
    mmap_unlock m;; kfree mmap_t m;; arch (arch_putpgdir g.2);; mret (err, NULL)
  else mret (0, m).

Definition mmap_free (m : ptr) : M (mm H) unit :=
  if decide (m = NULL) then mret tt else
  locked ← mmap_islocked m;
  when (negb locked) (mmap_lock m);;
  mmap_clean m;;
  x ← map_ m;
  if decide (m_refs x <= 0) then
    when (bool_decide (m_pgdir x ≠ 0)) (arch (pmman_free (m_pgdir x)));;
    mmap_unlock m;;
    kfree mmap_t m
  else mmap_unlock m.

(** [forlinked(tmp, src->vmr_head, tmp->next)] of [mmap_copy]. *)
Fixpoint copy_loop (fuel : nat) (dst tmp : ptr) : M (mm H) Z :=
  match fuel with
  | O => halt OutOfFuel
  | S fuel =>
      if decide (tmp = NULL) then mret 0 else
      c ← vmr_clone tmp true;
      if decide (c.1 ≠ 0) then mret c.1 else
      err ← mmap_mapin dst c.2;
      if decide (err ≠ 0) then vmr_free c.2;; mret err else
      v ← vm tmp;
      copy_loop fuel dst (v_next v)
  end.

(** The region of [dst] at the start of a designated region of [src]. *)
Definition same_region (dst r : ptr) : M (mm H) ptr :=
  if decide (r = NULL) then mret NULL else v ← vm r; mmap_find dst (v_start (v_body v)).

Definition mmap_copy (dst src : ptr) : M (mm H) Z :=
  if decide (dst = NULL ∨ src = NULL) then mret (- EINVAL) else
  mmap_assert_locked src;;
  mmap_assert_locked dst;;
  x ← map_ src;
  map_upd dst (λ d, Mmap (m_flags x) 0 NULL NULL NULL NULL (m_brk d) (m_pgdir d) (m_limit x)
    (m_guard_len x) 0 NULL NULL (m_lock d));;
  fuel ← vm_fuel;
  x ← map_ src;
  err ← copy_loop fuel dst (m_head x);
  if decide (err ≠ 0) then mret err else
  x ← map_ src;
  arg ← same_region dst (m_arg x);
  env ← same_region dst (m_env x);
  heap ← same_region dst (m_heap x);
  map_upd dst (mset_regions arg env heap);;
  d ← map_ dst;
  err ← archr (arch_lazycpy (m_pgdir d) (m_pgdir x));
  mret err.

Definition mmap_clone (m : ptr) (pclone : bool) : M (mm H) (Z * ptr) :=
  if decide (m = NULL ∨ pclone = false) then mret (- EINVAL, NULL) else
  mmap_assert_locked m;;
  a ← mmap_alloc true;
  if decide (a.1 ≠ 0) then mret (a.1, NULL) else
  let clone := a.2 in
  mmap_lock clone;;
  err ← mmap_copy clone m;
  if decide (err ≠ 0) then mmap_free clone;; mret (err, NULL) else
  mmap_unlock clone;;
  mret (0, clone).

Definition mmap_focus (m : ptr) : M (mm H) Z :=
  if decide (m = NULL) then mret (- EINVAL) else
  mmap_assert_locked m;;
  x ← map_ m;
  if decide (m_pgdir x = 0) then mret (- EINVAL) else
  arch (arch_swtchvm (m_pgdir x));;
  mret 0.
End operations.
