(* ===== verification/MmapSpec.v ===== *)
(** * The address space of mmap.c against sorted disjoint regions

    [mrep s m x xs]: the map [m] of the state [s] is locked and its list of
    regions is [xs] (addresses and struct contents).  [space_ok] is the
    invariant of an address space: regions are sorted, disjoint and below the
    limit.  The theorems say what lookups return, that a hole found is free,
    what mapping, removing and unmapping do to the list, and that every
    operation keeps the invariant. *)

From S2P Require Import Prelude Dll Mmap.

(** The reference counts of regions only decide whether a removed region is
    freed; the list is related to the heap with the counts erased. *)
Definition erase (v : vmr_t) : vmr_t := on_body (bset_refs 0) v.
Abbreviation rlist := (list (ptr * vbody)).

Definition covers (a : Z) (b : vbody) : Prop := v_start b <= a <= v_end b.
#[export] Instance covers_dec a b : Decision (covers a b).
Proof. unfold covers. apply _. Defined.

Definition region_ok (b : vbody) : Prop := 0 <= v_start b <= v_end b ∧ v_end b <= mmap_limit.
Definition before (b c : vbody) : Prop := v_end b < v_start c.
Definition space_ok (xs : rlist) : Prop := Forall region_ok xs.*2 ∧ StronglySorted before xs.*2.

(** No region meets the [n] addresses from [a] on, all of them legal. *)
Definition free_at (xs : rlist) (a n : Z) : Prop :=
  0 <= a ∧ 0 < n ∧ a + n - 1 <= mmap_limit ∧
  ∀ b, b ∈ xs.*2 -> v_end b < a ∨ a + n <= v_start b.

(** The first region of a list that satisfies a test. *)
Fixpoint first_sat (c : ptr -> vbody -> bool) (xs : rlist) : ptr :=
  match xs with
  | [] => NULL
  | (p, b) :: xs => if c p b then p else first_sat c xs
  end.

Section spec.
Context {H : Type} {AV : ArchVm H} {K : Kmalloc}.
Implicit Types (s : mm H) (xs ys : rlist) (h : gmap ptr vmr_t).

Definition mrep s (m : ptr) (x : mmap_t) xs : Prop :=
  m ≠ NULL ∧ mm_maps s !! m = Some x ∧ m_lock x = true ∧
  dll (erase <$> mm_vmrs s) (m_head x) (m_tail x) xs.

(** ** Symbolic execution up to reference counts *)

Lemma erase_lookup h p w : (erase <$> h) !! p = Some w ->
  ∃ v, h !! p = Some v ∧ erase v = w.
Proof. rewrite lookup_fmap. destruct (h !! p); naive_solver. Qed.

Lemma erase_shape v a b n : erase v = Vmr a b n ->
  v_prev v = a ∧ v_next v = n ∧ bset_refs 0 (v_body v) = b.
Proof. destruct v. unfold erase, on_body. simpl. naive_solver. Qed.

(** Reading a region: everything but its count is known. *)
Lemma wp_vm s p w (Q : vmr_t -> mm H -> Prop) :
  p ≠ NULL -> (erase <$> mm_vmrs s) !! p = Some w ->
  (∀ v, mm_vmrs s !! p = Some v -> erase v = w -> Q v s) -> wp (vm p) s Q.
Proof.
  intros Hp (v & Hv & He)%erase_lookup HQ. unfold vm.
  eapply wp_load; [done|exact Hv|]. by apply HQ.
Qed.

(** A store that commutes with erasing. *)
Lemma wp_vm_upd s p f w (Q : unit -> mm H -> Prop) :
  p ≠ NULL -> (erase <$> mm_vmrs s) !! p = Some w -> (∀ v, erase (f v) = f (erase v)) ->
  (∀ h', erase <$> h' = <[p := f w]> (erase <$> mm_vmrs s) ->
     Q tt (Mm h' (mm_maps s) (mm_arch s) (mm_ticks s))) ->
  wp (vm_upd p f) s Q.
Proof.
  intros Hp (v & Hv & <-)%erase_lookup Hf HQ. unfold vm_upd.
  eapply wp_update; [done|exact Hv|]. apply HQ.
  by rewrite fmap_insert, Hf.
Qed.

Lemma wp_vm_body s p f w (Q : unit -> mm H -> Prop) :
  p ≠ NULL -> (erase <$> mm_vmrs s) !! p = Some w ->
  (∀ b, bset_refs 0 (f b) = f (bset_refs 0 b)) ->
  (∀ h', erase <$> h' = <[p := on_body f w]> (erase <$> mm_vmrs s) ->
     Q tt (Mm h' (mm_maps s) (mm_arch s) (mm_ticks s))) ->
  wp (vm_body p f) s Q.
Proof.
  intros Hp Hw Hf. apply (wp_vm_upd s p (on_body f) w); [done|done|].
  intros v. unfold erase, on_body. simpl. by rewrite Hf.
Qed.

Lemma wp_vm_refs s p d (Q : unit -> mm H -> Prop) :
  p ≠ NULL -> is_Some ((erase <$> mm_vmrs s) !! p) ->
  (∀ h', erase <$> h' = erase <$> mm_vmrs s ->
     Q tt (Mm h' (mm_maps s) (mm_arch s) (mm_ticks s))) ->
  wp (vm_refs p d) s Q.
Proof.
  intros Hp [w Hw] HQ. destruct (erase_lookup _ _ _ Hw) as (v & Hv & <-).
  unfold vm_refs, vm_body. eapply wp_update; [done|exact Hv|]. apply HQ.
  rewrite fmap_insert. apply insert_id. by rewrite Hw.
Qed.

Lemma wp_map s m x (Q : mmap_t -> mm H -> Prop) :
  m ≠ NULL -> mm_maps s !! m = Some x -> Q x s -> wp (map_ m) s Q.
Proof. intros Hm Hx HQ. by apply (wp_load m x). Qed.

Lemma wp_map_upd s m x f (Q : unit -> mm H -> Prop) :
  m ≠ NULL -> mm_maps s !! m = Some x ->
  Q tt (Mm (mm_vmrs s) (<[m := f x]> (mm_maps s)) (mm_arch s) (mm_ticks s)) ->
  wp (map_upd m f) s Q.
Proof. intros Hm Hx HQ. by apply (wp_update m f x). Qed.

Lemma wp_assert_locked s m x xs (Q : unit -> mm H -> Prop) :
  mrep s m x xs -> Q tt s -> wp (mmap_assert_locked m) s Q.
Proof.
  intros (Hm & Hx & Hl & _) HQ. unfold mmap_assert_locked, mmap_assert.
  wp_step. wp_step; [by rewrite bool_decide_true|]. wp_step.
  apply (wp_map s m x); [done|done|]. by apply wp_assert.
Qed.

(** ** Walking the list *)

Lemma wp_vm_walk fuel s hd tl xs ys c (Q : ptr -> mm H -> Prop) :
  dll (erase <$> mm_vmrs s) hd tl (xs ++ ys) ->
  (∀ p b k, c p (bset_refs k b) = c p b) -> (length ys < fuel)%nat ->
  Q (first_sat c ys) s -> wp (vm_walk fuel v_next c (hd_or NULL ys)) s Q.
Proof.
  revert xs fuel. induction ys as [|[p b] ys IH]; intros xs [|fuel] Hd Hc Hf HQ; simpl in *; try lia.
  - done.
  - destruct (dll_mid _ _ _ _ _ _ _ Hd) as (Hp & _ & _ & Hl).
    rewrite decide_False by done. wp_step. eapply wp_vm; [done|exact Hl|].
    intros v _ (Hv1 & Hv2 & Hb)%erase_shape. simpl. rewrite <- Hb, Hc in HQ.
    destruct (c p (v_body v)); [done|]. rewrite Hv2.
    apply (IH (xs ++ [(p, b)])); [|done|lia|done]. by rewrite <- app_assoc.
Qed.

Lemma wp_vm_walk_back fuel s hd tl xs ys c (Q : ptr -> mm H -> Prop) :
  dll (erase <$> mm_vmrs s) hd tl (xs ++ ys) ->
  (∀ p b k, c p (bset_refs k b) = c p b) -> (length xs < fuel)%nat ->
  Q (first_sat c (reverse xs)) s -> wp (vm_walk fuel v_prev c (last_or NULL xs)) s Q.
Proof.
  revert ys fuel. induction xs as [|[p b] xs IH] using rev_ind; intros ys [|fuel] Hd Hc Hf HQ;
    rewrite ?length_app in *; simpl in *; try lia.
  - done.
  - rewrite <- app_assoc in Hd. destruct (dll_mid _ _ _ _ _ _ _ Hd) as (Hp & _ & _ & Hl).
    rewrite last_or_snoc. simpl. rewrite decide_False by done.
    rewrite reverse_snoc in HQ. simpl in HQ.
    wp_step. eapply wp_vm; [done|exact Hl|].
    intros v _ (Hv1 & Hv2 & Hb)%erase_shape. simpl. rewrite <- Hb, Hc in HQ.
    destruct (c p (v_body v)); [done|]. rewrite Hv1. simpl in Hf.
    apply (IH ((p, b) :: ys)); [done|done|lia|done].
Qed.

Lemma mrep_fuel s m x xs : mrep s m x xs -> (length xs < S (size (mm_vmrs s)))%nat.
Proof.
  intros (_ & _ & _ & Hd). apply dll_length in Hd. rewrite map_size_fmap in Hd. lia.
Qed.

Definition cov (a : Z) : ptr -> vbody -> bool := λ _ b, bool_decide (a >= v_start b ∧ a <= v_end b).

Lemma wp_mmap_find s m x xs a (Q : ptr -> mm H -> Prop) :
  mrep s m x xs -> Q (first_sat (cov a) xs) s -> wp (mmap_find m a) s Q.
Proof.
  intros Hr HQ. pose proof Hr as (Hm & Hx & _ & Hd). unfold mmap_find.
  rewrite decide_False by done. wp_step. eapply wp_assert_locked; [done|].
  wp_step. apply (wp_map s m x); [done|done|]. wp_step. unfold vm_fuel. wp_step.
  pose proof Hd as (Hh & _). rewrite Hh.
  eapply (wp_vm_walk _ _ _ _ [] xs); [exact Hd|done|by eapply mrep_fuel|done].
Qed.

Lemma first_sat_is c xs r : NULL ∉ addrs xs ->
  (∀ p b, c p b = bool_decide (p = r)) -> first_sat c xs = if decide (r ∈ addrs xs) then r else NULL.
Proof.
  intros Hn Hc. induction xs as [|[p b] xs IH]; [done|simpl].
  simpl in Hn. rewrite Hc. destruct (decide (p = r)) as [->|Hne].
  - rewrite bool_decide_true by done. by rewrite decide_True by set_solver.
  - rewrite bool_decide_false by done. rewrite IH by set_solver.
    repeat case_decide; set_solver.
Qed.

Lemma wp_mmap_contains s m x xs r (Q : Z -> mm H -> Prop) :
  mrep s m x xs -> r ≠ NULL ->
  Q (if decide (r ∈ addrs xs) then 1 else 0) s -> wp (mmap_contains m r) s Q.
Proof.
  intros Hr Hrn HQ. pose proof Hr as (Hm & Hx & _ & Hd). unfold mmap_contains.
  rewrite decide_False by naive_solver. wp_step. eapply wp_assert_locked; [done|].
  wp_step. apply (wp_map s m x); [done|done|]. wp_step. unfold vm_fuel. wp_step. wp_step.
  pose proof Hd as (Hh & _ & _ & Hn & _). rewrite Hh.
  eapply (wp_vm_walk _ _ _ _ [] xs); [exact Hd|done|by eapply mrep_fuel|].
  wp_step. rewrite (first_sat_is _ _ r) by done.
  destruct (decide (r ∈ addrs xs)); [by rewrite decide_False|by rewrite decide_True].
Qed.

(** ** Holes *)

(** The length of the hole that starts at [a]; not positive when [a] is
    mapped or above the limit. *)
Fixpoint hole_len (xs : rlist) (a : Z) : Z :=
  match xs with
  | [] => mmap_limit + 1 - a
  | (_, b) :: xs =>
      if decide (v_end b < a) then hole_len xs a
      else if decide (v_start b <= a) then 0 else v_start b - a
  end.

Lemma space_cons p b xs : space_ok ((p, b) :: xs) <->
  region_ok b ∧ space_ok xs ∧ ∀ c, c ∈ xs.*2 -> v_end b < v_start c.
Proof.
  unfold space_ok. simpl. rewrite Forall_cons. split.
  - intros [[Hb Hf] [Hs Hb']%StronglySorted_inv]. rewrite Forall_forall in Hb'. auto.
  - intros (Hb & [Hf Hs] & Hc). split; [done|]. constructor; [done|].
    by apply Forall_forall.
Qed.

Lemma space_in xs b : space_ok xs -> b ∈ xs.*2 -> region_ok b.
Proof. intros [Hf _]. rewrite Forall_forall in Hf. auto. Qed.

(** [hole_len] is the largest size that is free at [a]. *)
Lemma hole_len_free xs a n : space_ok xs -> 0 <= a -> 0 < n ->
  free_at xs a n <-> n <= hole_len xs a.
Proof.
  intros Hok Ha Hn. induction xs as [|[p b] xs IH].
  - unfold free_at. simpl. split; [lia|]. intros. repeat split; try lia. intros c. set_solver.
  - apply space_cons in Hok as (Hb & Hok & Hlt). destruct IH as [IH1 IH2]; [done|].
    unfold region_ok in Hb. unfold free_at in *. simpl. case_decide as He.
    + split.
      * intros (_ & _ & Hl & Hd). apply IH1. repeat split; try done.
        intros c Hc. apply Hd. by right.
      * intros (_ & _ & Hl & Hd)%IH2. repeat split; try done.
        intros c [->|Hc]%elem_of_cons; [by left|by apply Hd].
    + case_decide as Hs.
      * split; [|lia]. intros (_ & _ & _ & Hd). destruct (Hd b); [left|lia|lia].
      * split.
        -- intros (_ & _ & _ & Hd). destruct (Hd b); [left|lia|lia].
        -- intros Hle. repeat split; try lia.
           intros c [->|Hc]%elem_of_cons; [by right; lia|]. specialize (Hlt c Hc). right. lia.
Qed.

Lemma hole_len_mapped xs a : space_ok xs -> 0 <= a <= mmap_limit ->
  hole_len xs a <= 0 <-> ∃ b, b ∈ xs.*2 ∧ covers a b.
Proof.
  intros Hok Ha. split.
  - induction xs as [|[p b] xs IH]; simpl; [lia|].
    apply space_cons in Hok as (Hb & Hok & Hlt). case_decide.
    + intros (c & Hc & Hcov)%IH; [|done]. exists c. split; [by right|done].
    + case_decide; [|lia]. intros _. exists b. split; [left|]. unfold covers. lia.
  - intros (b & Hb & Hc). destruct (decide (hole_len xs a <= 0)); [done|]. exfalso.
    destruct (hole_len_free xs a 1) as [_ (_ & _ & _ & Hd)]; [done|lia|lia|lia|].
    unfold covers in Hc. destruct (Hd b Hb); lia.
Qed.

Lemma hole_len_bound xs a : space_ok xs -> hole_len xs a <= mmap_limit + 1 - a.
Proof.
  intros Hok. induction xs as [|[p b] xs IH]; simpl; [lia|].
  apply space_cons in Hok as (Hb & Hok & _). specialize (IH Hok). unfold region_ok in Hb.
  repeat case_decide; lia.
Qed.

(** What the two walks of [mmap_holesize] compute. *)
Lemma first_cov xs a : NULL ∉ addrs xs -> space_ok xs -> 0 <= a <= mmap_limit ->
  first_sat (cov a) xs = NULL <-> 0 < hole_len xs a.
Proof.
  intros Hn Hok Ha. induction xs as [|[p b] xs IH]; simpl; [lia|]. simpl in Hn.
  apply space_cons in Hok as (Hb & Hok & Hlt). unfold region_ok in Hb. unfold cov at 1.
  case_bool_decide as Hc.
  - rewrite decide_False by lia. rewrite decide_True by lia. split; [|lia]. set_solver.
  - case_decide; [apply IH; [set_solver|done]|]. case_decide; [lia|].
    split; [lia|]. intros _. clear IH Hc.
    induction xs as [|[q c] xs IHx]; simpl; [done|]. unfold cov at 1.
    apply space_cons in Hok as (Hc & Hok & _). unfold region_ok in Hc.
    assert (v_end b < v_start c) by (apply Hlt; left).
    rewrite bool_decide_false by lia. apply IHx; [set_solver|done|].
    intros d Hd. apply Hlt. by right.
Qed.

Definition above (a : Z) : ptr -> vbody -> bool := λ _ b, bool_decide (a < v_start b).

Lemma first_above xs a : NULL ∉ addrs xs -> space_ok xs -> 0 < hole_len xs a ->
  (first_sat (above a) xs = NULL ∧ hole_len xs a = mmap_limit + 1 - a) ∨
  (∃ l p b r, xs = l ++ (p, b) :: r ∧ first_sat (above a) xs = p ∧ p ≠ NULL ∧
     hole_len xs a = v_start b - a).
Proof.
  intros Hn Hok Hpos. induction xs as [|[p b] xs IH]; simpl in *; [by left|].
  apply space_cons in Hok as (Hb & Hok & Hlt). unfold region_ok in Hb. unfold above at 1 3.
  case_decide as He.
  - rewrite bool_decide_false by lia.
    destruct IH as [[H1 H2]|(l & q & c & r & -> & H1 & Hq & H2)]; [set_solver|done|done| |].
    + left. done.
    + right. exists ((p, b) :: l), q, c, r. done.
  - case_decide; [lia|]. rewrite bool_decide_true by lia.
    right. exists [], p, b, xs. repeat split. set_solver.
Qed.

(** The result and [*plen] of [mmap_holesize], as a function. *)
Definition holesize_of (xs : rlist) (a : Z) : Z * Z :=
  if decide (0 < hole_len xs a) then (0, hole_len xs a) else (- EINVAL, 0).

Lemma wp_mmap_holesize s m x xs a (Q : Z * Z -> mm H -> Prop) :
  mrep s m x xs -> space_ok xs -> m_limit x = mmap_limit -> 0 <= a ->
  Q (holesize_of xs a) s -> wp (mmap_holesize m a true) s Q.
Proof.
  intros Hr Hok Hlim Ha HQ. pose proof Hr as (Hm & Hx & _ & Hd). unfold mmap_holesize.
  pose proof Hd as (Hh & _ & _ & Hn & _). unfold holesize_of in HQ.
  rewrite decide_False by naive_solver. wp_step. eapply wp_assert_locked; [done|].
  wp_step. apply (wp_map s m x); [done|done|]. rewrite Hlim.
  pose proof (hole_len_bound xs a Hok) as Hbd.
  destruct (decide (a > mmap_limit)).
  { rewrite decide_False in HQ by lia. by apply wp_ret. }
  wp_step. unfold ishole. wp_step. eapply wp_mmap_find; [done|]. wp_step.
  pose proof (first_cov xs a Hn Hok ltac:(lia)) as Hfc.
  destruct (decide (0 < hole_len xs a)) as [Hpos|Hpos].
  2:{ rewrite bool_decide_false by tauto. by apply wp_ret. }
  apply Hfc in Hpos as Hfn. rewrite (bool_decide_true _ Hfn). simpl. wp_step. unfold mmap_find_vmr_next.
  rewrite decide_False by naive_solver. wp_step. eapply wp_assert_locked; [done|].
  wp_step. eapply wp_mmap_find; [done|]. rewrite Hfn. rewrite decide_False by auto.
  wp_step. apply (wp_map s m x); [done|done|]. wp_step. unfold vm_fuel. wp_step. wp_step.
  rewrite Hh. eapply (wp_vm_walk _ _ _ _ [] xs); [exact Hd|done|by eapply mrep_fuel|].
  wp_step. simpl. fold (above a).
  destruct (first_above xs a Hn Hok Hpos) as [[-> Heq]|(l & p & b & r & -> & -> & Hp & Heq)].
  - rewrite decide_True by done. wp_step. rewrite u64_small; [by rewrite Heq in HQ|].
    unfold in_u64, two64, mmap_limit, USTACK in *. lia.
  - rewrite decide_False by done. destruct (dll_mid _ _ _ _ _ _ _ Hd) as (_ & _ & _ & Hl).
    wp_step. eapply wp_vm; [done|exact Hl|]. intros v _ (_ & _ & Hb)%erase_shape. wp_step.
    assert (v_start (v_body v) = v_start b) as -> by (by rewrite <- Hb).
    rewrite Heq in HQ, Hpos, Hbd. rewrite u64_small; [done|].
    unfold in_u64, two64, mmap_limit, USTACK in *. lia.
Qed.


(** ** Mapping a region *)

(** A change of the list fields and counters of a map. *)
Definition relist (hd tl : ptr) (refs used : Z) (x : mmap_t) : mmap_t :=
  mset_used used (mset_refs refs (mset_tail tl (mset_head hd x))).

(** Regions that are neither on the list nor the one at hand are untouched. *)
Definition only (ps : list ptr) s s' : Prop :=
  (∀ q, q ∉ ps -> (erase <$> mm_vmrs s') !! q = (erase <$> mm_vmrs s) !! q) ∧
  mm_ticks s' = mm_ticks s.

Lemma hole_next xs a : space_ok xs -> 0 <= a -> 0 < hole_len xs a ->
  a + hole_len xs a <= mmap_limit -> hole_len xs (a + hole_len xs a) <= 0.
Proof.
  intros Hok Ha Hpos Hlim. set (L := hole_len xs a) in *.
  destruct (decide (hole_len xs (a + L) <= 0)); [done|]. exfalso.
  assert (free_at xs (a + L) 1) as (_ & _ & _ & H1) by (apply hole_len_free; [done|lia|lia|lia]).
  assert (free_at xs a L) as (_ & _ & _ & H2) by (apply hole_len_free; [done|lia|lia|lia]).
  assert (free_at xs a (L + 1)) as Hf%hole_len_free; [|lia|done|lia|lia].
  repeat split; try lia. intros b Hb. specialize (H1 b Hb). specialize (H2 b Hb).
  destruct H1, H2; try lia. assert (region_ok b) by (by eapply space_in). unfold region_ok in *. lia.
Qed.

Lemma holesize_pos xs a : 0 < hole_len xs a -> holesize_of xs a = (0, hole_len xs a).
Proof. intros Hp. unfold holesize_of. by rewrite decide_True. Qed.

Lemma wp_mapin_check fuel s m x xs a e (Q : Z -> mm H -> Prop) :
  mrep s m x xs -> space_ok xs -> m_limit x = mmap_limit -> 0 <= a <= e -> e <= mmap_limit ->
  (2 <= fuel)%nat ->
  Q (if decide (e - a + 1 <= hole_len xs a) then 0 else - EEXIST) s ->
  wp (mapin_check fuel m a e) s Q.
Proof.
  intros Hr Hok Hlim Ha He Hf HQ. destruct fuel as [|[|fuel]]; [lia|lia|]. simpl.
  pose proof Hr as (_ & _ & _ & (_ & _ & _ & Hn & _)).
  rewrite decide_False by lia. wp_step. eapply wp_mmap_find; [done|].
  pose proof (first_cov xs a Hn Hok ltac:(lia)) as Hc1.
  destruct (decide (0 < hole_len xs a)) as [Hp|Hp].
  2:{ rewrite decide_True by tauto. rewrite decide_False in HQ by lia. by wp_step. }
  rewrite decide_False by (intros Hx; by apply Hx, Hc1).
  wp_step. eapply wp_mmap_holesize; [done|done|done|lia|].
  rewrite holesize_pos by done. simpl. rewrite decide_False by lia.
  pose proof (hole_len_bound xs a Hok) as Hb.
  rewrite u64_small by (unfold in_u64, two64, mmap_limit, USTACK in *; lia).
  destruct (decide (a + hole_len xs a > e)) as [Hgt|Hgt].
  { rewrite decide_True in HQ by lia. by wp_step. }
  rewrite decide_False in HQ by lia. wp_step. eapply wp_mmap_find; [done|].
  pose proof (hole_next xs a Hok ltac:(lia) Hp ltac:(lia)) as Hn0.
  pose proof (first_cov xs (a + hole_len xs a) Hn Hok ltac:(lia)) as Hc2.
  rewrite decide_True by (intros Hx; apply Hc2 in Hx; lia). by wp_step.
Qed.

(** A free range splits the list into the regions below and above it. *)
Lemma free_split xs a n : space_ok xs -> free_at xs a n ->
  ∃ l r, xs = l ++ r ∧ (∀ b, b ∈ l.*2 -> v_end b < a) ∧ (∀ b, b ∈ r.*2 -> a + n <= v_start b).
Proof.
  intros Hok (Ha & Hn & Hl & Hd). induction xs as [|[p b] xs IH].
  - exists [], []. repeat split; set_solver.
  - apply space_cons in Hok as (Hb & Hok & Hlt). destruct (Hd b) as [He|Hs]; [left| |].
    + destruct IH as (l & r & -> & H1 & H2); [done|intros c Hc; apply Hd; by right|].
      exists ((p, b) :: l), r. repeat split; [|done]. simpl. intros c [->|Hc]%elem_of_cons; auto.
    + exists [], ((p, b) :: xs). repeat split; [set_solver|]. simpl. intros c [->|Hc]%elem_of_cons; [done|].
      specialize (Hlt c Hc). unfold region_ok in Hb. lia.
Qed.

Lemma space_app l r : space_ok (l ++ r) <->
  space_ok l ∧ space_ok r ∧ ∀ b c, b ∈ l.*2 -> c ∈ r.*2 -> v_end b < v_start c.
Proof.
  induction l as [|[p b] l IH]; simpl.
  - split; [intros ?; repeat split; [constructor|constructor|apply H0|apply H0|set_solver]|naive_solver].
  - rewrite !space_cons, IH. setoid_rewrite fmap_app. setoid_rewrite elem_of_app.
    setoid_rewrite elem_of_cons. naive_solver.
Qed.

Lemma space_insert l r p b : space_ok (l ++ r) -> region_ok b ->
  (∀ c, c ∈ l.*2 -> v_end c < v_start b) -> (∀ c, c ∈ r.*2 -> v_end b < v_start c) ->
  space_ok (l ++ (p, b) :: r).
Proof.
  intros (Hl & Hr & Hlr)%space_app Hb H1 H2. apply space_app. split; [done|].
  split; [by apply space_cons|]. simpl. intros c d Hc [->|Hd]%elem_of_cons; auto.
Qed.

Lemma space_remove l r p b : space_ok (l ++ (p, b) :: r) -> space_ok (l ++ r).
Proof.
  intros (Hl & (_ & Hr & _)%space_cons & Hlr)%space_app. apply space_app.
  repeat split; try apply Hl; try apply Hr. intros c d Hc Hd. apply Hlr; [done|]. by right.
Qed.

Lemma wp_mapin_place fuel s hd tl k l r st left (Q : ptr * ptr -> mm H -> Prop) :
  dll (erase <$> mm_vmrs s) hd tl (k ++ l ++ r) -> space_ok (l ++ r) -> 0 <= st ->
  (∀ b, b ∈ l.*2 -> v_end b < st) -> (∀ b, b ∈ r.*2 -> st <= v_start b) ->
  (length l < fuel)%nat ->
  Q (last_or left l, hd_or NULL r) s ->
  wp (mapin_place fuel st left (hd_or NULL (l ++ r))) s Q.
Proof.
  revert k fuel left. induction l as [|[p b] l IH]; intros k [|fuel] left Hd Hok Hst Hl Hr Hf HQ;
    simpl in *; try lia.
  - destruct r as [|[p b] r]; simpl in *; [done|].
    destruct (dll_mid _ _ _ _ _ _ _ Hd) as (Hp & _ & _ & Hv). rewrite decide_False by done.
    wp_step. eapply wp_vm; [done|exact Hv|]. intros v _ (_ & _ & Hb)%erase_shape.
    assert (v_start (v_body v) = v_start b) as -> by (by rewrite <- Hb).
    assert (st <= v_start b) by (apply Hr; left). rewrite decide_False by lia. by wp_step.
  - apply space_cons in Hok as (Hb & Hok & Hlt).
    destruct (dll_mid _ _ _ _ _ _ _ Hd) as (Hp & _ & _ & Hv). rewrite decide_False by done.
    wp_step. eapply wp_vm; [done|exact Hv|]. intros v _ (_ & Hnx & Hbv)%erase_shape.
    assert (v_start (v_body v) = v_start b ∧ v_end (v_body v) = v_end b) as [Hs He] by (by rewrite <- Hbv).
    assert (v_end b < st) by (apply Hl; left). unfold region_ok in Hb. rewrite Hs.
    rewrite decide_True by lia. unfold vmr_upper_bound. rewrite He.
    rewrite u64_small by (unfold in_u64, two64, mmap_limit, USTACK in *; lia).
    rewrite decide_True by lia. rewrite Hnx.
    apply (IH (k ++ [(p, b)])); try done; try lia.
    + by rewrite <- app_assoc.
    + intros c Hc. apply Hl. by right.
Qed.


(** Execute one read or store of a region; the goal left is the next step. *)
Ltac view_of :=
  simpl;
  repeat match goal with
  | E : erase <$> ?h = _ |- context [erase <$> ?h] => rewrite E; clear E
  end;
  repeat first
    [ rewrite lookup_insert_eq by done
    | rewrite lookup_insert_ne by congruence ].
Ltac live := view_of; eexists; first [eassumption|reflexivity].
Ltac vstep_with t :=
  wp_step; t;
  first [ congruence | (view_of; first [ eassumption | reflexivity | done | (by eauto) ]) | (by intros [? [] ?])
        | (by intros []) | idtac ].

Lemma wp_when_refs s (c : bool) p d (Q : unit -> mm H -> Prop) :
  p ≠ NULL -> is_Some ((erase <$> mm_vmrs s) !! p) ->
  (∀ h', erase <$> h' = erase <$> mm_vmrs s ->
     Q tt (Mm h' (mm_maps s) (mm_arch s) (mm_ticks s))) ->
  wp (when c (vm_refs p d)) s Q.
Proof.
  intros Hp Hl HQ. destruct c; simpl; [by apply wp_vm_refs|].
  destruct s as [h ma a t]. apply wp_ret. by apply (HQ h).
Qed.

Lemma link_left_view h0 r pl nx b b' vl vn :
  r ≠ pl -> r ≠ nx -> pl ≠ nx -> pl ≠ NULL ->
  h0 !! pl = Some vl -> (nx ≠ NULL -> h0 !! nx = Some vn) ->
  <[r := Vmr pl b nx]> (<[pl := vset_next r vl]>
     (if decide (nx = NULL) then <[r := b']> h0 else <[nx := vset_prev r vn]> (<[r := b']> h0)))
  = link r b pl nx h0.
Proof.
  intros H1 H2 H3 Hpl Hl Hn. unfold link, put_prev, put_next. simpl.
  rewrite (decide_False (P := pl = NULL)) by done. apply map_eq. intros q.
  destruct (decide (q = r)) as [->|Hqr]; [by rewrite !lookup_insert_eq|].
  rewrite !(lookup_insert_ne _ r q) by done.
  destruct (decide (nx = NULL)) as [->|Hnx].
  - destruct (decide (q = pl)) as [->|]; [by rewrite lookup_insert_eq, lookup_alter_eq, Hl|].
    by rewrite !lookup_insert_ne, lookup_alter_ne by done.
  - destruct (decide (q = pl)) as [->|].
    + rewrite lookup_insert_eq. by rewrite lookup_alter_ne, lookup_alter_eq, Hl by done.
    + rewrite lookup_insert_ne by done. destruct (decide (q = nx)) as [->|].
      * rewrite lookup_insert_eq, lookup_alter_eq, lookup_alter_ne by done. by rewrite Hn.
      * by rewrite !lookup_insert_ne, !lookup_alter_ne by done.
Qed.

Lemma wp_link_left s m x l pl bl rr r b (Q : unit -> mm H -> Prop) :
  mrep s m x (l ++ (pl, bl) :: rr) -> r ≠ NULL -> r ∉ addrs (l ++ (pl, bl) :: rr) ->
  (erase <$> mm_vmrs s) !! r = Some (Vmr NULL b NULL) ->
  (∀ h', erase <$> h' = link r b pl (hd_or NULL rr) (erase <$> mm_vmrs s) ->
     Q tt (Mm h' (<[m := mset_tail (last_or r rr) x]> (mm_maps s)) (mm_arch s) (mm_ticks s))) ->
  wp (link_left m r pl) s Q.
Proof.
  intros (Hm & Hx & Hlk & Hd) Hr Hrn Hlr HQ.
  destruct (dll_mid _ _ _ _ _ _ _ Hd) as (Hpl & _ & Hpr & Hl).
  pose proof Hd as (_ & Htl & _ & _ & _).
  assert (r ≠ pl) as Hrpl by (intros ->; apply Hrn; rewrite fmap_app; set_solver).
  assert (NULL ∉ addrs rr) as Hrrn.
  { destruct Hd as (_ & _ & _ & Hnn & _). rewrite fmap_app in Hnn. clear -Hnn. set_solver. }
  assert (rr ≠ [] -> ∃ vn, (erase <$> mm_vmrs s) !! hd_or NULL rr = Some vn) as Hnxl.
  { intros Hne. destruct (dll_next_live _ _ _ _ _ _ Hd) as [Hz|[? ?]]; [|eauto].
    by apply hd_or_null in Hz. }
  assert (r ≠ hd_or NULL rr) as Hrnx.
  { destruct rr as [|y rr]; [done|]. intros ->. apply Hrn. rewrite fmap_app. set_solver. }
  assert (pl ≠ hd_or NULL rr) as Hpnx.
  { destruct rr as [|y rr]; [done|]. intros ->. apply Hpr. set_solver. }
  set (nx := hd_or NULL rr) in *. unfold link_left.
  vstep_with ltac:(eapply wp_vm_upd). intros h1 E1. simpl.
  vstep_with ltac:(eapply wp_vm). intros v1 _ (_ & Hn1 & _)%erase_shape. simpl in *.
  vstep_with ltac:(eapply wp_when_refs). intros h2 E2. simpl in *. rewrite E1 in E2. clear dependent h1.
  vstep_with ltac:(eapply wp_vm). intros v2 _ (_ & Hn2 & _)%erase_shape. simpl in *. rewrite Hn2.
  vstep_with ltac:(eapply wp_vm_upd). intros h3 E3. simpl in *. rewrite E2, insert_insert_eq in E3. clear dependent h2.
  wp_step.
  destruct (decide (nx ≠ NULL)) as [Hnx|Hnx].
  - destruct Hnxl as [vn Hvn]; [by intros ->|].
    vstep_with ltac:(eapply wp_vm_upd). intros h4 E4. simpl in *. rewrite E3 in E4. clear dependent h3.
    apply wp_vm_refs; [assumption|live|].
    intros h5 E5. simpl in *. rewrite E4 in E5. clear dependent h4.
    vstep_with ltac:(eapply wp_vm_upd). intros h6 E6. simpl in *. rewrite E5 in E6. clear dependent h5.
    apply wp_vm_refs; [assumption|live|].
    intros h7 E7. simpl in *. rewrite E6 in E7. clear dependent h6.
    assert (mset_tail (last_or r rr) x = x) as Hxx.
    { rewrite last_or_app in Htl. simpl in Htl. destruct rr; [done|]. destruct x. simpl in *. by subst. }
    specialize (HQ h7). rewrite Hxx, insert_id in HQ by done. apply HQ. rewrite E7.
    rewrite <- (link_left_view _ r pl nx b (Vmr pl b nx) _ vn Hrpl Hrnx Hpnx Hpl Hl) by done.
    rewrite decide_False by done. unfold vset_next, vset_prev. simpl. symmetry. apply insert_id.
    by rewrite lookup_insert_ne, lookup_insert_ne, lookup_insert_eq by done.
  - assert (rr = []) as Hrr by (apply hd_or_null; [done|by destruct (decide (nx = NULL))]).
    subst rr. simpl in nx. subst nx. rewrite last_or_snoc in Htl.
    wp_step. eapply wp_map; [assumption|exact Hx|].
    rewrite Htl. wp_step. apply wp_vm_refs; [assumption|live|]. intros h4 E4. simpl in *. rewrite E3 in E4. clear dependent h3.
    wp_step. eapply wp_map_upd; [assumption|exact Hx|]. simpl.
    apply wp_vm_refs; [assumption|live|].
    intros h5 E5. simpl in *. rewrite E4 in E5. clear dependent h4.
    vstep_with ltac:(eapply wp_vm_upd). intros h6 E6. simpl in *. rewrite E5 in E6. clear dependent h5.
    apply wp_vm_refs; [assumption|live|].
    intros h7 E7. simpl in *. rewrite E6 in E7. clear dependent h6.
    apply HQ. rewrite E7.
    rewrite <- (link_left_view _ r pl NULL b (Vmr pl b NULL) _ vmr_zero Hrpl Hrnx Hpnx Hpl Hl) by done.
    rewrite decide_True by done. unfold vset_next, vset_prev. simpl. symmetry. apply insert_id.
    by rewrite lookup_insert_ne, lookup_insert_eq by done.
Qed.


Lemma wp_link_right s m x pr br rr r b (Q : unit -> mm H -> Prop) :
  mrep s m x ((pr, br) :: rr) -> r ≠ NULL -> r ∉ addrs ((pr, br) :: rr) ->
  (erase <$> mm_vmrs s) !! r = Some (Vmr NULL b NULL) ->
  (∀ h', erase <$> h' = link r b NULL pr (erase <$> mm_vmrs s) ->
     Q tt (Mm h' (<[m := mset_head r x]> (mm_maps s)) (mm_arch s) (mm_ticks s))) ->
  wp (link_right m r pr) s Q.
Proof.
  intros (Hm & Hx & Hlk & Hd) Hr Hrn Hlr HQ.
  destruct (dll_mid _ _ _ [] _ _ _ Hd) as (Hpr & _ & _ & Hl). simpl in Hl.
  pose proof Hd as (Hhd & _). simpl in Hhd.
  assert (r ≠ pr) as Hrpr by (intros ->; apply Hrn; left). unfold link_right.
  vstep_with ltac:(eapply wp_vm_upd). intros h1 E1. simpl.
  vstep_with ltac:(eapply wp_vm). intros v1 _ (Hn1 & _)%erase_shape. simpl in *.
  vstep_with ltac:(eapply wp_when_refs). intros h2 E2. simpl in *. rewrite E1 in E2. clear dependent h1.
  vstep_with ltac:(eapply wp_vm). intros v2 _ (Hn2 & _)%erase_shape. simpl in *. rewrite Hn2.
  vstep_with ltac:(eapply wp_vm_upd). intros h3 E3. simpl in *. rewrite E2, insert_insert_eq in E3. clear dependent h2.
  wp_step.
  wp_step. eapply wp_map; [assumption|exact Hx|].
  rewrite Hhd. wp_step. apply wp_vm_refs; [assumption|live|].
  intros h4 E4. simpl in *. rewrite E3 in E4. clear dependent h3.
  wp_step. eapply wp_map_upd; [assumption|exact Hx|]. simpl.
  apply wp_vm_refs; [assumption|live|].
  intros h5 E5. simpl in *. rewrite E4 in E5. clear dependent h4.
  vstep_with ltac:(eapply wp_vm_upd). intros h6 E6. simpl in *. rewrite E5 in E6. clear dependent h5.
  apply wp_vm_refs; [assumption|live|].
  intros h7 E7. simpl in *. rewrite E6 in E7. clear dependent h6.
  apply HQ. rewrite E7. unfold link, put_next, put_prev. simpl.
  rewrite decide_False by done. rewrite insert_insert_ne by done. f_equal.
  rewrite <- (alter_insert_Some _ _ _ _ Hl). done.
Qed.

Lemma wp_mapin_link fuel s m x l rr r b (Q : unit -> mm H -> Prop) :
  mrep s m x (l ++ rr) -> space_ok (l ++ rr) -> r ≠ NULL -> r ∉ addrs (l ++ rr) ->
  (erase <$> mm_vmrs s) !! r = Some (Vmr NULL b NULL) -> 0 <= v_start b ->
  (∀ c, c ∈ l.*2 -> v_end c < v_start b) -> (∀ c, c ∈ rr.*2 -> v_start b <= v_start c) ->
  (length (l ++ rr) < fuel)%nat ->
  (∀ h', erase <$> h' = link r b (last_or NULL l) (hd_or NULL rr) (erase <$> mm_vmrs s) ->
     Q tt (Mm h' (<[m := mset_tail (last_or r rr) (mset_head (hd_or r l) x)]> (mm_maps s))
             (mm_arch s) (mm_ticks s))) ->
  wp (mapin_link m r fuel (v_start b)) s Q.
Proof.
  intros Hr Hok Hrn Hrx Hlr Hst Hbl Hbr Hf HQ. pose proof Hr as (Hm & Hx & Hlk & Hd).
  pose proof Hd as (Hhd & Htl & _ & Hnn & _). unfold mapin_link.
  wp_step. eapply wp_map; [done|exact Hx|].
  destruct (decide (l ++ rr = [])) as [He|Hne].
  - apply app_eq_nil in He as [-> ->]. simpl in *. rewrite decide_True by done.
    wp_step. eapply wp_map_upd; [done|exact Hx|].
    wp_step. eapply wp_map_upd; [done|by simpl; rewrite lookup_insert_eq|]. simpl.
    wp_step. apply wp_vm_refs; [done|live|]. intros h1 E1. simpl in *.
    apply wp_vm_refs; [done|simpl; rewrite E1, Hlr; eauto|]. intros h2 E2. simpl in *.
    rewrite insert_insert_eq. apply HQ. rewrite E2, E1. symmetry. by apply insert_id.
  - rewrite decide_False by (intros Hz; apply Hne, hd_or_null; [done|congruence]).
    wp_step. rewrite Hhd. rewrite length_app in Hf.
    eapply (wp_mapin_place _ _ _ _ [] l rr); [exact Hd|done|done|done|done|lia|]. simpl.
    destruct l as [|[pl bl] l' _] using rev_ind.
    + simpl in *. wp_step. wp_step. destruct rr as [|[pr br] rr]; [done|].
      assert (pr ≠ NULL) as Hpr by (intros ->; apply Hnn; left). simpl.
      rewrite bool_decide_true by done.
      eapply wp_link_right; [exact Hr|done|done|done|]. intros h' E'.
      specialize (HQ h' E'). replace (mset_tail _ _) with (mset_head r x) in HQ; [done|].
      destruct x. simpl in *. by subst.
    + clear Hhd. rewrite last_or_snoc in *. simpl in *.
      rewrite <- app_assoc in Hr, Hok, Hrx, Hne, Hnn, Hd, Htl. simpl in *.
      destruct (dll_mid _ _ _ _ _ _ _ Hd) as (Hpl & _ & _ & Hlp).
      rewrite decide_False by done. wp_step. wp_step. eapply wp_vm; [done|exact Hlp|].
      intros v _ (_ & _ & Hb)%erase_shape. wp_step.
      assert (v_start (v_body v) = v_start bl) as -> by (by rewrite <- Hb).
      assert (v_end bl < v_start b) by (apply Hbl; rewrite fmap_app; clear; set_solver).
      assert (region_ok bl) as Hrb by (apply (space_in _ _ Hok); rewrite fmap_app; clear; set_solver).
      unfold region_ok in Hrb. rewrite (decide_False (P := v_start bl > v_start b)) by lia.
      rewrite decide_True by done. eapply wp_link_left; [exact Hr|done|done|done|].
      intros h' E'. specialize (HQ h' E'). replace (mset_head _ x) with x in HQ; [done|].
      destruct Hd as (Hhd & _). destruct x. simpl in *. subst. rewrite !hd_or_app. simpl.
      by destruct l'.
Qed.


Definition vsize (b : vbody) : Z := v_end b - v_start b + 1.

Lemma vmr_size_ok b : region_ok b -> vmr_size b = vsize b.
Proof.
  unfold region_ok, vmr_size, vsize. intros. apply u64_small.
  unfold in_u64, two64, mmap_limit, USTACK in *. lia.
Qed.

Lemma body_refs (f : vbody -> Z) v b : (∀ k c, f (bset_refs k c) = f c) ->
  bset_refs 0 v = b -> f v = f b.
Proof. intros Hf <-. by rewrite Hf. Qed.

Lemma vmr_size_refs k c : vmr_size (bset_refs k c) = vmr_size c.
Proof. done. Qed.

(** The map after the region list became [xs]. *)
Definition map_with (refs used : Z) (xs : rlist) (x : mmap_t) : mmap_t :=
  relist (hd_or NULL xs) (last_or NULL xs) refs used x.

Lemma insert_id_only ps s h' ma a :
  (∀ q, q ∉ ps -> (erase <$> h') !! q = (erase <$> mm_vmrs s) !! q) ->
  only ps s (Mm h' ma a (mm_ticks s)).
Proof. done. Qed.

Lemma wp_mmap_mapin s m x xs r w (Q : Z -> mm H -> Prop) :
  mrep s m x xs -> space_ok xs -> m_limit x = mmap_limit -> r ≠ NULL -> r ∉ addrs xs ->
  (erase <$> mm_vmrs s) !! r = Some w -> region_ok (v_body w) ->
  (hole_len xs (v_start (v_body w)) < vsize (v_body w) -> Q (- EEXIST) s) ->
  (∀ l rr h', let xs' := l ++ (r, bset_mmap m (v_body w)) :: rr in
     let x' := map_with (m_refs x + 1) (u64 (m_used_space x + vsize (v_body w))) xs' x in
     let s' := Mm h' (<[m := x']> (mm_maps s)) (mm_arch s) (mm_ticks s) in
     xs = l ++ rr -> free_at xs (v_start (v_body w)) (vsize (v_body w)) ->
     space_ok xs' -> mrep s' m x' xs' -> only (r :: addrs xs) s s' -> Q 0 s') ->
  wp (mmap_mapin m r) s Q.
Proof.
  intros Hr Hok Hlim Hrn Hrx Hw Hrok Hfail Hsucc. pose proof Hr as (Hm & Hx & Hlk & Hd).
  assert (0 < vsize (v_body w)) as Hpos by (unfold region_ok, vsize in *; lia).
  unfold mmap_mapin. rewrite decide_False by naive_solver.
  wp_step. eapply wp_assert_locked; [done|]. wp_step. eapply wp_vm; [done|exact Hw|].
  intros v Hv Hev. destruct w as [wa wb wn]. apply erase_shape in Hev as (_ & _ & Hb). simpl in *.
  assert (v_start (v_body v) = v_start wb ∧ v_end (v_body v) = v_end wb) as [Hs He] by (by rewrite <- Hb).
  assert (vmr_size (v_body v) = vsize wb) as Hsz.
  { rewrite <- (vmr_size_ok wb Hrok), <- Hb. done. }
  rewrite Hsz, Hs, He. rewrite decide_False by lia. rewrite decide_False by (unfold region_ok in *; lia).
  wp_step. eapply wp_mmap_contains; [done|done|]. rewrite (decide_False (P := r ∈ _)) by done.
  rewrite decide_False by lia. wp_step. unfold vm_fuel. wp_step. wp_step.
  assert (0 < size (mm_vmrs s))%nat as Hsz1.
  { destruct (decide (size (mm_vmrs s) = 0%nat)) as [Hz%map_size_empty_iff|]; [|lia]. by rewrite Hz in Hv. }
  eapply wp_mapin_check; [done|done|done|unfold region_ok in *; lia|unfold region_ok in *; lia|lia|].
  fold (vsize wb). destruct (decide (vsize wb <= hole_len xs (v_start wb))) as [Hfit|Hfit].
  2:{ rewrite decide_True by done. wp_step. apply Hfail. lia. }
  rewrite decide_False by lia.
  assert (free_at xs (v_start wb) (vsize wb)) as Hfree.
  { apply hole_len_free; [done|unfold region_ok in *; lia|done|done]. }
  destruct (free_split _ _ _ Hok Hfree) as (l & rr & -> & Hl & Hrr).
  vstep_with ltac:(eapply wp_vm_upd). intros h1 E1. simpl.
  vstep_with ltac:(eapply wp_vm_upd). intros h2 E2. simpl in *.
  rewrite E1, insert_insert_eq in E2. clear dependent h1. unfold vset_prev, vset_next in E2. simpl in E2.
  wp_step. assert (∀ q, q ∈ addrs (l ++ rr) ->
    (erase <$> h2) !! q = (erase <$> mm_vmrs s) !! q) as Hfr.
  { intros q Hq. rewrite E2. apply lookup_insert_ne. by intros ->. }
  eapply (wp_mapin_link _ _ m x l rr r wb); simpl; try done.
  { split; [done|]. split; [done|]. split; [done|]. by eapply dll_frame. }
  { rewrite E2. apply lookup_insert_eq. }
  { unfold region_ok in *; lia. }
  { intros c Hc. specialize (Hrr c Hc). unfold vsize in *. lia. }
  { pose proof (mrep_fuel _ _ _ _ Hr). lia. }
  intros h3 E3. unfold link in E3. simpl in E3.
  vstep_with ltac:(eapply wp_vm_body). intros h4 E4. simpl in *.
  rewrite E3, insert_insert_eq in E4. unfold on_body in E4. simpl in E4.
  wp_step. eapply wp_map_upd; [done|by simpl; rewrite lookup_insert_eq|].
  wp_step. eapply wp_map_upd; [done|by simpl; rewrite lookup_insert_eq|].
  wp_step. simpl. rewrite !insert_insert_eq.
  set (b := bset_mmap m wb) in *.
  assert (erase <$> h4 = link r b (last_or NULL l) (hd_or NULL rr) (erase <$> h2)) as E5 by exact E4.
  specialize (Hsucc l rr h4). unfold map_with, relist in Hsucc. rewrite hd_or_app, last_or_app in Hsucc.
  simpl in Hsucc. apply Hsucc; try done.
  - apply space_insert; [done|done|done|]. intros c Hc. specialize (Hrr c Hc).
    unfold vsize, b in *. simpl. lia.
  - split; [done|]. split; [by simpl; rewrite lookup_insert_eq|]. split; [done|]. simpl.
    rewrite E5. eapply dll_link; [|done|done]. eapply dll_frame; [exact Hfr|exact Hd].
  - apply insert_id_only. intros q Hq. apply not_elem_of_cons in Hq as [Hq1 Hq2]. rewrite E5.
    erewrite link_outside; [rewrite E2; by apply lookup_insert_ne| |].
    + eapply dll_frame; [exact Hfr|exact Hd].
    + rewrite fmap_app in *. clear -Hq1 Hq2. set_solver.
Qed.


(** ** Removing a region *)

Lemma wp_unlink_prev s p n r (Q : unit -> mm H -> Prop) :
  r ≠ NULL -> is_Some ((erase <$> mm_vmrs s) !! r) ->
  (p = NULL ∨ is_Some ((erase <$> mm_vmrs s) !! p)) ->
  (∀ h', erase <$> h' = put_next p n (erase <$> mm_vmrs s) ->
     Q tt (Mm h' (mm_maps s) (mm_arch s) (mm_ticks s))) ->
  wp (when (bool_decide (p ≠ NULL)) (vm_upd p (vset_next n);; vm_refs r (-1))) s Q.
Proof.
  intros Hr Hlr Hp HQ. unfold put_next in HQ. case_bool_decide as Hpn; simpl.
  - rewrite decide_False in HQ by done. destruct Hp as [|[w Hw]]; [done|].
    wp_step. eapply wp_vm_upd; [done|exact Hw|by intros [? [] ?]|]. intros h1 E1.
    rewrite (alter_insert_Some _ _ _ _ Hw) in E1.
    apply wp_vm_refs; [done|simpl; rewrite E1; by apply lookup_alter_is_Some|]. intros h2 E2. simpl in *.
    apply HQ. by rewrite E2, E1.
  - destruct (decide (p = NULL)); [|tauto]. destruct s as [h ma a t]. apply wp_ret. by apply (HQ h).
Qed.

Lemma wp_unlink_next s p n r (Q : unit -> mm H -> Prop) :
  r ≠ NULL -> is_Some ((erase <$> mm_vmrs s) !! r) ->
  (p = NULL ∨ is_Some ((erase <$> mm_vmrs s) !! p)) ->
  (∀ h', erase <$> h' = put_prev p n (erase <$> mm_vmrs s) ->
     Q tt (Mm h' (mm_maps s) (mm_arch s) (mm_ticks s))) ->
  wp (when (bool_decide (p ≠ NULL)) (vm_upd p (vset_prev n);; vm_refs r (-1))) s Q.
Proof.
  intros Hr Hlr Hp HQ. unfold put_prev in HQ. case_bool_decide as Hpn; simpl.
  - rewrite decide_False in HQ by done. destruct Hp as [|[w Hw]]; [done|].
    wp_step. eapply wp_vm_upd; [done|exact Hw|by intros [? [] ?]|]. intros h1 E1.
    rewrite (alter_insert_Some _ _ _ _ Hw) in E1.
    apply wp_vm_refs; [done|simpl; rewrite E1; by apply lookup_alter_is_Some|]. intros h2 E2. simpl in *.
    apply HQ. by rewrite E2, E1.
  - destruct (decide (p = NULL)); [|tauto]. destruct s as [h ma a t]. apply wp_ret. by apply (HQ h).
Qed.

(** The head and tail adjustments: the neighbour's link already is [NULL]. *)
Lemma wp_fix_head s m x r nx (Q : unit -> mm H -> Prop) :
  m ≠ NULL -> mm_maps s !! m = Some x ->
  (m_head x = r -> nx = NULL ∨ ∃ b n, (erase <$> mm_vmrs s) !! nx = Some (Vmr NULL b n)) ->
  (∀ h', erase <$> h' = erase <$> mm_vmrs s ->
     Q tt (Mm h' (<[m := mset_head (if decide (m_head x = r) then nx else m_head x) x]> (mm_maps s))
       (mm_arch s) (mm_ticks s))) ->
  wp (when (bool_decide (m_head x = r)) (
    map_upd m (mset_head nx);;
    when (bool_decide (nx ≠ NULL)) (
      vm_upd nx (vset_prev NULL);;
      h ← vm nx;
      when (bool_decide (v_next h = NULL)) (vm_refs nx (-1))))) s Q.
Proof.
  intros Hm Hx Hn HQ. destruct (decide (m_head x = r)) as [Hh|Hh].
  - rewrite bool_decide_true by done. simpl. wp_step. eapply wp_map_upd; [done|done|].
    destruct (Hn Hh) as [->|(b & n & Hl)]; [by apply HQ|].
    case_bool_decide as Hnn; [|by apply HQ]. simpl.
    wp_step. eapply wp_vm_upd; [done|exact Hl|by intros [? [] ?]|]. intros h1 E1. simpl in *.
    unfold vset_prev in E1. simpl in E1. rewrite insert_id in E1 by done.
    wp_step. eapply wp_vm; [done|by simpl; rewrite E1|]. intros v _ _.
    apply wp_when_refs; [done|simpl; rewrite E1, Hl; eauto|]. intros h2 E2. simpl in *.
    apply HQ. by rewrite E2, E1.
  - rewrite bool_decide_false by done. destruct s as [h ma a t]. apply wp_ret.
    specialize (HQ h eq_refl). rewrite insert_id in HQ; [done|]. rewrite Hx. by destruct x.
Qed.

Lemma wp_fix_tail s m x r pv (Q : unit -> mm H -> Prop) :
  m ≠ NULL -> mm_maps s !! m = Some x ->
  (m_tail x = r -> pv = NULL ∨ ∃ a b, (erase <$> mm_vmrs s) !! pv = Some (Vmr a b NULL)) ->
  (∀ h', erase <$> h' = erase <$> mm_vmrs s ->
     Q tt (Mm h' (<[m := mset_tail (if decide (m_tail x = r) then pv else m_tail x) x]> (mm_maps s))
       (mm_arch s) (mm_ticks s))) ->
  wp (when (bool_decide (m_tail x = r)) (
    map_upd m (mset_tail pv);;
    when (bool_decide (pv ≠ NULL)) (
      vm_upd pv (vset_next NULL);;
      t ← vm pv;
      when (bool_decide (v_prev t = NULL)) (vm_refs pv (-1))))) s Q.
Proof.
  intros Hm Hx Hn HQ. destruct (decide (m_tail x = r)) as [Hh|Hh].
  - rewrite bool_decide_true by done. simpl. wp_step. eapply wp_map_upd; [done|done|].
    destruct (Hn Hh) as [->|(a & b & Hl)]; [by apply HQ|].
    case_bool_decide as Hnn; [|by apply HQ]. simpl.
    wp_step. eapply wp_vm_upd; [done|exact Hl|by intros [? [] ?]|]. intros h1 E1. simpl in *.
    unfold vset_next in E1. simpl in E1. rewrite insert_id in E1 by done.
    wp_step. eapply wp_vm; [done|by simpl; rewrite E1|]. intros v _ _.
    apply wp_when_refs; [done|simpl; rewrite E1, Hl; eauto|]. intros h2 E2. simpl in *.
    apply HQ. by rewrite E2, E1.
  - rewrite bool_decide_false by done. destruct s as [h ma a t]. apply wp_ret.
    specialize (HQ h eq_refl). rewrite insert_id in HQ; [done|]. rewrite Hx. by destruct x.
Qed.

(** [vmr_free]: the region is freed, or kept when it is still referenced. *)
Lemma wp_vmr_free s r (Q : unit -> mm H -> Prop) :
  is_Some ((erase <$> mm_vmrs s) !! r) ->
  (∀ h', (∀ q, q ≠ r -> (erase <$> h') !! q = (erase <$> mm_vmrs s) !! q) ->
     Q tt (Mm h' (mm_maps s) (mm_arch s) (mm_ticks s))) ->
  wp (vmr_free r) s Q.
Proof.
  intros [w Hw] HQ. unfold vmr_free. destruct s as [h ma a t].
  destruct (decide (r = NULL)); [wp_step; by apply HQ|]. wp_step. eapply wp_vm; [done|exact Hw|].
  intros v Hv _. case_bool_decide; simpl; [|by apply HQ].
  wp_step. unfold vm_upd. eapply wp_update; [done|exact Hv|].
  eapply wp_kfree; [done|simpl; apply lookup_insert_eq|]. simpl. apply HQ. intros q Hq. simpl.
  by rewrite !lookup_fmap, lookup_delete_ne, lookup_insert_ne.
Qed.

Lemma dll_head_next h hd tl p b rr :
  dll h hd tl ((p, b) :: rr) -> hd_or NULL rr = NULL ∨
  ∃ c n, (unlink p NULL (hd_or NULL rr) h) !! hd_or NULL rr = Some (Vmr NULL c n).
Proof.
  intros Hd. apply (dll_unlink _ _ _ [] p b rr) in Hd as (_ & _ & _ & _ & Hs). simpl in *.
  destruct rr as [|[q c] rr]; [by left|]. destruct Hs as [Hs _]. right. eauto.
Qed.

Lemma dll_tail_prev h hd tl p b l :
  dll h hd tl (l ++ [(p, b)]) -> last_or NULL l = NULL ∨
  ∃ a c, (unlink p (last_or NULL l) NULL h) !! last_or NULL l = Some (Vmr a c NULL).
Proof.
  intros Hd. apply (dll_unlink _ _ _ l p b []) in Hd as (_ & _ & _ & _ & Hs).
  rewrite app_nil_r in Hs. destruct l as [|[q c] l _] using rev_ind; [by left|].
  rewrite last_or_snoc in *. apply dseg_app in Hs as [_ [Hs _]]. right. eauto.
Qed.


(** A node is not the neighbour of its own position. *)
Lemma last_not_in (xs : rlist) r : r ≠ NULL -> r ∉ addrs xs -> r = last_or NULL xs -> False.
Proof.
  intros Hr Hn Heq. destruct (decide (xs = [])) as [->|Hne]; [done|].
  apply (last_or_in NULL) in Hne. congruence.
Qed.

Lemma hd_not_in (xs : rlist) r : r ≠ NULL -> r ∉ addrs xs -> r = hd_or NULL xs -> False.
Proof.
  intros Hr Hn Heq. destruct (decide (xs = [])) as [->|Hne]; [done|].
  apply (hd_or_in NULL) in Hne. congruence.
Qed.

Lemma head_is_node (hd p : ptr) (b : vbody) (l rr : rlist) : NoDup (addrs (l ++ (p, b) :: rr)) ->
  hd = hd_or NULL (l ++ (p, b) :: rr) ->
  (hd = p <-> l = []).
Proof.
  intros Hnd ->. destruct l as [|[q c] l]; simpl; [done|]. split; [|done]. intros ->.
  exfalso. simpl in Hnd. rewrite fmap_app in Hnd. apply NoDup_cons in Hnd as [Hn _].
  apply Hn. clear. set_solver.
Qed.

Lemma tail_is_node (tl p : ptr) (b : vbody) (l rr : rlist) : NoDup (addrs (l ++ (p, b) :: rr)) ->
  tl = last_or NULL (l ++ (p, b) :: rr) ->
  (tl = p <-> rr = []).
Proof.
  intros Hnd ->. destruct rr as [|[q c] rr _] using rev_ind; [by rewrite last_or_snoc|].
  rewrite app_comm_cons, app_assoc, last_or_snoc. simpl. split; [|by intros [_ [=]]%app_eq_nil].
  intros ->. exfalso. rewrite app_comm_cons, app_assoc, fmap_app in Hnd.
  apply NoDup_app in Hnd as (_ & Hn & _). apply (Hn p); [|left]. rewrite fmap_app. clear. set_solver.
Qed.

Lemma wp_remove_unlink s m x l r b rr (Q : unit -> mm H -> Prop) :
  mrep s m x (l ++ (r, b) :: rr) ->
  (∀ h', erase <$> h' = unlink r (last_or NULL l) (hd_or NULL rr) (erase <$> mm_vmrs s) ->
     Q tt (Mm h' (<[m := mset_tail (last_or NULL (l ++ rr)) (mset_head (hd_or NULL (l ++ rr)) x)]>
       (mm_maps s)) (mm_arch s) (mm_ticks s))) ->
  wp (remove_unlink m r) s Q.
Proof.
  intros (Hm & Hx & Hlk & Hd) HQ. set (U := unlink _ _ _ _) in HQ.
  destruct (dll_mid _ _ _ _ _ _ _ Hd) as (Hr & Hrl & Hrr & Hlr).
  pose proof Hd as (Hhd & Htl & Hnd & Hnn & _).
  assert (r ≠ last_or NULL l) as Hn1 by (intros Heq; by apply (last_not_in l r)).
  assert (r ≠ hd_or NULL rr) as Hn2 by (intros Heq; by apply (hd_not_in rr r)).
  unfold remove_unlink.
  wp_step. eapply wp_vm; [done|exact Hlr|]. intros v1 _ (H1 & H2 & _)%erase_shape. rewrite H1, H2.
  wp_step. apply wp_unlink_prev; [done|eauto|by eapply dll_last_live|]. intros h1 E1.
  wp_step. eapply wp_vm; [done|simpl; rewrite E1, put_next_ne by done; exact Hlr|].
  intros v2 _ (H3 & H4 & _)%erase_shape. rewrite H3, H4.
  wp_step. apply wp_unlink_next; [done|simpl; rewrite E1, put_next_ne by done; eauto| |].
  { simpl. rewrite E1. destruct (dll_next_live _ _ _ _ _ _ Hd) as [|Hs]; [by left|right].
    by apply elem_of_dom; rewrite dom_put_next; apply elem_of_dom. }
  intros h2 E2. simpl in E2. rewrite E1 in E2. fold (unlink r (last_or NULL l) (hd_or NULL rr) (erase <$> mm_vmrs s)) in E2.
  change (erase <$> h2 = U) in E2. simpl. clear dependent h1.
  assert (U !! r = Some (Vmr (last_or NULL l) b (hd_or NULL rr))) as HUr.
  { unfold U. erewrite unlink_outside; [exact Hlr|exact Hd|]. rewrite fmap_app. clear -Hrl Hrr. set_solver. }
  wp_step. eapply wp_vm; [done|simpl; rewrite E2; exact HUr|]. intros v3 _ (H5 & H6 & _)%erase_shape.
  wp_step. eapply wp_map; [done|exact Hx|]. rewrite H6.
  wp_step. apply (wp_fix_head _ m x r); [done|exact Hx| |].
  { intros Hl%(head_is_node _ _ _ _ _ Hnd Hhd). subst l. simpl. rewrite E2. by eapply dll_head_next. }
  simpl. intros h3 E3. rewrite E2 in E3. clear dependent h2.
  wp_step. eapply wp_vm; [done|simpl; rewrite E3; exact HUr|]. intros v4 _ (H7 & H8 & _)%erase_shape.
  wp_step. eapply wp_map; [done|simpl; apply lookup_insert_eq|]. rewrite H7.
  eapply (wp_fix_tail _ m _ r); [done|simpl; apply lookup_insert_eq| |].
  { simpl. intros Hl%(tail_is_node _ _ _ _ _ Hnd Htl). subst rr. simpl. rewrite E3. by eapply dll_tail_prev. }
  simpl. intros h4 E4. rewrite insert_insert_eq. rewrite E3 in E4. specialize (HQ h4 E4).
  rewrite <- (hd_or_unlink l r b rr Hnd), <- (last_or_unlink l r b rr Hnd) in HQ.
  rewrite <- Hhd, <- Htl in HQ.
  destruct (decide (m_head x = r)), (decide (r = m_head x)); try congruence;
  destruct (decide (m_tail x = r)), (decide (r = m_tail x)); try congruence; done.
Qed.

Lemma wp_mmap_remove s m x l r b rr (Q : Z -> mm H -> Prop) :
  mrep s m x (l ++ (r, b) :: rr) ->
  (∀ h', let x' := map_with (m_refs x - 1) (m_used_space x) (l ++ rr) x in
     let s' := Mm h' (<[m := x']> (mm_maps s)) (arch_unmap_n (v_start b) (vmr_size b) (mm_arch s)) (mm_ticks s) in
     mrep s' m x' (l ++ rr) -> only (addrs (l ++ (r, b) :: rr)) s s' -> Q 0 s') ->
  wp (mmap_remove m r) s Q.
Proof.
  intros Hrep HQ. pose proof Hrep as (Hm & Hx & Hlk & Hd).
  destruct (dll_mid _ _ _ _ _ _ _ Hd) as (Hr & Hrl & Hrr & Hlr).
  assert (r ∉ addrs (l ++ rr)) as Hrn by (rewrite fmap_app; clear -Hrl Hrr; set_solver).
  unfold mmap_remove. rewrite decide_False by naive_solver.
  wp_step. eapply wp_assert_locked; [done|]. wp_step. eapply wp_mmap_contains; [done|done|].
  rewrite (decide_True (P := r ∈ _)) by (rewrite fmap_app; clear; set_solver).
  rewrite decide_False by done. wp_step. eapply wp_remove_unlink; [exact Hrep|].
  intros h1 E1. pose proof (dll_unlink _ _ _ _ _ _ _ Hd) as Hu. rewrite <- E1 in Hu.
  assert ((erase <$> h1) !! r = Some (Vmr (last_or NULL l) b (hd_or NULL rr))) as Hl1.
  { rewrite E1. by erewrite unlink_outside. }
  wp_step. apply wp_vm_refs; [done|eauto|]. intros h2 E2. simpl in *.
  wp_step. eapply wp_vm_body; [done|simpl; rewrite E2; exact Hl1|by intros []|]. intros h3 E3. simpl in *.
  rewrite E2 in E3. wp_step. eapply wp_map_upd; [done|simpl; apply lookup_insert_eq|]. simpl.
  wp_step. eapply wp_vm; [done|simpl; rewrite E3; apply lookup_insert_eq|].
  intros v _ (_ & _ & Hb)%erase_shape. simpl in Hb.
  wp_step. unfold arch. wp_step. wp_step. apply wp_vmr_free; [simpl; rewrite E3, lookup_insert_eq; eauto|].
  intros h4 E4. wp_step. simpl in *. rewrite insert_insert_eq.
  assert (v_start (v_body v) = v_start b ∧ vmr_size (v_body v) = vmr_size b) as [-> ->].
  { unfold vmr_size. apply (f_equal v_start) in Hb as H1. apply (f_equal v_end) in Hb as H2.
    simpl in *. by rewrite H1, H2. }
  assert (∀ q, q ≠ r -> (erase <$> h4) !! q = (erase <$> h1) !! q) as E5.
  { intros q Hq. by rewrite E4, E3, lookup_insert_ne by done. }
  apply HQ.
  - split; [done|]. split; [simpl; apply lookup_insert_eq|]. split; [done|]. simpl.
    eapply dll_frame; [|exact Hu]. intros q Hq. apply E5. by intros ->.
  - split; [|done]. simpl. intros q Hq. rewrite fmap_app in Hq, Hrn. rewrite E5 by (clear -Hq; set_solver).
    rewrite E1. eapply unlink_outside; [exact Hd|]. rewrite fmap_app. clear -Hq. set_solver.
Qed.


(** ** Unmapping a range *)

(** What is left of one region when the addresses [[lo, hi]] are unmapped;
    the region does not reach beyond both ends of the range. *)
Definition cut1 (lo hi : Z) (x : ptr * vbody) : rlist :=
  let b := x.2 in
  if decide (v_end b < lo ∨ hi < v_start b) then [x]
  else if decide (v_start b < lo) then [(x.1, bset_end (lo - 1) b)]
  else if decide (hi < v_end b) then [(x.1, bset_start (hi + 1) b)]
  else [].
Definition cut (lo hi : Z) (xs : rlist) : rlist := xs ≫= cut1 lo hi.

(** The code can only trim the first region of the range by one byte: an
    unmap that starts further inside a region is not handled. *)
Definition unmappable (lo : Z) (xs : rlist) : Prop :=
  ∀ b, b ∈ xs.*2 -> v_start b < lo -> v_end b <= lo.

(** The regions the range swallows, in the order they are removed. *)
Definition swallowed (lo hi : Z) (xs : rlist) : rlist :=
  filter (λ x, lo <= v_start x.2 ∧ v_end x.2 <= hi) xs.
Definition unmap_arch (bs : rlist) (a : H) : H :=
  foldl (λ a x, arch_unmap_n (v_start x.2) (vmr_size x.2) a) a bs.

Lemma cut_app lo hi l r : cut lo hi (l ++ r) = cut lo hi l ++ cut lo hi r.
Proof. apply bind_app. Qed.

Lemma cut_cons lo hi x r : cut lo hi (x :: r) = cut1 lo hi x ++ cut lo hi r.
Proof. done. Qed.

Lemma cut_outside lo hi xs :
  (∀ b, b ∈ xs.*2 -> v_end b < lo ∨ hi < v_start b) -> cut lo hi xs = xs.
Proof.
  induction xs as [|x xs IH]; [done|]. intros Hb. rewrite cut_cons, IH.
  - unfold cut1. by rewrite decide_True by (apply Hb; left).
  - intros b Hin. apply Hb. by right.
Qed.

Lemma swallowed_outside lo hi xs : space_ok xs ->
  (∀ b, b ∈ xs.*2 -> v_end b < lo ∨ hi < v_start b) -> swallowed lo hi xs = [].
Proof.
  induction xs as [|[p b] xs IH]; [done|]. intros (Hb & Hok & _)%space_cons Hall. unfold swallowed.
  rewrite filter_cons_False.
  - apply IH; [done|]. intros c Hc. apply Hall. by right.
  - simpl. destruct (Hall b); [left| |]; unfold region_ok in Hb; lia.
Qed.

Lemma swallowed_app lo hi l r : swallowed lo hi (l ++ r) = swallowed lo hi l ++ swallowed lo hi r.
Proof. apply filter_app. Qed.

(** Ranges that meet the same regions in the same way cut the same. *)
Lemma cut_lo lo lo' hi xs : space_ok xs -> lo <= lo' ->
  (∀ b, b ∈ xs.*2 -> v_end b < lo ∨ lo' <= v_start b) -> cut lo hi xs = cut lo' hi xs.
Proof.
  intros Hok Hle. induction xs as [|[p b] xs IH]; [done|]. intros Hb.
  apply space_cons in Hok as (Hr & Hok & _). unfold region_ok in Hr. rewrite !cut_cons, IH; [f_equal|done|].
  - assert (v_end b < lo ∨ lo' <= v_start b) by (apply Hb; left).
    unfold cut1; simpl; repeat case_decide; done || (exfalso; lia).
  - intros c Hc. apply Hb. by right.
Qed.

Lemma swallowed_lo lo lo' hi xs : space_ok xs -> lo <= lo' ->
  (∀ b, b ∈ xs.*2 -> v_end b < lo ∨ lo' <= v_start b) -> swallowed lo hi xs = swallowed lo' hi xs.
Proof.
  intros Hok Hle. induction xs as [|[p b] xs IH]; [done|]. intros Hb.
  apply space_cons in Hok as (Hr & Hok & _). unfold region_ok in Hr.
  assert (v_end b < lo ∨ lo' <= v_start b) by (apply Hb; left).
  unfold swallowed in *. rewrite !filter_cons. simpl. rewrite IH; [|done|intros c Hc; apply Hb; by right].
  repeat case_decide; done || (exfalso; lia).
Qed.

(** The part of the list at and above an address. *)
Lemma space_at xs a : space_ok xs ->
  ∃ l r, xs = l ++ r ∧ (∀ b, b ∈ l.*2 -> v_end b < a) ∧ (∀ b, b ∈ r.*2 -> a <= v_end b).
Proof.
  intros Hok. induction xs as [|[p b] xs IH].
  - exists [], []. repeat split; set_solver.
  - apply space_cons in Hok as (Hb & Hok & Hlt). unfold region_ok in Hb.
    destruct (decide (v_end b < a)) as [He|He].
    + destruct IH as (l & r & -> & H1 & H2); [done|]. exists ((p, b) :: l), r.
      repeat split; [|done]. simpl. intros c [->|Hc]%elem_of_cons; auto.
    + exists [], ((p, b) :: xs). repeat split; [set_solver|]. simpl. intros c [->|Hc]%elem_of_cons; [lia|].
      specialize (Hlt c Hc). pose proof (space_in _ _ Hok Hc) as Hcr. unfold region_ok in Hcr. lia.
Qed.

Lemma hole_len_at l r a : space_ok (l ++ r) -> (∀ b, b ∈ l.*2 -> v_end b < a) ->
  hole_len (l ++ r) a = hole_len r a.
Proof.
  induction l as [|[p b] l IH]; [done|]. intros (_ & Hok & _)%space_cons Hl. simpl.
  rewrite decide_True by (apply Hl; left). apply IH; [done|]. intros c Hc. apply Hl. by right.
Qed.

Lemma first_sat_at l r a : (∀ b, b ∈ l.*2 -> v_end b < a) ->
  first_sat (cov a) (l ++ r) = first_sat (cov a) r.
Proof.
  induction l as [|[p b] l IH]; [done|]. intros Hl. simpl. unfold cov at 1.
  assert (v_end b < a) by (apply Hl; left). rewrite bool_decide_false by lia.
  apply IH. intros c Hc. apply Hl. by right.
Qed.

(** The payload of one region changes. *)
Lemma wp_set_body s m x l r b rr f (Q : unit -> mm H -> Prop) :
  mrep s m x (l ++ (r, b) :: rr) -> (∀ b, bset_refs 0 (f b) = f (bset_refs 0 b)) ->
  (∀ h', let s' := Mm h' (mm_maps s) (mm_arch s) (mm_ticks s) in
     mrep s' m x (l ++ (r, f b) :: rr) -> only (addrs (l ++ (r, b) :: rr)) s s' -> Q tt s') ->
  wp (vm_body r f) s Q.
Proof.
  intros (Hm & Hx & Hlk & Hd) Hf HQ. destruct (dll_mid _ _ _ _ _ _ _ Hd) as (Hr & _ & _ & Hl).
  eapply wp_vm_body; [done|exact Hl|done|]. intros h' E. rewrite (alter_insert_Some _ _ _ _ Hl) in E.
  apply HQ.
  - split; [done|]. split; [done|]. split; [done|]. simpl. rewrite E. by eapply dll_payload.
  - split; [|done]. simpl. intros q Hq. rewrite E. apply lookup_alter_ne. intros <-.
    apply Hq. rewrite fmap_app. clear. set_solver.
Qed.


Lemma wp_find_exact_none s m x xs a e (Q : ptr -> mm H -> Prop) :
  mrep s m x xs -> first_sat (cov a) xs = NULL -> Q NULL s -> wp (mmap_find_exact m a e) s Q.
Proof.
  intros Hr Hf HQ. pose proof Hr as (Hm & _). unfold mmap_find_exact. rewrite decide_False by done.
  wp_step. eapply wp_assert_locked; [done|]. wp_step. eapply wp_mmap_find; [done|].
  rewrite Hf. rewrite decide_True by done. by wp_step.
Qed.

Lemma wp_find_exact_some s m x l p b r a e (Q : ptr -> mm H -> Prop) :
  mrep s m x (l ++ (p, b) :: r) -> first_sat (cov a) (l ++ (p, b) :: r) = p ->
  Q (if decide (a = v_start b ∧ e = v_end b) then p else NULL) s -> wp (mmap_find_exact m a e) s Q.
Proof.
  intros Hr Hf HQ. pose proof Hr as (Hm & _ & _ & Hd).
  destruct (dll_mid _ _ _ _ _ _ _ Hd) as (Hp & _ & _ & Hl).
  unfold mmap_find_exact. rewrite decide_False by done.
  wp_step. eapply wp_assert_locked; [done|]. wp_step. eapply wp_mmap_find; [done|].
  rewrite Hf. rewrite decide_False by done. wp_step. eapply wp_vm; [done|exact Hl|].
  intros v _ (_ & _ & Hb)%erase_shape.
  assert (v_start (v_body v) = v_start b ∧ v_end (v_body v) = v_end b) as [-> ->] by (by rewrite <- Hb).
  destruct (decide (a = v_start b ∧ e = v_end b)).
  - rewrite decide_False by tauto. by wp_step.
  - rewrite decide_True; [by wp_step|]. destruct (decide (a = v_start b)), (decide (e = v_end b)); tauto.
Qed.

Lemma map_with_id s m x xs : mrep s m x xs -> map_with (m_refs x) (m_used_space x) xs x = x.
Proof. intros (_ & _ & _ & (Hh & Ht & _)). destruct x. simpl in *. by subst. Qed.

(** The outcome of unmapping [[lo, hi]]. *)
Definition unmapped s (m : ptr) (x : mmap_t) xs (lo hi : Z) s' : Prop :=
  let x' := map_with (m_refs x - Z.of_nat (length (swallowed lo hi xs))) (m_used_space x) (cut lo hi xs) x in
  mrep s' m x' (cut lo hi xs) ∧ mm_maps s' = <[m := x']> (mm_maps s) ∧
  only (addrs xs) s s' ∧ mm_arch s' = unmap_arch (swallowed lo hi xs) (mm_arch s).

Lemma only_trans ps qs s1 s2 s3 : (∀ q, q ∈ qs -> q ∈ ps) -> only ps s1 s2 -> only qs s2 s3 -> only ps s1 s3.
Proof.
  intros Hsub [H1 T1] [H2 T2]. split; [|congruence]. intros q Hq. rewrite H2; [by apply H1|]. naive_solver.
Qed.

Lemma only_refl ps s : only ps s s.
Proof. done. Qed.

(** A hole is stepped over. *)
Lemma unmapped_skip s m x xs lo lo' hi s' : space_ok xs -> lo <= lo' ->
  (∀ b, b ∈ xs.*2 -> v_end b < lo ∨ lo' <= v_start b) ->
  unmapped s m x xs lo' hi s' -> unmapped s m x xs lo hi s'.
Proof.
  intros Hok Hle Hb. unfold unmapped. by rewrite (cut_lo lo lo'), (swallowed_lo lo lo').
Qed.

Lemma unmapped_none s m x xs lo hi : mrep s m x xs -> space_ok xs ->
  (∀ b, b ∈ xs.*2 -> v_end b < lo ∨ hi < v_start b) -> unmapped s m x xs lo hi s.
Proof.
  intros Hr Hok Hb. unfold unmapped. rewrite cut_outside, swallowed_outside by done. simpl.
  rewrite Z.sub_0_r, (map_with_id s m) by done. split; [done|].
  destruct Hr as (_ & Hx & _). by rewrite insert_id.
Qed.

(** One region is removed and the rest of the range is unmapped. *)
Lemma unmapped_step s m x l p b r lo lo' hi h1 s' :
  let x1 := map_with (m_refs x - 1) (m_used_space x) (l ++ r) x in
  let s1 := Mm h1 (<[m := x1]> (mm_maps s)) (arch_unmap_n (v_start b) (vmr_size b) (mm_arch s)) (mm_ticks s) in
  space_ok (l ++ (p, b) :: r) -> (∀ c, c ∈ l.*2 -> v_end c < lo) ->
  lo = v_start b -> lo <= lo' -> v_end b <= hi -> (∀ c, c ∈ r.*2 -> lo' <= v_start c) ->
  only (addrs (l ++ (p, b) :: r)) s s1 -> unmapped s1 m x1 (l ++ r) lo' hi s' ->
  unmapped s m x (l ++ (p, b) :: r) lo hi s'.
Proof.
  intros x1 s1 Hok Hl -> Hle Hhi Hr Honly (Hrep & Hmaps & Hon & Harch).
  apply space_app in Hok as (Hokl & (Hb & Hokr & Hlt)%space_cons & Hlr). unfold region_ok in Hb.
  assert (cut lo' hi (l ++ r) = cut (v_start b) hi (l ++ (p, b) :: r)) as Hc.
  { rewrite !cut_app, cut_cons. unfold cut1 at 1. simpl.
    rewrite decide_False by lia. rewrite decide_False by lia. rewrite decide_False by lia. simpl.
    rewrite (cut_lo (v_start b) lo' hi l), (cut_lo (v_start b) lo' hi r); auto. }
  assert (swallowed (v_start b) hi (l ++ (p, b) :: r) = (p, b) :: swallowed lo' hi (l ++ r)) as Hs.
  { rewrite !swallowed_app. rewrite (swallowed_outside _ _ l), (swallowed_outside lo' _ l);
      [|done|intros c Hc'; specialize (Hl c Hc'); lia|done|auto].
    simpl. unfold swallowed at 1. rewrite filter_cons_True by (simpl; lia). f_equal.
    change (swallowed (v_start b) hi r = swallowed lo' hi r). apply swallowed_lo; auto. }
  rewrite Hc in Hrep, Hmaps. unfold unmapped. rewrite Hs. simpl.
  assert (m_refs x - Z.of_nat (S (length (swallowed lo' hi (l ++ r))))
    = m_refs x1 - Z.of_nat (length (swallowed lo' hi (l ++ r)))) as -> by (unfold x1; simpl; lia).
  split; [exact Hrep|]. split; [rewrite Hmaps; unfold s1; simpl; by rewrite insert_insert_eq|].
  split; [|exact Harch]. eapply only_trans; [|exact Honly|exact Hon].
  intros q. rewrite !fmap_app. clear. set_solver.
Qed.

(** The first region is trimmed at its end. *)
Lemma unmapped_trim s m x l p b r lo hi h1 s' :
  let s1 := Mm h1 (mm_maps s) (mm_arch s) (mm_ticks s) in
  mrep s1 m x (l ++ (p, bset_end (lo - 1) b) :: r) ->
  v_start b < lo -> v_end b = lo -> lo <= hi ->
  only (addrs (l ++ (p, b) :: r)) s s1 -> unmapped s1 m x (l ++ (p, bset_end (lo - 1) b) :: r) lo hi s' ->
  unmapped s m x (l ++ (p, b) :: r) lo hi s'.
Proof.
  intros s1 _ Hs He Hle Honly. unfold unmapped. rewrite !cut_app, !cut_cons, !swallowed_app.
  assert (cut1 lo hi (p, bset_end (lo - 1) b) = cut1 lo hi (p, b)) as ->.
  { unfold cut1. simpl. rewrite decide_True by lia.
    rewrite decide_False by lia. by rewrite decide_True by lia. }
  assert (swallowed lo hi ((p, bset_end (lo - 1) b) :: r) = swallowed lo hi ((p, b) :: r)) as ->.
  { unfold swallowed. by rewrite !filter_cons_False by (simpl; lia). }
  intros (H1 & H2 & H3 & H4). split; [done|]. split; [done|]. split; [|done].
  eapply only_trans; [|exact Honly|exact H3]. intros q. by rewrite !fmap_app.
Qed.


Lemma loop_done fuel s m lo (Q : unit -> mm H -> Prop) :
  (1 <= fuel)%nat -> Q tt s -> wp (mmap_unmap_loop fuel m lo 0) s Q.
Proof. intros Hf HQ. destruct fuel; [lia|]. done. Qed.

(** Fuel that is enough for the regions [r] at and above [lo]. *)
Definition enough (fuel : nat) (r : rlist) (lo : Z) : Prop :=
  (2 * length r + 2 <= fuel)%nat ∨
  ((2 * length r + 1 <= fuel)%nat ∧ ∃ p b r', r = (p, b) :: r' ∧ v_start b = lo).

(** The claim of the loop, for all starting points and some fuel. *)
Definition loop_spec (fuel : nat) (m : ptr) (hi : Z) : Prop := ∀ s x l r lo (Q : unit -> mm H -> Prop),
  mrep s m x (l ++ r) -> space_ok (l ++ r) -> m_limit x = mmap_limit ->
  0 <= lo <= hi -> hi <= mmap_limit ->
  (∀ b, b ∈ l.*2 -> v_end b < lo) -> (∀ b, b ∈ r.*2 -> lo <= v_end b) ->
  unmappable lo (l ++ r) -> enough fuel r lo ->
  (∀ s', unmapped s m x (l ++ r) lo hi s' -> Q tt s') ->
  wp (mmap_unmap_loop fuel m lo (hi - lo + 1)) s Q.

(** A round that starts in a hole. *)
Lemma unmap_round_hole fuel m hi s x l r lo (Q : unit -> mm H -> Prop) :
  loop_spec fuel m hi ->
  mrep s m x (l ++ r) -> space_ok (l ++ r) -> m_limit x = mmap_limit ->
  0 <= lo <= hi -> hi <= mmap_limit ->
  (∀ b, b ∈ l.*2 -> v_end b < lo) -> (∀ b, b ∈ r.*2 -> lo < v_start b) ->
  (2 * length r + 1 <= fuel)%nat ->
  (∀ s', unmapped s m x (l ++ r) lo hi s' -> Q tt s') ->
  wp (mmap_unmap_loop (S fuel) m lo (hi - lo + 1)) s Q.
Proof.
  intros IH Hrep Hok Hlim Hlo Hhi Hl Hr Hf HQ. cbn [mmap_unmap_loop].
  assert (0 < hole_len (l ++ r) lo) as Hpos.
  { rewrite hole_len_at by done. destruct r as [|[p b] r]; simpl; [lia|].
    assert (lo < v_start b) by (apply Hr; left).
    apply space_app in Hok as (_ & (Hb & _)%space_cons & _). unfold region_ok in Hb.
    rewrite decide_False by lia. rewrite decide_False by lia. lia. }
  pose proof (hole_len_bound _ lo Hok) as Hbd.
  pose proof Hrep as (_ & _ & _ & (_ & _ & _ & Hnn & _)).
  pose proof (proj2 (first_cov _ lo Hnn Hok ltac:(lia)) Hpos) as Hfs.
  rewrite decide_False by lia. wp_step. eapply wp_find_exact_none; [done|done|].
  rewrite decide_False by auto. wp_step. eapply wp_mmap_find; [done|]. rewrite Hfs.
  rewrite decide_False by auto. wp_step. eapply wp_mmap_holesize; [done|done|done|lia|].
  rewrite holesize_pos by done. simpl. rewrite decide_False by lia.
  unfold mmap_limit, USTACK in Hbd, Hhi.
  destruct (decide (hole_len (l ++ r) lo > hi - lo + 1)) as [Hc|Hc].
  - rewrite !u64_small by (unfold in_u64, two64; lia). rewrite Z.sub_diag. apply loop_done; [lia|].
    apply HQ, unmapped_none; [done|done|]. intros b Hb.
    destruct (proj2 (hole_len_free _ lo (hole_len (l ++ r) lo) Hok ltac:(lia) Hpos) ltac:(lia)) as (_ & _ & _ & Hd).
    destruct (Hd b Hb); [by left|right; lia].
  - rewrite !u64_small by (unfold in_u64, two64; lia).
    destruct (proj2 (hole_len_free _ lo (hole_len (l ++ r) lo) Hok ltac:(lia) Hpos) ltac:(lia)) as (_ & _ & _ & Hd).
    destruct (decide (hole_len (l ++ r) lo = hi - lo + 1)) as [Heq|Hne].
    + rewrite Heq, Z.sub_diag. apply loop_done; [lia|].
      apply HQ, unmapped_none; [done|done|]. intros b Hb. destruct (Hd b Hb); [by left|right; lia].
    + replace (hi - lo + 1 - hole_len (l ++ r) lo) with (hi - (lo + hole_len (l ++ r) lo) + 1) by lia.
      apply (IH s x l r); try done; try (unfold mmap_limit, USTACK; lia).
      * intros b Hb. specialize (Hl b Hb). lia.
      * intros b Hb. specialize (Hr b Hb).
        assert (b ∈ (l ++ r).*2) as Hin by (rewrite fmap_app; apply elem_of_app; by right).
        pose proof (space_in _ _ Hok Hin) as Hbr. unfold region_ok in Hbr.
        destruct (Hd b Hin); lia.
      * intros b Hb Hs. destruct (Hd b Hb); lia.
      * right. split; [done|]. rewrite hole_len_at in Hne, Hc |- * by done.
        destruct r as [|[p b] r]; simpl in *; [unfold mmap_limit, USTACK in *; lia|].
        exists p, b, r. split; [done|]. assert (lo < v_start b) by (apply Hr; left). clear Hne Hc.
        apply space_app in Hok as (_ & (Hb & _)%space_cons & _). unfold region_ok in Hb.
        rewrite decide_False by lia. rewrite decide_False by lia. lia.
      * intros s' Hs'. apply HQ. eapply unmapped_skip; [done| |exact Hd|exact Hs']. lia.
Qed.


Lemma first_sat_head l p b r a : (∀ c, c ∈ l.*2 -> v_end c < a) -> covers a b ->
  first_sat (cov a) (l ++ (p, b) :: r) = p.
Proof.
  intros Hl Hc. unfold covers in Hc. rewrite first_sat_at by done. simpl. unfold cov at 1.
  by rewrite bool_decide_true by lia.
Qed.

(** The last region of the range is trimmed at its start. *)
Lemma unmapped_last s m x l p b r lo hi s1 :
  mrep s1 m x (l ++ (p, bset_start (hi + 1) b) :: r) ->
  space_ok (l ++ (p, b) :: r) -> (∀ c, c ∈ l.*2 -> v_end c < lo) ->
  v_start b = lo -> lo <= hi -> hi < v_end b ->
  mm_maps s1 = mm_maps s -> mm_arch s1 = mm_arch s ->
  only (addrs (l ++ (p, b) :: r)) s s1 -> unmapped s m x (l ++ (p, b) :: r) lo hi s1.
Proof.
  intros Hrep Hok Hl Hs Hle He Hma Har Hon.
  apply space_app in Hok as (Hokl & (Hb & Hokr & Hlt)%space_cons & Hlr).
  assert (∀ c, c ∈ r.*2 -> v_end c < lo ∨ hi < v_start c) as Hr.
  { intros c Hc. right. specialize (Hlt c Hc). lia. }
  unfold unmapped. rewrite cut_app, cut_cons, swallowed_app.
  rewrite (cut_outside _ _ l), (cut_outside _ _ r), (swallowed_outside _ _ l) by auto.
  assert (cut1 lo hi (p, b) = [(p, bset_start (hi + 1) b)]) as ->.
  { unfold cut1. simpl. rewrite decide_False by lia. rewrite decide_False by lia.
    by rewrite decide_True by lia. }
  assert (swallowed lo hi ((p, b) :: r) = []) as ->.
  { unfold swallowed. rewrite filter_cons_False by (simpl; lia).
    change (swallowed lo hi r = []). by apply swallowed_outside. }
  simpl. rewrite Z.sub_0_r, (map_with_id s1 m) by done. split; [done|].
  split; [|done]. rewrite Hma. destruct Hrep as (_ & Hx & _). rewrite Hma in Hx. by rewrite insert_id.
Qed.

(** The region that starts the range is removed; the loop goes on at [lo']. *)
Lemma unmap_after_remove fuel m hi s x l p b r lo' (Q : unit -> mm H -> Prop) :
  loop_spec fuel m hi ->
  mrep s m x (l ++ (p, b) :: r) -> space_ok (l ++ (p, b) :: r) -> m_limit x = mmap_limit ->
  v_start b <= lo' <= hi -> hi <= mmap_limit -> v_end b <= hi ->
  (∀ c, c ∈ l.*2 -> v_end c < v_start b) -> (∀ c, c ∈ r.*2 -> lo' <= v_start c) ->
  (2 * length r + 2 <= fuel)%nat ->
  (∀ s', unmapped s m x (l ++ (p, b) :: r) (v_start b) hi s' -> Q tt s') ->
  wp (mmap_remove m p;; mmap_unmap_loop fuel m lo' (hi - lo' + 1)) s Q.
Proof.
  intros IH Hrep Hok Hlim Hlo Hhi He Hl Hr Hf HQ.
  pose proof Hok as (Hokl & (Hb & Hokr & Hlt)%space_cons & Hlr)%space_app. unfold region_ok in Hb.
  wp_step. eapply wp_mmap_remove; [exact Hrep|]. intros h1 x1 s1 Hrep1 Hon1.
  eapply (IH _ _ l r); [exact Hrep1|by eapply space_remove|done|lia|done| | | | |].
  - intros c Hc. specialize (Hl c Hc). lia.
  - intros c Hc. specialize (Hr c Hc). pose proof (space_in _ _ Hokr Hc) as Hcr. unfold region_ok in Hcr. lia.
  - intros c Hc Hs. rewrite fmap_app in Hc. apply elem_of_app in Hc as [Hc|Hc]; [specialize (Hl c Hc); lia|].
    specialize (Hr c Hc). lia.
  - by left.
  - intros s' Hs'. apply HQ.
    eapply unmapped_step; [done|done|done| |done|exact Hr|exact Hon1|exact Hs']. lia.
Qed.

Lemma unmap_round_region fuel m hi s x l p b r (Q : unit -> mm H -> Prop) :
  loop_spec fuel m hi -> let lo := v_start b in
  mrep s m x (l ++ (p, b) :: r) -> space_ok (l ++ (p, b) :: r) -> m_limit x = mmap_limit ->
  lo <= hi -> hi <= mmap_limit -> (∀ c, c ∈ l.*2 -> v_end c < lo) ->
  (2 * length r + 2 <= fuel)%nat ->
  (∀ s', unmapped s m x (l ++ (p, b) :: r) lo hi s' -> Q tt s') ->
  wp (mmap_unmap_loop (S fuel) m lo (hi - lo + 1)) s Q.
Proof.
  intros IH lo Hrep Hok Hlim Hlo Hhi Hl Hf HQ. cbn [mmap_unmap_loop].
  pose proof Hok as (Hokl & (Hb & Hokr & Hlt)%space_cons & Hlr)%space_app. unfold region_ok in Hb.
  assert (first_sat (cov lo) (l ++ (p, b) :: r) = p) as Hfs.
  { apply first_sat_head; [done|]. unfold covers, lo. lia. }
  pose proof Hrep as (Hm & _ & _ & Hd). destruct (dll_mid _ _ _ _ _ _ _ Hd) as (Hp & _ & _ & Hlp).
  assert (space_ok (l ++ r)) as Hok' by (by eapply space_remove).
  assert (in_u64 hi ∧ in_u64 lo) as [Hu1 Hu2].
  { unfold in_u64, two64, mmap_limit, USTACK, lo in *. lia. }
  unfold mmap_limit, USTACK in Hhi, Hb. rewrite decide_False by lia.
  replace (lo + (hi - lo + 1) - 1) with hi by lia. rewrite (u64_small hi) by done.
  wp_step. eapply wp_find_exact_some; [done|done|]. fold lo.
  destruct (decide (lo = lo ∧ hi = v_end b)) as [[_ He]|Hne].
  - rewrite decide_True by done.
    replace (lo + (hi - lo)) with hi by lia. rewrite (u64_small hi) by done.
    replace (hi - lo + 1 - (hi - lo)) with (hi - hi + 1) by lia.
    rewrite (u64_small (hi - hi + 1)) by (unfold in_u64, two64; lia).
    eapply unmap_after_remove; try done; try (unfold mmap_limit, USTACK; lia).
      intros c Hc. specialize (Hlt c Hc). lia.
  - rewrite decide_False by auto. wp_step. eapply wp_mmap_find; [done|]. rewrite Hfs, decide_True by done.
    wp_step. eapply wp_vm; [done|exact Hlp|]. intros v _ (_ & _ & Hbv)%erase_shape.
    assert (v_start (v_body v) = lo ∧ vmr_size (v_body v) = vsize b ∧ vmr_upper_bound (v_body v) = v_end b + 1) as (-> & -> & ->).
    { rewrite <- (vmr_size_ok b) by (apply (space_in _ _ Hok); rewrite fmap_app; set_solver).
      assert (v_start (v_body v) = v_start b ∧ v_end (v_body v) = v_end b) as [H1 H2] by (by rewrite <- Hbv).
      unfold vmr_size, vmr_upper_bound. rewrite H1, H2. split; [done|]. split; [done|].
      rewrite u64_small; [done|]. unfold in_u64, two64. lia. }
    rewrite decide_True by done. unfold vsize. fold lo.
    destruct (decide (v_end b - lo + 1 > hi - lo + 1)) as [Hgt|Hgt].
    + wp_step. eapply wp_set_body; [exact Hrep|by intros []|]. intros h1 s1 Hrep1 Hon1. apply loop_done; [lia|].
      fold lo in Hrep1. replace (lo + (hi - lo + 1)) with (hi + 1) in Hrep1 by lia.
      rewrite u64_small in Hrep1 by (unfold in_u64, two64; lia).
      apply HQ. eapply unmapped_last; [exact Hrep1|done|done|done|lia|lia|done|done|exact Hon1].
    + rewrite decide_True by lia.
      replace (hi - lo + 1 - (v_end b - lo + 1)) with (hi - (v_end b + 1) + 1) by lia.
      rewrite u64_small by (unfold in_u64, two64; lia).
      eapply unmap_after_remove; try done; try (unfold mmap_limit, USTACK; lia).
      intros c Hc. specialize (Hlt c Hc). lia.
Qed.

Lemma unmap_round_trim fuel m hi s x l p b r lo (Q : unit -> mm H -> Prop) :
  loop_spec fuel m hi ->
  mrep s m x (l ++ (p, b) :: r) -> space_ok (l ++ (p, b) :: r) -> m_limit x = mmap_limit ->
  v_start b < lo -> v_end b = lo -> lo <= hi -> hi <= mmap_limit -> (∀ c, c ∈ l.*2 -> v_end c < lo) ->
  (2 * length r + 2 <= fuel)%nat ->
  (∀ s', unmapped s m x (l ++ (p, b) :: r) lo hi s' -> Q tt s') ->
  wp (mmap_unmap_loop (S fuel) m lo (hi - lo + 1)) s Q.
Proof.
  intros IH Hrep Hok Hlim Hs He Hlo Hhi Hl Hf HQ. cbn [mmap_unmap_loop].
  pose proof Hok as (Hokl & (Hb & Hokr & Hlt)%space_cons & Hlr)%space_app. unfold region_ok in Hb.
  assert (first_sat (cov lo) (l ++ (p, b) :: r) = p) as Hfs.
  { apply first_sat_head; [done|]. unfold covers. lia. }
  pose proof Hrep as (Hm & _ & _ & Hd). destruct (dll_mid _ _ _ _ _ _ _ Hd) as (Hp & _ & _ & Hlp).
  unfold mmap_limit, USTACK in Hhi, Hb. rewrite decide_False by lia.
  wp_step. eapply wp_find_exact_some; [done|done|].
  rewrite (decide_False (P := lo = v_start b ∧ _)) by lia. rewrite decide_False by auto.
  wp_step. eapply wp_mmap_find; [done|]. rewrite Hfs, decide_True by done.
  wp_step. eapply wp_vm; [done|exact Hlp|]. intros v _ (_ & _ & Hbv)%erase_shape.
  assert (v_start (v_body v) = v_start b ∧ v_end (v_body v) = v_end b) as (-> & ->) by (by rewrite <- Hbv).
  rewrite decide_False by lia. rewrite decide_True by done.
  wp_step. eapply wp_set_body; [exact Hrep|by intros []|]. intros h1 s1 Hrep1 Hon1.
  rewrite He, u64_small in Hrep1 by (unfold in_u64, two64; lia).
  assert (space_ok (l ++ (p, bset_end (lo - 1) b) :: r)) as Hok1.
  { apply space_insert; [by eapply space_remove| | |].
    - unfold region_ok, mmap_limit, USTACK. simpl. lia.
    - simpl. intros c Hc. apply Hlr; [done|left].
    - simpl. intros c Hc. specialize (Hlt c Hc). lia. }
  rewrite cons_middle, app_assoc in Hrep1, Hok1. eapply (IH _ x _ r); [exact Hrep1|exact Hok1|done|lia|done| | | | |].
  - intros c. rewrite fmap_app, elem_of_app. intros [Hc|Hc]; [auto|].
    apply list_elem_of_singleton in Hc as ->. simpl. lia.
  - intros c Hc. specialize (Hlt c Hc). pose proof (space_in _ _ Hokr Hc) as Hcr. unfold region_ok in Hcr. lia.
  - intros c. rewrite !fmap_app, !elem_of_app. intros [[Hc|Hc]|Hc] Hcs.
    + specialize (Hl c Hc). lia.
    + apply list_elem_of_singleton in Hc as ->. simpl. lia.
    + specialize (Hlt c Hc). lia.
  - by left.
  - rewrite <- app_assoc in *. simpl in *. intros s' Hs'. apply HQ.
    eapply unmapped_trim; [exact Hrep1|done|done|done|exact Hon1|exact Hs'].
Qed.

Lemma wp_unmap_loop fuel m hi : loop_spec fuel m hi.
Proof.
  induction fuel as [|fuel IH]; intros s x l r lo Q Hrep Hok Hlim Hlo Hhi Hl Hr Hu Hf HQ.
  { destruct Hf as [|[]]; lia. }
  destruct r as [|[p b] r].
  { eapply unmap_round_hole; try done; [set_solver|]. destruct Hf as [|[? (? & ? & ? & [=] & _)]]; simpl in *; lia. }
  pose proof Hok as (_ & (Hb & Hokr & Hlt)%space_cons & _)%space_app. unfold region_ok in Hb.
  assert (lo <= v_end b) by (apply Hr; left).
  destruct (decide (lo < v_start b)) as [Hc|Hc]; [|destruct (decide (v_start b = lo)) as [<-|Hne]].
  - eapply unmap_round_hole; try done.
    + intros c [->|Hin]%elem_of_cons; [done|]. specialize (Hlt c Hin). simpl in *. lia.
    + destruct Hf as [|[? (? & ? & ? & [= <- <- <-] & ?)]]; simpl in *; lia.
  - eapply unmap_round_region; try done; [lia|].
    destruct Hf as [|[? _]]; simpl in *; lia.
  - assert (v_end b <= lo) by (apply Hu; [rewrite fmap_app; set_solver|lia]).
    eapply unmap_round_trim; try done; try lia.
    destruct Hf as [|[? (? & ? & ? & [= <- <- <-] & ?)]]; simpl in *; lia.
Qed.

End spec.
