(* ===== verification/MmapThms.v ===== *)
(** * Finding holes, mapping and unmapping: the theorems about mmap.c

    The searches for a hole are related to two pure functions on the region
    list, [first_gap] and [last_gap], which are sound and complete.  On top of
    them and of [MmapSpec] stand the specifications of [mmap_unmap],
    [mmap_map_region] and their callers, and the properties of the component:
    what is mapped where after each call, in terms of the partial function
    [prot_at] from addresses to access rights. *)

From S2P Require Import Prelude Dll Mmap MmapSpec.

(** ** What is mapped at an address *)

Definition rights (b : vbody) : Z * Z * ptr := (v_flags b, v_vflags b, v_file b).

Fixpoint prot_at (xs : rlist) (a : Z) : option (Z * Z * ptr) :=
  match xs with
  | [] => None
  | (_, b) :: xs => if decide (covers a b) then Some (rights b) else prot_at xs a
  end.

Lemma prot_at_app l r a : prot_at (l ++ r) a = match prot_at l a with Some f => Some f | None => prot_at r a end.
Proof. induction l as [|[p b] l IH]; simpl; [done|]. case_decide; [done|]. apply IH. Qed.

Lemma prot_at_none xs a : (∀ b, b ∈ xs.*2 -> ~ covers a b) -> prot_at xs a = None.
Proof.
  induction xs as [|[p b] xs IH]; [done|]. intros Hn. simpl. rewrite decide_False by (apply Hn; left).
  apply IH. intros c Hc. apply Hn. by right.
Qed.

Lemma prot_at_some xs l p b r a : xs = l ++ (p, b) :: r -> space_ok xs -> covers a b ->
  prot_at xs a = Some (rights b).
Proof.
  intros -> (_ & _ & Hlr)%space_app Hc. rewrite prot_at_app, prot_at_none; [simpl; by rewrite decide_True|].
  intros c Hin. assert (v_end c < v_start b) by (apply Hlr; [done|left]). unfold covers in *. lia.
Qed.

(** Unmapping a range clears it and leaves every other address alone. *)
Lemma prot_at_cut lo hi xs a : space_ok xs -> unmappable lo xs -> lo <= hi ->
  prot_at (cut lo hi xs) a = if decide (lo <= a <= hi) then None else prot_at xs a.
Proof.
  induction xs as [|[p b] xs IH]; intros Hok Hu Hle; [by case_decide|].
  apply space_cons in Hok as (Hb & Hok & _). unfold region_ok in Hb.
  rewrite cut_cons, prot_at_app, IH; [|done|intros c Hc; apply Hu; by right|done].
  assert (v_start b < lo -> v_end b <= lo) as Hub by (apply Hu; left). simpl.
  unfold cut1. simpl. unfold covers.
  repeat (case_decide; simpl; unfold covers; simpl); try done; exfalso; lia.
Qed.

Lemma cut1_cases lo hi p b : region_ok b -> lo <= hi -> cut1 lo hi (p, b) = [] ∨
  ∃ c, cut1 lo hi (p, b) = [(p, c)] ∧ region_ok c ∧ v_start b <= v_start c ∧ v_end c <= v_end b ∧
       (v_end c < lo ∨ hi < v_start c).
Proof.
  unfold region_ok, cut1. intros Hb Hle. simpl.
  repeat case_decide; [right; exists b|right; eexists|right; eexists|by left];
    (split; [reflexivity|]); simpl; lia.
Qed.

Lemma cut_elem lo hi xs c : space_ok xs -> lo <= hi -> c ∈ (cut lo hi xs).*2 ->
  ∃ b, b ∈ xs.*2 ∧ v_start b <= v_start c ∧ v_end c <= v_end b ∧ (v_end c < lo ∨ hi < v_start c).
Proof.
  intros Hok Hle. induction xs as [|[p b] xs IH]; [set_solver|].
  apply space_cons in Hok as (Hb & Hok & _). rewrite cut_cons, fmap_app, elem_of_app.
  intros [Hc|Hc].
  - exists b. split; [left|]. destruct (cut1_cases lo hi p b Hb Hle) as [Hn|(d & Hd & _ & Hr)].
    + rewrite Hn in Hc. by apply elem_of_nil in Hc.
    + rewrite Hd in Hc. by apply list_elem_of_singleton in Hc as ->.
  - destruct (IH Hok Hc) as (d & Hd & Hr). exists d. split; [by right|done].
Qed.

Lemma cut_ok lo hi xs : space_ok xs -> lo <= hi -> space_ok (cut lo hi xs).
Proof.
  intros Hok Hle. induction xs as [|[p b] xs IH]; [done|].
  apply space_cons in Hok as (Hb & Hok & Hlt). specialize (IH Hok). rewrite cut_cons.
  destruct (cut1_cases lo hi p b Hb Hle) as [->|(c & -> & Hc & Hs & He & _)]; [done|].
  apply space_cons. split; [done|]. split; [done|]. intros d Hd.
  destruct (cut_elem lo hi xs d Hok Hle Hd) as (e & Hin & ? & _). specialize (Hlt e Hin). lia.
Qed.

Lemma cut_free lo hi xs : space_ok xs -> 0 <= lo <= hi -> hi <= mmap_limit ->
  free_at (cut lo hi xs) lo (hi - lo + 1).
Proof.
  intros Hok Hlo Hhi. repeat split; try lia. intros c Hc.
  destruct (cut_elem lo hi xs c Hok ltac:(lia) Hc) as (b & _ & _ & _ & ?). lia.
Qed.

Lemma cut_addrs lo hi xs p : p ∈ addrs (cut lo hi xs) -> p ∈ addrs xs.
Proof.
  induction xs as [|[q b] xs IH]; [done|]. rewrite cut_cons, fmap_app, elem_of_app.
  intros [Hp|Hp]; [|by right; apply IH]. assert (p = q) as ->; [|left].
  unfold cut1 in Hp. simpl in Hp.
  repeat case_decide; simpl in Hp; try (by apply elem_of_nil in Hp); by apply list_elem_of_singleton in Hp.
Qed.

(** Mapping a region into a free range overrides that range. *)
Lemma prot_at_insert l r p b a : space_ok (l ++ (p, b) :: r) ->
  prot_at (l ++ (p, b) :: r) a = if decide (covers a b) then Some (rights b) else prot_at (l ++ r) a.
Proof.
  intros Hok. rewrite !prot_at_app. simpl. destruct (decide (covers a b)) as [Hc|Hc]; [|done].
  rewrite prot_at_none; [done|]. apply space_app in Hok as (_ & _ & Hlr).
  intros c Hin. assert (v_end c < v_start b) by (apply Hlr; [done|left]). unfold covers in *. lia.
Qed.

Section thms.
Context {H : Type} {AV : ArchVm H} {K : Kmalloc}.
Implicit Types (s : mm H) (xs ys : rlist) (h : gmap ptr vmr_t).

Lemma wp_mmap_unmap s m x xs lo len (Q : Z -> mm H -> Prop) :
  mrep s m x xs -> space_ok xs -> m_limit x = mmap_limit ->
  0 <= lo -> 0 < len -> lo + len - 1 <= mmap_limit -> unmappable lo xs ->
  (∀ s', unmapped s m x xs lo (lo + len - 1) s' -> Q 0 s') ->
  wp (mmap_unmap m lo len) s Q.
Proof.
  intros Hr Hok Hlim Hlo Hlen Hhi Hu HQ. pose proof Hr as (Hm & _). unfold mmap_unmap.
  rewrite decide_False by lia. wp_step. eapply wp_assert_locked; [done|].
  rewrite u64_small by (unfold in_u64, two64, mmap_limit, USTACK in *; lia).
  unfold valid_addr. rewrite bool_decide_true by done. simpl. wp_step. unfold unmap_fuel. wp_step. wp_step.
  destruct (space_at xs lo Hok) as (l & r & -> & Hl & Hrr).
  replace len with (lo + len - 1 - lo + 1) at 1 by lia.
  eapply (wp_unmap_loop _ m (lo + len - 1) s x l r); try done; try lia.
  left. pose proof (mrep_fuel _ _ _ _ Hr) as Hf. rewrite length_app in Hf. lia.
Qed.

Lemma wp_mmap_unmap_inval s m x xs lo len (Q : Z -> mm H -> Prop) :
  mrep s m x xs -> len = 0 ∨ mmap_limit < u64 (lo + len - 1) ->
  Q (- EINVAL) s -> wp (mmap_unmap m lo len) s Q.
Proof.
  intros Hr Hbad HQ. pose proof Hr as (Hm & _). unfold mmap_unmap. case_decide; [by wp_step|].
  wp_step. eapply wp_assert_locked; [done|]. unfold valid_addr.
  rewrite bool_decide_false by lia. by apply wp_ret.
Qed.

(** An unmap that begins strictly inside a region dereferences [NULL]. *)
Lemma unmap_inside_stops s m x l p b r lo len :
  mrep s m x (l ++ (p, b) :: r) -> space_ok (l ++ (p, b) :: r) ->
  v_start b < lo < v_end b -> 0 < len -> lo + len - 1 <= mmap_limit ->
  mmap_unmap m lo len s = Stop BadAccess.
Proof.
  intros Hr Hok Hin Hlen Hhi. pose proof Hr as (Hm & _ & _ & Hd).
  pose proof Hok as (Hokl & (Hb & _)%space_cons & Hlr)%space_app. unfold region_ok in Hb.
  assert (first_sat (cov lo) (l ++ (p, b) :: r) = p) as Hfs.
  { apply first_sat_head; [|unfold covers; lia]. intros c Hc.
    assert (v_end c < v_start b) by (apply Hlr; [done|left]). lia. }
  destruct (dll_mid _ _ _ _ _ _ _ Hd) as (Hp & _ & _ & Hlp).
  unfold mmap_unmap. rewrite decide_False by lia.
  apply stop_bind. eapply wp_assert_locked; [done|].
  rewrite u64_small by (unfold in_u64, two64, mmap_limit, USTACK in *; lia).
  unfold valid_addr. rewrite bool_decide_true by done. simpl.
  apply stop_bind. unfold unmap_fuel. wp_step. apply stop_bind_stop.
  rewrite Nat.add_succ_r. cbn [mmap_unmap_loop]. rewrite decide_False by lia.
  apply stop_bind. eapply wp_find_exact_some; [done|done|].
  rewrite (decide_False (P := lo = v_start b ∧ _)) by lia. rewrite decide_False by auto.
  apply stop_bind. eapply wp_mmap_find; [done|]. rewrite Hfs, decide_True by done.
  apply stop_bind. eapply wp_vm; [done|exact Hlp|]. intros v Hv (_ & _ & Hbv)%erase_shape.
  assert (v_start (v_body v) = v_start b ∧ v_end (v_body v) = v_end b) as [H1 H2] by (by rewrite <- Hbv).
  rewrite H1, H2. rewrite decide_False by lia. rewrite decide_False by lia.
  apply stop_bind_stop. unfold vmr_split. rewrite decide_False by done.
  apply stop_bind. eapply wp_vm; [done|exact Hlp|]. intros v2 Hv2 _. rewrite Hv2 in Hv. injection Hv as ->.
  unfold vmr_can_split. rewrite H1, H2, bool_decide_true by lia. done.
Qed.

(** ** Searching for a hole *)

(** The first gap of at least [size] bytes behind one of the regions, and the
    last one in front of one of them (on the reversed list). *)
Fixpoint first_gap (size : Z) (ys : rlist) : option Z :=
  match ys with
  | [] => None
  | (_, b) :: ys' =>
      match ys' with
      | [] => if decide (mmap_limit - v_end b >= size) then Some (v_end b + 1) else None
      | (_, c) :: _ =>
          if decide (v_start c - (v_end b + 1) >= size) then Some (v_end b + 1) else first_gap size ys'
      end
  end.

Fixpoint last_gap (size : Z) (zs : rlist) : option Z :=
  match zs with
  | [] => None
  | (_, b) :: zs' =>
      match zs' with
      | [] => if decide (1 < v_start b ∧ v_start b >= size) then Some (v_start b - size) else None
      | (_, c) :: _ =>
          if decide (v_start b - (v_end c + 1) >= size) then Some (v_start b - size) else last_gap size zs'
      end
  end.

Lemma first_gap_sound l ys size a : space_ok (l ++ ys) -> 0 < size ->
  first_gap size ys = Some a -> free_at (l ++ ys) a size.
Proof.
  revert l. induction ys as [|[p b] ys IH]; intros l Hok Hs Hg; [done|].
  pose proof Hok as (Hokl & (Hb & Hokr & Hlt)%space_cons & Hlr)%space_app. unfold region_ok in Hb.
  assert (∀ c, c ∈ l.*2 -> v_end c < v_start b) as Hl by (intros c Hc; apply Hlr; [done|left]).
  simpl in Hg. destruct ys as [|[q c] ys].
  - case_decide; [|done]. injection Hg as <-. repeat split; try lia. intros c.
    rewrite fmap_app, elem_of_app. intros [Hc|Hc]; [specialize (Hl c Hc); lia|].
    apply list_elem_of_singleton in Hc as ->. simpl. lia.
  - case_decide as Hgap.
    + injection Hg as <-. pose proof Hokr as (Hc & _ & Hlt2)%space_cons. unfold region_ok in Hc.
      repeat split; try lia. intros d. rewrite fmap_app, elem_of_app.
      intros [Hd|[->|[->|Hd]%elem_of_cons]%elem_of_cons]; simpl; [specialize (Hl d Hd); lia|lia|lia|].
      specialize (Hlt2 d Hd). lia.
    + specialize (IH (l ++ [(p, b)])). rewrite <- app_assoc in IH. by apply IH.
Qed.

Lemma first_gap_complete ys size a : space_ok ys -> 0 < size -> first_gap size ys = None ->
  free_at ys a size -> a + size <= hd mmap_limit (v_start <$> ys.*2) ∨ ys = [].
Proof.
  induction ys as [|[p b] ys IH]; intros Hok Hs Hg (Ha & _ & Hl & Hd); [by right|left].
  pose proof Hok as (Hb & Hokr & Hlt)%space_cons. unfold region_ok in Hb. simpl.
  destruct (Hd b) as [He|]; [left| |lia]. exfalso.
  simpl in Hg. destruct ys as [|[q c] ys].
  - case_decide; [done|lia].
  - case_decide as Hgap; [done|]. destruct IH as [IH|]; [done|done|done| |simpl in *; lia|done].
    repeat split; try done. intros d Hin. apply Hd. by right.
Qed.

Lemma last_gap_sound zs r size a : space_ok (reverse zs ++ r) -> 0 < size ->
  last_gap size zs = Some a -> free_at (reverse zs ++ r) a size.
Proof.
  revert r. induction zs as [|[p b] zs IH]; intros r Hok Hs Hg; [done|].
  rewrite reverse_cons, <- app_assoc in Hok |- *. simpl in Hok |- *.
  pose proof Hok as (Hokl & (Hb & Hokr & Hlt)%space_cons & Hlr)%space_app. unfold region_ok in Hb.
  simpl in Hg. destruct zs as [|[q c] zs].
  - case_decide; [|done]. injection Hg as <-. simpl. repeat split; try lia. intros c.
    intros [->|Hc]%elem_of_cons; simpl; [lia|]. specialize (Hlt c Hc). lia.
  - case_decide as Hgap.
    + injection Hg as <-. rewrite reverse_cons in Hokl, Hlr |- *.
      pose proof Hokl as (_ & (Hc & _ & _)%space_cons & Hlc)%space_app. unfold region_ok in Hc.
      repeat split; try lia. intros d. rewrite !fmap_app, !elem_of_app. simpl.
      intros [[Hd|Hd]|[->|Hd]%elem_of_cons]; [|apply list_elem_of_singleton in Hd as ->; lia|lia|].
      * assert (v_end d < v_start c) by (apply Hlc; [done|left]). lia.
      * specialize (Hlt d Hd). lia.
    + by apply IH.
Qed.

Lemma last_gap_complete zs size a : space_ok (reverse zs) -> 1 < size -> last_gap size zs = None ->
  free_at (reverse zs) a size -> zs = [] ∨ hd 0 (v_end <$> zs.*2) < a.
Proof.
  induction zs as [|[p b] zs IH]; intros Hok Hs Hg (Ha & _ & Hl & Hd); [by left|right].
  rewrite reverse_cons in Hok, Hd. simpl.
  pose proof Hok as (Hokl & (Hb & _)%space_cons & Hlr)%space_app. unfold region_ok in Hb.
  destruct (Hd b) as [He|He]; [rewrite fmap_app; apply elem_of_app; right; left|done|]. exfalso.
  simpl in Hg. destruct zs as [|[q c] zs].
  - case_decide; [done|lia].
  - case_decide as Hgap; [done|]. destruct IH as [|IH]; [done|done|done| |done|simpl in IH; lia].
    repeat split; try done; try lia. intros d Hin. apply Hd. rewrite fmap_app, elem_of_app. by left.
Qed.

Lemma vmr_upper_ok v b : bset_refs 0 (v_body v) = b -> region_ok b -> vmr_upper_bound (v_body v) = v_end b + 1.
Proof.
  intros Hb Hok. unfold vmr_upper_bound. assert (v_end (v_body v) = v_end b) as -> by (by rewrite <- Hb).
  apply u64_small. unfold region_ok, in_u64, two64, mmap_limit, USTACK in *. lia.
Qed.

Lemma v_start_of v b : bset_refs 0 (v_body v) = b -> v_start (v_body v) = v_start b.
Proof. by intros <-. Qed.

Lemma hole_len_last l p b : space_ok (l ++ [(p, b)]) -> hole_len (l ++ [(p, b)]) (v_end b + 1) = mmap_limit - v_end b.
Proof.
  intros Hok. rewrite hole_len_at; [simpl; rewrite decide_True by lia; lia|done|].
  pose proof Hok as (_ & (Hb & _)%space_cons & Hlr)%space_app. unfold region_ok in Hb.
  intros c Hc. assert (v_end c < v_start b) by (apply Hlr; [done|left]). lia.
Qed.

Lemma holesize_snd xs a : (holesize_of xs a).2 = Z.max 0 (hole_len xs a).
Proof. unfold holesize_of. case_decide; simpl; lia. Qed.

Lemma wp_hole_up fuel s m x l ys size (Q : option Z -> mm H -> Prop) :
  mrep s m x (l ++ ys) -> space_ok (l ++ ys) -> m_limit x = mmap_limit -> 0 < size ->
  (length ys < fuel)%nat -> Q (first_gap size ys) s -> wp (hole_up fuel m size (hd_or NULL ys)) s Q.
Proof.
  revert l ys. induction fuel as [|fuel IH]; intros l ys Hr Hok Hlim Hs Hf HQ; [lia|].
  destruct ys as [|[p b] ys]; [done|]. cbn [hole_up hd_or fst]. pose proof Hr as (_ & _ & _ & Hd).
  destruct (dll_mid _ _ _ _ _ _ _ Hd) as (Hp & _ & _ & Hlp). rewrite decide_False by done.
  pose proof Hok as (Hokl & (Hb & Hokr & Hlt)%space_cons & Hlr)%space_app.
  wp_step. eapply wp_vm; [done|exact Hlp|]. intros v _ (_ & Hnx & Hbv)%erase_shape.
  rewrite (vmr_upper_ok v b Hbv Hb), Hnx. unfold region_ok in Hb. simpl in HQ. destruct ys as [|[q c] ys].
  - simpl. wp_step. eapply wp_mmap_holesize; [done|done|done|lia|]. wp_step.
    rewrite holesize_snd, hole_len_last by done.
    repeat case_decide; try done; exfalso; lia.
  - assert (mrep s m x ((l ++ [(p, b)]) ++ (q, c) :: ys)) as Hr2 by (by rewrite <- app_assoc).
    pose proof Hr2 as (_ & _ & _ & Hd2). destruct (dll_mid _ _ _ _ _ _ _ Hd2) as (Hq & _ & _ & Hlq).
    cbn [hd_or fst]. rewrite decide_True by done. wp_step. eapply wp_vm; [done|exact Hlq|].
    intros w _ (_ & _ & Hcw)%erase_shape. rewrite (v_start_of w c Hcw).
    apply space_cons in Hokr as (Hc & _ & _). unfold region_ok in Hc.
    assert (v_end b < v_start c) by (apply Hlt; left).
    rewrite u64_small by (unfold in_u64, two64, mmap_limit, USTACK in *; lia).
    case_decide; [by wp_step|]. apply (IH (l ++ [(p, b)]) ((q, c) :: ys)); try done; [by rewrite <- app_assoc|].
    simpl in *. lia.
Qed.

Lemma wp_hole_down fuel s m x zs r size (Q : option Z -> mm H -> Prop) :
  mrep s m x (reverse zs ++ r) -> space_ok (reverse zs ++ r) -> 0 < size ->
  (length zs < fuel)%nat -> Q (last_gap size zs) s ->
  wp (hole_down fuel size (last_or NULL (reverse zs))) s Q.
Proof.
  revert zs r. induction fuel as [|fuel IH]; intros zs r Hr Hok Hs Hf HQ; [lia|].
  destruct zs as [|[p b] zs]; [done|]. cbn [hole_down].
  rewrite reverse_cons, <- app_assoc in Hr, Hok. rewrite reverse_cons, last_or_snoc. simpl in Hr, Hok.
  pose proof Hr as (_ & _ & _ & Hd). destruct (dll_mid _ _ _ _ _ _ _ Hd) as (Hp & _ & _ & Hlp).
  cbn [fst]. rewrite decide_False by done.
  pose proof Hok as (Hokl & (Hb & Hokr & Hlt)%space_cons & Hlr)%space_app. unfold region_ok in Hb.
  wp_step. eapply wp_vm; [done|exact Hlp|]. intros v _ (Hpv & _ & Hbv)%erase_shape.
  rewrite (v_start_of v b Hbv), Hpv. simpl in HQ. simpl in Hf. destruct zs as [|[q c] zs].
  - simpl. unfold vmr_lower_bound. rewrite (v_start_of v b Hbv).
    assert (u64 (v_start b - 1) > NULL ∧ v_start b >= size <-> 1 < v_start b ∧ v_start b >= size) as Hiff.
    { destruct (decide (v_start b = 0)) as [->|]; [lia|]. rewrite u64_small; unfold NULL; [lia|].
      unfold in_u64, two64, mmap_limit, USTACK in *. lia. }
    destruct (decide (u64 _ > NULL ∧ _)) as [Hc|Hc].
    + wp_step. rewrite decide_True in HQ by tauto. rewrite u64_small; [done|].
      unfold in_u64, two64, mmap_limit, USTACK in *. lia.
    + rewrite decide_False in HQ by tauto. destruct fuel; [lia|]. done.
  - rewrite reverse_cons, <- app_assoc in Hr, Hd. simpl in Hr, Hd.
    destruct (dll_mid _ _ _ _ _ _ _ Hd) as (Hq & _ & _ & Hlq).
    rewrite reverse_cons, last_or_snoc. cbn [fst]. rewrite decide_True by done.
    wp_step. eapply wp_vm; [done|exact Hlq|]. intros w _ (_ & _ & Hcw)%erase_shape.
    rewrite reverse_cons in Hokl, Hlr. pose proof Hokl as (_ & (Hc & _ & _)%space_cons & _)%space_app.
    assert (v_end c < v_start b) by (apply Hlr; [rewrite fmap_app; apply elem_of_app; right; left|left]).
    rewrite (vmr_upper_ok w c Hcw Hc). unfold region_ok in Hc.
    rewrite (u64_small (_ - (_ + 1))) by (unfold in_u64, two64, mmap_limit, USTACK in *; lia).
    case_decide.
    + wp_step. rewrite u64_small; [done|]. unfold in_u64, two64, mmap_limit, USTACK in *. lia.
    + specialize (IH ((q, c) :: zs) ((p, b) :: r)). rewrite reverse_cons, last_or_snoc in IH.
      rewrite reverse_cons in Hok.
      apply IH; [by rewrite <- app_assoc|done|done|simpl in *; lia|done].
Qed.


(** [mmap_find_hole] as a function of the region list. *)
Definition find_hole_of (xs : rlist) (size whence : Z) : option Z :=
  if decide (whence = whence_start) then
    if decide (hole_len xs 0 >= size) then Some 0 else first_gap size xs
  else if decide (whence = whence_end) then
    if decide (size <= mmap_limit + 1 ∧ hole_len xs (mmap_limit + 1 - size) >= size)
    then Some (mmap_limit + 1 - size) else last_gap size (reverse xs)
  else None.

Lemma find_hole_sound xs size whence a : space_ok xs -> 0 < size ->
  find_hole_of xs size whence = Some a -> free_at xs a size.
Proof.
  intros Hok Hs. unfold find_hole_of. case_decide; [|case_decide; [|done]]; case_decide as Hc.
  - intros [= <-]. apply hole_len_free; [done|lia|lia|lia].
  - intros Hg. by apply (first_gap_sound [] xs).
  - intros [= <-]. apply hole_len_free; [done|lia|lia|lia].
  - intros Hg. pose proof (last_gap_sound (reverse xs) [] size a) as Hl.
    rewrite reverse_involutive, app_nil_r in Hl. by apply Hl.
Qed.

Lemma last_end xs b : space_ok xs -> b ∈ xs.*2 ->
  v_end b <= hd 0 (v_end <$> (reverse xs).*2).
Proof.
  intros Hok Hb. destruct xs as [|[p c] xs _] using rev_ind; [by apply elem_of_nil in Hb|].
  rewrite reverse_snoc. simpl. apply space_app in Hok as (_ & (Hc & _)%space_cons & Hlr).
  rewrite fmap_app in Hb. apply elem_of_app in Hb as [Hb|Hb].
  - assert (v_end b < v_start c) by (apply Hlr; [done|left]). unfold region_ok in Hc. lia.
  - apply list_elem_of_singleton in Hb as ->. simpl. lia.
Qed.

Lemma find_hole_complete xs size whence : space_ok xs -> 0 < size ->
  whence = whence_start ∨ whence = whence_end ∧ 1 < size ->
  find_hole_of xs size whence = None -> ∀ a, ~ free_at xs a size.
Proof.
  intros Hok Hs Hw Hn a Hf. pose proof Hf as (Ha & _ & Hlim & Hd). unfold find_hole_of in Hn.
  destruct Hw as [->|[-> Hs1]]; simpl in Hn; case_decide as Hc; [done| |done|].
  - destruct (first_gap_complete xs size a Hok Hs Hn Hf) as [Hle| ->].
    2:{ simpl in *. lia. }
    destruct xs as [|[p b] xs]; [simpl in *; lia|]. apply space_cons in Hok as (Hb & _ & _).
    unfold region_ok in Hb. cbn in Hle, Hc. rewrite decide_False in Hc by lia. case_decide; lia.
  - apply Hc. split; [lia|]. apply Z.le_ge, hole_len_free; [done|lia|done|].
    repeat split; try lia. intros b Hb. left.
    pose proof (last_gap_complete (reverse xs) size a) as Hlc. rewrite reverse_involutive in Hlc.
    pose proof (last_end xs b Hok Hb) as Hle.
    destruct (Hlc Hok Hs1 Hn Hf) as [Hnil|Hlast]; [|lia].
    apply (f_equal reverse) in Hnil. rewrite reverse_involutive in Hnil. subst xs. by apply elem_of_nil in Hb.
Qed.

Lemma wp_mmap_find_hole s m x xs size whence (Q : Z * Z -> mm H -> Prop) :
  mrep s m x xs -> space_ok xs -> m_limit x = mmap_limit -> 0 < size < two64 ->
  Q (found (find_hole_of xs size whence)) s -> wp (mmap_find_hole m size true whence) s Q.
Proof.
  intros Hr Hok Hlim Hs HQ. pose proof Hr as (Hm & Hx & _ & (Hhd & Htl & _)).
  pose proof (mrep_fuel _ _ _ _ Hr) as Hf. unfold mmap_find_hole, find_hole_of in *.
  rewrite decide_False by (intros [|[|]]; [done|done|lia]).
  wp_step. eapply wp_assert_locked; [done|]. wp_step. unfold vm_fuel. wp_step.
  wp_step. eapply wp_map; [done|exact Hx|]. rewrite Hlim.
  assert (∀ R : option Z -> mm H -> Prop, R (last_gap size (reverse xs)) s ->
    wp (hole_down (S (base.size (mm_vmrs s))) size (m_tail x)) s R) as down.
  { intros R HR. pose proof (wp_hole_down (S (base.size (mm_vmrs s))) s m x (reverse xs) [] size R) as Hdn.
    rewrite reverse_involutive, app_nil_r, length_reverse, <- Htl in Hdn. apply Hdn; try done; lia. }
  destruct (decide (whence = whence_start)); [|destruct (decide (whence = whence_end))].
  - wp_step. eapply wp_mmap_holesize; [done|done|done|lia|]. rewrite holesize_snd.
    destruct (decide (hole_len xs 0 >= size)).
    + rewrite decide_True by lia. by wp_step.
    + rewrite decide_False by lia. apply wp_fmap. rewrite Hhd.
      apply (wp_hole_up _ s m x [] xs); try done; lia.
  - wp_step. pose proof (u64_range (mmap_limit + 1 - size)) as Hrg. unfold in_u64 in Hrg.
    eapply wp_mmap_holesize; [done|done|done|lia|]. rewrite holesize_snd.
    pose proof (hole_len_bound xs (u64 (mmap_limit + 1 - size)) Hok) as Hbd.
    destruct (decide (size <= mmap_limit + 1)) as [Hle|Hgt].
    + rewrite u64_small in * by (unfold in_u64, two64, mmap_limit, USTACK in *; lia).
      destruct (decide (hole_len xs (mmap_limit + 1 - size) >= size)).
      * rewrite decide_True by lia. rewrite decide_True in HQ by done. by wp_step.
      * rewrite decide_False by lia. rewrite decide_False in HQ by tauto. apply wp_fmap.
        by apply down.
    + rewrite decide_False in HQ by lia.
      assert (u64 (mmap_limit + 1 - size) = mmap_limit + 1 - size + two64) as Hu.
      { unfold u64. rewrite <- (Z_mod_plus_full _ 1). apply Z.mod_small. unfold two64, mmap_limit, USTACK in *. lia. }
      rewrite decide_False by lia. apply wp_fmap. by apply down.
  - by wp_step.
Qed.


(** The first match of a walk is the head of a suffix; the last one found by
    the backward walk is the end of a prefix. *)
Lemma first_sat_suffix c xs : ∃ l r, xs = l ++ r ∧ first_sat c xs = hd_or NULL r.
Proof.
  induction xs as [|[p b] xs IH]; [by exists [], []|]. simpl. destruct (c p b).
  - by exists [], ((p, b) :: xs).
  - destruct IH as (l & r & -> & ->). by exists ((p, b) :: l), r.
Qed.

Lemma first_sat_prefix c xs : ∃ l r, xs = l ++ r ∧ first_sat c (reverse xs) = last_or NULL l.
Proof.
  induction xs as [|[p b] xs IH] using rev_ind; [by exists [], []|].
  rewrite reverse_snoc. simpl. destruct (c p b).
  - exists (xs ++ [(p, b)]), []. by rewrite app_nil_r, last_or_snoc.
  - destruct IH as (l & r & -> & ->). exists l, (r ++ [(p, b)]). by rewrite app_assoc.
Qed.

Lemma first_sat_mem c xs : first_sat c xs ≠ NULL -> ∃ l b r, xs = l ++ (first_sat c xs, b) :: r.
Proof.
  induction xs as [|[p b] xs IH]; [done|]. simpl. destruct (c p b); intros Hn.
  - by exists [], b, xs.
  - destruct (IH Hn) as (l & d & r & Heq). exists ((p, b) :: l), d, r. simpl. by f_equal.
Qed.

Lemma wp_find_next s m x xs a (Q : ptr * ptr -> mm H -> Prop) :
  mrep s m x xs -> (∀ q l r, xs = l ++ r -> Q (q, hd_or NULL r) s) ->
  wp (mmap_find_vmr_next m a true) s Q.
Proof.
  intros Hr HQ. pose proof Hr as (Hm & Hx & _ & Hd). unfold mmap_find_vmr_next.
  rewrite decide_False by naive_solver. wp_step. eapply wp_assert_locked; [done|].
  wp_step. eapply wp_mmap_find; [done|]. case_decide as Hf.
  - destruct (first_sat_mem _ _ Hf) as (l & b & r & Hxs). rewrite Hxs in Hd.
    destruct (dll_mid _ _ _ _ _ _ _ Hd) as (_ & _ & _ & Hl).
    wp_step. eapply wp_vm; [done|exact Hl|]. intros v _ (_ & -> & _)%erase_shape. wp_step.
    rewrite cons_middle, app_assoc in Hxs. by eapply HQ.
  - wp_step. eapply wp_map; [done|exact Hx|]. wp_step. unfold vm_fuel. wp_step. wp_step.
    pose proof Hd as (Hh & _). rewrite Hh.
    eapply (wp_vm_walk _ _ _ _ [] xs); [exact Hd|done|by eapply mrep_fuel|]. wp_step.
    destruct (first_sat_suffix (above a) xs) as (l & r & -> & Heq). unfold above in Heq. rewrite Heq.
    by eapply HQ.
Qed.

Lemma wp_find_prev s m x xs a (Q : ptr * ptr -> mm H -> Prop) :
  mrep s m x xs -> (∀ q l r, xs = l ++ r -> Q (q, last_or NULL l) s) ->
  wp (mmap_find_vmr_prev m a true) s Q.
Proof.
  intros Hr HQ. pose proof Hr as (Hm & Hx & _ & Hd). unfold mmap_find_vmr_prev.
  rewrite decide_False by naive_solver. wp_step. eapply wp_assert_locked; [done|].
  wp_step. eapply wp_mmap_find; [done|]. case_decide as Hf.
  - destruct (first_sat_mem _ _ Hf) as (l & b & r & Hxs). rewrite Hxs in Hd.
    destruct (dll_mid _ _ _ _ _ _ _ Hd) as (_ & _ & _ & Hl).
    wp_step. eapply wp_vm; [done|exact Hl|]. intros v _ (-> & _ & _)%erase_shape. wp_step.
    by eapply HQ.
  - wp_step. eapply wp_map; [done|exact Hx|]. wp_step. unfold vm_fuel. wp_step. wp_step.
    pose proof Hd as (_ & Ht & _). rewrite Ht. rewrite <- (app_nil_r xs) in Hd.
    eapply (wp_vm_walk_back _ _ _ _ xs []); [exact Hd|done|by eapply mrep_fuel|]. wp_step.
    destruct (first_sat_prefix (λ _ b, bool_decide (v_end b < a)) xs) as (l & r & -> & Heq). rewrite Heq.
    by eapply HQ.
Qed.

Definition sound_gap (xs : rlist) (size : Z) (o : option Z) : Prop :=
  ∀ a, o = Some a -> free_at xs a size.

(** The gap between two neighbours. *)
Lemma between_free l p b q c r size : space_ok (l ++ (p, b) :: (q, c) :: r) -> 0 < size ->
  v_start c - (v_end b + 1) >= size ->
  free_at (l ++ (p, b) :: (q, c) :: r) (v_end b + 1) size ∧
  free_at (l ++ (p, b) :: (q, c) :: r) (v_start c - size) size.
Proof.
  intros (_ & (Hb & (Hc & _ & Hlt2)%space_cons & Hlt)%space_cons & Hlr)%space_app Hs Hg.
  unfold region_ok in *.
  assert (∀ d, d ∈ (l ++ (p, b) :: (q, c) :: r).*2 -> v_end d <= v_end b ∨ v_start c <= v_start d) as Hd.
  { intros d. rewrite fmap_app, elem_of_app. simpl.
    intros [Hd|[->|[->|Hd]%elem_of_cons]%elem_of_cons]; [left|by left|by right|right].
    - assert (v_end d < v_start b) by (apply Hlr; [done|left]). lia.
    - specialize (Hlt2 d Hd). lia. }
  split; repeat split; try lia; intros d Hin; destruct (Hd d Hin); lia.
Qed.

Lemma wp_holeat_start s m x l r addr size (Q : option Z -> mm H -> Prop) :
  mrep s m x (l ++ r) -> space_ok (l ++ r) -> m_limit x = mmap_limit -> 0 < size -> 0 <= addr ->
  (∀ o, sound_gap (l ++ r) size o -> Q o s) ->
  wp (holeat_start m addr size (hd_or NULL r)) s Q.
Proof.
  intros Hr Hok Hlim Hs Ha HQ. pose proof Hr as (Hm & Hx & _ & Hd).
  pose proof Hd as (Hhd & _ & _ & Hnn & _). unfold holeat_start.
  wp_step. unfold vm_fuel. wp_step. wp_step. eapply wp_mmap_holesize; [done|done|done|done|].
  rewrite holesize_snd. case_decide as Hh.
  { wp_step. apply HQ. intros a [= <-]. apply hole_len_free; [done|done|done|lia]. }
  wp_step. eapply wp_map; [done|exact Hx|].
  (* the region to start from: the head of [r], or of the whole list *)
  assert (∃ l' r', l ++ r = l' ++ r' ∧ (if decide (hd_or NULL r ≠ NULL) then hd_or NULL r else m_head x) = hd_or NULL r')
    as (l' & r' & Hxs & ->) by (case_decide; [by exists l, r|by exists [], (l ++ r)]).
  rewrite Hxs in *. clear Hhd. wp_step.
  assert (∀ R : option Z -> mm H -> Prop,
    (∀ o, sound_gap (l' ++ r') size o -> R o s) ->
    wp (hole_up (S (base.size (mm_vmrs s))) m size (hd_or NULL r')) s R) as Hup.
  { intros R HR. apply (wp_hole_up _ s m x l' r'); try done.
    - pose proof (mrep_fuel _ _ _ _ Hr) as Hf. rewrite length_app in Hf. lia.
    - apply HR. intros a. by apply first_gap_sound. }
  destruct r' as [|[q c] r'].
  { simpl. wp_step. by apply Hup. }
  destruct (dll_mid _ _ _ _ _ _ _ Hd) as (Hq & _ & _ & Hlq). simpl hd_or in *. rewrite decide_False by done.
  wp_step. eapply wp_vm; [done|exact Hlq|]. intros v _ (Hpv & _ & Hbv)%erase_shape. rewrite Hpv.
  destruct l' as [|[p b] l' _] using rev_ind.
  { simpl. wp_step. by apply Hup. }
  rewrite last_or_snoc. rewrite <- app_assoc in Hd, Hok, Hr, HQ, Hup. simpl in Hd, Hok, Hr, HQ, Hup.
  destruct (dll_mid _ _ _ _ _ _ _ Hd) as (Hp & _ & _ & Hlp). simpl fst. rewrite decide_False by done.
  wp_step. eapply wp_vm; [done|exact Hlp|]. intros w _ (_ & _ & Hbw)%erase_shape. wp_step.
  pose proof Hok as (_ & (Hb & (Hc & _ & _)%space_cons & Hlt)%space_cons & _)%space_app.
  rewrite (vmr_upper_ok w b Hbw Hb), (v_start_of v c Hbv). unfold region_ok in *.
  assert (v_end b < v_start c) by (apply Hlt; left).
  rewrite u64_small by (unfold in_u64, two64, mmap_limit, USTACK in *; lia).
  destruct (decide (v_start c - (v_end b + 1) >= size)); [|by apply Hup]. wp_step. apply HQ. intros a [= <-]. by apply between_free.
Qed.

Lemma wp_holeat_end s m x l r size (Q : option Z -> mm H -> Prop) :
  mrep s m x (l ++ r) -> space_ok (l ++ r) -> m_limit x = mmap_limit -> 0 < size < two64 ->
  (∀ o, sound_gap (l ++ r) size o -> Q o s) ->
  wp (holeat_end m size (last_or NULL l)) s Q.
Proof.
  intros Hr Hok Hlim Hs HQ. pose proof Hr as (Hm & Hx & _ & Hd).
  pose proof Hd as (_ & Htl & _ & Hnn & _). unfold holeat_end.
  wp_step. unfold vm_fuel. wp_step. wp_step. eapply wp_map; [done|exact Hx|].
  assert (∃ l' r', l ++ r = l' ++ r' ∧ (if decide (last_or NULL l ≠ NULL) then last_or NULL l else m_tail x) = last_or NULL l')
    as (l' & r' & Hxs & ->) by (case_decide; [by exists l, r|exists (l ++ r), []; by rewrite app_nil_r]).
  rewrite Hxs in *. clear Htl. wp_step.
  assert (∀ R : option Z -> mm H -> Prop,
    (∀ o, sound_gap (l' ++ r') size o -> R o s) ->
    wp (hole_down (S (base.size (mm_vmrs s))) size (last_or NULL l')) s R) as Hdown.
  { intros R HR. pose proof (wp_hole_down (S (base.size (mm_vmrs s))) s m x (reverse l') r' size R) as Hdn.
    rewrite reverse_involutive, length_reverse in Hdn. apply Hdn; [done|done|lia| |].
    - pose proof (mrep_fuel _ _ _ _ Hr) as Hf. rewrite length_app in Hf. lia.
    - apply HR. intros a Ha. pose proof (last_gap_sound (reverse l') r' size a) as Hg.
      rewrite reverse_involutive in Hg. apply Hg; [done|lia|done]. }
  destruct l' as [|[p b] l' _] using rev_ind.
  - simpl. wp_step. rewrite Hlim.
    pose proof (u64_range (mmap_limit + 1 - size)) as [Hrg _]. eapply wp_mmap_holesize; [done|done|done|done|].
    rewrite holesize_snd. wp_step. case_decide; [|by apply Hdown]. wp_step. apply HQ.
    intros a [= <-]. apply hole_len_free; [done|done|lia|lia].
  - rewrite last_or_snoc in *. rewrite <- app_assoc in Hd, Hok, Hr, HQ, Hdown. simpl in Hd, Hok, Hr, HQ, Hdown.
    destruct (dll_mid _ _ _ _ _ _ _ Hd) as (Hp & _ & _ & Hlp). simpl fst. rewrite decide_False by done.
    wp_step. eapply wp_vm; [done|exact Hlp|]. intros v _ (_ & Hnx & Hbv)%erase_shape. rewrite Hnx.
    pose proof Hok as (_ & (Hb & Hokr & Hlt)%space_cons & _)%space_app.
    rewrite (vmr_upper_ok v b Hbv Hb). unfold region_ok in Hb. destruct r' as [|[q c] r'].
    + simpl hd_or. rewrite decide_False by auto. wp_step. eapply wp_mmap_holesize; [done|done|done|lia|].
      rewrite holesize_snd, hole_len_last by done. wp_step.
      assert (∀ a, v_end b + 1 <= a -> a + size - 1 <= mmap_limit -> free_at (l' ++ [(p, b)]) a size) as Hfr.
      { intros a H1 H2. repeat split; try lia. intros d Hd'. left.
        pose proof (last_end _ d Hok Hd') as Hle. rewrite reverse_snoc in Hle. simpl in Hle. lia. }
      destruct (decide (0 `max` (mmap_limit - v_end b) > size));
        [|destruct (decide (0 `max` (mmap_limit - v_end b) = size)); [|by apply Hdown]];
        wp_step; apply HQ; intros a [= <-].
      * rewrite u64_small by (unfold in_u64, two64, mmap_limit, USTACK in *; lia). apply Hfr; lia.
      * apply Hfr; lia.
    + assert (mrep s m x ((l' ++ [(p, b)]) ++ (q, c) :: r')) as Hr2 by (by rewrite <- app_assoc).
      pose proof Hr2 as (_ & _ & _ & Hd2). destruct (dll_mid _ _ _ _ _ _ _ Hd2) as (Hq & _ & _ & Hlq).
      simpl hd_or. rewrite decide_True by done. wp_step. eapply wp_vm; [done|exact Hlq|].
      intros w _ (_ & _ & Hcw)%erase_shape. rewrite (v_start_of w c Hcw). wp_step.
      apply space_cons in Hokr as (Hc & _ & _). unfold region_ok in Hc.
      assert (v_end b < v_start c) by (apply Hlt; left).
      rewrite (u64_small (_ - (_ + 1))) by (unfold in_u64, two64, mmap_limit, USTACK in *; lia).
      destruct (decide (v_start c - (v_end b + 1) >= size)); [|by apply Hdown]. wp_step. apply HQ. intros a [= <-].
      rewrite u64_small by (unfold in_u64, two64, mmap_limit, USTACK in *; lia). apply between_free; [done|lia|done].
Qed.

Lemma wp_mmap_find_holeat s m x xs addr size whence (Q : Z * Z -> mm H -> Prop) :
  mrep s m x xs -> space_ok xs -> m_limit x = mmap_limit -> 0 < size < two64 -> 0 <= addr ->
  (∀ a, free_at xs a size -> Q (0, a) s) ->
  (find_hole_of xs size whence = None -> Q (- ENOMEM, 0) s) ->
  wp (mmap_find_holeat m addr size true whence) s Q.
Proof.
  intros Hr Hok Hlim Hs Ha Hyes Hno. pose proof Hr as (Hm & _). unfold mmap_find_holeat.
  rewrite decide_False by (intros [|[|]]; [done|done|lia]).
  wp_step. eapply wp_assert_locked; [done|].
  assert (∀ o, sound_gap xs size o ->
    wp (match o with Some a => mret (0, a) | None => mmap_find_hole m size true whence end) s Q) as Hfin.
  { intros [a|] Ho; [wp_step; by apply Hyes, Ho|].
    eapply wp_mmap_find_hole; [done|done|done|done|].
    destruct (find_hole_of xs size whence) as [a|] eqn:E; simpl; [|by apply Hno].
    apply Hyes. eapply find_hole_sound; [done|lia|done]. }
  destruct (decide (whence = whence_start)) as [->|]; [|destruct (decide (whence = whence_end)) as [->|]].
  - assert (∀ l r, xs = l ++ r -> wp (holeat_start m addr size (hd_or NULL r)) s
      (λ r s', wp (match r with Some a => mret (0, a) | None => mmap_find_hole m size true whence_start end) s' Q)) as Hst.
    { intros l r ->. apply (wp_holeat_start s m x l r); try done; lia. }
    wp_step. case_decide.
    + wp_step. wp_step. by apply (Hst xs []); rewrite app_nil_r.
    + apply wp_fmap. eapply wp_find_next; [done|]. intros q l r Hxs. wp_step. by apply (Hst l r).
  - assert (∀ l r, xs = l ++ r -> wp (holeat_end m size (last_or NULL l)) s
      (λ r s', wp (match r with Some a => mret (0, a) | None => mmap_find_hole m size true whence_end end) s' Q)) as Hst.
    { intros l r ->. apply (wp_holeat_end s m x l r); try done. }
    wp_step. case_decide.
    + wp_step. wp_step. by apply (Hst [] xs).
    + apply wp_fmap. eapply wp_find_prev; [done|]. intros q l r Hxs. wp_step. by apply (Hst l r).
  - wp_step. case_decide; wp_step; wp_step; wp_step; by apply (Hfin None).
Qed.


(** ** Mapping *)

Definition aspace s (m : ptr) (x : mmap_t) xs : Prop :=
  mrep s m x xs ∧ space_ok xs ∧ m_limit x = mmap_limit.

(** [s'] differs from [s] in the map [m], in regions of [ps] and in the
    machine state only. *)
Definition local (m : ptr) (ps : list ptr) s s' : Prop :=
  (∀ q, q ∉ ps -> (erase <$> mm_vmrs s') !! q = (erase <$> mm_vmrs s) !! q) ∧
  (∀ q, q ≠ m -> mm_maps s' !! q = mm_maps s !! q).

Lemma local_refl m ps s : local m ps s s.
Proof. done. Qed.

Lemma local_trans m ps qs s1 s2 s3 : (∀ q, q ∈ qs -> q ∈ ps) ->
  local m ps s1 s2 -> local m qs s2 s3 -> local m ps s1 s3.
Proof.
  intros Hsub [A1 B1] [A2 B2]. split; intros q Hq.
  - rewrite A2; [by apply A1|]. intros Hin. by apply Hq, Hsub.
  - by rewrite B2, B1.
Qed.

Lemma local_only m ps s s' x' : only ps s s' -> mm_maps s' = <[m := x']> (mm_maps s) -> local m ps s s'.
Proof. intros [Ho _] Hm. split; [done|]. intros q Hq. rewrite Hm. by apply lookup_insert_ne. Qed.

Lemma unmapped_aspace s m x xs lo hi s' : aspace s m x xs -> lo <= hi -> unmapped s m x xs lo hi s' ->
  ∃ rf, let x' := map_with rf (m_used_space x) (cut lo hi xs) x in
  aspace s' m x' (cut lo hi xs) ∧ local m (addrs xs) s s' ∧
  mm_arch s' = unmap_arch (swallowed lo hi xs) (mm_arch s).
Proof.
  intros (Hr & Hok & Hlim) Hle (Hr' & Hm & Ho & Ha). eexists. split; [|split; [|exact Ha]].
  - split; [exact Hr'|]. split; [by apply cut_ok|done].
  - by eapply local_only.
Qed.

Lemma wp_forced_mapin s m x xs r w (Q : Z -> mm H -> Prop) :
  aspace s m x xs -> r ≠ NULL -> r ∉ addrs xs -> (erase <$> mm_vmrs s) !! r = Some w ->
  region_ok (v_body w) -> unmappable (v_start (v_body w)) xs ->
  (∀ s' l rr rf us, let xs' := l ++ (r, bset_mmap m (v_body w)) :: rr in
     cut (v_start (v_body w)) (v_end (v_body w)) xs = l ++ rr ->
     aspace s' m (map_with rf us xs' x) xs' -> local m (r :: addrs xs) s s' ->
     mm_arch s' = unmap_arch (swallowed (v_start (v_body w)) (v_end (v_body w)) xs) (mm_arch s) -> Q 0 s') ->
  wp (mmap_forced_mapin m r) s Q.
Proof.
  intros Has Hrn Hrx Hw Hrok Hu HQ. pose proof Has as (Hr & Hok & Hlim). pose proof Hr as (Hm & _).
  destruct w as [wa b wn]. simpl in *. pose proof Hrok as Hrg. unfold region_ok in Hrg.
  unfold mmap_forced_mapin. rewrite decide_False by naive_solver.
  wp_step. eapply wp_assert_locked; [done|]. wp_step. eapply wp_vm; [done|exact Hw|].
  intros v _ (_ & _ & Hbv)%erase_shape. rewrite (v_start_of v b Hbv).
  assert (vmr_size (v_body v) = vsize b) as -> by (rewrite <- (vmr_size_ok b Hrok), <- Hbv; done).
  unfold vsize. wp_step. eapply wp_mmap_unmap; [done|done|done|lia|lia|lia|done|].
  replace (v_start b + (v_end b - v_start b + 1) - 1) with (v_end b) by lia. intros s1 Hs1.
  destruct (unmapped_aspace s m x xs (v_start b) (v_end b) s1 Has ltac:(lia) Hs1) as (rf & (Hr1 & Hok1 & Hlim1) & Hloc & Harch).
  rewrite decide_False by lia.
  assert (r ∉ addrs (cut (v_start b) (v_end b) xs)) as Hrc by (intros Hin; by apply Hrx, (cut_addrs _ _ _ _ Hin)).
  eapply (wp_mmap_mapin s1 m _ _ r (Vmr wa b wn)); [exact Hr1|done|done|done|done| |done| |].
  - destruct Hloc as [Hloc _]. by rewrite Hloc.
  - simpl. intros Hlt. exfalso. pose proof (cut_free (v_start b) (v_end b) xs Hok ltac:(lia) ltac:(lia)) as Hf.
    apply hole_len_free in Hf; [|done|lia|lia]. unfold vsize in Hlt. lia.
  - simpl. intros l rr h' Hxs _ Hok2 Hr2 Ho2. eapply (HQ _ l rr); [exact Hxs| | |done].
    + split; [exact Hr2|]. split; [done|done].
    + eapply (local_trans _ _ (r :: addrs (cut (v_start b) (v_end b) xs))).
      * intros q [->|Hq]%elem_of_cons; [left|right; by eapply cut_addrs].
      * destruct Hloc as [A B]. split; [|done]. intros q Hq. apply A. intros Hin. apply Hq. by right.
      * eapply local_only; [exact Ho2|done].
Qed.

Lemma wp_vmr_alloc s (Q : Z * ptr -> mm H -> Prop) :
  Q (- ENOMEM, NULL) (Mm (mm_vmrs s) (mm_maps s) (mm_arch s) (S (mm_ticks s))) ->
  (∀ r, r ≠ NULL -> r ∉ dom (mm_vmrs s) ->
     Q (0, r) (Mm (<[r := vmr_zero]> (mm_vmrs s)) (mm_maps s) (mm_arch s) (S (mm_ticks s)))) ->
  wp vmr_alloc s Q.
Proof.
  intros Hfail Hok. unfold vmr_alloc. wp_step. apply wp_kmalloc.
  - simpl. by wp_step.
  - intros r Hv Hfresh _. rewrite decide_False by (by apply valid_ptr_nonnull). wp_step.
    apply Hok; [by apply valid_ptr_nonnull|]. simpl in Hfresh. clear -Hfresh. set_solver.
Qed.

Lemma mrep_ticks s m x xs t : mrep s m x xs -> mrep (Mm (mm_vmrs s) (mm_maps s) (mm_arch s) t) m x xs.
Proof. done. Qed.

Lemma mrep_fresh s m x xs r v h' a t : mrep s m x xs -> r ∉ dom (mm_vmrs s) ->
  erase <$> h' = <[r := v]> (erase <$> mm_vmrs s) ->
  r ∉ addrs xs ∧ mrep (Mm h' (mm_maps s) a t) m x xs ∧
  local m [r] s (Mm h' (mm_maps s) a t).
Proof.
  intros (Hm & Hx & Hl & Hd) Hr He.
  assert (r ∉ addrs xs) as Hrx.
  { intros ([q b] & -> & Hin)%list_elem_of_fmap. apply Hr. rewrite <- (dom_fmap_L erase).
    apply elem_of_dom. by eapply dll_in_heap. }
  split; [done|]. split.
  - split; [done|]. split; [done|]. split; [done|]. simpl. rewrite He. eapply dll_frame; [|exact Hd].
    intros q Hq. apply lookup_insert_ne. by intros ->.
  - split; [|done]. simpl. intros q Hq. rewrite He. apply lookup_insert_ne. set_solver.
Qed.


Definition is_fixed (flags : Z) : bool := has flags MAP_FIXED.
Definition is_stack (flags : Z) : bool := has flags MAP_STACK.

(** The argument checks of [mmap_map_region], the map not being [NULL]. *)
Definition request_ok (addr len prot flags : Z) (pvmr : bool) : bool :=
  (is_fixed flags || pvmr) && bool_decide (len ≠ 0) &&
  negb (is_fixed flags && negb (isaligned addr)) && negb (is_fixed flags && negb (valid_addr addr)) &&
  negb (is_stack flags && (negb (isaligned addr) || negb (isaligned len))) &&
  negb (eqb (has flags MAP_PRIVATE) (has flags MAP_SHARED)) &&
  negb (is_stack flags && negb (has prot PROT_READ && has prot PROT_WRITE)).

(** A stack is mapped with its guard below it. *)
Definition map_len (x : mmap_t) (len flags : Z) : Z :=
  if is_stack flags then len + m_guard_len x else len.
Definition map_whence (flags : Z) : Z := if is_stack flags then whence_end else whence_start.

Definition new_region (m : ptr) (x : mmap_t) (addr len prot flags : Z) : vbody :=
  VBody 0 (region_flags prot flags) (region_vflags (region_flags prot flags) (m_flags x))
    NULL NULL 0 0 0 m NULL 0 addr (addr + len - 1).

(** The part of [mmap_map_region] behind the choice of the address. *)
Definition map_at (m : ptr) (x : mmap_t) (addr len prot flags : Z) : M (mm H) (Z * ptr) :=
  n ← vmr_alloc;
  if decide (n.1 ≠ 0) then mret (n.1, NULL) else
  let r := n.2 in
  let vf := region_flags prot flags in
  vm_body r (λ b, bset_vflags (region_vflags vf (m_flags x)) (bset_flags vf
    (bset_end (u64 (addr + len - 1)) (bset_start addr b))));;
  err ← (if is_fixed flags then mmap_forced_mapin m r else mmap_mapin m r);
  if decide (err ≠ 0) then vmr_free r;; mret (err, NULL) else
  mret (0, r).

(** The outcome of a successful mapping at [a]: the list [base] (the old one,
    or what is left of it) with the new region in its place. *)
Definition mapped s (m : ptr) (x : mmap_t) xs base (a len prot flags : Z) (r : ptr) s' : Prop :=
  ∃ l rr rf us, let xs' := l ++ (r, new_region m x a len prot flags) :: rr in
    base = l ++ rr ∧ aspace s' m (map_with rf us xs' x) xs' ∧ local m (r :: addrs xs) s s' ∧
    r ∉ dom (mm_vmrs s).

Lemma wp_map_at s m x xs base a len prot flags (Q : Z * ptr -> mm H -> Prop) :
  aspace s m x xs -> 0 <= a -> 0 < len -> a + len - 1 <= mmap_limit ->
  (if is_fixed flags then unmappable a xs ∧ base = cut a (a + len - 1) xs
   else free_at xs a len ∧ base = xs) ->
  Q (- ENOMEM, NULL) (Mm (mm_vmrs s) (mm_maps s) (mm_arch s) (S (mm_ticks s))) ->
  (∀ r s', mapped s m x xs base a len prot flags r s' -> Q (0, r) s') ->
  wp (map_at m x a len prot flags) s Q.
Proof.
  intros (Hr & Hok & Hlim) Ha Hl He Hbase Hfail HQ. unfold map_at.
  wp_step. apply wp_vmr_alloc; [by rewrite decide_True by done; wp_step|].
  intros r Hrn Hfresh. cbn [fst snd]. rewrite decide_False by lia. wp_step.
  eapply wp_vm_body; [done|simpl; rewrite fmap_insert; apply lookup_insert_eq|by intros []|].
  intros h1 E1. simpl in E1. rewrite fmap_insert, insert_insert_eq in E1.
  rewrite u64_small in E1 by (unfold in_u64, two64, mmap_limit, USTACK in *; lia).
  destruct (mrep_fresh s m x xs r _ h1 (mm_arch s) (S (mm_ticks s)) Hr Hfresh E1) as (Hrx & Hr1 & Hloc).
  set (w := on_body _ _) in E1. simpl.
  assert ((erase <$> h1) !! r = Some w) as Hw by (rewrite E1; apply lookup_insert_eq).
  assert (region_ok (v_body w)) as Hrok by (unfold region_ok; simpl; lia).
  assert (∀ s2, local m (r :: addrs xs) (Mm h1 (mm_maps s) (mm_arch s) (S (mm_ticks s))) s2 ->
    local m (r :: addrs xs) s s2) as Hlt.
  { intros s2 Hs2. eapply local_trans; [|eapply local_trans; [|apply local_refl|exact Hloc]|exact Hs2].
    - done.
    - intros q Hq. apply list_elem_of_singleton in Hq as ->. left. }
  unfold is_fixed in *. wp_step. destruct (has flags MAP_FIXED); destruct Hbase as [Hb ->].
  - eapply wp_forced_mapin; [split; [exact Hr1|done]|done|done|exact Hw|done|exact Hb|].
    intros s' l rr rf us xs' Hcut Has Hl2 _. rewrite decide_False by lia. wp_step.
    apply HQ. exists l, rr, rf, us. split; [exact Hcut|]. split; [exact Has|]. split; [by apply Hlt|done].
  - eapply (wp_mmap_mapin _ m x xs r w); [exact Hr1|done|done|done|done|exact Hw|done| |].
    + intros Hx. exfalso. apply hole_len_free in Hb; [|done|done|done]. unfold vsize in Hx. simpl in Hx. lia.
    + intros l rr h' xs' x' s' Hxs _ Hok' Hr' Ho. rewrite decide_False by lia. wp_step.
      apply HQ. exists l, rr, (m_refs x + 1), (u64 (m_used_space x + vsize (v_body w))).
      split; [exact Hxs|]. split; [split; [exact Hr'|by split]|]. split; [|done]. apply Hlt.
      by eapply local_only.
Qed.

Lemma wp_mmap_map_region s m x xs addr len prot flags pvmr (Q : Z * ptr -> mm H -> Prop) :
  let len' := map_len x len flags in
  aspace s m x xs -> 0 <= addr -> 0 <= len -> 0 <= m_guard_len x -> len + m_guard_len x < two64 ->
  (is_fixed flags = true -> addr + len' - 1 <= mmap_limit ∧ unmappable addr xs) ->
  (request_ok addr len prot flags pvmr = false -> Q (- EINVAL, NULL) s) ->
  (request_ok addr len prot flags pvmr = true -> is_fixed flags = false ->
     find_hole_of xs len' (map_whence flags) = None -> Q (- ENOMEM, NULL) s) ->
  Q (- ENOMEM, NULL) (Mm (mm_vmrs s) (mm_maps s) (mm_arch s) (S (mm_ticks s))) ->
  (∀ r a s', request_ok addr len prot flags pvmr = true -> is_fixed flags = false -> free_at xs a len' ->
     mapped s m x xs xs a len' prot flags r s' -> Q (0, r) s') ->
  (∀ r s', request_ok addr len prot flags pvmr = true -> is_fixed flags = true ->
     mapped s m x xs (cut addr (addr + len' - 1) xs) addr len' prot flags r s' -> Q (0, r) s') ->
  wp (mmap_map_region m addr len prot flags pvmr) s Q.
Proof.
  intros len' Has Haddr Hlen Hg Hw Hfix Hinv Hno Hmem Hany Hfx. pose proof Has as (Hr & Hok & Hlim).
  pose proof Hr as (Hm & Hx & _).
  unfold mmap_map_region. fold (is_fixed flags) (is_stack flags). unfold request_ok in *.
  destruct (decide (m = NULL ∨ _)) as [Hbad|Hgood].
  { wp_step. apply Hinv. destruct Hbad as [|[[-> ->]| ->]]; [done|done|]. simpl. by rewrite andb_false_r. }
  wp_step. eapply wp_assert_locked; [done|].
  assert ((is_fixed flags || pvmr) && bool_decide (len ≠ 0) = true) as Hg1.
  { rewrite bool_decide_true by tauto. destruct (is_fixed flags), pvmr; tauto. }
  rewrite Hg1 in *. clear Hg1. simpl in *.
  destruct (is_fixed flags && negb (isaligned addr)); [by apply wp_ret, Hinv|].
  destruct (is_fixed flags && negb (valid_addr addr)); [by apply wp_ret, Hinv|].
  destruct (is_stack flags && (negb (isaligned addr) || negb (isaligned len))); [by apply wp_ret, Hinv|].
  destruct (eqb (has flags MAP_PRIVATE) (has flags MAP_SHARED)); [by apply wp_ret, Hinv|].
  destruct (is_stack flags && negb (has prot PROT_READ && has prot PROT_WRITE)); [by apply wp_ret, Hinv|].
  simpl in *. wp_step. eapply wp_map; [done|exact Hx|].
  assert ((if is_stack flags then u64 (len + m_guard_len x) else len) = len') as ->.
  { unfold len', map_len. destruct (is_stack flags); [|done]. apply u64_small. unfold in_u64. lia. }
  fold (map_whence flags).
  assert (0 < len' < two64) as Hl'.
  { assert (len ≠ 0) by tauto. unfold len', map_len. destruct (is_stack flags); lia. }
  wp_step. destruct (is_fixed flags) eqn:Efix.
  - wp_step. cbn [fst snd]. rewrite decide_False by lia. destruct (Hfix eq_refl) as [He Hu].
    pose proof (wp_map_at s m x xs (cut addr (addr + len' - 1) xs) addr len' prot flags Q Has Haddr ltac:(lia) He) as Hat.
    unfold map_at in Hat. rewrite Efix in Hat. apply Hat; [done|done|]. intros r s' Hs'. by apply Hfx.
  - eapply wp_mmap_find_holeat; [done|done|done|done|done| |].
    + intros a Hfree. pose proof Hfree as (Ha & _ & He & _). cbn [fst snd]. rewrite decide_False by lia.
      pose proof (wp_map_at s m x xs xs a len' prot flags Q Has Ha ltac:(lia) He) as Hat.
      unfold map_at in Hat. rewrite Efix in Hat. apply Hat; [done|done|]. intros r s' Hs'. by eapply Hany.
    + intros Hn. cbn [fst snd]. rewrite decide_True by done. wp_step. by apply Hno.
Qed.


(** ** Growing and shrinking a region *)

Lemma s64_small z : - 9223372036854775808 <= z < 9223372036854775808 -> s64 z = z.
Proof.
  intros Hz. unfold s64. destruct (decide (0 <= z)).
  - rewrite u64_small by (unfold in_u64, two64; lia). by rewrite decide_True by lia.
  - assert (u64 z = z + two64) as ->.
    { unfold u64. rewrite <- (Z_mod_plus_full _ 1). apply Z.mod_small. unfold two64. lia. }
    unfold two64. rewrite decide_False by lia. lia.
Qed.

(** The range of a region after an expansion by [incr], by its direction. *)
Definition expanded (b : vbody) (incr : Z) : vbody :=
  if has (v_flags b) VM_GROWSDOWN then bset_start (v_start b - incr) b else bset_end (v_end b + incr) b.
(** The addresses an expansion adds. *)
Definition grow_at (b : vbody) (incr : Z) : Z :=
  if has (v_flags b) VM_GROWSDOWN then v_start b - incr else v_end b + 1.

Lemma expanded_commutes b incr : bset_refs 0 (expanded b incr) = expanded (bset_refs 0 b) incr.
Proof. unfold expanded. simpl. by destruct (has _ _). Qed.

Lemma expand_grow_ok l p b r incr : space_ok (l ++ (p, b) :: r) -> 0 < incr ->
  free_at (l ++ (p, b) :: r) (grow_at b incr) incr -> space_ok (l ++ (p, expanded b incr) :: r).
Proof.
  intros Hok Hi (Ha & _ & He & Hd).
  pose proof Hok as (Hokl & (Hb & Hokr & Hlt)%space_cons & Hlr)%space_app. unfold region_ok in Hb.
  apply space_insert; [by eapply space_remove| | |]; unfold expanded, grow_at in *;
    destruct (has (v_flags b) VM_GROWSDOWN); simpl.
  - unfold region_ok. simpl. lia.
  - unfold region_ok. simpl. lia.
  - intros c Hc. assert (v_end c < v_start b) by (apply Hlr; [done|left]).
    destruct (Hd c); [rewrite fmap_app; apply elem_of_app; by left|lia|].
    apply (space_in _ _ Hokl) in Hc. unfold region_ok in Hc. lia.
  - intros c Hc. apply Hlr; [done|left].
  - intros c Hc. auto.
  - intros c Hc. specialize (Hlt c Hc).
    destruct (Hd c); [rewrite fmap_app; apply elem_of_app; right; by right| |lia].
    apply (space_in _ _ Hokr) in Hc. unfold region_ok in Hc. lia.
Qed.

Lemma expand_shrink_ok l p b r incr : space_ok (l ++ (p, b) :: r) -> - vsize b < incr < 0 ->
  space_ok (l ++ (p, expanded b incr) :: r).
Proof.
  intros Hok Hi. unfold vsize in Hi.
  pose proof Hok as (Hokl & (Hb & Hokr & Hlt)%space_cons & Hlr)%space_app. unfold region_ok in Hb.
  apply space_insert; [by eapply space_remove| | |]; unfold expanded;
    destruct (has (v_flags b) VM_GROWSDOWN); simpl.
  - unfold region_ok. simpl. lia.
  - unfold region_ok. simpl. lia.
  - intros c Hc. assert (v_end c < v_start b) by (apply Hlr; [done|left]). lia.
  - intros c Hc. apply Hlr; [done|left].
  - intros c Hc. auto.
  - intros c Hc. specialize (Hlt c Hc). lia.
Qed.

Lemma body_same v b : bset_refs 0 (v_body v) = b ->
  v_start (v_body v) = v_start b ∧ v_end (v_body v) = v_end b ∧ v_flags (v_body v) = v_flags b.
Proof. by intros <-. Qed.

Lemma aspace_set s m x l p b b' r h' : aspace s m x (l ++ (p, b) :: r) ->
  mrep (Mm h' (mm_maps s) (mm_arch s) (mm_ticks s)) m x (l ++ (p, b') :: r) ->
  space_ok (l ++ (p, b') :: r) ->
  aspace (Mm h' (mm_maps s) (mm_arch s) (mm_ticks s)) m x (l ++ (p, b') :: r).
Proof. by intros (_ & _ & ?). Qed.

Lemma wp_mmap_vmr_expand s m x l p b r incr (Q : Z -> mm H -> Prop) :
  let xs := l ++ (p, b) :: r in
  aspace s m x xs -> incr ≠ 0 -> - 4611686018427387904 <= incr < 4611686018427387904 ->
  (has (v_flags b) VM_DONTEXPAND = true -> Q (- EINVAL) s) ->
  (incr < - vsize b -> Q (- EINVAL) s) ->
  (0 < incr -> ~ free_at xs (grow_at b incr) incr ->
     ∀ e, e = - EINVAL ∨ e = - ENOMEM -> Q e s) ->
  (has (v_flags b) VM_DONTEXPAND = false -> incr = - vsize b -> ∀ s' x', aspace s' m x' (l ++ r) ->
     m_guard_len x' = m_guard_len x -> Q 0 s') ->
  (has (v_flags b) VM_DONTEXPAND = false -> - vsize b < incr ->
     (0 < incr -> free_at xs (grow_at b incr) incr) ->
     ∀ s', aspace s' m x (l ++ (p, expanded b incr) :: r) -> Q 0 s') ->
  wp (mmap_vmr_expand m p incr) s Q.
Proof.
  intros xs Has Hnz Hrange Hdont Hunder Hfull Hcollapse Hdone. pose proof Has as (Hr & Hok & Hlim).
  pose proof Hr as (Hm & Hx & _ & Hd). destruct (dll_mid _ _ _ _ _ _ _ Hd) as (Hp & _ & _ & Hlp).
  pose proof Hok as (Hokl & (Hb & Hokr & Hlt)%space_cons & Hlr)%space_app.
  unfold mmap_vmr_expand. rewrite decide_False by (intros [|[|]]; done).
  wp_step. eapply wp_assert_locked; [done|]. wp_step. eapply wp_vm; [done|exact Hlp|].
  intros v _ (_ & _ & Hbv)%erase_shape. destruct (body_same v b Hbv) as (Hs & He & Hfl).
  assert (vmr_size (v_body v) = vsize b) as Hsz by (rewrite <- (vmr_size_ok b Hb), <- Hbv; done).
  rewrite (vmr_upper_ok v b Hbv Hb), Hsz, Hfl, Hs. unfold region_ok in Hb.
  destruct (has (v_flags b) VM_DONTEXPAND) eqn:Ede; [by apply wp_ret, Hdont|].
  assert (0 < vsize b <= mmap_limit + 1) as Hvs by (unfold vsize; lia).
  rewrite !s64_small by (unfold mmap_limit, USTACK in *; lia).
  assert (space_ok (l ++ (p, expanded b incr) :: r) -> ∀ f, (∀ b, bset_refs 0 (f b) = f (bset_refs 0 b)) -> f b = expanded b incr ->
    - vsize b < incr -> (0 < incr -> free_at xs (grow_at b incr) incr) -> wp (vm_body p f;; mret 0) s Q) as Hset.
  { intros Hok2 f Hf Hfb Hgt Hfree. wp_step. eapply wp_set_body; [exact Hr|exact Hf|]. intros h' s' Hr' _. wp_step.
    apply Hdone; [done|done|done|]. rewrite Hfb in Hr'. by eapply aspace_set. }
  assert (space_ok (l ++ r)) as Hokrem by (by eapply space_remove).
  assert (incr = - vsize b -> wp (mmap_remove m p) s Q) as Hrem.
  { intros Hi. eapply wp_mmap_remove; [exact Hr|]. intros h' x' s' Hr' _. eapply (Hcollapse eq_refl Hi s' x').
    - split; [exact Hr'|]. split; [done|done].
    - done. }
  assert (∀ a c, 0 <= a -> (incr <= hole_len xs a -> free_at xs (grow_at b incr) incr ∧ wp c s Q) ->
    (hole_len xs a < incr -> ~ free_at xs (grow_at b incr) incr) -> 0 < incr ->
    wp (h ← mmap_holesize m a true; if decide (h.1 ≠ 0) then mret h.1 else
        if decide (h.2 >= u64 incr) then c else mret (- ENOMEM)) s Q) as Hgrow.
  { intros a c Ha Hyes Hno Hpos. wp_step. eapply wp_mmap_holesize; [exact Hr|done|done|done|].
    rewrite u64_small by (unfold in_u64, two64; lia). unfold holesize_of.
    destruct (decide (0 < hole_len xs a)) as [Hh|Hh]; cbn [fst snd].
    - destruct (decide (0 ≠ 0)) as [|_]; [lia|].
      destruct (decide (hole_len xs a >= incr)); [apply Hyes; lia|]. wp_step. eapply Hfull; [done|apply Hno; lia|by right].
    - destruct (decide (- EINVAL ≠ 0)) as [_|Hz]; [|by exfalso; apply Hz].
      wp_step. eapply Hfull; [done|apply Hno; lia|by left]. }
  destruct (has (v_flags b) VM_GROWSDOWN) eqn:Egd; simpl negb; cbn match.
  - destruct (decide (vsize b + incr > vsize b)) as [Hgt|Hgt].
    + unfold grow_at in *. rewrite Egd in *. destruct (decide (incr <= v_start b)) as [Hle|Hle].
      * rewrite (u64_small (v_start b - incr)) by (unfold in_u64, two64, mmap_limit, USTACK in *; lia).
        apply Hgrow; [lia| | |lia].
        -- intros Hh. assert (free_at xs (v_start b - incr) incr) as Hf by (apply hole_len_free; [done|lia|lia|done]).
           split; [done|]. apply Hset; [|done|unfold expanded; by rewrite Egd|lia|done].
           apply expand_grow_ok; [done|lia|]. unfold grow_at. by rewrite Egd.
        -- intros Hh Hf. apply hole_len_free in Hf; [lia|done|lia|lia].
      * assert (~ free_at xs (v_start b - incr) incr) as Hnf by (intros (? & _); lia).
        apply Hgrow; [apply u64_range| |done|lia]. intros Hh. exfalso.
        pose proof (hole_len_bound xs (u64 (v_start b - incr)) Hok) as Hbd.
        assert (u64 (v_start b - incr) = v_start b - incr + two64) as Hu.
        { unfold u64. rewrite <- (Z_mod_plus_full _ 1). apply Z.mod_small. unfold two64, mmap_limit, USTACK in *. lia. }
        rewrite Hu in Hbd, Hh. unfold two64, mmap_limit, USTACK in *. lia.
    + destruct (decide (vsize b + incr < 0)); [apply wp_ret, Hunder; lia|].
      destruct (decide (vsize b + incr = 0)); [apply Hrem; lia|].
      apply Hset; [apply expand_shrink_ok; [done|lia]|by intros []| |lia|lia].
      unfold expanded. rewrite Egd. f_equal. rewrite u64_small; [lia|].
      unfold in_u64, two64, mmap_limit, USTACK, vsize in *. lia.
  - destruct (decide (vsize b + incr > vsize b)) as [Hgt|Hgt].
    + unfold grow_at in *. rewrite Egd in *. apply Hgrow; [lia| | |lia].
      * intros Hh. assert (free_at xs (v_end b + 1) incr) as Hf by (apply hole_len_free; [done|lia|lia|done]).
        split; [done|]. pose proof Hf as (_ & _ & Hlast & _).
        apply Hset; [|by intros []| |lia|done].
        -- apply expand_grow_ok; [done|lia|]. unfold grow_at. by rewrite Egd.
        -- unfold expanded. rewrite Egd. f_equal. unfold vsize. rewrite u64_small; [lia|].
           unfold in_u64, two64, mmap_limit, USTACK in *. lia.
      * intros Hh Hf. apply hole_len_free in Hf; [lia|done|lia|lia].
    + destruct (decide (vsize b + incr < 0)); [apply wp_ret, Hunder; lia|].
      destruct (decide (vsize b + incr = 0)); [apply Hrem; lia|].
      apply Hset; [apply expand_shrink_ok; [done|lia]|by intros []| |lia|lia].
      unfold expanded. rewrite Egd. f_equal. rewrite u64_small; [lia|].
      unfold in_u64, two64, mmap_limit, USTACK, vsize in *. lia.
Qed.


(** ** Whole address spaces *)

Lemma space_nil : space_ok [].
Proof. split; constructor. Qed.

Lemma wp_archr {A} (f : H -> A * H) s (Q : A -> mm H -> Prop) :
  Q (f (mm_arch s)).1 (set_arch (f (mm_arch s)).2 s) -> wp (archr f) s Q.
Proof. unfold archr, wp. by destruct (f (mm_arch s)). Qed.

Lemma cut_all xs : space_ok xs -> cut 0 mmap_limit xs = [].
Proof.
  induction xs as [|[p b] xs IH]; [done|]. intros (Hb & Hok & _)%space_cons. rewrite cut_cons, IH by done.
  unfold region_ok in Hb. unfold cut1. simpl.
  rewrite decide_False by lia. rewrite decide_False by lia. by rewrite decide_False by lia.
Qed.

Lemma unmappable_0 xs : space_ok xs -> unmappable 0 xs.
Proof. intros Hok b Hb Hs. apply (space_in _ _ Hok) in Hb. unfold region_ok in Hb. lia. Qed.

Lemma wp_mmap_clean s m x xs (Q : Z -> mm H -> Prop) :
  aspace s m x xs ->
  (∀ s', aspace s' m (mmap_reset x) [] -> local m (addrs xs) s s' ->
     mm_arch s' = arch_fullvm_unmap (m_pgdir x) (unmap_arch (swallowed 0 mmap_limit xs) (mm_arch s)) -> Q 0 s') ->
  wp (mmap_clean m) s Q.
Proof.
  intros Has HQ. pose proof Has as (Hr & Hok & Hlim). pose proof Hr as (Hm & Hx & _).
  unfold mmap_clean. rewrite decide_False by done. wp_step. eapply wp_assert_locked; [done|].
  wp_step. eapply wp_map; [done|exact Hx|]. rewrite Hlim.
  rewrite u64_small by (unfold in_u64, two64, mmap_limit, USTACK; lia).
  wp_step. eapply wp_mmap_unmap; [done|done|done|lia|unfold mmap_limit, USTACK; lia|lia|by apply unmappable_0|].
  replace (0 + (mmap_limit + 1) - 1) with mmap_limit by lia. intros s1 Hs1.
  destruct (unmapped_aspace s m x xs 0 mmap_limit s1 Has ltac:(unfold mmap_limit, USTACK; lia) Hs1)
    as (rf & (Hr1 & _ & _) & Hloc & Harch).
  rewrite cut_all in Hr1 by done. pose proof Hr1 as (_ & Hx1 & Hl1 & _).
  rewrite decide_False by lia. wp_step. eapply wp_map; [done|exact Hx1|].
  wp_step. unfold arch. wp_step. wp_step. eapply wp_map_upd; [done|exact Hx1|]. wp_step. apply HQ.
  - split; [|split; [apply space_nil|done]].
    split; [done|]. split; [simpl; apply lookup_insert_eq|]. split; [done|]. apply dll_nil.
  - destruct Hloc as [A B]. split; [done|]. simpl. intros q Hq. rewrite lookup_insert_ne by done. by apply B.
  - simpl. by rewrite Harch.
Qed.

(** The region every address space starts with: the first 16 MiB, without
    access rights and not expandable. *)
Definition guard_region (m : ptr) : vbody :=
  VBody 0 VM_DONTEXPAND PTE_U NULL NULL 0 0 0 m NULL 0 0 16777215.

Lemma wp_mmap_init s m x xs (Q : Z -> mm H -> Prop) :
  aspace s m x xs ->
  (∀ s' x' r, aspace s' m x' [(r, guard_region m)] -> m_guard_len x' = PAGESZ -> Q 0 s') ->
  (∀ s', aspace s' m (mmap_reset x) [] -> Q (- ENOMEM) s') ->
  wp (mmap_init m) s Q.
Proof.
  intros Has Hok Hfail. pose proof Has as (Hr & _). pose proof Hr as (Hm & _).
  unfold mmap_init. rewrite decide_False by done. wp_step. eapply wp_assert_locked; [done|].
  wp_step. eapply wp_mmap_clean; [exact Has|]. intros s1 Has1 _ _. rewrite decide_False by lia.
  apply wp_fmap. eapply wp_mmap_map_region; [exact Has1|lia|lia|done|done| | | | | |].
  - intros _. split; [done|]. intros b Hb. by apply elem_of_nil in Hb.
  - intros Hbad. vm_compute in Hbad. discriminate.
  - intros _ Hbad. vm_compute in Hbad. discriminate.
  - apply Hfail. destruct Has1 as (H1 & H2 & H3). split; [by apply mrep_ticks|done].
  - intros r a s' _ Hbad. vm_compute in Hbad. discriminate.
  - intros r s' _ _ (l & rr & rf & us & Hnil & Has' & _). symmetry in Hnil. apply app_eq_nil in Hnil as [-> ->].
    by eapply (Hok s').
Qed.

Lemma wp_mmap_lock s m x (Q : unit -> mm H -> Prop) :
  m ≠ NULL -> mm_maps s !! m = Some x -> m_lock x = false ->
  Q tt (Mm (mm_vmrs s) (<[m := mset_lock true x]> (mm_maps s)) (mm_arch s) (mm_ticks s)) ->
  wp (mmap_lock m) s Q.
Proof.
  intros Hm Hx Hl HQ. unfold mmap_lock, mmap_assert. wp_step. wp_step; [by rewrite bool_decide_true|].
  wp_step. eapply wp_map; [done|exact Hx|]. wp_step. wp_step; [by rewrite Hl|]. by eapply wp_map_upd.
Qed.

Lemma wp_mmap_unlock s m x (Q : unit -> mm H -> Prop) :
  m ≠ NULL -> mm_maps s !! m = Some x -> m_lock x = true ->
  Q tt (Mm (mm_vmrs s) (<[m := mset_lock false x]> (mm_maps s)) (mm_arch s) (mm_ticks s)) ->
  wp (mmap_unlock m) s Q.
Proof.
  intros Hm Hx Hl HQ. unfold mmap_unlock, mmap_assert. wp_step. wp_step; [by rewrite bool_decide_true|].
  wp_step. eapply wp_map; [done|exact Hx|]. wp_step. wp_step. by eapply wp_map_upd.
Qed.

Lemma wp_mmap_alloc s (Q : Z * ptr -> mm H -> Prop) :
  (∀ e s', e ≠ 0 -> Q (e, NULL) s') ->
  (∀ m r x s', aspace s' m x [(r, guard_region m)] -> m_guard_len x = PAGESZ ->
     m ∉ dom (mm_maps s) -> Q (0, m) s') ->
  wp (mmap_alloc true) s Q.
Proof.
  intros Hfail Hok. unfold mmap_alloc. simpl negb. cbn match. wp_step. apply wp_archr.
  destruct (arch_getpgdir (mm_arch s)) as [[e pg] h1]. cbn [fst snd].
  destruct (decide (e ≠ 0)) as [He|He]; [by apply Hfail|]. wp_step. apply wp_kmalloc.
  { simpl. wp_step. unfold arch. wp_step. wp_step. by apply Hfail. }
  intros m Hv Hfresh _. simpl in Hfresh. pose proof (valid_ptr_nonnull _ Hv) as Hm.
  rewrite decide_False by done. wp_step.
  eapply wp_mmap_lock; [done|simpl; apply lookup_insert_eq|done|]. simpl. rewrite insert_insert_eq.
  wp_step. eapply (wp_mmap_init _ m _ []).
  { split; [split; [done|split; [simpl; apply lookup_insert_eq|split; [done|apply dll_nil]]]|].
    split; [apply space_nil|done]. }
  - intros s' x' r Has Hg. rewrite decide_False by lia. wp_step. eapply Hok; [exact Has|exact Hg|]. clear -Hfresh. set_solver.
  - intros s' Has. rewrite decide_True by done.
    destruct Has as ((_ & Hx & _) & _). wp_step. eapply wp_mmap_unlock; [done|exact Hx|done|].
    wp_step. eapply wp_kfree; [done|simpl; apply lookup_insert_eq|].
    wp_step. unfold arch. wp_step. wp_step. by apply Hfail.
Qed.

(** [mmap_alloc] returns a locked map, and [mmap_clone] locks it again. *)
Lemma clone_relocks s m x xs : mrep s m x xs ->
  (∃ e s', e ≠ 0 ∧ mmap_clone m true s = Ok (e, NULL) s') ∨ mmap_clone m true s = Stop Panic.
Proof.
  intros Hr. pose proof Hr as (Hm & _). unfold mmap_clone. rewrite decide_False by naive_solver.
  assert (wp (mmap_assert_locked m) s (λ _ s', s' = s)) as (? & ? & E0 & ->)%wp_run by (by eapply wp_assert_locked).
  assert (wp (mmap_alloc true) s (λ r s', (∃ e, e ≠ 0 ∧ r = (e, NULL)) ∨
     ∃ c y, r = (0, c) ∧ c ≠ NULL ∧ mm_maps s' !! c = Some y ∧ m_lock y = true)) as (r & s1 & E1 & Hc)%wp_run.
  { apply wp_mmap_alloc; [eauto|]. intros c r y s' ((Hc & Hy & Hl & _) & _) _ _. right. by exists c, y. }
  rewrite (bind_ok _ _ _ _ _ E0), (bind_ok _ _ _ _ _ E1).
  destruct Hc as [(e & He & ->)|(c & y & -> & Hc & Hy & Hl)]; cbv beta; cbn [fst snd].
  - left. exists e, s1. by destruct (decide (e ≠ 0)).
  - right. destruct (decide (0 ≠ 0)); [done|]. apply stop_bind_stop. unfold mmap_lock, mmap_assert.
    apply stop_bind. wp_step; [by rewrite bool_decide_true|]. apply stop_bind.
    eapply wp_map; [done|exact Hy|]. apply stop_bind_stop. by rewrite Hl.
Qed.

Lemma wp_mmap_free s m x xs (Q : unit -> mm H -> Prop) :
  aspace s m x xs ->
  (∀ s', mm_maps s' !! m = None -> (∀ q, q ≠ m -> mm_maps s' !! q = mm_maps s !! q) ->
     (∀ q, q ∉ addrs xs -> (erase <$> mm_vmrs s') !! q = (erase <$> mm_vmrs s) !! q) -> Q tt s') ->
  wp (mmap_free m) s Q.
Proof.
  intros Has HQ. pose proof Has as ((Hm & Hx & Hl & _) & _). unfold mmap_free. rewrite decide_False by done.
  wp_step. unfold mmap_islocked, mmap_assert. wp_step. wp_step; [by rewrite bool_decide_true|].
  wp_step. eapply wp_map; [done|exact Hx|]. wp_step. rewrite Hl. simpl. wp_step. wp_step.
  wp_step. eapply wp_mmap_clean; [exact Has|]. intros s1 ((_ & Hx1 & Hl1 & _) & _) [A B] _.
  wp_step. eapply wp_map; [done|exact Hx1|]. rewrite decide_True by (simpl; lia). wp_step.
  assert (∀ k (R : unit -> mm H -> Prop), (∀ a, R tt (Mm (mm_vmrs s1) (mm_maps s1) a (mm_ticks s1))) ->
    wp (when k (arch (pmman_free (m_pgdir (mmap_reset x))))) s1 R) as Hpg.
  { intros k R HR. destruct k; unfold arch; simpl; [apply wp_modify, HR|]. destruct s1. apply HR. }
  apply Hpg. intros a. wp_step. eapply wp_mmap_unlock; [done|exact Hx1|done|].
  eapply wp_kfree; [done|simpl; apply lookup_insert_eq|]. apply HQ; simpl.
  - apply lookup_delete_eq.
  - intros q Hq. rewrite lookup_delete_ne, lookup_insert_ne by done. by apply B.
  - done.
Qed.

End thms.
