(* ===== verification/MmapProps.v ===== *)
(** * The properties of address spaces (kernel/mm/mmap.c)

    Each theorem is about the C function it names, run on any state that
    holds a well-formed address space [aspace s m x xs]: [m] is a locked map
    whose regions are [xs], sorted, disjoint and below the limit.  The last
    part shows that the states the operations reach are of that kind. *)

From S2P Require Import Prelude Dll Mmap MmapSpec MmapThms.

Section properties.
Context {H : Type} {AV : ArchVm H} {K : Kmalloc}.
Implicit Types (s : mm H) (xs ys : rlist).

Lemma find_prot_at xs a : NULL ∉ addrs xs ->
  (first_sat (cov a) xs = NULL <-> prot_at xs a = None) ∧
  (first_sat (cov a) xs ≠ NULL ->
     ∃ b, (first_sat (cov a) xs, b) ∈ xs ∧ covers a b ∧ prot_at xs a = Some (rights b)).
Proof.
  induction xs as [|[p b] xs IH]; intros Hn; [done|]. simpl in *. 
  destruct IH as [IH1 IH2]; [set_solver|]. destruct (decide (covers a b)) as [Hc|Hc].
  - assert (cov a p b = true) as -> by (apply bool_decide_eq_true; unfold covers in Hc; lia).
    split; [split; [set_solver|done]|].
    intros _. exists b. split; [left|]. done.
  - assert (cov a p b = false) as -> by (apply bool_decide_eq_false; unfold covers in Hc; lia).
    split; [done|].
    intros (c & Hin & Hcov & Heq)%IH2. exists c. split; [by right|done].
Qed.

(** [mmap_find] returns [NULL] exactly for the addresses where nothing is
    mapped; otherwise it returns the region that covers the address, and the
    access rights at the address are those of that region. *)
Theorem mmap_find_correct s m x xs a :
  aspace s m x xs ->
  ∃ p, mmap_find m a s = Ok p s ∧ (p = NULL <-> prot_at xs a = None) ∧
       (p ≠ NULL -> ∃ b, (p, b) ∈ xs ∧ covers a b ∧ prot_at xs a = Some (rights b)).
Proof.
  intros (Hr & Hok & _). pose proof Hr as (_ & _ & _ & (_ & _ & _ & Hn & _)).
  assert (wp (mmap_find m a) s (λ p s', p = first_sat (cov a) xs ∧ s' = s)) as (p & s' & E & -> & ->)%wp_run.
  { by eapply wp_mmap_find. }
  exists (first_sat (cov a) xs). split; [done|]. by apply find_prot_at.
Qed.

(** [mmap_holesize] answers with the exact size of the hole that starts at
    the address: a range of [n] bytes from there is free if and only if [n] is
    at most the size returned.  It reports [-EINVAL] exactly when the address
    is mapped or above the limit, and it never changes the state. *)
Theorem mmap_holesize_exact s m x xs a :
  aspace s m x xs -> 0 <= a ->
  ∃ e n, mmap_holesize m a true s = Ok (e, n) s ∧
    (e = 0 ∨ e = - EINVAL) ∧
    (e = 0 -> ∀ k, 0 < k -> (free_at xs a k <-> k <= n)) ∧
    (e ≠ 0 <-> mmap_limit < a ∨ ∃ b, b ∈ xs.*2 ∧ covers a b).
Proof.
  intros (Hr & Hok & Hlim) Ha.
  assert (wp (mmap_holesize m a true) s (λ r s', r = holesize_of xs a ∧ s' = s)) as (r & s' & E & -> & ->)%wp_run.
  { by eapply wp_mmap_holesize. }
  rewrite (surjective_pairing (holesize_of xs a)) in E. do 2 eexists. split; [exact E|].
  unfold holesize_of. pose proof (hole_len_bound xs a Hok) as Hbd.
  destruct (decide (0 < hole_len xs a)) as [Hp|Hp]; simpl.
  - split; [by left|]. split; [intros _ k Hk; by apply hole_len_free|]. split; [done|].
    intros [Hl|Hex]; [lia|]. destruct (decide (a <= mmap_limit)); [|lia].
    apply hole_len_mapped in Hex; [lia|done|lia].
  - split; [by right|]. split; [done|]. split; [|done]. intros _.
    destruct (decide (a <= mmap_limit)); [right|left; lia]. apply hole_len_mapped; [done|lia|lia].
Qed.

(** C4. [mmap_find_hole] succeeds if and only if the address space has a hole
    of the requested size, and the address it returns starts one.  Searching
    from the end misses nothing but one-byte holes. *)
Theorem mmap_find_hole_correct s m x xs size whence :
  aspace s m x xs -> 0 < size < two64 -> whence = whence_start ∨ whence = whence_end ∧ 1 < size ->
  ∃ e a, mmap_find_hole m size true whence s = Ok (e, a) s ∧
    ((e = 0 ∧ free_at xs a size) ∨ (e = - ENOMEM ∧ ∀ c, ~ free_at xs c size)).
Proof.
  intros (Hr & Hok & Hlim) Hs Hw.
  assert (wp (mmap_find_hole m size true whence) s (λ r s', r = found (find_hole_of xs size whence) ∧ s' = s))
    as (r & s' & E & -> & ->)%wp_run by (by eapply wp_mmap_find_hole).
  destruct (find_hole_of xs size whence) as [a|] eqn:Ef; simpl in E; do 2 eexists; (split; [exact E|]).
  - left. split; [done|]. eapply find_hole_sound; [done|lia|done].
  - right. split; [done|]. eapply find_hole_complete; [done|lia|done|done].
Qed.

(** C3. [mmap_unmap] of a range that does not begin strictly inside a region
    returns 0 and leaves an address space in which the range is unmapped and
    every other address has the rights it had; the page tables are cleared for
    exactly the regions the range swallows whole (not for trimmed ones). *)
Theorem mmap_unmap_correct s m x xs lo len :
  aspace s m x xs -> 0 <= lo -> 0 < len -> lo + len - 1 <= mmap_limit -> unmappable lo xs ->
  ∃ s' x' xs', mmap_unmap m lo len s = Ok 0 s' ∧ aspace s' m x' xs' ∧
    (∀ a, prot_at xs' a = if decide (lo <= a < lo + len) then None else prot_at xs a) ∧
    mm_arch s' = unmap_arch (swallowed lo (lo + len - 1) xs) (mm_arch s) ∧
    local m (addrs xs) s s'.
Proof.
  intros Has Hlo Hlen Hhi Hu. pose proof Has as (Hr & Hok & Hlim).
  assert (wp (mmap_unmap m lo len) s (λ e s', e = 0 ∧ unmapped s m x xs lo (lo + len - 1) s'))
    as (e & s' & E & -> & Hs')%wp_run by (by eapply wp_mmap_unmap; eauto).
  destruct (unmapped_aspace s m x xs lo (lo + len - 1) s' Has ltac:(lia) Hs') as (rf & Has' & Hloc & Harch).
  do 3 eexists. split; [exact E|]. split; [exact Has'|]. split; [|by split].
  intros a. rewrite prot_at_cut by (done || lia).
  destruct (decide (lo <= a <= lo + len - 1)), (decide (lo <= a < lo + len)); done || lia.
Qed.

(** C40. [mmap_unmap] of a range that begins strictly inside a region stores
    through a null pointer: it calls [vmr_split] without a place for the new
    region. *)
Theorem mmap_unmap_inside_faults s m x xs p b lo len :
  aspace s m x xs -> (p, b) ∈ xs -> v_start b < lo < v_end b -> 0 < len -> lo + len - 1 <= mmap_limit ->
  mmap_unmap m lo len s = Stop BadAccess.
Proof.
  intros (Hr & Hok & _) (l & r & ->)%list_elem_of_split Hin Hlen Hhi. by eapply unmap_inside_stops.
Qed.

Lemma mapped_prot s m x xs base a len prot flags r s' :
  mapped s m x xs base a len prot flags r s' ->
  ∃ x' xs', aspace s' m x' xs' ∧ m_guard_len x' = m_guard_len x ∧
    ∀ c, prot_at xs' c = if decide (a <= c < a + len)
      then Some (region_flags prot flags, region_vflags (region_flags prot flags) (m_flags x), NULL)
      else prot_at base c.
Proof.
  intros (l & rr & rf & us & -> & Has & _). do 2 eexists. split; [exact Has|]. split; [done|]. intros c.
  destruct Has as (_ & Hok & _). rewrite prot_at_insert by done. unfold covers. simpl.
  destruct (decide (a <= c <= a + len - 1)), (decide (a <= c < a + len)); done || lia.
Qed.

Lemma request_nonzero addr len prot flags pvmr : request_ok addr len prot flags pvmr = true -> len ≠ 0.
Proof. unfold request_ok. rewrite !andb_true_iff. intros [[[[[[_ Hl] _] _] _] _] _]. by apply bool_decide_eq_true in Hl. Qed.

(** C2. [mmap_map_region], of a length that does not wrap and, with [MAP_FIXED], of
    a range that ends below the limit and does not begin strictly inside a region
    (outside of that the code faults or breaks the list): it either fails, with
    the address space as it was, or maps exactly the requested number of bytes (plus the guard of a stack)
    with the rights asked for and changes no other address.  With [MAP_FIXED]
    the range is the one requested; without it the range was unmapped before
    the call.  It fails with [-EINVAL] exactly on a malformed request, and
    without an attempt to allocate memory only if no hole is large enough. *)
Theorem mmap_map_region_correct s m x xs addr len prot flags pvmr :
  let len' := map_len x len flags in
  aspace s m x xs -> m_guard_len x = PAGESZ -> 0 <= addr -> 0 <= len -> len + PAGESZ < two64 ->
  (is_fixed flags = true -> addr + len' - 1 <= mmap_limit ∧ unmappable addr xs) ->
  ∃ e r s' x' xs', mmap_map_region m addr len prot flags pvmr s = Ok (e, r) s' ∧ aspace s' m x' xs' ∧
    ((e = - EINVAL ∧ r = NULL ∧ xs' = xs ∧ request_ok addr len prot flags pvmr = false) ∨
     (e = - ENOMEM ∧ r = NULL ∧ xs' = xs ∧
        (mm_ticks s' = S (mm_ticks s) ∨ is_fixed flags = false ∧ ∀ a, ~ free_at xs a len')) ∨
     (e = 0 ∧ request_ok addr len prot flags pvmr = true ∧ ∃ a,
        (if is_fixed flags then a = addr else free_at xs a len') ∧
        ∀ c, prot_at xs' c = if decide (a <= c < a + len')
          then Some (region_flags prot flags, region_vflags (region_flags prot flags) (m_flags x), NULL)
          else prot_at xs c)).
Proof.
  intros len' Has Hg Haddr Hlen Hw Hfix. pose proof Has as (Hr & Hok & Hlim).
  pose (post := λ (v : Z * ptr) (s' : mm H), ∃ x' xs', aspace s' m x' xs' ∧
    ((v.1 = - EINVAL ∧ v.2 = NULL ∧ xs' = xs ∧ request_ok addr len prot flags pvmr = false) ∨
     (v.1 = - ENOMEM ∧ v.2 = NULL ∧ xs' = xs ∧
        (mm_ticks s' = S (mm_ticks s) ∨ is_fixed flags = false ∧ ∀ a, ~ free_at xs a len')) ∨
     (v.1 = 0 ∧ request_ok addr len prot flags pvmr = true ∧ ∃ a,
        (if is_fixed flags then a = addr else free_at xs a len') ∧
        ∀ c, prot_at xs' c = if decide (a <= c < a + len')
          then Some (region_flags prot flags, region_vflags (region_flags prot flags) (m_flags x), NULL)
          else prot_at xs c))).
  assert (wp (mmap_map_region m addr len prot flags pvmr) s post) as ([e r] & s' & E & x' & xs' & Has' & Hpost)%wp_run.
  2:{ by exists e, r, s', x', xs'. }
  apply (wp_mmap_map_region s m x xs); rewrite ?Hg; try done; fold len'.
  - intros Hbad. exists x, xs. split; [done|]. by left.
  - intros Hq Hf Hn. exists x, xs. split; [done|]. right; left. repeat split; try done. right. split; [done|].
    assert (len ≠ 0) as Hnz by (by eapply request_nonzero).
    assert (0 < len' ∧ (map_whence flags = whence_start ∨ map_whence flags = whence_end ∧ 1 < len')) as [Hl Hwh].
    { unfold len', map_len, map_whence. rewrite Hg. unfold PAGESZ. destruct (is_stack flags); lia. }
    by apply (find_hole_complete xs len' (map_whence flags)).
  - exists x, xs. split; [split; [by apply mrep_ticks|done]|]. right; left. repeat split. by left.
  - intros r a s' Hq Hf Hfree Hmap. destruct (mapped_prot _ _ _ _ _ _ _ _ _ _ _ Hmap) as (x' & xs' & Has' & _ & Hp).
    exists x', xs'. split; [done|]. right; right. split; [done|]. split; [done|]. exists a. by rewrite Hf.
  - intros r s' Hq Hf Hmap. destruct (mapped_prot _ _ _ _ _ _ _ _ _ _ _ Hmap) as (x' & xs' & Has' & _ & Hp).
    exists x', xs'. split; [done|]. right; right. split; [done|]. split; [done|]. exists addr. rewrite Hf.
    split; [done|]. intros c. rewrite Hp. destruct (decide (addr <= c < addr + len')) as [|Ho]; [done|].
    destruct (Hfix Hf) as [_ Hu]. destruct (decide (0 < len')).
    + rewrite prot_at_cut by (done || lia). by rewrite decide_False by lia.
    + exfalso. assert (len ≠ 0) as Hnz by (by eapply request_nonzero).
      unfold len', map_len in *. rewrite Hg in *. unfold PAGESZ in *. destruct (is_stack flags); lia.
Qed.

(** [mmap_vmr_expand] of a region that may expand either refuses and
    changes nothing, or removes the region (a shrink by its whole size), or
    moves the growing edge by [incr] bytes; it grows exactly when the bytes it
    would add are free. *)
Theorem mmap_vmr_expand_correct s m x l p b r incr :
  aspace s m x (l ++ (p, b) :: r) -> incr ≠ 0 -> - 4611686018427387904 <= incr < 4611686018427387904 ->
  has (v_flags b) VM_DONTEXPAND = false ->
  ∃ e s' x' xs', mmap_vmr_expand m p incr s = Ok e s' ∧ aspace s' m x' xs' ∧
    ((e ≠ 0 ∧ xs' = l ++ (p, b) :: r ∧
        (incr < - vsize b ∨ 0 < incr ∧ ~ free_at (l ++ (p, b) :: r) (grow_at b incr) incr)) ∨
     (e = 0 ∧ xs' = l ++ r ∧ incr = - vsize b) ∨
     (e = 0 ∧ xs' = l ++ (p, expanded b incr) :: r ∧ - vsize b < incr ∧
        (0 < incr -> free_at (l ++ (p, b) :: r) (grow_at b incr) incr))).
Proof.
  intros Has Hnz Hrange Hde.
  pose (post := λ (e : Z) (s' : mm H), ∃ x' xs', aspace s' m x' xs' ∧
    ((e ≠ 0 ∧ xs' = l ++ (p, b) :: r ∧
        (incr < - vsize b ∨ 0 < incr ∧ ~ free_at (l ++ (p, b) :: r) (grow_at b incr) incr)) ∨
     (e = 0 ∧ xs' = l ++ r ∧ incr = - vsize b) ∨
     (e = 0 ∧ xs' = l ++ (p, expanded b incr) :: r ∧ - vsize b < incr ∧
        (0 < incr -> free_at (l ++ (p, b) :: r) (grow_at b incr) incr)))).
  assert (wp (mmap_vmr_expand m p incr) s post) as (e & s' & E & x' & xs' & Hpost)%wp_run.
  2:{ by exists e, s', x', xs'. }
  eapply wp_mmap_vmr_expand; [exact Has|done|done| | | | |].
  - by rewrite Hde.
  - intros Hu. do 2 eexists. split; [exact Has|]. left. by auto.
  - intros Hp Hf e He. do 2 eexists. split; [exact Has|]. left. split; [by destruct He as [-> | ->]|]. by auto.
  - intros _ Hi s' x' Has' _. do 2 eexists. split; [exact Has'|]. by auto.
  - intros _ Hi Hf s' Has'. do 2 eexists. split; [exact Has'|]. right; right. by auto.
Qed.

(** [mmap_alloc] returns an error and [NULL], or a fresh locked map whose
    only region is the inaccessible first 16 MiB: nothing else is mapped. *)
Theorem mmap_alloc_correct s :
  ∃ e m s', mmap_alloc true s = Ok (e, m) s' ∧
    ((e ≠ 0 ∧ m = NULL) ∨
     (e = 0 ∧ m ∉ dom (mm_maps s) ∧ ∃ x r, aspace s' m x [(r, guard_region m)] ∧
        ∀ a, prot_at [(r, guard_region m)] a =
             if decide (0 <= a < 16777216) then Some (VM_DONTEXPAND, PTE_U, NULL) else None)).
Proof.
  assert (wp (mmap_alloc true) s (λ v s', (v.1 ≠ 0 ∧ v.2 = NULL) ∨
    (v.1 = 0 ∧ v.2 ∉ dom (mm_maps s) ∧ ∃ x r, aspace s' v.2 x [(r, guard_region v.2)]))) as ([e m] & s' & E & Hp)%wp_run.
  { apply wp_mmap_alloc; [by auto|]. intros m r x s' Has _ Hm. right. by eauto. }
  exists e, m, s'. split; [done|]. destruct Hp as [?|(He & Hm & x & r & Has)]; [by left|right].
  split; [done|]. split; [done|]. exists x, r. split; [done|]. intros a. simpl. unfold covers. simpl.
  destruct (decide (0 <= a <= 16777215)), (decide (0 <= a < 16777216)); done || lia.
Qed.

(** [mmap_clone] never succeeds: it returns an error, or it panics because
    it locks the map that [mmap_alloc] already returned locked. *)
Theorem mmap_clone_never_succeeds s m x xs :
  aspace s m x xs ->
  (∃ e s', e ≠ 0 ∧ mmap_clone m true s = Ok (e, NULL) s') ∨ mmap_clone m true s = Stop Panic.
Proof. intros (Hr & _). by eapply clone_relocks. Qed.

(** [mmap_free] of an address space returns with the map released and
    every other map and every region of another map as it was. *)
Theorem mmap_free_releases s m x xs :
  aspace s m x xs ->
  ∃ s', mmap_free m s = Ok tt s' ∧ mm_maps s' !! m = None ∧
    (∀ q, q ≠ m -> mm_maps s' !! q = mm_maps s !! q) ∧
    (∀ q, q ∉ addrs xs -> (erase <$> mm_vmrs s') !! q = (erase <$> mm_vmrs s) !! q).
Proof.
  intros Has. assert (wp (mmap_free m) s (λ _ s', mm_maps s' !! m = None ∧
    (∀ q, q ≠ m -> mm_maps s' !! q = mm_maps s !! q) ∧
    (∀ q, q ∉ addrs xs -> (erase <$> mm_vmrs s') !! q = (erase <$> mm_vmrs s) !! q)))
    as ([] & s' & E & Hp)%wp_run; [|by exists s'].
  eapply wp_mmap_free; [exact Has|]. by auto.
Qed.

(** ** Reachable states *)

Variant mop :=
  | OpFind (a : Z)
  | OpUnmap (lo len : Z)
  | OpMap (addr len prot flags : Z)
  | OpStack (len : Z)
  | OpExpand (p : ptr) (incr : Z).

Definition run_op (m : ptr) (o : mop) : M (mm H) Z :=
  match o with
  | OpFind a => mmap_find m a
  | OpUnmap lo len => mmap_unmap m lo len
  | OpMap addr len prot flags => fst <$> mmap_map_region m addr len prot flags true
  | OpStack len => fst <$> mmap_alloc_stack m len true
  | OpExpand p incr => mmap_vmr_expand m p incr
  end.

(** The arguments for which the operations are specified: ranges that do not
    wrap, and no unmapping that begins strictly inside a region. *)
Definition op_ok (xs : rlist) (o : mop) : Prop :=
  match o with
  | OpFind a => True
  | OpUnmap lo len => 0 <= lo ∧ 0 <= len ∧ lo + len <= two64 ∧ unmappable lo xs
  | OpMap addr len prot flags =>
      0 <= addr ∧ 0 <= len ∧ len + PAGESZ < two64 ∧
      (is_fixed flags = true -> addr + len + PAGESZ - 1 <= mmap_limit ∧ unmappable addr xs)
  | OpStack len => 0 <= len ∧ len + PAGESZ < two64
  | OpExpand p incr => p ∈ addrs xs ∧ incr ≠ 0 ∧ - 4611686018427387904 <= incr < 4611686018427387904
  end.

Definition good s (m : ptr) : Prop := ∃ x xs, aspace s m x xs ∧ m_guard_len x = PAGESZ.

Lemma map_len_bound x len flags : m_guard_len x = PAGESZ -> 0 <= len -> len <= map_len x len flags <= len + PAGESZ.
Proof. intros Hg Hl. unfold map_len. rewrite Hg. unfold PAGESZ. destruct (is_stack flags); lia. Qed.

Lemma wp_map_good s m x xs addr len prot flags :
  aspace s m x xs -> m_guard_len x = PAGESZ -> 0 <= addr -> 0 <= len -> len + PAGESZ < two64 ->
  (is_fixed flags = true -> addr + len + PAGESZ - 1 <= mmap_limit ∧ unmappable addr xs) ->
  wp (mmap_map_region m addr len prot flags true) s (λ _ s', good s' m).
Proof.
  intros Has Hg Ha Hl Hw Hf. pose proof (map_len_bound x len flags Hg Hl) as Hb.
  assert (∀ base a len r s', mapped s m x xs base a len prot flags r s' -> good s' m) as Hmap.
  { intros base a len0 r s' (x' & xs' & Has' & Hg' & _)%mapped_prot. exists x', xs'. split; [done|]. congruence. }
  apply (wp_mmap_map_region s m x xs); rewrite ?Hg; try done.
  - intros Hfx. destruct (Hf Hfx). split; [lia|done].
  - intros _. by exists x, xs.
  - intros _ _ _. by exists x, xs.
  - exists x, xs. split; [|done]. destruct Has as (Hr & ? & ?). split; [by apply mrep_ticks|done].
  - intros r a s' _ _ _ Hm. by eapply Hmap.
  - intros r s' _ _ Hm. by eapply Hmap.
Qed.

Lemma wp_run_op s m x xs o : aspace s m x xs -> m_guard_len x = PAGESZ -> op_ok xs o ->
  wp (run_op m o) s (λ _ s', good s' m).
Proof.
  intros Has Hg Ho. pose proof Has as (Hr & Hok & Hlim). destruct o as [a|lo len|addr len prot flags|len|p incr]; simpl in *.
  - eapply wp_mmap_find; [done|]. by exists x, xs.
  - destruct Ho as (Hlo & Hlen & Hw & Hu).
    destruct (decide (len = 0 ∨ mmap_limit < lo + len - 1)) as [Hbad|Hgood].
    + eapply wp_mmap_unmap_inval; [done| |by exists x, xs].
      destruct Hbad as [?|?]; [by left|right]. rewrite u64_small; [done|].
      unfold in_u64, mmap_limit, USTACK in *. lia.
    + eapply wp_mmap_unmap; [done|done|done|lia|lia|lia|done|]. intros s' Hs'.
      destruct (unmapped_aspace s m x xs lo (lo + len - 1) s' Has ltac:(lia) Hs') as (rf & Has' & _).
      do 2 eexists. split; [exact Has'|done].
  - destruct Ho as (Ha & Hl & Hw & Hf). apply wp_fmap. by eapply wp_map_good.
  - destruct Ho as (Hl & Hw). apply wp_fmap. unfold mmap_alloc_stack.
    pose proof Hr as (Hm & _). rewrite decide_False by naive_solver.
    wp_step. eapply wp_assert_locked; [done|]. eapply wp_map_good; try done.
  - destruct Ho as (([p' b] & -> & (l & r & ->)%list_elem_of_split)%list_elem_of_fmap & Hnz & Hrange). simpl.
    eapply wp_mmap_vmr_expand; [exact Has|done|done| | | | |].
    + intros _. by eexists _, _.
    + intros _. by eexists _, _.
    + intros _ _ _ _. by eexists _, _.
    + intros _ _ s' x' Has' Hg'. eexists _, _. split; [exact Has'|]. by rewrite Hg'.
    + intros _ _ _ s' Has'. by eexists _, _.
Qed.

(** The states an address space goes through, from its allocation on. *)
Inductive reach (m : ptr) : mm H -> Prop :=
  | reach_alloc s0 s : mmap_alloc true s0 = Ok (0, m) s -> reach m s
  | reach_op s o e s' : reach m s -> (∀ x xs, aspace s m x xs -> op_ok xs o) ->
      run_op m o s = Ok e s' -> reach m s'.

(** C1. In every state reached from [mmap_alloc] by looking up, mapping,
    unmapping, allocating stacks and expanding with arguments that [op_ok] admits,
    the regions are sorted, disjoint and below the limit, and each of these
    operations with such arguments returns.  [op_ok] excludes ranges that wrap
    around, unmappings and [MAP_FIXED] mappings that begin strictly inside a region
    (they fault), [MAP_FIXED] mappings that end, with a page for a guard, above the
    limit (they may break the list: [mmap_map_region_wraps]), and expansions by 0, by 2^62 bytes or more,
    or of a region that is not on the list. *)
Theorem mmap_reachable_ok m s :
  reach m s -> ∃ x xs, aspace s m x xs ∧
    ∀ o, op_ok xs o -> ∃ e s', run_op m o s = Ok e s'.
Proof.
  intros Hreach. assert (good s m) as (x & xs & Has & Hg).
  { induction Hreach as [s0 s E|s o e s' _ (x & xs & Has & Hg) Ho E].
    - assert (wp (mmap_alloc true) s0 (λ v s', v.1 = 0 -> good s' v.2)) as Hwp.
      { apply wp_mmap_alloc; [done|]. intros c r x s' Has Hg _ _. by eexists _, _. }
      unfold wp in Hwp. rewrite E in Hwp. by apply Hwp.
    - pose proof (wp_run_op s m x xs o Has Hg (Ho x xs Has)) as Hwp. unfold wp in Hwp. by rewrite E in Hwp. }
  exists x, xs. split; [done|]. intros o Ho.
  apply (wp_run_op s m x xs o Has Hg) in Ho as (e & s' & E & _)%wp_run. by exists e, s'.
Qed.

End properties.

(** ** Runs on concrete address spaces *)

(** A machine that records the ranges it was told to unmap. *)
#[global] Instance log_arch : ArchVm (list (Z * Z)) := {|
  arch_unmap_n v n h := h ++ [(v, n)];
  arch_mprotect _ _ _ h := (0, h);
  arch_getpgdir h := (0, 4096, h);
  arch_putpgdir _ h := h;
  arch_fullvm_unmap _ h := h;
  arch_lazycpy _ _ h := (0, h);
  arch_swtchvm _ h := h;
  pmman_free _ h := h;
|}.
#[local] Existing Instance bump_kmalloc.

Definition demo_low : vbody := VBody 2 VM_DONTEXPAND PTE_U NULL NULL 0 0 0 100 NULL 0 0 16777215.
Definition demo_data : vbody := VBody 2 6 7 NULL NULL 0 0 0 100 NULL 0 16777216 16785407.
Definition demo_map : mmap_t :=
  Mmap MMAP_USER 2 NULL NULL NULL NULL 0 4096 mmap_limit PAGESZ 16785408 1 2 true.
Definition demo : mm (list (Z * Z)) :=
  Mm (<[1 := Vmr NULL demo_low 2]> {[2 := Vmr 1 demo_data NULL]}) {[100 := demo_map]} [] 0.
Definition demo_list : rlist := [(1, bset_refs 0 demo_low); (2, bset_refs 0 demo_data)].

Lemma demo_ok : aspace demo 100 demo_map demo_list.
Proof.
  split; [|split; [|done]].
  - split; [done|]. split; [done|]. split; [done|]. split; [done|]. split; [done|].
    split; [apply (bool_decide_unpack _); by vm_compute|].
    split; [apply (bool_decide_unpack _); by vm_compute|]. by vm_compute.
  - apply space_cons. split; [by vm_compute|]. split.
    + apply space_cons. split; [by vm_compute|]. split; [apply space_nil|]. intros c Hc. by apply elem_of_nil in Hc.
    + intros c Hc. apply list_elem_of_singleton in Hc as ->. by vm_compute.
Qed.

Lemma demo_unmappable : unmappable 16777216 demo_list.
Proof.
  intros c [->|[->|Hc]%elem_of_cons]%elem_of_cons Hs; [by vm_compute|by vm_compute in Hs|by apply elem_of_nil in Hc].
Qed.

Lemma mmap_find_correct_witness : ∃ p, mmap_find 100 16777300 demo = Ok p demo ∧ p ≠ NULL.
Proof.
  destruct (mmap_find_correct demo 100 demo_map demo_list 16777300 demo_ok) as (p & E & Hn & _).
  exists p. split; [exact E|]. intros Hp. apply Hn in Hp. vm_compute in Hp. discriminate.
Defined.

Lemma mmap_holesize_exact_witness : ∃ e n, mmap_holesize 100 16785408 true demo = Ok (e, n) demo ∧
  (e = 0 -> free_at demo_list 16785408 4096 <-> 4096 <= n).
Proof.
  destruct (mmap_holesize_exact demo 100 demo_map demo_list 16785408 demo_ok ltac:(lia)) as (e & n & E & _ & Hn & _).
  exists e, n. split; [exact E|]. intros He. apply Hn; [exact He|lia].
Defined.

Lemma mmap_find_hole_correct_witness : ∃ e a, mmap_find_hole 100 4096 true whence_end demo = Ok (e, a) demo ∧
  ((e = 0 ∧ free_at demo_list a 4096) ∨ (e = - ENOMEM ∧ ∀ c, ~ free_at demo_list c 4096)).
Proof.
  apply (mmap_find_hole_correct demo 100 demo_map demo_list 4096 whence_end demo_ok);
    [unfold two64; lia|right; split; [reflexivity|lia]].
Defined.

Lemma mmap_unmap_correct_witness : ∃ s' x' xs', mmap_unmap 100 16777216 4096 demo = Ok 0 s' ∧ aspace s' 100 x' xs' ∧
  prot_at xs' 16777216 = None ∧ prot_at xs' 16781312 = Some (6, 7, NULL).
Proof.
  destruct (mmap_unmap_correct demo 100 demo_map demo_list 16777216 4096 demo_ok ltac:(lia) ltac:(lia)
    ltac:(unfold mmap_limit, USTACK; lia) demo_unmappable) as (s' & x' & xs' & E & Has & Hp & _).
  exists s', x', xs'. split; [exact E|]. split; [exact Has|]. rewrite !Hp. split; reflexivity.
Defined.

Lemma mmap_unmap_inside_faults_witness : mmap_unmap 100 16781312 4096 demo = Stop BadAccess.
Proof.
  apply (mmap_unmap_inside_faults demo 100 demo_map demo_list 2 (bset_refs 0 demo_data) 16781312 4096 demo_ok).
  - right. left.
  - simpl. lia.
  - lia.
  - unfold mmap_limit, USTACK. lia.
Defined.

Lemma mmap_map_region_correct_witness : ∃ e r s' x' xs',
  mmap_map_region 100 0 8192 PROT_READ MAP_PRIVATE true demo = Ok (e, r) s' ∧ aspace s' 100 x' xs'.
Proof.
  destruct (mmap_map_region_correct demo 100 demo_map demo_list 0 8192 PROT_READ MAP_PRIVATE true demo_ok
    eq_refl ltac:(lia) ltac:(lia) ltac:(unfold PAGESZ, two64; lia) ltac:(intros Hf; vm_compute in Hf; discriminate))
    as (e & r & s' & x' & xs' & E & Has & _).
  exists e, r, s', x', xs'. split; [exact E|exact Has].
Defined.

Lemma mmap_vmr_expand_correct_witness : ∃ e s' x' xs',
  mmap_vmr_expand 100 2 4096 demo = Ok e s' ∧ aspace s' 100 x' xs'.
Proof.
  destruct (mmap_vmr_expand_correct demo 100 demo_map [(1, bset_refs 0 demo_low)] 2 (bset_refs 0 demo_data) [] 4096
    demo_ok ltac:(lia) ltac:(lia) eq_refl) as (e & s' & x' & xs' & E & Has & _).
  exists e, s', x', xs'. split; [exact E|exact Has].
Defined.

Lemma mmap_clone_never_succeeds_witness :
  (∃ e s', e ≠ 0 ∧ mmap_clone 100 true demo = Ok (e, NULL) s') ∨ mmap_clone 100 true demo = Stop Panic.
Proof. exact (mmap_clone_never_succeeds demo 100 demo_map demo_list demo_ok). Defined.

Lemma mmap_free_releases_witness : ∃ s', mmap_free 100 demo = Ok tt s' ∧ mm_maps s' !! 100 = None.
Proof.
  destruct (mmap_free_releases demo 100 demo_map demo_list demo_ok) as (s' & E & Hm & _).
  exists s'. split; [exact E|exact Hm].
Defined.

Definition mm_empty : mm (list (Z * Z)) := Mm ∅ ∅ [] 0.

Lemma mmap_reachable_ok_witness : ∃ s x xs, reach 1 s ∧ aspace s 1 x xs ∧
  ∀ o, op_ok xs o -> ∃ e s', run_op 1 o s = Ok e s'.
Proof.
  destruct (mmap_alloc true mm_empty) as [[e m] s|w] eqn:E; [|by vm_compute in E].
  assert (e = 0 ∧ m = 1) as [-> ->] by (vm_compute in E; by injection E).
  pose proof (reach_alloc 1 mm_empty s E) as Hr.
  destruct (mmap_reachable_ok 1 s Hr) as (x & xs & Has & Ho).
  exists s, x, xs. split; [exact Hr|]. split; [exact Has|exact Ho].
Defined.

(** [mmap_map_region] does not check that [addr + len] stays in the
    address space: a fixed request whose end wraps around succeeds and puts a
    region on the list whose end lies below its start. *)
Theorem mmap_map_region_wraps :
  ∃ r s' v, mmap_map_region 100 16785408 18446744073709547520 PROT_READ (Z.lor MAP_FIXED MAP_PRIVATE) true demo
              = Ok (0, r) s' ∧
    mm_vmrs s' !! r = Some v ∧ m_tail <$> mm_maps s' !! 100 = Some r ∧ v_end (v_body v) < v_start (v_body v).
Proof.
  do 3 eexists. split; [by vm_compute|]. split; [by vm_compute|]. split; [by vm_compute|]. by vm_compute.
Qed.

(** Removing the only region of an address space does not free it: its
    two references are those of the list head and tail and only one of them is
    dropped.  Here it is the first region of a fresh map. *)
Theorem mmap_remove_sole_leaks :
  ∃ s1 r s2 v, mmap_alloc true mm_empty = Ok (0, 1) s1 ∧ m_head <$> mm_maps s1 !! 1 = Some r ∧
    mmap_remove 1 r s1 = Ok 0 s2 ∧ m_head <$> mm_maps s2 !! 1 = Some NULL ∧
    mm_vmrs s2 !! r = Some v ∧ v_refs (v_body v) = 1.
Proof.
  do 4 eexists. split; [by vm_compute|]. split; [by vm_compute|]. split; [by vm_compute|].
  split; [by vm_compute|]. split; by vm_compute.
Qed.
