(* ===== verification/Zone.v ===== *)
(** * kernel/mm/pmm: physical memory zones and page frames

    mm_zone.c and zone_page.c.  Physical memory is divided into four zones;
    each has an array of [page_t] with a reference count per page frame.  The
    arrays lie in one memory: a [page_t] is identified by its address, so that
    two zones whose arrays overlap share entries, as they do in C.

    The accesses to page frames themselves and the page tables are the class
    [PhysMem]. *)

From S2P Require Import Prelude.

(** struct page *)
Record page_t := Page {
  pg_mapping : ptr;
  pg_refcnt : Z;
  pg_map_count : Z;
  pg_virtual : Z;
  pg_flags : Z;
  pg_mmzone : Z;
}.
Definition page_zero : page_t := Page NULL 0 0 0 0 0.
Definition set_refcnt v p := Page (pg_mapping p) v (pg_map_count p) (pg_virtual p) (pg_flags p) (pg_mmzone p).
Definition page_setmmzone v p := Page (pg_mapping p) (pg_refcnt p) (pg_map_count p) (pg_virtual p) (pg_flags p) v.
Definition page_setflags v p :=
  Page (pg_mapping p) (pg_refcnt p) (pg_map_count p) (pg_virtual p) (Z.lor (pg_flags p) v) (pg_mmzone p).
(** The fields [__pages_put] resets when the last reference is dropped. *)
Definition page_reset p := Page NULL 0 (pg_map_count p) 0 256 (pg_mmzone p).

(** sizeof(page_t), a packed struct *)
Definition PAGE_T : Z := 40.
Definition PGSZ : Z := 4096.
Definition PG_RWX : Z := 7.

(** struct mm_zone *)
Record mm_zone := Zone {
  z_start : Z;
  z_flags : Z;
  z_pages : ptr;
  z_nrpages : Z;
  z_free : Z;
  z_size : Z;
  z_lock : bool;
}.
Definition zone_zero : mm_zone := Zone 0 0 NULL 0 0 0 false.
Definition zset_free v z := Zone (z_start z) (z_flags z) (z_pages z) (z_nrpages z) v (z_size z) (z_lock z).
Definition zset_lock v z := Zone (z_start z) (z_flags z) (z_pages z) (z_nrpages z) (z_free z) (z_size z) v.

Definition MM_ZONE_DMA : nat := 0.
Definition MM_ZONE_NORM : nat := 1.
Definition MM_ZONE_HOLE : nat := 2.
Definition MM_ZONE_HIGH : nat := 3.
Definition MM_ZONE_VALID : Z := 16.
Definition NZONE : nat := 4.

Definition GFP_WAIT : Z := 16.
Definition GFP_RETRY : Z := 128.
Definition GFP_ZERO : Z := 256.
Definition GFP_NORMAL : Z := 2.

Definition has_bit (flags bit : Z) : bool := bool_decide (Z.land flags bit ≠ 0).

Definition MiB (x : Z) : Z := u64 (1048576 * x).
Definition KiB (x : Z) : Z := u64 (1024 * x).
Definition GiB (x : Z) : Z := u64 (1073741824 * x).
Definition PGOFF (p : Z) : Z := Z.land p (PGSZ - 1).
Definition PGROUND (p : Z) : Z := p - PGOFF p.
Definition PGROUNDUP (p : Z) : Z := if decide (PGOFF p = 0) then p else PGROUND (u64 (p + PGSZ)).
Definition NPAGE (p : Z) : Z := p / PGSZ + (if decide (PGOFF p = 0) then 0 else 1).
Definition VMA_BASE : Z := 18446743523953737728.
Definition VMA2HI (p : Z) : Z := u64 (VMA_BASE + p).
Definition VMA2LO (p : Z) : Z := u64 (p - VMA_BASE).

(** What the page allocator uses of the machine: clearing a page frame through
    the kernel mapping, mounting a high frame (0 when it fails), clearing and
    unmounting it, whether a thread runs, and the page tables. *)
Class PhysMem (H : Type) := {
  memset_frame : Z -> H -> H;
  arch_mount : Z -> H -> Z * H;
  arch_unmount : Z -> H -> H;
  current_thread : H -> bool;
  pm_unmap_n : Z -> Z -> H -> H;
  pm_map_i : Z -> Z -> Z -> Z -> H -> H;
}.

Record pmm (H : Type) := Pmm {
  p_zones : list mm_zone;
  p_pages : gmap ptr page_t;
  p_mach : H;
}.
Arguments Pmm {H} _ _ _.
Arguments p_zones {H} _.
Arguments p_pages {H} _.
Arguments p_mach {H} _.

Section zones.
Context {H : Type} {PM : PhysMem H}.

#[export] Instance hl_pages : Heaplet (pmm H) page_t := {|
  hl_get := p_pages;
  hl_put m s := Pmm (p_zones s) m (p_mach s);
|}.

Definition pg (p : ptr) : M (pmm H) page_t := load p.
Definition pg_upd (p : ptr) (f : page_t -> page_t) : M (pmm H) unit := update p f.
(** [zones[i]]; an index past the array is a bad access. *)
Definition zone (i : nat) : M (pmm H) mm_zone := λ s,
  match p_zones s !! i with Some z => Ok z s | None => Stop BadAccess end.
Definition zone_upd (i : nat) (f : mm_zone -> mm_zone) : M (pmm H) unit := λ s,
  match p_zones s !! i with
  | Some z => Ok tt (Pmm (<[i := f z]> (p_zones s)) (p_pages s) (p_mach s))
  | None => Stop BadAccess
  end.
Definition mach (f : H -> H) : M (pmm H) unit := modify (λ s, Pmm (p_zones s) (p_pages s) (f (p_mach s))).
Definition machr {A} (f : H -> A * H) : M (pmm H) A := λ s,
  let '(a, h) := f (p_mach s) in Ok a (Pmm (p_zones s) (p_pages s) h).

Definition mm_zone_lock (i : nat) : M (pmm H) unit :=
  z ← zone i; assert_ (negb (z_lock z));; zone_upd i (zset_lock true).
Definition mm_zone_unlock (i : nat) : M (pmm H) unit :=
  z ← zone i; assert_ (z_lock z);; zone_upd i (zset_lock false).
Definition mm_zone_isvalid (i : nat) : M (pmm H) bool :=
  z ← zone i; assert_ (z_lock z);; mret (has_bit (z_flags z) MM_ZONE_VALID).

(** The address of [zone->pages[i]]. *)
Definition page_at (z : mm_zone) (i : Z) : ptr := u64 (z_pages z + PAGE_T * i).

(** The loop of [get_mmzone]: the rounds [i], [i+1], ... *)
Fixpoint get_mmzone_loop (rounds i : nat) (addr size : Z) : M (pmm H) (option nat) :=
  match rounds with
  | O => mret None
  | S rounds =>
      z ← zone i;
      if decide (addr >= z_start z ∧ u64 (addr + u64 (size - 1)) < u64 (z_start z + z_nrpages z * PGSZ)) then
        mm_zone_lock i;;
        ok ← mm_zone_isvalid i;
        if (ok : bool) then mret (Some i) else mm_zone_unlock i;; mret None
      else get_mmzone_loop rounds (S i) addr size
  end.
Definition get_mmzone (addr size : Z) : M (pmm H) (option nat) := get_mmzone_loop NZONE 0 addr size.

(** [z > NELEM(zones)] lets the index one past the array through. *)
Definition mm_zone_get (z : Z) : M (pmm H) (option nat) :=
  if decide (z < 0 ∨ z > 4) then mret None else
  let i := Z.to_nat z in
  mm_zone_lock i;;
  ok ← mm_zone_isvalid i;
  if (ok : bool) then mret (Some i) else mm_zone_unlock i;; mret None.

Definition mm_zone_contains (z : Z) (addr size : Z) : M (pmm H) Z :=
  if decide (z < 0 ∨ z > 3) then mret (- EINVAL) else
  zo ← get_mmzone addr size;
  match zo with
  | None => mret (- EINVAL)
  | Some i => mm_zone_unlock i;; mret (if decide (Z.of_nat i = z) then 0 else - EINVAL)
  end.

(** One scan of [alloc_pages] over the page array from [index] on: the start of
    a run of [npages] pages, or the value of [alloced] at the end. *)
Fixpoint alloc_scan (rounds : nat) (z : mm_zone) (npages index start alloced : Z) : M (pmm H) (Z + Z) :=
  match rounds with
  | O => mret (inr alloced)
  | S rounds =>
      p ← pg (page_at z index);
      if decide (pg_refcnt p ≠ 0) then alloc_scan rounds z npages (index + 1) (index + 1) 0
      else if decide (u64 (alloced + 1) = npages) then mret (inl start)
      else alloc_scan rounds z npages (index + 1) start (u64 (alloced + 1))
  end.

(** [loop() { for ... }]: [alloced] is not reset between scans.  [passes] bounds
    the number of scans. *)
Fixpoint alloc_loop (passes : nat) (z : mm_zone) (gfp npages alloced : Z) : M (pmm H) (option Z) :=
  match passes with
  | O => halt OutOfFuel
  | S passes =>
      r ← alloc_scan (Z.to_nat (z_nrpages z)) z npages 0 0 alloced;
      match r with
      | inl start => mret (Some start)
      | inr alloced =>
          if negb (has_bit gfp GFP_WAIT) && negb (has_bit gfp GFP_RETRY) then mret None
          else alloc_loop passes z gfp npages alloced
      end
  end.

Fixpoint alloc_take (n : nat) (i : nat) (p : ptr) : M (pmm H) unit :=
  match n with
  | O => mret tt
  | S n =>
      pg_upd p (page_setmmzone (Z.of_nat i));;
      pg_upd p (λ g, set_refcnt (u64 (pg_refcnt g + 1)) g);;
      zone_upd i (λ z, zset_free (u64 (z_free z - 1)) z);;
      alloc_take n i (u64 (p + PAGE_T))
  end.

(** Clearing one frame.  In the high zone a running thread jumps back to [map:]
    for ever. *)
Definition alloc_zero1 (i : nat) (paddr : Z) : M (pmm H) unit :=
  if decide (i = MM_ZONE_HIGH) then
    cur ← gets (λ s, current_thread (p_mach s));
    if (cur : bool) then halt OutOfFuel else
    vaddr ← machr (arch_mount paddr);
    if decide (vaddr = 0) then mret tt else mach (memset_frame vaddr);; mach (arch_unmount vaddr)
  else mach (memset_frame (VMA2HI paddr)).

Fixpoint alloc_zero (n : nat) (i : nat) (z : mm_zone) (index : Z) : M (pmm H) unit :=
  match n with
  | O => mret tt
  | S n => alloc_zero1 i (u64 (z_start z + index * PGSZ));; alloc_zero n i z (index + 1)
  end.

Definition alloc_pages (passes : nat) (gfp order : Z) : M (pmm H) ptr :=
  let npages := u64 (Z.shiftl 1 order) in
  let where_ := if decide (Z.land gfp 15 = 0) then 1 else Z.land gfp 15 - 1 in
  zo ← mm_zone_get where_;
  match zo with
  | None => mret NULL
  | Some i =>
      z ← zone i;
      r ← alloc_loop passes z gfp npages 0;
      match r with
      | None => mm_zone_unlock i;; mret NULL
      | Some start =>
          let page := page_at z start in
          alloc_take (Z.to_nat npages) i page;;
          when (has_bit gfp GFP_ZERO) (alloc_zero (Z.to_nat npages) i z start);;
          mm_zone_unlock i;;
          mret page
      end
  end.

Definition alloc_page (passes : nat) (gfp : Z) : M (pmm H) ptr := alloc_pages passes gfp 0.

(** [index > nrpages] lets the index one past the array through. *)
Definition page_address (page : ptr) : M (pmm H) Z :=
  if decide (page = NULL) then mret 0 else
  p ← pg page;
  zo ← mm_zone_get (s32 (pg_mmzone p));
  match zo with
  | None => mret 0
  | Some i =>
      z ← zone i;
      let index := Z.quot (s64 (page - z_pages z)) PAGE_T in
      if decide (index < 0 ∨ index > z_nrpages z) then mm_zone_unlock i;; mret 0
      else mm_zone_unlock i;; mret (u64 (z_start z + index * PGSZ))
  end.

(** The page of a physical address inside a locked zone. *)
Definition page_of (z : mm_zone) (addr : Z) : ptr := page_at z (u64 (addr - z_start z) / PGSZ).

(** [atomic_inc] returns the value before the increment. *)
Definition page_incr_addr (addr : Z) : M (pmm H) Z :=
  if decide (addr = 0) then halt Panic else
  zo ← get_mmzone addr PGSZ;
  match zo with
  | None => mret (u64 (- EADDRNOTAVAIL))
  | Some i =>
      z ← zone i;
      p ← pg (page_of z addr);
      pg_upd (page_of z addr) (λ g, set_refcnt (u64 (pg_refcnt g + 1)) g);;
      mm_zone_unlock i;;
      mret (pg_refcnt p)
  end.

Definition page_incr (page : ptr) : M (pmm H) Z := a ← page_address page; page_incr_addr a.

Definition page_count_addr (addr : Z) : M (pmm H) Z :=
  if decide (addr = 0) then halt Panic else
  zo ← get_mmzone addr PGSZ;
  match zo with
  | None => mret (u64 (- EADDRNOTAVAIL))
  | Some i =>
      z ← zone i;
      p ← pg (page_of z addr);
      mm_zone_unlock i;;
      mret (pg_refcnt p)
  end.

(** The address is negated before the call. *)
Definition page_count (page : ptr) : M (pmm H) Z := a ← page_address page; page_count_addr (u64 (- a)).

Definition get_free_pages (passes : nat) (gfp order : Z) : M (pmm H) Z :=
  p ← alloc_pages passes gfp order; page_address p.
Definition get_free_page (passes : nat) (gfp : Z) : M (pmm H) Z := get_free_pages passes gfp 0.

Fixpoint pages_put_loop (n : nat) (i : nat) (p : ptr) : M (pmm H) unit :=
  match n with
  | O => mret tt
  | S n =>
      g ← pg p;
      (if decide (pg_refcnt g = 0) then mret tt else
       pg_upd p (λ g, set_refcnt (u64 (pg_refcnt g - 1)) g);;
       g ← pg p;
       when (bool_decide (pg_refcnt g = 0)) (
         pg_upd p page_reset;;
         zone_upd i (λ z, zset_free (u64 (z_free z + 1)) z)));;
      pages_put_loop n i (u64 (p + PAGE_T))
  end.

Definition pages_put_addr (addr order : Z) : M (pmm H) unit :=
  let npages := u64 (Z.shiftl 1 order) in
  if decide (addr = 0) then halt Panic else
  zo ← get_mmzone addr (u64 (npages * PGSZ));
  match zo with
  | None => mret tt
  | Some i =>
      z ← zone i;
      pages_put_loop (Z.to_nat npages) i (page_of z addr);;
      mm_zone_unlock i
  end.

Definition pages_put (page : ptr) (order : Z) : M (pmm H) unit := a ← page_address page; pages_put_addr a order.
Definition page_put (page : ptr) : M (pmm H) unit := pages_put page 0.
Definition page_put_addr (addr : Z) : M (pmm H) unit := pages_put_addr addr 0.

Definition mm_alloc (passes : nat) : M (pmm H) Z := get_free_page passes GFP_NORMAL.
Definition mm_free (addr : Z) : M (pmm H) unit := page_put_addr addr.

(** The loops of [mem_free] and [mem_used] over the zones. *)
Fixpoint mem_sum (rounds i : nat) (f : mm_zone -> Z) (size : Z) : M (pmm H) Z :=
  match rounds with
  | O => mret (size / 1024)
  | S rounds =>
      mm_zone_lock i;;
      ok ← mm_zone_isvalid i;
      z ← zone i;
      mm_zone_unlock i;;
      mem_sum rounds (S i) f (if (ok : bool) then u64 (size + f z * PGSZ) else size)
  end.
Definition mem_free : M (pmm H) Z := mem_sum NZONE MM_ZONE_DMA z_free 0.
Definition mem_used : M (pmm H) Z := mem_sum NZONE MM_ZONE_DMA (λ z, z_nrpages z - z_free z) 0.
End zones.

(** ** Setting up the zones *)

Record mod_t := Mod { mod_addr : Z; mod_size : Z }.
Record mmap_entry := MmapEntry { me_addr : Z; me_size : Z; me_type : Z }.
(** The part of [bootinfo] that is used, and the ends of the kernel image. *)
Record boot := Boot {
  b_memsize : Z;
  b_memhigh : Z;
  b_mods : list mod_t;
  b_mmap : list mmap_entry;
  b_fb_addr : Z;
  b_fb_size : Z;
  b_kernel_start : Z;
  b_kernel_end : Z;
}.
Definition MULTIBOOT_MEMORY_AVAILABLE : Z := 1.

(** A valid zone of [size] bytes from [start] with the page array at [pages]. *)
Definition mk_zone (pages start size : Z) : mm_zone :=
  Zone (PGROUNDUP start) MM_ZONE_VALID pages (size / PGSZ) (size / PGSZ) size false.

(** The zones [enumerate_zones] sets and the value of [zones_size] at [done:].
    [m] is the last boot module; the arrays start behind it.  The array pointer
    is advanced by the size of the zone about to be set, not of the one before
    it. *)
Definition zone_table (b : boot) (m : mod_t) : list mm_zone * Z :=
  let memsize := KiB (b_memsize b) in
  let pages := PGROUNDUP (u64 (mod_addr m + mod_size m)) in
  let dma := mk_zone pages 0 (MiB 16) in
  let memsize := u64 (memsize - MiB 16) in
  let size := Z.min memsize (GiB 2 - MiB 16) in
  let memsize := u64 (memsize - size) in
  let zs := u64 (NPAGE size * PAGE_T) in
  let pages := u64 (pages + zs) in
  let norm := mk_zone pages (MiB 16) size in
  if decide (memsize = 0 ∨ b_memhigh b = 0) then ([dma; norm; zone_zero; zone_zero], zs) else
  let size := Z.min memsize (u64 (KiB (b_memhigh b) + MiB 1 - GiB 2)) in
  let memsize := u64 (memsize - size) in
  let zs := u64 (NPAGE size * PAGE_T) in
  let pages := u64 (pages + zs) in
  let hole := mk_zone pages (GiB 2) size in
  if decide (memsize = 0) then ([dma; norm; hole; zone_zero], zs) else
  let zs := u64 (NPAGE memsize * PAGE_T) in
  let pages := u64 (pages + zs) in
  ([dma; norm; hole; mk_zone pages (GiB 4) memsize], zs).

(** [memset(pages, 0, n * sizeof(page_t))] *)
Fixpoint zero_pages (n : nat) (p : ptr) (m : gmap ptr page_t) : gmap ptr page_t :=
  match n with
  | O => m
  | S n => zero_pages n (u64 (p + PAGE_T)) (<[p := page_zero]> m)
  end.

Section init.
Context {H : Type} {PM : PhysMem H}.

Definition enumerate_zones (b : boot) : M (pmm H) Z := λ s,
  match last (b_mods b) with
  | None => Stop BadAccess
  | Some m =>
      let t := zone_table b m in
      let pages := z_pages (default zone_zero (head t.1)) in
      Ok 0 (Pmm t.1 (zero_pages (Z.to_nat (t.2 / PAGE_T)) pages (p_pages s)) (p_mach s))
  end.

(** [atomic_write(&page->pg_refcnt, 1); page_setmmzone(...); page_setrwx(page);] *)
Definition mark_used (i : nat) (p : ptr) : M (pmm H) unit :=
  pg_upd p (set_refcnt 1);; pg_upd p (page_setmmzone (Z.of_nat i));; pg_upd p (page_setflags PG_RWX).

Fixpoint mark_range (n : nat) (i : nat) (z : mm_zone) (index : Z) : M (pmm H) unit :=
  match n with
  | O => mret tt
  | S n => mark_used i (page_at z index);; mark_range n i z (u64 (index + 1))
  end.

(** A range of a zone that is not available: the pages are marked and the
    count of free pages is lowered by their number. *)
Definition reserve (i : nat) (addr size : Z) : M (pmm H) unit :=
  z ← zone i;
  mark_range (Z.to_nat (NPAGE size)) i z (u64 (addr - z_start z) / PGSZ);;
  zone_upd i (λ z, zset_free (u64 (z_free z - NPAGE size)) z);;
  mm_zone_unlock i.

Fixpoint reserve_maps (l : list mmap_entry) : M (pmm H) unit :=
  match l with
  | [] => mret tt
  | e :: l =>
      let addr := VMA2LO (PGROUND (me_addr e)) in
      let size := PGROUNDUP (me_size e) in
      (if decide (me_type e = MULTIBOOT_MEMORY_AVAILABLE) then mret tt else
       zo ← get_mmzone addr size;
       match zo with None => mret tt | Some i => reserve i addr size end);;
      reserve_maps l
  end.

(** The pages of one module, each looked up for itself. *)
Fixpoint reserve_module (n : nat) (addr : Z) : M (pmm H) unit :=
  match n with
  | O => mret tt
  | S n =>
      zo ← get_mmzone addr PGSZ;
      match zo with
      | None => halt BadAccess
      | Some i =>
          zone_upd i (λ z, zset_free (u64 (z_free z - 1)) z);;
          z ← zone i;
          mark_used i (page_at z (u64 (addr - z_start z) / PGSZ));;
          mm_zone_unlock i
      end;;
      reserve_module n (u64 (addr + PGSZ))
  end.

Fixpoint reserve_modules (l : list mod_t) : M (pmm H) unit :=
  match l with
  | [] => mret tt
  | m :: l =>
      reserve_module (Z.to_nat (NPAGE (PGROUNDUP (mod_size m)))) (PGROUND (VMA2LO (mod_addr m)));;
      reserve_modules l
  end.

Definition PTE_KRW : Z := 3.
Definition PTE_PCDWT : Z := 24.

Fixpoint map_devices (l : list mmap_entry) : M (pmm H) unit :=
  match l with
  | [] => mret tt
  | e :: l =>
      when (bool_decide (me_type e ≠ MULTIBOOT_MEMORY_AVAILABLE ∧ VMA2LO (me_addr e) < GiB 4))
        (mach (pm_map_i (PGROUND (me_addr e)) (VMA2LO (PGROUND (me_addr e))) (PGROUNDUP (me_size e))
           (Z.lor PTE_KRW PTE_PCDWT)));;
      map_devices l
  end.

Definition physical_memory_init (b : boot) : M (pmm H) Z :=
  assert_ (bool_decide (b_memsize b / 1024 > 64));;
  err ← enumerate_zones b;
  if decide (err ≠ 0) then mret err else
  reserve_maps (b_mmap b);;
  let addr := PGROUND (VMA2LO (b_kernel_start b)) in
  let size := PGROUNDUP (u64 (VMA2LO (b_kernel_end b) - VMA2LO (b_kernel_start b))) in
  zo ← get_mmzone addr size;
  match zo with
  | None => halt Panic
  | Some i =>
      z ← zone i;
      assert_ (bool_decide (u64 (addr + size) < u64 (z_size z - u64 (addr + size))));;
      reserve i addr size
  end;;
  reserve_modules (b_mods b);;
  n ← zone MM_ZONE_NORM;
  let size := u64 (GiB 2 - PGROUNDUP (z_size n)) in
  when (bool_decide (s64 size > 0)) (mach (pm_unmap_n (VMA2HI (PGROUNDUP (z_size n))) size));;
  map_devices (b_mmap b);;
  mach (pm_map_i (b_fb_addr b) (VMA2LO (b_fb_addr b)) (b_fb_size b) (Z.lor PTE_KRW PTE_PCDWT));;
  mret 0.
End init.
