(* ===== verification/ZoneSpec.v ===== *)
(** * The page allocator against lists of reference counts

    [zrep s i z l]: the zone [i] of the state [s] is [z] and the reference
    counts of its page frames are the list [l].  A page is free when its count
    is 0, and the zone's [free_pages] is the number of zeros in [l].  The
    theorems say which pages [alloc_pages] takes, what [__pages_put] gives
    back, and that the bookkeeping stays exact. *)

From S2P Require Import Prelude Zone.

Definition nfree (l : list Z) : Z := Z.of_nat (length (filter (λ c, c = 0) l)).

Section spec.
Context {H : Type} {PM : PhysMem H}.
Implicit Types (s : pmm H) (l : list Z).

Record zrep s (i : nat) (z : mm_zone) (l : list Z) : Prop := {
  zr_zone : p_zones s !! i = Some z;
  zr_len : Z.of_nat (length l) = z_nrpages z;
  zr_base : 0 < z_pages z ∧ z_pages z + PAGE_T * z_nrpages z < two64;
  zr_range : 0 <= z_start z ∧ z_start z + z_nrpages z * PGSZ < two64;
  zr_pages k c : l !! k = Some c ->
    ∃ g, p_pages s !! (z_pages z + PAGE_T * Z.of_nat k) = Some g ∧ pg_refcnt g = c;
  zr_counts : Forall (λ c, 0 <= c < two64) l;
  zr_free : z_free z = nfree l;
}.

Lemma wp_zone s i z (Q : mm_zone -> pmm H -> Prop) : p_zones s !! i = Some z -> Q z s -> wp (zone i) s Q.
Proof. intros Hz HQ. unfold wp, zone. by rewrite Hz. Qed.

Lemma wp_zone_upd s i z f (Q : unit -> pmm H -> Prop) : p_zones s !! i = Some z ->
  Q tt (Pmm (<[i := f z]> (p_zones s)) (p_pages s) (p_mach s)) -> wp (zone_upd i f) s Q.
Proof. intros Hz HQ. unfold wp, zone_upd. by rewrite Hz. Qed.

Lemma wp_pg s p g (Q : page_t -> pmm H -> Prop) : p ≠ NULL -> p_pages s !! p = Some g -> Q g s -> wp (pg p) s Q.
Proof. intros Hp Hg HQ. by apply (wp_load p g). Qed.

Lemma wp_pg_upd s p g f (Q : unit -> pmm H -> Prop) : p ≠ NULL -> p_pages s !! p = Some g ->
  Q tt (Pmm (p_zones s) (<[p := f g]> (p_pages s)) (p_mach s)) -> wp (pg_upd p f) s Q.
Proof. intros Hp Hg HQ. by apply (wp_update p f g). Qed.

(** Locking and unlocking a zone. *)
Definition locked (i : nat) s : pmm H := Pmm (alter (zset_lock true) i (p_zones s)) (p_pages s) (p_mach s).

Lemma zset_lock_id z : z_lock z = false -> zset_lock false (zset_lock true z) = z.
Proof. destruct z. simpl. by intros ->. Qed.

Lemma wp_lock s i z (Q : unit -> pmm H -> Prop) : p_zones s !! i = Some z -> z_lock z = false ->
  Q tt (Pmm (<[i := zset_lock true z]> (p_zones s)) (p_pages s) (p_mach s)) -> wp (mm_zone_lock i) s Q.
Proof.
  intros Hz Hl HQ. unfold mm_zone_lock. wp_step. eapply wp_zone; [done|].
  wp_step. wp_step; [by rewrite Hl|]. by eapply wp_zone_upd.
Qed.

Lemma wp_unlock s i z (Q : unit -> pmm H -> Prop) : p_zones s !! i = Some z -> z_lock z = true ->
  Q tt (Pmm (<[i := zset_lock false z]> (p_zones s)) (p_pages s) (p_mach s)) -> wp (mm_zone_unlock i) s Q.
Proof.
  intros Hz Hl HQ. unfold mm_zone_unlock. wp_step. eapply wp_zone; [done|].
  wp_step. wp_step. by eapply wp_zone_upd.
Qed.

Lemma wp_isvalid s i z (Q : bool -> pmm H -> Prop) : p_zones s !! i = Some z -> z_lock z = true ->
  Q (has_bit (z_flags z) MM_ZONE_VALID) s -> wp (mm_zone_isvalid i) s Q.
Proof.
  intros Hz Hl HQ. unfold mm_zone_isvalid. wp_step. eapply wp_zone; [done|]. wp_step. wp_step. by wp_step.
Qed.

Definition zvalid (z : mm_zone) : Prop := has_bit (z_flags z) MM_ZONE_VALID = true ∧ z_lock z = false.

Lemma wp_mm_zone_get s i z (Q : option nat -> pmm H -> Prop) :
  p_zones s !! i = Some z -> zvalid z -> (i <= 3)%nat ->
  Q (Some i) (Pmm (<[i := zset_lock true z]> (p_zones s)) (p_pages s) (p_mach s)) ->
  wp (mm_zone_get (Z.of_nat i)) s Q.
Proof.
  intros Hz [Hv Hl] Hi HQ. unfold mm_zone_get. rewrite decide_False by lia. rewrite Nat2Z.id.
  assert ((i < length (p_zones s))%nat) by (by apply lookup_lt_is_Some_1; rewrite Hz).
  wp_step. eapply wp_lock; [done|done|]. wp_step.
  eapply wp_isvalid; [simpl; by apply list_lookup_insert_eq|done|]. simpl. rewrite Hv. by wp_step.
Qed.

(** ** Scanning for a run of free pages *)

(** [alloc_scan] as a function of the reference counts. *)
Fixpoint scan (l : list Z) (npages index start alloced : Z) : Z + Z :=
  match l with
  | [] => inr alloced
  | c :: l =>
      if decide (c ≠ 0) then scan l npages (index + 1) (index + 1) 0
      else if decide (alloced + 1 = npages) then inl start
      else scan l npages (index + 1) start (alloced + 1)
  end.

Lemma page_at_eq z k : 0 < z_pages z -> 0 <= k <= z_nrpages z -> z_pages z + PAGE_T * z_nrpages z < two64 ->
  page_at z k = z_pages z + PAGE_T * k.
Proof. intros Hb Hk Hr. unfold page_at. apply u64_small. unfold in_u64, PAGE_T in *. nia. Qed.

Lemma wp_alloc_scan s i z l k npages start alloced (Q : Z + Z -> pmm H -> Prop) :
  zrep s i z l -> (k <= length l)%nat -> 0 <= alloced -> alloced + Z.of_nat (length l - k) < two64 ->
  Q (scan (drop k l) npages (Z.of_nat k) start alloced) s ->
  wp (alloc_scan (length l - k) z npages (Z.of_nat k) start alloced) s Q.
Proof.
  intros Hz. remember (length l - k)%nat as n eqn:Hn. revert k start alloced Hn.
  induction n as [|n IH]; intros k start alloced Hn Hk Ha Hw HQ.
  - rewrite drop_ge in HQ by lia. done.
  - destruct (lookup_lt_is_Some_2 l k) as [c Hc]; [lia|].
    destruct (zr_pages _ _ _ _ Hz k c Hc) as (g & Hg & Hgc).
    rewrite (drop_S _ _ _ Hc) in HQ. simpl in HQ |- *.
    pose proof (zr_base _ _ _ _ Hz) as [Hb1 Hb2]. pose proof (zr_len _ _ _ _ Hz) as Hlen.
    rewrite page_at_eq by (done || lia).
    wp_step. eapply wp_pg; [unfold NULL, PAGE_T; lia|exact Hg|]. rewrite Hgc.
    replace (Z.of_nat k + 1) with (Z.of_nat (S k)) in * by lia.
    destruct (decide (c ≠ 0)); [apply IH; [lia|lia|lia|lia|done]|].
    rewrite u64_small by (unfold in_u64; lia).
    destruct (decide (alloced + 1 = npages)); [by wp_step|]. apply IH; [lia|lia|lia|lia|done].
Qed.

(** A run of [n] free pages at [st]. *)
Definition run_at l (n st : Z) : Prop :=
  0 <= st ∧ st + n <= Z.of_nat (length l) ∧ ∀ k, st <= k < st + n -> l !! Z.to_nat k = Some 0.

Lemma scan_spec l0 l npages index start alloced :
  0 < npages -> 0 <= alloced < npages -> index = Z.of_nat (length l0) -> start = index - alloced -> 0 <= start ->
  (∀ k, start <= k < index -> l0 !! Z.to_nat k = Some 0) ->
  (start = 0 ∨ ∃ c, l0 !! Z.to_nat (start - 1) = Some c ∧ c ≠ 0) ->
  (∀ st, st < start -> ~ run_at (l0 ++ l) npages st) ->
  match scan l npages index start alloced with
  | inl st => run_at (l0 ++ l) npages st ∧ ∀ st', st' < st -> ~ run_at (l0 ++ l) npages st'
  | inr _ => ∀ st, ~ run_at (l0 ++ l) npages st
  end.
Proof.
  revert l0 index start alloced. induction l as [|c l IH]; intros l0 index start alloced Hn Ha Hi Hs Hs0 Hz Hb Hno; simpl.
  - intros st Hrun. destruct (decide (st < start)); [by eapply Hno|].
    destruct Hrun as (_ & Hle & _). rewrite app_nil_r in Hle. lia.
  - replace (l0 ++ c :: l) with ((l0 ++ [c]) ++ l) in * by (by rewrite <- app_assoc).
    assert (Z.of_nat (length (l0 ++ [c])) = index + 1) as Hlen by (rewrite length_app; simpl; lia).
    assert ((l0 ++ [c]) !! Z.to_nat index = Some c) as Hc.
    { rewrite lookup_app_r by lia. replace (Z.to_nat index - length l0)%nat with 0%nat by lia. done. }
    assert (∀ k, start <= k < index -> (l0 ++ [c]) !! Z.to_nat k = Some 0) as Hz'.
    { intros k Hk. rewrite lookup_app_l by lia. by apply Hz. }
    destruct (decide (c ≠ 0)) as [Hcn|Hc0]; [|destruct (decide (alloced + 1 = npages)) as [He|He]].
    + apply IH; try lia.
      * right. exists c. split; [|done]. by replace (index + 1 - 1) with index by lia.
      * intros st Hst Hrun. destruct (decide (st < start)) as [Hlt|Hge]; [by eapply Hno|].
        destruct Hrun as (H0 & Hle & Hall). assert (st <= index < st + npages) as Hin.
        { destruct (decide (index < st + npages)); [lia|]. exfalso. lia. }
        specialize (Hall index Hin). rewrite lookup_app_l in Hall by lia. rewrite Hc in Hall. congruence.
    + split; [|done]. split; [done|]. split; [rewrite length_app; lia|]. intros k Hk.
      rewrite lookup_app_l by lia. destruct (decide (k = index)) as [->|]; [|apply Hz'; lia].
      rewrite Hc. f_equal. destruct (decide (c = 0)); [done|by exfalso; apply Hc0].
    + apply IH; try done; try lia.
      * intros k Hk. destruct (decide (k = index)) as [->|]; [|apply Hz'; lia].
        rewrite Hc. f_equal. destruct (decide (c = 0)); [done|by exfalso; apply Hc0].
      * destruct Hb as [|(d & Hd & Hdn)]; [by left|right]. exists d. split; [|done].
        rewrite lookup_app_l; [done|]. apply lookup_lt_Some in Hd. lia.
Qed.

(** The scan is first fit: it finds the lowest run of free pages, and reports
    none only when there is none. *)
Lemma scan_first_fit l npages : 0 < npages ->
  match scan l npages 0 0 0 with
  | inl st => run_at l npages st ∧ ∀ st', st' < st -> ~ run_at l npages st'
  | inr _ => ∀ st, ~ run_at l npages st
  end.
Proof.
  intros Hn. apply (scan_spec [] l npages 0 0 0); [done|lia|done|lia|lia| |by left|].
  - intros k Hk. lia.
  - intros st Hst (? & _). lia.
Qed.

(** ** Changing one reference count *)

Definition is0 (c : Z) : Z := if decide (c = 0) then 1 else 0.

Lemma nfree_app l1 l2 : nfree (l1 ++ l2) = nfree l1 + nfree l2.
Proof. unfold nfree. rewrite filter_app, length_app. lia. Qed.

Lemma nfree_cons c l : nfree (c :: l) = is0 c + nfree l.
Proof. unfold nfree, is0. rewrite filter_cons. case_decide; simpl; lia. Qed.

Lemma nfree_insert l k c c' : l !! k = Some c -> nfree (<[k := c']> l) = nfree l - is0 c + is0 c'.
Proof.
  intros Hk. pose proof (take_drop_middle l k c Hk) as Hl.
  rewrite (insert_take_drop l k c') by (by eapply lookup_lt_Some).
  rewrite <- Hl at 3. rewrite !nfree_app, !nfree_cons. lia.
Qed.

Lemma nfree_bound l : 0 <= nfree l <= Z.of_nat (length l).
Proof. unfold nfree. pose proof (length_filter (λ c, c = 0) l). lia. Qed.

Lemma nfree_pos l k : l !! k = Some 0 -> 0 < nfree l.
Proof.
  intros Hk. rewrite <- (take_drop_middle l k 0 Hk), nfree_app, nfree_cons. unfold is0. rewrite decide_True by done.
  pose proof (nfree_bound (take k l)). pose proof (nfree_bound (drop (S k) l)). lia.
Qed.

Lemma zrep_set s i z l k c c' g' f mach' :
  zrep s i z l -> l !! k = Some c -> pg_refcnt g' = c' -> 0 <= c' < two64 -> f = z_free z - is0 c + is0 c' ->
  zrep (Pmm (<[i := zset_free f z]> (p_zones s)) (<[z_pages z + PAGE_T * Z.of_nat k := g']> (p_pages s)) mach')
    i (zset_free f z) (<[k := c']> l).
Proof.
  intros [Hz Hl Hb Hr Hp Hc Hf] Hk Hg Hc' ->. constructor; simpl; try done.
  - rewrite list_lookup_insert_eq; [done|]. apply lookup_lt_is_Some_1. by rewrite Hz.
  - by rewrite length_insert.
  - intros j d Hj. destruct (decide (j = k)) as [->|Hne].
    + rewrite list_lookup_insert_eq in Hj by (by eapply lookup_lt_Some). injection Hj as <-.
      exists g'. split; [apply lookup_insert_eq|done].
    + rewrite list_lookup_insert_ne in Hj by done. destruct (Hp j d Hj) as (g & Hgj & Hgd).
      exists g. split; [|done]. rewrite lookup_insert_ne; [done|]. unfold PAGE_T. lia.
  - by apply Forall_insert.
  - rewrite Hf. symmetry. by apply nfree_insert.
Qed.

(** [s'] differs from [s] in the zone [i], the page entries [lo], ...,
    [lo + n - 1] of its array [z] and the machine only. *)
Definition zlocal (i : nat) (z : mm_zone) (lo n : nat) s s' : Prop :=
  (∀ q, (∀ k, (lo <= k < lo + n)%nat -> q ≠ z_pages z + PAGE_T * Z.of_nat k) -> p_pages s' !! q = p_pages s !! q) ∧
  (∀ j, j ≠ i -> p_zones s' !! j = p_zones s !! j).

Fixpoint taken (n k : nat) (l : list Z) : list Z :=
  match n with O => l | S n => taken n (S k) (<[k := 1]> l) end.

Lemma taken_lookup n k l j : (k + n <= length l)%nat ->
  taken n k l !! j = if decide (k <= j < k + n)%nat then Some 1 else l !! j.
Proof.
  revert k l. induction n as [|n IH]; intros k l Hl; simpl.
  - by rewrite decide_False by lia.
  - rewrite IH by (rewrite length_insert; lia). destruct (decide (j = k)) as [->|Hne].
    + rewrite decide_False by lia. rewrite decide_True by lia. apply list_lookup_insert_eq. lia.
    + rewrite list_lookup_insert_ne by done.
      destruct (decide (S k <= j < S k + n)%nat), (decide (k <= j < k + S n)%nat); done || lia.
Qed.

Lemma taken_length n k l : length (taken n k l) = length l.
Proof. revert k l. induction n as [|n IH]; intros k l; simpl; [done|]. by rewrite IH, length_insert. Qed.

Lemma page_next z k n : 0 < z_pages z -> z_pages z + PAGE_T * n < two64 -> 0 <= k < n ->
  u64 (z_pages z + PAGE_T * k + PAGE_T) = z_pages z + PAGE_T * (k + 1).
Proof. intros H1 H2 H3. rewrite u64_small; unfold in_u64, PAGE_T in *; nia. Qed.

(** The page entries [lo], ..., [lo + n - 1] name the zone they belong to. *)
Definition owned s (i : nat) (z : mm_zone) (lo n : nat) : Prop :=
  ∀ k, (lo <= k < lo + n)%nat ->
    ∃ g, p_pages s !! (z_pages z + PAGE_T * Z.of_nat k) = Some g ∧ pg_mmzone g = Z.of_nat i.

Lemma wp_alloc_take n s i z l k (Q : unit -> pmm H -> Prop) :
  zrep s i z l -> (k + n <= length l)%nat -> (∀ j, (k <= j < k + n)%nat -> l !! j = Some 0) ->
  (∀ s', zrep s' i (zset_free (z_free z - Z.of_nat n) z) (taken n k l) -> zlocal i z k n s s' ->
     p_mach s' = p_mach s -> owned s' i z k n -> Q tt s') ->
  wp (alloc_take n i (z_pages z + PAGE_T * Z.of_nat k)) s Q.
Proof.
  revert s z l k. induction n as [|n IH]; intros s z l k Hz Hlen Hrun HQ; simpl.
  - wp_step. apply HQ; [|done|done|intros j Hj; lia]. rewrite Z.sub_0_r. by destruct z.
  - assert (l !! k = Some 0) as Hk by (apply Hrun; lia).
    pose proof (zr_zone _ _ _ _ Hz) as Hzi. pose proof (zr_base _ _ _ _ Hz) as [Hb1 Hb2].
    pose proof (zr_len _ _ _ _ Hz) as Hl. pose proof (zr_free _ _ _ _ Hz) as Hf.
    destruct (zr_pages _ _ _ _ Hz k 0 Hk) as (g & Hg & Hg0).
    assert (z_pages z + PAGE_T * Z.of_nat k ≠ NULL) as Hnn by (unfold NULL, PAGE_T; lia).
    pose proof (nfree_pos _ _ Hk). pose proof (nfree_bound l).
    wp_step. eapply wp_pg_upd; [done|exact Hg|].
    wp_step. eapply wp_pg_upd; [done|simpl; apply lookup_insert_eq|]. simpl. rewrite insert_insert_eq.
    wp_step. eapply wp_zone_upd; [exact Hzi|]. simpl. rewrite Hg0.
    rewrite (u64_small (z_free z - 1)) by (unfold in_u64, PAGE_T in *; lia).
    rewrite (page_next z _ (z_nrpages z)) by (done || lia).
    replace (Z.of_nat k + 1) with (Z.of_nat (S k)) by lia.
    set (g' := set_refcnt _ _). set (f := z_free z - 1).
    assert (zrep (Pmm (<[i := zset_free f z]> (p_zones s)) (<[z_pages z + PAGE_T * Z.of_nat k := g']> (p_pages s)) (p_mach s))
      i (zset_free f z) (<[k := 1]> l)) as Hz1.
    { eapply (zrep_set _ _ _ _ _ 0 1); [done|done|done|done|]. unfold f, is0. simpl. lia. }
    apply (IH _ (zset_free f z) _ (S k) Hz1); [rewrite length_insert; lia| |].
    + intros j Hj. rewrite list_lookup_insert_ne by lia. apply Hrun. lia.
    + intros s' Hz' [Hp Hzs] Hm Hown. apply HQ; [|split|done|].
      * replace (zset_free (z_free z - Z.of_nat (S n)) z)
          with (zset_free (z_free (zset_free f z) - Z.of_nat n) (zset_free f z)); [done|].
        unfold f, zset_free. simpl. f_equal. lia.
      * intros q Hq. rewrite Hp by (intros j Hj; apply Hq; lia). simpl. apply lookup_insert_ne.
        intros <-. apply (Hq k); [lia|done].
      * intros j Hj. rewrite Hzs by done. simpl. by apply list_lookup_insert_ne.
      * intros j Hj. destruct (decide (j = k)) as [->|]; [|apply Hown; lia].
        exists g'. split; [|done]. rewrite Hp by (intros q Hq; simpl; unfold PAGE_T; lia). simpl. apply lookup_insert_eq.
Qed.

Lemma wp_alloc_zero n s i z index (Q : unit -> pmm H -> Prop) : i ≠ MM_ZONE_HIGH ->
  (∀ h, Q tt (Pmm (p_zones s) (p_pages s) h)) -> wp (alloc_zero n i z index) s Q.
Proof.
  intros Hi. revert s index. induction n as [|n IH]; intros s index HQ; simpl.
  - destruct s. apply wp_ret, HQ.
  - wp_step. unfold alloc_zero1. rewrite decide_False by done. unfold mach. wp_step. by apply IH.
Qed.


(** ** Allocation *)

Definition gfp_zone (gfp : Z) : Z := if decide (Z.land gfp 15 = 0) then 1 else Z.land gfp 15 - 1.
Definition no_wait (gfp : Z) : bool := negb (has_bit gfp GFP_WAIT) && negb (has_bit gfp GFP_RETRY).

Lemma zrep_lock s i z l b h : zrep s i z l ->
  zrep (Pmm (<[i := zset_lock b z]> (p_zones s)) (p_pages s) h) i (zset_lock b z) l.
Proof.
  intros [Hz Hl Hb Hr Hp Hc Hf]. constructor; try done. simpl.
  rewrite list_lookup_insert_eq; [done|]. apply lookup_lt_is_Some_1. by rewrite Hz.
Qed.

Lemma lock_unlock (zs : list mm_zone) i z : zs !! i = Some z -> z_lock z = false ->
  <[i := zset_lock false (zset_lock true z)]> (<[i := zset_lock true z]> zs) = zs.
Proof. intros Hz Hl. rewrite zset_lock_id, list_insert_insert_eq by done. by apply list_insert_id. Qed.

Lemma run_at_nat l n st : run_at l (Z.of_nat n) st -> 0 <= st ∧ (Z.to_nat st + n <= length l)%nat ∧
  ∀ j, (Z.to_nat st <= j < Z.to_nat st + n)%nat -> l !! j = Some 0.
Proof.
  intros (H0 & H1 & H2). split; [done|]. split; [lia|]. intros j Hj.
  rewrite <- (Nat2Z.id j). apply H2. lia.
Qed.

Lemma wp_alloc_pages passes s i z l gfp order (Q : ptr -> pmm H -> Prop) :
  let n := Z.to_nat (2 ^ order) in
  zrep s i z l -> zvalid z -> (i <= 3)%nat -> gfp_zone gfp = Z.of_nat i -> no_wait gfp = true ->
  (has_bit gfp GFP_ZERO = true -> i ≠ MM_ZONE_HIGH) -> 0 <= order <= 62 -> (1 <= passes)%nat ->
  ((∀ st, ~ run_at l (Z.of_nat n) st) -> Q NULL s) ->
  (∀ st s', run_at l (Z.of_nat n) st -> (∀ st', st' < st -> ~ run_at l (Z.of_nat n) st') ->
     zrep s' i (zset_free (z_free z - Z.of_nat n) z) (taken n (Z.to_nat st) l) ->
     zlocal i z (Z.to_nat st) n s s' -> owned s' i z (Z.to_nat st) n -> Q (z_pages z + PAGE_T * st) s') ->
  wp (alloc_pages passes gfp order) s Q.
Proof.
  intros n Hz Hv Hi Hg Hnw Hzero Ho Hp Hno Hyes. pose proof Hv as [_ Hunl].
  pose proof (zr_zone _ _ _ _ Hz) as Hzi. pose proof (zr_len _ _ _ _ Hz) as Hlen.
  pose proof (zr_base _ _ _ _ Hz) as [Hb1 Hb2].
  assert ((i < length (p_zones s))%nat) as Hil by (by apply lookup_lt_is_Some_1; rewrite Hzi).
  assert (0 < 2 ^ order < two64) as Hpow.
  { split; [by apply Z.pow_pos_nonneg; lia|]. apply Z.le_lt_trans with (2 ^ 62); [by apply Z.pow_le_mono_r; lia|done]. }
  unfold alloc_pages. fold (gfp_zone gfp). rewrite Hg, Z.shiftl_1_l, u64_small by (unfold in_u64; lia).
  assert (2 ^ order = Z.of_nat n) as Hn by (unfold n; lia). rewrite Hn, Nat2Z.id.
  wp_step. eapply wp_mm_zone_get; [done|done|done|].
  set (s1 := Pmm _ _ _). assert (zrep s1 i (zset_lock true z) l) as Hz1 by (by apply zrep_lock).
  wp_step. eapply wp_zone; [exact (zr_zone _ _ _ _ Hz1)|].
  destruct passes as [|passes]; [lia|]. wp_step. cbn [alloc_loop z_nrpages zset_lock].
  replace (Z.to_nat (z_nrpages z)) with (length l - 0)%nat by lia.
  wp_step. eapply (wp_alloc_scan s1 i (zset_lock true z) l 0); [done|lia|lia|unfold PAGE_T in *; lia|].
  rewrite drop_0. pose proof (scan_first_fit l (Z.of_nat n) ltac:(lia)) as Hfit. change (Z.of_nat 0) with 0.
  destruct (scan l (Z.of_nat n) 0 0 0) as [st|a].
  - destruct Hfit as [Hrun Hfirst]. destruct (run_at_nat _ _ _ Hrun) as (H0 & Hle & Hall).
    wp_step. rewrite (page_at_eq _ st) by (simpl; done || lia).
    replace (z_pages (zset_lock true z) + PAGE_T * st) with (z_pages (zset_lock true z) + PAGE_T * Z.of_nat (Z.to_nat st)) by (f_equal; f_equal; lia).
    wp_step. eapply wp_alloc_take; [exact Hz1|done|done|]. intros s2 Hz2 Hl2 Hm2 Hown.
    assert (∀ h, zrep (Pmm (<[i := zset_free (z_free z - Z.of_nat n) z]> (p_zones s2)) (p_pages s2) h) i
      (zset_free (z_free z - Z.of_nat n) z) (taken n (Z.to_nat st) l) ∧
      zlocal i z (Z.to_nat st) n s (Pmm (<[i := zset_free (z_free z - Z.of_nat n) z]> (p_zones s2)) (p_pages s2) h)) as Hfin.
    { intros h. split.
      - replace (zset_free (z_free z - Z.of_nat n) z) with (zset_lock false (zset_free (z_free z - Z.of_nat n) (zset_lock true z)))
          by (destruct z; simpl in *; by subst). by apply zrep_lock.
      - destruct Hl2 as [A B]. split; simpl; [exact A|]. intros j Hj. rewrite list_lookup_insert_ne by done.
        rewrite B by done. by apply list_lookup_insert_ne. }
    assert (∀ h, wp (mm_zone_unlock i;; mret (z_pages (zset_lock true z) + PAGE_T * Z.of_nat (Z.to_nat st)))
      (Pmm (p_zones s2) (p_pages s2) h) Q) as Hend.
    { intros h. wp_step. eapply wp_unlock; [exact (zr_zone _ _ _ _ Hz2)|done|]. wp_step.
      replace (zset_lock false _) with (zset_free (z_free z - Z.of_nat n) z) by (destruct z; simpl in *; by subst).
      simpl. rewrite Z2Nat.id by done. by apply Hyes; [done|done|apply Hfin|apply Hfin|exact Hown]. }
    wp_step. apply wp_when; intros Hzf.
    + apply wp_alloc_zero; [by apply Hzero|]. exact Hend.
    + specialize (Hend (p_mach s2)). by destruct s2.
  - fold (no_wait gfp). rewrite Hnw. wp_step. wp_step. eapply wp_unlock; [exact (zr_zone _ _ _ _ Hz1)|done|].
    wp_step. simpl. rewrite (lock_unlock (p_zones s)) by done. destruct s. by apply Hno.
Qed.


(** ** Addresses of pages *)

Lemma wp_page_address s i z l k g (Q : Z -> pmm H -> Prop) :
  zrep s i z l -> zvalid z -> (i <= 3)%nat -> (k < length l)%nat ->
  p_pages s !! (z_pages z + PAGE_T * Z.of_nat k) = Some g -> pg_mmzone g = Z.of_nat i ->
  Q (z_start z + Z.of_nat k * PGSZ) s -> wp (page_address (z_pages z + PAGE_T * Z.of_nat k)) s Q.
Proof.
  intros Hz Hv Hi Hk Hg Hgi HQ. pose proof Hv as [_ Hunl]. pose proof (zr_zone _ _ _ _ Hz) as Hzi.
  pose proof (zr_base _ _ _ _ Hz) as [Hb1 Hb2]. pose proof (zr_len _ _ _ _ Hz) as Hl.
  pose proof (zr_range _ _ _ _ Hz) as [Hr1 Hr2].
  assert ((i < length (p_zones s))%nat) as Hil by (by apply lookup_lt_is_Some_1; rewrite Hzi).
  unfold page_address. rewrite decide_False by (unfold NULL, PAGE_T; lia).
  wp_step. eapply wp_pg; [unfold NULL, PAGE_T; lia|exact Hg|]. rewrite Hgi.
  assert (s32 (Z.of_nat i) = Z.of_nat i) as ->.
  { unfold s32, u32. rewrite Z.mod_small by lia. by rewrite decide_True by lia. }
  wp_step. eapply wp_mm_zone_get; [done|done|done|].
  wp_step. eapply wp_zone; [simpl; by apply list_lookup_insert_eq|]. cbn [z_pages z_nrpages z_start zset_lock].
  replace (z_pages z + PAGE_T * Z.of_nat k - z_pages z) with (Z.of_nat k * PAGE_T) by lia.
  assert (s64 (Z.of_nat k * PAGE_T) = Z.of_nat k * PAGE_T) as ->.
  { unfold s64. rewrite u64_small by (unfold in_u64, two64, PAGE_T in *; lia).
    rewrite decide_True; [done|]. unfold PAGE_T, PGSZ, two64 in *. lia. }
  rewrite Z.quot_mul by done. rewrite decide_False by lia.
  wp_step. eapply wp_unlock; [simpl; by apply list_lookup_insert_eq|done|]. wp_step. simpl.
  rewrite (lock_unlock (p_zones s)) by done. rewrite u64_small by (unfold in_u64, PGSZ in *; nia). by destruct s.
Qed.

(** ** Releasing pages *)

Definition put1 (c : Z) : Z := if decide (c = 0) then 0 else c - 1.
Fixpoint putl (n k : nat) (l : list Z) : list Z :=
  match n with O => l | S n => putl n (S k) (alter put1 k l) end.

Lemma alter_insert_list (f : Z -> Z) k l c : l !! k = Some c -> alter f k l = <[k := f c]> l.
Proof.
  revert k. induction l as [|d l IH]; intros [|k]; simpl; try done; [by intros [= ->]|].
  intros Hk. unfold alter in IH. f_equal. by apply IH.
Qed.

Lemma wp_pages_put_loop n s i z l k (Q : unit -> pmm H -> Prop) :
  zrep s i z l -> (k + n <= length l)%nat ->
  (∀ s', zrep s' i (zset_free (nfree (putl n k l)) z) (putl n k l) -> zlocal i z k n s s' -> Q tt s') ->
  wp (pages_put_loop n i (z_pages z + PAGE_T * Z.of_nat k)) s Q.
Proof.
  revert s z l k. induction n as [|n IH]; intros s z l k Hz Hlen HQ; simpl.
  - wp_step. apply HQ; [|done]. change (putl 0 k l) with l. rewrite <- (zr_free _ _ _ _ Hz). by destruct z.
  - destruct (lookup_lt_is_Some_2 l k) as [c Hk]; [lia|].
    pose proof (zr_zone _ _ _ _ Hz) as Hzi. pose proof (zr_base _ _ _ _ Hz) as [Hb1 Hb2].
    pose proof (zr_len _ _ _ _ Hz) as Hl. pose proof (zr_free _ _ _ _ Hz) as Hf.
    destruct (zr_pages _ _ _ _ Hz k c Hk) as (g & Hg & Hgc).
    assert (0 <= c < two64) as Hc.
    { pose proof (zr_counts _ _ _ _ Hz) as Hfa. rewrite Forall_lookup in Hfa. by eapply Hfa. }
    assert (z_pages z + PAGE_T * Z.of_nat k ≠ NULL) as Hnn by (unfold NULL, PAGE_T; lia).
    pose proof (nfree_bound l) as Hnb. pose proof (nfree_insert l k c (put1 c) Hk) as Hni.
    assert (alter put1 k l = <[k := put1 c]> l) as Halt by (by apply alter_insert_list).
    cbn [putl] in HQ. rewrite Halt in HQ.
    (* what is left after this page *)
    assert (∀ g', pg_refcnt g' = put1 c ->
      wp (pages_put_loop n i (u64 (z_pages z + PAGE_T * Z.of_nat k + PAGE_T)))
        (Pmm (<[i := zset_free (nfree (<[k := put1 c]> l)) z]> (p_zones s))
             (<[z_pages z + PAGE_T * Z.of_nat k := g']> (p_pages s)) (p_mach s)) Q) as Hrest.
    { intros g' Hg'. rewrite (page_next z _ (z_nrpages z)) by (done || lia).
      replace (Z.of_nat k + 1) with (Z.of_nat (S k)) by lia.
      assert (0 <= put1 c < two64) by (unfold put1; case_decide; lia).
      pose proof (zrep_set s i z l k c (put1 c) g' (nfree (<[k := put1 c]> l)) (p_mach s) Hz Hk Hg' ltac:(done) ltac:(by rewrite Hni, Hf)) as Hz1.
      apply (IH _ _ _ (S k) Hz1); [rewrite length_insert; lia|]. intros s' Hz' [A B]. apply HQ; [done|]. split.
      - intros q Hq. rewrite A by (intros j Hj; apply Hq; lia). simpl. apply lookup_insert_ne.
        intros <-. apply (Hq k); [lia|done].
      - intros j Hj. rewrite B by done. simpl. by apply list_lookup_insert_ne. }
    wp_step. eapply wp_pg; [done|exact Hg|]. rewrite Hgc. wp_step. unfold put1 in Hrest, Hni.
    destruct (decide (c = 0)) as [->|Hcn].
    + wp_step. specialize (Hrest g Hgc). rewrite insert_id in Hrest by done.
      replace (nfree (<[k := 0]> l)) with (z_free z) in Hrest by lia.
      replace (zset_free (z_free z) z) with z in Hrest by (by destruct z). rewrite list_insert_id in Hrest by done. by destruct s.
    + wp_step. eapply wp_pg_upd; [done|exact Hg|]. rewrite Hgc, (u64_small (c - 1)) by (unfold in_u64; lia).
      wp_step. eapply wp_pg; [done|simpl; apply lookup_insert_eq|]. simpl.
      unfold is0 in Hni. rewrite decide_False in Hni by done. case_bool_decide as H1; simpl.
      * wp_step. eapply wp_pg_upd; [done|simpl; apply lookup_insert_eq|]. simpl. rewrite insert_insert_eq.
        eapply wp_zone_upd; [exact Hzi|]. simpl. rewrite H1 in *. rewrite decide_True in Hni by done.
        rewrite (u64_small (z_free z + 1)) by (unfold in_u64, PAGE_T in *; lia).
        replace (z_free z + 1) with (nfree (<[k := 0]> l)) by lia. by apply Hrest.
      * rewrite decide_False in Hni by done.
        specialize (Hrest (set_refcnt (c - 1) g) eq_refl).
        replace (nfree (<[k := c - 1]> l)) with (z_free z) in Hrest by lia.
        replace (zset_free (z_free z) z) with z in Hrest by (by destruct z). by rewrite list_insert_id in Hrest.
Qed.

(** ** Zone lookup by address *)

Definition in_zone (z : mm_zone) (addr size : Z) : Prop :=
  addr >= z_start z ∧ u64 (addr + u64 (size - 1)) < u64 (z_start z + z_nrpages z * PGSZ).

(** The zone [i] is the first one that holds the whole range. *)
Definition zone_for s (addr size : Z) (i : nat) : Prop :=
  (∃ z, p_zones s !! i = Some z ∧ in_zone z addr size) ∧
  ∀ j, (j < i)%nat -> ∃ y, p_zones s !! j = Some y ∧ ~ in_zone y addr size.

Lemma wp_get_mmzone_loop rounds s addr size i j z (Q : option nat -> pmm H -> Prop) :
  zone_for s addr size i -> p_zones s !! i = Some z -> zvalid z -> (j <= i < j + rounds)%nat ->
  Q (Some i) (Pmm (<[i := zset_lock true z]> (p_zones s)) (p_pages s) (p_mach s)) ->
  wp (get_mmzone_loop rounds j addr size) s Q.
Proof.
  intros [(z' & Hz' & Hin) Hbefore] Hz [Hv Hl]. rewrite Hz in Hz'. injection Hz' as <-. revert j.
  induction rounds as [|rounds IH]; intros j Hj HQ; [lia|]. simpl. wp_step.
  destruct (decide (j = i)) as [->|Hne].
  - assert ((i < length (p_zones s))%nat) as Hil by (by apply lookup_lt_is_Some_1; rewrite Hz).
    eapply wp_zone; [exact Hz|]. rewrite decide_True by done. wp_step. eapply wp_lock; [done|done|].
    wp_step. eapply wp_isvalid; [simpl; by apply list_lookup_insert_eq|done|]. simpl. rewrite Hv. by wp_step.
  - destruct (Hbefore j) as (y & Hy & Hny); [lia|]. eapply wp_zone; [exact Hy|].
    rewrite decide_False by done. apply IH; [lia|done].
Qed.

Lemma wp_get_mmzone s addr size i z (Q : option nat -> pmm H -> Prop) :
  zone_for s addr size i -> p_zones s !! i = Some z -> zvalid z -> (i <= 3)%nat ->
  Q (Some i) (Pmm (<[i := zset_lock true z]> (p_zones s)) (p_pages s) (p_mach s)) ->
  wp (get_mmzone addr size) s Q.
Proof. intros Hf Hz Hv Hi HQ. eapply wp_get_mmzone_loop; try done. unfold NZONE. lia. Qed.

Lemma page_of_eq z k : 0 < z_pages z -> z_pages z + PAGE_T * z_nrpages z < two64 -> 0 <= z_start z ->
  z_start z + z_nrpages z * PGSZ < two64 -> 0 <= k <= z_nrpages z ->
  page_of z (z_start z + k * PGSZ) = z_pages z + PAGE_T * k.
Proof.
  intros H1 H2 H3 H4 H5. unfold page_of. replace (z_start z + k * PGSZ - z_start z) with (k * PGSZ) by lia.
  rewrite u64_small by (unfold in_u64, PGSZ in *; nia). rewrite Z.div_mul by done. by apply page_at_eq.
Qed.

Lemma pow2_bound order : 0 <= order <= 51 -> 0 < 2 ^ order ∧ 2 ^ order * PGSZ < two64.
Proof.
  intros Ho. split; [apply Z.pow_pos_nonneg; lia|].
  apply Z.le_lt_trans with (2 ^ 51 * PGSZ); [|done]. apply Z.mul_le_mono_nonneg_r; [done|]. by apply Z.pow_le_mono_r; lia.
Qed.

Lemma wp_pages_put_addr s i z l k order (Q : unit -> pmm H -> Prop) :
  let n := Z.to_nat (2 ^ order) in let addr := z_start z + Z.of_nat k * PGSZ in
  zrep s i z l -> zvalid z -> (i <= 3)%nat -> 0 <= order <= 51 -> addr ≠ 0 ->
  zone_for s addr (2 ^ order * PGSZ) i -> (k + n <= length l)%nat ->
  (∀ s', zrep s' i (zset_free (nfree (putl n k l)) z) (putl n k l) -> zlocal i z k n s s' -> Q tt s') ->
  wp (pages_put_addr addr order) s Q.
Proof.
  intros n addr Hz Hv Hi Ho Ha Hfor Hk HQ. pose proof Hv as [_ Hunl]. pose proof (zr_zone _ _ _ _ Hz) as Hzi.
  pose proof (zr_base _ _ _ _ Hz) as [Hb1 Hb2]. pose proof (zr_range _ _ _ _ Hz) as [Hr1 Hr2].
  pose proof (zr_len _ _ _ _ Hz) as Hl. pose proof (pow2_bound order Ho) as [Hp1 Hp2].
  unfold pages_put_addr. rewrite Z.shiftl_1_l, (u64_small (2 ^ order)) by (unfold in_u64, PGSZ in *; lia).
  rewrite u64_small by (unfold in_u64, PGSZ in *; lia). fold n. rewrite decide_False by done.
  wp_step. eapply wp_get_mmzone; [done|done|done|done|].
  set (s1 := Pmm _ _ _). assert (zrep s1 i (zset_lock true z) l) as Hz1 by (by apply zrep_lock).
  wp_step. eapply wp_zone; [exact (zr_zone _ _ _ _ Hz1)|]. wp_step. unfold addr.
  assert (page_of (zset_lock true z) (z_start z + Z.of_nat k * PGSZ) = z_pages (zset_lock true z) + PAGE_T * Z.of_nat k) as ->
    by (apply (page_of_eq (zset_lock true z)); simpl; done || lia).
  eapply wp_pages_put_loop; [exact Hz1|done|]. intros s2 Hz2 [A B].
  eapply wp_unlock; [exact (zr_zone _ _ _ _ Hz2)|done|].
  replace (zset_lock false _) with (zset_free (nfree (putl n k l)) z) by (destruct z; simpl in *; by subst).
  apply HQ.
  - replace (zset_free (nfree (putl n k l)) z) with (zset_lock false (zset_free (nfree (putl n k l)) (zset_lock true z)))
      by (destruct z; simpl in *; by subst). by apply zrep_lock.
  - split; simpl; [exact A|]. intros j Hj. rewrite list_lookup_insert_ne by done. rewrite B by done.
    by apply list_lookup_insert_ne.
Qed.

Lemma putl_lookup n k l j : (k + n <= length l)%nat ->
  putl n k l !! j = if decide (k <= j < k + n)%nat then put1 <$> l !! j else l !! j.
Proof.
  revert k l. induction n as [|n IH]; intros k l Hl; simpl.
  - by rewrite decide_False by lia.
  - rewrite IH by (rewrite length_alter; lia). destruct (decide (j = k)) as [->|Hne].
    + rewrite decide_False by lia. rewrite decide_True by lia. apply list_lookup_alter_eq.
    + rewrite list_lookup_alter_ne by done.
      destruct (decide (S k <= j < S k + n)%nat), (decide (k <= j < k + S n)%nat); done || lia.
Qed.

(** Releasing what was taken gives the counts back. *)
Lemma putl_taken n k l : (k + n <= length l)%nat -> (∀ j, (k <= j < k + n)%nat -> l !! j = Some 0) ->
  putl n k (taken n k l) = l.
Proof.
  intros Hl Hrun. apply list_eq. intros j. rewrite putl_lookup by (by rewrite taken_length).
  rewrite taken_lookup by done. case_decide; [|done]. by rewrite Hrun.
Qed.

(** ** Properties *)

Lemma wp_get_free_pages passes s i z l gfp order (Q : Z -> pmm H -> Prop) :
  let n := Z.to_nat (2 ^ order) in
  zrep s i z l -> zvalid z -> (i <= 3)%nat -> gfp_zone gfp = Z.of_nat i -> no_wait gfp = true ->
  (has_bit gfp GFP_ZERO = true -> i ≠ MM_ZONE_HIGH) -> 0 <= order <= 51 -> (1 <= passes)%nat ->
  ((∀ st, ~ run_at l (Z.of_nat n) st) -> Q 0 s) ->
  (∀ st s', run_at l (Z.of_nat n) st -> (∀ st', st' < st -> ~ run_at l (Z.of_nat n) st') ->
     zrep s' i (zset_free (z_free z - Z.of_nat n) z) (taken n (Z.to_nat st) l) ->
     zlocal i z (Z.to_nat st) n s s' -> Q (z_start z + st * PGSZ) s') ->
  wp (get_free_pages passes gfp order) s Q.
Proof.
  intros n Hz Hv Hi Hg Hnw Hzero Ho Hp Hno Hyes. pose proof (pow2_bound order Ho) as [Hp1 _].
  unfold get_free_pages. wp_step. eapply wp_alloc_pages; try done; try lia.
  intros st s' Hrun Hfirst Hz' Hl' Hown. destruct (run_at_nat _ _ _ Hrun) as (H0 & Hle & _).
  destruct (Hown (Z.to_nat st)) as (g & Hg' & Hgi); [lia|].
  replace (z_pages z + PAGE_T * st) with (z_pages (zset_free (z_free z - Z.of_nat n) z) + PAGE_T * Z.of_nat (Z.to_nat st))
    by (simpl; f_equal; f_equal; lia).
  eapply wp_page_address; [exact Hz'|done|done|rewrite taken_length; lia|exact Hg'|exact Hgi|].
  simpl. rewrite Z2Nat.id by done. by apply Hyes.
Qed.
End spec.

Section properties.
Context {H : Type} {PM : PhysMem H}.
Implicit Types (s : pmm H) (l : list Z).

(** C15. [__get_free_pages] without waiting is first fit: it returns 0 and
    changes nothing when no run of [2^order] consecutive free pages exists in
    the zone, else the physical address of the lowest such run, whose pages now
    have one reference each; the count of free pages drops by [2^order] and no
    other page and no other zone changes. *)
Theorem get_free_pages_first_fit passes s i z l gfp order :
  zrep s i z l -> zvalid z -> (i <= 3)%nat -> gfp_zone gfp = Z.of_nat i -> no_wait gfp = true ->
  (has_bit gfp GFP_ZERO = true -> i ≠ MM_ZONE_HIGH) -> 0 <= order <= 51 -> (1 <= passes)%nat ->
  ∃ a s', get_free_pages passes gfp order s = Ok a s' ∧
    ((a = 0 ∧ s' = s ∧ ∀ st, ~ run_at l (2 ^ order) st) ∨
     ∃ st l', a = z_start z + st * PGSZ ∧ run_at l (2 ^ order) st ∧
       (∀ st', st' < st -> ~ run_at l (2 ^ order) st') ∧
       zrep s' i (zset_free (z_free z - 2 ^ order) z) l' ∧
       (∀ j, l' !! j = if decide (st <= Z.of_nat j < st + 2 ^ order) then Some 1 else l !! j) ∧
       zlocal i z (Z.to_nat st) (Z.to_nat (2 ^ order)) s s').
Proof.
  intros Hz Hv Hi Hg Hnw Hzero Ho Hp. pose proof (pow2_bound order Ho) as [Hp1 _].
  pose (post := λ (a : Z) s', (a = 0 ∧ s' = s ∧ ∀ st, ~ run_at l (2 ^ order) st) ∨
     ∃ st l', a = z_start z + st * PGSZ ∧ run_at l (2 ^ order) st ∧
       (∀ st', st' < st -> ~ run_at l (2 ^ order) st') ∧
       zrep s' i (zset_free (z_free z - 2 ^ order) z) l' ∧
       (∀ j, l' !! j = if decide (st <= Z.of_nat j < st + 2 ^ order) then Some 1 else l !! j) ∧
       zlocal i z (Z.to_nat st) (Z.to_nat (2 ^ order)) s s').
  assert (wp (get_free_pages passes gfp order) s post) as (a & s' & E & Hpost)%wp_run; [|by exists a, s'].
  eapply wp_get_free_pages; try done; rewrite Z2Nat.id by lia.
  - intros Hno. by left.
  - intros st s' Hrun Hfirst Hz' Hl'. right. exists st, (taken (Z.to_nat (2 ^ order)) (Z.to_nat st) l).
    repeat split; try done; try apply Hl'; try apply Hrun; try apply Hz'.
    intros j. destruct Hrun as (H0 & Hle & _). rewrite taken_lookup by lia.
    destruct (decide (Z.to_nat st <= j < Z.to_nat st + Z.to_nat (2 ^ order))%nat),
      (decide (st <= Z.of_nat j < st + 2 ^ order)); done || lia.
Qed.

(** [__pages_put] drops one reference of each of the [2^order] pages from
    the address on (pages without references are skipped); the count of free
    pages is again the number of pages without references, and no other page
    or zone changes. *)
Theorem pages_put_correct s i z l k order :
  zrep s i z l -> zvalid z -> (i <= 3)%nat -> 0 <= order <= 51 ->
  z_start z + Z.of_nat k * PGSZ ≠ 0 -> zone_for s (z_start z + Z.of_nat k * PGSZ) (2 ^ order * PGSZ) i ->
  (k + Z.to_nat (2 ^ order) <= length l)%nat ->
  ∃ s' l', pages_put_addr (z_start z + Z.of_nat k * PGSZ) order s = Ok tt s' ∧
    zrep s' i (zset_free (nfree l') z) l' ∧
    (∀ j, l' !! j = if decide (k <= j < k + Z.to_nat (2 ^ order))%nat then put1 <$> l !! j else l !! j) ∧
    zlocal i z k (Z.to_nat (2 ^ order)) s s'.
Proof.
  intros Hz Hv Hi Ho Ha Hfor Hk.
  assert (wp (pages_put_addr (z_start z + Z.of_nat k * PGSZ) order) s (λ _ s',
    zrep s' i (zset_free (nfree (putl (Z.to_nat (2 ^ order)) k l)) z) (putl (Z.to_nat (2 ^ order)) k l) ∧
    zlocal i z k (Z.to_nat (2 ^ order)) s s')) as ([] & s' & E & Hz' & Hl')%wp_run.
  { by eapply wp_pages_put_addr; eauto. }
  exists s', (putl (Z.to_nat (2 ^ order)) k l). repeat split; try done; try apply Hz'; try apply Hl'.
  intros j. by apply putl_lookup.
Qed.

(** Allocating a run of pages and releasing it restores every reference
    count and the count of free pages. *)
Theorem alloc_put_roundtrip passes s i z l gfp order a s1 :
  zrep s i z l -> zvalid z -> (i <= 3)%nat -> gfp_zone gfp = Z.of_nat i -> no_wait gfp = true ->
  (has_bit gfp GFP_ZERO = true -> i ≠ MM_ZONE_HIGH) -> 0 <= order <= 51 -> (1 <= passes)%nat ->
  get_free_pages passes gfp order s = Ok a s1 -> a ≠ 0 -> zone_for s1 a (2 ^ order * PGSZ) i ->
  ∃ s2, pages_put_addr a order s1 = Ok tt s2 ∧ zrep s2 i z l.
Proof.
  intros Hz Hv Hi Hg Hnw Hzero Ho Hp E Ha Hfor. pose proof (pow2_bound order Ho) as [Hp1 _].
  assert (wp (get_free_pages passes gfp order) s (λ a s1, a ≠ 0 -> zone_for s1 a (2 ^ order * PGSZ) i ->
    wp (pages_put_addr a order) s1 (λ _ s2, zrep s2 i z l))) as Hwp.
  { eapply wp_get_free_pages; try done. intros st s' Hrun _ Hz' _ Hst Hfor'.
    destruct (run_at_nat _ _ _ Hrun) as (H0 & Hle & Hall).
    set (z1 := zset_free (z_free z - Z.of_nat (Z.to_nat (2 ^ order))) z) in Hz'.
    assert (z_start z + st * PGSZ = z_start z1 + Z.of_nat (Z.to_nat st) * PGSZ) as Heq
      by (unfold z1; simpl; rewrite Z2Nat.id by done; done).
    rewrite Heq in Hst, Hfor' |- *.
    eapply wp_pages_put_addr; [exact Hz'|done|done|done|done|done|rewrite taken_length; lia|].
    rewrite putl_taken by done. intros s2 Hz2 _.
    replace (zset_free (nfree l) _) with z in Hz2; [done|].
    rewrite <- (zr_free _ _ _ _ Hz). by destruct z. }
  unfold wp in Hwp at 1. rewrite E in Hwp. pose proof (Hwp Ha Hfor) as (u & s2 & E2 & Hz2)%wp_run.
  exists s2. destruct u. done.
Qed.
Lemma scan_full l npages index start : (∀ c, c ∈ l -> c ≠ 0) -> scan l npages index start 0 = inr 0.
Proof.
  revert index start. induction l as [|c l IH]; intros index start Hall; simpl; [done|].
  rewrite decide_True by (apply Hall; left). apply IH. intros d Hd. apply Hall. by right.
Qed.

Lemma alloc_loop_full passes s i z l gfp npages :
  zrep s i z l -> no_wait gfp = false -> (∀ c, c ∈ l -> c ≠ 0) ->
  alloc_loop passes z gfp npages 0 s = Stop OutOfFuel.
Proof.
  intros Hz Hnw Hall. induction passes as [|passes IH]; [done|]. cbn [alloc_loop].
  pose proof (zr_len _ _ _ _ Hz) as Hl. pose proof (zr_base _ _ _ _ Hz) as [Hb1 Hb2].
  replace (Z.to_nat (z_nrpages z)) with (length l - 0)%nat by lia.
  apply stop_bind. eapply (wp_alloc_scan s i z l 0); [done|lia|lia|unfold PAGE_T in *; lia|].
  rewrite drop_0, scan_full by done. fold (no_wait gfp). by rewrite Hnw.
Qed.

(** A request that may wait ([GFP_WAIT] or [GFP_RETRY]) in a zone without
    free pages never returns: the scan is repeated for ever with the zone lock
    held, however many passes it is given. *)
Theorem alloc_pages_wait_hangs passes s i z l gfp order :
  zrep s i z l -> zvalid z -> (i <= 3)%nat -> gfp_zone gfp = Z.of_nat i -> no_wait gfp = false ->
  (∀ c, c ∈ l -> c ≠ 0) -> alloc_pages passes gfp order s = Stop OutOfFuel.
Proof.
  intros Hz Hv Hi Hg Hnw Hall. unfold alloc_pages. fold (gfp_zone gfp). rewrite Hg.
  apply stop_bind. eapply wp_mm_zone_get; [exact (zr_zone _ _ _ _ Hz)|done|done|].
  set (s1 := Pmm _ _ _). assert (zrep s1 i (zset_lock true z) l) as Hz1 by (by apply zrep_lock).
  apply stop_bind. eapply wp_zone; [exact (zr_zone _ _ _ _ Hz1)|]. apply stop_bind_stop. by eapply alloc_loop_full.
Qed.
End properties.

(** ** Concrete zones *)

#[global] Instance no_machine : PhysMem unit := {|
  memset_frame _ h := h;
  arch_mount _ h := (0, h);
  arch_unmount _ h := h;
  current_thread _ := false;
  pm_unmap_n _ _ h := h;
  pm_map_i _ _ _ _ h := h;
|}.

Definition demo_page (c : Z) : page_t := Page NULL c 0 0 0 1.
(** A NORM zone of four pages from 16 MiB on with the given counts; its page array is
    in the high half, above [VMA_BASE]. *)
Definition demo_zone (f : Z) : mm_zone := Zone 16777216 MM_ZONE_VALID 18446743523955834880 4 f 16384 false.
Definition demo_pmm (f a b c d : Z) : pmm unit :=
  Pmm [zone_zero; demo_zone f; zone_zero; zone_zero]
    (<[18446743523955834880 := demo_page a]> (<[18446743523955834920 := demo_page b]> (<[18446743523955834960 := demo_page c]> {[18446743523955835000 := demo_page d]}))) tt.

Lemma demo_zrep f a b c d : Forall (λ c, 0 <= c < two64) [a; b; c; d] -> f = nfree [a; b; c; d] ->
  zrep (demo_pmm f a b c d) 1 (demo_zone f) [a; b; c; d].
Proof.
  intros Hc Hf. constructor; try done.
  intros k x Hk. destruct k as [|[|[|[|k]]]]; simpl in Hk; try discriminate; injection Hk as <-; eexists; split; reflexivity.
Qed.

Lemma get_free_pages_first_fit_witness : ∃ a s', get_free_pages 1 GFP_NORMAL 1 (demo_pmm 3 0 1 0 0) = Ok a s' ∧ a = 16785408.
Proof.
  destruct (get_free_pages_first_fit 1 (demo_pmm 3 0 1 0 0) 1 (demo_zone 3) [0; 1; 0; 0] GFP_NORMAL 1)
    as (a & s' & E & _); try done; try lia.
  - apply demo_zrep; [by repeat constructor|reflexivity].
  - vm_compute in E. injection E as <- <-. do 2 eexists. split; [vm_compute; reflexivity|reflexivity].
Defined.

Lemma demo_zone_for f a b c d k n : 0 <= k -> 0 < n -> k + n <= 4 ->
  zone_for (demo_pmm f a b c d) (16777216 + k * PGSZ) (n * PGSZ) 1.
Proof.
  intros Hk Hn Hkn. split.
  - exists (demo_zone f). split; [done|]. split; [simpl; unfold PGSZ; lia|]. simpl.
    rewrite (u64_small (n * PGSZ - 1)) by (unfold in_u64, two64, PGSZ; lia).
    rewrite !u64_small by (unfold in_u64, two64, PGSZ; lia). unfold PGSZ. lia.
  - intros j Hj. destruct j; [|lia]. exists zone_zero. split; [done|]. intros [_ Hlt].
    change (u64 (z_start zone_zero + z_nrpages zone_zero * PGSZ)) with 0 in Hlt. pose proof (u64_range (16777216 + k * PGSZ + u64 (n * PGSZ - 1))) as [Hr _]. lia.
Qed.

Lemma pages_put_correct_witness : ∃ s' l', pages_put_addr (16777216 + Z.of_nat 1 * PGSZ) 0 (demo_pmm 2 0 2 1 0) = Ok tt s' ∧
  zrep s' 1 (zset_free (nfree l') (demo_zone 2)) l'.
Proof.
  destruct (pages_put_correct (demo_pmm 2 0 2 1 0) 1 (demo_zone 2) [0; 2; 1; 0] 1 0) as (s' & l' & E & Hz & _).
  - apply demo_zrep; [by repeat constructor|reflexivity].
  - done.
  - lia.
  - lia.
  - unfold PGSZ. simpl. lia.
  - apply (demo_zone_for 2 0 2 1 0 1 1); lia.
  - simpl. lia.
  - exists s', l'. split; [exact E|exact Hz].
Defined.

Lemma alloc_put_roundtrip_witness : ∃ s1 s2, get_free_pages 1 GFP_NORMAL 1 (demo_pmm 3 0 1 0 0) = Ok 16785408 s1 ∧
  pages_put_addr 16785408 1 s1 = Ok tt s2 ∧ zrep s2 1 (demo_zone 3) [0; 1; 0; 0].
Proof.
  destruct (get_free_pages 1 GFP_NORMAL 1 (demo_pmm 3 0 1 0 0)) as [a s1|w] eqn:E; [|by vm_compute in E].
  assert (a = 16785408) as -> by (vm_compute in E; by injection E).
  destruct (alloc_put_roundtrip 1 (demo_pmm 3 0 1 0 0) 1 (demo_zone 3) [0; 1; 0; 0] GFP_NORMAL 1 16785408 s1)
    as (s2 & E2 & Hz2); try done; try lia.
  - apply demo_zrep; [by repeat constructor|reflexivity].
  - vm_compute in E. injection E as <-. split.
    + eexists. split; [reflexivity|]. vm_compute. split; [discriminate|reflexivity].
    + intros j Hj. destruct j; [|lia]. eexists. split; [reflexivity|]. intros [_ Hlt]. vm_compute in Hlt. discriminate.
  - exists s1, s2. split; [reflexivity|]. split; [exact E2|exact Hz2].
Defined.

Lemma alloc_pages_wait_hangs_witness : alloc_pages 7 (Z.lor GFP_NORMAL GFP_WAIT) 0 (demo_pmm 0 1 1 2 1) = Stop OutOfFuel.
Proof.
  apply (alloc_pages_wait_hangs 7 (demo_pmm 0 1 1 2 1) 1 (demo_zone 0) [1; 1; 2; 1]); try done.
  - apply demo_zrep; [by repeat constructor|reflexivity].
  - lia.
  - intros c Hc. repeat (apply elem_of_cons in Hc as [->|Hc]; [lia|]). by apply elem_of_nil in Hc.
Defined.

(** [alloc_pages] does not reset its run length between scans: a request
    for two pages that may wait, in a zone whose only free pages are the first
    and the last one, is answered with the first two pages although the second
    one is in use: it then has two owners. *)
Theorem alloc_pages_retry_shares :
  ∃ s' g, alloc_pages 2 (Z.lor GFP_NORMAL GFP_WAIT) 1 (demo_pmm 2 0 1 1 0) = Ok 18446743523955834880 s' ∧
    ~ run_at [0; 1; 1; 0] 2 0 ∧ p_pages s' !! 18446743523955834920 = Some g ∧ pg_refcnt g = 2.
Proof.
  do 2 eexists. split; [vm_compute; reflexivity|]. split; [|split; [vm_compute; reflexivity|reflexivity]].
  intros (_ & _ & Hall). specialize (Hall 1 ltac:(lia)). vm_compute in Hall. discriminate.
Qed.

(** A machine with 3 GiB of memory and one boot module. *)
Definition boot_3g : boot := Boot 3145728 3144704 [Mod 18446743523957932032 4096] [] 0 0 0 0.

(** [enumerate_zones] makes the page arrays of two zones overlap: with
    3 GiB of memory the first page entry of the HOLE zone is also an entry of
    the NORM zone. *)
Theorem zone_arrays_overlap :
  ∃ norm hole k, (zone_table boot_3g (Mod 18446743523957932032 4096)).1 !! MM_ZONE_NORM = Some norm ∧
    (zone_table boot_3g (Mod 18446743523957932032 4096)).1 !! MM_ZONE_HOLE = Some hole ∧
    0 <= k < z_nrpages norm ∧ 0 < z_nrpages hole ∧ page_at hole 0 = page_at norm k.
Proof.
  do 2 eexists. exists 262144. split; [vm_compute; reflexivity|]. split; [vm_compute; reflexivity|].
  split; [vm_compute; split; [discriminate|reflexivity]|]. split; vm_compute; reflexivity.
Qed.
