(* ===== verification/Hash.v ===== *)
(** * kernel/ds/hash.c: hash tables

    A table is a binary search tree from hash values to chains of nodes.  The
    hash and comparison functions come from a context that the user of the
    table supplies; they are the parameters [ctx] (the context behind a
    pointer) and [compare_strings].  The theorems relate a table to the list
    of data per hash value: insertion appends, search finds the first match
    and deletion removes it. *)

From S2P Require Import Prelude Dll Heap Queue Btree.

(** struct hash_ctx_t: function pointers that may be [NULL] *)
Record hash_ctx_t := HashCtx {
  hash_verify_obj : option (ptr -> ptr -> Z);
  hash_func : option (ptr -> Z);
}.

Section operations.
Context {K : Kmalloc} (ctx : ptr -> hash_ctx_t) (compare_strings : ptr -> ptr -> Z).

Definition ht_ (p : ptr) : M dsheap hash_table_t := load p.
Definition hn (p : ptr) : M dsheap hash_node_t := load p.
Definition hn_upd (p : ptr) (f : hash_node_t -> hash_node_t) : M dsheap unit := update p f.
Definition h_set_lock (b : bool) (t : hash_table_t) : hash_table_t := Htab (h_ctx t) b.

Definition hash_assert (h : ptr) : M dsheap unit := assert_ (bool_decide (h ≠ NULL)).
Definition hash_lock (h : ptr) : M dsheap unit :=
  hash_assert h;; t ← ht_ h; assert_ (negb (h_spinlock t));; update h (h_set_lock true).
Definition hash_unlock (h : ptr) : M dsheap unit :=
  hash_assert h;; t ← ht_ h; assert_ (h_spinlock t);; update h (h_set_lock false).
Definition hash_islocked (h : ptr) : M dsheap bool := hash_assert h;; t ← ht_ h; mret (h_spinlock t).
Definition hash_assert_locked (h : ptr) : M dsheap unit := hash_assert h;; t ← ht_ h; assert_ (h_spinlock t).
(** [hash_ctx(h)] *)
Definition hash_ctx (h : ptr) : M dsheap ptr := hash_assert_locked h;; t ← ht_ h; mret (h_ctx t).
(** [hash_btree(h)]: the tree embedded in the table *)
Definition hash_btree (h : ptr) : M dsheap ptr := hash_assert_locked h;; mret h.
Definition hash_btree_lock (h : ptr) : M dsheap unit := b ← hash_btree h; btree_lock b.
Definition hash_btree_unlock (h : ptr) : M dsheap unit := b ← hash_btree h; btree_unlock b.

Definition hash_init (h c : ptr) : M dsheap unit :=
  update h (λ _ : hash_table_t, Htab c false);;
  modify (λ s, set_btrees (<[h := BTREE_INIT]> (d_btrees s)) s).

(** [hash_func(key)], or the key itself. *)
Definition hash_of (c : hash_ctx_t) (key : ptr) : Z :=
  match hash_func c with Some f => f key | None => key end.

(** The test of the search loops. *)
Definition hash_match (c : hash_ctx_t) (isstring : bool) (key data : ptr) : bool :=
  match hash_verify_obj c with
  | Some v => bool_decide (v key data = 0)
  | None => if isstring then bool_decide (compare_strings data key = 0) else bool_decide (data = key)
  end.

Definition hnode_fuel : M dsheap nat := gets (λ s, S (size (d_hnodes s))).

(** The last node of a chain. *)
Fixpoint hash_tail (fuel : nat) (node tail : ptr) : M dsheap ptr :=
  match fuel with
  | O => halt OutOfFuel
  | S fuel =>
      if decide (node = NULL) then mret tail else
      n ← hn node; hash_tail fuel (hn_next n) node
  end.

(** The first node of a chain whose datum passes the test, or [NULL]. *)
Fixpoint hash_walk (fuel : nat) (test : ptr -> bool) (node : ptr) : M dsheap ptr :=
  match fuel with
  | O => halt OutOfFuel
  | S fuel =>
      if decide (node = NULL) then mret NULL else
      n ← hn node;
      if test (hn_data n) then mret node else hash_walk fuel test (hn_next n)
  end.

Definition hash_insert (h key data : ptr) : M dsheap Z :=
  if decide (h = NULL) then mret (- EINVAL) else
  hash_assert_locked h;;
  c ← hash_ctx h;
  if decide (c = NULL) then mret (- EINVAL) else
  let hsh_key := hash_of (ctx c) key in
  node ← kmalloc (HNode NULL data NULL);
  if decide (node = NULL) then mret (- ENOMEM) else
  hash_btree_lock h;;
  b ← hash_btree h;
  r ← btree_search b hsh_key true;
  err ← (if decide (r.1 = - ENOENT) then btree_insert b hsh_key node
         else if decide (r.1 = 0) then
           fuel ← hnode_fuel;
           tail ← hash_tail fuel (default NULL r.2) NULL;
           hn_upd tail (hn_set_next node);;
           hn_upd node (hn_set_prev tail);;
           mret 0
         else mret r.1);
  hash_btree_unlock h;;
  if decide (err ≠ 0) then kfree hash_node_t node;; mret err else mret 0.

(** The result and the value stored through [pdp]. *)
Definition hash_search (h key : ptr) (isstring pdp : bool) : M dsheap (Z * option ptr) :=
  if decide (h = NULL) then mret (- EINVAL, None) else
  hash_assert_locked h;;
  c ← hash_ctx h;
  if decide (c = NULL) then mret (- EINVAL, None) else
  hash_btree_lock h;;
  b ← hash_btree h;
  r ← btree_search b (hash_of (ctx c) key) true;
  if decide (r.1 = 0) then
    fuel ← hnode_fuel;
    node ← hash_walk fuel (hash_match (ctx c) isstring key) (default NULL r.2);
    if decide (node = NULL) then hash_btree_unlock h;; mret (- ENOENT, None) else
    n ← hn node;
    hash_btree_unlock h;;
    mret (0, if pdp then Some (hn_data n) else None)
  else hash_btree_unlock h;; mret (r.1, None).

Definition hash_delete (h key : ptr) (isstring : bool) : M dsheap Z :=
  if decide (h = NULL) then mret (- EINVAL) else
  hash_assert_locked h;;
  c ← hash_ctx h;
  if decide (c = NULL) then mret (- EINVAL) else
  let hsh_key := hash_of (ctx c) key in
  hash_btree_lock h;;
  b ← hash_btree h;
  r ← btree_search b hsh_key true;
  if decide (r.1 = 0) then
    fuel ← hnode_fuel;
    let head := default NULL r.2 in
    target ← hash_walk fuel (hash_match (ctx c) isstring key) head;
    if decide (target = NULL) then hash_btree_unlock h;; mret (- ENOENT) else
    t ← hn target;
    let prev := hn_prev t in
    let next := hn_next t in
    when (bool_decide (next ≠ NULL)) (hn_upd next (hn_set_prev prev));;
    when (bool_decide (prev ≠ NULL)) (hn_upd prev (hn_set_next next));;
    err ← (if decide (target = head) then
             btree_delete b hsh_key;;
             if decide (next ≠ NULL) then
               n ← hn next;
               btree_insert b (hash_of (ctx c) (hn_data n)) next
             else mret 0
           else mret 0);
    if decide (err ≠ 0) then hash_btree_unlock h;; mret err else
    hash_btree_unlock h;;
    kfree hash_node_t target;;
    mret 0
  else hash_btree_unlock h;; mret r.1.

(** [forlinked(node, hnode, node->hn_next) enqueue(queue, node->hn_data, 1, NULL)] *)
Fixpoint hash_enqueue_chain (fuel : nat) (node queue : ptr) : M dsheap Z :=
  match fuel with
  | O => halt OutOfFuel
  | S fuel =>
      if decide (node = NULL) then mret 0 else
      n ← hn node;
      r ← enqueue queue (hn_data n) true false;
      if decide (r.1 ≠ 0) then mret r.1 else
      n ← hn node;
      hash_enqueue_chain fuel (hn_next n) queue
  end.

(** The results of the two recursive calls are dropped. *)
Fixpoint hash_traverse_btree_node (fuel : nat) (tree queue : ptr) : M dsheap Z :=
  match fuel with
  | O => halt OutOfFuel
  | S fuel =>
      queue_assert_locked queue;;
      if decide (queue = NULL) then mret (- EINVAL) else
      if decide (tree = NULL) then mret 0 else
      n ← bnode tree;
      btree_assert_locked (bn_btree n);;
      hash_traverse_btree_node fuel (bn_left n) queue;;
      n ← bnode tree;
      hfuel ← hnode_fuel;
      err ← hash_enqueue_chain hfuel (bn_data n) queue;
      if decide (err ≠ 0) then mret err else
      n ← bnode tree;
      hash_traverse_btree_node fuel (bn_right n) queue;;
      mret 0
  end.

Definition hash_traverse (h queue : ptr) : M dsheap Z :=
  hash_assert_locked h;;
  queue_assert_locked queue;;
  b ← hash_btree h;
  btree_lock b;;
  t ← bt b;
  fuel ← bnode_fuel;
  err ← hash_traverse_btree_node fuel (bt_root t) queue;
  btree_unlock b;;
  mret err.

Definition hash_alloc (c : ptr) (phtp : bool) : M dsheap (Z * option ptr) :=
  if decide (c = NULL ∨ phtp = false) then mret (- EINVAL, None) else
  h ← kmalloc (Htab NULL false);
  if decide (h = NULL) then mret (- ENOMEM, None) else
  hash_init h c;;
  mret (0, Some h).

Definition hash_destroy (h : ptr) : M dsheap unit :=
  l ← hash_islocked h;
  when (negb l) (hash_lock h);;
  hash_unlock h;;
  modify (λ s, set_btrees (delete h (d_btrees s)) s);;
  kfree hash_table_t h.

Definition hash_free (h : ptr) : M dsheap Z :=
  hash_assert_locked h;;
  b ← hash_btree h;
  e ← btree_isempty b;
  if negb e then mret (- ENOTEMPTY) else
  hash_destroy h;;
  mret 0.
End operations.

(** ** A table as lists of data per hash value *)

Abbreviation chain := (list (ptr * ptr)).

(** The chains in memory, apart from the tree. *)
Definition chains_ok (m : gmap ptr hash_node_t) (B : gmap Z chain) : Prop :=
  (∀ k xs, B !! k = Some xs -> xs ≠ [] ∧ dll m (hd_or NULL xs) (last_or NULL xs) xs) ∧
  (∀ k1 k2 xs ys, k1 ≠ k2 -> B !! k1 = Some xs -> B !! k2 = Some ys -> ∀ q, q ∈ addrs xs -> q ∉ addrs ys).

Lemma chains_live m B k xs q : chains_ok m B -> B !! k = Some xs -> q ∈ addrs xs -> q ∈ dom m.
Proof.
  intros [Hc _] Hk ([x d] & -> & Hin)%list_elem_of_fmap. apply elem_of_dom.
  destruct (Hc k xs Hk) as [_ Hd]. by eapply dll_in_heap.
Qed.

(** One chain changes, at its own nodes and at [ps] outside all chains. *)
Lemma chains_set m m' B k xs' (ps : list ptr) :
  chains_ok m B -> xs' ≠ [] -> dll m' (hd_or NULL xs') (last_or NULL xs') xs' ->
  (∀ q, q ∈ addrs xs' -> q ∈ ps ∨ ∃ xs, B !! k = Some xs ∧ q ∈ addrs xs) ->
  (∀ q k' ys, q ∈ ps -> B !! k' = Some ys -> q ∉ addrs ys) ->
  (∀ q k' ys, k' ≠ k -> B !! k' = Some ys -> q ∈ addrs ys -> m' !! q = m !! q) ->
  chains_ok m' (<[k := xs']> B).
Proof.
  intros [Hc Hdis] Hne Hd Hsub Hps Hfr. split.
  - intros k' ys Hy. destruct (decide (k' = k)) as [->|Hk].
    + rewrite lookup_insert_eq in Hy. by injection Hy as <-.
    + rewrite lookup_insert_ne in Hy by done. destruct (Hc k' ys Hy) as [? Hd']. split; [done|].
      eapply dll_frame; [|exact Hd']. intros q Hq. by eapply Hfr.
  - intros k1 k2 ys zs Hk H1 H2 q Hq1 Hq2.
    destruct (decide (k1 = k)) as [->|Hk1]; [|destruct (decide (k2 = k)) as [->|Hk2]].
    + rewrite lookup_insert_eq in H1. injection H1 as <-. rewrite lookup_insert_ne in H2 by done.
      destruct (Hsub q Hq1) as [Hp|(xs & Hx & Hin)]; [by eapply Hps|by eapply (Hdis k k2)].
    + rewrite lookup_insert_eq in H2. injection H2 as <-. rewrite lookup_insert_ne in H1 by done.
      destruct (Hsub q Hq2) as [Hp|(xs & Hx & Hin)]; [by eapply Hps|by eapply (Hdis k k1)].
    + rewrite lookup_insert_ne in H1, H2 by done. by eapply (Hdis k1 k2).
Qed.

Lemma chains_delete m m' B k : chains_ok m B ->
  (∀ q k' ys, k' ≠ k -> B !! k' = Some ys -> q ∈ addrs ys -> m' !! q = m !! q) -> chains_ok m' (delete k B).
Proof.
  intros [Hc Hdis] Hfr. split.
  - intros k' ys Hy. destruct (decide (k' = k)) as [->|Hk]; [by rewrite lookup_delete_eq in Hy|].
    rewrite lookup_delete_ne in Hy by done. destruct (Hc k' ys Hy) as [? Hd]. split; [done|].
    eapply dll_frame; [|exact Hd]. intros q Hq. by eapply Hfr.
  - intros k1 k2 ys zs Hk H1 H2. apply lookup_delete_Some in H1 as [_ H1], H2 as [_ H2]. by eapply Hdis.
Qed.

Lemma chains_frame m m' B : chains_ok m B ->
  (∀ q k ys, B !! k = Some ys -> q ∈ addrs ys -> m' !! q = m !! q) -> chains_ok m' B.
Proof.
  intros [Hc Hdis] Hfr. split; [|done]. intros k ys Hy. destruct (Hc k ys Hy) as [? Hd]. split; [done|].
  eapply dll_frame; [|exact Hd]. intros q Hq. by eapply Hfr.
Qed.

(** The table with its tree locked or not. *)
Record hstate (h : dsheap) (p c : ptr) (lk : bool) (t : tree) (B : gmap Z chain) : Prop := {
  hs_ptr : valid_ptr p;
  hs_ctx : c ≠ NULL;
  hs_tab : d_htabs h !! p = Some (Htab c true);
  hs_tree : btree_rep h p lk t;
  hs_heads k : tmap t !! k = hd_or NULL <$> B !! k;
  hs_chains : chains_ok (d_hnodes h) B;
}.

Lemma wp_hash_assert_locked h p c lk t B (Q : unit -> dsheap -> Prop) :
  hstate h p c lk t B -> Q tt h -> wp (hash_assert_locked p) h Q.
Proof.
  intros [Hp _ Ht _ _ _] HQ. unfold hash_assert_locked, hash_assert. wp_step.
  wp_step; [apply bool_decide_eq_true; by apply valid_ptr_nonnull|].
  wp_step. eapply wp_load; [by apply valid_ptr_nonnull|exact Ht|]. by apply wp_assert.
Qed.

Lemma wp_hash_ctx h p c lk t B (Q : ptr -> dsheap -> Prop) :
  hstate h p c lk t B -> Q c h -> wp (hash_ctx p) h Q.
Proof.
  intros Hs HQ. unfold hash_ctx. wp_step. eapply wp_hash_assert_locked; [done|].
  pose proof Hs as [Hp _ Ht _ _ _]. wp_step. eapply wp_load; [by apply valid_ptr_nonnull|exact Ht|]. by wp_step.
Qed.

Lemma wp_hash_btree h p c lk t B (Q : ptr -> dsheap -> Prop) :
  hstate h p c lk t B -> Q p h -> wp (hash_btree p) h Q.
Proof. intros Hs HQ. unfold hash_btree. wp_step. eapply wp_hash_assert_locked; [done|]. by wp_step. Qed.

(** The nodes stay, and so do the addresses in use. *)
Definition same_live (h h' : dsheap) : Prop := d_hnodes h' = d_hnodes h ∧ kh_live h' = kh_live h.
Lemma live_set_btree h p x y : d_btrees h !! p = Some x -> kh_live (set_btrees (<[p := y]> (d_btrees h)) h) = kh_live h.
Proof. intros Hx. simpl. rewrite (dom_insert_lookup_L (d_btrees h)) by done. done. Qed.

Lemma live_hnodes h m (X : gset ptr) : dom m ⊆ X ∪ dom (d_hnodes h) -> kh_live (set_hnodes m h) ⊆ X ∪ kh_live h.
Proof. intros H x. specialize (H x). rewrite elem_of_union in H. simpl. rewrite !elem_of_union. tauto. Qed.
Lemma live_tree h p t n m (X : gset ptr) :
  is_Some (d_btrees h !! p) -> dom m ⊆ X ∪ dom (d_bnodes h) -> kh_live (with_tree (ds_tick h) p t n m) ⊆ X ∪ kh_live h.
Proof.
  intros Hp H x. specialize (H x). rewrite elem_of_union in H. simpl. rewrite (dom_insert_lookup_L (d_btrees h)) by done.
  rewrite !elem_of_union. tauto.
Qed.

Lemma wp_hash_btree_lock h p c t B (Q : unit -> dsheap -> Prop) :
  hstate h p c false t B ->
  (∀ h', hstate h' p c true t B -> same_live h h' -> Q tt h') ->
  wp (hash_btree_lock p) h Q.
Proof.
  intros Hs HQ. unfold hash_btree_lock. wp_step. eapply wp_hash_btree; [done|].
  pose proof Hs as [Hp Hc Ht [Hb Hbt Htr Hnd Hbst] Hh Hch]. unfold btree_lock, btree_assert. wp_step.
  wp_step; [apply bool_decide_eq_true; by apply valid_ptr_nonnull|].
  wp_step. eapply wp_bt; [done|exact Hbt|]. wp_step. wp_step. eapply wp_bt_upd; [done|exact Hbt|].
  apply HQ; [|split; [done|by eapply live_set_btree]]. split; try done. split; try done. apply lookup_insert_eq.
Qed.

Lemma wp_hash_btree_unlock h p c t B (Q : unit -> dsheap -> Prop) :
  hstate h p c true t B ->
  (∀ h', hstate h' p c false t B -> same_live h h' -> Q tt h') ->
  wp (hash_btree_unlock p) h Q.
Proof.
  intros Hs HQ. unfold hash_btree_unlock. wp_step. eapply wp_hash_btree; [done|].
  pose proof Hs as [Hp Hc Ht [Hb Hbt Htr Hnd Hbst] Hh Hch]. unfold btree_unlock, btree_assert. wp_step.
  wp_step; [apply bool_decide_eq_true; by apply valid_ptr_nonnull|].
  wp_step. eapply wp_bt; [done|exact Hbt|]. wp_step. wp_step. eapply wp_bt_upd; [done|exact Hbt|].
  apply HQ; [|split; [done|by eapply live_set_btree]]. split; try done. split; try done. apply lookup_insert_eq.
Qed.

Lemma wp_hash_tail fuel h hd tl l xs last (Q : ptr -> dsheap -> Prop) :
  dll (d_hnodes h) hd tl (l ++ xs) -> (length xs < fuel)%nat ->
  Q (last_or last xs) h -> wp (hash_tail fuel (hd_or NULL xs) last) h Q.
Proof.
  revert fuel l last. induction xs as [|[p d] xs IH]; intros [|fuel] l last Hd Hf HQ; simpl in *; try lia; [done|].
  destruct (dll_mid _ _ _ _ _ _ _ Hd) as (Hp & _ & _ & Hl). rewrite decide_False by done.
  wp_step. eapply wp_load; [done|exact Hl|]. apply (IH fuel (l ++ [(p, d)])); [by rewrite <- app_assoc|lia|done].
Qed.

(** The first node of a chain that passes the test. *)
Fixpoint first_match (test : ptr -> bool) (xs : chain) : ptr :=
  match xs with [] => NULL | (p, d) :: xs => if test d then p else first_match test xs end.

Lemma wp_hash_walk fuel h hd tl l xs test (Q : ptr -> dsheap -> Prop) :
  dll (d_hnodes h) hd tl (l ++ xs) -> (length xs < fuel)%nat ->
  Q (first_match test xs) h -> wp (hash_walk fuel test (hd_or NULL xs)) h Q.
Proof.
  revert fuel l. induction xs as [|[p d] xs IH]; intros [|fuel] l Hd Hf HQ; simpl in *; try lia; [done|].
  destruct (dll_mid _ _ _ _ _ _ _ Hd) as (Hp & _ & _ & Hl). rewrite decide_False by done.
  wp_step. eapply wp_load; [done|exact Hl|]. simpl. destruct (test d); [done|].
  apply (IH fuel (l ++ [(p, d)])); [by rewrite <- app_assoc|lia|done].
Qed.

Lemma first_match_cases test xs :
  (first_match test xs = NULL ∧ NULL ∉ addrs xs -> (∀ d, d ∈ xs.*2 -> test d = false)) ∧
  (first_match test xs ≠ NULL -> ∃ l d r, xs = l ++ (first_match test xs, d) :: r ∧ test d = true ∧
     ∀ e, e ∈ l.*2 -> test e = false).
Proof.
  induction xs as [|[p d] xs [IH1 IH2]]; simpl; [split; [set_solver|done]|]. destruct (test d) eqn:E.
  - split; [intros [-> Hn]; set_solver|]. intros _. exists [], d, xs. split; [done|]. split; [done|set_solver].
  - split.
    + intros [Hf Hn] e [->|He]%elem_of_cons; [done|]. apply IH1; [set_solver|done].
    + intros (l & e & r & Heq & Ht & Hl)%IH2. exists ((p, d) :: l), e, r. simpl. rewrite <- Heq.
      split; [done|]. split; [done|]. intros x [->|Hx]%elem_of_cons; auto.
Qed.

Lemma hstate_nodes h p c lk t B m : hstate h p c lk t B -> chains_ok m B -> hstate (set_hnodes m h) p c lk t B.
Proof. intros [? ? ? [] ? ?] Hm. split; [done..| |done|done]. by split. Qed.

Lemma hstate_tick h p c lk t B : hstate h p c lk t B -> hstate (ds_tick h) p c lk t B.
Proof. intros [? ? ? [] ? ?]. split; [done..| |done|done]. by split. Qed.

(** The tree is replaced by one that represents other heads. *)
Lemma hstate_tree h p c lk t B t' B' n m :
  hstate h p c lk t B -> btree_rep (with_tree h p t' n m) p true t' ->
  (∀ k, tmap t' !! k = hd_or NULL <$> B' !! k) -> chains_ok (d_hnodes h) B' ->
  hstate (with_tree h p t' n m) p c true t' B'.
Proof. intros [? ? ? ? ? ?] Hr Hh Hc. by split. Qed.

(** The search for the head of a chain. *)
Lemma wp_hash_head h p c t B k (Q : Z * option ptr -> dsheap -> Prop) :
  hstate h p c true t B ->
  (∀ xs, B !! k = Some xs -> Q (0, Some (hd_or NULL xs)) h) ->
  (B !! k = None -> Q (- ENOENT, None) h) ->
  wp (btree_search p k true) h Q.
Proof.
  intros Hs HS HN. pose proof (hs_heads _ _ _ _ _ _ Hs k) as Hk.
  eapply wp_btree_search; [by apply Hs|..].
  - intros d Hd. change (tmap t !! k = Some d) in Hd. rewrite Hk in Hd.
    apply fmap_Some in Hd as (xs & Hx & ->). by apply HS.
  - intros Hn. change (tmap t !! k = None) in Hn. rewrite Hk in Hn. apply HN. by apply fmap_None in Hn.
Qed.

(** Adding a node at the end of a chain. *)
Lemma chains_snoc m B k xs n d :
  chains_ok m B -> B !! k = Some xs -> n ≠ NULL -> (∀ k' ys, B !! k' = Some ys -> n ∉ addrs ys) ->
  chains_ok (<[n := HNode (last_or NULL xs) d NULL]> (alter (hn_set_next n) (last_or NULL xs) m))
    (<[k := xs ++ [(n, d)]]> B).
Proof.
  intros Hc Hk Hn Hfr. destruct (proj1 Hc k xs Hk) as [Hne Hd].
  assert (last_or NULL xs ∈ addrs xs) as Hl by (by apply last_or_in).
  assert (last_or NULL xs ≠ NULL) as Hl0 by (intros E; rewrite E in Hl; by apply Hd).
  eapply (chains_set m _ B k _ [n]); [done|by destruct xs| |..].
  - rewrite <- (app_nil_r xs) in Hd at 3.
    pose proof (dll_link _ _ _ xs n d [] Hd Hn) as Hd'. unfold link, put_prev, put_next in Hd'.
    rewrite (decide_False (P := last_or NULL xs = NULL)) in Hd' by done. simpl in Hd'.
    rewrite last_or_snoc. simpl. destruct xs as [|x xs]; [done|]. apply Hd'.
    rewrite app_nil_r. by apply (Hfr k).
  - intros q Hq. rewrite fmap_app in Hq. simpl in Hq.
    apply elem_of_app in Hq as [Hq|Hq]; [right; by exists xs|by left].
  - intros q k' ys Hq Hy. apply list_elem_of_singleton in Hq as ->. by eapply Hfr.
  - intros q k' ys Hne' Hy Hq.
    rewrite lookup_insert_ne by (intros <-; by eapply Hfr). rewrite lookup_alter_ne; [done|].
    intros <-. by eapply (proj2 Hc k k').
Qed.

(** A new chain of one node. *)
Lemma chains_single m B k n d :
  chains_ok m B -> m !! n = Some (HNode NULL d NULL) -> n ≠ NULL ->
  (∀ k' ys, B !! k' = Some ys -> n ∉ addrs ys) -> chains_ok m (<[k := [(n, d)]]> B).
Proof.
  intros Hc Hm Hn Hfr. eapply (chains_set m m B k _ [n]); [done|done| |..].
  - repeat split; [apply NoDup_singleton|set_solver|done].
  - intros q Hq. by left.
  - intros q k' ys Hq Hy. apply list_elem_of_singleton in Hq as ->. by eapply Hfr.
  - done.
Qed.

(** Taking one node out of a chain; its memory may be released. *)
Lemma chains_unlink m m' B k l n d r :
  chains_ok m B -> B !! k = Some (l ++ (n, d) :: r) ->
  (∀ q, q ≠ n -> m' !! q = unlink n (last_or NULL l) (hd_or NULL r) m !! q) ->
  (l ++ r ≠ [] -> dll m' (hd_or NULL (l ++ r)) (last_or NULL (l ++ r)) (l ++ r)) ∧
  (∀ q k' ys, k' ≠ k -> B !! k' = Some ys -> q ∈ addrs ys -> m' !! q = m !! q).
Proof.
  intros Hc Hk Hm. destruct (proj1 Hc k _ Hk) as [_ Hd].
  pose proof (dll_mid _ _ _ _ _ _ _ Hd) as (_ & Hl & Hr & _). split.
  - intros _. eapply dll_frame; [|by eapply dll_unlink]. intros q Hq. apply Hm.
    intros ->. rewrite fmap_app in Hq. set_solver.
  - intros q k' ys Hne Hy Hq.
    assert (q ∉ addrs (l ++ (n, d) :: r)) as Hq' by (by eapply (proj2 Hc k' k)).
    rewrite fmap_app in Hq'. simpl in Hq'. rewrite Hm by set_solver.
    eapply unlink_outside; [exact Hd|]. rewrite fmap_app. set_solver.
Qed.

Section specs.
Context {K : Kmalloc} (ctx : ptr -> hash_ctx_t).

(** The tail of [hash_insert], after the tree was consulted. *)
Lemma wp_hash_insert_end h p c t B n d err (Q : Z -> dsheap -> Prop) :
  hstate h p c true t B -> n ≠ NULL ->
  (err ≠ 0 -> d_hnodes h !! n = Some d ∧ ∀ k ys, B !! k = Some ys -> n ∉ addrs ys) ->
  (∀ h', hstate h' p c false t B -> kh_live h' ⊆ kh_live h -> Q err h') ->
  wp (hash_btree_unlock p;; if decide (err ≠ 0) then kfree hash_node_t n;; mret err else mret 0) h Q.
Proof.
  intros Hs Hn Hfr HQ. wp_step. eapply wp_hash_btree_unlock; [done|]. intros h' Hs' [He HL].
  destruct (decide (err ≠ 0)) as [Hne|Hz].
  - destruct (Hfr Hne) as [Hd Hnb]. wp_step. eapply wp_kfree; [done|simpl; rewrite He; exact Hd|].
    apply wp_ret, HQ; [apply hstate_nodes; [done|]|]; cycle 1.
    { rewrite <- HL, <- (union_empty_l_L (kh_live h')). apply live_hnodes. rewrite dom_delete_L. apply subseteq_difference_l. by rewrite union_empty_l_L. }
    eapply chains_frame; [by apply Hs'|]. intros q k ys Hy Hq. simpl. apply lookup_delete_ne. intros ->. by eapply Hnb.
  - apply wp_ret. replace 0 with err by lia. apply HQ; [done|by rewrite HL].
Qed.

(** Some request was refused with at most [n] objects in use. *)
Definition refused (n : nat) : Prop := ∃ i D, km_choose i D = None ∧ (size D <= n)%nat.
Lemma live_le (A B : gset ptr) q k : A ⊆ {[q]} ∪ B -> (size B <= k)%nat -> (size A <= k + 1)%nat.
Proof. intros HA%subseteq_size Hk. rewrite size_union_alt, size_singleton in HA. pose proof (subseteq_size (B ∖ {[q]}) B ltac:(set_solver)). lia. Qed.

Lemma wp_hash_insert h p c t B key data (Q : Z -> dsheap -> Prop) :
  let k := hash_of (ctx c) key in
  hstate h p c false t B ->
  (∀ h', hstate h' p c false t B -> refused (size (kh_live h) + 1) -> Q (- ENOMEM) h') ->
  (∀ h' t' n, hstate h' p c false t' (<[k := default [] (B !! k) ++ [(n, data)]]> B) ->
     (size (kh_live h') <= size (kh_live h) + 2)%nat -> Q 0 h') ->
  wp (hash_insert ctx p key data) h Q.
Proof.
  intros k Hs HM HO. unfold hash_insert. pose proof Hs as [Hp Hc _ _ _ _].
  rewrite decide_False by (by apply valid_ptr_nonnull).
  wp_step. eapply wp_hash_assert_locked; [done|]. wp_step. eapply wp_hash_ctx; [done|].
  rewrite decide_False by done. fold k. wp_step. apply wp_kmalloc_why.
  { intros Hno. rewrite decide_True by done. apply wp_ret, HM; [by apply hstate_tick|]. eexists _, _. split; [exact Hno|lia]. }
  intros n Hn Hlive. rewrite decide_False by (by apply valid_ptr_nonnull). apply valid_ptr_nonnull in Hn.
  set (h1 := hl_put _ _).
  assert (∀ k' ys, B !! k' = Some ys -> n ∉ addrs ys) as Hfr.
  { intros k' ys Hy Hin. apply Hlive. simpl. assert (n ∈ dom (d_hnodes h)); [|set_solver].
    eapply chains_live; [by apply Hs|done|done]. }
  assert (hstate h1 p c false t B) as Hs1.
  { apply hstate_nodes; [by apply hstate_tick|]. eapply chains_frame; [by apply Hs|].
    intros q k' ys Hy Hq. simpl. apply lookup_insert_ne. intros ->. by eapply Hfr. }
  assert (size (kh_live h1) <= size (kh_live h) + 1)%nat as Hsz1.
  { eapply (live_le _ (kh_live h) n); [|done]. apply (live_hnodes (ds_tick h)). by rewrite dom_insert_L. }
  wp_step. eapply wp_hash_btree_lock; [exact Hs1|]. intros h2 Hs2 [E2 L2]. rewrite <- L2 in Hsz1.
  assert (d_hnodes h2 !! n = Some (HNode NULL data NULL)) as Hn2 by (rewrite E2; apply lookup_insert_eq).
  wp_step. eapply wp_hash_btree; [done|]. wp_step. eapply wp_hash_head; [done|..].
  - intros xs Hx. cbn [fst snd default]. wp_step. rewrite decide_False by (unfold ENOENT; lia).
    destruct (proj1 (hs_chains _ _ _ _ _ _ Hs2) k xs Hx) as [Hne Hd].
    assert (last_or NULL xs ∈ addrs xs) as Hl by (by apply last_or_in).
    assert (last_or NULL xs ≠ NULL) as Hl0 by (intros E; rewrite E in Hl; by apply Hd).
    destruct (proj1 (elem_of_dom _ _) (chains_live _ _ _ _ _ (hs_chains _ _ _ _ _ _ Hs2) Hx Hl)) as [v Hv].
    rewrite decide_True by done. wp_step. unfold hnode_fuel. wp_step. wp_step. eapply (wp_hash_tail _ _ _ _ []); [exact Hd| |].
    { pose proof (dll_length _ _ _ _ Hd). lia. }
    wp_step. eapply wp_update; [done|exact Hv|].
    assert (last_or NULL xs ≠ n) as Hln by (intros <-; by eapply Hfr).
    wp_step. eapply wp_update; [done|simpl; rewrite lookup_insert_ne by done; exact Hn2|]. apply wp_ret. cbn [hl_get hl_put hl_hnodes].
    rewrite (alter_insert_Some (d_hnodes h2)) by done. unfold hn_set_prev. cbn [hn_data hn_next].
    eapply (wp_hash_insert_end _ p c t (<[k := xs ++ [(n, data)]]> B) n (HNode NULL data NULL)); [|done|done|].
    + pose proof (chains_snoc _ _ _ _ n data (hs_chains _ _ _ _ _ _ Hs2) Hx Hn Hfr) as Hch.
      destruct Hs2 as [? ? ? [] Hh ?]. split; [done..|by split| |exact Hch].
      intros k'. rewrite Hh. destruct (decide (k' = k)) as [->|].
      * rewrite lookup_insert_eq, Hx. simpl. by destruct xs.
      * by rewrite lookup_insert_ne.
    + intros h' Hs' HL%subseteq_size. eapply (HO h' t n); [by rewrite Hx|]. etrans; [exact HL|]. etrans; [|apply Nat.add_le_mono_l, Nat.le_succ_diag_r]. etrans; [|exact Hsz1].
      apply subseteq_size. rewrite <- (union_empty_l_L (kh_live h2)). refine (live_hnodes h2 _ ∅ _). simpl. rewrite dom_insert_L, dom_alter_L.
      apply elem_of_dom_2 in Hn2. clear -Hn2. set_solver.
  - intros Hx. cbn [fst snd default]. wp_step. rewrite decide_True by done. eapply wp_btree_insert; [by apply Hs2|..].
    + intros Hno. eapply (wp_hash_insert_end _ p c t B n (HNode NULL data NULL)); [by apply hstate_tick|done|done|].
      intros h' Hs' _. apply HM; [done|]. eexists _, _. split; [exact Hno|done].
    + intros [d Hd]%elem_of_dom. rewrite (hs_heads _ _ _ _ _ _ Hs2), Hx in Hd. done.
    + intros q t' m' h' _ Hr Hm _ Hdm _.
      eapply (wp_hash_insert_end _ p c t' (<[k := [(n, data)]]> B) n (HNode NULL data NULL)); [|done|done|].
      * eapply hstate_tree; [by apply hstate_tick|done| |by apply chains_single; [apply Hs2|..]].
        intros k'. rewrite Hm. destruct (decide (k' = k)) as [->|].
        -- by rewrite !lookup_insert_eq.
        -- rewrite !lookup_insert_ne by done. apply Hs2.
      * intros h'' Hs'' HL. eapply (HO h'' t' n); [by rewrite Hx|]. replace (size (kh_live h) + 2)%nat with (size (kh_live h) + 1 + 1)%nat by lia.
        eapply (live_le _ (kh_live h2) q); [|done]. etrans; [exact HL|]. apply live_tree; [|by rewrite Hdm].
        destruct Hs2 as [_ _ _ [_ Hbt _ _ _] _ _]. by eexists.
Qed.

Context (compare_strings : ptr -> ptr -> Z).

Lemma wp_hash_search h p c t B key isstring (Q : Z * option ptr -> dsheap -> Prop) :
  let k := hash_of (ctx c) key in
  let test := hash_match compare_strings (ctx c) isstring key in
  hstate h p c false t B ->
  (∀ h' l n d r, hstate h' p c false t B -> B !! k = Some (l ++ (n, d) :: r) -> test d = true ->
     (∀ e, e ∈ l.*2 -> test e = false) -> kh_live h' = kh_live h -> Q (0, Some d) h') ->
  (∀ h', hstate h' p c false t B -> (∀ xs e, B !! k = Some xs -> e ∈ xs.*2 -> test e = false) ->
     kh_live h' = kh_live h -> Q (- ENOENT, None) h') ->
  wp (hash_search ctx compare_strings p key isstring true) h Q.
Proof.
  intros k test Hs HF HN. unfold hash_search. pose proof Hs as [Hp Hc _ _ _ _].
  rewrite decide_False by (by apply valid_ptr_nonnull).
  wp_step. eapply wp_hash_assert_locked; [done|]. wp_step. eapply wp_hash_ctx; [done|].
  rewrite decide_False by done. fold k. fold test.
  wp_step. eapply wp_hash_btree_lock; [exact Hs|]. intros h2 Hs2 [E2 L2].
  wp_step. eapply wp_hash_btree; [done|]. wp_step. eapply wp_hash_head; [done|..].
  - intros xs Hx. cbn [fst snd default]. destruct (proj1 (hs_chains _ _ _ _ _ _ Hs2) k xs Hx) as [Hne Hd].
    rewrite decide_True by done. wp_step. unfold hnode_fuel. wp_step. wp_step. eapply (wp_hash_walk _ _ _ _ []); [exact Hd| |].
    { pose proof (dll_length _ _ _ _ Hd). lia. }
    pose proof (first_match_cases test xs) as [Hn Hf].
    destruct (decide (first_match test xs = NULL)) as [E|E].
    + wp_step. eapply wp_hash_btree_unlock; [done|]. intros h' Hs' [_ L']. apply wp_ret, HN; [done| |by rewrite L', L2].
      intros xs' e Hx'. simplify_eq. apply Hn. split; [done|]. apply Hd.
    + destruct (Hf E) as (l & d & r & Heq & Ht & Hl). set (n := first_match test xs) in *. clearbody n. subst xs.
      destruct (dll_mid _ _ _ _ _ _ _ Hd) as (_ & _ & _ & Hv).
      wp_step. eapply wp_load; [done|exact Hv|]. wp_step.
      eapply wp_hash_btree_unlock; [done|]. intros h' Hs' [_ L']. apply wp_ret. eapply HF; [done..|by rewrite L', L2].
  - intros Hx. cbn [fst snd default]. rewrite decide_False by (unfold ENOENT; lia).
    wp_step. eapply wp_hash_btree_unlock; [done|]. intros h' Hs' [_ L']. apply wp_ret, HN; [done| |by rewrite L', L2].
    intros xs' e Hx'. congruence.
Qed.
End specs.

(** What taking the element between [l] and [r] out of the chain of [k] makes
    of the table.  When it was the head of the chain, the rest is entered
    again under the key of its first element: that fails when memory runs out
    or when another chain has that key, and the rest is then lost. *)
Inductive removal {X} (key : X -> Z) (k : Z) (l r : list X) (B : gmap Z (list X)) : Z -> gmap Z (list X) -> Prop :=
  | removal_mid : l ≠ [] -> removal key k l r B 0 (<[k := l ++ r]> B)
  | removal_last : l = [] -> r = [] -> removal key k l r B 0 (delete k B)
  | removal_move x r' : l = [] -> r = x :: r' -> delete k B !! key x = None ->
      removal key k l r B 0 (<[key x := r]> (delete k B))
  | removal_lost : l = [] -> r ≠ [] -> removal key k l r B (- ENOMEM) (delete k B)
  | removal_clash x r' : l = [] -> r = x :: r' -> is_Some (delete k B !! key x) ->
      removal key k l r B (- EEXIST) (delete k B).

(** The links around the target, in the order of the code. *)
Lemma wp_hash_unlink {A} h xs n d r (Q : A -> dsheap -> Prop) (rest : M dsheap A) :
  dll (d_hnodes h) (hd_or NULL (xs ++ (n, d) :: r)) (last_or NULL (xs ++ (n, d) :: r)) (xs ++ (n, d) :: r) ->
  wp rest (set_hnodes (unlink n (last_or NULL xs) (hd_or NULL r) (d_hnodes h)) h) Q ->
  wp (when (bool_decide (hd_or NULL r ≠ NULL)) (hn_upd (hd_or NULL r) (hn_set_prev (last_or NULL xs)));;
      when (bool_decide (last_or NULL xs ≠ NULL)) (hn_upd (last_or NULL xs) (hn_set_next (hd_or NULL r)));;
      rest) h Q.
Proof.
  intros Hd HQ. pose proof (dll_neighbours_ne _ _ _ _ _ _ Hd) as Hne.
  pose proof (dll_last_live _ _ _ _ _ Hd) as Hl. pose proof (dll_next_live _ _ _ _ _ _ Hd) as Hr.
  unfold unlink in HQ. rewrite <- put_comm in HQ by done. unfold put_next, put_prev in HQ.
  set (a := last_or NULL xs) in *. set (b := hd_or NULL r) in *. wp_step.
  destruct (decide (b = NULL)) as [Eb|Eb].
  - rewrite bool_decide_false by (by intros []). apply wp_ret. wp_step.
    destruct (decide (a = NULL)) as [Ea|Ea].
    + rewrite bool_decide_false by (by intros []). apply wp_ret. by destruct h.
    + rewrite bool_decide_true by done. destruct Hl as [|[v Hv]]; [done|].
      eapply wp_update; [done|exact Hv|]. simpl. by rewrite (alter_insert_Some (d_hnodes h)).
  - rewrite bool_decide_true by done. destruct Hr as [|[w Hw]]; [done|].
    eapply wp_update; [done|exact Hw|]. cbn [hl_get hl_put hl_hnodes].
    rewrite (alter_insert_Some (d_hnodes h)) by done. wp_step.
    destruct (decide (a = NULL)) as [Ea|Ea].
    + rewrite bool_decide_false by (by intros []). by apply wp_ret.
    + rewrite bool_decide_true by done. destruct Hl as [|[v Hv]]; [done|].
      assert (a ≠ b) by (by destruct Hne).
      eapply wp_update; [done|simpl; rewrite lookup_alter_ne by done; exact Hv|]. simpl.
      rewrite alter_insert_Some; [done|]. by rewrite lookup_alter_ne.
Qed.

Section delete.
Context {K : Kmalloc} (ctx : ptr -> hash_ctx_t).

Lemma wp_hash_delete_end h p c t B n v (Q : Z -> dsheap -> Prop) :
  hstate h p c true t B -> n ≠ NULL -> d_hnodes h !! n = Some v ->
  (∀ k ys, B !! k = Some ys -> n ∉ addrs ys) -> (∀ h', hstate h' p c false t B -> Q 0 h') ->
  wp (hash_btree_unlock p;; kfree hash_node_t n;; mret 0) h Q.
Proof.
  intros Hs Hn Hv Hfr HQ. wp_step. eapply wp_hash_btree_unlock; [done|]. intros h' Hs' [He _].
  wp_step. eapply wp_kfree; [done|simpl; rewrite He; exact Hv|].
  apply wp_ret, HQ, hstate_nodes; [done|]. eapply chains_frame; [by apply Hs'|].
  intros q k ys Hy Hq. simpl. apply lookup_delete_ne. intros ->. by eapply Hfr.
Qed.

(** Removing the head of a chain: the rest is entered again. *)
Lemma wp_hash_rehead h p c t B k n d r m (Q : Z -> dsheap -> Prop) :
  let key x := hash_of (ctx c) x.2 in
  hstate h p c true t B -> B !! k = Some ((n, d) :: r) ->
  m = unlink n NULL (hd_or NULL r) (d_hnodes h) ->
  (∀ h' t' err B', hstate h' p c true t' B' -> d_hnodes h' = m -> removal key k [] r B err B' -> Q err h') ->
  wp (btree_delete p k;;
      if decide (hd_or NULL r ≠ NULL) then
        n ← hn (hd_or NULL r); btree_insert p (hash_of (ctx c) (hn_data n)) (hd_or NULL r)
      else mret 0) (set_hnodes m h) Q.
Proof.
  intros key Hs Hk Hm HQ. pose proof (hs_chains _ _ _ _ _ _ Hs) as Hc.
  destruct (proj1 Hc k _ Hk) as [_ Hd].
  destruct (chains_unlink (d_hnodes h) m B k [] n d r Hc Hk) as [Hdr Hfr]; [by rewrite Hm|]. simpl in Hdr.
  assert (chains_ok m (delete k B)) as Hcd by (by eapply chains_delete).
  assert (btree_rep (set_hnodes m h) p true t) as Hr by (destruct Hs as [? ? ? [] ? ?]; by split).
  wp_step. eapply wp_btree_delete; [exact Hr|..].
  { intros Hnk. exfalso. apply Hnk, elem_of_dom. rewrite (hs_heads _ _ _ _ _ _ Hs), Hk. by eexists. }
  intros t1 m1 q1 h1 _ Hr1 Hm1 _ _ _.
  assert (hstate h1 p c true t1 (delete k B)) as Hs1.
  { split; [apply Hs..|done| |done]. intros k'. rewrite Hm1. destruct (decide (k' = k)) as [->|].
    - by rewrite !lookup_delete_eq.
    - rewrite !lookup_delete_ne by done. apply Hs. }
  destruct r as [|[q e] r]; simpl.
  { apply wp_ret. eapply HQ; [exact Hs1|done|by constructor]. }
  specialize (Hdr ltac:(done)). pose proof Hdr as (_ & _ & _ & Hq0 & Hq & _). simpl in Hq0.
  rewrite decide_True by set_solver. wp_step. eapply wp_load; [set_solver|exact Hq|]. simpl.
  eapply wp_btree_insert; [exact Hr1|..].
  - intros _. eapply HQ; [by apply hstate_tick|done|by constructor].
  - intros [v Hv]%elem_of_dom. eapply HQ; [by apply hstate_tick|done|]. eapply removal_clash; [done..|].
    rewrite (hs_heads _ _ _ _ _ _ Hs1) in Hv. apply fmap_Some in Hv as (ys & Hy & _). by eexists.
  - intros q2 t2 m2 h2 Hfresh Hr2 Hm2 _ _ _.
    assert (delete k B !! hash_of (ctx c) e = None) as Hnone.
    { apply not_elem_of_dom in Hfresh. rewrite (hs_heads _ _ _ _ _ _ Hs1) in Hfresh. by apply fmap_None in Hfresh. }
    eapply (HQ h2 t2 0 (<[hash_of (ctx c) e := (q, e) :: r]> (delete k B))); [|done|by eapply (removal_move key k [] _ B (q, e) r)].
    eapply hstate_tree; [by apply hstate_tick|done|..].
    + intros k'. rewrite Hm2. destruct (decide (k' = hash_of (ctx c) e)) as [->|].
      * by rewrite !lookup_insert_eq.
      * rewrite !lookup_insert_ne by done. apply Hs1.
    + eapply (chains_set m m _ _ _ (addrs ((q, e) :: r))); [done|done|exact Hdr|by left| |done].
      intros x k' ys Hx [Hne Hy]%lookup_delete_Some. eapply (proj2 Hc k k'); [done..|]. by right.
Qed.

(** The target is out of its chain: the table follows [removal]. *)
Lemma wp_hash_detach h p c t B k l n d r m (Q : Z -> dsheap -> Prop) :
  hstate h p c true t B -> B !! k = Some (l ++ (n, d) :: r) ->
  m = unlink n (last_or NULL l) (hd_or NULL r) (d_hnodes h) ->
  (∀ h' t' err B', hstate h' p c true t' B' -> d_hnodes h' = m ->
     removal (λ x, hash_of (ctx c) x.2) k l r B err B' ->
     (err = 0 -> ∀ k' ys, B' !! k' = Some ys -> n ∉ addrs ys) -> Q err h') ->
  wp (if decide (n = hd_or NULL (l ++ (n, d) :: r)) then
        btree_delete p k;;
        if decide (hd_or NULL r ≠ NULL) then
          n ← hn (hd_or NULL r); btree_insert p (hash_of (ctx c) (hn_data n)) (hd_or NULL r)
        else mret 0
      else mret 0) (set_hnodes m h) Q.
Proof.
  intros Hs Hx Hm HQ. pose proof (hs_chains _ _ _ _ _ _ Hs) as Hch. destruct (proj1 Hch k _ Hx) as [_ Hd].
  destruct (dll_mid _ _ _ _ _ _ _ Hd) as (Hn0 & Hnl & Hnr & Hv).
  destruct (chains_unlink (d_hnodes h) m B k l n d r Hch Hx) as [Hdr Hfr]; [by rewrite Hm|].
  assert (∀ k' ys, k' ≠ k -> B !! k' = Some ys -> n ∉ addrs ys) as Hfresh.
  { intros k' ys Hk' Hy. eapply (proj2 Hch k k'); [done..|]. rewrite fmap_app. set_solver. }
  destruct (decide (n = hd_or NULL (l ++ (n, d) :: r))) as [Eh|Eh].
  - destruct l as [|x l]; [|exfalso; apply Hnl; simpl in Eh |- *; rewrite <- Eh; left].
    eapply (wp_hash_rehead h p c t B k n d r m); [done..|]. intros h3 t3 err B' Hs3 E3 Hrem.
    eapply HQ; [exact Hs3|done|done|]. intros -> k' ys Hy Hin. inversion Hrem; simplify_eq; try done.
    + apply lookup_delete_Some in Hy as [? Hy]. by eapply Hfresh.
    + apply lookup_insert_Some in Hy as [[_ <-]|[_ Hy]]; [done|].
      apply lookup_delete_Some in Hy as [? Hy]. by eapply Hfresh.
  - assert (l ≠ []) as Hl by (intros ->; by destruct Eh). apply wp_ret.
    assert (n ∉ addrs (l ++ r)) as Hnlr by (rewrite fmap_app; set_solver).
    assert (l ++ r ≠ []) as Hlr by (by destruct l).
    eapply (HQ _ t 0 (<[k := l ++ r]> B)); [|done|by constructor|].
    + pose proof Hs as [? ? ? [] Hh ?]. split; [done..|by split| |].
      * intros k'. rewrite Hh. destruct (decide (k' = k)) as [->|].
        -- rewrite lookup_insert_eq, Hx. simpl. by destruct l.
        -- by rewrite lookup_insert_ne.
      * eapply (chains_set (d_hnodes h) m B k _ []); [done..|by apply Hdr| |set_solver|done].
        intros q Hq. right. eexists. split; [exact Hx|]. rewrite !fmap_app in *. set_solver.
    + intros _ k' ys [[_ <-]|[Hne Hy]]%lookup_insert_Some; [done|by eapply Hfresh].
Qed.

Context (compare_strings : ptr -> ptr -> Z).

Lemma wp_hash_delete h p c t B key isstring (Q : Z -> dsheap -> Prop) :
  let k := hash_of (ctx c) key in
  let test := hash_match compare_strings (ctx c) isstring key in
  hstate h p c false t B ->
  (∀ h' t' l n d r err B', hstate h' p c false t' B' -> B !! k = Some (l ++ (n, d) :: r) -> test d = true ->
     (∀ e, e ∈ l.*2 -> test e = false) -> removal (λ x, hash_of (ctx c) x.2) k l r B err B' -> Q err h') ->
  (∀ h', hstate h' p c false t B -> (∀ xs e, B !! k = Some xs -> e ∈ xs.*2 -> test e = false) ->
     Q (- ENOENT) h') ->
  wp (hash_delete ctx compare_strings p key isstring) h Q.
Proof.
  intros k test Hs HF HN. unfold hash_delete. pose proof Hs as [Hp Hc _ _ _ _].
  rewrite decide_False by (by apply valid_ptr_nonnull).
  wp_step. eapply wp_hash_assert_locked; [done|]. wp_step. eapply wp_hash_ctx; [done|].
  rewrite decide_False by done. fold k. fold test.
  wp_step. eapply wp_hash_btree_lock; [exact Hs|]. intros h2 Hs2 E2.
  wp_step. eapply wp_hash_btree; [done|]. wp_step. eapply wp_hash_head; [done|..].
  2: { intros Hx. cbn [fst snd]. rewrite decide_False by (unfold ENOENT; lia).
    wp_step. eapply wp_hash_btree_unlock; [done|]. intros h' Hs' _. apply wp_ret, HN; [done|].
    intros xs' e Hx'. congruence. }
  intros xs Hx. cbn [fst snd from_option id]. pose proof (hs_chains _ _ _ _ _ _ Hs2) as Hch.
  destruct (proj1 Hch k xs Hx) as [Hne Hd]. rewrite decide_True by done.
  wp_step. unfold hnode_fuel. wp_step. wp_step. eapply (wp_hash_walk _ _ _ _ []); [exact Hd| |].
  { pose proof (dll_length _ _ _ _ Hd). lia. }
  pose proof (first_match_cases test xs) as [Hn Hf].
  destruct (decide (first_match test xs = NULL)) as [E|E].
  { wp_step. eapply wp_hash_btree_unlock; [done|]. intros h' Hs' _. apply wp_ret, HN; [done|].
    intros xs' e Hx'. simplify_eq. apply Hn. split; [done|]. apply Hd. }
  destruct (Hf E) as (l & d & r & Heq & Ht & Hl). set (n := first_match test xs) in *. clearbody n. subst xs.
  destruct (dll_mid _ _ _ _ _ _ _ Hd) as (Hn0 & Hnl & Hnr & Hv).
  wp_step. eapply wp_load; [done|exact Hv|]. cbn [hn_prev hn_next l_mk linked_hnode].
  eapply wp_hash_unlink; [exact Hd|]. set (m := unlink _ _ _ _).
  assert (m !! n = Some (HNode (last_or NULL l) d (hd_or NULL r))) as Hmn.
  { unfold m. rewrite (unlink_outside _ _ _ _ _ _ _ _ Hd); [done|]. rewrite fmap_app. set_solver. }
  wp_step. eapply (wp_hash_detach h2 p c t B k l n d r m); [done..|]. intros h3 t3 err B' Hs3 E3 Hrem Hfresh.
  destruct (decide (err ≠ 0)) as [He|He].
  - wp_step. eapply wp_hash_btree_unlock; [done|]. intros h' Hs' _. apply wp_ret.
    eapply HF; [exact Hs'|exact Hx|done|done|exact Hrem].
  - assert (err = 0) as -> by lia. eapply wp_hash_delete_end; [exact Hs3|done|by rewrite E3|by apply Hfresh|].
    intros h' Hs'. eapply HF; [exact Hs'|exact Hx|done|done|exact Hrem].
Qed.
End delete.

(** ** The abstract table *)

(** The data of every chain. *)
Definition tdata (B : gmap Z chain) : gmap Z (list ptr) := (λ xs, xs.*2) <$> B.

Lemma tdata_lookup B k : tdata B !! k = (λ xs, xs.*2) <$> B !! k.
Proof. apply lookup_fmap. Qed.

Lemma removal_tdata (key : ptr -> Z) k (l r : chain) B err B' :
  removal (λ x, key x.2) k l r B err B' -> removal key k l.*2 r.*2 (tdata B) err (tdata B').
Proof.
  intros Hrem. destruct Hrem as [Hl| -> -> |[q e] r' -> -> Hn| -> Hr|[q e] r' -> -> [ys Hy]]; unfold tdata in *.
  - rewrite fmap_insert, fmap_app. constructor. by destruct l.
  - rewrite fmap_delete. by constructor.
  - rewrite fmap_insert, fmap_delete. eapply (removal_move key k _ _ _ e); [done..|].
    rewrite <- fmap_delete, lookup_fmap. simpl in Hn. by rewrite Hn.
  - rewrite fmap_delete. constructor; [done|]. by destruct r.
  - rewrite fmap_delete. eapply (removal_clash key k _ _ _ e); [done..|].
    rewrite <- fmap_delete, lookup_fmap. simpl in Hy. rewrite Hy. by eexists.
Qed.

Inductive hop := HInsert (key data : ptr) | HSearch (key : ptr) (isstring : bool) | HDelete (key : ptr) (isstring : bool).

Section abstract.
Context (c : hash_ctx_t).
Implicit Types D : gmap Z (list ptr).

(** Every datum hashes to the key it is stored under. *)
Definition coherent D : Prop := ∀ k ds d, D !! k = Some ds -> d ∈ ds -> hash_of c d = k.

(** In such a table the rest of a chain is always entered under its own key. *)
Lemma removal_coherent D key l d r err D' :
  coherent D -> D !! hash_of c key = Some (l ++ d :: r) ->
  removal (hash_of c) (hash_of c key) l r D err D' ->
  (err = 0 ∧ D' = if decide (l ++ r = []) then delete (hash_of c key) D else <[hash_of c key := l ++ r]> D) ∨
  (err = - ENOMEM ∧ l = [] ∧ r ≠ [] ∧ D' = delete (hash_of c key) D).
Proof.
  intros Hco Hk Hrem. destruct Hrem as [Hl| -> -> |e r' -> -> Hn| -> Hr|e r' -> -> [ys Hy]].
  - left. split; [done|]. rewrite decide_False; [done|]. by destruct l.
  - left. by rewrite decide_True.
  - left. split; [done|]. rewrite decide_False by done. simpl in Hk.
    rewrite (Hco _ _ e Hk) by set_solver. apply insert_delete_eq.
  - by right.
  - rewrite (Hco _ _ e Hk), lookup_delete_eq in Hy by set_solver. done.
Qed.
Context (compare_strings : ptr -> ptr -> Z).
Abbreviation test key isstring := (hash_match compare_strings c isstring key).

(** [d] is the first of the data [l ++ d :: r] under [key] that matches. *)
Definition first_at D key isstring l d r : Prop :=
  D !! hash_of c key = Some (l ++ d :: r) ∧ test key isstring d = true ∧
  ∀ e, e ∈ l -> test key isstring e = false.

(** Nothing under [key] matches. *)
Definition absent D key isstring : Prop :=
  ∀ ds e, D !! hash_of c key = Some ds -> e ∈ ds -> test key isstring e = false.

Inductive table_step : gmap Z (list ptr) -> hop -> Z * option ptr -> gmap Z (list ptr) -> Prop :=
  | ts_insert D key d :
      table_step D (HInsert key d) (0, None) (<[hash_of c key := default [] (D !! hash_of c key) ++ [d]]> D)
  | ts_nomem D key d : table_step D (HInsert key d) (- ENOMEM, None) D
  | ts_found D key s l d r : first_at D key s l d r -> table_step D (HSearch key s) (0, Some d) D
  | ts_absent D key s : absent D key s -> table_step D (HSearch key s) (- ENOENT, None) D
  | ts_delete D key s l d r err D' : first_at D key s l d r ->
      removal (hash_of c) (hash_of c key) l r D err D' -> table_step D (HDelete key s) (err, None) D'
  | ts_delete_absent D key s : absent D key s -> table_step D (HDelete key s) (- ENOENT, None) D.

Inductive table_run : gmap Z (list ptr) -> list hop -> list (Z * option ptr) -> gmap Z (list ptr) -> Prop :=
  | tr_nil D : table_run D [] [] D
  | tr_cons D op r D1 ops rs D2 :
      table_step D op r D1 -> table_run D1 ops rs D2 -> table_run D (op :: ops) (r :: rs) D2.

(** The map from hash values to sequences: deletion takes out the first datum that
    matches and nothing else; only when that datum heads a longer sequence and
    there is no memory to enter the rest again is the whole sequence gone. *)
Inductive map_step : gmap Z (list ptr) -> hop -> Z * option ptr -> gmap Z (list ptr) -> Prop :=
  | ms_insert D key d :
      map_step D (HInsert key d) (0, None) (<[hash_of c key := default [] (D !! hash_of c key) ++ [d]]> D)
  | ms_nomem D key d : map_step D (HInsert key d) (- ENOMEM, None) D
  | ms_found D key s l d r : first_at D key s l d r -> map_step D (HSearch key s) (0, Some d) D
  | ms_absent D key s : absent D key s -> map_step D (HSearch key s) (- ENOENT, None) D
  | ms_delete D key s l d r : first_at D key s l d r ->
      map_step D (HDelete key s) (0, None) (if decide (l ++ r = []) then delete (hash_of c key) D else <[hash_of c key := l ++ r]> D)
  | ms_delete_nomem D key s d r : first_at D key s [] d r -> r ≠ [] -> map_step D (HDelete key s) (- ENOMEM, None) (delete (hash_of c key) D)
  | ms_delete_absent D key s : absent D key s -> map_step D (HDelete key s) (- ENOENT, None) D.

Inductive map_run : gmap Z (list ptr) -> list hop -> list (Z * option ptr) -> gmap Z (list ptr) -> Prop :=
  | mr_nil D : map_run D [] [] D
  | mr_cons D op r D1 ops rs D2 : map_step D op r D1 -> map_run D1 ops rs D2 -> map_run D (op :: ops) (r :: rs) D2.

(** A datum is entered under a key with its hash value. *)
Definition hop_coherent (op : hop) : Prop := match op with HInsert key d => hash_of c d = hash_of c key | _ => True end.

Lemma coherent_delete D k : coherent D -> coherent (delete k D).
Proof. intros Hc k' ds d Hk. apply lookup_delete_Some in Hk as [_ Hk]. by apply Hc. Qed.
Lemma coherent_put D k ds : coherent D -> (∀ d, d ∈ ds -> hash_of c d = k) -> coherent (<[k := ds]> D).
Proof. intros Hc Hd k' es d. rewrite lookup_insert_Some. intros [[<- <-]|[_ Hk]]; [apply Hd|by apply Hc]. Qed.

Lemma table_step_map D op r D' : coherent D -> hop_coherent op -> table_step D op r D' -> map_step D op r D' ∧ coherent D'.
Proof.
  intros Hc Ho H. destruct H as [D key d|D key d|D key s l d r Hf|D key s Ha|D key s l d r err D' Hf Hr|D key s Ha]; try (split; [by econstructor|done]).
  - split; [constructor|]. apply coherent_put; [done|]. intros e [He|He]%elem_of_app.
    + destruct (D !! hash_of c key) as [ds|] eqn:E; [|by apply elem_of_nil in He]. by apply (Hc _ _ _ E).
    + apply list_elem_of_singleton in He as ->. exact Ho.
  - pose proof Hf as [Hk _]. destruct (removal_coherent D key l d r err D' Hc Hk Hr) as [[-> ->]|(-> & -> & Hn & ->)].
    + split; [by eapply ms_delete|]. case_decide; [by apply coherent_delete|]. apply coherent_put; [done|]. intros e He. apply (Hc _ _ _ Hk). set_solver.
    + split; [by eapply ms_delete_nomem|by apply coherent_delete].
Qed.
Lemma table_run_map D ops rs D' : coherent D -> Forall hop_coherent ops -> table_run D ops rs D' -> map_run D ops rs D' ∧ coherent D'.
Proof.
  intros Hc Ho H. revert Hc Ho. induction H as [D|D op r D1 ops rs D2 Hs _ IH]; intros Hc Ho; [split; [constructor|done]|].
  apply Forall_cons in Ho as [Ho Hos]. destruct (table_step_map _ _ _ _ Hc Ho Hs) as [Hs' Hc1]. destruct (IH Hc1 Hos) as [Hr Hc2]. split; [by econstructor|done].
Qed.

End abstract.

Section refinement.
Context {K : Kmalloc} (ctx : ptr -> hash_ctx_t) (compare_strings : ptr -> ptr -> Z).

Definition run_hop (h : ptr) (op : hop) : M dsheap (Z * option ptr) :=
  match op with
  | HInsert key d => r ← hash_insert ctx h key d; mret (r, None)
  | HSearch key s => hash_search ctx compare_strings h key s true
  | HDelete key s => r ← hash_delete ctx compare_strings h key s; mret (r, None)
  end.

Fixpoint run_hops (h : ptr) (ops : list hop) : M dsheap (list (Z * option ptr)) :=
  match ops with
  | [] => mret []
  | op :: ops => r ← run_hop h op; rs ← run_hops h ops; mret (r :: rs)
  end.

Lemma absent_tdata c key s B :
  (∀ xs e, B !! hash_of c key = Some xs -> e ∈ xs.*2 -> hash_match compare_strings c s key e = false) ->
  absent c compare_strings (tdata B) key s.
Proof. intros HB ds e. rewrite tdata_lookup. intros (xs & Hx & ->)%fmap_Some. by apply HB. Qed.

Lemma first_at_tdata c key s B (l r : chain) n d :
  B !! hash_of c key = Some (l ++ (n, d) :: r) -> hash_match compare_strings c s key d = true ->
  (∀ e, e ∈ l.*2 -> hash_match compare_strings c s key e = false) ->
  first_at c compare_strings (tdata B) key s l.*2 d r.*2.
Proof. intros Hx Ht Hl. split; [|done]. rewrite tdata_lookup, Hx. simpl. by rewrite fmap_app. Qed.

Lemma run_hop_refines h p c t B op :
  hstate h p c false t B ->
  wp (run_hop p op) h (λ r h', ∃ t' B', table_step (ctx c) compare_strings (tdata B) op r (tdata B') ∧
    hstate h' p c false t' B').
Proof.
  intros Hs. destruct op as [key d|key s|key s]; simpl.
  - wp_step. eapply (wp_hash_insert ctx h p c t B); [done|..].
    + intros h' Hs' _. apply wp_ret. exists t, B. split; [constructor|done].
    + intros h' t' n Hs' _. apply wp_ret. eexists t', _. split; [|exact Hs'].
      unfold tdata. rewrite fmap_insert, fmap_app. change ((λ xs : chain, xs.*2) <$> B) with (tdata B).
      replace ((default [] (B !! hash_of (ctx c) key)).*2) with (default [] (tdata B !! hash_of (ctx c) key));
        [constructor|]. rewrite tdata_lookup. by destruct (B !! _).
  - eapply (wp_hash_search ctx compare_strings h p c t B); [done|..].
    + intros h' l n d r Hs' Hx Ht Hl _. exists t, B. split; [|done]. econstructor. by eapply first_at_tdata.
    + intros h' Hs' HB _. exists t, B. split; [|done]. constructor. by apply absent_tdata.
  - wp_step. eapply (wp_hash_delete ctx compare_strings h p c t B); [done|..].
    + intros h' t' l n d r err B' Hs' Hx Ht Hl Hrem. apply wp_ret. exists t', B'. split; [|done].
      econstructor; [by eapply first_at_tdata|by apply removal_tdata].
    + intros h' Hs' HB. apply wp_ret. exists t, B. split; [|done]. constructor. by apply absent_tdata.
Qed.

(** Whatever is in the table: a deletion that takes out the first datum of a
    sequence follows [removal]. *)
Lemma hash_refines_table h p c t B ops :
  hstate h p c false t B ->
  wp (run_hops p ops) h (λ rs h', ∃ t' B',
    table_run (ctx c) compare_strings (tdata B) ops rs (tdata B') ∧ hstate h' p c false t' B').
Proof.
  revert h t B. induction ops as [|op ops IH]; intros h t B Hs; simpl.
  - apply wp_ret. exists t, B. split; [constructor|done].
  - wp_step. eapply wp_mono; [by eapply run_hop_refines|]. intros r h1 (t1 & B1 & Hop & Hs1).
    wp_step. eapply wp_mono; [by eapply IH|]. intros rs h2 (t2 & B2 & Hrun & Hs2).
    apply wp_ret. exists t2, B2. split; [by econstructor|done].
Qed.

(** C38. The table is a map from hash values to sequences of data.  On a locked table
    in which every datum is under its own hash value, every sequence of searches,
    deletions and insertions of data under their hash values returns, with the
    results of the map: insertion appends to the sequence of the hash value or
    reports [-ENOMEM] and changes nothing; search returns the first datum that the
    context's test accepts or [-ENOENT]; deletion takes out the first accepted datum
    and nothing else, or returns [-ENOENT], or, when that datum is the first of a
    longer sequence and there is no memory to enter the rest again, returns [-ENOMEM]
    and the sequence is lost.  The chains stay well linked and disjoint, the tree maps
    each hash value to the head of its chain, and every datum stays under its hash
    value. *)
Theorem hash_refines_map h p c t B ops :
  hstate h p c false t B -> coherent (ctx c) (tdata B) -> Forall (hop_coherent (ctx c)) ops ->
  wp (run_hops p ops) h (λ rs h', ∃ t' B',
    map_run (ctx c) compare_strings (tdata B) ops rs (tdata B') ∧ coherent (ctx c) (tdata B') ∧ hstate h' p c false t' B').
Proof.
  intros Hs Hc Ho. eapply wp_mono; [by apply (hash_refines_table h p c t B)|]. intros rs h' (t' & B' & Hr & Hs').
  destruct (table_run_map _ _ _ _ _ _ Hc Ho Hr) as [Hm Hc']. by exists t', B'.
Qed.

(** Deletion from a table in which every datum hashes to the key it is
    stored under: it removes exactly the first accepted datum and returns 0;
    or nothing is accepted, the table is unchanged and the result is
    [-ENOENT]; or the datum was the head of a longer chain, the node for the
    new head could not be allocated, and the result is [-ENOMEM] with the
    whole chain dropped from the table. *)
Theorem hash_delete_coherent h p c t B key s :
  hstate h p c false t B -> coherent (ctx c) (tdata B) ->
  let k := hash_of (ctx c) key in
  wp (hash_delete ctx compare_strings p key s) h (λ r h', ∃ t' B', hstate h' p c false t' B' ∧
    ((∃ l d r0, first_at (ctx c) compare_strings (tdata B) key s l d r0 ∧
        ((r = 0 ∧ tdata B' = if decide (l ++ r0 = []) then delete k (tdata B) else <[k := l ++ r0]> (tdata B)) ∨
         (r = - ENOMEM ∧ l = [] ∧ r0 ≠ [] ∧ tdata B' = delete k (tdata B)))) ∨
     (absent (ctx c) compare_strings (tdata B) key s ∧ r = - ENOENT ∧ B' = B))).
Proof.
  intros Hs Hco k. eapply (wp_hash_delete ctx compare_strings h p c t B); [done|..].
  - intros h' t' l n d r err B' Hs' Hx Ht Hl Hrem. exists t', B'. split; [done|]. left.
    pose proof (first_at_tdata (ctx c) key s B l r n d Hx Ht Hl) as Hf. exists l.*2, d, r.*2. split; [done|].
    destruct Hf as [Hf _]. by apply (removal_coherent (ctx c) _ _ _ d), removal_tdata.
  - intros h' Hs' HB. exists t, B. split; [done|]. right. split; [by apply absent_tdata|done].
Qed.

End refinement.

(** A table that [hash_alloc] returns, once locked, is an empty table
    with the given context: the state that the operations start from. *)
Theorem hash_alloc_empty {K : Kmalloc} h c :
  c ≠ NULL ->
  wp (r ← hash_alloc c true; match r.2 with Some p => hash_lock p;; mret r | None => mret r end) h
    (λ r h', (r = (- ENOMEM, None) ∧ h' = ds_tick h) ∨
       ∃ p, r = (0, Some p) ∧ p ∉ kh_live h ∧ hstate h' p c false Leaf ∅).
Proof.
  intros Hc. unfold hash_alloc. rewrite decide_False by naive_solver. wp_step. wp_step. apply wp_kmalloc.
  { rewrite decide_True by done. apply wp_ret, wp_ret. by left. }
  intros p Hp Hlive _. pose proof (valid_ptr_nonnull _ Hp) as Hp0. rewrite decide_False by done.
  unfold hash_init. wp_step. wp_step. eapply wp_update; [done|apply lookup_insert_eq|]. wp_step. apply wp_ret.
  cbn [snd]. unfold hash_lock, hash_assert. wp_step. wp_step. wp_step; [by apply bool_decide_eq_true|].
  wp_step. eapply wp_load; [done|simpl; apply lookup_insert_eq|]. wp_step. wp_step.
  eapply wp_update; [done|simpl; apply lookup_insert_eq|]. apply wp_ret. right. exists p.
  split_and!; [done..|]. split; [done|done|simpl; apply lookup_insert_eq| |done|by split].
  split; [done|simpl; apply lookup_insert_eq|done|constructor|constructor].
Qed.

(** [hash_free] never frees a table that only it holds: it asks the
    embedded tree whether it is empty, which asserts that the lock of the
    tree is held, and so panics on every table whose tree is unlocked, the
    state every operation leaves it in. *)
Theorem hash_free_panics h p c t B :
  hstate h p c false t B -> hash_free p h = Stop Panic.
Proof.
  intros Hs. pose proof Hs as [Hp _ _ [_ Hbt _ _ _] _ _]. unfold hash_free.
  apply stop_bind. eapply wp_hash_assert_locked; [done|]. apply stop_bind. eapply wp_hash_btree; [done|].
  apply stop_bind_stop. unfold btree_isempty, btree_assert_locked, btree_assert. apply stop_bind_stop, stop_bind.
  wp_step; [apply bool_decide_eq_true; by apply valid_ptr_nonnull|].
  apply stop_bind. by eapply wp_bt.
Qed.

(** A table at address 900 that hashes to the remainder modulo 4 and holds
    the data 3 and 7 under the hash value 3. *)
Definition mod4_ctx : ptr -> hash_ctx_t := λ _, HashCtx None (Some (λ k, k `mod` 4)).
Definition no_strings : ptr -> ptr -> Z := λ _ _, 1.
Definition table2 : gmap Z chain := {[ 3 := [(11, 3); (12, 7)] ]}.
Definition table2_heap : dsheap :=
  DsHeap ∅ ∅ ∅ {[ 900 := Btree 10 1 false ]} {[ 10 := BNode 3 11 0 0 0 900 ]}
    {[ 900 := Htab 77 true ]} {[ 11 := HNode 0 3 12; 12 := HNode 11 7 0 ]} ∅ ∅ 0.

Lemma table2_state : hstate table2_heap 900 77 false (Node Leaf 10 3 11 Leaf) table2.
Proof.
  split; [done|done|done|..].
  - split; [done|done|by vm_compute|by apply (bool_decide_unpack _)|repeat constructor].
  - intros k. unfold table2, tmap. simpl. destruct (decide (k = 3)) as [->|].
    + by rewrite lookup_insert_eq, lookup_singleton_eq.
    + by rewrite lookup_insert_ne, lookup_singleton_ne by done.
  - unfold table2. split.
    + intros k xs [<- <-]%lookup_singleton_Some. split; [done|].
      repeat split; [by apply (bool_decide_unpack _)|by apply (bool_decide_unpack _)].
    + intros k1 k2 xs ys Hne [<- _]%lookup_singleton_Some [<- _]%lookup_singleton_Some. done.
Qed.

Lemma table2_coherent : coherent (mod4_ctx 77) (tdata table2).
Proof.
  intros k ds d. unfold tdata, table2. rewrite map_fmap_singleton. intros [<- <-]%lookup_singleton_Some.
  simpl. intros [->|[->|[]%elem_of_nil]%elem_of_cons]%elem_of_cons; done.
Qed.

Lemma hash_refines_map_witness :
  wp (run_hops (K := bump_kmalloc) mod4_ctx no_strings 900 [HInsert 15 15; HDelete 3 false; HSearch 7 false])
    table2_heap (λ rs h', ∃ t' B',
      map_run (mod4_ctx 77) no_strings (tdata table2) [HInsert 15 15; HDelete 3 false; HSearch 7 false] rs (tdata B') ∧
      coherent (mod4_ctx 77) (tdata B') ∧ hstate h' 900 77 false t' B').
Proof. eapply (hash_refines_map (K := bump_kmalloc)); [exact table2_state|exact table2_coherent|by repeat constructor]. Defined.

Lemma hash_delete_coherent_witness :
  wp (hash_delete (K := bump_kmalloc) mod4_ctx no_strings 900 3 false) table2_heap
    (λ r h', ∃ t' B', hstate h' 900 77 false t' B' ∧
    ((∃ l d r0, first_at (mod4_ctx 77) no_strings (tdata table2) 3 false l d r0 ∧
        ((r = 0 ∧ tdata B' = if decide (l ++ r0 = []) then delete 3 (tdata table2)
                             else <[3 := l ++ r0]> (tdata table2)) ∨
         (r = - ENOMEM ∧ l = [] ∧ r0 ≠ [] ∧ tdata B' = delete 3 (tdata table2)))) ∨
     (absent (mod4_ctx 77) no_strings (tdata table2) 3 false ∧ r = - ENOENT ∧ B' = table2))).
Proof.
  apply (hash_delete_coherent (K := bump_kmalloc) mod4_ctx no_strings table2_heap 900 77
           (Node Leaf 10 3 11 Leaf) table2 3 false).
  - exact table2_state.
  - exact table2_coherent.
Defined.

Lemma hash_alloc_empty_witness :
  wp (r ← hash_alloc (K := bump_kmalloc) 77 true;
      match r.2 with Some p => hash_lock p;; mret r | None => mret r end) empty_dsheap
    (λ r h', (r = (- ENOMEM, None) ∧ h' = ds_tick empty_dsheap) ∨
       ∃ p, r = (0, Some p) ∧ p ∉ kh_live empty_dsheap ∧ hstate h' p 77 false Leaf ∅).
Proof. apply (hash_alloc_empty (K := bump_kmalloc)). done. Defined.

Lemma hash_free_panics_witness : hash_free 900 table2_heap = Stop Panic.
Proof. eapply hash_free_panics. exact table2_state. Defined.

Example hash_run_example :
  match run_hops (K := bump_kmalloc) mod4_ctx no_strings 900
    [HInsert 15 15; HInsert 2 2; HSearch 15 false; HDelete 7 false; HDelete 3 false; HSearch 15 false;
     HSearch 7 false; HDelete 15 false; HSearch 15 false; HSearch 2 false] table2_heap with
  | Ok rs _ => rs = [(0, None); (0, None); (0, Some 15); (0, None); (0, None); (0, Some 15);
                     (- ENOENT, None); (0, None); (- ENOENT, None); (0, Some 2)]
  | Stop _ => False
  end.
Proof. vm_compute. reflexivity. Qed.

(** Keys and data of different kinds, as in tmpfs, whose keys are names and
    whose data are directory entries: every key hashes to 3 and an entry [d]
    has the name [d - 100], but [hash_func] applied to an entry gives its
    address. *)
Definition name_ctx : ptr -> hash_ctx_t :=
  λ _, HashCtx (Some (λ key d, d - 100 - key)) (Some (λ x, if decide (x < 100) then 3 else x)).

(** The rest of a chain is entered under the hash value of its first
    datum where that of its key is meant.  With keys and data of different
    kinds, two entries whose names collide are inserted and the first is
    deleted: every call succeeds, and the second can no longer be found. *)
Theorem hash_delete_misplaces :
  match run_hops (K := bump_kmalloc) name_ctx no_strings 900
    [HInsert 20 120; HInsert 21 121; HSearch 21 false; HDelete 20 false; HSearch 21 false]
    (DsHeap ∅ ∅ ∅ {[ 900 := BTREE_INIT ]} ∅ {[ 900 := Htab 77 true ]} ∅ ∅ ∅ 0) with
  | Ok rs _ => rs = [(0, None); (0, None); (0, Some 121); (0, None); (- ENOENT, None)]
  | Stop _ => False
  end.
Proof. vm_compute. reflexivity. Qed.
