(* ===== verification/Paging.v ===== *)
(** * kernel/arch/x86_64/paging.c: page tables

    The page tables are reached as the kernel reaches them, through the
    recursive slot 510 of the root table: [PML4E], [PDPTE], [PDTE] and [PTE]
    are virtual addresses, and reading or writing an entry is a memory access
    that goes through the address translation of the machine ([translate],
    the four-level walk of x86-64 with its large pages).  Physical memory is
    a map from 8-byte words to their values.

    The page-frame allocator [pmman] and the allocator of kernel addresses
    [vmman] are used through the interfaces [Frames] and [Kva]: what the
    components of Zone.v and Vmm.v promise. *)

From S2P Require Import Prelude.

(** ** Flags and addresses *)

Definition PTE_P : Z := 1.
Definition PTE_W : Z := 2.
Definition PTE_U : Z := 4.
Definition PTE_PWT : Z := 8.
Definition PTE_PCD : Z := 16.
Definition PTE_PS : Z := 128.
Definition PTE_X : Z := PTE_P.
Definition PTE_R : Z := PTE_P.
Definition PTE_PCDWT : Z := Z.lor PTE_PCD PTE_PWT.
Definition PTE_KRW : Z := Z.lor PTE_R (Z.lor PTE_R PTE_W).
Definition PTE_ALLOC_PAGE : Z := 2048.
Definition PTE_REMAPPG : Z := 4096.
Definition PTE_ZERO : Z := 8192.

(** [flags & bit], as a condition; also [_ispresent], [_isPS], ... *)
Definition isset (flags bit : Z) : bool := bool_decide (Z.land flags bit ≠ 0).

Definition PGSZ : Z := 4096.
Definition NPTE : Z := 512.
Definition iL_INV (i : Z) : bool := bool_decide (i < 0 ∨ i >= NPTE).
Definition PGOFF (p : Z) : Z := Z.land (u64 p) (PGSZ - 1).
Definition PGROUND (p : Z) : Z := Z.land (u64 p) (two64 - PGSZ).
Definition NPAGE (p : Z) : Z := p / PGSZ + (if decide (PGOFF p = 0) then 0 else 1).
Definition extract_vmflags (flags : Z) : Z := PGOFF flags.
Definition USTACK : Z := 140737488355328.

(** The index fields of [union viraddr]. *)
Definition PTI (v : Z) : Z := Z.land (Z.shiftr v 12) 511.
Definition PDI (v : Z) : Z := Z.land (Z.shiftr v 21) 511.
Definition PDPTI (v : Z) : Z := Z.land (Z.shiftr v 30) 511.
Definition PML4I (v : Z) : Z := Z.land (Z.shiftr v 39) 511.
(** [__viraddr(pml4e, pdpte, pde, pte)]: the bits above 47 are zero. *)
Definition viraddr (i4 i3 i2 i1 : Z) : Z :=
  Z.land i4 511 * 549755813888 + Z.land i3 511 * 1073741824 + Z.land i2 511 * 2097152 + Z.land i1 511 * 4096.

(** The tables in the recursive window. *)
Definition PML4 : Z := 18446743522877890560.
Definition PDPT (i4 : Z) : Z := u64 (18446743522875801600 + 4096 * i4).
Definition PDT (i4 i3 : Z) : Z := u64 (18446743521806254080 + 2097152 * i4 + 4096 * i3).
Definition PT (i4 i3 i2 : Z) : Z := u64 (18446742974197923840 + 1073741824 * i4 + 2097152 * i3 + 4096 * i2).
Definition PML4E (i4 : Z) : Z := u64 (PML4 + 8 * i4).
Definition PDPTE (i4 i3 : Z) : Z := u64 (PDPT i4 + 8 * i3).
Definition PDTE (i4 i3 i2 : Z) : Z := u64 (PDT i4 i3 + 8 * i2).
Definition PTE (i4 i3 i2 i1 : Z) : Z := u64 (PT i4 i3 i2 + 8 * i1).

(** ** The machine *)

(** Page frames: page-aligned, not 0, below the 52 bits of a physical address. *)
Definition frame_ok (f : Z) : Prop := 0 < f < 4503599627370496 ∧ f mod PGSZ = 0.

(** What [pmman] promises: which frames it manages (those in a valid zone),
    and that [get_page] returns a managed frame that has no references. *)
Class Frames := {
  fr_managed : Z -> bool;
  fr_choose : nat -> gset Z -> option Z;
  fr_fresh n D f : fr_choose n D = Some f -> frame_ok f ∧ f ∉ D ∧ fr_managed f = true;
}.

(** What [vmman.alloc(sz)] promises: a page-aligned range of the kernel heap
    [KHEAPBASE, KHEAPBASE + 4 GiB) that overlaps no range in use. *)
Class Kva := {
  kva_choose : nat -> gmap Z Z -> Z -> option Z;
  kva_fresh n D sz v : kva_choose n D sz = Some v ->
    18446743528248705024 <= v ∧ v + sz <= 18446743532543672320 ∧ v mod PGSZ = 0 ∧ D !! v = None ∧
    ∀ b z, D !! b = Some z -> v + sz <= b ∨ b + z <= v;
}.

Record machine := Machine {
  p_mem : gmap Z Z;     (* physical words, by address / 8; absent: 0 *)
  p_cr3 : Z;            (* the root table *)
  p_refs : gmap Z Z;    (* reference counts of the frames in use *)
  p_kva : gmap Z Z;     (* sizes of the kernel ranges in use, by base *)
  p_flush : list Z;     (* addresses given to [invlpg], latest first *)
  p_ticks : nat;        (* requests for frames and addresses so far *)
}.

Definition set_mem v s := Machine v (p_cr3 s) (p_refs s) (p_kva s) (p_flush s) (p_ticks s).
Definition set_cr3 v s := Machine (p_mem s) v (p_refs s) (p_kva s) (p_flush s) (p_ticks s).
Definition set_refs v s := Machine (p_mem s) (p_cr3 s) v (p_kva s) (p_flush s) (p_ticks s).
Definition set_kva v s := Machine (p_mem s) (p_cr3 s) (p_refs s) v (p_flush s) (p_ticks s).
Definition set_flush v s := Machine (p_mem s) (p_cr3 s) (p_refs s) (p_kva s) v (p_ticks s).
Definition set_ticks v s := Machine (p_mem s) (p_cr3 s) (p_refs s) (p_kva s) (p_flush s) v.

Definition word (m : gmap Z Z) (w : Z) : Z := default 0 (m !! w).
(** Entry [i] of the table in frame [f]. *)
Definition entry (m : gmap Z Z) (f i : Z) : Z := word m (f / 8 + i).
(** The physical address in an entry (bits 12 to 51). *)
Definition frame_of (e : Z) : Z := Z.land e 4503599627366400.
Definition present (e : Z) : bool := isset e PTE_P.
Definition large (e : Z) : bool := isset e PTE_PS.

(** The walk of the machine: the physical address behind [va]. *)
Definition translate (s : machine) (va : Z) : option Z :=
  let m := p_mem s in
  let e4 := entry m (p_cr3 s) (PML4I va) in
  if negb (present e4) then None else
  let e3 := entry m (frame_of e4) (PDPTI va) in
  if negb (present e3) then None else
  if large e3 then Some (frame_of e3 - frame_of e3 mod 1073741824 + va mod 1073741824) else
  let e2 := entry m (frame_of e3) (PDI va) in
  if negb (present e2) then None else
  if large e2 then Some (frame_of e2 - frame_of e2 mod 2097152 + va mod 2097152) else
  let e1 := entry m (frame_of e2) (PTI va) in
  if negb (present e1) then None else
  Some (frame_of e1 + va mod 4096).

(** [((pte_t * )va)->raw] and a store to it; a fault stops the kernel. *)
Definition vload (va : Z) : M machine Z := λ s,
  match translate s va with
  | Some pa => Ok (word (p_mem s) (pa / 8)) s
  | None => Stop BadAccess
  end.
Definition vstore (va v : Z) : M machine unit := λ s,
  match translate s va with
  | Some pa => Ok tt (set_mem (<[pa / 8 := v]> (p_mem s)) s)
  | None => Stop BadAccess
  end.

Definition invlpg (v : Z) : M machine unit := modify (λ s, set_flush (v :: p_flush s) s).
(** [send_tlb_shootdown(rdcr3(), v)] (ipi.c): [invlpg] here; the other CPUs flush everything. *)
Definition send_tlb_shootdown (v : Z) : M machine unit := invlpg v.

(** A page of zeros. *)
Definition zero_frame (f : Z) (m : gmap Z Z) : gmap Z Z :=
  filter (λ p, ¬ (f / 8 <= p.1 < f / 8 + NPTE)) m.

Section paging.
Context {FR : Frames} {KV : Kva}.

(** [pmman.get_page(GFP_NORMAL | (zero ? GFP_ZERO : 0))] *)
Definition get_page (zero : bool) : M machine Z := λ s,
  let s' := set_ticks (S (p_ticks s)) s in
  match fr_choose (p_ticks s) (dom (p_refs s)) with
  | Some f => Ok f (set_mem ((if zero then zero_frame f else id) (p_mem s)) (set_refs (<[f := 1]> (p_refs s)) s'))
  | None => Ok 0 s'
  end.

(** [pmman.free(f)]: drops one reference of a managed frame that has any. *)
Definition pmman_free (f : Z) : M machine unit := λ s,
  if decide (f = 0) then Stop Panic else
  match p_refs s !! f with
  | Some n =>
      if fr_managed f
      then Ok tt (set_refs (if decide (n <= 1) then delete f (p_refs s) else <[f := n - 1]> (p_refs s)) s)
      else Ok tt s
  | None => Ok tt s
  end.

(** [__page_incr(f)]; the caller drops the result. *)
Definition page_incr (f : Z) : M machine unit := λ s,
  if decide (f = 0) then Stop Panic else
  if fr_managed f then Ok tt (set_refs (<[f := default 0 (p_refs s !! f) + 1]> (p_refs s)) s) else Ok tt s.

(** [vmman.alloc(sz)], 0 when there is none, and [vmman.free(v)]. *)
Definition vmman_alloc (sz : Z) : M machine Z := λ s,
  if decide (sz = 0 ∨ PGOFF sz ≠ 0) then Stop Panic else
  let s' := set_ticks (S (p_ticks s)) s in
  match kva_choose (p_ticks s) (p_kva s) sz with
  | Some v => Ok v (set_kva (<[v := sz]> (p_kva s)) s')
  | None => Ok 0 s'
  end.
Definition vmman_free (v : Z) : M machine unit := λ s,
  match p_kva s !! v with
  | Some _ => Ok tt (set_kva (delete v (p_kva s)) s)
  | None => Stop Panic
  end.

(** ** Tables *)

(** [if (!pte_ispresent(slot)) { lvl = get_page; slot->raw = ...; flush }],
    the block that creates one level of tables.  [None]: no memory;
    [Some 0]: there was a table; otherwise the new one. *)
Definition get_table (slot child flags : Z) : M machine (option Z) :=
  e ← vload slot;
  if present e then mret (Some 0) else
  lvl ← get_page true;
  if decide (lvl = 0) then mret None else
  vstore slot (Z.lor lvl (PGOFF (Z.lor (Z.lor flags PTE_PWT) PTE_KRW)));;
  send_tlb_shootdown child;;
  invlpg child;;
  mret (Some lvl).

(** [if (lvl != 0) { slot->raw = 0; flush; pmman.free(lvl); }] of the error paths. *)
Definition put_table (slot child lvl : Z) : M machine unit :=
  if decide (lvl = 0) then mret tt else
  vstore slot 0;;
  send_tlb_shootdown child;;
  invlpg child;;
  pmman_free lvl.

Definition x86_64_map_pdpt (i4 flags : Z) : M machine Z :=
  if iL_INV i4 then mret (- EINVAL) else
  if isset flags PTE_PS then mret (- ENOTSUP) else
  l3 ← get_table (PML4E i4) (PDPTE i4 0) flags;
  match l3 with None => mret (- ENOMEM) | Some _ => mret 0 end.

Definition x86_64_map_pdt (i4 i3 flags : Z) : M machine Z :=
  if iL_INV i4 || iL_INV i3 then mret (- EINVAL) else
  if isset flags PTE_PS then mret (- ENOTSUP) else
  l3 ← get_table (PML4E i4) (PDPTE i4 0) flags;
  match l3 with
  | None => mret (- ENOMEM)
  | Some lvl3 =>
      l2 ← get_table (PDPTE i4 i3) (PDTE i4 i3 0) flags;
      match l2 with
      | None => put_table (PML4E i4) (PDPTE i4 0) lvl3;; mret (- ENOMEM)
      | Some _ => mret 0
      end
  end.

(** The three levels above a page: true when they are there.  The same
    code is the body of [x86_64_map_pt] and the first half of [x86_64_map]. *)
Definition get_tables (i4 i3 i2 flags : Z) : M machine bool :=
  l3 ← get_table (PML4E i4) (PDPTE i4 0) flags;
  match l3 with
  | None => mret false
  | Some lvl3 =>
      l2 ← get_table (PDPTE i4 i3) (PDTE i4 i3 0) flags;
      match l2 with
      | None => put_table (PML4E i4) (PDPTE i4 0) lvl3;; mret false
      | Some lvl2 =>
          l1 ← get_table (PDTE i4 i3 i2) (PTE i4 i3 i2 0) flags;
          match l1 with
          | None =>
              put_table (PDPTE i4 i3) (PDTE i4 i3 0) lvl2;;
              put_table (PML4E i4) (PDPTE i4 0) lvl3;;
              mret false
          | Some _ => mret true
          end
      end
  end.

Definition x86_64_map_pt (i4 i3 i2 flags : Z) : M machine Z :=
  if iL_INV i4 || iL_INV i3 || iL_INV i2 then mret (- EINVAL) else
  if isset flags PTE_PS then mret (- ENOTSUP) else
  ok ← get_tables i4 i3 i2 flags;
  if (ok : bool) then mret 0 else mret (- ENOMEM).

Definition x86_64_unmap_pdpt (i4 : Z) : M machine unit :=
  if iL_INV i4 then mret tt else
  e ← vload (PML4E i4);
  if negb (present e) then mret tt else
  vstore (PML4E i4) 0;;
  send_tlb_shootdown (PDPTE i4 0);;
  invlpg (PDPTE i4 0);;
  pmman_free (PGROUND e).

Definition x86_64_unmap_pdt (i4 i3 : Z) : M machine unit :=
  if iL_INV i4 || iL_INV i3 then mret tt else
  e ← vload (PML4E i4);
  if negb (present e) then mret tt else
  e ← vload (PDPTE i4 i3);
  if negb (present e) then mret tt else
  vstore (PDPTE i4 i3) 0;;
  send_tlb_shootdown (PDTE i4 i3 0);;
  invlpg (PDTE i4 i3 0);;
  pmman_free (PGROUND e).

Definition x86_64_unmap_pt (i4 i3 i2 : Z) : M machine unit :=
  if iL_INV i4 || iL_INV i3 || iL_INV i2 then mret tt else
  e ← vload (PML4E i4);
  if negb (present e) then mret tt else
  e ← vload (PDPTE i4 i3);
  if negb (present e) then mret tt else
  e ← vload (PDTE i4 i3 i2);
  if negb (present e) then mret tt else
  vstore (PDTE i4 i3 i2) 0;;
  send_tlb_shootdown (PTE i4 i3 i2 0);;
  invlpg (PTE i4 i3 i2 0);;
  pmman_free (PGROUND e).

(** [_PML4_] is the root table of the kernel; the previous [cr3] is returned. *)
Definition x86_64_swtchvm (kernel_pml4 pdbr : Z) : M machine Z :=
  old ← gets p_cr3;
  modify (set_cr3 (if decide (pdbr = 0) then kernel_pml4 else pdbr));;
  mret old.

(** ** Pages *)

Definition x86_64_map (paddr i4 i3 i2 i1 flags : Z) : M machine Z :=
  let do_remap := isset flags PTE_REMAPPG in
  let vaddr := viraddr i4 i3 i2 i1 in
  let flags := extract_vmflags flags in
  if iL_INV i4 || iL_INV i3 || iL_INV i2 || iL_INV i1 then mret (- EINVAL) else
  if isset flags PTE_PS then mret (- ENOTSUP) else
  ok ← get_tables i4 i3 i2 flags;
  if negb ok then mret (- ENOMEM) else
  e ← vload (PTE i4 i3 i2 i1);
  when (negb (present e) || do_remap) (vstore (PTE i4 i3 i2 i1) (Z.lor (PGROUND paddr) (PGOFF flags)));;
  send_tlb_shootdown vaddr;;
  invlpg vaddr;;
  mret 0.

(** The entry of a page, or [None] when a level is missing. *)
Definition find_entry (i4 i3 i2 i1 : Z) : M machine (option Z) :=
  e ← vload (PML4E i4);
  if negb (present e) then mret None else
  e ← vload (PDPTE i4 i3);
  if negb (present e) then mret None else
  e ← vload (PDTE i4 i3 i2);
  if negb (present e) then mret None else
  e ← vload (PTE i4 i3 i2 i1);
  if negb (present e) then mret None else mret (Some e).

Definition x86_64_unmap (i4 i3 i2 i1 : Z) : M machine unit :=
  found ← find_entry i4 i3 i2 i1;
  match found with
  | Some e =>
      vstore (PTE i4 i3 i2 i1) 0;;
      send_tlb_shootdown (viraddr i4 i3 i2 i1)
  | None => mret tt
  end;;
  let paddr := default 0 found in
  invlpg (viraddr i4 i3 i2 i1);;
  when (isset paddr PTE_ALLOC_PAGE) (pmman_free (PGROUND paddr)).

(** [for (nr = NPAGE(sz); nr; --nr, vaddr += PGSZ) ...] *)
Fixpoint unmap_loop (nr : nat) (vaddr : Z) : M machine unit :=
  match nr with
  | O => mret tt
  | S nr =>
      x86_64_unmap (PML4I vaddr) (PDPTI vaddr) (PDI vaddr) (PTI vaddr);;
      unmap_loop nr (u64 (vaddr + PGSZ))
  end.

Definition x86_64_unmap_n (vaddr sz : Z) : M machine unit := unmap_loop (Z.to_nat (NPAGE sz)) vaddr.

(** The loop of [x86_64_map_i]: the error and the pages left. *)
Fixpoint map_i_loop (nr : nat) (vaddr paddr flags : Z) : M machine (Z * nat) :=
  match nr with
  | O => mret (0, O)
  | S nr' =>
      err ← x86_64_map paddr (PML4I vaddr) (PDPTI vaddr) (PDI vaddr) (PTI vaddr) flags;
      if decide (err ≠ 0) then mret (err, nr) else
      map_i_loop nr' (u64 (vaddr + PGSZ)) (u64 (paddr + PGSZ)) flags
  end.

Definition x86_64_map_i (vaddr paddr sz flags : Z) : M machine Z :=
  r ← map_i_loop (Z.to_nat (NPAGE sz)) vaddr paddr flags;
  if decide (r.1 = 0) then mret 0 else
  x86_64_unmap_n vaddr (u64 ((NPAGE sz - Z.of_nat r.2) * PGSZ));;
  mret r.1.

(** The loop of [x86_64_map_n]. *)
Fixpoint map_n_loop (nr : nat) (vaddr flags : Z) : M machine (Z * nat) :=
  match nr with
  | O => mret (0, O)
  | S nr' =>
      paddr ← get_page (isset flags PTE_ZERO);
      if decide (paddr = 0) then mret (- ENOMEM, nr) else
      err ← x86_64_map paddr (PML4I vaddr) (PDPTI vaddr) (PDI vaddr) (PTI vaddr) (Z.lor flags PTE_ALLOC_PAGE);
      if decide (err ≠ 0) then mret (err, nr) else
      map_n_loop nr' (u64 (vaddr + PGSZ)) flags
  end.

Definition x86_64_map_n (vaddr sz flags : Z) : M machine Z :=
  r ← map_n_loop (Z.to_nat (NPAGE sz)) vaddr flags;
  if decide (r.1 = 0) then mret 0 else
  x86_64_unmap_n vaddr (u64 ((NPAGE sz - Z.of_nat r.2) * PGSZ));;
  mret r.1.

(** The error, and the address of the entry stored through [pte]. *)
Definition x86_64_getmapping (addr : Z) : M machine (Z * option Z) :=
  if decide (addr = 0) then mret (- EINVAL, None) else
  found ← find_entry (PML4I addr) (PDPTI addr) (PDI addr) (PTI addr);
  match found with
  | None => mret (- ENOENT, None)
  | Some _ => mret (0, Some (PTE (PML4I addr) (PDPTI addr) (PDI addr) (PTI addr)))
  end.

(** [while (nr--) ...] of [x86_64_mprotect]; [mask] holds the bits to clear. *)
Fixpoint mprotect_loop (nr : nat) (vaddr mask : Z) : M machine Z :=
  match nr with
  | O => mret 0
  | S nr =>
      r ← x86_64_getmapping vaddr;
      if decide (r.1 ≠ 0) then mret r.1 else
      let pte := default 0 r.2 in
      e ← vload pte;
      vstore pte (Z.ldiff e mask);;
      send_tlb_shootdown vaddr;;
      mprotect_loop nr (u64 (vaddr + PGSZ)) mask
  end.

Definition mask_unless (flags bit : Z) : Z := if isset flags bit then 0 else bit.
Definition mprotect_mask (flags : Z) : Z :=
  extract_vmflags (Z.lor (Z.lor (mask_unless flags PTE_U) (mask_unless flags PTE_R))
    (Z.lor (mask_unless flags PTE_W) (mask_unless flags PTE_X))).

Definition x86_64_mprotect (vaddr sz flags : Z) : M machine Z :=
  let nr := NPAGE sz in
  let vaddr := PGROUND vaddr in
  let flags := extract_vmflags flags in
  if negb (isset flags PTE_P) then mret (- EINVAL) else
  mprotect_loop (Z.to_nat nr) vaddr (mprotect_mask flags).

(** ** Temporary mappings *)

(** The error, and the address stored through [pvp]. *)
Definition x86_64_mount (paddr : Z) (pvp : bool) : M machine (Z * Z) :=
  if decide (paddr = 0 ∨ pvp = false) then mret (- EINVAL, 0) else
  vaddr ← vmman_alloc PGSZ;
  if decide (vaddr = 0) then mret (- ENOMEM, 0) else
  err ← x86_64_map_i vaddr paddr PGSZ PTE_KRW;
  if decide (err ≠ 0) then vmman_free vaddr;; mret (err, 0) else
  mret (0, vaddr).

Definition x86_64_unmount (vaddr : Z) : M machine unit := x86_64_unmap_n vaddr PGSZ.

(** ** Whole address spaces *)

(** [for (i = ...; i < ...; ++i) body(i)], and the same with a body that may
    leave the function with an error. *)
Fixpoint for_each (l : list Z) (body : Z -> M machine unit) : M machine unit :=
  match l with [] => mret tt | i :: l => body i;; for_each l body end.
Fixpoint for_err (l : list Z) (body : Z -> M machine Z) : M machine Z :=
  match l with
  | [] => mret 0
  | i :: l => err ← body i; if decide (err ≠ 0) then mret err else for_err l body
  end.

(** [if (!pte_ispresent(va)) continue; body] *)
Definition if_present (va : Z) (body : M machine unit) : M machine unit :=
  e ← vload va; if present e then body else mret tt.

Definition x86_64_unmap_full : M machine unit :=
  for_each (seqZ 0 (PML4I USTACK)) (λ i4, if_present (PML4E i4) (
    for_each (seqZ 0 NPTE) (λ i3, if_present (PDPTE i4 i3) (
      for_each (seqZ 0 NPTE) (λ i2, if_present (PDTE i4 i3 i2) (
        for_each (seqZ 0 NPTE) (λ i1, if_present (PTE i4 i3 i2 i1) (x86_64_unmap i4 i3 i2 i1));;
        x86_64_unmap_pt i4 i3 i2));;
      x86_64_unmap_pdt i4 i3));;
    x86_64_unmap_pdpt i4)).

Definition x86_64_fullvm_unmap (kernel_pml4 pml4 : Z) : M machine unit :=
  if decide (pml4 = 0) then mret tt else
  old ← x86_64_swtchvm kernel_pml4 pml4;
  x86_64_unmap_full;;
  x86_64_swtchvm kernel_pml4 old;;
  mret tt.

Definition x86_64_kvmcpy (dstp : Z) : M machine Z :=
  if decide (dstp = 0 ∨ PGOFF dstp ≠ 0) then mret (- EINVAL) else
  r ← x86_64_mount dstp true;
  if decide (r.1 ≠ 0) then mret r.1 else
  let dstv := r.2 in
  for_each (seqZ (PML4I USTACK) (NPTE - PML4I USTACK)) (λ i,
    e ← vload (PML4E i); vstore (u64 (dstv + 8 * i)) e);;
  vstore (u64 (dstv + 8 * 510)) (Z.lor dstp (Z.lor PTE_KRW PTE_PCDWT));;
  x86_64_unmount dstv;;
  mret 0.

Definition ismmio_addr (x : Z) : bool := bool_decide (x >= 4261412864 ∧ x < 4294967296).

(** [pt[i1].w = 0] when it is set, then the copy of the entry. *)
Definition copy_page (i4 i3 i2 i1 va : Z) : M machine unit :=
  if_present va (
    e ← vload va;
    when (isset e PTE_W) (
      vstore va (Z.ldiff e PTE_W);;
      send_tlb_shootdown (viraddr i4 i3 i2 i1));;
    e ← vload va;
    vstore (PTE i4 i3 i2 i1) e;;
    if ismmio_addr (PGROUND e) then mret tt else page_incr (PGROUND e)).

(** One table of the copy: [make] creates it in the destination, then the
    source table is mounted and [body] runs over its entries. *)
Definition copy_table (va : Z) (make : Z -> M machine Z) (body : Z -> M machine Z) : M machine Z :=
  e ← vload va;
  if negb (present e) then mret 0 else
  err ← make (PGOFF e);
  if decide (err ≠ 0) then mret err else
  e ← vload va;
  r ← x86_64_mount e true;
  if decide (r.1 ≠ 0) then mret r.1 else
  err ← body r.2;
  x86_64_unmount r.2;;
  mret err.

Definition x86_64_lazycpy (kernel_pml4 dst src : Z) : M machine Z :=
  if decide (dst = 0 ∨ src = 0) then mret (- EINVAL) else
  r ← x86_64_mount src true;
  if decide (r.1 ≠ 0) then mret r.1 else
  let pml4 := r.2 in
  old ← x86_64_swtchvm kernel_pml4 dst;
  err ← for_err (seqZ 0 (PML4I USTACK)) (λ i4,
    copy_table (u64 (pml4 + 8 * i4)) (x86_64_map_pdpt i4) (λ pdpt,
      for_err (seqZ 0 NPTE) (λ i3,
        copy_table (u64 (pdpt + 8 * i3)) (x86_64_map_pdt i4 i3) (λ pdt,
          for_err (seqZ 0 NPTE) (λ i2,
            copy_table (u64 (pdt + 8 * i2)) (x86_64_map_pt i4 i3 i2) (λ pt,
              for_each (seqZ 0 NPTE) (λ i1, copy_page i4 i3 i2 i1 (u64 (pt + 8 * i1)));;
              mret 0))))));
  when (bool_decide (err ≠ 0)) x86_64_unmap_full;;
  x86_64_swtchvm kernel_pml4 old;;
  x86_64_unmount pml4;;
  mret err.

(** The error, and the root table stored through [ref]. *)
Definition x86_64_pml4alloc (ref : bool) : M machine (Z * Z) :=
  if negb ref then mret (- EINVAL, 0) else
  pml4 ← get_page true;
  if decide (pml4 = 0) then mret (- ENOMEM, 0) else
  err ← x86_64_kvmcpy pml4;
  if decide (err ≠ 0) then pmman_free pml4;; mret (err, 0) else
  mret (0, pml4).

Definition x86_64_pml4free (pgdir : Z) : M machine unit :=
  if decide (pgdir = 0) then mret tt else pmman_free pgdir.

(** ** Copying through temporary mappings *)

Definition byte_of (w i : Z) : Z := Z.land (Z.shiftr w (8 * i)) 255.
Definition with_byte (w i b : Z) : Z := Z.lor (Z.ldiff w (Z.shiftl 255 (8 * i))) (Z.shiftl (Z.land b 255) (8 * i)).

Definition vload8 (va : Z) : M machine Z := λ s,
  match translate s va with
  | Some pa => Ok (byte_of (word (p_mem s) (pa / 8)) (pa mod 8)) s
  | None => Stop BadAccess
  end.
Definition vstore8 (va b : Z) : M machine unit := λ s,
  match translate s va with
  | Some pa => Ok tt (set_mem (<[pa / 8 := with_byte (word (p_mem s) (pa / 8)) (pa mod 8) b]> (p_mem s)) s)
  | None => Stop BadAccess
  end.

Fixpoint memcpy (n : nat) (dst src : Z) : M machine unit :=
  match n with
  | O => mret tt
  | S n => b ← vload8 src; vstore8 dst b;; memcpy n (u64 (dst + 1)) (u64 (src + 1))
  end.

(** Each round copies at least one byte, so [size] rounds are enough. *)
Fixpoint memcpypp_loop (fuel : nat) (pdst psrc size : Z) : M machine Z :=
  if decide (size = 0) then mret 0 else
  match fuel with
  | O => halt OutOfFuel
  | S fuel =>
      d ← x86_64_mount (PGROUND pdst) true;
      if decide (d.1 ≠ 0) then mret d.1 else
      v ← x86_64_mount (PGROUND psrc) true;
      if decide (v.1 ≠ 0) then x86_64_unmount d.2;; mret v.1 else
      let len := (PGSZ - (PGOFF psrc `max` PGOFF pdst)) `min` PGSZ `min` size in
      memcpy (Z.to_nat len) (u64 (d.2 + PGOFF pdst)) (u64 (v.2 + PGOFF psrc));;
      x86_64_unmount v.2;;
      x86_64_unmount d.2;;
      memcpypp_loop fuel (u64 (pdst + len)) (u64 (psrc + len)) (size - len)
  end.
Definition x86_64_memcpypp (pdst psrc size : Z) : M machine Z := memcpypp_loop (Z.to_nat size) pdst psrc size.

Fixpoint memcpyvp_loop (fuel : nat) (paddr vaddr size : Z) : M machine Z :=
  if decide (size = 0) then mret 0 else
  match fuel with
  | O => halt OutOfFuel
  | S fuel =>
      d ← x86_64_mount (PGROUND paddr) true;
      if decide (d.1 ≠ 0) then mret d.1 else
      let len := (PGSZ - PGOFF paddr) `min` size in
      memcpy (Z.to_nat len) (u64 (d.2 + PGOFF paddr)) vaddr;;
      x86_64_unmount d.2;;
      memcpyvp_loop fuel (u64 (paddr + len)) (u64 (vaddr + len)) (size - len)
  end.
Definition x86_64_memcpyvp (paddr vaddr size : Z) : M machine Z := memcpyvp_loop (Z.to_nat size) paddr vaddr size.

Fixpoint memcpypv_loop (fuel : nat) (vaddr paddr size : Z) : M machine Z :=
  if decide (size = 0) then mret 0 else
  match fuel with
  | O => halt OutOfFuel
  | S fuel =>
      v ← x86_64_mount (PGROUND paddr) true;
      if decide (v.1 ≠ 0) then mret v.1 else
      let len := (PGSZ - PGOFF paddr) `min` size in
      memcpy (Z.to_nat len) vaddr (u64 (v.2 + PGOFF paddr));;
      x86_64_unmount v.2;;
      memcpypv_loop fuel (u64 (vaddr + len)) (u64 (paddr + len)) (size - len)
  end.
Definition x86_64_memcpypv (vaddr paddr size : Z) : M machine Z := memcpypv_loop (Z.to_nat size) vaddr paddr size.

(** ** kernel/arch/paging.c: pages of kernel memory *)

(** The interface of the architecture: each function calls its x86-64 version. *)
Definition arch_swtchvm := x86_64_swtchvm.
Definition arch_map := x86_64_map.
Definition arch_unmap := x86_64_unmap.
Definition arch_unmap_n := x86_64_unmap_n.
Definition arch_map_i := x86_64_map_i.
Definition arch_mprotect := x86_64_mprotect.
Definition arch_map_n := x86_64_map_n.
Definition arch_mount := x86_64_mount.
Definition arch_unmount := x86_64_unmount.
Definition arch_unmap_full := x86_64_unmap_full.
Definition arch_fullvm_unmap := x86_64_fullvm_unmap.
Definition arch_lazycpy := x86_64_lazycpy.
Definition arch_memcpypp := x86_64_memcpypp.
Definition arch_memcpyvp := x86_64_memcpyvp.
Definition arch_memcpypv := x86_64_memcpypv.
Definition arch_getmapping := x86_64_getmapping.
Definition arch_getpgdir := x86_64_pml4alloc.
Definition arch_putpgdir := x86_64_pml4free.
Definition arch_tlbshootdown (pdbr : Z) : Z -> M machine unit := send_tlb_shootdown.

(** The error, and the address stored through [addr]. *)
Definition arch_pagealloc (sz : Z) (addr : bool) : M machine (Z * Z) :=
  if negb addr then mret (- EINVAL, 0) else
  v ← vmman_alloc sz;
  if decide (v = 0) then mret (- ENOMEM, 0) else
  err ← arch_map_n v sz PTE_KRW;
  if decide (err ≠ 0) then vmman_free v;; mret (err, 0) else
  mret (0, v).

Definition arch_pagefree (v sz : Z) : M machine unit := arch_unmap_n v sz;; vmman_free v.
End paging.
