(* ===== verification/PagingSpec.v ===== *)
(** * Page tables: translation and its invariant

    The recursive window reaches every entry of the tables ([translate_slot]).
    On top of it the operations are specified by what they do to [translate],
    the address translation of the machine. *)

From S2P Require Import Prelude Paging.

(** [lia] with quotients and remainders by constants. *)
Ltac dlia := zify; Z.to_euclidean_division_equations; lia.

(** ** Bits of entries and addresses *)

Lemma isset_testbit x n : 0 <= n -> isset x (2 ^ n) = Z.testbit x n.
Proof.
  intros Hn. unfold isset. destruct (Z.testbit x n) eqn:E.
  - apply bool_decide_eq_true. intros H0. assert (Z.testbit (Z.land x (2 ^ n)) n = false) as Hf by (by rewrite H0, Z.bits_0).
    rewrite Z.land_spec, E, Z.pow2_bits_true in Hf by done. done.
  - apply bool_decide_eq_false. intros H0. apply H0, Z.bits_inj'. intros k Hk.
    rewrite Z.land_spec, Z.bits_0, Z.pow2_bits_eqb by done.
    destruct (Z.eqb_spec n k) as [->|]; [by rewrite E|apply andb_false_r].
Qed.

Lemma present_testbit e : present e = Z.testbit e 0.
Proof. apply (isset_testbit e 0). done. Qed.
Lemma large_testbit e : large e = Z.testbit e 7.
Proof. apply (isset_testbit e 7). done. Qed.

Lemma land511 x : Z.land x 511 = x mod 512.
Proof. apply (Z.land_ones x 9). done. Qed.

Lemma PTI_div v : PTI v = v / 4096 mod 512.
Proof. unfold PTI. by rewrite land511, Z.shiftr_div_pow2. Qed.
Lemma PDI_div v : PDI v = v / 2097152 mod 512.
Proof. unfold PDI. by rewrite land511, Z.shiftr_div_pow2. Qed.
Lemma PDPTI_div v : PDPTI v = v / 1073741824 mod 512.
Proof. unfold PDPTI. by rewrite land511, Z.shiftr_div_pow2. Qed.
Lemma PML4I_div v : PML4I v = v / 549755813888 mod 512.
Proof. unfold PML4I. by rewrite land511, Z.shiftr_div_pow2. Qed.

Lemma frame_of_div e : frame_of e = e / 4096 mod 1099511627776 * 4096.
Proof.
  unfold frame_of. change 4096 with (2 ^ 12). change 1099511627776 with (2 ^ 40).
  rewrite <- (Z.shiftr_div_pow2 e 12), <- (Z.land_ones _ 40), <- (Z.shiftl_mul_pow2 _ 12) by done.
  apply Z.bits_inj'. intros n Hn. rewrite Z.land_spec.
  change 4503599627366400 with (Z.shiftl (Z.ones 40) 12). rewrite !Z.shiftl_spec by done.
  destruct (decide (n < 12)).
  - rewrite !(Z.testbit_neg_r _ (n - 12)) by lia. apply andb_false_r.
  - rewrite Z.land_spec, Z.shiftr_spec by lia. f_equal. f_equal. lia.
Qed.

Lemma frame_of_aligned e : frame_of e mod 4096 = 0.
Proof. rewrite frame_of_div. apply Z.mod_mul. done. Qed.

Lemma testbit_aligned f n : f mod 4096 = 0 -> 0 <= n < 12 -> Z.testbit f n = false.
Proof.
  intros Hf Hn. assert (f = Z.shiftl (f / 4096) 12) as ->.
  { rewrite Z.shiftl_mul_pow2 by done. change (2 ^ 12) with 4096. dlia. }
  apply Z.shiftl_spec_low. lia.
Qed.

Lemma lor_add f fl : f mod 4096 = 0 -> 0 <= fl < 4096 -> Z.lor f fl = f + fl.
Proof.
  intros Hf Hfl. assert (Z.land f fl = 0) as Hl.
  { apply Z.bits_inj'. intros n Hn. rewrite Z.land_spec, Z.bits_0. destruct (decide (n < 12)).
    - by rewrite testbit_aligned by lia.
    - rewrite (Z.bits_above_log2 fl n), andb_false_r; [done|lia|].
      destruct (decide (fl = 0)) as [->|]; [simpl; lia|]. apply Z.log2_lt_pow2; [lia|].
      eapply Z.lt_le_trans; [|apply (Z.pow_le_mono_r 2 12); lia]. simpl. lia. }
  rewrite (Z.add_nocarry_lxor f fl Hl). by rewrite Z.lxor_lor.
Qed.

Lemma PGOFF_mod p : PGOFF p = u64 p mod 4096.
Proof. apply (Z.land_ones _ 12). done. Qed.
Lemma PGOFF_range p : 0 <= PGOFF p < 4096.
Proof. rewrite PGOFF_mod. apply Z.mod_pos_bound. done. Qed.

Lemma PGROUND_sub p : in_u64 p -> PGROUND p = p - p mod 4096.
Proof.
  intros Hp. unfold PGROUND. rewrite u64_small by done.
  assert (Z.land p (two64 - PGSZ) = Z.shiftl (Z.shiftr p 12) 12) as ->.
  { apply Z.bits_inj'. intros n Hn. rewrite Z.land_spec.
    change (two64 - PGSZ) with (Z.shiftl (Z.ones 52) 12). rewrite !Z.shiftl_spec by done.
    destruct (decide (n < 12)).
    - rewrite !(Z.testbit_neg_r _ (n - 12)) by lia. apply andb_false_r.
    - rewrite Z.shiftr_spec by lia. replace (n - 12 + 12) with n by lia.
      destruct (decide (n < 64)).
      + rewrite Z.ones_spec_low by lia. apply andb_true_r.
      + rewrite (Z.bits_above_log2 p n); [done|unfold in_u64 in Hp; lia|].
        unfold in_u64, two64 in Hp. destruct (decide (p = 0)) as [->|]; [simpl; lia|].
        apply Z.log2_lt_pow2; [lia|]. eapply Z.lt_le_trans; [|apply (Z.pow_le_mono_r 2 64); lia]. simpl. lia. }
  rewrite Z.shiftl_mul_pow2, Z.shiftr_div_pow2 by done. change (2 ^ 12) with 4096. dlia.
Qed.

(** An entry made of frame [f] and flags [fl]. *)
Lemma mk_entry f fl : frame_ok f -> 0 <= fl < 4096 ->
  frame_of (Z.lor f fl) = f ∧ (∀ n, 0 <= n < 12 -> Z.testbit (Z.lor f fl) n = Z.testbit fl n) ∧
  0 <= Z.lor f fl < 4503599627370496.
Proof.
  intros [Hf Hm] Hfl. unfold PGSZ in Hm. split_and!.
  - rewrite lor_add, frame_of_div by done. dlia.
  - intros n Hn. rewrite Z.lor_spec, testbit_aligned by done. done.
  - rewrite lor_add by done. dlia.
  - rewrite lor_add by done. dlia.
Qed.

(** ** The tables as a tree *)

(** The frame of the table reached from the table [f] by the indices [p]. *)
Fixpoint tbl (m : gmap Z Z) (f : Z) (p : list Z) : option Z :=
  match p with
  | [] => Some f
  | i :: p => let e := entry m f i in if present e && negb (large e) then tbl m (frame_of e) p else None
  end.

(** Entry [j] of the table at [p]; 0 where there is no table. *)
Definition val (m : gmap Z Z) (f : Z) (p : list Z) (j : Z) : Z :=
  match tbl m f p with Some g => entry m g j | None => 0 end.

(** The address in the recursive window of entry [i] of the table at [p]. *)
Definition slot (p : list Z) (i : Z) : Z :=
  match p with
  | [] => PML4E i
  | [i4] => PDPTE i4 i
  | [i4; i3] => PDTE i4 i3 i
  | [i4; i3; i2] => PTE i4 i3 i2 i
  | _ => 0
  end.

Definition idx (i : Z) : Prop := 0 <= i < 512.

(** Slot 510 of the root table holds the root table. *)
Definition selfmap (s : machine) : Prop :=
  let e := entry (p_mem s) (p_cr3 s) 510 in
  present e = true ∧ large e = false ∧ frame_of e = p_cr3 s.

Lemma tbl_app m f p q : tbl m f (p ++ q) = g ← tbl m f p; tbl m g q.
Proof. revert f. induction p as [|i p IH]; intros f; simpl; [done|]. by destruct (present _ && _). Qed.

Lemma tbl_aligned m f p g : f mod 4096 = 0 -> tbl m f p = Some g -> g mod 4096 = 0.
Proof.
  revert f. induction p as [|i p IH]; intros f Hf; simpl; [by intros [= <-]|].
  destruct (present _ && _); [|done]. apply IH, frame_of_aligned.
Qed.

(** The indices of an address in the window. *)
Lemma slot_fields v a4 a3 a2 a1 o :
  idx a4 -> idx a3 -> idx a2 -> idx a1 -> 0 <= o < 4096 -> 256 <= a4 ->
  v = 18446462598732840960 + a4 * 549755813888 + a3 * 1073741824 + a2 * 2097152 + a1 * 4096 + o ->
  u64 v = v ∧ PML4I v = a4 ∧ [PDPTI v; PDI v; PTI v] = [a3; a2; a1] ∧ v mod 4096 = o.
Proof.
  unfold idx. intros H4 H3 H2 H1 Ho Hh ->. rewrite PML4I_div, PDPTI_div, PDI_div, PTI_div.
  split; [apply u64_small; unfold in_u64, two64; lia|]. split; [dlia|]. split; [|dlia].
  f_equal; [dlia|]. f_equal; [dlia|]. f_equal. dlia.
Qed.

Lemma slot_split p i : Forall idx p -> idx i -> (length p <= 3)%nat ->
  let t := replicate (3 - length p) 510 ++ p in
  let v := slot p i in
  PML4I v = 510 ∧ [PDPTI v; PDI v; PTI v] = t ∧ v mod 4096 = 8 * i.
Proof.
  intros Hp Hi Hlen.
  destruct p as [|i4 [|i3 [|i2 [|]]]]; simpl in *; try lia; decompose_Forall; unfold idx in *.
  - destruct (slot_fields (PML4 + 8 * i) 510 510 510 510 (8 * i)) as (Hu & ?); unfold idx, PML4; try lia.
    unfold PML4E. rewrite Hu. done.
  - destruct (slot_fields (18446743522875801600 + 4096 * i4) 510 510 510 i4 0) as (Hu & _); unfold idx; try lia.
    destruct (slot_fields (18446743522875801600 + 4096 * i4 + 8 * i) 510 510 510 i4 (8 * i)) as (Hu' & ?); unfold idx; try lia.
    unfold PDPTE, PDPT. rewrite Hu, Hu'. done.
  - destruct (slot_fields (18446743521806254080 + 2097152 * i4 + 4096 * i3) 510 510 i4 i3 0) as (Hu & _); unfold idx; try lia.
    destruct (slot_fields (18446743521806254080 + 2097152 * i4 + 4096 * i3 + 8 * i) 510 510 i4 i3 (8 * i)) as (Hu' & ?);
      unfold idx; try lia.
    unfold PDTE, PDT. rewrite Hu, Hu'. done.
  - destruct (slot_fields (18446742974197923840 + 1073741824 * i4 + 2097152 * i3 + 4096 * i2) 510 i4 i3 i2 0) as (Hu & _);
      unfold idx; try lia.
    destruct (slot_fields (18446742974197923840 + 1073741824 * i4 + 2097152 * i3 + 4096 * i2 + 8 * i) 510 i4 i3 i2 (8 * i))
      as (Hu' & ?); unfold idx; try lia.
    unfold PTE, PT. rewrite Hu, Hu'. done.
Qed.

(** The walk follows the tables: four steps of [tbl], the last of which may
    reach any page. *)
Lemma translate_tbl s va g :
  tbl (p_mem s) (p_cr3 s) [PML4I va; PDPTI va; PDI va; PTI va] = Some g -> translate s va = Some (g + va mod 4096).
Proof.
  simpl. unfold translate.
  destruct (present (entry _ (p_cr3 s) _)) eqn:E4; simpl; [|done]. destruct (large (entry _ (p_cr3 s) _)); [done|].
  set (f3 := frame_of _). destruct (present (entry _ f3 _)) eqn:E3; simpl; [|done].
  destruct (large (entry _ f3 _)); [done|]. simpl.
  set (f2 := frame_of _). destruct (present (entry _ f2 _)) eqn:E2; simpl; [|done].
  destruct (large (entry _ f2 _)); [done|]. simpl.
  set (f1 := frame_of _). destruct (present (entry _ f1 _)) eqn:E1; simpl; [|done].
  destruct (large (entry _ f1 _)); [done|]. by intros [= <-].
Qed.

Lemma tbl_selfmap s n p : selfmap s -> tbl (p_mem s) (p_cr3 s) (replicate n 510 ++ p) = tbl (p_mem s) (p_cr3 s) p.
Proof. intros (Hp & Hl & Hf). induction n as [|n IH]; simpl; [done|]. by rewrite Hp, Hl, Hf. Qed.

(** Every entry of every table is reached through its slot in the window. *)
Lemma translate_slot s p i f :
  selfmap s -> Forall idx p -> idx i -> (length p <= 3)%nat ->
  tbl (p_mem s) (p_cr3 s) p = Some f -> translate s (slot p i) = Some (f + 8 * i).
Proof.
  intros Hs Hp Hi Hlen Ht. destruct (slot_split p i Hp Hi Hlen) as (H4 & Hr & Ho).
  rewrite <- Ho. apply translate_tbl. rewrite H4, Hr.
  rewrite (tbl_selfmap s 1 (replicate (3 - length p) 510 ++ p) Hs : tbl _ _ (510 :: _) = _).
  by rewrite tbl_selfmap.
Qed.

(** ** Well-formed tables *)

(** The paths of tables outside the recursive window. *)
Definition good (p : list Z) : Prop := (length p <= 3)%nat ∧ Forall idx p ∧ head p ≠ Some 510.

Definition noalias (m : gmap Z Z) (root : Z) : Prop :=
  ∀ p q f, good p -> good q -> tbl m root p = Some f -> tbl m root q = Some f -> p = q.

Record wf (s : machine) : Prop := {
  wf_root : frame_ok (p_cr3 s);
  wf_self : selfmap s;
  wf_top i : idx i -> present (entry (p_mem s) (p_cr3 s) i) = true -> large (entry (p_mem s) (p_cr3 s) i) = false;
  wf_noalias : noalias (p_mem s) (p_cr3 s);
  wf_live p f : good p -> tbl (p_mem s) (p_cr3 s) p = Some f -> frame_ok f ∧ f ∈ dom (p_refs s);
}.

Lemma frame_ok_aligned f : frame_ok f -> f mod 4096 = 0.
Proof. by intros [_ ?]. Qed.

Lemma good_app p q : good (p ++ q) -> good p.
Proof.
  intros (Hl & Hi & Hh). rewrite length_app in Hl. apply Forall_app in Hi as [Hi _].
  split; [lia|]. split; [done|]. by destruct p.
Qed.

(** A store to one entry. *)
Lemma entry_insert m f i v g j :
  f mod 4096 = 0 -> g mod 4096 = 0 -> idx i -> idx j ->
  entry (<[f / 8 + i := v]> m) g j = if decide (g = f ∧ j = i) then v else entry m g j.
Proof.
  intros Hf Hg Hi Hj. unfold entry, word, idx in *. case_decide as Hd.
  - destruct Hd as [-> ->]. by rewrite lookup_insert_eq.
  - rewrite lookup_insert_ne; [done|]. intros He. apply Hd. clear Hd. split; dlia.
Qed.

Lemma entry_zero_frame m f g j :
  f mod 4096 = 0 -> g mod 4096 = 0 -> idx j ->
  entry (zero_frame f m) g j = if decide (g = f) then 0 else entry m g j.
Proof.
  intros Hf Hg Hj. unfold entry, word, zero_frame, idx, NPTE in *. case_decide as Hd.
  - subst g. rewrite map_lookup_filter_None_2; [done|]. right. intros x _. simpl. lia.
  - destruct (m !! (g / 8 + j)) as [x|] eqn:E.
    + rewrite (map_lookup_filter_Some_2 _ _ _ x); [done|done|]. simpl. intros Hr. apply Hd. clear Hd E. dlia.
    + rewrite map_lookup_filter_None_2; [done|by left].
Qed.

(** Tables that agree at the entries a path goes through. *)
Lemma tbl_ext m m' root pre g q :
  root mod 4096 = 0 -> tbl m root pre = Some g -> good (pre ++ q) ->
  (∀ p1 j q1 h, pre ++ q = p1 ++ j :: q1 -> (length pre <= length p1)%nat -> tbl m root p1 = Some h ->
     h mod 4096 = 0 -> idx j -> entry m' h j = entry m h j) ->
  tbl m' g q = tbl m g q.
Proof.
  intros Hr. revert pre g. induction q as [|j q IH]; intros pre g Hg Hgood Hsame; simpl; [done|].
  assert (idx j) as Hj by (destruct Hgood as (_ & Hi & _); decompose_Forall; done).
  rewrite (Hsame pre j q g); [|done|lia|done|by eapply tbl_aligned|done].
  destruct (present _ && _) eqn:E; [|done]. apply (IH (pre ++ [j])).
  - rewrite tbl_app, Hg. simpl. by rewrite E.
  - by rewrite <- app_assoc.
  - intros p1 j1 q1 h He Hlen. apply (Hsame p1 j1 q1 h); [by rewrite <- He, <- app_assoc|].
    rewrite length_app in Hlen. simpl in Hlen. lia.
Qed.

Section set_entry.
Context (m : gmap Z Z) (root : Z) (p : list Z) (f i v : Z).
Hypothesis Hroot : root mod 4096 = 0.
Hypothesis Hna : noalias m root.
Hypothesis Hp : good p.
Hypothesis Hf : tbl m root p = Some f.
Hypothesis Hi : idx i.
Let m' := <[f / 8 + i := v]> m.

Lemma set_aligned : f mod 4096 = 0.
Proof. by eapply tbl_aligned. Qed.

(** Tables whose path does not go through the changed entry stay. *)
Lemma tbl_set_ne q : good q -> ¬ (p ++ [i]) `prefix_of` q -> tbl m' root q = tbl m root q.
Proof.
  intros Hq Hn. apply (tbl_ext m m' root [] root q); [done|done|done|].
  intros p1 j q1 h Heq _ Ht Hh Hj. unfold m'. rewrite entry_insert by (done || apply set_aligned).
  rewrite decide_False; [done|]. intros [-> ->]. apply Hn. simpl in Heq. subst q.
  assert (p1 = p) as ->; [|exists q1; by rewrite <- app_assoc].
  eapply Hna; [by eapply good_app|done|done|done].
Qed.

Lemma tbl_set_at : tbl m' root p = Some f.
Proof. rewrite tbl_set_ne; [done|done|]. intros [k Hk]. apply (f_equal length) in Hk. rewrite !length_app in Hk. simpl in Hk. lia. Qed.

Lemma tbl_set_below q : tbl m' root (p ++ i :: q) =
  if present v && negb (large v) then tbl m' (frame_of v) q else None.
Proof.
  rewrite tbl_app, tbl_set_at. simpl. unfold m'. rewrite entry_insert by (done || apply set_aligned).
  rewrite decide_True by done. by destruct (present v && _).
Qed.

Lemma val_set_ne q j : good q -> idx j -> ¬ (p ++ [i]) `prefix_of` q ->
  val m' root q j = if decide (q = p ∧ j = i) then v else val m root q j.
Proof.
  intros Hq Hj Hn. unfold val. rewrite tbl_set_ne by done. case_decide as Hd.
  - destruct Hd as [-> ->]. rewrite Hf. unfold m'. rewrite entry_insert by (done || apply set_aligned).
    by rewrite decide_True.
  - destruct (tbl m root q) as [g|] eqn:Hg; [|done]. unfold m'.
    assert (g mod 4096 = 0) by (by eapply tbl_aligned). rewrite entry_insert by (done || apply set_aligned).
    rewrite decide_False; [done|]. intros [-> ->]. apply Hd. split; [|done]. by eapply Hna.
Qed.
End set_entry.

(** ** Walks *)

(** The entry that maps an address and the size of its page, from the table
    at [pre], with the remaining indices. *)
Fixpoint wlk (V : list Z -> Z -> Z) (pre js : list Z) : option (Z * Z) :=
  match js with
  | [] => None
  | j :: rest =>
      let e := V pre j in
      if negb (present e) then None else
      match rest with
      | [] => Some (e, 4096)
      | _ => if large e then Some (e, 4096 * 512 ^ Z.of_nat (length rest)) else wlk V (pre ++ [j]) rest
      end
  end.

Definition indices (va : Z) : list Z := [PML4I va; PDPTI va; PDI va; PTI va].
Definition walk (s : machine) (va : Z) : option (Z * Z) := wlk (val (p_mem s) (p_cr3 s)) [] (indices va).

Lemma translate_walk s va : wf s ->
  translate s va = (λ x, frame_of x.1 - frame_of x.1 mod x.2 + va mod x.2) <$> walk s va.
Proof.
  intros Hwf. unfold walk, indices, translate, wlk, val. simpl.
  assert (idx (PML4I va)) as Hi by (rewrite PML4I_div; unfold idx; dlia).
  pose proof (wf_top s Hwf _ Hi) as Htop.
  destruct (present (entry _ (p_cr3 s) _)) eqn:E4; simpl; [|done]. rewrite (Htop eq_refl). simpl.
  set (f3 := frame_of _). destruct (present (entry _ f3 _)) eqn:E3; simpl; [|done].
  destruct (large (entry _ f3 _)); simpl; [done|].
  set (f2 := frame_of _). destruct (present (entry _ f2 _)) eqn:E2; simpl; [|done].
  destruct (large (entry _ f2 _)); simpl; [done|].
  set (f1 := frame_of _). destruct (present (entry _ f1 _)) eqn:E1; simpl; [|done].
  f_equal. pose proof (frame_of_aligned (entry (p_mem s) f1 (PTI va))). lia.
Qed.

Lemma indices_idx va : Forall idx (indices va).
Proof. unfold indices. rewrite PML4I_div, PDPTI_div, PDI_div, PTI_div. repeat constructor; unfold idx; dlia. Qed.

(** The walks of the addresses outside the window. *)
Definition outside (va : Z) : Prop := PML4I va ≠ 510.

Lemma outside_good va pre rest : outside va -> indices va = pre ++ rest -> rest ≠ [] -> good pre.
Proof.
  intros Ho He Hr. pose proof (indices_idx va) as Hi. rewrite He in Hi. apply Forall_app in Hi as [Hi _].
  assert (length (indices va) = 4)%nat as Hl by done. rewrite He, length_app in Hl.
  split; [destruct rest; [done|]; simpl in Hl; lia|]. split; [done|].
  destruct pre as [|x pre]; [done|]. unfold indices in He. injection He as <- _. by intros [= ?].
Qed.

(** An empty table under an entry that was absent changes no walk. *)
Lemma wlk_new_table V V' p i pre rest va :
  (length p <= 2)%nat -> outside va -> indices va = pre ++ rest ->
  (∀ q j, good q -> idx j -> ¬ (q = p ∧ j = i) -> V' q j = V q j) ->
  present (V p i) = false -> present (V' p i) = true -> large (V' p i) = false ->
  (∀ j, idx j -> present (V' (p ++ [i]) j) = false) ->
  wlk V' pre rest = wlk V pre rest.
Proof.
  intros Hp Ho He Hsame Hno Hpr Hla Hempty. revert pre He. induction rest as [|j rest IH]; intros pre He; [done|].
  assert (good pre) as Hpre by (by eapply outside_good).
  assert (Forall idx (j :: rest)) as [Hj Hrest]%Forall_cons.
  { pose proof (indices_idx va) as Hi. rewrite He in Hi. by apply Forall_app in Hi as [_ Hi]. }
  destruct (decide (pre = p ∧ j = i)) as [[-> ->]|Hne].
  - assert (rest ≠ []) as Hr.
    { intros ->. assert (length (indices va) = 4)%nat as Hl by done. rewrite He, length_app in Hl. simpl in Hl. lia. }
    simpl. rewrite Hno, Hpr, Hla. simpl. destruct rest as [|k rest]; [done|]. simpl.
    apply Forall_cons in Hrest as [Hk _]. by rewrite Hempty.
  - simpl. rewrite Hsame by done. destruct (present (V pre j)); simpl; [|done]. destruct rest as [|k rest]; [done|].
    destruct (large (V pre j)); [done|]. apply IH. by rewrite He, <- app_assoc.
Qed.

(** A change to the entry of a page changes that page. *)
Lemma wlk_leaf V V' p i pre rest va :
  length p = 3%nat -> outside va -> indices va = pre ++ rest -> indices va ≠ p ++ [i] ->
  (∀ q j, good q -> idx j -> ¬ (q = p ∧ j = i) -> V' q j = V q j) ->
  wlk V' pre rest = wlk V pre rest.
Proof.
  intros Hp Ho He Hd Hsame. revert pre He. induction rest as [|j rest IH]; intros pre He; [done|].
  assert (good pre) as Hpre by (by eapply outside_good).
  assert (idx j) as Hj.
  { pose proof (indices_idx va) as Hi. rewrite He in Hi. apply Forall_app in Hi as [_ Hi]. by decompose_Forall. }
  simpl. rewrite Hsame; [|done|done|].
  - destruct (present (V pre j)); simpl; [|done]. destruct rest as [|k rest]; [done|].
    destruct (large (V pre j)); [done|]. apply IH. by rewrite He, <- app_assoc.
  - intros [-> ->]. assert (length (indices va) = 4)%nat as Hl by done. rewrite He, length_app, Hp in Hl.
    simpl in Hl. destruct rest; [|simpl in Hl; lia]. done.
Qed.

(** The walk of an address whose tables are there. *)
Lemma walk_at s va f :
  tbl (p_mem s) (p_cr3 s) [PML4I va; PDPTI va; PDI va] = Some f ->
  walk s va = let e := entry (p_mem s) f (PTI va) in if present e then Some (e, 4096) else None.
Proof.
  intros Ht. unfold walk, indices, val. simpl in *.
  set (e4 := entry _ (p_cr3 s) _) in *. destruct (present e4); simpl in *; [|done].
  destruct (large e4); simpl in *; [done|].
  set (e3 := entry _ (frame_of e4) _) in *. destruct (present e3); simpl in *; [|done].
  destruct (large e3); simpl in *; [done|].
  set (e2 := entry _ (frame_of e3) _) in *. destruct (present e2); simpl in *; [|done].
  destruct (large e2); simpl in *; [done|]. injection Ht as ->. by destruct (present _).
Qed.

(** ** Loads and stores of entries *)

Lemma good_idx p : good p -> Forall idx p ∧ (length p <= 3)%nat.
Proof. by intros (? & ? & ?). Qed.

Lemma wp_vload s p f i (Q : Z -> machine -> Prop) :
  wf s -> good p -> idx i -> tbl (p_mem s) (p_cr3 s) p = Some f ->
  Q (entry (p_mem s) f i) s -> wp (vload (slot p i)) s Q.
Proof.
  intros Hwf Hp Hi Ht HQ. destruct (good_idx p Hp) as [Hp1 Hp2]. unfold wp, vload.
  rewrite (translate_slot s p i f) by (done || apply Hwf).
  assert (f mod 4096 = 0) as Hf by (eapply tbl_aligned; [apply frame_ok_aligned, Hwf|done]).
  replace ((f + 8 * i) / 8) with (f / 8 + i) by dlia. done.
Qed.

(** The state after a store to entry [i] of table [f]. *)
Definition stored (f i v : Z) (s : machine) : machine := set_mem (<[f / 8 + i := v]> (p_mem s)) s.

Lemma wp_vstore s p f i v (Q : unit -> machine -> Prop) :
  wf s -> good p -> idx i -> tbl (p_mem s) (p_cr3 s) p = Some f ->
  Q tt (stored f i v s) -> wp (vstore (slot p i) v) s Q.
Proof.
  intros Hwf Hp Hi Ht HQ. destruct (good_idx p Hp) as [Hp1 Hp2]. unfold wp, vstore.
  rewrite (translate_slot s p i f) by (done || apply Hwf).
  assert (f mod 4096 = 0) as Hf by (eapply tbl_aligned; [apply frame_ok_aligned, Hwf|done]).
  replace ((f + 8 * i) / 8) with (f / 8 + i) by dlia. done.
Qed.

(** What the invariant depends on. *)
Lemma wf_ext s s' : p_mem s' = p_mem s -> p_cr3 s' = p_cr3 s -> dom (p_refs s) ⊆ dom (p_refs s') -> wf s -> wf s'.
Proof.
  intros Hm Hc Hr [H1 H2 H3 H4 H5]. split; unfold selfmap; rewrite ?Hm, ?Hc; [done..|].
  intros p f Hp Hf. destruct (H5 p f Hp Hf). split; [done|]. set_solver.
Qed.

(** A store below the root, or to another slot of it than 510. *)
Lemma stored_top s p f i v :
  wf s -> good (p ++ [i]) ∨ length p = 3%nat -> good p -> idx i -> tbl (p_mem s) (p_cr3 s) p = Some f ->
  (p = [] -> present v = true -> large v = false) ->
  selfmap (stored f i v s) ∧
  ∀ j, idx j -> present (entry (p_mem (stored f i v s)) (p_cr3 s) j) = true ->
       large (entry (p_mem (stored f i v s)) (p_cr3 s) j) = false.
Proof.
  intros Hwf Hpi Hp Hi Ht Hv. pose proof (wf_root s Hwf) as Hr%frame_ok_aligned.
  assert (∀ j, idx j -> entry (p_mem (stored f i v s)) (p_cr3 s) j =
    if decide (p = [] ∧ j = i) then v else entry (p_mem s) (p_cr3 s) j) as He.
  { intros j Hj. simpl. rewrite entry_insert; [|by eapply tbl_aligned|done|done|done].
    destruct (decide (p = [])) as [->|Hne].
    - simpl in Ht. injection Ht as <-. destruct (decide (j = i)); [by rewrite !decide_True|by rewrite !decide_False by naive_solver].
    - rewrite (decide_False (P := p = [] ∧ j = i)) by naive_solver. rewrite decide_False; [done|].
      intros [<- _]. apply Hne. eapply (wf_noalias s Hwf p []); [done| |done|done].
      split; [simpl; lia|by split]. }
  split.
  - unfold selfmap. simpl p_cr3. rewrite He by done. rewrite decide_False; [apply (wf_self s Hwf)|].
    intros [-> Hj]. destruct Hpi as [(_ & _ & Hh)|Hl]; [|done]. apply Hh. by rewrite <- Hj.
  - intros j Hj. rewrite He by done. case_decide as Hd; [destruct Hd; by apply Hv|]. by apply (wf_top s Hwf).
Qed.

(** A frame that no table uses can be cleared. *)
Lemma zeroed_tbl s lvl q :
  wf s -> frame_ok lvl -> lvl ∉ dom (p_refs s) -> good q ->
  tbl (zero_frame lvl (p_mem s)) (p_cr3 s) q = tbl (p_mem s) (p_cr3 s) q.
Proof.
  intros Hwf Hl Hd Hq. pose proof (frame_ok_aligned _ (wf_root s Hwf)) as Hr.
  apply (tbl_ext (p_mem s) _ (p_cr3 s) [] (p_cr3 s) q); [done|done|done|].
  intros p1 j q1 h Heq _ Ht Hh Hj. rewrite entry_zero_frame by (done || by apply frame_ok_aligned).
  rewrite decide_False; [done|]. intros ->. apply Hd. eapply (wf_live s Hwf p1); [|done].
  simpl in Heq. subst q. by eapply good_app.
Qed.

Lemma zeroed_val s lvl q j :
  wf s -> frame_ok lvl -> lvl ∉ dom (p_refs s) -> good q -> idx j ->
  val (zero_frame lvl (p_mem s)) (p_cr3 s) q j = val (p_mem s) (p_cr3 s) q j.
Proof.
  intros Hwf Hl Hd Hq Hj. unfold val. rewrite zeroed_tbl by done.
  destruct (tbl (p_mem s) (p_cr3 s) q) as [g|] eqn:E; [|done].
  assert (g mod 4096 = 0) by (eapply tbl_aligned; [apply frame_ok_aligned, Hwf|done]).
  rewrite entry_zero_frame by (done || by apply frame_ok_aligned).
  rewrite decide_False; [done|]. intros ->. by apply Hd, (wf_live s Hwf q).
Qed.

Lemma zeroed_wf s lvl n :
  wf s -> frame_ok lvl -> lvl ∉ dom (p_refs s) ->
  wf (set_mem (zero_frame lvl (p_mem s)) (set_refs (<[lvl := n]> (p_refs s)) s)).
Proof.
  intros Hwf Hl Hd. pose proof (frame_ok_aligned _ (wf_root s Hwf)) as Hr.
  assert (∀ j, idx j -> entry (zero_frame lvl (p_mem s)) (p_cr3 s) j = entry (p_mem s) (p_cr3 s) j) as He.
  { intros j Hj. apply (zeroed_val s lvl [] j); try done. split; [simpl; lia|by split]. }
  split; simpl; [apply Hwf|unfold selfmap; simpl; rewrite He by done; apply Hwf|..].
  - intros i Hi. rewrite He by done. by apply Hwf.
  - intros p q f Hp Hq. rewrite !zeroed_tbl by done. by apply Hwf.
  - intros p f Hp. rewrite zeroed_tbl by done. intros Hf. destruct (wf_live s Hwf p f Hp Hf). split; [done|].
    rewrite dom_insert. set_solver.
Qed.
