(* ===== verification/PagingOps.v ===== *)
(** * Page tables: the operations

    Specifications of [get_table], [put_table], [x86_64_map], [x86_64_unmap]
    and of the loops over ranges, in terms of the walks of PagingSpec.v. *)

From S2P Require Import Prelude Paging PagingSpec.

Definition same_walks (s s' : machine) : Prop := ∀ va, outside va -> walk s' va = walk s va.

#[export] Instance same_walks_equiv : Equivalence same_walks.
Proof.
  split; [done|..].
  - intros s s' Hs va Hva. symmetry. by apply Hs.
  - intros s1 s2 s3 H1 H2 va Hva. by rewrite H2, H1.
Qed.

(** A store that keeps the tables apart keeps the invariant. *)
Lemma stored_wf s p f i v :
  wf s -> good (p ++ [i]) ∨ length p = 3%nat -> good p -> idx i -> tbl (p_mem s) (p_cr3 s) p = Some f ->
  (p = [] -> present v = true -> large v = false) ->
  (∀ q q' g, good q -> good q' -> (p ++ [i]) `prefix_of` q ->
     tbl (p_mem (stored f i v s)) (p_cr3 s) q = Some g ->
     (frame_ok g ∧ g ∈ dom (p_refs s)) ∧
     (tbl (p_mem (stored f i v s)) (p_cr3 s) q' = Some g -> q = q')) ->
  wf (stored f i v s).
Proof.
  intros Hwf Hpi Hp Hi Ht Hv Hx. destruct (stored_top s p f i v) as [Hself Htop]; try done.
  pose proof (frame_ok_aligned _ (wf_root s Hwf)) as Hr.
  assert (∀ q, good q -> ¬ (p ++ [i]) `prefix_of` q ->
    tbl (p_mem (stored f i v s)) (p_cr3 s) q = tbl (p_mem s) (p_cr3 s) q) as Hne.
  { intros q Hq Hn. apply tbl_set_ne with p; try done. apply Hwf. }
  split; [apply Hwf|done|done|..]; simpl p_cr3; simpl p_refs.
  - intros q q' g Hq Hq' Hg Hg'. destruct (decide ((p ++ [i]) `prefix_of` q)) as [Hpre|Hn].
    + by eapply Hx.
    + destruct (decide ((p ++ [i]) `prefix_of` q')) as [Hpre'|Hn']; [symmetry; by eapply Hx|].
      rewrite Hne in Hg, Hg' by done. by eapply (wf_noalias s Hwf).
  - intros q g Hq Hg. destruct (decide ((p ++ [i]) `prefix_of` q)) as [Hpre|Hn]; [by eapply (Hx q q)|].
    rewrite Hne in Hg by done. by apply (wf_live s Hwf q).
Qed.

Lemma app_single_prefix (p q : list Z) i : (p ++ [i]) `prefix_of` q -> ∃ r, q = p ++ i :: r.
Proof. intros [r ->]. exists r. by rewrite <- app_assoc. Qed.

Lemma not_prefix_self (p : list Z) i : ¬ (p ++ [i]) `prefix_of` p.
Proof. intros (r & Hr)%app_single_prefix. apply (f_equal length) in Hr. rewrite length_app in Hr. simpl in Hr. lia. Qed.

Section ops.
Context {FR : Frames} {KV : Kva}.

(** A new, empty table at entry [i] of the table at [p]. *)
Record fresh_table (s : machine) (p : list Z) (i lvl : Z) (s' : machine) : Prop := {
  ft_wf : wf s';
  ft_cr3 : p_cr3 s' = p_cr3 s;
  ft_kva : p_kva s' = p_kva s;
  ft_refs : p_refs s' = <[lvl := 1]> (p_refs s);
  ft_lvl : frame_ok lvl ∧ lvl ∉ dom (p_refs s) ∧ fr_managed lvl = true;
  ft_absent : present (val (p_mem s) (p_cr3 s) p i) = false;
  ft_tbl q : good q -> ¬ (p ++ [i]) `prefix_of` q -> tbl (p_mem s') (p_cr3 s) q = tbl (p_mem s) (p_cr3 s) q;
  ft_new : tbl (p_mem s') (p_cr3 s) (p ++ [i]) = Some lvl;
  ft_val q j : good q -> idx j -> ¬ (q = p ∧ j = i) ->
    val (p_mem s') (p_cr3 s) q j = val (p_mem s) (p_cr3 s) q j;
  ft_empty j : idx j -> val (p_mem s') (p_cr3 s) (p ++ [i]) j = 0;
}.

Lemma val_of_tbl m root p i g : tbl m root (p ++ [i]) = Some g ->
  present (val m root p i) = true ∧ large (val m root p i) = false ∧ g = frame_of (val m root p i).
Proof.
  rewrite tbl_app. unfold val. destruct (tbl m root p) as [f|]; simpl; [|done].
  destruct (present _), (large _); simpl; try done. by intros [= <-].
Qed.

Lemma fresh_table_walks s p i lvl s' : (length p <= 2)%nat -> fresh_table s p i lvl s' -> same_walks s s'.
Proof.
  intros Hl [_ Hc _ _ _ Ha _ Hn Hv He] va Hva. unfold walk. rewrite Hc.
  destruct (val_of_tbl _ _ _ _ _ Hn) as (Hp & Hla & _).
  eapply (wlk_new_table _ _ p i); try done. intros j Hj. by rewrite He.
Qed.

Lemma get_table_fresh s p i f lvl fl t :
  wf s -> good (p ++ [i]) -> tbl (p_mem s) (p_cr3 s) p = Some f -> present (entry (p_mem s) f i) = false ->
  frame_ok lvl -> lvl ∉ dom (p_refs s) -> fr_managed lvl = true ->
  0 <= fl < 4096 -> Z.testbit fl 0 = true -> Z.testbit fl 7 = false ->
  let s1 := set_mem (zero_frame lvl (p_mem s)) (set_refs (<[lvl := 1]> (p_refs s)) s) in
  let s2 := stored f i (Z.lor lvl fl) s1 in
  fresh_table s p i lvl (set_flush t s2).
Proof.
  intros Hwf Hpi Hf Hno Hlvl Hd Hman Hfl H0 H7 s1 s2. pose proof (good_app _ _ Hpi) as Hp.
  assert (idx i) as Hi by (destruct Hpi as (_ & Hi & _); apply Forall_app in Hi as [_ Hi]; by decompose_Forall).
  pose proof (frame_ok_aligned _ (wf_root s Hwf)) as Hr. pose proof (frame_ok_aligned _ Hlvl) as Hla.
  destruct (mk_entry lvl fl Hlvl Hfl) as (Hfr & Hbits & _).
  assert (present (Z.lor lvl fl) = true) as Hpr by (by rewrite present_testbit, Hbits by lia).
  assert (large (Z.lor lvl fl) = false) as Hlg by (by rewrite large_testbit, Hbits by lia).
  pose proof (zeroed_wf s lvl 1 Hwf Hlvl Hd) as Hwf1. fold s1 in Hwf1.
  assert (∀ q, good q -> tbl (p_mem s1) (p_cr3 s) q = tbl (p_mem s) (p_cr3 s) q) as Ht1 by (intros; by apply zeroed_tbl).
  assert (tbl (p_mem s1) (p_cr3 s) p = Some f) as Hf1 by (by rewrite Ht1).
  assert (lvl ≠ f) as Hlf by (intros ->; by apply Hd, (wf_live s Hwf p)).
  assert (∀ j, idx j -> entry (p_mem s2) lvl j = 0) as Hz.
  { intros j Hj. simpl. rewrite entry_insert; [|exact (tbl_aligned _ _ _ _ Hr Hf)|done|done|done].
    rewrite decide_False by naive_solver. rewrite entry_zero_frame by done. by rewrite decide_True. }
  assert (tbl (p_mem s2) (p_cr3 s) (p ++ [i]) = Some lvl) as Hnew.
  { unfold s2. simpl. rewrite (tbl_set_below (p_mem s1) (p_cr3 s) p f i); try done; [|apply Hwf1].
    by rewrite Hpr, Hlg, Hfr. }
  assert (∀ q, good q -> (p ++ [i]) `prefix_of` q -> ∀ g, tbl (p_mem s2) (p_cr3 s) q = Some g -> q = p ++ [i] ∧ g = lvl) as Hext.
  { intros q Hq (r & ->)%app_single_prefix g Hg. destruct r as [|j r]; [split; [done|congruence]|].
    rewrite cons_middle, app_assoc, tbl_app, Hnew in Hg. simpl in Hg. rewrite Hz in Hg; [done|].
    destruct Hq as (_ & Hq & _). apply Forall_app in Hq as [_ Hq]. by decompose_Forall. }
  assert (∀ q, good q -> ¬ (p ++ [i]) `prefix_of` q -> tbl (p_mem s2) (p_cr3 s) q = tbl (p_mem s) (p_cr3 s) q) as Hne.
  { intros q Hq Hn. rewrite <- Ht1 by done. apply tbl_set_ne with p; try done. apply Hwf1. }
  split; simpl; try done.
  - eapply (wf_ext s2); [done|done|done|]. apply (stored_wf s1 p); try done; [by left|].
    intros q q' g Hq Hq' Hpre Hg. destruct (Hext q Hq Hpre g Hg) as [-> ->]. split; [split; [done|simpl; set_solver]|].
    intros Hg'. destruct (decide ((p ++ [i]) `prefix_of` q')) as [Hpre'|Hn']; [by destruct (Hext q' Hq' Hpre' lvl Hg') as [-> _]|].
    exfalso. change (tbl (p_mem s2) (p_cr3 s) q' = Some lvl) in Hg'. rewrite Hne in Hg' by done. by apply Hd, (wf_live s Hwf q').
  - unfold val. by rewrite Hf.
  - intros q j Hq Hj Hqj. destruct (decide ((p ++ [i]) `prefix_of` q)) as [Hpre|Hn].
    + assert (tbl (p_mem s) (p_cr3 s) q = None) as Hold.
      { apply app_single_prefix in Hpre as [r ->]. rewrite tbl_app, Hf. simpl. by rewrite Hno. }
      unfold val at 2. rewrite Hold. unfold val. destruct (tbl (p_mem s2) (p_cr3 s) q) as [g|] eqn:Hg; simpl in Hg; rewrite Hg; [|done].
      destruct (Hext q Hq Hpre g Hg) as [_ ->]. by apply Hz.
    + rewrite (val_set_ne (p_mem s1) (p_cr3 s) p f i); try done; [|apply Hwf1]. rewrite decide_False by done.
      by apply zeroed_val.
  - intros j Hj. unfold val. simpl in Hnew. rewrite Hnew. by apply Hz.
Qed.

Lemma wp_get_page_zero s (Q : Z -> machine -> Prop) :
  Q 0 (set_ticks (S (p_ticks s)) s) ->
  (∀ f, frame_ok f -> f ∉ dom (p_refs s) -> fr_managed f = true ->
     Q f (set_mem (zero_frame f (p_mem s)) (set_refs (<[f := 1]> (p_refs s)) (set_ticks (S (p_ticks s)) s)))) ->
  wp (get_page true) s Q.
Proof.
  intros H0 HS. unfold wp, get_page. destruct (fr_choose _ _) as [f|] eqn:E; [|done].
  destruct (fr_fresh _ _ _ E) as (? & ? & ?). by apply HS.
Qed.

(** The flags of a table entry made from flags without [PTE_PS]. *)
Lemma table_flags flags : isset flags PTE_PS = false ->
  let fl := PGOFF (Z.lor (Z.lor flags PTE_PWT) PTE_KRW) in
  0 <= fl < 4096 ∧ Z.testbit fl 0 = true ∧ Z.testbit fl 7 = false.
Proof.
  intros Hps fl. split; [apply PGOFF_range|]. change PTE_PS with (2 ^ 7) in Hps. rewrite isset_testbit in Hps by done.
  assert (∀ n, 0 <= n < 12 -> Z.testbit fl n = Z.testbit (Z.lor (Z.lor flags PTE_PWT) PTE_KRW) n) as Hb.
  { intros n Hn. unfold fl, PGOFF, u64, PGSZ. change (4096 - 1) with (Z.ones 12). change two64 with (2 ^ 64).
    rewrite Z.land_spec, Z.ones_spec_low, andb_true_r, Z.mod_pow2_bits_low by lia. done. }
  rewrite !Hb by lia. rewrite !Z.lor_spec, Hps. by rewrite !orb_true_r.
Qed.

(** The state of an operation that did nothing to the tables. *)
Definition unchanged (s s' : machine) : Prop :=
  p_mem s' = p_mem s ∧ p_cr3 s' = p_cr3 s ∧ p_refs s' = p_refs s ∧ p_kva s' = p_kva s.

Lemma wp_get_table s p i f child flags (Q : option Z -> machine -> Prop) :
  wf s -> good (p ++ [i]) -> tbl (p_mem s) (p_cr3 s) p = Some f -> isset flags PTE_PS = false ->
  (present (entry (p_mem s) f i) = true -> Q (Some 0) s) ->
  (∀ s', unchanged s s' -> Q None s') ->
  (∀ lvl s', lvl ≠ 0 -> fresh_table s p i lvl s' -> Q (Some lvl) s') ->
  wp (get_table (slot p i) child flags) s Q.
Proof.
  intros Hwf Hpi Hf Hps HP HN HF. pose proof (good_app _ _ Hpi) as Hp.
  assert (idx i) as Hi by (destruct Hpi as (_ & Hi & _); apply Forall_app in Hi as [_ Hi]; by decompose_Forall).
  unfold get_table. wp_step. eapply wp_vload; [done..|].
  destruct (present (entry _ f i)) eqn:E; [by apply wp_ret, HP|].
  wp_step. apply wp_get_page_zero; [rewrite decide_True by done; by apply wp_ret, HN|].
  intros lvl Hl Hd Hman. assert (lvl ≠ 0) as Hl0 by (destruct Hl as [? _]; lia). rewrite decide_False by done.
  destruct (table_flags flags Hps) as (Hfl & H0 & H7).
  pose proof (zeroed_wf s lvl 1 Hwf Hl Hd) as Hwf1.
  wp_step. eapply (wp_vstore _ p f); [by refine (wf_ext _ _ _ _ _ Hwf1)|done|done|..].
  { simpl. by rewrite zeroed_tbl. }
  unfold send_tlb_shootdown, invlpg. wp_auto. apply HF; [done|].
  pose proof (get_table_fresh s p i f lvl _ (child :: child :: p_flush s) Hwf Hpi Hf E Hl Hd Hman Hfl H0 H7) as Hft.
  destruct Hft as [Hft ? ? ? ? ? ? ? ? ?]. split; try done. by refine (wf_ext _ _ _ _ _ Hft).
Qed.

(** The table [lvl] at entry [i] of the table at [p] is taken out. *)
Record gone (s : machine) (p : list Z) (i lvl : Z) (s' : machine) : Prop := {
  gn_wf : wf s';
  gn_walks : same_walks s s';
  gn_cr3 : p_cr3 s' = p_cr3 s;
  gn_kva : p_kva s' = p_kva s;
  gn_refs : p_refs s' = delete lvl (p_refs s);
  gn_tbl q : good q -> ¬ (p ++ [i]) `prefix_of` q -> tbl (p_mem s') (p_cr3 s) q = tbl (p_mem s) (p_cr3 s) q;
  gn_none q : good q -> (p ++ [i]) `prefix_of` q -> tbl (p_mem s') (p_cr3 s) q = None;
  gn_val q j : good q -> idx j -> ¬ (p ++ [i]) `prefix_of` q ->
    val (p_mem s') (p_cr3 s) q j = if decide (q = p ∧ j = i) then 0 else val (p_mem s) (p_cr3 s) q j;
}.

(** Taking an empty table out again. *)
Lemma wp_put_table s p i f lvl child (Q : unit -> machine -> Prop) :
  wf s -> good (p ++ [i]) -> tbl (p_mem s) (p_cr3 s) p = Some f ->
  (lvl = 0 -> Q tt s) ->
  (lvl ≠ 0 -> tbl (p_mem s) (p_cr3 s) (p ++ [i]) = Some lvl ∧ p_refs s !! lvl = Some 1 ∧ fr_managed lvl = true ∧
     (∀ j, idx j -> val (p_mem s) (p_cr3 s) (p ++ [i]) j = 0)) ->
  (∀ s', lvl ≠ 0 -> gone s p i lvl s' -> Q tt s') ->
  wp (put_table (slot p i) child lvl) s Q.
Proof.
  intros Hwf Hpi Hf H0 Hlvl HQ. pose proof (good_app _ _ Hpi) as Hp.
  assert (idx i) as Hi by (destruct Hpi as (_ & Hi & _); apply Forall_app in Hi as [_ Hi]; by decompose_Forall).
  unfold put_table. destruct (decide (lvl = 0)) as [E|E]; [by apply wp_ret, H0|].
  destruct (Hlvl E) as (Ht & Hrf & Hman & Hemp). clear H0 Hlvl.
  wp_step. eapply (wp_vstore _ p f); [done..|]. unfold send_tlb_shootdown, invlpg. wp_auto.
  unfold wp, pmman_free. rewrite decide_False by done. simpl. rewrite Hrf, Hman. rewrite decide_True by done.
  pose proof (frame_ok_aligned _ (wf_root s Hwf)) as Hr. pose proof (wf_noalias s Hwf) as Hna.
  assert (∀ q, good q -> (p ++ [i]) `prefix_of` q -> tbl (<[f / 8 + i := 0]> (p_mem s)) (p_cr3 s) q = None) as Hext.
  { intros q Hq (r & ->)%app_single_prefix. simpl. by rewrite (tbl_set_below _ _ p f i). }
  assert (∀ q, good q -> ¬ (p ++ [i]) `prefix_of` q ->
    tbl (<[f / 8 + i := 0]> (p_mem s)) (p_cr3 s) q = tbl (p_mem s) (p_cr3 s) q) as Hne by (intros; by apply tbl_set_ne with p).
  assert (wf (stored f i 0 s)) as Hwf'.
  { apply (stored_wf s p); try done; [by left|]. intros q q' g Hq Hq' Hpre Hg. simpl in Hg. by rewrite Hext in Hg. }
  assert (∀ q j, good q -> idx j -> (p ++ [i]) `prefix_of` q -> val (p_mem s) (p_cr3 s) q j = 0) as Hbelow.
  { intros q j Hq Hj (r & ->)%app_single_prefix. destruct r as [|k r]; [by apply Hemp|]. unfold val.
    rewrite cons_middle, app_assoc, tbl_app, Ht. simpl. destruct Hq as (_ & Hq & _).
    apply Forall_app in Hq as [_ Hq]. decompose_Forall. specialize (Hemp k). unfold val in Hemp. rewrite Ht in Hemp.
    by rewrite Hemp. }
  apply HQ; [done|]. split; simpl; try done.
  - destruct Hwf' as [R1 R2 R3 R4 R5]. split; simpl; [done..|]. intros q g Hq Hg.
    simpl in Hg. destruct (R5 q g Hq Hg) as [? Hdom]. split; [done|]. simpl in Hdom. rewrite dom_delete. apply elem_of_difference.
    split; [done|]. intros ->%elem_of_singleton.
    destruct (decide ((p ++ [i]) `prefix_of` q)) as [Hpre|Hn]; [by rewrite (Hext q Hq Hpre) in Hg|].
    rewrite (Hne q Hq Hn) in Hg. apply Hn. by rewrite (Hna q (p ++ [i]) lvl).
  - intros va Hva. unfold walk. cbn [p_mem p_cr3 set_refs set_flush set_mem stored]. symmetry. destruct (val_of_tbl _ _ _ _ _ Ht) as (Hp1 & Hl1 & _).
    assert (∀ q j, good q -> idx j -> ¬ (p ++ [i]) `prefix_of` q -> val (<[f / 8 + i := 0]> (p_mem s)) (p_cr3 s) q j =
      if decide (q = p ∧ j = i) then 0 else val (p_mem s) (p_cr3 s) q j) as Hv by (intros; by apply val_set_ne).
    set (V := val (p_mem s) (p_cr3 s)). set (V' := val (<[f / 8 + i := 0]> (p_mem s)) (p_cr3 s)).
    eapply (wlk_new_table V' V p i [] (indices va) va); try done.
    + destruct Hpi as [Hl _]. rewrite length_app in Hl. simpl in Hl. lia.
    + intros q j Hq Hj Hd. unfold V, V'. destruct (decide ((p ++ [i]) `prefix_of` q)) as [Hpre|Hn].
      * rewrite (Hbelow q j Hq Hj Hpre). unfold val. by rewrite (Hext q Hq Hpre).
      * rewrite Hv by done. by rewrite decide_False.
    + unfold V'. rewrite Hv by (done || apply not_prefix_self). by rewrite decide_True.
    + intros j Hj. unfold V. by rewrite Hemp.
  - intros q j Hq Hj Hn. by rewrite (val_set_ne (p_mem s) (p_cr3 s) p f i).
Qed.


(** The tables and frames of [s] are still there, the tables of [s'] that are
    not tables of [s] are in frames that [s] did not use, and of the other
    frames only those of [P] are taken, each with one reference. *)
Record grows (s : machine) (P : list Z) (s' : machine) : Prop := {
  gr_wf : wf s';
  gr_cr3 : p_cr3 s' = p_cr3 s;
  gr_kva : p_kva s' = p_kva s;
  gr_refs : p_refs s ⊆ p_refs s';
  gr_tbl q g : good q -> tbl (p_mem s') (p_cr3 s) q = Some g ->
    tbl (p_mem s) (p_cr3 s) q = Some g ∨ g ∉ dom (p_refs s);
  gr_keep q g : good q -> tbl (p_mem s) (p_cr3 s) q = Some g -> tbl (p_mem s') (p_cr3 s) q = Some g;
  gr_acc f : f ∈ dom (p_refs s') -> f ∈ dom (p_refs s) ∨ f ∈ P ∨ ∃ q, good q ∧ tbl (p_mem s') (p_cr3 s) q = Some f;
  gr_nodup : NoDup P;
  gr_taken f : f ∈ P -> (frame_ok f ∧ fr_managed f = true) ∧ f ∉ dom (p_refs s) ∧ p_refs s' !! f = Some 1 ∧
    ∀ q, good q -> tbl (p_mem s') (p_cr3 s) q ≠ Some f;
}.
#[local] Abbreviation extends s s' := (grows s [] s').

Lemma grows_trans s1 P1 s2 P2 s3 : grows s1 P1 s2 -> grows s2 P2 s3 -> grows s1 (P1 ++ P2) s3.
Proof.
  intros [W1 C1 K1 R1 T1 E1 A1 N1 F1] [W2 C2 K2 R2 T2 E2 A2 N2 F2]. rewrite C1 in *.
  pose proof (subseteq_dom _ _ R1) as D1. split; [done|congruence|congruence|by etrans|..].
  - intros q g Hq Hg. destruct (T2 q g Hq Hg) as [Hg2|Hn]; [by apply T1|]. right. set_solver.
  - intros q g Hq Hg. by apply E2, E1.
  - intros f [Hf|[Hf|Hf]]%A2; [|right; left; set_solver|by right; right].
    destruct (A1 f Hf) as [?|[?|(q & Hq & Ht)]]; [by left|right; left; set_solver|right; right; eauto].
  - apply NoDup_app. split_and!; [done| |done]. intros f Hf Hf2. destruct (F1 f Hf) as (_ & _ & Hr & _).
    destruct (F2 f Hf2) as (_ & Hn & _). by apply elem_of_dom_2, Hn in Hr.
  - intros f [Hf|Hf]%elem_of_app.
    + destruct (F1 f Hf) as (Ho & Hd & Hr & Hn). split_and!; [apply Ho|apply Ho|done|by eapply lookup_weaken|].
      intros q Hq Ht. destruct (T2 q f Hq Ht) as [Ht2|Ht2]; [by apply (Hn q)|]. by apply elem_of_dom_2, Ht2 in Hr.
    + destruct (F2 f Hf) as (Ho & Hd & Hr & Hn). split_and!; [apply Ho|apply Ho|set_solver|done|done].
Qed.

Lemma extends_trans s1 s2 s3 : extends s1 s2 -> extends s2 s3 -> extends s1 s3.
Proof. apply grows_trans. Qed.

Lemma tbl_below_absent m root p i q : present (val m root p i) = false -> (p ++ [i]) `prefix_of` q -> tbl m root q = None.
Proof.
  intros Hno (r & ->)%app_single_prefix. rewrite tbl_app. unfold val in Hno.
  destruct (tbl m root p); [|done]. simpl. by rewrite Hno.
Qed.

Lemma fresh_table_extends s p i lvl s' : good (p ++ [i]) -> fresh_table s p i lvl s' -> extends s s'.
Proof.
  intros Hpi [W C K R (Hok & Hd & _) Ha Ht Hn Hv He].
  assert (∀ q g, good q -> tbl (p_mem s) (p_cr3 s) q = Some g -> tbl (p_mem s') (p_cr3 s) q = Some g) as Hkeep.
  { intros q g Hq Hg. rewrite Ht; [done|done|]. intros Hpre. by rewrite (tbl_below_absent _ _ p i) in Hg. }
  split; [done..|rewrite R; by apply insert_subseteq, not_elem_of_dom| |done| |constructor|by intros ? ?%elem_of_nil].
  2:{ intros f. rewrite R, dom_insert. intros [->%elem_of_singleton|]%elem_of_union; [|by left].
      right; right. exists (p ++ [i]). split; [done|]. done. }
  intros q g Hq Hg. destruct (decide ((p ++ [i]) `prefix_of` q)) as [Hpre|Hnp]; [|left; by rewrite <- Ht].
  apply app_single_prefix in Hpre as [r ->]. right. rewrite cons_middle, app_assoc, tbl_app, Hn in Hg. simpl in Hg.
  destruct r as [|j r]; [by injection Hg as <-|]. assert (idx j) as Hj.
  { destruct Hq as (_ & Hq & _). apply Forall_app in Hq as [_ Hq]. by decompose_Forall. }
  specialize (He j Hj). unfold val in He. rewrite Hn in He. simpl in Hg. by rewrite He in Hg.
Qed.

(** Everything is as before, except for entries that were not present. *)
Record restored (s s' : machine) : Prop := {
  rs_wf : wf s';
  rs_walks : same_walks s s';
  rs_cr3 : p_cr3 s' = p_cr3 s;
  rs_kva : p_kva s' = p_kva s;
  rs_refs : p_refs s' = p_refs s;
  rs_tbl q : good q -> tbl (p_mem s') (p_cr3 s) q = tbl (p_mem s) (p_cr3 s) q;
  rs_val q j : good q -> idx j -> val (p_mem s') (p_cr3 s) q j = val (p_mem s) (p_cr3 s) q j ∨
    val (p_mem s') (p_cr3 s) q j = 0 ∧ present (val (p_mem s) (p_cr3 s) q j) = false;
}.

Lemma restored_unchanged s s' : wf s -> unchanged s s' -> restored s s'.
Proof.
  intros Hwf (Hm & Hc & Hr & Hk). split; try done; rewrite ?Hm; try done; [|by intros va _; unfold walk; rewrite Hm, Hc|by left].
  apply (wf_ext s); [done|done|by rewrite Hr|done].
Qed.

Lemma restored_extends s s' : restored s s' -> extends s s'.
Proof.
  intros [W _ C K R T V]. split; [done..|by rewrite R| | | |constructor|by intros ? ?%elem_of_nil].
  - intros q g Hq Hg. left. by rewrite <- T.
  - intros q g Hq Hg. by rewrite T.
  - intros f Hf. left. by rewrite <- R.
Qed.

(** The result of [get_table]: the table was there, or it is new. *)
Definition opened (s : machine) (p : list Z) (i l : Z) (s' : machine) : Prop :=
  l = 0 ∧ s' = s ∨ l ≠ 0 ∧ fresh_table s p i l s'.

Lemma good_last p i : good (p ++ [i]) -> idx i ∧ (length p <= 2)%nat.
Proof.
  intros (Hl & Hi & _). rewrite length_app in Hl. simpl in Hl. split; [|lia].
  apply Forall_app in Hi as [_ Hi]. by decompose_Forall.
Qed.

Lemma opened_extends s p i l s' : wf s -> good (p ++ [i]) -> opened s p i l s' -> extends s s'.
Proof. intros Hwf Hg [[-> ->]|[_ H]]; [by apply restored_extends, restored_unchanged|by eapply fresh_table_extends]. Qed.

Lemma opened_walks s p i l s' : good (p ++ [i]) -> opened s p i l s' -> same_walks s s'.
Proof. intros Hg [[-> ->]|[_ H]]; [done|]. eapply fresh_table_walks; [exact (proj2 (good_last _ _ Hg))|done]. Qed.

Lemma wp_open_table s p i f child flags (Q : option Z -> machine -> Prop) :
  wf s -> good (p ++ [i]) -> tbl (p_mem s) (p_cr3 s) p = Some f -> isset flags PTE_PS = false ->
  present (val (p_mem s) (p_cr3 s) p i) && large (val (p_mem s) (p_cr3 s) p i) = false ->
  (∀ s', restored s s' -> Q None s') ->
  (∀ l s' g, opened s p i l s' -> tbl (p_mem s') (p_cr3 s') (p ++ [i]) = Some g -> Q (Some l) s') ->
  wp (get_table (slot p i) child flags) s Q.
Proof.
  intros Hwf Hg Ht Hps Hla HN HS. unfold val in Hla. rewrite Ht in Hla. apply (wp_get_table s p i f); try done.
  - intros Hp. rewrite Hp in Hla. simpl in Hla. eapply HS; [by left|]. rewrite tbl_app, Ht. simpl. by rewrite Hp, Hla.
  - intros s' Hs. by apply HN, restored_unchanged.
  - intros lvl s' Hl Hf. eapply HS; [by right|]. rewrite (ft_cr3 _ _ _ _ _ Hf). by apply Hf.
Qed.

(** Undoing [get_table] after work that left everything as it was. *)
Lemma wp_close_table s p i f l s1 s2 child (Q : unit -> machine -> Prop) :
  wf s -> good (p ++ [i]) -> tbl (p_mem s) (p_cr3 s) p = Some f -> opened s p i l s1 -> restored s1 s2 ->
  (∀ s', restored s s' -> Q tt s') ->
  wp (put_table (slot p i) child l) s2 Q.
Proof.
  intros Hwf Hg Ht [[-> ->]|[Hl Hf]] [W Wk C K R T V] HQ; [unfold put_table; rewrite decide_True by done; by apply wp_ret, HQ|].
  pose proof (fresh_table_walks _ _ _ _ _ (proj2 (good_last _ _ Hg)) Hf) as Hwk.
  destruct Hf as [_ Fc Fk Fr (_ & Hd & Hm) Fa Ft Fn Fv Fe]. rewrite Fc in *. apply not_elem_of_dom in Hd.
  apply (wp_put_table s2 p i f); try done.
  - rewrite C, T by (by eapply good_app). rewrite Ft; [done|by eapply good_app|apply not_prefix_self].
  - intros _. rewrite C. split_and!; [by rewrite T|by rewrite R, Fr, lookup_insert_eq|done|].
    intros j Hj. rewrite <- (Fe j Hj). destruct (V (p ++ [i]) j Hg Hj) as [|[-> _]]; [done|by rewrite Fe].
  - intros s3 _ [W3 Wk3 C3 K3 R3 T3 N3 V3]. rewrite C in *. apply HQ. split; try congruence.
    + by rewrite Hwk, Wk, Wk3.
    + by rewrite R3, R, Fr, delete_insert_id.
    + intros q Hq. destruct (decide ((p ++ [i]) `prefix_of` q)) as [Hpre|Hnp].
      * rewrite N3 by done. by rewrite (tbl_below_absent _ _ p i).
      * by rewrite T3, T, Ft.
    + intros q j Hq Hj. destruct (decide ((p ++ [i]) `prefix_of` q)) as [Hpre|Hnp].
      * left. unfold val. rewrite N3 by done. by rewrite (tbl_below_absent _ _ p i).
      * rewrite V3 by done. case_decide as Hd'; [destruct Hd' as [-> ->]; by right|]. rewrite <- (Fv q j) by done. by apply V.
Qed.


(** No large page on the way to the page table of [i4, i3, i2]. *)
Definition blocks (s : machine) (p : list Z) (i : Z) : bool :=
  present (val (p_mem s) (p_cr3 s) p i) && large (val (p_mem s) (p_cr3 s) p i).
Definition unblocked (s : machine) (i4 i3 i2 : Z) : Prop := blocks s [i4] i3 = false ∧ blocks s [i4; i3] i2 = false.

Lemma opened_blocks s p i l s' q j :
  opened s p i l s' -> good q -> idx j -> q ≠ p -> blocks s' q j = blocks s q j.
Proof.
  intros [[-> ->]|[_ H]] Hq Hj Hne; [done|]. unfold blocks. rewrite (ft_cr3 _ _ _ _ _ H).
  rewrite (ft_val _ _ _ _ _ H) by naive_solver. done.
Qed.

Lemma wf_top_blocks s i : wf s -> idx i -> blocks s [] i = false.
Proof.
  intros Hwf Hi. unfold blocks, val. simpl. pose proof (wf_top s Hwf i Hi) as Ht.
  destruct (present _); [|done]. by rewrite Ht.
Qed.

Lemma wp_get_tables s i4 i3 i2 flags (Q : bool -> machine -> Prop) :
  wf s -> good [i4; i3; i2] -> unblocked s i4 i3 i2 -> isset flags PTE_PS = false ->
  (∀ s', restored s s' -> Q false s') ->
  (∀ s' f, extends s s' -> same_walks s s' -> tbl (p_mem s') (p_cr3 s') [i4; i3; i2] = Some f -> Q true s') ->
  wp (get_tables i4 i3 i2 flags) s Q.
Proof.
  intros Hwf Hg [Hb3 Hb2] Hps HN HS.
  pose proof (good_app [i4; i3] [i2] Hg) as Hg3. pose proof (good_app [i4] [i3] Hg3) as Hg4.
  destruct (good_last [] i4 Hg4) as [Hi4 _]. destruct (good_last [i4] i3 Hg3) as [Hi3 _].
  destruct (good_last [i4; i3] i2 Hg) as [Hi2 _].
  unfold get_tables. wp_step. apply (wp_open_table s [] i4 (p_cr3 s)); try done; [by apply wf_top_blocks|].
  intros l3 s1 f3 Ho1 Hf3. pose proof (opened_extends _ [] _ _ _ Hwf Hg4 Ho1) as E1.
  wp_step. apply (wp_open_table s1 [i4] i3 f3); try done; [apply E1|by rewrite <- Hb3; apply (opened_blocks s [] i4 l3 s1 [i4])|..].
  { intros s2 R2. wp_step. apply (wp_close_table s [] i4 (p_cr3 s) l3 s1); try done.  }
  intros l2 s2 f2 Ho2 Hf2. pose proof (opened_extends _ [_] _ _ _ (gr_wf _ _ _ E1) Hg3 Ho2) as E2.
  wp_step. apply (wp_open_table s2 [i4; i3] i2 f2); try done; [apply E2|..].
  { rewrite <- Hb2. transitivity (blocks s1 [i4; i3] i2); [by apply (opened_blocks s1 [i4] i3 l2)|by apply (opened_blocks s [] i4 l3)]. }
  { intros s3 R3. wp_step. apply (wp_close_table s1 [i4] i3 f3 l2 s2); try done; [apply E1|]. intros s4 R4.
    wp_step. apply (wp_close_table s [] i4 (p_cr3 s) l3 s1); try done.  }
  intros l1 s3 f1 Ho3 Hf1. pose proof (opened_extends _ [_; _] _ _ _ (gr_wf _ _ _ E2) Hg Ho3) as E3.
  apply wp_ret. apply (HS s3 f1); [by eapply extends_trans, extends_trans| |done].
  rewrite (opened_walks s [] i4 l3 s1), (opened_walks s1 [i4] i3 l2 s2), (opened_walks s2 [i4; i3] i2 l1 s3) by done. done.
Qed.


(** Only the page with the indices [js] changes: its walk becomes [r]. *)
Definition page_update (s : machine) (js : list Z) (r : option (Z * Z)) (s' : machine) : Prop :=
  ∀ va, outside va -> walk s' va = if decide (indices va = js) then r else walk s va.

(** What the entry [e] of a page table maps. *)
Definition leaf (e : Z) : option (Z * Z) := if present e then Some (e, 4096) else None.

Lemma page_update_same s s1 js r s2 : same_walks s s1 -> page_update s1 js r s2 -> page_update s js r s2.
Proof. intros Hs Hp va Hva. rewrite Hp by done. by rewrite Hs. Qed.

Lemma leaf_not_prefix (p q : list Z) i : length p = 3%nat -> good q -> ¬ (p ++ [i]) `prefix_of` q.
Proof. intros Hp [Hq _] (r & ->)%app_single_prefix. rewrite length_app in Hq. simpl in Hq. lia. Qed.

(** A store to an entry of a page table. *)
Lemma leaf_stored s p i f v :
  wf s -> good p -> length p = 3%nat -> idx i -> tbl (p_mem s) (p_cr3 s) p = Some f ->
  extends s (stored f i v s) ∧ page_update s (p ++ [i]) (leaf v) (stored f i v s).
Proof.
  intros Hwf Hg Hl Hi Ht. pose proof (frame_ok_aligned _ (wf_root s Hwf)) as Hr. pose proof (wf_noalias s Hwf) as Hna.
  assert (∀ q, good q -> tbl (p_mem (stored f i v s)) (p_cr3 s) q = tbl (p_mem s) (p_cr3 s) q) as Htbl.
  { intros q Hq. apply tbl_set_ne with p; try done. by apply leaf_not_prefix. }
  split.
  - split; [|done|done|done|intros q g Hq; rewrite Htbl by done; by left|intros q g Hq; by rewrite Htbl|by left|constructor|by intros ? ?%elem_of_nil].
    apply (stored_wf s p); try done; [by right|intros ->; done|]. intros q q' g Hq _ Hpre. by apply leaf_not_prefix in Hpre.
  - intros va Hva. case_decide as Hd.
    + destruct p as [|j4 [|j3 [|j2 [|]]]]; try done. injection Hd as <- <- <- <-.
      rewrite (walk_at _ va f); [|by rewrite <- Ht; apply Htbl]. simpl.
      rewrite entry_insert; [|exact (tbl_aligned _ _ _ _ Hr Ht)|exact (tbl_aligned _ _ _ _ Hr Ht)|done|done]. by rewrite decide_True.
    + unfold walk. apply (wlk_leaf _ _ p i [] (indices va) va); try done.
      intros q j Hq Hj Hne. cbn [p_mem p_cr3 stored set_mem]. rewrite (val_set_ne _ _ p f i) by (done || by apply leaf_not_prefix).
      by rewrite decide_False.
Qed.

Lemma wf_flush s fl : wf s -> wf (set_flush fl s).
Proof. by apply wf_ext. Qed.

Lemma extends_flush s s' fl : extends s s' -> extends s (set_flush fl s').
Proof. intros [W C K R T]. split; try done. by apply wf_flush. Qed.

Lemma indices_viraddr i4 i3 i2 i1 : idx i4 -> idx i3 -> idx i2 -> idx i1 ->
  indices (viraddr i4 i3 i2 i1) = [i4; i3; i2; i1].
Proof.
  unfold idx, indices, viraddr. intros. rewrite !land511, !(Z.mod_small _ 512) by done.
  rewrite PML4I_div, PDPTI_div, PDI_div, PTI_div. repeat (f_equal; [dlia|]). f_equal. dlia.
Qed.

(** ** Pages by address *)

Definition map_at (paddr va flags : Z) : M machine Z :=
  x86_64_map paddr (PML4I va) (PDPTI va) (PDI va) (PTI va) flags.
Definition unmap_at (va : Z) : M machine unit := x86_64_unmap (PML4I va) (PDPTI va) (PDI va) (PTI va).
Definition open_at (s : machine) (va : Z) : Prop := unblocked s (PML4I va) (PDPTI va) (PDI va).

(** The entry [x86_64_map] makes, and what the page maps after it. *)
Definition new_entry (paddr flags : Z) : Z := Z.lor (PGROUND paddr) (PGOFF (extract_vmflags flags)).
Definition mapping (old : option (Z * Z)) (paddr flags : Z) : option (Z * Z) :=
  if negb (isset flags PTE_REMAPPG) && bool_decide (is_Some old) then old else leaf (new_entry paddr flags).

Lemma va_idx va : idx (PML4I va) ∧ idx (PDPTI va) ∧ idx (PDI va) ∧ idx (PTI va).
Proof. pose proof (indices_idx va) as H. unfold indices in H. by decompose_Forall. Qed.

Lemma va_good va : outside va -> good [PML4I va; PDPTI va; PDI va].
Proof.
  intros Ho. destruct (va_idx va) as (H4 & H3 & H2 & _). split; [simpl; lia|]. split; [by rewrite !Forall_cons|]. by intros [= ?].
Qed.

Lemma idx_valid i : idx i -> iL_INV i = false.
Proof. unfold idx, iL_INV, NPTE. intros. apply bool_decide_eq_false. lia. Qed.

Lemma wp_page_map s paddr va flags (Q : Z -> machine -> Prop) :
  wf s -> outside va -> open_at s va -> isset (extract_vmflags flags) PTE_PS = false ->
  (∀ s', restored s s' -> Q (- ENOMEM) s') ->
  (∀ s', extends s s' -> page_update s (indices va) (mapping (walk s va) paddr flags) s' ->
     head (p_flush s') = Some (viraddr (PML4I va) (PDPTI va) (PDI va) (PTI va)) -> Q 0 s') ->
  wp (map_at paddr va flags) s Q.
Proof.
  intros Hwf Ho Hopen Hps HN HS. destruct (va_idx va) as (H4 & H3 & H2 & H1). pose proof (va_good va Ho) as Hg.
  unfold map_at, x86_64_map. rewrite !idx_valid by done. cbn [orb]. rewrite Hps.
  wp_step. apply wp_get_tables; try done. intros s1 f E1 W1 Ht. cbn [negb].
  wp_step. apply (wp_vload s1 [PML4I va; PDPTI va; PDI va] f); [apply E1|done|done|done|].
  assert (walk s va = leaf (entry (p_mem s1) f (PTI va))) as Hw by (rewrite <- W1 by done; by apply walk_at).
  wp_step. unfold when, mapping in *. rewrite Hw in *.
  assert (bool_decide (is_Some (leaf (entry (p_mem s1) f (PTI va)))) = present (entry (p_mem s1) f (PTI va))) as Hsome.
  { unfold leaf. destruct (present _); apply bool_decide_eq_true || apply bool_decide_eq_false; [done|by intros []]. }
  rewrite Hsome in HS. destruct (negb (present _) || isset flags PTE_REMAPPG) eqn:Hst.
  - replace (negb (isset flags PTE_REMAPPG) && present (entry (p_mem s1) f (PTI va))) with false in HS.
    + apply (wp_vstore s1 [PML4I va; PDPTI va; PDI va] f); [apply E1|done|done|done|].
      destruct (leaf_stored s1 _ (PTI va) f (new_entry paddr flags) (gr_wf _ _ _ E1) Hg eq_refl H1 Ht) as [E2 U2].
      unfold send_tlb_shootdown, invlpg. wp_auto. apply HS; [|by eapply page_update_same|done].
      by apply extends_flush, extends_flush, (extends_trans _ s1).
    + symmetry. destruct (isset flags PTE_REMAPPG), (present _); done.
  - apply orb_false_iff in Hst as [Hp Hr]. apply negb_false_iff in Hp. rewrite Hr, Hp in HS. cbn [negb andb] in HS.
    unfold send_tlb_shootdown, invlpg. wp_auto. apply HS; [by apply extends_flush, extends_flush| |done].
    intros va' Hva'. etrans; [by apply W1|]. case_decide as Hd; [|done]. rewrite <- Hw. unfold walk. by rewrite Hd.
Qed.


(** A walk goes through the tables that are there. *)
Lemma wlk_tbl m root pre p rest g : rest ≠ [] -> tbl m root (pre ++ p) = Some g ->
  wlk (val m root) pre (p ++ rest) = wlk (val m root) (pre ++ p) rest.
Proof.
  intros Hr. revert pre. induction p as [|j p IH]; intros pre Hg; [by rewrite app_nil_r|].
  rewrite cons_middle, app_assoc in Hg. rewrite (cons_middle j pre p), (app_assoc pre [j] p), <- IH by done.
  rewrite tbl_app in Hg. destruct (tbl m root (pre ++ [j])) as [h|] eqn:Hh; [|done].
  destruct (val_of_tbl _ _ _ _ _ Hh) as (Hp & Hl & _). cbn [app wlk]. rewrite Hp, Hl. cbn [negb].
  destruct (p ++ rest) eqn:E; [|done]. by apply app_eq_nil in E as [_ ->].
Qed.

Lemma walk_absent s va p j rest f : indices va = p ++ j :: rest -> tbl (p_mem s) (p_cr3 s) p = Some f ->
  present (entry (p_mem s) f j) = false -> walk s va = None.
Proof.
  intros Hi Hf Hp. unfold walk. rewrite Hi, (wlk_tbl _ _ [] p _ f) by done. cbn [wlk app]. unfold val. rewrite Hf. by rewrite Hp.
Qed.

Lemma tbl_next s p i f : tbl (p_mem s) (p_cr3 s) p = Some f -> blocks s p i = false -> present (entry (p_mem s) f i) = true ->
  tbl (p_mem s) (p_cr3 s) (p ++ [i]) = Some (frame_of (entry (p_mem s) f i)).
Proof.
  intros Hf Hb Hp. unfold blocks, val in Hb. rewrite Hf, Hp in Hb. simpl in Hb. rewrite tbl_app, Hf. simpl. by rewrite Hp, Hb.
Qed.

(** [find_entry] reads the entry of the page. *)
Lemma wp_find_entry s va (Q : option Z -> machine -> Prop) :
  wf s -> outside va -> open_at s va ->
  (walk s va = None -> Q None s) ->
  (∀ f e, tbl (p_mem s) (p_cr3 s) [PML4I va; PDPTI va; PDI va] = Some f -> entry (p_mem s) f (PTI va) = e ->
     walk s va = Some (e, 4096) -> Q (Some e) s) ->
  wp (find_entry (PML4I va) (PDPTI va) (PDI va) (PTI va)) s Q.
Proof.
  intros Hwf Ho [Hb3 Hb2] HN HS. destruct (va_idx va) as (H4 & H3 & H2 & H1). pose proof (va_good va Ho) as Hg.
  pose proof (good_app [_; _] [_] Hg) as Hg3. pose proof (good_app [_] [_] Hg3) as Hg4. pose proof (good_app [] [_] Hg4) as Hg0.
  pose proof (wf_top_blocks s _ Hwf H4) as Hb4.
  unfold find_entry. wp_step. apply (wp_vload s [] (p_cr3 s)); [done..|].
  destruct (present (entry _ (p_cr3 s) _)) eqn:E4; cbn [negb]; [|by apply wp_ret, HN, (walk_absent s va [] (PML4I va) [PDPTI va; PDI va; PTI va] (p_cr3 s))].
  pose proof (tbl_next s [] _ (p_cr3 s) eq_refl Hb4 E4) as T4. cbn [app] in T4. set (f4 := frame_of _) in T4.
  wp_step. apply (wp_vload s [PML4I va] f4); [done..|].
  destruct (present (entry _ f4 _)) eqn:E3; cbn [negb]; [|by apply wp_ret, HN, (walk_absent s va [PML4I va] (PDPTI va) [PDI va; PTI va] f4)].
  pose proof (tbl_next s _ _ _ T4 Hb3 E3) as T3. cbn [app] in T3. set (f3 := frame_of (entry _ f4 _)) in T3.
  wp_step. apply (wp_vload s [PML4I va; PDPTI va] f3); [done..|].
  destruct (present (entry _ f3 _)) eqn:E2; cbn [negb]; [|by apply wp_ret, HN, (walk_absent s va [PML4I va; PDPTI va] (PDI va) [PTI va] f3)].
  pose proof (tbl_next s _ _ _ T3 Hb2 E2) as T2. cbn [app] in T2. set (f2 := frame_of (entry _ f3 _)) in T2.
  wp_step. apply (wp_vload s [PML4I va; PDPTI va; PDI va] f2); [done..|].
  destruct (present (entry _ f2 _)) eqn:E1; cbn [negb]; [|by apply wp_ret, HN, (walk_absent s va [PML4I va; PDPTI va; PDI va] (PTI va) [] f2)].
  apply wp_ret, (HS f2); [done|done|]. rewrite (walk_at s va f2) by done. simpl. by rewrite E1.
Qed.

(** ** Unmapping *)

(** The frame a mapping owns, released by [x86_64_unmap]. *)
Definition owned_frame (w : option (Z * Z)) : option Z :=
  match w with Some (e, _) => if isset e PTE_ALLOC_PAGE then Some (PGROUND e) else None | None => None end.

Definition drop_ref (f : Z) (refs : gmap Z Z) : gmap Z Z :=
  match refs !! f with
  | Some n => if fr_managed f then if decide (n <= 1) then delete f refs else <[f := n - 1]> refs else refs
  | None => refs
  end.

(** The frame of the page is not the frame of a table. *)
Definition releasable (s : machine) (w : option (Z * Z)) : Prop :=
  ∀ f, owned_frame w = Some f -> f ≠ 0 ∧ ∀ q, good q -> tbl (p_mem s) (p_cr3 s) q ≠ Some f.

Record unmapped (s : machine) (va : Z) (s' : machine) : Prop := {
  un_wf : wf s';
  un_cr3 : p_cr3 s' = p_cr3 s;
  un_kva : p_kva s' = p_kva s;
  un_refs : p_refs s' = match owned_frame (walk s va) with Some f => drop_ref f (p_refs s) | None => p_refs s end;
  un_tbl q : good q -> tbl (p_mem s') (p_cr3 s) q = tbl (p_mem s) (p_cr3 s) q;
  un_walk : page_update s (indices va) None s';
  un_flush : head (p_flush s') = Some (viraddr (PML4I va) (PDPTI va) (PDI va) (PTI va));
}.

Lemma drop_ref_dom f refs g : g ∈ dom refs -> g ≠ f -> g ∈ dom (drop_ref f refs).
Proof. intros Hg Hne. unfold drop_ref. destruct (refs !! f) as [n|]; [|done]. destruct (fr_managed f); [|done]. case_decide; set_solver. Qed.

Lemma wf_drop_ref s f : wf s -> (∀ q, good q -> tbl (p_mem s) (p_cr3 s) q ≠ Some f) -> wf (set_refs (drop_ref f (p_refs s)) s).
Proof.
  intros [R1 R2 R3 R4 R5] Hn. split; [done..|]. intros q g Hq Hg. destruct (R5 q g Hq Hg) as [? Hd]. split; [done|].
  simpl. apply drop_ref_dom; [done|]. intros ->. by apply (Hn q).
Qed.

Lemma wp_pmman_free s f (Q : unit -> machine -> Prop) :
  f ≠ 0 -> Q tt (set_refs (drop_ref f (p_refs s)) s) -> wp (pmman_free f) s Q.
Proof.
  intros Hf HQ. unfold wp, pmman_free, drop_ref in *. rewrite decide_False by done.
  destruct s as [m c r k fl t]. simpl in *. destruct (r !! f) as [n|]; [|done]. by destruct (fr_managed f).
Qed.

Lemma wp_unmap_at s va (Q : unit -> machine -> Prop) :
  wf s -> outside va -> open_at s va -> releasable s (walk s va) ->
  (∀ s', unmapped s va s' -> Q tt s') -> wp (unmap_at va) s Q.
Proof.
  intros Hwf Ho Hopen Hrel HQ. destruct (va_idx va) as (_ & _ & _ & H1). pose proof (va_good va Ho) as Hg.
  unfold unmap_at, x86_64_unmap. wp_step. apply wp_find_entry; [done..| |].
  - intros Hw. unfold invlpg, when. wp_auto. simpl. change (isset 0 PTE_ALLOC_PAGE) with false. apply HQ.
    split; try done; rewrite ?Hw; [by apply wf_flush|done|]. intros va' Hva'. case_decide as Hd; [|done].
    rewrite <- Hw. unfold walk. by rewrite Hd.
  - intros f e Ht He Hw. wp_step. wp_step. apply (wp_vstore s [PML4I va; PDPTI va; PDI va] f); [done..|].
    destruct (leaf_stored s _ (PTI va) f 0 Hwf Hg eq_refl H1 Ht) as [E U].
    assert (∀ q, good q -> tbl (p_mem (stored f (PTI va) 0 s)) (p_cr3 s) q = tbl (p_mem s) (p_cr3 s) q) as Htbl.
    { intros q Hq. apply tbl_set_ne with [PML4I va; PDPTI va; PDI va]; try done; [by apply frame_ok_aligned, Hwf|apply Hwf|by apply leaf_not_prefix]. }
    unfold send_tlb_shootdown, invlpg, when. wp_auto. cbn [default from_option id]. rewrite Hw in Hrel. unfold releasable, owned_frame in Hrel.
    destruct (isset e PTE_ALLOC_PAGE) eqn:Ha.
    + destruct (Hrel _ eq_refl) as [Hf0 Hn]. apply wp_pmman_free; [done|]. apply HQ.
      split; try done; [|by rewrite Hw; simpl; rewrite Ha].
      apply wf_drop_ref; [by apply wf_flush, wf_flush, E|]. intros q Hq. cbn [p_mem p_cr3 set_flush]. rewrite (gr_cr3 _ _ _ E). by rewrite Htbl; [apply Hn|].
    + wp_auto. apply HQ. split; try done; [by apply wf_flush, wf_flush, E|by rewrite Hw; simpl; rewrite Ha].
Qed.

End ops.

Abbreviation extends s s' := (grows s [] s').
