(* ===== verification/PagingRange.v ===== *)
(** * Page tables: ranges of pages

    Specifications of the loops over ranges of pages: [x86_64_map_i],
    [x86_64_map_n] and [x86_64_unmap_n]. *)

From S2P Require Import Prelude Paging PagingSpec PagingOps.

(** [va] is not in a large page. *)
Definition small (s : machine) (va : Z) : Prop := ∀ e n, walk s va = Some (e, n) -> n = 4096.

Lemma small_blocks s va p j rest :
  small s va -> indices va = p ++ j :: rest -> rest ≠ [] -> blocks s p j = false.
Proof.
  intros Hs Hi Hr. destruct (blocks s p j) eqn:Hb; [|done]. exfalso. unfold blocks in Hb.
  apply andb_true_iff in Hb as [Hp Hl]. destruct (tbl (p_mem s) (p_cr3 s) p) as [f|] eqn:Hf; [|by unfold val in Hp; rewrite Hf in Hp].
  unfold small, walk in Hs. rewrite Hi, (wlk_tbl _ _ [] p _ f) in Hs by done. cbn [wlk app] in Hs. rewrite Hp, Hl in Hs.
  destruct rest as [|k rest]; [done|]. specialize (Hs _ _ eq_refl).
  assert (512 ^ 1 <= 512 ^ Z.of_nat (length (k :: rest))) as Hle by (apply Z.pow_le_mono_r; simpl; lia).
  change (512 ^ 1) with 512 in Hle. lia.
Qed.

Lemma small_open s va : small s va -> open_at s va.
Proof.
  intros Hs. split.
  - by apply (small_blocks s va [PML4I va] (PDPTI va) [PDI va; PTI va]).
  - by apply (small_blocks s va [PML4I va; PDPTI va] (PDI va) [PTI va]).
Qed.

Lemma small_None s va : walk s va = None -> small s va.
Proof. intros Hw e n. by rewrite Hw. Qed.

Lemma walk_indices s va vb : indices va = indices vb -> walk s va = walk s vb.
Proof. unfold walk. by intros ->. Qed.

(** ** Distances in pages *)

(** The pages from [va] to [v], modulo the 2^36 pages of the address space. *)
Definition pgdist (va v : Z) : Z := (v / 4096 - va / 4096) mod 68719476736.

Lemma pgdist_range va v : 0 <= pgdist va v < 68719476736.
Proof. apply Z.mod_pos_bound. done. Qed.

Lemma page_number va :
  va / 4096 mod 68719476736 = PML4I va * 134217728 + PDPTI va * 262144 + PDI va * 512 + PTI va.
Proof.
  rewrite PML4I_div, PDPTI_div, PDI_div, PTI_div.
  change 2097152 with (4096 * 512). change 1073741824 with (4096 * 512 * 512).
  change 549755813888 with (4096 * 512 * 512 * 512). rewrite <- !Z.div_div by done.
  set (a := va / 4096). set (b := a / 512). set (c := b / 512). unfold c, b. dlia.
Qed.

Lemma indices_pgdist va v : indices v = indices va <-> pgdist va v = 0.
Proof.
  pose proof (page_number va) as Ha. pose proof (page_number v) as Hv.
  destruct (va_idx va) as (A4 & A3 & A2 & A1). destruct (va_idx v) as (V4 & V3 & V2 & V1).
  unfold idx, indices, pgdist in *. split.
  - intros [= H4 H3 H2 H1]. dlia.
  - intros H. assert (v / 4096 mod 68719476736 = va / 4096 mod 68719476736) as He by (clear Ha Hv; dlia).
    rewrite Ha, Hv in He. clear Ha Hv H. f_equal; [lia|]. f_equal; [lia|]. f_equal; [lia|]. f_equal. lia.
Qed.

Lemma pgdist_step va v : pgdist va v ≠ 0 -> pgdist (u64 (va + PGSZ)) v = pgdist va v - 1.
Proof. unfold pgdist, u64, two64, PGSZ. intros H. dlia. Qed.

Lemma pgdist_last va v : pgdist va v = 0 -> pgdist (u64 (va + PGSZ)) v = 68719476735.
Proof. unfold pgdist, u64, two64, PGSZ. intros H. dlia. Qed.

Lemma pgdist_self va : pgdist va va = 0.
Proof. unfold pgdist. by rewrite Z.sub_diag. Qed.

(** ** Ranges *)

(** The [n] pages from [va] on change, page [d] to [F d]; no other page does. *)
Definition range_update (s : machine) (va n : Z) (F : Z -> option (Z * Z)) (s' : machine) : Prop :=
  ∀ v, outside v -> walk s' v = if decide (pgdist va v < n) then F (pgdist va v) else walk s v.

Lemma range_update_0 s va F s' : same_walks s s' -> range_update s va 0 F s'.
Proof. intros Hs v Hv. pose proof (pgdist_range va v). rewrite decide_False by lia. by apply Hs. Qed.

Lemma range_update_cons s va n F s1 s2 : 0 <= n < 68719476736 ->
  page_update s (indices va) (F 0) s1 -> range_update s1 (u64 (va + PGSZ)) n (λ d, F (d + 1)) s2 ->
  range_update s va (n + 1) F s2.
Proof.
  intros Hn H1 H2 v Hv. rewrite H2, H1 by done. pose proof (pgdist_range va v) as Hr.
  destruct (decide (pgdist va v = 0)) as [Hd|Hd].
  - rewrite (pgdist_last va v Hd). rewrite decide_False by lia. rewrite decide_True by by apply indices_pgdist.
    rewrite decide_True by lia. by rewrite Hd.
  - rewrite (pgdist_step va v Hd). rewrite (decide_False (P := indices v = indices va)) by (by rewrite indices_pgdist).
    destruct (decide (pgdist va v < n + 1)); [|by rewrite decide_False by lia].
    rewrite decide_True by lia. f_equal. lia.
Qed.

Lemma range_tail va n v : 0 <= n < 68719476736 -> pgdist (u64 (va + PGSZ)) v < n ->
  pgdist va v ≠ 0 ∧ pgdist va v < n + 1.
Proof.
  intros Hn Hd. destruct (decide (pgdist va v = 0)) as [H0|H0].
  - rewrite (pgdist_last va v H0) in Hd. lia.
  - rewrite (pgdist_step va v H0) in Hd. lia.
Qed.

(** The pages after the first keep their walks. *)
Lemma page_update_tail s va r s1 n v : page_update s (indices va) r s1 -> outside v -> 0 <= n < 68719476736 ->
  pgdist (u64 (va + PGSZ)) v < n -> walk s1 v = walk s v.
Proof.
  intros Hu Hv Hn Hd. destruct (range_tail va n v Hn Hd) as [H0 _]. rewrite Hu by done.
  rewrite decide_False; [done|]. by rewrite indices_pgdist.
Qed.

Lemma new_entry_step paddr d flags : new_entry (u64 (paddr + PGSZ) + 4096 * d) flags = new_entry (paddr + 4096 * (d + 1)) flags.
Proof. unfold new_entry, PGROUND. rewrite u64_add_l. unfold PGSZ. do 3 f_equal. lia. Qed.

(** A range that is not mapped and not in the window. *)
Definition unused (s : machine) (va n : Z) : Prop := ∀ v, pgdist va v < n -> outside v ∧ walk s v = None.

Lemma unused_tail s va r s1 n : page_update s (indices va) r s1 -> 0 <= n < 68719476736 ->
  unused s va (n + 1) -> unused s1 (u64 (va + PGSZ)) n.
Proof.
  intros Hu Hn Hf v Hd. destruct (range_tail va n v Hn Hd) as [H0 H1]. destruct (Hf v H1) as [Ho Hw].
  split; [done|]. by rewrite (page_update_tail s va r s1 n v).
Qed.

Section ranges.
Context {FR : Frames} {KV : Kva}.

Lemma wp_map_i_loop nr s va paddr flags (Q : Z * nat -> machine -> Prop) :
  wf s -> Z.of_nat nr <= 68719476736 -> unused s va (Z.of_nat nr) -> isset (extract_vmflags flags) PTE_PS = false ->
  (∀ err left s', err = 0 ∧ left = O ∨ err = - ENOMEM ∧ (0 < left <= nr)%nat -> extends s s' ->
     range_update s va (Z.of_nat nr - Z.of_nat left) (λ d, leaf (new_entry (paddr + 4096 * d) flags)) s' -> Q (err, left) s') ->
  wp (map_i_loop nr va paddr flags) s Q.
Proof.
  intros Hwf Hn Hf Hps. revert s va paddr Q Hwf Hf Hn. induction nr as [|nr IH]; intros s va paddr Q Hwf Hf Hn HQ.
  { apply wp_ret, HQ; [by left|by apply restored_extends, restored_unchanged|]. by apply range_update_0. }
  destruct (Hf va) as [Ho Hw]; [rewrite pgdist_self; lia|]. cbn [map_i_loop]. wp_step.
  change (x86_64_map paddr _ _ _ _ flags) with (map_at paddr va flags).
  apply wp_page_map; [done|done|by apply small_open, small_None|done|..].
  - intros s' Hr. rewrite decide_True by done. apply wp_ret, HQ; [right; split; [done|lia]|by apply restored_extends|].
    rewrite Z.sub_diag. apply range_update_0, Hr.
  - intros s1 E1 U1 _. rewrite decide_False by (intros []; done). rewrite Hw in U1.
    assert (mapping None paddr flags = leaf (new_entry paddr flags)) as Hm by (unfold mapping; by rewrite andb_false_r).
    rewrite Hm in U1. eapply IH; [apply E1| |lia|].
    + eapply unused_tail; [done|lia|]. replace (Z.of_nat nr + 1) with (Z.of_nat (S nr)) by lia. done.
    + intros err left s2 Hcase E2 U2. apply HQ; [|by eapply extends_trans|].
      { destruct Hcase as [[? ?]|[? ?]]; [by left|right; split; [done|lia]]. }
      replace (Z.of_nat (S nr) - Z.of_nat left) with (Z.of_nat nr - Z.of_nat left + 1) by lia.
      eapply range_update_cons; [destruct Hcase; lia| |].
      * rewrite Z.mul_0_r, Z.add_0_r. done.
      * intros v Hv. rewrite U2 by done. case_decide; [|done]. by rewrite new_entry_step.
Qed.

(** ** Unmapping a range *)

Lemma grows_unmapped_none s0 P s va s' :
  grows s0 P s -> unmapped s va s' -> owned_frame (walk s va) = None -> grows s0 P s'.
Proof.
  intros [W C K R T E A N F] [W' C' K' R' T' _ _] Hn. rewrite Hn in R'. rewrite C in *. split; try congruence.
  - by rewrite R'.
  - intros q g Hq. rewrite T' by done. by apply T.
  - intros q g Hq Hg. rewrite T' by done. by apply E.
  - intros f. rewrite R'. intros [?|[?|(q & Hq & Ht)]]%A; [by left|by right; left|]. right; right. exists q. by rewrite T'.
  - intros f Hf. destruct (F f Hf) as (? & ? & ? & Hx). rewrite R'. split; [done|]. split; [done|]. split; [done|]. intros q Hq. rewrite T' by done. by apply Hx.
Qed.

Lemma grows_unmapped_some s0 P f s va s' :
  grows s0 (f :: P) s -> unmapped s va s' -> owned_frame (walk s va) = Some f -> grows s0 P s'.
Proof.
  intros [W C K R T E A N F] [W' C' K' R' T' _ _] Hn. rewrite Hn in R'. rewrite C in *.
  destruct (F f) as ((_ & Hm) & Hd & Hr & _); [by left|]. unfold drop_ref in R'. rewrite Hr, Hm in R'.
  rewrite decide_True in R' by done. apply not_elem_of_dom in Hd. apply NoDup_cons in N as [Nf N]. split; try congruence.
  - rewrite R'. apply map_subseteq_spec. intros g x Hg. rewrite lookup_delete_ne by congruence. by eapply lookup_weaken.
  - intros q g Hq. rewrite T' by done. by apply T.
  - intros q g Hq Hg. rewrite T' by done. by apply E.
  - intros g. rewrite R', dom_delete. intros [Hg Hne]%elem_of_difference.
    destruct (A g Hg) as [?|[[->|?]%elem_of_cons|(q & Hq & Ht)]]; [by left|set_solver|by right; left|].
    right; right. exists q. by rewrite T'.
  - intros g Hg. destruct (F g) as (? & ? & ? & Hx); [by right|]. rewrite R'.
    rewrite lookup_delete_ne by (intros ->; done). split; [done|]. split; [done|]. split; [done|]. intros q Hq. rewrite T' by done. by apply Hx.
Qed.

(** [fs]: the frame that each page of the range owns, if any; [L]: other frames. *)
Lemma wp_unmap_pages fs L s0 s va (Q : unit -> machine -> Prop) :
  Z.of_nat (length fs) <= 68719476736 -> grows s0 (omap id fs ++ L) s ->
  (∀ v, pgdist va v < Z.of_nat (length fs) -> outside v ∧ small s v ∧
     owned_frame (walk s v) = mjoin (fs !! Z.to_nat (pgdist va v))) ->
  (∀ s', grows s0 L s' -> range_update s va (Z.of_nat (length fs)) (λ _, None) s' -> Q tt s') ->
  wp (unmap_loop (length fs) va) s Q.
Proof.
  revert s va Q. induction fs as [|o fs IH]; intros s va Q Hn Hg Hf HQ; cbn [length] in *.
  { apply wp_ret, HQ; [done|]. by apply range_update_0. }
  destruct (Hf va) as (Ho & Hs & Hw); [rewrite pgdist_self; lia|]. rewrite pgdist_self in Hw. cbn [Z.to_nat lookup list_lookup mjoin option_join] in Hw.
  cbn [unmap_loop]. wp_step. change (x86_64_unmap _ _ _ _) with (unmap_at va).
  apply wp_unmap_at; [apply Hg|done|by apply small_open| |].
  { intros f Hof. rewrite Hw in Hof. simpl in Hof. subst o. destruct (gr_taken _ _ _ Hg f) as ((Hok & _) & _ & _ & Hx); [by left|].
    split; [destruct Hok; lia|]. rewrite (gr_cr3 _ _ _ Hg). apply Hx. }
  intros s1 U1. assert (grows s0 (omap id fs ++ L) s1) as Hg1.
  { destruct o as [f|].
    - exact (grows_unmapped_some s0 (omap id fs ++ L) f s va s1 Hg U1 Hw).
    - exact (grows_unmapped_none s0 (omap id fs ++ L) s va s1 Hg U1 Hw). }
  pose proof (un_walk _ _ _ U1) as W1. apply IH; [lia|done| |].
  - intros v Hd. destruct (range_tail va (Z.of_nat (length fs)) v) as [H0 H1]; [lia|done|].
    destruct (Hf v) as (Hov & Hsv & Hwv); [lia|].
    assert (walk s1 v = walk s v) as He by (apply (page_update_tail s va None s1 (Z.of_nat (length fs))); [done|done|lia|done]).
    split; [done|]. split; [intros e n; rewrite He; apply Hsv|]. rewrite He, Hwv, (pgdist_step va v H0).
    pose proof (pgdist_range va v). replace (Z.to_nat (pgdist va v)) with (S (Z.to_nat (pgdist va v - 1))) by lia. done.
  - intros s2 E2 U2. apply HQ; [done|]. replace (Z.of_nat (S (length fs))) with (Z.of_nat (length fs) + 1) by lia.
    eapply range_update_cons; [lia|done|done].
Qed.
End ranges.

(** ** Entries and page counts *)

Lemma PGROUND_u64 p : PGROUND p = u64 p - u64 p mod 4096.
Proof.
  assert (in_u64 (u64 p)) as Hp by (unfold in_u64, u64; apply Z.mod_pos_bound; done).
  rewrite <- PGROUND_sub by done. unfold PGROUND. by rewrite (u64_small (u64 p)).
Qed.

Lemma PGROUND_aligned p : PGROUND p mod 4096 = 0.
Proof. rewrite PGROUND_u64. dlia. Qed.

Lemma PGOFF_bit p n : 0 <= n < 12 -> Z.testbit (PGOFF p) n = Z.testbit p n.
Proof.
  intros Hn. unfold PGOFF, u64, PGSZ. change (4096 - 1) with (Z.ones 12). change two64 with (2 ^ 64).
  by rewrite Z.land_spec, Z.ones_spec_low, andb_true_r, Z.mod_pow2_bits_low by lia.
Qed.

(** The low bits of an entry are the flags. *)
Lemma new_entry_isset paddr flags n : 0 <= n < 12 -> isset (new_entry paddr flags) (2 ^ n) = isset flags (2 ^ n).
Proof.
  intros Hn. rewrite !isset_testbit by lia. unfold new_entry, extract_vmflags.
  rewrite Z.lor_spec, testbit_aligned, !PGOFF_bit by (done || apply PGROUND_aligned). done.
Qed.

Lemma extract_isset flags n : 0 <= n < 12 -> isset (extract_vmflags flags) (2 ^ n) = isset flags (2 ^ n).
Proof. intros Hn. rewrite !isset_testbit by lia. by apply PGOFF_bit. Qed.

Lemma leaf_small e : ∀ e' n, leaf e = Some (e', n) -> n = 4096.
Proof. unfold leaf. intros e' n. destruct (present e); [by intros [= _ <-]|done]. Qed.

Lemma NPAGE_pages k : 0 <= k <= 68719476736 -> NPAGE (u64 (k * PGSZ)) = k.
Proof.
  intros Hk. unfold NPAGE, PGSZ. rewrite u64_small by (unfold in_u64, two64; lia). rewrite PGOFF_mod, u64_small by (unfold in_u64, two64; lia).
  rewrite Z.mod_mul, Z.div_mul by done. rewrite decide_True by done. lia.
Qed.

Lemma omap_replicate_None {A} k : omap (id : option A -> option A) (replicate k None) = [].
Proof. induction k; [done|]. simpl. done. Qed.

(** Mapping a range that was unused and unmapping it again. *)
Lemma range_undone s va n F s1 s2 :
  unused s va n -> range_update s va n F s1 -> range_update s1 va n (λ _, None) s2 -> same_walks s s2.
Proof.
  intros Hu U1 U2 v Hv. rewrite U2 by done. case_decide as Hd; [symmetry; by apply Hu|].
  rewrite U1 by done. by rewrite decide_False.
Qed.

Lemma unused_le s va n m : m <= n -> unused s va n -> unused s va m.
Proof. intros Hm Hu v Hd. apply Hu. lia. Qed.

Section range_ops.
Context {FR : Frames} {KV : Kva}.

(** Unmapping the pages of a range made by [F]. *)
Lemma wp_unmap_range fs L s0 s va F s1 (Q : unit -> machine -> Prop) :
  Z.of_nat (length fs) <= 68719476736 -> unused s va (Z.of_nat (length fs)) ->
  grows s0 (omap id fs ++ L) s1 -> range_update s va (Z.of_nat (length fs)) F s1 ->
  (∀ d e n, F d = Some (e, n) -> n = 4096) ->
  (∀ d, 0 <= d < Z.of_nat (length fs) -> owned_frame (F d) = mjoin (fs !! Z.to_nat d)) ->
  (∀ s', grows s0 L s' -> same_walks s s' -> Q tt s') ->
  wp (x86_64_unmap_n va (u64 (Z.of_nat (length fs) * PGSZ))) s1 Q.
Proof.
  intros Hn Hu Hg Hr Hsm Hown HQ. unfold x86_64_unmap_n. rewrite NPAGE_pages, Nat2Z.id by lia.
  apply (wp_unmap_pages fs L s0); [done|done| |].
  - intros v Hd. destruct (Hu v Hd) as [Ho _]. pose proof (pgdist_range va v). unfold small. rewrite (Hr v Ho).
    rewrite decide_True by done. split; [done|]. split; [apply Hsm|]. apply Hown. lia.
  - intros s2 E2 U2. apply HQ; [done|]. by eapply range_undone.
Qed.

(** [x86_64_map_i] maps all pages of an unused range or none. *)
Lemma wp_map_i s va paddr sz flags (Q : Z -> machine -> Prop) :
  wf s -> 0 <= NPAGE sz <= 68719476736 -> unused s va (NPAGE sz) ->
  isset flags PTE_PS = false -> isset flags PTE_ALLOC_PAGE = false ->
  (∀ s', extends s s' -> range_update s va (NPAGE sz) (λ d, leaf (new_entry (paddr + 4096 * d) flags)) s' -> Q 0 s') ->
  (∀ s', extends s s' -> same_walks s s' -> Q (- ENOMEM) s') ->
  wp (x86_64_map_i va paddr sz flags) s Q.
Proof.
  intros Hwf Hn Hu Hps Hal HS HN. unfold x86_64_map_i. wp_step.
  apply wp_map_i_loop; [done|lia|by rewrite Z2Nat.id by lia|by rewrite <- Hps; apply (extract_isset flags 7)|].
  rewrite Z2Nat.id by lia. intros err left s1 [[-> ->]|[-> Hl]] E1 U1; cbn [fst snd].
  - rewrite decide_True by done. apply wp_ret, HS; [done|]. by rewrite Z.sub_0_r in U1.
  - rewrite decide_False by done. wp_step. set (k := (Z.to_nat (NPAGE sz) - left)%nat).
    assert (Z.of_nat k = NPAGE sz - Z.of_nat left) as Hk by lia. rewrite <- Hk in *.
    assert (length (replicate k (@None Z)) = k) as Hlen by apply length_replicate.
    rewrite <- Hlen in U1 |- *. eapply (wp_unmap_range _ [] s s); rewrite ?Hlen; [lia|eapply unused_le; [|done]; lia|by rewrite omap_replicate_None|by rewrite Hlen in U1| | |].
    + intros d. apply leaf_small.
    + intros d Hd. rewrite lookup_replicate_2 by lia. simpl. unfold owned_frame, leaf. destruct (present _); [|done].
      by rewrite (new_entry_isset _ flags 11 ltac:(done) : isset _ PTE_ALLOC_PAGE = _), (Hal : isset flags (2 ^ 11) = _).
    + intros s2 E2 W2. apply wp_ret. by apply HN.
Qed.

(** ** Pages with frames of their own *)

(** [get_page] takes a frame and changes no page. *)
Lemma wp_take_page s zero (Q : Z -> machine -> Prop) :
  wf s -> (∀ s', restored s s' -> Q 0 s') ->
  (∀ f s', frame_ok f -> grows s [f] s' -> same_walks s s' -> Q f s') ->
  wp (get_page zero) s Q.
Proof.
  intros Hwf H0 HS. unfold wp, get_page. destruct (fr_choose _ _) as [f|] eqn:E; [|by apply H0, restored_unchanged].
  destruct (fr_fresh _ _ _ E) as (Hok & Hd & Hm).
  set (s' := set_mem _ _). assert (∀ q, good q -> tbl (p_mem s') (p_cr3 s) q = tbl (p_mem s) (p_cr3 s) q) as Ht.
  { intros q Hq. destruct zero; [by apply zeroed_tbl|done]. }
  assert (∀ q j, good q -> idx j -> val (p_mem s') (p_cr3 s) q j = val (p_mem s) (p_cr3 s) q j) as Hv.
  { intros q j Hq Hj. destruct zero; [by apply zeroed_val|done]. }
  apply HS; [done| |].
  - split; try done.
    + destruct zero; [by refine (wf_ext _ _ _ _ _ (zeroed_wf s f 1 Hwf Hok Hd))|]. refine (wf_ext s _ _ _ _ Hwf); [done|done|]. simpl. set_solver.
    + simpl. by apply insert_subseteq, not_elem_of_dom.
    + intros q g Hq. rewrite Ht by done. by left.
    + intros q g Hq. by rewrite Ht.
    + intros g. simpl. rewrite dom_insert. set_solver.
    + apply NoDup_singleton.
    + intros g ->%list_elem_of_singleton. split; [done|]. split; [done|]. split; [by simpl; rewrite lookup_insert_eq|].
      intros q Hq. rewrite Ht by done. intros Hg. by apply Hd, (wf_live s Hwf q).
  - intros va Hva. unfold walk. apply (wlk_leaf _ _ [510; 0; 0] 0 [] (indices va) va); try done; [|by intros; apply Hv].
    intros [= Hx _ _ _]. by apply Hva.
Qed.

Lemma owned_new_entry f flags : frame_ok f -> isset flags PTE_P = true -> isset flags PTE_ALLOC_PAGE = true ->
  owned_frame (leaf (new_entry f flags)) = Some f.
Proof.
  intros Hf Hp Ha. unfold leaf, present.
  rewrite (new_entry_isset f flags 0 ltac:(done) : isset _ PTE_P = _), (Hp : isset flags (2 ^ 0) = _). unfold owned_frame.
  rewrite (new_entry_isset f flags 11 ltac:(done) : isset _ PTE_ALLOC_PAGE = _), (Ha : isset flags (2 ^ 11) = _). f_equal.
  destruct Hf as [Hr Hm]. unfold PGSZ in Hm. assert (PGROUND f = f) as Hpg by (rewrite PGROUND_sub by (unfold in_u64, two64; lia); lia).
  pose proof (PGOFF_range (extract_vmflags flags)) as Ho. unfold new_entry. rewrite Hpg, lor_add by done.
  rewrite PGROUND_sub by (unfold in_u64, two64; lia). dlia.
Qed.

Lemma omap_Some {A} (l : list A) : omap id (Some <$> l) = l.
Proof. induction l as [|x l IH]; [done|]. simpl. by f_equal. Qed.

Lemma lor_isset a b n : 0 <= n -> isset (Z.lor a b) (2 ^ n) = isset a (2 ^ n) || isset b (2 ^ n).
Proof. intros Hn. rewrite !isset_testbit by done. apply Z.lor_spec. Qed.

Lemma wp_map_n_loop nr s va flags (Q : Z * nat -> machine -> Prop) :
  wf s -> Z.of_nat nr <= 68719476736 -> unused s va (Z.of_nat nr) -> isset flags PTE_PS = false ->
  (∀ err left P L s', err = 0 ∧ left = O ∧ L = [] ∨ err = - ENOMEM ∧ (0 < left <= nr)%nat ∧ (length L <= 1)%nat ->
     length P = (nr - left)%nat -> Forall frame_ok P -> grows s (P ++ L) s' ->
     range_update s va (Z.of_nat nr - Z.of_nat left) (λ d, leaf (new_entry (P !!! Z.to_nat d) (Z.lor flags PTE_ALLOC_PAGE))) s' ->
     Q (err, left) s') ->
  wp (map_n_loop nr va flags) s Q.
Proof.
  intros Hwf Hn Hf Hps. revert s va Q Hwf Hf Hn. induction nr as [|nr IH]; intros s va Q Hwf Hf Hn HQ.
  { apply wp_ret, (HQ 0 O [] []); [by left|done|done|by apply restored_extends, restored_unchanged|]. by apply range_update_0. }
  destruct (Hf va) as [Ho Hw]; [rewrite pgdist_self; lia|]. cbn [map_n_loop]. wp_step.
  apply wp_take_page; [done|..].
  { intros s' Hr. rewrite decide_True by done. apply wp_ret, (HQ _ _ [] []); [right; split; [done|simpl; lia]|simpl; lia|done|by apply restored_extends|].
    rewrite Z.sub_diag. apply range_update_0, Hr. }
  intros f s1 Hok G1 W1. rewrite decide_False by (destruct Hok; lia). wp_step.
  change (x86_64_map f _ _ _ _ ?fl) with (map_at f va fl). set (fl := Z.lor flags PTE_ALLOC_PAGE).
  assert (walk s1 va = None) as Hw1 by (by rewrite W1). apply wp_page_map; [apply G1|done|by apply small_open, small_None|..].
  { change PTE_PS with (2 ^ 7). rewrite extract_isset by done. unfold fl. rewrite lor_isset by done. by rewrite (Hps : isset flags (2 ^ 7) = _). }
  - intros s2 Hr. rewrite decide_True by done. apply wp_ret, (HQ _ _ [] [f]); [right; split; [done|simpl; lia]|simpl; lia|done| |].
    + by apply (grows_trans _ [f] s1 []), restored_extends.
    + rewrite Z.sub_diag. apply range_update_0. by rewrite W1, (rs_walks _ _ Hr).
  - intros s2 E2 U2 _. rewrite decide_False by (intros []; done). rewrite Hw1 in U2.
    assert (mapping None f fl = leaf (new_entry f fl)) as Hm by (unfold mapping; by rewrite andb_false_r). rewrite Hm in U2.
    apply (page_update_same s s1) in U2; [|done].
    eapply IH; [apply E2| |lia|].
    + eapply unused_tail; [done|lia|]. replace (Z.of_nat nr + 1) with (Z.of_nat (S nr)) by lia. done.
    + intros err left P L s3 Hcase HlP HokP G3 U3. apply (HQ _ _ (f :: P) L).
      * destruct Hcase as [?|(? & ? & ?)]; [by left|right; split_and!; [done|lia|lia|done]].
      * destruct Hcase; simpl; lia.
      * by constructor.
      * apply (grows_trans _ [f] s1 (P ++ L)); [done|]. by apply (grows_trans _ [] s2).
      * replace (Z.of_nat (S nr) - Z.of_nat left) with (Z.of_nat nr - Z.of_nat left + 1) by lia.
        eapply range_update_cons; [destruct Hcase; lia|done|].
        intros v Hv. rewrite U3 by done. case_decide; [|done]. pose proof (pgdist_range (u64 (va + PGSZ)) v).
        by rewrite Z.add_1_r, Z2Nat.inj_succ by lia.
Qed.

(** [x86_64_map_n] maps all pages of an unused range to new frames or none. *)
Lemma wp_map_n s va sz flags (Q : Z -> machine -> Prop) :
  wf s -> 0 <= NPAGE sz <= 68719476736 -> unused s va (NPAGE sz) ->
  isset flags PTE_PS = false -> isset flags PTE_P = true ->
  (∀ P s', length P = Z.to_nat (NPAGE sz) -> Forall frame_ok P -> grows s P s' ->
     range_update s va (NPAGE sz) (λ d, leaf (new_entry (P !!! Z.to_nat d) (Z.lor flags PTE_ALLOC_PAGE))) s' -> Q 0 s') ->
  (∀ L s', (length L <= 1)%nat -> grows s L s' -> same_walks s s' -> Q (- ENOMEM) s') ->
  wp (x86_64_map_n va sz flags) s Q.
Proof.
  intros Hwf Hn Hu Hps Hp HS HN. unfold x86_64_map_n. wp_step.
  apply wp_map_n_loop; [done|lia|by rewrite Z2Nat.id by lia|done|].
  rewrite Z2Nat.id by lia. intros err left P L s1 [(-> & -> & ->)|(-> & Hl & HL)] HP Hok G1 U1; cbn [fst snd].
  - rewrite decide_True by done. rewrite app_nil_r in G1. rewrite Z.sub_0_r in U1. rewrite Nat.sub_0_r in HP. apply wp_ret. by apply (HS P).
  - rewrite decide_False by done. wp_step.
    assert (NPAGE sz - Z.of_nat left = Z.of_nat (length (Some <$> P))) as Hk by (rewrite length_fmap; lia). rewrite Hk in *.
    eapply (wp_unmap_range (Some <$> P) L s s); [lia|eapply unused_le; [|done]; lia| |done| | |].
    + by rewrite omap_Some.
    + intros d. apply leaf_small.
    + intros d Hd. rewrite length_fmap in Hd. destruct (lookup_lt_is_Some_2 P (Z.to_nat d)) as [f Hf]; [lia|].
      rewrite list_lookup_fmap, Hf, (list_lookup_total_correct _ _ _ Hf). simpl. rewrite Forall_lookup in Hok.
      apply owned_new_entry; [by eapply Hok|..].
      * change PTE_P with (2 ^ 0). rewrite lor_isset by done. by rewrite (Hp : isset flags (2 ^ 0) = _).
      * change PTE_ALLOC_PAGE with (2 ^ 11). rewrite lor_isset by done. by rewrite orb_true_r.
    + intros s2 E2 W2. apply wp_ret. by apply (HN L).
Qed.

End range_ops.
