(* ===== verification/PagingProps.v ===== *)
(** * Page tables: the properties

    What [x86_64_map], [x86_64_unmap], the operations on ranges, the mapping
    of kernel pages and the temporary mappings guarantee. *)

From S2P Require Import Prelude Paging PagingSpec PagingOps PagingRange.

Section kernel_pages.
Context {FR : Frames} {KV : Kva}.

(** Kernel heap addresses that [vmman] has not handed out are not mapped. *)
Definition heap_clean (s : machine) : Prop :=
  ∀ v, 18446743528248705024 <= v < 18446743532543672320 ->
  (∀ b z, p_kva s !! b = Some z -> ¬ b <= v < b + z) -> walk s v = None.

Lemma heap_outside v : 18446743528248705024 <= v < 18446743532543672320 -> outside v.
Proof. intros Hv. unfold outside. rewrite PML4I_div. dlia. Qed.

Lemma pgdist_page va v : indices v = indices (va + 4096 * pgdist va v).
Proof. apply indices_pgdist. unfold pgdist. dlia. Qed.

Lemma outside_indices v w : indices v = indices w -> outside w -> outside v.
Proof. unfold indices, outside. by intros [= -> _ _ _]. Qed.

(** A range that [vmman] hands out is unused. *)
Lemma heap_unused s n sz v : heap_clean s -> kva_choose n (p_kva s) sz = Some v -> sz mod 4096 = 0 ->
  unused s v (sz / 4096).
Proof.
  intros Hc Hv Hsz a Ha. destruct (kva_fresh _ _ _ _ Hv) as (H1 & H2 & _ & _ & H3).
  pose proof (pgdist_range v a). pose proof (pgdist_page v a) as Hi. set (w := v + 4096 * pgdist v a) in *.
  assert (v <= w < v + sz) as Hw by (unfold w; dlia). split; [eapply outside_indices; [done|apply heap_outside; lia]|].
  rewrite (walk_indices s a w Hi). apply Hc; [lia|]. intros b z Hb ?. destruct (H3 b z Hb); lia.
Qed.

Lemma NPAGE_aligned sz : in_u64 sz -> sz mod 4096 = 0 -> NPAGE sz = sz / 4096.
Proof. intros Hr Hm. unfold NPAGE, PGSZ. rewrite PGOFF_mod, u64_small by done. rewrite decide_True by done. lia. Qed.

Lemma wp_vmman_alloc s sz (Q : Z -> machine -> Prop) :
  in_u64 sz -> 0 < sz -> sz mod 4096 = 0 -> Q 0 (set_ticks (S (p_ticks s)) s) ->
  (∀ v, kva_choose (p_ticks s) (p_kva s) sz = Some v -> v ≠ 0 ->
     Q v (set_kva (<[v := sz]> (p_kva s)) (set_ticks (S (p_ticks s)) s))) ->
  wp (vmman_alloc sz) s Q.
Proof.
  intros Hr Hp Hm H0 HS. unfold wp, vmman_alloc. rewrite decide_False by (rewrite PGOFF_mod, u64_small by done; lia).
  destruct (kva_choose _ _ _) as [v|] eqn:E; [|done]. apply HS; [done|]. destruct (kva_fresh _ _ _ _ E). lia.
Qed.

(** [grows] does not depend on the kernel ranges, except that they stay. *)
Lemma grows_kva k t s P s' : grows (set_kva k (set_ticks t s)) P s' -> grows s P (set_kva (p_kva s) s').
Proof. intros [W C K R T E A N F]. split; try done. by refine (wf_ext _ _ _ _ _ W). Qed.

Lemma wp_vmman_free s v sz (Q : unit -> machine -> Prop) :
  p_kva s !! v = Some sz -> Q tt (set_kva (delete v (p_kva s)) s) -> wp (vmman_free v) s Q.
Proof. intros Hv HQ. unfold wp, vmman_free. by rewrite Hv. Qed.

(** The new range: its frames, and what its pages map. *)
Record allocated (s : machine) (sz v : Z) (P : list Z) (s' : machine) : Prop := {
  al_range : 18446743528248705024 <= v ∧ v + sz <= 18446743532543672320 ∧ v mod 4096 = 0;
  al_fresh : p_kva s !! v = None;
  al_new b z : p_kva s !! b = Some z -> v + sz <= b ∨ b + z <= v;
  al_kva : p_kva s' = <[v := sz]> (p_kva s);
  al_len : length P = Z.to_nat (sz / 4096);
  al_frames : Forall frame_ok P;
  al_grows : grows s P (set_kva (p_kva s) s');
  al_walk : range_update s v (sz / 4096) (λ d, leaf (new_entry (P !!! Z.to_nat d) (Z.lor PTE_KRW PTE_ALLOC_PAGE))) s';
}.

Lemma grows_kva' k s P s' : grows s P (set_kva k s') -> grows (set_kva (p_kva s') s) P s'.
Proof. intros [W C K R T E A N F]. split; try done. by refine (wf_ext _ _ _ _ _ W). Qed.

Lemma wp_pagealloc s sz (Q : Z * Z -> machine -> Prop) :
  wf s -> heap_clean s -> in_u64 sz -> 0 < sz -> sz mod 4096 = 0 ->
  (∀ v P s', allocated s sz v P s' -> Q (0, v) s') ->
  (∀ L s', (length L <= 1)%nat -> grows s L s' -> same_walks s s' -> Q (- ENOMEM, 0) s') ->
  wp (arch_pagealloc sz true) s Q.
Proof.
  intros Hwf Hc Hr Hp Hm HS HN. unfold arch_pagealloc. cbn [negb]. wp_step. apply wp_vmman_alloc; [done..| |].
  { rewrite decide_True by done. apply wp_ret, (HN []); [simpl; lia|by apply restored_extends, restored_unchanged|done]. }
  intros v Hv Hv0. rewrite decide_False by done. pose proof (kva_fresh _ _ _ _ Hv) as (H1 & H2 & H3 & H4 & H5).
  set (s1 := set_kva _ _). assert (wf s1) as Hwf1 by by refine (wf_ext s s1 _ _ _ Hwf).
  assert (NPAGE sz = sz / 4096) as Hnp by by apply NPAGE_aligned.
  assert (0 <= sz / 4096 <= 68719476736) as Hn by dlia.
  wp_step. apply wp_map_n; [done|by rewrite Hnp|rewrite Hnp; exact (heap_unused s _ sz v Hc Hv Hm)|done|done| |]; rewrite ?Hnp.
  - intros P s2 HlP Hok Hg Hu. rewrite decide_False by (intros []; done). apply wp_ret, (HS v P). split; try done.
    + apply (gr_kva _ _ _ Hg).
    + by eapply grows_kva.
  - intros L s2 HL Hg Hs. rewrite decide_True by done. wp_step. eapply wp_vmman_free.
    { rewrite (gr_kva _ _ _ Hg). simpl. by rewrite lookup_insert_eq. }
    apply wp_ret, (HN L); [done| |done]. rewrite (gr_kva _ _ _ Hg). simpl. rewrite delete_insert_id by done. by eapply grows_kva.
Qed.

Lemma wp_pagefree s sz v P s1 (Q : unit -> machine -> Prop) :
  heap_clean s -> in_u64 sz -> 0 < sz -> sz mod 4096 = 0 -> allocated s sz v P s1 ->
  (∀ s', extends s s' -> same_walks s s' -> Q tt s') ->
  wp (arch_pagefree v sz) s1 Q.
Proof.
  intros Hc Hr Hp Hm [(H1 & H2 & H3) Hnew H4 Hk Hl Hok Hg Hw] HQ. unfold arch_pagefree. wp_step.
  assert (0 <= sz / 4096 <= 68719476736) as Hn by dlia.
  assert (sz = u64 (Z.of_nat (length (Some <$> P)) * PGSZ)) as Hsz.
  { rewrite length_fmap, Hl, Z2Nat.id by lia. rewrite u64_small by (unfold in_u64, two64, PGSZ; dlia). unfold PGSZ. dlia. }
  rewrite Hsz at 1. apply (wp_unmap_range _ [] (set_kva (p_kva s1) s) s v
    (λ d, leaf (new_entry (P !!! Z.to_nat d) (Z.lor PTE_KRW PTE_ALLOC_PAGE)))); rewrite ?length_fmap, ?Hl, ?Z2Nat.id by lia; [lia| | | | | |].
  - intros a Ha. pose proof (pgdist_range v a). pose proof (pgdist_page v a) as Hi. set (w := v + 4096 * pgdist v a) in *.
    assert (v <= w < v + sz) as Hvw by (unfold w; dlia). split; [eapply outside_indices; [done|apply heap_outside; lia]|].
    rewrite (walk_indices s a w Hi). apply Hc; [lia|]. intros b z Hb ?. destruct (H4 b z Hb); lia.
  - rewrite app_nil_r, omap_Some. by eapply grows_kva'.
  - done.
  - intros d. apply leaf_small.
  - intros d Hd. destruct (lookup_lt_is_Some_2 P (Z.to_nat d)) as [f Hf]; [lia|].
    rewrite list_lookup_fmap, Hf, (list_lookup_total_correct _ _ _ Hf). simpl. rewrite Forall_lookup in Hok.
    apply owned_new_entry; [by eapply Hok|done|done].
  - intros s2 E2 W2. pose proof (gr_kva _ _ _ E2) as K2. simpl in K2. eapply wp_vmman_free; [rewrite K2, Hk; apply lookup_insert_eq|].
    apply HQ; [|done]. rewrite K2, Hk, delete_insert_id by done. by eapply (grows_kva _ (p_ticks s)).
Qed.


(** ** Temporary mappings *)

Lemma wp_mount s paddr (Q : Z * Z -> machine -> Prop) :
  wf s -> heap_clean s -> paddr ≠ 0 ->
  (∀ v s', kva_choose (p_ticks s) (p_kva s) PGSZ = Some v -> p_kva s' = <[v := PGSZ]> (p_kva s) ->
     extends s (set_kva (p_kva s) s') -> page_update s (indices v) (Some (new_entry paddr PTE_KRW, 4096)) s' -> Q (0, v) s') ->
  (∀ s', extends s s' -> same_walks s s' -> Q (- ENOMEM, 0) s') ->
  wp (x86_64_mount paddr true) s Q.
Proof.
  intros Hwf Hc Hp HS HN. unfold x86_64_mount. rewrite decide_False by naive_solver. wp_step.
  apply wp_vmman_alloc; [done..| |].
  { rewrite decide_True by done. apply wp_ret, HN; [by apply restored_extends, restored_unchanged|done]. }
  intros v Hv Hv0. rewrite decide_False by done. pose proof (kva_fresh _ _ _ _ Hv) as (H1 & H2 & H3 & H4 & H5).
  set (s1 := set_kva _ _). assert (wf s1) as Hwf1 by by refine (wf_ext s s1 _ _ _ Hwf).
  wp_step. apply wp_map_i; [done|done|exact (heap_unused s _ PGSZ v Hc Hv eq_refl)|done|done| |].
  - intros s2 Hg Hu. rewrite decide_False by (intros []; done). apply wp_ret, HS; [done|apply (gr_kva _ _ _ Hg)|by eapply grows_kva|].
    intros a Ha. rewrite (Hu a Ha). change (NPAGE PGSZ) with 1. pose proof (pgdist_range v a).
    destruct (decide (pgdist v a < 1)) as [Hd|Hd].
    + rewrite decide_True by (apply indices_pgdist; lia). replace (pgdist v a) with 0 by lia. rewrite Z.mul_0_r, Z.add_0_r.
      unfold leaf. unfold present. by rewrite (new_entry_isset paddr PTE_KRW 0 ltac:(done) : isset _ PTE_P = _).
    + rewrite decide_False; [done|]. rewrite indices_pgdist. lia.
  - intros s2 Hg Hs. rewrite decide_True by done. wp_step. eapply wp_vmman_free.
    { rewrite (gr_kva _ _ _ Hg). simpl. by rewrite lookup_insert_eq. }
    apply wp_ret, HN; [|done]. rewrite (gr_kva _ _ _ Hg). simpl. rewrite delete_insert_id by done. by eapply grows_kva.
Qed.

Lemma wp_unmount s v e n (Q : unit -> machine -> Prop) :
  wf s -> outside v -> walk s v = Some (e, n) -> n = 4096 -> isset e PTE_ALLOC_PAGE = false ->
  (∀ s', unmapped s v s' -> Q tt s') -> wp (x86_64_unmount v) s Q.
Proof.
  intros Hwf Ho Hw -> Ha HQ. unfold x86_64_unmount, x86_64_unmap_n. change (Z.to_nat (NPAGE PGSZ)) with 1%nat. cbn [unmap_loop].
  wp_step. apply (wp_unmap_at s v); [done|done| | |].
  - apply small_open. intros e' n' He. congruence.
  - intros f. rewrite Hw. unfold owned_frame. by rewrite Ha.
  - intros s' Hu. apply wp_ret. by apply HQ.
Qed.

(** ** Reading and restricting mappings *)

Lemma wp_getmapping s va (Q : Z * option Z -> machine -> Prop) :
  wf s -> outside va -> small s va ->
  (va = 0 -> Q (- EINVAL, None) s) ->
  (va ≠ 0 -> walk s va = None -> Q (- ENOENT, None) s) ->
  (∀ f e, va ≠ 0 -> tbl (p_mem s) (p_cr3 s) [PML4I va; PDPTI va; PDI va] = Some f -> entry (p_mem s) f (PTI va) = e ->
     walk s va = Some (e, 4096) -> Q (0, Some (slot [PML4I va; PDPTI va; PDI va] (PTI va))) s) ->
  wp (x86_64_getmapping va) s Q.
Proof.
  intros Hwf Ho Hs H0 HN HS. unfold x86_64_getmapping. destruct (decide (va = 0)) as [E|E]; [by apply wp_ret, H0|].
  wp_step. apply wp_find_entry; [done|done|by apply small_open| |].
  - intros Hw. by apply wp_ret, HN.
  - intros f e Ht He Hw. apply wp_ret. by eapply HS.
Qed.

(** The mapping [w] without the rights in [mask]. *)
Definition restrict (mask : Z) (w : option (Z * Z)) : option (Z * Z) := (λ x, (Z.ldiff x.1 mask, x.2)) <$> w.

Lemma leaf_restrict e mask : Z.testbit mask 0 = false -> present e = true -> leaf (Z.ldiff e mask) = Some (Z.ldiff e mask, 4096).
Proof. intros Hm Hp. unfold leaf. rewrite present_testbit, Z.ldiff_spec, <- present_testbit, Hp, Hm. done. Qed.

Lemma walk_leaf_present s va f e : tbl (p_mem s) (p_cr3 s) [PML4I va; PDPTI va; PDI va] = Some f ->
  walk s va = Some (e, 4096) -> entry (p_mem s) f (PTI va) = e -> present e = true.
Proof. intros Ht Hw He. rewrite (walk_at s va f Ht) in Hw. cbv zeta in Hw. rewrite He in Hw. by destruct (present e). Qed.

Lemma pgdist_next va d v : indices v = indices (va + 4096 * d) -> 0 <= d < 68719476736 -> pgdist va v = d.
Proof. intros Hi Hd. apply indices_pgdist in Hi. unfold pgdist in *. dlia. Qed.

Lemma step_indices va d : indices (u64 (va + PGSZ) + 4096 * d) = indices (va + 4096 * (d + 1)).
Proof. apply indices_pgdist. unfold pgdist, u64, two64, PGSZ. dlia. Qed.

Lemma wp_mprotect_loop nr s va mask (Q : Z -> machine -> Prop) :
  wf s -> Z.of_nat nr <= 68719476736 -> Z.testbit mask 0 = false ->
  (∀ v, pgdist va v < Z.of_nat nr -> outside v ∧ small s v) ->
  (∀ err k s', 0 <= k <= Z.of_nat nr ->
     err = 0 ∧ k = Z.of_nat nr ∨ err = - ENOENT ∧ k < Z.of_nat nr ∧ walk s (va + 4096 * k) = None ∨ err = - EINVAL ∧ k < Z.of_nat nr ->
     extends s s' -> range_update s va k (λ d, restrict mask (walk s (va + 4096 * d))) s' -> Q err s') ->
  wp (mprotect_loop nr va mask) s Q.
Proof.
  intros Hwf Hn Hm. revert s va Q Hwf Hn. induction nr as [|nr IH]; intros s va Q Hwf Hn Hf HQ; cbn [mprotect_loop].
  { apply wp_ret, (HQ _ 0); [lia|by left|by apply restored_extends, restored_unchanged|by apply range_update_0]. }
  assert (extends s s) as Hrefl by by apply restored_extends, restored_unchanged.
  destruct (Hf va) as [Ho Hs]; [rewrite pgdist_self; lia|]. wp_step. apply wp_getmapping; [done..| | |].
  - intros _. rewrite decide_True by done. apply wp_ret, (HQ _ 0); [lia|right; right; split; [done|lia]|done|by apply range_update_0].
  - intros _ Hw. rewrite decide_True by done. apply wp_ret, (HQ _ 0); [lia| |done|by apply range_update_0].
    right; left. split; [done|]. split; [lia|]. by rewrite Z.mul_0_r, Z.add_0_r.
  - intros f e Hv0 Ht He Hw. rewrite decide_False by (intros []; done). cbn [snd default from_option id].
    destruct (va_idx va) as (_ & _ & _ & H1). pose proof (va_good va Ho) as Hg. pose proof (walk_leaf_present s va f e Ht Hw He) as Hp.
    wp_step. apply (wp_vload s _ f); [done..|]. rewrite He. wp_step. apply (wp_vstore s _ f); [done..|].
    destruct (leaf_stored s _ (PTI va) f (Z.ldiff e mask) Hwf Hg eq_refl H1 Ht) as [E1 U1].
    rewrite leaf_restrict in U1 by done. unfold send_tlb_shootdown, invlpg. wp_auto. set (s1 := set_flush _ _).
    assert (extends s s1) as E1' by by apply extends_flush.
    assert (page_update s (indices va) (restrict mask (walk s va)) s1) as U1' by (rewrite Hw; exact U1).
    assert (∀ v, outside v -> pgdist (u64 (va + PGSZ)) v < Z.of_nat nr -> walk s1 v = walk s v) as Htl.
    { intros v Hv Hd. eapply (page_update_tail s va _ s1 (Z.of_nat nr)); [done|done|lia|done]. }
    apply IH; [apply E1'|lia| |].
    + intros v Hd. destruct (range_tail va (Z.of_nat nr) v) as [_ Hd1]; [lia|done|]. destruct (Hf v) as [Hv Hsv]; [lia|].
      split; [done|]. intros e' n'. rewrite Htl by done. apply Hsv.
    + intros err k s2 Hk Hcase E2 U2. apply (HQ err (k + 1)); [lia| |by eapply extends_trans|].
      * destruct Hcase as [[-> ->]|[(-> & Hlt & Hwk)|[-> Hlt]]]; [left; lia| |right; right; lia].
        right; left. split; [done|]. split; [lia|]. rewrite <- (walk_indices s _ _ (step_indices va k)), <- Htl; [done| |].
        -- apply Hf. assert (pgdist va (u64 (va + PGSZ) + 4096 * k) = k + 1) as ->; [|lia]. apply pgdist_next; [apply step_indices|lia].
        -- rewrite (pgdist_next _ k); [done|done|lia].
      * eapply (range_update_cons s va k); [lia|rewrite Z.mul_0_r, Z.add_0_r; done|]. intros v Hv. rewrite U2 by done.
        case_decide as Hd; [|done]. pose proof (pgdist_range (u64 (va + PGSZ)) v). set (d := pgdist _ v) in *.
        rewrite Htl; [by rewrite (walk_indices s _ _ (step_indices va d))| |].
        -- apply Hf. assert (pgdist va (u64 (va + PGSZ) + 4096 * d) = d + 1) as ->; [|lia]. apply pgdist_next; [apply step_indices|lia].
        -- rewrite (pgdist_next _ d); [lia|done|lia].
Qed.


(** ** Properties *)

(** The recursive window: when slot 510 of the root table holds the root
    table, the addresses [PML4E], [PDPTE], [PDTE] and [PTE] translate to the
    entries of the tables of the four levels. *)
Theorem window_reaches_entries s i4 i3 i2 i1 :
  selfmap s -> idx i4 -> idx i3 -> idx i2 -> idx i1 ->
  translate s (PML4E i4) = Some (p_cr3 s + 8 * i4) ∧
  (∀ f, tbl (p_mem s) (p_cr3 s) [i4] = Some f -> translate s (PDPTE i4 i3) = Some (f + 8 * i3)) ∧
  (∀ f, tbl (p_mem s) (p_cr3 s) [i4; i3] = Some f -> translate s (PDTE i4 i3 i2) = Some (f + 8 * i2)) ∧
  (∀ f, tbl (p_mem s) (p_cr3 s) [i4; i3; i2] = Some f -> translate s (PTE i4 i3 i2 i1) = Some (f + 8 * i1)).
Proof.
  intros Hs H4 H3 H2 H1. split; [|split; [|split]]; [|intros f Hf..].
  - by apply (translate_slot s [] i4 (p_cr3 s)); simpl; try lia.
  - apply (translate_slot s [i4] i3 f); try done; [by rewrite Forall_singleton|simpl; lia].
  - apply (translate_slot s [i4; i3] i2 f); try done; [by rewrite !Forall_cons|simpl; lia].
  - apply (translate_slot s [i4; i3; i2] i1 f); try done. by rewrite !Forall_cons.
Qed.

Lemma new_entry_translate paddr flags va :
  0 < PGROUND paddr < 4503599627370496 ->
  frame_of (new_entry paddr flags) - frame_of (new_entry paddr flags) mod 4096 + va mod 4096 = PGROUND paddr + va mod 4096.
Proof.
  intros Hp. destruct (mk_entry (PGROUND paddr) (PGOFF (extract_vmflags flags))) as (Hf & _ & _).
  { split; [done|apply PGROUND_aligned]. } { apply PGOFF_range. }
  unfold new_entry. rewrite Hf. pose proof (PGROUND_aligned paddr). lia.
Qed.

(** An address [invlpg] acts on: bit 47 is repeated above. *)
Definition canonical (va : Z) : Prop := 0 <= va < 2 ^ 47 ∨ two64 - 2 ^ 47 <= va < two64.
Lemma viraddr_canonical i4 i3 i2 i1 : idx i4 -> idx i3 -> idx i2 -> idx i1 -> canonical (viraddr i4 i3 i2 i1) <-> i4 < 256.
Proof. unfold idx, canonical, viraddr, two64. intros H4 H3 H2 H1. rewrite !land511, !Z.mod_small by lia. lia. Qed.

(** C20. [x86_64_map] on a page outside the window that no large page covers, with
    flags that do not ask for a large page: it returns 0, and then exactly that page
    changes, to the new entry, unless it was mapped and no remapping was asked for;
    or it returns [-ENOMEM] with every mapping and every frame as before.  The
    tables stay well formed, and every frame that was taken is a table.  On
    success the last operand of [invlpg] is [__viraddr] of the page; it is an address
    that [invlpg] acts on exactly for the pages of the lower half. *)
Theorem x86_64_map_correct s paddr i4 i3 i2 i1 flags :
  wf s -> idx i4 -> idx i3 -> idx i2 -> idx i1 -> i4 ≠ 510 -> small s (viraddr i4 i3 i2 i1) ->
  isset flags PTE_PS = false ->
  wp (x86_64_map paddr i4 i3 i2 i1 flags) s (λ r s', let va := viraddr i4 i3 i2 i1 in
    r = - ENOMEM ∧ restored s s' ∨
    r = 0 ∧ extends s s' ∧ head (p_flush s') = Some va ∧ (canonical va <-> i4 < 256) ∧
    page_update s [i4; i3; i2; i1]
      (if negb (isset flags PTE_REMAPPG) && bool_decide (is_Some (walk s va)) then walk s va
       else leaf (new_entry paddr flags)) s' ∧
    (walk s va = None -> isset flags PTE_P = true -> 0 < PGROUND paddr < 4503599627370496 ->
     translate s' va = Some (PGROUND paddr))).
Proof.
  intros Hwf H4 H3 H2 H1 Hne Hs Hps. pose proof (indices_viraddr i4 i3 i2 i1 H4 H3 H2 H1) as Hi.
  set (va := viraddr i4 i3 i2 i1) in *. unfold indices in Hi. injection Hi as E4 E3 E2 E1.
  assert (outside va) as Ho by (unfold outside; by rewrite E4).
  pose proof (wp_page_map s paddr va flags) as Hmap. unfold map_at in Hmap. rewrite E4, E3, E2, E1 in Hmap.
  apply Hmap; [done|done|by apply small_open|rewrite <- Hps; by apply (extract_isset flags 7)|intros s' Hr; by left|].
  intros s' He Hu Hfl. right. unfold indices in Hu. rewrite E4, E3, E2, E1 in Hu. split; [done|]. split; [done|]. split; [done|]. split; [by apply viraddr_canonical|]. split; [done|].
  intros Hw Hp Hpa. rewrite translate_walk by apply He. rewrite (Hu va Ho).
  rewrite decide_True by (unfold indices; by rewrite E4, E3, E2, E1). rewrite Hw. unfold mapping. rewrite andb_false_r.
  unfold leaf, present. rewrite (new_entry_isset paddr flags 0 ltac:(done) : isset _ PTE_P = _), (Hp : isset flags (2 ^ 0) = _).
  cbn [fmap option_fmap option_map fst snd]. rewrite new_entry_translate by done. f_equal.
  assert (va mod 4096 = 0); [|lia]. unfold va, viraddr. rewrite !land511. dlia.
Qed.

(** [x86_64_unmap]: the page is unmapped and its address flushed, no
    other page, no table and no kernel range changes, and the frame loses one
    reference when the mapping owned it ([PTE_ALLOC_PAGE]). *)
Theorem x86_64_unmap_correct s i4 i3 i2 i1 :
  wf s -> idx i4 -> idx i3 -> idx i2 -> idx i1 -> i4 ≠ 510 -> small s (viraddr i4 i3 i2 i1) ->
  releasable s (walk s (viraddr i4 i3 i2 i1)) ->
  wp (x86_64_unmap i4 i3 i2 i1) s (λ _ s', let va := viraddr i4 i3 i2 i1 in
    unmapped s va s' ∧ translate s' va = None).
Proof.
  intros Hwf H4 H3 H2 H1 Hne Hs Hrel. pose proof (indices_viraddr i4 i3 i2 i1 H4 H3 H2 H1) as Hi.
  set (va := viraddr i4 i3 i2 i1) in *. unfold indices in Hi. injection Hi as E4 E3 E2 E1.
  assert (outside va) as Ho by (unfold outside; by rewrite E4).
  pose proof (wp_unmap_at s va) as Hun. unfold unmap_at in Hun. rewrite E4, E3, E2, E1 in Hun.
  apply Hun; [done|done|by apply small_open|done|]. intros s' Hu. split; [done|].
  rewrite translate_walk by apply Hu. rewrite (un_walk _ _ _ Hu va Ho). by rewrite decide_True.
Qed.

(** [x86_64_map_i] maps an unused range to consecutive frames, all of
    its pages or none: on an error the mappings are as before the call. *)
Theorem x86_64_map_i_correct s va paddr sz flags :
  wf s -> 0 <= NPAGE sz <= 68719476736 -> unused s va (NPAGE sz) ->
  isset flags PTE_PS = false -> isset flags PTE_ALLOC_PAGE = false ->
  wp (x86_64_map_i va paddr sz flags) s (λ r s', extends s s' ∧
    (r = 0 ∧ range_update s va (NPAGE sz) (λ d, leaf (new_entry (paddr + 4096 * d) flags)) s' ∨
     r = - ENOMEM ∧ same_walks s s')).
Proof. intros. apply wp_map_i; try done; intros; split; auto. Qed.

(** C23. [x86_64_map_n] maps an unused range to new frames, all of its pages
    or none.  On success every frame taken is a table or the frame of one
    page; on an error the pages are unmapped and their frames released, except
    that one frame may stay allocated. *)
Theorem x86_64_map_n_correct s va sz flags :
  wf s -> 0 <= NPAGE sz <= 68719476736 -> unused s va (NPAGE sz) ->
  isset flags PTE_PS = false -> isset flags PTE_P = true ->
  wp (x86_64_map_n va sz flags) s (λ r s',
    r = 0 ∧ (∃ P, length P = Z.to_nat (NPAGE sz) ∧ grows s P s' ∧
      range_update s va (NPAGE sz) (λ d, leaf (new_entry (P !!! Z.to_nat d) (Z.lor flags PTE_ALLOC_PAGE))) s') ∨
    r = - ENOMEM ∧ same_walks s s' ∧ ∃ L, (length L <= 1)%nat ∧ grows s L s').
Proof. intros. apply wp_map_n; try done; [left; eauto 10|right; eauto 10]. Qed.

(** C22. [arch_pagealloc] followed by [arch_pagefree] of what it returned:
    every mapping and every kernel range is as before, and the only frames
    still taken are tables; when the allocation fails, at most one frame more. *)
Theorem pagealloc_pagefree_roundtrip s sz :
  wf s -> heap_clean s -> in_u64 sz -> 0 < sz -> sz mod 4096 = 0 ->
  wp (r ← arch_pagealloc sz true; if decide (r.1 = 0) then arch_pagefree r.2 sz;; mret 0 else mret r.1) s
    (λ err s', (err = 0 ∨ err = - ENOMEM) ∧ same_walks s s' ∧ heap_clean s' ∧
       ∃ L, grows s L s' ∧ (length L <= if decide (err = 0)%Z then 0 else 1)%nat).
Proof.
  intros Hwf Hc Hr Hp Hm.
  assert (∀ s', p_kva s' = p_kva s -> same_walks s s' -> heap_clean s') as Hkeep.
  { intros s' Hk Hs v Hv Hn. rewrite Hs by by apply heap_outside. apply Hc; [done|]. by rewrite <- Hk. }
  wp_step. apply wp_pagealloc; [done..| |]; cbn [fst snd].
  - intros v P s1 Ha. rewrite decide_True by done. wp_step. eapply wp_pagefree; [done..|].
    intros s' He Hs. apply wp_ret. split_and!; [by left|done|by apply Hkeep; [apply He|]|]. exists []. split; [done|]. by rewrite decide_True.
  - intros L s' HL Hg Hs. rewrite decide_False by done. apply wp_ret.
    split_and!; [by right|done|by apply Hkeep; [apply Hg|]|]. exists L. by rewrite decide_False.
Qed.

(** [x86_64_mprotect] with a present flag on pages outside the window and
    not in large pages: it clears the user and write bits that [flags] does
    not have on the pages of the range, from the first on, all of them when it
    returns 0, up to the first unmapped page when it returns [-ENOENT].
    It adds no right and moves no page. *)
Theorem x86_64_mprotect_restricts s va sz flags :
  wf s -> 0 <= NPAGE sz <= 68719476736 -> isset flags PTE_P = true ->
  (∀ v, pgdist (PGROUND va) v < NPAGE sz -> outside v ∧ small s v) ->
  wp (x86_64_mprotect va sz flags) s (λ err s', ∃ k, 0 <= k <= NPAGE sz ∧ extends s s' ∧
    (err = 0 ∧ k = NPAGE sz ∨ err = - ENOENT ∧ walk s (PGROUND va + 4096 * k) = None ∨ err = - EINVAL ∧ k < NPAGE sz) ∧
    range_update s (PGROUND va) k (λ d,
      (λ x, (Z.ldiff x.1 (Z.lor (if isset flags PTE_U then 0 else PTE_U) (if isset flags PTE_W then 0 else PTE_W)), x.2))
        <$> walk s (PGROUND va + 4096 * d)) s').
Proof.
  intros Hwf Hn Hp Hf. unfold x86_64_mprotect. 
  assert (∀ n, 0 <= n < 12 -> isset (extract_vmflags flags) (2 ^ n) = isset flags (2 ^ n)) as Hx by (intros; by apply extract_isset).
  rewrite (Hx 0 ltac:(done) : isset (extract_vmflags flags) PTE_P = _), (Hp : isset flags (2 ^ 0) = _). cbn [negb].
  assert (mprotect_mask (extract_vmflags flags) =
    Z.lor (if isset flags PTE_U then 0 else PTE_U) (if isset flags PTE_W then 0 else PTE_W)) as Hmask.
  { unfold mprotect_mask, mask_unless. change PTE_R with PTE_P. change PTE_X with PTE_P.
    rewrite (Hx 0 ltac:(done) : isset (extract_vmflags flags) PTE_P = _), (Hp : isset flags (2 ^ 0) = _).
    rewrite (Hx 1 ltac:(done) : isset (extract_vmflags flags) PTE_W = _), (Hx 2 ltac:(done) : isset (extract_vmflags flags) PTE_U = _).
    change (2 ^ 1) with PTE_W. change (2 ^ 2) with PTE_U. by destruct (isset flags PTE_U), (isset flags PTE_W). }
  rewrite Hmask. apply wp_mprotect_loop; rewrite ?Z2Nat.id by lia; [done|lia|by destruct (isset flags PTE_U), (isset flags PTE_W)|done|].
  intros err k s' Hk Hcase E U. exists k. split; [done|]. split; [done|]. split; [|done]. naive_solver.
Qed.

(** [x86_64_mount] and [x86_64_unmount]: between the two the page is at
    the returned kernel address; after them every mapping is as before and the
    only frames taken are tables, but the kernel address stays taken. *)
Theorem mount_unmount_correct s paddr :
  wf s -> heap_clean s -> 0 < PGROUND paddr < 4503599627370496 ->
  wp (r ← x86_64_mount paddr true; if decide (r.1 = 0) then pa ← gets (λ s, translate s r.2); x86_64_unmount r.2;; mret (r, pa) else mret (r, None)) s
    (λ r s', same_walks s s' ∧ extends s (set_kva (p_kva s) s') ∧ heap_clean s' ∧
      (r.1.1 = - ENOMEM ∧ p_kva s' = p_kva s ∨
       r.1.1 = 0 ∧ r.2 = Some (PGROUND paddr) ∧ p_kva s !! r.1.2 = None ∧ p_kva s' = <[r.1.2 := PGSZ]> (p_kva s))).
Proof.
  intros Hwf Hc Hp. assert (paddr ≠ 0) as Hp0 by (intros ->; destruct Hp as [Hp _]; by vm_compute in Hp).
  wp_step. apply wp_mount; [done..| |]; cbn [fst snd].
  - intros v s1 Hv Hk He Hu. rewrite decide_True by done. pose proof (kva_fresh _ _ _ _ Hv) as (H1 & H2 & H3 & H4 & H5).
    unfold PGSZ in H3. assert (outside v) as Ho by (apply heap_outside; unfold PGSZ in H2; lia). assert (wf s1) as Hwf1 by by refine (wf_ext _ _ _ _ _ (gr_wf _ _ _ He)).
    assert (walk s1 v = Some (new_entry paddr PTE_KRW, 4096)) as Hw by (rewrite Hu by done; by rewrite decide_True).
    wp_step. wp_step. wp_step. apply (wp_unmount s1 v _ _ _ Hwf1 Ho Hw eq_refl).
    { by apply (new_entry_isset paddr PTE_KRW 11). }
    intros s2 Hun. apply wp_ret. cbn [fst snd].
    assert (owned_frame (walk s1 v) = None) as Hof.
    { rewrite Hw. unfold owned_frame. by rewrite (new_entry_isset paddr PTE_KRW 11 ltac:(done) : isset _ PTE_ALLOC_PAGE = _). }
    assert (same_walks s s2) as Hs.
    { intros a Ha. rewrite (un_walk _ _ _ Hun a Ha). rewrite (Hu a Ha). case_decide as Hd; [|done].
      rewrite (walk_indices s a v Hd). symmetry. apply Hc; [unfold PGSZ in H2; lia|].
      intros b z Hb ?. destruct (H5 b z Hb); unfold PGSZ in *; lia. }
    pose proof (un_kva _ _ _ Hun) as K2. rewrite Hk in K2. split_and!; [done| | |right; split_and!; try done].
    + exact (grows_kva _ (p_ticks s) _ _ _ (grows_unmapped_none _ _ _ _ _ (grows_kva' _ _ _ _ He) Hun Hof)).
    + intros a Ha Hn. rewrite Hs by by apply heap_outside. apply Hc; [done|]. intros b z Hb. apply Hn. rewrite K2.
      rewrite lookup_insert_ne; [done|]. intros ->. congruence.
    + rewrite translate_walk, Hw by done. cbn [fmap option_fmap option_map fst snd]. rewrite new_entry_translate by done. f_equal. lia.
  - intros s' He Hs. rewrite decide_False by done. apply wp_ret. pose proof (gr_kva _ _ _ He) as Hk. cbn [fst snd]. split_and!; [done| | |by left].
    + destruct He as [W C K R T E A N F]. split; try done. by refine (wf_ext _ _ _ _ _ W).
    + intros a Ha Hn. rewrite Hs by by apply heap_outside. apply Hc; [done|]. by rewrite <- Hk.
Qed.

End kernel_pages.

(** ** A machine *)

Definition choose_frame (cands : list Z) (D : gset Z) : option Z := head (filter (λ f, f ∉ D) cands).

Lemma choose_frame_ok cands D f : choose_frame cands D = Some f -> f ∈ cands ∧ f ∉ D.
Proof.
  unfold choose_frame. destruct (filter _ cands) as [|g l] eqn:E; [done|]. intros [= ->].
  assert (f ∈ filter (λ f, f ∉ D) cands) as Hf by (rewrite E; by left). by apply list_elem_of_filter in Hf as [? ?].
Qed.

(** Frames 16 to [16 + n). *)
Definition demo_cands (n : Z) : list Z := (λ i, 4096 * i) <$> seqZ 16 n.
Lemma demo_cands_fresh n (Hn : n <= 64) (k : nat) D f : choose_frame (demo_cands n) D = Some f -> frame_ok f ∧ f ∉ D ∧ true = true.
Proof.
  intros (Hf & Hd)%choose_frame_ok. split; [|done]. apply list_elem_of_fmap in Hf as (i & -> & Hi%elem_of_seqZ).
  split; [lia|]. unfold PGSZ. rewrite Z.mul_comm. by apply Z.mod_mul.
Qed.
Definition demo_frames (n : Z) (Hn : n <= 64) : Frames :=
  {| fr_managed _ := true; fr_choose _ D := choose_frame (demo_cands n) D; fr_fresh := demo_cands_fresh n Hn |}.

Definition demo_choose (D : gmap Z Z) (sz : Z) : option Z :=
  if decide (D = ∅ ∧ sz <= 4294967296) then Some 18446743528248705024 else None.
Lemma demo_choose_fresh (n : nat) D sz v : demo_choose D sz = Some v ->
  18446743528248705024 <= v ∧ v + sz <= 18446743532543672320 ∧ v mod PGSZ = 0 ∧ D !! v = None ∧
  ∀ b z, D !! b = Some z -> v + sz <= b ∨ b + z <= v.
Proof.
  unfold demo_choose. case_decide as Hd; [|done]. intros [= <-]. destruct Hd as [-> Hs].
  split_and!; [lia|lia|done|done|]. intros b z Hb. by rewrite lookup_empty in Hb.
Qed.
Definition demo_kva : Kva := {| kva_choose _ := demo_choose; kva_fresh := demo_choose_fresh |}.

(** Only the root table, with the recursive slot. *)
Definition demo : machine := Machine {[ 1022 := 4099 ]} 4096 {[ 4096 := 1 ]} ∅ [] 0.

Lemma demo_entry i : idx i -> i ≠ 510 -> entry (p_mem demo) 4096 i = 0.
Proof. intros Hi Hne. unfold entry, word. change (4096 / 8) with 512. simpl. rewrite lookup_singleton_ne; [done|lia]. Qed.

Lemma demo_tbl q f : good q -> tbl (p_mem demo) 4096 q = Some f -> q = [] ∧ f = 4096.
Proof.
  intros (_ & Hi & Hh). destruct q as [|i q]; [by intros [= <-]|]. simpl tbl. apply Forall_cons in Hi as [Hi _].
  by rewrite demo_entry by naive_solver.
Qed.

Lemma demo_wf : wf demo.
Proof.
  split; [by split|by vm_compute|..].
  - intros i Hi Hp. destruct (decide (i = 510)) as [->|Hne]; [done|]. exfalso. simpl in Hp. by rewrite demo_entry in Hp.
  - intros p q f Hp Hq H1 H2. destruct (demo_tbl p f Hp H1) as [-> _]. by destruct (demo_tbl q f Hq H2) as [-> _].
  - intros p f Hp Hf. destruct (demo_tbl p f Hp Hf) as [_ ->]. split; [by split|]. simpl. set_solver.
Qed.

Lemma demo_walk va : outside va -> walk demo va = None.
Proof.
  intros Ho. destruct (va_idx va) as [H4 _]. apply (walk_absent demo va [] (PML4I va) [PDPTI va; PDI va; PTI va] 4096); [done|done|].
  by rewrite demo_entry.
Qed.

Lemma demo_small va : outside va -> small demo va.
Proof. intros Ho. by apply small_None, demo_walk. Qed.

Lemma demo_unused va n : 0 <= PML4I va < 256 -> 0 <= n <= 64 -> unused demo va n.
Proof.
  intros Hva Hn v Hv. assert (outside v) as Ho; [|by split; [|apply demo_walk]].
  unfold outside. rewrite PML4I_div in *. unfold pgdist in Hv. dlia.
Qed.

#[local] Instance FR16 : Frames := demo_frames 16 ltac:(done).
#[local] Instance KV1 : Kva := demo_kva.

Lemma window_reaches_entries_witness : translate demo (PML4E 7) = Some 4152.
Proof. by apply (window_reaches_entries demo 7 0 0 0). Defined.

Lemma x86_64_map_correct_witness :
  wp (x86_64_map 1048576 0 0 1 2 7) demo (λ r s', r = - ENOMEM ∨ translate s' (viraddr 0 0 1 2) = Some 1048576).
Proof.
  eapply wp_mono; [apply (x86_64_map_correct demo 1048576 0 0 1 2 7); [apply demo_wf|done..|by apply demo_small|done]|].
  intros r s' [[-> _]|(_ & _ & _ & _ & _ & Ht)]; [by left|right]. apply Ht; [by apply demo_walk|done|by vm_compute].
Defined.

Lemma x86_64_unmap_correct_witness : wp (x86_64_unmap 0 0 1 2) demo (λ _ s', translate s' (viraddr 0 0 1 2) = None).
Proof.
  eapply wp_mono; [apply (x86_64_unmap_correct demo 0 0 1 2); [apply demo_wf|done..|by apply demo_small|]|by intros ? ? [_ ?]].
  intros f. by rewrite demo_walk.
Defined.

Lemma x86_64_map_i_correct_witness :
  wp (x86_64_map_i 4194304 1048576 8192 3) demo (λ r s', r = 0 ∧ walk s' 4198400 = Some (1052675, 4096) ∨ r = - ENOMEM).
Proof.
  eapply wp_mono; [apply (x86_64_map_i_correct demo 4194304 1048576 8192 3); [apply demo_wf|done|by apply demo_unused|done|done]|].
  intros r s' [_ [[-> Hu]|[-> _]]]; [left|by right]. split; [done|]. by rewrite Hu.
Defined.

Lemma x86_64_map_n_correct_witness :
  wp (x86_64_map_n 4194304 8192 3) demo (λ r s', r = 0 ∧ is_Some (walk s' 4198400) ∨ r = - ENOMEM ∧ walk s' 4198400 = None).
Proof.
  eapply wp_mono; [apply (x86_64_map_n_correct demo 4194304 8192 3); [apply demo_wf|done|by apply demo_unused|done|done]|].
  intros r s' [(-> & P & Hl & Hg & Hu)|(-> & Hs & _)].
  - left. split; [done|]. rewrite Hu by done. change (pgdist 4194304 4198400) with 1. simpl. unfold leaf, present.
    rewrite (new_entry_isset _ _ 0 ltac:(done) : isset _ PTE_P = _). done.
  - right. split; [done|]. by rewrite Hs, demo_walk.
Defined.

Lemma demo_clean : heap_clean demo.
Proof. intros v Hv _. by apply demo_walk, heap_outside. Qed.

Lemma pagealloc_pagefree_roundtrip_witness :
  wp (r ← arch_pagealloc 8192 true; if decide (r.1 = 0) then arch_pagefree r.2 8192;; mret 0 else mret r.1) demo
    (λ err s', (err = 0 ∨ err = - ENOMEM) ∧ same_walks demo s').
Proof.
  eapply wp_mono; [apply (pagealloc_pagefree_roundtrip demo 8192); [apply demo_wf|apply demo_clean|done|done|done]|].
  by intros err s' (? & ? & _).
Defined.

Lemma x86_64_mprotect_restricts_witness :
  wp (x86_64_mprotect 4194304 8192 5) demo (λ err s', err = 0 ∨ err = - ENOENT ∨ err = - EINVAL).
Proof.
  eapply wp_mono; [apply (x86_64_mprotect_restricts demo 4194304 8192 5); [apply demo_wf|done|done|]|].
  - intros v Hv. destruct (demo_unused 4194304 2 ltac:(done) ltac:(done) v Hv) as [Ho Hw]. split; [done|by apply small_None].
  - intros err s' (k & _ & _ & Hc & _). naive_solver.
Defined.

Lemma mount_unmount_correct_witness :
  wp (r ← x86_64_mount 1048576 true; if decide (r.1 = 0) then pa ← gets (λ s, translate s r.2); x86_64_unmount r.2;; mret (r, pa) else mret (r, None)) demo
    (λ r s', r.1.1 = - ENOMEM ∨ r.2 = Some 1048576 ∧ is_Some (p_kva s' !! r.1.2)).
Proof.
  eapply wp_mono; [apply (mount_unmount_correct demo 1048576); [apply demo_wf|apply demo_clean|by vm_compute]|].
  intros r s' (_ & _ & _ & [[? _]|(_ & Hp & _ & Hk)]); [by left|right]. split; [done|]. rewrite Hk, lookup_insert_eq. done.
Defined.

(** With one frame left, [x86_64_map_n] takes it for the page, finds none for
    the page table, and returns [-ENOMEM] with the frame still taken. *)
Theorem map_n_leaks_frame :
  match x86_64_map_n (FR := demo_frames 1 ltac:(done)) 4194304 4096 PTE_KRW demo with
  | Ok r s' => r = - ENOMEM ∧ p_mem s' = p_mem demo ∧ p_refs s' = <[65536 := 1]> (p_refs demo)
  | Stop _ => False
  end.
Proof. by vm_compute. Qed.

(** On a page that is mapped, [x86_64_map_n] returns 0, keeps the old mapping
    and keeps the new frame, which nothing maps. *)
Theorem map_n_mapped_leaks :
  match (x86_64_map_i 4194304 1048576 4096 PTE_KRW;; x86_64_map_n 4194304 4096 PTE_KRW) demo with
  | Ok r s' => r = 0 ∧ translate s' 4194304 = Some 1048576 ∧ p_refs s' !! 77824 = Some 1 ∧
      tbl (p_mem s') 4096 [0] = Some 65536 ∧ tbl (p_mem s') 4096 [0; 0] = Some 69632 ∧ tbl (p_mem s') 4096 [0; 0; 2] = Some 73728
  | Stop _ => False
  end.
Proof. by vm_compute. Qed.
