(* ===== verification/CString.v ===== *)
(** * kernel/lib/string.c and kernel/lib/ctype.c

    Strings and blocks of bytes in a byte-addressed memory.  Every function is
    translated with its loops, the word-at-a-time ones included.  A pointer
    moves without wrap-around and an access outside the objects is a bad
    access; [size_t] arithmetic wraps.  Loops carry fuel: the number of mapped
    bytes for a scan, the count for a counted loop. *)

From S2P Require Import Prelude.

(** ** Character classes (ctype.c) *)

Definition islower (c : Z) : bool := bool_decide (97 <= c ∧ c <= 122).
Definition isupper (c : Z) : bool := bool_decide (65 <= c ∧ c <= 90).
Definition isalpha (c : Z) : bool := islower c || isupper c.
Definition isdigit (c : Z) : bool := bool_decide (48 <= c ∧ c <= 57).
Definition tolower (c : Z) : Z := if negb (isalpha c) then c else Z.lor c 32.
Definition toupper (c : Z) : Z := if negb (isalpha c) then c else Z.land (Z.lnot 32) c.
Definition isspace (c : Z) : bool :=
  bool_decide (c = 32 ∨ c = 11 ∨ c = 8 ∨ c = 12 ∨ c = 9 ∨ c = 13 ∨ c = 10).
Definition isxdigit (c : Z) : bool :=
  isdigit c || bool_decide (97 <= c ∧ c <= 102) || bool_decide (65 <= c ∧ c <= 70).
Definition isalphanum (c : Z) : bool := isalpha c || isdigit c.

(** ** Memory *)

Record cmem := CMem {
  c_mem : gmap Z Z;    (* bytes of the objects, by address *)
  c_junk : gmap Z Z;   (* bytes between the objects *)
  c_blk : gmap Z Z;    (* sizes of the blocks of [kmalloc], by address *)
  c_save : Z;          (* [saveptr] of [strtok] *)
  c_ticks : nat;       (* requests to [kmalloc] so far *)
}.
Definition c_set_mem v s := CMem v (c_junk s) (c_blk s) (c_save s) (c_ticks s).
Definition c_set_blk v s := CMem (c_mem s) (c_junk s) v (c_save s) (c_ticks s).
Definition c_set_save v s := CMem (c_mem s) (c_junk s) (c_blk s) v (c_ticks s).
Definition c_tick s := CMem (c_mem s) (c_junk s) (c_blk s) (c_save s) (S (c_ticks s)).

(** A byte; [uint8_t]. *)
Definition ldb (a : Z) : M cmem Z := λ s,
  match c_mem s !! a with Some b => Ok b s | None => Stop BadAccess end.
Definition stb (a v : Z) : M cmem unit := λ s,
  match c_mem s !! a with Some _ => Ok tt (c_set_mem (<[a := u8 v]> (c_mem s)) s) | None => Stop BadAccess end.
(** A [char] is signed. *)
Definition schar (b : Z) : Z := if decide (b < 128) then b else b - 256.
Definition ldc (a : Z) : M cmem Z := schar <$> ldb a.

(** [n] bytes, the lowest first. *)
Fixpoint ldn (n : nat) (a : Z) : M cmem Z :=
  match n with
  | O => mret 0
  | S n => b ← ldb a; r ← ldn n (a + 1); mret (b + 256 * r)
  end.
Fixpoint stn (n : nat) (a v : Z) : M cmem unit :=
  match n with
  | O => mret tt
  | S n => stb a v;; stn n (a + 1) (v / 256)
  end.
(** An aligned word load sees the bytes around an object too: they are in the
    same page.  Some byte of the object, the first, has to be in the word. *)
Definition peek (s : cmem) (a : Z) : Z :=
  match c_mem s !! a with Some b => b | None => u8 (default 0 (c_junk s !! a)) end.
Fixpoint peekn (s : cmem) (n : nat) (a : Z) : Z :=
  match n with O => 0 | S n => peek s a + 256 * peekn s n (a + 1) end.
Definition ldw (a : Z) : M cmem Z := ldb a;; gets (λ s, peekn s 8 a).
Definition stw : Z -> Z -> M cmem unit := stn 8.

(** Loops: [step x] goes on with [inl y] or ends with [inr r]. *)
Fixpoint iter {A B} (fuel : nat) (step : A -> M cmem (A + B)) (x : A) : M cmem B :=
  match fuel with
  | O => halt OutOfFuel
  | S fuel => r ← step x; match r with inl y => iter fuel step y | inr b => mret b end
  end.

(** One more than the mapped bytes. *)
Definition scan {A B} (step : A -> M cmem (A + B)) (x : A) : M cmem B := λ s,
  iter (S (size (c_mem s))) step x s.

(** ** Words *)

Definition ALIGN : Z := 8.
Definition ONES : Z := (two64 - 1) / 255.
Definition HIGHS : Z := ONES * 128.
Definition HASZERO (x : Z) : Z := Z.land (Z.land (u64 (x - ONES)) (two64 - 1 - x)) HIGHS.
Definition haszero (x : Z) : bool := bool_decide (HASZERO x ≠ 0).

(** [size_t byteset[4]] and [BITOP]. *)
Definition byteset0 : list Z := [0; 0; 0; 0].
Definition BITOP_or (bs : list Z) (b : Z) : list Z :=
  let i := Z.to_nat (b / 64) in <[i := Z.lor (bs !!! i) (Z.shiftl 1 (b mod 64))]> bs.
Definition BITOP_and (bs : list Z) (b : Z) : bool :=
  bool_decide (Z.land (bs !!! Z.to_nat (b / 64)) (Z.shiftl 1 (b mod 64)) ≠ 0).

(** ** Blocks of bytes *)

(** [for (; n && *l == *r; n--, l++, r++)] *)
Definition memcmp (vl vr n : Z) : M cmem Z :=
  iter (S (Z.to_nat n)) (λ '(l, r, n),
    if decide (n = 0) then mret (inr 0) else
    x ← ldb l; y ← ldb r;
    if decide (x = y) then mret (inl (l + 1, r + 1, n - 1)) else mret (inr (x - y))) (vl, vr, n).

Definition memchr (src c n : Z) : M cmem Z :=
  let c := u8 c in
  (* to the next word *)
  r ← iter 8 (λ '(s, n),
    if decide (s mod ALIGN = 0 ∨ n = 0) then mret (inr (s, n)) else
    b ← ldb s; if decide (b = c) then mret (inr (s, n)) else mret (inl (s + 1, n - 1))) (src, n);
  let '(s, n) := r in
  if decide (n = 0) then mret 0 else
  b ← ldb s;
  if decide (b = c) then mret s else
  let k := u64 (ONES * c) in
  r ← iter (S (Z.to_nat n)) (λ '(w, n),
    if decide (n < 8) then mret (inr (w, n)) else
    x ← ldw w; if haszero (Z.lxor x k) then mret (inr (w, n)) else mret (inl (w + 8, n - 8))) (s, n);
  let '(w, n) := r in
  iter (S (Z.to_nat n)) (λ '(s, n),
    if decide (n = 0) then mret (inr 0) else
    b ← ldb s; if decide (b = c) then mret (inr s) else mret (inl (s + 1, n - 1))) (w, n).

(** [while (n--) if (s[n] == c) return s + n;] *)
Fixpoint memrchr_loop (n : nat) (s c : Z) : M cmem Z :=
  match n with
  | O => mret 0
  | S n => b ← ldb (s + Z.of_nat n); if decide (b = c) then mret (s + Z.of_nat n) else memrchr_loop n s c
  end.
Definition memrchr (m c n : Z) : M cmem Z := memrchr_loop (Z.to_nat n) m (u8 c).

(** [for (size_t i = 0; i < n; i++) dst[i] = src[i];] for items of [w] bytes. *)
Fixpoint copy_loop (w n : nat) (dst src : Z) : M cmem unit :=
  match n with
  | O => mret tt
  | S n => x ← ldn w src; stn w dst x;; copy_loop w n (dst + Z.of_nat w) (src + Z.of_nat w)
  end.
Definition memcpy (dstptr srcptr size : Z) : M cmem Z := copy_loop 1 (Z.to_nat size) dstptr srcptr;; mret dstptr.
Definition memcpy32 (dstptr srcptr n : Z) : M cmem Z := copy_loop 4 (Z.to_nat n) dstptr srcptr;; mret dstptr.

Fixpoint set_loop (w n : nat) (buf v : Z) : M cmem unit :=
  match n with
  | O => mret tt
  | S n => stn w buf v;; set_loop w n (buf + Z.of_nat w) v
  end.
Definition memset (bufptr value size : Z) : M cmem Z := set_loop 1 (Z.to_nat size) bufptr (u8 value);; mret bufptr.
Definition memsetw (bufptr value size : Z) : M cmem Z := set_loop 2 (Z.to_nat size) bufptr (u16 value);; mret bufptr.

(** The copies of [memmove], upwards and downwards. *)
Definition memmove_up (dest src n : Z) : M cmem Z :=
  r ← (if decide (src mod 8 = dest mod 8) then
    r ← iter 9 (λ '(d, s, n),
      if decide (d mod 8 = 0) then mret (inr (Some (d, s, n))) else
      if decide (n = 0) then mret (inr None) else
      b ← ldb s; stb d b;; mret (inl (d + 1, s + 1, n - 1))) (dest, src, n);
    match r with
    | None => mret None
    | Some (d, s, n) =>
        Some <$> iter (S (Z.to_nat n)) (λ '(d, s, n),
          if decide (n < 8) then mret (inr (d, s, n)) else
          x ← ldw s; stw d x;; mret (inl (d + 8, s + 8, n - 8))) (d, s, n)
    end
  else mret (Some (dest, src, n)));
  match r with
  | None => mret dest
  | Some (d, s, n) => copy_loop 1 (Z.to_nat n) d s;; mret dest
  end.

Fixpoint copy_down (n : nat) (d s : Z) : M cmem unit :=
  match n with
  | O => mret tt
  | S n => b ← ldb (s + Z.of_nat n); stb (d + Z.of_nat n) b;; copy_down n d s
  end.
Definition memmove_down (d s n : Z) : M cmem Z :=
  r ← (if decide (s mod 8 = d mod 8) then
    r ← iter 9 (λ n,
      if decide ((d + n) mod 8 = 0) then mret (inr (Some n)) else
      if decide (n = 0) then mret (inr None) else
      b ← ldb (s + (n - 1)); stb (d + (n - 1)) b;; mret (inl (n - 1))) n;
    match r with
    | None => mret None
    | Some n =>
        Some <$> iter (S (Z.to_nat n)) (λ n,
          if decide (n < 8) then mret (inr n) else
          x ← ldw (s + (n - 8)); stw (d + (n - 8)) x;; mret (inl (n - 8))) n
    end
  else mret (Some n));
  match r with
  | None => mret d
  | Some n => copy_down (Z.to_nat n) d s;; mret d
  end.

Definition memmove (dest src n : Z) : M cmem Z :=
  if decide (dest = src) then mret dest else
  if decide (u64 (src + n) <= dest ∨ u64 (dest + n) <= src) then memcpy dest src n else
  if decide (dest < src) then memmove_up dest src n else memmove_down dest src n.

(** ** Strings *)

(** [for (; *s; s++);] *)
Definition skip_string : Z -> M cmem Z := scan (λ s,
  b ← ldb s; if decide (b = 0) then mret (inr s) else mret (inl (s + 1))).

Definition strcmp (l r : Z) : M cmem Z :=
  scan (λ '(l, r),
    x ← ldb l; y ← ldb r;
    if decide (x = y ∧ x ≠ 0) then mret (inl (l + 1, r + 1)) else mret (inr (x - y))) (l, r).
Definition strcoll (s1 s2 : Z) : M cmem Z := strcmp s1 s2.

Definition strlen (a : Z) : M cmem Z :=
  r ← iter 8 (λ s,
    if decide (s mod ALIGN = 0) then mret (inr (inl s)) else
    b ← ldb s; if decide (b = 0) then mret (inr (inr (s - a))) else mret (inl (s + 1))) a;
  match r with
  | inr n => mret n
  | inl s =>
      w ← scan (λ w, x ← ldw w; if haszero x then mret (inr w) else mret (inl (w + 8))) s;
      s ← skip_string w;
      mret (s - a)
  end.

(** [for (; ( *d = *s); s++, d++);] *)
Definition copy_string (d s : Z) : M cmem Z := scan (λ '(d, s),
  b ← ldb s; stb d b;; if decide (b = 0) then mret (inr d) else mret (inl (d + 1, s + 1))) (d, s).

Definition stpcpy (d s : Z) : M cmem Z :=
  if decide (s mod ALIGN = d mod ALIGN) then
    r ← iter 8 (λ '(d, s),
      if decide (s mod ALIGN = 0) then mret (inr (inl (d, s))) else
      b ← ldb s; stb d b;; if decide (b = 0) then mret (inr (inr d)) else mret (inl (d + 1, s + 1))) (d, s);
    match r with
    | inr d => mret d
    | inl (d, s) =>
        r ← scan (λ '(wd, ws),
          x ← ldw ws; if haszero x then mret (inr (wd, ws)) else stw wd x;; mret (inl (wd + 8, ws + 8))) (d, s);
        copy_string r.1 r.2
    end
  else copy_string d s.

Definition strcpy (dest src : Z) : M cmem Z := copy_string dest src;; mret dest.

(** [for (; *c && BITOP(byteset, *c, |=); c++);] *)
Definition fill_byteset (c : Z) : M cmem (list Z) := scan (λ '(c, bs),
  b ← ldb c; if decide (b = 0) then mret (inr bs) else mret (inl (c + 1, BITOP_or bs b))) (c, byteset0).

(** [for (; *s && BITOP(byteset, *s, &); s++);], or with [!BITOP]. *)
Definition span_byteset (bs : list Z) (inside : bool) (s : Z) : M cmem Z := scan (λ s,
  b ← ldb s;
  if decide (b ≠ 0 ∧ BITOP_and bs b = inside) then mret (inl (s + 1)) else mret (inr s)) s.

Definition strspn (a c : Z) : M cmem Z :=
  c0 ← ldb c;
  if decide (c0 = 0) then mret 0 else
  c1 ← ldb (c + 1);
  if decide (c1 = 0) then
    s ← scan (λ s, b ← ldb s; if decide (b = c0) then mret (inl (s + 1)) else mret (inr s)) a;
    mret (s - a)
  else
    bs ← fill_byteset c;
    s ← span_byteset bs true a;
    mret (s - a).

Definition strchrnul (s c : Z) : M cmem Z :=
  let c := u8 c in
  if decide (c = 0) then n ← strlen s; mret (s + n) else
  r ← iter 8 (λ s,
    if decide (s mod ALIGN = 0) then mret (inr (inl s)) else
    b ← ldb s; if decide (b = 0 ∨ b = c) then mret (inr (inr s)) else mret (inl (s + 1))) s;
  match r with
  | inr s => mret s
  | inl s =>
      let k := u64 (ONES * c) in
      w ← scan (λ w,
        x ← ldw w;
        if haszero x || haszero (Z.lxor x k) then mret (inr w) else mret (inl (w + 8))) s;
      scan (λ s, b ← ldb s; if decide (b ≠ 0 ∧ b ≠ c) then mret (inl (s + 1)) else mret (inr s)) w
  end.

Definition strchr (s c : Z) : M cmem Z :=
  r ← strchrnul s c;
  b ← ldb r;
  mret (if decide (b = u8 c) then r else 0).

Definition strrchr (s c : Z) : M cmem Z := n ← strlen s; memrchr s c (n + 1).

Definition strcspn (a c : Z) : M cmem Z :=
  c0 ← ldb c;
  c1 ← (if decide (c0 = 0) then mret 0 else ldb (c + 1));
  if decide (c0 ≠ 0 ∧ c1 ≠ 0) then
    bs ← fill_byteset c;
    s ← span_byteset bs false a;
    mret (s - a)
  else
    r ← strchrnul a (schar c0);
    mret (r - a).

Definition strpbrk (s b : Z) : M cmem Z :=
  n ← strcspn s b;
  x ← ldb (s + n);
  mret (if decide (x ≠ 0) then s + n else 0).

(** *** Substrings *)

Definition strstr_2b (h n : Z) : M cmem Z :=
  n0 ← ldb n; n1 ← ldb (n + 1);
  h0 ← ldb h; h1 ← ldb (h + 1);
  let nw := Z.lor (Z.shiftl n0 8) n1 in
  scan (λ '(h, hw),
    b ← ldb h;
    if decide (b ≠ 0 ∧ hw ≠ nw) then
      x ← ldb (h + 1); mret (inl (h + 1, u16 (Z.lor (Z.shiftl hw 8) x)))
    else mret (inr (if decide (b ≠ 0) then h - 1 else 0))) (h + 1, Z.lor (Z.shiftl h0 8) h1).

Definition strstr_3b (h n : Z) : M cmem Z :=
  n0 ← ldb n; n1 ← ldb (n + 1); n2 ← ldb (n + 2);
  h0 ← ldb h; h1 ← ldb (h + 1); h2 ← ldb (h + 2);
  let pack a b c := Z.lor (Z.lor (Z.shiftl a 24) (Z.shiftl b 16)) (Z.shiftl c 8) in
  let nw := pack n0 n1 n2 in
  scan (λ '(h, hw),
    b ← ldb h;
    if decide (b ≠ 0 ∧ hw ≠ nw) then
      x ← ldb (h + 1); mret (inl (h + 1, u32 (Z.shiftl (Z.lor hw x) 8)))
    else mret (inr (if decide (b ≠ 0) then h - 2 else 0))) (h + 2, pack h0 h1 h2).

Definition strstr_4b (h n : Z) : M cmem Z :=
  n0 ← ldb n; n1 ← ldb (n + 1); n2 ← ldb (n + 2); n3 ← ldb (n + 3);
  h0 ← ldb h; h1 ← ldb (h + 1); h2 ← ldb (h + 2); h3 ← ldb (h + 3);
  let pack a b c d := Z.lor (Z.lor (Z.lor (Z.shiftl a 24) (Z.shiftl b 16)) (Z.shiftl c 8)) d in
  let nw := pack n0 n1 n2 n3 in
  scan (λ '(h, hw),
    b ← ldb h;
    if decide (b ≠ 0 ∧ hw ≠ nw) then
      x ← ldb (h + 1); mret (inl (h + 1, u32 (Z.lor (Z.shiftl hw 8) x)))
    else mret (inr (if decide (b ≠ 0) then h - 3 else 0))) (h + 3, pack h0 h1 h2 h3).

(** The maximal suffix of the needle for one order of the bytes: its start
    minus one (a [size_t], so that the whole needle is 2^64 - 1) and period. *)
Definition max_suffix (n l : Z) (less : bool) : M cmem (Z * Z) :=
  iter (Z.to_nat (3 * l + 4)) (λ '(ip, jp, k, p),
    if decide (¬ jp + k < l) then mret (inr (ip, p)) else
    x ← ldb (n + u64 (ip + k)); y ← ldb (n + (jp + k));
    if decide (x = y) then
      if decide (k = p) then mret (inl (ip, jp + p, 1, p)) else mret (inl (ip, jp, k + 1, p))
    else if (if less then x <? y else y <? x) then
      mret (inl (ip, jp + k, 1, u64 (jp + k - ip)))
    else mret (inl (jp, jp + 1, 1, 1))) (two64 - 1, 0, 1, 1).

Definition strstr_twoway (h n : Z) : M cmem Z :=
  (* length of the needle and shift table *)
  r ← scan (λ '(l, bs, shift),
    x ← ldb (n + l);
    if decide (x = 0) then mret (inr (l, bs, shift)) else
    y ← ldb (h + l);
    if decide (y = 0) then mret (inr (l, bs, shift)) else
    mret (inl (l + 1, BITOP_or bs x, <[x := l + 1]> shift))) (0, byteset0, ∅ : gmap Z Z);
  let '(l, bs, shift) := r in
  x ← ldb (n + l);
  if decide (x ≠ 0) then mret 0 else
  r0 ← max_suffix n l false;
  r1 ← max_suffix n l true;
  let '(ms, p) := if decide (u64 (r1.1 + 1) > u64 (r0.1 + 1)) then r1 else (r0.1, r0.2) in
  let ms1 := u64 (ms + 1) in
  (* periodic needle? *)
  c ← memcmp n (n + p) ms1;
  let '(mem0, p) := if decide (c ≠ 0) then (0, u64 ((ms `max` u64 (l - ms1)) + 1)) else (l - p, p) in
  scan (λ '(h, z, mem),
    (* end of the haystack *)
    ze ← (if decide (z - h < l) then
            let grow := Z.lor l 63 in
            z2 ← memchr z 0 grow;
            if decide (z2 ≠ 0) then mret (if decide (z2 - h < l) then None else Some z2)
            else mret (Some (z + grow))
          else mret (Some z));
    match ze with
    | None => mret (inr 0)
    | Some z =>
        (* last byte first *)
        b ← ldb (h + (l - 1));
        if negb (BITOP_and bs b) then mret (inl (h + l, z, 0)) else
        let k := l - default 0 (shift !! b) in
        if decide (k ≠ 0) then
          let k := if decide (mem0 ≠ 0 ∧ mem ≠ 0 ∧ k < p) then l - p else k in
          mret (inl (h + k, z, 0))
        else
          (* right half *)
          k ← scan (λ k,
            x ← ldb (n + k);
            if decide (x = 0) then mret (inr k) else
            y ← ldb (h + k);
            if decide (x = y) then mret (inl (k + 1)) else mret (inr k)) (ms1 `max` mem);
          x ← ldb (n + k);
          if decide (x ≠ 0) then mret (inl (h + u64 (k - ms), z, 0)) else
          (* left half *)
          k ← iter (S (Z.to_nat ms1)) (λ k,
            if decide (¬ k > mem) then mret (inr k) else
            x ← ldb (n + (k - 1)); y ← ldb (h + (k - 1));
            if decide (x = y) then mret (inl (k - 1)) else mret (inr k)) ms1;
          if decide (k <= mem) then mret (inr h) else mret (inl (h + p, z, mem0))
    end) (h, h, 0).

Definition strstr (h n : Z) : M cmem Z :=
  n0 ← ldb n;
  if decide (n0 = 0) then mret h else
  h ← strchr h (schar n0);
  if decide (h = 0) then mret h else
  n1 ← ldb (n + 1);
  if decide (n1 = 0) then mret h else
  h1 ← ldb (h + 1);
  if decide (h1 = 0) then mret 0 else
  n2 ← ldb (n + 2);
  if decide (n2 = 0) then strstr_2b h n else
  h2 ← ldb (h + 2);
  if decide (h2 = 0) then mret 0 else
  n3 ← ldb (n + 3);
  if decide (n3 = 0) then strstr_3b h n else
  h3 ← ldb (h + 3);
  if decide (h3 = 0) then mret 0 else
  n4 ← ldb (n + 4);
  if decide (n4 = 0) then strstr_4b h n else
  strstr_twoway h n.

(** *** Tokens in place *)

Definition lfind (str accept : Z) : M cmem Z := strchr str accept.
Definition rfind (str accept : Z) : M cmem Z := strrchr str accept.

(** The token, and the value stored through [saveptr]. *)
Definition strtok_r (str delim saveptr : Z) : M cmem (Z * Z) :=
  let str := if decide (str = 0) then saveptr else str in
  n ← strspn str delim;
  let str := str + n in
  b ← ldb str;
  if decide (b = 0) then mret (0, str) else
  let token := str in
  str ← strpbrk token delim;
  if decide (str = 0) then e ← lfind token 0; mret (token, e) else
  stb str 0;;
  mret (token, str + 1).

Definition strtok (str delim : Z) : M cmem Z :=
  (if decide (str ≠ 0) then modify (c_set_save 0) else mret tt);;
  save ← gets c_save;
  r ← strtok_r str delim save;
  modify (c_set_save r.2);;
  mret r.1.

(** *** Bounded copies and comparisons *)

Definition strcat (dest src : Z) : M cmem Z :=
  e ← skip_string dest;
  r ← scan (λ '(e, src),
    b ← ldb src; if decide (b = 0) then mret (inr e) else stb e b;; mret (inl (e + 1, src + 1))) (e, src);
  stb r 0;;
  mret dest.

Definition strncat (dest src n : Z) : M cmem Z :=
  e ← skip_string dest;
  r ← scan (λ '(e, src, i),
    b ← ldb src;
    if decide (b ≠ 0 ∧ i < n) then stb e b;; mret (inl (e + 1, src + 1, i + 1)) else mret (inr e)) (e, src, 0);
  stb r 0;;
  mret dest.

(** Returns the end of what it wrote; [(int)n] zero bytes follow the string. *)
Definition strncpy (dest src n : Z) : M cmem Z :=
  r ← iter (S (Z.to_nat n)) (λ '(out, src, n),
    if decide (n = 0) then mret (inr (out, n)) else
    b ← ldb src;
    if decide (b = 0) then mret (inr (out, n)) else stb out b;; mret (inl (out + 1, src + 1, n - 1))) (dest, src, n);
  let '(out, n) := r in
  let k := Z.to_nat (s32 n) in
  set_loop 1 k out 0;;
  mret (out + Z.of_nat k).

(** [while (n-- && f( *s1) == f( *s2)) { if (!n || !*s1) break; s1++; s2++; }] *)
Definition cmp_loop (f : Z -> Z) (s1 s2 n : Z) : M cmem (Z * Z) :=
  iter (S (Z.to_nat n)) (λ '(s1, s2, n),
    if decide (n = 0) then mret (inr (s1, s2)) else
    x ← ldb s1; y ← ldb s2;
    if decide (f x ≠ f y) then mret (inr (s1, s2)) else
    if decide (n - 1 = 0 ∨ x = 0) then mret (inr (s1, s2)) else
    mret (inl (s1 + 1, s2 + 1, n - 1))) (s1, s2, n).

Definition strncmp (s1 s2 n : Z) : M cmem Z :=
  if decide (n = 0) then mret 0 else
  r ← cmp_loop id s1 s2 n;
  x ← ldb r.1; y ← ldb r.2;
  mret (x - y).

Definition strcasecmp (s1 s2 : Z) : M cmem Z :=
  scan (λ '(s1, s2),
    x ← ldb s1; y ← ldb s2;
    if decide (tolower (schar x) = tolower (schar y) ∧ x ≠ 0) then mret (inl (s1 + 1, s2 + 1))
    else mret (inr (x - y))) (s1, s2).

Definition strncasecmp (s1 s2 n : Z) : M cmem Z :=
  if decide (n = 0) then mret 0 else
  r ← cmp_loop (λ b, tolower (schar b)) s1 s2 n;
  x ← ldc r.1; y ← ldc r.2;
  mret (s32 (tolower x - tolower y)).

Definition safestrncpy (s t n : Z) : M cmem Z :=
  if decide (n <= 0) then mret s else
  r ← iter (S (Z.to_nat n)) (λ '(s, t, n),
    if decide (¬ n - 1 > 0) then mret (inr s) else
    b ← ldb t; stb s b;;
    if decide (b = 0) then mret (inr (s + 1)) else mret (inl (s + 1, t + 1, n - 1))) (s, t, n);
  stb r 0;;
  mret s.

Definition compare_strings (s0 s1 : Z) : M cmem Z :=
  n0 ← strlen s0; n1 ← strlen s1;
  if decide (n0 ≠ n1) then mret (- 1) else strcmp s0 s1.
Definition string_eq (str0 str1 : Z) : M cmem bool :=
  r ← compare_strings str0 str1; mret (bool_decide (r = 0)).

(** ** Numbers (ctype.c) *)

(** The body of [atoi] and [atol]: the arithmetic is on [int]. *)
Definition parse_int (s : Z) : M cmem Z :=
  s ← scan (λ s, c ← ldc s; if isspace c then mret (inl (s + 1)) else mret (inr s)) s;
  c ← ldc s;
  let neg := bool_decide (c = 45) in
  let s := if decide (c = 45 ∨ c = 43) then s + 1 else s in
  n ← scan (λ '(s, n),
    c ← ldc s;
    if isdigit c then mret (inl (s + 1, s32 (10 * n - (c - 48)))) else mret (inr n)) (s, 0);
  mret (if neg then n else s32 (- n)).
Definition atoi (s : Z) : M cmem Z := parse_int s.
Definition atol (s : Z) : M cmem Z := parse_int s.

(** ** Strings in new memory *)

(** [kmalloc(sz)] promises [sz] bytes outside every object, with contents of
    its own, or [NULL]. *)
Class Balloc := {
  ba_choose : nat -> gmap Z Z -> Z -> option Z;
  ba_fill : nat -> Z -> Z;
  ba_fresh n m sz a : ba_choose n m sz = Some a ->
    0 < a ∧ a + sz <= two64 ∧ ∀ i, 0 <= i < sz -> m !! (a + i) = None;
}.

Section alloc.
Context `{Balloc}.

(** The bytes of a new block at [a]. *)
Fixpoint fill (n : nat) (t : nat) (a : Z) (m : gmap Z Z) : gmap Z Z :=
  match n with O => m | S n => <[a := u8 (ba_fill t a)]> (fill n t (a + 1) m) end.
Fixpoint unfill (n : nat) (a : Z) (m : gmap Z Z) : gmap Z Z :=
  match n with O => m | S n => delete a (unfill n (a + 1) m) end.

Definition kmalloc (sz : Z) : M cmem Z := λ s,
  match ba_choose (c_ticks s) (c_mem s) sz with
  | Some a => Ok a (c_set_blk (<[a := sz]> (c_blk s)) (c_set_mem (fill (Z.to_nat sz) (c_ticks s) a (c_mem s)) (c_tick s)))
  | None => Ok 0 (c_tick s)
  end.
Definition kfree (a : Z) : M cmem unit := λ s,
  if decide (a = 0) then Ok tt s else
  match c_blk s !! a with
  | Some sz => Ok tt (c_set_blk (delete a (c_blk s)) (c_set_mem (unfill (Z.to_nat sz) a (c_mem s)) s))
  | None => Stop BadAccess
  end.
(** A larger block with the same contents; [krealloc(NULL, sz)] is [kmalloc(sz)]. *)
Definition krealloc (a sz : Z) : M cmem Z :=
  if decide (a = 0) then kmalloc sz else
  old ← gets (λ s, c_blk s !! a);
  match old with
  | None => halt BadAccess
  | Some n =>
      b ← kmalloc sz;
      if decide (b = 0) then mret 0 else
      memcpy b a (n `min` sz);;
      kfree a;;
      mret b
  end.

Definition strdup (s : Z) : M cmem Z :=
  n ← strlen s;
  let len := s32 (n + 1) in
  str ← kmalloc (u64 len);
  if decide (str = 0) then mret 0 else
  strcpy str s;;
  stb (str + (len - 1)) 0;;
  mret str.

(** The token, and the length stored through [rlen]. *)
Definition grabtok (s c : Z) : M cmem (Z * Z) :=
  if decide (s = 0) then mret (0, 0) else
  len ← scan (λ '(s, len),
    b ← ldc s; if decide (b = 0 ∨ b = c) then mret (inr len) else mret (inl (s + 1, len + 1))) (s, 0);
  tok ← kmalloc (len + 1);
  safestrncpy tok s (len + 1);;
  mret (tok, len).

(** The error, the array of tokens, their number and the last one. *)
Definition tokenize (s c : Z) (ptokenized : bool) : M cmem (Z * (Z * Z * Z)) :=
  if decide (s = 0 ∨ c = 0 ∨ ptokenized = false) then mret (- EINVAL, (0, 0, 0)) else
  len ← strlen s;
  buf ← kmalloc (len + 1);
  memset buf 0 (len + 1);;
  strncpy buf s len;;
  n ← strlen buf;
  (* the delimiters at the end *)
  scan (λ t,
    b ← ldc t; if decide (b ≠ 0 ∧ b = c) then stb t 0;; mret (inl (t - 1)) else mret (inr tt)) (buf + (n - 1));;
  r ← scan (λ '(buf, tokens, i, last),
    b ← ldb buf;
    if decide (b = 0) then mret (inr (tokens, i, last)) else
    tokens ← krealloc tokens (8 * (i + 1));
    buf ← scan (λ b, x ← ldc b; if decide (x ≠ 0 ∧ x = c) then mret (inl (b + 1)) else mret (inr b)) buf;
    t ← grabtok buf c;
    if decide (t.1 = 0) then mret (inr (tokens, i, last)) else
    stw (tokens + 8 * i) t.1;;
    mret (inl (buf + t.2, tokens, i + 1, t.1))) (buf, 0, 0, 0);
  let '(tokens, i, last) := r in
  tokens ← krealloc tokens (8 * (i + 1));
  stw (tokens + 8 * i) 0;;
  kfree buf;;
  mret (0, (tokens, i, last)).

Definition tokens_free (tokens : Z) : M cmem unit :=
  if decide (tokens = 0) then mret tt else
  scan (λ p, t ← ldn 8 p; if decide (t = 0) then mret (inr tt) else kfree t;; mret (inl (p + 8))) tokens;;
  kfree tokens.

Definition canonicalize_path (path : Z) (ptokenized : bool) : M cmem (Z * (Z * Z * Z)) := tokenize path 47 ptokenized.

Definition combine_strings (s0 s1 : Z) : M cmem Z :=
  if decide (s0 = 0 ∨ s1 = 0) then mret 0 else
  n0 ← strlen s0; n1 ← strlen s1;
  let string_len := u64 (n0 + n1 + 1) in
  string ← kmalloc string_len;
  if decide (string = 0) then mret 0 else
  memset string 0 string_len;;
  strcat string s0;;
  strcat string s1;;
  mret string.
End alloc.
