(* ===== verification/CStringSpec.v ===== *)
(** * Strings: the optimised loops and their reference definitions

    What the functions of CString.v compute, as functions on lists of bytes.
    The word-at-a-time loops rest on [haszero_word]. *)

From S2P Require Import Prelude CString.

Ltac zlia := zify; Z.to_euclidean_division_equations; lia.

(** ** Loops *)

Lemma wp_iter {A B} (I : A -> cmem -> Prop) (mu : A -> nat) fuel (step : A -> M cmem (A + B)) x s Q :
  I x s -> (mu x < fuel)%nat ->
  (∀ x s, I x s -> wp (step x) s (λ r s', match r with inl y => I y s' ∧ (mu y < mu x)%nat | inr b => Q b s' end)) ->
  wp (iter fuel step x) s Q.
Proof.
  intros Hi Hf Hstep. revert x s Hi Hf. induction fuel as [|fuel IH]; intros x s Hi Hf; [lia|].
  cbn [iter]. wp_step. eapply wp_mono; [by apply Hstep|]. intros [y|b] s' Hr.
  - destruct Hr. apply IH; [done|lia].
  - by apply wp_ret.
Qed.

Lemma wp_scan {A B} (I : A -> cmem -> Prop) (mu : A -> nat) (step : A -> M cmem (A + B)) x s Q :
  I x s -> (mu x <= size (c_mem s))%nat ->
  (∀ x s, I x s -> wp (step x) s (λ r s', match r with inl y => I y s' ∧ (mu y < mu x)%nat | inr b => Q b s' end)) ->
  wp (scan step x) s Q.
Proof. intros Hi Hf Hs. unfold scan, wp at 1. apply (wp_iter I mu); [done|lia|done]. Qed.

Lemma wp_ldb s a b (Q : Z -> cmem -> Prop) : c_mem s !! a = Some b -> Q b s -> wp (ldb a) s Q.
Proof. intros Ha HQ. unfold wp, ldb. by rewrite Ha. Qed.

Lemma wp_stb s a v b (Q : unit -> cmem -> Prop) :
  c_mem s !! a = Some b -> Q tt (c_set_mem (<[a := u8 v]> (c_mem s)) s) -> wp (stb a v) s Q.
Proof. intros Ha HQ. unfold wp, stb. by rewrite Ha. Qed.

(** ** Bytes in memory *)

Definition isbyte (c : Z) : Prop := 0 <= c < 256.

(** The bytes [l] are at [a]. *)
Definition bytes (m : gmap Z Z) (a : Z) (l : list Z) : Prop :=
  ∀ i, (i < length l)%nat -> m !! (a + Z.of_nat i) = Some (l !!! i).

(** The string [l] is at [a]: bytes other than 0, and a 0. *)
Definition cstr (m : gmap Z Z) (a : Z) (l : list Z) : Prop :=
  Forall (λ c, 0 < c < 256) l ∧ bytes m a (l ++ [0]).

Lemma bytes_size m a l : bytes m a l -> (length l <= size m)%nat.
Proof.
  intros Hb. rewrite <- size_dom.
  transitivity (size (list_to_set (seqZ a (Z.of_nat (length l))) : gset Z)).
  - rewrite size_list_to_set by apply NoDup_seqZ. rewrite length_seqZ. lia.
  - apply subseteq_size. intros x. rewrite elem_of_list_to_set, elem_of_seqZ. intros Hx. apply elem_of_dom.
    exists (l !!! Z.to_nat (x - a)). rewrite <- (Hb (Z.to_nat (x - a))) by lia. f_equal. lia.
Qed.

Lemma bytes_at m a l i : bytes m a l -> 0 <= i < Z.of_nat (length l) -> m !! (a + i) = Some (l !!! Z.to_nat i).
Proof. intros Hb Hi. rewrite <- (Hb (Z.to_nat i)) by lia. f_equal. lia. Qed.

Section string.
Context (m : gmap Z Z) (a : Z) (l : list Z).
Hypothesis Hstr : cstr m a l.
Let n := Z.of_nat (length l).

Lemma cstr_end : m !! (a + n) = Some 0.
Proof.
  destruct Hstr as [_ Hb]. rewrite (bytes_at m a _ n Hb) by (rewrite length_app; simpl; unfold n; lia).
  unfold n. rewrite Nat2Z.id, lookup_total_app_r by lia. by rewrite Nat.sub_diag.
Qed.

Lemma cstr_at i : 0 <= i < n -> m !! (a + i) = Some (l !!! Z.to_nat i) ∧ 0 < l !!! Z.to_nat i < 256.
Proof.
  intros Hi. destruct Hstr as [Hl Hb]. unfold n in *. split.
  - rewrite (bytes_at m a _ i Hb) by (rewrite length_app; simpl; lia). by rewrite lookup_total_app_l by lia.
  - rewrite Forall_forall in Hl. apply Hl. apply list_elem_of_lookup. exists (Z.to_nat i).
    apply list_lookup_lookup_total_lt. lia.
Qed.

Lemma cstr_size : (length l < size m)%nat.
Proof. destruct Hstr as [_ Hb]. apply bytes_size in Hb. rewrite length_app in Hb. simpl in Hb. lia. Qed.

(** Any byte of the string, the last one included. *)
Lemma cstr_byte i : 0 <= i <= n -> ∃ b, m !! (a + i) = Some b ∧ isbyte b ∧ (b = 0 <-> i = n).
Proof.
  intros Hi. destruct (decide (i = n)) as [->|Hne].
  - exists 0. split; [apply cstr_end|]. unfold isbyte. split; [lia|]. split; [done|done].
  - destruct (cstr_at i) as [Hm Hc]; [lia|]. eexists. split; [done|]. unfold isbyte. split; [lia|]. split; lia.
Qed.
End string.

(** ** Words *)

(** The number with the bytes [l], the lowest first. *)
Definition word (l : list Z) : Z := foldr (λ b r, b + 256 * r) 0 l.

Lemma testbit_base b y k : isbyte b -> 0 <= k ->
  Z.testbit (b + 256 * y) k = if decide (k < 8) then Z.testbit b k else Z.testbit y (k - 8).
Proof.
  intros Hb Hk. unfold isbyte in Hb. case_decide as Hd.
  - rewrite <- (Z.mod_pow2_bits_low (b + 256 * y) 8) by lia. f_equal. change (2 ^ 8) with 256. zlia.
  - replace k with ((k - 8) + 8) at 1 by lia. rewrite <- Z.div_pow2_bits by lia. f_equal. change (2 ^ 8) with 256. zlia.
Qed.

Lemma byte_log2 x : 0 <= x -> (x < 256 <-> Z.log2 x < 8).
Proof.
  intros Hx. destruct (decide (x = 0)) as [->|]; [by simpl|]. change 256 with (2 ^ 8). rewrite Z.log2_lt_pow2 by lia. done.
Qed.

Lemma land_byte b c : isbyte b -> isbyte c -> isbyte (Z.land b c).
Proof.
  intros [Hb1 Hb2] [Hc1 Hc2]. assert (0 <= Z.land b c) as H0 by (apply Z.land_nonneg; lia). split; [done|].
  apply byte_log2; [done|]. apply byte_log2 in Hb2; [|done]. pose proof (Z.log2_land b c Hb1 Hc1). lia.
Qed.

Lemma lxor_byte b c : isbyte b -> isbyte c -> isbyte (Z.lxor b c).
Proof.
  intros [Hb1 Hb2] [Hc1 Hc2]. assert (0 <= Z.lxor b c) as H0 by (apply Z.lxor_nonneg; lia). split; [done|].
  apply byte_log2; [done|]. apply byte_log2 in Hb2, Hc2; [|done..]. pose proof (Z.log2_lxor b c Hb1 Hc1). lia.
Qed.

Lemma land_base b c y z : isbyte b -> isbyte c ->
  Z.land (b + 256 * y) (c + 256 * z) = Z.land b c + 256 * Z.land y z.
Proof.
  intros Hb Hc. pose proof (land_byte b c Hb Hc) as Hbc.
  apply Z.bits_inj'. intros k Hk. rewrite Z.land_spec, !testbit_base by done. case_decide; by rewrite Z.land_spec.
Qed.

Lemma lxor_base b c y z : isbyte b -> isbyte c ->
  Z.lxor (b + 256 * y) (c + 256 * z) = Z.lxor b c + 256 * Z.lxor y z ∧ isbyte (Z.lxor b c).
Proof.
  intros Hb Hc. pose proof (lxor_byte b c Hb Hc) as Hbc.
  split; [|done]. apply Z.bits_inj'. intros k Hk. rewrite Z.lxor_spec, !testbit_base by done. case_decide; by rewrite Z.lxor_spec.
Qed.

(** [HASZERO] on numbers of [n] bytes. *)
Fixpoint ones (n : nat) : Z := match n with O => 0 | S n => 1 + 256 * ones n end.
Fixpoint full (n : nat) : Z := match n with O => 1 | S n => 256 * full n end.
Definition hz (n : nat) (x : Z) : Z :=
  Z.land (Z.land ((x - ones n) mod full n) (full n - 1 - x)) (ones n * 128).

Lemma full_pos n : 0 < full n.
Proof. induction n; simpl; lia. Qed.

Lemma word_range l : Forall isbyte l -> 0 <= word l < full (length l).
Proof. induction 1 as [|b l Hb Hl IH]; simpl; [lia|]. unfold isbyte in Hb. lia. Qed.

Lemma byte_borrow b : isbyte b -> b ≠ 0 -> Z.land (Z.land (b - 1) (255 - b)) 128 = 0.
Proof.
  intros Hb Hn. assert (Forall (λ b, b = 0 ∨ Z.land (Z.land (b - 1) (255 - b)) 128 = 0) (seqZ 0 256)) as Hall.
  { apply (bool_decide_unpack _). by vm_compute. }
  rewrite Forall_forall in Hall. destruct (Hall b); [|done|done]. apply elem_of_seqZ. unfold isbyte in Hb. lia.
Qed.

Lemma hz_step n b y : isbyte b -> b ≠ 0 -> hz (S n) (b + 256 * y) = 256 * hz n y.
Proof.
  intros Hb Hn. unfold hz. cbn [ones full]. pose proof (full_pos n). unfold isbyte in Hb.
  replace (b + 256 * y - (1 + 256 * ones n)) with ((b - 1) + 256 * (y - ones n)) by lia.
  rewrite Z.rem_mul_r by lia. replace (((b - 1) + 256 * (y - ones n)) mod 256) with (b - 1) by zlia.
  replace (((b - 1) + 256 * (y - ones n)) / 256) with (y - ones n) by zlia.
  replace (256 * full n - 1 - (b + 256 * y)) with ((255 - b) + 256 * (full n - 1 - y)) by lia.
  replace ((1 + 256 * ones n) * 128) with (128 + 256 * (ones n * 128)) by lia.
  assert (isbyte (Z.land (b - 1) (255 - b))) as Hl by (apply land_byte; unfold isbyte; lia).
  rewrite !land_base by (done || unfold isbyte; lia). rewrite byte_borrow by (done || unfold isbyte; lia). lia.
Qed.

Lemma hz_zero n y : 0 <= y < full n -> hz (S n) (0 + 256 * y) ≠ 0.
Proof.
  intros Hy. unfold hz. cbn [ones full]. pose proof (full_pos n).
  replace (0 + 256 * y - (1 + 256 * ones n)) with (255 + 256 * (y - ones n - 1)) by lia.
  rewrite Z.rem_mul_r by lia. replace ((255 + 256 * (y - ones n - 1)) mod 256) with 255 by zlia.
  replace (256 * full n - 1 - (0 + 256 * y)) with (255 + 256 * (full n - 1 - y)) by lia.
  replace ((1 + 256 * ones n) * 128) with (128 + 256 * (ones n * 128)) by lia.
  rewrite (land_base 255 255) by done. change (Z.land 255 255) with 255. rewrite (land_base 255 128) by done.
  change (Z.land 255 128) with 128. lia.
Qed.

Lemma hz_word l : Forall isbyte l -> (hz (length l) (word l) = 0 <-> 0 ∉ l).
Proof.
  induction 1 as [|b l Hb Hl IH]; [split; [intros _; apply not_elem_of_nil|done]|].
  cbn [length word foldr]. fold (word l). destruct (decide (b = 0)) as [->|Hn].
  - split; [|intros Hx; destruct Hx; by left]. intros Hz. by destruct (hz_zero (length l) (word l) (word_range l Hl)).
  - rewrite hz_step by done. rewrite not_elem_of_cons, <- IH. split; [intros Hz; split; [done|lia]|intros [_ Hz]; lia].
Qed.

(** [HASZERO] is not 0 exactly for words with a zero byte. *)
Lemma haszero_word l : length l = 8%nat -> Forall isbyte l -> haszero (word l) = bool_decide (0 ∈ l).
Proof.
  intros Hl Hb. pose proof (hz_word l Hb) as Hz. rewrite Hl in Hz. unfold haszero.
  change (HASZERO (word l)) with (hz 8 (word l)). apply bool_decide_ext. destruct (decide (0 ∈ l)); naive_solver.
Qed.

Lemma word_replicate n c : word (replicate n c) = ones n * c.
Proof. induction n as [|n IH]; [done|]. cbn [replicate word foldr ones]. fold (word (replicate n c)). rewrite IH. lia. Qed.

Lemma lxor_word l c : Forall isbyte l -> isbyte c ->
  Z.lxor (word l) (word (replicate (length l) c)) = word ((λ b, Z.lxor b c) <$> l) ∧ Forall isbyte ((λ b, Z.lxor b c) <$> l).
Proof.
  intros Hl Hc. induction Hl as [|b l Hb Hl [IH1 IH2]]; [done|]. cbn [length replicate word foldr fmap list_fmap].
  fold (word l). fold (word (replicate (length l) c)). fold (word ((λ b, Z.lxor b c) <$> l)).
  destruct (lxor_base b c (word l) (word (replicate (length l) c)) Hb Hc) as [-> Hx]. split; [f_equal; f_equal; exact IH1|by constructor].
Qed.

(** [HASZERO(x ^ ONES * c)] is not 0 exactly for words with a byte [c]. *)
Lemma haszero_xor l c : length l = 8%nat -> Forall isbyte l -> isbyte c ->
  haszero (Z.lxor (word l) (u64 (ONES * c))) = bool_decide (c ∈ l).
Proof.
  intros Hl Hb Hc. assert (u64 (ONES * c) = word (replicate (length l) c)) as ->.
  { rewrite Hl, word_replicate. change ONES with (ones 8). apply u64_small. unfold in_u64, two64, isbyte in *. simpl. lia. }
  destruct (lxor_word l c Hb Hc) as [-> Hx]. rewrite haszero_word by (done || by rewrite length_fmap).
  apply bool_decide_ext. rewrite list_elem_of_fmap. split.
  - intros (b & H0 & Hin). symmetry in H0. apply Z.lxor_eq in H0. by subst.
  - intros Hin. exists c. by rewrite Z.lxor_nilpotent.
Qed.

(** ** Word loads *)

Definition okmem (s : cmem) : Prop := map_Forall (λ _ b, isbyte b) (c_mem s).
Fixpoint peekl (s : cmem) (n : nat) (a : Z) : list Z :=
  match n with O => [] | S n => peek s a :: peekl s n (a + 1) end.
Definition peeks (s : cmem) (a : Z) : list Z := peekl s 8 a.

Lemma peek_byte s a : okmem s -> isbyte (peek s a).
Proof.
  intros Hok. unfold peek. destruct (c_mem s !! a) as [b|] eqn:E; [by eapply Hok|]. unfold isbyte, u8. apply Z.mod_pos_bound. done.
Qed.

Lemma peek_at s a b : c_mem s !! a = Some b -> peek s a = b.
Proof. intros E. unfold peek. by rewrite E. Qed.

Lemma peeks_ok s a : okmem s -> length (peeks s a) = 8%nat ∧ Forall isbyte (peeks s a).
Proof.
  intros Hok. split; [done|]. unfold peeks. generalize 8%nat. intros n. revert a.
  induction n as [|n IH]; intros a; constructor; [by apply peek_byte|apply IH].
Qed.

Lemma elem_of_peekl s n a b : b ∈ peekl s n a <-> ∃ i, 0 <= i < Z.of_nat n ∧ peek s (a + i) = b.
Proof.
  revert a. induction n as [|n IH]; intros a; cbn [peekl].
  - split; [by intros ?%not_elem_of_nil|intros (i & ? & _); lia].
  - rewrite elem_of_cons, IH. split.
    + intros [->|(i & Hi & <-)]; [exists 0; rewrite Z.add_0_r; split; [lia|done]|]. exists (i + 1). split; [lia|]. f_equal. lia.
    + intros (i & Hi & <-). destruct (decide (i = 0)) as [->|]; [left; by rewrite Z.add_0_r|]. right. exists (i - 1). split; [lia|]. f_equal. lia.
Qed.

Lemma elem_of_peeks s a b : b ∈ peeks s a <-> ∃ i, 0 <= i < 8 ∧ peek s (a + i) = b.
Proof. apply (elem_of_peekl s 8). Qed.

Lemma wp_ldw s a b (Q : Z -> cmem -> Prop) : c_mem s !! a = Some b -> Q (word (peeks s a)) s -> wp (ldw a) s Q.
Proof.
  intros Ha HQ. unfold ldw. wp_step. eapply wp_ldb; [done|]. wp_step.
  done.
Qed.

(** What the loops of a word-at-a-time scan find: no byte of the word is a hit. *)
Lemma haszero_false s a : okmem s -> haszero (word (peeks s a)) = false -> ∀ i, 0 <= i < 8 -> peek s (a + i) ≠ 0.
Proof.
  intros Hok Hz i Hi He. destruct (peeks_ok s a Hok) as [Hl Hb]. rewrite haszero_word in Hz by done.
  apply bool_decide_eq_false in Hz. apply Hz, elem_of_peeks. eauto.
Qed.

Lemma haszero_xor_false s a c : okmem s -> isbyte c ->
  haszero (Z.lxor (word (peeks s a)) (u64 (ONES * c))) = false -> ∀ i, 0 <= i < 8 -> peek s (a + i) ≠ c.
Proof.
  intros Hok Hc Hz i Hi He. destruct (peeks_ok s a Hok) as [Hl Hb]. rewrite haszero_xor in Hz by done.
  apply bool_decide_eq_false in Hz. apply Hz, elem_of_peeks. eauto.
Qed.

(** ** Scans of a string *)

(** The bytes from [a + k] up to the first hit, [a + e]. *)
Definition until (s : cmem) (a k e : Z) (hit : Z -> bool) : Prop :=
  0 <= k <= e ∧ (∃ b, c_mem s !! (a + e) = Some b ∧ hit b = true) ∧
  ∀ i, k <= i < e -> ∃ b, c_mem s !! (a + i) = Some b ∧ hit b = false.

Lemma until_size s a k e hit : until s a k e hit -> e - k <= Z.of_nat (size (c_mem s)).
Proof.
  intros (Hk & (b & Hb & _) & Hall).
  assert (bytes (c_mem s) (a + k) ((λ i, peek s (a + k + i)) <$> seqZ 0 (e - k))) as Hby.
  { intros i Hi. rewrite length_fmap, length_seqZ in Hi. destruct (Hall (k + Z.of_nat i)) as (c & Hc & _); [lia|].
    rewrite Z.add_assoc in Hc. rewrite Hc. f_equal. symmetry. apply list_lookup_total_correct. rewrite list_lookup_fmap, lookup_seqZ_lt by lia.
    simpl. f_equal. rewrite <- (peek_at _ _ _ Hc). f_equal. }
  apply bytes_size in Hby. rewrite length_fmap, length_seqZ in Hby. lia.
Qed.

Lemma until_step s a k e hit : until s a k e hit -> k < e -> until s a (k + 1) e hit.
Proof. intros (Hk & Hb & Hall) Hlt. split; [lia|]. split; [done|]. intros i Hi. apply Hall. lia. Qed.

Lemma until_skip s a k e hit j : until s a k e hit -> k <= j -> (∀ i, k <= i < j -> hit (peek s (a + i)) = false) -> j <= e.
Proof.
  intros (Hk & (b & Hb & Hh) & Hall) Hj Hn. destruct (decide (j <= e)) as [|Hgt]; [done|]. exfalso.
  assert (hit (peek s (a + e)) = false) as Hf by (apply Hn; lia). rewrite (peek_at _ _ _ Hb) in Hf. congruence.
Qed.

Lemma until_from s a k e hit j : until s a k e hit -> k <= j <= e -> until s a j e hit.
Proof. intros (Hk & Hb & Hall) Hj. split; [lia|]. split; [done|]. intros i Hi. apply Hall. lia. Qed.

Lemma until_byte s a k e hit : until s a k e hit -> ∃ b, c_mem s !! (a + k) = Some b ∧ (hit b = true <-> k = e).
Proof.
  intros (Hk & (b & Hb & Hh) & Hall). destruct (decide (k = e)) as [->|Hne]; [exists b; split; [done|by split]|].
  destruct (Hall k) as (c & Hc & Hf); [lia|]. exists c. split; [done|]. split; [congruence|done].
Qed.

(** A byte loop ends at the hit. *)
Lemma wp_byte_scan s a k e hit (step : Z -> M cmem (Z + Z)) (Q : Z -> cmem -> Prop) :
  until s a k e hit ->
  (∀ p b s', c_mem s' !! p = Some b -> s' = s -> step p s' = Ok (if hit b then inr p else inl (p + 1)) s') ->
  Q (a + e) s -> wp (scan step (a + k)) s Q.
Proof.
  intros Hu Hstep HQ. apply (wp_scan (λ p s', s' = s ∧ ∃ k, p = a + k ∧ until s a k e hit) (λ p, Z.to_nat (a + e - p))).
  - split; [done|]. eauto.
  - pose proof (until_size _ _ _ _ _ Hu). lia.
  - intros p s' (-> & j & -> & Hj). destruct (until_byte _ _ _ _ _ Hj) as (b & Hb & Hiff). unfold wp. rewrite (Hstep _ _ _ Hb eq_refl).
    destruct (hit b) eqn:E; [assert (j = e) as -> by naive_solver; done|].
    assert (j < e) by (destruct Hj as [? _]; assert (j ≠ e) by naive_solver; lia).
    split; [|lia]. split; [done|]. exists (j + 1). split; [lia|by apply until_step].
Qed.

(** A word loop that skips words without a hit stays before the hit. *)
Lemma wp_word_scan s a k e hit (step : Z -> M cmem (Z + Z)) (Q : Z -> cmem -> Prop) :
  until s a k e hit ->
  (∀ p, (∃ b, c_mem s !! p = Some b) -> wp (step p) s (λ r s', s' = s ∧
     match r with inl q => q = p + 8 ∧ (∀ i, 0 <= i < 8 -> hit (peek s (p + i)) = false) | inr q => q = p end)) ->
  (∀ j, k <= j <= e -> Q (a + j) s) -> wp (scan step (a + k)) s Q.
Proof.
  intros Hu Hstep HQ. apply (wp_scan (λ p s', s' = s ∧ ∃ j, p = a + j ∧ k <= j ∧ until s a j e hit) (λ p, Z.to_nat (a + e - p))).
  - split; [done|]. exists k. split; [done|]. split; [lia|done].
  - pose proof (until_size _ _ _ _ _ Hu). lia.
  - intros p s' (-> & j & -> & Hkj & Hj). destruct (until_byte _ _ _ _ _ Hj) as (b & Hb & _). eapply wp_mono; [by apply Hstep; eauto|].
    intros [q|q] s' [-> Hr].
    + destruct Hr as [-> Hn]. assert (j + 8 <= e) as Hle.
      { apply (until_skip s a j e hit); [done|lia|]. intros i Hi. replace (a + i) with (a + j + (i - j)) by lia. apply Hn. lia. }
      split; [|lia]. split; [done|]. exists (j + 8). split; [lia|]. split; [lia|]. apply (until_from _ _ j); [done|lia].
    + subst q. apply HQ. destruct Hj as [? _]. lia.
Qed.

(** The byte loop up to the first aligned address. *)
Lemma wp_align_scan {R} s a k e hit (step : Z -> M cmem (Z + (Z + R))) (f : Z -> R) x (Q : Z + R -> cmem -> Prop) :
  x = a + k -> until s a k e hit ->
  (∀ p b, c_mem s !! p = Some b -> step p s =
     Ok (if decide (p mod 8 = 0) then inr (inl p) else if hit b then inr (inr (f p)) else inl (p + 1)) s) ->
  (∀ j, k <= j <= e -> Q (inl (a + j)) s) -> Q (inr (f (a + e))) s -> wp (iter 8 step x) s Q.
Proof.
  intros -> Hu Hstep HQ1 HQ2.
  apply (wp_iter (λ p s', s' = s ∧ ∃ j, p = a + j ∧ k <= j ∧ until s a j e hit) (λ p, Z.to_nat ((- p) mod 8))).
  - split; [done|]. exists k. split; [done|]. split; [lia|done].
  - zlia.
  - intros p s' (-> & j & -> & Hkj & Hj). destruct (until_byte _ _ _ _ _ Hj) as (b & Hb & Hiff). unfold wp. rewrite (Hstep _ _ Hb).
    destruct Hj as [Hr Hj]. case_decide as Hd; [apply HQ1; lia|]. destruct (hit b) eqn:E; [by assert (j = e) as -> by naive_solver|].
    assert (j ≠ e) by naive_solver. split; [|zlia]. split; [done|]. exists (j + 1). split; [lia|]. split; [lia|].
    apply until_step; [done|lia].
Qed.

Definition isnul (b : Z) : bool := bool_decide (b = 0).
Definition nul_or (c b : Z) : bool := bool_decide (b = 0 ∨ b = c).

Lemma until_cstr s a l : cstr (c_mem s) a l -> until s a 0 (Z.of_nat (length l)) isnul.
Proof.
  intros Hs. split; [lia|]. split.
  - exists 0. split; [by apply cstr_end|done].
  - intros i Hi. destruct (cstr_at _ _ _ Hs i Hi) as [Hm Hc]. eexists. split; [done|]. apply bool_decide_eq_false. lia.
Qed.

Lemma wp_skip_string s a k e (Q : Z -> cmem -> Prop) : until s a k e isnul -> Q (a + e) s -> wp (skip_string (a + k)) s Q.
Proof.
  intros Hu HQ. unfold skip_string. apply (wp_byte_scan s a k e isnul); [done| |done]. intros p b s' Hb ->.
  unfold mbind, M_bind, ldb. rewrite Hb. unfold isnul. by case_decide; case_bool_decide.
Qed.

(** [strlen], by words. *)
Lemma wp_strlen s a l (Q : Z -> cmem -> Prop) :
  okmem s -> cstr (c_mem s) a l -> Q (Z.of_nat (length l)) s -> wp (strlen a) s Q.
Proof.
  intros Hok Hs HQ. pose proof (until_cstr s a l Hs) as Hu. unfold strlen. wp_step.
  apply (wp_align_scan s a 0 (Z.of_nat (length l)) isnul _ (λ p, p - a)); [lia|done| | |].
  - intros p b Hb. unfold ALIGN. case_decide; [done|]. unfold mbind, M_bind, ldb. rewrite Hb. unfold isnul. by case_decide; case_bool_decide.
  - intros j Hj. wp_step. apply (wp_word_scan s a j (Z.of_nat (length l)) isnul); [by apply (until_from _ _ 0); [|lia]| |].
    + intros p [b Hb]. wp_step. eapply wp_ldw; [done|]. destruct (haszero _) eqn:Hz; apply wp_ret; split; [done..|].
      split; [done|]. intros i Hi. apply bool_decide_eq_false. by apply haszero_false.
    + intros i Hi. wp_step. apply (wp_skip_string s a i (Z.of_nat (length l))); [by apply (until_from _ _ 0); [|lia]|].
      apply wp_ret. by replace (a + Z.of_nat (length l) - a) with (Z.of_nat (length l)) by lia.
  - apply wp_ret. by replace (a + Z.of_nat (length l) - a) with (Z.of_nat (length l)) by lia.
Qed.

(** The index of the first [c] in [l], or the length of [l]. *)
Fixpoint index_of (c : Z) (l : list Z) : nat :=
  match l with [] => O | b :: l => if decide (b = c) then O else S (index_of c l) end.

Lemma index_of_le c l : (index_of c l <= length l)%nat.
Proof. induction l as [|b l IH]; simpl; [lia|]. case_decide; lia. Qed.

Lemma index_of_before c l i : (i < index_of c l)%nat -> l !!! i ≠ c.
Proof.
  revert i. induction l as [|b l IH]; intros i Hi; simpl in Hi; [lia|]. case_decide; [lia|]. destruct i as [|i]; [done|]. apply IH. lia.
Qed.

Lemma index_of_at c l : (index_of c l < length l)%nat -> l !!! index_of c l = c.
Proof. induction l as [|b l IH]; simpl; [lia|]. case_decide; [done|]. intros Hl. apply IH. lia. Qed.

Lemma until_chr s a l c : cstr (c_mem s) a l -> until s a 0 (Z.of_nat (index_of c l)) (nul_or c).
Proof.
  intros Hs. pose proof (index_of_le c l) as Hle. split; [lia|]. split.
  - destruct (decide (index_of c l = length l)) as [->|Hne].
    + exists 0. split; [by apply cstr_end|]. apply bool_decide_eq_true. by left.
    + destruct (cstr_at _ _ _ Hs (Z.of_nat (index_of c l))) as [Hm _]; [lia|]. eexists. split; [done|].
      apply bool_decide_eq_true. right. rewrite Nat2Z.id. apply index_of_at. lia.
  - intros i Hi. destruct (cstr_at _ _ _ Hs i) as [Hm Hc]; [lia|]. eexists. split; [done|]. apply bool_decide_eq_false.
    intros [?|He]; [lia|]. apply (index_of_before c l (Z.to_nat i)); [lia|done].
Qed.

Lemma u8_small c : isbyte c -> u8 c = c.
Proof. apply Z.mod_small. Qed.

Lemma wp_strchrnul s a l c (Q : Z -> cmem -> Prop) :
  okmem s -> cstr (c_mem s) a l -> Q (a + Z.of_nat (index_of (u8 c) l)) s -> wp (strchrnul a c) s Q.
Proof.
  intros Hok Hs HQ. unfold strchrnul. assert (isbyte (u8 c)) as Hc by (unfold isbyte, u8; apply Z.mod_pos_bound; done).
  set (c' := u8 c) in *. case_decide as Hc0.
  { wp_step. eapply wp_strlen; [done..|]. apply wp_ret. replace (index_of c' l) with (length l) in HQ; [done|].
    destruct Hs as [Hl _]. rewrite Hc0. clear -Hl. induction Hl as [|b l Hb Hl IH]; simpl; [done|]. rewrite decide_False by lia. by rewrite IH. }
  pose proof (until_chr s a l c' Hs) as Hu. set (e := Z.of_nat (index_of c' l)) in *.
  wp_step. apply (wp_align_scan s a 0 e (nul_or c') _ id); [lia|done| | |].
  - intros p b Hb. unfold ALIGN. case_decide; [done|]. unfold mbind, M_bind, ldb. rewrite Hb. unfold nul_or. by case_decide; case_bool_decide.
  - intros j Hj. wp_step. apply (wp_word_scan s a j e (nul_or c')); [by apply (until_from _ _ 0); [|lia]| |].
    + intros p [b Hb]. wp_step. eapply wp_ldw; [done|]. destruct (haszero _ || haszero _) eqn:Hz; apply wp_ret; split; [done..|].
      apply orb_false_iff in Hz as [Hz1 Hz2]. split; [done|]. intros i Hi. apply bool_decide_eq_false.
      intros [H0|H1]; [by apply (haszero_false s p Hok Hz1 i)|by apply (haszero_xor_false s p c' Hok Hc Hz2 i)].
    + intros i Hi. apply (wp_byte_scan s a i e (nul_or c')); [by apply (until_from _ _ 0); [|lia]| |done].
      intros p b s' Hb ->. unfold mbind, M_bind, ldb. rewrite Hb. unfold nul_or. case_decide as Hd; case_bool_decide; naive_solver.
  - by apply wp_ret.
Qed.

(** ** Searches *)

Lemma cstr_index s a l c : cstr (c_mem s) a l -> c_mem s !! (a + Z.of_nat (index_of c l)) =
  Some (if decide (index_of c l = length l) then 0 else c).
Proof.
  intros Hs. pose proof (index_of_le c l). case_decide as Hd; [rewrite Hd; by apply cstr_end|].
  destruct (cstr_at _ _ _ Hs (Z.of_nat (index_of c l))) as [-> _]; [lia|]. by rewrite Nat2Z.id, index_of_at by lia.
Qed.

Lemma wp_strchr s a l c (Q : Z -> cmem -> Prop) :
  okmem s -> cstr (c_mem s) a l ->
  Q (if decide (index_of (u8 c) l = length l ∧ u8 c ≠ 0) then 0 else a + Z.of_nat (index_of (u8 c) l)) s ->
  wp (strchr a c) s Q.
Proof.
  intros Hok Hs HQ. unfold strchr. wp_step. apply (wp_strchrnul s a l); [done..|]. wp_step.
  eapply wp_ldb; [by apply cstr_index|]. apply wp_ret. destruct (decide (index_of (u8 c) l = length l)) as [Hd|Hd].
  - destruct (decide (u8 c = 0)) as [E|E]; [rewrite decide_False in HQ by naive_solver; by rewrite decide_True|].
    rewrite decide_True in HQ by done. by rewrite decide_False by done.
  - rewrite decide_False in HQ by naive_solver. by rewrite decide_True.
Qed.

(** The bounded searches, over bytes that need not end with a 0. *)
Lemma bytes_peek s a l i : bytes (c_mem s) a l -> 0 <= i < Z.of_nat (length l) -> c_mem s !! (a + i) = Some (peek s (a + i)).
Proof. intros Hb Hi. pose proof (bytes_at _ _ _ _ Hb Hi) as H. by rewrite (peek_at _ _ _ H). Qed.

Lemma index_of_skip s a l c j : bytes (c_mem s) a l -> 0 <= j <= Z.of_nat (length l) ->
  (∀ i, 0 <= i < j -> peek s (a + i) ≠ c) -> j <= Z.of_nat (index_of c l).
Proof.
  intros Hb Hj Hn. destruct (decide (j <= Z.of_nat (index_of c l))) as [|Hgt]; [done|]. exfalso.
  apply (Hn (Z.of_nat (index_of c l))); [lia|]. apply peek_at. rewrite (bytes_at _ _ _ _ Hb) by lia. by rewrite Nat2Z.id, index_of_at by lia.
Qed.

Lemma index_of_hit s a l c j : bytes (c_mem s) a l -> 0 <= j < Z.of_nat (length l) -> peek s (a + j) = c ->
  j <= Z.of_nat (index_of c l) -> index_of c l = Z.to_nat j.
Proof.
  intros Hb Hj Hp Hle. rewrite (peek_at _ _ _ (bytes_at _ _ _ _ Hb Hj)) in Hp.
  destruct (decide (j = Z.of_nat (index_of c l))); [lia|]. destruct (index_of_before c l (Z.to_nat j)); [lia|done].
Qed.

Section memchr.
Context (s : cmem) (a : Z) (l : list Z) (c : Z).
Hypothesis Hok : okmem s.
Hypothesis Hb : bytes (c_mem s) a l.
Hypothesis Hc : isbyte c.
Let n := Z.of_nat (length l).
(** No [c] before [p], and [k] bytes are left. *)
Let left (p k : Z) : Prop := 0 <= k <= n ∧ p = a + (n - k) ∧ ∀ i, 0 <= i < n - k -> peek s (a + i) ≠ c.

Lemma left_step p k : left p k -> k ≠ 0 -> peek s p ≠ c -> left (p + 1) (k - 1).
Proof.
  intros (Hk & -> & Hn) H0 Hp. split; [lia|]. split; [lia|]. intros i Hi. destruct (decide (i = n - k)) as [->|]; [done|]. apply Hn. lia.
Qed.

Lemma left_load p k : left p k -> k ≠ 0 -> c_mem s !! p = Some (peek s p).
Proof. intros (Hk & -> & _) H0. apply (bytes_peek s a l); [done|]. unfold n in *. lia. Qed.

Definition memchr_result (r : Z) : Prop := r = if decide (index_of c l = length l) then 0 else a + Z.of_nat (index_of c l).

Lemma left_none p : left p 0 -> memchr_result 0.
Proof.
  intros (_ & _ & Hn). pose proof (index_of_le c l). unfold memchr_result. rewrite decide_True; [done|].
  rewrite Z.sub_0_r in Hn. pose proof (index_of_skip s a l c n Hb ltac:(unfold n; lia) Hn). unfold n in *. lia.
Qed.

Lemma left_found p k : left p k -> k ≠ 0 -> peek s p = c -> memchr_result p.
Proof.
  intros (Hk & -> & Hn) H0 Hp. unfold n in *. pose proof (index_of_skip s a l c (Z.of_nat (length l) - k) Hb ltac:(lia) Hn) as Hle.
  pose proof (index_of_hit s a l c (Z.of_nat (length l) - k) Hb ltac:(lia) Hp Hle) as Hi. unfold memchr_result. rewrite decide_False by lia. lia.
Qed.

Lemma left_bytes p k (Q : Z -> cmem -> Prop) : left p k -> (∀ r, memchr_result r -> Q r s) ->
  wp (iter (S (Z.to_nat k)) (λ '(s, n),
    if decide (n = 0) then mret (inr 0) else
    b ← ldb s; if decide (b = c) then mret (inr s) else mret (inl (s + 1, n - 1))) (p, k)) s Q.
Proof.
  intros Hl HQ. apply (wp_iter (λ x s', s' = s ∧ left x.1 x.2) (λ x, Z.to_nat x.2)); [done|simpl; lia|].
  intros [q j] s' [-> Hj]. simpl in *. case_decide as H0; [subst j; apply wp_ret, HQ; by apply (left_none q)|].
  wp_step. eapply wp_ldb; [by apply (left_load q j)|]. case_decide as Hp; apply wp_ret; [by apply HQ, (left_found q j)|].
  split; [split; [done|by apply left_step]|]. destruct Hj as [? _]. simpl. lia.
Qed.

Lemma left_words p k (Q : Z * Z -> cmem -> Prop) : left p k -> (∀ q j, left q j -> Q (q, j) s) ->
  wp (iter (S (Z.to_nat k)) (λ '(w, n),
    if decide (n < 8) then mret (inr (w, n)) else
    x ← ldw w; if haszero (Z.lxor x (u64 (ONES * c))) then mret (inr (w, n)) else mret (inl (w + 8, n - 8))) (p, k)) s Q.
Proof.
  intros Hl HQ. apply (wp_iter (λ x s', s' = s ∧ left x.1 x.2) (λ x, Z.to_nat x.2)); [done|simpl; lia|].
  intros [q j] s' [-> Hj]. simpl in *. case_decide as H0; [by apply wp_ret, HQ|].
  wp_step. eapply wp_ldw; [apply (left_load q j); [done|lia]|]. destruct (haszero _) eqn:Hz; apply wp_ret; [apply HQ; exact Hj|].
  pose proof (haszero_xor_false s q c Hok Hc Hz) as Hn8. destruct Hj as (Hr & -> & Hn). split; [|simpl; lia]. split; [done|]. simpl.
  split; [lia|]. split; [lia|]. intros i Hi. destruct (decide (i < n - j)) as [|Hge]; [apply Hn; lia|].
  replace (a + i) with (a + (n - j) + (i - (n - j))) by lia. apply Hn8. lia.
Qed.

Lemma left_align p k (Q : Z * Z -> cmem -> Prop) : left p k -> (∀ q j, left q j -> Q (q, j) s) ->
  wp (iter 8 (λ '(s, n),
    if decide (s mod ALIGN = 0 ∨ n = 0) then mret (inr (s, n)) else
    b ← ldb s; if decide (b = c) then mret (inr (s, n)) else mret (inl (s + 1, n - 1))) (p, k)) s Q.
Proof.
  intros Hl HQ. unfold ALIGN. apply (wp_iter (λ x s', s' = s ∧ left x.1 x.2) (λ x, Z.to_nat ((- x.1) mod 8))); [done|simpl; zlia|].
  intros [q j] s' [-> Hj]. simpl in *. case_decide as H0; [by apply wp_ret, HQ|].
  wp_step. eapply wp_ldb; [apply (left_load q j); [done|tauto]|]. case_decide as Hp; apply wp_ret; [apply HQ; exact Hj|].
  split; [split; [done|apply left_step; [done|tauto|done]]|simpl; zlia].
Qed.
End memchr.

Lemma wp_memchr s a l c (Q : Z -> cmem -> Prop) :
  okmem s -> bytes (c_mem s) a l -> (∀ r, memchr_result a l (u8 c) r -> Q r s) -> wp (memchr a c (Z.of_nat (length l))) s Q.
Proof.
  intros Hok Hb HQ. unfold memchr. assert (isbyte (u8 c)) as Hc by (unfold isbyte, u8; apply Z.mod_pos_bound; done).
  wp_step. apply (left_align s a l (u8 c)); [done..|split; [lia|]; split; [lia|]; intros i Hi; lia|].
  intros p k Hl. case_decide as H0; [subst k; apply wp_ret, HQ; by apply (left_none s a l (u8 c) Hb p)|].
  wp_step. eapply wp_ldb; [by apply (left_load s a l (u8 c) Hb p k)|]. case_decide as Hp.
  - apply wp_ret, HQ. by apply (left_found s a l (u8 c) Hb p k).
  - wp_step. apply (left_words s a l (u8 c)); [done..|]. intros q j Hl'. by apply (left_bytes s a l (u8 c)).
Qed.

(** ** Comparison *)

(** The difference of the first bytes that differ, with 0 after the end. *)
Fixpoint str_cmp (l r : list Z) : Z :=
  match l, r with
  | x :: l, y :: r => if decide (x = y) then str_cmp l r else x - y
  | x :: _, [] => x
  | [], y :: _ => - y
  | [], [] => 0
  end.

Lemma cstr_nil m a : cstr m a [] <-> m !! a = Some 0.
Proof.
  split.
  - intros Hs. rewrite <- (cstr_end m a [] Hs). f_equal. simpl. lia.
  - intros Ha. split; [constructor|]. intros i Hi. simpl in *. destruct i as [|i]; [|lia]. simpl. by rewrite Z.add_0_r.
Qed.

Lemma cstr_cons m a x l : cstr m a (x :: l) <-> 0 < x < 256 ∧ m !! a = Some x ∧ cstr m (a + 1) l.
Proof.
  unfold cstr, bytes. rewrite Forall_cons. split.
  - intros [[Hx Hl] Hb]. split; [done|]. split; [rewrite <- (Z.add_0_r a); apply (Hb 0%nat); simpl; lia|].
    split; [done|]. intros i Hi. etrans; [|apply (Hb (S i)); simpl in *; lia]. f_equal. lia.
  - intros (Hx & Ha & Hl & Hb). split; [done|]. intros [|i] Hi; [simpl; by rewrite Z.add_0_r|]. simpl in *.
    etrans; [|apply Hb; lia]. f_equal. lia.
Qed.

Lemma wp_strcmp s a b l r (Q : Z -> cmem -> Prop) :
  cstr (c_mem s) a l -> cstr (c_mem s) b r -> Q (str_cmp l r) s -> wp (strcmp a b) s Q.
Proof.
  intros Hl Hr HQ. unfold strcmp.
  apply (wp_scan (λ x s', s' = s ∧ ∃ l' r', cstr (c_mem s) x.1 l' ∧ cstr (c_mem s) x.2 r' ∧
      x.1 = a + (Z.of_nat (length l) - Z.of_nat (length l')) ∧ str_cmp l' r' = str_cmp l r)
    (λ x, Z.to_nat (a + Z.of_nat (length l) - x.1))).
  - split; [done|]. exists l, r. split_and!; [done|done|simpl; lia|done].
  - simpl. pose proof (cstr_size _ _ _ Hl). lia.
  - intros [p q] s' (-> & l' & r' & Hl' & Hr' & Hp & Heq). simpl in *.
    assert (∃ x y, c_mem s !! p = Some x ∧ c_mem s !! q = Some y ∧
      (x = y ∧ x ≠ 0 -> ∃ l1 r1, l' = x :: l1 ∧ r' = y :: r1) ∧ (¬ (x = y ∧ x ≠ 0) -> str_cmp l' r' = x - y)) as (x & y & Hx & Hy & Hsame & Hdiff).
    { destruct l' as [|x l1]; [apply cstr_nil in Hl'|apply cstr_cons in Hl' as (Hx0 & Hl' & _)];
        (destruct r' as [|y r1]; [apply cstr_nil in Hr'|apply cstr_cons in Hr' as (Hy0 & Hr' & _)]);
        (do 2 eexists; split; [exact Hl'|]; split; [exact Hr'|]; split; [intros; try lia; eauto|]); intros Hn; simpl; try lia.
      rewrite decide_False by lia. lia. }
    wp_step. eapply wp_ldb; [done|]. wp_step. eapply wp_ldb; [done|]. case_decide as Hd; apply wp_ret.
    + destruct (Hsame Hd) as (l1 & r1 & -> & ->). apply cstr_cons in Hl' as (? & _ & Hl'). apply cstr_cons in Hr' as (? & _ & Hr').
      destruct Hd as [-> _]. simpl in *. rewrite decide_True in Heq by done. split; [|lia]. split; [done|].
      exists l1, r1. split_and!; [done|done|lia|done].
    + rewrite <- (Hdiff Hd), Heq. done.
Qed.

(** [strcmp] orders strings by their first difference. *)
Lemma str_cmp_eq l r : Forall (λ c, 0 < c < 256) l -> Forall (λ c, 0 < c < 256) r -> (str_cmp l r = 0 <-> l = r).
Proof.
  intros Hl. revert r. induction Hl as [|x l Hx Hl IH]; intros [|y r] Hr; [done|apply Forall_cons in Hr as [? _]|..].
  - simpl. split; [lia|done].
  - simpl. split; [lia|done].
  - apply Forall_cons in Hr as [Hy Hr]. simpl. case_decide as Hd; [subst; rewrite IH by done; split; [by intros ->|by intros [= ->]]|].
    split; [lia|by intros [= ? ?]].
Qed.

Lemma str_cmp_lt l r : Forall (λ c, 0 < c < 256) l -> Forall (λ c, 0 < c < 256) r ->
  (str_cmp l r < 0 <-> ∃ p y r', r = p ++ y :: r' ∧ (l = p ∨ ∃ x l', l = p ++ x :: l' ∧ x < y)).
Proof.
  intros Hl. revert r. induction Hl as [|x l Hx Hl IH]; intros [|y r] Hr; simpl.
  - split; [lia|]. intros (p & y & r' & He & _). by destruct p.
  - apply Forall_cons in Hr as [Hy _]. split; [|lia]. intros _. exists [], y, r. split; [done|by left].
  - split; [lia|]. intros (p & y & r' & He & _). by destruct p.
  - apply Forall_cons in Hr as [Hy Hr]. case_decide as Hd.
    + subst y. rewrite IH by done. split.
      * intros (p & y & r' & -> & Hp). exists (x :: p), y, r'. split; [done|]. destruct Hp as [->|(z & l' & -> & Hz)]; [by left|right; eauto].
      * intros ([|z p] & y & r' & He & Hp); injection He as -> ->.
        -- destruct Hp as [?|(z & l' & [= -> ->] & ?)]; [done|lia].
        -- exists p, y, r'. split; [done|]. destruct Hp as [[= ->]|(w & l' & [= ->] & ?)]; [by left|right; eauto].
    + split.
      * intros Hlt. exists [], y, r. split; [done|]. right. exists x, l. split; [done|lia].
      * intros ([|z p] & w & r' & He & Hp); injection He as -> ->.
        -- destruct Hp as [?|(v & l' & [= -> ->] & ?)]; [done|lia].
        -- destruct Hp as [[= ? ?]|(v & l' & [= ? ?] & ?)]; done.
Qed.

(** ** Sets of bytes *)

Lemma land_bit w k : 0 <= k -> bool_decide (Z.land w (Z.shiftl 1 k) ≠ 0) = Z.testbit w k.
Proof.
  intros Hk. rewrite Z.shiftl_1_l. destruct (Z.testbit w k) eqn:E.
  - apply bool_decide_eq_true. intros H0. assert (Z.testbit (Z.land w (2 ^ k)) k = false) as Hf by (by rewrite H0, Z.bits_0).
    rewrite Z.land_spec, E, Z.pow2_bits_true in Hf by done. done.
  - apply bool_decide_eq_false. intros H0. apply H0, Z.bits_inj'. intros i Hi.
    rewrite Z.land_spec, Z.bits_0, Z.pow2_bits_eqb by done. destruct (Z.eqb_spec k i) as [->|]; [by rewrite E|apply andb_false_r].
Qed.

Lemma BITOP_or_spec bs b c : length bs = 4%nat -> isbyte b -> isbyte c ->
  length (BITOP_or bs b) = 4%nat ∧ BITOP_and (BITOP_or bs b) c = bool_decide (c = b) || BITOP_and bs c.
Proof.
  intros Hl Hb Hc. unfold isbyte in *. split; [unfold BITOP_or; by rewrite length_insert|].
  unfold BITOP_and, BITOP_or. rewrite !land_bit by zlia. destruct (decide (b / 64 = c / 64)) as [He|He].
  - rewrite He, list_lookup_total_insert_eq by (rewrite Hl; zlia). rewrite Z.lor_spec, Z.shiftl_1_l, Z.pow2_bits_eqb by zlia.
    rewrite orb_comm. f_equal. destruct (Z.eqb_spec (b mod 64) (c mod 64)); symmetry.
    + apply bool_decide_eq_true. zlia.
    + apply bool_decide_eq_false. intros ->. done.
  - rewrite list_lookup_total_insert_ne by zlia. rewrite bool_decide_eq_false_2; [done|]. intros ->. done.
Qed.

(** The set [bs] is the set of the bytes of [cs]. *)
Definition byteset_of (bs : list Z) (cs : list Z) : Prop :=
  length bs = 4%nat ∧ ∀ c, isbyte c -> BITOP_and bs c = bool_decide (c ∈ cs).

Lemma byteset0_of : byteset_of byteset0 [].
Proof.
  split; [done|]. intros c Hc. rewrite bool_decide_eq_false_2 by apply not_elem_of_nil. unfold BITOP_and. rewrite land_bit by (unfold isbyte in Hc; zlia).
  assert (byteset0 !!! Z.to_nat (c / 64) = 0) as ->; [|apply Z.bits_0].
  assert (Z.to_nat (c / 64) < 4)%nat by (unfold isbyte in Hc; zlia). destruct (Z.to_nat (c / 64)) as [|[|[|[|]]]]; [done..|lia].
Qed.

Lemma byteset_snoc bs cs b : isbyte b -> byteset_of bs cs -> byteset_of (BITOP_or bs b) (cs ++ [b]).
Proof.
  intros Hb [Hl Hbs]. split; [by apply (BITOP_or_spec bs b b)|]. intros c Hc. destruct (BITOP_or_spec bs b c Hl Hb Hc) as [_ ->].
  rewrite Hbs by done. destruct (decide (c = b)) as [->|Hne].
  - rewrite bool_decide_eq_true_2 by done. symmetry. apply bool_decide_eq_true, elem_of_app. right. by left.
  - rewrite bool_decide_eq_false_2 by done. apply bool_decide_ext. rewrite elem_of_app, list_elem_of_singleton. naive_solver.
Qed.

Lemma wp_fill_byteset s a cs (Q : list Z -> cmem -> Prop) :
  cstr (c_mem s) a cs -> (∀ bs, byteset_of bs cs -> Q bs s) -> wp (fill_byteset a) s Q.
Proof.
  intros Hs HQ. unfold fill_byteset.
  apply (wp_scan (λ x s', s' = s ∧ ∃ d t, cs = d ++ t ∧ cstr (c_mem s) x.1 t ∧ x.1 = a + Z.of_nat (length d) ∧ byteset_of x.2 d)
    (λ x, Z.to_nat (a + Z.of_nat (length cs) - x.1))).
  - split; [done|]. exists [], cs. split; [done|]. split; [done|]. split; [simpl; lia|apply byteset0_of].
  - simpl. pose proof (cstr_size _ _ _ Hs). lia.
  - intros [p bs] s' (-> & d & t & -> & Ht & Hp & Hbs). simpl in *. wp_step. destruct t as [|b t].
    + eapply wp_ldb; [by apply cstr_nil|]. rewrite decide_True by done. apply wp_ret, HQ. by rewrite app_nil_r.
    + apply cstr_cons in Ht as (Hb & Hm & Ht). eapply wp_ldb; [done|]. rewrite decide_False by lia. apply wp_ret.
      split; [|rewrite length_app; simpl; lia]. split; [done|]. exists (d ++ [b]), t. simpl.
      split; [by rewrite <- app_assoc|]. split; [done|]. split; [rewrite length_app; simpl; lia|]. apply byteset_snoc; [unfold isbyte; lia|done].
Qed.

(** ** Spans *)

(** The length of the longest prefix of bytes in [P]. *)
Fixpoint span (P : Z -> bool) (l : list Z) : nat :=
  match l with [] => O | b :: l => if P b then S (span P l) else O end.
Definition inset (cs : list Z) (b : Z) : bool := bool_decide (b ∈ cs).
Definition outset (cs : list Z) (b : Z) : bool := negb (inset cs b).

Lemma span_le P l : (span P l <= length l)%nat.
Proof. induction l as [|b l IH]; simpl; [lia|]. destruct (P b); lia. Qed.

Lemma until_span s a l P : cstr (c_mem s) a l ->
  until s a 0 (Z.of_nat (span P l)) (λ b, bool_decide (b = 0) || negb (P b)).
Proof.
  revert a. induction l as [|b l IH]; intros a Hs; simpl.
  - split; [lia|]. split; [|lia]. exists 0. split; [apply cstr_nil in Hs; by rewrite Z.add_0_r|done].
  - apply cstr_cons in Hs as (Hb & Hm & Hs). destruct (P b) eqn:E.
    + destruct (IH _ Hs) as (Hr & (c & Hc & Hh) & Hall). split; [lia|]. split.
      * exists c. split; [|done]. rewrite <- Hc. f_equal. lia.
      * intros i Hi. destruct (decide (i = 0)) as [->|].
        -- exists b. rewrite Z.add_0_r. split; [done|]. rewrite E, bool_decide_eq_false_2 by lia. done.
        -- destruct (Hall (i - 1)) as (x & Hx & Hf); [lia|]. exists x. split; [|done]. rewrite <- Hx. f_equal. lia.
    + split; [lia|]. split; [|lia]. exists b. rewrite Z.add_0_r. split; [done|]. rewrite E. apply orb_true_r.
Qed.

Lemma wp_span_byteset s a l bs cs inside (Q : Z -> cmem -> Prop) :
  okmem s -> cstr (c_mem s) a l -> byteset_of bs cs ->
  Q (a + Z.of_nat (span (λ b, bool_decide (inset cs b = inside)) l)) s -> wp (span_byteset bs inside a) s Q.
Proof.
  intros Hok Hs [_ Hbs] HQ. unfold span_byteset. rewrite <- (Z.add_0_r a).
  eapply (wp_byte_scan s a 0); [by apply until_span| |exact HQ]. intros p b s' Hb ->. unfold mbind, M_bind, ldb. rewrite Hb.
  assert (isbyte b) as Hby by (by eapply Hok). rewrite Hbs by done. unfold inset. case_decide as Hd.
  - rewrite bool_decide_eq_false_2 by naive_solver. by rewrite bool_decide_eq_true_2 by naive_solver.
  - destruct (decide (b = 0)); [by rewrite bool_decide_eq_true_2|]. rewrite (bool_decide_eq_false_2 (b = 0)) by done.
    by rewrite bool_decide_eq_false_2 by naive_solver.
Qed.

Lemma span_ext P P' l : (∀ b, b ∈ l -> P b = P' b) -> span P l = span P' l.
Proof.
  induction l as [|b l IH]; intros Hp; simpl; [done|]. rewrite <- (Hp b) by (by left). destruct (P b); [|done]. f_equal.
  apply IH. intros c Hc. apply Hp. by right.
Qed.

Lemma span_all l : span (λ _, true) l = length l.
Proof. induction l as [|b l IH]; simpl; [done|]. by rewrite IH. Qed.

Lemma span_index c l : span (λ b, negb (bool_decide (b = c))) l = index_of c l.
Proof. induction l as [|b l IH]; simpl; [done|]. case_decide; [by rewrite bool_decide_eq_true_2|]. rewrite bool_decide_eq_false_2 by done. simpl. by rewrite IH. Qed.

Lemma wp_strspn s a d l cs (Q : Z -> cmem -> Prop) :
  okmem s -> cstr (c_mem s) a l -> cstr (c_mem s) d cs -> Q (Z.of_nat (span (inset cs) l)) s -> wp (strspn a d) s Q.
Proof.
  intros Hok Hl Hd HQ. unfold strspn. wp_step. destruct cs as [|c cs].
  { eapply wp_ldb; [by apply cstr_nil|]. rewrite decide_True by done. apply wp_ret.
    replace (span (inset []) l) with O in HQ; [done|]. by destruct l. }
  pose proof Hd as (Hc & Hm & Hd')%cstr_cons. eapply wp_ldb; [done|]. rewrite decide_False by lia. wp_step. destruct cs as [|c' cs].
  - eapply wp_ldb; [by apply cstr_nil|]. rewrite decide_True by done. wp_step. rewrite <- (Z.add_0_r a) at 1.
    assert (span (inset [c]) l = span (λ b, bool_decide (b = c)) l) as Hsp.
    { apply span_ext. intros b _. unfold inset. apply bool_decide_ext. by rewrite list_elem_of_singleton. }
    rewrite Hsp in HQ. eapply (wp_byte_scan s a 0); [by apply (until_span s a l (λ b, bool_decide (b = c)))| |].
    + intros p b s' Hb ->. unfold mbind, M_bind, ldb. rewrite Hb. case_decide as Hbc.
      * subst. rewrite bool_decide_eq_false_2 by lia. by rewrite bool_decide_eq_true_2.
      * rewrite (bool_decide_eq_false_2 (b = c)) by done. by rewrite orb_true_r.
    + apply wp_ret. replace (a + _ - a) with (Z.of_nat (span (λ b, bool_decide (b = c)) l)) by lia. done.
  - pose proof Hd' as (Hc' & Hm' & _)%cstr_cons. eapply wp_ldb; [done|]. rewrite decide_False by lia. wp_step.
    apply (wp_fill_byteset s d (c :: c' :: cs)); [done|]. intros bs Hbs. wp_step. eapply wp_span_byteset; [done..|].
    apply wp_ret. rewrite (span_ext _ (inset (c :: c' :: cs))) by (intros b _; by destruct (inset _ b)).
    by replace (a + _ - a) with (Z.of_nat (span (inset (c :: c' :: cs)) l)) by lia.
Qed.

Lemma schar_u8 b : isbyte b -> u8 (schar b) = b.
Proof. unfold isbyte, u8, schar. intros Hb. case_decide; zlia. Qed.

Lemma wp_strcspn s a d l cs (Q : Z -> cmem -> Prop) :
  okmem s -> cstr (c_mem s) a l -> cstr (c_mem s) d cs -> Q (Z.of_nat (span (outset cs) l)) s -> wp (strcspn a d) s Q.
Proof.
  intros Hok Hl Hd HQ. unfold strcspn. wp_step.
  assert (∀ c, isbyte c -> span (outset cs) l = index_of c l -> wp (r ← strchrnul a (schar c); mret (r - a)) s Q) as Hchr.
  { intros c Hc He. wp_step. apply (wp_strchrnul s a l); [done..|]. rewrite schar_u8 by done. apply wp_ret. rewrite <- He.
    replace (a + _ - a) with (Z.of_nat (span (outset cs) l)) by lia. done. }
  destruct cs as [|c cs].
  { eapply wp_ldb; [by apply cstr_nil|]. wp_step. rewrite decide_True by done. apply wp_ret. rewrite decide_False by naive_solver.
    apply Hchr; [unfold isbyte; lia|]. rewrite <- span_index. apply span_ext. intros b Hb. destruct Hl as [Hl _].
    rewrite Forall_forall in Hl. specialize (Hl b Hb). rewrite bool_decide_eq_false_2 by lia. done. }
  pose proof Hd as (Hc & Hm & Hd')%cstr_cons. eapply wp_ldb; [done|]. wp_step. rewrite decide_False by lia. destruct cs as [|c' cs].
  - eapply wp_ldb; [by apply cstr_nil|]. rewrite decide_False by naive_solver. apply Hchr; [unfold isbyte; lia|].
    rewrite <- span_index. apply span_ext. intros b _. unfold outset, inset. f_equal. apply bool_decide_ext. by rewrite list_elem_of_singleton.
  - pose proof Hd' as (Hc' & Hm' & _)%cstr_cons. eapply wp_ldb; [done|]. rewrite decide_True by lia. wp_step.
    apply (wp_fill_byteset s d (c :: c' :: cs)); [done|]. intros bs Hbs. wp_step. eapply wp_span_byteset; [done..|].
    apply wp_ret. rewrite (span_ext _ (outset (c :: c' :: cs))) by (intros b _; unfold outset; by destruct (inset _ b)).
    by replace (a + _ - a) with (Z.of_nat (span (outset (c :: c' :: cs)) l)) by lia.
Qed.
