(* ===== verification/CStringProps.v ===== *)
(** * Strings: the properties

    What the functions of string.c compute, for every placement of the strings
    in memory and every alignment. *)

From S2P Require Import Prelude CString CStringSpec.

(** ** Parts of strings *)

Lemma cstr_drop m a l k : cstr m a l -> 0 <= k <= Z.of_nat (length l) -> cstr m (a + k) (drop (Z.to_nat k) l).
Proof.
  revert a k. induction l as [|b l IH]; intros a k Hs Hk; simpl in Hk.
  - replace k with 0 by lia. by rewrite Z.add_0_r.
  - destruct (decide (k = 0)) as [->|Hne]; [by rewrite Z.add_0_r|]. apply cstr_cons in Hs as (_ & _ & Hs).
    replace (Z.to_nat k) with (S (Z.to_nat (k - 1))) by lia. simpl. replace (a + k) with (a + 1 + (k - 1)) by lia. apply IH; [done|lia].
Qed.

(** Bytes that differ only outside a string keep it. *)
Lemma cstr_frame m m' a l : cstr m a l -> (∀ i, 0 <= i <= Z.of_nat (length l) -> m' !! (a + i) = m !! (a + i)) -> cstr m' a l.
Proof.
  intros [Hl Hb] He. split; [done|]. intros i Hi. rewrite He; [by apply Hb|]. rewrite length_app in Hi. simpl in Hi. lia.
Qed.

(** A 0 stored in a string ends it there. *)
Lemma cstr_cut m a l j : cstr m a l -> 0 <= j <= Z.of_nat (length l) -> cstr (<[a + j := 0]> m) a (take (Z.to_nat j) l).
Proof.
  revert a j. induction l as [|b l IH]; intros a j Hs Hj; simpl in Hj.
  - rewrite take_nil. apply cstr_nil. replace j with 0 by lia. by rewrite Z.add_0_r, lookup_insert_eq.
  - destruct (decide (j = 0)) as [->|Hne]; [apply cstr_nil; by rewrite Z.add_0_r, lookup_insert_eq|].
    apply cstr_cons in Hs as (Hb & Hm & Hs). replace (Z.to_nat j) with (S (Z.to_nat (j - 1))) by lia. simpl. apply cstr_cons.
    split; [done|]. split; [by rewrite lookup_insert_ne by lia|]. replace (a + j) with (a + 1 + (j - 1)) by lia. apply IH; [done|lia].
Qed.

Lemma okmem_set s m : map_Forall (λ _ b, isbyte b) m -> okmem (c_set_mem m s).
Proof. done. Qed.

Lemma okmem_store s a v : okmem s -> okmem (c_set_mem (<[a := u8 v]> (c_mem s)) s).
Proof. intros Hok. apply map_Forall_insert_2; [|done]. unfold isbyte, u8. apply Z.mod_pos_bound. done. Qed.

(** ** Tokens *)

Lemma drop_span P l b t : drop (span P l) l = b :: t -> P b = false.
Proof.
  induction l as [|c l IH]; simpl; [done|]. destruct (P c) eqn:E; [done|]. simpl. by intros [= <- _].
Qed.

Lemma take_span cs l : Forall (λ b, b ∉ cs) (take (span (outset cs) l) l).
Proof.
  induction l as [|b l IH]; simpl; [done|]. unfold outset at 1. destruct (inset cs b) eqn:E; simpl; [done|].
  constructor; [|done]. by apply bool_decide_eq_false in E.
Qed.

Lemma index_of_nul m a l : cstr m a l -> index_of 0 l = length l.
Proof. intros [Hl _]. induction Hl as [|b l Hb Hl IH]; simpl; [done|]. rewrite decide_False by lia. by rewrite IH. Qed.

Lemma wp_strpbrk s a d l cs (Q : Z -> cmem -> Prop) :
  okmem s -> cstr (c_mem s) a l -> cstr (c_mem s) d cs ->
  Q (if decide (span (outset cs) l = length l) then 0 else a + Z.of_nat (span (outset cs) l)) s -> wp (strpbrk a d) s Q.
Proof.
  intros Hok Hl Hd HQ. unfold strpbrk. wp_step. apply (wp_strcspn s a d l cs); [done..|]. pose proof (span_le (outset cs) l) as Hle.
  destruct (cstr_byte _ _ _ Hl (Z.of_nat (span (outset cs) l))) as (b & Hb & _ & Hiff); [lia|].
  wp_step. eapply wp_ldb; [done|]. apply wp_ret. destruct (decide (b = 0)) as [Hb0|Hb0].
  - rewrite decide_False by naive_solver. rewrite decide_True in HQ; [done|]. apply Hiff in Hb0. lia.
  - rewrite decide_True by done. rewrite decide_False in HQ; [done|]. intros He. apply Hb0, Hiff. lia.
Qed.

(** [strtok_r] on a string: the delimiters at the front are skipped.  If
    nothing is left it returns [NULL] with the string as it was; otherwise it
    returns the longest prefix without a delimiter as a string of its own, and
    the saved pointer is the rest.  At most one byte, a delimiter, changes. *)
Theorem strtok_r_splits s str delim save l ds :
  okmem s -> 0 < str -> cstr (c_mem s) str l -> cstr (c_mem s) delim ds ->
  wp (strtok_r str delim save) s (λ r s',
    let k := span (inset ds) l in
    let rest := drop k l in
    let j := span (outset ds) rest in
    okmem s' ∧
    match rest with
    | [] => r.1 = 0 ∧ s' = s ∧ cstr (c_mem s') r.2 []
    | _ :: _ =>
        r.1 = str + Z.of_nat k ∧ cstr (c_mem s') r.1 (take j rest) ∧ (0 < j)%nat ∧ Forall (λ b, b ∉ ds) (take j rest) ∧
        cstr (c_mem s') r.2 (drop (S j) rest) ∧
        ∀ p, p ≠ r.1 + Z.of_nat j -> c_mem s' !! p = c_mem s !! p
    end).
Proof.
  intros Hok Hs0 Hl Hd. unfold strtok_r. rewrite (decide_False (P := str = 0)) by lia.
  set (k := span (inset ds) l). pose proof (span_le (inset ds) l) as Hk. fold k in Hk.
  wp_step. apply (wp_strspn s str delim l ds); [done..|]. fold k.
  pose proof (cstr_drop _ _ _ (Z.of_nat k) Hl ltac:(lia)) as Hr. rewrite Nat2Z.id in Hr. wp_step.
  destruct (drop k l) as [|b t] eqn:Hrest.
  { apply cstr_nil in Hr as Hr0. eapply wp_ldb; [done|]. rewrite decide_True by done. by apply wp_ret. }
  apply cstr_cons in Hr as Hc. destruct Hc as (Hb & Hm & Ht). eapply wp_ldb; [done|]. rewrite decide_False by lia.
  set (j := span (outset ds) (b :: t)). pose proof (span_le (outset ds) (b :: t)) as Hj. fold j in Hj.
  assert (0 < j)%nat as Hj0.
  { unfold j. simpl. unfold outset. rewrite (drop_span (inset ds) l b t) by done. simpl. lia. }
  assert (Forall (λ b, b ∉ ds) (take j (b :: t))) as Hnd by apply take_span.
  wp_step. eapply (wp_strpbrk s _ delim (b :: t) ds); [done..|]. fold j. destruct (decide (j = length (b :: t))) as [Hjl|Hjl].
  - rewrite decide_True by done. wp_step. unfold lfind. apply (wp_strchr s _ (b :: t)); [done..|]. rewrite decide_False by (intros [_ []]; done).
    apply wp_ret. change (u8 0) with 0. rewrite (index_of_nul _ _ _ Hr). cbn [fst snd]. split; [done|]. split; [done|].
    assert (take j (b :: t) = b :: t) as Htk by (apply take_ge; lia). assert (drop (S j) (b :: t) = []) as Hdr by (apply drop_ge; lia).
    rewrite Htk, Hdr. rewrite Htk in Hnd. split; [done|]. split; [done|]. split; [done|]. split; [|done]. apply cstr_nil. exact (cstr_end _ _ _ Hr).
  - rewrite decide_False by lia. wp_step. destruct (cstr_byte _ _ _ Hr (Z.of_nat j)) as (x & Hx & _); [lia|]. eapply wp_stb; [done|].
    apply wp_ret. simpl fst. simpl snd. split; [by apply okmem_store|]. split; [done|]. change (u8 0) with 0. cbn [c_mem c_set_mem].
    split; [|split; [done|split; [done|split]]].
    + pose proof (cstr_cut _ _ _ (Z.of_nat j) Hr ltac:(lia)) as Hcut. by rewrite Nat2Z.id in Hcut.
    + pose proof (cstr_drop _ _ _ (Z.of_nat (S j)) Hr ltac:(lia)) as Hdr. rewrite Nat2Z.id in Hdr.
      replace (str + Z.of_nat k + Z.of_nat j + 1) with (str + Z.of_nat k + Z.of_nat (S j)) by lia.
      apply (cstr_frame (c_mem s)); [done|]. intros i Hi. apply lookup_insert_ne. lia.
    + intros p Hp. by apply lookup_insert_ne.
Qed.

(** ** Copies *)

(** The bytes [l] stored from [a] on. *)
Fixpoint blit (a : Z) (l : list Z) (m : gmap Z Z) : gmap Z Z :=
  match l with [] => m | b :: l => blit (a + 1) l (<[a := b]> m) end.

Lemma lookup_blit a l m p :
  blit a l m !! p = if decide (a <= p < a + Z.of_nat (length l)) then Some (l !!! Z.to_nat (p - a)) else m !! p.
Proof.
  revert a m. induction l as [|b l IH]; intros a m; simpl; [by rewrite decide_False by lia|]. rewrite IH.
  destruct (decide (p = a)) as [->|Hne].
  - rewrite decide_False by lia. rewrite lookup_insert_eq, decide_True by lia. by rewrite Z.sub_diag.
  - destruct (decide (a + 1 <= p < a + 1 + Z.of_nat (length l))) as [Hd|Hd].
    + rewrite decide_True by lia. replace (Z.to_nat (p - a)) with (S (Z.to_nat (p - (a + 1)))) by lia. done.
    + rewrite decide_False by lia. by apply lookup_insert_ne.
Qed.

Lemma c_set_mem_id s : c_set_mem (c_mem s) s = s.
Proof. by destruct s. Qed.

Lemma wp_stn l s a (Q : unit -> cmem -> Prop) :
  Forall isbyte l -> (∀ i, 0 <= i < Z.of_nat (length l) -> is_Some (c_mem s !! (a + i))) ->
  Q tt (c_set_mem (blit a l (c_mem s)) s) -> wp (stn (length l) a (word l)) s Q.
Proof.
  intros Hl. revert s a. induction Hl as [|b l Hb Hl IH]; intros s a Hm HQ; cbn [length stn].
  { simpl in HQ. rewrite c_set_mem_id in HQ. by apply wp_ret. }
  cbn [word foldr]. fold (word l). unfold isbyte in Hb. wp_step. destruct (Hm 0) as [x Hx]; [simpl; lia|].
  rewrite Z.add_0_r in Hx. eapply wp_stb; [done|].
  replace ((b + 256 * word l) / 256) with (word l) by zlia. replace (u8 (b + 256 * word l)) with b by (unfold u8; zlia).
  apply IH; [|done]. intros i Hi. cbn [c_mem c_set_mem]. destruct (decide (a = a + 1 + i)) as [He|Hne]; [rewrite <- He, lookup_insert_eq; eauto|].
  rewrite lookup_insert_ne by done. replace (a + 1 + i) with (a + (i + 1)) by lia. apply Hm. simpl. lia.
Qed.

(** The first [n] bytes at [d] are what was at [s]. *)
Definition moved (m : gmap Z Z) (d s n : Z) (m' : gmap Z Z) : Prop :=
  ∀ p, m' !! p = if decide (d <= p < d + n) then m !! (s + (p - d)) else m !! p.

(** A block of bytes copied in one go extends the copy upwards. *)
Lemma moved_up m d s k m' l : 0 <= k -> moved m d s k m' ->
  (∀ i, 0 <= i < Z.of_nat (length l) -> m !! (s + (k + i)) = Some (l !!! Z.to_nat i)) ->
  moved m d s (k + Z.of_nat (length l)) (blit (d + k) l m').
Proof.
  intros Hk Hm Hl p. rewrite lookup_blit, Hm. destruct (decide (d + k <= p < d + k + Z.of_nat (length l))) as [Hd|Hd].
  - rewrite decide_True by lia. rewrite <- Hl by lia. f_equal. lia.
  - destruct (decide (d <= p < d + k)); [by rewrite decide_True by lia|by rewrite decide_False by lia].
Qed.

Lemma wp_assoc {A B C} (c : M cmem A) (f : A -> M cmem B) (g : B -> M cmem C) s Q :
  wp ((c ≫= f) ≫= g) s Q -> wp (c ≫= λ x, f x ≫= g) s Q.
Proof. unfold wp, mbind, M_bind. by destruct (c s). Qed.

Lemma peekl_lookup s k a i : (i < k)%nat -> peekl s k a !!! i = peek s (a + Z.of_nat i).
Proof.
  revert a i. induction k as [|k IH]; intros a i Hi; [lia|]. destruct i as [|i]; [simpl; by rewrite Z.add_0_r|].
  etrans; [apply (IH (a + 1) i); lia|]. f_equal. lia.
Qed.

Lemma peeks_lookup s a i : 0 <= i < 8 -> peeks s a !!! Z.to_nat i = peek s (a + i).
Proof. intros Hi. unfold peeks. rewrite peekl_lookup by lia. f_equal. lia. Qed.

Section copies.
Context (s0 : cmem) (d s n : Z).
Hypothesis Hok : okmem s0.
Hypothesis Hsrc : ∀ i, 0 <= i < n -> is_Some (c_mem s0 !! (s + i)).
Hypothesis Hdst : ∀ i, 0 <= i < n -> is_Some (c_mem s0 !! (d + i)).
(** An upward copy reads no byte it has written. *)
Hypothesis Hup : d <= s ∨ s + n <= d.

Definition upto (k : Z) (st : cmem) : Prop := 0 <= k <= n ∧ ∃ m, st = c_set_mem m s0 ∧ moved (c_mem s0) d s k m.

Lemma upto_load k st i : upto k st -> k <= i < n -> ∃ b, c_mem st !! (s + i) = Some b ∧ c_mem s0 !! (s + i) = Some b ∧ isbyte b.
Proof.
  intros (Hk & m & -> & Hm) Hi. destruct (Hsrc i) as [b Hb]; [lia|]. exists b. split; [|split; [done|by eapply Hok]].
  simpl. rewrite Hm. rewrite decide_False by lia. done.
Qed.

Lemma upto_dst k st i : upto k st -> k <= i < n -> is_Some (c_mem st !! (d + i)).
Proof. intros (Hk & m & -> & Hm) Hi. simpl. rewrite Hm, decide_False by lia. apply Hdst. lia. Qed.

(** [len l] bytes read at [s + k] and written at [d + k]. *)
Lemma upto_store k st l (Q : unit -> cmem -> Prop) : upto k st -> k + Z.of_nat (length l) <= n ->
  (∀ i, 0 <= i < Z.of_nat (length l) -> c_mem s0 !! (s + (k + i)) = Some (l !!! Z.to_nat i)) ->
  (∀ st', upto (k + Z.of_nat (length l)) st' -> Q tt st') -> wp (stn (length l) (d + k) (word l)) st Q.
Proof.
  intros Hu Hn Hl HQ. apply wp_stn.
  - apply Forall_lookup. intros i b Hb. pose proof (lookup_lt_Some _ _ _ Hb). specialize (Hl (Z.of_nat i) ltac:(lia)).
    rewrite Nat2Z.id, (list_lookup_total_correct _ _ _ Hb) in Hl. by eapply Hok.
  - intros i Hi. rewrite <- Z.add_assoc. apply (upto_dst k st); [done|lia].
  - apply HQ. destruct Hu as (Hk & m & -> & Hm). split; [lia|]. eexists. split; [done|]. cbn [c_mem c_set_mem]. apply moved_up; [lia|done|done].
Qed.

Lemma upto_byte k st (Q : unit -> cmem -> Prop) : upto k st -> k < n -> (∀ st', upto (k + 1) st' -> Q tt st') ->
  wp (b ← ldb (s + k); stb (d + k) b) st Q.
Proof.
  intros Hu Hk HQ. pose proof Hu as [Hr _]. destruct (upto_load k st k Hu) as (b & Hb & Hb0 & Hby); [lia|]. wp_step. eapply wp_ldb; [done|].
  destruct (upto_dst k st k Hu) as [x Hx]; [lia|]. eapply wp_stb; [done|]. rewrite (Z.mod_small b 256 Hby : u8 b = b). apply HQ.
  destruct Hu as (_ & m & -> & Hm). split; [lia|]. eexists. split; [done|]. cbn [c_mem c_set_mem].
  apply (moved_up _ _ _ _ _ [b]); [lia|done|]. intros i Hi. simpl in Hi. replace i with 0 by lia. by rewrite Z.add_0_r.
Qed.
(** The last loop of the upward copies, from byte [k] on. *)
Lemma wp_copy_bytes r k st (Q : unit -> cmem -> Prop) : upto k st -> k + Z.of_nat r = n -> (∀ st', upto n st' -> Q tt st') ->
  wp (copy_loop 1 r (d + k) (s + k)) st Q.
Proof.
  revert k st. induction r as [|r IH]; intros k st Hu Hr HQ; cbn [copy_loop].
  { apply wp_ret, HQ. by replace n with k by lia. }
  destruct (upto_load k st k Hu) as (b & Hb & Hb0 & Hby); [destruct Hu; lia|]. wp_step. cbn [ldn]. wp_step. eapply wp_ldb; [done|]. wp_auto.
  change (b + 256 * 0) with (word [b]). apply (upto_store k st [b]); [done|simpl; lia| |].
  - intros i Hi. simpl in Hi. replace i with 0 by lia. by rewrite Z.add_0_r.
  - intros st' Hu'. simpl in Hu'. rewrite <- !Z.add_assoc. change (Z.of_nat 1) with 1. apply IH; [done|lia|done].
Qed.

(** Words, while eight bytes are left. *)
Lemma wp_copy_words k st (Q : Z * Z * Z -> cmem -> Prop) : upto k st ->
  (∀ j st', upto j st' -> Q (d + j, s + j, n - j) st') ->
  wp (iter (S (Z.to_nat (n - k))) (λ '(d, s, n),
    if decide (n < 8) then mret (inr (d, s, n)) else
    x ← ldw s; stw d x;; mret (inl (d + 8, s + 8, n - 8))) (d + k, s + k, n - k)) st Q.
Proof.
  intros Hu HQ. apply (wp_iter (λ x st, ∃ j, x = (d + j, s + j, n - j) ∧ upto j st) (λ x, Z.to_nat x.2)); [eauto|simpl; lia|].
  intros x st' (j & -> & Hj). case_decide as Hlt; [by apply wp_ret, HQ|]. pose proof Hj as [Hr _].
  destruct (upto_load j st' j Hj) as (b & Hb & _); [lia|]. wp_step. eapply wp_ldw; [done|]. wp_step.
  assert (length (peeks st' (s + j)) = 8%nat) as Hl by done. unfold stw. rewrite <- Hl. apply (upto_store j st'); [done|lia| |].
  - rewrite Hl. intros i Hi. destruct (upto_load j st' (j + i) Hj) as (c & Hc & Hc0 & _); [lia|]. rewrite Hc0. f_equal.
    rewrite peeks_lookup by lia. rewrite <- (peek_at _ _ _ Hc). f_equal. lia.
  - rewrite Hl. intros st2 Hu2. apply wp_ret. split; [|simpl; lia]. exists (j + 8). split; [f_equal; [f_equal; lia|lia]|done].
Qed.

(** Bytes up to the next word. *)
Lemma wp_copy_align k st x (Q : option (Z * Z * Z) -> cmem -> Prop) : x = (d + k, s + k, n - k) -> upto k st ->
  (∀ j st', upto j st' -> Q (Some (d + j, s + j, n - j)) st') -> (∀ st', upto n st' -> Q None st') ->
  wp (iter 9 (λ '(d, s, n),
      if decide (d mod 8 = 0) then mret (inr (Some (d, s, n))) else
      if decide (n = 0) then mret (inr None) else
      b ← ldb s; stb d b;; mret (inl (d + 1, s + 1, n - 1))) x) st Q.
Proof.
  intros -> Hu HQ HN. apply (wp_iter (λ x st, ∃ j, x = (d + j, s + j, n - j) ∧ upto j st) (λ x, Z.to_nat ((- x.1.1) mod 8))); [eauto|simpl; zlia|].
  intros x st' (j & -> & Hj). case_decide as Hal; [by apply wp_ret, HQ|]. case_decide as H0; [apply wp_ret, HN; by replace n with j by lia|].
  pose proof Hj as [Hr _]. apply wp_assoc. wp_step. apply (upto_byte j st'); [done|lia|]. intros st2 Hu2. apply wp_ret.
  split; [|simpl; zlia]. exists (j + 1). split; [f_equal; [f_equal; lia|lia]|done].
Qed.

Lemma wp_memmove_up (Q : Z -> cmem -> Prop) : 0 <= n -> (∀ st', upto n st' -> Q d st') -> wp (memmove_up d s n) s0 Q.
Proof.
  intros Hn HQ. assert (upto 0 s0) as Hu.
  { split; [lia|]. exists (c_mem s0). split; [by rewrite c_set_mem_id|]. intros p. by rewrite decide_False by lia. }
  assert (∀ j st', upto j st' -> wp (copy_loop 1 (Z.to_nat (n - j)) (d + j) (s + j);; mret d) st' Q) as Hend.
  { intros j st' Hj. wp_step. apply (wp_copy_bytes _ j); [done|destruct Hj; lia|]. intros st2 H2. by apply wp_ret, HQ. }
  unfold memmove_up. wp_step. case_decide as Hal.
  - wp_step. apply (wp_copy_align 0); [by rewrite Z.sub_0_r, !Z.add_0_r|done| |].
    + intros j st' Hj. apply wp_fmap. apply wp_copy_words; [done|]. intros i st2 Hi. by apply Hend.
    + intros st' Hj. apply wp_ret. apply wp_ret. by apply HQ.
  - apply wp_ret. pose proof (Hend 0 s0 Hu) as He. by rewrite Z.sub_0_r, !Z.add_0_r in He.
Qed.
End copies.

(** A block of bytes copied in one go extends the copy downwards. *)
Lemma moved_down m d s n j m' l : 0 <= j -> j + Z.of_nat (length l) <= n ->
  moved m (d + (j + Z.of_nat (length l))) (s + (j + Z.of_nat (length l))) (n - (j + Z.of_nat (length l))) m' ->
  (∀ i, 0 <= i < Z.of_nat (length l) -> m !! (s + (j + i)) = Some (l !!! Z.to_nat i)) ->
  moved m (d + j) (s + j) (n - j) (blit (d + j) l m').
Proof.
  intros Hj Hn Hm Hl p. rewrite lookup_blit, Hm. destruct (decide (d + j <= p < d + j + Z.of_nat (length l))) as [Hd|Hd].
  - rewrite decide_True by lia. rewrite <- Hl by lia. f_equal. lia.
  - destruct (decide (d + (j + Z.of_nat (length l)) <= p < _)) as [Hd2|Hd2].
    + rewrite decide_True by lia. f_equal. lia.
    + by rewrite decide_False by lia.
Qed.

Section copies_down.
Context (s0 : cmem) (d s n : Z).
Hypothesis Hok : okmem s0.
Hypothesis Hsrc : ∀ i, 0 <= i < n -> is_Some (c_mem s0 !! (s + i)).
Hypothesis Hdst : ∀ i, 0 <= i < n -> is_Some (c_mem s0 !! (d + i)).
Hypothesis Hdown : s <= d.

(** The bytes from [k] on are copied. *)
Definition from (k : Z) (st : cmem) : Prop :=
  0 <= k <= n ∧ ∃ m, st = c_set_mem m s0 ∧ moved (c_mem s0) (d + k) (s + k) (n - k) m.

Lemma from_load k st i : from k st -> 0 <= i < k -> ∃ b, c_mem st !! (s + i) = Some b ∧ c_mem s0 !! (s + i) = Some b ∧ isbyte b.
Proof.
  intros (Hk & m & -> & Hm) Hi. destruct (Hsrc i) as [b Hb]; [lia|]. exists b. split; [|split; [done|by eapply Hok]].
  simpl. rewrite Hm. rewrite decide_False by lia. done.
Qed.

Lemma from_dst k st i : from k st -> 0 <= i < k -> is_Some (c_mem st !! (d + i)).
Proof. intros (Hk & m & -> & Hm) Hi. simpl. rewrite Hm, decide_False by lia. apply Hdst. lia. Qed.

Lemma from_store j st l (Q : unit -> cmem -> Prop) : from (j + Z.of_nat (length l)) st -> 0 <= j ->
  (∀ i, 0 <= i < Z.of_nat (length l) -> c_mem s0 !! (s + (j + i)) = Some (l !!! Z.to_nat i)) ->
  (∀ st', from j st' -> Q tt st') -> wp (stn (length l) (d + j) (word l)) st Q.
Proof.
  intros Hu Hj Hl HQ. apply wp_stn.
  - apply Forall_lookup. intros i b Hb. pose proof (lookup_lt_Some _ _ _ Hb). specialize (Hl (Z.of_nat i) ltac:(lia)).
    rewrite Nat2Z.id, (list_lookup_total_correct _ _ _ Hb) in Hl. by eapply Hok.
  - intros i Hi. rewrite <- Z.add_assoc. eapply from_dst; [done|lia].
  - apply HQ. destruct Hu as (Hk & m & -> & Hm). split; [lia|]. eexists. split; [done|]. cbn [c_mem c_set_mem]. apply moved_down; [lia|lia|done|done].
Qed.

Lemma from_byte j st (Q : unit -> cmem -> Prop) : from (j + 1) st -> 0 <= j -> (∀ st', from j st' -> Q tt st') ->
  wp (b ← ldb (s + j); stb (d + j) b) st Q.
Proof.
  intros Hu Hj HQ. destruct (from_load _ st j Hu) as (b & Hb & Hb0 & Hby); [lia|]. wp_step. eapply wp_ldb; [done|].
  destruct (from_dst _ st j Hu) as [x Hx]; [lia|]. eapply wp_stb; [done|]. rewrite (Z.mod_small b 256 Hby : u8 b = b). apply HQ.
  destruct Hu as (? & m & -> & Hm). split; [lia|]. eexists. split; [done|]. cbn [c_mem c_set_mem].
  apply (moved_down _ _ _ _ _ _ [b]); [lia|simpl; lia|done|]. intros i Hi. simpl in Hi. replace i with 0 by lia. by rewrite Z.add_0_r.
Qed.

Lemma wp_down_bytes r st (Q : unit -> cmem -> Prop) : from (Z.of_nat r) st -> (∀ st', from 0 st' -> Q tt st') ->
  wp (copy_down r d s) st Q.
Proof.
  revert st. induction r as [|r IH]; intros st Hu HQ; cbn [copy_down]; [by apply wp_ret, HQ|].
  apply wp_assoc. wp_step. apply from_byte; [by replace (Z.of_nat r + 1) with (Z.of_nat (S r)) by lia|lia|]. intros st' Hu'. by apply IH.
Qed.

Lemma wp_down_words k st (Q : Z -> cmem -> Prop) : from k st -> (∀ j st', from j st' -> Q j st') ->
  wp (iter (S (Z.to_nat k)) (λ n,
    if decide (n < 8) then mret (inr n) else
    x ← ldw (s + (n - 8)); stw (d + (n - 8)) x;; mret (inl (n - 8))) k) st Q.
Proof.
  intros Hu HQ. apply (wp_iter (λ j st, from j st) Z.to_nat); [done|lia|].
  intros j st' Hj. case_decide as Hlt; [by apply wp_ret, HQ|]. pose proof Hj as [Hr _].
  destruct (from_load j st' (j - 8) Hj) as (b & Hb & _); [lia|]. wp_step. eapply wp_ldw; [done|]. wp_step.
  assert (length (peeks st' (s + (j - 8))) = 8%nat) as Hl by done. unfold stw. rewrite <- Hl.
  apply from_store; rewrite ?Hl; [by replace (j - 8 + Z.of_nat 8) with j by lia|lia| |].
  - intros i Hi. destruct (from_load j st' (j - 8 + i) Hj) as (c & Hc & Hc0 & _); [lia|]. rewrite Hc0. f_equal.
    rewrite peeks_lookup by lia. rewrite <- (peek_at _ _ _ Hc). f_equal. lia.
  - intros st2 Hu2. apply wp_ret. split; [done|lia].
Qed.

Lemma wp_down_align k st (Q : option Z -> cmem -> Prop) : from k st ->
  (∀ j st', from j st' -> Q (Some j) st') -> (∀ st', from 0 st' -> Q None st') ->
  wp (iter 9 (λ n,
      if decide ((d + n) mod 8 = 0) then mret (inr (Some n)) else
      if decide (n = 0) then mret (inr None) else
      b ← ldb (s + (n - 1)); stb (d + (n - 1)) b;; mret (inl (n - 1))) k) st Q.
Proof.
  intros Hu HQ HN. apply (wp_iter (λ j st, from j st) (λ j, Z.to_nat ((d + j) mod 8))); [done|zlia|].
  intros j st' Hj. case_decide as Hal; [by apply wp_ret, HQ|]. case_decide as H0; [subst j; by apply wp_ret, HN|].
  pose proof Hj as [Hr _]. apply wp_assoc. wp_step. apply from_byte; [by replace (j - 1 + 1) with j by lia|lia|]. intros st2 Hu2. apply wp_ret.
  split; [done|zlia].
Qed.

Lemma wp_memmove_down (Q : Z -> cmem -> Prop) : 0 <= n -> (∀ st', from 0 st' -> Q d st') -> wp (memmove_down d s n) s0 Q.
Proof.
  intros Hn HQ. assert (from n s0) as Hu.
  { split; [lia|]. exists (c_mem s0). split; [by rewrite c_set_mem_id|]. intros p. by rewrite decide_False by lia. }
  assert (∀ j st', from j st' -> wp (copy_down (Z.to_nat j) d s;; mret d) st' Q) as Hend.
  { intros j st' Hj. wp_step. apply wp_down_bytes; [rewrite Z2Nat.id by (destruct Hj; lia); done|]. intros st2 H2. by apply wp_ret, HQ. }
  unfold memmove_down. wp_step. case_decide as Hal.
  - wp_step. apply wp_down_align; [done| |].
    + intros j st' Hj. apply wp_fmap. apply wp_down_words; [done|]. intros i st2 Hi. by apply Hend.
    + intros st' Hj. apply wp_ret. apply wp_ret. by apply HQ.
  - apply wp_ret. by apply Hend.
Qed.
End copies_down.

(** C24. [memmove] of mapped bytes, whatever the overlap and the alignment:
    the destination holds what the source held before, nothing else changes. *)
Theorem memmove_correct s dest src n :
  okmem s -> 0 <= n -> 0 <= src -> 0 <= dest -> src + n < two64 -> dest + n < two64 ->
  (∀ i, 0 <= i < n -> is_Some (c_mem s !! (src + i)) ∧ is_Some (c_mem s !! (dest + i))) ->
  wp (memmove dest src n) s (λ r s', r = dest ∧ ∃ m, s' = c_set_mem m s ∧
    ∀ p, m !! p = if decide (dest <= p < dest + n) then c_mem s !! (src + (p - dest)) else c_mem s !! p).
Proof.
  intros Hok Hn Hs0 Hd0 Hs Hd Hm. assert (∀ i, 0 <= i < n -> is_Some (c_mem s !! (src + i))) as Hsrc by (intros; by apply Hm).
  assert (∀ i, 0 <= i < n -> is_Some (c_mem s !! (dest + i))) as Hdst by (intros; by apply Hm).
  unfold memmove. case_decide as He.
  { apply wp_ret. split; [done|]. exists (c_mem s). split; [by rewrite c_set_mem_id|]. intros p. case_decide; [|done]. f_equal. lia. }
  rewrite !u64_small by (unfold in_u64; lia). case_decide as Hno.
  { unfold memcpy. wp_step. pose proof (wp_copy_bytes s dest src n Hok Hsrc Hdst ltac:(lia) (Z.to_nat n) 0 s) as Hc.
    rewrite !Z.add_0_r in Hc. apply Hc; [|lia|].
    - split; [lia|]. exists (c_mem s). split; [by rewrite c_set_mem_id|]. intros p. by rewrite decide_False by lia.
    - intros st' (_ & m & -> & Hmv). apply wp_ret. split; [done|]. by exists m. }
  case_decide as Hlt.
  - apply wp_memmove_up; [done..|lia|done|]. intros st' (_ & m & -> & Hmv). split; [done|]. by exists m.
  - apply wp_memmove_down; [done..|lia|done|]. intros st' (_ & m & -> & Hmv). split; [done|]. exists m. split; [done|].
    intros p. rewrite Hmv. rewrite !Z.add_0_r, Z.sub_0_r. done.
Qed.

(** ** Substrings *)

(** The index of the first occurrence of [ns] in [l]. *)
Fixpoint find_sub (ns l : list Z) : option nat :=
  if decide (take (length ns) l = ns) then Some O else
  match l with [] => None | _ :: l => S <$> find_sub ns l end.

Definition occurs (ns l : list Z) (i : nat) : Prop := take (length ns) (drop i l) = ns.

Lemma find_sub_first ns l i : (i <= length l)%nat -> occurs ns l i -> (∀ j, (j < i)%nat -> ¬ occurs ns l j) -> find_sub ns l = Some i.
Proof.
  revert i. induction l as [|b l IH]; intros i Hi Ho Hn; simpl.
  - simpl in Hi. replace i with O in * by lia. by rewrite decide_True.
  - destruct i as [|i]; [by rewrite decide_True|]. rewrite decide_False by (apply (Hn O); lia).
    simpl in Hi. rewrite (IH i); [done|lia|done|]. intros j Hj. apply (Hn (S j)). lia.
Qed.

Lemma find_sub_none ns l : (∀ j, (j <= length l)%nat -> ¬ occurs ns l j) -> find_sub ns l = None.
Proof.
  induction l as [|b l IH]; intros Hn; simpl.
  - rewrite decide_False by (apply (Hn O); simpl; lia). done.
  - rewrite decide_False by (apply (Hn O); simpl; lia). rewrite IH; [done|]. intros j Hj. apply (Hn (S j)). simpl. lia.
Qed.

Lemma occurs_length ns l i : occurs ns l i -> ns ≠ [] -> (i + length ns <= length l)%nat.
Proof.
  intros Ho Hne. apply (f_equal length) in Ho. rewrite length_take, length_drop in Ho.
  assert (length ns ≠ 0)%nat by (by destruct ns). lia.
Qed.

(** The search with a sliding window of [length ns] bytes, encoded by [enc]. *)
Section window.
Context (enc : list Z -> Z) (next : Z -> Z -> Z) (ns : list Z).
Let w := length ns.
Hypothesis Hw : (0 < w)%nat.
Hypothesis Henc : ∀ k, length k = w -> Forall isbyte k -> enc k = enc ns -> k = ns.
Hypothesis Hnext : ∀ b k x, length (b :: k) = w -> Forall isbyte (b :: k) -> isbyte x -> next (enc (b :: k)) x = enc (k ++ [x]).

Lemma window_shift (l : list Z) i b k : take w (drop i l) = b :: k -> (i + w < length l)%nat ->
  take w (drop (S i) l) = k ++ [l !!! (i + w)%nat].
Proof.
  intros Ht Hi. apply list_eq_same_length with w.
  - apply (f_equal length) in Ht. rewrite length_take, length_drop in Ht. rewrite length_app. cbn [length] in *. lia.
  - rewrite length_take, length_drop. lia.
  - intros j x y Hj Hx Hy. apply lookup_take_Some in Hx as [Hx _]. rewrite lookup_drop in Hx.
    destruct (decide (S j = w)) as [He|Hne].
    + assert (length k = j) as Hk.
      { apply (f_equal length) in Ht. rewrite length_take, length_drop in Ht. cbn [length] in Ht. lia. }
      rewrite lookup_app_r in Hy by lia. replace (j - length k)%nat with O in Hy by lia. simpl in Hy. injection Hy as <-.
      replace (i + w)%nat with (S i + j)%nat by lia. by rewrite (list_lookup_total_correct _ _ _ Hx).
    + assert (length k = w - 1)%nat as Hk.
      { apply (f_equal length) in Ht. rewrite length_take, length_drop in Ht. cbn [length] in Ht. lia. }
      rewrite lookup_app_l in Hy by lia. assert ((b :: k) !! S j = Some y) as Hy' by done. rewrite <- Ht in Hy'.
      apply lookup_take_Some in Hy' as [Hy' _]. rewrite lookup_drop in Hy'. replace (i + S j)%nat with (S i + j)%nat in Hy' by lia. congruence.
Qed.

Lemma wp_window s a l (Q : Z -> cmem -> Prop) :
  cstr (c_mem s) a l -> Forall (λ c, 0 < c < 256) ns -> (w <= length l)%nat ->
  Q (match find_sub ns l with Some i => a + Z.of_nat i | None => 0 end) s ->
  wp (scan (λ '(h, hw),
    b ← ldb h;
    if decide (b ≠ 0 ∧ hw ≠ enc ns) then x ← ldb (h + 1); mret (inl (h + 1, next hw x))
    else mret (inr (if decide (b ≠ 0) then h - (Z.of_nat w - 1) else 0))) (a + (Z.of_nat w - 1), enc (take w l))) s Q.
Proof.
  intros Hs Hns Hl HQ. set (l0 := l ++ [0]).
  assert (Forall isbyte l0) as Hby.
  { destruct Hs as [Hl0 _]. apply Forall_app. split; [|by rewrite Forall_singleton]. eapply Forall_impl; [done|]. intros x ?. unfold isbyte. simpl in *. lia. }
  assert (length l0 = S (length l)) as Hlen by (unfold l0; rewrite length_app; simpl; lia).
  assert (∀ i, (i < length l0)%nat -> c_mem s !! (a + Z.of_nat i) = Some (l0 !!! i)) as Hm by apply Hs.
  apply (wp_scan (λ x s', s' = s ∧ ∃ i, x = (a + Z.of_nat i + (Z.of_nat w - 1), enc (take w (drop i l0))) ∧ (i + w <= length l0)%nat ∧
      ∀ j, (j < i)%nat -> ¬ occurs ns l j) (λ x, Z.to_nat (a + Z.of_nat (length l) - x.1))).
  - split; [done|]. exists O. split_and!; [|lia|lia]. rewrite drop_0. unfold l0. rewrite take_app_le by lia. f_equal. lia.
  - simpl. pose proof (cstr_size _ _ _ Hs). lia.
  - intros x s' (-> & i & -> & Hi & Hn). wp_step.
    eapply wp_ldb; [replace (a + Z.of_nat i + (Z.of_nat w - 1)) with (a + Z.of_nat (i + w - 1)%nat) by lia; apply Hm; lia|].
    assert (∀ b, b = l0 !!! (i + w - 1)%nat -> (b ≠ 0 <-> (i + w <= length l)%nat)) as Hb.
    { intros b ->. split.
      - intros Hne. destruct (decide (i + w <= length l)%nat) as [|Hgt]; [done|]. destruct Hne. unfold l0.
        rewrite lookup_total_app_r by lia. replace (i + w - 1 - length l)%nat with O by lia. done.
      - intros Hle. unfold l0. rewrite lookup_total_app_l by lia.
        destruct (cstr_at _ _ _ Hs (Z.of_nat (i + w - 1))) as [_ Hr]; [lia|]. rewrite Nat2Z.id in Hr. lia. }
    specialize (Hb _ eq_refl). set (b := l0 !!! (i + w - 1)%nat) in *.
    assert ((i + w <= length l)%nat -> take w (drop i l0) = take w (drop i l)) as Hin.
    { intros Hle. unfold l0. rewrite drop_app_le by lia. rewrite take_app_le; [done|]. rewrite length_drop. lia. }
    assert (length (take w (drop i l0)) = w) as Htl by (rewrite length_take, length_drop; lia).
    assert (Forall isbyte (take w (drop i l0))) as Htb by by apply Forall_take, Forall_drop.
    case_decide as Hd.
    + destruct Hd as [Hb0 Hne]. apply Hb in Hb0 as Hle. wp_step.
      eapply wp_ldb; [replace (a + Z.of_nat i + (Z.of_nat w - 1) + 1) with (a + Z.of_nat (i + w)%nat) by lia; apply Hm; lia|]. apply wp_ret.
      assert (¬ occurs ns l i) as Hno by (intros Ho; apply Hne; rewrite Hin by done; unfold occurs in Ho; fold w in Ho; by rewrite Ho).
      split; [|simpl; lia]. split; [done|]. exists (S i). split; [|split; [lia|intros j Hj; destruct (decide (j = i)) as [->|]; [done|apply Hn; lia]]].
      destruct (take w (drop i l0)) as [|c k] eqn:Ht; [simpl in Htl; lia|].
      rewrite (window_shift l0 i c k Ht) by lia. rewrite Hnext; [f_equal; lia|done|done|].
      rewrite Forall_lookup in Hby. eapply Hby. apply list_lookup_lookup_total_lt. lia.
    + apply wp_ret. destruct (decide (b ≠ 0)) as [Hb0|Hb0].
      * apply Hb in Hb0 as Hle. assert (enc (take w (drop i l0)) = enc ns) as He by (destruct (decide (enc (take w (drop i l0)) = enc ns)); naive_solver).
        apply Henc in He; [|done|done]. rewrite Hin in He by done. rewrite (find_sub_first ns l i) in HQ; [|lia|done|done].
        by replace (a + Z.of_nat i + (Z.of_nat w - 1) - (Z.of_nat w - 1)) with (a + Z.of_nat i) by lia.
      * rewrite find_sub_none in HQ; [done|]. intros j Hj Ho. destruct (decide (j < i)%nat) as [Hlt|Hge]; [by apply (Hn j)|].
        apply occurs_length in Ho; [|intros Hnil; unfold w in Hw; rewrite Hnil in Hw; simpl in Hw; lia]. fold w in Ho. apply Hb0, Hb. lia.
Qed.
End window.

Lemma lor_shift8 a b : isbyte b -> Z.lor (Z.shiftl a 8) b = b + 256 * a.
Proof.
  intros Hb. apply Z.bits_inj'. intros k Hk. rewrite Z.lor_spec, Z.shiftl_spec, testbit_base by done. case_decide as Hd.
  - by rewrite Z.testbit_neg_r by lia.
  - rewrite (Z.bits_above_log2 b k), orb_false_r; [done|unfold isbyte in Hb; lia|]. destruct Hb as [Hb1 Hb2]. apply byte_log2 in Hb2; [lia|done].
Qed.

Definition enc2 (k : list Z) : Z := match k with [a; b] => Z.lor (Z.shiftl a 8) b | _ => 0 end.
Definition enc3 (k : list Z) : Z :=
  match k with [a; b; c] => Z.lor (Z.lor (Z.shiftl a 24) (Z.shiftl b 16)) (Z.shiftl c 8) | _ => 0 end.
Definition enc4 (k : list Z) : Z :=
  match k with [a; b; c; d] => Z.lor (Z.lor (Z.lor (Z.shiftl a 24) (Z.shiftl b 16)) (Z.shiftl c 8)) d | _ => 0 end.

Lemma enc2_val a b : isbyte b -> enc2 [a; b] = b + 256 * a.
Proof. apply lor_shift8. Qed.
Lemma enc3_val a b c : isbyte b -> isbyte c -> enc3 [a; b; c] = 256 * (c + 256 * (b + 256 * a)).
Proof.
  intros Hb Hc. unfold enc3. change 24 with (8 + 8 + 8). change 16 with (8 + 8).
  rewrite <- !Z.shiftl_shiftl, <- !Z.shiftl_lor, !lor_shift8 by done. rewrite Z.shiftl_mul_pow2 by done. change (2 ^ 8) with 256. lia.
Qed.
Lemma enc4_val a b c d : isbyte b -> isbyte c -> isbyte d -> enc4 [a; b; c; d] = d + 256 * (c + 256 * (b + 256 * a)).
Proof.
  intros Hb Hc Hd. pose proof (enc3_val a b c Hb Hc) as He. unfold enc3 in He. unfold enc4. rewrite He.
  rewrite <- (lor_shift8 (c + 256 * (b + 256 * a)) d) by done. f_equal. rewrite Z.shiftl_mul_pow2 by done. change (2 ^ 8) with 256. lia.
Qed.

Lemma find_sub_skip ns l i : (i <= length l)%nat -> (∀ j, (j < i)%nat -> ¬ occurs ns l j) -> find_sub ns l = Nat.add i <$> find_sub ns (drop i l).
Proof.
  revert l. induction i as [|i IH]; intros l Hi Hn; [rewrite drop_0; by destruct (find_sub ns l)|].
  destruct l as [|b l]; [simpl in Hi; lia|]. cbn [find_sub drop]. rewrite decide_False by (apply (Hn O); lia).
  rewrite (IH l); [by destruct (find_sub ns (drop i l))|simpl in Hi; lia|]. intros j Hj. apply (Hn (S j)). lia.
Qed.

Lemma occurs_head n0 ns l j : occurs (n0 :: ns) l j -> l !! j = Some n0.
Proof. unfold occurs. intros Ho. simpl in Ho. destruct (drop j l) as [|b t] eqn:E; [done|]. injection Ho as -> _. by rewrite <- (Nat.add_0_r j), <- lookup_drop, E. Qed.

Lemma lor_256 a x : isbyte x -> Z.lor (256 * a) x = x + 256 * a.
Proof. intros Hx. rewrite <- lor_shift8 by done. f_equal. rewrite Z.shiftl_mul_pow2 by done. change (2 ^ 8) with 256. lia. Qed.

Definition sub_at (h : Z) (ns l : list Z) : Z := match find_sub ns l with Some i => h + Z.of_nat i | None => 0 end.

Ltac bytes_lia := unfold isbyte, u16, u32 in *; zlia.

Lemma wp_strstr_2b s h n n0 n1 l (Q : Z -> cmem -> Prop) :
  cstr (c_mem s) h l -> cstr (c_mem s) n [n0; n1] -> (2 <= length l)%nat -> Q (sub_at h [n0; n1] l) s -> wp (strstr_2b h n) s Q.
Proof.
  intros Hs Hn Hl HQ. pose proof Hn as [Hns _]. destruct l as [|h0 [|h1 l]]; [simpl in Hl; lia..|].
  apply cstr_cons in Hn as (? & N0 & Hn). apply cstr_cons in Hn as (? & N1 & Hn).
  pose proof Hs as (? & M0 & Hs')%cstr_cons. apply cstr_cons in Hs' as (? & M1 & _).
  unfold strstr_2b. wp_step. eapply wp_ldb; [done|]. wp_step. eapply wp_ldb; [done|]. wp_step. eapply wp_ldb; [done|].
  wp_step. eapply wp_ldb; [done|]. refine (wp_window enc2 (λ hw x, u16 (Z.lor (Z.shiftl hw 8) x)) [n0; n1] _ _ _ s h (h0 :: h1 :: l) Q Hs Hns _ HQ); [simpl; lia| | |simpl; lia].
  - intros [|a [|b [|]]] Hk Hb He; try done. repeat (apply Forall_cons in Hb as [? Hb]). rewrite !enc2_val in He by bytes_lia. f_equal; [|f_equal]; bytes_lia.
  - intros a [|b [|]] x Hk Hb Hx; try done. repeat (apply Forall_cons in Hb as [? Hb]). simpl app. rewrite !enc2_val, lor_shift8 by done. bytes_lia.
Qed.

Lemma wp_strstr_3b s h n n0 n1 n2 l (Q : Z -> cmem -> Prop) :
  cstr (c_mem s) h l -> cstr (c_mem s) n [n0; n1; n2] -> (3 <= length l)%nat -> Q (sub_at h [n0; n1; n2] l) s -> wp (strstr_3b h n) s Q.
Proof.
  intros Hs Hn Hl HQ. pose proof Hn as [Hns _]. destruct l as [|h0 [|h1 [|h2 l]]]; [simpl in Hl; lia..|].
  apply cstr_cons in Hn as (? & N0 & Hn). apply cstr_cons in Hn as (? & N1 & Hn). apply cstr_cons in Hn as (? & N2 & Hn).
  pose proof Hs as (? & M0 & Hs')%cstr_cons. apply cstr_cons in Hs' as (? & M1 & Hs'). apply cstr_cons in Hs' as (? & M2 & _).
  rewrite <- Z.add_assoc in N2, M2.
  unfold strstr_3b. wp_step. eapply wp_ldb; [done|]. wp_step. eapply wp_ldb; [done|]. wp_step. eapply wp_ldb; [done|].
  wp_step. eapply wp_ldb; [done|]. wp_step. eapply wp_ldb; [done|]. wp_step. eapply wp_ldb; [done|].
  refine (wp_window enc3 (λ hw x, u32 (Z.shiftl (Z.lor hw x) 8)) [n0; n1; n2] _ _ _ s h (h0 :: h1 :: h2 :: l) Q Hs Hns _ HQ); [simpl; lia| | |simpl; lia].
  - intros [|a [|b [|c [|]]]] Hk Hb He; try done. repeat (apply Forall_cons in Hb as [? Hb]). rewrite !enc3_val in He by bytes_lia. f_equal; [|f_equal; [|f_equal]]; bytes_lia.
  - intros a [|b [|c [|]]] x Hk Hb Hx; try done. repeat (apply Forall_cons in Hb as [? Hb]). simpl app. rewrite !enc3_val by done.
    rewrite (lor_256 _ x) by done. rewrite Z.shiftl_mul_pow2 by done. change (2 ^ 8) with 256. bytes_lia.
Qed.

Lemma wp_strstr_4b s h n n0 n1 n2 n3 l (Q : Z -> cmem -> Prop) :
  cstr (c_mem s) h l -> cstr (c_mem s) n [n0; n1; n2; n3] -> (4 <= length l)%nat -> Q (sub_at h [n0; n1; n2; n3] l) s ->
  wp (strstr_4b h n) s Q.
Proof.
  intros Hs Hn Hl HQ. pose proof Hn as [Hns _]. destruct l as [|h0 [|h1 [|h2 [|h3 l]]]]; [simpl in Hl; lia..|].
  apply cstr_cons in Hn as (? & N0 & Hn). apply cstr_cons in Hn as (? & N1 & Hn). apply cstr_cons in Hn as (? & N2 & Hn). apply cstr_cons in Hn as (? & N3 & Hn).
  pose proof Hs as (? & M0 & Hs')%cstr_cons. apply cstr_cons in Hs' as (? & M1 & Hs'). apply cstr_cons in Hs' as (? & M2 & Hs').
  apply cstr_cons in Hs' as (? & M3 & _).
  rewrite <- Z.add_assoc in N2, M2, N3, M3. rewrite <- Z.add_assoc in N3, M3. simpl Z.add in N2, M2, N3, M3.
  unfold strstr_4b. do 8 (wp_step; eapply wp_ldb; [done|]).
  refine (wp_window enc4 (λ hw x, u32 (Z.lor (Z.shiftl hw 8) x)) [n0; n1; n2; n3] _ _ _ s h (h0 :: h1 :: h2 :: h3 :: l) Q Hs Hns _ HQ); [simpl; lia| | |simpl; lia].
  - intros [|a [|b [|c [|d [|]]]]] Hk Hb He; try done. repeat (apply Forall_cons in Hb as [? Hb]). rewrite !enc4_val in He by bytes_lia.
    f_equal; [|f_equal; [|f_equal; [|f_equal]]]; bytes_lia.
  - intros a [|b [|c [|d [|]]]] x Hk Hb Hx; try done. repeat (apply Forall_cons in Hb as [? Hb]). simpl app. rewrite !enc4_val, lor_shift8 by done. bytes_lia.
Qed.

Lemma sub_none h ns l : (length l < length ns)%nat -> sub_at h ns l = 0.
Proof.
  intros Hl. unfold sub_at. rewrite find_sub_none; [done|]. intros j _ Ho. apply occurs_length in Ho; [lia|]. intros ->. simpl in Hl. lia.
Qed.

(** The search may begin at the first occurrence of the first byte. *)
Lemma sub_from_index h n0 ns l : let i := index_of n0 l in
  sub_at h (n0 :: ns) l = if decide (i = length l) then 0 else sub_at (h + Z.of_nat i) (n0 :: ns) (drop i l).
Proof.
  intros i. pose proof (index_of_le n0 l) as Hle. fold i in Hle.
  assert (∀ j, (j < i)%nat -> ¬ occurs (n0 :: ns) l j) as Hn.
  { intros j Hj Ho%occurs_head. apply (index_of_before n0 l j); [done|]. by apply list_lookup_total_correct. }
  unfold sub_at. case_decide as Hd.
  - rewrite find_sub_none; [done|]. intros j Hj Ho. apply (Hn j); [|done]. apply occurs_length in Ho; [|done]. simpl in Ho. lia.
  - rewrite (find_sub_skip _ l i) by done. destruct (find_sub (n0 :: ns) (drop i l)) as [k|]; simpl; [lia|done].
Qed.

Lemma find_sub_one b l : find_sub [b] (b :: l) = Some O.
Proof. simpl. by rewrite decide_True. Qed.

(** The bytes of a string after the first, one of which may end it. *)
Lemma cstr_uncons m a l : cstr m a l -> ∃ b, m !! a = Some b ∧ (b = 0 <-> l = []) ∧ (b ≠ 0 -> ∃ l', l = b :: l' ∧ cstr m (a + 1) l').
Proof.
  intros Hs. destruct l as [|b l].
  - exists 0. split; [by apply cstr_nil|done].
  - apply cstr_cons in Hs as (Hb & Hm & Hs). exists b. split; [done|]. split; [split; [lia|done]|]. eauto.
Qed.

(** [strstr] for needles of at most four bytes returns the first
    occurrence of the needle, or [NULL] when there is none. *)
Theorem strstr_short_correct s h n l ns :
  okmem s -> 0 < h -> cstr (c_mem s) h l -> cstr (c_mem s) n ns -> (length ns <= 4)%nat ->
  wp (strstr h n) s (λ r s', s' = s ∧ r = match find_sub ns l with Some i => h + Z.of_nat i | None => 0 end).
Proof.
  intros Hok Hh Hl Hn Hlen. change (match find_sub ns l with Some i => h + Z.of_nat i | None => 0 end) with (sub_at h ns l).
  unfold strstr. wp_step. destruct ns as [|n0 ns].
  { eapply wp_ldb; [by apply cstr_nil|]. rewrite decide_True by done. apply wp_ret. split; [done|]. unfold sub_at.
    rewrite (find_sub_first [] l 0); [simpl; lia|lia|done|lia]. }
  pose proof Hn as (Hb0 & N0 & Hn1)%cstr_cons. eapply wp_ldb; [done|]. rewrite decide_False by lia.
  wp_step. apply (wp_strchr s h l); [done..|]. rewrite schar_u8 by (unfold isbyte; lia). rewrite (sub_from_index h n0 ns l).
  set (i := index_of n0 l). pose proof (index_of_le n0 l) as Hi. fold i in Hi. destruct (decide (i = length l)) as [Hil|Hil].
  { rewrite (decide_True (P := i = length l ∧ n0 ≠ 0)) by lia. rewrite decide_True by done. by apply wp_ret. }
  rewrite (decide_False (P := i = length l ∧ n0 ≠ 0)) by naive_solver. rewrite (decide_False (P := h + Z.of_nat i = 0)) by lia.
  pose proof (cstr_drop _ _ _ (Z.of_nat i) Hl ltac:(lia)) as Hd. rewrite Nat2Z.id in Hd.
  assert (∃ t, drop i l = n0 :: t) as [t Ht].
  { destruct (lookup_lt_is_Some_2 l i) as [x Hx]; [lia|]. rewrite (drop_S _ _ _ Hx). exists (drop (S i) l). f_equal.
    rewrite <- (index_of_at n0 l) by (fold i; lia). by apply list_lookup_total_correct in Hx. }
  rewrite Ht in *. set (g := h + Z.of_nat i) in *. pose proof Hd as (_ & _ & Hd1)%cstr_cons.
  destruct ns as [|n1 ns].
  { wp_step. eapply wp_ldb; [by apply cstr_nil|]. rewrite decide_True by done. apply wp_ret. unfold sub_at. rewrite find_sub_one. split; [done|]. simpl. lia. }
  pose proof Hn1 as (Hb1 & N1 & Hn2)%cstr_cons. wp_step. eapply wp_ldb; [done|]. rewrite decide_False by lia.
  destruct (cstr_uncons _ _ _ Hd1) as (h1 & G1 & Hz1 & Hd2). wp_step. eapply wp_ldb; [done|]. destruct (decide (h1 = 0)) as [E1|E1].
  { apply Hz1 in E1. subst t. apply wp_ret. by rewrite sub_none by (simpl; lia). }
  destruct (Hd2 E1) as (t1 & -> & Hd3). rewrite <- Z.add_assoc in Hd3, Hn2. destruct ns as [|n2 ns].
  { wp_step. eapply wp_ldb; [by apply cstr_nil|]. rewrite decide_True by done. eapply wp_strstr_2b; [done|done|simpl; lia|done]. }
  pose proof Hn2 as (Hb2 & N2 & Hn3)%cstr_cons. wp_step. eapply wp_ldb; [done|]. rewrite decide_False by lia.
  destruct (cstr_uncons _ _ _ Hd3) as (h2 & G2 & Hz2 & Hd4). wp_step. eapply wp_ldb; [done|]. destruct (decide (h2 = 0)) as [E2|E2].
  { apply Hz2 in E2. subst t1. apply wp_ret. by rewrite sub_none by (simpl; lia). }
  destruct (Hd4 E2) as (t2 & -> & Hd5). rewrite <- Z.add_assoc in Hd5, Hn3. destruct ns as [|n3 ns].
  { wp_step. eapply wp_ldb; [by apply cstr_nil|]. rewrite decide_True by done. eapply wp_strstr_3b; [done|done|simpl; lia|done]. }
  pose proof Hn3 as (Hb3 & N3 & Hn4)%cstr_cons. wp_step. eapply wp_ldb; [done|]. rewrite decide_False by lia.
  destruct (cstr_uncons _ _ _ Hd5) as (h3 & G3 & Hz3 & Hd6). wp_step. eapply wp_ldb; [done|]. destruct (decide (h3 = 0)) as [E3|E3].
  { apply Hz3 in E3. subst t2. apply wp_ret. by rewrite sub_none by (simpl; lia). }
  destruct (Hd6 E3) as (t3 & -> & Hd7). rewrite <- Z.add_assoc in Hn4. destruct ns as [|n4 ns]; [|simpl in Hlen; lia].
  wp_step. eapply wp_ldb; [by apply cstr_nil|]. rewrite decide_True by done. eapply wp_strstr_4b; [done|done|simpl; lia|done].
Qed.

(** ** Lengths, searches and comparisons *)

(** [strlen], which reads a word at a time, returns the number of bytes
    before the first 0, whatever the alignment and whatever follows. *)
Theorem strlen_correct s a l :
  okmem s -> cstr (c_mem s) a l -> wp (strlen a) s (λ r s', s' = s ∧ r = Z.of_nat (length l)).
Proof. intros Hok Hs. by apply (wp_strlen s a l). Qed.

(** [memchr], by words, returns the first of the [n] bytes that equals
    [(uint8_t)c], or [NULL]. *)
Theorem memchr_correct s a l c :
  okmem s -> bytes (c_mem s) a l ->
  wp (memchr a c (Z.of_nat (length l))) s (λ r s', s' = s ∧
    (r = 0 ∧ u8 c ∉ l ∨ ∃ i, l !! i = Some (u8 c) ∧ r = a + Z.of_nat i ∧ ∀ j b, (j < i)%nat -> l !! j = Some b -> b ≠ u8 c)).
Proof.
  intros Hok Hb. apply wp_memchr; [done|done|]. intros r Hr. split; [done|]. unfold memchr_result in Hr.
  assert (∀ j b, (j < index_of (u8 c) l)%nat -> l !! j = Some b -> b ≠ u8 c) as Hbefore.
  { intros j b Hj Hl. apply list_lookup_total_correct in Hl. subst b. by apply index_of_before. }
  case_decide as Hd; [left|right].
  - split; [done|]. intros (i & Hi)%list_elem_of_lookup. apply (Hbefore i (u8 c)); [|done|done]. apply lookup_lt_Some in Hi. lia.
  - pose proof (index_of_le (u8 c) l). exists (index_of (u8 c) l). split; [|done].
    rewrite <- (index_of_at (u8 c) l) at 2 by lia. apply list_lookup_lookup_total_lt. lia.
Qed.

(** [strcmp] is 0 for equal strings only, negative when the first string
    comes first in the order of unsigned bytes, and positive otherwise. *)
Theorem strcmp_correct s a b l r :
  cstr (c_mem s) a l -> cstr (c_mem s) b r ->
  wp (strcmp a b) s (λ x s', s' = s ∧ (x = 0 <-> l = r) ∧
    (x < 0 <-> ∃ p y r', r = p ++ y :: r' ∧ (l = p ∨ ∃ z l', l = p ++ z :: l' ∧ z < y))).
Proof.
  intros Hl Hr. apply (wp_strcmp s a b l r); [done..|]. split; [done|].
  split; [apply str_cmp_eq; [apply Hl|apply Hr]|apply str_cmp_lt; [apply Hl|apply Hr]].
Qed.

(** ** Bounded copies *)

(** Where the source string is not overwritten. *)
Definition apart (s t n k : Z) : Prop := t + k < s ∨ s + n <= t.

Lemma blit_snoc a l b m : blit a (l ++ [b]) m = <[a + Z.of_nat (length l) := b]> (blit a l m).
Proof.
  revert a m. induction l as [|c l IH]; intros a m; simpl; [by rewrite Z.add_0_r|]. rewrite IH. f_equal. lia.
Qed.

Lemma bytes_blit a k x m : bytes (blit a (k ++ x) m) a k.
Proof.
  intros i Hi. rewrite lookup_blit, length_app, decide_True by lia. f_equal.
  replace (Z.to_nat (a + Z.of_nat i - a)) with i by lia. by apply lookup_total_app_l.
Qed.

(** C25. [safestrncpy] into a buffer of [n] bytes leaves there the source cut
    to [n - 1] bytes, always with a 0 at the end, and writes nothing else. *)
Theorem safestrncpy_correct s0 s t n l :
  0 < n -> cstr (c_mem s0) t l -> (∀ i, 0 <= i < n -> is_Some (c_mem s0 !! (s + i))) -> apart s t n (Z.of_nat (length l)) ->
  wp (safestrncpy s t n) s0 (λ r s', r = s ∧ cstr (c_mem s') s (take (Z.to_nat (n - 1)) l) ∧
    ∀ p, ¬ s <= p < s + n -> c_mem s' !! p = c_mem s0 !! p).
Proof.
  intros Hn Hl Hd Hap. unfold safestrncpy. rewrite decide_False by lia. wp_step.
  set (at_ := λ j st, st = c_set_mem (blit s (take j l) (c_mem s0)) s0).
  assert (∀ j p, (j <= length l)%nat -> Z.of_nat j < n -> (¬ s <= p < s + n) -> blit s (take j l) (c_mem s0) !! p = c_mem s0 !! p) as Hout.
  { intros j p Hj Hjn Hp. rewrite lookup_blit, decide_False; [done|]. rewrite length_take. lia. }
  assert (∀ j, (j <= length l)%nat -> Z.of_nat j < n -> is_Some (blit s (take j l) (c_mem s0) !! (s + Z.of_nat j))) as Hdj.
  { intros j Hj Hjn. rewrite lookup_blit, decide_False; [apply Hd; lia|]. rewrite length_take. lia. }
  apply (wp_iter (λ x st, ∃ j, x = (s + Z.of_nat j, t + Z.of_nat j, n - Z.of_nat j) ∧ (j <= length l)%nat ∧ Z.of_nat j < n ∧ at_ j st)
    (λ x, Z.to_nat x.2)).
  - exists O. split; [f_equal; [f_equal; lia|lia]|]. split; [lia|]. split; [lia|]. unfold at_. simpl. by rewrite c_set_mem_id.
  - simpl. lia.
  - intros x st (j & -> & Hj & Hjn & ->). destruct (Hdj j Hj Hjn) as [y Hy]. destruct (decide (n - Z.of_nat j - 1 > 0)) as [Hgt|Hle].
    + rewrite decide_False by lia. wp_step. destruct (cstr_byte _ _ _ Hl (Z.of_nat j)) as (b & Hb & Hby & Hiff); [lia|].
      eapply wp_ldb; [simpl; rewrite lookup_blit, decide_False; [done|]; rewrite length_take; unfold apart in Hap; lia|].
      wp_step. eapply wp_stb; [done|]. rewrite (Z.mod_small b 256 Hby : u8 b = b). case_decide as Hb0; apply wp_ret.
      * apply Hiff in Hb0 as Hjl. assert (j = length l) as -> by lia. wp_step. cbn [c_mem c_set_mem].
        destruct (Hd (Z.of_nat (S (length l)))) as [z Hz]; [lia|]. assert (take (length l) l = l) as Htk by (apply take_ge; lia). rewrite Htk in Hy |- *.
        assert (<[s + Z.of_nat (length l) := b]> (blit s l (c_mem s0)) = blit s (l ++ [0]) (c_mem s0)) as He by (rewrite Hb0; symmetry; apply blit_snoc).
        rewrite He. eapply wp_stb.
        { simpl. rewrite lookup_blit, decide_False by (rewrite length_app; simpl; lia). rewrite <- Hz. f_equal. lia. }
        apply wp_ret. split; [done|]. cbn [c_mem c_set_mem]. change (u8 0) with 0.
        replace (s + Z.of_nat (length l) + 1) with (s + Z.of_nat (length (l ++ [0]))) by (rewrite length_app; simpl; lia). rewrite <- blit_snoc.
        rewrite take_ge by lia. split; [split; [apply Hl|apply bytes_blit]|]. intros p Hp. rewrite lookup_blit, decide_False; [done|].
        rewrite !length_app. simpl. lia.
      * split; [|simpl; lia]. assert (j < length l)%nat as Hlt by naive_solver lia. exists (S j). split; [f_equal; [f_equal; lia|lia]|].
        split; [lia|]. split; [lia|]. destruct (cstr_at _ _ _ Hl (Z.of_nat j)) as [Hm _]; [lia|].
        rewrite Hb in Hm. injection Hm as Hm. rewrite Nat2Z.id in Hm. unfold at_. cbn [c_mem c_set_mem].
        rewrite (take_S_r l j b) by (rewrite Hm; apply list_lookup_lookup_total_lt; lia). rewrite blit_snoc, length_take, Nat.min_l by lia. done.
    + rewrite decide_True by lia. apply wp_ret. assert (Z.of_nat j = n - 1) as Hj1 by lia. wp_step. eapply wp_stb; [done|]. apply wp_ret.
      split; [done|]. cbn [c_mem c_set_mem]. change (u8 0) with 0. replace (Z.to_nat (n - 1)) with j by lia.
      replace (s + Z.of_nat j) with (s + Z.of_nat (length (take j l))) by (rewrite length_take; lia). rewrite <- blit_snoc.
      split; [split; [apply Forall_take, Hl|]|].
      * pose proof (bytes_blit s (take j l ++ [0]) [] (c_mem s0)) as Hbb. by rewrite app_nil_r in Hbb.
      * intros p Hp. rewrite lookup_blit, decide_False; [done|]. rewrite length_app, length_take. simpl. lia.
Qed.

(** ** A memory *)

(** " a,bc" at 4097, "," at 4200, eight bytes at 4304. *)
Definition demo_str : list Z := [32; 97; 44; 98; 99].
Definition demo_mem : cmem :=
  CMem (blit 4097 (demo_str ++ [0]) (blit 4200 [44; 0] (blit 4304 [7; 7; 7; 7; 7; 7; 7; 7] ∅))) ∅ ∅ 0 0.

Ltac solve_cstr :=
  split; [apply (bool_decide_unpack _); by vm_compute
         |let i := fresh in let H := fresh in intros i H; simpl in H; do 12 (destruct i as [|i]; [first [by vm_compute|lia]|]); lia].

Lemma demo_mem_ok : okmem demo_mem.
Proof. apply (bool_decide_unpack _). by vm_compute. Qed.
Lemma demo_string : cstr (c_mem demo_mem) 4097 demo_str.
Proof. solve_cstr. Qed.
Lemma demo_delim : cstr (c_mem demo_mem) 4200 [44].
Proof. solve_cstr. Qed.
Lemma demo_buffer i : 0 <= i < 8 -> is_Some (c_mem demo_mem !! (4304 + i)).
Proof.
  intros Hi. assert (i ∈ seqZ 0 8) as Hin by (apply elem_of_seqZ; lia). clear Hi. revert i Hin. apply Forall_forall.
  apply (bool_decide_unpack _). by vm_compute.
Qed.

Lemma strlen_correct_witness : wp (strlen 4097) demo_mem (λ r _, r = 5).
Proof. eapply wp_mono; [apply (strlen_correct demo_mem 4097 demo_str); [apply demo_mem_ok|apply demo_string]|by intros r s' [_ ->]]. Defined.

Lemma memchr_correct_witness : wp (memchr 4097 98 5) demo_mem (λ r _, r = 0 ∨ c_mem demo_mem !! r = Some 98).
Proof.
  eapply wp_mono; [apply (memchr_correct demo_mem 4097 demo_str 98); [apply demo_mem_ok|]|].
  - intros i Hi. do 5 (destruct i as [|i]; [by vm_compute|]). simpl in Hi. lia.
  - intros r s' (_ & [[-> _]|(i & Hi & -> & _)]); [by left|right]. do 5 (destruct i as [|i]; [by vm_compute in Hi |- *|]). done.
Defined.

Lemma strcmp_correct_witness : wp (strcmp 4097 4200) demo_mem (λ x _, x < 0).
Proof.
  eapply wp_mono; [apply (strcmp_correct demo_mem 4097 4200 demo_str [44]); [apply demo_string|apply demo_delim]|].
  intros x s' (_ & _ & Hlt). apply Hlt. exists [], 44, []. split; [done|]. right. exists 32, [97; 44; 98; 99]. split; [done|lia].
Defined.

Lemma strtok_r_splits_witness :
  wp (strtok_r 4097 4200 0) demo_mem (λ r s', cstr (c_mem s') 4097 [32; 97] ∧ cstr (c_mem s') r.2 [98; 99]).
Proof.
  eapply wp_mono; [apply (strtok_r_splits demo_mem 4097 4200 0 demo_str [44]); [apply demo_mem_ok|lia|apply demo_string|apply demo_delim]|].
  intros r s' (_ & H). vm_compute in H. destruct H as (-> & Ht & _ & _ & Hr & _). done.
Defined.

Lemma memmove_correct_witness : wp (memmove 4305 4304 7) demo_mem (λ r s', r = 4305 ∧ c_mem s' !! 4304 = Some 7).
Proof.
  eapply wp_mono; [apply (memmove_correct demo_mem 4305 4304 7); [apply demo_mem_ok|lia|lia|lia|done|done|]|].
  - intros i Hi. split; [apply demo_buffer; lia|]. replace (4305 + i) with (4304 + (i + 1)) by lia. apply demo_buffer. lia.
  - intros r s' (-> & m & -> & Hm). split; [done|]. cbn [c_mem c_set_mem]. rewrite Hm, decide_False by lia. by vm_compute.
Defined.

Lemma strstr_short_correct_witness : wp (strstr 4097 4200) demo_mem (λ r _, r = 4099).
Proof.
  eapply wp_mono; [apply (strstr_short_correct demo_mem 4097 4200 demo_str [44]); [apply demo_mem_ok|lia|apply demo_string|apply demo_delim|simpl; lia]|].
  by intros r s' [_ ->].
Defined.

Lemma safestrncpy_correct_witness : wp (safestrncpy 4304 4097 3) demo_mem (λ _ s', cstr (c_mem s') 4304 [32; 97]).
Proof.
  eapply wp_mono; [apply (safestrncpy_correct demo_mem 4304 4097 3 demo_str); [lia|apply demo_string| |]|by intros r s' (_ & ? & _)].
  - intros i Hi. apply demo_buffer. lia.
  - left. simpl. lia.
Defined.

(** *** Paths *)

(** An allocator that takes the addresses above all others. *)
Definition top (m : gmap Z Z) : Z := map_fold (λ a _ t, a `max` t) 4096 m.
Definition bump_choose (m : gmap Z Z) (sz : Z) : option Z :=
  let a := (top m + 32) / 16 * 16 in if decide (a + sz <= two64) then Some a else None.

Lemma top_insert k x m : m !! k = None -> top (<[k := x]> m) = k `max` top m.
Proof. intros Hk. unfold top. apply (map_fold_insert_L (λ a _ t, a `max` t)); [intros; lia|done]. Qed.

Lemma top_ge m a b : m !! a = Some b -> a <= top m.
Proof.
  revert a b. induction m as [|k x m Hk IH] using map_ind; intros a b; [by rewrite lookup_empty|].
  rewrite top_insert by done. destruct (decide (a = k)) as [->|Hne]; [lia|].
  rewrite lookup_insert_ne by done. intros Hb%IH. lia.
Qed.

Lemma top_base m : 4096 <= top m.
Proof. induction m as [|k x m Hk IH] using map_ind; [done|]. rewrite top_insert by done. lia. Qed.

Lemma bump_fresh (n : nat) m sz a : bump_choose m sz = Some a -> 0 < a ∧ a + sz <= two64 ∧ ∀ i, 0 <= i < sz -> m !! (a + i) = None.
Proof.
  unfold bump_choose. case_decide as Hd; [|done]. intros [= <-]. pose proof (top_base m). split; [zlia|]. split; [done|].
  intros i Hi. destruct (m !! _) as [b|] eqn:E; [|done]. apply top_ge in E. zlia.
Qed.
#[local] Instance bump : Balloc := {| ba_choose _ := bump_choose; ba_fill _ _ := 165; ba_fresh := bump_fresh |}.

(** The strings of a NULL-terminated array of pointers. *)
Fixpoint read_string (fuel : nat) (s : cmem) (a : Z) : list Z :=
  match fuel with
  | O => []
  | S fuel => match c_mem s !! a with Some b => if decide (b = 0) then [] else b :: read_string fuel s (a + 1) | None => [] end
  end.
Fixpoint read_array (fuel : nat) (s : cmem) (p : Z) : list (list Z) :=
  match fuel with
  | O => []
  | S fuel => let t := peekn s 8 p in if decide (t = 0) then [] else read_string 64 s t :: read_array fuel s (p + 8)
  end.

(** "//usr/bin/" is split into "usr" and "bin", and the buffer is freed. *)
Example canonicalize_path_splits :
  match canonicalize_path 8192 true (CMem (blit 8192 [47; 47; 117; 115; 114; 47; 98; 105; 110; 47; 0] ∅) ∅ ∅ 0 0) with
  | Ok (r, (tokens, n, last)) s' => r = 0 ∧ n = 2 ∧ read_array 8 s' tokens = [[117; 115; 114]; [98; 105; 110]] ∧
      read_string 8 s' last = [98; 105; 110] ∧ size (c_blk s') = 3%nat
  | Stop _ => False
  end.
Proof. by vm_compute. Qed.

(** On "/", the loop that removes the delimiters at the end runs past the
    beginning of the buffer and reads the byte before it. *)
Theorem canonicalize_root_underruns :
  canonicalize_path 8192 true (CMem (blit 8192 [47; 0] ∅) ∅ ∅ 0 0) = Stop BadAccess.
Proof. by vm_compute. Qed.
