(* ===== verification/SpinLock.v ===== *)
(** * kernel/include/sync/spinlock.h and preempt.h: the spin lock

    The rest of the development treats a lock as a Boolean, "held by the
    running thread", and a call between lock and unlock as one step.  Here the
    macros behind it are modelled one memory access at a time, for any number
    of threads and processors, and shown to give exactly that: at most one
    thread holds the lock, [spin_islocked] tells a thread whether it is the
    holder, and the assertions fail only for a thread that takes a lock it
    holds or releases one it does not. *)

From S2P Require Import Prelude.

(** ** The lock and the threads *)

(** struct __spinlock_t, without the two debugging fields. *)
Record spinlock_t := Spinlock {
  s_guard : bool;
  s_tid : Z;
  s_lock : bool;
  s_apicid : Z;
}.

Definition s_set_guard v l := Spinlock v (s_tid l) (s_lock l) (s_apicid l).
Definition s_set_tid v l := Spinlock (s_guard l) v (s_lock l) (s_apicid l).
Definition s_set_lock v l := Spinlock (s_guard l) (s_tid l) v (s_apicid l).
Definition s_set_apicid v l := Spinlock (s_guard l) (s_tid l) (s_lock l) v.

Definition SPINLOCK_INIT : spinlock_t := Spinlock false 0 false 255.

(** The interrupt state of a processor: [ncli] and [intena] are kept with
    the thread by [sched], which saves and restores them. *)
Record intr := Intr { ncli : Z; intena : bool; iflag : bool }.

Definition pushcli (c : intr) : intr :=
  let en := iflag c in
  Intr (ncli c + 1) (if en then true else intena c) false.

(** [None]: one of the two assertions failed. *)
Definition popcli (c : intr) : option intr :=
  if iflag c then None else
  if decide (ncli c >= 1) then
    let n := ncli c - 1 in
    Some (if decide (n = 0 ∧ intena c = true) then Intr n false true else Intr n (intena c) false)
  else None.

Inductive op := Lock | Unlock | IsLocked.

(** What a thread is about to do. *)
Inductive pc :=
  | Idle                       (* outside the three macros *)
  | Spin (o : op)              (* [while (atomic_test_and_set(&s_guard))] *)
  | Pause (o : op)             (* between [popcli] and [pushcli] in that loop *)
  | LTest                      (* [if (s_lock == 0) break;] *)
  | LSelf                      (* [self = ...; assert_msg(self == 0)] *)
  | LBack                      (* [atomic_clear(&s_guard)], round again *)
  | LLock | LApic | LTid       (* the stores *)
  | LDone                      (* [atomic_clear(&s_guard)] *)
  | UTest                      (* [self = ...; assert_msg(self && s_lock)] *)
  | ULock | UApic | UTid       (* the stores *)
  | UClear                     (* [atomic_clear(&s_guard)] *)
  | UPop | UPop2               (* [popcli(); popcli();] *)
  | ITest                      (* [locked = ...; locked = s_lock && locked] *)
  | IClear (b : bool) | IPop (b : bool)
  | IDone (b : bool)           (* the value of [spin_islocked] *)
  | Panicked.

#[export] Instance op_eq_dec : EqDecision op.
Proof. solve_decision. Defined.
#[export] Instance pc_eq_dec : EqDecision pc.
Proof. solve_decision. Defined.

(** A thread (or, with [a_tid] 0, the bare kernel of a processor).  The last
    three fields only record history: whether it owns the lock, how many
    other [pushcli] it has open, and whether it has left its processor
    through [sched]. *)
Record agent := Agent {
  a_tid : Z;
  a_cpu : Z;
  a_int : intr;
  a_pc : pc;
  a_held : bool;
  a_other : nat;
  a_away : bool;
}.

Definition a_goto v a := Agent (a_tid a) (a_cpu a) (a_int a) v (a_held a) (a_other a) (a_away a).
Definition a_set_int v a := Agent (a_tid a) (a_cpu a) v (a_pc a) (a_held a) (a_other a) (a_away a).
Definition a_set_held v a := Agent (a_tid a) (a_cpu a) (a_int a) (a_pc a) v (a_other a) (a_away a).
Definition a_set_other v a := Agent (a_tid a) (a_cpu a) (a_int a) (a_pc a) (a_held a) v (a_away a).
Definition a_set_away v c a := Agent (a_tid a) c (a_int a) (a_pc a) (a_held a) (a_other a) v.

(** ** One step of the macros *)

(** [(lk)->s_tid ? (lk)->s_tid == thread_self() : (lk)->s_apicid == getcpuid()] *)
Definition self (a : agent) (l : spinlock_t) : bool :=
  if decide (s_tid l ≠ 0) then bool_decide (s_tid l = a_tid a) else bool_decide (s_apicid l = a_cpu a).

(** Where a macro goes on once it has the guard. *)
Definition entry (o : op) : pc :=
  match o with Lock => LTest | Unlock => UTest | IsLocked => ITest end.

Definition pop_to (p : pc) (a : agent) : agent :=
  match popcli (a_int a) with Some c => a_goto p (a_set_int c a) | None => a_goto Panicked a end.

Definition exec (a : agent) (l : spinlock_t) : agent * spinlock_t :=
  match a_pc a with
  | Idle | Panicked => (a, l)
  | Spin o => if s_guard l then (pop_to (Pause o) a, l) else (a_goto (entry o) a, s_set_guard true l)
  | Pause o => (a_goto (Spin o) (a_set_int (pushcli (a_int a)) a), l)
  | LTest => if s_lock l then (a_goto LSelf a, l) else (a_goto LLock a, l)
  | LSelf => if self a l then (a_goto Panicked a, l) else (a_goto LBack a, l)
  | LBack => (a_goto (Spin Lock) a, s_set_guard false l)
  | LLock => (a_goto LApic (a_set_held true a), s_set_lock true l)
  | LApic => (a_goto LTid a, s_set_apicid (a_cpu a) l)
  | LTid => (a_goto LDone a, s_set_tid (a_tid a) l)
  | LDone => (a_goto Idle a, s_set_guard false l)
  | UTest => if self a l && s_lock l then (a_goto ULock a, l) else (a_goto Panicked a, l)
  | ULock => (a_goto UApic (a_set_held false a), s_set_lock false l)
  | UApic => (a_goto UTid a, s_set_apicid 255 l)
  | UTid => (a_goto UClear a, s_set_tid 0 l)
  | UClear => (a_goto UPop a, s_set_guard false l)
  | UPop => (pop_to UPop2 a, l)
  | UPop2 => (pop_to Idle a, l)
  | ITest => (a_goto (IClear (s_lock l && self a l)) a, l)
  | IClear b => (a_goto (IPop b) a, s_set_guard false l)
  | IPop b => (pop_to (IDone b) a, l)
  | IDone _ => (a_goto Idle a, l)
  end.

(** [spin_lock], [spin_unlock] and [spin_islocked] begin with [pushcli]. *)
Definition call (o : op) (a : agent) : agent := a_goto (Spin o) (a_set_int (pushcli (a_int a)) a).

(** ** The system *)

Record sys := Sys { y_lk : spinlock_t; y_ags : list agent }.

(** The thread at [i] is on its processor: nobody else there has interrupts
    off, except threads that have left through [sched]. *)
Definition runs (s : sys) (i : nat) (a : agent) : Prop :=
  y_ags s !! i = Some a ∧ a_away a = false ∧
  ∀ j b, j ≠ i -> y_ags s !! j = Some b -> a_cpu b = a_cpu a -> a_away b = false -> ncli (a_int b) = 0.

Definition put (s : sys) (i : nat) (a : agent) (l : spinlock_t) : sys := Sys l (<[i := a]> (y_ags s)).

Inductive step : sys -> sys -> Prop :=
  | step_exec s i a :
      runs s i a -> step s (put s i (exec a (y_lk s)).1 (exec a (y_lk s)).2)
  | step_call s i a o :
      runs s i a -> a_pc a = Idle -> step s (put s i (call o a) (y_lk s))
  (* other code of the thread: another lock is taken or released *)
  | step_push s i a :
      runs s i a -> a_pc a = Idle ->
      step s (put s i (a_set_other (S (a_other a)) (a_set_int (pushcli (a_int a)) a)) (y_lk s))
  | step_pop s i a n c :
      runs s i a -> a_pc a = Idle -> a_other a = S n -> popcli (a_int a) = Some c ->
      step s (put s i (a_set_other n (a_set_int c a)) (y_lk s))
  (* a thread sleeps, whatever it holds, and wakes on some processor where
     everyone else is preemptible *)
  | step_sleep s i a :
      runs s i a -> a_pc a = Idle -> a_tid a ≠ 0 -> step s (put s i (a_set_away true (a_cpu a) a) (y_lk s))
  | step_wake s i a c :
      y_ags s !! i = Some a -> a_away a = true ->
      (∀ j b, j ≠ i -> y_ags s !! j = Some b -> a_cpu b = c -> a_away b = false -> ncli (a_int b) = 0) ->
      step s (put s i (a_set_away false c a) (y_lk s)).

(** Threads have different identifiers, the bare kernels different processors. *)
Definition distinct (l : list agent) : Prop :=
  ∀ i j a b, l !! i = Some a -> l !! j = Some b -> i ≠ j ->
    (a_tid a ≠ 0 -> a_tid b ≠ a_tid a) ∧ (a_tid a = 0 -> a_tid b = 0 -> a_cpu a ≠ a_cpu b).

(** Nobody has called anything yet; interrupts are on. *)
Definition fresh_agent (a : agent) : Prop :=
  a_pc a = Idle ∧ a_held a = false ∧ a_other a = O ∧ a_away a = false ∧ a_int a = Intr 0 false true.

Definition initial (s : sys) : Prop :=
  y_lk s = SPINLOCK_INIT ∧ Forall fresh_agent (y_ags s) ∧ distinct (y_ags s).

Definition reachable (s : sys) : Prop := ∃ s0, initial s0 ∧ rtc step s0 s.

(** ** The invariant *)

(** Between [atomic_test_and_set] and [atomic_clear]. *)
Definition guarded (p : pc) : bool :=
  match p with
  | LTest | LSelf | LBack | LLock | LApic | LTid | LDone | UTest | ULock | UApic | UTid | UClear | ITest | IClear _ => true
  | _ => false
  end.

Definition b2z (b : bool) : Z := if b then 1 else 0.

(** How many [pushcli] of this lock are open. *)
Definition pushes (a : agent) : Z :=
  match a_pc a with
  | Idle | Pause _ | IDone _ => b2z (a_held a)
  | LApic | LTid | LDone | UPop2 => 1
  | UApic | UTid | UClear | UPop => 2
  | _ => b2z (a_held a) + 1
  end.

(** Interrupts are off exactly while something is pushed, and [intena] then
    remembers to turn them on again. *)
Definition intr_ok (c : intr) : Prop :=
  0 <= ncli c ∧ (ncli c = 0 -> iflag c = true ∧ intena c = false) ∧ (0 < ncli c -> iflag c = false ∧ intena c = true).

Definition held_ok (a : agent) : Prop :=
  match a_pc a with
  | LApic | LTid | LDone | ULock => a_held a = true
  | LBack | LLock | UApic | UTid | UClear | UPop | UPop2 => a_held a = false
  | IClear b | IPop b | IDone b => b = a_held a
  | _ => True
  end.

Record ag_ok (a : agent) : Prop := {
  ao_int : intr_ok (a_int a);
  ao_ncli : a_pc a ≠ Panicked -> ncli (a_int a) = Z.of_nat (a_other a) + pushes a;
  ao_held : held_ok a;
  ao_away : a_away a = true -> a_pc a = Idle ∧ a_tid a ≠ 0;
  ao_pos : a_held a = true -> 0 < ncli (a_int a);
}.

(** What the lock records about the thread [a] that holds it. *)
Definition owned (l : spinlock_t) (a : agent) : Prop :=
  (a_pc a ≠ LApic -> a_pc a ≠ LTid -> s_tid l = a_tid a) ∧ (a_pc a ≠ LApic -> a_tid a = 0 -> s_apicid l = a_cpu a).

(** What a thread inside the guard has found out about the holder. *)
Definition sees (h : option nat) (p : pc) : Prop :=
  match p with LLock | UApic | UTid => h = None | LSelf => is_Some h | _ => True end.

(** [g] is inside the guard and [h] holds the lock. *)
Record inv (s : sys) (g h : option nat) : Prop := {
  iv_distinct : distinct (y_ags s);
  iv_ag i a : y_ags s !! i = Some a -> ag_ok a;
  iv_guard : s_guard (y_lk s) = true -> is_Some g;
  iv_g i a : y_ags s !! i = Some a -> a_pc a ≠ Panicked -> guarded (a_pc a) = bool_decide (g = Some i);
  iv_g_in i : g = Some i -> s_guard (y_lk s) = true ∧ is_Some (y_ags s !! i);
  iv_lock : s_lock (y_lk s) = bool_decide (is_Some h);
  iv_h i a : y_ags s !! i = Some a -> a_held a = bool_decide (h = Some i);
  iv_h_in i : h = Some i -> is_Some (y_ags s !! i);
  iv_own i a : y_ags s !! i = Some a -> a_held a = true -> owned (y_lk s) a;
  iv_sees i a : y_ags s !! i = Some a -> sees h (a_pc a);
}.

Lemma distinct_put l i a a' :
  distinct l -> l !! i = Some a -> a_tid a' = a_tid a -> (a_tid a = 0 -> a_cpu a' = a_cpu a) -> distinct (<[i := a']> l).
Proof.
  intros Hd Hi Ht Hc j k b c Hj Hk Hjk.
  apply list_lookup_insert_Some in Hj as [(<- & <- & _)|[Hji Hj]], Hk as [(<- & <- & _)|[Hki Hk]].
  - done.
  - rewrite Ht. destruct (Hd i k a c Hi Hk Hjk) as [H1 H2]. split; [done|]. intros H0 H3. rewrite Hc by done. by apply H2.
  - rewrite Ht. destruct (Hd j i b a Hj Hi Hjk) as [H1 H2]. split; [done|]. intros H0 H3. rewrite Hc by done. by apply H2.
  - by apply (Hd j k).
Qed.

(** The thread at [i] moves and the lock changes with it: what the invariant
    asks of the new state. *)
Lemma inv_put s g h g' h' i a a' l' :
  inv s g h -> y_ags s !! i = Some a ->
  a_tid a' = a_tid a -> (a_tid a = 0 -> a_cpu a' = a_cpu a) -> ag_ok a' ->
  (∀ j, j ≠ i -> g' = Some j <-> g = Some j) -> (a_pc a' ≠ Panicked -> guarded (a_pc a') = bool_decide (g' = Some i)) ->
  (s_guard l' = true <-> is_Some g') ->
  (∀ j, j ≠ i -> h' = Some j <-> h = Some j) -> a_held a' = bool_decide (h' = Some i) ->
  s_lock l' = bool_decide (is_Some h') ->
  sees h' (a_pc a') -> (h' = h ∨ a_pc a ≠ Panicked ∧ guarded (a_pc a) = true) ->
  (a_held a' = true -> owned l' a') ->
  ((∃ j, j ≠ i ∧ h = Some j) -> s_tid l' = s_tid (y_lk s) ∧ s_apicid l' = s_apicid (y_lk s)) ->
  inv (put s i a' l') g' h'.
Proof.
  intros [Hd Ha Hgs Hg Hgi Hl Hh Hhi Ho Hse] Hi Ht Hc Ha' Hg' Hgu Hgl Hh' Hhe Hlk Hse' Hch Hown Hsame.
  assert (i < length (y_ags s))%nat as Hlen by by eapply lookup_lt_Some.
  assert (∀ j, is_Some (y_ags s !! j) -> is_Some (<[i := a']> (y_ags s) !! j)) as Hin.
  { intros j Hj. rewrite lookup_lt_is_Some, length_insert. by apply lookup_lt_is_Some. }
  split; simpl.
  - by eapply distinct_put.
  - intros j b [(<- & <- & _)|[Hji Hj]]%list_lookup_insert_Some; [done|]. by eapply Ha.
  - intros H. by apply Hgl.
  - intros j b [(<- & <- & _)|[Hji Hj]]%list_lookup_insert_Some; [done|]. intros Hp.
    rewrite (Hg j b Hj Hp). apply bool_decide_ext. symmetry. by apply Hg'.
  - intros j Hj. split; [apply Hgl; rewrite Hj; eauto|]. apply Hin. destruct (decide (j = i)) as [->|Hji]; [eauto|].
    by apply Hgi, (Hg' j Hji).
  - done.
  - intros j b [(<- & <- & _)|[Hji Hj]]%list_lookup_insert_Some; [done|].
    rewrite (Hh j b Hj). apply bool_decide_ext. symmetry. by apply Hh'.
  - intros j Hj. apply Hin. destruct (decide (j = i)) as [->|Hji]; [eauto|]. by apply Hhi, (Hh' j Hji).
  - intros j b [(<- & <- & _)|[Hji Hj]]%list_lookup_insert_Some; [done|]. intros Hb.
    assert (h = Some j) as Hhj. { pose proof (Hh j b Hj) as E. rewrite Hb in E. symmetry in E. by apply bool_decide_eq_true in E. }
    destruct Hsame as [E1 E2]; [eauto|]. destruct (Ho j b Hj Hb) as [O1 O2]. split; rewrite ?E1, ?E2; done.
  - intros j b [(<- & <- & _)|[Hji Hj]]%list_lookup_insert_Some; [done|]. destruct Hch as [->|[Hp Hgi']]; [by eapply Hse|].
    pose proof (Hg i a Hi Hp) as E. rewrite Hgi' in E. symmetry in E. apply bool_decide_eq_true in E.
    destruct (decide (a_pc b = Panicked)) as [Hpb|Hpb]; [by rewrite Hpb|].
    pose proof (Hg j b Hj Hpb) as E2. rewrite bool_decide_eq_false_2 in E2 by congruence. by destruct (a_pc b).
Qed.

Lemma inv_unique s g h i j a b :
  inv s g h -> y_ags s !! i = Some a -> y_ags s !! j = Some b -> a_held a = true -> a_held b = true -> i = j.
Proof.
  intros Hv Hi Hj Ha Hb. pose proof (iv_h _ _ _ Hv i a Hi) as E1. pose proof (iv_h _ _ _ Hv j b Hj) as E2.
  rewrite Ha in E1. rewrite Hb in E2. symmetry in E1, E2. apply bool_decide_eq_true in E1, E2. congruence.
Qed.

(** Inside the guard, with the lock taken, [self] tells whether the running
    thread is the holder: a bare kernel on the same processor cannot be,
    because it holds the lock with interrupts off. *)
Lemma self_holder s g h i a :
  inv s g h -> runs s i a -> guarded (a_pc a) = true -> a_pc a ≠ LApic -> a_pc a ≠ LTid ->
  s_lock (y_lk s) && self a (y_lk s) = a_held a.
Proof.
  intros Hv (Hi & Hnaw & Hrun) Hgu Hp1 Hp2. rewrite (iv_lock _ _ _ Hv), (iv_h _ _ _ Hv i a Hi).
  destruct h as [j|]; [|done]. destruct (iv_h_in _ _ _ Hv j eq_refl) as [b Hj].
  pose proof (iv_h _ _ _ Hv j b Hj) as Hhb. rewrite bool_decide_eq_true_2 in Hhb by done.
  destruct (iv_own _ _ _ Hv j b Hj Hhb) as [O1 O2]. simpl.
  destruct (decide (j = i)) as [->|Hji].
  { simplify_eq. specialize (O1 Hp1 Hp2). unfold self. case_decide; rewrite O1 in *; [by rewrite !bool_decide_eq_true_2|].
    rewrite O2 by (done || lia). by rewrite !bool_decide_eq_true_2. }
  rewrite (bool_decide_eq_false_2 (Some j = Some i)) by congruence.
  assert (guarded (a_pc b) = false ∨ a_pc b = Panicked) as Hgb.
  { destruct (decide (a_pc b = Panicked)) as [|Hnp]; [by right|left]. rewrite (iv_g _ _ _ Hv j b Hj Hnp).
    apply bool_decide_eq_false. intros ->. assert (a_pc a ≠ Panicked) as Hnpa by (intros E2; by rewrite E2 in Hgu).
    pose proof (iv_g _ _ _ Hv i a Hi Hnpa) as E. rewrite Hgu in E. symmetry in E. apply bool_decide_eq_true in E. congruence. }
  assert (s_tid (y_lk s) = a_tid b) as Et by (apply O1; intros E; rewrite E in Hgb; naive_solver).
  assert (a_tid b = 0 -> s_apicid (y_lk s) = a_cpu b) as Ec by (apply O2; intros E; rewrite E in Hgb; naive_solver).
  destruct (iv_distinct _ _ _ Hv j i b a Hj Hi Hji) as [D1 D2]. pose proof (iv_ag _ _ _ Hv j b Hj) as Hb.
  unfold self. rewrite Et. case_decide as Ht.
  - apply bool_decide_eq_false. intros E. by apply D1.
  - apply bool_decide_eq_false. intros E. assert (a_tid b = 0) as Ht0 by (destruct (decide (a_tid b = 0)); tauto).
    rewrite (Ec Ht0) in E. pose proof (ao_pos _ Hb Hhb). assert (a_away b = false) as Haw. { destruct (a_away b) eqn:Haw; [|done]. apply (ao_away _ Hb) in Haw. tauto. } rewrite (Hrun j b) in *; [lia|done..].
Qed.

Lemma pushcli_ok c : intr_ok c -> intr_ok (pushcli c) ∧ ncli (pushcli c) = ncli c + 1.
Proof.
  intros (H0 & H1 & H2). unfold pushcli. split; [|done]. split; [simpl; lia|]. split; simpl; [lia|]. intros _. split; [done|].
  destruct (iflag c) eqn:E; [done|]. destruct (decide (ncli c = 0)); [naive_solver|]. apply H2. lia.
Qed.

Lemma popcli_ok c : intr_ok c -> 0 < ncli c -> ∃ c', popcli c = Some c' ∧ intr_ok c' ∧ ncli c' = ncli c - 1.
Proof.
  intros (H0 & H1 & H2) Hn. destruct (H2 Hn) as [Hf He]. unfold popcli. rewrite Hf, decide_True by lia. simpl. rewrite He.
  case_decide as Hd; eexists; (split; [done|]); unfold intr_ok; simpl; (split; [|done]); split_and!; intros; naive_solver lia.
Qed.

(** A step that changes neither guard nor lock nor ownership. *)
Lemma inv_local s g h i a a' :
  inv s g h -> y_ags s !! i = Some a -> a_tid a' = a_tid a -> (a_tid a = 0 -> a_cpu a' = a_cpu a) -> ag_ok a' ->
  (a_pc a' ≠ Panicked -> guarded (a_pc a') = guarded (a_pc a)) -> a_pc a ≠ Panicked -> a_held a' = a_held a -> a_pc a ≠ LApic -> a_pc a ≠ LTid -> sees h (a_pc a') ->
  inv (put s i a' (y_lk s)) g h.
Proof.
  intros Hv Hi Ht Hc Ha Hg Hp Hh H1 H2 Hs. eapply inv_put; [done..| | |done| | |done|by left| |done].
  - intros Hp'. rewrite Hg by done. by apply (iv_g _ _ _ Hv).
  - split; [apply (iv_guard _ _ _ Hv)|]. intros [j Hj]. by apply (iv_g_in _ _ _ Hv j).
  - rewrite Hh. by apply (iv_h _ _ _ Hv).
  - apply (iv_lock _ _ _ Hv).
  - intros Hb. rewrite Hh in Hb. destruct (iv_own _ _ _ Hv i a Hi Hb) as [O1 O2]. split.
    + intros _ _. rewrite Ht. by apply O1.
    + intros _ H0. rewrite Ht in H0. rewrite Hc by done. by apply O2.
Qed.

(** Discharges [ag_ok] of a thread that moved within a macro. *)
Ltac ag_solve :=
  lazymatch goal with
  | Ha : ag_ok ?a |- ag_ok _ =>
      let I := fresh in let N := fresh in let H := fresh in let A := fresh in let P := fresh in
      destruct Ha as [I N H A P]; unfold pushes, held_ok, a_goto, a_set_int, a_set_held in *; simpl in *;
      split; unfold pushes, held_ok; simpl;
      [first [done|tauto]
      |intros _; first [specialize (N ltac:(done)); simpl in *; (lia || (subst; simpl in *; lia))|done]
      |first [done|tauto|congruence]|first [tauto|intros A'; destruct (A A'); congruence|intros A'; by destruct (A A')]
      |first [done|tauto|intros; subst; simpl in *; specialize (N ltac:(done)); lia]]
  end.

Lemma inv_pop s g h i a p :
  inv s g h -> y_ags s !! i = Some a -> a_pc a ≠ Panicked -> a_pc a ≠ LApic -> a_pc a ≠ LTid ->
  guarded (a_pc a) = false -> guarded p = false -> a_away a = false -> p ≠ Panicked ->
  pushes (a_goto p a) = pushes a - 1 -> held_ok (a_goto p a) -> 0 < pushes a ->
  (a_held a = true -> 0 < pushes (a_goto p a)) ->
  inv (put s i (pop_to p a) (y_lk s)) g h ∧ a_pc (pop_to p a) = p.
Proof.
  intros Hv Hi Hp H1 H2 Hg Hg' Haw Hpp Hpu Hho Hpos Hhp. pose proof (iv_ag _ _ _ Hv i a Hi) as [Io No Ho Ao Po].
  specialize (No Hp). destruct (popcli_ok (a_int a) Io ltac:(lia)) as (c' & Hc & Io' & Hn). unfold pop_to. rewrite Hc. split; [|done].
  eapply inv_local; [done..| |simpl; by rewrite Hg, Hg'|done|done|done|done|by destruct p].
  split; simpl; [done| |done| |].
  - intros _. change (pushes (a_goto p (a_set_int c' a))) with (pushes (a_goto p a)). lia.
  - intros E. congruence.
  - intros E. specialize (Hhp E). lia.
Qed.

(** The thread at [i] takes or releases the guard. *)
Lemma inv_take s g h i a o :
  inv s g h -> y_ags s !! i = Some a -> a_pc a = Spin o -> s_guard (y_lk s) = false ->
  inv (put s i (a_goto (entry o) a) (s_set_guard true (y_lk s))) (Some i) h.
Proof.
  intros Hv Hi Hp Hg. pose proof (iv_ag _ _ _ Hv i a Hi) as Ha.
  assert (g = None) as ->. { destruct g as [j|]; [|done]. destruct (iv_g_in _ _ _ Hv j eq_refl). congruence. }
  eapply inv_put; [done..| | | | |done| | |by destruct o|by left| |done].
  - destruct a as [tid cpu int p held oth aw]; simpl in *; subst p. destruct o; ag_solve.
  - intros j Hj. split; congruence.
  - intros _. rewrite bool_decide_eq_true_2 by done. by destruct o.
  - simpl. split; [eauto|done].
  - exact (iv_h _ _ _ Hv i a Hi).
  - apply (iv_lock _ _ _ Hv).
  - intros Hb. destruct (iv_own _ _ _ Hv i a Hi Hb) as [O1 O2]. rewrite Hp in O1, O2. split; simpl; intros; [by apply O1|by apply O2].
Qed.

Lemma inv_release s g h i a p :
  inv s g h -> y_ags s !! i = Some a -> guarded (a_pc a) = true -> a_pc a ≠ LApic -> a_pc a ≠ LTid -> guarded p = false ->
  ag_ok (a_goto p a) -> p ≠ Panicked -> inv (put s i (a_goto p a) (s_set_guard false (y_lk s))) None h.
Proof.
  intros Hv Hi Hg H1 H2 Hg' Ha Hp. assert (a_pc a ≠ Panicked) as Hnp by (intros E; by rewrite E in Hg).
  pose proof (iv_g _ _ _ Hv i a Hi Hnp) as E. rewrite Hg in E. symmetry in E. apply bool_decide_eq_true in E. subst g.
  eapply inv_put; [done..| | | |done| | |by destruct p|by left| |done].
  - intros j Hj. split; congruence.
  - intros _. simpl. by rewrite Hg'.
  - simpl. split; [done|]. by intros [? ?].
  - exact (iv_h _ _ _ Hv i a Hi).
  - apply (iv_lock _ _ _ Hv).
  - intros Hb. destruct (iv_own _ _ _ Hv i a Hi Hb) as [O1 O2]. split; simpl; intros; [by apply O1|by apply O2].
Qed.

(** A store under the guard that moves the ownership of the lock to [h']. *)
Lemma inv_store s g h h' i a a' l' :
  inv s g h -> y_ags s !! i = Some a -> guarded (a_pc a) = true -> guarded (a_pc a') = true ->
  a_tid a' = a_tid a -> a_cpu a' = a_cpu a -> ag_ok a' ->
  (∀ j, j ≠ i -> h ≠ Some j) -> (∀ j, j ≠ i -> h' ≠ Some j) -> a_held a' = bool_decide (h' = Some i) ->
  s_guard l' = s_guard (y_lk s) -> s_lock l' = bool_decide (is_Some h') -> sees h' (a_pc a') -> (a_held a' = true -> owned l' a') ->
  inv (put s i a' l') g h'.
Proof.
  intros Hv Hi Hg Hg' Ht Hc Ha Hh Hh' Hhe Hgl Hlk Hse Hown.
  assert (a_pc a ≠ Panicked) as Hnp by (intros E; by rewrite E in Hg).
  pose proof (iv_g _ _ _ Hv i a Hi Hnp) as E. rewrite Hg in E. symmetry in E. apply bool_decide_eq_true in E. subst g.
  eapply inv_put; [done..| | | |done|done|done|by right|done|].
  - intros _. by rewrite Hg', bool_decide_eq_true_2.
  - rewrite Hgl. split; [eauto|]. intros _. by apply (iv_g_in _ _ _ Hv i).
  - intros j Hj. split; intros E; exfalso; [by eapply Hh'|by eapply Hh].
  - intros (j & Hj & E). exfalso. by eapply Hh.
Qed.

Lemma holder_only s g h i a : inv s g h -> y_ags s !! i = Some a -> a_held a = true -> h = Some i.
Proof. intros Hv Hi Ha. pose proof (iv_h _ _ _ Hv i a Hi) as E. rewrite Ha in E. symmetry in E. by apply bool_decide_eq_true in E. Qed.

(** Moving within a macro, with no [pushcli] or [popcli]. *)
Lemma goto_ok a p :
  ag_ok a -> a_pc a ≠ Panicked -> a_away a = false -> p = Panicked ∨ pushes (a_goto p a) = pushes a -> held_ok (a_goto p a) ->
  ag_ok (a_goto p a).
Proof.
  intros [Io No Ho Ao Po] Hp Haw Hpu Hh. split; simpl; [done| |done| |done].
  - intros Hp'. destruct Hpu as [|Hpu]; [done|]. rewrite Hpu. by apply No.
  - congruence.
Qed.

Lemma inv_goto s g h i a p :
  inv s g h -> runs s i a -> a_pc a ≠ Panicked -> a_pc a ≠ LApic -> a_pc a ≠ LTid ->
  p = Panicked ∨ pushes (a_goto p a) = pushes a ∧ guarded p = guarded (a_pc a) -> held_ok (a_goto p a) -> sees h p ->
  inv (put s i (a_goto p a) (y_lk s)) g h.
Proof.
  intros Hv (Hi & Haw & _) Hp H1 H2 Hpu Hh Hs. eapply inv_local; [done|done|done|done| | |done|done|done|done|done].
  - apply goto_ok; [by eapply iv_ag|done|done|tauto|done].
  - intros Hp'. simpl in *. tauto.
Qed.

(** The stores of the identity fields. *)
Lemma inv_mark s g h i a p l' :
  inv s g h -> runs s i a -> guarded (a_pc a) = true -> guarded p = true -> (∀ j, j ≠ i -> h ≠ Some j) ->
  pushes (a_goto p a) = pushes a -> held_ok (a_goto p a) -> sees h p ->
  s_guard l' = s_guard (y_lk s) -> s_lock l' = s_lock (y_lk s) -> (a_held a = true -> owned l' (a_goto p a)) ->
  inv (put s i (a_goto p a) l') g h.
Proof.
  intros Hv (Hi & Haw & _) Hg Hg' Hh Hpu Hho Hs E1 E2 Ho.
  eapply inv_store; [done|done|done|done|done|done| |done|done|exact (iv_h _ _ _ Hv i a Hi)|done| |done|done].
  - apply goto_ok; [by eapply iv_ag|intros E; by rewrite E in Hg|done|by right|done].
  - rewrite E2. apply (iv_lock _ _ _ Hv).
Qed.

(** A failing assertion is a holder that locks or a stranger that unlocks. *)
Definition misuse (a : agent) : Prop :=
  a_pc a = LSelf ∧ a_held a = true ∨ a_pc a = UTest ∧ a_held a = false.

Definition exec_ok (s : sys) (i : nat) (a : agent) : Prop :=
  (∃ g h, inv (put s i (exec a (y_lk s)).1 (exec a (y_lk s)).2) g h) ∧ (a_pc (exec a (y_lk s)).1 = Panicked -> misuse a).

(** Closes the side conditions of a move of a thread whose next action [Hp] names. *)
Ltac pc_side Hp :=
  unfold held_ok, pushes, a_goto, b2z in *; simpl in *; rewrite ?Hp in *;
  first [done|by left|by right|right; split; [congruence|done]|congruence|lia
        |destruct (a_held _); simpl in *; first [done|lia|congruence|by right|by left|right; split; [congruence|done]]].
Ltac open_exec Hv Hr Hi Hp :=
  intros Hv Hr Hp; pose proof Hr as (Hi & Haw & _); pose proof (iv_ag _ _ _ Hv _ _ Hi) as Ha;
  pose proof (iv_sees _ _ _ Hv _ _ Hi) as Hse; pose proof (ao_held _ Ha) as Hho;
  pose proof (iv_lock _ _ _ Hv) as Hlk;
  unfold exec_ok, exec, misuse; unfold held_ok in Hho; rewrite ?Hp in *; simpl in Hse.

Lemma exec_LTest s g h i a : inv s g h -> runs s i a -> a_pc a = LTest -> exec_ok s i a.
Proof.
  open_exec Hv Hr Hi Hp. pose proof (iv_h _ _ _ Hv i a Hi) as E. split; [|by destruct (s_lock _)].
  exists g, h. rewrite Hlk. destruct h as [j|]; simpl.
  - apply inv_goto; [done|done|pc_side Hp..|]. simpl. eauto.
  - apply inv_goto; done || pc_side Hp.
Qed.

Lemma exec_LSelf s g h i a : inv s g h -> runs s i a -> a_pc a = LSelf -> exec_ok s i a.
Proof.
  open_exec Hv Hr Hi Hp. pose proof (self_holder _ _ _ _ _ Hv Hr) as Hself. rewrite Hp, Hlk, bool_decide_eq_true_2 in Hself by done.
  specialize (Hself eq_refl ltac:(done) ltac:(done)). simpl in Hself. rewrite Hself. destruct (a_held a) eqn:Eh; (split; [|by auto]);
    exists g, h; apply inv_goto; done || pc_side Hp.
Qed.

Lemma exec_release s g h i a p :
  inv s g h -> runs s i a -> guarded (a_pc a) = true -> a_pc a ≠ LApic -> a_pc a ≠ LTid -> guarded p = false ->
  p ≠ Panicked -> pushes (a_goto p a) = pushes a -> held_ok (a_goto p a) ->
  exec a (y_lk s) = (a_goto p a, s_set_guard false (y_lk s)) -> exec_ok s i a.
Proof.
  intros Hv Hr Hg H1 H2 Hg' Hp Hpu Hho E. pose proof Hr as (Hi & Haw & _). unfold exec_ok. rewrite E. split; [|done].
  exists None, h. apply (inv_release _ g); [done..| |done].
  apply goto_ok; [by eapply iv_ag|intros E'; by rewrite E' in Hg|done|by right|done].
Qed.

Lemma exec_LLock s g h i a : inv s g h -> runs s i a -> a_pc a = LLock -> exec_ok s i a.
Proof.
  open_exec Hv Hr Hi Hp. subst h. split; [|done]. exists g, (Some i). destruct Ha as [Io No Ho Ao Po].
  assert (ncli (a_int a) = Z.of_nat (a_other a) + 1) as Hn.
  { rewrite No by by rewrite Hp. unfold pushes. rewrite Hp, Hho. simpl. lia. }
  eapply inv_store; [done|done|by rewrite Hp|done|done|done| |done| | |done|done|done|done].
  - split; simpl; [done|done|done|congruence|lia].
  - congruence.
  - simpl. by rewrite bool_decide_eq_true_2.
Qed.

Lemma exec_LApic s g h i a : inv s g h -> runs s i a -> a_pc a = LApic -> exec_ok s i a.
Proof.
  open_exec Hv Hr Hi Hp. pose proof (holder_only _ _ _ _ _ Hv Hi Hho) as ->. split; [|done]. exists g, (Some i).
  apply inv_mark; [done|done|by rewrite Hp|done|congruence|pc_side Hp|done|done|done|done|]. by split.
Qed.

Lemma exec_LTid s g h i a : inv s g h -> runs s i a -> a_pc a = LTid -> exec_ok s i a.
Proof.
  open_exec Hv Hr Hi Hp. pose proof (holder_only _ _ _ _ _ Hv Hi Hho) as ->. split; [|done]. exists g, (Some i).
  apply inv_mark; [done|done|by rewrite Hp|done|congruence|pc_side Hp|done|done|done|done|].
  intros Hh. split; [done|]. intros _ H0. apply (iv_own _ _ _ Hv i a Hi Hh); [by rewrite Hp|done].
Qed.

Lemma exec_UTest s g h i a : inv s g h -> runs s i a -> a_pc a = UTest -> exec_ok s i a.
Proof.
  open_exec Hv Hr Hi Hp. pose proof (self_holder _ _ _ _ _ Hv Hr) as Hself. rewrite Hp in Hself.
  specialize (Hself eq_refl ltac:(done) ltac:(done)). rewrite andb_comm in Hself. rewrite Hself.
  destruct (a_held a) eqn:Eh; (split; [|by auto]); exists g, h; apply inv_goto; done || pc_side Hp.
Qed.

Lemma exec_ULock s g h i a : inv s g h -> runs s i a -> a_pc a = ULock -> exec_ok s i a.
Proof.
  open_exec Hv Hr Hi Hp. pose proof (holder_only _ _ _ _ _ Hv Hi Hho) as ->. split; [|done]. exists g, None.
  destruct Ha as [Io No Ho Ao Po].
  assert (ncli (a_int a) = Z.of_nat (a_other a) + 2) as Hn.
  { rewrite No by by rewrite Hp. unfold pushes. rewrite Hp, Hho. simpl. lia. }
  eapply inv_store; [done|done|by rewrite Hp|done|done|done| |congruence|done|done|done|done|done|done].
  split; simpl; [done|done|done|congruence|done].
Qed.

Lemma exec_UStore s g h i a : inv s g h -> runs s i a -> a_pc a = UApic ∨ a_pc a = UTid -> exec_ok s i a.
Proof.
  intros Hv Hr [Hp|Hp]; revert Hv Hr Hp; open_exec Hv Hr Hi Hp; subst h; (split; [|done]); exists g, None;
    (apply inv_mark; [done|done|by rewrite Hp|done|done|pc_side Hp|done|done|done|done|congruence]).
Qed.

Lemma exec_ITest s g h i a : inv s g h -> runs s i a -> a_pc a = ITest -> exec_ok s i a.
Proof.
  open_exec Hv Hr Hi Hp. pose proof (self_holder _ _ _ _ _ Hv Hr) as Hself. rewrite Hp in Hself.
  specialize (Hself eq_refl ltac:(done) ltac:(done)). rewrite Hself. split; [|done]. exists g, h. apply inv_goto; done || pc_side Hp.
Qed.

Lemma exec_pop s g h i a p :
  inv s g h -> runs s i a -> a_pc a ≠ Panicked -> a_pc a ≠ LApic -> a_pc a ≠ LTid ->
  guarded (a_pc a) = false -> guarded p = false -> p ≠ Panicked ->
  pushes (a_goto p a) = pushes a - 1 -> held_ok (a_goto p a) -> 0 < pushes a ->
  (a_held a = true -> 0 < pushes (a_goto p a)) -> exec a (y_lk s) = (pop_to p a, y_lk s) -> exec_ok s i a.
Proof.
  intros Hv (Hi & Haw & _) Hp H1 H2 Hg Hg' Hp' Hpu Hho Hpos Hhp E. unfold exec_ok. rewrite E. simpl.
  destruct (inv_pop s g h i a p) as [Hinv Hpc]; [done..|]. split; [eauto|]. by rewrite Hpc.
Qed.

Lemma inv_exec s g h i a : inv s g h -> runs s i a -> exec_ok s i a ∨ a_pc a = Panicked.
Proof.
  intros Hv Hr. pose proof Hr as (Hi & Haw & _). pose proof (iv_ag _ _ _ Hv i a Hi) as Ha. pose proof (ao_held _ Ha) as Hho.
  destruct (a_pc a) eqn:Hp; unfold held_ok in Hho; rewrite ?Hp in Hho; try (by right); left.
  - split; [|intros E; unfold exec in E; rewrite Hp in E; simpl in E; congruence]. exists g, h. unfold exec. rewrite Hp. simpl.
    eapply inv_local; [done|done|done|done|done|done|by rewrite Hp|done|by rewrite Hp|by rewrite Hp|by rewrite Hp].
  - destruct (s_guard (y_lk s)) eqn:Eg.
    + eapply (exec_pop s g h i a (Pause o)); try done; pc_side Hp || (unfold exec; by rewrite Hp, Eg).
    + unfold exec_ok, exec. rewrite Hp, Eg. split; [|by destruct o]. exists (Some i), h. by eapply inv_take.
  - unfold exec_ok, exec. rewrite Hp. split; [|done]. exists g, h. simpl.
    destruct Ha as [Io No Ho Ao Po]. destruct (pushcli_ok _ Io) as [Io' Hn]. specialize (No ltac:(by rewrite Hp)). unfold pushes in No. rewrite Hp in No.
    eapply inv_local; [done|done|done|done| |by rewrite Hp|by rewrite Hp|done|by rewrite Hp|by rewrite Hp|done].
    split; simpl; [done|unfold pushes; simpl; lia|done|congruence|destruct Io; lia].
  - by eapply exec_LTest.
  - by eapply exec_LSelf.
  - eapply (exec_release s g h i a (Spin Lock)); try done; pc_side Hp || (unfold exec; by rewrite Hp).
  - by eapply exec_LLock.
  - by eapply exec_LApic.
  - by eapply exec_LTid.
  - eapply (exec_release s g h i a Idle); try done; pc_side Hp || (unfold exec; by rewrite Hp).
  - by eapply exec_UTest.
  - by eapply exec_ULock.
  - eapply exec_UStore; eauto.
  - eapply exec_UStore; eauto.
  - eapply (exec_release s g h i a UPop); try done; pc_side Hp || (unfold exec; by rewrite Hp).
  - eapply (exec_pop s g h i a UPop2); try done; pc_side Hp || (unfold exec; by rewrite Hp).
  - eapply (exec_pop s g h i a Idle); try done; pc_side Hp || (unfold exec; by rewrite Hp).
  - by eapply exec_ITest.
  - eapply (exec_release s g h i a (IPop b)); try done; pc_side Hp || (unfold exec; by rewrite Hp).
  - eapply (exec_pop s g h i a (IDone b)); try done; pc_side Hp || (unfold exec; by rewrite Hp).
  - unfold exec_ok, exec. rewrite Hp. split; [|done]. exists g, h. simpl. apply inv_goto; done || pc_side Hp.
Qed.

Lemma put_id s i a : y_ags s !! i = Some a -> put s i a (y_lk s) = s.
Proof. intros Hi. unfold put. rewrite list_insert_id by done. by destruct s. Qed.

Lemma inv_idle s g h i a a' :
  inv s g h -> y_ags s !! i = Some a -> a_pc a = Idle -> a_tid a' = a_tid a -> (a_tid a = 0 -> a_cpu a' = a_cpu a) ->
  a_held a' = a_held a -> a_pc a' = Idle ∨ (∃ o, a_pc a' = Spin o) -> ag_ok a' -> inv (put s i a' (y_lk s)) g h.
Proof.
  intros Hv Hi Hp Ht Hc Hh Hp' Ha. eapply inv_local; [done|done|done|done|done| |by rewrite Hp|done|by rewrite Hp|by rewrite Hp|].
  - rewrite Hp. by destruct Hp' as [->|[o ->]].
  - by destruct Hp' as [->|[o ->]].
Qed.

Lemma inv_step s s' g h : inv s g h -> step s s' -> ∃ g' h', inv s' g' h'.
Proof.
  intros Hv Hst. destruct Hst as [s i a Hr|s i a o Hr Hp|s i a Hr Hp|s i a n c Hr Hp Hn Hc|s i a Hr Hp Ht|s i a c Hi Haw Hrun].
  - destruct (inv_exec s g h i a Hv Hr) as [[H _]|Hp]; [done|]. destruct Hr as [Hi _]. exists g, h. unfold exec. rewrite Hp. simpl.
    by rewrite put_id.
  - destruct Hr as (Hi & Haw & _). exists g, h. destruct (iv_ag _ _ _ Hv i a Hi) as [Io No Ho Ao Po]. destruct (pushcli_ok _ Io) as [Io' Hn].
    specialize (No ltac:(by rewrite Hp)). unfold pushes in No. rewrite Hp in No.
    eapply inv_idle; [done..|simpl; eauto|]. split; simpl; [done|unfold pushes; simpl; lia|done|congruence|destruct Io; lia].
  - destruct Hr as (Hi & Haw & _). exists g, h. destruct (iv_ag _ _ _ Hv i a Hi) as [Io No Ho Ao Po]. destruct (pushcli_ok _ Io) as [Io' Hn].
    specialize (No ltac:(by rewrite Hp)). unfold pushes in No. rewrite Hp in No.
    eapply inv_idle; [done..|by left|]. split; simpl; [done|unfold pushes; simpl; rewrite Hp; lia|unfold held_ok; simpl; by rewrite Hp|congruence|destruct Io; lia].
  - destruct Hr as (Hi & Haw & _). exists g, h. destruct (iv_ag _ _ _ Hv i a Hi) as [Io No Ho Ao Po].
    specialize (No ltac:(by rewrite Hp)). unfold pushes in No. rewrite Hp in No. assert (0 <= b2z (a_held a)) by (destruct (a_held a); simpl; lia).
    destruct (popcli_ok _ Io ltac:(lia)) as (c' & Hc' & Io' & Hn'). simplify_eq.
    eapply inv_idle; [done..|by left|]. split; simpl; [done|unfold pushes; simpl; rewrite Hp; lia|unfold held_ok; simpl; by rewrite Hp|congruence|].
    intros E. rewrite E in *. simpl in *. lia.
  - destruct Hr as (Hi & Haw & _). exists g, h. destruct (iv_ag _ _ _ Hv i a Hi) as [Io No Ho Ao Po].
    eapply inv_idle; [done..|by left|]. split; simpl; done.
  - exists g, h. destruct (iv_ag _ _ _ Hv i a Hi) as [Io No Ho Ao Po]. destruct (Ao Haw) as [Hp Ht].
    eapply inv_idle; [done|done|done|done|done|done|by left|]. split; simpl; done.
Qed.

Lemma inv_init s : initial s -> inv s None None.
Proof.
  intros (Hl & Hf & Hd). assert (∀ i a, y_ags s !! i = Some a -> fresh_agent a) as Hfr.
  { intros i a Hi. by eapply Forall_lookup in Hf. }
  split; rewrite ?Hl; try done.
  - intros i a Hi. destruct (Hfr i a Hi) as (Hp & Hh & Ho & Haw & Hint). split; rewrite ?Hint, ?Hh, ?Haw; try done.
    + intros _. unfold pushes. by rewrite Hp, Ho, Hh.
    + unfold held_ok. by rewrite Hp.
  - intros i a Hi _. destruct (Hfr i a Hi) as (Hp & _). by rewrite Hp.
  - intros i a Hi. by destruct (Hfr i a Hi) as (_ & -> & _).
  - intros i a Hi Hh. destruct (Hfr i a Hi) as (_ & Hh' & _). congruence.
  - intros i a Hi. by destruct (Hfr i a Hi) as (-> & _).
Qed.

Lemma inv_reachable s : reachable s -> ∃ g h, inv s g h.
Proof.
  intros (s0 & Hi & Hr). assert (∃ g h, inv s0 g h) as H0 by (exists None, None; by apply inv_init). clear Hi.
  induction Hr as [|s1 s2 s3 Hst _ IH]; [done|]. apply IH. destruct H0 as (g & h & Hv). by eapply inv_step.
Qed.

(** ** What the lock gives *)

(** C16. Whatever the interleaving, at most one thread holds the lock, and it
    holds it with interrupts off. *)
Theorem spin_mutual_exclusion s i j a b :
  reachable s -> y_ags s !! i = Some a -> y_ags s !! j = Some b -> a_held a = true ->
  iflag (a_int a) = false ∧ (a_held b = true -> j = i).
Proof.
  intros (g & h & Hv)%inv_reachable Hi Hj Ha. pose proof (iv_ag _ _ _ Hv i a Hi) as Hok. split.
  - apply (ao_int _ Hok), (ao_pos _ Hok Ha).
  - intros Hb. by apply (inv_unique s g h j i b a).
Qed.

(** The value of [spin_islocked] is whether the caller holds the lock, and
    an assertion of the macros fails exactly when a thread takes the lock
    while holding it or releases it without. *)
Theorem spin_checks_exact s i a :
  reachable s -> runs s i a -> a_pc a ≠ Panicked ->
  (∀ b, a_pc a = IDone b -> b = a_held a) ∧
  (a_pc (exec a (y_lk s)).1 = Panicked <->
   a_pc a = LSelf ∧ a_held a = true ∨ a_pc a = UTest ∧ a_held a = false).
Proof.
  intros (g & h & Hv)%inv_reachable Hr Hnp. pose proof Hr as (Hi & _). pose proof (iv_ag _ _ _ Hv i a Hi) as Hok. split; [|split].
  - intros b Hp. pose proof (ao_held _ Hok) as H. unfold held_ok in H. by rewrite Hp in H.
  - intros Hpan. destruct (inv_exec s g h i a Hv Hr) as [[_ H]|?]; [by apply H|done].
  - pose proof (self_holder _ _ _ _ _ Hv Hr) as Hself. intros [[Hp Hh]|[Hp Hh]]; rewrite Hp in Hself;
      specialize (Hself eq_refl ltac:(done) ltac:(done)); rewrite Hh in Hself; unfold exec; rewrite Hp.
    + apply andb_true_iff in Hself as [_ ->]. done.
    + rewrite andb_comm in Hself. by rewrite Hself.
Qed.

(** The thread running alone for [n] steps. *)
Fixpoint solo (n : nat) (a : agent) (l : spinlock_t) : agent * spinlock_t :=
  match n with O => (a, l) | S n => let r := exec a l in solo n r.1 r.2 end.

Lemma solo_lock tid cpu c oth aw t ap :
  solo 6 (call Lock (Agent tid cpu c Idle false oth aw)) (Spinlock false t false ap) =
  (Agent tid cpu (pushcli c) Idle true oth aw, Spinlock false tid true cpu).
Proof. reflexivity. Qed.

Lemma self_same tid cpu c p h oth aw g k : self (Agent tid cpu c p h oth aw) (Spinlock g tid k cpu) = true.
Proof. unfold self. simpl. case_decide; by apply bool_decide_eq_true. Qed.

Lemma solo_S n a l : solo (S n) a l = solo n (exec a l).1 (exec a l).2.
Proof. done. Qed.

Lemma exec_unlock tid cpu c h oth aw g :
  exec (Agent tid cpu c UTest h oth aw) (Spinlock g tid true cpu) = (Agent tid cpu c ULock h oth aw, Spinlock g tid true cpu).
Proof. unfold exec. cbn [a_pc s_lock]. by rewrite self_same. Qed.

Lemma exec_UPops tid cpu c c' h oth aw p l :
  p = UPop ∨ p = UPop2 -> popcli c = Some c' ->
  exec (Agent tid cpu c p h oth aw) l = (Agent tid cpu c' (if decide (p = UPop) then UPop2 else Idle) h oth aw, l).
Proof. intros [->| ->] Hc; unfold exec, pop_to; cbn [a_pc a_int]; rewrite Hc; reflexivity. Qed.

Lemma solo_unlock tid cpu c c1 c2 oth aw :
  popcli (pushcli c) = Some c1 -> popcli c1 = Some c2 ->
  solo 8 (call Unlock (Agent tid cpu c Idle true oth aw)) (Spinlock false tid true cpu) =
  (Agent tid cpu c2 Idle false oth aw, Spinlock false 0 false 255).
Proof.
  intros H1 H2. set (u := λ c p h, Agent tid cpu c p h oth aw).
  transitivity (solo 7 (u (pushcli c) UTest true) (Spinlock true tid true cpu)); [reflexivity|].
  transitivity (solo 6 (u (pushcli c) ULock true) (Spinlock true tid true cpu)).
  { rewrite solo_S. unfold u at 1 2. rewrite exec_unlock. reflexivity. }
  transitivity (solo 2 (u (pushcli c) UPop false) (Spinlock false 0 false 255)); [reflexivity|].
  rewrite !solo_S. unfold u. rewrite (exec_UPops _ _ _ c1) by auto. cbn [fst snd]. rewrite (exec_UPops _ _ _ c2) by auto. reflexivity.
Qed.

(** Without contention [spin_lock] of a free lock returns with the lock
    held after six accesses, and the matching [spin_unlock] returns after
    eight, with the lock free and the interrupt state as it was. *)
Theorem spin_lock_unlock_roundtrip a l :
  a_pc a = Idle -> a_held a = false -> intr_ok (a_int a) -> s_guard l = false -> s_lock l = false ->
  let '(a1, l1) := solo 6 (call Lock a) l in
  let '(a2, l2) := solo 8 (call Unlock a1) l1 in
  a_pc a1 = Idle ∧ a_held a1 = true ∧ s_lock l1 = true ∧ s_guard l1 = false ∧ self a1 l1 = true ∧ iflag (a_int a1) = false ∧
  a2 = a ∧ s_lock l2 = false ∧ s_guard l2 = false.
Proof.
  destruct a as [tid cpu c p held oth aw], l as [gd t lk ap]. cbn [a_pc a_held s_guard s_lock a_int].
  intros -> -> Hc -> ->. rewrite solo_lock. destruct (pushcli_ok c Hc) as [Hc1 Hn1].
  destruct (pushcli_ok _ Hc1) as [Hc2 Hn2]. destruct (popcli_ok _ Hc2) as (d1 & Hd1 & Hk1 & Hm1); [destruct Hc; lia|].
  destruct (popcli_ok _ Hk1) as (d2 & Hd2 & Hk2 & Hm2); [destruct Hc; lia|]. rewrite (solo_unlock _ _ _ d1 d2) by done.
  rewrite self_same. split_and!; try done.
  f_equal. destruct c as [n en fl], d2 as [n' en' fl']. simpl in *. destruct Hc as (C0 & C1 & C2), Hk2 as (D0 & D1 & D2). simpl in *.
  assert (n' = n) as -> by lia. destruct (decide (n = 0)) as [->|Hn].
  - destruct (C1 eq_refl), (D1 eq_refl). congruence.
  - destruct (C2 ltac:(lia)), (D2 ltac:(lia)). congruence.
Qed.

(** *** A system with two threads *)

Lemma exec_stays a l : a_cpu (exec a l).1 = a_cpu a ∧ a_away (exec a l).1 = a_away a.
Proof.
  unfold exec, pop_to. destruct (a_pc a); try done; try (by destruct (popcli _)).
  - destruct (s_guard l); [|done]. by destruct (popcli _).
  - by destruct (s_lock l).
  - by destruct (self a l).
  - by destruct (self a l && s_lock l).
Qed.

(** A thread alone on its processor can run on. *)
Lemma solo_steps s i a n :
  y_ags s !! i = Some a -> a_away a = false -> (∀ j b, j ≠ i -> y_ags s !! j = Some b -> a_cpu b ≠ a_cpu a) ->
  rtc step s (put s i (solo n a (y_lk s)).1 (solo n a (y_lk s)).2).
Proof.
  revert s a. induction n as [|n IH]; intros s a Hi Haw Hal; [simpl; rewrite put_id; done|].
  destruct (exec_stays a (y_lk s)) as [Ec Ew]. assert (i < length (y_ags s))%nat as Hlen by by eapply lookup_lt_Some.
  eapply rtc_l; [apply step_exec; split; [done|split; [done|intros j b Hj Hb E; by destruct (Hal j b Hj Hb)]]|].
  set (s1 := put s i (exec a (y_lk s)).1 (exec a (y_lk s)).2).
  replace (put s i _ _) with (put s1 i (solo n (exec a (y_lk s)).1 (y_lk s1)).1 (solo n (exec a (y_lk s)).1 (y_lk s1)).2).
  - apply IH; [by apply list_lookup_insert_eq|congruence|]. intros j b Hj Hb. rewrite Ec. simpl in Hb.
    rewrite list_lookup_insert_ne in Hb by done. by eapply Hal.
  - unfold s1, put. simpl. by rewrite list_insert_insert_eq.
Qed.

Definition demo_agent (t c : Z) : agent := Agent t c (Intr 0 false true) Idle false 0 false.
Definition demo_sys : sys := Sys SPINLOCK_INIT [demo_agent 7 0; demo_agent 0 1].
(** The first thread has taken the lock. *)
Definition demo_locked : sys := Sys (Spinlock false 7 true 0) [Agent 7 0 (Intr 1 true false) Idle true 0 false; demo_agent 0 1].

Lemma demo_distinct : distinct (y_ags demo_sys).
Proof. intros [|[|[|]]] [|[|[|]]] a b Ha Hb Hij; simpl in *; simplify_eq; simpl; lia. Qed.

Lemma demo_reachable : reachable demo_locked.
Proof.
  exists demo_sys. split; [split; [done|split; [by repeat constructor|apply demo_distinct]]|].
  assert (∀ s, length (y_ags s) = 2%nat -> y_ags s !! 1%nat = Some (demo_agent 0 1) -> ∀ j b, j ≠ 0%nat -> y_ags s !! j = Some b -> b = demo_agent 0 1) as Ho.
  { intros s Hl H1 j b Hj Hb. apply lookup_lt_Some in Hb as Hlt. destruct j as [|[|j]]; [done|congruence|lia]. }
  eapply rtc_l; [apply (step_call demo_sys 0 (demo_agent 7 0) Lock); [|done]|].
  { split; [done|split; [done|]]. intros j b Hj Hb. by rewrite (Ho demo_sys eq_refl eq_refl j b Hj Hb). }
  match goal with |- rtc step ?s _ => change demo_locked with (put s 0 (solo 6 (call Lock (demo_agent 7 0)) (y_lk s)).1 (solo 6 (call Lock (demo_agent 7 0)) (y_lk s)).2) end.
  apply solo_steps; [done|done|]. intros j b Hj Hb. assert (b = demo_agent 0 1) as -> by (eapply Ho; [| |exact Hj|exact Hb]; done). done.
Qed.

Lemma spin_mutual_exclusion_witness : iflag (Intr 1 true false) = false ∧ (false = true -> 1%nat = 0%nat).
Proof. apply (spin_mutual_exclusion demo_locked 0 1 (Agent 7 0 (Intr 1 true false) Idle true 0 false) (demo_agent 0 1)); [apply demo_reachable|done..]. Defined.

Lemma spin_checks_exact_witness : a_pc (exec (demo_agent 0 1) (Spinlock false 7 true 0)).1 ≠ Panicked.
Proof.
  intros H. destruct (spin_checks_exact demo_locked 1 (demo_agent 0 1)) as [_ Hp].
  - apply demo_reachable.
  - split; [done|split; [done|]]. intros [|[|j]] b Hj Hb Hc; simpl in Hb; simplify_eq.
  - done.
  - apply Hp in H as [[? _]|[? _]]; done.
Defined.

Lemma spin_lock_unlock_roundtrip_witness : self (solo 6 (call Lock (demo_agent 7 0)) SPINLOCK_INIT).1 (solo 6 (call Lock (demo_agent 7 0)) SPINLOCK_INIT).2 = true.
Proof.
  assert (intr_ok (Intr 0 false true)) as H0 by (split; [done|split; [done|simpl; lia]]).
  pose proof (spin_lock_unlock_roundtrip (demo_agent 7 0) SPINLOCK_INIT eq_refl eq_refl H0 eq_refl eq_refl) as H.
  unfold demo_agent, SPINLOCK_INIT in *. rewrite solo_lock in H |- *. destruct (solo 8 _ _). tauto.
Defined.
