(* ===== verification/Lock.v ===== *)
(** * Structs with a spin lock, and parts of a state

    The lock macros that the headers repeat for every struct, once for all of
    them, and computations on a part of a larger state. *)

From S2P Require Import Prelude.

(** ** Objects with a spin lock *)

Class Lockable (V : Type) := {
  lk_held : V -> bool;
  lk_put : bool -> V -> V;
}.

Section lock.
Context {S : Type} (V : Type) {HL : Heaplet S V} {LK : Lockable V}.

(** The macros [xassert], [xlock], [xunlock], [xislocked] and [xassert_locked]
    of the headers: a null pointer fails the assertion, a lock the thread holds
    cannot be taken and one it does not hold cannot be released. *)
Definition obj_assert (p : ptr) : M S unit := assert_ (bool_decide (p ≠ NULL)).
Definition obj_lock (p : ptr) : M S unit :=
  obj_assert p;; v ← load (V := V) p; assert_ (negb (lk_held v));; update p (lk_put (V := V) true).
Definition obj_unlock (p : ptr) : M S unit :=
  obj_assert p;; v ← load (V := V) p; assert_ (lk_held v);; update p (lk_put (V := V) false).
Definition obj_islocked (p : ptr) : M S bool := obj_assert p;; v ← load (V := V) p; mret (lk_held v).
Definition obj_assert_locked (p : ptr) : M S unit := obj_assert p;; v ← load (V := V) p; assert_ (lk_held v).

Lemma wp_obj_lock p v s (Q : unit -> S -> Prop) :
  p ≠ NULL -> hl_get s !! p = Some v -> lk_held v = false ->
  Q tt (hl_put (<[p := lk_put true v]> (hl_get s)) s) -> wp (obj_lock p) s Q.
Proof.
  intros Hp Hv Hl HQ. unfold obj_lock, obj_assert. repeat wp_step; [by rewrite bool_decide_eq_true_2|].
  eapply wp_load; [done..|]. wp_step. apply wp_assert; [by rewrite Hl|]. by eapply wp_update.
Qed.

Lemma wp_obj_unlock p v s (Q : unit -> S -> Prop) :
  p ≠ NULL -> hl_get s !! p = Some v -> lk_held v = true ->
  Q tt (hl_put (<[p := lk_put false v]> (hl_get s)) s) -> wp (obj_unlock p) s Q.
Proof.
  intros Hp Hv Hl HQ. unfold obj_unlock, obj_assert. repeat wp_step; [by rewrite bool_decide_eq_true_2|].
  eapply wp_load; [done..|]. wp_step. apply wp_assert; [done|]. by eapply wp_update.
Qed.

Lemma wp_obj_islocked p v s (Q : bool -> S -> Prop) :
  p ≠ NULL -> hl_get s !! p = Some v -> Q (lk_held v) s -> wp (obj_islocked p) s Q.
Proof.
  intros Hp Hv HQ. unfold obj_islocked, obj_assert. repeat wp_step; [by rewrite bool_decide_eq_true_2|].
  by eapply wp_load.
Qed.

Lemma wp_obj_assert_locked p v s (Q : unit -> S -> Prop) :
  p ≠ NULL -> hl_get s !! p = Some v -> lk_held v = true -> Q tt s -> wp (obj_assert_locked p) s Q.
Proof.
  intros Hp Hv Hl HQ. unfold obj_assert_locked, obj_assert. repeat wp_step; [by rewrite bool_decide_eq_true_2|].
  eapply wp_load; [done..|]. by apply wp_assert.
Qed.
End lock.

(** The lock of a struct is a field like any other. *)
Class LockLaws (V : Type) {LK : Lockable V} : Prop := {
  held_put b (v : V) : lk_held (lk_put b v) = b;
  put_put b b' (v : V) : lk_put b (lk_put b' v) = lk_put b v;
  put_held (v : V) : lk_put (lk_held v) v = v;
}.

(** Taking and releasing a lock leaves the heap as it was. *)
Lemma relock {V} `{LockLaws V} (m : gmap ptr V) p v :
  m !! p = Some v -> lk_held v = false -> alter (lk_put false) p (alter (lk_put true) p m) = m.
Proof.
  intros Hv Hl. apply map_eq. intros q. destruct (decide (p = q)) as [<-|Hne].
  - rewrite !lookup_alter_eq, Hv. simpl. f_equal. rewrite put_put, <- Hl. apply put_held.
  - by rewrite !lookup_alter_ne by done.
Qed.

(** ** Parts of a state *)

(** A computation on a part of the state. *)
Definition zoom {S T A} (get : S -> T) (put : T -> S -> S) (c : M T A) : M S A := λ s,
  match c (get s) with Ok a t => Ok a (put t s) | Stop e => Stop e end.
Lemma wp_zoom {S T A} (get : S -> T) put (c : M T A) s Q :
  wp c (get s) (λ a t, Q a (put t s)) -> wp (zoom get put c) s Q.
Proof. unfold wp, zoom. by destruct (c (get s)). Qed.
