(* ===== verification/Cond.v ===== *)
(** * kernel/sync/cond.c: condition variables

    A counter and the queue of the threads that sleep.  Waiting, signalling and
    broadcasting are functions on this record, because their callers ([Pipe],
    [File]) differ in what a sleeping thread means to them; allocation is on
    any heap that holds such records. *)

From S2P Require Import Prelude.

(** struct cond: [c_count] is an [unsigned long] read as an [int];
    [c_waiters] are the threads on the sleep queue, the first to wake first. *)
Record cond_t := Cond { c_count : Z; c_waiters : list Z }.

Definition COND_INIT : cond_t := Cond 0 [].

(** [cond_wait] up to [sched]: whether the thread sleeps. *)
Definition cond_wait (t : Z) (c : cond_t) : bool * cond_t :=
  let count := u64 (c_count c + 1) in
  if decide (s32 (c_count c) >= 0) then (true, Cond count (c_waiters c ++ [t])) else (false, Cond count (c_waiters c)).

(** Waking puts a thread on a run queue; [room] says whether there is memory for
    that.  [None]: the kernel stops.  [sched_wake1] puts a thread that it cannot
    wake back on the queue it has locked, and [sched_wakeall] panics on it. *)
Definition cond_wake1 (room : bool) (c : cond_t) : option (option Z * cond_t) :=
  match c_waiters c with
  | [] => Some (None, c)
  | t :: w => if room then Some (Some t, Cond (c_count c) w) else None
  end.
(** The thread woken, if any. *)
Definition cond_signal (room : bool) (c : cond_t) : option (option Z * cond_t) :=
  match cond_wake1 room c with
  | Some (r, c) => Some (r, Cond (u64 (c_count c - 1)) (c_waiters c))
  | None => None
  end.

Definition cond_wakeall (room : bool) (c : cond_t) : option (list Z * cond_t) :=
  match c_waiters c with
  | [] => Some ([], Cond (u64 (- 1)) [])
  | ws => if room then Some (ws, Cond 0 []) else None
  end.
Definition cond_broadcast : bool -> cond_t -> option (list Z * cond_t) := cond_wakeall.

(** *** Allocation *)

Section alloc.
Context {S : Type} {HL : Heaplet S cond_t} {KH : Kheap S} {KM : Kmalloc}.

(** [c] is the object to initialise or NULL, [ref] whether the result is asked for. *)
Definition cond_init (c : ptr) (ref : bool) : M S (Z * ptr) :=
  let alloc := bool_decide (c = NULL) in
  if alloc && negb ref then mret (- EINVAL, NULL) else
  c ← (if alloc then kmalloc COND_INIT else mret c);
  if decide (c = NULL) then mret (- ENOMEM, NULL) else
  update c (λ _ : cond_t, COND_INIT);; mret (0, c).
Definition cond_new : M S (Z * ptr) := cond_init NULL true.

(** The waiters are dropped from the queue, not woken. *)
Definition cond_free (c : ptr) : M S unit :=
  _ ← load (V := cond_t) c; update c (λ v : cond_t, Cond (c_count v) []);; kfree cond_t c.
End alloc.
