(* ===== verification/Pipe.v ===== *)
(** * kernel/fs/pipefs/pipefs.c: pipes

    Reads, writes and closes of one pipe by any number of threads, with the
    condition variables they sleep on.  A call is cut where the code gives
    other threads a chance: at the pipe lock and at every operation of a
    condition variable; between two cuts it runs on the heap of the ring
    buffer ([Ringbuf]).  A history is a list of events, which thread runs
    next, which call begins, who is killed, so that a theorem about every
    list of events is one about every interleaving. *)

From S2P Require Import Prelude Dll Heap Ringbuf Cond.

(** ** Pipes and threads *)

Definition PIPE_R : Z := 1.
Definition PIPE_W : Z := 2.
Definition PIPE_RW : Z := Z.lor PIPE_R PIPE_W.
Definition PIPESZ : Z := 4096.

(** struct __pipe_t; [p_lock] is the thread that holds the lock. *)
Record pipe_t := Pipe {
  p_flags : Z;
  p_readers : cond_t;
  p_writers : cond_t;
  p_iread : ptr;
  p_iwrite : ptr;
  p_ringbuf : ptr;
  p_lock : option Z;
}.

(** Where a read or a write is. *)
Variant where_ :=
  | Enter                  (* about to take the pipe lock *)
  | Top                    (* at the head of the loop *)
  | Xfer                   (* back from the wait: transfer without a test *)
  | Signal                 (* wake the other side, then [Top] *)
  | SignalWait             (* wake the other side before waiting *)
  | Release                (* [cond_wait_releasing]: drop the pipe lock *)
  | Wait                   (* ... and wait *)
  | Asleep
  | Woken (err : Z)        (* ... and take the lock again *)
  | SignalEnd              (* this end is closed: wake the other side, then leave *)
  | Leave (ret : Z) (raise : bool).  (* unlock, raise SIGPIPE, return *)

Variant close_at := CEnter | CMask | CWake1 | CWake2 | CLeave.

(** What a thread is doing; [got] are the bytes stored in the caller's buffer
    so far, [written] the number of bytes taken from it. *)
Variant job :=
  | Free
  | Reading (nb : Z) (got : list Z) (w : where_)
  | Writing (nb : Z) (buf : list Z) (written : Z) (w : where_)
  | Closing (ip : ptr) (w : close_at)
  | Ret (ret : Z) (got : list Z).

#[export] Instance where_eq_dec : EqDecision where_.
Proof. solve_decision. Defined.
#[export] Instance close_at_eq_dec : EqDecision close_at.
Proof. solve_decision. Defined.
#[export] Instance job_eq_dec : EqDecision job.
Proof. solve_decision. Defined.

(** The last three fields record history: the bytes the ring accepted and
    delivered, and the threads sent SIGPIPE. *)
Record psys := Psys {
  y_pipe : pipe_t;
  y_heap : dsheap;
  y_jobs : gmap Z job;
  y_in : list Z;
  y_out : list Z;
  y_sigs : list Z;
}.

Definition set_pipe v s := Psys v (y_heap s) (y_jobs s) (y_in s) (y_out s) (y_sigs s).
Definition set_heap v s := Psys (y_pipe s) v (y_jobs s) (y_in s) (y_out s) (y_sigs s).
Definition set_jobs v s := Psys (y_pipe s) (y_heap s) v (y_in s) (y_out s) (y_sigs s).
Definition log_in l s := Psys (y_pipe s) (y_heap s) (y_jobs s) (y_in s ++ l) (y_out s) (y_sigs s).
Definition log_out l s := Psys (y_pipe s) (y_heap s) (y_jobs s) (y_in s) (y_out s ++ l) (y_sigs s).
Definition log_sig t s := Psys (y_pipe s) (y_heap s) (y_jobs s) (y_in s) (y_out s) (y_sigs s ++ [t]).

Definition p_set_flags v p := Pipe v (p_readers p) (p_writers p) (p_iread p) (p_iwrite p) (p_ringbuf p) (p_lock p).
Definition p_set_readers v p := Pipe (p_flags p) v (p_writers p) (p_iread p) (p_iwrite p) (p_ringbuf p) (p_lock p).
Definition p_set_writers v p := Pipe (p_flags p) (p_readers p) v (p_iread p) (p_iwrite p) (p_ringbuf p) (p_lock p).
Definition p_set_lock v p := Pipe (p_flags p) (p_readers p) (p_writers p) (p_iread p) (p_iwrite p) (p_ringbuf p) v.

(** Which condition variable. *)
Variant side := Readers | Writers.
#[export] Instance side_eq_dec : EqDecision side.
Proof. solve_decision. Defined.
Definition p_cond (d : side) (p : pipe_t) : cond_t := match d with Readers => p_readers p | Writers => p_writers p end.
Definition p_set_cond (d : side) (c : cond_t) (p : pipe_t) : pipe_t :=
  match d with Readers => p_set_readers c p | Writers => p_set_writers c p end.

(** *** The macros of pipefs.h *)

Definition on_heap {A} (c : M dsheap A) : M psys A := λ s,
  match c (y_heap s) with Ok a h => Ok a (set_heap h s) | Stop w => Stop w end.

Definition pipe_assert_locked (t : Z) : M psys unit :=
  l ← gets (λ s, p_lock (y_pipe s)); assert_ (bool_decide (l = Some t)).
(** Whether the lock was taken; a thread that finds it held by another tries
    again, one that holds it panics. *)
Definition pipe_lock (t : Z) : M psys bool :=
  l ← gets (λ s, p_lock (y_pipe s));
  match l with
  | None => modify (λ s, set_pipe (p_set_lock (Some t) (y_pipe s)) s);; mret true
  | Some t' => assert_ (bool_decide (t' ≠ t));; mret false
  end.
Definition pipe_unlock (t : Z) : M psys unit :=
  pipe_assert_locked t;; modify (λ s, set_pipe (p_set_lock None (y_pipe s)) s).
Definition pipe_testflags (t fl : Z) : M psys bool :=
  pipe_assert_locked t;; f ← gets (λ s, p_flags (y_pipe s)); mret (bool_decide (Z.land f fl ≠ 0)).
Definition pipe_maskflags (t fl : Z) : M psys unit :=
  pipe_assert_locked t;; modify (λ s, set_pipe (p_set_flags (Z.land (p_flags (y_pipe s)) (Z.lnot fl)) (y_pipe s)) s).
Definition pipe_getbuff (t : Z) : M psys ptr := pipe_assert_locked t;; gets (λ s, p_ringbuf (y_pipe s)).
Definition pipe_lockbuf (t : Z) : M psys unit := r ← pipe_getbuff t; on_heap (ringbuf_lock r).
Definition pipe_unlockbuf (t : Z) : M psys unit := r ← pipe_getbuff t; on_heap (ringbuf_unlock r).

(** [T_READY]: a sleeping thread goes on behind its [cond_wait]. *)
Definition wake_job (err : Z) (j : job) : job :=
  match j with
  | Reading nb got Asleep => Reading nb got (Woken err)
  | Writing nb buf n Asleep => Writing nb buf n (Woken err)
  | _ => j
  end.
Definition wake (t : Z) : M psys unit := modify (λ s, set_jobs (alter (wake_job 0) t (y_jobs s)) s).

Definition pipe_wake (room : bool) (t : Z) (d : side) : M psys unit :=
  pipe_assert_locked t;;
  c ← gets (λ s, p_cond d (y_pipe s));
  match cond_signal room c with
  | None => halt Panic
  | Some (r, c) =>
      modify (λ s, set_pipe (p_set_cond d c (y_pipe s)) s);;
      match r with Some u => wake u | None => mret tt end
  end.
Definition pipe_wake_all (room : bool) (t : Z) (d : side) : M psys unit :=
  pipe_assert_locked t;;
  c ← gets (λ s, p_cond d (y_pipe s));
  match cond_broadcast room c with
  | None => halt Panic
  | Some (l, c) =>
      modify (λ s, set_pipe (p_set_cond d c (y_pipe s)) s);;
      modify (λ s, set_jobs (foldr (alter (wake_job 0)) (y_jobs s) l) s)
  end.
(** The wait itself; the result is where the thread is afterwards. *)
Definition pipe_wait (t : Z) (d : side) : M psys where_ :=
  c ← gets (λ s, p_cond d (y_pipe s));
  let '(b, c) := cond_wait t c in
  modify (λ s, set_pipe (p_set_cond d c (y_pipe s)) s);;
  mret (if b : bool then Asleep else Woken 0).

(** ** The operations

    [room]: the run queues have memory for a thread that is woken. *)

(** [read += ringbuf_read(...); pipe_unlockbuf(pipe);] *)
Definition read_xfer (t nb : Z) (got : list Z) : M psys job :=
  r ← pipe_getbuff t;
  x ← on_heap (ringbuf_read r true (u64 (nb - Z.of_nat (length got))));
  modify (log_out x.2);;
  pipe_unlockbuf t;;
  mret (Reading nb (got ++ x.2) Signal).

Definition pipefs_iread (room : bool) (t nb : Z) (got : list Z) (w : where_) : M psys job :=
  let goto w := Reading nb got w in
  match w with
  | Enter => b ← pipe_lock t; mret (goto (if b : bool then Top else Enter))
  | Top =>
      if decide (Z.of_nat (length got) < s64 nb) then
        ok ← pipe_testflags t PIPE_R;
        if negb ok then mret (goto SignalEnd) else
        pipe_lockbuf t;;
        r ← pipe_getbuff t;
        e ← on_heap (ringbuf_isempty r);
        if e : bool then pipe_unlockbuf t;; mret (goto SignalWait) else
        read_xfer t nb got
      else mret (goto (Leave (Z.of_nat (length got)) false))
  | Xfer => pipe_lockbuf t;; read_xfer t nb got
  | Signal => pipe_wake room t Writers;; mret (goto Top)
  | SignalWait => pipe_wake room t Writers;; mret (goto Release)
  | Release => pipe_unlock t;; mret (goto Wait)
  | Wait => w ← pipe_wait t Readers; mret (goto w)
  | Asleep => mret (goto Asleep)
  | Woken err =>
      b ← pipe_lock t;
      mret (goto (if b : bool then (if decide (err ≠ 0) then Leave err false else Xfer) else Woken err))
  | SignalEnd =>
      pipe_wake room t Writers;;
      let read := Z.of_nat (length got) in
      mret (goto (Leave (if decide (read ≠ 0) then read else - EPIPE) true))
  | Leave ret raise =>
      pipe_unlock t;; (if raise : bool then modify (log_sig t) else mret tt);; mret (Ret ret got)
  end.

Definition write_xfer (t nb : Z) (buf : list Z) (written : Z) : M psys job :=
  r ← pipe_getbuff t;
  n ← on_heap (ringbuf_write r (Some (drop (Z.to_nat written) buf)) (u64 (nb - written)));
  modify (log_in (take (Z.to_nat n) (drop (Z.to_nat written) buf)));;
  pipe_unlockbuf t;;
  mret (Writing nb buf (written + n) Signal).

Definition pipefs_iwrite (room : bool) (t nb : Z) (buf : list Z) (written : Z) (w : where_) : M psys job :=
  let goto w := Writing nb buf written w in
  match w with
  | Enter => b ← pipe_lock t; mret (goto (if b : bool then Top else Enter))
  | Top =>
      if decide (written < s64 nb) then
        ok ← pipe_testflags t PIPE_W;
        if negb ok then mret (goto SignalEnd) else
        pipe_lockbuf t;;
        r ← pipe_getbuff t;
        f ← on_heap (ringbuf_isfull r);
        if f : bool then pipe_unlockbuf t;; mret (goto SignalWait) else
        write_xfer t nb buf written
      else mret (goto (Leave written false))
  | Xfer => pipe_lockbuf t;; write_xfer t nb buf written
  | Signal => pipe_wake room t Readers;; mret (goto Top)
  | SignalWait => pipe_wake room t Readers;; mret (goto Release)
  | Release => pipe_unlock t;; mret (goto Wait)
  | Wait => w ← pipe_wait t Writers; mret (goto w)
  | Asleep => mret (goto Asleep)
  | Woken err =>
      b ← pipe_lock t;
      mret (goto (if b : bool then (if decide (err ≠ 0) then Leave err false else Xfer) else Woken err))
  | SignalEnd =>
      pipe_wake room t Readers;;
      mret (goto (Leave (if decide (written ≠ 0) then written else - EPIPE) true))
  | Leave ret raise =>
      pipe_unlock t;; (if raise : bool then modify (log_sig t) else mret tt);; mret (Ret ret [])
  end.

Definition pipefs_iclose (room : bool) (t : Z) (ip : ptr) (w : close_at) : M psys job :=
  let goto w := Closing ip w in
  p ← gets y_pipe;
  match w with
  | CEnter => b ← pipe_lock t; mret (goto (if b : bool then CMask else CEnter))
  | CMask =>
      if decide (p_iwrite p = ip) then pipe_maskflags t PIPE_W;; mret (goto CWake1) else
      if decide (p_iread p = ip) then pipe_maskflags t PIPE_R;; mret (goto CWake1) else
      halt Panic
  | CWake1 => pipe_wake_all room t (if decide (p_iwrite p = ip) then Readers else Writers);; mret (goto CWake2)
  | CWake2 => pipe_wake_all room t (if decide (p_iwrite p = ip) then Writers else Readers);; mret (goto CLeave)
  | CLeave => pipe_unlock t;; mret (Ret 0 [])
  end.

(** The operations a pipe does not have. *)
Definition pipefs_isync : Z := - ENOSYS.
Definition pipefs_iunlink : Z := - ENOSYS.
Definition pipefs_itruncate : Z := - ENOSYS.
Definition pipefs_igetattr : Z := - ENOSYS.
Definition pipefs_isetattr : Z := - ENOSYS.
Definition pipefs_ifcntl : Z := - ENOSYS.
Definition pipefs_imkdir : Z := - ENOSYS.
Definition pipefs_icreate : Z := - ENOSYS.
Definition pipefs_ibind : Z := - ENOSYS.
Definition pipefs_ilookup : Z := - ENOSYS.
Definition pipefs_isymlink : Z := - ENOSYS.
Definition pipefs_imknod : Z := - ENOSYS.
Definition pipefs_ireaddir : Z := - ENOSYS.
Definition pipefs_ilink : Z := - ENOSYS.
Definition pipefs_irename : Z := - ENOSYS.
Definition ENOTTY : Z := 25.
Definition pipefs_iioctl : Z := - ENOTTY.

(** ** Histories *)

Definition exec_job (room : bool) (t : Z) (j : job) : M psys job :=
  match j with
  | Free | Ret _ _ => mret j
  | Reading nb got w => pipefs_iread room t nb got w
  | Writing nb buf n w => pipefs_iwrite room t nb buf n w
  | Closing ip w => pipefs_iclose room t ip w
  end.

Variant event :=
  | Run (t : Z)                        (* the thread takes its next step *)
  | RunNoMem (t : Z)                   (* ... while nobody can be put on a run queue *)
  | CallRead (t nb : Z)
  | CallWrite (t : Z) (buf : list Z)   (* of the whole buffer *)
  | CallClose (t : Z) (ip : ptr)
  | Kill (t : Z)                       (* [thread_wake] of a killed sleeper: [-EINTR] *)
  | NoMem (t : Z).                     (* [sched_sleep] fails to queue the thread *)

Definition job_of (s : psys) (t : Z) : job := default Free (y_jobs s !! t).
Definition set_job (t : Z) (j : job) : M psys unit := modify (λ s, set_jobs (<[t := j]> (y_jobs s)) s).
Definition idle (j : job) : bool := match j with Free | Ret _ _ => true | _ => false end.
Definition start (t : Z) (j : job) : M psys unit :=
  j0 ← gets (λ s, job_of s t); if idle j0 then set_job t j else mret tt.

(** The condition variable a sleeping or waiting thread is at. *)
Definition waits_at (j : job) : option (side * where_) :=
  match j with Reading _ _ w => Some (Readers, w) | Writing _ _ _ w => Some (Writers, w) | _ => None end.
Definition at_where (j : job) (w : where_) : job :=
  match j with Reading nb got _ => Reading nb got w | Writing nb buf n _ => Writing nb buf n w | _ => j end.

Definition happen (e : event) : M psys unit :=
  match e with
  | Run t => j ← gets (λ s, job_of s t); j' ← exec_job true t j; set_job t j'
  | RunNoMem t => j ← gets (λ s, job_of s t); j' ← exec_job false t j; set_job t j'
  | CallRead t nb => start t (Reading (u64 nb) [] Enter)
  | CallWrite t buf => start t (Writing (Z.of_nat (length buf)) buf 0 Enter)
  | CallClose t ip => start t (Closing ip CEnter)
  | Kill t =>
      j ← gets (λ s, job_of s t);
      match waits_at j with
      | Some (d, Asleep) =>
          modify (λ s, let c := p_cond d (y_pipe s) in
            set_pipe (p_set_cond d (Cond (c_count c) (filter (λ u, u ≠ t) (c_waiters c))) (y_pipe s)) s);;
          set_job t (wake_job (- EINTR) j)
      | _ => mret tt
      end
  | NoMem t =>
      j ← gets (λ s, job_of s t);
      match waits_at j with
      | Some (d, Wait) =>
          modify (λ s, let c := p_cond d (y_pipe s) in
            set_pipe (p_set_cond d (Cond (u64 (c_count c + 1)) (c_waiters c)) (y_pipe s)) s);;
          set_job t (at_where j (Woken (- ENOMEM)))
      | _ => mret tt
      end
  end.

Fixpoint history (es : list event) : M psys unit :=
  match es with [] => mret tt | e :: es => happen e;; history es end.
