(* ===== verification/PipeSpec.v ===== *)
(** * Pipes: the abstract pipe and the refinement

    The abstract pipe keeps the ring buffer as the list of its bytes, and its
    steps are total functions.  The code refines it under every interleaving:
    the ring buffer of a pipe is only touched under the pipe lock, no
    assertion fails and no access is bad.  A wake-up that finds no memory for the
    run queue stops the kernel, and nothing else does ([wake_fails]). *)

From S2P Require Import Prelude Dll Heap Ringbuf Cond Pipe.

(** ** The abstract pipe *)

Record apipe := APipe {
  a_pipe : pipe_t;
  a_bs : list Z;
  a_jobs : gmap Z job;
  a_in : list Z;
  a_out : list Z;
}.

Definition a_set_pipe v a := APipe v (a_bs a) (a_jobs a) (a_in a) (a_out a).
Definition a_set_jobs v a := APipe (a_pipe a) (a_bs a) v (a_in a) (a_out a).
Definition a_take n a := APipe (a_pipe a) (drop n (a_bs a)) (a_jobs a) (a_in a) (a_out a ++ take n (a_bs a)).
Definition a_give l a := APipe (a_pipe a) (a_bs a ++ l) (a_jobs a) (a_in a ++ l) (a_out a).
Definition a_job (a : apipe) (t : Z) : job := default Free (a_jobs a !! t).

Section abs.
Context (size : Z).

(** Waking the first of the waiters, or all of them. *)
Definition a_signal (c : cond_t) : option Z * cond_t :=
  (head (c_waiters c), Cond (u64 (c_count c - 1)) (tail (c_waiters c))).
Definition a_broadcast (c : cond_t) : list Z * cond_t :=
  (c_waiters c, Cond (if decide (length (c_waiters c) = O) then u64 (- 1) else 0) []).

Definition a_unlock (a : apipe) : apipe := a_set_pipe (p_set_lock None (a_pipe a)) a.
Definition a_wake (d : side) (a : apipe) : apipe :=
  let '(r, c) := a_signal (p_cond d (a_pipe a)) in
  let a := a_set_pipe (p_set_cond d c (a_pipe a)) a in
  match r with Some u => a_set_jobs (alter (wake_job 0) u (a_jobs a)) a | None => a end.
Definition a_wake_all (d : side) (a : apipe) : apipe :=
  let '(l, c) := a_broadcast (p_cond d (a_pipe a)) in
  a_set_jobs (foldr (alter (wake_job 0)) (a_jobs a) l) (a_set_pipe (p_set_cond d c (a_pipe a)) a).
Definition a_wait (t : Z) (d : side) (a : apipe) : where_ * apipe :=
  let '(b, c) := cond_wait t (p_cond d (a_pipe a)) in
  (if b : bool then Asleep else Woken 0, a_set_pipe (p_set_cond d c (a_pipe a)) a).
Definition a_lock (t : Z) (a : apipe) : bool * apipe :=
  match p_lock (a_pipe a) with
  | None => (true, a_set_pipe (p_set_lock (Some t) (a_pipe a)) a)
  | Some _ => (false, a)
  end.
Definition has (fl : Z) (a : apipe) : bool := bool_decide (Z.land (p_flags (a_pipe a)) fl ≠ 0).

Definition a_read_xfer (nb : Z) (got : list Z) (a : apipe) : job * apipe :=
  let n := Z.to_nat (nb - Z.of_nat (length got)) in
  (Reading nb (got ++ take n (a_bs a)) Signal, a_take n a).
Definition a_write_xfer (nb : Z) (buf : list Z) (written : Z) (a : apipe) : job * apipe :=
  let l := accepted size (a_bs a) (drop (Z.to_nat written) buf) (nb - written) in
  (Writing nb buf (written + Z.of_nat (length l)) Signal, a_give l a).

(** The steps reads and writes have in common: [go] builds the job at a
    place, [mine] and [other] are the sides of the two ends, [todo] says that
    the loop goes on, [fl] the flag of this end, [stuck] that it must wait, and
    [count] how much is done. *)
Definition a_common (t : Z) (go : where_ -> job) (mine other : side) (todo : bool) (fl : Z) (stuck : bool) (count : Z) (got : list Z)
    (xfer : apipe -> job * apipe) (w : where_) (a : apipe) : job * apipe :=
  match w with
  | Enter => let '(b, a) := a_lock t a in (go (if b : bool then Top else Enter), a)
  | Top =>
      if todo then
        if has fl a then if stuck then (go SignalWait, a) else xfer a else (go SignalEnd, a)
      else (go (Leave count false), a)
  | Xfer => xfer a
  | Signal => (go Top, a_wake other a)
  | SignalWait => (go Release, a_wake other a)
  | Release => (go Wait, a_unlock a)
  | Wait => let '(w, a) := a_wait t mine a in (go w, a)
  | Asleep => (go Asleep, a)
  | Woken err => let '(b, a) := a_lock t a in
      (go (if b : bool then (if decide (err ≠ 0) then Leave err false else Xfer) else Woken err), a)
  | SignalEnd => (go (Leave (if decide (count ≠ 0) then count else - EPIPE) true), a_wake other a)
  | Leave ret raise => (Ret ret got, a_unlock a)
  end.

Definition a_iread (t nb : Z) (got : list Z) (w : where_) (a : apipe) : job * apipe :=
  a_common t (Reading nb got) Readers Writers (bool_decide (Z.of_nat (length got) < s64 nb)) PIPE_R
    (bool_decide (a_bs a = [])) (Z.of_nat (length got)) got (a_read_xfer nb got) w a.
Definition a_iwrite (t nb : Z) (buf : list Z) (written : Z) (w : where_) (a : apipe) : job * apipe :=
  a_common t (Writing nb buf written) Writers Readers (bool_decide (written < s64 nb)) PIPE_W
    (bool_decide (Z.of_nat (length (a_bs a)) = size)) written [] (a_write_xfer nb buf written) w a.

Definition a_iclose (t : Z) (ip : ptr) (w : close_at) (a : apipe) : job * apipe :=
  let wr := bool_decide (p_iwrite (a_pipe a) = ip) in
  match w with
  | CEnter => let '(b, a) := a_lock t a in (Closing ip (if b : bool then CMask else CEnter), a)
  | CMask => (Closing ip CWake1,
      a_set_pipe (p_set_flags (Z.land (p_flags (a_pipe a)) (Z.lnot (if wr then PIPE_W else PIPE_R))) (a_pipe a)) a)
  | CWake1 => (Closing ip CWake2, a_wake_all (if wr then Readers else Writers) a)
  | CWake2 => (Closing ip CLeave, a_wake_all (if wr then Writers else Readers) a)
  | CLeave => (Ret 0 [], a_unlock a)
  end.

Definition a_exec (t : Z) (j : job) (a : apipe) : job * apipe :=
  match j with
  | Free | Ret _ _ => (j, a)
  | Reading nb got w => a_iread t nb got w a
  | Writing nb buf n w => a_iwrite t nb buf n w a
  | Closing ip w => a_iclose t ip w a
  end.

Definition a_put (t : Z) (j : job) (a : apipe) : apipe := a_set_jobs (<[t := j]> (a_jobs a)) a.
Definition a_start (t : Z) (j : job) (a : apipe) : apipe := if idle (a_job a t) then a_put t j a else a.

Definition a_happen (e : event) (a : apipe) : apipe :=
  match e with
  | Run t | RunNoMem t => let '(j, a') := a_exec t (a_job a t) a in a_put t j a'
  | CallRead t nb => a_start t (Reading (u64 nb) [] Enter) a
  | CallWrite t buf => a_start t (Writing (Z.of_nat (length buf)) buf 0 Enter) a
  | CallClose t ip => a_start t (Closing ip CEnter) a
  | Kill t =>
      match waits_at (a_job a t) with
      | Some (d, Asleep) =>
          let c := p_cond d (a_pipe a) in
          a_put t (wake_job (- EINTR) (a_job a t))
            (a_set_pipe (p_set_cond d (Cond (c_count c) (filter (λ u, u ≠ t) (c_waiters c))) (a_pipe a)) a)
      | _ => a
      end
  | NoMem t =>
      match waits_at (a_job a t) with
      | Some (d, Wait) =>
          let c := p_cond d (a_pipe a) in
          a_put t (at_where (a_job a t) (Woken (- ENOMEM)))
            (a_set_pipe (p_set_cond d (Cond (u64 (c_count c + 1)) (c_waiters c)) (a_pipe a)) a)
      | _ => a
      end
  end.
Fixpoint a_history (es : list event) (a : apipe) : apipe :=
  match es with [] => a | e :: es => a_history es (a_happen e a) end.

(** The condition variable that the next step of a job signals or broadcasts. *)
Definition wakes_of (j : job) (a : apipe) : option side :=
  match j with
  | Reading _ _ (Signal | SignalWait | SignalEnd) => Some Writers
  | Writing _ _ _ (Signal | SignalWait | SignalEnd) => Some Readers
  | Closing ip CWake1 => Some (if decide (p_iwrite (a_pipe a) = ip) then Readers else Writers)
  | Closing ip CWake2 => Some (if decide (p_iwrite (a_pipe a) = ip) then Writers else Readers)
  | _ => None
  end.
(** A step that has to wake somebody. *)
Definition must_wake (j : job) (a : apipe) : bool :=
  match wakes_of j a with Some d => bool_decide (c_waiters (p_cond d (a_pipe a)) ≠ []) | None => false end.
(** Whether at some event a thread has to be woken and cannot be. *)
Fixpoint wake_fails (es : list event) (a : apipe) : bool :=
  match es with
  | [] => false
  | e :: es => match e with RunNoMem t => must_wake (a_job a t) a | _ => false end || wake_fails es (a_happen e a)
  end.

(** ** The invariant *)

Definition holds_lock (j : job) : bool :=
  match j with
  | Reading _ _ w | Writing _ _ _ w =>
      match w with Top | Xfer | Signal | SignalWait | Release | SignalEnd | Leave _ _ => true | _ => false end
  | Closing _ w => match w with CEnter => false | _ => true end
  | _ => false
  end.

(** Requests of less than 2^63 bytes, and closes of one of the two ends. *)
Definition job_ok (p : pipe_t) (j : job) : Prop :=
  match j with
  | Reading nb got w => 0 <= nb < 9223372036854775808 ∧ Z.of_nat (length got) <= nb
  | Writing nb buf n w => nb = Z.of_nat (length buf) ∧ nb < 9223372036854775808 ∧ 0 <= n <= nb
  | Closing ip w => ip = p_iwrite p ∨ ip = p_iread p
  | _ => True
  end.

Definition event_ok (p : pipe_t) (e : event) : Prop :=
  match e with
  | CallRead _ nb => 0 <= nb < 9223372036854775808
  | CallWrite _ buf => Z.of_nat (length buf) < 9223372036854775808
  | CallClose _ ip => ip = p_iwrite p ∨ ip = p_iread p
  | _ => True
  end.

Record ainv (a : apipe) : Prop := {
  av_lock t : p_lock (a_pipe a) = Some t <-> holds_lock (a_job a t) = true;
  av_jobs t : job_ok (a_pipe a) (a_job a t);
  av_fifo : a_out a ++ a_bs a = a_in a;
  av_room : Z.of_nat (length (a_bs a)) <= size;
}.
End abs.

Lemma a_job_put t j a u : a_job (a_put t j a) u = if decide (u = t) then j else a_job a u.
Proof.
  unfold a_job, a_put. simpl. case_decide as Hu; [subst; by rewrite lookup_insert_eq|by rewrite lookup_insert_ne].
Qed.

(** What waking does to the jobs: some sleepers go on. *)
Definition woken (a a' : apipe) : Prop :=
  ∀ u, a_job a' u = a_job a u ∨ a_job a' u = wake_job 0 (a_job a u).
(** The parts of a pipe that condition variables do not touch. *)
Definition frame (p : pipe_t) := (p_flags p, p_iread p, p_iwrite p, p_ringbuf p, p_lock p).
Definition quiet (a a' : apipe) : Prop :=
  frame (a_pipe a') = frame (a_pipe a) ∧ a_bs a' = a_bs a ∧ a_in a' = a_in a ∧ a_out a' = a_out a ∧ woken a a'.

Lemma wake_job_lock e j : holds_lock (wake_job e j) = holds_lock j.
Proof. destruct j as [|nb got w|nb buf n w|ip w|]; [done|by destruct w|by destruct w|done|done]. Qed.
Lemma wake_job_ok p e j : job_ok p (wake_job e j) <-> job_ok p j.
Proof. destruct j as [|nb got w|nb buf n w|ip w|]; [done|by destruct w|by destruct w|done|done]. Qed.
Lemma wake_job_twice e j : wake_job e (wake_job e j) = wake_job e j.
Proof. destruct j as [|nb got w|nb buf n w|ip w|]; [done|by destruct w|by destruct w|done|done]. Qed.

Lemma alter_job (m : gmap Z job) u e v :
  default Free (alter (wake_job e) u m !! v) = if decide (v = u) then wake_job e (default Free (m !! v)) else default Free (m !! v).
Proof.
  case_decide as Hv; [subst; rewrite lookup_alter_eq|by rewrite lookup_alter_ne]. by destruct (m !! u).
Qed.
Lemma alters_job (m : gmap Z job) l v :
  default Free (foldr (alter (wake_job 0)) m l !! v) =
  if decide (v ∈ l) then wake_job 0 (default Free (m !! v)) else default Free (m !! v).
Proof.
  induction l as [|u l IH]; simpl; [done|]. rewrite alter_job, IH.
  repeat case_decide; rewrite ?wake_job_twice; set_solver.
Qed.

Lemma cond_frame d c p : frame (p_set_cond d c p) = frame p.
Proof. by destruct d. Qed.

Lemma a_wake_job d a u : a_job (a_wake d a) u =
  if decide (head (c_waiters (p_cond d (a_pipe a))) = Some u) then wake_job 0 (a_job a u) else a_job a u.
Proof.
  unfold a_wake, a_signal. destruct (c_waiters _) as [|v w]; simpl; [done|]. unfold a_job. simpl. rewrite alter_job.
  repeat case_decide; naive_solver.
Qed.
Lemma a_wake_quiet d a : quiet a (a_wake d a).
Proof.
  unfold quiet. split_and!; [unfold a_wake, a_signal; destruct (c_waiters _); simpl; try apply cond_frame; done..|].
  intros u. rewrite a_wake_job. case_decide; auto.
Qed.
Lemma a_wake_all_job d a u : a_job (a_wake_all d a) u =
  if decide (u ∈ c_waiters (p_cond d (a_pipe a))) then wake_job 0 (a_job a u) else a_job a u.
Proof. unfold a_wake_all, a_broadcast, a_job. simpl. apply alters_job. Qed.
Lemma a_wake_all_quiet d a : quiet a (a_wake_all d a).
Proof.
  unfold quiet. split_and!; [apply cond_frame|done..|]. intros u. rewrite a_wake_all_job. case_decide; auto.
Qed.
Lemma a_wait_quiet t d a : quiet a (a_wait t d a).2.
Proof. unfold a_wait. destruct (cond_wait _ _). split_and!; [apply cond_frame|done..|]. intros u. by left. Qed.
Lemma quiet_refl a : quiet a a.
Proof. split_and!; try done. intros u. by left. Qed.

(** *** The invariant and a step of one thread *)

Section inv.
Context (size : Z).

Definition lock_moves (a a' : apipe) (t : Z) (j' : job) : Prop :=
  p_lock (a_pipe a') = p_lock (a_pipe a) ∧ holds_lock j' = holds_lock (a_job a t) ∨
  p_lock (a_pipe a) = None ∧ p_lock (a_pipe a') = Some t ∧ holds_lock j' = true ∨
  holds_lock (a_job a t) = true ∧ p_lock (a_pipe a') = None ∧ holds_lock j' = false.

Lemma ainv_put a a' t j' :
  ainv size a -> woken a a' -> p_iread (a_pipe a') = p_iread (a_pipe a) -> p_iwrite (a_pipe a') = p_iwrite (a_pipe a) ->
  lock_moves a a' t j' -> job_ok (a_pipe a) j' ->
  a_out a' ++ a_bs a' = a_in a' -> Z.of_nat (length (a_bs a')) <= size -> ainv size (a_put t j' a').
Proof.
  intros [Hl Hj _ _] Hw Hr1 Hr2 Hm Hok Hf Hs.
  assert (∀ u, holds_lock (a_job a' u) = holds_lock (a_job a u)) as Hh.
  { intros u. destruct (Hw u) as [->| ->]; [done|apply wake_job_lock]. }
  assert (∀ j, job_ok (a_pipe a') j <-> job_ok (a_pipe a) j) as Hp.
  { intros j. destruct j; simpl; rewrite ?Hr1, ?Hr2; done. }
  split; simpl; [|..|done|done].
  - intros u. rewrite a_job_put. destruct Hm as [[-> E]|[(Hn & -> & E)|(Ht & -> & E)]]; case_decide as Hu; subst; rewrite ?Hh, ?E.
    + apply Hl.
    + apply Hl.
    + naive_solver.
    + rewrite <- Hl, Hn. split; congruence.
    + done.
    + apply Hl in Ht. rewrite <- Hl, Ht. split; congruence.
  - intros u. rewrite a_job_put. change (a_pipe (a_put t j' a')) with (a_pipe a'). rewrite Hp. case_decide; [done|].
    destruct (Hw u) as [->| ->]; [done|]. by rewrite wake_job_ok.
Qed.

Lemma ainv_quiet a a' t j' :
  ainv size a -> quiet a a' -> holds_lock j' = holds_lock (a_job a t) -> job_ok (a_pipe a) j' -> ainv size (a_put t j' a').
Proof.
  intros Hv (Hf & Hb & Hi & Ho & Hw) Hh Hok. unfold frame in Hf. simplify_eq. eapply ainv_put; [done|done|done|done| |done|..].
  - left. done.
  - rewrite Hb, Hi, Ho. apply Hv.
  - rewrite Hb. apply Hv.
Qed.
End inv.

Section steps.
Context (size : Z) (Hsize : 0 < size).

Definition lock_at (w : where_) : bool :=
  match w with Top | Xfer | Signal | SignalWait | Release | SignalEnd | Leave _ _ => true | _ => false end.

Lemma ainv_locking a t j' :
  ainv size a -> holds_lock (a_job a t) = false -> job_ok (a_pipe a) j' -> holds_lock j' = (a_lock t a).1 ->
  ainv size (a_put t j' (a_lock t a).2).
Proof.
  intros Hv Hh Hok Hj. unfold a_lock in *. destruct (p_lock (a_pipe a)) as [u|] eqn:El; simpl in *.
  - eapply ainv_quiet; [done|apply quiet_refl|congruence|done].
  - eapply ainv_put; [done|intros u; by left|done|done|by right; left|done|apply Hv|apply Hv].
Qed.
Lemma ainv_unlock a t j' :
  ainv size a -> holds_lock (a_job a t) = true -> job_ok (a_pipe a) j' -> holds_lock j' = false ->
  ainv size (a_put t j' (a_unlock a)).
Proof. intros Hv Hh Hok Hj. eapply ainv_put; [done|intros u; by left|done|done|by right; right|done|apply Hv|apply Hv]. Qed.

Lemma ainv_common a t go mine other todo fl stuck count got xfer w :
  ainv size a -> a_job a t = go w -> (∀ w, job_ok (a_pipe a) (go w)) -> (∀ w, holds_lock (go w) = lock_at w) ->
  (w = Xfer ∨ w = Top ∧ todo = true -> ainv size (a_put t (xfer a).1 (xfer a).2)) ->
  let r := a_common t go mine other todo fl stuck count got xfer w a in ainv size (a_put t r.1 r.2).
Proof.
  intros Hv Hj Hok Hlk Hx. pose proof (Hlk w) as Hw. rewrite <- Hj in Hw. destruct w; simpl in *.
  - pose proof (ainv_locking a t (go (if (a_lock t a).1 then Top else Enter)) Hv Hw) as H.
    destruct (a_lock t a) as [b a']; simpl in *. apply H; [done|]. rewrite Hlk. by destruct b.
  - destruct todo; [destruct (has fl a); [destruct stuck|]|]; simpl; [|by auto|..]; (eapply ainv_quiet; [done|apply quiet_refl|by rewrite Hlk, Hw|done]).
  - by auto.
  - eapply ainv_quiet; [done|apply a_wake_quiet|by rewrite Hlk, Hw|done].
  - eapply ainv_quiet; [done|apply a_wake_quiet|by rewrite Hlk, Hw|done].
  - by apply ainv_unlock; [..|rewrite Hlk].
  - pose proof (a_wait_quiet t mine a) as Hq. destruct (a_wait t mine a) as [w a'] eqn:Ew; simpl in *.
    eapply ainv_quiet; [done|done| |done]. rewrite Hlk, Hw. unfold a_wait in Ew. destruct (cond_wait _ _) as [[] ?]; by simplify_eq.
  - eapply ainv_quiet; [done|apply quiet_refl|by rewrite Hlk, Hw|done].
  - pose proof (ainv_locking a t (go (if (a_lock t a).1 then if decide (err ≠ 0) then Leave err false else Xfer else Woken err)) Hv Hw) as H.
    destruct (a_lock t a) as [b a']; simpl in *. apply H; [done|]. rewrite Hlk. destruct b; [|done]. by case_decide.
  - eapply ainv_quiet; [done|apply a_wake_quiet|by rewrite Hlk, Hw|done].
  - by apply ainv_unlock.
Qed.

Lemma ainv_read_xfer a t nb got w :
  ainv size a -> a_job a t = Reading nb got w -> lock_at w = true ->
  ainv size (a_put t (a_read_xfer nb got a).1 (a_read_xfer nb got a).2).
Proof.
  intros Hv Hj Hw. pose proof (av_jobs _ _ Hv t) as Hok. rewrite Hj in Hok. simpl in Hok. unfold a_read_xfer. simpl.
  eapply ainv_put; [done|intros u; by left|done|done|left; split; [done|by rewrite Hj]| |simpl|simpl].
  - simpl. rewrite length_app, length_take. lia.
  - rewrite <- app_assoc, take_drop. apply Hv.
  - rewrite length_drop. pose proof (av_room _ _ Hv). lia.
Qed.

Lemma ainv_write_xfer a t nb buf n w :
  ainv size a -> a_job a t = Writing nb buf n w -> lock_at w = true ->
  ainv size (a_put t (a_write_xfer size nb buf n a).1 (a_write_xfer size nb buf n a).2).
Proof.
  intros Hv Hj Hw. pose proof (av_jobs _ _ Hv t) as Hok. rewrite Hj in Hok. simpl in Hok. unfold a_write_xfer. simpl.
  pose proof (av_room _ _ Hv).
  eapply ainv_put; [done|intros u; by left|done|done|left; split; [done|by rewrite Hj]| |simpl|simpl].
  - simpl. unfold accepted. rewrite length_take, length_drop. lia.
  - rewrite app_assoc, (av_fifo _ _ Hv). done.
  - rewrite length_app. unfold accepted. rewrite length_take, length_drop. lia.
Qed.

Lemma ainv_exec a t :
  ainv size a -> let r := a_exec size t (a_job a t) a in ainv size (a_put t r.1 r.2).
Proof.
  intros Hv r. subst r. pose proof (av_jobs _ _ Hv t) as Hok. destruct (a_job a t) as [|nb got w|nb buf n w|ip w|ret got] eqn:Hj.
  - eapply ainv_quiet; [done|apply quiet_refl|by rewrite Hj|done].
  - simpl. apply ainv_common; [done|done|done|done|]. intros Hw. eapply ainv_read_xfer; [done|done|]. by destruct Hw as [->|[-> _]].
  - simpl. apply ainv_common; [done|done|done|done|]. intros Hw. eapply ainv_write_xfer; [done|done|]. by destruct Hw as [->|[-> _]].
  - simpl in Hok. destruct w; simpl.
    + pose proof (ainv_locking a t (Closing ip (if (a_lock t a).1 then CMask else CEnter)) Hv) as H. rewrite Hj in H.
      destruct (a_lock t a) as [b a']; simpl in *. apply H; [done|done|by destruct b].
    + eapply ainv_put; [done|intros u; by left|done|done|left; by rewrite Hj|done|apply Hv|apply Hv].
    + eapply ainv_quiet; [done|apply a_wake_all_quiet|by rewrite Hj|done].
    + eapply ainv_quiet; [done|apply a_wake_all_quiet|by rewrite Hj|done].
    + by apply ainv_unlock; [..|rewrite Hj|done|done].
  - eapply ainv_quiet; [done|apply quiet_refl|by rewrite Hj|done].
Qed.

Lemma ainv_start a t j : ainv size a -> job_ok (a_pipe a) j -> holds_lock j = false -> ainv size (a_start t j a).
Proof.
  intros Hv Hok Hh. unfold a_start. destruct (idle (a_job a t)) eqn:Ei; [|done].
  eapply ainv_quiet; [done|apply quiet_refl| |done]. rewrite Hh. by destruct (a_job a t).
Qed.

(** A sleeper or a thread about to sleep goes on with an error. *)
Lemma ainv_fault a t d c j' :
  ainv size a -> job_ok (a_pipe a) j' -> holds_lock j' = holds_lock (a_job a t) ->
  ainv size (a_put t j' (a_set_pipe (p_set_cond d c (a_pipe a)) a)).
Proof.
  intros Hv Hok Hh. eapply ainv_quiet; [done| |done|done]. split_and!; [apply cond_frame|done..|]. intros u. by left.
Qed.

Lemma ainv_happen a e : ainv size a -> event_ok (a_pipe a) e -> ainv size (a_happen size e a).
Proof.
  intros Hv He. destruct e as [t|t|t nb|t buf|t ip|t|t]; simpl in *.
  - pose proof (ainv_exec a t Hv) as H. by destruct (a_exec size t (a_job a t) a).
  - pose proof (ainv_exec a t Hv) as H. by destruct (a_exec size t (a_job a t) a).
  - apply ainv_start; [done| |done]. simpl. rewrite u64_small by (unfold in_u64, two64; lia). lia.
  - apply ainv_start; [done| |done]. simpl. lia.
  - by apply ainv_start.
  - destruct (waits_at (a_job a t)) as [[d w]|] eqn:Hw; [|done]. destruct w; try done. pose proof (av_jobs _ _ Hv t).
    apply ainv_fault; [done|by apply wake_job_ok|apply wake_job_lock].
  - destruct (waits_at (a_job a t)) as [[d w]|] eqn:Hw; [|done]. destruct w; try done. pose proof (av_jobs _ _ Hv t) as Hok.
    destruct (a_job a t) as [| | | |] eqn:Hj; simplify_eq/=; [apply (ainv_fault a t Readers)|apply (ainv_fault a t Writers)]; first [done|by rewrite Hj].
Qed.

(** Events leave the two ends and the ring alone. *)
Definition ends (p : pipe_t) := (p_iread p, p_iwrite p, p_ringbuf p).
Lemma quiet_ends a a' : quiet a a' -> ends (a_pipe a') = ends (a_pipe a).
Proof. intros (Hf & _). unfold frame, ends in *. congruence. Qed.
Lemma lock_ends t a : ends (a_pipe (a_lock t a).2) = ends (a_pipe a).
Proof. unfold a_lock. by destruct (p_lock _). Qed.

Lemma exec_ends a t j : ends (a_pipe (a_exec size t j a).2) = ends (a_pipe a).
Proof.
  assert (∀ go mine other todo fl stuck count got xfer w, ends (a_pipe (xfer a).2) = ends (a_pipe a) ->
    ends (a_pipe (a_common t go mine other todo fl stuck count got xfer w a).2) = ends (a_pipe a)) as Hc.
  { intros go mine other todo fl stuck count got xfer w Hx. destruct w; simpl; try done;
      try (apply quiet_ends, a_wake_quiet).
    - pose proof (lock_ends t a). by destruct (a_lock t a).
    - by destruct todo; [destruct (has fl a); [destruct stuck|]|].
    - pose proof (quiet_ends _ _ (a_wait_quiet t mine a)). by destruct (a_wait t mine a).
    - pose proof (lock_ends t a). by destruct (a_lock t a). }
  destruct j as [|nb got w|nb buf n w|ip w|ret got]; simpl; [done|by apply Hc|by apply Hc| |done].
  destruct w; cbn [a_iclose snd]; [|done|apply quiet_ends, a_wake_all_quiet|apply quiet_ends, a_wake_all_quiet|done].
  pose proof (lock_ends t a). by destruct (a_lock t a).
Qed.

Lemma happen_ends a e : ends (a_pipe (a_happen size e a)) = ends (a_pipe a).
Proof.
  destruct e as [t|t|t nb|t buf|t ip|t|t]; simpl; try (unfold a_start; by destruct (idle _)).
  - pose proof (exec_ends a t (a_job a t)). by destruct (a_exec size t (a_job a t) a).
  - pose proof (exec_ends a t (a_job a t)). by destruct (a_exec size t (a_job a t) a).
  - destruct (waits_at _) as [[d w]|]; [|done]. destruct w; try done. by destruct d.
  - destruct (waits_at _) as [[d w]|]; [|done]. destruct w; try done. by destruct d.
Qed.
Lemma event_ok_ends p p' e : ends p' = ends p -> event_ok p e -> event_ok p' e.
Proof. unfold ends. intros [= E1 E2 E3]. destruct e; simpl; rewrite ?E1, ?E2; done. Qed.
End steps.

(** ** The code refines the abstract pipe *)

Section refine.
Context (size : Z) (Hdiv : (size | two64)).

(** [lk]: the ring buffer is locked. *)
Record rel (lk : bool) (s : psys) (a : apipe) : Prop := {
  rl_pipe : y_pipe s = a_pipe a;
  rl_jobs : y_jobs s = a_jobs a;
  rl_in : y_in s = a_in a;
  rl_out : y_out s = a_out a;
  rl_ring : ring_rep (y_heap s) (p_ringbuf (a_pipe a)) lk size (a_bs a);
}.

Lemma rel_pipe lk s a p :
  rel lk s a -> p_ringbuf p = p_ringbuf (a_pipe a) -> rel lk (set_pipe p s) (a_set_pipe p a).
Proof. intros [H1 H2 H3 H4 H5] E. split; simpl; [done..|]. by rewrite E. Qed.
Lemma rel_jobs lk s a m : rel lk s a -> rel lk (set_jobs m s) (a_set_jobs m a).
Proof. by intros [H1 H2 H3 H4 H5]. Qed.

Lemma wp_on_heap {A} (c : M dsheap A) s (Q : A -> psys -> Prop) :
  wp c (y_heap s) (λ x h, Q x (set_heap h s)) -> wp (on_heap c) s Q.
Proof. unfold wp, on_heap. by destruct (c (y_heap s)). Qed.

Lemma wp_pipe_assert_locked lk s a t (Q : unit -> psys -> Prop) :
  rel lk s a -> p_lock (a_pipe a) = Some t -> Q tt s -> wp (pipe_assert_locked t) s Q.
Proof.
  intros Hr Hl HQ. unfold pipe_assert_locked. wp_step. wp_step. apply wp_assert; [|done]. apply bool_decide_eq_true.
  by rewrite (rl_pipe _ _ _ Hr).
Qed.
Lemma wp_getbuff lk s a t (Q : ptr -> psys -> Prop) :
  rel lk s a -> p_lock (a_pipe a) = Some t -> Q (p_ringbuf (a_pipe a)) s -> wp (pipe_getbuff t) s Q.
Proof.
  intros Hr Hl HQ. unfold pipe_getbuff. wp_step. eapply wp_pipe_assert_locked; [done..|]. wp_step. by rewrite (rl_pipe _ _ _ Hr).
Qed.

Lemma ring_lock_set (b b' : bool) h r bs :
  ring_rep h r b size bs -> ∃ ring, d_rings h !! r = Some ring ∧ r_lock ring = b ∧
    ring_rep (set_rings (<[r := r_set_lock b' ring]> (d_rings h)) h) r b' size bs.
Proof.
  intros [Hp Hs (bf & hd & arr & Hr & Hb & Hhd & Harr & Hlen & Hbs) Hc].
  eexists. split; [exact Hr|]. split; [done|]. split; [done|done| |done].
  exists bf, hd, arr. simpl. rewrite lookup_insert_eq. split_and!; done.
Qed.

Lemma wp_lockbuf s a t (Q : unit -> psys -> Prop) :
  rel false s a -> p_lock (a_pipe a) = Some t -> (∀ s', rel true s' a -> Q tt s') -> wp (pipe_lockbuf t) s Q.
Proof.
  intros Hr Hl HQ. unfold pipe_lockbuf. wp_step. eapply wp_getbuff; [done..|]. apply wp_on_heap.
  destruct (ring_lock_set false true _ _ _ (rl_ring _ _ _ Hr)) as (ring & Hg & Hlk & Hr').
  pose proof (valid_ptr_nonnull _ (rr_ptr _ _ _ _ _ Hr')) as Hp. unfold ringbuf_lock, ringbuf_assert.
  wp_step. apply wp_assert; [by apply bool_decide_eq_true|]. wp_step. eapply wp_load; [done|exact Hg|].
  wp_step. apply wp_assert; [by rewrite Hlk|]. eapply wp_update; [done|exact Hg|]. apply HQ. split; simpl; try apply Hr. done.
Qed.
Lemma wp_unlockbuf s a t (Q : unit -> psys -> Prop) :
  rel true s a -> p_lock (a_pipe a) = Some t -> (∀ s', rel false s' a -> Q tt s') -> wp (pipe_unlockbuf t) s Q.
Proof.
  intros Hr Hl HQ. unfold pipe_unlockbuf. wp_step. eapply wp_getbuff; [done..|]. apply wp_on_heap.
  destruct (ring_lock_set true false _ _ _ (rl_ring _ _ _ Hr)) as (ring & Hg & Hlk & Hr').
  pose proof (valid_ptr_nonnull _ (rr_ptr _ _ _ _ _ Hr')) as Hp. unfold ringbuf_unlock, ringbuf_assert.
  wp_step. apply wp_assert; [by apply bool_decide_eq_true|]. wp_step. eapply wp_load; [done|exact Hg|].
  wp_step. apply wp_assert; [by rewrite Hlk|]. eapply wp_update; [done|exact Hg|]. apply HQ. split; simpl; try apply Hr. done.
Qed.

(** A computation of the code does what the abstract step does. *)
Definition does (c : M psys job) (s : psys) (r : job * apipe) : Prop :=
  wp c s (λ j s', j = r.1 ∧ rel false s' r.2).

Lemma does_read_xfer s a t nb got :
  rel true s a -> p_lock (a_pipe a) = Some t -> Z.of_nat (length got) <= nb < 9223372036854775808 ->
  does (read_xfer t nb got) s (a_read_xfer nb got a).
Proof.
  intros Hr Hl Hn. unfold does, read_xfer. wp_step. eapply wp_getbuff; [done..|]. wp_step. apply wp_on_heap.
  rewrite u64_small by (unfold in_u64, two64; lia).
  eapply wp_ringbuf_read; [done|lia|apply Hr|]. intros h' Hr'. simpl. set (n := Z.to_nat (nb - Z.of_nat (length got))) in *.
  wp_step. wp_step. wp_step. eapply (wp_unlockbuf _ (a_take n a)).
  - split; simpl; try apply Hr; [by rewrite (rl_out _ _ _ Hr)|done].
  - done.
  - intros s' Hs'. by apply wp_ret.
Qed.

Lemma take_accepted (bs buf : list Z) n :
  take (Z.to_nat (Z.of_nat (length (accepted size bs buf n)))) buf = accepted size bs buf n.
Proof.
  unfold accepted. rewrite Nat2Z.id, length_take. set (k := (_ `min` (_ - _))%nat).
  destruct (decide (k <= length buf)%nat); [f_equal; lia|by rewrite !take_ge by lia].
Qed.

Lemma does_write_xfer s a t nb buf n :
  rel true s a -> p_lock (a_pipe a) = Some t -> nb = Z.of_nat (length buf) -> 0 <= n <= nb -> nb < 9223372036854775808 ->
  does (write_xfer t nb buf n) s (a_write_xfer size nb buf n a).
Proof.
  intros Hr Hl Hnb Hn Hlt. unfold does, write_xfer. wp_step. eapply wp_getbuff; [done..|]. wp_step. apply wp_on_heap.
  rewrite u64_small by (unfold in_u64, two64; lia).
  eapply wp_ringbuf_write; [done|rewrite length_drop; lia|apply Hr|]. intros h' Hr'. simpl.
  set (l := accepted size (a_bs a) (drop (Z.to_nat n) buf) (nb - n)) in *.
  wp_step. wp_step. wp_step. eapply (wp_unlockbuf _ (a_give l a)).
  - split; simpl; try apply Hr; [rewrite (rl_in _ _ _ Hr); unfold l; by rewrite take_accepted|done].
  - done.
  - intros s' Hs'. by apply wp_ret.
Qed.

Lemma wp_pipe_lock s a t (Q : bool -> psys -> Prop) :
  rel false s a -> p_lock (a_pipe a) ≠ Some t ->
  (∀ s', rel false s' (a_lock t a).2 -> Q (a_lock t a).1 s') -> wp (pipe_lock t) s Q.
Proof.
  intros Hr Hl HQ. unfold pipe_lock. wp_step. wp_step. rewrite (rl_pipe _ _ _ Hr). unfold a_lock in HQ.
  destruct (p_lock (a_pipe a)) as [u|] eqn:El; simpl in HQ.
  - wp_step. apply wp_assert; [apply bool_decide_eq_true; congruence|]. apply wp_ret. by apply HQ.
  - wp_step. wp_step. apply wp_ret. apply HQ. rewrite (rl_pipe _ _ _ Hr). by apply rel_pipe.
Qed.
Lemma wp_pipe_unlock s a t (Q : unit -> psys -> Prop) :
  rel false s a -> p_lock (a_pipe a) = Some t -> (∀ s', rel false s' (a_unlock a) -> Q tt s') -> wp (pipe_unlock t) s Q.
Proof.
  intros Hr Hl HQ. unfold pipe_unlock. wp_step. eapply wp_pipe_assert_locked; [done..|]. wp_step. apply HQ.
  rewrite (rl_pipe _ _ _ Hr). by apply rel_pipe.
Qed.
(** Whether the kernel stops at a wake-up. *)
Definition stuck_wake (room : bool) (d : side) (a : apipe) : bool := bool_decide (c_waiters (p_cond d (a_pipe a)) ≠ []) && negb room.
Lemma cond_signal_spec room c : cond_signal room c = if bool_decide (c_waiters c ≠ []) && negb room then None else Some (a_signal c).
Proof. unfold cond_signal, cond_wake1, a_signal. destruct c as [n [|t w]]; simpl; [done|]. by destruct room. Qed.
Lemma cond_broadcast_spec room c : cond_broadcast room c = if bool_decide (c_waiters c ≠ []) && negb room then None else Some (a_broadcast c).
Proof. unfold cond_broadcast, cond_wakeall, a_broadcast. destruct c as [n [|t w]]; simpl; [done|]. by destruct room. Qed.

Lemma wp_wake room s a t d (Q : unit -> psys -> Prop) :
  rel false s a -> p_lock (a_pipe a) = Some t -> stuck_wake room d a = false -> (∀ s', rel false s' (a_wake d a) -> Q tt s') -> wp (pipe_wake room t d) s Q.
Proof.
  intros Hr Hl Hw HQ. unfold pipe_wake. wp_step. eapply wp_pipe_assert_locked; [done..|]. wp_step. wp_step. rewrite (rl_pipe _ _ _ Hr).
  rewrite cond_signal_spec. unfold stuck_wake in Hw. rewrite Hw.
  unfold a_wake in HQ. destruct (a_signal _) as [r c]. wp_step. wp_step. rewrite (rl_pipe _ _ _ Hr).
  assert (rel false (set_pipe (p_set_cond d c (a_pipe a)) s) (a_set_pipe (p_set_cond d c (a_pipe a)) a)) as Hr' by (apply rel_pipe; [done|by destruct d]).
  destruct r as [u|]; [|by apply wp_ret, HQ]. unfold wake. wp_step. apply HQ. rewrite (rl_jobs _ _ _ Hr'). by apply rel_jobs.
Qed.
Lemma wp_wake_all room s a t d (Q : unit -> psys -> Prop) :
  rel false s a -> p_lock (a_pipe a) = Some t -> stuck_wake room d a = false -> (∀ s', rel false s' (a_wake_all d a) -> Q tt s') -> wp (pipe_wake_all room t d) s Q.
Proof.
  intros Hr Hl Hw HQ. unfold pipe_wake_all. wp_step. eapply wp_pipe_assert_locked; [done..|]. wp_step. wp_step. rewrite (rl_pipe _ _ _ Hr).
  rewrite cond_broadcast_spec. unfold stuck_wake in Hw. rewrite Hw.
  unfold a_wake_all in HQ. destruct (a_broadcast _) as [l c]. wp_step. wp_step. wp_step. apply HQ. rewrite (rl_pipe _ _ _ Hr).
  change (y_jobs (set_pipe ?p s)) with (y_jobs s). rewrite (rl_jobs _ _ _ Hr).
  apply (rel_jobs _ _ (a_set_pipe (p_set_cond d c (a_pipe a)) a)). apply rel_pipe; [done|by destruct d].
Qed.
(** A wake-up that fails stops the kernel. *)
Lemma wake_panics {A} s a t d (k : M psys A) : rel false s a -> stuck_wake false d a = true -> (pipe_wake false t d;; k) s = Stop Panic.
Proof.
  intros Hr Hw. unfold pipe_wake, pipe_assert_locked, mbind, M_bind, gets, assert_. rewrite (rl_pipe _ _ _ Hr). case_bool_decide; [|done]. simpl.
  rewrite (rl_pipe _ _ _ Hr), cond_signal_spec. unfold stuck_wake in Hw. by rewrite Hw.
Qed.
Lemma wake_all_panics {A} s a t d (k : M psys A) : rel false s a -> stuck_wake false d a = true -> (pipe_wake_all false t d;; k) s = Stop Panic.
Proof.
  intros Hr Hw. unfold pipe_wake_all, pipe_assert_locked, mbind, M_bind, gets, assert_. rewrite (rl_pipe _ _ _ Hr). case_bool_decide; [|done]. simpl.
  rewrite (rl_pipe _ _ _ Hr), cond_broadcast_spec. unfold stuck_wake in Hw. by rewrite Hw.
Qed.
Lemma wp_wait s a t d (Q : where_ -> psys -> Prop) :
  rel false s a -> (∀ s', rel false s' (a_wait t d a).2 -> Q (a_wait t d a).1 s') -> wp (pipe_wait t d) s Q.
Proof.
  intros Hr HQ. unfold pipe_wait. wp_step. wp_step. rewrite (rl_pipe _ _ _ Hr). unfold a_wait in HQ. destruct (cond_wait _ _) as [b c].
  wp_step. wp_step. apply wp_ret. apply HQ. rewrite (rl_pipe _ _ _ Hr). apply rel_pipe; [done|by destruct d].
Qed.
Lemma wp_testflags s a t fl (Q : bool -> psys -> Prop) :
  rel false s a -> p_lock (a_pipe a) = Some t -> Q (has fl a) s -> wp (pipe_testflags t fl) s Q.
Proof.
  intros Hr Hl HQ. unfold pipe_testflags. wp_step. eapply wp_pipe_assert_locked; [done..|]. wp_step. wp_step. apply wp_ret.
  by rewrite (rl_pipe _ _ _ Hr).
Qed.
End refine.

Section refine_steps.
Context (size : Z) (Hdiv : (size | two64)).

Lemma s64_req nb : 0 <= nb < 9223372036854775808 -> s64 nb = nb.
Proof. intros H. unfold s64. rewrite u64_small by (unfold in_u64, two64; lia). rewrite decide_True by lia. done. Qed.

(** Taking the lock, and going where the result says. *)
Lemma does_lock s a t (k : bool -> job) :
  rel size false s a -> p_lock (a_pipe a) ≠ Some t ->
  does size (b ← pipe_lock t; mret (k b)) s (k (a_lock t a).1, (a_lock t a).2).
Proof. intros Hr Hl. unfold does. wp_step. eapply wp_pipe_lock; [done..|]. intros s' Hs'. by apply wp_ret. Qed.
Lemma does_wake room s a t d j :
  rel size false s a -> p_lock (a_pipe a) = Some t -> stuck_wake room d a = false -> does size (pipe_wake room t d;; mret j) s (j, a_wake d a).
Proof. intros Hr Hl Hw. unfold does. wp_step. eapply wp_wake; [done..|]. intros s' Hs'. by apply wp_ret. Qed.
Lemma does_wake_all room s a t d j :
  rel size false s a -> p_lock (a_pipe a) = Some t -> stuck_wake room d a = false -> does size (pipe_wake_all room t d;; mret j) s (j, a_wake_all d a).
Proof. intros Hr Hl Hw. unfold does. wp_step. eapply wp_wake_all; [done..|]. intros s' Hs'. by apply wp_ret. Qed.
Lemma does_unlock s a t j :
  rel size false s a -> p_lock (a_pipe a) = Some t -> does size (pipe_unlock t;; mret j) s (j, a_unlock a).
Proof. intros Hr Hl. unfold does. wp_step. eapply wp_pipe_unlock; [done..|]. intros s' Hs'. by apply wp_ret. Qed.
Lemma does_wait s a t d (k : where_ -> job) :
  rel size false s a -> does size (w ← pipe_wait t d; mret (k w)) s (k (a_wait t d a).1, (a_wait t d a).2).
Proof. intros Hr. unfold does. wp_step. eapply wp_wait; [done..|]. intros s' Hs'. by apply wp_ret. Qed.
Lemma does_leave s a t raise j :
  rel size false s a -> p_lock (a_pipe a) = Some t ->
  does size (pipe_unlock t;; (if raise : bool then modify (log_sig t) else mret tt);; mret j) s (j, a_unlock a).
Proof.
  intros Hr Hl. unfold does. wp_step. eapply wp_pipe_unlock; [done..|]. intros s' Hs'. wp_step.
  destruct raise; [wp_step|apply wp_ret]; apply wp_ret; (split; [done|]); [|done]. by destruct Hs'.
Qed.
Lemma does_xfer s a t (c : M psys job) r :
  rel size false s a -> p_lock (a_pipe a) = Some t -> (∀ s', rel size true s' a -> does size c s' r) ->
  does size (pipe_lockbuf t;; c) s r.
Proof. intros Hr Hl Hc. unfold does. wp_step. eapply wp_lockbuf; [done..|]. intros s' Hs'. by apply Hc. Qed.

Lemma does_iread room s a t nb got w :
  rel size false s a -> ainv size a -> a_job a t = Reading nb got w -> must_wake (a_job a t) a && negb room = false -> does size (pipefs_iread room t nb got w) s (a_iread t nb got w a).
Proof.
  intros Hr Hv Hj Hmw. rewrite Hj in Hmw. pose proof (av_jobs _ _ Hv t) as Hok. pose proof (av_lock _ _ Hv t) as Hlk. rewrite Hj in Hok, Hlk. simpl in Hok.
  assert (lock_at w = true -> p_lock (a_pipe a) = Some t) as Hl by (intros; by apply Hlk).
  assert (lock_at w = false -> p_lock (a_pipe a) ≠ Some t) as Hnl by (intros E E2; apply Hlk in E2; simpl in E2; unfold lock_at in E; congruence).
  assert (lock_at w = true -> ∀ s', rel size true s' a -> does size (read_xfer t nb got) s' (a_read_xfer nb got a)) as Hx.
  { intros Hw s' Hs'. apply does_read_xfer; [done|done|by apply Hl|lia]. }
  unfold pipefs_iread, a_iread. destruct w; simpl a_common.
  - pose proof (does_lock s a t (λ b, Reading nb got (if b then Top else Enter)) Hr (Hnl eq_refl)). by destruct (a_lock t a).
  - rewrite <- (decide_bool_decide (Z.of_nat (length got) < s64 nb)). case_decide as Hd; [|by apply wp_ret].
    unfold does. wp_step. eapply wp_testflags; [done|by apply Hl|]. destruct (has PIPE_R a); [|by apply wp_ret]. simpl.
    wp_step. eapply wp_lockbuf; [done|by apply Hl|]. intros s1 Hs1. wp_step. eapply wp_getbuff; [done|by apply Hl|].
    wp_step. apply wp_on_heap. eapply wp_ringbuf_isempty; [apply Hs1|].
    assert (set_heap (y_heap s1) s1 = s1) as -> by by destruct s1. case_bool_decide; [|by apply Hx].
    wp_step. eapply wp_unlockbuf; [done|by apply Hl|]. intros s2 Hs2. by apply wp_ret.
  - apply (does_xfer s a); [done|by apply Hl|by apply Hx].
  - apply does_wake; [done|by apply Hl|exact Hmw].
  - apply does_wake; [done|by apply Hl|exact Hmw].
  - apply does_unlock; [done|by apply Hl].
  - pose proof (does_wait s a t Readers (Reading nb got) Hr). by destruct (a_wait t Readers a).
  - by apply wp_ret.
  - pose proof (does_lock s a t (λ b, Reading nb got (if b then if decide (err ≠ 0) then Leave err false else Xfer else Woken err)) Hr (Hnl eq_refl)).
    by destruct (a_lock t a).
  - apply does_wake; [done|by apply Hl|exact Hmw].
  - apply does_leave; [done|by apply Hl].
Qed.

Lemma does_iwrite room s a t nb buf n w :
  rel size false s a -> ainv size a -> a_job a t = Writing nb buf n w -> must_wake (a_job a t) a && negb room = false ->
  does size (pipefs_iwrite room t nb buf n w) s (a_iwrite size t nb buf n w a).
Proof.
  intros Hr Hv Hj Hmw. rewrite Hj in Hmw. pose proof (av_jobs _ _ Hv t) as Hok. pose proof (av_lock _ _ Hv t) as Hlk. rewrite Hj in Hok, Hlk. simpl in Hok.
  assert (lock_at w = true -> p_lock (a_pipe a) = Some t) as Hl by (intros; by apply Hlk).
  assert (lock_at w = false -> p_lock (a_pipe a) ≠ Some t) as Hnl by (intros E E2; apply Hlk in E2; simpl in E2; unfold lock_at in E; congruence).
  assert (lock_at w = true -> ∀ s', rel size true s' a -> does size (write_xfer t nb buf n) s' (a_write_xfer size nb buf n a)) as Hx.
  { intros Hw s' Hs'. apply does_write_xfer; [done|done|by apply Hl|lia..]. }
  unfold pipefs_iwrite, a_iwrite. destruct w; simpl a_common.
  - pose proof (does_lock s a t (λ b, Writing nb buf n (if b then Top else Enter)) Hr (Hnl eq_refl)). by destruct (a_lock t a).
  - rewrite <- (decide_bool_decide (n < s64 nb)). case_decide as Hd; [|by apply wp_ret].
    unfold does. wp_step. eapply wp_testflags; [done|by apply Hl|]. destruct (has PIPE_W a); [|by apply wp_ret]. simpl.
    wp_step. eapply wp_lockbuf; [done|by apply Hl|]. intros s1 Hs1. wp_step. eapply wp_getbuff; [done|by apply Hl|].
    wp_step. apply wp_on_heap. eapply wp_ringbuf_isfull; [apply Hs1|].
    assert (set_heap (y_heap s1) s1 = s1) as -> by by destruct s1. case_bool_decide; [|by apply Hx].
    wp_step. eapply wp_unlockbuf; [done|by apply Hl|]. intros s2 Hs2. by apply wp_ret.
  - apply (does_xfer s a); [done|by apply Hl|by apply Hx].
  - apply does_wake; [done|by apply Hl|exact Hmw].
  - apply does_wake; [done|by apply Hl|exact Hmw].
  - apply does_unlock; [done|by apply Hl].
  - pose proof (does_wait s a t Writers (Writing nb buf n) Hr). by destruct (a_wait t Writers a).
  - by apply wp_ret.
  - pose proof (does_lock s a t (λ b, Writing nb buf n (if b then if decide (err ≠ 0) then Leave err false else Xfer else Woken err)) Hr (Hnl eq_refl)).
    by destruct (a_lock t a).
  - apply does_wake; [done|by apply Hl|exact Hmw].
  - apply does_leave; [done|by apply Hl].
Qed.

Lemma does_iclose room s a t ip w :
  rel size false s a -> ainv size a -> a_job a t = Closing ip w -> must_wake (a_job a t) a && negb room = false -> does size (pipefs_iclose room t ip w) s (a_iclose t ip w a).
Proof.
  intros Hr Hv Hj Hmw. rewrite Hj in Hmw. pose proof (av_jobs _ _ Hv t) as Hok. pose proof (av_lock _ _ Hv t) as Hlk. rewrite Hj in Hok, Hlk. simpl in Hok.
  unfold does, pipefs_iclose, a_iclose. wp_step. wp_step. rewrite (rl_pipe _ _ _ _ Hr).
  rewrite <- !(decide_bool_decide (p_iwrite (a_pipe a) = ip)).
  assert (w ≠ CEnter -> p_lock (a_pipe a) = Some t) as Hl by (intros; apply Hlk; by destruct w).
  destruct w.
  - assert (p_lock (a_pipe a) ≠ Some t) as Hnl by (intros E; apply Hlk in E; done).
    pose proof (does_lock s a t (λ b, Closing ip (if b then CMask else CEnter)) Hr Hnl) as H. by destruct (a_lock t a).
  - assert (∀ fl, wp (pipe_maskflags t fl;; mret (Closing ip CWake1)) s (λ j s', j = Closing ip CWake1 ∧
      rel size false s' (a_set_pipe (p_set_flags (Z.land (p_flags (a_pipe a)) (Z.lnot fl)) (a_pipe a)) a))) as Hm.
    { intros fl. wp_step. unfold pipe_maskflags. wp_step. eapply wp_pipe_assert_locked; [done|by apply Hl|]. wp_step. apply wp_ret.
      split; [done|]. rewrite (rl_pipe _ _ _ _ Hr). by apply rel_pipe. }
    case_decide as H1; [apply Hm|]. rewrite decide_True by (destruct Hok; congruence). apply Hm.
  - apply does_wake_all; [done|by apply Hl|exact Hmw].
  - apply does_wake_all; [done|by apply Hl|exact Hmw].
  - apply does_unlock; [done|by apply Hl].
Qed.

Lemma does_exec room s a t :
  rel size false s a -> ainv size a -> must_wake (a_job a t) a && negb room = false ->
  does size (exec_job room t (a_job a t)) s (a_exec size t (a_job a t) a).
Proof.
  intros Hr Hv Hmw. destruct (a_job a t) as [|nb got w|nb buf n w|ip w|ret got] eqn:Hj; simpl.
  - by apply wp_ret.
  - apply does_iread; [done|done|done|by rewrite Hj].
  - apply does_iwrite; [done|done|done|by rewrite Hj].
  - apply does_iclose; [done|done|done|by rewrite Hj].
  - by apply wp_ret.
Qed.
Lemma exec_panics s a t : rel size false s a -> must_wake (a_job a t) a = true -> exec_job false t (a_job a t) s = Stop Panic.
Proof.
  intros Hr Hmw. assert (∀ d, bool_decide (c_waiters (p_cond d (a_pipe a)) ≠ []) = true -> stuck_wake false d a = true) as Hs.
  { intros d Hd. unfold stuck_wake. by rewrite Hd. }
  destruct (a_job a t) as [|nb got w|nb buf n w|ip w|ret got]; try done; unfold must_wake, wakes_of in Hmw.
  - destruct w; try done; simpl; by eapply wake_panics; [|apply Hs].
  - destruct w; try done; simpl; by eapply wake_panics; [|apply Hs].
  - destruct w; try done; simpl; unfold pipefs_iclose, mbind at 1, M_bind at 1, gets; rewrite (rl_pipe _ _ _ _ Hr); by eapply wake_all_panics; [|apply Hs].
Qed.

Lemma rel_job lk s a t : rel size lk s a -> job_of s t = a_job a t.
Proof. intros Hr. unfold job_of, a_job. by rewrite (rl_jobs _ _ _ _ Hr). Qed.
Lemma rel_put s a t j : rel size false s a -> rel size false (set_jobs (<[t := j]> (y_jobs s)) s) (a_put t j a).
Proof. intros Hr. rewrite (rl_jobs _ _ _ _ Hr). by apply rel_jobs. Qed.

Lemma wp_start s a t j :
  rel size false s a -> wp (start t j) s (λ _ s', rel size false s' (a_start t j a)).
Proof.
  intros Hr. unfold start, a_start. wp_step. wp_step. rewrite (rel_job _ _ _ _ Hr). destruct (idle (a_job a t)); [|by apply wp_ret].
  unfold set_job. wp_step. by apply rel_put.
Qed.

Lemma wp_fault s a t d c j :
  rel size false s a ->
  wp (modify (λ s, set_pipe (p_set_cond d (c (p_cond d (y_pipe s))) (y_pipe s)) s);; set_job t j) s
     (λ _ s', rel size false s' (a_put t j (a_set_pipe (p_set_cond d (c (p_cond d (a_pipe a))) (a_pipe a)) a))).
Proof.
  intros Hr. wp_step. wp_step. unfold set_job. wp_step. rewrite (rl_pipe _ _ _ _ Hr). apply rel_put. apply rel_pipe; [done|by destruct d].
Qed.

(** An event at which a thread has to be woken and cannot be. *)
Definition fails_at (e : event) (a : apipe) : bool := match e with RunNoMem t => must_wake (a_job a t) a | _ => false end.

Lemma wp_happen s a e :
  rel size false s a -> ainv size a -> fails_at e a = false -> wp (happen e) s (λ _ s', rel size false s' (a_happen size e a)).
Proof.
  intros Hr Hv Hf. assert (∀ room t, must_wake (a_job a t) a && negb room = false ->
    wp (j ← gets (λ s, job_of s t); j' ← exec_job room t j; set_job t j') s (λ _ s', rel size false s' (a_happen size (Run t) a))) as Hrun.
  { intros room t Hm. wp_step. wp_step. rewrite (rel_job _ _ _ _ Hr). wp_step. eapply wp_mono; [by apply does_exec|]. intros j s' [-> Hs'].
    unfold set_job. wp_step. simpl. destruct (a_exec size t (a_job a t) a). by apply rel_put. }
  destruct e as [t|t|t nb|t buf|t ip|t|t]; simpl; try by apply wp_start.
  - apply (Hrun true). by rewrite andb_false_r.
  - apply (Hrun false). simpl in Hf. by rewrite Hf.
  - wp_step. wp_step. rewrite (rel_job _ _ _ _ Hr). destruct (waits_at (a_job a t)) as [[d w]|]; [|by apply wp_ret].
    destruct w; try by apply wp_ret.
    by apply (wp_fault s a t d (λ c, Cond (c_count c) (filter (λ u, u ≠ t) (c_waiters c)))).
  - wp_step. wp_step. rewrite (rel_job _ _ _ _ Hr). destruct (waits_at (a_job a t)) as [[d w]|]; [|by apply wp_ret].
    destruct w; try by apply wp_ret.
    by apply (wp_fault s a t d (λ c, Cond (u64 (c_count c + 1)) (c_waiters c))).
Qed.
Lemma happen_panics s a e : rel size false s a -> fails_at e a = true -> happen e s = Stop Panic.
Proof.
  intros Hr Hf. destruct e as [t|t|t nb|t buf|t ip|t|t]; try done. simpl in *. unfold mbind, M_bind, gets. rewrite (rel_job _ _ _ _ Hr).
  by rewrite (exec_panics s a t).
Qed.

(** A history runs to its end, unless a wake-up fails, which stops the kernel. *)
Lemma run_history s a es :
  rel size false s a -> ainv size a -> Forall (event_ok (a_pipe a)) es ->
  if wake_fails size es a then history es s = Stop Panic
  else wp (history es) s (λ _ s', rel size false s' (a_history size es a) ∧ ainv size (a_history size es a)).
Proof.
  revert s a. induction es as [|e es IH]; intros s a Hr Hv Hes; simpl; [by apply wp_ret|].
  apply Forall_cons in Hes as [He Hes]. fold (fails_at e a). destruct (fails_at e a) eqn:Hf; simpl.
  { unfold mbind, M_bind. by rewrite (happen_panics s a e). }
  assert (0 < size) as Hsize by apply (rr_size _ _ _ _ _ (rl_ring _ _ _ _ Hr)).
  pose proof (wp_happen s a e Hr Hv Hf) as ([] & s' & E & Hs')%wp_run.
  specialize (IH s' (a_happen size e a) Hs' ltac:(by apply ainv_happen)). assert (Forall (event_ok (a_pipe (a_happen size e a))) es) as Hes'.
  { eapply Forall_impl; [done|]. intros x. apply event_ok_ends. apply happen_ends. }
  specialize (IH Hes'). unfold wp in *. unfold mbind, M_bind. rewrite E. done.
Qed.
(** Only a thread that runs while the run queues have no memory can fail to wake
    another. *)
Lemma no_wake_fails es a : Forall (λ e, ∀ t, e ≠ RunNoMem t) es -> wake_fails size es a = false.
Proof. intros He. revert a. induction He as [|e es H _ IH]; intros a; simpl; [done|]. rewrite IH, orb_false_r. destruct e; [done| |done..]. by destruct (H t). Qed.
Lemma wp_history s a es :
  rel size false s a -> ainv size a -> Forall (event_ok (a_pipe a)) es -> wake_fails size es a = false ->
  wp (history es) s (λ _ s', rel size false s' (a_history size es a) ∧ ainv size (a_history size es a)).
Proof. intros Hr Hv He Hf. pose proof (run_history s a es Hr Hv He) as H. by rewrite Hf in H. Qed.
End refine_steps.
