(* ===== verification/PipeProps.v ===== *)
(** * Pipes: the theorems

    Bytes come out of a pipe in the order they went in, whatever the
    interleaving; with one reader and one writer no wake-up is lost; and the
    reader of a pipe whose write end is closed waits for ever. *)

From S2P Require Import Prelude Dll Heap Ringbuf Cond Pipe PipeSpec.

(** ** A condition variable with one client *)

(** The count is 1 while the thread [t] sleeps, and otherwise minus the number
    of signals not used up; before the wait, [safe] or a signal is pending. *)
Definition cok (n : nat) (c : cond_t) (t : Z) (pl : option where_) (safe : Prop) : Prop :=
  ∃ k, c_count c = u64 k ∧
    (pl = Some Asleep ∧ k = 1 ∧ c_waiters c = [t] ∨ pl ≠ Some Asleep ∧ - Z.of_nat n <= k <= 0 ∧ c_waiters c = []) ∧
    (pl = Some Wait -> safe ∨ k < 0).

(** Where a thread is after it was woken. *)
Definition up (pl : option where_) : option where_ :=
  match pl with Some Asleep => Some (Woken 0) | _ => pl end.

Lemma cok_keep n c t pl pl' (P P' : Prop) :
  cok n c t pl P -> (pl = Some Asleep <-> pl' = Some Asleep) -> (pl' = Some Wait -> P' ∨ pl = Some Wait ∧ (P -> P')) -> cok (S n) c t pl' P'.
Proof.
  intros (k & Hk & Hs & Hw) Ha Hw'. exists k. split; [done|]. split.
  - destruct Hs as [(H1 & H2 & H3)|(H1 & H2 & H3)]; [left; tauto|right]. split; [tauto|]. split; [lia|done].
  - intros E. destruct (Hw' E) as [?|[E1 E2]]; [by left|]. destruct (Hw E1); auto.
Qed.

Lemma cok_signal n c t pl (P P' : Prop) : cok n c t pl P -> cok (S n) (a_signal c).2 t (up pl) P'.
Proof.
  intros (k & Hk & Hs & Hw). unfold a_signal. destruct c as [cnt ws]; simpl in *. subst cnt.
  destruct Hs as [(-> & -> & ->)|(H1 & H2 & ->)]; simpl.
  - exists 0. split; [done|]. split; [right; split; [done|split; [lia|done]]|done].
  - exists (k - 1). rewrite u64_sub_l. split; [done|]. split; [right|].
    + split; [by destruct pl as [[]|]|]. split; [lia|done].
    + intros _. right. lia.
Qed.

Lemma cok_broadcast n c t pl (P P' : Prop) : cok n c t pl P -> cok (S n) (a_broadcast c).2 t (up pl) P'.
Proof.
  intros (k & Hk & Hs & Hw). unfold a_broadcast. destruct c as [cnt ws]; simpl in *.
  destruct Hs as [(-> & -> & ->)|(H1 & H2 & ->)]; simpl.
  - exists 0. split; [done|]. split; [right; split; [done|split; [lia|done]]|done].
  - exists (- 1). split; [done|]. split; [right|].
    + split; [by destruct pl as [[]|]|]. split; [lia|done].
    + intros _. right. lia.
Qed.

Lemma s32_u64 k : - 2147483648 <= k < 2147483648 -> s32 (u64 k) = k.
Proof. intros H. unfold s32, u32, u64, two64. case_decide; Z.to_euclidean_division_equations; lia. Qed.

Lemma cok_wait n c t (P : Prop) :
  cok n c t (Some Wait) P -> Z.of_nat n < 2147483648 ->
  cok (S n) (cond_wait t c).2 t (Some (if (cond_wait t c).1 then Asleep else Woken 0)) P ∧ ((cond_wait t c).1 = true -> P).
Proof.
  intros (k & Hk & Hs & Hw) Hn. destruct Hs as [(? & _)|(H1 & H2 & H3)]; [done|]. specialize (Hw eq_refl).
  unfold cond_wait. rewrite Hk, s32_u64, u64_add_l by lia. rewrite H3. case_decide as Hd; simpl.
  - assert (k = 0) as -> by lia. split.
    + exists 1. split; [done|]. split; [left; done|done].
    + intros _. destruct Hw; [done|lia].
  - split; [|done]. exists (k + 1). split; [done|]. split; [right; split; [done|split; [lia|done]]|done].
Qed.

(** ** One reader and one writer *)

Section duo.
Context (size : Z) (Hsize : 0 < size) (r w : Z) (Hrw : r ≠ w).

Definition tid (d : side) : Z := match d with Readers => r | Writers => w end.
Definition other (d : side) : side := match d with Readers => Writers | Writers => Readers end.
Lemma tid_other d : tid (other d) ≠ tid d.
Proof. destruct d; simpl; congruence. Qed.
Lemma other_other d : other (other d) = d.
Proof. by destruct d. Qed.

Lemma both (P : side -> Prop) m : P m -> P (other m) -> ∀ d, P d.
Proof. destruct m; intros ?? []; done. Qed.

(** The thread of side [d] has to wait. *)
Definition blocked (d : side) (bs : list Z) : Prop :=
  match d with Readers => bs = [] | Writers => Z.of_nat (length bs) = size end.

(** Where the thread of side [d] is in its read or write. *)
Definition place (a : apipe) (d : side) : option where_ := snd <$> waits_at (a_job a (tid d)).

Definition cond_ok (n : nat) (a : apipe) (d : side) : Prop :=
  cok n (p_cond d (a_pipe a)) (tid d) (place a d) (blocked d (a_bs a) ∨ place a (other d) = Some Signal).

Record duo (n : nat) (a : apipe) : Prop := {
  du_inv : ainv size a;
  du_kind d x w' : waits_at (a_job a (tid d)) = Some (x, w') -> x = d;
  du_cond d : cond_ok n a d;
  du_sleep d : place a d = Some Asleep -> blocked d (a_bs a) ∨ place a (other d) = Some Signal;
  du_wait d : place a d = Some SignalWait ∨ place a d = Some Release -> blocked d (a_bs a);
}.

Lemma place_put a d j : place (a_put (tid d) j a) d = snd <$> waits_at j.
Proof. unfold place. by rewrite a_job_put, decide_True. Qed.
Lemma place_put_other a d j : place (a_put (tid d) j a) (other d) = place a (other d).
Proof. unfold place. rewrite a_job_put, decide_False; [done|apply tid_other]. Qed.

(** Two threads are not both inside the pipe lock. *)
Lemma place_locked a d : ainv size a -> place a d = Some SignalWait ∨ place a d = Some Release -> p_lock (a_pipe a) = Some (tid d).
Proof.
  intros Hv Hp. apply (av_lock _ _ Hv). unfold place in Hp. destruct (a_job a (tid d)) as [|nb got x|nb buf n x|ip x|]; simpl in *;
    destruct Hp as [Hp|Hp]; simplify_eq; done.
Qed.

(** A step of the thread of side [m], with what has to be shown about both
    sides in the new state. *)
Lemma duo_put n a m a' j' :
  duo n a -> ainv size (a_put (tid m) j' a') -> (∀ x w', waits_at j' = Some (x, w') -> x = m) ->
  (a_job a' (tid (other m)) = a_job a (tid (other m)) ∨ a_job a' (tid (other m)) = wake_job 0 (a_job a (tid (other m)))) ->
  (∀ d, cond_ok (S n) (a_put (tid m) j' a') d) ->
  (snd <$> waits_at j' = Some Asleep -> blocked m (a_bs a') ∨ place a' (other m) = Some Signal) ->
  (place a' (other m) = Some Asleep -> blocked (other m) (a_bs a') ∨ snd <$> waits_at j' = Some Signal) ->
  (snd <$> waits_at j' = Some SignalWait ∨ snd <$> waits_at j' = Some Release -> blocked m (a_bs a')) ->
  (place a' (other m) = Some SignalWait ∨ place a' (other m) = Some Release -> blocked (other m) (a_bs a')) ->
  duo (S n) (a_put (tid m) j' a').
Proof.
  intros Hd Hv Hk Ho Hc Hs1 Hs2 Hw1 Hw2.
  split; [done| |done| |].
  - apply (both (λ d, ∀ x w', waits_at (a_job (a_put (tid m) j' a') (tid d)) = Some (x, w') -> x = d) m).
    + rewrite a_job_put, decide_True by done. done.
    + rewrite a_job_put, decide_False by apply tid_other. intros x w' Hx. pose proof (du_kind _ _ Hd (other m) x) as Hok.
      destruct Ho as [E|E]; rewrite E in Hx; [by eapply Hok|].
      destruct (a_job a (tid (other m))) as [|nb got v|nb buf k v|ip v|]; simpl in *; [done|destruct v; simpl in *; simplify_eq; by eapply Hok..|done|done].
  - apply (both (λ d, place (a_put (tid m) j' a') d = Some Asleep -> blocked d (a_bs a') ∨ place (a_put (tid m) j' a') (other d) = Some Signal) m).
    + by rewrite place_put, place_put_other.
    + by rewrite other_other, place_put, place_put_other.
  - apply (both (λ d, place (a_put (tid m) j' a') d = Some SignalWait ∨ place (a_put (tid m) j' a') d = Some Release -> blocked d (a_bs a')) m).
    + by rewrite place_put.
    + by rewrite place_put_other.
Qed.

Lemma waits_wake j : snd <$> waits_at (wake_job 0 j) = up (snd <$> waits_at j).
Proof. destruct j as [|nb got v|nb buf k v|ip v|]; [done|by destruct v|by destruct v|done|done]. Qed.
Lemma up_awake pl : pl ≠ Some Asleep -> up pl = pl.
Proof. by destruct pl as [[]|]. Qed.

Lemma place_wake n a d :
  duo n a -> place (a_wake d a) d = up (place a d) ∧ place (a_wake d a) (other d) = place a (other d) ∧
    a_job (a_wake d a) (tid (other d)) = a_job a (tid (other d)).
Proof.
  intros Hd. destruct (du_cond _ _ Hd d) as (k & _ & [(Hp & _ & Hw)|(Hp & _ & Hw)] & _); unfold place in *; rewrite !a_wake_job, Hw; simpl.
  - rewrite decide_True by done. rewrite waits_wake. pose proof (tid_other d). rewrite !decide_False by congruence. done.
  - rewrite (up_awake _ Hp). done.
Qed.
Lemma place_wake_all n a d :
  duo n a -> place (a_wake_all d a) d = up (place a d) ∧ place (a_wake_all d a) (other d) = place a (other d) ∧
    a_job (a_wake_all d a) (tid (other d)) = a_job a (tid (other d)).
Proof.
  intros Hd. pose proof (tid_other d). destruct (du_cond _ _ Hd d) as (k & _ & [(Hp & _ & Hw)|(Hp & _ & Hw)] & _); unfold place in *; rewrite !a_wake_all_job, Hw; simpl.
  - rewrite decide_True by set_solver. rewrite waits_wake. rewrite !decide_False by set_solver. done.
  - rewrite (up_awake _ Hp). done.
Qed.

Lemma cond_set d c p : p_cond d (p_set_cond d c p) = c ∧ p_cond (other d) (p_set_cond d c p) = p_cond (other d) p.
Proof. by destruct d. Qed.
Lemma cond_wake d a : p_cond d (a_pipe (a_wake d a)) = (a_signal (p_cond d (a_pipe a))).2 ∧
  p_cond (other d) (a_pipe (a_wake d a)) = p_cond (other d) (a_pipe a).
Proof. unfold a_wake. destruct (a_signal _) as [[u|] c]; apply cond_set. Qed.
Lemma cond_wake_all d a : p_cond d (a_pipe (a_wake_all d a)) = (a_broadcast (p_cond d (a_pipe a))).2 ∧
  p_cond (other d) (a_pipe (a_wake_all d a)) = p_cond (other d) (a_pipe a).
Proof. apply (cond_set d). Qed.

(** A step that leaves the condition variables and the other thread alone. *)
Lemma duo_plain n a m a' j' pl pl' :
  duo n a -> ainv size (a_put (tid m) j' a') -> (∀ x w', waits_at j' = Some (x, w') -> x = m) ->
  place a m = pl -> snd <$> waits_at j' = pl' -> a_job a' (tid (other m)) = a_job a (tid (other m)) ->
  (∀ d, p_cond d (a_pipe a') = p_cond d (a_pipe a)) ->
  pl' ≠ Some Asleep -> pl ≠ Some Asleep -> pl ≠ Some Wait ->
  (pl' = Some Wait -> blocked m (a_bs a')) -> (pl' = Some SignalWait ∨ pl' = Some Release -> blocked m (a_bs a')) ->
  (a_bs a' = a_bs a ∧ pl ≠ Some Signal ∨ pl' = Some Signal ∧ p_lock (a_pipe a) = Some (tid m)) ->
  duo (S n) (a_put (tid m) j' a').
Proof.
  intros Hd Hv Hk Hpl Hpl' Ho Hc H1 H2 H3 Hw Hsw Hbs.
  assert (place a' (other m) = place a (other m)) as Hpo by (unfold place; by rewrite Ho).
  assert (place a (other m) = Some SignalWait ∨ place a (other m) = Some Release -> a_bs a' = a_bs a) as Hlk.
  { intros H. apply (place_locked _ _ (du_inv _ _ Hd)) in H. destruct Hbs as [[? _]|[_ E]]; [done|]. rewrite E in H. by destruct (tid_other m); congruence. }
  assert (∀ (P : Prop), (a_bs a' = a_bs a -> pl ≠ Some Signal -> P) -> P ∨ pl' = Some Signal) as Hesc by (intros P HP; tauto).
  apply (duo_put n a); [done|done|done|by left| | | |by rewrite Hpl'|].
  - apply (both _ m); unfold cond_ok; simpl; rewrite Hc.
    + rewrite place_put, place_put_other, Hpl'. eapply cok_keep; [apply (du_cond _ _ Hd)|rewrite Hpl; tauto|]. auto.
    + rewrite other_other, place_put, place_put_other, Hpl', Hpo. eapply cok_keep; [apply (du_cond _ _ Hd)|done|].
      intros Hwt. right. split; [done|]. rewrite other_other, Hpl. destruct Hbs as [[-> ?]|[? _]]; naive_solver.
  - rewrite Hpl'. done.
  - rewrite Hpo, Hpl'. intros Ha. pose proof (du_sleep _ _ Hd (other m) Ha) as H. rewrite other_other, Hpl in H.
    destruct Hbs as [[-> ?]|[? _]]; naive_solver.
  - rewrite Hpo. intros H. rewrite Hlk by done. by apply (du_wait _ _ Hd).
Qed.

(** Waking the other side. *)
Lemma duo_wake n a m j' pl' :
  duo n a -> ainv size (a_put (tid m) j' (a_wake (other m) a)) -> (∀ x w', waits_at j' = Some (x, w') -> x = m) ->
  p_lock (a_pipe a) = Some (tid m) -> place a m ≠ Some Asleep -> snd <$> waits_at j' = pl' ->
  pl' ≠ Some Asleep -> pl' ≠ Some Wait -> (pl' = Some SignalWait ∨ pl' = Some Release -> blocked m (a_bs a)) ->
  duo (S n) (a_put (tid m) j' (a_wake (other m) a)).
Proof.
  intros Hd Hv Hk Hl Hp Hpl' H1 H2 Hsw.
  destruct (place_wake n a (other m) Hd) as (P1 & P2 & P3). rewrite other_other in P2, P3.
  destruct (cond_wake (other m) a) as (C1 & C2). rewrite other_other in C2.
  pose proof (a_wake_quiet (other m) a) as (_ & Hb & _ & _ & Hwk).
  assert (place a (other m) ≠ Some SignalWait ∧ place a (other m) ≠ Some Release) as [N1 N2].
  { split; intros E; pose proof (place_locked a (other m) (du_inv _ _ Hd)) as H; rewrite E in H; destruct (tid_other m);
      (assert (p_lock (a_pipe a) = Some (tid (other m))) by auto; congruence). }
  assert (up (place a (other m)) ≠ Some Asleep) as N3 by by destruct (place a (other m)) as [[]|].
  apply (duo_put n a); [done|done|done|apply Hwk| |by rewrite Hpl'|by rewrite P1|by rewrite Hpl', Hb|].
  - apply (both _ m); unfold cond_ok; simpl.
    + rewrite C2, place_put, place_put_other, Hpl'. eapply cok_keep; [apply (du_cond _ _ Hd)|tauto|done].
    + rewrite C1, other_other, place_put, place_put_other, P1. eapply cok_signal, (du_cond _ _ Hd).
  - rewrite P1. destruct (place a (other m)) as [[]|]; naive_solver.
Qed.

Lemma waits_kind j m v : waits_at j = Some (m, v) -> ∀ x w', waits_at j = Some (x, w') -> x = m.
Proof. congruence. Qed.

Lemma duo_lock n a m (k : bool -> job) :
  duo n a -> (∀ b, waits_at (k b) = None ∨ ∃ v, waits_at (k b) = Some (m, v) ∧ v ∉ [Asleep; Wait; SignalWait; Release]) ->
  place a m ≠ Some Asleep -> place a m ≠ Some Wait -> place a m ≠ Some Signal ->
  let c := a_lock (tid m) a in ainv size (a_put (tid m) (k c.1) c.2) -> duo (S n) (a_put (tid m) (k c.1) c.2).
Proof.
  intros Hd Hk P1 P2 P3 c Hv. subst c.
  assert (∀ d, p_cond d (a_pipe (a_lock (tid m) a).2) = p_cond d (a_pipe a)) as Hc by (intros d; unfold a_lock; destruct (p_lock _), d; done).
  assert (a_jobs (a_lock (tid m) a).2 = a_jobs a ∧ a_bs (a_lock (tid m) a).2 = a_bs a) as [Hj Hb] by (unfold a_lock; by destruct (p_lock _)).
  destruct (Hk (a_lock (tid m) a).1) as [E|(v & E & Hv')].
  - eapply (duo_plain n a m _ _ (place a m) None); [done|done|by rewrite E|done|by rewrite E|unfold a_job; by rewrite Hj|done|done|done|done|done|by intros [|]|by left].
  - repeat setoid_rewrite not_elem_of_cons in Hv'.
    eapply (duo_plain n a m _ _ (place a m) (Some v)); [done|done|by eapply waits_kind|done|by rewrite E|unfold a_job; by rewrite Hj|done|..|by left]; simpl; intuition congruence.
Qed.

Lemma duo_stay n a m :
  duo n a -> ainv size (a_put (tid m) (a_job a (tid m)) a) -> duo (S n) (a_put (tid m) (a_job a (tid m)) a).
Proof.
  intros Hd Hv. pose proof (du_sleep _ _ Hd (other m)) as Hs. rewrite other_other in Hs.
  apply (duo_put n a); [done|done|apply (du_kind _ _ Hd)|by left| |apply (du_sleep _ _ Hd)|exact Hs|apply (du_wait _ _ Hd)|apply (du_wait _ _ Hd)].
  assert (∀ d, place (a_put (tid m) (a_job a (tid m)) a) d = place a d) as Hp.
  { apply (both _ m); [by rewrite place_put|apply place_put_other]. }
  intros d. unfold cond_ok. rewrite !Hp. eapply cok_keep; [apply (du_cond _ _ Hd)|done|]. intros E. right. split; [done|]. tauto.
Qed.

(** The wait itself: it sleeps only if no signal is pending. *)
Lemma duo_waiting n a m go :
  duo n a -> Z.of_nat n < 2147483648 -> (∀ v, waits_at (go v) = Some (m, v)) -> place a m = Some Wait ->
  let c := a_wait (tid m) m a in ainv size (a_put (tid m) (go c.1) c.2) -> duo (S n) (a_put (tid m) (go c.1) c.2).
Proof.
  intros Hd Hn Hgo Hp c Hv. subst c. pose proof (du_cond _ _ Hd m) as Hc. unfold cond_ok in Hc. rewrite Hp in Hc.
  destruct (cok_wait _ _ _ _ Hc Hn) as [Hc' Hsafe]. unfold a_wait in *. destruct (cond_wait (tid m) _) as [b c] eqn:Ew. simpl in Hc', Hsafe, Hv |- *.
  destruct (cond_set m c (a_pipe a)) as [C1 C2]. pose proof (du_sleep _ _ Hd (other m)) as Hs. rewrite other_other, Hp in Hs.
  apply (duo_put n a); [done|done|by eapply waits_kind|by left| |..]; rewrite ?Hgo; simpl.
  - apply (both _ m); unfold cond_ok; simpl.
    + rewrite C1, place_put, place_put_other, Hgo. exact Hc'.
    + rewrite C2, other_other, place_put, place_put_other, Hgo. eapply cok_keep; [apply (du_cond _ _ Hd)|done|]. intros E. right.
      split; [done|]. rewrite other_other, Hp. intros [?|?]; [by left|done].
  - destruct b; [|done]. intros _. by apply Hsafe.
  - intros E. destruct (Hs E); [by left|done].
  - destruct b; by intros [|].
  - apply (du_wait _ _ Hd).
Qed.

Ltac plain_side :=
  first [done|by auto|intros [|]; done|left; split; done|left; split; [done|discriminate]|discriminate|intros; discriminate|intros [|]; discriminate].

Lemma duo_common n a m go todo fl stuck count got xfer w' :
  duo n a -> Z.of_nat n < 2147483648 -> (∀ v, waits_at (go v) = Some (m, v)) -> a_job a (tid m) = go w' ->
  (∀ v, holds_lock (go v) = lock_at v) ->
  (stuck = true -> blocked m (a_bs a)) ->
  waits_at (xfer a).1 = Some (m, Signal) -> a_pipe (xfer a).2 = a_pipe a -> a_jobs (xfer a).2 = a_jobs a ->
  let c := a_common (tid m) go m (other m) todo fl stuck count got xfer w' a in
  ainv size (a_put (tid m) c.1 c.2) -> duo (S n) (a_put (tid m) c.1 c.2).
Proof.
  intros Hd Hn Hgo Hj Hlk Hst Hx1 Hx2 Hx3 c Hv.
  assert (place a m = Some w') as Hp by (unfold place; by rewrite Hj, Hgo).
  assert (lock_at w' = true -> p_lock (a_pipe a) = Some (tid m)) as Hl.
  { intros H. apply (av_lock _ _ (du_inv _ _ Hd)). by rewrite Hj, Hlk. }
  assert (∀ v, ∀ x w', waits_at (go v) = Some (x, w') -> x = m) as Hk by (intros v; by eapply waits_kind).
  assert (w' = Top ∨ w' = Xfer -> ainv size (a_put (tid m) (xfer a).1 (xfer a).2) -> duo (S n) (a_put (tid m) (xfer a).1 (xfer a).2)) as Hxf.
  { intros Hw' Hv'. eapply duo_plain; [done|done|by eapply waits_kind|done|by rewrite Hx1|unfold a_job; by rewrite Hx3|by rewrite Hx2|..];
      rewrite ?Hp; destruct Hw' as [->| ->]; first [plain_side|right; split; [done|by apply Hl]]. }
  subst c. destruct w'; simpl in Hv |- *.
  - pose proof (duo_lock n a m (λ b, go (if b then Top else Enter)) Hd) as H. rewrite Hp in H. destruct (a_lock (tid m) a) as [b a']. simpl in *.
    apply H; [|done..]. intros []; right; eexists; (split; [done|]); set_solver.
  - destruct todo; [destruct (has fl a); [destruct stuck|]|]; simpl in Hv |- *; [|by apply Hxf; [left|]|..];
      (eapply duo_plain; [done|done|apply Hk|done|by rewrite Hgo|done|done|..]); rewrite ?Hp; simpl; plain_side.
  - by apply Hxf; [right|].
  - eapply duo_wake; [done|done|apply Hk|by apply Hl|by rewrite Hp|by rewrite Hgo|..]; plain_side.
  - eapply duo_wake; [done|done|apply Hk|by apply Hl|by rewrite Hp|by rewrite Hgo|done|done|]. intros _. apply (du_wait _ _ Hd). by left.
  - eapply duo_plain; [done|done|apply Hk|done|by rewrite Hgo|done|intros []; done|..]; rewrite ?Hp; simpl; try plain_side.
    intros _. apply (du_wait _ _ Hd). by right.
  - pose proof (duo_waiting n a m go Hd Hn Hgo Hp) as H. destruct (a_wait (tid m) m a). by apply H.
  - rewrite <- Hj in Hv |- *. by apply duo_stay.
  - pose proof (duo_lock n a m (λ b, go (if b then if decide (err ≠ 0) then Leave err false else Xfer else Woken err)) Hd) as H. rewrite Hp in H.
    destruct (a_lock (tid m) a) as [b a']. simpl in *.
    apply H; [|done..]. intros []; right; [case_decide|]; eexists; (split; [done|]); set_solver.
  - eapply duo_wake; [done|done|apply Hk|by apply Hl|by rewrite Hp|by rewrite Hgo|..]; plain_side.
  - eapply duo_plain; [done|done|done|done|done|done|intros []; done|..]; rewrite ?Hp; simpl; plain_side.
Qed.

(** A thread that is not in a read or a write wakes everyone on one side. *)
Lemma duo_wake_all n a m d j' :
  duo n a -> waits_at (a_job a (tid m)) = None -> waits_at j' = None -> p_lock (a_pipe a) = Some (tid m) ->
  ainv size (a_put (tid m) j' (a_wake_all d a)) -> duo (S n) (a_put (tid m) j' (a_wake_all d a)).
Proof.
  intros Hd Hm Hj' Hl Hv. destruct (place_wake_all n a d Hd) as (P1 & P2 & P3). destruct (cond_wake_all d a) as (C1 & C2).
  pose proof (a_wake_all_quiet d a) as (_ & Hb & _ & _ & Hwk).
  assert (place a m = None) as Hpm by (unfold place; by rewrite Hm).
  assert (place (a_wake_all d a) (other m) = place a (other m) ∨ place (a_wake_all d a) (other m) = up (place a (other m))) as Hpo.
  { destruct (decide (other m = d)) as [<-|Hne]; [by right|left]. by replace (other m) with (other d) by (destruct m, d; done). }
  assert (place a (other m) ≠ Some SignalWait ∧ place a (other m) ≠ Some Release) as [N1 N2].
  { split; intros E; pose proof (place_locked a (other m) (du_inv _ _ Hd)) as H; rewrite E in H; destruct (tid_other m);
      (assert (p_lock (a_pipe a) = Some (tid (other m))) by auto; congruence). }
  apply (duo_put n a); [done|done|by rewrite Hj'|apply Hwk| |by rewrite Hj'| |by rewrite Hj'; intros [|]|].
  - assert (∀ x, place (a_put (tid m) j' (a_wake_all d a)) x = if decide (x = d) then up (place a x) else place a x) as Hpl.
    { apply (both _ m).
      - rewrite place_put, Hj', Hpm. by case_decide.
      - rewrite place_put_other. case_decide as E; [by rewrite E, P1|]. by replace (other m) with (other d) by (destruct m, d; done). }
    apply (both _ d); unfold cond_ok; rewrite !Hpl; change (a_pipe (a_put ?t ?j ?x)) with (a_pipe x); change (a_bs (a_put ?t ?j ?x)) with (a_bs x).
    + rewrite C1, decide_True by done. eapply cok_broadcast, (du_cond _ _ Hd).
    + rewrite C2, (decide_False (P := other d = d)), other_other, decide_True, Hb by (by destruct d). eapply cok_keep; [apply (du_cond _ _ Hd)|done|].
      intros E. right. split; [done|]. rewrite other_other. intros [?|E2]; [by left|right]. by rewrite E2.
  - destruct Hpo as [->| ->]; [|by destruct (place a (other m)) as [[]|]]. intros E. pose proof (du_sleep _ _ Hd (other m) E) as H.
    rewrite other_other, Hpm in H. rewrite Hb. destruct H; [by left|done].
  - destruct Hpo as [->| ->]; [naive_solver|]. destruct (place a (other m)) as [[]|]; naive_solver.
Qed.

Lemma duo_exec n a m :
  duo n a -> Z.of_nat n < 2147483648 ->
  let c := a_exec size (tid m) (a_job a (tid m)) a in duo (S n) (a_put (tid m) c.1 c.2).
Proof.
  intros Hd Hn c. pose proof (ainv_exec size Hsize a (tid m) (du_inv _ _ Hd)) as Hv. fold c in Hv. simpl in Hv.
  pose proof (du_kind _ _ Hd m) as Hk. pose proof (av_lock _ _ (du_inv _ _ Hd) (tid m)) as Hl.
  subst c. destruct (a_job a (tid m)) as [|nb got w'|nb buf k w'|ip w'|ret got] eqn:Hj; simpl in Hv, Hk, Hl |- *.
  - rewrite <- Hj in Hv |- *. by apply duo_stay.
  - specialize (Hk _ _ eq_refl) as <-. by apply (duo_common n a Readers); [..|intros E; by apply bool_decide_eq_true in E|done|done|done|done].
  - specialize (Hk _ _ eq_refl) as <-. by apply (duo_common n a Writers); [..|intros E; by apply bool_decide_eq_true in E|done|done|done|done].
  - assert (waits_at (a_job a (tid m)) = None) as Hw by by rewrite Hj.
    assert (place a m = None) as Hp by (unfold place; by rewrite Hw).
    destruct w'; simpl in Hv, Hl |- *.
    + pose proof (duo_lock n a m (λ b, Closing ip (if b then CMask else CEnter)) Hd) as H. rewrite Hp in H.
      destruct (a_lock (tid m) a) as [b a']. simpl in *. apply H; [by left|done..].
    + eapply duo_plain; [done|done|done|done|done|done|by intros []|..]; rewrite ?Hp; simpl; plain_side.
    + apply duo_wake_all; [done|done|done|by apply Hl|done].
    + apply duo_wake_all; [done|done|done|by apply Hl|done].
    + eapply duo_plain; [done|done|done|done|done|done|by intros []|..]; rewrite ?Hp; simpl; plain_side.
  - rewrite <- Hj in Hv |- *. by apply duo_stay.
Qed.

Lemma duo_mono n a : duo n a -> duo (S n) a.
Proof.
  intros [Hv Hk Hc Hs Hw]. split; [done..| |done|done]. intros d. unfold cond_ok in *.
  eapply cok_keep; [apply Hc|done|]. intros E. right. split; [done|]. tauto.
Qed.

Lemma duo_start n a m j :
  duo n a -> job_ok (a_pipe a) j -> holds_lock j = false -> waits_at j = None ∨ waits_at j = Some (m, Enter) ->
  duo (S n) (a_start (tid m) j a).
Proof.
  intros Hd Hok Hh Hw. pose proof (ainv_start size a (tid m) j (du_inv _ _ Hd) Hok Hh) as Hv. unfold a_start in *.
  destruct (idle (a_job a (tid m))) eqn:Ei; [|by apply duo_mono].
  assert (place a m = None) as Hp by (unfold place; by destruct (a_job a (tid m))).
  destruct Hw as [Hw|Hw]; (eapply duo_plain; [done|done|by rewrite Hw; intros; simplify_eq|done|by rewrite Hw|done|done|..]); rewrite ?Hp; simpl; plain_side.
Qed.

(** The events of a reader [r] and a writer [w]: neither is killed, and there is
    memory to queue a thread that goes to sleep. *)
Definition duo_event (e : event) : Prop :=
  match e with
  | Run t | RunNoMem t | CallClose t _ => t = r ∨ t = w
  | CallRead t _ => t = r
  | CallWrite t _ => t = w
  | Kill _ | NoMem _ => False
  end.

Lemma duo_happen n a e :
  duo n a -> Z.of_nat n < 2147483648 -> event_ok (a_pipe a) e -> duo_event e -> duo (S n) (a_happen size e a).
Proof.
  intros Hd Hn He Hde. assert (∀ t, t = r ∨ t = w -> ∃ m, t = tid m) as Hm by (intros t [->| ->]; [by exists Readers|by exists Writers]).
  destruct e as [t|t|t nb|t buf|t ip|t|t]; simpl in *; [..|done|done].
  - destruct (Hm t Hde) as [m ->]. pose proof (duo_exec n a m Hd Hn) as H. by destruct (a_exec size (tid m) (a_job a (tid m)) a).
  - destruct (Hm t Hde) as [m ->]. pose proof (duo_exec n a m Hd Hn) as H. by destruct (a_exec size (tid m) (a_job a (tid m)) a).
  - subst t. apply (duo_start n a Readers); [done| |done|by right]. simpl. rewrite u64_small by (unfold in_u64, two64; lia). lia.
  - subst t. apply (duo_start n a Writers); [done| |done|by right]. simpl. lia.
  - destruct (Hm t Hde) as [m ->]. apply duo_start; [done|done|done|by left].
Qed.

Lemma duo_history es n a :
  duo n a -> Z.of_nat n + Z.of_nat (length es) < 2147483648 -> Forall (event_ok (a_pipe a)) es -> Forall duo_event es ->
  duo (n + length es) (a_history size es a).
Proof.
  revert n a. induction es as [|e es IH]; intros n a Hd Hn Hok Hev; simpl in *; [by rewrite Nat.add_0_r|].
  apply Forall_cons in Hok as [He Hok], Hev as [Hv Hev]. rewrite Nat.add_succ_r. apply (IH (S n)); [apply duo_happen; [done|lia|done|done]|lia| |done].
  eapply Forall_impl; [exact Hok|]. intros x. apply event_ok_ends, happen_ends.
Qed.
End duo.

(** ** The theorems *)

(** A pipe as [pipe_mkpipe] makes it: both ends open, nobody waiting, nothing
    in the ring. *)
Definition fresh_pipe (s : psys) : Prop :=
  (∃ ir iw rb, y_pipe s = Pipe PIPE_RW COND_INIT COND_INIT ir iw rb None ∧ ring_rep (y_heap s) rb false PIPESZ []) ∧
  y_jobs s = ∅ ∧ y_in s = [] ∧ y_out s = [].

Definition abs_fresh (s : psys) : apipe := APipe (y_pipe s) [] ∅ [] [].

Lemma pipesz_div : (PIPESZ | two64).
Proof. by exists 4503599627370496. Qed.

Lemma fresh_rel s : fresh_pipe s -> rel PIPESZ false s (abs_fresh s).
Proof. intros ((ir & iw & rb & Hp & Hr) & Hj & Hi & Ho). split; simpl; try done. by rewrite Hp. Qed.
Lemma fresh_inv s : fresh_pipe s -> ainv PIPESZ (abs_fresh s).
Proof.
  intros ((ir & iw & rb & Hp & Hr) & Hj & Hi & Ho). split; simpl; [|done..].
  intros t. unfold a_job. simpl. rewrite Hp, lookup_empty. simpl. by split.
Qed.
Lemma fresh_duo s r w : fresh_pipe s -> duo PIPESZ r w 0 (abs_fresh s).
Proof.
  intros Hf. pose proof (fresh_inv s Hf) as Hv. destruct Hf as ((ir & iw & rb & Hp & Hr) & Hj & Hi & Ho).
  assert (∀ t, a_job (abs_fresh s) t = Free) as Hfree by (intros t; unfold a_job; simpl; by rewrite lookup_empty).
  assert (∀ d, place r w (abs_fresh s) d = None) as Hpl by (intros d; unfold place; by rewrite Hfree).
  split; [done|..]; intros d; rewrite ?Hfree, ?Hpl; try done.
  - unfold cond_ok. rewrite !Hpl. exists 0. simpl. rewrite Hp. destruct d; (split; [done|]; split; [right; split; [done|split; [lia|done]]|done]).
  - by intros [|].
Qed.

Lemma fresh_history s es :
  fresh_pipe s -> Forall (event_ok (y_pipe s)) es ->
  if wake_fails PIPESZ es (abs_fresh s) then history es s = Stop Panic
  else wp (history es) s (λ _ s', rel PIPESZ false s' (a_history PIPESZ es (abs_fresh s)) ∧ ainv PIPESZ (a_history PIPESZ es (abs_fresh s))).
Proof. intros Hf Hes. apply (run_history PIPESZ pipesz_div s (abs_fresh s) es); [by apply fresh_rel|by apply fresh_inv|done]. Qed.
Lemma history_ends es a : ends (a_pipe (a_history PIPESZ es a)) = ends (a_pipe a).
Proof. revert a. induction es as [|e es IH]; intros a; [done|]. simpl. rewrite IH. apply happen_ends. Qed.

(** C19. Whatever the interleaving of reads, writes and closes, of threads being
    killed and of sleep queues without memory, no step of a pipe panics or touches
    bad memory, and what was read is in order the beginning of what was
    written: the rest is in the ring buffer.  Only a step that has to wake a
    sleeper while the run queues have no memory stops the kernel, and always does. *)
Theorem pipe_fifo s es :
  fresh_pipe s -> Forall (event_ok (y_pipe s)) es ->
  if wake_fails PIPESZ es (abs_fresh s) then history es s = Stop Panic
  else wp (history es) s (λ _ s', ∃ bs,
    ring_rep (y_heap s') (p_ringbuf (y_pipe s)) false PIPESZ bs ∧ y_out s' ++ bs = y_in s').
Proof.
  intros Hf Hes. pose proof (fresh_history s es Hf Hes) as H. destruct (wake_fails PIPESZ es (abs_fresh s)); [done|]. eapply wp_mono; [exact H|].
  intros [] s' [Hr Hv]. exists (a_bs (a_history PIPESZ es (abs_fresh s))).
  pose proof (history_ends es (abs_fresh s)) as Hends. unfold ends in Hends. simpl in Hends. injection Hends as _ _ E.
  rewrite <- E, (rl_in _ _ _ _ Hr), (rl_out _ _ _ _ Hr). split; [apply Hr|apply Hv].
Qed.

(** C18. The code refines the abstract pipe, whose ring is a list of bytes and
    whose steps are total functions, event by event: kills, sleep queues without
    memory and run queues without memory included.  It stops exactly when a step has
    to wake a sleeper while the run queues have no memory, with a panic. *)
Theorem pipe_refines s es :
  fresh_pipe s -> Forall (event_ok (y_pipe s)) es ->
  if wake_fails PIPESZ es (abs_fresh s) then history es s = Stop Panic
  else wp (history es) s (λ _ s', rel PIPESZ false s' (a_history PIPESZ es (abs_fresh s))).
Proof.
  intros Hf Hes. pose proof (fresh_history s es Hf Hes) as H. destruct (wake_fails PIPESZ es (abs_fresh s)); [done|]. eapply wp_mono; [exact H|].
  by intros [] s' [Hr _].
Qed.

(** Where the thread [t] is in a read or a write. *)
Definition at_ (s : psys) (t : Z) : option where_ := snd <$> waits_at (job_of s t).

(** C17. No wake-up is lost between one reader and one writer, in a history
    shorter than 2^31 events in which neither is killed and a thread that goes to
    sleep can be queued: the reader sleeps only on an empty pipe, or the writer is
    about to wake it; the writer only on a full one, or the reader is about to wake
    it; and they never both sleep.  A wake-up without memory for the run queue
    stops the kernel. *)
Theorem pipe_no_lost_wakeup s es r w :
  fresh_pipe s -> Forall (event_ok (y_pipe s)) es -> Forall (duo_event r w) es -> r ≠ w -> Z.of_nat (length es) < 2147483648 ->
  if wake_fails PIPESZ es (abs_fresh s) then history es s = Stop Panic
  else wp (history es) s (λ _ s', ∃ bs, ring_rep (y_heap s') (p_ringbuf (y_pipe s)) false PIPESZ bs ∧
    (at_ s' r = Some Asleep -> bs = [] ∨ at_ s' w = Some Signal) ∧
    (at_ s' w = Some Asleep -> Z.of_nat (length bs) = PIPESZ ∨ at_ s' r = Some Signal) ∧
    ~ (at_ s' r = Some Asleep ∧ at_ s' w = Some Asleep)).
Proof.
  intros Hf Hes Hev Hrw Hlen. pose proof (fresh_history s es Hf Hes) as H. destruct (wake_fails PIPESZ es (abs_fresh s)); [done|]. eapply wp_mono; [exact H|].
  intros [] s' [Hr Hv]. pose proof (duo_history PIPESZ eq_refl r w Hrw es 0 (abs_fresh s) (fresh_duo s r w Hf) ltac:(lia) Hes Hev) as Hd.
  set (a := a_history PIPESZ es (abs_fresh s)) in *. exists (a_bs a).
  pose proof (history_ends es (abs_fresh s)) as Hends. unfold ends in Hends. simpl in Hends. injection Hends as _ _ E. fold a in E.
  assert (∀ t, job_of s' t = a_job a t) as Hj by (intros t; by eapply rel_job). unfold at_. rewrite !Hj.
  split; [rewrite <- E; apply Hr|]. pose proof (du_sleep _ _ _ _ _ Hd Readers) as H1. pose proof (du_sleep _ _ _ _ _ Hd Writers) as H2.
  unfold place in H1, H2. simpl in H1, H2. split; [done|]. split; [done|]. intros [A1 A2]. destruct (H1 A1) as [B1|B1]; [|congruence].
  destruct (H2 A2) as [B2|B2]; [|congruence]. rewrite B1 in B2. done.
Qed.

(** *** The end of the stream *)

(** The thread [t] reads [nb] bytes from an empty pipe whose write end is
    closed, while nobody is past the test of a write or closes the read end. *)
Definition write_over (w : where_) : Prop :=
  match w with Enter | Top | Signal | SignalEnd | Leave _ _ => True | _ => False end.
Definition read_on (w : where_) : Prop :=
  match w with Leave _ _ | SignalEnd => False | Woken err => err = 0 | _ => True end.
Record hung (t nb : Z) (a : apipe) : Prop := {
  hg_nb : 0 < nb < 9223372036854775808;
  hg_r : has PIPE_R a = true;
  hg_w : has PIPE_W a = false;
  hg_bs : a_bs a = [];
  hg_ends : p_iread (a_pipe a) ≠ p_iwrite (a_pipe a);
  hg_write u n buf k w : a_job a u = Writing n buf k w -> write_over w;
  hg_close u ip w : a_job a u = Closing ip w -> ip = p_iwrite (a_pipe a);
  hg_read : ∃ w, a_job a t = Reading nb [] w ∧ read_on w;
}.
(** Events other than closing the read end, killing the reader or a failing queue. *)
Definition hung_event (p : pipe_t) (t : Z) (e : event) : Prop :=
  match e with Kill u | NoMem u => u ≠ t | CallClose _ ip => ip = p_iwrite p | _ => True end.

Lemma hung_put t nb a a' u j' :
  hung t nb a -> woken a a' -> frame (a_pipe a') = frame (a_pipe a) ∨ p_iread (a_pipe a') = p_iread (a_pipe a) ∧
    p_iwrite (a_pipe a') = p_iwrite (a_pipe a) ∧ has PIPE_R a' = has PIPE_R a ∧ has PIPE_W a' = false -> a_bs a' = [] ->
  (∀ n buf k w, j' = Writing n buf k w -> write_over w) -> (∀ ip w, j' = Closing ip w -> ip = p_iwrite (a_pipe a)) ->
  (u = t -> ∃ w, j' = Reading nb [] w ∧ read_on w) -> hung t nb (a_put u j' a').
Proof.
  intros [H0 H1 H2 H3 H4 H5 H6 H7] Hw Hf Hb Hj1 Hj2 Hj3.
  assert (p_iread (a_pipe a') = p_iread (a_pipe a) ∧ p_iwrite (a_pipe a') = p_iwrite (a_pipe a) ∧ has PIPE_R a' = true ∧ has PIPE_W a' = false) as (E1 & E2 & E3 & E4).
  { destruct Hf as [Hf|(? & ? & ? & ?)]; [|split_and!; congruence]. unfold frame in Hf. injection Hf as F1 F2 F3 F4 F5. unfold has. rewrite F1. done. }
  split; try done.
  - simpl. by rewrite E1, E2.
  - intros v n buf k w. rewrite a_job_put. case_decide; [apply Hj1|]. destruct (Hw v) as [->| ->]; [apply H5|]. intros E.
    destruct (a_job a v) as [| |nb' buf' n' w'| |] eqn:Ev; simpl in E; try (destruct w; done || by simplify_eq).
    + by destruct w0.
    + pose proof (H5 v nb' buf' n' w' Ev). by destruct w'; simplify_eq.
  - intros v ip w. rewrite a_job_put. simpl. rewrite E2. case_decide; [apply Hj2|]. destruct (Hw v) as [->| ->]; [apply H6|]. intros E.
    apply (H6 v ip w). destruct (a_job a v) as [|? ? w'|? ? ? w'| |]; simpl in E; try done; by destruct w'.
  - rewrite a_job_put. case_decide as Hu; [auto|]. destruct (Hw t) as [->| ->]; [done|]. destruct H7 as (w & -> & Hr).
    destruct w; simpl in *; try done; eexists; (split; [done|]); done.
Qed.

Lemma hung_quiet t nb a a' u j' :
  hung t nb a -> quiet a a' -> (∀ n buf k w, j' = Writing n buf k w -> write_over w) -> (∀ ip w, j' = Closing ip w -> ip = p_iwrite (a_pipe a)) ->
  (u = t -> ∃ w, j' = Reading nb [] w ∧ read_on w) -> hung t nb (a_put u j' a').
Proof.
  intros Hh (Hf & Hb & _ & _ & Hw) H1 H2 H3. eapply (hung_put _ _ a); [done|done|by left| |done|done|done]. rewrite Hb. apply Hh.
Qed.
(** Taking or dropping the pipe lock. *)
Lemma hung_locks t nb a l u j' :
  hung t nb a -> (∀ n buf k w, j' = Writing n buf k w -> write_over w) -> (∀ ip w, j' = Closing ip w -> ip = p_iwrite (a_pipe a)) ->
  (u = t -> ∃ w, j' = Reading nb [] w ∧ read_on w) -> hung t nb (a_put u j' (a_set_pipe (p_set_lock l (a_pipe a)) a)).
Proof.
  intros Hh H1 H2 H3. eapply (hung_put _ _ a); [done|intros v; by left|right; split_and!; [done|done|done|apply Hh]|apply Hh|done|done|done].
Qed.
Lemma hung_lock t nb a u (k : bool -> job) :
  hung t nb a -> (∀ b n buf x w, k b = Writing n buf x w -> write_over w) -> (∀ b ip w, k b = Closing ip w -> ip = p_iwrite (a_pipe a)) ->
  (∀ b, u = t -> ∃ w, k b = Reading nb [] w ∧ read_on w) -> hung t nb (a_put u (k (a_lock u a).1) (a_lock u a).2).
Proof.
  intros Hh H1 H2 H3. unfold a_lock. destruct (p_lock _); simpl.
  - eapply (hung_quiet _ _ a); [done|apply quiet_refl|apply H1|apply H2|apply H3].
  - apply hung_locks; [done|apply H1|apply H2|apply H3].
Qed.

(** What a reading thread may become. *)
Definition reads (u t nb : Z) (j : job) : Prop :=
  (∃ n got w, j = Reading n got w) ∧ (u = t -> ∃ w, j = Reading nb [] w ∧ read_on w) ∨ u ≠ t ∧ ∃ r g, j = Ret r g.

Lemma reads_side u t nb j p : reads u t nb j ->
  (∀ n buf k w, j = Writing n buf k w -> write_over w) ∧ (∀ ip w, j = Closing ip w -> ip = p_iwrite p) ∧ (u = t -> ∃ w, j = Reading nb [] w ∧ read_on w).
Proof. intros [[(n & g & w & ->) H]|[Hu (r & g & ->)]]; split_and!; intros; done || auto. Qed.

Lemma hung_read t nb a u n got w :
  hung t nb a -> a_job a u = Reading n got w -> let c := a_iread u n got w a in hung t nb (a_put u c.1 c.2).
Proof.
  intros Hh Hj. assert (u = t -> n = nb ∧ got = [] ∧ read_on w) as Ht.
  { intros ->. destruct (hg_read _ _ _ Hh) as (w' & E & Hr). rewrite Hj in E. by simplify_eq. }
  assert (∀ w', (read_on w -> read_on w') -> reads u t nb (Reading n got w')) as Hgo.
  { intros w' Hw'. left. split; [eauto|]. intros Hu. destruct (Ht Hu) as (-> & -> & Hr). eauto. }
  pose proof (hg_bs _ _ _ Hh) as Hb. pose proof (hg_nb _ _ _ Hh) as Hnb.
  assert (hung t nb (a_put u (a_read_xfer n got a).1 (a_read_xfer n got a).2)) as Hx.
  { unfold a_read_xfer. rewrite Hb, take_nil, app_nil_r. simpl. unfold a_take. rewrite Hb.
    assert (reads u t nb (Reading n got Signal)) as Hrd by by apply Hgo. destruct (reads_side _ _ _ _ (a_pipe a) Hrd) as (S1 & S2 & S3).
    eapply (hung_put _ _ a); [done|intros v; by left|by left|simpl; by rewrite drop_nil|done|done|done]. }
  assert (∀ w', (read_on w -> read_on w') -> hung t nb (a_put u (Reading n got w') (a_wake Writers a))) as Hwk.
  { intros w' Hw'. destruct (reads_side _ _ _ _ (a_pipe a) (Hgo w' Hw')) as (S1 & S2 & S3). by eapply (hung_quiet _ _ a); [|apply a_wake_quiet|..]. }
  assert (∀ w', (read_on w -> read_on w') -> hung t nb (a_put u (Reading n got w') a)) as Hst.
  { intros w' Hw'. destruct (reads_side _ _ _ _ (a_pipe a) (Hgo w' Hw')) as (S1 & S2 & S3). by eapply (hung_quiet _ _ a); [|apply quiet_refl|..]. }
  assert (∀ k : bool -> where_, (∀ b, read_on w -> read_on (k b)) -> hung t nb (a_put u (Reading n got (k (a_lock u a).1)) (a_lock u a).2)) as Hlk.
  { intros k Hk. apply (hung_lock _ _ _ _ (λ b, Reading n got (k b))); [done|done|done|]. intros b Hu.
    destruct (Ht Hu) as (-> & -> & Hr). eauto. }
  unfold a_iread. destruct w; simpl.
  - specialize (Hlk (λ b, if b then Top else Enter)). destruct (a_lock u a). apply Hlk. by intros [].
  - case_bool_decide as Hd.
    + rewrite (hg_r _ _ _ Hh), bool_decide_eq_true_2 by done. by apply Hst.
    + assert (u ≠ t) as Hu. { intros Hu. destruct (Ht Hu) as (-> & -> & _). rewrite s64_req in Hd by lia. simpl in Hd. lia. }
      eapply (hung_quiet _ _ a); [done|apply quiet_refl|done..].
  - done.
  - by apply Hwk.
  - by apply Hwk.
  - destruct (reads_side _ _ _ _ (a_pipe a) (Hgo Wait ltac:(done))) as (S1 & S2 & S3). by apply hung_locks.
  - pose proof (a_wait_quiet u Readers a) as Hq. assert (read_on (a_wait u Readers a).1) as Hro.
    { unfold a_wait. by destruct (cond_wait _ _) as [[] ?]. }
    destruct (a_wait u Readers a) as [w' a']. simpl in *. destruct (reads_side _ _ _ _ (a_pipe a) (Hgo w' ltac:(done))) as (S1 & S2 & S3).
    by eapply (hung_quiet _ _ a).
  - by apply Hst.
  - specialize (Hlk (λ b, if b then if decide (err ≠ 0) then Leave err false else Xfer else Woken err)). destruct (a_lock u a). apply Hlk.
    intros [] Hr; [|done]. simpl in Hr. by rewrite decide_False by lia.
  - by apply Hwk.
  - assert (u ≠ t) as Hu by (intros Hu; by destruct (Ht Hu) as (_ & _ & ?)). by apply hung_locks.
Qed.

Lemma hung_write t nb a u n buf k w :
  hung t nb a -> a_job a u = Writing n buf k w -> let c := a_iwrite PIPESZ u n buf k w a in hung t nb (a_put u c.1 c.2).
Proof.
  intros Hh Hj. pose proof (hg_write _ _ _ Hh u n buf k w Hj) as Hw.
  assert (u ≠ t) as Hu. { intros ->. destruct (hg_read _ _ _ Hh) as (w' & E & _). rewrite Hj in E. done. }
  assert (∀ w', write_over w' -> hung t nb (a_put u (Writing n buf k w') a)) as Hst.
  { intros w' Hw'. eapply (hung_quiet _ _ a); [done|apply quiet_refl| |done|done]. intros. by simplify_eq. }
  assert (∀ w', write_over w' -> hung t nb (a_put u (Writing n buf k w') (a_wake Readers a))) as Hwk.
  { intros w' Hw'. eapply (hung_quiet _ _ a); [done|apply a_wake_quiet| |done|done]. intros. by simplify_eq. }
  unfold a_iwrite. destruct w; simpl in *; try done.
  - pose proof (hung_lock t nb a u (λ b, Writing n buf k (if b then Top else Enter)) Hh) as H. destruct (a_lock u a).
    apply H; [|done|done]. intros [] ? ? ? ? ?; by simplify_eq.
  - rewrite (hg_w _ _ _ Hh). case_bool_decide; by apply Hst.
  - by apply Hwk.
  - by apply Hwk.
  - by apply hung_locks.
Qed.

Lemma has_mask fl m a :
  has fl (a_set_pipe (p_set_flags (Z.land (p_flags (a_pipe a)) (Z.lnot m)) (a_pipe a)) a) =
  bool_decide (Z.land (Z.land (p_flags (a_pipe a)) fl) (Z.lnot m) ≠ 0).
Proof.
  unfold has. simpl. apply bool_decide_ext. by rewrite <- !Z.land_assoc, (Z.land_comm (Z.lnot m)).
Qed.

Lemma hung_close t nb a u ip w :
  hung t nb a -> a_job a u = Closing ip w -> let c := a_iclose u ip w a in hung t nb (a_put u c.1 c.2).
Proof.
  intros Hh Hj. pose proof (hg_close _ _ _ Hh u ip w Hj) as ->.
  assert (u ≠ t) as Hu. { intros ->. destruct (hg_read _ _ _ Hh) as (w' & E & _). rewrite Hj in E. done. }
  unfold a_iclose. rewrite bool_decide_eq_true_2 by done. destruct w.
  - pose proof (hung_lock t nb a u (λ b, Closing (p_iwrite (a_pipe a)) (if b then CMask else CEnter)) Hh) as H.
    destruct (a_lock u a). apply H; [done| |done]. intros [] ? ? ?; by simplify_eq.
  - cbn [fst snd]. eapply (hung_put _ _ a); [done|intros v; by left|right; split_and!; [done|done| |]|apply Hh|done|intros; by simplify_eq|done].
    + rewrite has_mask. unfold has. apply bool_decide_ext. by rewrite <- Z.land_assoc.
    + rewrite has_mask. apply bool_decide_eq_false. intros H. apply H. rewrite <- Z.land_assoc. apply Z.land_0_r.
  - cbn [fst snd]. eapply (hung_quiet _ _ a); [done|apply a_wake_all_quiet|done|intros; by simplify_eq|done].
  - cbn [fst snd]. eapply (hung_quiet _ _ a); [done|apply a_wake_all_quiet|done|intros; by simplify_eq|done].
  - cbn [fst snd]. by apply hung_locks.
Qed.

Lemma hung_exec t nb a u :
  hung t nb a -> let c := a_exec PIPESZ u (a_job a u) a in hung t nb (a_put u c.1 c.2).
Proof.
  intros Hh. assert (∀ j, a_job a u = j -> idle j = true -> hung t nb (a_put u j a)) as Hid.
  { intros j Hj Hi. eapply (hung_quiet _ _ a); [done|apply quiet_refl|intros ? ? ? ? E; by rewrite E in Hi|intros ? ? E; by rewrite E in Hi|].
    intros ->. destruct (hg_read _ _ _ Hh) as (w & E & _). rewrite Hj in E. by rewrite E in Hi. }
  destruct (a_job a u) as [|n got w|n buf k w|ip w|ret got] eqn:Hj; simpl; [by apply Hid|by apply hung_read|by apply hung_write|by apply hung_close|by apply Hid].
Qed.

Lemma hung_start t nb a u j :
  hung t nb a -> (∀ n buf k w, j = Writing n buf k w -> write_over w) -> (∀ ip w, j = Closing ip w -> ip = p_iwrite (a_pipe a)) ->
  hung t nb (a_start u j a).
Proof.
  intros Hh H1 H2. unfold a_start. destruct (idle (a_job a u)) eqn:Ei; [|done]. eapply (hung_quiet _ _ a); [done|apply quiet_refl|done|done|].
  intros ->. destruct (hg_read _ _ _ Hh) as (w & E & _). by rewrite E in Ei.
Qed.

Lemma hung_happen t nb a e : hung t nb a -> hung_event (a_pipe a) t e -> hung t nb (a_happen PIPESZ e a).
Proof.
  intros Hh He. assert (∀ u d c e, u ≠ t -> hung t nb (a_put u (at_where (a_job a u) (Woken e)) (a_set_pipe (p_set_cond d c (a_pipe a)) a)) ∨
    (∃ x, waits_at (a_job a u) = Some (Writers, x)) ∨ waits_at (a_job a u) = None) as Hf.
  { intros u d c e' Hu. destruct (a_job a u) as [|n got w|n buf k w|ip w|ret got] eqn:Hj; simpl; [by auto| |by eauto|by auto|by auto]. left.
    eapply (hung_quiet _ _ a); [done| |done|done|done]. split_and!; [apply cond_frame|done..|]. intros v. by left. }
  destruct e as [u|u|u n|u buf|u ip|u|u]; simpl in *.
  - pose proof (hung_exec t nb a u Hh) as H. by destruct (a_exec PIPESZ u (a_job a u) a).
  - pose proof (hung_exec t nb a u Hh) as H. by destruct (a_exec PIPESZ u (a_job a u) a).
  - by apply hung_start.
  - apply hung_start; [done| |done]. intros. by simplify_eq.
  - apply hung_start; [done|done|]. intros. by simplify_eq.
  - destruct (waits_at (a_job a u)) as [[d w]|] eqn:Ew; [|done]. destruct w; try done.
    destruct (a_job a u) as [|n got w|n buf k w|ip w|ret got] eqn:Hj; simplify_eq/=; [|by pose proof (hg_write _ _ _ Hh _ _ _ _ _ Hj)].
    destruct (Hf u Readers (Cond (c_count (p_readers (a_pipe a))) (filter (λ x, x ≠ u) (c_waiters (p_readers (a_pipe a))))) (- EINTR) He) as [H|[[x H]|H]];
      rewrite Hj in H; done.
  - destruct (waits_at (a_job a u)) as [[d w]|] eqn:Ew; [|done]. destruct w; try done.
    destruct (a_job a u) as [|n got w|n buf k w|ip w|ret got] eqn:Hj; simplify_eq/=; [|by pose proof (hg_write _ _ _ Hh _ _ _ _ _ Hj)].
    destruct (Hf u Readers (Cond (u64 (c_count (p_readers (a_pipe a)) + 1)) (c_waiters (p_readers (a_pipe a)))) (- ENOMEM) He) as [H|[[x H]|H]];
      rewrite Hj in H; done.
Qed.

Lemma hung_history t nb es a : hung t nb a -> Forall (hung_event (a_pipe a) t) es -> hung t nb (a_history PIPESZ es a).
Proof.
  revert a. induction es as [|e es IH]; intros a Hh Hes; [done|]. apply Forall_cons in Hes as [He Hes]. simpl.
  apply IH; [by apply hung_happen|]. eapply Forall_impl; [exact Hes|]. intros x. pose proof (happen_ends PIPESZ a e) as E. unfold ends in E.
  injection E as _ E _. unfold hung_event. by rewrite E.
Qed.

Lemma a_history_app es es' a : a_history PIPESZ (es ++ es') a = a_history PIPESZ es' (a_history PIPESZ es a).
Proof. revert a. induction es as [|e es IH]; intros a; [done|]. simpl. apply IH. Qed.

(** There is no end of file: a read from an empty pipe whose write end was
    closed does not return, whatever happens, unless the reader is killed, its
    queue runs out of memory, or the read end is closed too. *)
Theorem pipe_no_eof s es0 es t nb :
  fresh_pipe s -> Forall (event_ok (y_pipe s)) (es0 ++ es) -> wake_fails PIPESZ (es0 ++ es) (abs_fresh s) = false ->
  hung t nb (a_history PIPESZ es0 (abs_fresh s)) -> Forall (hung_event (y_pipe s) t) es ->
  wp (history (es0 ++ es)) s (λ _ s', ∃ w, job_of s' t = Reading nb [] w).
Proof.
  intros Hf Hok Hw Hh Hes. pose proof (fresh_history s _ Hf Hok) as H. rewrite Hw in H. eapply wp_mono; [exact H|].
  intros [] s' [Hr _]. rewrite (rel_job _ _ _ _ _ Hr), a_history_app.
  destruct (hg_read _ _ _ (hung_history t nb es _ Hh ltac:(
    eapply Forall_impl; [exact Hes|]; intros x; pose proof (history_ends es0 (abs_fresh s)) as E; unfold ends in E; injection E as _ E _;
    unfold hung_event; by rewrite E))) as (w & E & _). eauto.
Qed.

(** *** A pipe *)

Definition pipe_heap : dsheap :=
  set_rings {[100 := Ringbuf 200 PIPESZ 0 0 0 false]} (set_bufs {[200 := replicate 4096 0]} empty_dsheap).
Definition demo_pipe : psys := Psys (Pipe PIPE_RW COND_INIT COND_INIT 11 12 100 None) pipe_heap ∅ [] [] [].

Lemma demo_fresh : fresh_pipe demo_pipe.
Proof.
  split; [|done]. exists 11, 12, 100. split; [done|]. split; [done|done| |done].
  exists 200, 0, (replicate 4096 0). simpl. rewrite !lookup_singleton_eq. split_and!; done.
Qed.

Definition runs_ (t : Z) (n : nat) : list event := replicate n (Run t).
(** Thread 2 writes "ABC" while thread 1, which came first, reads two bytes. *)
Definition demo_events : list event :=
  [CallRead 1 2] ++ runs_ 1 5 ++ [CallWrite 2 [65; 66; 67]] ++ runs_ 2 5 ++ runs_ 1 6.

Lemma demo_events_ok : Forall (event_ok (y_pipe demo_pipe)) demo_events.
Proof. unfold demo_events, runs_. repeat (apply Forall_cons; split; [simpl; lia|]). by apply Forall_nil. Qed.
Lemma demo_events_duo : Forall (duo_event 1 2) demo_events.
Proof. unfold demo_events, runs_. repeat (apply Forall_cons; split; [simpl; lia|]). by apply Forall_nil. Qed.

(** The same history, in which the write finds no memory to wake the reader. *)
Definition starved_events : list event :=
  [CallRead 1 2] ++ runs_ 1 5 ++ [CallWrite 2 [65; 66; 67]] ++ runs_ 2 2 ++ [RunNoMem 2].
Lemma starved_events_ok : Forall (event_ok (y_pipe demo_pipe)) starved_events.
Proof. unfold starved_events, runs_. repeat (apply Forall_cons; split; [simpl; lia|]). by apply Forall_nil. Qed.
Lemma demo_wakes : wake_fails PIPESZ demo_events (abs_fresh demo_pipe) = false.
Proof. by vm_compute. Qed.
Lemma starved_wakes : wake_fails PIPESZ starved_events (abs_fresh demo_pipe) = true.
Proof. by vm_compute. Qed.

Lemma pipe_fifo_witness : wp (history demo_events) demo_pipe (λ _ s', ∃ bs, y_out s' ++ bs = y_in s').
Proof.
  pose proof (pipe_fifo demo_pipe demo_events demo_fresh demo_events_ok) as H. rewrite demo_wakes in H. eapply wp_mono; [exact H|].
  intros [] s' (bs & _ & Hb). eauto.
Defined.

Lemma pipe_refines_witness : wp (history demo_events) demo_pipe (λ _ s', y_out s' = [65; 66]) ∧ history starved_events demo_pipe = Stop Panic.
Proof.
  pose proof (pipe_refines demo_pipe demo_events demo_fresh demo_events_ok) as H. rewrite demo_wakes in H.
  pose proof (pipe_refines demo_pipe starved_events demo_fresh starved_events_ok) as H2. rewrite starved_wakes in H2. split; [|exact H2].
  eapply wp_mono; [exact H|]. intros [] s' Hr. rewrite (rl_out _ _ _ _ Hr). by vm_compute.
Defined.

Lemma pipe_no_lost_wakeup_witness : wp (history demo_events) demo_pipe (λ _ s', ~ (at_ s' 1 = Some Asleep ∧ at_ s' 2 = Some Asleep)).
Proof.
  assert (Z.of_nat (length demo_events) < 2147483648) as Hlen by (by vm_compute).
  pose proof (pipe_no_lost_wakeup demo_pipe demo_events 1 2 demo_fresh demo_events_ok demo_events_duo ltac:(done) Hlen) as H. rewrite demo_wakes in H.
  eapply wp_mono; [exact H|]. by intros [] s' (bs & _ & _ & _ & Hn).
Defined.

(** The write end is closed and thread 1 asks for three bytes. *)
Definition eof_events : list event := [CallClose 2 12] ++ runs_ 2 5 ++ [CallRead 1 3].

Lemma pipe_no_eof_witness : wp (history (eof_events ++ runs_ 1 50)) demo_pipe (λ _ s', ∃ w, job_of s' 1 = Reading 3 [] w).
Proof.
  apply (pipe_no_eof demo_pipe eof_events (runs_ 1 50) 1 3).
  - apply demo_fresh.
  - unfold eof_events, runs_. repeat (apply Forall_cons; split; [simpl; lia|]). by apply Forall_nil.
  - by vm_compute.
  - assert (∀ u j, a_job (a_history PIPESZ eof_events (abs_fresh demo_pipe)) u = j -> j = Free ∨ j = Ret 0 [] ∨ j = Reading 3 [] Enter) as Hj.
    { assert (map_Forall (λ _ j, j = Ret 0 [] ∨ j = Reading 3 [] Enter) (a_jobs (a_history PIPESZ eof_events (abs_fresh demo_pipe)))) as Hm
        by (apply (bool_decide_unpack _); by vm_compute).
      intros u j. unfold a_job. destruct (a_jobs _ !! u) as [j'|] eqn:E; simpl; intros <-; [|by left]. right. by apply (Hm u j'). }
    split; [lia|by vm_compute|by vm_compute|by vm_compute|by vm_compute|..].
    + intros u n buf k w E. apply Hj in E as [?|[?|?]]; done.
    + intros u ip w E. apply Hj in E as [?|[?|?]]; done.
    + exists Enter. split; [by vm_compute|done].
  - unfold runs_. apply Forall_replicate. done.
Defined.

(** With a killed reader a wake-up is lost: the count of the condition
    variable still includes it, so the signal for the byte of thread 2 is
    taken for its own, and thread 3 goes to sleep on a pipe that holds a byte
    while nobody is left to wake it. *)
Definition killed_events : list event :=
  [CallRead 1 1] ++ runs_ 1 5 ++ [Kill 1] ++ runs_ 1 2 ++ [CallRead 3 1] ++ runs_ 3 4 ++ [CallWrite 2 [65]] ++ runs_ 2 5 ++ runs_ 3 1.
Theorem pipe_kill_loses_wakeup :
  match history killed_events demo_pipe with
  | Ok _ s => job_of s 3 = Reading 1 [] Asleep ∧ job_of s 1 = Ret (- EINTR) [] ∧ job_of s 2 = Ret 1 [] ∧ y_in s = [65] ∧ y_out s = []
  | Stop _ => False
  end.
Proof. by vm_compute. Qed.

(** Two readers: the signal of a write of two bytes wakes one of them, which
    takes one byte and leaves; the other sleeps on a pipe that is not empty. *)
Definition readers_events : list event :=
  [CallRead 1 1] ++ runs_ 1 5 ++ [CallRead 3 1] ++ runs_ 3 4 ++ [CallWrite 2 [65; 66]] ++ runs_ 2 5 ++ runs_ 3 1 ++ runs_ 1 6.
Theorem pipe_readers_lose_wakeup :
  match history readers_events demo_pipe with
  | Ok _ s => job_of s 3 = Reading 1 [] Asleep ∧ job_of s 1 = Ret 1 [65] ∧ job_of s 2 = Ret 2 [] ∧ y_in s = [65; 66] ∧ y_out s = [65]
  | Stop _ => False
  end.
Proof. by vm_compute. Qed.

(** A reader killed half way returns the error and drops what it had read. *)
Definition short_events : list event :=
  [CallWrite 2 [65]] ++ runs_ 2 5 ++ [CallRead 1 2] ++ runs_ 1 14 ++ [Kill 1] ++ runs_ 1 2.
Theorem pipe_kill_drops_bytes :
  match history short_events demo_pipe with
  | Ok _ s => job_of s 1 = Ret (- EINTR) [65] ∧ y_out s = [65]
  | Stop _ => False
  end.
Proof. by vm_compute. Qed.
