(* ===== verification/MmLink.v ===== *)
(** * The physical page allocator behind the page tables

    The page tables are proved against the interface [Frames]: a set of frames
    with reference counts, from which [get_page] takes one that has none.
    Here a zone of mm/pmm/zone_page.c is shown to implement it: the frames of
    the zone are an instance of the class, and [__get_free_page], [__pages_put]
    and [__page_incr] on the page array do to the counts what the page tables
    assume. *)

From S2P Require Import Prelude Zone ZoneSpec Paging.

(** ** The frames of a zone *)

Definition zone_frame (z : mm_zone) (k : nat) : Z := z_start z + Z.of_nat k * 4096.
Definition zone_frame_list (z : mm_zone) : list Z := zone_frame z <$> seq 0 (Z.to_nat (z_nrpages z)).

(** A zone of page-aligned frames above 0 and below 2^52. *)
Record zone_fits (z : mm_zone) : Prop := {
  zf_start : 0 < z_start z;
  zf_align : z_start z mod 4096 = 0;
  zf_end : z_start z + z_nrpages z * 4096 <= 4503599627370496;
}.

Definition zone_choose (z : mm_zone) (D : gset Z) : option Z := head (filter (λ f, f ∉ D) (zone_frame_list z)).

Lemma zone_frame_in z f : f ∈ zone_frame_list z <-> ∃ k, f = zone_frame z k ∧ Z.of_nat k < z_nrpages z.
Proof.
  unfold zone_frame_list. rewrite list_elem_of_fmap. split.
  - intros (k & -> & Hk%elem_of_seq). exists k. split; [done|lia].
  - intros (k & -> & Hk). exists k. split; [done|]. apply elem_of_seq. lia.
Qed.

Program Definition zone_frames (z : mm_zone) (Hz : zone_fits z) : Frames := {|
  fr_managed f := bool_decide (f ∈ zone_frame_list z);
  fr_choose _ D := zone_choose z D;
|}.
Next Obligation.
  intros z [H0 Ha He] _ D f Hf. apply head_Some_elem_of, list_elem_of_filter in Hf as [HD Hf].
  split; [|split; [done|by apply bool_decide_eq_true]]. apply zone_frame_in in Hf as (k & -> & Hk). unfold zone_frame, frame_ok. split; [lia|].
  unfold Paging.PGSZ. rewrite Z.mod_add by lia. done.
Qed.

(** ** The relation *)

Section link.
Context {H : Type} {PM : PhysMem H}.
Context (z0 : mm_zone) (Hz0 : zone_fits z0) (i : nat) (Hi : (i <= 3)%nat).

#[local] Instance frames0 : Frames := zone_frames z0 Hz0.

(** The counts of the page array that are not 0 are the reference counts the
    page tables see. *)
Definition counts (l : list Z) (m : gmap Z Z) : Prop :=
  ∀ f c, m !! f = Some c <-> c ≠ 0 ∧ ∃ k, l !! k = Some c ∧ f = zone_frame z0 k.

(** The zone [i] of the allocator, unlocked, and no earlier zone with any of
    its frames. *)
Record linked (s : pmm H) (σ : machine) : Prop := {
  lk_zone : ∃ z l, zrep s i z l ∧ zvalid z ∧ z_start z = z_start z0 ∧ z_nrpages z = z_nrpages z0 ∧
    z_pages z = z_pages z0 ∧ counts l (p_refs σ);
  lk_first k : Z.of_nat k < z_nrpages z0 ->
    ∀ j, (j < i)%nat -> ∃ y, p_zones s !! j = Some y ∧ ~ in_zone y (zone_frame z0 k) 4096;
}.

Lemma frame_inj k k' : zone_frame z0 k = zone_frame z0 k' -> k = k'.
Proof. unfold zone_frame. lia. Qed.

Lemma counts_none l m k : counts l m -> l !! k = Some 0 -> m !! zone_frame z0 k = None.
Proof.
  intros Hc Hk. destruct (m !! zone_frame z0 k) as [c|] eqn:E; [|done]. apply Hc in E as (Hne & k' & Hk' & E).
  apply frame_inj in E as <-. congruence.
Qed.
Lemma counts_some l m k c : counts l m -> l !! k = Some c -> c ≠ 0 -> m !! zone_frame z0 k = Some c.
Proof. intros Hc Hk Hne. apply Hc. eauto. Qed.

(** One count changes. *)
Lemma counts_set l l' m k c :
  counts l m -> (k < length l)%nat -> (∀ j, l' !! j = if decide (j = k) then Some c else l !! j) ->
  counts l' (if decide (c = 0) then delete (zone_frame z0 k) m else <[zone_frame z0 k := c]> m).
Proof.
  intros Hc Hk Hl f x. destruct (decide (f = zone_frame z0 k)) as [->|Hf].
  - assert ((∃ k', l' !! k' = Some x ∧ zone_frame z0 k = zone_frame z0 k') <-> x = c) as ->.
    { split; [intros (k' & E & <-%frame_inj)|intros ->; exists k]; rewrite Hl, decide_True in *; naive_solver. }
    case_decide; [rewrite lookup_delete_eq|rewrite lookup_insert_eq]; naive_solver.
  - transitivity (m !! f = Some x); [case_decide; [by rewrite lookup_delete_ne|by rewrite lookup_insert_ne]|].
    rewrite (Hc f x). split; intros (Hx & k' & E & ->); (split; [done|]; exists k'; split; [|done]);
      rewrite Hl in *; rewrite decide_False in * by congruence; done.
Qed.

Lemma fits_choose l m :
  Z.of_nat (length l) = z_nrpages z0 -> counts l m ->
  (∀ st, ~ run_at l 1 st) -> zone_choose z0 (dom m) = None.
Proof.
  intros Hlen Hc Hno. unfold zone_choose. destruct (head _) as [f|] eqn:E; [|done].
  apply head_Some_elem_of, list_elem_of_filter in E as [HD (k & -> & Hk)%zone_frame_in]. exfalso.
  destruct (lookup_lt_is_Some_2 l k) as [c Hck]; [lia|]. apply HD, elem_of_dom. destruct (decide (c = 0)) as [->|Hne]; [|eauto using counts_some].
  exfalso. apply (Hno (Z.of_nat k)). split; [lia|]. split; [lia|]. intros j Hj. by replace (Z.to_nat j) with k by lia.
Qed.

Lemma fits_first l m (st : nat) :
  Z.of_nat (length l) = z_nrpages z0 -> counts l m -> l !! st = Some 0 ->
  (∀ j, (j < st)%nat -> l !! j ≠ Some 0) -> zone_choose z0 (dom m) = Some (zone_frame z0 st).
Proof.
  intros Hlen Hc Hst Hbefore. unfold zone_choose, zone_frame_list.
  assert (st < length l)%nat as Hlt by by eapply lookup_lt_Some.
  replace (Z.to_nat (z_nrpages z0)) with (st + S (length l - st - 1))%nat by lia. rewrite seq_app, fmap_app, filter_app.
  replace (filter (λ f, f ∉ dom m) (zone_frame z0 <$> seq 0 st)) with (@nil Z).
  - simpl. rewrite filter_cons_True; [done|]. apply not_elem_of_dom. by eapply counts_none.
  - destruct (filter _ _) as [|f fs] eqn:E; [done|]. exfalso. assert (f ∈ f :: fs) as Hin by left. rewrite <- E in Hin.
    apply list_elem_of_filter in Hin as [Hnd (k & -> & Hk%elem_of_seq)%list_elem_of_fmap].
    destruct (lookup_lt_is_Some_2 l k) as [c Hck]; [lia|]. apply Hnd, elem_of_dom.
    assert (c ≠ 0) by (intros ->; by apply (Hbefore k); [lia|]). eauto using counts_some.
Qed.

(** ** The three calls *)

Lemma linked_get passes gfp zero s σ :
  linked s σ -> gfp_zone gfp = Z.of_nat i -> no_wait gfp = true -> (has_bit gfp GFP_ZERO = true -> i ≠ MM_ZONE_HIGH) -> (1 <= passes)%nat ->
  wp (get_free_page passes gfp) s (λ a s', ∃ σ', get_page zero σ = Ok a σ' ∧ linked s' σ').
Proof.
  intros [(z & l & Hz & Hv & Hst & Hnr & Hpg & Hc) Hfirst] Hg Hnw Hzero Hp. pose proof (zr_len _ _ _ _ Hz) as Hlen.
  unfold get_free_page, get_page. cbn [fr_choose frames0 zone_frames].
  eapply wp_get_free_pages; try done; change (Z.of_nat (Z.to_nat (2 ^ 0))) with 1.
  - intros Hno. rewrite (fits_choose l) by (done || congruence). eexists. split; [done|]. split; [|done]. exists z, l. done.
  - intros st s' (H0 & Hle & Hrun) Hbefore Hz' [Hloc1 Hloc2]. change (Z.to_nat (2 ^ 0)) with 1%nat in *.
    rewrite (fits_first l _ (Z.to_nat st)); [|congruence|done|apply Hrun; lia|].
    + replace (z_start z + st * Zone.PGSZ) with (zone_frame z0 (Z.to_nat st)) by (unfold zone_frame, Zone.PGSZ; lia).
      eexists. split; [done|]. split.
      * eexists _, _. split; [exact Hz'|]. split_and!; [done..|]. cbn [p_refs set_mem set_refs set_ticks].
        assert (Z.to_nat st < length l)%nat as Hlt by lia.
        apply (counts_set l _ _ _ 1 Hc Hlt). intros j. rewrite taken_lookup by lia. repeat case_decide; done || lia.
      * intros k Hk j Hj. destruct (Hfirst k Hk j Hj) as (y & Hy & Hin). exists y. split; [|done]. rewrite Hloc2 by lia. done.
    + intros j Hj Hj0. apply (Hbefore (Z.of_nat j)); [lia|]. split; [lia|]. split; [apply lookup_lt_Some in Hj0; lia|].
      intros x Hx. by replace (Z.to_nat x) with j by lia.
Qed.

Lemma zone_for_frame s σ k : linked s σ -> Z.of_nat k < z_nrpages z0 -> zone_for s (zone_frame z0 k) 4096 i.
Proof.
  intros [(z & l & Hz & Hv & Hst & Hnr & Hpg & Hc) Hfirst] Hk. split; [|intros j Hj; by apply Hfirst].
  exists z. split; [apply (zr_zone _ _ _ _ Hz)|]. pose proof (zr_range _ _ _ _ Hz) as [Hr1 Hr2]. unfold in_zone, zone_frame, Zone.PGSZ in *.
  rewrite Hst, Hnr in *. split; [lia|]. rewrite (u64_small (4096 - 1)) by (unfold in_u64, two64; lia).
  rewrite !u64_small by (unfold in_u64; lia). lia.
Qed.

Lemma linked_put s σ k :
  linked s σ -> Z.of_nat k < z_nrpages z0 ->
  wp (page_put_addr (zone_frame z0 k)) s (λ _ s', ∃ σ', pmman_free (zone_frame z0 k) σ = Ok tt σ' ∧ linked s' σ').
Proof.
  intros Hlk Hk. pose proof (zone_for_frame s σ k Hlk Hk) as Hfor.
  destruct Hlk as [(z & l & Hz & Hv & Hst & Hnr & Hpg & Hc) Hfirst]. pose proof (zr_len _ _ _ _ Hz) as Hlen.
  pose proof (zf_start _ Hz0) as Hpos. assert (zone_frame z0 k ≠ 0) as Hne by (unfold zone_frame; lia).
  assert (k < length l)%nat as Hlt by lia. destruct (lookup_lt_is_Some_2 l k Hlt) as [c Hck].
  assert (0 <= c) as Hc0. { pose proof (zr_counts _ _ _ _ Hz) as Hall. eapply Forall_lookup in Hall; [|exact Hck]. simpl in Hall. lia. }
  assert (zone_frame z0 k = z_start z + Z.of_nat k * Zone.PGSZ) as Ef by (unfold zone_frame, Zone.PGSZ; lia).
  unfold page_put_addr. rewrite Ef. eapply wp_pages_put_addr; [done|done|done|lia|congruence|by rewrite <- Ef|change (Z.to_nat (2 ^ 0)) with 1%nat; lia|].
  intros s' Hz' [Hloc1 Hloc2]. rewrite <- Ef. change (Z.to_nat (2 ^ 0)) with 1%nat in *.
  unfold pmman_free. rewrite decide_False by done. cbn [fr_managed frames0 zone_frames].
  rewrite bool_decide_eq_true_2 by (apply zone_frame_in; eauto).
  assert (∀ σ', counts (putl 1 k l) (p_refs σ') -> linked s' σ') as Hend.
  { intros σ' Hc'. split; [eexists _, _; split; [exact Hz'|done]|].
    intros k' Hk' j Hj. destruct (Hfirst k' Hk' j Hj) as (y & Hy & Hin). exists y. split; [|done]. rewrite Hloc2 by lia. done. }
  assert (∀ j, putl 1 k l !! j = if decide (j = k) then Some (put1 c) else l !! j) as Hl.
  { intros j. rewrite putl_lookup by lia. destruct (decide (j = k)) as [->|].
    - rewrite decide_True by lia. by rewrite Hck.
    - by rewrite decide_False by lia. }
  pose proof (counts_set l _ _ k _ Hc Hlt Hl) as Hset. destruct (decide (c = 0)) as [->|Hcn].
  - rewrite (counts_none l _ k Hc Hck). eexists. split; [done|]. apply Hend. change (put1 0) with 0 in Hset. rewrite decide_True in Hset by done.
    by rewrite delete_id in Hset by by apply (counts_none l _ k Hc Hck).
  - rewrite (counts_some l _ k c Hc Hck Hcn). eexists. split; [done|]. apply Hend. simpl. unfold put1 in Hset. rewrite (decide_False (P := c = 0)) in Hset by done.
    repeat case_decide; done || lia.
Qed.

Lemma linked_incr s σ k c :
  linked s σ -> p_refs σ !! zone_frame z0 k = Some c -> c + 1 < two64 ->
  wp (page_incr_addr (zone_frame z0 k)) s (λ _ s', ∃ σ', Paging.page_incr (zone_frame z0 k) σ = Ok tt σ' ∧ linked s' σ').
Proof.
  intros Hlk Hm Hlt. pose proof Hlk as [(z & l & Hz & Hv & Hst & Hnr & Hpg & Hc) Hfirst]. pose proof (zr_len _ _ _ _ Hz) as Hlen.
  pose proof Hm as (Hcn & k' & Hck & <-%frame_inj)%Hc. assert (k < length l)%nat as Hkl by by eapply lookup_lt_Some.
  pose proof (zone_for_frame s σ k Hlk ltac:(lia)) as Hfor. pose proof (zf_start _ Hz0) as Hpos.
  assert (0 <= c) as Hc0. { pose proof (zr_counts _ _ _ _ Hz) as Hall. eapply Forall_lookup in Hall; [|exact Hck]. simpl in Hall. lia. }
  assert (zone_frame z0 k ≠ 0) as Hne by (unfold zone_frame; lia). pose proof Hv as [_ Hunl].
  pose proof (zr_base _ _ _ _ Hz) as [Hb1 Hb2]. pose proof (zr_range _ _ _ _ Hz) as [Hr1 Hr2]. pose proof (zr_zone _ _ _ _ Hz) as Hzi.
  destruct (zr_pages _ _ _ _ Hz k c Hck) as (g & Hg & Hgc).
  unfold page_incr_addr. rewrite decide_False by done. wp_step. eapply wp_get_mmzone; [done|done|done|done|].
  wp_step. eapply wp_zone; [simpl; apply list_lookup_insert_eq; by eapply lookup_lt_Some|].
  assert (page_of (zset_lock true z) (zone_frame z0 k) = z_pages z + PAGE_T * Z.of_nat k) as ->.
  { replace (zone_frame z0 k) with (z_start (zset_lock true z) + Z.of_nat k * Zone.PGSZ) by (simpl; unfold zone_frame, Zone.PGSZ; lia).
    apply (page_of_eq (zset_lock true z)); simpl; done || lia. }
  assert (z_pages z + PAGE_T * Z.of_nat k ≠ NULL) as Hpn by (unfold NULL, PAGE_T; lia).
  wp_step. eapply wp_pg; [done|exact Hg|]. wp_step. eapply wp_pg_upd; [done|exact Hg|]. wp_step.
  eapply wp_unlock; [simpl; apply list_lookup_insert_eq; by eapply lookup_lt_Some|done|]. apply wp_ret. simpl.
  rewrite lock_unlock by done. unfold Paging.page_incr. rewrite decide_False by done. cbn [fr_managed frames0 zone_frames].
  rewrite bool_decide_eq_true_2 by (apply zone_frame_in; exists k; split; [done|lia]). rewrite Hm. eexists. split; [done|].
  split; [|exact Hfirst]. exists z, (<[k := c + 1]> l). split; [|split_and!; try done].
  - pose proof (zrep_set s i z l k c (c + 1) (set_refcnt (u64 (pg_refcnt g + 1)) g) (z_free z) (p_mach s) Hz Hck) as Hset.
    replace (zset_free (z_free z) z) with z in Hset by by destruct z. rewrite list_insert_id in Hset by done. apply Hset.
    + simpl. rewrite Hgc. apply u64_small. unfold in_u64. lia.
    + lia.
    + unfold is0. rewrite !decide_False by lia. lia.
  - simpl. pose proof (counts_set l (<[k := c + 1]> l) _ k (c + 1) Hc Hkl) as Hset. rewrite decide_False in Hset by lia. apply Hset.
    intros j. case_decide as Hj; [subst; by apply list_lookup_insert_eq|by apply list_lookup_insert_ne].
Qed.

(** ** Histories *)

(** What the page tables ask of the allocator: a frame, dropping a reference,
    adding one to a frame in use. *)
Variant fop := FGet (zero : bool) | FPut (k : nat) | FIncr (k : nat).

Definition GFP_for (zero : bool) : Z := if zero then Z.lor GFP_NORMAL GFP_ZERO else GFP_NORMAL.

(** On the reference counts of the machine; other uses are excluded. *)
Definition spec_op (o : fop) : M machine Z :=
  match o with
  | FGet zero => get_page zero
  | FPut k => if decide (Z.of_nat k < z_nrpages z0) then pmman_free (zone_frame z0 k);; mret 0 else halt Panic
  | FIncr k =>
      c ← gets (λ σ, p_refs σ !! zone_frame z0 k);
      match c with
      | Some n => if decide (n + 1 < two64) then Paging.page_incr (zone_frame z0 k);; mret 0 else halt Panic
      | None => halt Panic
      end
  end.
(** On the page array. *)
Definition zone_op (o : fop) : M (pmm H) Z :=
  match o with
  | FGet zero => get_free_page 1 (GFP_for zero)
  | FPut k => page_put_addr (zone_frame z0 k);; mret 0
  | FIncr k => page_incr_addr (zone_frame z0 k);; mret 0
  end.

Fixpoint run_ops {S} (f : fop -> M S Z) (os : list fop) : M S (list Z) :=
  match os with [] => mret [] | o :: os => r ← f o; rs ← run_ops f os; mret (r :: rs) end.

Lemma zone_op_simulates s σ o (Q : Z -> machine -> Prop) :
  i = MM_ZONE_NORM -> linked s σ -> wp (spec_op o) σ Q -> wp (zone_op o) s (λ r s', ∃ σ', Q r σ' ∧ linked s' σ').
Proof.
  intros Hn Hl HQ. destruct o as [zero|k|k]; simpl in *.
  - eapply wp_mono; [apply (linked_get 1 (GFP_for zero) zero s σ Hl); [destruct zero; by rewrite Hn|by destruct zero|by rewrite Hn|lia]|].
    intros a s' (σ' & E & Hl'). exists σ'. split; [|done]. unfold wp in HQ. by rewrite E in HQ.
  - case_decide as Hk; [|done]. wp_step. eapply wp_mono; [by apply linked_put|]. intros [] s' (σ' & E & Hl'). apply wp_ret. exists σ'.
    split; [|done]. unfold wp, mbind, M_bind in HQ. by rewrite E in HQ.
  - unfold wp in HQ. rewrite (bind_ok _ _ _ (p_refs σ !! zone_frame z0 k) σ) in HQ by done.
    destruct (p_refs σ !! zone_frame z0 k) as [c|] eqn:Ec; [|done]. case_decide as Hc; [|done].
    wp_step. eapply wp_mono; [by eapply linked_incr|]. intros n s' (σ' & E & Hl'). apply wp_ret. exists σ'.
    split; [|done]. unfold mbind, M_bind in HQ. by rewrite E in HQ.
Qed.

Lemma zone_run_simulates s σ os (Q : list Z -> machine -> Prop) :
  i = MM_ZONE_NORM -> linked s σ -> wp (run_ops spec_op os) σ Q ->
  wp (run_ops zone_op os) s (λ rs s', ∃ σ', Q rs σ' ∧ linked s' σ').
Proof.
  intros Hn. revert s σ Q. induction os as [|o os IH]; intros s σ Q Hl HQ; simpl in *; [apply wp_ret; by exists σ|].
  wp_step. apply wp_run in HQ as (rs & σ' & E & HQ). unfold mbind, M_bind in E. destruct (spec_op o σ) as [r σ1|] eqn:E1; [|done].
  eapply wp_mono; [apply (zone_op_simulates s σ o (λ r' σ', r' = r ∧ σ' = σ1) Hn Hl); unfold wp; by rewrite E1|].
  intros r' s1 (σ1' & [-> ->] & Hl1). wp_step. destruct (run_ops spec_op os σ1) as [rs1 σ2|] eqn:E2; [|done].
  eapply wp_mono; [apply (IH s1 σ1 (λ x y, x = rs1 ∧ y = σ2) Hl1); unfold wp; by rewrite E2|].
  intros x s2 (σ2' & [-> ->] & Hl2). apply wp_ret. injection E as <- <-. eauto.
Qed.
End link.

(** C21. The physical page allocator implements the frames the page tables are
    proved against: on the zone of normal pages, every history of taking,
    releasing and sharing frames that the interface allows returns on the page
    array the same frames, chosen as the interface says, and leaves the same
    reference counts. *)
Theorem zone_implements_frames {H} `{PhysMem H} z0 (Hz0 : zone_fits z0) s σ os (Q : list Z -> machine -> Prop) :
  linked z0 MM_ZONE_NORM s σ -> wp (run_ops (spec_op z0 Hz0) os) σ Q ->
  wp (run_ops (zone_op z0) os) s (λ rs s', ∃ σ', Q rs σ' ∧ linked z0 MM_ZONE_NORM s' σ').
Proof. intros Hl HQ. eapply zone_run_simulates; [unfold MM_ZONE_NORM; lia|done|done|done]. Qed.

(** *** A zone of four pages *)

Lemma demo_fits : zone_fits (demo_zone 2).
Proof. by split. Qed.
Definition demo_machine : machine := Machine ∅ 0 (<[16777216 := 1]> {[16785408 := 2]}) ∅ [] 0.

Lemma demo_linked : linked (demo_zone 2) MM_ZONE_NORM (demo_pmm 2 1 0 2 0) demo_machine.
Proof.
  assert (∀ a n, ~ in_zone zone_zero a n) as Hz.
  { intros a n [_ E]. change (u64 (z_start zone_zero + z_nrpages zone_zero * Zone.PGSZ)) with 0 in E.
    pose proof (u64_range (a + u64 (n - 1))) as Hr. unfold in_u64 in Hr. lia. }
  split; [|intros k Hk j Hj; exists zone_zero; split; [|apply Hz]; unfold MM_ZONE_NORM in Hj; by replace j with 0%nat by lia].
  exists (demo_zone 2), [1; 0; 2; 0]. split; [apply demo_zrep; [by repeat constructor|done]|]. split_and!; try done.
  intros f c. simpl. split.
  - intros [[<- <-]|[H1 [<- <-]%lookup_singleton_Some]]%lookup_insert_Some; (split; [done|]); [by exists 0%nat|by exists 2%nat].
  - intros (Hc & [|[|[|[|k]]]] & E & ->); simplify_eq/=; done.
Qed.

Lemma zone_implements_frames_witness :
  wp (run_ops (zone_op (demo_zone 2)) [FGet true; FIncr 2; FPut 0; FGet false]) (demo_pmm 2 1 0 2 0)
     (λ rs s', rs = [16781312; 0; 0; 16777216]).
Proof.
  eapply wp_mono; [apply (zone_implements_frames (demo_zone 2) demo_fits (demo_pmm 2 1 0 2 0) demo_machine
    [FGet true; FIncr 2; FPut 0; FGet false] (λ rs _, rs = [16781312; 0; 0; 16777216])); [apply demo_linked|by vm_compute]|].
  by intros rs s' (σ' & -> & _).
Defined.
