(* ===== verification/Vfs.v ===== *)
(** * Credentials, inodes, dentries, open files and descriptor tables: the heap

    The structs of kernel/include/fs and the part of kernel memory that holds
    their instances.  As in the other components a lock embedded in a struct is
    the Boolean "held by the running thread" ([SpinLock] justifies it).  The
    private data of the file system drivers is the abstract component [v_drv]. *)

From S2P Require Import Prelude Lock Cond.

(** Further error numbers (include/bits/errno.h). *)
Definition EBUSY : Z := 16.
Definition ENODEV : Z := 19.
Definition EISDIR : Z := 21.
Definition EBADFD : Z := 77.
Definition EALREADY : Z := 114.

(** ** The structs *)

(** enum itype_t *)
Variant itype_t := FS_INV | FS_RGL | FS_DIR | FS_CHR | FS_LNK | FS_BLK | FS_FIFO | FS_PIPE | FS_SOCK.
#[export] Instance itype_eq_dec : EqDecision itype_t.
Proof. solve_decision. Defined.

(** struct cred_t (include/fs/cred.h) *)
Record cred_t := Cred {
  c_uid : Z;
  c_euid : Z;
  c_suid : Z;
  c_gid : Z;
  c_egid : Z;
  c_sgid : Z;
  c_umask : Z;
  c_lock : bool;
}.
Definition c_set_uid v r := Cred v (c_euid r) (c_suid r) (c_gid r) (c_egid r) (c_sgid r) (c_umask r) (c_lock r).
Definition c_set_euid v r := Cred (c_uid r) v (c_suid r) (c_gid r) (c_egid r) (c_sgid r) (c_umask r) (c_lock r).
Definition c_set_suid v r := Cred (c_uid r) (c_euid r) v (c_gid r) (c_egid r) (c_sgid r) (c_umask r) (c_lock r).
Definition c_set_gid v r := Cred (c_uid r) (c_euid r) (c_suid r) v (c_egid r) (c_sgid r) (c_umask r) (c_lock r).
Definition c_set_egid v r := Cred (c_uid r) (c_euid r) (c_suid r) (c_gid r) v (c_sgid r) (c_umask r) (c_lock r).
Definition c_set_sgid v r := Cred (c_uid r) (c_euid r) (c_suid r) (c_gid r) (c_egid r) v (c_umask r) (c_lock r).
Definition c_set_umask v r := Cred (c_uid r) (c_euid r) (c_suid r) (c_gid r) (c_egid r) (c_sgid r) v (c_lock r).
Definition c_set_lock v r := Cred (c_uid r) (c_euid r) (c_suid r) (c_gid r) (c_egid r) (c_sgid r) (c_umask r) v.
#[export] Instance lockable_cred_t : Lockable cred_t := {| lk_held := c_lock; lk_put := c_set_lock |}.

(** struct inode (include/fs/inode.h); [i_datalock] is never used. *)
Record inode_t := Inode {
  i_ino : Z;
  i_uid : Z;
  i_gid : Z;
  i_type : itype_t;
  i_rdev : Z;
  i_mode : Z;
  i_size : Z;
  i_flags : Z;
  i_refcnt : Z;
  i_hlinks : Z;
  i_sb : ptr;
  i_ops : ptr;
  i_priv : ptr;
  i_alias : ptr;
  i_cache : ptr;
  i_writers : ptr;
  i_readers : ptr;
  i_lock : bool;
}.
Definition i_set_type v r := Inode (i_ino r) (i_uid r) (i_gid r) v (i_rdev r) (i_mode r) (i_size r) (i_flags r) (i_refcnt r) (i_hlinks r) (i_sb r) (i_ops r) (i_priv r) (i_alias r) (i_cache r) (i_writers r) (i_readers r) (i_lock r).
Definition i_set_size v r := Inode (i_ino r) (i_uid r) (i_gid r) (i_type r) (i_rdev r) (i_mode r) v (i_flags r) (i_refcnt r) (i_hlinks r) (i_sb r) (i_ops r) (i_priv r) (i_alias r) (i_cache r) (i_writers r) (i_readers r) (i_lock r).
Definition i_set_refcnt v r := Inode (i_ino r) (i_uid r) (i_gid r) (i_type r) (i_rdev r) (i_mode r) (i_size r) (i_flags r) v (i_hlinks r) (i_sb r) (i_ops r) (i_priv r) (i_alias r) (i_cache r) (i_writers r) (i_readers r) (i_lock r).
Definition i_set_hlinks v r := Inode (i_ino r) (i_uid r) (i_gid r) (i_type r) (i_rdev r) (i_mode r) (i_size r) (i_flags r) (i_refcnt r) v (i_sb r) (i_ops r) (i_priv r) (i_alias r) (i_cache r) (i_writers r) (i_readers r) (i_lock r).
Definition i_set_alias v r := Inode (i_ino r) (i_uid r) (i_gid r) (i_type r) (i_rdev r) (i_mode r) (i_size r) (i_flags r) (i_refcnt r) (i_hlinks r) (i_sb r) (i_ops r) (i_priv r) v (i_cache r) (i_writers r) (i_readers r) (i_lock r).
Definition i_set_cache v r := Inode (i_ino r) (i_uid r) (i_gid r) (i_type r) (i_rdev r) (i_mode r) (i_size r) (i_flags r) (i_refcnt r) (i_hlinks r) (i_sb r) (i_ops r) (i_priv r) (i_alias r) v (i_writers r) (i_readers r) (i_lock r).
Definition i_set_writers v r := Inode (i_ino r) (i_uid r) (i_gid r) (i_type r) (i_rdev r) (i_mode r) (i_size r) (i_flags r) (i_refcnt r) (i_hlinks r) (i_sb r) (i_ops r) (i_priv r) (i_alias r) (i_cache r) v (i_readers r) (i_lock r).
Definition i_set_readers v r := Inode (i_ino r) (i_uid r) (i_gid r) (i_type r) (i_rdev r) (i_mode r) (i_size r) (i_flags r) (i_refcnt r) (i_hlinks r) (i_sb r) (i_ops r) (i_priv r) (i_alias r) (i_cache r) (i_writers r) v (i_lock r).
Definition i_set_lock v r := Inode (i_ino r) (i_uid r) (i_gid r) (i_type r) (i_rdev r) (i_mode r) (i_size r) (i_flags r) (i_refcnt r) (i_hlinks r) (i_sb r) (i_ops r) (i_priv r) (i_alias r) (i_cache r) (i_writers r) (i_readers r) v.
#[export] Instance lockable_inode_t : Lockable inode_t := {| lk_held := i_lock; lk_put := i_set_lock |}.

(** struct dentry (include/fs/dentry.h); [d_ops] always holds the four
    functions of dentry.c. *)
Record dentry_t := Dentry {
  d_name : ptr;
  d_flags : Z;
  d_inode : ptr;
  d_count : Z;
  d_mnt_stack : ptr;
  d_alias_prev : ptr;
  d_alias_next : ptr;
  d_next : ptr;
  d_prev : ptr;
  d_parent : ptr;
  d_child : ptr;
  d_lock : bool;
}.
Definition d_set_inode v r := Dentry (d_name r) (d_flags r) v (d_count r) (d_mnt_stack r) (d_alias_prev r) (d_alias_next r) (d_next r) (d_prev r) (d_parent r) (d_child r) (d_lock r).
Definition d_set_count v r := Dentry (d_name r) (d_flags r) (d_inode r) v (d_mnt_stack r) (d_alias_prev r) (d_alias_next r) (d_next r) (d_prev r) (d_parent r) (d_child r) (d_lock r).
Definition d_set_alias_prev v r := Dentry (d_name r) (d_flags r) (d_inode r) (d_count r) (d_mnt_stack r) v (d_alias_next r) (d_next r) (d_prev r) (d_parent r) (d_child r) (d_lock r).
Definition d_set_alias_next v r := Dentry (d_name r) (d_flags r) (d_inode r) (d_count r) (d_mnt_stack r) (d_alias_prev r) v (d_next r) (d_prev r) (d_parent r) (d_child r) (d_lock r).
Definition d_set_next v r := Dentry (d_name r) (d_flags r) (d_inode r) (d_count r) (d_mnt_stack r) (d_alias_prev r) (d_alias_next r) v (d_prev r) (d_parent r) (d_child r) (d_lock r).
Definition d_set_prev v r := Dentry (d_name r) (d_flags r) (d_inode r) (d_count r) (d_mnt_stack r) (d_alias_prev r) (d_alias_next r) (d_next r) v (d_parent r) (d_child r) (d_lock r).
Definition d_set_parent v r := Dentry (d_name r) (d_flags r) (d_inode r) (d_count r) (d_mnt_stack r) (d_alias_prev r) (d_alias_next r) (d_next r) (d_prev r) v (d_child r) (d_lock r).
Definition d_set_child v r := Dentry (d_name r) (d_flags r) (d_inode r) (d_count r) (d_mnt_stack r) (d_alias_prev r) (d_alias_next r) (d_next r) (d_prev r) (d_parent r) v (d_lock r).
Definition d_set_lock v r := Dentry (d_name r) (d_flags r) (d_inode r) (d_count r) (d_mnt_stack r) (d_alias_prev r) (d_alias_next r) (d_next r) (d_prev r) (d_parent r) (d_child r) v.
#[export] Instance lockable_dentry_t : Lockable dentry_t := {| lk_held := d_lock; lk_put := d_set_lock |}.

(** struct file_t (include/fs/file.h) *)
Record file_t := File {
  f_off : Z;
  f_oflags : Z;
  f_refcnt : Z;
  f_dentry : ptr;
  f_fops : ptr;
  f_lock : bool;
}.
Definition f_set_off v r := File v (f_oflags r) (f_refcnt r) (f_dentry r) (f_fops r) (f_lock r).
Definition f_set_oflags v r := File (f_off r) v (f_refcnt r) (f_dentry r) (f_fops r) (f_lock r).
Definition f_set_refcnt v r := File (f_off r) (f_oflags r) v (f_dentry r) (f_fops r) (f_lock r).
Definition f_set_dentry v r := File (f_off r) (f_oflags r) (f_refcnt r) v (f_fops r) (f_lock r).
Definition f_set_fops v r := File (f_off r) (f_oflags r) (f_refcnt r) (f_dentry r) v (f_lock r).
Definition f_set_lock v r := File (f_off r) (f_oflags r) (f_refcnt r) (f_dentry r) (f_fops r) v.
#[export] Instance lockable_file_t : Lockable file_t := {| lk_held := f_lock; lk_put := f_set_lock |}.

(** struct file_ctx_t (include/fs/file.h): [fc_files] is an array of
    [fc_nfile] pointers. *)
Record file_ctx_t := Fctx {
  fc_cwd : ptr;
  fc_fmax : Z;
  fc_root : ptr;
  fc_nfile : Z;
  fc_files : ptr;
  fc_lock : bool;
}.
Definition fc_set_cwd v r := Fctx v (fc_fmax r) (fc_root r) (fc_nfile r) (fc_files r) (fc_lock r).
Definition fc_set_root v r := Fctx (fc_cwd r) (fc_fmax r) v (fc_nfile r) (fc_files r) (fc_lock r).
Definition fc_set_nfile v r := Fctx (fc_cwd r) (fc_fmax r) (fc_root r) v (fc_files r) (fc_lock r).
Definition fc_set_files v r := Fctx (fc_cwd r) (fc_fmax r) (fc_root r) (fc_nfile r) v (fc_lock r).
Definition fc_set_lock v r := Fctx (fc_cwd r) (fc_fmax r) (fc_root r) (fc_nfile r) (fc_files r) v.
#[export] Instance lockable_file_ctx_t : Lockable file_ctx_t := {| lk_held := fc_lock; lk_put := fc_set_lock |}.

#[export] Instance lock_laws_cred : LockLaws cred_t.
Proof. split; by intros; destruct v. Qed.
#[export] Instance lock_laws_inode : LockLaws inode_t.
Proof. split; by intros; destruct v. Qed.
#[export] Instance lock_laws_dentry : LockLaws dentry_t.
Proof. split; by intros; destruct v. Qed.
#[export] Instance lock_laws_file : LockLaws file_t.
Proof. split; by intros; destruct v. Qed.
#[export] Instance lock_laws_fctx : LockLaws file_ctx_t.
Proof. split; by intros; destruct v. Qed.

(** The parts of the running thread used here: its descriptor table, its
    credentials and its lock. *)
Record thread := Thread { t_fctx : ptr; t_cred : ptr; t_lock : bool }.

(** ** The heap

    [v_names] are the strings dentries own; [v_tables] the arrays of
    descriptors, whose entries are pointers or, after [kmalloc], nothing yet. *)
Record vfs (D : Type) := Vfs {
  v_names : gmap ptr (list Z);
  v_dentries : gmap ptr dentry_t;
  v_inodes : gmap ptr inode_t;
  v_files : gmap ptr file_t;
  v_tables : gmap ptr (list (option ptr));
  v_fctxs : gmap ptr file_ctx_t;
  v_creds : gmap ptr cred_t;
  v_conds : gmap ptr cond_t;
  v_cur : thread;
  v_drv : D;
  v_ticks : nat;
}.
Arguments Vfs {D}.
Arguments v_names {D}.
Arguments v_dentries {D}.
Arguments v_inodes {D}.
Arguments v_files {D}.
Arguments v_tables {D}.
Arguments v_fctxs {D}.
Arguments v_creds {D}.
Arguments v_conds {D}.
Arguments v_cur {D}.
Arguments v_drv {D}.
Arguments v_ticks {D}.
Definition set_names {D} v (s : vfs D) : vfs D := Vfs v (v_dentries s) (v_inodes s) (v_files s) (v_tables s) (v_fctxs s) (v_creds s) (v_conds s) (v_cur s) (v_drv s) (v_ticks s).
Definition set_dentries {D} v (s : vfs D) : vfs D := Vfs (v_names s) v (v_inodes s) (v_files s) (v_tables s) (v_fctxs s) (v_creds s) (v_conds s) (v_cur s) (v_drv s) (v_ticks s).
Definition set_inodes {D} v (s : vfs D) : vfs D := Vfs (v_names s) (v_dentries s) v (v_files s) (v_tables s) (v_fctxs s) (v_creds s) (v_conds s) (v_cur s) (v_drv s) (v_ticks s).
Definition set_files {D} v (s : vfs D) : vfs D := Vfs (v_names s) (v_dentries s) (v_inodes s) v (v_tables s) (v_fctxs s) (v_creds s) (v_conds s) (v_cur s) (v_drv s) (v_ticks s).
Definition set_tables {D} v (s : vfs D) : vfs D := Vfs (v_names s) (v_dentries s) (v_inodes s) (v_files s) v (v_fctxs s) (v_creds s) (v_conds s) (v_cur s) (v_drv s) (v_ticks s).
Definition set_fctxs {D} v (s : vfs D) : vfs D := Vfs (v_names s) (v_dentries s) (v_inodes s) (v_files s) (v_tables s) v (v_creds s) (v_conds s) (v_cur s) (v_drv s) (v_ticks s).
Definition set_creds {D} v (s : vfs D) : vfs D := Vfs (v_names s) (v_dentries s) (v_inodes s) (v_files s) (v_tables s) (v_fctxs s) v (v_conds s) (v_cur s) (v_drv s) (v_ticks s).
Definition set_conds {D} v (s : vfs D) : vfs D := Vfs (v_names s) (v_dentries s) (v_inodes s) (v_files s) (v_tables s) (v_fctxs s) (v_creds s) v (v_cur s) (v_drv s) (v_ticks s).
Definition set_cur {D} v (s : vfs D) : vfs D := Vfs (v_names s) (v_dentries s) (v_inodes s) (v_files s) (v_tables s) (v_fctxs s) (v_creds s) (v_conds s) v (v_drv s) (v_ticks s).
Definition set_drv {D} v (s : vfs D) : vfs D := Vfs (v_names s) (v_dentries s) (v_inodes s) (v_files s) (v_tables s) (v_fctxs s) (v_creds s) (v_conds s) (v_cur s) v (v_ticks s).
Definition set_ticks {D} v (s : vfs D) : vfs D := Vfs (v_names s) (v_dentries s) (v_inodes s) (v_files s) (v_tables s) (v_fctxs s) (v_creds s) (v_conds s) (v_cur s) (v_drv s) v.
#[export] Instance hl_names D : Heaplet (vfs D) (list Z) := {| hl_get := v_names; hl_put := set_names |}.
#[export] Instance hl_dentries D : Heaplet (vfs D) dentry_t := {| hl_get := v_dentries; hl_put := set_dentries |}.
#[export] Instance hl_inodes D : Heaplet (vfs D) inode_t := {| hl_get := v_inodes; hl_put := set_inodes |}.
#[export] Instance hl_files D : Heaplet (vfs D) file_t := {| hl_get := v_files; hl_put := set_files |}.
#[export] Instance hl_tables D : Heaplet (vfs D) (list (option ptr)) := {| hl_get := v_tables; hl_put := set_tables |}.
#[export] Instance hl_fctxs D : Heaplet (vfs D) file_ctx_t := {| hl_get := v_fctxs; hl_put := set_fctxs |}.
#[export] Instance hl_creds D : Heaplet (vfs D) cred_t := {| hl_get := v_creds; hl_put := set_creds |}.
#[export] Instance hl_conds D : Heaplet (vfs D) cond_t := {| hl_get := v_conds; hl_put := set_conds |}.

Definition vfs_tick {D} (s : vfs D) : vfs D := set_ticks (S (v_ticks s)) s.

#[export] Instance kheap_vfs D : Kheap (vfs D) := {|
  kh_live s := dom (v_names s) ∪ dom (v_dentries s) ∪ dom (v_inodes s) ∪ dom (v_files s) ∪
    dom (v_tables s) ∪ dom (v_fctxs s) ∪ dom (v_creds s) ∪ dom (v_conds s);
  kh_ticks := v_ticks;
  kh_tick := vfs_tick;
|}.

(** *** The running thread *)

Definition current_lock {D} : M (vfs D) unit :=
  t ← gets v_cur; assert_ (negb (t_lock t));; modify (λ s, set_cur (Thread (t_fctx t) (t_cred t) true) s).
Definition current_unlock {D} : M (vfs D) unit :=
  t ← gets v_cur; assert_ (t_lock t);; modify (λ s, set_cur (Thread (t_fctx t) (t_cred t) false) s).
