(* ===== verification/Cred.v ===== *)
(** * kernel/sys/syscall/cred.c: credentials

    Allocation and copying of credentials and the calls by which a thread reads
    and changes its identity.  The theorem of this file is that every sequence
    of these calls acts as the pure function [cred_spec] on the credentials of
    the caller; what it says about privileges is drawn in [Inode], together
    with the permission check that uses them. *)

From S2P Require Import Prelude Lock Vfs.

Section cred.
Context {D : Type} {KM : Kmalloc}.
Abbreviation MV := (M (vfs D)).

Definition cred_islocked (p : ptr) : MV bool := obj_islocked cred_t p.
Definition cred_assert_locked (p : ptr) : MV unit := obj_assert_locked cred_t p.
Definition cred_lock (p : ptr) : MV unit := obj_lock cred_t p.
Definition cred_unlock (p : ptr) : MV unit := obj_unlock cred_t p.

Definition CRED_DEFAULT : cred_t := Cred 0 0 0 0 0 0 0 false.

(** [ret] tells whether the caller gave a place for the result. *)
Definition cred_alloc (ret : bool) : MV (Z * ptr) :=
  if negb ret then mret (- EINVAL, NULL) else
  cred ← kmalloc CRED_DEFAULT;
  if decide (cred = NULL) then mret (- ENOMEM, NULL) else mret (0, cred).

Definition cred_free (cred : ptr) : MV unit :=
  obj_assert cred;;
  l ← cred_islocked cred;
  when (negb l) (cred_lock cred);;
  cred_unlock cred;;
  kfree cred_t cred.

Definition cred_copy (dst src : ptr) : MV Z :=
  if decide (dst = NULL ∨ src = NULL) then mret (- EINVAL) else
  cred_assert_locked dst;;
  cred_assert_locked src;;
  v ← load src; update dst (c_set_uid (c_uid v));;
  v ← load src; update dst (c_set_gid (c_gid v));;
  v ← load src; update dst (c_set_euid (c_euid v));;
  v ← load src; update dst (c_set_egid (c_egid v));;
  v ← load src; update dst (c_set_suid (c_suid v));;
  v ← load src; update dst (c_set_sgid (c_sgid v));;
  v ← load src; update dst (c_set_umask (c_umask v));;
  mret 0.

(** The frame all of the calls below share: the thread and its credentials are
    locked around [body]. *)
Definition with_cred {A} (body : ptr -> MV A) : MV A :=
  current_lock;;
  t ← gets v_cur;
  let cred := t_cred t in
  cred_lock cred;;
  r ← body cred;
  cred_unlock cred;;
  current_unlock;;
  mret r.

Definition getuid : MV Z := with_cred (λ cred, v ← load cred; mret (c_uid v)).
Definition getgid : MV Z := with_cred (λ cred, v ← load cred; mret (c_gid v)).
Definition geteuid : MV Z := with_cred (λ cred, v ← load cred; mret (c_euid v)).
Definition getegid : MV Z := with_cred (λ cred, v ← load cred; mret (c_egid v)).

Definition setuid (uid : Z) : MV Z := with_cred (λ cred,
  v ← load cred;
  if decide (uid ≠ c_uid v ∧ c_uid v ≠ 0) then mret (- EPERM) else update cred (c_set_uid uid);; mret 0).
Definition setgid (gid : Z) : MV Z := with_cred (λ cred,
  v ← load cred;
  if decide (gid ≠ c_gid v ∧ c_gid v ≠ 0) then mret (- EPERM) else update cred (c_set_gid gid);; mret 0).
Definition seteuid (euid : Z) : MV Z := with_cred (λ cred,
  v ← load cred;
  if decide (euid ≠ c_euid v ∧ c_euid v ≠ 0) then mret (- EPERM) else update cred (c_set_euid euid);; mret 0).
Definition setegid (egid : Z) : MV Z := with_cred (λ cred,
  v ← load cred;
  if decide (egid ≠ c_egid v ∧ c_egid v ≠ 0) then mret (- EPERM) else update cred (c_set_egid egid);; mret 0).

Definition umask (cmask : Z) : MV Z := with_cred (λ cred,
  v ← load cred;
  update cred (c_set_umask (Z.land cmask 511));;
  mret (c_umask v)).

(** ** Sequences of calls *)

Variant cred_call :=
  | Getuid | Getgid | Geteuid | Getegid
  | Setuid (u : Z) | Setgid (g : Z) | Seteuid (u : Z) | Setegid (g : Z)
  | Umask (m : Z).

Definition cred_run (c : cred_call) : MV Z :=
  match c with
  | Getuid => getuid | Getgid => getgid | Geteuid => geteuid | Getegid => getegid
  | Setuid u => setuid u | Setgid g => setgid g | Seteuid u => seteuid u | Setegid g => setegid g
  | Umask m => umask m
  end.

Fixpoint cred_runs (cs : list cred_call) : MV (list Z) :=
  match cs with
  | [] => mret []
  | c :: cs => r ← cred_run c; rs ← cred_runs cs; mret (r :: rs)
  end.
End cred.

(** The specification: an identity that is not 0 (root) is fixed. *)
Definition change (new old : Z) : option Z := if decide (old = 0 ∨ new = old) then Some new else None.

Definition cred_spec (c : cred_call) (v : cred_t) : Z * cred_t :=
  let set r f := match r with Some n => (0, f n v) | None => (- EPERM, v) end in
  match c with
  | Getuid => (c_uid v, v) | Getgid => (c_gid v, v) | Geteuid => (c_euid v, v) | Getegid => (c_egid v, v)
  | Setuid u => set (change u (c_uid v)) c_set_uid
  | Setgid g => set (change g (c_gid v)) c_set_gid
  | Seteuid u => set (change u (c_euid v)) c_set_euid
  | Setegid g => set (change g (c_egid v)) c_set_egid
  | Umask m => (c_umask v, c_set_umask (Z.land m 511) v)
  end.

Fixpoint cred_specs (cs : list cred_call) (v : cred_t) : list Z * cred_t :=
  match cs with
  | [] => ([], v)
  | c :: cs => let '(r, v) := cred_spec c v in let '(rs, v) := cred_specs cs v in (r :: rs, v)
  end.

(** ** Refinement *)

Section refine.
Context {D : Type}.
Implicit Types (s : vfs D).

(** The thread can make the calls: nothing is locked and its credentials are [v]. *)
Record cred_ready s (p : ptr) (v : cred_t) : Prop := {
  cr_null : p ≠ NULL;
  cr_cur : t_cred (v_cur s) = p;
  cr_tlock : t_lock (v_cur s) = false;
  cr_at : v_creds s !! p = Some v;
  cr_lock : c_lock v = false;
}.

Definition cred_to s p v : vfs D := set_creds (<[p := v]> (v_creds s)) s.

Lemma cred_to_to s p v v' : cred_to (cred_to s p v) p v' = cred_to s p v'.
Proof. unfold cred_to, set_creds. simpl. by rewrite insert_insert_eq. Qed.
Lemma cred_to_id s p v : v_creds s !! p = Some v -> cred_to s p v = s.
Proof. intros H. unfold cred_to. rewrite insert_id by done. by destruct s. Qed.

Lemma cred_ready_to s p v v' : cred_ready s p v -> c_lock v' = false -> cred_ready (cred_to s p v') p v'.
Proof. intros [] Hl. split; [done..| |done]. simpl. by rewrite lookup_insert_eq. Qed.

(** What the frame does: [body] runs on the locked credentials. *)
Lemma wp_with_cred {A} (body : ptr -> M (vfs D) A) s p v (f : cred_t -> A * cred_t) (Q : A -> vfs D -> Prop) :
  cred_ready s p v ->
  (∀ s0, v_creds s0 !! p = Some (c_set_lock true v) ->
     wp (body p) s0 (λ r s1, r = (f v).1 ∧ s1 = cred_to s0 p (c_set_lock true (f v).2))) ->
  c_lock (f v).2 = false -> Q (f v).1 (cred_to s p (f v).2) -> wp (with_cred body) s Q.
Proof.
  intros [Hp Hc Ht Hv Hl] Hb Hf HQ. unfold with_cred, current_lock, current_unlock. repeat wp_step.
  { by rewrite Ht. } rewrite Hc. simpl.
  apply (wp_obj_lock _ _ v); [done..|]. repeat wp_step.
  eapply wp_mono; [apply Hb; simpl; by rewrite lookup_insert_eq|]. intros r s1 [-> ->]. cbn beta.
  wp_step. eapply (wp_obj_unlock _ _ (c_set_lock true (f v).2)); [done|simpl; by rewrite lookup_insert_eq|done|].
  repeat wp_step. unfold cred_to, set_creds, set_cur in *. simpl in *.
  rewrite !insert_insert_eq. destruct s as [? ? ? ? ? ? ? ? [tf tc tl] ? ?]; simpl in *. subst tl.
  destruct ((f v).2); simpl in *; by subst.
Qed.

Lemma cred_spec_lock c v : c_lock (cred_spec c v).2 = c_lock v.
Proof. destruct c; simpl; unfold change; try case_decide; done. Qed.

Lemma wp_cred_run c s p v (Q : Z -> vfs D -> Prop) :
  cred_ready s p v -> Q (cred_spec c v).1 (cred_to s p (cred_spec c v).2) -> wp (cred_run c) s Q.
Proof.
  intros Hr HQ. assert (Hp := cr_null _ _ _ Hr). assert (Hl := cr_lock _ _ _ Hr).
  destruct c; simpl; eapply (wp_with_cred _ s p v (cred_spec _)); try done;
    try (intros s0 Hs0; wp_step; eapply wp_load; [done..|]; simpl in *).
  all: try by (repeat wp_step; split; [done|]; by rewrite cred_to_id by (by destruct v)).
  all: try by (unfold change; repeat case_decide; try tauto; simpl;
    repeat wp_step; [..|eapply wp_update; [done..|]; repeat wp_step]; repeat (split; [done|]);
    by rewrite ?cred_to_id by (by destruct v)).
  all: by rewrite cred_spec_lock.
Qed.

Lemma wp_cred_runs cs s p v (Q : list Z -> vfs D -> Prop) :
  cred_ready s p v -> Q (cred_specs cs v).1 (cred_to s p (cred_specs cs v).2) -> wp (cred_runs cs) s Q.
Proof.
  revert s v Q. induction cs as [|c cs IH]; intros s v Q Hr HQ; simpl in *.
  { wp_step. by rewrite cred_to_id in HQ by apply Hr. }
  destruct (cred_spec c v) as [r v1] eqn:E. destruct (cred_specs cs v1) as [rs v2] eqn:E2. simpl in *.
  wp_step. apply (wp_cred_run c s p v); [done|]. rewrite E. simpl.
  assert (c_lock v1 = false) as Hl by (rewrite <- (cr_lock _ _ _ Hr), <- (cred_spec_lock c v); by rewrite E).
  wp_step. apply (IH _ v1); [by eapply cred_ready_to|]. rewrite E2, cred_to_to. by wp_step.
Qed.
End refine.
