(* ===== verification/Inode.v ===== *)
(** * kernel/fs/inode.c: inodes

    Allocation, reference counts, the list of the dentries that name an inode,
    the operations that go to the file system driver, the permission check and
    [istat].  A driver's table of operations ([iops]) is static data at an
    address; what the functions in it do is up to the driver.  The page cache
    is used through the interface [Icache]. *)

From S2P Require Import Prelude Cond Lock Vfs Cred.

(** ** Constants *)

(** include/fs/fcntl.h *)
Definition O_RDONLY : Z := 0.
Definition O_WRONLY : Z := 1.
Definition O_RDWR : Z := 2.
Definition O_ACCMODE : Z := Z.lor O_RDONLY (Z.lor O_WRONLY O_RDWR).
Definition O_EXCL : Z := 2048.
Definition O_NONBLOCK : Z := 16384.

(** include/fs/stat.h *)
Definition S_IFMT : Z := 61440.
Definition S_IFIFO : Z := 4096.
Definition S_IFCHR : Z := 8192.
Definition S_IFDIR : Z := 16384.
Definition S_IFBLK : Z := 24576.
Definition S_IFREG : Z := 32768.
Definition S_IFLNK : Z := 40960.
Definition S_IFSOCK : Z := 49152.
Definition S_IRUSR : Z := 256.
Definition S_IWUSR : Z := 128.
Definition S_IXUSR : Z := 64.
Definition S_IRGRP : Z := 32.
Definition S_IWGRP : Z := 16.
Definition S_IXGRP : Z := 8.
Definition S_IROTH : Z := 4.
Definition S_IWOTH : Z := 2.
Definition S_IXOTH : Z := 1.

(** include/fs/inode.h *)
Definition I_NOCACHE : Z := 1.
Definition I_NORQUEUE : Z := 2.
Definition I_NOWQUEUE : Z := 4.
Definition I_NORWQUEUES : Z := Z.lor I_NORQUEUE I_NOWQUEUE.

(** [iextract_type(mode)] *)
Definition iextract_type (mode : Z) : itype_t :=
  let fmt := Z.land mode S_IFMT in
  if decide (fmt = S_IFDIR) then FS_DIR else if decide (fmt = S_IFCHR) then FS_CHR else
  if decide (fmt = S_IFBLK) then FS_BLK else if decide (fmt = S_IFREG) then FS_RGL else
  if decide (fmt = S_IFIFO) then FS_FIFO else if decide (fmt = S_IFLNK) then FS_LNK else
  if decide (fmt = S_IFSOCK) then FS_SOCK else FS_INV.

(** struct stat, as far as [istat] fills it in. *)
Record stat := Stat {
  st_dev : Z;
  st_ino : Z;
  st_mode : Z;
  st_nlink : Z;
  st_uid : Z;
  st_gid : Z;
  st_rdev : Z;
  st_size : Z;
}.

(** ** The interfaces to the drivers and to the page cache *)

(** struct iops: names and attributes are given by the caller's strings and
    pointers, data are lists of bytes. *)
Record iops (D : Type) := IOps {
  op_isync : option (ptr -> M (vfs D) Z);
  op_iclose : option (ptr -> M (vfs D) Z);
  op_iunlink : option (ptr -> M (vfs D) Z);
  op_itruncate : option (ptr -> M (vfs D) Z);
  op_igetattr : option (ptr -> ptr -> M (vfs D) Z);
  op_isetattr : option (ptr -> ptr -> M (vfs D) Z);
  op_ifcntl : option (ptr -> Z -> ptr -> M (vfs D) Z);
  op_iioctl : option (ptr -> Z -> ptr -> M (vfs D) Z);
  op_iread : option (ptr -> Z -> Z -> M (vfs D) (Z * list Z));
  op_iwrite : option (ptr -> Z -> list Z -> M (vfs D) Z);
  op_imkdir : option (ptr -> list Z -> Z -> M (vfs D) Z);
  op_icreate : option (ptr -> list Z -> Z -> M (vfs D) Z);
  op_ibind : option (ptr -> ptr -> ptr -> M (vfs D) Z);
  op_ilookup : option (ptr -> list Z -> M (vfs D) (Z * ptr));
  op_isymlink : option (ptr -> ptr -> list Z -> M (vfs D) Z);
  op_ilink : option (list Z -> ptr -> list Z -> M (vfs D) Z);
  op_imknod : option (ptr -> list Z -> Z -> Z -> M (vfs D) Z);
  op_ireaddir : option (ptr -> Z -> ptr -> Z -> M (vfs D) Z);
  op_irename : option (ptr -> list Z -> ptr -> list Z -> M (vfs D) Z);
  op_ichown : option (ptr -> Z -> Z -> M (vfs D) Z);
}.
Arguments op_isync {D}. Arguments op_iclose {D}. Arguments op_iunlink {D}. Arguments op_itruncate {D}.
Arguments op_igetattr {D}. Arguments op_isetattr {D}. Arguments op_ifcntl {D}. Arguments op_iioctl {D}.
Arguments op_iread {D}. Arguments op_iwrite {D}. Arguments op_imkdir {D}. Arguments op_icreate {D}.
Arguments op_ibind {D}. Arguments op_ilookup {D}. Arguments op_isymlink {D}. Arguments op_ilink {D}.
Arguments op_imknod {D}. Arguments op_ireaddir {D}. Arguments op_irename {D}. Arguments op_ichown {D}.

(** The table at an address, if there is one. *)
Class Drivers (D : Type) := { iops_at : ptr -> option (iops D) }.

Class Icache (D : Type) := {
  icache_alloc : M (vfs D) (Z * ptr);
  icache_free : ptr -> M (vfs D) unit;
  icache_set_inode : ptr -> ptr -> M (vfs D) unit;
  icache_lock : ptr -> M (vfs D) unit;
  icache_unlock : ptr -> M (vfs D) unit;
  icache_read : ptr -> Z -> Z -> M (vfs D) (Z * list Z);
  icache_write : ptr -> Z -> list Z -> M (vfs D) Z;
}.

Section inode.
Context {D : Type} {KM : Kmalloc} {DR : Drivers D} {IC : Icache D}.
Abbreviation MV := (M (vfs D)).

Definition ilock (ip : ptr) : MV unit := obj_lock inode_t ip.
Definition iunlock (ip : ptr) : MV unit := obj_unlock inode_t ip.
Definition iislocked (ip : ptr) : MV bool := obj_islocked inode_t ip.
Definition iassert_locked (ip : ptr) : MV unit := obj_assert_locked inode_t ip.

(** include/fs/dentry.h: [dislocked] has no assertion of its own. *)
Definition dlock (dp : ptr) : MV unit := obj_lock dentry_t dp.
Definition dunlock (dp : ptr) : MV unit := obj_unlock dentry_t dp.
Definition dassert_locked (dp : ptr) : MV unit := obj_assert_locked dentry_t dp.
Definition dislocked (dp : ptr) : MV bool := v ← load (V := dentry_t) dp; mret (d_lock v).
Definition ddup (dp : ptr) : MV ptr :=
  dassert_locked dp;; update dp (λ v, d_set_count (d_count v + 1) v);; mret dp.
Definition dput (dp : ptr) : MV unit := dassert_locked dp;; update dp (λ v, d_set_count (d_count v - 1) v).
Definition dget_count (dp : ptr) : MV Z := dassert_locked dp;; v ← load dp; mret (d_count v).

Definition IISTYPE (ip : ptr) (ty : itype_t) : MV bool :=
  iassert_locked ip;; v ← load ip; mret (bool_decide (i_type v = ty)).
Definition IISDIR (ip : ptr) : MV bool := IISTYPE ip FS_DIR.
Definition IISREG (ip : ptr) : MV bool := IISTYPE ip FS_RGL.
Definition IISDEV (ip : ptr) : MV bool :=
  b ← IISTYPE ip FS_CHR; if b : bool then mret true else IISTYPE ip FS_BLK.
Definition igetsize (ip : ptr) : MV Z := iassert_locked ip;; v ← load ip; mret (i_size v).

(** *** Operations of the driver *)

(** [icheck_op(ip, func)]: the function, or the error. *)
Definition icheck_op {F} (ip : ptr) (func : iops D -> option F) : MV (Z + F) :=
  iassert_locked ip;;
  v ← load ip;
  if decide (i_ops v = NULL) then mret (inl (- ENOSYS)) else
  match iops_at (i_ops v) with
  | None => halt BadAccess
  | Some t => mret (match func t with Some f => inr f | None => inl (- ENOSYS) end)
  end.

(** [if ((err = icheck_op(ip, func))) return err; return ip->i_ops->func(...);] *)
Definition call_op {F} (ip : ptr) (func : iops D -> option F) (k : F -> MV Z) : MV Z :=
  r ← icheck_op ip func; match r with inl err => mret err | inr f => k f end.

(** [if (IISDIR(dir) == 0) return -ENOTDIR;] before the above *)
Definition call_dir {F} (dir : ptr) (func : iops D -> option F) (k : F -> MV Z) : MV Z :=
  b ← IISDIR dir; if negb b then mret (- ENOTDIR) else call_op dir func k.
(** [if (IISDIR(ip)) return -EISDIR;] before the above *)
Definition call_nondir {F} (ip : ptr) (func : iops D -> option F) (k : F -> MV Z) : MV Z :=
  b ← IISDIR ip; if b : bool then mret (- EISDIR) else call_op ip func k.

Definition ibind (dir dentry ip : ptr) : MV Z :=
  iassert_locked dir;; iassert_locked ip;; dassert_locked dentry;;
  call_dir dir op_ibind (λ f, f dir dentry ip).
Definition isync (ip : ptr) : MV Z := iassert_locked ip;; call_op ip op_isync (λ f, f ip).
Definition ilink (oldname : list Z) (dir : ptr) (newname : list Z) : MV Z :=
  iassert_locked dir;; call_dir dir op_ilink (λ f, f oldname dir newname).
Definition iclose (ip : ptr) : MV Z := iassert_locked ip;; call_op ip op_iclose (λ f, f ip).

(** The bytes read come with the count. *)
Definition iread_data (ip : ptr) (off nb : Z) : MV (Z * list Z) :=
  iassert_locked ip;;
  b ← IISDIR ip; if b : bool then mret (- EISDIR, []) else
  r ← icheck_op ip op_iread; match r with inl err => mret (err, []) | inr f => f ip off nb end.
Definition iwrite_data (ip : ptr) (off : Z) (buf : list Z) : MV Z :=
  iassert_locked ip;; call_nondir ip op_iwrite (λ f, f ip off buf).

Definition imknod (dir : ptr) (name : list Z) (mode devid : Z) : MV Z :=
  iassert_locked dir;; call_dir dir op_imknod (λ f, f dir name mode devid).
Definition ifcntl (ip : ptr) (cmd : Z) (argp : ptr) : MV Z :=
  iassert_locked ip;;
  if decide (argp = NULL) then mret (- EINVAL) else call_op ip op_ifcntl (λ f, f ip cmd argp).
Definition iioctl (ip : ptr) (req : Z) (argp : ptr) : MV Z :=
  iassert_locked ip;;
  if decide (argp = NULL) then mret (- EINVAL) else call_nondir ip op_iioctl (λ f, f ip req argp).
Definition imkdir (dir : ptr) (fname : list Z) (mode : Z) : MV Z :=
  iassert_locked dir;; call_dir dir op_imkdir (λ f, f dir fname mode).
Definition iunlink (ip : ptr) : MV Z := iassert_locked ip;; call_op ip op_iunlink (λ f, f ip).
Definition ilookup (dir : ptr) (fname : list Z) : MV (Z * ptr) :=
  iassert_locked dir;;
  b ← IISDIR dir; if negb b then mret (- ENOTDIR, NULL) else
  r ← icheck_op dir op_ilookup; match r with inl err => mret (err, NULL) | inr f => f dir fname end.
Definition icreate (dir : ptr) (fname : list Z) (mode : Z) : MV Z :=
  iassert_locked dir;; call_dir dir op_icreate (λ f, f dir fname mode).
Definition irename (dir : ptr) (old : list Z) (newdir : ptr) (new : list Z) : MV Z :=
  iassert_locked dir;; iassert_locked newdir;; call_op dir op_irename (λ f, f dir old newdir new).
Definition ireaddir (dir : ptr) (off : Z) (buf : ptr) (count : Z) : MV Z :=
  iassert_locked dir;;
  b ← IISDIR dir; if negb b then mret (- ENOTDIR) else
  if decide (buf = NULL) then mret (- EINVAL) else call_op dir op_ireaddir (λ f, f dir off buf count).
Definition isymlink (ip atdir : ptr) (symname : list Z) : MV Z :=
  iassert_locked ip;; call_op ip op_isymlink (λ f, f ip atdir symname).
Definition igetattr (ip attr : ptr) : MV Z := iassert_locked ip;; call_op ip op_igetattr (λ f, f ip attr).
Definition isetattr (ip attr : ptr) : MV Z := iassert_locked ip;; call_op ip op_isetattr (λ f, f ip attr).
Definition itruncate (ip : ptr) : MV Z := iassert_locked ip;; call_nondir ip op_itruncate (λ f, f ip).
Definition ichown (ip : ptr) (owner group : Z) : MV Z :=
  iassert_locked ip;; call_op ip op_ichown (λ f, f ip owner group).

(** *** Data *)

Definition iread (ip : ptr) (off sz : Z) : MV (Z * list Z) :=
  iassert_locked ip;;
  v ← load ip;
  if decide (i_cache v = NULL) then iread_data ip off sz else
  icache_lock (i_cache v);;
  r ← icache_read (i_cache v) off sz;
  icache_unlock (i_cache v);;
  mret r.

Definition iwrite (ip : ptr) (off : Z) (buf : list Z) : MV Z :=
  iassert_locked ip;;
  v ← load ip;
  if decide (i_cache v = NULL) then iwrite_data ip off buf else
  icache_lock (i_cache v);;
  r ← icache_write (i_cache v) off buf;
  icache_unlock (i_cache v);;
  mret r.

(** *** Allocation and reference counts *)

Definition ifree (ip : ptr) : MV unit :=
  iassert_locked ip;;
  v ← load ip;
  if decide (i_refcnt v <= 0) then
    iunlink ip;;
    v ← load ip;
    icache_free (i_cache v);;
    iunlock ip;;
    kfree inode_t ip
  else iunlock ip.

(** The inode comes locked. *)
Definition inew : MV (Z * ptr) :=
  ip ← kmalloc (Inode 0 0 0 FS_INV 0 0 0 0 1 0 NULL NULL NULL NULL NULL NULL NULL false);
  if decide (ip = NULL) then mret (- ENOMEM, NULL) else ilock ip;; mret (0, ip).

Definition ialloc (type : itype_t) (flags : Z) (pip : bool) : MV (Z * ptr) :=
  if negb pip then mret (- EINVAL, NULL) else
  '(err, ip) ← inew;
  if decide (err ≠ 0) then mret (err, NULL) else
  update ip (i_set_type type);;
  d ← IISDIR ip; v ← IISDEV ip; f ← IISTYPE ip FS_FIFO; p ← IISTYPE ip FS_PIPE;
  let flags := if d || v || f || p then Z.lor flags (Z.lor I_NOCACHE I_NORWQUEUES) else flags in
  let error err icache reader writer : MV (Z * ptr) :=
    ifree ip;;
    (if decide (icache ≠ NULL) then icache_free icache else mret tt);;
    (if decide (reader ≠ NULL) then cond_free reader else mret tt);;
    (if decide (writer ≠ NULL) then cond_free writer else mret tt);;
    mret (err, NULL) in
  '(err, icache) ← (if decide (Z.land flags I_NOCACHE = 0) then icache_alloc else mret (0, NULL));
  if decide (err ≠ 0) then error err NULL NULL NULL else
  '(err, reader) ← (if decide (Z.land flags I_NORQUEUE = 0) then cond_new else mret (0, NULL));
  if decide (err ≠ 0) then error err icache NULL NULL else
  '(err, writer) ← (if decide (Z.land flags I_NOWQUEUE = 0) then cond_new else mret (0, NULL));
  if decide (err ≠ 0) then error err icache reader NULL else
  (if decide (icache ≠ NULL) then icache_set_inode icache ip else mret tt);;
  update ip (i_set_cache icache);;
  update ip (i_set_writers writer);;
  update ip (i_set_readers reader);;
  mret (0, ip).

Definition idupcnt (ip : ptr) : MV unit := iassert_locked ip;; update ip (λ v, i_set_refcnt (i_refcnt v + 1) v).
Definition iputcnt (ip : ptr) : MV unit := iassert_locked ip;; update ip (λ v, i_set_refcnt (i_refcnt v - 1) v).
Definition iputlink (ip : ptr) : MV unit := iassert_locked ip;; update ip (λ v, i_set_hlinks (i_hlinks v - 1) v).
Definition iduplink (ip : ptr) : MV unit := iassert_locked ip;; update ip (λ v, i_set_hlinks (i_hlinks v + 1) v).

Definition irelease (ip : ptr) : MV unit :=
  iassert_locked ip;;
  iputcnt ip;;
  v ← load ip;
  (if decide (i_refcnt v <= 0) then iclose ip;; mret tt else mret tt);;
  iunlock ip.

Definition iopen (ip : ptr) : MV Z :=
  if decide (ip = NULL) then mret (- EINVAL) else iassert_locked ip;; idupcnt ip;; mret 0.

(** *** The dentries that name an inode *)

Definition when_ptr (p : ptr) (c : MV unit) : MV unit := if decide (p ≠ NULL) then c else mret tt.

Definition idel_alias (inode dentry : ptr) : MV Z :=
  iassert_locked inode;;
  dassert_locked dentry;;
  d ← load dentry;
  if decide (d_inode d ≠ inode) then mret (- EINVAL) else
  i ← load inode;
  if decide (i_alias i = NULL) then mret (- ENOENT) else
  let prev := d_alias_prev d in
  let next := d_alias_next d in
  when_ptr prev (dlock prev);;
  when_ptr next (dlock next);;
  when_ptr next (update next (d_set_alias_prev prev));;
  (if decide (prev ≠ NULL) then update prev (d_set_alias_next next) else update inode (i_set_alias next));;
  when_ptr next (dunlock next);;
  when_ptr prev (dunlock prev);;
  update dentry (d_set_alias_next NULL);;
  update dentry (d_set_alias_prev NULL);;
  irelease inode;;
  mret 0.

(** [forlinked(node, list, next)] to the last node, which stays locked: the
    loop of [iadd_alias] and the second one of [dbind], with the field that
    links the nodes. *)
Fixpoint last_node (link : dentry_t -> ptr) (fuel : nat) (node last : ptr) : MV ptr :=
  if decide (node = NULL) then mret last else
  match fuel with
  | O => halt OutOfFuel
  | S n =>
      dlock node;;
      v ← load node;
      let next := link v in
      when_ptr next (dunlock node);;
      last_node link n next node
  end.

Definition iadd_alias (inode dentry : ptr) : MV Z :=
  if decide (inode = NULL ∨ dentry = NULL) then mret (- EINVAL) else
  iassert_locked inode;;
  dassert_locked dentry;;
  i ← load inode;
  n ← gets (λ s, size (v_dentries s));
  last ← last_node d_alias_next n (i_alias i) NULL;
  update dentry (d_set_alias_next NULL);;
  update dentry (d_set_alias_prev NULL);;
  (if decide (last ≠ NULL) then
     p ← ddup last; update dentry (d_set_alias_prev p);;
     p ← ddup dentry; update last (d_set_alias_next p);;
     dunlock last
   else p ← ddup dentry; update inode (i_set_alias p));;
  idupcnt inode;;
  update dentry (d_set_inode inode);;
  mret 0.

(** *** Permissions and status *)

(** [ip->i_mode & bit] *)
Definition has (m bit : Z) : bool := bool_decide (Z.land m bit ≠ 0).

Definition icheck_perm (ip cred : ptr) (oflags : Z) : MV Z :=
  if decide (ip = NULL) then mret (- EINVAL) else
  if decide (cred = NULL) then mret 0 else
  iassert_locked ip;;
  cred_lock cred;;
  i ← load ip;
  c ← load cred;
  let done := cred_unlock cred;; mret 0 in
  let deny := cred_unlock cred;; mret (- EACCES) in
  let acc := Z.land oflags O_ACCMODE in
  let exec_perms :=
    if has oflags O_EXCL then
      if decide (i_uid i = c_uid c) then if has (i_mode i) S_IXUSR then done else deny
      else if decide (i_gid i = c_gid c) then if has (i_mode i) S_IXGRP then done else deny
      else if has (i_mode i) S_IXOTH then done else deny
    else done in
  let write_perms :=
    if decide (acc = O_WRONLY ∨ acc = O_RDWR) then
      let others := if has (i_mode i) S_IWOTH then exec_perms else deny in
      if decide (i_uid i = c_uid c) then if has (i_mode i) S_IWUSR then exec_perms else others
      else if decide (i_gid i = c_gid c) then if has (i_mode i) S_IWGRP then exec_perms else others
      else others
    else exec_perms in
  if decide (c_uid c = 0) then done else
  if decide (acc = O_RDONLY ∨ acc ≠ O_WRONLY) then
    if decide (i_uid i = c_uid c) then if has (i_mode i) S_IRUSR then write_perms else deny
    else if decide (i_gid i = c_gid c) then if has (i_mode i) S_IRGRP then write_perms else deny
    else if has (i_mode i) S_IROTH then write_perms else deny
  else write_perms.

(** The table of [istat]: the entries that are not written are 0. *)
Definition type_mode (ty : itype_t) : Z :=
  match ty with
  | FS_RGL => S_IFREG | FS_DIR => S_IFDIR | FS_CHR => S_IFCHR | FS_BLK => S_IFBLK
  | FS_FIFO => S_IFIFO | FS_LNK => S_IFLNK | FS_SOCK => S_IFSOCK
  | FS_INV | FS_PIPE => 0
  end.

(** [buf] tells whether there is a place for the result. *)
Definition istat (ip : ptr) (buf : bool) : MV (Z * option stat) :=
  if decide (ip = NULL ∨ buf = false) then mret (- EINVAL, None) else
  iassert_locked ip;;
  v ← load ip;
  mret (0, Some (Stat 0 (s32 (i_ino v)) (Z.lor (type_mode (i_type v)) (i_mode v)) (u64 (i_hlinks v))
    (i_uid v) (i_gid v) (i_rdev v) (i_size v))).
End inode.

(** ** The permission check

    Who the caller is to a file, what an open asks for, and what the mode
    grants, independently of the order of the tests. *)

Variant who := Owner | Group | Other.
Variant right := R | W | X.
#[export] Instance who_eq_dec : EqDecision who.
Proof. solve_decision. Defined.
#[export] Instance right_eq_dec : EqDecision right.
Proof. solve_decision. Defined.

Definition who_is (i : inode_t) (c : cred_t) : who :=
  if decide (i_uid i = c_uid c) then Owner else if decide (i_gid i = c_gid c) then Group else Other.

(** The bit of the mode: rwx for the owner, the group, the others. *)
Definition right_bit (w : who) (x : right) : Z :=
  match w with Owner => 6 | Group => 3 | Other => 0 end + match x with R => 2 | W => 1 | X => 0 end.
Definition may (mode : Z) (w : who) (x : right) : bool := Z.testbit mode (right_bit w x).

(** Access mode 3 asks to read; [O_EXCL] stands for execution. *)
Definition asks (oflags : Z) (x : right) : bool :=
  match x with
  | R => bool_decide (Z.land oflags 3 ≠ 1)
  | W => bool_decide (Z.land oflags 3 = 1) || bool_decide (Z.land oflags 3 = 2)
  | X => Z.testbit oflags 11
  end.

(** What the code grants: a right of the caller's class, and writing also when
    the others may write. *)
Definition granted (i : inode_t) (c : cred_t) (oflags : Z) : bool :=
  bool_decide (c_uid c = 0) ||
  forallb (λ x, negb (asks oflags x) || may (i_mode i) (who_is i c) x
                || bool_decide (x = W) && may (i_mode i) Other W) [R; W; X].

(** What a class-based check grants. *)
Definition class_grants (i : inode_t) (c : cred_t) (oflags : Z) : Prop :=
  c_uid c = 0 ∨ ∀ x, asks oflags x = true -> may (i_mode i) (who_is i c) x = true.

Lemma land_pow2 m k : 0 <= k -> bool_decide (Z.land m (2 ^ k) ≠ 0) = Z.testbit m k.
Proof.
  intros Hk. destruct (Z.testbit m k) eqn:E.
  - apply bool_decide_eq_true. intros H. assert (Z.testbit (Z.land m (2 ^ k)) k = false) as H2 by (rewrite H; apply Z.bits_0).
    rewrite Z.land_spec, E, Z.pow2_bits_true in H2 by done. done.
  - apply bool_decide_eq_false. intros H. apply H. apply Z.bits_inj'. intros j Hj. rewrite Z.land_spec, Z.bits_0.
    destruct (decide (j = k)) as [->|Hne]; [by rewrite E|]. rewrite Z.pow2_bits_false by lia. apply andb_false_r.
Qed.

Lemma has_S_I (mode : Z) : ∀ w x,
  has mode (match w, x with
    | Owner, R => S_IRUSR | Owner, W => S_IWUSR | Owner, X => S_IXUSR
    | Group, R => S_IRGRP | Group, W => S_IWGRP | Group, X => S_IXGRP
    | Other, R => S_IROTH | Other, W => S_IWOTH | Other, X => S_IXOTH end) = may mode w x.
Proof. intros [] []; unfold has, may; rewrite <- land_pow2 by (unfold right_bit; lia); done. Qed.

Lemma has_O_EXCL oflags : has oflags O_EXCL = Z.testbit oflags 11.
Proof. unfold has. by rewrite <- land_pow2 by lia. Qed.

Section perm.
Context {D : Type} {KM : Kmalloc} {DR : Drivers D} {IC : Icache D}.
Implicit Types (s : vfs D).

(** The check takes and returns the lock of the credentials, nothing else. *)
Lemma wp_icheck_perm s ip cr i c oflags (Q : Z -> vfs D -> Prop) :
  ip ≠ NULL -> cr ≠ NULL -> v_inodes s !! ip = Some i -> i_lock i = true ->
  v_creds s !! cr = Some c -> c_lock c = false ->
  Q (if granted i c oflags then 0 else - EACCES) s -> wp (icheck_perm ip cr oflags) s Q.
Proof.
  intros Hip Hcr Hi Hil Hc Hcl HQ. unfold icheck_perm. rewrite !decide_False by done.
  wp_step. apply (wp_obj_assert_locked _ _ i); [done..|]. wp_step. apply (wp_obj_lock _ _ c); [done..|].
  wp_step. eapply wp_load; [done|simpl; done|]. wp_step. eapply wp_load; [done|simpl; by rewrite lookup_insert_eq|].
  assert (∀ r, Q r s -> wp (cred_unlock cr;; mret r) (hl_put (<[cr := lk_put true c]> (hl_get s)) s) Q) as Hend.
  { intros r HQr. wp_step. eapply (wp_obj_unlock _ _ (c_set_lock true c)); [done|simpl; by rewrite lookup_insert_eq|done|].
    wp_step. simpl. rewrite insert_insert_eq, insert_id; [by destruct s|]. rewrite Hc. f_equal. by destruct c; simpl in *; subst. }
  revert HQ. unfold granted. cbn [forallb asks]. change O_ACCMODE with 3. rewrite has_O_EXCL.
  change (bool_decide (R = W)) with false. change (bool_decide (X = W)) with false. change (bool_decide (W = W)) with true.
  rewrite (has_S_I _ Owner R), (has_S_I _ Owner W), (has_S_I _ Owner X), (has_S_I _ Group R), (has_S_I _ Group W),
    (has_S_I _ Group X), (has_S_I _ Other R), (has_S_I _ Other W), (has_S_I _ Other X). cbn [c_uid c_gid c_set_lock lk_put lockable_cred_t].
  change O_RDONLY with 0. change O_WRONLY with 1. change O_RDWR with 2.
  generalize (Z.land oflags 3). intros acc. generalize (Z.testbit oflags 11). intros ex. destruct ex.
  all: unfold who_is; repeat case_bool_decide; simplify_eq; repeat case_decide; simplify_eq; simpl; try tauto; try lia.
  all: repeat match goal with |- context [may ?m ?w ?x] => destruct (may m w x); simpl end; by apply Hend.
Qed.
End perm.

Lemma granted_spec i c oflags :
  granted i c oflags = true <->
  c_uid c = 0 ∨ ∀ x, asks oflags x = true -> may (i_mode i) (who_is i c) x = true ∨ x = W ∧ may (i_mode i) Other W = true.
Proof.
  unfold granted. rewrite orb_true_iff, bool_decide_eq_true, forallb_forall. split.
  - intros [H|H]; [by left|right]. intros x Hx. specialize (H x ltac:(destruct x; simpl; tauto)).
    rewrite Hx, !orb_true_iff, andb_true_iff, bool_decide_eq_true in H. naive_solver.
  - intros [H|H]; [by left|right]. intros x _. specialize (H x). rewrite !orb_true_iff, andb_true_iff, bool_decide_eq_true.
    destruct (asks oflags x); naive_solver.
Qed.

Lemma granted_class i c oflags :
  may (i_mode i) Other W = false ∨ who_is i c = Other -> granted i c oflags = true <-> class_grants i c oflags.
Proof.
  intros Ho. rewrite granted_spec. unfold class_grants. split.
  - intros [H|H]; [by left|right]. intros x Hx. destruct (H x Hx) as [|[-> Hw]]; [done|]. destruct Ho as [Ho| ->]; [congruence|done].
  - intros [H|H]; [by left|right]. eauto.
Qed.

(** Root keeps out of every check; a non-zero identity is fixed. *)
Lemma cred_spec_fixed cl v :
  (c_uid v ≠ 0 -> c_uid (cred_spec cl v).2 = c_uid v) ∧ (c_gid v ≠ 0 -> c_gid (cred_spec cl v).2 = c_gid v) ∧
  (c_euid v ≠ 0 -> c_euid (cred_spec cl v).2 = c_euid v) ∧ (c_egid v ≠ 0 -> c_egid (cred_spec cl v).2 = c_egid v).
Proof. destruct cl; simpl; unfold change; try case_decide; simpl; split_and!; intros; try done; lia. Qed.

Lemma cred_specs_fixed cs v :
  (c_uid v ≠ 0 -> c_uid (cred_specs cs v).2 = c_uid v) ∧ (c_gid v ≠ 0 -> c_gid (cred_specs cs v).2 = c_gid v) ∧
  (c_euid v ≠ 0 -> c_euid (cred_specs cs v).2 = c_euid v) ∧ (c_egid v ≠ 0 -> c_egid (cred_specs cs v).2 = c_egid v).
Proof.
  revert v. induction cs as [|cl cs IH]; intros v; simpl; [done|].
  destruct (cred_spec cl v) as [r v1] eqn:E. pose proof (cred_spec_fixed cl v) as H. rewrite E in H. simpl in H.
  specialize (IH v1). destruct (cred_specs cs v1) as [rs v2]. simpl in *. destruct H as (H1 & H2 & H3 & H4), IH as (I1 & I2 & I3 & I4).
  split_and!; intros Hne.
  - rewrite I1, H1; [done..|]. by rewrite H1.
  - rewrite I2, H2; [done..|]. by rewrite H2.
  - rewrite I3, H3; [done..|]. by rewrite H3.
  - rewrite I4, H4; [done..|]. by rewrite H4.
Qed.

Lemma cred_specs_lock cs v : c_lock (cred_specs cs v).2 = c_lock v.
Proof.
  revert v. induction cs as [|cl cs IH]; intros v; simpl; [done|].
  destruct (cred_spec cl v) as [r v1] eqn:E. specialize (IH v1). destruct (cred_specs cs v1) as [rs v2]. simpl in *.
  rewrite IH. pose proof (cred_spec_lock cl v) as H. by rewrite E in H.
Qed.

Section perm_props.
Context {D : Type} {KM : Kmalloc} {DR : Drivers D} {IC : Icache D}.
Implicit Types (s : vfs D).

(** C30. The permission check of a locked inode returns, changes nothing, and
    grants access exactly when the caller is root or every right the flags ask
    for is set for the caller's class (owner, else group, else other); writing
    is also granted when the mode lets the others write. *)
Theorem icheck_perm_correct s ip cr i c oflags :
  ip ≠ NULL -> cr ≠ NULL -> v_inodes s !! ip = Some i -> i_lock i = true ->
  v_creds s !! cr = Some c -> c_lock c = false ->
  ∃ r, icheck_perm ip cr oflags s = Ok r s ∧ (r = 0 ∨ r = - EACCES) ∧
    (r = 0 <-> c_uid c = 0 ∨ ∀ x, asks oflags x = true ->
       may (i_mode i) (who_is i c) x = true ∨ x = W ∧ may (i_mode i) Other W = true) ∧
    (may (i_mode i) Other W = false ∨ who_is i c = Other -> r = 0 <-> class_grants i c oflags).
Proof.
  intros Hip Hcr Hi Hil Hc Hcl. pose proof (wp_icheck_perm s ip cr i c oflags
    (λ r s', r = (if granted i c oflags then 0 else - EACCES) ∧ s' = s) Hip Hcr Hi Hil Hc Hcl (conj eq_refl eq_refl)) as H.
  apply wp_run in H as (r & s' & Hr & -> & ->). exists (if granted i c oflags then 0 else - EACCES). split; [done|].
  assert ((if granted i c oflags then 0 else - EACCES) = 0 <-> granted i c oflags = true) as E by by destruct (granted _ _ _).
  rewrite E. split; [destruct (granted _ _ _); auto|]. split; [apply granted_spec|apply granted_class].
Qed.

(** C31. A thread whose user and group are not 0 cannot change what it may
    access: whatever credential calls it makes, all of them return, its user
    and group stay the same and every permission check answers as before. *)
Theorem dropped_privileges_stay s p c ip i oflags cs :
  cred_ready s p c -> c_uid c ≠ 0 -> c_gid c ≠ 0 ->
  ip ≠ NULL -> v_inodes s !! ip = Some i -> i_lock i = true ->
  wp (r ← icheck_perm ip p oflags; _ ← cred_runs cs; r' ← icheck_perm ip p oflags; mret (r, r')) s
    (λ rr s', rr.1 = rr.2 ∧ ∃ c', cred_ready s' p c' ∧ c_uid c' = c_uid c ∧ c_gid c' = c_gid c ∧
       (c_euid c ≠ 0 -> c_euid c' = c_euid c) ∧ (c_egid c ≠ 0 -> c_egid c' = c_egid c) ∧ v_inodes s' = v_inodes s).
Proof.
  intros Hr Hu Hg Hip Hi Hil. wp_step. apply (wp_icheck_perm s ip p i c); [done|apply Hr|done|done|apply Hr|apply Hr|].
  wp_step. apply (wp_cred_runs cs s p c); [done|]. destruct (cred_specs_fixed cs c) as (F1 & F2 & F3 & F4).
  set (c' := (cred_specs cs c).2) in *.
  assert (c_lock c' = false) as Hl by (unfold c'; rewrite cred_specs_lock; apply Hr).
  assert (cred_ready (cred_to s p c') p c') as Hr' by by eapply cred_ready_to.
  wp_step. apply (wp_icheck_perm (cred_to s p c') ip p i c'); [done|apply Hr'|done|done|apply Hr'|done|].
  wp_step. split.
  - simpl. unfold granted, who_is. by rewrite F1, F2.
  - exists c'. split_and!; [done|by apply F1|by apply F2|done|done|done].
Qed.
End perm_props.

(** *** Status *)

(** The type bits of [istat] give the type back, for every type but pipes and
    inodes without a type, if the mode has none of its own. *)
Lemma type_mode_roundtrip ty m :
  ty ≠ FS_PIPE -> Z.land m S_IFMT = 0 -> iextract_type (Z.lor (type_mode ty) m) = ty.
Proof.
  intros Hty Hm. unfold iextract_type. rewrite Z.land_lor_distr_l, Hm, Z.lor_0_r. by destruct ty.
Qed.
Lemma pipe_mode_lost m : Z.land m S_IFMT = 0 -> iextract_type (Z.lor (type_mode FS_PIPE) m) = FS_INV.
Proof. intros Hm. unfold iextract_type. by rewrite Z.land_lor_distr_l, Hm. Qed.

(** ** Examples *)

(** A system without file system drivers and page cache. *)
Definition no_drivers : Drivers unit := {| iops_at _ := None |}.
Definition no_icache : Icache unit := {|
  icache_alloc := mret (- ENOMEM, NULL);
  icache_free _ := mret tt;
  icache_set_inode _ _ := mret tt;
  icache_lock _ := mret tt;
  icache_unlock _ := mret tt;
  icache_read _ _ _ := mret (- ENOSYS, []);
  icache_write _ _ _ := mret (- ENOSYS);
|}.

(** A file of user 7, group 5, at 16 and the credentials of user 7, group 5, at 32. *)
Definition file_7 (mode : Z) : inode_t := Inode 1 7 5 FS_RGL 0 mode 0 0 1 1 NULL NULL NULL NULL NULL NULL NULL true.
Definition cred_7 : cred_t := Cred 7 7 7 5 5 5 0 false.
Definition perm_state (mode : Z) : vfs unit :=
  Vfs ∅ ∅ {[16 := file_7 mode]} ∅ ∅ ∅ {[32 := cred_7]} ∅ (Thread NULL 32 false) tt 0.

Lemma perm_state_ready mode : cred_ready (perm_state mode) 32 cred_7.
Proof. by split. Qed.

(** Mode 0640: the owner reads and writes. *)
Lemma icheck_perm_correct_witness :
  let s := perm_state 416 in
  ∃ r, @icheck_perm unit 16 32 O_RDWR s = Ok r s ∧ (r = 0 ∨ r = - EACCES) ∧
    (r = 0 <-> c_uid cred_7 = 0 ∨ ∀ x, asks O_RDWR x = true ->
       may 416 (who_is (file_7 416) cred_7) x = true ∨ x = W ∧ may 416 Other W = true) ∧
    (may 416 Other W = false ∨ who_is (file_7 416) cred_7 = Other -> r = 0 <-> class_grants (file_7 416) cred_7 O_RDWR).
Proof. exact (icheck_perm_correct (perm_state 416) 16 32 (file_7 416) cred_7 O_RDWR ltac:(done) ltac:(done) eq_refl eq_refl eq_refl eq_refl). Defined.

Lemma dropped_privileges_stay_witness :
  wp (r ← @icheck_perm unit 16 32 O_WRONLY; _ ← cred_runs [Seteuid 0; Setuid 0; Setgid 9; Umask 511];
      r' ← icheck_perm 16 32 O_WRONLY; mret (r, r')) (perm_state 292)
    (λ rr s', rr.1 = rr.2 ∧ ∃ c', cred_ready s' 32 c' ∧ c_uid c' = 7 ∧ c_gid c' = 5 ∧
       (c_euid cred_7 ≠ 0 -> c_euid c' = c_euid cred_7) ∧ (c_egid cred_7 ≠ 0 -> c_egid c' = c_egid cred_7) ∧
       v_inodes s' = v_inodes (perm_state 292)).
Proof.
  apply (dropped_privileges_stay (perm_state 292) 32 cred_7 16 (file_7 292)); [apply perm_state_ready|done..].
Defined.

(** Mode 0402: the owner, who may not write, writes because the others may. *)
Lemma owner_writes_as_other :
  may 258 Owner W = false ∧ @icheck_perm unit 16 32 O_WRONLY (perm_state 258) = Ok 0 (perm_state 258).
Proof. split; vm_compute; reflexivity. Qed.

(** Access mode 3 passes with the right to read alone. *)
Lemma accmode_3_reads_only : @icheck_perm unit 16 32 3 (perm_state 256) = Ok 0 (perm_state 256).
Proof. vm_compute. reflexivity. Qed.
