(* ===== verification/Dentry.v ===== *)
(** * kernel/fs/dentry.c: directory entries

    Entries are reference counted; the children of a directory are a doubly
    linked list.  Names are the byte strings an entry owns. *)

From S2P Require Import Prelude Dll Cond Lock Vfs Cred Inode.

Definition str_dot : list Z := [46].
Definition str_dotdot : list Z := [46; 46].
Definition str_slash : list Z := [47].

Section dentry.
Context {D : Type} {KM : Kmalloc} {DR : Drivers D} {IC : Icache D}.
Abbreviation MV := (M (vfs D)).

(** [!compare_strings(a, b)] of two strings in memory, or of one and a given one. *)
Definition name_is (p : ptr) (name : list Z) : MV bool :=
  a ← load p; mret (bool_decide (a = name)).
Definition same_name (p q : ptr) : MV bool := b ← load (V := list Z) q; name_is p b.

Definition diput (dp : ptr) : MV unit := dassert_locked dp.
Definition ddelete (dp : ptr) : MV Z := dassert_locked dp;; mret (- ENOSYS).
Definition drelease (dp : ptr) : MV unit := dassert_locked dp;; dput dp;; dunlock dp.
Definition dconditional_release (dp : ptr) (cond : bool) : MV unit :=
  dassert_locked dp;; when cond (drelease dp).
Definition drevalidate (dp : ptr) : MV bool :=
  dassert_locked dp;; v ← load dp; mret (bool_decide (d_inode v ≠ NULL)).

(** The new entry comes locked. *)
Definition dalloc (__name : option (list Z)) (pdentry : bool) : MV (Z * ptr) :=
  match __name with
  | None => mret (- EINVAL, NULL)
  | Some nm =>
      if negb pdentry then mret (- EINVAL, NULL) else
      name ← kmalloc nm;
      if decide (name = NULL) then mret (- ENOMEM, NULL) else
      dp ← kmalloc (Dentry name 0 NULL 1 NULL NULL NULL NULL NULL NULL NULL false);
      if decide (dp = NULL) then kfree (list Z) name;; mret (- ENOMEM, NULL) else
      dlock dp;; mret (0, dp)
  end.

Definition dunbind (dp : ptr) : MV unit :=
  dassert_locked dp;;
  v ← load dp;
  let next := d_next v in
  let prev := d_prev v in
  let parent := d_parent v in
  when_ptr prev (
    dlock prev;;
    update prev (d_set_next next);;
    when_ptr next (dlock next;; update next (d_set_prev prev);; dunlock next);;
    dunlock prev;;
    update dp (d_set_prev NULL));;
  when_ptr next (
    dlock next;;
    update next (d_set_prev prev);;
    when_ptr prev (dlock prev;; update prev (d_set_next next);; dunlock prev);;
    dunlock next;;
    update dp (d_set_next NULL));;
  when_ptr parent (
    dlock parent;;
    w ← load parent;
    (if decide (d_child w = dp) then update parent (d_set_child (if decide (next ≠ NULL) then next else prev)) else mret tt);;
    update dp (d_set_parent NULL);;
    dunlock parent).

Definition dfree (dp : ptr) : MV unit :=
  dassert_locked dp;;
  dunbind dp;;
  v ← load dp;
  when_ptr (d_inode v) (
    b ← iislocked (d_inode v);
    when (negb b) (ilock (d_inode v));;
    idel_alias (d_inode v) dp;; mret tt);;
  when_ptr (d_name v) (kfree (list Z) (d_name v));;
  dunlock dp;;
  kfree dentry_t dp.

(** The first loop of [dbind]: whether the child or its name is there. *)
Fixpoint dbind_scan (child name : ptr) (fuel : nat) (node : ptr) : MV bool :=
  if decide (node = NULL) then mret false else
  match fuel with
  | O => halt OutOfFuel
  | S n =>
      if decide (node = child) then mret true else
      dlock node;;
      v ← load node;
      b ← same_name (d_name v) name;
      dunlock node;;
      if b : bool then mret true else dbind_scan child name n (d_next v)
  end.

Definition dbind (d_parent_ d_child_ : ptr) : MV Z :=
  dassert_locked d_child_;;
  dassert_locked d_parent_;;
  c ← load d_child_;
  if decide (d_parent c ≠ NULL) then mret (- EALREADY) else
  p ← load d_parent_;
  if decide (d_child_ = d_parent_ ∨ d_name c = NULL ∨ d_name p = NULL) then mret (- EINVAL) else
  n ← gets (λ s, size (v_dentries s));
  b ← dbind_scan d_child_ (d_name c) n (d_child p);
  if b : bool then mret (- EEXIST) else
  (if decide (d_child p = NULL) then update d_parent_ (d_set_child d_child_) else
     last ← last_node d_next n (d_child p) NULL;
     update d_child_ (d_set_prev last);;
     update last (d_set_next d_child_);;
     dunlock last);;
  update d_child_ (d_set_next NULL);;
  update d_child_ (d_set_parent d_parent_);;
  mret 0.

Definition dclose (dp : ptr) : MV unit :=
  b ← dislocked dp;
  when (negb b) (dlock dp);;
  dput dp;;
  n ← dget_count dp;
  if decide (n <= 0) then dfree dp else dunlock dp.

Definition dopen (dentry : ptr) : MV Z := dassert_locked dentry;; ddup dentry;; mret 0.

(** The loop of [dlookup]: the entry found, with one more reference and locked. *)
Fixpoint dlookup_scan (name : list Z) (fuel : nat) (node : ptr) : MV (option ptr) :=
  if decide (node = NULL) then mret None else
  match fuel with
  | O => halt OutOfFuel
  | S n =>
      dlock node;;
      v ← load node;
      b ← name_is (d_name v) name;
      if b : bool then dopen node;; mret (Some node) else
      dunlock node;; dlookup_scan name n (d_next v)
  end.

(** The second result is what is stored at [pchild], if anything is. *)
Definition dlookup (parent : ptr) (name : option (list Z)) (pchild : bool) : MV (Z * option ptr) :=
  dassert_locked parent;;
  match name with
  | None => mret (- EINVAL, None)
  | Some nm =>
      let done dp : MV (Z * option ptr) := if pchild then mret (0, Some dp) else dunlock dp;; mret (0, None) in
      if decide (nm = str_dot) then done parent else
      p ← load parent;
      if decide (nm = str_dotdot) then
        if decide (d_parent p ≠ NULL) then dlock (d_parent p);; done (d_parent p) else mret (0, None)
      else
      n ← gets (λ s, size (v_dentries s));
      r ← dlookup_scan nm n (d_child p);
      match r with Some dp => done dp | None => mret (- ENOENT, None) end
  end.

Definition dmkdentry (dir : ptr) (name : option (list Z)) (pdp : bool) : MV (Z * ptr) :=
  dassert_locked dir;;
  if negb pdp then mret (- EINVAL, NULL) else
  '(err, dp) ← dalloc name true;
  if decide (err ≠ 0) then mret (err, NULL) else
  err ← dbind dir dp;
  if decide (err ≠ 0) then dfree dp;; mret (err, NULL) else mret (0, dp).

(** inode.c; a failing [iadd_alias] makes it return 0. *)
Definition imkalias (ip : ptr) (name : option (list Z)) (dref : bool) : MV (Z * ptr) :=
  if decide (ip = NULL ∨ name = None) then mret (- EINVAL, NULL) else
  '(err, dentry) ← dalloc name true;
  if decide (err ≠ 0) then mret (err, NULL) else
  e ← iadd_alias ip dentry;
  if decide (e ≠ 0) then dclose dentry;; mret (0, NULL) else
  if dref then mret (0, dentry) else dclose dentry;; mret (0, NULL).
End dentry.
