(* ===== verification/DentrySpec.v ===== *)
(** * Directory entries: the list of a directory's children

    What locking, binding, looking up and unbinding do to the linked list of
    the children of one directory. *)

From S2P Require Import Prelude Dll Cond Lock Vfs Cred Inode Dentry.

(** An entry is its two sibling links and the rest. *)
Definition d_mk (a : ptr) (d : dentry_t) (n : ptr) : dentry_t := d_set_prev a (d_set_next n d).
#[export] Program Instance linked_dentry : Linked dentry_t dentry_t := {|
  l_mk := d_mk;
  set_prev := d_set_prev;
  set_next := d_set_next;
|}.
Next Obligation. done. Qed.
Next Obligation. done. Qed.

Section steps.
Context {D : Type}.
Implicit Types (s : vfs D) (m : gmap ptr dentry_t) (p q : ptr) (v w : dentry_t).

Abbreviation dm s := (v_dentries s).

(** The heap operations on entries as functions on the map of entries. *)
Lemma wp_dupd p f s (Q : unit -> vfs D -> Prop) :
  p ≠ NULL -> is_Some (dm s !! p) -> Q tt (set_dentries (alter f p (dm s)) s) -> wp (update p f) s Q.
Proof.
  intros Hp [v Hv] HQ. eapply wp_update; [done|done|]. simpl. by rewrite (alter_insert_Some _ _ _ _ Hv).
Qed.

Lemma wp_dlock p v s (Q : unit -> vfs D -> Prop) :
  p ≠ NULL -> dm s !! p = Some v -> d_lock v = false ->
  Q tt (set_dentries (alter (d_set_lock true) p (dm s)) s) -> wp (dlock p) s Q.
Proof.
  intros Hp Hv Hl HQ. apply (wp_obj_lock _ _ v); [done..|]. simpl.
  by rewrite (alter_insert_Some _ _ _ (d_set_lock true) Hv).
Qed.

Lemma wp_dunlock p v s (Q : unit -> vfs D -> Prop) :
  p ≠ NULL -> dm s !! p = Some v -> d_lock v = true ->
  Q tt (set_dentries (alter (d_set_lock false) p (dm s)) s) -> wp (dunlock p) s Q.
Proof.
  intros Hp Hv Hl HQ. apply (wp_obj_unlock _ _ v); [done..|]. simpl.
  by rewrite (alter_insert_Some _ _ _ (d_set_lock false) Hv).
Qed.

Lemma wp_dassert_locked p v s (Q : unit -> vfs D -> Prop) :
  p ≠ NULL -> dm s !! p = Some v -> d_lock v = true -> Q tt s -> wp (dassert_locked p) s Q.
Proof. intros. by apply (wp_obj_assert_locked _ _ v). Qed.

Lemma wp_dload p v s (Q : dentry_t -> vfs D -> Prop) :
  p ≠ NULL -> dm s !! p = Some v -> Q v s -> wp (load p) s Q.
Proof. intros. by eapply wp_load. Qed.

Lemma dm_set m s : dm (set_dentries m s) = m. Proof. done. Qed.
Lemma set_dentries_twice m m' s : set_dentries m (set_dentries m' s) = set_dentries m s. Proof. done. Qed.
Lemma set_dentries_id s : set_dentries (dm s) s = s. Proof. by destruct s. Qed.

(** A state with other entries, names and requests for memory. *)
Definition at_ s m (n : gmap ptr (list Z)) (t : nat) : vfs D := set_ticks t (set_names n (set_dentries m s)).
Lemma dm_at s m n t : dm (at_ s m n t) = m. Proof. done. Qed.
Lemma names_at s m n t : v_names (at_ s m n t) = n. Proof. done. Qed.
Lemma set_dentries_at s m m' n t : set_dentries m' (at_ s m n t) = at_ s m' n t. Proof. done. Qed.
Lemma at_id s : s = at_ s (dm s) (v_names s) (v_ticks s). Proof. by destruct s. Qed.
End steps.
Arguments set_dentries : simpl never.
Arguments at_ : simpl never.

(** Lookups in a map with some entries altered. *)
Ltac dlk :=
  repeat (first [rewrite dm_set | rewrite dm_at | rewrite lookup_alter_eq | rewrite lookup_insert_eq | rewrite lookup_alter_ne by done | rewrite lookup_insert_ne by done]);
  try match goal with H : _ !! ?p = Some _ |- context [_ !! ?p] => rewrite H end; simpl; eauto.

(** One step of the code on entries. *)
Ltac d_step :=
  lazymatch goal with
  | |- wp (mbind _ _) _ _ => apply wp_bind
  | |- wp (mret _) _ _ => apply wp_ret
  | |- wp (dlock _) _ _ => eapply wp_dlock; [done|by dlk|simpl; done|]
  | |- wp (dunlock _) _ _ => eapply wp_dunlock; [done|by dlk|simpl; done|]
  | |- wp (dassert_locked _) _ _ => eapply wp_dassert_locked; [done|by dlk|simpl; done|]
  | |- wp (update _ _) _ _ => apply wp_dupd; [done|by dlk|]
  | |- wp (load _) _ _ => eapply wp_dload; [done|by dlk|]
  end; rewrite ?set_dentries_twice, ?dm_set, ?set_dentries_at, ?dm_at; cbn beta.

(** Two maps that differ from one in a few known entries are compared key by key. *)
Ltac map_cases :=
  apply map_eq; intros ?q;
  repeat match goal with
  | |- context [alter _ ?p _ !! ?p] => rewrite lookup_alter_eq
  | |- context [<[?p := _]> _ !! ?p] => rewrite lookup_insert_eq
  | |- context [alter _ ?p _ !! ?q] => rewrite (lookup_alter_ne _ _ p q) by first [assumption | apply not_eq_sym; assumption]
  | |- context [<[?p := _]> _ !! ?q] => rewrite (lookup_insert_ne _ p q) by first [assumption | apply not_eq_sym; assumption]
  | |- context [delete ?p _ !! ?p] => rewrite lookup_delete_eq
  | |- context [delete ?p _ !! ?q] => rewrite (lookup_delete_ne _ p q) by first [assumption | apply not_eq_sym; assumption]
  | |- context [alter _ ?p _ !! ?q] => destruct (decide (p = q)) as [<-|]
  | |- context [delete ?p _ !! ?q] => destruct (decide (p = q)) as [<-|]
  end;
  repeat match goal with H : ?m !! ?p = _ |- context [?m !! ?p] => rewrite H end; simpl.

Section unbind.
Context {D : Type} {KM : Kmalloc} {DR : Drivers D} {IC : Icache D}.
Implicit Types (s : vfs D) (m : gmap ptr dentry_t) (v w d : dentry_t).

(** The entry, taken out of every list. *)
Definition cleared v : dentry_t := d_set_parent NULL (d_set_prev NULL (d_set_next NULL v)).

(** The directory's pointer to its children once [dp] is gone. *)
Definition fix_child (dp prev next : ptr) (w : dentry_t) : dentry_t :=
  if decide (d_child w = dp) then d_set_child (if decide (next ≠ NULL) then next else prev) w else w.

(** The same map, whatever the order of the updates of different entries. *)
Ltac unbind_end :=
  unfold unlink, put_prev, put_next; repeat case_decide; try tauto;
  map_cases; [..|done];
  apply f_equal; unfold fix_child, cleared; simpl in *; repeat case_decide; try tauto;
  repeat match goal with u : dentry_t |- _ => destruct u; simpl in * end; by subst.

Lemma wp_dunbind s dp v prev next par w (Q : unit -> vfs D -> Prop) :
  dp ≠ NULL -> v_dentries s !! dp = Some v -> d_lock v = true ->
  d_prev v = prev -> d_next v = next -> d_parent v = par ->
  (prev ≠ NULL -> prev ≠ dp ∧ ∃ u, v_dentries s !! prev = Some u ∧ d_lock u = false) ->
  (next ≠ NULL -> next ≠ dp ∧ ∃ u, v_dentries s !! next = Some u ∧ d_lock u = false) ->
  (prev ≠ NULL -> prev ≠ next) ->
  par ≠ NULL -> par ≠ dp -> par ≠ prev -> par ≠ next -> v_dentries s !! par = Some w -> d_lock w = false ->
  Q tt (set_dentries (alter (fix_child dp prev next) par (alter cleared dp (unlink dp prev next (v_dentries s)))) s) ->
  wp (dunbind dp) s Q.
Proof.
  intros Hdp Hv Hl Hpv Hnx Hpa Hprev Hnext Hpn Hpar Hpd Hpp Hpx Hw Hwl HQ. unfold dunbind.
  wp_step. apply (wp_dassert_locked _ v); [done..|]. wp_step. apply (wp_dload _ v); [done..|]. rewrite Hpv, Hnx, Hpa.
  assert (∀ m', m' = alter (fix_child dp prev next) par (alter cleared dp (unlink dp prev next (v_dentries s))) ->
    Q tt (set_dentries m' s)) as Hend by by intros ? ->.
  clear HQ. unfold when_ptr. rewrite !(decide_True (P := par ≠ NULL)) by done.
  destruct (decide (prev ≠ NULL)) as [Hp|Hp], (decide (next ≠ NULL)) as [Hn|Hn].
  - destruct (Hprev Hp) as (Hp1 & u & Hu & Hul), (Hnext Hn) as (Hn1 & x & Hx & Hxl). specialize (Hpn Hp).
    repeat d_step. case_decide; repeat d_step; apply Hend; unbind_end.
  - destruct (Hprev Hp) as (Hp1 & u & Hu & Hul). assert (next = NULL) as -> by (by apply dec_stable). clear Hn Hnext.
    repeat d_step. case_decide; repeat d_step; apply Hend; unbind_end.
  - destruct (Hnext Hn) as (Hn1 & x & Hx & Hxl). assert (prev = NULL) as -> by (by apply dec_stable). clear Hp Hprev.
    repeat d_step. case_decide; repeat d_step; apply Hend; unbind_end.
  - assert (next = NULL) as -> by (by apply dec_stable). assert (prev = NULL) as -> by (by apply dec_stable). clear Hn Hnext Hp Hprev.
    repeat d_step. case_decide; repeat d_step; apply Hend; unbind_end.
Qed.
End unbind.

(** ** The children of a directory *)

Section dir.
Context {D : Type} {KM : Kmalloc} {DR : Drivers D} {IC : Icache D}.
Implicit Types (s : vfs D) (m : gmap ptr dentry_t) (v w d : dentry_t) (xs ys : list (ptr * dentry_t)).

Definition name_of (n : gmap ptr (list Z)) (d : dentry_t) : list Z := default [] (n !! d_name d).
Definition names_of n xs : list (list Z) := (λ x, name_of n x.2) <$> xs.

Record kid_ok (n : gmap ptr (list Z)) (dir : ptr) (d : dentry_t) : Prop := {
  ko_parent : d_parent d = dir;
  ko_nonnull : d_name d ≠ NULL;
  ko_name : is_Some (n !! d_name d);
}.

Record dirrep m (n : gmap ptr (list Z)) (dir : ptr) (w : dentry_t) xs : Prop := {
  dr_null : dir ≠ NULL;
  dr_dir : m !! dir = Some w;
  dr_list : dll m (d_child w) (last_or NULL xs) xs;
  dr_out : dir ∉ addrs xs;
  dr_kids : Forall (λ x, kid_ok n dir x.2) xs;
  dr_names : NoDup (names_of n xs);
}.

(** Nobody is using the children. *)
Definition idle xs : Prop := Forall (λ x : ptr * dentry_t, d_lock x.2 = false) xs.

Lemma idle_mid pre p d ys : idle (pre ++ (p, d) :: ys) -> d_lock d = false.
Proof. intros [_ [H _]%Forall_cons]%Forall_app. done. Qed.

Lemma relock_id m p v :
  m !! p = Some v -> d_lock v = false -> alter (d_set_lock false) p (alter (d_set_lock true) p m) = m.
Proof.
  intros Hv Hl. apply map_eq. intros q. destruct (decide (p = q)) as [<-|Hne].
  - rewrite !lookup_alter_eq, Hv. simpl. f_equal. destruct v; simpl in *; by subst.
  - by rewrite !lookup_alter_ne by done.
Qed.

(** A child, in place. *)
Lemma dirrep_kid m n dir w pre p d ys :
  dirrep m n dir w (pre ++ (p, d) :: ys) ->
  p ≠ NULL ∧ m !! p = Some (d_mk (last_or NULL pre) d (hd_or NULL ys)) ∧ kid_ok n dir d ∧ p ≠ dir.
Proof.
  intros [Hn Hd Hl Ho Hk _]. destruct (dll_mid _ _ _ _ _ _ _ Hl) as (Hp & _ & _ & Hv). split; [done|]. split; [done|]. split.
  - apply Forall_app in Hk as [_ Hk%Forall_cons]. apply Hk.
  - intros ->. apply Ho. rewrite fmap_app, elem_of_app. right. simpl. left.
Qed.

Lemma kid_name n dir d : kid_ok n dir d -> n !! d_name d = Some (name_of n d).
Proof. intros [_ _ [nm Hn]]. unfold name_of. by rewrite Hn. Qed.

Lemma wp_name_is p a nm s (Q : bool -> vfs D -> Prop) :
  p ≠ NULL -> v_names s !! p = Some a -> Q (bool_decide (a = nm)) s -> wp (name_is p nm) s Q.
Proof. intros Hp Ha HQ. unfold name_is. wp_step. eapply wp_load; [done..|]. by wp_step. Qed.

(** The children's names are scanned in order; nothing changes. *)
Lemma wp_dbind_scan s dir w pre ys child np nm fuel (Q : bool -> vfs D -> Prop) :
  dirrep (v_dentries s) (v_names s) dir w (pre ++ ys) -> idle (pre ++ ys) -> child ∉ addrs ys -> np ≠ NULL -> v_names s !! np = Some nm ->
  (length ys <= fuel)%nat -> Q (bool_decide (nm ∈ names_of (v_names s) ys)) s ->
  wp (dbind_scan child np fuel (hd_or NULL ys)) s Q.
Proof.
  intros Hd Hi Hc Hnp Hnm. revert pre fuel Hd Hi. induction ys as [|[p d] ys IH]; intros pre fuel Hd Hi Hf HQ.
  { rewrite bool_decide_eq_false_2 in HQ by apply not_elem_of_nil. by destruct fuel. }
  destruct (dirrep_kid _ _ _ _ _ _ _ _ Hd) as (Hp & Hv & Hk & Hpd). simpl in Hc. apply not_elem_of_cons in Hc as [Hcp Hc].
  destruct fuel as [|fuel]; simpl in Hf; [lia|]. cbn [dbind_scan hd_or fst]. rewrite decide_False by done. rewrite decide_False by done.
  assert (d_lock (d_mk (last_or NULL pre) d (hd_or NULL ys)) = false) as Hl by exact (idle_mid _ _ _ _ Hi).
  d_step. eapply wp_dlock; [done..|]. do 2 d_step. d_step. unfold same_name. wp_step.
  eapply wp_load; [done|simpl; done|]. eapply wp_name_is; [apply Hk|exact (kid_name _ _ _ Hk)|].
  wp_step. eapply wp_dunlock; [done|by dlk|done|]. rewrite set_dentries_twice, dm_set, (relock_id _ _ _ Hv Hl), set_dentries_id.
  destruct (decide (name_of (v_names s) d = nm)) as [He|He].
  - rewrite (bool_decide_eq_true_2 (name_of (v_names s) d = nm)) by done.
    rewrite bool_decide_eq_true_2 in HQ by (simpl; subst; left). exact HQ.
  - rewrite (bool_decide_eq_false_2 (name_of (v_names s) d = nm)) by done.
    eapply (IH Hc (pre ++ [(p, d)])); [by rewrite <- app_assoc|by rewrite <- app_assoc|lia|].
    replace (bool_decide (nm ∈ names_of (v_names s) ys)) with (bool_decide (nm ∈ names_of (v_names s) ((p, d) :: ys))); [done|].
    apply bool_decide_ext. simpl. rewrite elem_of_cons. split; [intros [->|]; [done|done]|by right].
Qed.

(** To the last child, which stays locked. *)
Lemma wp_last_node s dir w pre ys p0 fuel (Q : ptr -> vfs D -> Prop) :
  dirrep (v_dentries s) (v_names s) dir w (pre ++ ys) -> idle (pre ++ ys) -> ys ≠ [] -> (length ys <= fuel)%nat ->
  Q (last_or NULL ys) (set_dentries (alter (d_set_lock true) (last_or NULL ys) (v_dentries s)) s) ->
  wp (last_node d_next fuel (hd_or NULL ys) p0) s Q.
Proof.
  revert pre fuel p0. induction ys as [|[p d] ys IH]; intros pre fuel p0 Hd Hi Hne Hf HQ; [done|]. clear Hne.
  destruct (dirrep_kid _ _ _ _ _ _ _ _ Hd) as (Hp & Hv & Hk & Hpd).
  destruct fuel as [|fuel]; simpl in Hf; [lia|]. cbn [last_node hd_or fst]. rewrite decide_False by done.
  assert (d_lock (d_mk (last_or NULL pre) d (hd_or NULL ys)) = false) as Hl by exact (idle_mid _ _ _ _ Hi).
  d_step. eapply wp_dlock; [done..|]. do 3 d_step. simpl. change (d_next _) with (hd_or NULL ys). unfold when_ptr.
  destruct ys as [|[p' d'] ys].
  - by destruct fuel.
  - assert (p' ≠ NULL) as Hp' by (eapply (dirrep_kid (v_dentries s) (v_names s) dir w (pre ++ [(p, d)]) p' d' ys); by rewrite <- app_assoc).
    cbn [hd_or fst]. rewrite decide_True by done. eapply wp_dunlock; [done|by dlk|done|].
    rewrite set_dentries_twice, dm_set, (relock_id _ _ _ Hv Hl), set_dentries_id.
    eapply (IH (pre ++ [(p, d)])); [by rewrite <- app_assoc|by rewrite <- app_assoc|done|simpl in *; lia|done].
Qed.

(** The directory's pointer to its children once [child] is the last one. *)
Definition add_child (child : ptr) xs w : dentry_t := match xs with [] => d_set_child child w | _ => w end.

Lemma wp_dbind s dir w xs child c nm (Q : Z -> vfs D -> Prop) :
  dirrep (v_dentries s) (v_names s) dir w xs -> idle xs -> d_lock w = true -> d_name w ≠ NULL ->
  child ≠ NULL -> child ≠ dir -> child ∉ addrs xs -> v_dentries s !! child = Some c -> d_lock c = true ->
  d_parent c = NULL -> d_prev c = NULL -> d_name c ≠ NULL -> v_names s !! d_name c = Some nm ->
  (nm ∈ names_of (v_names s) xs -> Q (- EEXIST) s) ->
  (nm ∉ names_of (v_names s) xs ->
     Q 0 (set_dentries (alter (add_child child xs) dir
       (link child (d_set_parent dir c) (last_or NULL xs) NULL (v_dentries s))) s)) ->
  wp (dbind dir child) s Q.
Proof.
  intros Hd Hi Hwl Hwn Hc Hcd Hcx Hcv Hcl Hcp Hcpr Hcn Hnm HQ1 HQ2. assert (Hdn := dr_null _ _ _ _ _ Hd). assert (Hdv := dr_dir _ _ _ _ _ Hd).
  unfold dbind. repeat d_step. rewrite decide_False by tauto. repeat d_step. rewrite decide_False by tauto.
  wp_step. wp_step. assert (d_child w = hd_or NULL xs) as Hch by apply (dr_list _ _ _ _ _ Hd).
  assert (length xs <= size (v_dentries s))%nat as Hlen by (eapply dll_length; apply Hd).
  wp_step. rewrite Hch. eapply (wp_dbind_scan s dir w [] xs); [done|done|done|done|done|done|].
  destruct (decide (nm ∈ names_of (v_names s) xs)) as [Hin|Hin].
  { rewrite bool_decide_eq_true_2 by done. wp_step. by apply HQ1. }
  rewrite bool_decide_eq_false_2 by done. specialize (HQ2 Hin). clear HQ1. cbn [negb].
  assert (∀ m', m' = alter (add_child child xs) dir (link child (d_set_parent dir c) (last_or NULL xs) NULL (v_dentries s)) ->
    Q 0 (set_dentries m' s)) as Hend by by intros ? ->. clear HQ2.
  destruct (decide (xs = [])) as [->|Hne].
  - simpl. repeat d_step. apply Hend. unfold link, put_prev, put_next. simpl.
    map_cases; [|done|done]. f_equal. destruct c; simpl in *; by subst.
  - assert (hd_or NULL xs ≠ NULL) as Hh.
    { intros E. apply Hne. apply hd_or_null; [|done]. apply (dr_list _ _ _ _ _ Hd). }
    rewrite decide_False by done. wp_step. wp_step. eapply (wp_last_node s dir w [] xs); [done|done|done|done|].
    destruct (exists_last Hne) as (ys & [l dl] & ->). rewrite last_or_snoc in *. simpl.
    destruct (dirrep_kid _ _ _ _ _ _ _ _ Hd) as (Hl & Hlv & Hlk & Hld). simpl in Hlv.
    assert (l ≠ child) as Hlc. { intros ->. apply Hcx. rewrite fmap_app, elem_of_app. right. simpl. left. }
    assert (d_lock (d_mk (last_or NULL ys) dl NULL) = false) as Hll by exact (idle_mid _ _ _ _ Hi).
    repeat d_step. apply Hend.
    assert (∀ u, add_child child (ys ++ [(l, dl)]) u = u) as Hadd by (intros u; by destruct ys).
    unfold link, put_prev, put_next. simpl. rewrite decide_False by done.
    map_cases; try done; f_equal; [destruct dl; simpl in *; by subst|by rewrite Hadd].
Qed.
End dir.

(** ** Looking up, making and dropping entries *)

Section ops.
Context {D : Type} {KM : Kmalloc} {DR : Drivers D} {IC : Icache D}.
Implicit Types (s : vfs D) (m : gmap ptr dentry_t) (v w d : dentry_t) (xs ys : list (ptr * dentry_t)).

(** The entry [dlookup] returns: locked, with one more reference. *)
Definition taken v : dentry_t := d_set_count (d_count v + 1) (d_set_lock true v).

(** Where a name is among the children. *)
Lemma names_split n xs nm : nm ∈ names_of n xs -> ∃ pre p d ys, xs = pre ++ (p, d) :: ys ∧ name_of n d = nm ∧ nm ∉ names_of n pre.
Proof.
  induction xs as [|[p d] xs IH]; simpl; [by intros ?%elem_of_nil|]. intros Hin.
  destruct (decide (name_of n d = nm)) as [He|He].
  - exists [], p, d, xs. split_and!; [done|done|apply not_elem_of_nil].
  - apply elem_of_cons in Hin as [->|Hin]; [done|]. destruct (IH Hin) as (pre & q & e & ys & -> & Hn & Hp).
    exists ((p, d) :: pre), q, e, ys. split_and!; [done|done|]. simpl. apply not_elem_of_cons. naive_solver.
Qed.

Lemma wp_dlookup_scan s dir w pre ys nm fuel (Q : option ptr -> vfs D -> Prop) :
  dirrep (v_dentries s) (v_names s) dir w (pre ++ ys) -> idle (pre ++ ys) -> (length ys <= fuel)%nat ->
  (nm ∉ names_of (v_names s) ys -> Q None s) ->
  (∀ ys1 p d ys2, ys = ys1 ++ (p, d) :: ys2 -> name_of (v_names s) d = nm ->
     Q (Some p) (set_dentries (alter taken p (v_dentries s)) s)) ->
  wp (dlookup_scan nm fuel (hd_or NULL ys)) s Q.
Proof.
  revert pre fuel. induction ys as [|[p d] ys IH]; intros pre fuel Hd Hi Hf HQ1 HQ2.
  { destruct fuel; apply HQ1, not_elem_of_nil. }
  destruct (dirrep_kid _ _ _ _ _ _ _ _ Hd) as (Hp & Hv & Hk & Hpd).
  destruct fuel as [|fuel]; simpl in Hf; [lia|]. cbn [dlookup_scan hd_or fst]. rewrite decide_False by done.
  assert (d_lock (d_mk (last_or NULL pre) d (hd_or NULL ys)) = false) as Hl by exact (idle_mid _ _ _ _ Hi).
  d_step. eapply wp_dlock; [done..|]. do 3 d_step.
  eapply wp_name_is; [apply Hk|exact (kid_name _ _ _ Hk)|].
  destruct (decide (name_of (v_names s) d = nm)) as [He|He].
  - rewrite (bool_decide_eq_true_2 (name_of (v_names s) d = nm)) by done. unfold dopen, ddup. repeat d_step.
    replace (alter _ p (alter _ p _)) with (alter taken p (v_dentries s)); [by apply (HQ2 [] p d ys)|].
    map_cases; done.
  - rewrite (bool_decide_eq_false_2 (name_of (v_names s) d = nm)) by done. d_step. eapply wp_dunlock; [done|by dlk|done|].
    rewrite set_dentries_twice, dm_set, (relock_id _ _ _ Hv Hl), set_dentries_id.
    eapply (IH (pre ++ [(p, d)])); [by rewrite <- app_assoc|by rewrite <- app_assoc|lia| |].
    + intros Hni. apply HQ1. simpl. apply not_elem_of_cons. naive_solver.
    + intros ys1 q e ys2 -> Hn. by apply (HQ2 ((p, d) :: ys1) q e ys2).
Qed.

Lemma wp_dlookup s dir w xs nm (Q : Z * option ptr -> vfs D -> Prop) :
  dirrep (v_dentries s) (v_names s) dir w xs -> idle xs -> d_lock w = true -> nm ≠ str_dot -> nm ≠ str_dotdot ->
  (nm ∉ names_of (v_names s) xs -> Q (- ENOENT, None) s) ->
  (∀ ys1 p d ys2, xs = ys1 ++ (p, d) :: ys2 -> name_of (v_names s) d = nm ->
     Q (0, Some p) (set_dentries (alter taken p (v_dentries s)) s)) ->
  wp (dlookup dir (Some nm) true) s Q.
Proof.
  intros Hd Hi Hwl H1 H2 HQ1 HQ2. assert (Hdn := dr_null _ _ _ _ _ Hd). assert (Hdv := dr_dir _ _ _ _ _ Hd). unfold dlookup.
  d_step. d_step. rewrite decide_False by done. do 2 d_step. rewrite decide_False by done. wp_step. wp_step.
  assert (length xs <= size (v_dentries s))%nat as Hlen by (eapply dll_length; apply Hd).
  assert (d_child w = hd_or NULL xs) as -> by apply (dr_list _ _ _ _ _ Hd).
  wp_step. apply (wp_dlookup_scan s dir w [] xs); [done|done|done| |].
  - intros Hni. wp_step. by apply HQ1.
  - intros ys1 p d ys2 Hx Hn. wp_step. by eapply HQ2.
Qed.

(** Another value for the directory itself. *)
Lemma dirrep_dir m n dir w xs f :
  dirrep m n dir w xs -> d_child (f w) = d_child w -> dirrep (alter f dir m) n dir (f w) xs.
Proof.
  intros [Hn Hd Hl Ho Hk Hnm] Hc. split; [done| | |done|exact Hk|exact Hnm].
  - rewrite lookup_alter_eq, Hd. done.
  - rewrite Hc. eapply dll_frame; [|done]. intros q Hq. apply lookup_alter_ne. congruence.
Qed.
End ops.

(** *** The representation under changes of the heap *)

Section rep.
Implicit Types (m : gmap ptr dentry_t) (n : gmap ptr (list Z)) (v w d : dentry_t) (xs ys : list (ptr * dentry_t)).

Abbreviation name_ptrs xs := ((λ x : ptr * dentry_t, d_name x.2) <$> xs).

Lemma names_of_ext n n' xs : (∀ q, q ∈ name_ptrs xs -> n' !! q = n !! q) -> names_of n' xs = names_of n xs.
Proof.
  intros H. unfold names_of. apply list_fmap_ext. intros i x Hx. unfold name_of. rewrite H; [done|].
  apply list_elem_of_fmap. exists x. split; [done|]. by eapply list_elem_of_lookup_2.
Qed.

Lemma dirrep_frame m m' n n' dir w xs :
  dirrep m n dir w xs -> (∀ q, q = dir ∨ q ∈ addrs xs -> m' !! q = m !! q) ->
  (∀ q, q ∈ name_ptrs xs -> n' !! q = n !! q) -> dirrep m' n' dir w xs.
Proof.
  intros [Hn Hd Hl Ho Hk Hnm] Hm Hq. split; [done|by rewrite Hm by auto| |done| |by rewrite (names_of_ext n)].
  - eapply dll_frame; [|done]. auto.
  - apply Forall_forall. intros x Hx. rewrite Forall_forall in Hk. destruct (Hk x Hx) as [K1 K2 K3].
    split; [done..|]. rewrite Hq; [done|]. apply list_elem_of_fmap. eauto.
Qed.

(** The fields of a child other than its links, parent and name change. *)
Lemma dirrep_payload m n dir w xs p d ys f :
  dirrep m n dir w (xs ++ (p, d) :: ys) -> (∀ a b, f (d_mk a d b) = d_mk a (f d) b) ->
  d_parent (f d) = d_parent d -> d_name (f d) = d_name d ->
  dirrep (alter f p m) n dir w (xs ++ (p, f d) :: ys).
Proof.
  intros Hr Hf Hp Hnm. pose proof (dirrep_kid _ _ _ _ _ _ _ _ Hr) as (_ & _ & _ & Hpd). destruct Hr as [Hn Hd Hl Ho Hk Hns].
  split; [done|by rewrite lookup_alter_ne| |by rewrite fmap_app in *| |].
  - replace (last_or NULL (xs ++ (p, f d) :: ys)) with (last_or NULL (xs ++ (p, d) :: ys)) by by rewrite !last_or_app.
    by apply (dll_payload (V := dentry_t) _ _ _ xs p d (f d)).
  - apply Forall_app in Hk as [K1 [[A1 A2 A3] K2]%Forall_cons]. simpl in *. apply Forall_app. split; [done|]. apply Forall_cons. split; [|done].
    simpl. split; [congruence|by rewrite Hnm..].
  - unfold names_of in *. rewrite fmap_app in *. simpl in *. unfold name_of in *. by rewrite Hnm.
Qed.

(** A new last child. *)
Lemma dirrep_link m n dir w xs child c :
  dirrep m n dir w xs -> child ≠ NULL -> child ≠ dir -> child ∉ addrs xs ->
  kid_ok n dir c -> name_of n c ∉ names_of n xs ->
  dirrep (alter (add_child child xs) dir (link child c (last_or NULL xs) NULL m)) n dir (add_child child xs w) (xs ++ [(child, c)]).
Proof.
  intros [Hn Hd Hl Ho Hk Hnm] Hc Hcd Hcx Hck Hcn.
  assert (dir ∉ addrs (xs ++ [(child, c)])) as Ho'.
  { rewrite fmap_app. simpl. rewrite elem_of_app, list_elem_of_singleton. intros [|]; congruence. }
  split; [done| | |done| |].
  - rewrite lookup_alter_eq. change NULL with (@hd_or dentry_t NULL []) at 1.
    rewrite (link_outside m (d_child w) (last_or NULL xs) xs child c [] dir); [by rewrite Hd|by rewrite app_nil_r|done].
  - pose proof (dll_link m (d_child w) (last_or NULL xs) xs child c [] ltac:(by rewrite app_nil_r) Hc ltac:(by rewrite app_nil_r)) as Hl'. simpl in Hl'.
    replace (d_child (add_child child xs w)) with (hd_or child xs).
    + rewrite last_or_snoc. eapply dll_frame; [|exact Hl']. intros q Hq. apply lookup_alter_ne. congruence.
    + destruct xs; [done|]. simpl. destruct Hl as [-> _]. done.
  - apply Forall_app. split; [done|]. by apply Forall_cons.
  - unfold names_of. rewrite fmap_app. apply NoDup_app. split; [done|]. split; [|apply NoDup_singleton].
    intros x Hx ->%list_elem_of_singleton. done.
Qed.

(** A child is taken out. *)
Lemma dirrep_unlink m n dir w xs p d ys :
  dirrep m n dir w (xs ++ (p, d) :: ys) ->
  let prev := last_or NULL xs in let next := hd_or NULL ys in
  dirrep (alter (fix_child p prev next) dir (alter cleared p (unlink p prev next m))) n dir (fix_child p prev next w) (xs ++ ys).
Proof.
  intros Hr prev next. subst prev next. destruct (dirrep_kid _ _ _ _ _ _ _ _ Hr) as (Hp & Hv & _ & Hpd). destruct Hr as [Hn Hd Hl Ho Hk Hns].
  pose proof (dll_unlink _ _ _ _ _ _ _ Hl) as Hl'. destruct (dll_mid _ _ _ _ _ _ _ Hl) as (_ & Hpx & Hpy & _).
  rewrite fmap_app in Ho. simpl in Ho. apply not_elem_of_app in Ho as [Ho1 [_ Ho2]%not_elem_of_cons].
  assert (dir ∉ addrs (xs ++ ys)) as Ho' by (rewrite fmap_app; apply not_elem_of_app; done).
  assert (p ∉ addrs (xs ++ ys)) as Hpo by (rewrite fmap_app; apply not_elem_of_app; done).
  split; [done| | |done| |].
  - rewrite lookup_alter_eq, lookup_alter_ne, (unlink_outside m _ _ xs p d ys dir Hl), Hd by done. done.
  - replace (d_child (fix_child p (last_or NULL xs) (hd_or NULL ys) w)) with (hd_or NULL (xs ++ ys)).
    + eapply dll_frame; [|exact Hl']. intros q Hq. by rewrite !lookup_alter_ne by congruence.
    + assert (NoDup (addrs (xs ++ (p, d) :: ys))) as Hnd by apply Hl. unfold fix_child. destruct Hl as [Hch _]. rewrite Hch.
      pose proof (hd_or_unlink xs p d ys Hnd) as E. destruct (decide (hd_or NULL (xs ++ (p, d) :: ys) = p)) as [Hc|Hc].
      * rewrite decide_True in E by done. rewrite <- E. clear E. simpl.
        destruct (decide (hd_or NULL ys ≠ NULL)) as [Hx|Hx]; [done|]. apply dec_stable in Hx. rewrite Hx.
        destruct xs as [|[x e] xs]; [done|]. exfalso. simpl in Hc. subst x. apply Hpx. simpl. left.
      * rewrite decide_False in E by done. by rewrite <- E, <- Hch.
  - apply Forall_app in Hk as [K1 [_ K2]%Forall_cons]. by apply Forall_app.
  - unfold names_of in *. rewrite fmap_app in *. simpl in *. apply NoDup_app in Hns as (N1 & N2 & [_ N3]%NoDup_cons).
    apply NoDup_app. split; [done|]. split; [|done]. intros x Hx Hy. apply (N2 x Hx). by right.
Qed.
End rep.
