(* ===== verification/DentryProps.v ===== *)
(** * Directory entries: a directory is a set of names

    Making, finding and dropping entries of one directory, by the calls the
    kernel uses, is adding, testing and removing names, and releases all the
    memory it takes. *)

From S2P Require Import Prelude Dll Cond Lock Vfs Cred Inode Dentry DentrySpec.

Section dir.
Context {D : Type} {KM : Kmalloc} {DR : Drivers D} {IC : Icache D}.
Abbreviation MV := (M (vfs D)).
Implicit Types (s : vfs D) (m : gmap ptr dentry_t) (n : gmap ptr (list Z)) (v w d : dentry_t) (xs ys : list (ptr * dentry_t)).

(** ** The operations *)

Variant dir_op := Make (nm : list Z) | Find (nm : list Z) | Drop (nm : list Z).

(** The entry made is left in the directory, unlocked; the reference a lookup
    takes is given back; dropping gives back the one of [dalloc] as well. *)
Definition dir_run (dir : ptr) (o : dir_op) : MV Z :=
  dlock dir;;
  match o with
  | Make nm =>
      '(err, dp) ← dmkdentry dir (Some nm) true;
      dunlock dir;;
      if decide (err ≠ 0) then mret err else dunlock dp;; mret 0
  | Find nm =>
      r ← dlookup dir (Some nm) true;
      dunlock dir;;
      match r.2 with Some dp => dclose dp;; mret r.1 | None => mret r.1 end
  | Drop nm =>
      r ← dlookup dir (Some nm) true;
      dunlock dir;;
      match r.2 with Some dp => dput dp;; dclose dp;; mret r.1 | None => mret r.1 end
  end.

Fixpoint dir_runs (dir : ptr) (os : list dir_op) : MV (list Z) :=
  match os with
  | [] => mret []
  | o :: os => r ← dir_run dir o; rs ← dir_runs dir os; mret (r :: rs)
  end.

(** ** The specification *)

Definition op_name (o : dir_op) : list Z := match o with Make nm | Find nm | Drop nm => nm end.

(** Making an entry may also fail for want of memory. *)
Inductive dir_spec : dir_op -> list (list Z) -> Z -> list (list Z) -> Prop :=
  | spec_make nm l : nm ∉ l -> dir_spec (Make nm) l 0 (l ++ [nm])
  | spec_make_dup nm l : nm ∈ l -> dir_spec (Make nm) l (- EEXIST) l
  | spec_make_nomem nm l : dir_spec (Make nm) l (- ENOMEM) l
  | spec_find nm l : nm ∈ l -> dir_spec (Find nm) l 0 l
  | spec_find_none nm l : nm ∉ l -> dir_spec (Find nm) l (- ENOENT) l
  | spec_drop l1 nm l2 : dir_spec (Drop nm) (l1 ++ nm :: l2) 0 (l1 ++ l2)
  | spec_drop_none nm l : nm ∉ l -> dir_spec (Drop nm) l (- ENOENT) l.

Inductive dir_specs : list dir_op -> list (list Z) -> list Z -> list (list Z) -> Prop :=
  | specs_nil l : dir_specs [] l [] l
  | specs_cons o os l r l' rs l'' :
      dir_spec o l r l' -> dir_specs os l' rs l'' -> dir_specs (o :: os) l (r :: rs) l''.

(** ** The representation *)

Abbreviation name_ptrs xs := ((λ x : ptr * dentry_t, d_name x.2) <$> xs).

(** The directory is unlocked, its children are idle, have one reference and no
    inode; [m0] and [n0] are the entries and names of the rest of the system. *)
Record dirheap m0 n0 m n (dir : ptr) w xs : Prop := {
  dh_rep : dirrep m n dir w xs;
  dh_idle : idle xs;
  dh_lock : d_lock w = false;
  dh_wname : d_name w ≠ NULL;
  dh_plain : Forall (λ x : ptr * dentry_t, d_count x.2 = 1 ∧ d_inode x.2 = NULL) xs;
  dh_ptrs : NoDup (name_ptrs xs);
  dh_m q : q ≠ dir -> q ∉ addrs xs -> m !! q = m0 !! q;
  dh_m0 q : q ∈ addrs xs -> m0 !! q = None;
  dh_n q : q ∉ name_ptrs xs -> n !! q = n0 !! q;
  dh_n0 q : q ∈ name_ptrs xs -> n0 !! q = None;
}.

(** *** The heap of names and entries *)

Lemma wp_kmalloc_name s m n t nm (Q : ptr -> vfs D -> Prop) :
  Q NULL (at_ s m n (S t)) ->
  (∀ p, p ≠ NULL -> m !! p = None -> n !! p = None -> Q p (at_ s m (<[p := nm]> n) (S t))) ->
  wp (kmalloc nm) (at_ s m n t) Q.
Proof.
  intros H1 H2. apply wp_kmalloc; [done|]. intros p Hv Hf _. simpl in Hf. apply H2; [by apply valid_ptr_nonnull|..];
    apply not_elem_of_dom; set_solver.
Qed.

Lemma wp_kmalloc_dentry s m n t v (Q : ptr -> vfs D -> Prop) :
  Q NULL (at_ s m n (S t)) ->
  (∀ p, p ≠ NULL -> m !! p = None -> n !! p = None -> Q p (at_ s (<[p := v]> m) n (S t))) ->
  wp (kmalloc v) (at_ s m n t) Q.
Proof.
  intros H1 H2. apply wp_kmalloc; [done|]. intros p Hv Hf _. simpl in Hf. apply H2; [by apply valid_ptr_nonnull|..];
    apply not_elem_of_dom; set_solver.
Qed.

Lemma wp_kfree_name s m n t p nm (Q : unit -> vfs D -> Prop) :
  p ≠ NULL -> n !! p = Some nm -> Q tt (at_ s m (delete p n) t) -> wp (kfree (list Z) p) (at_ s m n t) Q.
Proof. intros. by eapply wp_kfree. Qed.

Lemma wp_kfree_dentry s m n t p v (Q : unit -> vfs D -> Prop) :
  p ≠ NULL -> m !! p = Some v -> Q tt (at_ s (delete p m) n t) -> wp (kfree dentry_t p) (at_ s m n t) Q.
Proof. intros. by eapply wp_kfree. Qed.
End dir.

(** *** Entries that are in no list *)

Section single.
Context {D : Type} {KM : Kmalloc} {DR : Drivers D} {IC : Icache D}.
Implicit Types (s : vfs D) (m : gmap ptr dentry_t) (n : gmap ptr (list Z)) (v w d c : dentry_t) (xs ys : list (ptr * dentry_t)).

(** The end of [dfree]: no inode, the name and the entry are freed. *)
Lemma wp_dfree_tail s m n t dp c nm (Q : unit -> vfs D -> Prop) :
  dp ≠ NULL -> m !! dp = Some c -> d_lock c = true -> d_inode c = NULL -> d_name c ≠ NULL -> n !! d_name c = Some nm ->
  Q tt (at_ s (delete dp m) (delete (d_name c) n) t) ->
  wp (v ← load (V := dentry_t) dp;
      when_ptr (d_inode v) (b ← iislocked (d_inode v); when (negb b) (ilock (d_inode v));; idel_alias (d_inode v) dp;; mret tt);;
      when_ptr (d_name v) (kfree (list Z) (d_name v));; dunlock dp;; kfree dentry_t dp) (at_ s m n t) Q.
Proof.
  intros Hdp Hc Hl Hi Hn Hnm HQ. do 2 d_step. rewrite Hi. unfold when_ptr. rewrite (decide_False (P := NULL ≠ NULL)) by tauto. repeat d_step.
  rewrite decide_True by done. eapply wp_kfree_name; [done|done|]. repeat d_step.
  eapply (wp_kfree_dentry _ _ _ _ _ (d_set_lock false c)); [done|by rewrite lookup_alter_eq, Hc|].
  replace (delete dp (alter _ dp m)) with (delete dp m); [done|].
  apply map_eq. intros q. destruct (decide (q = dp)) as [->|Hne]; [by rewrite !lookup_delete_eq|].
  by rewrite !lookup_delete_ne, lookup_alter_ne.
Qed.

Lemma wp_dfree_single s m n t dp c nm (Q : unit -> vfs D -> Prop) :
  dp ≠ NULL -> m !! dp = Some c -> d_lock c = true ->
  d_prev c = NULL -> d_next c = NULL -> d_parent c = NULL -> d_inode c = NULL -> d_name c ≠ NULL -> n !! d_name c = Some nm ->
  Q tt (at_ s (delete dp m) (delete (d_name c) n) t) -> wp (dfree dp) (at_ s m n t) Q.
Proof.
  intros Hdp Hc Hl H1 H2 H3 Hi Hn Hnm HQ. unfold dfree, dunbind. repeat d_step. rewrite H1, H2, H3. unfold when_ptr at 1 2 3.
  rewrite !(decide_False (P := NULL ≠ NULL)) by tauto. repeat d_step. by eapply wp_dfree_tail.
Qed.
End single.

Section make.
Context {D : Type} {KM : Kmalloc} {DR : Drivers D} {IC : Icache D}.
Implicit Types (s : vfs D) (m : gmap ptr dentry_t) (n : gmap ptr (list Z)) (v w d c : dentry_t) (xs ys : list (ptr * dentry_t)).

Lemma dirheap_dir m0 n0 m n dir w xs : dirheap m0 n0 m n dir w xs -> dir ≠ NULL ∧ m !! dir = Some w ∧ d_lock w = false.
Proof. intros Hd. split; [apply Hd|]. split; [apply Hd|apply Hd]. Qed.

(** A fresh pointer is not a child. *)
Lemma dirheap_fresh m0 n0 m n dir w xs p :
  dirheap m0 n0 m n dir w xs -> m !! p = None -> p ≠ dir ∧ p ∉ addrs xs ∧ m0 !! p = None.
Proof.
  intros Hd Hp. assert (p ≠ dir) as H1. { intros ->. destruct (dirheap_dir _ _ _ _ _ _ _ Hd) as (_ & H & _). congruence. }
  assert (p ∉ addrs xs) as H2.
  { intros ([q d] & -> & Hin)%list_elem_of_fmap. destruct (dll_in_heap m _ _ xs q d (dr_list _ _ _ _ _ (dh_rep _ _ _ _ _ _ _ Hd)) Hin) as [_ [v Hv]].
    simpl in Hp. congruence. }
  split; [done|]. split; [done|]. by rewrite <- (dh_m _ _ _ _ _ _ _ Hd) by done.
Qed.

Lemma dirheap_fresh_name m0 n0 m n dir w xs p :
  dirheap m0 n0 m n dir w xs -> n !! p = None -> p ∉ ((λ x : ptr * dentry_t, d_name x.2) <$> xs) ∧ n0 !! p = None.
Proof.
  intros Hd Hp. assert (p ∉ ((λ x : ptr * dentry_t, d_name x.2) <$> xs)) as H1.
  { intros ([q d] & -> & Hin)%list_elem_of_fmap. pose proof (dr_kids _ _ _ _ _ (dh_rep _ _ _ _ _ _ _ Hd)) as Hk.
    rewrite Forall_forall in Hk. destruct (ko_name _ _ _ (Hk _ Hin)) as [nm Hnm]. simpl in *. congruence. }
  split; [done|]. by rewrite <- (dh_n _ _ _ _ _ _ _ Hd) by done.
Qed.

(** The directory after a new child [dp] with the name [nm] at [np] was bound. *)
Definition new_entry (np dir : ptr) : dentry_t := Dentry np 0 NULL 1 NULL NULL NULL NULL NULL dir NULL false.

Lemma dirheap_make m0 n0 m n dir w xs np nm dp :
  dirheap m0 n0 m n dir w xs -> nm ∉ names_of n xs -> np ≠ NULL -> n !! np = None -> dp ≠ NULL -> m !! dp = None ->
  let c := new_entry np dir in
  dirheap m0 n0 (alter (add_child dp xs) dir (link dp c (last_or NULL xs) NULL m)) (<[np := nm]> n) dir
    (add_child dp xs w) (xs ++ [(dp, c)]) ∧ names_of (<[np := nm]> n) (xs ++ [(dp, c)]) = names_of n xs ++ [nm].
Proof.
  intros Hd Hnew Hnp Hnf Hdp Hdf c. destruct (dirheap_fresh _ _ _ _ _ _ _ _ Hd Hdf) as (Hpd & Hpx & Hp0).
  destruct (dirheap_fresh_name _ _ _ _ _ _ _ _ Hd Hnf) as [Hnx Hn0].
  assert (dirrep m (<[np := nm]> n) dir w xs) as Hr.
  { eapply dirrep_frame; [apply Hd|done|]. intros q Hq. apply lookup_insert_ne. congruence. }
  assert (names_of (<[np := nm]> n) xs = names_of n xs) as En.
  { apply names_of_ext. intros q Hq. apply lookup_insert_ne. congruence. }
  assert (name_of (<[np := nm]> n) c = nm) as Ec by (unfold name_of; simpl; by rewrite lookup_insert_eq).
  split; [|unfold names_of; rewrite fmap_app; simpl; rewrite Ec; f_equal; exact En].
  split.
  - apply dirrep_link; [done..| |by rewrite Ec, En]. split; [done|done|]. simpl. rewrite lookup_insert_eq. eauto.
  - apply Forall_app. split; [apply Hd|]. by apply Forall_cons.
  - destruct Hd. by destruct xs.
  - destruct Hd. by destruct xs.
  - apply Forall_app. split; [apply Hd|]. by apply Forall_cons.
  - rewrite fmap_app. apply NoDup_app. split; [apply Hd|]. split; [|apply NoDup_singleton]. intros q Hq ->%list_elem_of_singleton. done.
  - intros q Hqd Hqx. rewrite lookup_alter_ne by done.
    rewrite (link_outside m (d_child w) (last_or NULL xs) xs dp c [] q); [|rewrite app_nil_r; apply Hd|done].
    apply (dh_m _ _ _ _ _ _ _ Hd); [done|]. intros H. apply Hqx. rewrite fmap_app, elem_of_app. by left.
  - intros q. rewrite fmap_app, elem_of_app. intros [Hq| ->%list_elem_of_singleton]; [by apply (dh_m0 _ _ _ _ _ _ _ Hd)|done].
  - intros q. rewrite fmap_app, not_elem_of_app. simpl. intros [Hq Hq2]. rewrite lookup_insert_ne by (intros <-; apply Hq2; left).
    by apply (dh_n _ _ _ _ _ _ _ Hd).
  - intros q. rewrite fmap_app, elem_of_app. simpl. intros [Hq| ->%list_elem_of_singleton]; [by apply (dh_n0 _ _ _ _ _ _ _ Hd)|done].
Qed.
End make.

Section runs.
Context {D : Type} {KM : Kmalloc} {DR : Drivers D} {IC : Icache D}.
Implicit Types (s : vfs D) (m : gmap ptr dentry_t) (n : gmap ptr (list Z)) (v w d c : dentry_t) (xs ys : list (ptr * dentry_t)).

Lemma dirrep_locked m n dir w xs :
  dirrep m n dir w xs -> dirrep (alter (d_set_lock true) dir m) n dir (d_set_lock true w) xs.
Proof. intros. by apply dirrep_dir. Qed.

(** [dbind] of the new entry, on the directory locked by the caller, and the
    unlocking of both. *)
Lemma make_map m dir w xs np dp :
  m !! dir = Some w -> d_lock w = false -> dp ≠ dir -> m !! dp = None -> dir ∉ addrs xs -> dp ∉ addrs xs -> (xs = [] ∨ last_or NULL xs ∈ addrs xs) ->
  alter (d_set_lock false) dp (alter (d_set_lock false) dir (alter (add_child dp xs) dir
    (link dp (d_set_parent dir (Dentry np 0 NULL 1 NULL NULL NULL NULL NULL NULL NULL true)) (last_or NULL xs) NULL
      (alter (d_set_lock true) dp (<[dp := Dentry np 0 NULL 1 NULL NULL NULL NULL NULL NULL NULL false]>
        (alter (d_set_lock true) dir m)))))) =
  alter (add_child dp xs) dir (link dp (new_entry np dir) (last_or NULL xs) NULL m).
Proof.
  intros Hw Hl Hne Hf Hdx Hpx Hlast. unfold link, put_prev, put_next. rewrite !(decide_True (P := NULL = NULL)) by done.
  assert (∀ u, d_lock u = false -> d_set_lock false (add_child dp xs (d_set_lock true u)) = add_child dp xs u) as Ha.
  { intros u Hu. destruct u, xs; simpl in *; by subst. }
  destruct (decide (last_or NULL xs = NULL)) as [E|E].
  - map_cases; [done|by rewrite Ha|done].
  - assert (last_or NULL xs ≠ dir ∧ last_or NULL xs ≠ dp) as [E1 E2].
    { destruct Hlast as [->|Hin]; [done|]. split; congruence. }
    map_cases; [done|by rewrite Ha|done|done].
Qed.

Lemma wp_dir_make m0 n0 s m n t dir w xs nm (Q : Z -> vfs D -> Prop) :
  dirheap m0 n0 m n dir w xs ->
  (∀ r w' m' n' t' xs', dirheap m0 n0 m' n' dir w' xs' -> dir_spec (Make nm) (names_of n xs) r (names_of n' xs') ->
     Q r (at_ s m' n' t')) ->
  wp (dir_run dir (Make nm)) (at_ s m n t) Q.
Proof.
  intros Hd HQ. destruct (dirheap_dir _ _ _ _ _ _ _ Hd) as (Hdn & Hdv & Hdl).
  assert (∀ n' t' r, n' = n -> dir_spec (Make nm) (names_of n xs) r (names_of n xs) -> Q r (at_ s m n' t')) as Hsame.
  { intros n' t' r -> Hsp. by eapply HQ. }
  unfold dir_run. d_step. d_step. d_step. unfold dmkdentry. d_step. d_step. cbn [negb]. d_step. cbn [dalloc negb].
  d_step. apply wp_kmalloc_name.
  { rewrite decide_True by done. d_step. rewrite decide_True by done. d_step. d_step. d_step. rewrite decide_True by done. d_step.
    rewrite (relock_id _ _ _ Hdv Hdl). apply Hsame; [done|constructor]. }
  intros np Hnp Hmnp Hnnp. rewrite decide_False by done. d_step. apply wp_kmalloc_dentry.
  { rewrite decide_True by done. d_step. eapply wp_kfree_name; [done|by rewrite lookup_insert_eq|]. d_step. rewrite decide_True by done. d_step. d_step. d_step. rewrite decide_True by done. d_step.
    rewrite (relock_id _ _ _ Hdv Hdl). apply Hsame; [by apply delete_insert_id|constructor]. }
  intros dp Hdp Hmdp Hndp. rewrite decide_False by done.
  assert (m !! dp = None) as Hf. { apply not_elem_of_dom. apply not_elem_of_dom in Hmdp. by rewrite dom_alter_L in Hmdp. }
  destruct (dirheap_fresh _ _ _ _ _ _ _ _ Hd Hf) as (Hpd & Hpx & _).
  pose proof (dirrep_locked _ _ _ _ _ (dh_rep _ _ _ _ _ _ _ Hd)) as Hr1.
  destruct (dirheap_fresh_name _ _ _ _ _ _ _ _ Hd Hnnp) as [Hnx _].
  set (c1 := Dentry np 0 NULL 1 NULL NULL NULL NULL NULL NULL NULL true).
  set (m1 := alter (d_set_lock true) dp (<[dp := Dentry np 0 NULL 1 NULL NULL NULL NULL NULL NULL NULL false]> (alter (d_set_lock true) dir m))).
  assert (names_of (<[np := nm]> n) xs = names_of n xs) as En.
  { apply names_of_ext. intros q Hq. apply lookup_insert_ne. congruence. }
  assert (dirrep m1 (<[np := nm]> n) dir (d_set_lock true w) xs) as Hr.
  { eapply dirrep_frame; [exact Hr1| |].
    - intros q Hq. unfold m1. rewrite lookup_alter_ne, lookup_insert_ne; [done|..]; intros <-; by destruct Hq.
    - intros q Hq. apply lookup_insert_ne. congruence. }
  d_step. d_step. d_step. rewrite decide_False by tauto. fold m1. d_step.
  eapply (wp_dbind _ dir (d_set_lock true w) xs dp c1 nm); rewrite ?dm_at, ?names_at; rewrite ?En;
    [exact Hr|apply Hd|done|apply Hd|done|done|done|by unfold m1; dlk|done|done|done|done|by rewrite lookup_insert_eq|..].
  - intros Hin. rewrite decide_True by done. d_step. eapply (wp_dfree_single _ _ _ _ dp c1); [done|by unfold m1; dlk|done..|by rewrite lookup_insert_eq|].
    d_step. d_step. eapply wp_dunlock; [done|rewrite dm_at, lookup_delete_ne by done; by unfold m1; dlk|done|].
    rewrite dm_at, set_dentries_at, decide_True by done. d_step.
    replace (alter (d_set_lock false) dir (delete dp m1)) with m; [apply Hsame; [by apply delete_insert_id|by constructor]|].
    unfold m1. map_cases; [|done|done]. f_equal. destruct w; simpl in *; by subst.
  - intros Hni. rewrite decide_False by tauto. d_step. d_step.
    destruct (dirheap_make _ _ _ _ _ _ _ np nm dp Hd Hni Hnp Hnnp Hdp Hf) as [Hd' En'].
    pose proof (dirrep_link _ _ _ _ _ dp (d_set_parent dir c1) Hr Hdp Hpd Hpx) as Hrl.
    assert (name_of (<[np := nm]> n) (d_set_parent dir c1) = nm) as Ec by (unfold name_of; simpl; by rewrite lookup_insert_eq).
    rewrite Ec, En in Hrl. specialize (Hrl ltac:(split; [done|done|simpl; rewrite lookup_insert_eq; eauto]) Hni).
    eapply wp_dunlock; [done|rewrite ?set_dentries_at, ?dm_at; apply (dr_dir _ _ _ _ _ Hrl)|by destruct xs|].
    rewrite ?set_dentries_at, ?dm_at, decide_False by tauto. d_step.
    eapply wp_dunlock; [done|rewrite ?set_dentries_at, ?dm_at, !lookup_alter_ne by done; apply lookup_insert_eq|done|].
    rewrite ?set_dentries_at, ?dm_at. unfold m1, c1. rewrite (make_map m dir w xs np dp); [|done|done|done|done|apply Hd|done|].
    + d_step. eapply HQ; [exact Hd'|]. rewrite En'. by constructor.
    + destruct (decide (xs = [])) as [->|Hne]; [by left|right]. by apply last_or_in.
Qed.

(** A lookup, up to the unlocking of the directory. *)
Lemma wp_find m0 n0 s m n t dir w xs nm {A} (k : Z * option ptr -> M (vfs D) A) (Q : A -> vfs D -> Prop) :
  dirheap m0 n0 m n dir w xs -> nm ≠ str_dot -> nm ≠ str_dotdot ->
  (nm ∉ names_of n xs -> wp (k (- ENOENT, None)) (at_ s m n t) Q) ->
  (∀ ys1 p d ys2, xs = ys1 ++ (p, d) :: ys2 -> name_of n d = nm -> p ≠ NULL -> p ≠ dir ->
     m !! p = Some (d_mk (last_or NULL ys1) d (hd_or NULL ys2)) -> d_lock d = false ->
     wp (k (0, Some p)) (at_ s (alter taken p m) n t) Q) ->
  wp (dlock dir;; r ← dlookup dir (Some nm) true; dunlock dir;; k r) (at_ s m n t) Q.
Proof.
  intros Hd H1 H2 HQ1 HQ2. destruct (dirheap_dir _ _ _ _ _ _ _ Hd) as (Hdn & Hdv & Hdl). d_step. d_step. d_step.
  eapply (wp_dlookup _ dir (d_set_lock true w) xs); rewrite ?dm_at, ?names_at;
    [apply dirrep_locked, Hd|apply Hd|done|done|done|..].
  - intros Hni. d_step. d_step. rewrite (relock_id _ _ _ Hdv Hdl). by apply HQ1.
  - intros ys1 p d ys2 -> Hn. destruct (dirrep_kid _ _ _ _ _ _ _ _ (dh_rep _ _ _ _ _ _ _ Hd)) as (Hp & Hv & Hk & Hpd).
    assert (d_lock d = false) as Hl by (eapply idle_mid; apply Hd).
    d_step. d_step. replace (alter (d_set_lock false) dir _) with (alter taken p m); [by eapply HQ2|].
    map_cases; try done. f_equal. destruct w; simpl in *; by subst.
Qed.

Lemma wp_dir_find m0 n0 s m n t dir w xs nm (Q : Z -> vfs D -> Prop) :
  dirheap m0 n0 m n dir w xs -> nm ≠ str_dot -> nm ≠ str_dotdot ->
  (∀ r, dir_spec (Find nm) (names_of n xs) r (names_of n xs) -> Q r (at_ s m n t)) ->
  wp (dir_run dir (Find nm)) (at_ s m n t) Q.
Proof.
  intros Hd H1 H2 HQ.
  eapply (wp_find _ _ _ _ _ _ _ _ _ _ (λ r, match r.2 with Some dp => dclose dp;; mret r.1 | None => mret r.1 end));
    [done..| |].
  - intros Hni. cbn [snd fst]. wp_step. apply HQ. by constructor.
  - intros ys1 p d ys2 -> Hn Hp Hpd Hv Hl. cbn [snd fst]. unfold dclose, dislocked, dput, dget_count. repeat d_step. cbn [negb when d_lock taken d_set_count d_set_lock d_mk].
    repeat d_step.
    assert (d_count d = 1) as Hc. { pose proof (dh_plain _ _ _ _ _ _ _ Hd) as [_ [[H _] _]%Forall_cons]%Forall_app. done. }
    simpl. rewrite decide_False by lia. repeat d_step.
    replace (alter _ p _) with m; [apply HQ; constructor; subst nm; unfold names_of; rewrite fmap_app, elem_of_app; right; simpl; left|].
    map_cases; [|done]. f_equal. destruct d; simpl in *; subst. done.
Qed.

(** The other children of a directory are idle. *)
Lemma kid_idle m n dir w xs p d ys q :
  dirrep m n dir w (xs ++ (p, d) :: ys) -> idle (xs ++ (p, d) :: ys) -> q ∈ addrs (xs ++ ys) ->
  q ≠ p ∧ q ≠ dir ∧ ∃ u, m !! q = Some u ∧ d_lock u = false.
Proof.
  intros Hr Hi Hq. destruct (dll_mid _ _ _ _ _ _ _ (dr_list _ _ _ _ _ Hr)) as (_ & Hpx & Hpy & _).
  assert (q ∈ addrs (xs ++ (p, d) :: ys)) as Hq'.
  { rewrite fmap_app, elem_of_app in *. simpl. rewrite elem_of_cons. tauto. }
  split; [rewrite fmap_app, elem_of_app in Hq; naive_solver|]. split; [intros ->; by apply (dr_out _ _ _ _ _ Hr)|].
  apply list_elem_of_fmap in Hq' as ([q' e] & -> & (l1 & l2 & E)%list_elem_of_split). rewrite E in Hr, Hi.
  destruct (dirrep_kid _ _ _ _ _ _ _ _ Hr) as (_ & Hv & _ & _). eexists. split; [exact Hv|]. exact (idle_mid _ _ _ _ Hi).
Qed.

(** The heap once a child was unbound and freed. *)
Lemma dirheap_drop m0 n0 m m2 n dir w xs p d d2 ys :
  dirheap m0 n0 m n dir w (xs ++ (p, d) :: ys) -> dirrep m2 n dir w (xs ++ (p, d2) :: ys) ->
  d_name d2 = d_name d -> (∀ q, q ≠ p -> m2 !! q = m !! q) ->
  let prev := last_or NULL xs in let next := hd_or NULL ys in
  dirheap m0 n0 (delete p (alter (fix_child p prev next) dir (alter cleared p (unlink p prev next m2)))) (delete (d_name d) n) dir
    (fix_child p prev next w) (xs ++ ys) ∧ names_of (delete (d_name d) n) (xs ++ ys) = names_of n (xs ++ ys).
Proof.
  intros Hd Hr Hn Hm2 prev next. subst prev next. pose proof (dirrep_unlink _ _ _ _ _ _ _ _ Hr) as Hu. cbv zeta in Hu.
  destruct (dirrep_kid _ _ _ _ _ _ _ _ Hr) as (Hp & _ & _ & Hpd). destruct (dll_mid _ _ _ _ _ _ _ (dr_list _ _ _ _ _ Hr)) as (_ & Hpx & Hpy & _).
  assert (p ∉ addrs (xs ++ ys)) as Hpo by (rewrite fmap_app; apply not_elem_of_app; done).
  pose proof (dh_ptrs _ _ _ _ _ _ _ Hd) as Hnd. rewrite fmap_app in Hnd. simpl in Hnd.
  apply NoDup_app in Hnd as (N1 & N2 & [N3 N4]%NoDup_cons).
  assert (d_name d ∉ ((λ x : ptr * dentry_t, d_name x.2) <$> (xs ++ ys))) as Hno.
  { rewrite fmap_app. apply not_elem_of_app. split; [|done]. intros H. apply (N2 _ H). left. }
  split.
  - split.
    + eapply dirrep_frame; [exact Hu| |].
      * intros q Hq. apply lookup_delete_ne. intros <-. by destruct Hq.
      * intros q Hq. apply lookup_delete_ne. congruence.
    + destruct Hd as [_ Hi _ _ _ _ _ _ _ _]. apply Forall_app in Hi as [I1 [_ I2]%Forall_cons]. by apply Forall_app.
    + unfold fix_child. pose proof (dh_lock _ _ _ _ _ _ _ Hd). by case_decide.
    + unfold fix_child. pose proof (dh_wname _ _ _ _ _ _ _ Hd). by case_decide.
    + destruct Hd as [_ _ _ _ Hi _ _ _ _ _]. apply Forall_app in Hi as [I1 [_ I2]%Forall_cons]. by apply Forall_app.
    + rewrite fmap_app. apply NoDup_app. split; [done|]. split; [|done]. intros q Hq Hq2. apply (N2 q Hq). by right.
    + intros q Hqd Hqx. destruct (decide (q = p)) as [->|Hqp].
      { rewrite lookup_delete_eq. symmetry. apply (dh_m0 _ _ _ _ _ _ _ Hd). rewrite fmap_app, elem_of_app. right. simpl. left. }
      rewrite lookup_delete_ne, !lookup_alter_ne by done.
      rewrite (unlink_outside m2 _ _ xs p d2 ys q (dr_list _ _ _ _ _ Hr)), Hm2 by done.
      apply (dh_m _ _ _ _ _ _ _ Hd); [done|]. rewrite fmap_app in *. simpl. set_solver.
    + intros q Hq. apply (dh_m0 _ _ _ _ _ _ _ Hd). rewrite fmap_app in *. simpl. set_solver.
    + intros q Hq. destruct (decide (q = d_name d)) as [->|Hqp].
      { rewrite lookup_delete_eq. symmetry. apply (dh_n0 _ _ _ _ _ _ _ Hd). rewrite fmap_app, elem_of_app. right. simpl. left. }
      rewrite lookup_delete_ne by done. apply (dh_n _ _ _ _ _ _ _ Hd). rewrite fmap_app in *. simpl. set_solver.
    + intros q Hq. apply (dh_n0 _ _ _ _ _ _ _ Hd). rewrite fmap_app in *. simpl. set_solver.
  - apply names_of_ext. intros q Hq. apply lookup_delete_ne. congruence.
Qed.

Lemma wp_dir_drop m0 n0 s m n t dir w xs nm (Q : Z -> vfs D -> Prop) :
  dirheap m0 n0 m n dir w xs -> nm ≠ str_dot -> nm ≠ str_dotdot ->
  (∀ r w' m' n' xs', dirheap m0 n0 m' n' dir w' xs' -> dir_spec (Drop nm) (names_of n xs) r (names_of n' xs') ->
     Q r (at_ s m' n' t)) ->
  wp (dir_run dir (Drop nm)) (at_ s m n t) Q.
Proof.
  intros Hd H1 H2 HQ. destruct (dirheap_dir _ _ _ _ _ _ _ Hd) as (Hdn & Hdv & Hdl).
  eapply (wp_find _ _ _ _ _ _ _ _ _ _ (λ r, match r.2 with Some dp => dput dp;; dclose dp;; mret r.1 | None => mret r.1 end));
    [done..| |].
  - intros Hni. cbn [snd fst]. wp_step. eapply HQ; [done|]. by constructor.
  - intros ys1 p d ys2 -> Hn Hp Hpd Hv Hl. cbn [snd fst]. unfold dclose, dislocked, dput, dget_count. repeat d_step.
    cbn [negb when d_lock taken d_set_count d_set_lock d_mk]. repeat d_step.
    pose proof (dh_plain _ _ _ _ _ _ _ Hd) as [_ [[Hc Hi] _]%Forall_cons]%Forall_app. simpl in Hc, Hi.
    simpl. rewrite decide_True by lia.
    pose (g := λ v, d_set_count (d_count v + 1 - 1 - 1) (d_set_lock true v)).
    replace (alter _ p (alter _ p _)) with (alter g p m) by (map_cases; done).
    assert (dirrep (alter g p m) n dir w (ys1 ++ (p, g d) :: ys2)) as Hr by (apply dirrep_payload; [apply Hd|done..]).
    destruct (dirheap_drop _ _ _ (alter g p m) _ _ _ _ _ _ (g d) _ Hd Hr eq_refl) as [Hd' En].
    { intros q Hq. by apply lookup_alter_ne. }
    pose proof (dirrep_unlink _ _ _ _ _ _ _ _ Hr) as Hu. cbv zeta in Hu.
    assert (∀ q, q ∈ addrs (ys1 ++ ys2) -> q ≠ p ∧ q ≠ dir ∧ ∃ u, alter g p m !! q = Some u ∧ d_lock u = false) as Hnb.
    { intros q Hq. destruct (kid_idle _ _ _ _ _ _ _ _ q (dh_rep _ _ _ _ _ _ _ Hd) (dh_idle _ _ _ _ _ _ _ Hd) Hq) as (Hqp & Hqd & u & Hu1 & Hu2).
      split; [done|]. split; [done|]. exists u. by rewrite lookup_alter_ne. }
    assert (last_or NULL ys1 ≠ NULL -> last_or NULL ys1 ∈ addrs (ys1 ++ ys2)) as Hpv.
    { intros H. rewrite fmap_app, elem_of_app. left. apply last_or_in. by intros ->. }
    assert (hd_or NULL ys2 ≠ NULL -> hd_or NULL ys2 ∈ addrs (ys1 ++ ys2)) as Hnx.
    { intros H. rewrite fmap_app, elem_of_app. right. apply hd_or_in. by intros ->. }
    assert (∀ q, (q ≠ NULL -> q ∈ addrs (ys1 ++ ys2)) -> dir ≠ q) as Hdq.
    { intros q Hq E. subst q. destruct (Hnb dir (Hq Hdn)) as (_ & H & _). done. }
    unfold dfree. d_step. d_step. d_step.
    eapply (wp_dunbind _ p (g (d_mk (last_or NULL ys1) d (hd_or NULL ys2))) (last_or NULL ys1) (hd_or NULL ys2) dir w);
      rewrite ?dm_at; [done|by dlk|done|done|done| | | | |done|done|by apply Hdq|by apply Hdq|by dlk|done|].
    + apply (ko_parent _ _ _ (proj1 (proj2 (proj2 (dirrep_kid _ _ _ _ _ _ _ _ Hr))))).
    + intros H. destruct (Hnb _ (Hpv H)) as (? & _ & ?). done.
    + intros H. destruct (Hnb _ (Hnx H)) as (? & _ & ?). done.
    + intros H E. by destruct (dll_neighbours_ne _ _ _ _ _ _ (dr_list _ _ _ _ _ Hr)).
    + rewrite set_dentries_at. eapply (wp_dfree_tail _ _ _ _ p (cleared (g (d_mk (last_or NULL ys1) d (hd_or NULL ys2)))));
        [done| |done|done|apply (ko_nonnull _ _ _ (proj1 (proj2 (proj2 (dirrep_kid _ _ _ _ _ _ _ _ Hr)))))| |].
      * rewrite lookup_alter_ne by done. rewrite lookup_alter_eq.
        rewrite (unlink_outside _ _ _ _ _ _ _ p (dr_list _ _ _ _ _ Hr)) by (intros H; by destruct (Hnb p H)). by dlk.
      * apply (kid_name _ _ _ (proj1 (proj2 (proj2 (dirrep_kid _ _ _ _ _ _ _ _ Hr))))).
      * d_step. refine (HQ _ _ _ _ _ Hd' _). rewrite En. unfold names_of. rewrite !fmap_app. simpl. rewrite Hn. constructor.
Qed.

(** C34. A directory is a set of names: every sequence of makings, lookups and
    droppings of entries (under names other than "." and "..") returns with the
    results of adding, testing and removing names, a making failing only when
    the name is there or memory runs out; the entries stay a well-linked list,
    and outside the directory and its children the heap is what it was. *)
Theorem directory_refines_names m0 n0 s dir w xs os :
  dirheap m0 n0 (v_dentries s) (v_names s) dir w xs ->
  Forall (λ o, op_name o ≠ str_dot ∧ op_name o ≠ str_dotdot) os ->
  wp (dir_runs dir os) s (λ rs s', ∃ w' xs', dirheap m0 n0 (v_dentries s') (v_names s') dir w' xs' ∧
    dir_specs os (names_of (v_names s) xs) rs (names_of (v_names s') xs')).
Proof.
  intros Hd Hos. enough (∀ m n t w xs, dirheap m0 n0 m n dir w xs -> wp (dir_runs dir os) (at_ s m n t)
    (λ rs s', ∃ w' xs', dirheap m0 n0 (v_dentries s') (v_names s') dir w' xs' ∧
       dir_specs os (names_of n xs) rs (names_of (v_names s') xs'))) as H.
  { specialize (H _ _ (v_ticks s) _ _ Hd). by rewrite <- at_id in H. }
  clear Hd w xs. induction Hos as [|o os [H1 H2] Hos IH]; intros m n t w xs Hd; simpl.
  { wp_step. exists w, xs. split; [done|constructor]. }
  wp_step. assert (∀ r w' m' n' t' xs', dirheap m0 n0 m' n' dir w' xs' -> dir_spec o (names_of n xs) r (names_of n' xs') ->
    wp (rs ← dir_runs dir os; mret (r :: rs)) (at_ s m' n' t')
      (λ rs s', ∃ w' xs', dirheap m0 n0 (v_dentries s') (v_names s') dir w' xs' ∧
         dir_specs (o :: os) (names_of n xs) rs (names_of (v_names s') xs'))) as Hnext.
  { intros r w' m' n' t' xs' Hd' Hsp. wp_step. eapply wp_mono; [by apply (IH m' n' t' w' xs')|].
    intros rs s' (w2 & xs2 & Hd2 & Hsp2). cbn beta. wp_step. exists w2, xs2. split; [done|]. by econstructor. }
  destruct o as [nm|nm|nm]; simpl in H1, H2.
  - by eapply wp_dir_make.
  - eapply wp_dir_find; [done..|]. intros r Hsp. by eapply Hnext.
  - eapply wp_dir_drop; [done..|]. intros r w' m' n' xs' Hd' Hsp. by eapply Hnext.
Qed.
End runs.

(** ** Examples *)

(** A system with one directory, "/" at 8 with its name at 4. *)
Definition root_dir : dentry_t := Dentry 4 0 NULL 1 NULL NULL NULL NULL NULL NULL NULL false.
Definition root_state : vfs unit :=
  Vfs {[4 := str_slash]} {[8 := root_dir]} ∅ ∅ ∅ ∅ ∅ ∅ (Thread NULL NULL false) tt 0.

Definition str_a : list Z := [97].
Definition str_b : list Z := [98].
Definition some_ops : list dir_op := [Make str_a; Make str_b; Make str_a; Find str_b; Drop str_a; Find str_a].

Lemma root_dirheap : dirheap {[8 := root_dir]} {[4 := str_slash]} (v_dentries root_state) (v_names root_state) 8 root_dir [].
Proof.
  split; try done; try apply NoDup_nil_2; try (intros q; by intros ?%elem_of_nil); [|apply Forall_nil_2].
  split; try done; first [apply dll_nil|apply not_elem_of_nil|apply Forall_nil_2|apply NoDup_nil_2].
Qed.

Lemma directory_refines_names_witness :
  wp (@dir_runs unit bump_kmalloc no_drivers 8 some_ops) root_state (λ rs s', ∃ w' xs',
    dirheap {[8 := root_dir]} {[4 := str_slash]} (v_dentries s') (v_names s') 8 w' xs' ∧
    dir_specs some_ops [] rs (names_of (v_names s') xs')).
Proof.
  apply (directory_refines_names _ _ root_state 8 root_dir [] some_ops root_dirheap). repeat constructor; done.
Defined.

Lemma some_ops_results :
  match @dir_runs unit bump_kmalloc no_drivers 8 some_ops root_state with
  | Ok rs _ => rs = [0; 0; - EEXIST; 0; 0; - ENOENT]
  | Stop _ => False
  end.
Proof. vm_compute. reflexivity. Qed.

(** Looking up ".." in a directory without a parent succeeds and stores nothing. *)
Lemma dotdot_of_root_stores_nothing :
  @dlookup unit 8 (Some str_dotdot) true (set_dentries {[8 := d_set_lock true root_dir]} root_state) =
  Ok (0, None) (set_dentries {[8 := d_set_lock true root_dir]} root_state).
Proof. vm_compute. reflexivity. Qed.

(** A dentry that names an inode is not freed when its only user closes it:
    the inode's list holds a reference that only [dfree] could give back. *)
Definition alias_state : vfs unit :=
  Vfs ∅ ∅ {[16 := file_7 420]} ∅ ∅ ∅ ∅ ∅ (Thread NULL NULL false) tt 0.
Lemma aliased_dentry_is_kept :
  match (r ← @imkalias unit bump_kmalloc no_drivers 16 (Some str_a) true; @dclose unit no_drivers r.2;; mret r) alias_state with
  | Ok r s => r.1 = 0 ∧ (d_count <$> v_dentries s !! r.2) = Some 1
  | Stop _ => False
  end.
Proof. vm_compute. split; reflexivity. Qed.
