(* ===== verification/File.v ===== *)
(** * kernel/fs/file.c: open files

    An open file has an offset, flags, a reference count and the dentry it was
    opened through.  Most operations take the inode of that dentry, with its
    lock and one more reference, hand the work to inode.c and give both back;
    [with_inode] is that frame. *)

From S2P Require Import Prelude Dll Cond Lock Vfs Cred Inode Dentry.

(** struct fops_t: every entry may be absent. *)
Record fops (D : Type) := FOps {
  fo_feof : option (ptr -> M (vfs D) Z);
  fo_fsync : option (ptr -> M (vfs D) Z);
  fo_fclose : option (ptr -> M (vfs D) Z);
  fo_funlink : option (ptr -> M (vfs D) Z);
  fo_fgetattr : option (ptr -> ptr -> M (vfs D) Z);
  fo_fsetattr : option (ptr -> ptr -> M (vfs D) Z);
  fo_ftruncate : option (ptr -> Z -> M (vfs D) Z);
  fo_ffcntl : option (ptr -> Z -> ptr -> M (vfs D) Z);
  fo_fioctl : option (ptr -> Z -> ptr -> M (vfs D) Z);
  fo_flseek : option (ptr -> Z -> Z -> M (vfs D) Z);
  fo_fread : option (ptr -> Z -> M (vfs D) (Z * list Z));
  fo_fwrite : option (ptr -> list Z -> M (vfs D) Z);
  fo_fcreate : option (ptr -> list Z -> Z -> M (vfs D) Z);
  fo_freaddir : option (ptr -> Z -> ptr -> Z -> M (vfs D) Z);
  fo_flinkat : option (ptr -> list Z -> list Z -> M (vfs D) Z);
  fo_fstat : option (ptr -> bool -> M (vfs D) (Z * option stat));
  fo_fchown : option (ptr -> Z -> Z -> M (vfs D) Z);
}.
Arguments fo_feof {D}. Arguments fo_fsync {D}. Arguments fo_fclose {D}. Arguments fo_funlink {D}.
Arguments fo_fgetattr {D}. Arguments fo_fsetattr {D}. Arguments fo_ftruncate {D}. Arguments fo_ffcntl {D}.
Arguments fo_fioctl {D}. Arguments fo_flseek {D}. Arguments fo_fread {D}. Arguments fo_fwrite {D}.
Arguments fo_fcreate {D}. Arguments fo_freaddir {D}. Arguments fo_flinkat {D}. Arguments fo_fstat {D}.
Arguments fo_fchown {D}.

Class FileOps (D : Type) := { fops_at : ptr -> option (fops D) }.

Section file.
Context {D : Type} {KM : Kmalloc} {DR : Drivers D} {IC : Icache D} {FO : FileOps D}.
Abbreviation MV := (M (vfs D)).

Definition flock (f : ptr) : MV unit := obj_lock file_t f.
Definition funlock (f : ptr) : MV unit := obj_unlock file_t f.
Definition fislocked (f : ptr) : MV bool := obj_islocked file_t f.
Definition fassert_locked (f : ptr) : MV unit := obj_assert_locked file_t f.

(** The file comes locked. *)
Definition falloc : MV (Z * ptr) :=
  file ← kmalloc (File 0 0 1 NULL NULL false);
  if decide (file = NULL) then mret (- ENOMEM, NULL) else flock file;; mret (0, file).

Definition fdestroy (file : ptr) : MV unit :=
  if decide (file = NULL) then mret tt else
  b ← fislocked file;
  when (negb b) (flock file);;
  funlock file;;
  kfree file_t file.

Definition fdup (file : ptr) : MV Z :=
  if decide (file = NULL) then mret (- EINVAL) else
  fassert_locked file;; update file (λ v, f_set_refcnt (f_refcnt v + 1) v);; mret 0.
Definition fput (file : ptr) : MV Z :=
  if decide (file = NULL) then mret (- EINVAL) else
  fassert_locked file;; update file (λ v, f_set_refcnt (f_refcnt v - 1) v);; mret 0.

(** [if (file->fops != NULL && file->fops->op != NULL) return file->fops->op(...);] *)
Definition or_fop {F A} (file : ptr) (op : fops D -> option F) (call : F -> MV A) (generic : MV A) : MV A :=
  v ← load (V := file_t) file;
  if decide (f_fops v = NULL) then generic else
  match fops_at (f_fops v) with
  | Some t => match op t with Some f => call f | None => generic end
  | None => halt BadAccess
  end.

(** The inode of the file, locked and with one more reference; [err] is the
    result when there is none. *)
Definition with_inode {A} (file : ptr) (err : Z -> A) (body : ptr -> MV A) : MV A :=
  v ← load (V := file_t) file;
  if decide (f_dentry v = NULL) then mret (err (- ENOENT)) else
  dlock (f_dentry v);;
  d ← load (V := dentry_t) (f_dentry v);
  let inode := d_inode d in
  when_ptr inode (ilock inode;; idupcnt inode);;
  dunlock (f_dentry v);;
  if decide (inode = NULL) then mret (err (- ENOENT)) else
  r ← body inode;
  iputcnt inode;;
  iunlock inode;;
  mret r.

Definition feof (file : ptr) : MV Z :=
  fassert_locked file;;
  or_fop file fo_feof (λ f, f file) (with_inode file id (λ inode,
    n ← igetsize inode; v ← load (V := file_t) file; mret (if decide (f_off v >= n) then 1 else 0))).

Definition fclose (file : ptr) : MV Z :=
  fassert_locked file;;
  or_fop file fo_fclose (λ f, f file) (
    err ← fput file;
    if decide (err ≠ 0) then mret err else
    v ← load (V := file_t) file;
    if decide (f_refcnt v <= 0) then
      dlock (f_dentry v);; dclose (f_dentry v);; fdestroy file;; mret 0
    else funlock file;; mret 0).

Definition fsync (file : ptr) : MV Z :=
  fassert_locked file;; or_fop file fo_fsync (λ f, f file) (with_inode file id isync).
Definition funlink (file : ptr) : MV Z :=
  fassert_locked file;; or_fop file fo_funlink (λ f, f file) (with_inode file id iunlink).
Definition fgetattr (file attr : ptr) : MV Z :=
  fassert_locked file;; or_fop file fo_fgetattr (λ f, f file attr) (with_inode file id (λ ip, igetattr ip attr)).
Definition fsetattr (file attr : ptr) : MV Z :=
  fassert_locked file;; or_fop file fo_fsetattr (λ f, f file attr) (with_inode file id (λ ip, isetattr ip attr)).
(** The length is used only by a function of the file's own. *)
Definition ftruncate (file : ptr) (length : Z) : MV Z :=
  fassert_locked file;; or_fop file fo_ftruncate (λ f, f file length) (with_inode file id itruncate).
Definition ffcntl (file : ptr) (cmd : Z) (argp : ptr) : MV Z :=
  fassert_locked file;; or_fop file fo_ffcntl (λ f, f file cmd argp) (with_inode file id (λ ip, ifcntl ip cmd argp)).
Definition fioctl (file : ptr) (req : Z) (argp : ptr) : MV Z :=
  fassert_locked file;; or_fop file fo_fioctl (λ f, f file req argp) (with_inode file id (λ ip, iioctl ip req argp)).

(** Offsets are 64-bit unsigned, the errors among them. *)
Definition flseek (file : ptr) (off whence : Z) : MV Z :=
  fassert_locked file;;
  or_fop file fo_flseek (λ f, f file off whence) (with_inode file u64 (λ inode,
    i ← load (V := inode_t) inode;
    (if decide (whence = 0) then update file (f_set_off (u64 off)) else
     if decide (whence = 1) then update file (λ v, f_set_off (u64 (f_off v + off)) v) else
     if decide (whence = 2) then update file (f_set_off (u64 (i_size i + off))) else mret tt);;
    v ← load (V := file_t) file;
    mret (f_off v))).

(** [if (c) cond_broadcast(c);]: the threads woken and the run queues are not part of
    this state; there is room on the queues. *)
Definition broadcast (c : ptr) : MV unit :=
  if decide (c = NULL) then mret tt else
  v ← load (V := cond_t) c;
  match cond_broadcast true v with Some (_, v') => update c (λ _ : cond_t, v') | None => halt Panic end.

(** [cond_wait(c)]: the thread goes on when a signal is pending. *)
Definition wait (c : ptr) : MV unit :=
  v ← load (V := cond_t) c;
  let '(sleeps, v') := cond_wait 0 v in
  if sleeps : bool then halt Blocked else update c (λ _ : cond_t, v').

(** The loop always ends in its first pass: a result is positive, zero or
    negative, and the branches behind are never reached. *)
Definition fread (file : ptr) (size : Z) : MV (Z * list Z) :=
  fassert_locked file;;
  or_fop file fo_fread (λ f, f file size) (with_inode file (λ e, (e, [])) (λ inode,
    v ← load (V := file_t) file;
    r ← iread inode (f_off v) size;
    (if decide (r.1 > 0) then
       update file (λ v, f_set_off (u64 (f_off v + r.1)) v);;
       i ← load (V := inode_t) inode; broadcast (i_writers i)
     else mret tt);;
    mret r)).

(** Writing with O_NONBLOCK; the loop ends only by an error. *)
Fixpoint fwrite_nonblock (fuel : nat) (file inode : ptr) (buf : list Z) : MV Z :=
  match fuel with
  | O => halt OutOfFuel
  | S n =>
      v ← load (V := file_t) file;
      sz ← igetsize inode;
      if decide (u64 (f_off v + Z.of_nat (length buf)) < sz) then
        retval ← iwrite inode (f_off v) buf;
        if decide (retval >= 0) then
          update file (λ v, f_set_off (u64 (f_off v + retval)) v);;
          i ← load (V := inode_t) inode;
          broadcast (i_readers i);;
          fwrite_nonblock n file inode buf
        else mret retval
      else mret (- EAGAIN)
  end.

(** Writing without it; [buf] is what remains. *)
Fixpoint fwrite_block (fuel : nat) (file inode : ptr) (retval : Z) (buf : list Z) : MV Z :=
  if decide (buf = []) then mret retval else
  match fuel with
  | O => halt OutOfFuel
  | S n =>
      v ← load (V := file_t) file;
      written ← iwrite inode (f_off v) buf;
      if decide (written < 0) then mret (if decide (retval = 0) then written else retval) else
      let rest := drop (Z.to_nat written) buf in
      update file (λ v, f_set_off (u64 (f_off v + written)) v);;
      i ← load (V := inode_t) inode;
      let again := broadcast (i_readers i);; fwrite_block n file inode (retval + written) rest in
      if decide (rest ≠ []) then
        if decide (i_writers i ≠ NULL) then wait (i_writers i);; again else mret (retval + written)
      else again
  end.

Definition fwrite (fuel : nat) (file : ptr) (buf : list Z) : MV Z :=
  fassert_locked file;;
  or_fop file fo_fwrite (λ f, f file buf) (with_inode file id (λ inode,
    v ← load (V := file_t) file;
    if has (f_oflags v) O_NONBLOCK then fwrite_nonblock fuel file inode buf
    else fwrite_block fuel file inode 0 buf)).

Definition fcreate (dir : ptr) (pathname : list Z) (mode : Z) : MV Z :=
  fassert_locked dir;; or_fop dir fo_fcreate (λ f, f dir pathname mode) (with_inode dir id (λ ip, icreate ip pathname mode)).
(** The result passes through an [int]. *)
Definition freaddir (dir : ptr) (off : Z) (buf : ptr) (count : Z) : MV Z :=
  fassert_locked dir;;
  or_fop dir fo_freaddir (λ f, f dir off buf count) (with_inode dir id (λ ip, r ← ireaddir ip off buf count; mret (s32 r))).
Definition flinkat (dir : ptr) (oldname newname : list Z) : MV Z :=
  fassert_locked dir;; or_fop dir fo_flinkat (λ f, f dir oldname newname) (with_inode dir id (λ ip, ilink oldname ip newname)).
Definition file_stat (file : ptr) (buf : bool) : MV (Z * option stat) :=
  fassert_locked file;;
  or_fop file fo_fstat (λ f, f file buf) (with_inode file (λ e, (e, None)) (λ ip, istat ip buf)).
Definition file_chown (file : ptr) (owner group : Z) : MV Z :=
  fassert_locked file;; or_fop file fo_fchown (λ f, f file owner group) (with_inode file id (λ ip, ichown ip owner group)).
End file.

(** A write with [O_NONBLOCK] never reports success: the loop goes on after a
    successful write and ends with an error. *)
Lemma nonblocking_write_fails {D} {DR : Drivers D} {IC : Icache D} n file inode buf (s : vfs D) r s' :
  fwrite_nonblock n file inode buf s = Ok r s' -> r < 0.
Proof.
  revert s. induction n as [|n IH]; intros s H; [done|]. simpl in H. unfold mbind, M_bind in H.
  repeat (case_match; try done; simplify_eq); try (unfold mret, M_ret in *; simplify_eq; unfold EAGAIN; lia).
  all: by eapply IH.
Qed.
