(* ===== verification/FdTable.v ===== *)
(** * kernel/fs/sysfile.c and the descriptor tables of kernel/fs/file.c

    A process has a context with an array of pointers to open files, indexed by
    descriptor.  An entry of the array is a pointer or, in memory [kmalloc] has
    just handed out, nothing that may be read. *)

From S2P Require Import Prelude Dll Cond Lock Vfs Cred Inode Dentry File.

(** A read of the array. *)
Definition slot_get {D} (l : list (option ptr)) (i : Z) : M (vfs D) ptr :=
  if decide (i < 0) then halt BadAccess else
  match l !! Z.to_nat i with Some (Some p) => mret p | _ => halt BadAccess end.

Section fd.
Context {D : Type} {KM : Kmalloc} {DR : Drivers D} {IC : Icache D} {FO : FileOps D}.
Abbreviation MV := (M (vfs D)).
Abbreviation table := (list (option ptr)).

Definition fctx_lock (p : ptr) : MV unit := obj_lock file_ctx_t p.
Definition fctx_unlock (p : ptr) : MV unit := obj_unlock file_ctx_t p.
Definition fctx_islocked (p : ptr) : MV bool := obj_islocked file_ctx_t p.
Definition fctx_assert_locked (p : ptr) : MV unit := obj_assert_locked file_ctx_t p.

(** [current->t_fctx] *)
Definition cur_fctx : MV ptr := gets (λ s, t_fctx (v_cur s)).

(** [files[i]] and [files[i] = p] *)
Definition table_get (files : ptr) (i : Z) : MV ptr := l ← load (V := table) files; slot_get l i.
Definition table_set (files : ptr) (i : Z) (p : ptr) : MV unit :=
  l ← load (V := table) files;
  if decide (0 <= i < Z.of_nat (length l)) then update files (λ l : table, <[Z.to_nat i := Some p]> l) else halt BadAccess.

(** [krealloc(files, n * sizeof (file_t * ))] to a larger block: the new part
    is not initialised; a request of 2^63 bytes or more fails. *)
Definition table_grow (files : ptr) (n : Z) : MV ptr :=
  if decide (u64 (n * 8) >= 9223372036854775808) then mret NULL else
  l ← load (V := table) files;
  tmp ← kmalloc (l ++ replicate (Z.to_nat n - length l) None);
  if decide (tmp = NULL) then mret NULL else kfree table files;; mret tmp.

Definition file_get (fd : Z) (ref : bool) : MV (Z * ptr) :=
  if negb ref then mret (- EINVAL, NULL) else
  fctx ← cur_fctx;
  fctx_lock fctx;;
  c ← load (V := file_ctx_t) fctx;
  if decide (fc_files c = NULL ∨ fd < 0 ∨ fd >= fc_nfile c) then fctx_unlock fctx;; mret (- EBADFD, NULL) else
  file ← table_get (fc_files c) fd;
  if decide (file = NULL) then fctx_unlock fctx;; mret (- EBADFD, NULL) else
  flock file;;
  fctx_unlock fctx;;
  mret (0, file).

Definition file_free (fd : Z) : MV Z :=
  fctx ← cur_fctx;
  fctx_lock fctx;;
  c ← load (V := file_ctx_t) fctx;
  if decide (fc_files c = NULL ∨ fd < 0 ∨ fd >= fc_nfile c) then fctx_unlock fctx;; mret (- EBADFD) else
  table_set (fc_files c) fd NULL;;
  fctx_unlock fctx;;
  mret 0.

(** The first free entry at or behind [fd], or the length. *)
Fixpoint first_free (files : ptr) (n : nat) (fd : Z) : MV Z :=
  match n with
  | O => mret fd
  | S n => p ← table_get files fd; if decide (p = NULL) then mret fd else first_free files n (fd + 1)
  end.

(** The ends of [file_alloc]: no memory, and the search for a free entry. *)
Definition alloc_nomem (fctx file : ptr) : MV (Z * (Z * ptr)) :=
  fctx_unlock fctx;; fdestroy file;; mret (- ENOMEM, (0, NULL)).

Definition alloc_search (fctx file : ptr) : MV (Z * (Z * ptr)) :=
  c ← load (V := file_ctx_t) fctx;
  fd ← first_free (fc_files c) (Z.to_nat (fc_nfile c)) 0;
  if decide (fd < fc_nfile c) then
    table_set (fc_files c) fd file;; fctx_unlock fctx;; mret (0, (fd, file))
  else
  tmp ← table_grow (fc_files c) (s32 (fc_nfile c + 1));
  if decide (tmp = NULL) then alloc_nomem fctx file else
  table_set tmp fd file;;
  update fctx (fc_set_files tmp);;
  update fctx (λ c, fc_set_nfile (s32 (fc_nfile c + 1)) c);;
  fctx_unlock fctx;;
  mret (0, (fd, file)).

(** The file comes locked, in the first free entry. *)
Definition file_alloc (ref fref : bool) : MV (Z * (Z * ptr)) :=
  if negb (ref && fref) then mret (- EINVAL, (0, NULL)) else
  '(err, file) ← falloc;
  if decide (err ≠ 0) then mret (err, (0, NULL)) else
  fctx ← cur_fctx;
  fctx_lock fctx;;
  c ← load (V := file_ctx_t) fctx;
  if decide (fc_files c = NULL) then
    t ← kmalloc (V := table) [Some NULL];
    update fctx (fc_set_files t);;
    if decide (t = NULL) then alloc_nomem fctx file else
    update fctx (fc_set_nfile 1);; alloc_search fctx file
  else alloc_search fctx file.

Definition file_dup (fd1 fd2 : Z) : MV Z :=
  fctx ← cur_fctx;
  fctx_lock fctx;;
  c ← load (V := file_ctx_t) fctx;
  let bad : MV Z := fctx_unlock fctx;; mret (- EBADFD) in
  if decide (fc_files c = NULL) then bad else
  file ← table_get (fc_files c) fd1;
  if decide (file = NULL ∨ fd1 < 0 ∨ fd1 >= fc_nfile c) then bad else
  let fd2 := if decide (fd2 < 0) then fc_nfile c else fd2 in
  if decide (fd1 = fd2) then fctx_unlock fctx;; mret fd1 else
  let install : MV Z :=
    flock file;;
    err ← fdup file;
    if decide (err ≠ 0) then funlock file;; fctx_unlock fctx;; mret err else
    funlock file;;
    c ← load (V := file_ctx_t) fctx;
    table_set (fc_files c) fd2 file;;
    fctx_unlock fctx;;
    mret fd2 in
  if decide (fd2 > 0) then
    grown ← (if decide (fd2 >= fc_nfile c) then
      tmp ← table_grow (fc_files c) (s32 (fd2 + 1));
      if decide (tmp = NULL) then mret false else
      update tmp (λ l : table, take (Z.to_nat (fc_nfile c)) l ++ replicate (Z.to_nat (s32 (fd2 + 1) - fc_nfile c)) (Some NULL));;
      update fctx (fc_set_files tmp);;
      update fctx (fc_set_nfile (s32 (fd2 + 1)));;
      mret true
    else mret true);
    if negb grown then fctx_unlock fctx;; mret (- ENOMEM) else
    c ← load (V := file_ctx_t) fctx;
    old ← table_get (fc_files c) fd2;
    if decide (old = NULL) then install else
    flock old;;
    err ← fclose old;
    if decide (err ≠ 0) then funlock old;; fctx_unlock fctx;; mret err else
    table_set (fc_files c) fd2 NULL;;
    install
  else install.

Definition dup (fd : Z) : MV Z := file_dup fd (- 1).
Definition dup2 (fd1 fd2 : Z) : MV Z := file_dup fd1 fd2.

Definition close (fd : Z) : MV Z :=
  '(err, file) ← file_get fd true;
  if decide (err ≠ 0) then mret err else
  err ← fclose file;
  if decide (err ≠ 0) then funlock file;; mret err else file_free fd.

Fixpoint close_from (n : nat) (fd : Z) : MV unit :=
  match n with O => mret tt | S n => _ ← close fd; close_from n (fd + 1) end.

Definition file_close_all : MV unit :=
  fctx ← cur_fctx;
  fctx_lock fctx;;
  c ← load (V := file_ctx_t) fctx;
  let file_cnt := if decide (fc_files c ≠ NULL) then fc_nfile c else 0 in
  fctx_unlock fctx;;
  close_from (Z.to_nat file_cnt) 0.

(** The loop of [file_copy]: every open file gets one more reference; the
    entries of free descriptors are not written. *)
Fixpoint copy_files (n : nat) (dst src : ptr) (fd : Z) : MV unit :=
  match n with
  | O => mret tt
  | S n =>
      p ← table_get src fd;
      (if decide (p = NULL) then mret tt else
         flock p;; update p (λ v, f_set_refcnt (f_refcnt v + 1) v);; table_set dst fd p;; funlock p);;
      copy_files n dst src (fd + 1)
  end.

Definition file_copy (dst src : ptr) : MV Z :=
  if decide (dst = NULL ∨ src = NULL) then mret (- EINVAL) else
  fctx_assert_locked dst;;
  fctx_assert_locked src;;
  c ← load (V := file_ctx_t) src;
  let cwd := fc_cwd c in
  let root := fc_root c in
  if decide (cwd = NULL ∨ root = NULL) then mret (- EINVAL) else
  files ← (if decide (fc_nfile c ≠ 0) then kmalloc (V := table) (replicate (Z.to_nat (fc_nfile c)) None) else mret NULL);
  if decide (fc_nfile c ≠ 0 ∧ files = NULL) then mret (- ENOMEM) else
  dlock cwd;;
  (if decide (cwd ≠ root) then dlock root else mret tt);;
  d ← ddup cwd; update dst (fc_set_cwd d);;
  d ← ddup root; update dst (fc_set_root d);;
  (if decide (cwd ≠ root) then dunlock root else mret tt);;
  dunlock cwd;;
  update dst (fc_set_files files);;
  update dst (fc_set_nfile (fc_nfile c));;
  copy_files (Z.to_nat (fc_nfile c)) files (fc_files c) 0;;
  mret 0.

(** The part of [proc_copy] (sys/proc.c) that gives a child the files of its
    parent, the running process. *)
Definition proc_copy_files (child : ptr) : MV Z :=
  fctx ← cur_fctx;
  fctx_lock fctx;;
  fctx_lock child;;
  err ← file_copy child fctx;
  fctx_unlock child;;
  fctx_unlock fctx;;
  mret err.

(** The loop of [fctx_free]. *)
Fixpoint fclose_all (n : nat) (files : ptr) (i : Z) : MV unit :=
  match n with
  | O => mret tt
  | S n =>
      file ← table_get files i;
      (if decide (file = NULL) then mret tt else flock file;; _ ← fclose file; mret tt);;
      fclose_all n files (i + 1)
  end.

Definition fctx_free (fctx : ptr) : MV unit :=
  obj_assert fctx;;
  b ← fctx_islocked fctx;
  when (negb b) (fctx_lock fctx);;
  c ← load (V := file_ctx_t) fctx;
  dclose (fc_cwd c);;
  dclose (fc_root c);;
  fclose_all (Z.to_nat (fc_nfile c)) (fc_files c) 0;;
  kfree table (fc_files c);;
  fctx_unlock fctx;;
  kfree file_ctx_t fctx.

(** The end of [open] and [openat] once the path is resolved to [dentry],
    which comes locked and with the reference the file will hold. *)
Definition open_found (dentry : ptr) (oflags : Z) : MV Z :=
  '(err, (fd, file)) ← file_alloc true true;
  if decide (err ≠ 0) then dclose dentry;; mret err else
  update file (f_set_fops NULL);;
  update file (f_set_dentry dentry);;
  update file (f_set_oflags oflags);;
  funlock file;;
  dunlock dentry;;
  mret fd.

(** *** The calls that only look a descriptor up *)

(** [file_get], the operation, [funlock] *)
Definition with_file {A} (fd : Z) (err : Z -> A) (op : ptr -> MV A) : MV A :=
  '(e, file) ← file_get fd true;
  if decide (e ≠ 0) then mret (err e) else
  r ← op file;
  funlock file;;
  mret r.

Definition sync (fd : Z) : MV Z := with_file fd id fsync.
Definition unlink_ (fd : Z) : MV Z := with_file fd id funlink.
Definition getattr (fd : Z) (attr : ptr) : MV Z := with_file fd id (λ f, fgetattr f attr).
Definition setattr (fd : Z) (attr : ptr) : MV Z := with_file fd id (λ f, fsetattr f attr).
Definition truncate (fd length : Z) : MV Z := with_file fd id (λ f, ftruncate f length).
Definition fcntl (fd cmd : Z) (argp : ptr) : MV Z := with_file fd id (λ f, ffcntl f cmd argp).
(** The result of [fioctl] is dropped. *)
Definition ioctl (fd req : Z) (argp : ptr) : MV Z := with_file fd id (λ f, _ ← fioctl f req argp; mret 0).
Definition lseek (fd off whence : Z) : MV Z := with_file fd u64 (λ f, flseek f off whence).
Definition read (fd size : Z) : MV (Z * list Z) := with_file fd (λ e, (e, [])) (λ f, fread f size).
Definition write (fuel : nat) (fd : Z) (buf : list Z) : MV Z := with_file fd id (λ f, fwrite fuel f buf).
Definition readdir (fd off : Z) (buf : ptr) (count : Z) : MV Z := with_file fd id (λ f, freaddir f off buf count).
Definition linkat (fd : Z) (oldname newname : list Z) : MV Z := with_file fd id (λ f, flinkat f oldname newname).
Definition fstat (fd : Z) (buf : bool) : MV (Z * option stat) :=
  if negb buf then mret (- EINVAL, None) else
  with_file fd (λ e, (e, None)) (λ f, file_stat f buf).
Definition fchown (fd owner group : Z) : MV Z := with_file fd id (λ f, file_chown f owner group).
End fd.
