(* ===== verification/FdSpec.v ===== *)
(** * Descriptor tables: one step at a time

    What the operations of file.c and sysfile.c do to the maps of entries, open
    files, arrays and contexts. *)

From S2P Require Import Prelude Dll Cond Lock Vfs Cred Inode Dentry DentrySpec File FdTable.

Section fs.
Context {D : Type}.
Implicit Types (s : vfs D) (dm : gmap ptr dentry_t) (fm : gmap ptr file_t) (tm : gmap ptr (list (option ptr)))
  (cm : gmap ptr file_ctx_t) (t : nat).

(** A state with other entries, files, arrays, contexts and requests for memory. *)
Definition fs_ s dm fm tm cm t : vfs D :=
  Vfs (v_names s) dm (v_inodes s) fm tm cm (v_creds s) (v_conds s) (v_cur s) (v_drv s) t.

Lemma fs_id s : fs_ s (v_dentries s) (v_files s) (v_tables s) (v_fctxs s) (v_ticks s) = s.
Proof. by destruct s. Qed.

Lemma wp_flock s dm fm tm cm t p v (Q : unit -> vfs D -> Prop) :
  p ≠ NULL -> fm !! p = Some v -> f_lock v = false ->
  Q tt (fs_ s dm (alter (f_set_lock true) p fm) tm cm t) -> wp (flock p) (fs_ s dm fm tm cm t) Q.
Proof.
  intros Hp Hv Hl HQ. apply (wp_obj_lock _ _ v); [done..|].
  rewrite <- (alter_insert_Some _ _ _ (f_set_lock true) Hv) in HQ. exact HQ.
Qed.
Lemma wp_funlock s dm fm tm cm t p v (Q : unit -> vfs D -> Prop) :
  p ≠ NULL -> fm !! p = Some v -> f_lock v = true ->
  Q tt (fs_ s dm (alter (f_set_lock false) p fm) tm cm t) -> wp (funlock p) (fs_ s dm fm tm cm t) Q.
Proof.
  intros Hp Hv Hl HQ. apply (wp_obj_unlock _ _ v); [done..|].
  rewrite <- (alter_insert_Some _ _ _ (f_set_lock false) Hv) in HQ. exact HQ.
Qed.
Lemma wp_fislocked s dm fm tm cm t p v (Q : bool -> vfs D -> Prop) :
  p ≠ NULL -> fm !! p = Some v -> Q (f_lock v) (fs_ s dm fm tm cm t) -> wp (fislocked p) (fs_ s dm fm tm cm t) Q.
Proof. intros. by apply (wp_obj_islocked _ _ v). Qed.
Lemma wp_fassert s dm fm tm cm t p v (Q : unit -> vfs D -> Prop) :
  p ≠ NULL -> fm !! p = Some v -> f_lock v = true -> Q tt (fs_ s dm fm tm cm t) ->
  wp (fassert_locked p) (fs_ s dm fm tm cm t) Q.
Proof. intros. by apply (wp_obj_assert_locked _ _ v). Qed.
Lemma wp_fload s dm fm tm cm t p v (Q : file_t -> vfs D -> Prop) :
  p ≠ NULL -> fm !! p = Some v -> Q v (fs_ s dm fm tm cm t) -> wp (load p) (fs_ s dm fm tm cm t) Q.
Proof. intros. by eapply wp_load. Qed.
Lemma wp_fupd s dm fm tm cm t p f (Q : unit -> vfs D -> Prop) :
  p ≠ NULL -> is_Some (fm !! p) -> Q tt (fs_ s dm (alter f p fm) tm cm t) -> wp (update p f) (fs_ s dm fm tm cm t) Q.
Proof.
  intros Hp [v Hv] HQ. eapply wp_update; [done|exact Hv|]. rewrite <- (alter_insert_Some _ _ _ f Hv) in HQ. exact HQ.
Qed.

Lemma wp_clock s dm fm tm cm t p v (Q : unit -> vfs D -> Prop) :
  p ≠ NULL -> cm !! p = Some v -> fc_lock v = false ->
  Q tt (fs_ s dm fm tm (alter (fc_set_lock true) p cm) t) -> wp (fctx_lock p) (fs_ s dm fm tm cm t) Q.
Proof.
  intros Hp Hv Hl HQ. apply (wp_obj_lock _ _ v); [done..|].
  rewrite <- (alter_insert_Some _ _ _ (fc_set_lock true) Hv) in HQ. exact HQ.
Qed.
Lemma wp_cunlock s dm fm tm cm t p v (Q : unit -> vfs D -> Prop) :
  p ≠ NULL -> cm !! p = Some v -> fc_lock v = true ->
  Q tt (fs_ s dm fm tm (alter (fc_set_lock false) p cm) t) -> wp (fctx_unlock p) (fs_ s dm fm tm cm t) Q.
Proof.
  intros Hp Hv Hl HQ. apply (wp_obj_unlock _ _ v); [done..|].
  rewrite <- (alter_insert_Some _ _ _ (fc_set_lock false) Hv) in HQ. exact HQ.
Qed.
Lemma wp_cassert s dm fm tm cm t p v (Q : unit -> vfs D -> Prop) :
  p ≠ NULL -> cm !! p = Some v -> fc_lock v = true -> Q tt (fs_ s dm fm tm cm t) ->
  wp (fctx_assert_locked p) (fs_ s dm fm tm cm t) Q.
Proof. intros. by apply (wp_obj_assert_locked _ _ v). Qed.
Lemma wp_cload s dm fm tm cm t p v (Q : file_ctx_t -> vfs D -> Prop) :
  p ≠ NULL -> cm !! p = Some v -> Q v (fs_ s dm fm tm cm t) -> wp (load p) (fs_ s dm fm tm cm t) Q.
Proof. intros. by eapply wp_load. Qed.
Lemma wp_cupd s dm fm tm cm t p f (Q : unit -> vfs D -> Prop) :
  p ≠ NULL -> is_Some (cm !! p) -> Q tt (fs_ s dm fm tm (alter f p cm) t) -> wp (update p f) (fs_ s dm fm tm cm t) Q.
Proof.
  intros Hp [v Hv] HQ. eapply wp_update; [done|exact Hv|]. rewrite <- (alter_insert_Some _ _ _ f Hv) in HQ. exact HQ.
Qed.

Lemma wp_table_get s dm fm tm cm t p l i q (Q : ptr -> vfs D -> Prop) :
  p ≠ NULL -> tm !! p = Some l -> 0 <= i -> l !! Z.to_nat i = Some (Some q) ->
  Q q (fs_ s dm fm tm cm t) -> wp (table_get p i) (fs_ s dm fm tm cm t) Q.
Proof.
  intros Hp Hl Hi Hq HQ. unfold table_get. wp_step. eapply wp_load; [done|exact Hl|]. unfold slot_get.
  rewrite decide_False by lia. rewrite Hq. by wp_step.
Qed.
Lemma wp_table_set s dm fm tm cm t p l i q (Q : unit -> vfs D -> Prop) :
  p ≠ NULL -> tm !! p = Some l -> 0 <= i < Z.of_nat (length l) ->
  Q tt (fs_ s dm fm (alter (λ l, <[Z.to_nat i := Some q]> l) p tm) cm t) -> wp (table_set p i q) (fs_ s dm fm tm cm t) Q.
Proof.
  intros Hp Hl Hi HQ. unfold table_set. wp_step. eapply wp_load; [done|exact Hl|]. rewrite decide_True by done.
  eapply wp_update; [done|exact Hl|].
  rewrite <- (alter_insert_Some _ _ _ (λ l, <[Z.to_nat i := Some q]> l) Hl) in HQ. exact HQ.
Qed.

Lemma set_dentries_fs s dm dm' fm tm cm t : set_dentries dm' (fs_ s dm fm tm cm t) = fs_ s dm' fm tm cm t.
Proof. done. Qed.
Lemma dm_fs s dm fm tm cm t : v_dentries (fs_ s dm fm tm cm t) = dm.
Proof. done. Qed.

Lemma wp_fs_dlock s dm fm tm cm t p v (Q : unit -> vfs D -> Prop) :
  p ≠ NULL -> dm !! p = Some v -> d_lock v = false ->
  Q tt (fs_ s (alter (d_set_lock true) p dm) fm tm cm t) -> wp (dlock p) (fs_ s dm fm tm cm t) Q.
Proof. intros. by eapply wp_dlock. Qed.
Lemma wp_fs_dunlock s dm fm tm cm t p v (Q : unit -> vfs D -> Prop) :
  p ≠ NULL -> dm !! p = Some v -> d_lock v = true ->
  Q tt (fs_ s (alter (d_set_lock false) p dm) fm tm cm t) -> wp (dunlock p) (fs_ s dm fm tm cm t) Q.
Proof. intros. by eapply wp_dunlock. Qed.
End fs.
Arguments fs_ : simpl never.

(** Lookups in maps with a few entries altered. *)
Ltac lk :=
  repeat (first [rewrite lookup_alter_eq | rewrite lookup_insert_eq | rewrite lookup_alter_ne by done | rewrite lookup_insert_ne by done]);
  try match goal with H : ?m !! ?p = Some _ |- context [?m !! ?p] => rewrite H end; simpl; eauto.

(** One step of the code on descriptor tables. *)
Ltac f_step :=
  lazymatch goal with
  | |- wp (mbind _ _) _ _ => apply wp_bind
  | |- wp (mret _) _ _ => apply wp_ret
  | |- wp (gets _) _ _ => apply wp_gets
  | |- wp cur_fctx _ _ => apply wp_gets
  | |- wp (flock _) _ _ => eapply wp_flock; [done|by lk|simpl; done|]
  | |- wp (funlock _) _ _ => eapply wp_funlock; [done|by lk|simpl; done|]
  | |- wp (fislocked _) _ _ => eapply wp_fislocked; [done|by lk|]
  | |- wp (fassert_locked _) _ _ => eapply wp_fassert; [done|by lk|simpl; done|]
  | |- wp (fctx_lock _) _ _ => eapply wp_clock; [done|by lk|simpl; done|]
  | |- wp (fctx_unlock _) _ _ => eapply wp_cunlock; [done|by lk|simpl; done|]
  | |- wp (fctx_assert_locked _) _ _ => eapply wp_cassert; [done|by lk|simpl; done|]
  | |- wp (dlock _) _ _ => eapply wp_fs_dlock; [done|by lk|simpl; done|]
  | |- wp (dunlock _) _ _ => eapply wp_fs_dunlock; [done|by lk|simpl; done|]
  | |- wp (load (V := file_t) _) _ _ => eapply wp_fload; [done|by lk|]
  | |- wp (load (V := file_ctx_t) _) _ _ => eapply wp_cload; [done|by lk|]
  | |- wp (update (V := file_t) _ _) _ _ => apply wp_fupd; [done|by lk|]
  | |- wp (update (V := file_ctx_t) _ _) _ _ => apply wp_cupd; [done|by lk|]
  end; cbn beta.

(** ** The operations *)

Section ops.
Context {D : Type} {KM : Kmalloc} {DR : Drivers D} {IC : Icache D} {FO : FileOps D}.
Implicit Types (s : vfs D) (dm : gmap ptr dentry_t) (fm : gmap ptr file_t) (tm : gmap ptr (list (option ptr)))
  (cm : gmap ptr file_ctx_t) (t : nat).

(** A file without operations of its own. *)
Lemma wp_or_fop {F A} s dm fm tm cm t p v (op : fops D -> option F) call (gen : M (vfs D) A) Q :
  p ≠ NULL -> fm !! p = Some v -> f_fops v = NULL -> wp gen (fs_ s dm fm tm cm t) Q ->
  wp (or_fop p op call gen) (fs_ s dm fm tm cm t) Q.
Proof. intros Hp Hv Hf HQ. unfold or_fop. do 2 f_step. by rewrite decide_True. Qed.

(** Giving up a reference to an entry that has others. *)
Definition d_close (v : dentry_t) : dentry_t := d_set_lock false (d_set_count (d_count v - 1) v).

Lemma wp_dclose_many s p d (Q : unit -> vfs D -> Prop) :
  p ≠ NULL -> v_dentries s !! p = Some d -> d_lock d = true -> 2 <= d_count d ->
  Q tt (set_dentries (alter d_close p (v_dentries s)) s) -> wp (dclose p) s Q.
Proof.
  intros Hp Hd Hl Hc HQ. unfold dclose, dislocked, dput, dget_count. repeat d_step. rewrite Hl. cbn [negb when]. repeat d_step.
  simpl. rewrite decide_False by lia. repeat d_step.
  replace (alter (d_set_lock false) p _) with (alter d_close p (v_dentries s)); [exact HQ|]. by map_cases.
Qed.

Lemma wp_dclose_shared s dm fm tm cm t p d (Q : unit -> vfs D -> Prop) :
  p ≠ NULL -> dm !! p = Some d -> d_lock d = true -> 2 <= d_count d ->
  Q tt (fs_ s (alter d_close p dm) fm tm cm t) -> wp (dclose p) (fs_ s dm fm tm cm t) Q.
Proof. intros. by eapply wp_dclose_many. Qed.

(** A reference of several is dropped. *)
Definition f_drop (v : file_t) : file_t := f_set_lock false (f_set_refcnt (f_refcnt v - 1) v).

Lemma wp_fclose_more s dm fm tm cm t p v (Q : Z -> vfs D -> Prop) :
  p ≠ NULL -> fm !! p = Some v -> f_lock v = true -> f_fops v = NULL -> 2 <= f_refcnt v ->
  Q 0 (fs_ s dm (alter f_drop p fm) tm cm t) -> wp (fclose p) (fs_ s dm fm tm cm t) Q.
Proof.
  intros Hp Hv Hl Hf Hr HQ. unfold fclose. do 2 f_step. eapply wp_or_fop; [done..|]. unfold fput. rewrite decide_False by done.
  repeat f_step. rewrite decide_False by tauto. repeat f_step. simpl. rewrite decide_False by lia. repeat f_step.
  replace (alter (f_set_lock false) p _) with (alter f_drop p fm); [done|].
  apply map_eq. intros q. destruct (decide (p = q)) as [<-|Hne]; [|by rewrite !lookup_alter_ne]. by rewrite !lookup_alter_eq, Hv.
Qed.

(** The last reference is dropped: the file is freed and its reference to the
    entry given back. *)
Definition d_drop (d : dentry_t) : dentry_t := d_set_count (d_count d - 1) d.

Lemma wp_fclose_last s dm fm tm cm t p v d (Q : Z -> vfs D -> Prop) :
  p ≠ NULL -> fm !! p = Some v -> f_lock v = true -> f_fops v = NULL -> f_refcnt v = 1 ->
  f_dentry v ≠ NULL -> dm !! f_dentry v = Some d -> d_lock d = false -> 2 <= d_count d ->
  Q 0 (fs_ s (alter d_drop (f_dentry v) dm) (delete p fm) tm cm t) -> wp (fclose p) (fs_ s dm fm tm cm t) Q.
Proof.
  intros Hp Hv Hl Hf Hr Hdn Hd Hdl Hc HQ. unfold fclose. do 2 f_step. eapply wp_or_fop; [done..|]. unfold fput. rewrite decide_False by done.
  repeat f_step. rewrite decide_False by tauto. repeat f_step. simpl. rewrite decide_True by lia. repeat f_step.
  eapply (wp_dclose_shared _ _ _ _ _ _ _ (d_set_lock true d)); [done|by lk|done|done|].
  unfold fdestroy. f_step. rewrite decide_False by done. repeat f_step. simpl. rewrite Hl. cbn [negb when]. repeat f_step.
  eapply wp_kfree; [done|simpl; by lk|]. f_step.
  match goal with |- Q 0 ?a => replace a with (fs_ s (alter d_drop (f_dentry v) dm) (delete p fm) tm cm t); [done|] end.
  unfold fs_. simpl. unfold set_files. simpl. f_equal.
  - apply map_eq. intros q. destruct (decide (f_dentry v = q)) as [<-|Hne]; [|by rewrite !lookup_alter_ne].
    rewrite !lookup_alter_eq, Hd. simpl. f_equal. destruct d; simpl in *; by subst.
  - apply map_eq. intros q. destruct (decide (p = q)) as [<-|Hne]; [by rewrite !lookup_delete_eq|].
    by rewrite !lookup_delete_ne, !lookup_alter_ne by done.
Qed.
End ops.

(** ** Descriptors *)

Section table.
Context {D : Type} {KM : Kmalloc} {DR : Drivers D} {IC : Icache D} {FO : FileOps D}.
Implicit Types (s : vfs D) (dm : gmap ptr dentry_t) (fm : gmap ptr file_t) (tm : gmap ptr (list (option ptr)))
  (cm : gmap ptr file_ctx_t) (t : nat) (l : list ptr).

(** The file of a descriptor, or NULL. *)
Definition slot l (fd : Z) : ptr := if decide (0 <= fd) then default NULL (l !! Z.to_nat fd) else NULL.

Lemma slot_some l fd p : slot l fd = p -> p ≠ NULL -> 0 <= fd < Z.of_nat (length l) ∧ l !! Z.to_nat fd = Some p.
Proof.
  unfold slot. intros <- Hne. case_decide; [|done]. destruct (l !! Z.to_nat fd) as [q|] eqn:E; [|done].
  split; [|done]. apply lookup_lt_Some in E. lia.
Qed.

(** The context [c], unlocked, with the table [l]. *)
Record ctx_ok tm cm (c : ptr) (w : file_ctx_t) l : Prop := {
  co_null : c ≠ NULL;
  co_at : cm !! c = Some w;
  co_lock : fc_lock w = false;
  co_len : fc_nfile w = Z.of_nat (length l);
  co_none : fc_files w = NULL -> l = [];
  co_some : fc_files w ≠ NULL -> tm !! fc_files w = Some (Some <$> l);
  co_int : Z.of_nat (length l) < 2147483648;
}.

Lemma cm_relock cm c w :
  cm !! c = Some w -> fc_lock w = false -> alter (fc_set_lock false) c (alter (fc_set_lock true) c cm) = cm.
Proof. intros Hw Hl. exact (relock (V := file_ctx_t) cm c w Hw Hl). Qed.

Lemma wp_file_get s dm fm tm cm t c w l fd (Q : Z * ptr -> vfs D -> Prop) :
  t_fctx (v_cur s) = c -> ctx_ok tm cm c w l ->
  (slot l fd = NULL -> Q (- EBADFD, NULL) (fs_ s dm fm tm cm t)) ->
  (slot l fd ≠ NULL -> ∃ v, fm !! slot l fd = Some v ∧ f_lock v = false ∧
     Q (0, slot l fd) (fs_ s dm (alter (f_set_lock true) (slot l fd) fm) tm cm t)) ->
  wp (file_get fd true) (fs_ s dm fm tm cm t) Q.
Proof.
  intros Hc [Hn Hw Hl Hlen Hnone Hsome _] HQ1 HQ2. unfold file_get. cbn [negb]. repeat f_step. simpl. rewrite Hc. repeat f_step. simpl.
  destruct (decide (slot l fd = NULL)) as [E|E].
  - assert (wp (fctx_unlock c;; mret (- EBADFD, NULL)) (fs_ s dm fm tm (alter (fc_set_lock true) c cm) t) Q) as Hbad.
    { repeat f_step. rewrite (cm_relock _ _ w) by done. auto. }
    case_decide as H1; [done|]. assert (fc_files w ≠ NULL ∧ 0 <= fd < fc_nfile w) as [H2 H3] by (split; [tauto|lia]). f_step.
    destruct (lookup_lt_is_Some_2 l (Z.to_nat fd)) as [q Hq]; [lia|].
    assert (q = NULL) as -> by (unfold slot in E; rewrite decide_True, Hq in E by lia; done).
    eapply wp_table_get; [done|by apply Hsome|lia|by rewrite list_lookup_fmap, Hq|]. by rewrite decide_True.
  - destruct (HQ2 E) as (v & Hv & Hvl & HQ). destruct (slot_some _ _ _ eq_refl E) as [Hr Hq].
    rewrite decide_False.
    + f_step. eapply wp_table_get; [|apply Hsome|lia|by rewrite list_lookup_fmap, Hq|].
      * intros H. rewrite (Hnone H) in Hr. simpl in Hr. lia.
      * intros H. rewrite (Hnone H) in Hr. simpl in Hr. lia.
      * rewrite decide_False by done. repeat f_step. by rewrite (cm_relock _ _ w).
    + intros [H|[H|H]]; [|lia..]. rewrite (Hnone H) in Hr. simpl in Hr. lia.
Qed.

Lemma wp_file_free s dm fm tm cm t c w l fd (Q : Z -> vfs D -> Prop) :
  t_fctx (v_cur s) = c -> ctx_ok tm cm c w l -> 0 <= fd < Z.of_nat (length l) ->
  Q 0 (fs_ s dm fm (<[fc_files w := Some <$> <[Z.to_nat fd := NULL]> l]> tm) cm t) ->
  wp (file_free fd) (fs_ s dm fm tm cm t) Q.
Proof.
  intros Hc [Hn Hw Hl Hlen Hnone Hsome _] Hr HQ. assert (fc_files w ≠ NULL) as Hf.
  { intros H. rewrite (Hnone H) in Hr. simpl in Hr. lia. }
  unfold file_free. repeat f_step. simpl. rewrite Hc. repeat f_step. simpl. rewrite decide_False.
  - f_step. eapply wp_table_set; [done|by apply Hsome|rewrite length_fmap; lia|]. repeat f_step. rewrite (cm_relock _ _ w) by done.
    rewrite <- (alter_insert_Some _ _ _ _ (Hsome Hf)), list_fmap_insert in *. done.
  - intros [H|[H|H]]; [done|lia..].
Qed.

(** An open file in use: unlocked, with a reference to an entry that others
    keep as well (the list of its inode does). *)
Record file_ok dm fm (p : ptr) (v : file_t) : Prop := {
  fk_null : p ≠ NULL;
  fk_at : fm !! p = Some v;
  fk_lock : f_lock v = false;
  fk_fops : f_fops v = NULL;
  fk_ref : 1 <= f_refcnt v;
  fk_dnull : f_dentry v ≠ NULL;
  fk_dentry : ∃ d, dm !! f_dentry v = Some d ∧ d_lock d = false ∧ 2 <= d_count d;
}.

(** One reference less: the last one frees the file and releases its entry. *)
Definition drop_ref dm fm (p : ptr) : gmap ptr dentry_t * gmap ptr file_t :=
  match fm !! p with
  | Some v => if decide (f_refcnt v = 1) then (alter d_drop (f_dentry v) dm, delete p fm)
              else (dm, <[p := f_set_refcnt (f_refcnt v - 1) v]> fm)
  | None => (dm, fm)
  end.

Lemma wp_fclose s dm fm tm cm t p v (Q : Z -> vfs D -> Prop) :
  file_ok dm fm p v -> Q 0 (fs_ s (drop_ref dm fm p).1 (drop_ref dm fm p).2 tm cm t) ->
  wp (fclose p) (fs_ s dm (alter (f_set_lock true) p fm) tm cm t) Q.
Proof.
  intros [Hp Hv Hl Hf Hr Hdn (d & Hd & Hdl & Hdc)] HQ. unfold drop_ref in HQ. rewrite Hv in HQ. case_decide as H1; simpl in HQ.
  - eapply (wp_fclose_last _ _ _ _ _ _ _ (f_set_lock true v)); [done|by lk|done..|].
    replace (delete _ (alter _ _ fm)) with (delete p fm); [done|].
    apply map_eq. intros q. destruct (decide (p = q)) as [<-|Hne]; [by rewrite !lookup_delete_eq|].
    by rewrite !lookup_delete_ne, lookup_alter_ne.
  - eapply (wp_fclose_more _ _ _ _ _ _ _ (f_set_lock true v)); [done|by lk|done|done|simpl; lia|].
    replace (alter f_drop _ (alter _ _ fm)) with (<[p := f_set_refcnt (f_refcnt v - 1) v]> fm); [done|].
    apply map_eq. intros q. destruct (decide (p = q)) as [<-|Hne]; [|by rewrite !lookup_alter_ne, lookup_insert_ne].
    rewrite !lookup_alter_eq, lookup_insert_eq, Hv. simpl. f_equal. destruct v; simpl in *; by subst.
Qed.

(** Closing a descriptor. *)
Lemma wp_close s dm fm tm cm t c w l fd (Q : Z -> vfs D -> Prop) :
  t_fctx (v_cur s) = c -> ctx_ok tm cm c w l ->
  (slot l fd ≠ NULL -> ∃ v, file_ok dm fm (slot l fd) v) ->
  (slot l fd = NULL -> Q (- EBADFD) (fs_ s dm fm tm cm t)) ->
  (slot l fd ≠ NULL -> Q 0 (fs_ s (drop_ref dm fm (slot l fd)).1 (drop_ref dm fm (slot l fd)).2
       (<[fc_files w := Some <$> <[Z.to_nat fd := NULL]> l]> tm) cm t)) ->
  wp (close fd) (fs_ s dm fm tm cm t) Q.
Proof.
  intros Hc Hctx Hfd HQ1 HQ2. unfold close. f_step. eapply wp_file_get; [done|done|..].
  { intros E. rewrite decide_True by done. f_step. auto. }
  intros E. destruct (Hfd E) as (v & Hv). exists v. split; [apply Hv|]. split; [apply Hv|].
  destruct (slot_some _ _ _ eq_refl E) as [Hrange _]. rewrite decide_False by tauto. f_step.
  eapply wp_fclose; [done|]. rewrite decide_False by tauto. eapply wp_file_free; [done..|]. by apply HQ2.
Qed.
End table.

(** ** Allocating a descriptor *)

Section alloc.
Context {D : Type} {KM : Kmalloc} {DR : Drivers D} {IC : Icache D} {FO : FileOps D}.
Implicit Types (s : vfs D) (dm : gmap ptr dentry_t) (fm : gmap ptr file_t) (tm : gmap ptr (list (option ptr)))
  (cm : gmap ptr file_ctx_t) (t : nat) (l : list ptr).

(** The lowest free descriptor; the length of the table if none is free. *)
Fixpoint lowest_free l : nat :=
  match l with [] => O | p :: l => if decide (p = NULL) then O else S (lowest_free l) end.

(** The table with [f] at descriptor [fd], at most one beyond the end. *)
Definition put_slot l (fd : nat) (f : ptr) : list ptr := if decide (fd < length l)%nat then <[fd := f]> l else l ++ [f].

Lemma lowest_free_le l : (lowest_free l <= length l)%nat.
Proof. induction l as [|p l IH]; simpl; [done|]. case_decide; lia. Qed.
Lemma lowest_free_null l : (lowest_free l < length l)%nat -> l !! lowest_free l = Some NULL.
Proof. induction l as [|p l IH]; simpl; [lia|]. case_decide as E; [by rewrite E|]. simpl. intros. apply IH. lia. Qed.
Lemma lowest_free_least l i : (i < lowest_free l)%nat -> ∃ p, l !! i = Some p ∧ p ≠ NULL.
Proof.
  revert i. induction l as [|p l IH]; simpl; intros i Hi; [lia|]. case_decide; [lia|]. destruct i; simpl; [eauto|]. apply IH. lia.
Qed.

(** The context after its table was changed, perhaps moved: nothing else is. *)
Record retab tm cm (c : ptr) (w : file_ctx_t) tm' cm' (w' : file_ctx_t) : Prop := {
  rt_cm : cm' = <[c := w']> cm;
  rt_other q : q ≠ fc_files w -> q ≠ fc_files w' -> tm' !! q = tm !! q;
  rt_new : fc_files w' = fc_files w ∨ tm !! fc_files w' = None;
  rt_old : fc_files w ≠ NULL -> fc_files w' ≠ fc_files w -> tm' !! fc_files w = None;
  rt_cwd : fc_cwd w' = fc_cwd w;
  rt_root : fc_root w' = fc_root w;
}.

Lemma wp_first_free s dm fm tm cm t p pre suf (Q : Z -> vfs D -> Prop) :
  p ≠ NULL -> tm !! p = Some (Some <$> (pre ++ suf)) -> Q (Z.of_nat (length pre + lowest_free suf)) (fs_ s dm fm tm cm t) ->
  wp (first_free p (length suf) (Z.of_nat (length pre))) (fs_ s dm fm tm cm t) Q.
Proof.
  intros Hp. revert pre. induction suf as [|q suf IH]; intros pre Hl HQ; simpl.
  { f_step. by rewrite Nat.add_0_r in HQ. }
  f_step. eapply (wp_table_get _ _ _ _ _ _ _ _ _ q); [done|done|lia|by rewrite Nat2Z.id, list_lookup_fmap, list_lookup_middle|].
  simpl in HQ. case_decide as E.
  - f_step. by rewrite Nat.add_0_r in HQ.
  - replace (Z.of_nat (length pre) + 1) with (Z.of_nat (length (pre ++ [q]))) by (rewrite length_app; simpl; lia).
    apply IH; [by rewrite <- app_assoc|]. rewrite length_app. simpl. by rewrite <- Nat.add_assoc.
Qed.

Lemma wp_table_grow s dm fm tm cm t p (tb : list (option ptr)) n (Q : ptr -> vfs D -> Prop) :
  p ≠ NULL -> tm !! p = Some tb -> 0 <= n < 2147483648 ->
  Q NULL (fs_ s dm fm tm cm (S t)) ->
  (∀ q, q ≠ NULL -> tm !! q = None ->
     Q q (fs_ s dm fm (<[q := tb ++ replicate (Z.to_nat n - length tb) None]> (delete p tm)) cm (S t))) ->
  wp (table_grow p n) (fs_ s dm fm tm cm t) Q.
Proof.
  intros Hp Hl Hn HQ1 HQ2. unfold table_grow. rewrite decide_False by (rewrite u64_small; unfold in_u64, two64; lia).
  wp_step. eapply wp_load; [done|exact Hl|]. wp_step. apply wp_kmalloc; [by rewrite decide_True; [wp_step|]|].
  intros q Hq Hf _. simpl in Hf. assert (tm !! q = None) as Hqn by (apply not_elem_of_dom; set_solver).
  assert (p ≠ q) as Hpq by congruence. rewrite decide_False by (by apply valid_ptr_nonnull). wp_step.
  eapply wp_kfree; [done|simpl; rewrite lookup_insert_ne by done; exact Hl|]. wp_step.
  specialize (HQ2 q (valid_ptr_nonnull _ Hq) Hqn). unfold fs_, set_tables in *. simpl in *. by rewrite delete_insert_ne in *.
Qed.

Lemma s32_small n : 0 <= n < 2147483648 -> s32 n = n.
Proof. intros H. unfold s32, u32. rewrite Z.mod_small by lia. case_decide; lia. Qed.

Lemma put_slot_length l fd f : (fd <= length l)%nat -> (length (put_slot l fd f) <= S (length l))%nat.
Proof. intros. unfold put_slot. case_decide; [rewrite length_insert; lia|]. rewrite length_app. simpl. lia. Qed.
End alloc.

Section alloc2.
Context {D : Type} {KM : Kmalloc} {DR : Drivers D} {IC : Icache D} {FO : FileOps D}.
Implicit Types (s : vfs D) (dm : gmap ptr dentry_t) (fm : gmap ptr file_t) (tm : gmap ptr (list (option ptr)))
  (cm : gmap ptr file_ctx_t) (t : nat) (l : list ptr).

Definition new_file : file_t := File 0 0 1 NULL NULL true.

(** The failing end: the file is freed again, the context unlocked. *)
Lemma wp_alloc_nomem s dm fm tm cm t c w f (Q : Z * (Z * ptr) -> vfs D -> Prop) :
  c ≠ NULL -> cm !! c = Some w -> fc_lock w = false -> f ≠ NULL -> fm !! f = None ->
  Q (- ENOMEM, (0, NULL)) (fs_ s dm fm tm cm t) ->
  wp (alloc_nomem c f) (fs_ s dm (<[f := new_file]> fm) tm (alter (fc_set_lock true) c cm) t) Q.
Proof.
  intros Hc Hw Hl Hf Hff HQ. unfold alloc_nomem, fdestroy. repeat f_step. rewrite decide_False by done. repeat f_step. cbn [new_file f_lock negb when].
  repeat f_step. eapply wp_kfree; [done|simpl; by lk|]. f_step. unfold fs_, set_files in *. simpl.
  rewrite (cm_relock _ _ w) by done. replace (delete f _) with fm; [done|].
  apply map_eq. intros q. destruct (decide (f = q)) as [<-|Hne]; [by rewrite lookup_delete_eq|].
  by rewrite lookup_delete_ne, lookup_alter_ne, lookup_insert_ne by done.
Qed.

Lemma wp_alloc_search s dm fm tm cm t c w l f (Q : Z * (Z * ptr) -> vfs D -> Prop) :
  ctx_ok tm cm c w l -> fc_files w ≠ NULL -> Z.of_nat (length l) < 2147483647 -> f ≠ NULL -> fm !! f = None ->
  (lowest_free l = length l -> ∀ t', Q (- ENOMEM, (0, NULL)) (fs_ s dm fm tm cm t')) ->
  (∀ tm' cm' w' t', retab tm cm c w tm' cm' w' -> ctx_ok tm' cm' c w' (put_slot l (lowest_free l) f) ->
     Q (0, (Z.of_nat (lowest_free l), f)) (fs_ s dm (<[f := new_file]> fm) tm' cm' t')) ->
  wp (alloc_search c f) (fs_ s dm (<[f := new_file]> fm) tm (alter (fc_set_lock true) c cm) t) Q.
Proof.
  intros [Hn Hw Hl Hlen Hnone Hsome Hint] Hfw Hmax Hf Hff HQ1 HQ2. unfold alloc_search. do 2 f_step. simpl.
  f_step. rewrite Hlen, Nat2Z.id. change 0 with (Z.of_nat (length (@nil ptr))).
  eapply (wp_first_free _ _ _ _ _ _ _ [] l); [done|by apply Hsome|]. simpl.
  pose proof (lowest_free_le l) as Hle. case_decide as Hlt.
  - f_step. eapply wp_table_set; [done|by apply Hsome|rewrite length_fmap; lia|]. repeat f_step. rewrite (cm_relock _ _ w) by done.
    rewrite <- (alter_insert_Some _ _ _ _ (Hsome Hfw)), Nat2Z.id, <- list_fmap_insert.
    apply (HQ2 _ _ w).
    + split; [by rewrite insert_id|intros; by rewrite lookup_insert_ne by done|by left|done|done|done].
    + unfold put_slot. rewrite decide_True by lia. split; rewrite ?length_insert; try done. intros _. by rewrite lookup_insert_eq.
  - assert (lowest_free l = length l) as E by lia. rewrite E in *. f_step.
    rewrite s32_small by lia. eapply wp_table_grow; [done|by apply Hsome|lia| |].
    { rewrite decide_True by done. eapply wp_alloc_nomem; try done. by apply HQ1. }
    intros q Hq Hqn. rewrite decide_False by done. rewrite length_fmap. replace (Z.to_nat (Z.of_nat (length l) + 1) - length l)%nat with 1%nat by lia.
    f_step. eapply wp_table_set; [done|by rewrite lookup_insert_eq|rewrite length_app, length_fmap; simpl; lia|].
    do 7 f_step. rewrite Nat2Z.id. simpl.
    set (w' := fc_set_nfile (Z.of_nat (length l) + 1) (fc_set_files q w)).
    match goal with |- Q _ (fs_ s dm _ ?T ?C _) => apply (HQ2 T C w') end.
    + split; [|intros x Hx1 Hx2; by rewrite lookup_alter_ne, lookup_insert_ne, lookup_delete_ne by done|by right| |done|done].
      2: { simpl. intros _ Hne. by rewrite lookup_alter_ne, lookup_insert_ne, lookup_delete_eq by done. }
      apply map_eq. intros x. destruct (decide (c = x)) as [<-|Hne]; [|by rewrite !lookup_alter_ne, lookup_insert_ne by done].
      rewrite !lookup_alter_eq, lookup_insert_eq, Hw. simpl. unfold w'. f_equal. destruct w; simpl in *; subst. by rewrite s32_small by lia.
    + unfold put_slot. rewrite decide_False by lia. split; rewrite ?length_app; simpl; try done; try lia.
      * rewrite !lookup_alter_eq, Hw. simpl. unfold w'. f_equal. destruct w; simpl in *; subst. by rewrite s32_small by lia.
      * intros _. rewrite lookup_alter_eq, lookup_insert_eq. simpl. f_equal. rewrite fmap_app. simpl.
        rewrite <- (length_fmap Some l) at 1. rewrite <- (Nat.add_0_r (length (Some <$> l))), insert_app_r. done.
Qed.

(** [file_alloc] puts a new, locked file at the lowest free descriptor, or
    fails and leaves everything as it was. *)
Lemma wp_file_alloc s dm fm tm cm t c w l (Q : Z * (Z * ptr) -> vfs D -> Prop) :
  t_fctx (v_cur s) = c -> ctx_ok tm cm c w l -> Z.of_nat (length l) < 2147483647 ->
  (∀ t', Q (- ENOMEM, (0, NULL)) (fs_ s dm fm tm cm t')) ->
  (∀ f tm' cm' w' t', f ≠ NULL -> fm !! f = None -> retab tm cm c w tm' cm' w' ->
     ctx_ok tm' cm' c w' (put_slot l (lowest_free l) f) ->
     Q (0, (Z.of_nat (lowest_free l), f)) (fs_ s dm (<[f := new_file]> fm) tm' cm' t')) ->
  wp (file_alloc true true) (fs_ s dm fm tm cm t) Q.
Proof.
  intros Hc Hctx Hmax HQ1 HQ2. destruct (Hctx) as [Hn Hw Hl Hlen Hnone Hsome _]. unfold file_alloc. cbn [andb negb]. f_step. unfold falloc. f_step.
  apply wp_kmalloc; [rewrite decide_True by done; f_step; rewrite decide_True by done; f_step; apply HQ1|].
  intros f Hf Hff _. simpl in Hff. assert (fm !! f = None) as Hfn by (apply not_elem_of_dom; set_solver). apply valid_ptr_nonnull in Hf.
  rewrite decide_False by done. change (hl_put _ _) with (fs_ s dm (<[f := File 0 0 1 NULL NULL false]> fm) tm cm (S t)).
  repeat f_step. rewrite decide_False by tauto. repeat f_step. simpl. rewrite Hc. repeat f_step. simpl.
  replace (alter (f_set_lock true) f _) with (<[f := new_file]> fm) by
    (apply map_eq; intros q; destruct (decide (f = q)) as [<-|Hne]; [by rewrite lookup_alter_eq, !lookup_insert_eq|by rewrite lookup_alter_ne, !lookup_insert_ne by done]).
  case_decide as Hfw.
  - specialize (Hnone Hfw). subst l. f_step. apply wp_kmalloc.
    { change (kh_tick _) with (fs_ s dm (<[f := new_file]> fm) tm (alter (fc_set_lock true) c cm) (S (S t))).
      repeat f_step. rewrite decide_True by done.
      replace (alter (fc_set_files NULL) c _) with (alter (fc_set_lock true) c cm).
      - by eapply wp_alloc_nomem.
      - apply map_eq. intros q. destruct (decide (c = q)) as [<-|Hne]; [|by rewrite !lookup_alter_ne].
        rewrite !lookup_alter_eq, Hw. simpl. f_equal. destruct w; simpl in *; by subst. }
    intros q Hq Hqf _. simpl in Hqf. assert (tm !! q = None) as Hqn by (apply not_elem_of_dom; set_solver). apply valid_ptr_nonnull in Hq.
    change (hl_put _ _) with (fs_ s dm (<[f := new_file]> fm) (<[q := [Some NULL]]> tm) (alter (fc_set_lock true) c cm) (S (S t))).
    repeat f_step. rewrite decide_False by done. repeat f_step. set (w1 := fc_set_nfile 1 (fc_set_files q w)).
    replace (alter (fc_set_nfile 1) c _) with (alter (fc_set_lock true) c (<[c := w1]> cm)).
    2: { apply map_eq. intros x. destruct (decide (c = x)) as [<-|Hne]; [|by rewrite !lookup_alter_ne, lookup_insert_ne by done].
      by rewrite !lookup_alter_eq, lookup_insert_eq, Hw. }
    eapply (wp_alloc_search _ _ _ _ _ _ _ w1 [NULL]); [|done|simpl; lia|done|done|done|].
    { split; try done; [by rewrite lookup_insert_eq|intros _; simpl; by rewrite lookup_insert_eq]. }
    intros tm' cm' w' t' [R1 R2 R3 R4 R5 R6] Hctx'. simpl in *. eapply (HQ2 f tm' cm' w' t'); [done|done| |done].
    split; [by rewrite R1, insert_insert_eq| | |by rewrite Hfw|done|done].
    + intros x Hx1 Hx2. destruct (decide (x = q)) as [->|Hxq]; [rewrite R4, Hqn by done; done|].
      rewrite R2 by done. by rewrite lookup_insert_ne.
    + right. destruct R3 as [->|R3]; [done|]. destruct (decide (fc_files w' = q)) as [->|Hne]; [done|]. by rewrite lookup_insert_ne in R3.
  - eapply wp_alloc_search; [done..|]. intros. by eapply HQ2.
Qed.
End alloc2.

(** ** Opening, duplicating, forking *)

Section dup.
Context {D : Type} {KM : Kmalloc} {DR : Drivers D} {IC : Icache D} {FO : FileOps D}.
Implicit Types (s : vfs D) (dm : gmap ptr dentry_t) (fm : gmap ptr file_t) (tm : gmap ptr (list (option ptr)))
  (cm : gmap ptr file_ctx_t) (t : nat) (l : list ptr).

Definition opened (dp : ptr) (oflags : Z) : file_t := File 0 oflags 1 dp NULL false.

Lemma wp_open_found s dm fm tm cm t c w l dp d oflags (Q : Z -> vfs D -> Prop) :
  t_fctx (v_cur s) = c -> ctx_ok tm cm c w l -> Z.of_nat (length l) < 2147483647 ->
  dp ≠ NULL -> dm !! dp = Some d -> d_lock d = true -> 2 <= d_count d ->
  (∀ t', Q (- ENOMEM) (fs_ s (alter d_close dp dm) fm tm cm t')) ->
  (∀ f tm' cm' w' t', f ≠ NULL -> fm !! f = None -> retab tm cm c w tm' cm' w' ->
     ctx_ok tm' cm' c w' (put_slot l (lowest_free l) f) ->
     Q (Z.of_nat (lowest_free l)) (fs_ s (alter (d_set_lock false) dp dm) (<[f := opened dp oflags]> fm) tm' cm' t')) ->
  wp (open_found dp oflags) (fs_ s dm fm tm cm t) Q.
Proof.
  intros Hc Hctx Hmax Hdp Hd Hdl Hdc HQ1 HQ2. unfold open_found. f_step. eapply wp_file_alloc; [done..| |].
  - intros t'. rewrite decide_True by done. f_step. eapply wp_dclose_shared; [done..|]. f_step. apply HQ1.
  - intros f tm' cm' w' t' Hf Hff Hrt Hctx'. rewrite decide_False by tauto. repeat f_step.
    match goal with |- Q _ (fs_ s _ ?F _ _ _) => replace F with (<[f := opened dp oflags]> fm); [by eapply HQ2|] end.
    apply map_eq. intros q. destruct (decide (f = q)) as [<-|Hne]; [|by rewrite !lookup_alter_ne, !lookup_insert_ne by done].
    by rewrite !lookup_alter_eq, !lookup_insert_eq.
Qed.

(** The end of [file_dup]: one more reference, entered at [fd2]. *)
Definition add_ref fm (f : ptr) : gmap ptr file_t := alter (λ v, f_set_refcnt (f_refcnt v + 1) v) f fm.

Lemma wp_dup_install s dm fm tm cm t c w l f v fd2 (Q : Z -> vfs D -> Prop) :
  ctx_ok tm cm c w l -> 0 <= fd2 < Z.of_nat (length l) -> f ≠ NULL -> fm !! f = Some v -> f_lock v = false ->
  Q fd2 (fs_ s dm (add_ref fm f) (<[fc_files w := Some <$> <[Z.to_nat fd2 := f]> l]> tm) cm t) ->
  wp (flock f;; err ← fdup f;
      if decide (err ≠ 0) then funlock f;; fctx_unlock c;; mret err else
      funlock f;; w ← load (V := file_ctx_t) c; table_set (fc_files w) fd2 f;; fctx_unlock c;; mret fd2)
    (fs_ s dm fm tm (alter (fc_set_lock true) c cm) t) Q.
Proof.
  intros [Hn Hw Hl Hlen Hnone Hsome Hint] Hr Hf Hv Hvl HQ. assert (fc_files w ≠ NULL) as Hfw.
  { intros H. rewrite (Hnone H) in Hr. simpl in Hr. lia. }
  f_step. f_step. f_step. unfold fdup. rewrite decide_False by done. repeat f_step. rewrite decide_False by tauto. repeat f_step. simpl.
  eapply wp_table_set; [done|by apply Hsome|rewrite length_fmap; lia|]. repeat f_step. rewrite (cm_relock _ _ w) by done.
  rewrite <- (alter_insert_Some _ _ _ _ (Hsome Hfw)), <- list_fmap_insert.
  match goal with |- Q _ (fs_ s _ ?F _ _ _) => replace F with (add_ref fm f); [done|] end.
  apply map_eq. intros q. unfold add_ref. destruct (decide (f = q)) as [<-|Hne]; [|by rewrite !lookup_alter_ne].
  rewrite !lookup_alter_eq, Hv. simpl. f_equal. destruct v; simpl in *; by subst.
Qed.

(** The table with room for descriptor [fd]. *)
Definition extend l (fd : Z) : list ptr := l ++ replicate (Z.to_nat (fd + 1) - length l) NULL.
Definition dup_target l (fd2 : Z) : Z := if decide (fd2 < 0) then Z.of_nat (length l) else fd2.
(** What [dup2] does to the file its target stood for: nothing at descriptor 0. *)
Definition dup_close dm fm l (fd2 : Z) : gmap ptr dentry_t * gmap ptr file_t :=
  if decide (0 < fd2 ∧ slot l fd2 ≠ NULL) then drop_ref dm fm (slot l fd2) else (dm, fm).

Lemma extend_length l fd : 0 <= fd -> Z.of_nat (length (extend l fd)) = Z.max (Z.of_nat (length l)) (fd + 1).
Proof. intros. unfold extend. rewrite length_app, length_replicate. lia. Qed.
Lemma extend_id l fd : fd < Z.of_nat (length l) -> extend l fd = l.
Proof. intros. unfold extend. replace (Z.to_nat (fd + 1) - length l)%nat with O by lia. apply app_nil_r. Qed.
Lemma retab_refl tm cm c w : cm !! c = Some w -> retab tm cm c w tm cm w.
Proof. intros. split; [by rewrite insert_id|done|by left|done|done|done]. Qed.

(** Room for descriptor [fd2]. *)
Lemma wp_dup_grow s dm fm tm cm t c w l fd2 (Q : bool -> vfs D -> Prop) :
  ctx_ok tm cm c w l -> fc_files w ≠ NULL -> 0 <= fd2 < 2147483647 ->
  (∀ t', Z.of_nat (length l) <= fd2 -> Q false (fs_ s dm fm tm (alter (fc_set_lock true) c cm) t')) ->
  (∀ tm' cm' w' t', retab tm cm c w tm' cm' w' -> ctx_ok tm' cm' c w' (extend l fd2) -> fc_files w' ≠ NULL ->
     Q true (fs_ s dm fm tm' (alter (fc_set_lock true) c cm') t')) ->
  wp (if decide (fd2 >= fc_nfile w) then
      tmp ← table_grow (fc_files w) (s32 (fd2 + 1));
      if decide (tmp = NULL) then mret false else
      update tmp (λ l : list (option ptr), take (Z.to_nat (fc_nfile w)) l ++ replicate (Z.to_nat (s32 (fd2 + 1) - fc_nfile w)) (Some NULL));;
      update c (fc_set_files tmp);;
      update c (fc_set_nfile (s32 (fd2 + 1)));;
      mret true
    else mret true) (fs_ s dm fm tm (alter (fc_set_lock true) c cm) t) Q.
Proof.
  intros Hctx Hfw Hr HQ1 HQ2. destruct (Hctx) as [Hn Hw Hl Hlen Hnone Hsome Hint]. case_decide as Hge.
  - rewrite s32_small by lia. f_step. eapply wp_table_grow; [done|by apply Hsome|lia| |].
    { rewrite decide_True by done. f_step. apply HQ1. lia. }
    intros q Hq Hqn. rewrite decide_False by done. f_step.
    eapply wp_update; [done|simpl; by rewrite lookup_insert_eq|]. rewrite Hlen.
    match goal with |- context [hl_put (<[q := ?L]> _) _] => replace L with (Some <$> extend l fd2) end.
    2: { unfold extend. rewrite fmap_app, fmap_replicate, Nat2Z.id. f_equal; [|f_equal; lia].
      rewrite <- (length_fmap Some l) at 1. by rewrite take_app_length. }
    match goal with |- context [hl_put ?M _] => change (hl_put M _) with (fs_ s dm fm M (alter (fc_set_lock true) c cm) (S t)) end.
    simpl hl_get. rewrite insert_insert_eq. repeat f_step.
    set (w' := fc_set_nfile (fd2 + 1) (fc_set_files q w)).
    match goal with |- Q _ (fs_ s dm fm ?T ?C _) => replace C with (alter (fc_set_lock true) c (<[c := w']> cm)); [apply (HQ2 T (<[c := w']> cm) w')|] end.
    + split; [done|intros x Hx1 Hx2; by rewrite lookup_insert_ne, lookup_delete_ne by done|by right| |done|done].
      intros _ Hne. by rewrite lookup_insert_ne, lookup_delete_eq by done.
    + split; rewrite ?extend_length by lia; simpl; try done; try lia; [by rewrite lookup_insert_eq|by intros _; rewrite lookup_insert_eq].
    + done.
    + apply map_eq. intros x. destruct (decide (c = x)) as [<-|Hne]; [|by rewrite !lookup_alter_ne, lookup_insert_ne by done].
      by rewrite !lookup_alter_eq, lookup_insert_eq, Hw.
  - f_step. apply (HQ2 tm cm w); [by apply retab_refl| |done]. by rewrite extend_id by lia.
Qed.
End dup.

(** Writing an entry of the table. *)
Lemma ctx_ok_set tm cm c w l (i : nat) p :
  ctx_ok tm cm c w l -> fc_files w ≠ NULL -> ctx_ok (<[fc_files w := Some <$> <[i := p]> l]> tm) cm c w (<[i := p]> l).
Proof. intros [] Hf. split; rewrite ?length_insert; try done. intros _. by rewrite lookup_insert_eq. Qed.
Lemma retab_set tm cm c w tm' cm' w' x :
  retab tm cm c w tm' cm' w' -> retab tm cm c w (<[fc_files w' := x]> tm') cm' w'.
Proof.
  intros [R1 R2 R3 R4 R5 R6]. split; [done|intros; by rewrite lookup_insert_ne; auto|done| |done|done].
  intros. rewrite lookup_insert_ne by done. auto.
Qed.

Section dup2.
Context {D : Type} {KM : Kmalloc} {DR : Drivers D} {IC : Icache D} {FO : FileOps D}.
Implicit Types (s : vfs D) (dm : gmap ptr dentry_t) (fm : gmap ptr file_t) (tm : gmap ptr (list (option ptr)))
  (cm : gmap ptr file_ctx_t) (t : nat) (l : list ptr).

Lemma slot_lookup l fd p : 0 <= fd -> l !! Z.to_nat fd = Some p -> slot l fd = p.
Proof. intros Hfd Hp. unfold slot. by rewrite decide_True, Hp by done. Qed.
Lemma slot_in l fd : slot l fd ≠ NULL -> slot l fd ∈ l.
Proof. intros H. destruct (slot_some _ _ _ eq_refl H) as [_ E]. by eapply list_elem_of_lookup_2. Qed.

(** Dropping a reference of a file keeps another file, and keeps the file
    itself when it has a second reference. *)
Lemma drop_ref_keeps dm fm p q v :
  fm !! q = Some v -> (p = q -> 2 <= f_refcnt v) ->
  ∃ v', (drop_ref dm fm p).2 !! q = Some v' ∧ f_lock v' = f_lock v.
Proof.
  intros Hq H2. unfold drop_ref. destruct (fm !! p) as [u|] eqn:E; [|by exists v].
  destruct (decide (p = q)) as [<-|Hne].
  - assert (u = v) as -> by congruence. specialize (H2 eq_refl). rewrite decide_False by lia. simpl. rewrite lookup_insert_eq. by eexists.
  - case_decide; simpl; [rewrite lookup_delete_ne by done|rewrite lookup_insert_ne by done]; by exists v.
Qed.

Lemma wp_file_dup s dm fm tm cm t c w l fd1 fd2 (Q : Z -> vfs D -> Prop) :
  let tgt := dup_target l fd2 in let f := slot l fd1 in
  t_fctx (v_cur s) = c -> ctx_ok tm cm c w l -> (fc_files w ≠ NULL -> 0 <= fd1 < Z.of_nat (length l)) -> tgt < 2147483647 ->
  (∀ p, p ∈ l -> p ≠ NULL -> ∃ v, file_ok dm fm p v) ->
  (fd1 ≠ tgt -> slot l tgt = f -> ∀ v, fm !! f = Some v -> 2 <= f_refcnt v) ->
  (f = NULL -> Q (- EBADFD) (fs_ s dm fm tm cm t)) ->
  (f ≠ NULL -> fd1 = tgt -> Q fd1 (fs_ s dm fm tm cm t)) ->
  (f ≠ NULL -> Z.of_nat (length l) <= tgt -> ∀ t', Q (- ENOMEM) (fs_ s dm fm tm cm t')) ->
  (f ≠ NULL -> fd1 ≠ tgt -> 0 <= tgt -> ∀ tm' cm' w' t', retab tm cm c w tm' cm' w' ->
     ctx_ok tm' cm' c w' (<[Z.to_nat tgt := f]> (extend l tgt)) ->
     Q tgt (fs_ s (dup_close dm fm l tgt).1 (add_ref (dup_close dm fm l tgt).2 f) tm' cm' t')) ->
  wp (file_dup fd1 fd2) (fs_ s dm fm tm cm t) Q.
Proof.
  intros tgt f Hc Hctx Hfd1 Hmax Hok H2 HQ1 HQ2 HQ3 HQ4. destruct (Hctx) as [Hn Hw Hl Hlen Hnone Hsome Hint].
  unfold file_dup. repeat f_step. simpl. rewrite Hc. repeat f_step. simpl.
  assert (f = NULL -> wp (fctx_unlock c;; mret (- EBADFD)) (fs_ s dm fm tm (alter (fc_set_lock true) c cm) t) Q) as Hbad.
  { intros. repeat f_step. rewrite (cm_relock _ _ w) by done. auto. }
  case_decide as Hfw. { apply Hbad. unfold f. rewrite (Hnone Hfw). unfold slot. by case_decide. }
  specialize (Hfd1 Hfw). destruct (lookup_lt_is_Some_2 l (Z.to_nat fd1)) as [q Hq]; [lia|].
  assert (f = q) as Hfq by (apply slot_lookup; [lia|done]).
  f_step. eapply wp_table_get; [done|by apply Hsome|lia|by rewrite list_lookup_fmap, Hq|]. rewrite <- Hfq.
  case_decide as Hf0. { apply Hbad. destruct Hf0 as [H|[H|H]]; [done|lia..]. }
  assert (f ≠ NULL) as Hf by tauto. replace (if decide (fd2 < 0) then fc_nfile w else fd2) with tgt by (unfold tgt, dup_target; by rewrite Hlen).
  assert (0 <= tgt) as Ht0 by (unfold tgt, dup_target; case_decide; lia).
  case_decide as Heq. { repeat f_step. rewrite (cm_relock _ _ w) by done. auto. }
  destruct (Hok f) as (v & Hv); [by apply slot_in|done|].
  case_decide as Hpos.
  - f_step. eapply wp_dup_grow; [done|done|lia| |].
    { intros t' Ht'. cbn [negb]. repeat f_step. rewrite (cm_relock _ _ w) by done. auto. }
    intros tm' cm' w' t' Hrt Hctx' Hfw'. cbn [negb]. destruct (Hctx') as [Hn' Hw' Hl' Hlen' Hnone' Hsome' Hint'].
    rewrite extend_length in Hlen' by lia. repeat f_step. simpl.
    assert (extend l tgt !! Z.to_nat tgt = Some (slot l tgt)) as Hs.
    { unfold extend, slot. rewrite decide_True by lia. destruct (l !! Z.to_nat tgt) as [x|] eqn:E; simpl.
      - by apply lookup_app_l_Some.
      - apply lookup_ge_None in E. rewrite lookup_app_r by lia. apply lookup_replicate_2. lia. }
    eapply wp_table_get; [done|by apply Hsome'|lia|by rewrite list_lookup_fmap, Hs|].
    specialize (HQ4 Hf Heq Ht0). unfold dup_close in HQ4.
    destruct (decide (slot l tgt = NULL)) as [Hold|Hold].
    + rewrite decide_False in HQ4 by tauto. eapply wp_dup_install; [done| |done|apply Hv|apply Hv|].
      * rewrite extend_length by lia. lia.
      * eapply HQ4; [by apply retab_set|by apply ctx_ok_set].
    + rewrite decide_True in HQ4 by (split; [lia|done]).
      destruct (Hok (slot l tgt)) as (u & Hu); [by apply slot_in|done|].
      f_step. eapply wp_flock; [done|apply Hu|apply Hu|]. f_step. eapply wp_fclose; [done|].
      rewrite decide_False by tauto. f_step. eapply wp_table_set; [done|by apply Hsome'|rewrite length_fmap, extend_length by lia; lia|].
      rewrite <- (alter_insert_Some _ _ _ _ (Hsome' Hfw')), <- list_fmap_insert.
      destruct (drop_ref_keeps dm fm (slot l tgt) f v) as (v' & Hv' & Hvl); [apply Hv|intros E; by apply (H2 Heq E), Hv|].
      eapply (wp_dup_install _ _ _ _ _ _ _ w' (<[Z.to_nat tgt := NULL]> (extend l tgt))); [by apply ctx_ok_set| |done|exact Hv'|by rewrite Hvl; apply Hv|].
      * rewrite length_insert, extend_length by lia. lia.
      * rewrite list_insert_insert_eq, insert_insert_eq. eapply HQ4; [by apply retab_set|by apply ctx_ok_set].
  - assert (tgt = 0) as E0 by lia. rewrite E0 in *. specialize (HQ4 Hf Heq Ht0). unfold dup_close in HQ4. rewrite decide_False in HQ4 by lia.
    rewrite extend_id in HQ4 by lia. eapply wp_dup_install; [done|lia|done|apply Hv|apply Hv|].
    eapply HQ4; [apply retab_set, retab_refl, Hw|by apply ctx_ok_set].
Qed.
End dup2.

(** ** Forking *)

Section fork.
Context {D : Type} {KM : Kmalloc} {DR : Drivers D} {IC : Icache D} {FO : FileOps D}.
Implicit Types (s : vfs D) (dm : gmap ptr dentry_t) (fm : gmap ptr file_t) (tm : gmap ptr (list (option ptr)))
  (cm : gmap ptr file_ctx_t) (t : nat) (l : list ptr).

Lemma add_ref_keeps fm p q v :
  fm !! q = Some v -> ∃ v', add_ref fm p !! q = Some v' ∧ f_lock v' = f_lock v.
Proof.
  intros Hq. unfold add_ref. destruct (decide (p = q)) as [<-|Hne]; [rewrite lookup_alter_eq, Hq|rewrite lookup_alter_ne by done]; simpl; eauto.
Qed.

Lemma wp_copy_files s dm fm tm cm t dst src pre suf (Q : unit -> vfs D -> Prop) :
  src ≠ NULL -> dst ≠ NULL -> src ≠ dst -> tm !! src = Some (Some <$> (pre ++ suf)) ->
  tm !! dst = Some ((Some <$> pre) ++ replicate (length suf) None) ->
  Forall (λ p, p ≠ NULL ∧ ∃ v, fm !! p = Some v ∧ f_lock v = false) suf ->
  Q tt (fs_ s dm (foldl add_ref fm suf) (<[dst := Some <$> (pre ++ suf)]> tm) cm t) ->
  wp (copy_files (length suf) dst src (Z.of_nat (length pre))) (fs_ s dm fm tm cm t) Q.
Proof.
  intros Hs Hd Hne. revert fm tm pre. induction suf as [|p suf IH]; intros fm tm pre Hsrc Hdst Hsuf HQ; simpl.
  { f_step. simpl in Hdst. rewrite app_nil_r in *. by rewrite insert_id in HQ. }
  apply Forall_cons_1 in Hsuf as [(Hp & v & Hv & Hvl) Hsuf]. f_step.
  eapply (wp_table_get _ _ _ _ _ _ _ _ _ p); [done|done|lia|by rewrite Nat2Z.id, list_lookup_fmap, list_lookup_middle|].
  f_step. rewrite decide_False by done. repeat f_step.
  eapply wp_table_set; [done|done|rewrite length_app, length_fmap; simpl; lia|]. rewrite Nat2Z.id. f_step. simpl.
  replace (alter (f_set_lock false) p _) with (add_ref fm p).
  2: { apply map_eq. intros q. unfold add_ref. destruct (decide (p = q)) as [<-|Hq]; [|by rewrite !lookup_alter_ne].
       rewrite !lookup_alter_eq, Hv. simpl. f_equal. destruct v; simpl in *; by subst. }
  rewrite <- (alter_insert_Some _ _ _ _ Hdst).
  replace (Z.of_nat (length pre) + 1) with (Z.of_nat (length (pre ++ [p]))) by (rewrite length_app; simpl; lia).
  apply IH.
  - rewrite lookup_insert_ne by done. by rewrite <- app_assoc.
  - rewrite lookup_insert_eq. f_equal. rewrite fmap_app, <- app_assoc. simpl. 
    rewrite <- (length_fmap Some pre) at 1. rewrite <- (Nat.add_0_r (length (Some <$> pre))), insert_app_r. done.
  - eapply Forall_impl; [exact Hsuf|]. intros q (Hq & u & Hu & Hul). split; [done|].
    destruct (add_ref_keeps fm p q u Hu) as (u' & ? & E). exists u'. split; [done|]. by rewrite E.
  - rewrite insert_insert_eq, <- app_assoc. exact HQ.
Qed.

(** A child context that has no table yet gets the open files of the parent;
    the counts of the working and the root directory grow. *)
Definition d_add (d : dentry_t) : dentry_t := d_set_count (d_count d + 1) d.
Definition child_of (w : file_ctx_t) (files : ptr) (wc : file_ctx_t) : file_ctx_t :=
  fc_set_nfile (fc_nfile w) (fc_set_files files (fc_set_root (fc_root w) (fc_set_cwd (fc_cwd w) wc))).

Lemma wp_fs_ddup s dm fm tm cm t p d (Q : ptr -> vfs D -> Prop) :
  p ≠ NULL -> dm !! p = Some d -> d_lock d = true -> Q p (fs_ s (alter d_add p dm) fm tm cm t) ->
  wp (ddup p) (fs_ s dm fm tm cm t) Q.
Proof. intros Hp Hd Hl HQ. unfold ddup. repeat d_step. exact HQ. Qed.

(** Taking the references of the directories of a child. *)
Lemma wp_copy_dirs {A} s dm fm tm cm t dst wc cwd root d1 d2 (k : M (vfs D) A) (Q : A -> vfs D -> Prop) :
  dst ≠ NULL -> cm !! dst = Some wc -> cwd ≠ NULL -> root ≠ NULL ->
  dm !! cwd = Some d1 -> d_lock d1 = false -> dm !! root = Some d2 -> d_lock d2 = false ->
  wp k (fs_ s (alter d_add root (alter d_add cwd dm)) fm tm (<[dst := fc_set_root root (fc_set_cwd cwd wc)]> cm) t) Q ->
  wp (dlock cwd;; (if decide (cwd ≠ root) then dlock root else mret tt);;
      d ← ddup cwd; update dst (fc_set_cwd d);; d ← ddup root; update dst (fc_set_root d);;
      (if decide (cwd ≠ root) then dunlock root else mret tt);; dunlock cwd;; k) (fs_ s dm fm tm cm t) Q.
Proof.
  intros Hd Hwc Hc Hr H1 L1 H2 L2 HQ.
  assert (∀ X, X = fs_ s (alter d_add root (alter d_add cwd dm)) fm tm (<[dst := fc_set_root root (fc_set_cwd cwd wc)]> cm) t -> wp k X Q) as HQ' by (by intros ? ->).
  assert (∀ cm', cm' = alter (fc_set_root root) dst (alter (fc_set_cwd cwd) dst cm) -> cm' = <[dst := fc_set_root root (fc_set_cwd cwd wc)]> cm) as Hcm.
  { intros ? ->. apply map_eq. intros x. destruct (decide (dst = x)) as [<-|Hne]; [|by rewrite !lookup_alter_ne, lookup_insert_ne by done].
    by rewrite !lookup_alter_eq, lookup_insert_eq, Hwc. }
  destruct (decide (cwd = root)) as [<-|Hne].
  - rewrite !decide_False by tauto. assert (d2 = d1) as -> by congruence.
    repeat f_step. eapply wp_fs_ddup; [done|by lk|done|]. repeat f_step. eapply wp_fs_ddup; [done|by lk|done|]. repeat f_step.
    apply HQ'. f_equal; [|by apply Hcm]. apply map_eq. intros x. destruct (decide (cwd = x)) as [<-|Hx]; [|by rewrite !lookup_alter_ne].
    rewrite !lookup_alter_eq, H1. simpl. f_equal. destruct d1; simpl in *; by subst.
  - rewrite !decide_True by done. assert (root ≠ cwd) by done. repeat f_step. eapply wp_fs_ddup; [done|by lk|done|]. repeat f_step. eapply wp_fs_ddup; [done|by lk|done|]. repeat f_step.
    apply HQ'. f_equal; [|by apply Hcm]. apply map_eq. intros x.
    destruct (decide (cwd = x)) as [<-|Hx]; [|destruct (decide (root = x)) as [<-|Hy]; [|by rewrite !lookup_alter_ne]].
    + repeat first [rewrite lookup_alter_eq|rewrite lookup_alter_ne by done]. rewrite H1. simpl. f_equal. destruct d1; simpl in *; by subst.
    + repeat first [rewrite lookup_alter_eq|rewrite lookup_alter_ne by done]. rewrite H2. simpl. f_equal. destruct d2; simpl in *; by subst.
Qed.
End fork.

Section fork2.
Context {D : Type} {KM : Kmalloc} {DR : Drivers D} {IC : Icache D} {FO : FileOps D}.
Implicit Types (s : vfs D) (dm : gmap ptr dentry_t) (fm : gmap ptr file_t) (tm : gmap ptr (list (option ptr)))
  (cm : gmap ptr file_ctx_t) (t : nat) (l : list ptr).

(** The array of the child: none when the parent has none. *)
Definition child_table tm l (q : ptr) : gmap ptr (list (option ptr)) := if decide (l = []) then tm else <[q := Some <$> l]> tm.

Lemma wp_proc_copy_files s dm fm tm cm t c w l ch wc d1 d2 (Q : Z -> vfs D -> Prop) :
  t_fctx (v_cur s) = c -> ctx_ok tm cm c w l -> ctx_ok tm cm ch wc [] -> c ≠ ch -> (l = [] -> fc_files w = NULL) ->
  fc_cwd w ≠ NULL -> fc_root w ≠ NULL -> dm !! fc_cwd w = Some d1 -> d_lock d1 = false ->
  dm !! fc_root w = Some d2 -> d_lock d2 = false ->
  Forall (λ p, p ≠ NULL ∧ ∃ v, fm !! p = Some v ∧ f_lock v = false) l ->
  (∀ t', l ≠ [] -> Q (- ENOMEM) (fs_ s dm fm tm cm t')) ->
  (∀ q t', (l = [] <-> q = NULL) -> (l ≠ [] -> tm !! q = None) ->
     Q 0 (fs_ s (alter d_add (fc_root w) (alter d_add (fc_cwd w) dm)) (foldl add_ref fm l) (child_table tm l q)
            (<[ch := child_of w q wc]> cm) t')) ->
  wp (proc_copy_files ch) (fs_ s dm fm tm cm t) Q.
Proof.
  intros Hc [Hn Hw Hl Hlen Hnone Hsome _] [Cn Cw Cl Clen _ _ _] Hne Hnil Hcwd Hroot H1 L1 H2 L2 Hfiles HQ1 HQ2.
  assert (∀ X Y, X = cm -> Q Y (fs_ s dm fm tm cm t) -> Q Y (fs_ s dm fm tm X t)) as Hcm by (by intros ? ? ->).
  unfold proc_copy_files. repeat f_step. simpl. rewrite Hc. assert (ch ≠ c) by done. repeat f_step.
  unfold file_copy. rewrite decide_False by tauto. repeat f_step. simpl. rewrite (decide_False (P := fc_cwd w = NULL ∨ fc_root w = NULL)) by tauto.
  set (cml := alter (fc_set_lock true) ch (alter (fc_set_lock true) c cm)). rewrite Hlen, Nat2Z.id.
  assert (∀ Y dm' fm' tm' t', Q Y (fs_ s dm' fm' tm' cm t') ->
     wp (fctx_unlock ch;; fctx_unlock c;; mret Y) (fs_ s dm' fm' tm' cml t') Q) as Hend.
  { intros Y dm' fm' tm' t' HQ. unfold cml. repeat f_step.
    replace (alter _ c _) with cm; [done|]. apply map_eq. intros x.
    destruct (decide (c = x)) as [<-|Hx]; [|destruct (decide (ch = x)) as [<-|Hy]; [|by rewrite !lookup_alter_ne]].
    - repeat first [rewrite lookup_alter_eq|rewrite lookup_alter_ne by done]. rewrite Hw. simpl. f_equal. destruct w; simpl in *; by subst.
    - repeat first [rewrite lookup_alter_eq|rewrite lookup_alter_ne by done]. rewrite Cw. simpl. f_equal. destruct wc; simpl in *; by subst. }
  assert (∀ q tm' t', (l = [] <-> q = NULL) -> (l ≠ [] -> tm !! q = None) ->
    tm' = (if decide (l = []) then tm else <[q := replicate (length l) None]> tm) ->
    wp (if decide (Z.of_nat (length l) ≠ 0 ∧ q = NULL) then mret (- ENOMEM) else
        dlock (fc_cwd w);; (if decide (fc_cwd w ≠ fc_root w) then dlock (fc_root w) else mret tt);;
        d ← ddup (fc_cwd w); update ch (fc_set_cwd d);; d ← ddup (fc_root w); update ch (fc_set_root d);;
        (if decide (fc_cwd w ≠ fc_root w) then dunlock (fc_root w) else mret tt);; dunlock (fc_cwd w);;
        update ch (fc_set_files q);; update ch (fc_set_nfile (Z.of_nat (length l)));;
        copy_files (length l) q (fc_files w) 0;; mret 0)
      (fs_ s dm fm tm' cml t') (λ r s', wp (fctx_unlock ch;; fctx_unlock c;; mret r) s' Q)) as Hmain.
  { intros q tm' t' Hq Hqn Htm'. rewrite decide_False by (intros [E1 E2]; apply Hq in E2; by rewrite E2 in E1).
    eapply wp_copy_dirs; [done|unfold cml; by lk|done..|]. do 4 f_step. f_step.
    assert (∀ X Y, X = foldl add_ref fm l -> Y = child_table tm l q ->
       wp (mret 0) (fs_ s (alter d_add (fc_root w) (alter d_add (fc_cwd w) dm)) X Y
          (alter (fc_set_nfile (Z.of_nat (length l))) ch (alter (fc_set_files q) ch (<[ch := fc_set_root (fc_root w) (fc_set_cwd (fc_cwd w) (fc_set_lock true wc))]> cml))) t')
        (λ r s', wp (fctx_unlock ch;; fctx_unlock c;; mret r) s' Q)) as Hfin.
    { intros ? ? -> ->. f_step.
      replace (alter (fc_set_nfile _) ch _) with (alter (fc_set_lock true) ch (alter (fc_set_lock true) c (<[ch := child_of w q wc]> cm))).
      - repeat f_step. match goal with |- Q _ (fs_ s _ _ _ ?X _) => replace X with (<[ch := child_of w q wc]> cm) end; [by apply HQ2|].
        apply map_eq. intros x.
        destruct (decide (c = x)) as [<-|Hx]; [|destruct (decide (ch = x)) as [<-|Hy]; [|by rewrite !lookup_alter_ne]].
        + repeat first [rewrite lookup_alter_eq|rewrite lookup_alter_ne by done|rewrite lookup_insert_ne by done]. rewrite Hw. simpl. f_equal. destruct w; simpl in *; by subst.
        + repeat first [rewrite lookup_alter_eq|rewrite lookup_alter_ne by done|rewrite lookup_insert_eq]. simpl. f_equal. unfold child_of. destruct wc; simpl in *; by subst.
      - apply map_eq. intros x. unfold cml.
        destruct (decide (c = x)) as [<-|Hx]; [|destruct (decide (ch = x)) as [<-|Hy]; [|by rewrite !lookup_alter_ne, !lookup_insert_ne, !lookup_alter_ne by done]].
        + repeat first [rewrite lookup_alter_eq|rewrite lookup_alter_ne by done|rewrite lookup_insert_ne by done]. done.
        + repeat first [rewrite lookup_alter_eq|rewrite lookup_alter_ne by done|rewrite lookup_insert_eq]. unfold child_of. rewrite Hlen. done. }
    destruct (decide (l = [])) as [->|Hl0].
    - simpl. f_step. by apply Hfin.
    - eapply (wp_copy_files _ _ _ _ _ _ _ _ [] l); [by intros E; apply Hl0, Hnone|by intros E; apply Hl0, Hq| | | |done|].
      + intros E. specialize (Hqn Hl0). rewrite <- E, Hsome in Hqn; [done|]. by intros E'; apply Hl0, Hnone.
      + subst tm'. rewrite lookup_insert_ne; [apply Hsome; by intros E; apply Hl0, Hnone|].
        intros E. specialize (Hqn Hl0). rewrite E, Hsome in Hqn; [done|]. by intros E'; apply Hl0, Hnone.
      + subst tm'. by rewrite lookup_insert_eq.
      + simpl. apply Hfin; [done|]. unfold child_table. rewrite decide_False by done. subst tm'. by rewrite insert_insert_eq. }
  f_step. destruct (decide (l = [])) as [->|Hl0].
  - rewrite decide_False by (simpl; tauto). f_step. by eapply Hmain.
  - rewrite decide_True by (destruct l; [done|simpl; lia]). apply wp_kmalloc.
    + rewrite decide_True by (split; [destruct l; [done|simpl; lia]|done]). f_step. by apply Hend, HQ1.
    + intros q Hq Hqf _. simpl in Hqf. assert (tm !! q = None) as Hqn by (apply not_elem_of_dom; set_solver). apply valid_ptr_nonnull in Hq.
      change (hl_put _ _) with (fs_ s dm fm (<[q := replicate (length l) None]> tm) cml (S t)). by eapply Hmain; [tauto|done|].
Qed.
End fork2.
