(* ===== verification/FdProps.v ===== *)
(** * The descriptors of all processes

    Open files are shared between descriptors and between processes.  The
    abstract state says which file every descriptor of every process stands
    for; a file lives exactly as long as something refers to it, its count is
    the number of those references, and the count of a directory entry is that
    of the open files plus what others hold. *)

From S2P Require Import Prelude Dll Cond Lock Vfs Cred Inode Dentry DentrySpec File FdTable FdSpec.

(** ** Open files and their references *)

(** How often [p] occurs in a list of references. *)
Definition occ (p : ptr) (xs : list ptr) : Z := Z.of_nat (length (filter (λ x, x = p) xs)).

Lemma occ_cons p q xs : occ p (q :: xs) = (if decide (q = p) then 1 else 0) + occ p xs.
Proof. unfold occ. rewrite filter_cons. case_decide; simpl; lia. Qed.
Lemma occ_app p xs ys : occ p (xs ++ ys) = occ p xs + occ p ys.
Proof. unfold occ. rewrite filter_app, length_app. lia. Qed.
Lemma occ_nonneg p xs : 0 <= occ p xs.
Proof. unfold occ. lia. Qed.
Lemma occ_elem p xs : p ∈ xs <-> 1 <= occ p xs.
Proof.
  induction xs as [|q xs IH]; [unfold occ; simpl; split; [by intros ?%not_elem_of_nil|lia]|].
  rewrite occ_cons, elem_of_cons, IH. pose proof (occ_nonneg p xs). case_decide; split; intros; try lia; naive_solver.
Qed.
Lemma occ_insert p xs (i : nat) q r : xs !! i = Some r -> occ p (<[i := q]> xs) = occ p (q :: xs) - (if decide (r = p) then 1 else 0).
Proof.
  intros Hi. rewrite <- (take_drop_middle _ _ _ Hi) at 2.
  assert (i < length xs)%nat by by eapply lookup_lt_Some. rewrite insert_take_drop by done.
  rewrite occ_cons, !occ_app, !occ_cons. lia.
Qed.
Lemma occ_replicate_null p n : p ≠ NULL -> occ p (replicate n NULL) = 0.
Proof. intros. induction n; [done|]. simpl. rewrite occ_cons, decide_False by done. lia. Qed.
Lemma occ_extend p l fd : p ≠ NULL -> occ p (extend l fd) = occ p l.
Proof. intros. unfold extend. rewrite occ_app, occ_replicate_null by done. lia. Qed.

(** The entry and the flags of every open file. *)
Abbreviation files_t := (gmap ptr (ptr * Z)).

(** The number of open files of an entry. *)
Definition uses (fs : files_t) (dp : ptr) : Z := Z.of_nat (size (filter (λ kv, kv.2.1 = dp) fs)).

Lemma uses_insert (fs : files_t) f dp fl dq : fs !! f = None -> uses (<[f := (dp, fl)]> fs) dq = uses fs dq + (if decide (dp = dq) then 1 else 0).
Proof.
  intros Hf. unfold uses. case_decide as E.
  - rewrite map_filter_insert_True by done. rewrite map_size_insert_None; [lia|]. apply map_lookup_filter_None. by left.
  - rewrite map_filter_insert_False by done. rewrite delete_id by done. lia.
Qed.
Lemma uses_delete (fs : files_t) f dp fl dq : fs !! f = Some (dp, fl) -> uses (delete f fs) dq = uses fs dq - (if decide (dp = dq) then 1 else 0).
Proof.
  intros Hf. rewrite <- (insert_delete_id fs f (dp, fl)) at 2 by done. rewrite uses_insert by (by rewrite lookup_delete_eq). lia.
Qed.
Lemma uses_pos (fs : files_t) f dp fl : fs !! f = Some (dp, fl) -> 1 <= uses fs dp.
Proof.
  intros Hf. pose proof (uses_delete fs f dp fl dp Hf) as E. rewrite decide_True in E by done. unfold uses in *. lia.
Qed.

(** Files that nothing refers to are freed. *)
Definition keep (xs : list ptr) (fs : files_t) : files_t := filter (λ kv, kv.1 ∈ xs) fs.

Lemma keep_lookup xs fs p : keep xs fs !! p = if decide (p ∈ xs) then fs !! p else None.
Proof.
  unfold keep. case_decide as H.
  - destruct (fs !! p) eqn:E; [by apply map_lookup_filter_Some_2|]. apply map_lookup_filter_None. by left.
  - apply map_lookup_filter_None. right. intros x _ Hx. by apply H.
Qed.

Definition file_is (v : file_t) (x : ptr * Z) (n : Z) : Prop :=
  f_dentry v = x.1 ∧ f_oflags v = x.2 ∧ f_lock v = false ∧ f_fops v = NULL ∧ f_refcnt v = n.

(** The objects in memory hold the files [fs], to which [xs] are the
    references; [base] are the references to entries that others hold. *)
Record files_ok (dm : gmap ptr dentry_t) (fm : gmap ptr file_t) (fs : files_t) (base : gmap ptr Z) (xs : list ptr) : Prop := {
  fo_at p : match fm !! p, fs !! p with
            | Some v, Some x => p ≠ NULL ∧ file_is v x (occ p xs) ∧ p ∈ xs ∧ is_Some (base !! x.1)
            | None, None => True
            | _, _ => False
            end;
  fo_live p : p ∈ xs -> p ≠ NULL -> is_Some (fs !! p);
  fo_dentry dp b : base !! dp = Some b ->
    dp ≠ NULL ∧ 1 <= b ∧ ∃ d, dm !! dp = Some d ∧ d_lock d = false ∧ d_count d = b + uses fs dp;
}.

Section files.
Implicit Types (dm : gmap ptr dentry_t) (fm : gmap ptr file_t) (fs : files_t) (base : gmap ptr Z).

(** Only how often a file occurs among the references matters. *)
Lemma files_ok_occ dm fm fs base xs ys :
  files_ok dm fm fs base xs -> (∀ p, p ≠ NULL -> occ p xs = occ p ys) -> files_ok dm fm fs base ys.
Proof.
  intros [H1 H2 H3] E. assert (∀ p, p ≠ NULL -> p ∈ xs <-> p ∈ ys) as E'.
  { intros p Hp. by rewrite !occ_elem, E. }
  split; [|intros p Hp Hn; apply H2; [by apply E'|done]|done].
  intros p. specialize (H1 p). destruct (fm !! p), (fs !! p); try done. destruct H1 as (Hp & ? & ? & ?).
  rewrite <- E by done. split; [done|]. split; [done|]. split; [by apply E'|done].
Qed.

Lemma files_ok_live dm fm fs base xs p :
  files_ok dm fm fs base xs -> p ∈ xs -> p ≠ NULL ->
  ∃ v x, fm !! p = Some v ∧ fs !! p = Some x ∧ file_is v x (occ p xs) ∧ is_Some (base !! x.1) ∧ file_ok dm fm p v.
Proof.
  intros [H1 H2 H3] Hp Hn. destruct (H2 p Hp Hn) as [x Hx]. pose proof (H1 p) as H. rewrite Hx in H.
  destruct (fm !! p) as [v|] eqn:Hv; [|done]. destruct H as (_ & (F1 & F2 & F3 & F4 & F5) & _ & [b Hb]).
  exists v, x. destruct x as [dp fl]. simpl in *. destruct (H3 _ _ Hb) as (Hdn & Hb1 & d & Hd & Hdl & Hdc).
  split; [done|]. split; [done|]. split; [done|]. split; [by exists b|].
  split; try done; [rewrite F5; by apply occ_elem|by rewrite F1|].
  exists d. rewrite F1. split; [done|]. split; [done|]. pose proof (uses_pos _ _ _ _ Hx). lia.
Qed.

(** A new file. *)
Lemma files_ok_open dm fm fs base xs f dp fl :
  files_ok dm fm fs base xs -> f ≠ NULL -> fm !! f = None -> is_Some (base !! dp) ->
  fs !! f = None ∧ f ∉ xs ∧ files_ok (alter d_add dp dm) (<[f := opened dp fl]> fm) (<[f := (dp, fl)]> fs) base (f :: xs).
Proof.
  intros [H1 H2 H3] Hf Hff Hdp. assert (fs !! f = None) as Hsf.
  { pose proof (H1 f) as H. rewrite Hff in H. by destruct (fs !! f). }
  assert (f ∉ xs) as Hx by (intros H; destruct (H2 f H Hf); congruence).
  split; [done|]. split; [done|]. split.
  - intros p. destruct (decide (f = p)) as [<-|Hne].
    + rewrite !lookup_insert_eq. split; [done|]. split; [|split; [by left|done]].
      assert (occ f xs = 0) as E by (pose proof (occ_nonneg f xs); rewrite occ_elem in Hx; lia).
      rewrite occ_cons, decide_True, E by done. done.
    + rewrite !lookup_insert_ne by done. specialize (H1 p). destruct (fm !! p), (fs !! p); try done.
      destruct H1 as (? & Hi & ? & ?). rewrite occ_cons, decide_False by done. repeat split; try done; try apply Hi. by right.
  - intros p [->|Hp]%elem_of_cons Hn; [by rewrite lookup_insert_eq|].
    rewrite lookup_insert_ne by (by intros ->). by apply H2.
  - intros dq b Hb. destruct (H3 dq b Hb) as (Hq & Hb1 & d & Hd & Hdl & Hdc). split; [done|]. split; [done|].
    rewrite uses_insert by done. destruct (decide (dp = dq)) as [->|Hne].
    + exists (d_add d). rewrite lookup_alter_eq, Hd. simpl. split; [done|]. split; [done|]. lia.
    + exists d. rewrite lookup_alter_ne by done. split; [done|]. split; [done|]. lia.
Qed.

(** One more reference to an open file. *)
Lemma files_ok_add dm fm fs base xs p :
  files_ok dm fm fs base xs -> p ∈ xs -> p ≠ NULL -> files_ok dm (add_ref fm p) fs base (p :: xs).
Proof.
  intros Hok Hp Hn. destruct (files_ok_live _ _ _ _ _ _ Hok Hp Hn) as (v & x & Hv & Hx & Hi & Hb & _). destruct Hok as [H1 H2 H3].
  split; [|intros q [->|Hq]%elem_of_cons Hqn; by apply H2|done].
  intros q. specialize (H1 q). unfold add_ref. rewrite occ_cons. destruct (decide (p = q)) as [<-|Hne].
  - rewrite lookup_alter_eq, Hv, Hx. simpl. split; [done|]. destruct Hi as (? & ? & ? & ? & E).
    repeat split; try done; [simpl; lia|by left].
  - rewrite lookup_alter_ne by done. destruct (fm !! q), (fs !! q); try done. destruct H1 as (? & Hi' & ? & ?).
    repeat split; try done; try apply Hi'. by right.
Qed.
Lemma files_ok_adds dm fs base xs l : ∀ fm,
  files_ok dm fm fs base xs -> Forall (λ p, p ∈ xs ∧ p ≠ NULL) l -> files_ok dm (foldl add_ref fm l) fs base (l ++ xs).
Proof.
  revert xs. induction l as [|p l IH]; intros xs fm Hok Hl; [done|]. apply Forall_cons_1 in Hl as [[Hp Hn] Hl]. simpl.
  eapply files_ok_occ; [eapply (IH (p :: xs)); [by apply files_ok_add|]|].
  - eapply Forall_impl; [exact Hl|]. intros q [Hq ?]. split; [by right|done].
  - intros q _. rewrite occ_app, !occ_cons, occ_app. lia.
Qed.

(** One reference less. *)
Lemma files_ok_drop dm fm fs base xs p :
  files_ok dm fm fs base (p :: xs) -> p ≠ NULL ->
  files_ok (drop_ref dm fm p).1 (drop_ref dm fm p).2 (keep xs fs) base xs.
Proof.
  intros Hok Hn. destruct (files_ok_live _ _ _ _ _ p Hok) as (v & [dp fl] & Hv & Hx & Hi & Hb & _); [by left|done|].
  destruct Hok as [H1 H2 H3]. unfold drop_ref. rewrite Hv. destruct Hi as (F1 & F2 & F3 & F4 & F5). simpl in *.
  rewrite occ_cons, decide_True in F5 by done. pose proof (occ_nonneg p xs) as H0.
  assert (∀ q, q ≠ p -> match fm !! q, fs !! q with
     | Some v, Some x => q ≠ NULL ∧ file_is v x (occ q xs) ∧ q ∈ xs ∧ is_Some (base !! x.1) | None, None => True | _, _ => False end) as Hq.
  { intros q Hqp. specialize (H1 q). destruct (fm !! q), (fs !! q); try done. rewrite occ_cons, decide_False in H1 by done.
    destruct H1 as (? & ? & [->|?]%elem_of_cons & ?); done. }
  assert (∀ q, q ∈ xs -> q ≠ NULL -> is_Some (keep xs fs !! q)) as Hl.
  { intros q Hqx Hqn. rewrite keep_lookup, decide_True by done. apply H2; [by right|done]. }
  destruct (decide (f_refcnt v = 1)) as [E1|E1]; simpl.
  - assert (p ∉ xs) as Hpx by (rewrite occ_elem; lia).
    assert (keep xs fs = delete p fs) as Ek.
    { apply map_eq. intros q. rewrite keep_lookup. destruct (decide (q = p)) as [->|Hqp]; [by rewrite decide_False, lookup_delete_eq|].
      rewrite lookup_delete_ne by done. specialize (Hq q Hqp). case_decide as Hqx; [done|]. destruct (fm !! q), (fs !! q); try done. tauto. }
    split; [|done|].
    + intros q. rewrite Ek. destruct (decide (q = p)) as [->|Hqp]; [by rewrite !lookup_delete_eq|]. rewrite !lookup_delete_ne by done. by apply Hq.
    + intros dq b Hbq. destruct (H3 dq b Hbq) as (Hdq & Hb1 & d & Hd & Hdl & Hdc). split; [done|]. split; [done|].
      rewrite Ek, (uses_delete _ _ _ _ _ Hx), F1. destruct (decide (dp = dq)) as [->|Hne].
      * exists (d_drop d). rewrite lookup_alter_eq, Hd. simpl. split; [done|]. split; [done|]. lia.
      * exists d. rewrite lookup_alter_ne by done. split; [done|]. split; [done|]. lia.
  - assert (p ∈ xs) as Hpx by (rewrite occ_elem; lia).
    assert (keep xs fs = fs) as Ek.
    { apply map_eq. intros q. rewrite keep_lookup. destruct (decide (q = p)) as [->|Hqp]; [by rewrite decide_True|].
      specialize (Hq q Hqp). case_decide as Hqx; [done|]. destruct (fm !! q), (fs !! q); try done. tauto. }
    rewrite Ek in *. split; [|done|done].
    intros q. destruct (decide (q = p)) as [->|Hqp].
    + rewrite lookup_insert_eq, Hx. split; [done|]. split; [|done]. repeat split; try done. simpl. lia.
    + rewrite lookup_insert_ne by done. by apply Hq.
Qed.

(** Others take a reference to an entry. *)
Lemma files_ok_base dm fm fs base xs dp :
  files_ok dm fm fs base xs -> is_Some (base !! dp) -> files_ok (alter d_add dp dm) fm fs (alter Z.succ dp base) xs.
Proof.
  intros [H1 H2 H3] [b0 Hb0]. split; [|done|].
  - intros p. specialize (H1 p). destruct (fm !! p), (fs !! p); try done. destruct H1 as (? & ? & ? & [b Hb]).
    split; [done|]. split; [done|]. split; [done|]. destruct (decide (dp = p0.1)) as [<-|Hne]; [by rewrite lookup_alter_eq, Hb0; eexists|rewrite lookup_alter_ne by done; by exists b].
  - intros dq b Hb. destruct (decide (dp = dq)) as [<-|Hne].
    + rewrite lookup_alter_eq, Hb0 in Hb. injection Hb as <-. destruct (H3 _ _ Hb0) as (? & ? & d & Hd & ? & ?).
      split; [done|]. split; [lia|]. exists (d_add d). rewrite lookup_alter_eq, Hd. simpl. split; [done|]. split; [done|]. lia.
    + rewrite lookup_alter_ne in Hb by done. destruct (H3 _ _ Hb) as (? & ? & d & Hd & ? & ?). split; [done|]. split; [done|].
      exists d. by rewrite lookup_alter_ne.
Qed.
End files.

(** ** The tables of the processes *)

Section tables.
Implicit Types (tm : gmap ptr (list (option ptr))) (cm : gmap ptr file_ctx_t) (base : gmap ptr Z) (cs : list (ptr * list ptr)).

(** The contexts [cs] with their tables: no array is shared, and the working
    and the root directory are entries that are in use. *)
Record tabs_ok tm cm base cs : Prop := {
  to_nodup : NoDup cs.*1;
  to_ctx c l : (c, l) ∈ cs -> ∃ w, ctx_ok tm cm c w l ∧ (l = [] -> fc_files w = NULL) ∧
                 is_Some (base !! fc_cwd w) ∧ is_Some (base !! fc_root w);
  to_inj c1 w1 c2 w2 : c1 ∈ cs.*1 -> c2 ∈ cs.*1 -> cm !! c1 = Some w1 -> cm !! c2 = Some w2 -> c1 ≠ c2 ->
                 fc_files w1 = fc_files w2 -> fc_files w1 = NULL;
}.

Lemma tabs_ok_head tm cm base c l cs :
  tabs_ok tm cm base ((c, l) :: cs) -> ∃ w, ctx_ok tm cm c w l ∧ (l = [] -> fc_files w = NULL) ∧
    is_Some (base !! fc_cwd w) ∧ is_Some (base !! fc_root w).
Proof. intros H. apply (to_ctx _ _ _ _ H). by left. Qed.

Lemma tabs_ok_perm tm cm base cs cs' : cs ≡ₚ cs' -> tabs_ok tm cm base cs -> tabs_ok tm cm base cs'.
Proof.
  intros P [H1 H2 H3]. split; [by rewrite <- P| |]; [intros c l; rewrite <- P; apply H2|].
  intros c1 w1 c2 w2. rewrite <- P. apply H3.
Qed.

(** A context whose array is not touched. *)
Lemma ctx_ok_frame tm cm tm' cm' c w l :
  ctx_ok tm cm c w l -> cm' !! c = Some w -> (fc_files w ≠ NULL -> tm' !! fc_files w = tm !! fc_files w) -> ctx_ok tm' cm' c w l.
Proof. intros [] Hc Ht. split; try done. intros Hn. rewrite Ht by done. auto. Qed.

(** The table of one context changes. *)
Lemma tabs_ok_retab tm cm base c l cs w tm' cm' w' l' :
  tabs_ok tm cm base ((c, l) :: cs) -> cm !! c = Some w -> retab tm cm c w tm' cm' w' -> ctx_ok tm' cm' c w' l' -> l' ≠ [] ->
  tabs_ok tm' cm' base ((c, l') :: cs).
Proof.
  intros [H1 H2 H3] Hw [R1 R2 R3 R4 R5 R6] Hctx Hl'. simpl in *. apply NoDup_cons in H1 as Hnd. destruct Hnd as [Hc Hnd].
  destruct (H2 c l) as (w0 & Hw0 & Hnil & Hcwd & Hroot); [by left|].
  assert (w0 = w) as -> by (pose proof (co_at _ _ _ _ _ Hw0); congruence).
  assert (∀ c0 w0, c0 ∈ cs.*1 -> cm !! c0 = Some w0 -> fc_files w0 ≠ NULL -> fc_files w0 ≠ fc_files w ∧ is_Some (tm !! fc_files w0) ->
    fc_files w0 ≠ fc_files w') as Hfresh.
  { intros c0 w0 Hc0 Hw0' Hn [Hne [x Hx]] E. destruct R3 as [R3|R3]; [congruence|]. rewrite E in Hx. congruence. }
  assert (∀ c0 l0, (c0, l0) ∈ cs -> c0 ≠ c ∧ ∃ w0, ctx_ok tm cm c0 w0 l0 ∧ cm !! c0 = Some w0 ∧ cm' !! c0 = Some w0 ∧
     (fc_files w0 ≠ NULL -> fc_files w0 ≠ fc_files w ∧ fc_files w0 ≠ fc_files w')) as Hother.
  { intros c0 l0 Hin. assert (c0 ∈ cs.*1) as Hin1 by (by apply list_elem_of_fmap_2' with (x := (c0, l0))).
    assert (c0 ≠ c) as Hne by (by intros ->). split; [done|]. destruct (H2 c0 l0) as (w0 & Hw0' & _); [by right|].
    exists w0. pose proof (co_at _ _ _ _ _ Hw0') as Hat. split; [done|]. split; [done|]. split; [by rewrite R1, lookup_insert_ne|].
    intros Hn. assert (fc_files w0 ≠ fc_files w).
    { intros E. apply Hn. eapply (H3 c0 w0 c w); [by right|by left|done..]. }
    split; [done|]. eapply Hfresh; try done. split; [done|]. eexists. by apply (co_some _ _ _ _ _ Hw0'). }
  split; simpl; [done| |].
  - intros c0 l0 [E|Hin]%elem_of_cons; [injection E as -> ->; exists w'; rewrite R5, R6; done|].
    destruct (Hother c0 l0 Hin) as (Hne & w0 & Hctx0 & Hat & Hat' & Hfs). exists w0.
    destruct (H2 c0 l0) as (w1 & Hw1 & E1 & E2 & E3); [by right|]. assert (w1 = w0) as -> by (pose proof (co_at _ _ _ _ _ Hw1); congruence).
    split; [|done]. eapply ctx_ok_frame; [done|done|]. intros Hn. destruct (Hfs Hn). by apply R2.
  - assert (∀ c0 w0, c0 ∈ cs.*1 -> cm' !! c0 = Some w0 -> cm !! c0 = Some w0 ∧ c0 ≠ c ∧ (fc_files w0 ≠ NULL -> fc_files w0 ≠ fc_files w')) as Ho.
    { intros c0 w0 Hin Hat. apply list_elem_of_fmap in Hin as ([c1 l1] & E & Hin). simpl in E. subst c1.
      destruct (Hother c0 l1 Hin) as (Hne & w1 & _ & Hat1 & Hat1' & Hfs). assert (w1 = w0) as -> by congruence.
      split; [done|]. split; [done|]. intros Hn. by apply Hfs. }
    assert (cm' !! c = Some w') as Hat' by (by rewrite R1, lookup_insert_eq).
    intros c1 w1 c2 w2 [->|Hc1]%elem_of_cons [->|Hc2]%elem_of_cons Hw1 Hw2 Hne E; [done|..].
    + assert (w1 = w') as -> by congruence. destruct (Ho _ _ Hc2 Hw2) as (_ & _ & Hx).
      destruct (decide (fc_files w2 = NULL)) as [En|En]; [congruence|]. by destruct (Hx En).
    + assert (w2 = w') as -> by congruence. destruct (Ho _ _ Hc1 Hw1) as (_ & _ & Hx).
      destruct (decide (fc_files w1 = NULL)) as [En|En]; [done|]. by destruct (Hx En).
    + destruct (Ho _ _ Hc1 Hw1) as (A1 & _ & _). destruct (Ho _ _ Hc2 Hw2) as (A2 & _ & _).
      eapply (H3 c1 w1 c2 w2); [by right|by right|done..].
Qed.

Lemma tabs_ok_base tm cm base dp cs : tabs_ok tm cm base cs -> tabs_ok tm cm (alter Z.succ dp base) cs.
Proof.
  intros [H1 H2 H3]. assert (∀ q, is_Some (base !! q) -> is_Some (alter Z.succ dp base !! q)) as Hs.
  { intros q. by rewrite lookup_alter_is_Some. }
  split; [done| |done]. intros c l Hin. destruct (H2 c l Hin) as (w & ? & ? & ? & ?). exists w. auto.
Qed.

(** A child gets a copy of the table of its parent. *)
Lemma tabs_ok_fork tm cm base c w l ch wc q cs :
  tabs_ok tm cm base ((c, l) :: (ch, []) :: cs) -> cm !! c = Some w -> cm !! ch = Some wc ->
  (l = [] <-> q = NULL) -> (l ≠ [] -> tm !! q = None) ->
  tabs_ok (child_table tm l q) (<[ch := child_of w q wc]> cm) base ((c, l) :: (ch, l) :: cs).
Proof.
  intros H Hw Hwc Hq Hqn. destruct (tabs_ok_head _ _ _ _ _ _ H) as (w0 & Hctx & Hnil & Hcwd & Hroot).
  assert (w0 = w) as -> by (pose proof (co_at _ _ _ _ _ Hctx); congruence). destruct H as [H1 H2 H3].
  destruct (H2 ch []) as (wc0 & Hctxc & Hnilc & Hcwdc & Hrootc); [by right; left|].
  assert (wc0 = wc) as -> by (pose proof (co_at _ _ _ _ _ Hctxc); congruence).
  simpl in *. assert (c ≠ ch ∧ c ∉ cs.*1 ∧ ch ∉ cs.*1) as (Hne & Hc & Hch).
  { apply NoDup_cons in H1 as [A1 [A2 _]%NoDup_cons]. rewrite elem_of_cons in A1. tauto. }
  assert (∀ c0 w0 l0, ctx_ok tm cm c0 w0 l0 -> c0 ≠ ch -> ctx_ok (child_table tm l q) (<[ch := child_of w q wc]> cm) c0 w0 l0) as Hfr.
  { intros c0 w0 l0 Hctx0 Hn. eapply ctx_ok_frame; [done|rewrite lookup_insert_ne by done; apply Hctx0|].
    intros Hf. unfold child_table. case_decide as El; [done|]. rewrite lookup_insert_ne; [done|].
    intros ->. pose proof (co_some _ _ _ _ _ Hctx0 Hf). rewrite Hqn in *; done. }
  assert (∀ c0 w0, c0 ∈ (c :: cs.*1) -> cm !! c0 = Some w0 -> fc_files w0 = q -> q = NULL) as Hfresh.
  { intros c0 w0 Hin Hat E. destruct (decide (q = NULL)) as [|Hqq]; [done|exfalso].
    assert (∃ l0, (c0, l0) ∈ (c, l) :: (ch, []) :: cs) as [l0 Hin0].
    { apply elem_of_cons in Hin as [->|Hin]; [exists l; by left|]. apply list_elem_of_fmap in Hin as ([c1 l1] & Ec & Hin). simpl in Ec. subst. exists l1. by right; right. }
    destruct (H2 _ _ Hin0) as (w1 & Hc1 & _). assert (w1 = w0) as -> by (pose proof (co_at _ _ _ _ _ Hc1); congruence).
    rewrite <- E in Hqn, Hqq. pose proof (co_some _ _ _ _ _ Hc1 Hqq) as Hs. rewrite Hqn in Hs; [done|]. intros El. apply Hqq. rewrite E. by apply Hq. }
  split; simpl; [done| |].
  - intros c0 l0 [E|[E|Hin]%elem_of_cons]%elem_of_cons.
    + injection E as -> ->. exists w. auto.
    + injection E as -> ->. exists (child_of w q wc). unfold child_of. simpl. split; [|split; [intros; by apply Hq|done]].
      destruct Hctx, Hctxc. split; simpl; try done; [by rewrite lookup_insert_eq|by intros ?%Hq|].
      intros Hqq. unfold child_table. rewrite decide_False by (by rewrite Hq). by rewrite lookup_insert_eq.
    + destruct (H2 c0 l0) as (w0 & Hctx0 & ?); [by right; right|]. exists w0. split; [|done]. apply Hfr; [done|].
      intros ->. by apply Hch, (list_elem_of_fmap_2' fst cs (ch, l0)).
  - intros c1 w1 c2 w2 Hc1 Hc2 Hw1 Hw2 Hn E.
    assert (∀ c0, c0 ∈ c :: ch :: cs.*1 -> c0 ≠ ch -> c0 ∈ c :: cs.*1) as Hsub by (intros c0; rewrite !elem_of_cons; tauto).
    destruct (decide (c1 = ch)) as [->|N1]; [|destruct (decide (c2 = ch)) as [->|N2]].
    + rewrite lookup_insert_eq in Hw1. injection Hw1 as <-. rewrite lookup_insert_ne in Hw2 by done. simpl in *.
      apply (Hfresh c2 w2); auto.
    + rewrite lookup_insert_eq in Hw2. injection Hw2 as <-. rewrite lookup_insert_ne in Hw1 by done. simpl in *.
      rewrite E. apply (Hfresh c1 w1); auto.
    + rewrite lookup_insert_ne in Hw1, Hw2 by done. by eapply (H3 c1 w1 c2 w2).
Qed.
End tables.

(** ** The abstract machine *)

(** The running process with its table, the other processes with theirs, the
    references nobody can give back, the open files, and the references to
    entries held by others. *)
Record fds := Fds {
  a_cur : ptr; a_tab : list ptr; a_others : list (ptr * list ptr);
  a_lost : list ptr; a_files : files_t; a_base : gmap ptr Z;
}.
Definition a_refs (a : fds) : list ptr := a_tab a ++ concat (a_others a).*2 ++ a_lost a.
Definition a_ctxs (a : fds) : list (ptr * list ptr) := (a_cur a, a_tab a) :: a_others a.

(** Files nothing refers to any more are gone. *)
Definition gc (a : fds) : fds := Fds (a_cur a) (a_tab a) (a_others a) (a_lost a) (keep (a_refs a) (a_files a)) (a_base a).
Definition a_set_tab (l : list ptr) (a : fds) : fds := Fds (a_cur a) l (a_others a) (a_lost a) (a_files a) (a_base a).

Inductive fd_op :=
| Open (dp : ptr) (oflags : Z)   (** of an entry the path was resolved to *)
| Close (fd : Z)
| Dup (fd1 fd2 : Z)              (** [dup2(fd1, fd2)]; [dup(fd1)] when [fd2] is -1 *)
| CloseAll                       (** at exit *)
| Fork (child : ptr)
| Switch (c : ptr).              (** another process runs *)

(** What a call may be given: an entry that is in use, room for another
    descriptor, for [dup2] a first descriptor inside the table, for [fork] a
    fresh child and no free descriptor below the highest. *)
Definition fd_safe (o : fd_op) (a : fds) : Prop :=
  match o with
  | Open dp _ => is_Some (a_base a !! dp) ∧ Z.of_nat (length (a_tab a)) < 2147483647
  | Dup fd1 fd2 => (a_tab a = [] ∨ 0 <= fd1 < Z.of_nat (length (a_tab a))) ∧ dup_target (a_tab a) fd2 < 2147483647
  | Fork ch => (ch, []) ∈ a_others a ∧ NULL ∉ a_tab a
  | Switch c => c ∈ (a_others a).*1
  | Close _ | CloseAll => True
  end.

Inductive fd_spec : fd_op -> fds -> Z -> fds -> Prop :=
| sp_open_nomem dp fl a : fd_spec (Open dp fl) a (- ENOMEM) a
| sp_open dp fl a f : f ≠ NULL -> a_files a !! f = None ->
    fd_spec (Open dp fl) a (Z.of_nat (lowest_free (a_tab a)))
      (Fds (a_cur a) (put_slot (a_tab a) (lowest_free (a_tab a)) f) (a_others a) (a_lost a) (<[f := (dp, fl)]> (a_files a)) (a_base a))
| sp_close_bad fd a : slot (a_tab a) fd = NULL -> fd_spec (Close fd) a (- EBADFD) a
| sp_close fd a : slot (a_tab a) fd ≠ NULL -> fd_spec (Close fd) a 0 (gc (a_set_tab (<[Z.to_nat fd := NULL]> (a_tab a)) a))
| sp_dup_bad fd1 fd2 a : slot (a_tab a) fd1 = NULL -> fd_spec (Dup fd1 fd2) a (- EBADFD) a
| sp_dup_same fd1 fd2 a : slot (a_tab a) fd1 ≠ NULL -> fd1 = dup_target (a_tab a) fd2 -> fd_spec (Dup fd1 fd2) a fd1 a
| sp_dup_nomem fd1 fd2 a : slot (a_tab a) fd1 ≠ NULL -> Z.of_nat (length (a_tab a)) <= dup_target (a_tab a) fd2 ->
    fd_spec (Dup fd1 fd2) a (- ENOMEM) a
| sp_dup fd1 fd2 a : let tgt := dup_target (a_tab a) fd2 in
    slot (a_tab a) fd1 ≠ NULL -> fd1 ≠ tgt -> 0 <= tgt ->
    fd_spec (Dup fd1 fd2) a tgt
      (gc (Fds (a_cur a) (<[Z.to_nat tgt := slot (a_tab a) fd1]> (extend (a_tab a) tgt)) (a_others a)
             (if decide (tgt = 0 ∧ slot (a_tab a) 0 ≠ NULL) then slot (a_tab a) 0 :: a_lost a else a_lost a) (a_files a) (a_base a)))
| sp_close_all a : fd_spec CloseAll a 0 (gc (a_set_tab (replicate (length (a_tab a)) NULL) a))
| sp_fork_nomem ch a : a_tab a ≠ [] -> fd_spec (Fork ch) a (- ENOMEM) a
| sp_fork ch a A B cwd root : a_others a = A ++ (ch, []) :: B -> is_Some (a_base a !! cwd) -> is_Some (a_base a !! root) ->
    fd_spec (Fork ch) a 0
      (Fds (a_cur a) (a_tab a) (A ++ (ch, a_tab a) :: B) (a_lost a) (a_files a) (alter Z.succ root (alter Z.succ cwd (a_base a))))
| sp_switch c l a A B : a_others a = A ++ (c, l) :: B ->
    fd_spec (Switch c) a 0 (Fds c l ((a_cur a, a_tab a) :: A ++ B) (a_lost a) (a_files a) (a_base a)).

Inductive fd_specs : list fd_op -> fds -> list Z -> fds -> Prop :=
| sps_nil a : fd_specs [] a [] a
| sps_cons o os a r a1 rs a2 : fd_spec o a r a1 -> fd_specs os a1 rs a2 -> fd_specs (o :: os) a (r :: rs) a2.

Fixpoint fd_safes (os : list fd_op) (a : fds) : Prop :=
  match os with
  | [] => True
  | o :: os => fd_safe o a ∧ ∀ r a', fd_spec o a r a' -> fd_safes os a'
  end.

(** The state of the kernel holds the abstract state. *)
Record fd_ok {D} (s : vfs D) (a : fds) : Prop := {
  fd_cur : t_fctx (v_cur s) = a_cur a;
  fd_tabs : tabs_ok (v_tables s) (v_fctxs s) (a_base a) (a_ctxs a);
  fd_files : files_ok (v_dentries s) (v_files s) (a_files a) (a_base a) (a_refs a);
}.

Section run.
Context {D : Type} {KM : Kmalloc} {DR : Drivers D} {IC : Icache D} {FO : FileOps D}.
Abbreviation MV := (M (vfs D)).

(** Resolving a path hands [open] an entry, locked and with one more reference. *)
Definition fd_run (o : fd_op) : MV Z :=
  match o with
  | Open dp fl => dlock dp;; _ ← ddup dp; open_found dp fl
  | Close fd => close fd
  | Dup fd1 fd2 => if decide (fd2 = - 1) then dup fd1 else dup2 fd1 fd2
  | CloseAll => file_close_all;; mret 0
  | Fork ch => proc_copy_files ch
  | Switch c => t ← gets v_cur; modify (set_cur (Thread c (t_cred t) (t_lock t)));; mret 0
  end.
Fixpoint fd_runs (os : list fd_op) : MV (list Z) :=
  match os with [] => mret [] | o :: os => r ← fd_run o; rs ← fd_runs os; mret (r :: rs) end.
End run.

(** ** Every call keeps the abstraction *)

Lemma keep_id dm fm fs base xs : files_ok dm fm fs base xs -> keep xs fs = fs.
Proof.
  intros H. apply map_eq. intros p. rewrite keep_lookup. case_decide as Hp; [done|].
  pose proof (fo_at _ _ _ _ _ H p) as Hx. destruct (fm !! p), (fs !! p); try done. tauto.
Qed.
Lemma keep_ext dm fm fs base zs xs ys :
  files_ok dm fm fs base zs -> (∀ p, p ≠ NULL -> p ∈ xs <-> p ∈ ys) -> keep xs fs = keep ys fs.
Proof.
  intros H E. apply map_eq. intros p. rewrite !keep_lookup. destruct (decide (p = NULL)) as [->|Hn].
  - pose proof (fo_at _ _ _ _ _ H NULL) as Hx. destruct (fm !! NULL), (fs !! NULL); try done; [by destruct Hx|by repeat case_decide].
  - by rewrite (decide_ext _ _ _ _ (E p Hn)).
Qed.

Lemma occ_put_slot p l f : p ≠ NULL -> occ p (put_slot l (lowest_free l) f) = occ p (f :: l).
Proof.
  intros Hp. unfold put_slot. case_decide as H.
  - rewrite (occ_insert p l _ f NULL) by (by apply lowest_free_null). rewrite decide_False by done. lia.
  - rewrite occ_app, !occ_cons. change (occ p []) with 0. lia.
Qed.
Lemma put_slot_nonempty l n f : put_slot l n f ≠ [].
Proof. unfold put_slot. case_decide as H; [|by destruct l]. intros E%(f_equal length). rewrite length_insert in E. simpl in E. lia. Qed.
Lemma occ_two p l (i j : nat) : l !! i = Some p -> l !! j = Some p -> i ≠ j -> 2 <= occ p l.
Proof.
  intros Hi Hj Hne. pose proof (occ_insert p l i (p + 1) p Hi) as E. rewrite occ_cons, decide_False, decide_True in E by (try done; lia).
  assert (p ∈ <[i := p + 1]> l) as Hin%occ_elem; [|lia]. apply list_elem_of_lookup. exists j. by rewrite list_lookup_insert_ne.
Qed.

Section keep.
Context {D : Type} {KM : Kmalloc} {DR : Drivers D} {IC : Icache D} {FO : FileOps D}.
Implicit Types (s : vfs D) (a : fds).

Lemma fd_ok_fs s dm fm tm cm t a :
  t_fctx (v_cur s) = a_cur a -> tabs_ok tm cm (a_base a) (a_ctxs a) -> files_ok dm fm (a_files a) (a_base a) (a_refs a) ->
  fd_ok (fs_ s dm fm tm cm t) a.
Proof. by split. Qed.

Lemma gc_id s a : fd_ok s a -> gc a = a.
Proof. intros H. unfold gc. rewrite (keep_id _ _ _ _ _ (fd_files _ _ H)). by destruct a. Qed.

(** The lock of an entry is taken and released with nothing but its count changed. *)
Lemma wp_run_open s a dp fl :
  fd_ok s a -> fd_safe (Open dp fl) a -> wp (fd_run (Open dp fl)) s (λ r s', ∃ a', fd_spec (Open dp fl) a r a' ∧ fd_ok s' a').
Proof.
  intros [Hc Ht Hf] [Hdp Hlen]. destruct (tabs_ok_head _ _ _ _ _ _ Ht) as (w & Hctx & Hnil & _). destruct (Hdp) as [b Hb].
  destruct (fo_dentry _ _ _ _ _ Hf dp b Hb) as (Hdn & Hb1 & d & Hd & Hdl & Hdc).
  rewrite <- (fs_id s). simpl fd_run. do 3 f_step. eapply wp_fs_ddup; [done|by lk|done|].
  assert (0 <= uses (a_files a) dp) by (unfold uses; lia).
  eapply wp_open_found; [done|exact Hctx|done|done|by lk|done|simpl; lia|..].
  - intros t'. exists a. split; [constructor|]. apply fd_ok_fs; [done|done|].
    replace (alter d_close dp _) with (v_dentries s); [done|]. apply map_eq. intros x.
    destruct (decide (dp = x)) as [<-|Hx]; [|by rewrite !lookup_alter_ne]. rewrite !lookup_alter_eq, Hd. simpl. f_equal.
    unfold d_close, d_add, d_set_lock, d_set_count. destruct d; simpl in *. subst d_lock. f_equal. lia.
  - intros f tm' cm' w' t' Hfn Hff Hrt Hctx'. destruct (files_ok_open _ _ _ _ _ f dp fl Hf Hfn Hff Hdp) as (F1 & F2 & F3).
    eexists. split; [by apply (sp_open dp fl a f)|]. apply fd_ok_fs; [done| |].
    + simpl. eapply tabs_ok_retab; [exact Ht|apply Hctx|done|done|apply put_slot_nonempty].
    + simpl. replace (alter (d_set_lock false) dp _) with (alter d_add dp (v_dentries s)).
      * eapply files_ok_occ; [exact F3|]. intros p Hp. unfold a_refs. simpl. rewrite occ_cons, !occ_app, occ_put_slot, occ_cons by done. lia.
      * apply map_eq. intros x. destruct (decide (dp = x)) as [<-|Hx]; [|by rewrite !lookup_alter_ne].
        rewrite !lookup_alter_eq, Hd. simpl. f_equal. unfold d_add. destruct d; simpl in *; by subst.
Qed.
End keep.

Section keep2.
Context {D : Type} {KM : Kmalloc} {DR : Drivers D} {IC : Icache D} {FO : FileOps D}.
Implicit Types (s : vfs D) (a : fds).

Lemma refs_slot a fd : slot (a_tab a) fd ≠ NULL -> slot (a_tab a) fd ∈ a_refs a.
Proof. intros H. unfold a_refs. rewrite elem_of_app. left. by apply slot_in. Qed.

(** A table with one entry overwritten, in the list of all references. *)
Lemma occ_refs_insert a p (i : nat) q r :
  a_tab a !! i = Some r -> occ p (a_refs (a_set_tab (<[i := q]> (a_tab a)) a)) =
    occ p (a_refs a) + (if decide (q = p) then 1 else 0) - (if decide (r = p) then 1 else 0).
Proof. intros Hi. unfold a_refs. simpl. rewrite !occ_app, (occ_insert _ _ _ _ _ Hi), occ_cons. lia. Qed.

(** Freeing a descriptor that is free. *)
Lemma set_free_id a fd :
  slot (a_tab a) fd = NULL -> a_set_tab (if decide (0 <= fd) then <[Z.to_nat fd := NULL]> (a_tab a) else a_tab a) a = a.
Proof.
  intros Hn. replace (if decide (0 <= fd) then _ else _) with (a_tab a); [by destruct a|]. case_decide as H; [|done].
  symmetry. apply list_insert_id'. intros Hl. unfold slot in Hn. rewrite decide_True in Hn by done.
  destruct (lookup_lt_is_Some_2 _ _ Hl) as [q Hq]. rewrite Hq in *. simpl in Hn. by subst.
Qed.

(** Closing a descriptor, open or not. *)
Lemma wp_close_gc s a fd (Q : Z -> vfs D -> Prop) :
  fd_ok s a -> 
  (∀ s', v_cur s' = v_cur s -> fd_ok s' (gc (a_set_tab (if decide (0 <= fd) then <[Z.to_nat fd := NULL]> (a_tab a) else a_tab a) a)) ->
     Q (if decide (slot (a_tab a) fd = NULL) then - EBADFD else 0) s') -> wp (close fd) s Q.
Proof.
  intros Hok HQ. destruct (Hok) as [Hc Ht Hf]. destruct (tabs_ok_head _ _ _ _ _ _ Ht) as (w & Hctx & Hnil & _).
  rewrite <- (fs_id s). eapply wp_close; [done|exact Hctx|..].
  - intros Hn. destruct (files_ok_live _ _ _ _ _ _ Hf (refs_slot _ _ Hn) Hn) as (v & x & ? & ? & ? & ? & ?). by exists v.
  - intros Hn. rewrite (decide_True (P := slot _ _ = NULL)) in HQ by done. rewrite fs_id. apply HQ; [done|]. rewrite set_free_id by done. by rewrite (gc_id s).
  - intros Hn. destruct (slot_some _ _ _ eq_refl Hn) as [Hr Hs]. rewrite (decide_True (P := 0 <= fd)), (decide_False (P := slot _ _ = NULL)) in HQ by (done || lia).
    apply HQ; [done|]. apply fd_ok_fs; [done| |].
    + assert (fc_files w ≠ NULL). { intros E. by rewrite (co_none _ _ _ _ _ Hctx E) in Hs. }
      simpl. eapply tabs_ok_retab; [exact Ht|apply Hctx|apply retab_set, retab_refl, Hctx|by apply ctx_ok_set|].
      intros E%(f_equal length). simpl in E. rewrite length_insert in E. lia.
    + change (a_refs (gc _)) with (a_refs (a_set_tab (<[Z.to_nat fd := NULL]> (a_tab a)) a)). simpl.
      apply files_ok_drop; [|done]. eapply files_ok_occ; [exact Hf|]. intros p Hp. rewrite occ_cons, (occ_refs_insert _ _ _ _ _ Hs).
      rewrite (decide_False (P := NULL = p)) by done. lia.
Qed.

Lemma wp_run_close s a fd :
  fd_ok s a -> wp (fd_run (Close fd)) s (λ r s', ∃ a', fd_spec (Close fd) a r a' ∧ fd_ok s' a').
Proof.
  intros Hok. simpl fd_run. apply (wp_close_gc s a); [done|]. intros s' _ Hs'. destruct (decide (slot (a_tab a) fd = NULL)) as [Hn|Hn].
  - exists a. split; [by constructor|]. by rewrite set_free_id, (gc_id s) in Hs'.
  - destruct (slot_some _ _ _ eq_refl Hn) as [Hr _]. rewrite decide_True in Hs' by lia. eexists. split; [by constructor|done].
Qed.
End keep2.

Section keep3.
Context {D : Type} {KM : Kmalloc} {DR : Drivers D} {IC : Icache D} {FO : FileOps D}.
Implicit Types (s : vfs D) (a : fds).

Lemma gc_gc s a l1 l2 :
  fd_ok s a -> (∀ p, p ≠ NULL -> p ∈ l2 -> p ∈ l1) -> gc (a_set_tab l2 (gc (a_set_tab l1 a))) = gc (a_set_tab l2 a).
Proof.
  intros Hok Hsub. unfold gc at 1 3. f_equal. change (a_refs (a_set_tab l2 (gc (a_set_tab l1 a)))) with (a_refs (a_set_tab l2 a)). simpl.
  apply map_eq. intros p. rewrite !keep_lookup. case_decide as H2; [|done]. case_decide as H1; [done|].
  pose proof (fo_at _ _ _ _ _ (fd_files _ _ Hok) p) as Hp. destruct (v_files s !! p), (a_files a !! p); try done.
  destruct Hp as (Hn & _). unfold a_refs in *. simpl in *. rewrite elem_of_app in H1, H2. destruct H1. destruct H2; [left; auto|by right].
Qed.

Lemma wp_close_from suf : ∀ s a pre (Q : unit -> vfs D -> Prop),
  fd_ok s a -> a_tab a = pre ++ suf ->
  (∀ s', fd_ok s' (gc (a_set_tab (pre ++ replicate (length suf) NULL) a)) -> Q tt s') ->
  wp (close_from (length suf) (Z.of_nat (length pre))) s Q.
Proof.
  induction suf as [|p suf IH]; intros s a pre Q Hok Hl HQ; simpl.
  { apply wp_ret, HQ. simpl. rewrite <- Hl. replace (a_set_tab (a_tab a) a) with a by by destruct a. by rewrite (gc_id s). }
  apply wp_bind. apply (wp_close_gc s a); [done|]. intros s1 _ H1. rewrite decide_True, Nat2Z.id, Hl in H1 by lia.
  replace (<[length pre := NULL]> (pre ++ p :: suf)) with ((pre ++ [NULL]) ++ suf) in H1
    by (rewrite <- (Nat.add_0_r (length pre)), insert_app_r, <- app_assoc; done).
  replace (Z.of_nat (length pre) + 1) with (Z.of_nat (length (pre ++ [NULL]))) by (rewrite length_app; simpl; lia).
  apply (IH s1 (gc (a_set_tab ((pre ++ [NULL]) ++ suf) a))); [done|done|]. intros s' Hs'. apply HQ.
  rewrite (gc_gc s) in Hs'; [by rewrite <- app_assoc in Hs'|done|].
  intros q Hq. rewrite !elem_of_app. intros [H|[E _]%elem_of_replicate]; [by left|done].
Qed.

Lemma wp_close_all s a (Q : unit -> vfs D -> Prop) :
  fd_ok s a -> (∀ s', fd_ok s' (gc (a_set_tab (replicate (length (a_tab a)) NULL) a)) -> Q tt s') -> wp file_close_all s Q.
Proof.
  intros Hok HQ. destruct (Hok) as [Hc Ht Hf]. destruct (tabs_ok_head _ _ _ _ _ _ Ht) as (w & Hctx & Hnil & _).
  destruct (Hctx) as [Hn Hw Hl Hlen Hnone Hsome _]. unfold file_close_all. rewrite <- (fs_id s).
  do 2 f_step. simpl. rewrite Hc. do 6 f_step. rewrite (cm_relock _ _ w) by done. rewrite fs_id. simpl.
  replace (Z.to_nat _) with (length (a_tab a)).
  - change 0 with (Z.of_nat (length (@nil ptr))) at 1. by apply (wp_close_from (a_tab a) s a []).
  - case_decide as E; [lia|]. rewrite (Hnone); [done|]. by destruct (decide (fc_files w = NULL)).
Qed.
Lemma wp_run_close_all s a :
  fd_ok s a -> wp (fd_run CloseAll) s (λ r s', ∃ a', fd_spec CloseAll a r a' ∧ fd_ok s' a').
Proof.
  intros Hok. simpl fd_run. apply wp_bind. apply (wp_close_all s a); [done|]. intros s' Hs'.
  apply wp_ret. eexists. split; [constructor|exact Hs'].
Qed.

Lemma wp_run_switch s a c :
  fd_ok s a -> fd_safe (Switch c) a -> wp (fd_run (Switch c)) s (λ r s', ∃ a', fd_spec (Switch c) a r a' ∧ fd_ok s' a').
Proof.
  intros [Hc Ht Hf] Hin. apply list_elem_of_fmap in Hin as ([c' l] & E & Hin). simpl in E. subst c'.
  apply list_elem_of_split in Hin as (A & B & Ho). simpl fd_run. repeat wp_step. eexists. split; [by eapply sp_switch|].
  split; [done| |].
  - simpl. unfold a_ctxs in *. simpl in *. rewrite Ho in Ht. eapply tabs_ok_perm; [|exact Ht].
    rewrite <- (Permutation_middle A B (c, l)). apply Permutation_swap.
  - simpl. eapply files_ok_occ; [exact Hf|]. intros p _. unfold a_refs. simpl. rewrite Ho, !fmap_app, !concat_app, fmap_cons. simpl. rewrite !occ_app. lia.
Qed.

Lemma wp_run_fork s a ch :
  fd_ok s a -> fd_safe (Fork ch) a -> wp (fd_run (Fork ch)) s (λ r s', ∃ a', fd_spec (Fork ch) a r a' ∧ fd_ok s' a').
Proof.
  intros [Hc Ht Hf] [Hin Hnn]. apply list_elem_of_split in Hin as (A & B & Ho).
  unfold a_ctxs in Ht. rewrite Ho in Ht. assert (tabs_ok (v_tables s) (v_fctxs s) (a_base a) ((a_cur a, a_tab a) :: (ch, []) :: A ++ B)) as Ht'.
  { eapply tabs_ok_perm; [|exact Ht]. by rewrite <- Permutation_middle. }
  destruct (tabs_ok_head _ _ _ _ _ _ Ht') as (w & Hctx & Hnil & Hcwd & Hroot).
  destruct (to_ctx _ _ _ _ Ht' ch []) as (wc & Hctxc & _); [by right; left|].
  destruct (Hcwd) as [b1 Hb1]. destruct (fo_dentry _ _ _ _ _ Hf _ _ Hb1) as (Hn1 & _ & d1 & Hd1 & Hl1 & _).
  destruct (Hroot) as [b2 Hb2]. destruct (fo_dentry _ _ _ _ _ Hf _ _ Hb2) as (Hn2 & _ & d2 & Hd2 & Hl2 & _).
  assert (Forall (λ p, p ∈ a_refs a ∧ p ≠ NULL) (a_tab a)) as Hall.
  { apply Forall_forall. intros p Hp. split; [unfold a_refs; rewrite elem_of_app; by left|]. by intros ->. }
  rewrite <- (fs_id s). simpl fd_run. eapply wp_proc_copy_files; [done|exact Hctx|exact Hctxc| |done|done|done|done|done|done|done| | |].
  - pose proof (to_nodup _ _ _ _ Ht') as Hnd. simpl in Hnd. apply NoDup_cons in Hnd as [H _]. rewrite elem_of_cons in H. intros E. by apply H; left.
  - eapply Forall_impl; [exact Hall|]. intros p [Hp Hpn].
    destruct (files_ok_live _ _ _ _ _ _ Hf Hp Hpn) as (v & x & Hv & _ & (_ & _ & Hl & _) & _). split; [done|]. by exists v.
  - intros t' Hne. exists a. split; [by constructor|]. apply fd_ok_fs; [done| |done]. unfold a_ctxs. by rewrite Ho.
  - intros q t' Hq Hqn. eexists. split; [by apply (sp_fork ch a A B (fc_cwd w) (fc_root w))|]. apply fd_ok_fs; [done| |].
    + unfold a_ctxs. simpl. do 2 apply tabs_ok_base. eapply tabs_ok_perm; [|eapply tabs_ok_fork; [exact Ht'|apply Hctx|apply Hctxc|done|done]].
      by rewrite Permutation_middle.
    + simpl. apply files_ok_base; [|by rewrite lookup_alter_is_Some]. apply files_ok_base; [|done].
      eapply files_ok_occ; [by apply files_ok_adds|]. intros p _. unfold a_refs. simpl. rewrite Ho, !fmap_app, !concat_app, !fmap_cons. simpl.
      rewrite !occ_app. lia.
Qed.
End keep3.

Section keep4.
Context {D : Type} {KM : Kmalloc} {DR : Drivers D} {IC : Icache D} {FO : FileOps D}.
Implicit Types (s : vfs D) (a : fds).

Lemma slot_extend l fd : 0 <= fd -> extend l fd !! Z.to_nat fd = Some (slot l fd).
Proof.
  intros H. unfold extend, slot. rewrite decide_True by lia. destruct (l !! Z.to_nat fd) as [x|] eqn:E; simpl.
  - by apply lookup_app_l_Some.
  - apply lookup_ge_None in E. rewrite lookup_app_r by lia. apply lookup_replicate_2. lia.
Qed.

(** What [dup2] leaves of the files. *)
Lemma files_ok_dup dm fm a fd1 tgt a' :
  let l := a_tab a in let f := slot l fd1 in
  files_ok dm fm (a_files a) (a_base a) (a_refs a) -> f ≠ NULL -> fd1 ≠ tgt -> 0 <= tgt ->
  a' = Fds (a_cur a) (<[Z.to_nat tgt := f]> (extend l tgt)) (a_others a)
         (if decide (tgt = 0 ∧ slot l 0 ≠ NULL) then slot l 0 :: a_lost a else a_lost a) (a_files a) (a_base a) ->
  files_ok (dup_close dm fm l tgt).1 (add_ref (dup_close dm fm l tgt).2 f) (keep (a_refs a') (a_files a)) (a_base a) (a_refs a').
Proof.
  intros l f Hf Hn Hne Ht ->. set (xs := <[Z.to_nat tgt := NULL]> (extend l tgt) ++ concat (a_others a).*2 ++ a_lost a).
  pose proof (slot_extend l tgt Ht) as Hs. destruct (slot_some l fd1 f eq_refl Hn) as [Hr1 Hl1].
  assert (f ∈ xs) as Hfx.
  { unfold xs. rewrite elem_of_app. left. apply list_elem_of_lookup. exists (Z.to_nat fd1). rewrite list_lookup_insert_ne by lia.
    unfold extend. by apply lookup_app_l_Some. }
  assert (∀ p, p ≠ NULL -> occ p (a_refs a) = occ p (slot l tgt :: xs)) as E1.
  { intros p Hp. unfold xs, a_refs. fold l. rewrite occ_cons, !occ_app, (occ_insert _ _ _ _ _ Hs), occ_cons, occ_extend by done.
    rewrite (decide_False (P := NULL = p)) by done. lia. }
  set (a' := Fds _ _ _ _ _ _).
  assert (∀ p, p ≠ NULL -> occ p (a_refs a') = occ p (f :: xs) + (if decide (tgt = 0 ∧ slot l 0 = p) then 1 else 0)) as E2.
  { intros p Hp. unfold xs, a_refs, a'. simpl. rewrite occ_cons, !occ_app, !(occ_insert _ _ _ _ _ Hs), !occ_cons, occ_extend by done.
    rewrite (decide_False (P := NULL = p)) by done. destruct (decide (tgt = 0 ∧ slot l 0 ≠ NULL)) as [[D1 D2]|D1].
    - rewrite occ_cons. rewrite (decide_ext (tgt = 0 ∧ slot l 0 = p) (slot l 0 = p)) by tauto. lia.
    - rewrite (decide_False (P := tgt = 0 ∧ slot l 0 = p)) by naive_solver. lia. }
  unfold dup_close. destruct (decide (0 < tgt ∧ slot l tgt ≠ NULL)) as [Hcl|Hcl]; simpl.
  - assert (∀ p, p ≠ NULL -> occ p (f :: xs) = occ p (a_refs a')) as E3.
    { intros p Hp. rewrite E2 by done. rewrite (decide_False (P := tgt = 0 ∧ slot l 0 = p)) by (destruct Hcl; intros []; lia). lia. }
    eapply files_ok_occ; [|exact E3]. rewrite (keep_ext _ _ _ _ _ (a_refs a') xs Hf).
    + apply files_ok_add; [|done|done]. apply files_ok_drop; [|tauto]. eapply files_ok_occ; [exact Hf|exact E1].
    + intros p Hp. rewrite !occ_elem, <- E3, occ_cons by done. destruct (decide (f = p)) as [<-|]; [|done].
      apply occ_elem in Hfx. pose proof (occ_nonneg f xs). split; lia.
  - assert (∀ p, p ≠ NULL -> occ p (f :: a_refs a) = occ p (a_refs a')) as E3.
    { intros p Hp. rewrite E2, !occ_cons, E1, occ_cons by done.
      destruct (decide (tgt = 0)) as [->|Ht0]; [rewrite (decide_ext (0 = 0 ∧ slot l 0 = p) (slot l 0 = p)) by tauto; lia|].
      rewrite (decide_False (P := tgt = 0 ∧ slot l 0 = p)) by tauto.
      rewrite (decide_False (P := slot l tgt = p)); [lia|]. intros E. apply Hcl. split; [lia|]. by rewrite E. }
    assert (files_ok dm (add_ref fm f) (a_files a) (a_base a) (a_refs a')) as Hok.
    { eapply files_ok_occ; [|exact E3]. apply files_ok_add; [done|by apply refs_slot|done]. }
    by rewrite (keep_id _ _ _ _ _ Hok).
Qed.

Lemma wp_run_dup s a fd1 fd2 :
  fd_ok s a -> fd_safe (Dup fd1 fd2) a -> wp (fd_run (Dup fd1 fd2)) s (λ r s', ∃ a', fd_spec (Dup fd1 fd2) a r a' ∧ fd_ok s' a').
Proof.
  intros [Hc Ht Hf] [Hr Hmax]. destruct (tabs_ok_head _ _ _ _ _ _ Ht) as (w & Hctx & Hnil & _).
  simpl fd_run. replace (if decide (fd2 = - 1) then dup fd1 else dup2 fd1 fd2) with (file_dup (D := D) fd1 fd2)
    by (unfold dup, dup2; case_decide; by subst).
  rewrite <- (fs_id s). eapply wp_file_dup; [done|exact Hctx| |done|..].
  - intros Hn. destruct Hr as [E|Hr]; [by apply Hnil in E|done].
  - intros p Hp Hn. destruct (files_ok_live _ _ _ _ _ p Hf) as (v & x & ? & ? & ? & ? & ?); [unfold a_refs; rewrite elem_of_app; by left|done|by exists v].
  - intros Hne Heq v Hv. destruct (decide (slot (a_tab a) fd1 = NULL)) as [E|E].
    { pose proof (fo_at _ _ _ _ _ Hf NULL) as H. rewrite E in Hv. rewrite Hv in H. destruct (a_files a !! NULL); [by destruct H|done]. }
    destruct (slot_some _ _ _ eq_refl E) as [R1 L1]. rewrite <- Heq in E. destruct (slot_some _ _ _ eq_refl E) as [R2 L2]. rewrite Heq in *.
    destruct (files_ok_live _ _ _ _ _ _ Hf (refs_slot a fd1 E) E) as (v' & x & Hv' & _ & (_ & _ & _ & _ & Hn) & _).
    assert (v' = v) as -> by congruence. rewrite Hn. unfold a_refs. rewrite occ_app.
    pose proof (occ_nonneg (slot (a_tab a) fd1) (concat (a_others a).*2 ++ a_lost a)).
    assert (2 <= occ (slot (a_tab a) fd1) (a_tab a)); [|lia]. eapply occ_two; [exact L1|exact L2|lia].
  - intros E. exists a. split; [by constructor|]. rewrite fs_id. by split.
  - intros E E'. exists a. split; [by constructor|]. rewrite fs_id. by split.
  - intros E E' t'. exists a. split; [by constructor|]. by apply fd_ok_fs.
  - intros E E' E0 tm' cm' w' t' Hrt Hctx'. eexists. split; [by apply (sp_dup fd1 fd2 a)|]. apply fd_ok_fs; [done| |].
    + simpl. eapply tabs_ok_retab; [exact Ht|apply Hctx|done|exact Hctx'|].
      intros Ee%(f_equal length). simpl in Ee. rewrite length_insert in Ee. pose proof (extend_length (a_tab a) _ E0). lia.
    + exact (files_ok_dup _ _ a fd1 _ _ Hf E E' E0 eq_refl).
Qed.

Lemma wp_fd_run s a o : fd_ok s a -> fd_safe o a -> wp (fd_run o) s (λ r s', ∃ a', fd_spec o a r a' ∧ fd_ok s' a').
Proof.
  intros. destruct o; eauto using wp_run_open, wp_run_close, wp_run_dup, wp_run_close_all, wp_run_fork, wp_run_switch.
Qed.
End keep4.

(** ** The theorems *)

Section theorems.
Context {D : Type} {KM : Kmalloc} {DR : Drivers D} {IC : Icache D} {FO : FileOps D}.
Implicit Types (s : vfs D) (a : fds).

(** C26. Descriptors of all processes: every sequence of opens, closes,
    duplications, forks, exits and switches between processes returns with the
    results of the abstract tables, as long as each call is one that [fd_safe]
    admits: an entry in use is opened, the descriptor to duplicate lies inside the
    table (or there is none), a child that is forked is fresh and the parent has no
    closed descriptor below its highest, and no descriptor reaches 2^31 - 1.  After it every descriptor in use stands
    for a live file, the count of a file is the number of references to it, a
    file is freed with its last reference and not before, and the count of an
    entry is the number of its open files plus what others hold. *)
Theorem descriptors_refine s a os :
  fd_ok s a -> fd_safes os a -> wp (fd_runs os) s (λ rs s', ∃ a', fd_specs os a rs a' ∧ fd_ok s' a').
Proof.
  revert s a. induction os as [|o os IH]; intros s a Hok Hs; simpl.
  { apply wp_ret. exists a. split; [constructor|done]. }
  destruct Hs as [Hs Hrest]. apply wp_bind. eapply wp_mono; [by apply (wp_fd_run s a)|].
  intros r s1 (a1 & Hsp & Hok1). apply wp_bind. eapply wp_mono; [apply (IH s1 a1); [done|by eapply Hrest]|].
  intros rs s2 (a2 & Hsps & Hok2). apply wp_ret. exists a2. split; [by econstructor|done].
Qed.

(** The references other processes hold, and the lost ones. *)
Definition rest_refs a : list ptr := concat (a_others a).*2 ++ a_lost a.

(** C27. Exit: closing all descriptors frees exactly the open files to which no
    other process refers and to which no reference was lost; every other file keeps
    one reference for each of those.  Each directory entry keeps the references
    that others hold and one for every file that is still open on it. *)
Theorem exit_releases s a :
  fd_ok s a ->
  wp file_close_all s (λ _ s',
    (∀ p, match v_files s' !! p with
          | Some v => is_Some (v_files s !! p) ∧ p ∈ rest_refs a ∧ f_refcnt v = occ p (rest_refs a)
          | None => v_files s !! p = None ∨ p ∉ rest_refs a
          end) ∧
    ∀ dp b, a_base a !! dp = Some b -> ∃ d, v_dentries s' !! dp = Some d ∧ d_lock d = false ∧ d_count d = b + uses (keep (rest_refs a) (a_files a)) dp).
Proof.
  intros Hok. pose proof (fd_files _ _ Hok) as Hf0. apply (wp_close_all s a); [done|]. intros s' [_ _ Hf].
  set (xs := replicate (length (a_tab a)) NULL ++ rest_refs a).
  change (files_ok (v_dentries s') (v_files s') (keep xs (a_files a)) (a_base a) xs) in Hf.
  assert (∀ p, p ≠ NULL -> p ∈ xs <-> p ∈ rest_refs a) as Hin.
  { intros p Hp. unfold xs. rewrite elem_of_app, elem_of_replicate. naive_solver. }
  assert (∀ p x, a_files a !! p = Some x -> p ≠ NULL ∧ is_Some (v_files s !! p)) as Hlive.
  { intros p x Hx. pose proof (fo_at _ _ _ _ _ Hf0 p) as H. rewrite Hx in H. destruct (v_files s !! p); [|done]. split; [apply H|by eexists]. }
  assert (keep xs (a_files a) = keep (rest_refs a) (a_files a)) as Hk.
  { apply map_eq. intros p. rewrite !keep_lookup. destruct (a_files a !! p) as [x|] eqn:E; [|by repeat case_decide]. destruct (Hlive p x E) as [Hp _].
    specialize (Hin p Hp). repeat case_decide; tauto. }
  assert (∀ p, p ≠ NULL -> occ p xs = occ p (rest_refs a)) as Hocc.
  { intros p Hp. unfold xs. rewrite occ_app, occ_replicate_null by done. lia. }
  rewrite Hk in Hf. split.
  - intros p. pose proof (fo_at _ _ _ _ _ Hf p) as H. rewrite keep_lookup in H. destruct (v_files s' !! p) as [v|].
    + case_decide as Hr; [|done]. destruct (a_files a !! p) as [x|] eqn:E; [|done]. destruct (Hlive p x E) as [Hp Hs]. destruct H as (_ & (_ & _ & _ & _ & Hc) & _).
      split; [done|]. split; [done|]. by rewrite Hc, Hocc.
    + case_decide as Hr; [left|by right]. pose proof (fo_at _ _ _ _ _ Hf0 p) as H0. destruct (a_files a !! p); [done|]. by destruct (v_files s !! p).
  - intros dp b Hb. destruct (fo_dentry _ _ _ _ _ Hf _ _ Hb) as (_ & _ & d & Hd & Hl & Hc). by exists d.
Qed.
End theorems.

(** ** Concrete states *)

#[local] Existing Instances bump_kmalloc no_drivers no_icache.
Definition no_fops : FileOps unit := {| fops_at _ := None |}.
#[local] Existing Instance no_fops.

(** Two processes without descriptors, 16 and 32, and an entry, 48, which is
    their working and root directory. *)
Definition fd_dir : dentry_t := Dentry NULL 0 NULL 4 NULL NULL NULL NULL NULL NULL NULL false.
Definition fd_ctx : file_ctx_t := Fctx 48 1024 48 0 NULL false.
Definition fd_state : vfs unit :=
  Vfs ∅ {[48 := fd_dir]} ∅ ∅ ∅ {[16 := fd_ctx; 32 := fd_ctx]} ∅ ∅ (Thread 16 NULL false) tt 0.
Definition fd_abs : fds := Fds 16 [] [(32, [])] [] ∅ {[48 := 4]}.

Lemma fd_state_ok : fd_ok fd_state fd_abs.
Proof.
  split; [done| |].
  - split.
    + apply (bool_decide_unpack _). vm_compute. done.
    + intros c l Hin. exists fd_ctx. repeat (apply elem_of_cons in Hin as [E|Hin]; [injection E as -> ->; repeat split; by try eexists|]).
      by apply not_elem_of_nil in Hin.
    + intros c1 w1 c2 w2 H1 H2 L1 L2 _ _. simpl in *.
      apply elem_of_cons in H1 as [->|H1]; [|apply elem_of_cons in H1 as [->|H1%not_elem_of_nil]; [|done]]; by injection L1 as <-.
  - split; [by intros p; simpl; rewrite !lookup_empty|by intros p Hp%not_elem_of_nil|].
    intros dp b Hb. simpl in Hb. apply lookup_singleton_Some in Hb as [<- <-]. split; [done|]. split; [done|]. by exists fd_dir.
Qed.

Definition fd_history : list fd_op := [Open 48 2; Dup 0 1; Fork 32; Close 0; CloseAll].

Lemma fd_history_safe : fd_safes fd_history fd_abs.
Proof.
  split; [split; [by eexists|simpl; lia]|]. intros r1 a1 H1.
  assert (a_others a1 = [(32, [])] ∧ (a_tab a1 = [] ∨ ∃ f, f ≠ NULL ∧ a_tab a1 = [f])) as [Ho Ht].
  { inversion H1; subst; simpl; split; auto. right. exists f. auto. }
  clear H1. split.
  { split; [|unfold dup_target; simpl; lia]. destruct Ht as [->|(f & _ & ->)]; [by left|right; simpl; lia]. }
  intros r2 a2 H2. assert (a_others a2 = [(32, [])] ∧ NULL ∉ a_tab a2) as [Ho2 Ht2].
  { assert (NULL ∉ a_tab a1) as Hn. { destruct Ht as [->|(f & Hf & ->)]; rewrite ?elem_of_cons; [apply not_elem_of_nil|]. intros [|H%not_elem_of_nil]; done. }
    inversion H2; subst; try done. destruct Ht as [E|(f & Hf & E)]; [by rewrite E in *|]. simpl. split; [done|].
    subst tgt. rewrite E. simpl. rewrite !elem_of_cons. intros [|[|H%not_elem_of_nil]]; done. }
  clear H2. split; [split; [rewrite Ho2; by left|done]|]. done.
Qed.

Lemma descriptors_refine_witness :
  wp (fd_runs fd_history) fd_state (λ rs s', ∃ a', fd_specs fd_history fd_abs rs a' ∧ fd_ok s' a').
Proof. apply (descriptors_refine fd_state fd_abs fd_history fd_state_ok fd_history_safe). Defined.

(** The first process has a file, 64, at descriptors 0 and 1. *)
Definition fd_open_state : vfs unit :=
  Vfs ∅ {[48 := d_set_count 5 fd_dir]} ∅ {[64 := File 0 2 2 48 NULL false]} {[80 := [Some 64; Some 64]]}
    {[16 := Fctx 48 1024 48 2 80 false; 32 := fd_ctx]} ∅ ∅ (Thread 16 NULL false) tt 0.
Definition fd_open_abs : fds := Fds 16 [64; 64] [(32, [])] [] {[64 := (48, 2)]} {[48 := 4]}.

Lemma fd_open_state_ok : fd_ok fd_open_state fd_open_abs.
Proof.
  split; [done| |].
  - split.
    + apply (bool_decide_unpack _). vm_compute. done.
    + intros c l Hin. apply elem_of_cons in Hin as [E|Hin]; [|apply elem_of_cons in Hin as [E|Hin%not_elem_of_nil]; [|done]]; injection E as -> ->.
      * exists (Fctx 48 1024 48 2 80 false). repeat split; by try eexists.
      * exists fd_ctx. repeat split; by try eexists.
    + intros c1 w1 c2 w2 H1 H2 L1 L2 Hn E. simpl in *.
      apply elem_of_cons in H1 as [->|H1]; [|apply elem_of_cons in H1 as [->|H1%not_elem_of_nil]; [|done]]; injection L1 as <-; [|done].
      apply elem_of_cons in H2 as [->|H2]; [done|apply elem_of_cons in H2 as [->|H2%not_elem_of_nil]; [|done]]. by injection L2 as <-.
  - split.
    + intros p. simpl. destruct (decide (64 = p)) as [<-|Hp]; [|by rewrite !lookup_singleton_ne].
      rewrite !lookup_singleton_eq. split; [done|]. split; [done|]. split; [by left|by eexists].
    + intros p Hp _. unfold a_refs in Hp. simpl in Hp. repeat (apply elem_of_cons in Hp as [->|Hp]; [by eexists|]). by apply not_elem_of_nil in Hp.
    + intros dp b Hb. simpl in Hb. apply lookup_singleton_Some in Hb as [<- <-]. split; [done|]. split; [done|].
      exists (d_set_count 5 fd_dir). split; [done|]. split; [done|]. by vm_compute.
Qed.

Lemma exit_releases_witness :
  wp file_close_all fd_open_state (λ _ s', v_files s' !! 64 = None ∧ ∃ d, v_dentries s' !! 48 = Some d ∧ d_lock d = false ∧ d_count d = 4).
Proof.
  eapply wp_mono; [apply (exit_releases fd_open_state fd_open_abs fd_open_state_ok)|]. intros [] s' [H1 H2]. split; [|by apply (H2 48 4)].
  specialize (H1 64). destruct (v_files s' !! 64); [|done]. destruct H1 as (_ & H1 & _). by apply elem_of_nil in H1.
Defined.

(** The results of the history, and the files left open by the child. *)
Lemma fd_history_results :
  match fd_runs fd_history fd_state with
  | Ok rs s' => rs = [0; 1; 0; 0; 0] ∧ f_refcnt <$> (map_to_list (v_files s')).*2 = [2]
  | Stop _ => False
  end.
Proof. by vm_compute. Qed.

(** [dup2] onto descriptor 0 loses the file that was open there: it is still
    alive after all descriptors are closed. *)
Lemma dup2_onto_0_leaks :
  match fd_runs [Open 48 2; Open 48 2; Dup 1 0; CloseAll] fd_state with
  | Ok rs s' => rs = [0; 1; 0; 0] ∧ f_refcnt <$> (map_to_list (v_files s')).*2 = [1]
  | Stop _ => False
  end.
Proof. by vm_compute. Qed.

(** [dup] of a descriptor beyond the table reads outside the array. *)
Lemma dup_out_of_range : ∃ e, fd_run (Dup 2 (-1)) fd_open_state = Stop e ∧ e = BadAccess.
Proof. eexists. split; by vm_compute. Qed.

(** A process that forks with a free descriptor leaves its child an entry that
    was never written: closing all descriptors reads it. *)
Lemma fork_copies_garbage :
  ∃ e, fd_runs [Open 48 2; Open 48 2; Close 0; Fork 32; Switch 32; CloseAll] fd_state = Stop e ∧ e = BadAccess.
Proof. eexists. split; by vm_compute. Qed.
