(* ===== verification/PageCache.v ===== *)
(** * kernel/fs/icache.c: the page cache of an inode

    A cache maps page numbers to pages of memory through a binary search tree;
    pages come from the driver of the inode on the first use.  The heap of the
    caches (their structs, the trees and the pages) is part of the state the
    drivers keep, so that this file gives an instance of the interface the
    inodes are modelled against. *)

From S2P Require Import Prelude Dll Heap Queue Btree Cond Lock Vfs Cred Inode.

(** ** Caches and pages *)

Definition PGSZ : Z := 4096.
Definition PAGESZ : Z := PGSZ.
Definition PG_VALID : Z := 16.
Definition PG_DIRTY : Z := 64.

(** struct icache_t; the embedded [pc_btree] and [pc_queue] are the objects of
    the tree and queue heaps at the address of the cache. *)
Record icache_t := Icache_ {
  pc_refcnt : Z;
  pc_flags : Z;
  pc_inode : ptr;
  pc_nrpages : Z;
  pc_lock : bool;
}.
Definition pc_set_refcnt v c := Icache_ v (pc_flags c) (pc_inode c) (pc_nrpages c) (pc_lock c).
Definition pc_set_inode v c := Icache_ (pc_refcnt c) (pc_flags c) v (pc_nrpages c) (pc_lock c).
Definition pc_set_lock v c := Icache_ (pc_refcnt c) (pc_flags c) (pc_inode c) (pc_nrpages c) v.

(** struct page with the bytes of its frame. *)
Record cpage := CPage { pg_data : list Z; pg_flags : Z; pg_refcnt : Z }.
Definition pg_set_data v g := CPage v (pg_flags g) (pg_refcnt g).
Definition pg_set_flags v g := CPage (pg_data g) v (pg_refcnt g).

Record ich := Ich {
  ih_ds : dsheap;
  ih_caches : gmap ptr icache_t;
  ih_pages : gmap ptr cpage;
  ih_ticks : nat;
}.
Definition ih_set_ds v h := Ich v (ih_caches h) (ih_pages h) (ih_ticks h).
Definition ih_set_caches v h := Ich (ih_ds h) v (ih_pages h) (ih_ticks h).
Definition ih_set_pages v h := Ich (ih_ds h) (ih_caches h) v (ih_ticks h).
Definition ih_tick h := Ich (ih_ds h) (ih_caches h) (ih_pages h) (S (ih_ticks h)).

#[export] Instance hl_caches : Heaplet ich icache_t := {| hl_get := ih_caches; hl_put := ih_set_caches |}.
#[export] Instance hl_pages : Heaplet ich cpage := {| hl_get := ih_pages; hl_put := ih_set_pages |}.
#[export] Instance kheap_ich : Kheap ich := {|
  kh_live h := kh_live (ih_ds h) ∪ dom (ih_caches h) ∪ dom (ih_pages h);
  kh_ticks := ih_ticks;
  kh_tick := ih_tick;
|}.
#[export] Instance lockable_icache_t : Lockable icache_t := {| lk_held := pc_lock; lk_put := pc_set_lock |}.

Definition on_ds {A} : M dsheap A -> M ich A := zoom ih_ds ih_set_ds.

(** Copying to and from a frame maps it into the kernel, which may fail: the
    error of the n-th attempt (-EINVAL or -ENOMEM), or 0. *)
Class FrameCopy := { fc_err : nat -> Z; fc_neg n : fc_err n = 0 ∨ fc_err n < - 1 }.

Section pages.
Context {KM : Kmalloc} {FCP : FrameCopy}.

(** [alloc_page(GFP_KERNEL | GFP_ZERO)] *)
Definition zero_page : list Z := replicate (Z.to_nat PGSZ) 0.
Definition alloc_page : M ich ptr := kmalloc (CPage zero_page 0 1).

(** [page_put(page)]: the last reference frees the frame. *)
Definition page_put (page : ptr) : M ich unit :=
  g ← load (V := cpage) page;
  if decide (pg_refcnt g <= 1) then kfree cpage page
  else update page (λ g, CPage (pg_data g) (pg_flags g) (pg_refcnt g - 1)).

Definition page_isvalid (page : ptr) : M ich bool := g ← load (V := cpage) page; mret (has (pg_flags g) PG_VALID).
Definition page_setvalid (page : ptr) : M ich unit := update page (λ g, pg_set_flags (Z.lor (pg_flags g) PG_VALID) g).
Definition page_setdirty (page : ptr) : M ich unit := update page (λ g, pg_set_flags (Z.lor (pg_flags g) PG_DIRTY) g).
Definition page_maskdirty (page : ptr) : M ich unit := update page (λ g, pg_set_flags (Z.ldiff (pg_flags g) PG_DIRTY) g).

(** [xs] with [bs] written over it from position [i] on. *)
Definition overwrite (i : nat) (bs xs : list Z) : list Z := take i xs ++ bs ++ drop (i + length bs) xs.

(** [arch_memcpyvp(page_address(page) + off, bs, size)] *)
Definition memcpyvp (page : ptr) (off : Z) (bs : list Z) : M ich Z :=
  if decide (bs = []) then mret 0 else
  n ← gets ih_ticks;
  modify ih_tick;;
  if decide (fc_err n ≠ 0) then mret (fc_err n) else
  update page (λ g, pg_set_data (overwrite (Z.to_nat off) bs (pg_data g)) g);;
  mret 0.

(** [arch_memcpypv(buff, page_address(page) + off, size)] *)
Definition memcpypv (page : ptr) (off size : Z) : M ich (Z * list Z) :=
  if decide (size = 0) then mret (0, []) else
  n ← gets ih_ticks;
  modify ih_tick;;
  if decide (fc_err n ≠ 0) then mret (fc_err n, []) else
  g ← load (V := cpage) page;
  mret (0, take (Z.to_nat size) (drop (Z.to_nat off) (pg_data g))).
End pages.
Arguments zero_page : simpl never.

(** ** The operations *)

Section icache.
Context {E : Type} {KM : Kmalloc} {FCP : FrameCopy} {DR : Drivers (ich * E)}.
Abbreviation MV := (M (vfs (ich * E))).

Definition on_ich {A} : M ich A -> MV A := zoom (λ s, (v_drv s).1) (λ h s, set_drv (h, (v_drv s).2) s).

Definition icache_lock (c : ptr) : M ich unit := obj_lock icache_t c.
Definition icache_unlock (c : ptr) : M ich unit := obj_unlock icache_t c.
Definition icache_islocked (c : ptr) : M ich bool := obj_islocked icache_t c.
Definition icache_assert_locked (c : ptr) : M ich unit := obj_assert_locked icache_t c.
Definition icache_btree (c : ptr) : M ich ptr := icache_assert_locked c;; mret c.
Definition icache_queue (c : ptr) : M ich ptr := icache_assert_locked c;; mret c.
Definition icache_btree_lock (c : ptr) : M ich unit := b ← icache_btree c; on_ds (btree_lock b).
Definition icache_btree_unlock (c : ptr) : M ich unit := b ← icache_btree c; on_ds (btree_unlock b).
Definition icache_queue_lock (c : ptr) : M ich unit := q ← icache_queue c; on_ds (queue_lock q).
Definition icache_queue_unlock (c : ptr) : M ich unit := q ← icache_queue c; on_ds (queue_unlock q).

Definition icache_alloc (ppcp : bool) : M ich (Z * ptr) :=
  if negb ppcp then mret (- EINVAL, NULL) else
  c ← kmalloc (Icache_ 1 0 NULL 0 false);
  if decide (c = NULL) then mret (- ENOMEM, NULL) else
  modify (λ h, ih_set_ds (set_btrees (<[c := BTREE_INIT]> (d_btrees (ih_ds h)))
                 (set_queues (<[c := QUEUE_INIT]> (d_queues (ih_ds h))) (ih_ds h))) h);;
  mret (0, c).

Definition icache_free (c : ptr) : M ich unit :=
  if decide (c = NULL) then mret tt else
  lk ← icache_islocked c;
  let unlock := negb lk in
  when unlock (icache_lock c);;
  update c (λ v, pc_set_refcnt (pc_refcnt v - 1) v);;
  v ← load (V := icache_t) c;
  if decide (pc_refcnt v <= 0) then
    icache_btree_lock c;;
    b ← icache_btree c; _ ← on_ds (btree_flush b);
    icache_btree_unlock c;;
    icache_queue_lock c;;
    q ← icache_queue c; _ ← on_ds (queue_flush q);
    icache_queue_unlock c;;
    icache_unlock c;;
    kfree icache_t c;;
    modify (λ h, ih_set_ds (set_btrees (delete c (d_btrees (ih_ds h)))
                   (set_queues (delete c (d_queues (ih_ds h))) (ih_ds h))) h)
  else when unlock (icache_unlock c).

(** The end of [icache_getpage]: the page is filled from the driver and, when
    it is new, entered in the tree. *)
Definition getpage_update (c : ptr) (pgno : Z) (page : ptr) (new_page : bool) : MV (Z * ptr) :=
  let error (err : Z) : MV (Z * ptr) := when new_page (on_ich (page_put page));; mret (err, NULL) in
  v ← on_ich (load (V := icache_t) c);
  '(size, buff) ← iread_data (pc_inode v) (u64 (pgno * PGSZ)) PGSZ;
  if decide (s32 size < 0) then error (s32 size) else
  err ← on_ich (memcpyvp page 0 (take (Z.to_nat size) buff));
  if decide (err ≠ 0) then error err else
  on_ich (page_setvalid page;; page_maskdirty page);;
  if new_page then
    on_ich (icache_btree_lock c);;
    err ← on_ich (b ← icache_btree c; on_ds (btree_insert b pgno page));
    on_ich (icache_btree_unlock c);;
    if decide (err ≠ 0) then error err else mret (0, page)
  else mret (0, page).

Definition icache_getpage (c : ptr) (pgno : Z) (ref : bool) : MV (Z * ptr) :=
  if decide (ref = false ∨ c = NULL) then mret (- EINVAL, NULL) else
  on_ich (icache_assert_locked c);;
  on_ich (icache_btree_lock c);;
  '(err, found) ← on_ich (b ← icache_btree c; on_ds (btree_search b pgno true));
  on_ich (icache_btree_unlock c);;
  if decide (err = 0) then
    let page := default NULL found in
    ok ← on_ich (page_isvalid page);
    if ok : bool then mret (0, page) else getpage_update c pgno page false
  else
  page ← on_ich alloc_page;
  if decide (page = NULL) then mret (- ENOMEM, NULL) else getpage_update c pgno page true.

(** The loop of [icache_read]: one page at a time. *)
Fixpoint read_loop (fuel : nat) (c : ptr) (offset sz : Z) (total : Z) (acc : list Z) : MV (Z * list Z) :=
  if decide (sz = 0) then mret (total, acc) else
  match fuel with
  | O => halt OutOfFuel
  | S n =>
      '(err, page) ← icache_getpage c (offset `div` PGSZ) true;
      if decide (err ≠ 0) then mret (err, []) else
      let size := Z.min (PAGESZ - offset `mod` PGSZ) sz in
      '(err, bs) ← on_ich (memcpypv page (offset `mod` PGSZ) size);
      if decide (err ≠ 0) then mret (err, []) else
      read_loop n c (u64 (offset + size)) (sz - size) (total + size) (acc ++ bs)
  end.
Definition icache_read (c : ptr) (off sz : Z) : MV (Z * list Z) :=
  on_ich (icache_assert_locked c);;
  read_loop (Z.to_nat (sz `div` PGSZ) + 2) c off sz 0 [].

(** The page of [icache_write]: -1 means that the driver has nothing there, and
    a page is made; the C code asks again and again while there is no memory. *)
Fixpoint write_page (tries : nat) (c : ptr) (pgno : Z) : MV (Z * (ptr * bool)) :=
  match tries with
  | O => halt OutOfFuel
  | S n =>
      '(err, page) ← icache_getpage c pgno true;
      if decide (err = - 1) then
        page ← on_ich alloc_page;
        if decide (page = NULL) then write_page n c pgno else mret (0, (page, true))
      else mret (err, (page, false))
  end.

(** A page that was made is entered in the tree and the inode grows. *)
Definition write_new (c : ptr) (offset size : Z) (page : ptr) : MV Z :=
  on_ich (icache_btree_lock c);;
  err ← on_ich (b ← icache_btree c; on_ds (btree_insert b (offset `div` PGSZ) page));
  on_ich (icache_btree_unlock c);;
  if decide (err ≠ 0) then mret err else
  on_ich (page_setvalid page);;
  v ← on_ich (load (V := icache_t) c);
  iassert_locked (pc_inode v);;
  update (V := inode_t) (pc_inode v) (i_set_size (u64 (offset + size)));;
  mret 0.

Fixpoint write_loop (tries fuel : nat) (c : ptr) (offset : Z) (buff : list Z) (total : Z) : MV Z :=
  if decide (buff = []) then mret total else
  match fuel with
  | O => halt OutOfFuel
  | S n =>
      '(err, (page, new_page)) ← write_page tries c (offset `div` PGSZ);
      if decide (err ≠ 0) then mret err else
      let error (err : Z) : MV Z := when new_page (on_ich (page_put page));; mret err in
      let size := Z.min (PAGESZ - offset `mod` PGSZ) (Z.of_nat (length buff)) in
      err ← on_ich (memcpyvp page (offset `mod` PGSZ) (take (Z.to_nat size) buff));
      if decide (err ≠ 0) then error err else
      err ← (if new_page : bool then write_new c offset size page else mret 0);
      if decide (err ≠ 0) then error err else
      on_ich (page_setdirty page);;
      write_loop tries n c (u64 (offset + size)) (drop (Z.to_nat size) buff) (total + size)
  end.
Definition icache_write (tries : nat) (c : ptr) (off : Z) (buff : list Z) : MV Z :=
  on_ich (icache_assert_locked c);;
  write_loop tries (length buff `div` 4096 + 2) c off buff 0.

(** The page cache behind the interface of Inode.v. *)
Definition page_cache (tries : nat) : Icache (ich * E) := {|
  Inode.icache_alloc := on_ich (icache_alloc true);
  Inode.icache_free c := on_ich (icache_free c);
  Inode.icache_set_inode c ip := on_ich (update (V := icache_t) c (pc_set_inode ip));
  Inode.icache_lock c := on_ich (icache_lock c);
  Inode.icache_unlock c := on_ich (icache_unlock c);
  Inode.icache_read := icache_read;
  Inode.icache_write := icache_write tries;
|}.
End icache.
