(* ===== verification/PageSpec.v ===== *)
(** * The page cache as a file of bytes

    What the operations of PageCache.v do to the contents of a cache: the bytes
    of the cached pages, and behind them what the driver reads. *)

From S2P Require Import Prelude Dll Heap Queue Btree Cond Lock Vfs Cred Inode PageCache.

Section heap.
Context {KM : Kmalloc} {FCP : FrameCopy}.
Implicit Types (h : ich) (t : tree).

(** The cache [c] of the inode [ip], locked, with the tree [t]; [lk] tells
    whether the tree is locked. *)
Record linked h (c ip : ptr) (lk : bool) t : Prop := {
  li_at : ∃ v, ih_caches h !! c = Some v ∧ pc_lock v = true ∧ pc_inode v = ip;
  li_tree : btree_rep (ih_ds h) c lk t;
}.

(** The tree holds valid pages, each under one number. *)
Record paged (m : gmap ptr cpage) t : Prop := {
  pa_page k p : tmap t !! k = Some p ->
    p ≠ NULL ∧ ∃ g, m !! p = Some g ∧ has (pg_flags g) PG_VALID = true ∧ length (pg_data g) = 4096%nat;
  pa_inj k1 k2 p : tmap t !! k1 = Some p -> tmap t !! k2 = Some p -> k1 = k2;
}.

Definition cache_at h (c ip : ptr) (lk : bool) t : Prop := linked h c ip lk t ∧ paged (ih_pages h) t.

(** The bytes of a cached page. *)
Definition contents h t (k : Z) : option (list Z) := p ← tmap t !! k; pg_data <$> ih_pages h !! p.

Lemma li_null h c ip lk t : linked h c ip lk t -> c ≠ NULL.
Proof. intros H. apply valid_ptr_nonnull, (br_ptr _ _ _ _ (li_tree _ _ _ _ _ H)). Qed.

Lemma wp_ic_assert h c ip lk t (Q : unit -> ich -> Prop) : linked h c ip lk t -> Q tt h -> wp (icache_assert_locked c) h Q.
Proof. intros H HQ. pose proof (li_null _ _ _ _ _ H). destruct (li_at _ _ _ _ _ H) as (v & Hv & Hl & _). by apply (wp_obj_assert_locked _ _ v). Qed.

Lemma wp_ic_btree h c ip lk t (Q : ptr -> ich -> Prop) : linked h c ip lk t -> Q c h -> wp (icache_btree c) h Q.
Proof. intros H HQ. unfold icache_btree. wp_step. eapply wp_ic_assert; [done|]. by wp_step. Qed.

Definition retree h c (b : btree_t) : ich := ih_set_ds (set_btrees (<[c := b]> (d_btrees (ih_ds h))) (ih_ds h)) h.

Lemma linked_relock h c ip lk t lk' :
  linked h c ip lk t -> linked (retree h c (Btree (root t) (Z.of_nat (length (elems t))) lk')) c ip lk' t.
Proof. intros [H1 [B1 B2 B3 B4 B5]]. split; try done. split; try done. simpl. by rewrite lookup_insert_eq. Qed.

Lemma wp_btree_lk h c (x : btree_t) (Q : unit -> ich -> Prop) :
  valid_ptr c -> d_btrees (ih_ds h) !! c = Some x -> bt_lock x = false -> Q tt (retree h c (bt_set_lock true x)) ->
  wp (on_ds (btree_lock c)) h Q.
Proof.
  intros Hc Hx Hl HQ. apply wp_zoom. unfold btree_lock, btree_assert. wp_step.
  apply wp_assert; [rewrite bool_decide_eq_true_2; [done|by apply valid_ptr_nonnull]|].
  wp_step. eapply wp_bt; [done..|]. wp_step. apply wp_assert; [by rewrite Hl|]. by eapply wp_bt_upd.
Qed.
Lemma wp_btree_unlk h c (x : btree_t) (Q : unit -> ich -> Prop) :
  valid_ptr c -> d_btrees (ih_ds h) !! c = Some x -> bt_lock x = true -> Q tt (retree h c (bt_set_lock false x)) ->
  wp (on_ds (btree_unlock c)) h Q.
Proof.
  intros Hc Hx Hl HQ. apply wp_zoom. unfold btree_unlock, btree_assert. wp_step.
  apply wp_assert; [rewrite bool_decide_eq_true_2; [done|by apply valid_ptr_nonnull]|].
  wp_step. eapply wp_bt; [done..|]. wp_step. apply wp_assert; [done|]. by eapply wp_bt_upd.
Qed.

Lemma wp_ic_lock h c ip t (Q : unit -> ich -> Prop) :
  linked h c ip false t -> (∀ h', linked h' c ip true t -> ih_pages h' = ih_pages h -> Q tt h') -> wp (icache_btree_lock c) h Q.
Proof.
  intros H HQ. unfold icache_btree_lock. wp_step. eapply wp_ic_btree; [done|]. pose proof (li_tree _ _ _ _ _ H) as B.
  eapply wp_btree_lk; [apply (br_ptr _ _ _ _ B)|apply (br_tree _ _ _ _ B)|done|]. apply HQ; [by apply (linked_relock _ _ _ _ _ true) in H|done].
Qed.
Lemma wp_ic_unlock h c ip t (Q : unit -> ich -> Prop) :
  linked h c ip true t -> (∀ h', linked h' c ip false t -> ih_pages h' = ih_pages h -> Q tt h') -> wp (icache_btree_unlock c) h Q.
Proof.
  intros H HQ. unfold icache_btree_unlock. wp_step. eapply wp_ic_btree; [done|]. pose proof (li_tree _ _ _ _ _ H) as B.
  eapply wp_btree_unlk; [apply (br_ptr _ _ _ _ B)|apply (br_tree _ _ _ _ B)|done|]. apply HQ; [by apply (linked_relock _ _ _ _ _ false) in H|done].
Qed.

Lemma wp_ic_search h c ip t k (Q : Z * option ptr -> ich -> Prop) :
  linked h c ip true t ->
  Q (match tmap t !! k with Some p => (0, Some p) | None => (- ENOENT, None) end) h ->
  wp (b ← icache_btree c; on_ds (btree_search b k true)) h Q.
Proof.
  intros H HQ. wp_step. eapply wp_ic_btree; [done|]. apply wp_zoom.
  assert (∀ a, Q a h -> Q a (ih_set_ds (ih_ds h) h)) as HQ' by by destruct h.
  eapply wp_btree_search; [by eapply li_tree|..].
  - intros d Hd. apply HQ'. change (tmap t !! k = Some d) in Hd. by rewrite Hd in HQ.
  - intros Hd. apply HQ'. change (tmap t !! k = None) in Hd. by rewrite Hd in HQ.
Qed.

(** A page under a new number, or memory runs out. *)
Lemma wp_ic_insert h c ip t k p (Q : Z -> ich -> Prop) :
  linked h c ip true t -> tmap t !! k = None ->
  (∀ h', linked h' c ip true t -> ih_pages h' = ih_pages h -> Q (- ENOMEM) h') ->
  (∀ h' t', linked h' c ip true t' -> ih_pages h' = ih_pages h -> tmap t' = <[k := p]> (tmap t) -> Q 0 h') ->
  wp (b ← icache_btree c; on_ds (btree_insert b k p)) h Q.
Proof.
  intros H Hk HQ1 HQ2. wp_step. eapply wp_ic_btree; [done|]. apply wp_zoom. destruct (H) as [H1 H2].
  eapply wp_btree_insert; [done|..].
  - intros _. apply HQ1; [|done]. split; try done. destruct H2. by split.
  - intros Hin. apply elem_of_dom in Hin as [x Hx]. congruence.
  - intros q t' m' h' _ Hrep Ht' _ _ _. by apply (HQ2 _ t').
Qed.

Lemma paged_insert m t t' k p g :
  paged m t -> tmap t' = <[k := p]> (tmap t) -> p ≠ NULL -> m !! p = Some g ->
  has (pg_flags g) PG_VALID = true -> length (pg_data g) = 4096%nat -> (∀ k', tmap t !! k' ≠ Some p) -> paged m t'.
Proof.
  intros [H3 H4] Ht' Hp Hg Hv Hlen Hnew. split.
  - intros k' p'. rewrite Ht'. destruct (decide (k = k')) as [<-|Hne]; [rewrite lookup_insert_eq; intros [= <-]; eauto|].
    rewrite lookup_insert_ne by done. apply H3.
  - intros k1 k2 p'. rewrite Ht'. destruct (decide (k = k1)) as [<-|N1], (decide (k = k2)) as [<-|N2];
      rewrite ?lookup_insert_eq, ?lookup_insert_ne by done; [done|intros [= <-] E; by apply Hnew in E|intros E [= <-]; by apply Hnew in E|apply H4].
Qed.

(** Other pages change. *)
Lemma paged_same m m' t :
  paged m t -> (∀ k p g, tmap t !! k = Some p -> m !! p = Some g -> has (pg_flags g) PG_VALID = true -> length (pg_data g) = 4096%nat ->
     ∃ g', m' !! p = Some g' ∧ has (pg_flags g') PG_VALID = true ∧ length (pg_data g') = 4096%nat) -> paged m' t.
Proof.
  intros [H3 H4] Hm. split; [|done]. intros k p Hk. destruct (H3 k p Hk) as (Hn & g & Hg & Hv & Hl). split; [done|]. by eapply Hm.
Qed.
Lemma linked_same h h' c ip lk t : linked h c ip lk t -> ih_ds h' = ih_ds h -> ih_caches h' = ih_caches h -> linked h' c ip lk t.
Proof. intros [H1 H2] Hd Hc. split; [by rewrite Hc|by rewrite Hd]. Qed.
End heap.

(** ** Pages *)

Section page_ops.
Context {KM : Kmalloc} {FCP : FrameCopy}.
Implicit Types (h : ich) (t : tree).

(** Some frame cannot be mapped to copy from or to it. *)
Definition copy_fails : Prop := ∃ n, fc_err n ≠ 0.
(** The page of an offset is in the cache. *)
Definition cached t (o : Z) : Prop := is_Some (tmap t !! (o `div` 4096)).
(** Why an access to [n] bytes at [off] may fail. *)
Definition may_fail t (off n : Z) : Prop := copy_fails ∨ ∃ i, 0 <= i < n ∧ ¬ cached t (off + i).
(** Pages stay in the cache. *)
Definition keeps_pages t t' : Prop := ∀ k, is_Some (tmap t !! k) -> is_Some (tmap t' !! k).
Lemma keeps_pages_trans t1 t2 t3 : keeps_pages t1 t2 -> keeps_pages t2 t3 -> keeps_pages t1 t3.
Proof. unfold keeps_pages. auto. Qed.

Lemma cache_at_pages h c ip lk t h' :
  cache_at h c ip lk t -> ih_ds h' = ih_ds h -> ih_caches h' = ih_caches h ->
  (∀ k p g, tmap t !! k = Some p -> ih_pages h !! p = Some g -> has (pg_flags g) PG_VALID = true -> length (pg_data g) = 4096%nat ->
     ∃ g', ih_pages h' !! p = Some g' ∧ has (pg_flags g') PG_VALID = true ∧ length (pg_data g') = 4096%nat) ->
  cache_at h' c ip lk t.
Proof. intros [H1 H2] Hd Hc Hp. split; [by eapply linked_same|by eapply paged_same]. Qed.
Lemma cache_at_relink h c ip lk t h' lk' : cache_at h c ip lk t -> linked h' c ip lk' t -> ih_pages h' = ih_pages h -> cache_at h' c ip lk' t.
Proof. intros [_ H2] Hl E. split; [done|]. by rewrite E. Qed.

Lemma overwrite_nil i xs : overwrite i [] xs = xs.
Proof. unfold overwrite. rewrite Nat.add_0_r. simpl. apply take_drop. Qed.
Lemma overwrite_length i bs xs : (i + length bs <= length xs)%nat -> length (overwrite i bs xs) = length xs.
Proof. intros H. unfold overwrite. rewrite !length_app, length_take, length_drop. lia. Qed.
Lemma overwrite_lookup i bs xs j : (i + length bs <= length xs)%nat ->
  overwrite i bs xs !! j = if decide (i <= j < i + length bs)%nat then bs !! (j - i)%nat else xs !! j.
Proof.
  intros H. unfold overwrite. destruct (decide (j < i)%nat) as [Hj|Hj].
  - rewrite decide_False by lia. rewrite lookup_app_l by (rewrite length_take; lia). by rewrite lookup_take_lt.
  - rewrite lookup_app_r by (rewrite length_take; lia). rewrite length_take, Nat.min_l by lia. case_decide as Hb.
    + by rewrite lookup_app_l by lia.
    + rewrite lookup_app_r by lia. rewrite lookup_drop. f_equal. lia.
Qed.

Lemma wp_memcpyvp h p off bs g (Q : Z -> ich -> Prop) :
  p ≠ NULL -> ih_pages h !! p = Some g ->
  (∀ err n, err < - 1 -> copy_fails -> Q err (Ich (ih_ds h) (ih_caches h) (ih_pages h) n)) ->
  (∀ n, Q 0 (Ich (ih_ds h) (ih_caches h) (<[p := pg_set_data (overwrite (Z.to_nat off) bs (pg_data g)) g]> (ih_pages h)) n)) ->
  wp (memcpyvp p off bs) h Q.
Proof.
  intros Hp Hg HQ1 HQ2. unfold memcpyvp. case_decide as Hb.
  { wp_step. subst bs. specialize (HQ2 (ih_ticks h)). rewrite overwrite_nil in HQ2.
    replace (<[p := _]> (ih_pages h)) with (ih_pages h) in HQ2; [by destruct h|]. symmetry. apply insert_id. rewrite Hg. by destruct g. }
  apply wp_bind, wp_gets, wp_bind, wp_modify. pose proof (fc_neg (ih_ticks h)) as Hn. case_decide as He.
  - wp_step. apply HQ1; [lia|by eexists].
  - wp_step. eapply wp_update; [done|exact Hg|]. wp_step. apply HQ2.
Qed.

Lemma wp_memcpypv h p off sz g (Q : Z * list Z -> ich -> Prop) :
  p ≠ NULL -> ih_pages h !! p = Some g ->
  (∀ err n, err < - 1 -> copy_fails -> Q (err, []) (Ich (ih_ds h) (ih_caches h) (ih_pages h) n)) ->
  (∀ n, Q (0, take (Z.to_nat sz) (drop (Z.to_nat off) (pg_data g))) (Ich (ih_ds h) (ih_caches h) (ih_pages h) n)) ->
  wp (memcpypv p off sz) h Q.
Proof.
  intros Hp Hg HQ1 HQ2. unfold memcpypv. case_decide as Hb.
  { wp_step. subst sz. specialize (HQ2 (ih_ticks h)). by destruct h. }
  apply wp_bind, wp_gets, wp_bind, wp_modify. pose proof (fc_neg (ih_ticks h)) as Hn. case_decide as He.
  - wp_step. apply HQ1; [lia|by eexists].
  - wp_step. eapply wp_load; [done|exact Hg|]. wp_step. apply HQ2.
Qed.

Lemma wp_page_put_new h p g (Q : unit -> ich -> Prop) :
  p ≠ NULL -> ih_pages h !! p = Some g -> pg_refcnt g = 1 -> Q tt (ih_set_pages (delete p (ih_pages h)) h) -> wp (page_put p) h Q.
Proof.
  intros Hp Hg Hr HQ. unfold page_put. wp_step. eapply wp_load; [done|exact Hg|]. rewrite decide_True by lia. by eapply wp_kfree.
Qed.

Lemma wp_page_flags h p g f (Q : unit -> ich -> Prop) :
  p ≠ NULL -> ih_pages h !! p = Some g -> Q tt (ih_set_pages (<[p := f g]> (ih_pages h)) h) -> wp (update (V := cpage) p f) h Q.
Proof. intros. by eapply wp_update. Qed.

Lemma has_lor m b : b ≠ 0 -> has (Z.lor m b) b = true.
Proof.
  intros Hb. unfold has. apply bool_decide_eq_true_2. intros E. apply Hb. apply Z.bits_inj'. intros n Hn.
  apply (f_equal (λ x, Z.testbit x n)) in E. rewrite Z.land_spec, Z.lor_spec, Z.bits_0 in E. rewrite Z.bits_0. by destruct (Z.testbit b n), (Z.testbit m n).
Qed.
End page_ops.

(** ** A page of the cache *)

Section getpage.
Context {E : Type} {KM : Kmalloc} {FCP : FrameCopy} {DR : Drivers (ich * E)}.
Abbreviation ST := (vfs (ich * E)).
Implicit Types (s : ST) (h : ich) (t : tree).

(** The state with another heap of caches. *)
Definition ic_ s h : ST := set_drv (h, (v_drv s).2) s.

Lemma ic_id s : ic_ s (v_drv s).1 = s.
Proof. unfold ic_. destruct s as [? ? ? ? ? ? ? ? ? [] ?]. done. Qed.

Lemma wp_on_ich {A} (c : M ich A) s h (Q : A -> ST -> Prop) : wp c h (λ a h', Q a (ic_ s h')) -> wp (on_ich c) (ic_ s h) Q.
Proof. intros H. apply wp_zoom. exact H. Qed.

(** What the driver of an inode has for page [k]: the number of bytes read,
    negative when there is an error, and the bytes. *)
Record source (ip ops : ptr) (src : Z -> Z * list Z) : Prop := {
  so_null : ip ≠ NULL;
  so_range k : - 2147483648 <= (src k).1 <= 4096;
  so_len k : 0 <= (src k).1 -> (src k).1 = Z.of_nat (length (src k).2);
  so_read : ops ≠ NULL ∧ ∃ tb f, iops_at ops = Some tb ∧ op_iread tb = Some f ∧
    ∀ s k, 0 <= k < 4503599627370496 -> f ip (k * PGSZ) PGSZ s = Ok (src k) s;
}.
(** The inode is locked, is not a directory and has this driver. *)
Definition inode_at s (ip ops : ptr) : Prop :=
  ∃ i, v_inodes s !! ip = Some i ∧ i_lock i = true ∧ i_type i ≠ FS_DIR ∧ i_ops i = ops.

Lemma wp_iread_source s ip ops src k (Q : Z * list Z -> ST -> Prop) :
  source ip ops src -> inode_at s ip ops -> 0 <= k < 4503599627370496 -> Q (src k) s -> wp (iread_data ip (k * PGSZ) PGSZ) s Q.
Proof.
  intros [Hn _ _ (Hops & tb & f & Ht & Hf & Hr)] (i & Hi & Hl & Hty & Ho) Hk HQ. unfold iread_data, IISDIR, IISTYPE, icheck_op.
  wp_step. apply (wp_obj_assert_locked _ _ i); [done..|]. do 2 wp_step. apply (wp_obj_assert_locked _ _ i); [done..|].
  wp_step. eapply wp_load; [done|exact Hi|]. wp_step. rewrite bool_decide_eq_false_2 by done.
  do 2 wp_step. apply (wp_obj_assert_locked _ _ i); [done..|]. wp_step. eapply wp_load; [done|exact Hi|].
  rewrite decide_False by congruence. rewrite Ho, Ht. wp_step. rewrite Hf. unfold wp. by rewrite Hr.
Qed.

Lemma zero_page_length : length zero_page = 4096%nat.
Proof. apply length_replicate. Qed.

Definition pad (bs : list Z) : list Z := overwrite 0 bs zero_page.

Section with_source.
Context {ip ops : ptr} {src : Z -> Z * list Z} (Hsrc : source ip ops src).

(** The last part of [icache_getpage] for a new page. *)
Lemma wp_update_new s h c t k p (Q : Z * ptr -> ST -> Prop) :
  cache_at h c ip false t -> inode_at s ip ops -> 0 <= k < 4503599627370496 -> tmap t !! k = None ->
  p ≠ NULL -> ih_pages h !! p = None ->
  (∀ err h', err < 0 -> (err = - 1 -> (src k).1 = - 1) -> cache_at h' c ip false t -> ih_pages h' = ih_pages h -> Q (err, NULL) (ic_ s h')) ->
  (0 <= (src k).1 -> ∀ h' t' g, cache_at h' c ip false t' -> tmap t' = <[k := p]> (tmap t) ->
     ih_pages h' = <[p := g]> (ih_pages h) -> pg_data g = pad (src k).2 -> Q (0, p) (ic_ s h')) ->
  wp (getpage_update c k p true) (ic_ s (ih_set_pages (<[p := CPage zero_page 0 1]> (ih_pages h)) h)) Q.
Proof.
  intros Hc Hi Hk Hn Hp Hpn HQ1 HQ2. set (g0 := CPage _ _ _). pose proof (li_null _ _ _ _ _ (proj1 Hc)) as Hcn.
  assert (∀ k' p', tmap t !! k' = Some p' -> p' ≠ p) as Hfr.
  { intros k' p' Ek. destruct (pa_page _ _ (proj2 Hc) _ _ Ek) as (_ & g & Hg & _). congruence. }
  assert (∀ h' g, ih_ds h' = ih_ds h -> ih_caches h' = ih_caches h -> ih_pages h' = <[p := g]> (ih_pages h) -> cache_at h' c ip false t) as Hca.
  { intros h' g D1 D2 D3. eapply cache_at_pages; [exact Hc|done|done|]. intros k' p' g' E1 E2 E3 E4. exists g'.
    rewrite D3, lookup_insert_ne by (by apply not_eq_sym, (Hfr k')). done. }
  assert (∀ h' g err, cache_at h' c ip false t -> ih_pages h' = <[p := g]> (ih_pages h) -> pg_refcnt g = 1 -> err < 0 -> (err = - 1 -> (src k).1 = - 1) ->
    wp (when true (on_ich (page_put p));; mret (err, NULL)) (ic_ s h') Q) as Herr.
  { intros h' g err D1 D3 Hg Herr E1. wp_step. cbn [when]. apply wp_on_ich. eapply wp_page_put_new; [done|by rewrite D3, lookup_insert_eq|done|].
    wp_step. assert (delete p (ih_pages h') = ih_pages h) as Ed by (rewrite D3; by apply delete_insert_id).
    apply HQ1; [done|done| |done]. eapply cache_at_pages; [exact D1|done|done|]. simpl. rewrite Ed.
    intros k' p' g' F1 F2 F3 F4. exists g'. rewrite D3, lookup_insert_ne in F2 by (by apply not_eq_sym, (Hfr k')). done. }
  unfold getpage_update. wp_step. apply wp_on_ich. destruct (li_at _ _ _ _ _ (proj1 Hc)) as (v & Hv & Hl & Hip). eapply wp_load; [done|exact Hv|].
  rewrite Hip. rewrite u64_small by (unfold in_u64, two64, PGSZ; lia). wp_step. eapply wp_iread_source; [done|exact Hi|done|].
  pose proof (so_range _ _ _ Hsrc k) as Hr. pose proof (so_len _ _ _ Hsrc k) as Hlen. destruct (src k) as [size buff] eqn:Es. simpl in *.
  assert (s32 size = size) as E32. { unfold s32, u32. destruct (decide (0 <= size)); [rewrite Z.mod_small by lia; case_decide; lia|].
    replace (size `mod` 4294967296) with (size + 4294967296) by (apply (Z.mod_unique _ _ (-1)); lia). case_decide; lia. }
  rewrite E32. case_decide as Hneg.
  { eapply (Herr _ g0); try done. by eapply Hca. }
  specialize (Hlen ltac:(lia)). wp_step. apply wp_on_ich.
  eapply wp_memcpyvp; [done|simpl; by rewrite lookup_insert_eq|..].
  - intros err n Hn' _. rewrite decide_True by lia. eapply (Herr _ g0); try done; try lia. by eapply Hca.
  - intros n. rewrite decide_False by tauto. set (g1 := pg_set_data _ g0). simpl. rewrite insert_insert_eq. wp_step. apply wp_on_ich. wp_step.
    eapply wp_page_flags; [done|simpl; by rewrite lookup_insert_eq|]. eapply wp_page_flags; [done|simpl; by rewrite lookup_insert_eq|]. simpl. rewrite !insert_insert_eq.
    set (g2 := pg_set_flags _ _). set (h1 := ih_set_pages _ _).
    assert (cache_at h1 c ip false t) as Hc1 by (by eapply (Hca h1 g2)).
    wp_step. apply wp_on_ich. eapply wp_ic_lock; [apply Hc1|]. intros h2 Hc2 E2. wp_step. apply wp_on_ich.
    assert (has (pg_flags g2) PG_VALID = true) as Hvalid by by vm_compute.
    assert (pg_data g2 = pad buff) as Hdata.
    { unfold g2, g1, pad. simpl. rewrite take_ge by lia. done. }
    assert (length (pg_data g2) = 4096%nat) as Hl2.
    { rewrite Hdata. unfold pad. rewrite overwrite_length; rewrite zero_page_length; lia. }
    eapply (wp_ic_insert h2 c ip t k p); [done|done|..].
    + intros h3 Hc3 E3. wp_step. apply wp_on_ich. eapply wp_ic_unlock; [exact Hc3|]. intros h4 Hc4 E4. rewrite decide_True by done.
      eapply (Herr h4 g2); try done; [by eapply cache_at_relink; [exact Hc1|done|congruence]|by rewrite E4, E3, E2].
    + intros h3 t' Hc3 E3 Et. wp_step. apply wp_on_ich. eapply wp_ic_unlock; [exact Hc3|]. intros h4 Hc4 E4. rewrite decide_False by tauto.
      wp_step. assert (ih_pages h4 = <[p := g2]> (ih_pages h)) as E5 by (by rewrite E4, E3, E2).
      eapply (HQ2 ltac:(lia) h4 t' g2); [|done|done|done]. split; [done|]. eapply paged_insert; [|done|done|by rewrite E5, lookup_insert_eq|done|done|].
      * rewrite E4, E3, E2. apply Hc1.
      * intros k' F. by apply (Hfr _ _ F).
Qed.
End with_source.
End getpage.

(** ** The bytes of a file *)

Section view.
Context {E : Type} {KM : Kmalloc} {FCP : FrameCopy} {DR : Drivers (ich * E)}.
Context {ip ops : ptr} {src : Z -> Z * list Z} (Hsrc : source ip ops src).
Abbreviation ST := (vfs (ich * E)).
Implicit Types (s : ST) (h : ich) (t : tree) (C : Z -> option (list Z)).

(** Page [k] as it is read through the cache [C]; none where the driver fails. *)
Definition page_of C (k : Z) : option (list Z) :=
  match C k with Some d => Some d | None => if decide (0 <= (src k).1) then Some (pad (src k).2) else None end.
Definition byte C (o : Z) : option Z := d ← page_of C (o `div` 4096); d !! Z.to_nat (o `mod` 4096).

Lemma contents_some h c ip' lk t k p :
  cache_at h c ip' lk t -> tmap t !! k = Some p ->
  p ≠ NULL ∧ ∃ g, ih_pages h !! p = Some g ∧ has (pg_flags g) PG_VALID = true ∧ length (pg_data g) = 4096%nat ∧ contents h t k = Some (pg_data g).
Proof.
  intros H Hk. destruct (pa_page _ _ (proj2 H) k p Hk) as (Hp & g & Hg & Hv & Hl). split; [done|]. exists g.
  repeat (split; [done|]). unfold contents. by rewrite Hk; simpl; rewrite Hg.
Qed.
Lemma contents_same h h' t : ih_pages h' = ih_pages h -> contents h' t = contents h t.
Proof. unfold contents. by intros ->. Qed.

Lemma wp_getpage s h c t k (Q : Z * ptr -> ST -> Prop) :
  cache_at h c ip false t -> inode_at s ip ops -> 0 <= k < 4503599627370496 ->
  (∀ err h', err < 0 -> (err = - 1 -> (src k).1 = - 1) -> tmap t !! k = None -> cache_at h' c ip false t -> ih_pages h' = ih_pages h ->
     Q (err, NULL) (ic_ s h')) ->
  (∀ p g h' t', cache_at h' c ip false t' -> tmap t' !! k = Some p -> keeps_pages t t' -> ih_pages h' !! p = Some g ->
     (∀ k', page_of (contents h' t') k' = page_of (contents h t) k') -> Q (0, p) (ic_ s h')) ->
  wp (icache_getpage c k true) (ic_ s h) Q.
Proof.
  intros Hc Hi Hk HQ1 HQ2. pose proof (li_null _ _ _ _ _ (proj1 Hc)) as Hcn. unfold icache_getpage.
  rewrite decide_False by (intros [|]; done). wp_step. apply wp_on_ich. eapply wp_ic_assert; [apply Hc|].
  wp_step. apply wp_on_ich. eapply wp_ic_lock; [apply Hc|]. intros h1 Hl1 E1. pose proof (cache_at_relink _ _ _ _ _ _ _ Hc Hl1 E1) as Hc1. wp_step. apply wp_on_ich. eapply wp_ic_search; [apply Hc1|].
  assert (∀ (x : Z * option ptr) (R : Z -> option ptr -> M ST (Z * ptr)) S', wp (R x.1 x.2) S' Q -> wp (let '(err, found) := x in R err found) S' Q) as Hlet by (by intros []).
  destruct (tmap t !! k) as [p|] eqn:Ek.
  - wp_step. apply wp_on_ich. eapply wp_ic_unlock; [apply Hc1|]. intros h2 Hl2 E2. pose proof (cache_at_relink _ _ _ _ _ _ _ Hc1 Hl2 E2) as Hc2. rewrite decide_True by done. cbn [default].
    destruct (contents_some _ _ _ _ _ _ _ Hc2 Ek) as (Hp & g & Hg & Hv & Hl & Hcont).
    wp_step. apply wp_on_ich. unfold page_isvalid. wp_step. eapply wp_load; [done|exact Hg|]. wp_step. rewrite Hv. wp_step.
    eapply HQ2; [exact Hc2|done|by intros ?|done|]. intros k'. by rewrite (contents_same h h2) by congruence.
  - wp_step. apply wp_on_ich. eapply wp_ic_unlock; [apply Hc1|]. intros h2 Hl2 E2. pose proof (cache_at_relink _ _ _ _ _ _ _ Hc1 Hl2 E2) as Hc2. rewrite decide_False by done.
    wp_step. apply wp_on_ich. unfold alloc_page. apply wp_kmalloc.
    + rewrite decide_True by done. wp_step. apply HQ1; [done|done|done| |by simpl; congruence].
      eapply cache_at_pages; [exact Hc2|done|done|eauto].
    + intros p Hp Hlive _. rewrite decide_False by (by apply valid_ptr_nonnull). set (h3 := ih_tick h2).
      assert (cache_at h3 c ip false t) as Hc3 by (eapply cache_at_pages; [exact Hc2|done|done|eauto]).
      change (hl_put _ _) with (ih_set_pages (<[p := CPage zero_page 0 1]> (ih_pages h3)) h3).
      assert (ih_pages h3 !! p = None) as Hpn. { apply not_elem_of_dom. intros Hin. apply Hlive. simpl. set_solver. }
      eapply wp_update_new; [done|exact Hc3|done|done|done|by apply valid_ptr_nonnull|done|..].
      * intros err h' Herr E3 Hc' E4. apply HQ1; [done|done|done|done|simpl in E4; congruence].
      * intros Hs h' t' g Hc' Et' Ep' Hd. eapply (HQ2 p g h' t'); [done|by rewrite Et', lookup_insert_eq|intros k' Hk'; rewrite Et'; by apply lookup_insert_is_Some'; right|by rewrite Ep', lookup_insert_eq|].
        intros k'. unfold page_of. destruct (decide (k = k')) as [<-|Hne].
        -- assert (contents h' t' k = Some (pg_data g)) as -> by (unfold contents; rewrite Et', lookup_insert_eq; simpl; by rewrite Ep', lookup_insert_eq).
           assert (contents h t k = None) as -> by (unfold contents; by rewrite Ek). rewrite decide_True by done. by rewrite Hd.
        -- assert (contents h' t' k' = contents h t k') as ->; [|done]. unfold contents. rewrite Et', lookup_insert_ne by done.
           destruct (tmap t !! k') as [p'|] eqn:Ek'; [|done]. simpl. destruct (pa_page _ _ (proj2 Hc3) _ _ Ek') as (_ & g' & Hg' & _).
           rewrite Ep', lookup_insert_ne by congruence. simpl. by rewrite E2, E1.
Qed.

(** Where the bytes of a part of a page are. *)
Lemma page_arith offset size i :
  0 <= offset -> size <= 4096 - offset `mod` 4096 -> 0 <= i < size ->
  (offset + i) `div` 4096 = offset `div` 4096 ∧ (offset + i) `mod` 4096 = offset `mod` 4096 + i.
Proof.
  intros Ho Hs Hi. pose proof (Z.div_mod offset 4096 ltac:(lia)) as E0. pose proof (Z.mod_pos_bound offset 4096 ltac:(lia)) as E1.
  split; [symmetry; apply (Z.div_unique _ _ _ (offset `mod` 4096 + i)); lia|symmetry; apply (Z.mod_unique _ _ (offset `div` 4096)); lia].
Qed.

(** What is left after one round fits the remaining rounds. *)
Lemma round_fuel offset n size fuel :
  0 <= offset -> size = Z.min (4096 - offset `mod` 4096) n -> offset `mod` 4096 + n <= 4096 * Z.of_nat (S fuel) ->
  n - size = 0 ∨ (offset + size) `mod` 4096 + (n - size) <= 4096 * Z.of_nat fuel.
Proof.
  intros Ho Hs Hf. destruct (decide (n <= 4096 - offset `mod` 4096)) as [Hle|Hgt]; [left; lia|right].
  assert ((offset + size) `mod` 4096 = 0) as ->; [|lia].
  pose proof (Z.div_mod offset 4096 ltac:(lia)). symmetry. apply (Z.mod_unique _ _ (offset `div` 4096 + 1)); lia.
Qed.

Lemma wp_read_loop s c fuel : ∀ h t offset sz total acc (Q : Z * list Z -> ST -> Prop),
  cache_at h c ip false t -> inode_at s ip ops -> 0 <= offset -> 0 <= sz -> offset + sz < 9223372036854775808 ->
  (sz = 0 ∨ offset `mod` 4096 + sz <= 4096 * Z.of_nat fuel) ->
  (∀ err h' t', err < 0 -> may_fail t offset sz ->
     cache_at h' c ip false t' -> (∀ k, page_of (contents h' t') k = page_of (contents h t) k) -> Q (err, []) (ic_ s h')) ->
  (∀ bs h' t', cache_at h' c ip false t' -> (∀ k, page_of (contents h' t') k = page_of (contents h t) k) ->
     Z.of_nat (length bs) = sz -> (∀ i, 0 <= i < sz -> byte (contents h t) (offset + i) = bs !! Z.to_nat i) -> Q (total + sz, acc ++ bs) (ic_ s h')) ->
  wp (read_loop fuel c offset sz total acc) (ic_ s h) Q.
Proof.
  induction fuel as [|fuel IH]; intros h t offset sz total acc Q Hc Hi Ho Hsz Hmax Hf HQ1 HQ2; simpl.
  { pose proof (Z.mod_pos_bound offset 4096 ltac:(lia)). assert (sz = 0) as -> by lia. rewrite decide_True by done. wp_step.
    rewrite <- (app_nil_r acc), <- (Z.add_0_r total). apply (HQ2 [] h t); [done|done|done|lia]. }
  case_decide as Hz. { wp_step. subst sz. rewrite <- (app_nil_r acc), <- (Z.add_0_r total). apply (HQ2 [] h t); [done|done|done|lia]. }
  assert (0 <= offset `div` PGSZ < 4503599627370496) as Hk. { unfold PGSZ. split; [apply Z.div_pos; lia|apply Z.div_lt_upper_bound; lia]. }
  wp_step. eapply wp_getpage; [exact Hc|exact Hi|exact Hk|..].
  - intros err h' Herr _ Ek Hc' Ep. rewrite decide_True by lia. wp_step. apply (HQ1 _ _ t); [done| |done|intros k; by rewrite (contents_same h h')].
    right. exists 0. split; [lia|]. rewrite Z.add_0_r. unfold cached, PGSZ in *. rewrite Ek. by intros [? ?].
  - intros p g h' t' Hc' Ek Hkeep Hg Hview. rewrite decide_False by tauto.
    destruct (contents_some _ _ _ _ _ _ _ Hc' Ek) as (Hp & g' & Hg' & _ & Hl & Hcont). assert (g' = g) as -> by congruence.
    set (size := Z.min _ _). pose proof (Z.mod_pos_bound offset 4096 ltac:(lia)) as Hm.
    assert (0 < size <= 4096 - offset `mod` 4096 ∧ size <= sz) as [Hs1 Hs2] by (unfold size, PAGESZ, PGSZ; lia).
    wp_step. apply wp_on_ich. eapply wp_memcpypv; [done|exact Hg|..].
    { intros err n Herr Htr. rewrite decide_True by lia. wp_step. eapply (HQ1 _ _ t'); [lia|by left| |done].
      eapply cache_at_pages; [exact Hc'|done|done|eauto]. }
    intros n. rewrite decide_False by tauto. set (h2 := Ich _ _ _ _). unfold PGSZ in *.
    assert (cache_at h2 c ip false t') as Hc2 by (eapply cache_at_pages; [exact Hc'|done|done|eauto]).
    assert (∀ k, page_of (contents h2 t') k = page_of (contents h t) k) as Hview2 by (intros k; by rewrite (contents_same h' h2)).
    rewrite u64_small by (unfold in_u64, two64; lia).
    set (b1 := take _ _). assert (length b1 = Z.to_nat size) as Hb1. { unfold b1. rewrite length_take, length_drop. lia. }
    assert (∀ i, 0 <= i < size -> byte (contents h t) (offset + i) = b1 !! Z.to_nat i) as Hbytes.
    { intros i Hi'. unfold byte. destruct (page_arith offset size i Ho ltac:(lia) Hi') as [-> ->]. rewrite <- Hview. unfold page_of. rewrite Hcont. simpl.
      unfold b1. rewrite lookup_take_lt by lia. rewrite lookup_drop. f_equal. lia. }
    apply (IH h2 t'); [done|done|lia|lia|lia| | |].
    + apply round_fuel; [done|done|]. destruct Hf; [done|lia].
    + intros err h3 t3 Herr Hwhy Hc3 Hv3. apply (HQ1 err h3 t3); [done| |done|intros k; by rewrite Hv3, Hview2].
      destruct Hwhy as [|(i & Hi' & Hb)]; [by left|right]. exists (size + i). split; [lia|]. rewrite Z.add_assoc. intros Hca. by apply Hb, Hkeep.
    + intros bs h3 t3 Hc3 Hv3 Hl3 Hb3. rewrite <- app_assoc. replace (total + size + (sz - size)) with (total + sz) by lia.
      apply (HQ2 (b1 ++ bs) h3 t3); [done|intros k; by rewrite Hv3, Hview2|rewrite length_app; lia|].
      intros i Hi'. destruct (decide (i < size)) as [Hlt|Hge].
      * rewrite lookup_app_l by lia. apply Hbytes; lia.
      * rewrite lookup_app_r by lia. rewrite Hb1. specialize (Hb3 (i - size) ltac:(lia)).
        replace (Z.to_nat i - Z.to_nat size)%nat with (Z.to_nat (i - size)) by lia. rewrite <- Hb3.
        unfold byte. replace (offset + size + (i - size)) with (offset + i) by lia. by rewrite Hview2.
Qed.
End view.

(** ** Writing *)

(** Total correctness up to loops that wait for memory: the computation
    returns with [Q], or it was still waiting after the given number of tries
    and [X] holds. *)
Definition wpo {S A} (X : Prop) (c : M S A) (s : S) (Q : A -> S -> Prop) : Prop :=
  match c s with Ok a s' => Q a s' | Stop e => e = OutOfFuel ∧ X end.
Lemma wpo_wp {S A} X (c : M S A) s Q : wp c s Q -> wpo X c s Q.
Proof. unfold wp, wpo. by destruct (c s). Qed.
Lemma wpo_bind {S A B} X (c : M S A) (k : A -> M S B) s Q : wpo X c s (λ a s', wpo X (k a) s' Q) -> wpo X (c ≫= k) s Q.
Proof. unfold wpo, mbind, M_bind. by destruct (c s). Qed.
Lemma wpo_bind_wp {S A B} X (c : M S A) (k : A -> M S B) s Q : wp c s (λ a s', wpo X (k a) s' Q) -> wpo X (c ≫= k) s Q.
Proof. intros H. by apply wpo_bind, wpo_wp. Qed.
Lemma wpo_impl {S A} (X Y : Prop) (c : M S A) s Q : (X -> Y) -> wpo X c s Q -> wpo Y c s Q.
Proof. unfold wpo. destruct (c s); naive_solver. Qed.
Lemma wpo_ret {S A} X (a : A) (s : S) Q : Q a s -> wpo X (mret a) s Q.
Proof. done. Qed.

Section write.
Context {E : Type} {KM : Kmalloc} {FCP : FrameCopy} {DR : Drivers (ich * E)}.
Context {ip ops : ptr} {src : Z -> Z * list Z} (Hsrc : source ip ops src).
Abbreviation ST := (vfs (ich * E)).
Abbreviation pgof := (page_of (src := src)).
Abbreviation byteof := (byte (src := src)).
Implicit Types (s : ST) (h : ich) (t : tree) (C : Z -> option (list Z)).

Lemma wpo_write_page s c tries : ∀ h t k (Q : Z * (ptr * bool) -> ST -> Prop),
  cache_at h c ip false t -> inode_at s ip ops -> 0 <= k < 4503599627370496 ->
  (∀ err h', err < 0 -> tmap t !! k = None -> cache_at h' c ip false t -> ih_pages h' = ih_pages h -> Q (err, (NULL, false)) (ic_ s h')) ->
  (∀ p g h' t', cache_at h' c ip false t' -> tmap t' !! k = Some p -> keeps_pages t t' -> ih_pages h' !! p = Some g ->
     (∀ k', pgof (contents h' t') k' = pgof (contents h t) k') -> Q (0, (p, false)) (ic_ s h')) ->
  (∀ p h', (src k).1 = - 1 -> cache_at h' c ip false t -> tmap t !! k = None -> p ≠ NULL -> ih_pages h !! p = None ->
     ih_pages h' = <[p := CPage zero_page 0 1]> (ih_pages h) -> Q (0, (p, true)) (ic_ s h')) ->
  wpo (tries = O ∨ tmap t !! k = None ∧ (src k).1 = - 1) (write_page tries c k) (ic_ s h) Q.
Proof.
  induction tries as [|tries IH]; intros h t k Q Hc Hi Hk HQ1 HQ2 HQ3; simpl. { split; [done|by left]. }
  apply wpo_bind_wp. eapply (wp_getpage Hsrc); [exact Hc|exact Hi|exact Hk|..].
  - intros err h1 Herr E1 Ek Hc1 Ep. case_decide as Hm.
    + apply wpo_bind_wp, wp_on_ich. unfold alloc_page, wp, kmalloc. simpl. destruct (km_choose _ _) as [p|] eqn:Ech.
      * destruct (km_fresh _ _ _ Ech) as [Hp Hlive]. rewrite decide_False by (by apply valid_ptr_nonnull). apply wpo_ret.
        assert (ih_pages h1 !! p = None) as Hpn. { apply not_elem_of_dom. intros Hin. apply Hlive. simpl. set_solver. }
        apply HQ3; [auto| |done|by apply valid_ptr_nonnull|congruence|by simpl; rewrite Ep].
        eapply cache_at_pages; [exact Hc1|done|done|]. intros k' p' g' F1 F2 F3 F4. exists g'. simpl. rewrite lookup_insert_ne by congruence. done.
      * rewrite decide_True by done. eapply wpo_impl; [intros _; by right; auto|]. eapply (IH (ih_tick h1) t); [|done|done|..].
        -- eapply cache_at_pages; [exact Hc1|done|done|eauto].
        -- intros. apply HQ1; [done|done|done|simpl in *; congruence].
        -- intros p g h' t' A1 A2 A2' A3 A4. eapply HQ2; [done|done|done|done|]. intros k'. rewrite A4. by rewrite (contents_same h (ih_tick h1)) by done.
        -- intros p h' A1 A2 A3 A4 A5 A6. apply (HQ3 p h'); [done|done|done|done|simpl in *; congruence|simpl in *; congruence].
    + apply wpo_ret. by apply HQ1.
  - intros p g h' t' Hc' Ek Hkeep Hg Hv. rewrite decide_False by done. apply wpo_ret. by eapply HQ2.
Qed.

(** The bytes after [bs] was written from [off] on: there the new ones, and
    elsewhere every byte that could be read is what it was. *)
Definition wrote C C' (off : Z) (bs : list Z) : Prop :=
  (∀ i, 0 <= i < Z.of_nat (length bs) -> byteof C' (off + i) = bs !! Z.to_nat i) ∧
  (∀ o b, ¬ (off <= o < off + Z.of_nat (length bs)) -> 0 <= o -> byteof C o = Some b -> byteof C' o = Some b).

Lemma wrote_nil C C' off : (∀ k, pgof C' k = pgof C k) -> wrote C C' off [].
Proof. intros H. split; [simpl; lia|]. intros o b _ _. unfold byte. by rewrite H. Qed.

Lemma wrote_app C C1 C2 off b1 b2 :
  0 <= off -> wrote C C1 off b1 -> wrote C1 C2 (off + Z.of_nat (length b1)) b2 -> (∀ i, (i < length b1)%nat -> is_Some (b1 !! i)) ->
  wrote C C2 off (b1 ++ b2).
Proof.
  intros Ho [W1 K1] [W2 K2] Hs. split.
  - intros i Hi. rewrite length_app in Hi. destruct (decide (i < Z.of_nat (length b1))) as [Hlt|Hge].
    + rewrite lookup_app_l by lia. destruct (Hs (Z.to_nat i)) as [x Hx]; [lia|]. rewrite Hx. apply K2; [lia|lia|]. rewrite <- Hx. apply W1. lia.
    + rewrite lookup_app_r by lia. specialize (W2 (i - Z.of_nat (length b1)) ltac:(lia)).
      replace (off + Z.of_nat (length b1) + (i - Z.of_nat (length b1))) with (off + i) in W2 by lia.
      rewrite W2. f_equal. lia.
  - intros o b Ho' Ho0 Hb. rewrite length_app in Ho'. apply K2; [lia|done|]. apply K1; [lia|done|done].
Qed.

(** A page that got the bytes [bs] at the offset. *)
Lemma wrote_page C C' offset bs d :
  0 <= offset -> Z.of_nat (length bs) <= 4096 - offset `mod` 4096 -> length d = 4096%nat ->
  (∀ k, k ≠ offset `div` 4096 -> pgof C' k = pgof C k) ->
  (∀ d', pgof C (offset `div` 4096) = Some d' -> d' = d) ->
  pgof C' (offset `div` 4096) = Some (overwrite (Z.to_nat (offset `mod` 4096)) bs d) ->
  wrote C C' offset bs.
Proof.
  intros Ho Hl Hd Hother Hpage Hp. pose proof (Z.mod_pos_bound offset 4096 ltac:(lia)) as Hm. split.
  - intros i Hi. unfold byte. destruct (page_arith offset (Z.of_nat (length bs)) i Ho Hl Hi) as [-> ->]. rewrite Hp. simpl.
    rewrite overwrite_lookup by lia. rewrite decide_True by lia. f_equal. lia.
  - intros o b Hout Ho0. unfold byte. destruct (decide (o `div` 4096 = offset `div` 4096)) as [E1|E1]; [|by rewrite Hother].
    rewrite E1, Hp. destruct (pgof C (offset `div` 4096)) as [d'|] eqn:Ed; [|done]. rewrite (Hpage d' eq_refl). simpl.
    rewrite overwrite_lookup by lia. pose proof (Z.div_mod offset 4096 ltac:(lia)). pose proof (Z.div_mod o 4096 ltac:(lia)).
    pose proof (Z.mod_pos_bound o 4096 ltac:(lia)). rewrite decide_False; [done|]. rewrite E1 in *. lia.
Qed.
End write.

Section write_loop.
Context {E : Type} {KM : Kmalloc} {FCP : FrameCopy} {DR : Drivers (ich * E)}.
Context {ip ops : ptr} {src : Z -> Z * list Z} (Hsrc : source ip ops src).
Abbreviation ST := (vfs (ich * E)).
Abbreviation pgof := (page_of (src := src)).
Abbreviation wrote := (wrote (src := src)).
Implicit Types (s : ST) (h : ich) (t : tree) (C : Z -> option (list Z)).

(** The inode may have got another size. *)
Definition resized s s' : Prop := s' = s ∨ ∃ z, s' = set_inodes (alter (i_set_size z) ip (v_inodes s)) s.

Lemma resized_inode s s' : resized s s' -> inode_at s ip ops -> inode_at s' ip ops.
Proof.
  intros [->|[z ->]] (i & Hi & H); [by exists i|]. exists (i_set_size z i). simpl. by rewrite lookup_alter_eq, Hi.
Qed.
Lemma resized_trans s1 s2 s3 : resized s1 s2 -> resized s2 s3 -> resized s1 s3.
Proof.
  intros [->|[z ->]] [->|[z' ->]]; [by left|by right; exists z'|by right; exists z|].
  right. exists z'. unfold set_inodes. simpl. f_equal. apply map_eq. intros q. destruct (decide (ip = q)) as [<-|Hne]; [|by rewrite !lookup_alter_ne].
  rewrite !lookup_alter_eq. by destruct (v_inodes s1 !! ip).
Qed.

Lemma contents_alter h c t k p g :
  cache_at h c ip false t -> tmap t !! k = Some p ->
  (∀ k', k' ≠ k -> contents (ih_set_pages (<[p := g]> (ih_pages h)) h) t k' = contents h t k') ∧
  contents (ih_set_pages (<[p := g]> (ih_pages h)) h) t k = Some (pg_data g).
Proof.
  intros [_ Hp] Hk. unfold contents. split.
  - intros k' Hne. destruct (tmap t !! k') as [p'|] eqn:E'; [|done]. simpl. rewrite lookup_insert_ne; [done|].
    intros <-. apply Hne. by eapply (pa_inj _ _ Hp).
  - rewrite Hk. simpl. by rewrite lookup_insert_eq.
Qed.

(** The end of a round of the loop for a page that is in the cache. *)
Lemma has_lor_keep m b b' : has m b = true -> has (Z.lor m b') b = true.
Proof.
  unfold has. intros H%bool_decide_eq_true. apply bool_decide_eq_true_2. intros E0. apply H. apply Z.bits_inj'. intros n Hn.
  apply (f_equal (λ x, Z.testbit x n)) in E0. rewrite Z.land_spec, Z.lor_spec, Z.bits_0 in E0. rewrite Z.land_spec, Z.bits_0.
  by destruct (Z.testbit b n), (Z.testbit m n).
Qed.

Lemma wp_write_new s h c t offset size p g (Q : Z -> ST -> Prop) :
  linked h c ip false t -> inode_at s ip ops -> tmap t !! (offset `div` 4096) = None -> p ≠ NULL -> ih_pages h !! p = Some g ->
  (∀ h', linked h' c ip false t -> ih_pages h' = ih_pages h -> Q (- ENOMEM) (ic_ s h')) ->
  (∀ s' h' t', resized s s' -> linked h' c ip false t' -> tmap t' = <[offset `div` 4096 := p]> (tmap t) ->
     ih_pages h' = <[p := pg_set_flags (Z.lor (pg_flags g) PG_VALID) g]> (ih_pages h) -> Q 0 (ic_ s' h')) ->
  wp (write_new c offset size p) (ic_ s h) Q.
Proof.
  intros Hl2 Hi Ek Hp Hg HQ1 HQ2. unfold write_new. wp_step. apply wp_on_ich. eapply wp_ic_lock; [exact Hl2|]. intros h3 Hl3 E3.
  wp_step. apply wp_on_ich. eapply wp_ic_insert; [exact Hl3|done|..].
  - intros h4 Hl4 E4. wp_step. apply wp_on_ich. eapply wp_ic_unlock; [exact Hl4|]. intros h5 Hl5 E5. rewrite decide_True by done. wp_step.
    apply HQ1; [done|congruence].
  - intros h4 t' Hl4 E4 Et. wp_step. apply wp_on_ich. eapply wp_ic_unlock; [exact Hl4|]. intros h5 Hl5 E5. rewrite decide_False by tauto.
    assert (ih_pages h5 = ih_pages h) as Ep5 by congruence.
    wp_step. apply wp_on_ich. eapply wp_page_flags; [done|by rewrite Ep5|]. rewrite Ep5.
    wp_step. apply wp_on_ich. pose proof (li_null _ _ _ _ _ Hl5) as Hcn. destruct (li_at _ _ _ _ _ Hl5) as (v & Hv & Hl & Hip).
    eapply wp_load; [done|exact Hv|]. rewrite Hip. destruct (Hi) as (i & Hii & Hil & _). pose proof (so_null _ _ _ Hsrc) as Hipn.
    wp_step. apply (wp_obj_assert_locked _ _ i); [done..|]. wp_step. eapply wp_update; [done|exact Hii|]. wp_step.
    set (s1 := set_inodes (alter (i_set_size (u64 (offset + size))) ip (v_inodes s)) s).
    match goal with |- Q _ ?S' => replace S' with (ic_ s1 (ih_set_pages (<[p := pg_set_flags (Z.lor (pg_flags g) PG_VALID) g]> (ih_pages h)) h5)) by
      (unfold s1, ic_, set_inodes, set_drv; simpl; f_equal; by rewrite <- (alter_insert_Some _ _ _ _ Hii)) end.
    apply (HQ2 s1 _ t'); [right; by eexists|eapply linked_same; [exact Hl5|done|done]|done|done].
Qed.

(** The contents after a round on a page of the cache, and on a new page. *)
Lemma cached_round h t h2 c t1 offset p g b1 g2 :
  cache_at h2 c ip false t1 -> tmap t1 !! (offset `div` 4096) = Some p -> ih_pages h2 !! p = Some g ->
  (∀ k, pgof (contents h2 t1) k = pgof (contents h t) k) -> 0 <= offset -> Z.of_nat (length b1) <= 4096 - offset `mod` 4096 ->
  pg_data g2 = overwrite (Z.to_nat (offset `mod` 4096)) b1 (pg_data g) -> has (pg_flags g2) PG_VALID = true ->
  let h3 := ih_set_pages (<[p := g2]> (ih_pages h2)) h2 in
  cache_at h3 c ip false t1 ∧ wrote (contents h t) (contents h3 t1) offset b1.
Proof.
  intros Hc2 Ek Hg Hv Ho Hb Hd2 Hf2 h3. pose proof (Z.mod_pos_bound offset 4096 ltac:(lia)) as Hm.
  destruct (contents_some _ _ _ _ _ _ _ Hc2 Ek) as (Hp & g' & Hg' & Hval & Hlen & Hcont). assert (g' = g) as -> by congruence.
  destruct (contents_alter h2 c t1 (offset `div` 4096) p g2 Hc2 Ek) as [Hoth Hthis]. split.
  - eapply cache_at_pages; [exact Hc2|done|done|]. intros k' p' g' F1 F2 F3 F4. simpl. destruct (decide (p = p')) as [<-|Hne].
    + exists g2. rewrite lookup_insert_eq. split; [done|]. split; [done|]. rewrite Hd2, overwrite_length by lia. done.
    + exists g'. by rewrite lookup_insert_ne.
  - eapply (wrote_page _ _ _ _ (pg_data g)); [done|lia|done|..].
    + intros k' Hne. rewrite <- Hv. unfold page_of, h3. rewrite Hoth by done. done.
    + intros d'. rewrite <- Hv. unfold page_of. rewrite Hcont. by intros [= <-].
    + unfold page_of, h3. by rewrite Hthis, Hd2.
Qed.

Lemma new_round h c t h7 t' offset p g3 b1 :
  cache_at h c ip false t -> tmap t !! (offset `div` 4096) = None -> (src (offset `div` 4096)).1 = - 1 -> p ≠ NULL -> ih_pages h !! p = None ->
  linked h7 c ip false t' -> tmap t' = <[offset `div` 4096 := p]> (tmap t) -> ih_pages h7 = <[p := g3]> (ih_pages h) ->
  0 <= offset -> Z.of_nat (length b1) <= 4096 - offset `mod` 4096 ->
  pg_data g3 = overwrite (Z.to_nat (offset `mod` 4096)) b1 zero_page -> has (pg_flags g3) PG_VALID = true ->
  cache_at h7 c ip false t' ∧ wrote (contents h t) (contents h7 t') offset b1.
Proof.
  intros Hc Ek Es Hp Hpn Hl7 Et Ep7 Ho Hb Hd3 Hv3. pose proof (Z.mod_pos_bound offset 4096 ltac:(lia)) as Hm.
  assert (∀ k' p', tmap t !! k' = Some p' -> p' ≠ p) as Hfr.
  { intros k' p' Ek'. destruct (pa_page _ _ (proj2 Hc) _ _ Ek') as (_ & g & Hg & _). congruence. }
  assert (length (pg_data g3) = 4096%nat) as Hl3' by (rewrite Hd3, overwrite_length; rewrite zero_page_length; lia). split.
  - split; [done|]. rewrite Ep7. eapply paged_insert; [|done|done|by rewrite lookup_insert_eq|done|done|intros k' F; by apply (Hfr _ _ F)].
    eapply paged_same; [apply Hc|]. intros k' p' g' F1 F2 F3 F4. exists g'. rewrite lookup_insert_ne by (by apply not_eq_sym, (Hfr k')). done.
  - assert (∀ k', k' ≠ offset `div` 4096 -> contents h7 t' k' = contents h t k') as Hoth.
    { intros k' Hne. unfold contents. rewrite Et, lookup_insert_ne by done. destruct (tmap t !! k') as [p'|] eqn:E'; [|done]. simpl.
      by rewrite Ep7, lookup_insert_ne by (by apply not_eq_sym, (Hfr k')). }
    eapply (wrote_page _ _ _ _ zero_page); [done|lia|apply zero_page_length|..].
    + intros k' Hne. unfold page_of. by rewrite Hoth.
    + intros d'. unfold page_of, contents. rewrite Ek. simpl. rewrite Es. by case_decide.
    + unfold page_of. assert (contents h7 t' (offset `div` 4096) = Some (pg_data g3)) as ->; [|by rewrite Hd3].
      unfold contents. rewrite Et, lookup_insert_eq. simpl. by rewrite Ep7, lookup_insert_eq.
Qed.

(** A write of [n] bytes at [off] makes a page behind the end of the file. *)
Definition appends t (off n : Z) : Prop := ∃ i, 0 <= i < n ∧ ¬ cached t (off + i) ∧ (src ((off + i) `div` 4096)).1 = - 1.

Lemma wpo_write_loop c tries fuel : ∀ s h t offset buff total (Q : Z -> ST -> Prop),
  cache_at h c ip false t -> inode_at s ip ops -> 0 <= offset -> offset + Z.of_nat (length buff) < 9223372036854775808 ->
  (buff = [] ∨ offset `mod` 4096 + Z.of_nat (length buff) <= 4096 * Z.of_nat fuel) ->
  (∀ err s' h' t' bs1 bs2, err < 0 -> may_fail t offset (Z.of_nat (length buff)) -> buff = bs1 ++ bs2 -> resized s s' -> cache_at h' c ip false t' ->
     wrote (contents h t) (contents h' t') offset bs1 -> Q err (ic_ s' h')) ->
  (∀ s' h' t', resized s s' -> cache_at h' c ip false t' -> keeps_pages t t' -> (∀ i, 0 <= i < Z.of_nat (length buff) -> cached t' (offset + i)) ->
     wrote (contents h t) (contents h' t') offset buff ->
     Q (total + Z.of_nat (length buff)) (ic_ s' h')) ->
  wpo (tries = O ∨ appends t offset (Z.of_nat (length buff))) (write_loop tries fuel c offset buff total) (ic_ s h) Q.
Proof.
  induction fuel as [|fuel IH]; intros s h t offset buff total Q Hc Hi Ho Hmax Hf HQ1 HQ2; simpl.
  { pose proof (Z.mod_pos_bound offset 4096 ltac:(lia)). assert (buff = []) as -> by (destruct Hf as [|Hf]; [done|destruct buff; [done|simpl in Hf; lia]]).
    apply wpo_ret. simpl in HQ2. rewrite Z.add_0_r in HQ2. apply (HQ2 s h t); [by left|done|by intros ?|lia|by apply wrote_nil]. }
  case_decide as Hz. { subst buff. apply wpo_ret. simpl in HQ2. rewrite Z.add_0_r in HQ2. apply (HQ2 s h t); [by left|done|by intros ?|lia|by apply wrote_nil]. }
  destruct Hf as [|Hf]; [done|].
  assert (0 <= offset `div` PGSZ < 4503599627370496) as Hk.
  { unfold PGSZ. split; [apply Z.div_pos; lia|apply Z.div_lt_upper_bound; lia]. }
  set (size := Z.min (PAGESZ - offset `mod` PGSZ) (Z.of_nat (length buff))). unfold PGSZ in *. pose proof (Z.mod_pos_bound offset 4096 ltac:(lia)) as Hm.
  assert (0 < length buff)%nat as Hl0 by (destruct buff; [done|simpl; lia]).
  assert (0 < size <= 4096 - offset `mod` 4096 ∧ size <= Z.of_nat (length buff)) as [Hs1 Hs2] by (unfold size, PAGESZ, PGSZ; lia).
  set (b1 := take (Z.to_nat size) buff). assert (length b1 = Z.to_nat size) as Hb1 by (unfold b1; rewrite length_take; lia).
  assert (b1 ≠ []) as Hb0 by (intros Eb; rewrite Eb in Hb1; simpl in Hb1; lia).
  assert (∀ s1 h1 t1, resized s s1 -> cache_at h1 c ip false t1 -> keeps_pages t t1 -> is_Some (tmap t1 !! (offset `div` 4096)) ->
    wrote (contents h t) (contents h1 t1) offset b1 ->
    wpo (tries = O ∨ appends t offset (Z.of_nat (length buff))) (write_loop tries fuel c (u64 (offset + size)) (drop (Z.to_nat size) buff) (total + size)) (ic_ s1 h1) Q) as Hnext.
  { intros s1 h1 t1 Hr1 Hc1 Hk1 Hin1 Hw1. rewrite u64_small by (unfold in_u64, two64; lia).
    assert (∀ C2 bs2, wrote (contents h1 t1) C2 (offset + size) bs2 -> wrote (contents h t) C2 offset (b1 ++ bs2)) as Happ.
    { intros C2 bs2 Hw2. eapply wrote_app; [done|exact Hw1|replace (Z.of_nat (length b1)) with size by lia; exact Hw2|]. intros i Hi'. by apply lookup_lt_is_Some. }
    eapply wpo_impl; [|apply (IH s1 h1 t1); [done|by eapply resized_inode|lia|rewrite length_drop; lia| | |]].
    - intros [|(i & Hi' & Hn & Hsr)]; [by left|right]. exists (size + i). rewrite length_drop in Hi'. rewrite Z.add_assoc. split; [lia|]. split; [|done].
      intros Hca. by apply Hn, Hk1.
    - rewrite length_drop. destruct (round_fuel offset (Z.of_nat (length buff)) size fuel Ho eq_refl Hf); [left; apply drop_ge; lia|right; lia].
    - intros err s' h' t' bs1 bs2 Herr Hwhy Heq Hr Hc' Hw. apply (HQ1 err s' h' t' (b1 ++ bs1) bs2); [done| | |by eapply resized_trans|done|by apply Happ].
      { destruct Hwhy as [|(i & Hi' & Hb)]; [by left|right]. exists (size + i). rewrite length_drop in Hi'. split; [lia|]. rewrite Z.add_assoc. intros Hca. by apply Hb, Hk1. }
      rewrite <- app_assoc, <- Heq. unfold b1. by rewrite take_drop.
    - intros s' h' t' Hr Hc' Hk2 Hin2 Hw. rewrite length_drop. replace (total + size + Z.of_nat (length buff - Z.to_nat size)) with (total + Z.of_nat (length buff)) by lia.
      apply (HQ2 s' h' t'); [by eapply resized_trans|done|by eapply keeps_pages_trans| |rewrite <- (take_drop (Z.to_nat size) buff); by apply Happ].
      intros i Hi'. destruct (decide (i < size)) as [Hlt|Hge].
      + unfold cached. destruct (page_arith offset size i Ho ltac:(lia) ltac:(lia)) as [-> _]. by apply Hk2.
      + specialize (Hin2 (i - size)). replace (offset + size + (i - size)) with (offset + i) in Hin2 by lia. apply Hin2. rewrite length_drop. lia. }
  assert (∀ err h1 t1, err < 0 -> (copy_fails ∨ tmap t !! (offset `div` 4096) = None) -> cache_at h1 c ip false t1 -> (∀ k, pgof (contents h1 t1) k = pgof (contents h t) k) -> Q err (ic_ s h1)) as Hfail.
  { intros err h1 t1 Herr Hwhy Hc1 Hv. apply (HQ1 err s h1 t1 [] buff); [done| |done|by left|done|by apply wrote_nil].
    destruct Hwhy as [|Hs]; [by left|right]. exists 0. split; [lia|]. rewrite Z.add_0_r. unfold cached. rewrite Hs. by intros [? ?]. }
  apply wpo_bind. eapply wpo_impl; [|eapply (wpo_write_page Hsrc); [exact Hc|exact Hi|exact Hk|..]].
  { intros [|[Hn Hsr]]; [by left|right]. exists 0. split; [lia|]. rewrite Z.add_0_r. split; [|done]. unfold cached. rewrite Hn. by intros [? ?]. }
  - intros err h1 Herr Hwhy Hc1 Ep. rewrite decide_True by lia. apply wpo_ret. eapply (Hfail err h1 t); [done|by right|done|]. intros k. by rewrite (contents_same h h1).
  - intros p g h1 t1 Hc1 Ek Hkp Hg Hv. rewrite decide_False by tauto. cbn [when].
    destruct (contents_some _ _ _ _ _ _ _ Hc1 Ek) as (Hp & g' & Hg' & Hval & Hlen & Hcont). assert (g' = g) as -> by congruence.
    fold b1. apply wpo_bind_wp, wp_on_ich. eapply wp_memcpyvp; [done|exact Hg|..].
    { intros err n Herr Htr. rewrite decide_True by lia. apply wpo_bind_wp, wp_ret, wpo_ret. eapply (Hfail _ _ t1); [lia|by left| |done].
      eapply cache_at_pages; [exact Hc1|done|done|eauto]. }
    intros n. rewrite decide_False by tauto. set (g1 := pg_set_data _ g). apply wpo_bind_wp, wp_ret. rewrite decide_False by tauto.
    apply wpo_bind_wp, wp_on_ich. eapply wp_page_flags; [done|simpl; by rewrite lookup_insert_eq|]. simpl. rewrite insert_insert_eq. set (g2 := pg_set_flags _ _).
    set (h2 := Ich (ih_ds h1) (ih_caches h1) (ih_pages h1) n).
    change (ih_set_pages _ _) with (ih_set_pages (<[p := g2]> (ih_pages h2)) h2).
    assert (cache_at h2 c ip false t1) as Hc2 by (eapply cache_at_pages; [exact Hc1|done|done|eauto]).
    destruct (cached_round h t h2 c t1 offset p g b1 g2) as [Hc3 Hw3]; [done|done|done|intros k; by rewrite <- Hv|done|lia|done|by apply has_lor_keep|].
    by apply (Hnext s _ t1); [left| | |by eexists|].
  - intros p h1 Es Hc1 Ek Hp Hpn Ep. rewrite decide_False by tauto. cbn [when].
    assert (∀ k' p', tmap t !! k' = Some p' -> p' ≠ p) as Hfr.
    { intros k' p' Ek'. destruct (pa_page _ _ (proj2 Hc) _ _ Ek') as (_ & g & Hg & _). congruence. }
    assert (∀ h2 g err, err < 0 -> linked h2 c ip false t -> ih_pages h2 = <[p := g]> (ih_pages h) -> pg_refcnt g = 1 ->
      wpo (tries = O ∨ appends t offset (Z.of_nat (length buff))) (on_ich (page_put p);; mret err) (ic_ s h2) Q) as Herr.
    { intros h2 g err Hneg Hl2 E2 Hr. apply wpo_bind_wp, wp_on_ich. eapply wp_page_put_new; [done|by rewrite E2, lookup_insert_eq|done|]. apply wpo_ret.
      assert (delete p (ih_pages h2) = ih_pages h) as Ed by (rewrite E2; by apply delete_insert_id).
      eapply (Hfail _ _ t); [done|by right| |intros k; by rewrite (contents_same h)].
      split; [by eapply linked_same|]. simpl. rewrite Ed. apply Hc. }
    fold b1. apply wpo_bind_wp, wp_on_ich. eapply wp_memcpyvp; [done|by rewrite Ep, lookup_insert_eq|..].
    { intros err n Hneg _. rewrite decide_True by lia. eapply (Herr _ (CPage zero_page 0 1)); [lia| |done|done]. eapply linked_same; [apply Hc1|done|done]. }
    intros n. rewrite decide_False by tauto. set (g1 := pg_set_data _ _). rewrite Ep, insert_insert_eq.
    set (h2 := Ich _ _ _ n). assert (linked h2 c ip false t) as Hl2 by (eapply linked_same; [apply Hc1|done|done]).
    apply wpo_bind_wp. eapply (wp_write_new s h2 c t _ _ p g1); [done|done|done|done|by simpl; rewrite lookup_insert_eq|..].
    + intros h3 Hl3 E3. rewrite decide_True by done. by eapply (Herr h3 g1).
    + intros s1 h5 t' Hr1 Hl5 Et Ep5. rewrite decide_False by tauto. simpl in Ep5. rewrite insert_insert_eq in Ep5. set (g2 := pg_set_flags _ _) in Ep5.
      apply wpo_bind_wp, wp_on_ich. eapply wp_page_flags; [done|by rewrite Ep5, lookup_insert_eq|]. rewrite Ep5, insert_insert_eq. set (g3 := pg_set_flags _ _).
      destruct (new_round h c t (ih_set_pages (<[p := g3]> (ih_pages h)) h5) t' offset p g3 b1) as [Hc3 Hw3]; try done; [by eapply linked_same|lia|].
      apply (Hnext s1 _ t'); [done|done|intros k Hk'; rewrite Et; by apply lookup_insert_is_Some'; right|by rewrite Et, lookup_insert_eq|done].
Qed.
End write_loop.
