(* ===== verification/PageProps.v ===== *)
(** * Reading and writing through the page cache: the theorems

    An inode whose data go through the cache of PageCache.v is a file of bytes:
    reads return them, writes change exactly those written.  The driver behind
    is any that answers reads of whole pages. *)

From S2P Require Import Prelude Dll Heap Queue Btree Cond Lock Vfs Cred Inode PageCache PageSpec.

Section props.
Context {E : Type} {KM : Kmalloc} {FCP : FrameCopy} {DR : Drivers (ich * E)}.
Context {ip ops : ptr} {src : Z -> Z * list Z} (Hsrc : source ip ops src).
Abbreviation ST := (vfs (ich * E)).
Implicit Types (s : ST) (h : ich) (t : tree).

(** The cache [c] of the inode, unlocked. *)
Record cache_free h (c : ptr) t : Prop := {
  cf_at : ∃ v, ih_caches h !! c = Some v ∧ pc_lock v = false ∧ pc_inode v = ip;
  cf_tree : btree_rep (ih_ds h) c false t;
  cf_pages : paged (ih_pages h) t;
}.

Lemma wp_cache_lock h c t (Q : unit -> ich -> Prop) :
  cache_free h c t -> (∀ h', cache_at h' c ip false t -> ih_pages h' = ih_pages h -> Q tt h') -> wp (icache_lock c) h Q.
Proof.
  intros [(v & Hv & Hl & Hi) Ht Hp] HQ. apply (wp_obj_lock _ _ v); [apply valid_ptr_nonnull, (br_ptr _ _ _ _ Ht)|done|done|].
  apply HQ; [|done]. split; [|done]. split; [|done]. exists (pc_set_lock true v). simpl. by rewrite lookup_insert_eq.
Qed.
Lemma wp_cache_unlock h c t (Q : unit -> ich -> Prop) :
  cache_at h c ip false t -> (∀ h', cache_free h' c t -> ih_pages h' = ih_pages h -> Q tt h') -> wp (icache_unlock c) h Q.
Proof.
  intros [[(v & Hv & Hl & Hi) Ht] Hp] HQ. apply (wp_obj_unlock _ _ v); [apply valid_ptr_nonnull, (br_ptr _ _ _ _ Ht)|done|done|].
  apply HQ; [|done]. split; [|done|done]. exists (pc_set_lock false v). simpl. by rewrite lookup_insert_eq.
Qed.

(** A locked inode, not a directory, with the driver [ops] and the cache [c]. *)
Record file_at s (c : ptr) t : Prop := {
  fa_inode : ∃ i, v_inodes s !! ip = Some i ∧ i_lock i = true ∧ i_type i ≠ FS_DIR ∧ i_ops i = ops ∧ i_cache i = c;
  fa_cache : cache_free (v_drv s).1 c t;
}.
(** The byte at an offset: of a cached page, or of the driver. *)
Definition file_byte s t (o : Z) : option Z := byte (src := src) (contents (v_drv s).1 t) o.

Lemma file_at_null s c t : file_at s c t -> c ≠ NULL.
Proof. intros [_ [_ Ht _]]. apply valid_ptr_nonnull, (br_ptr _ _ _ _ Ht). Qed.

Lemma file_at_ic s s' h c t i :
  resized (ip := ip) s s' -> v_inodes s !! ip = Some i -> i_lock i = true -> i_type i ≠ FS_DIR -> i_ops i = ops -> i_cache i = c ->
  cache_free h c t -> file_at (ic_ s' h) c t.
Proof.
  intros Hr Hi H1 H2 H3 H4 Hc. split; [|done]. destruct Hr as [->|[z ->]]; [by exists i|].
  exists (i_set_size z i). simpl. by rewrite lookup_alter_eq, Hi.
Qed.

Lemma wp_file_read tries s c t off sz (Q : Z * list Z -> ST -> Prop) :
  file_at s c t -> 0 <= off -> 0 <= sz -> off + sz < 9223372036854775808 ->
  (∀ err s' t', err < 0 -> may_fail t off sz -> file_at s' c t' -> (∀ o, file_byte s' t' o = file_byte s t o) -> Q (err, []) s') ->
  (∀ bs s' t', file_at s' c t' -> (∀ o, file_byte s' t' o = file_byte s t o) -> Z.of_nat (length bs) = sz ->
     (∀ i, 0 <= i < sz -> file_byte s t (off + i) = bs !! Z.to_nat i) -> Q (sz, bs) s') ->
  wp (iread (IC := page_cache tries) ip off sz) s Q.
Proof.
  intros Hf Ho Hs Hm HQ1 HQ2. pose proof (file_at_null _ _ _ Hf) as Hcn. destruct Hf as [(i & Hi & Hl & Hty & Hop & Hic) Hc]. pose proof (so_null _ _ _ Hsrc) as Hn.
  unfold iread. wp_step. apply (wp_obj_assert_locked _ _ i); [done..|]. wp_step. eapply wp_load; [done|exact Hi|]. rewrite Hic, decide_False by done.
  assert (∀ h t', ic_ s h = ic_ s h -> cache_free h c t' -> file_at (ic_ s h) c t') as Hfa by (intros; eapply file_at_ic; [by left|done..]).
  rewrite <- (ic_id s). wp_step. apply wp_on_ich. eapply wp_cache_lock; [exact Hc|]. intros h1 Hc1 E1. simpl.
  wp_step. unfold icache_read. wp_step. apply wp_on_ich. eapply wp_ic_assert; [apply Hc1|].
  assert (∀ h' t', (∀ k, page_of (src := src) (contents h' t') k = page_of (src := src) (contents h1 t) k) ->
    ∀ h'', ih_pages h'' = ih_pages h' -> ∀ o, file_byte (ic_ s h'') t' o = file_byte s t o) as Hbyte.
  { intros h' t' Hv h'' E2 o. unfold file_byte, byte. change (v_drv (ic_ s h'')).1 with h''. rewrite (contents_same h' h'') by done. rewrite Hv.
    by rewrite (contents_same (v_drv s).1 h1). }
  eapply (wp_read_loop Hsrc); [exact Hc1|by exists i|done|done|lia| | |].
  - right. rewrite Nat2Z.inj_add, Z2Nat.id by (apply Z.div_pos; unfold PGSZ; lia). unfold PGSZ.
    pose proof (Z.mod_pos_bound off 4096 ltac:(lia)). pose proof (Z.div_mod sz 4096 ltac:(lia)). pose proof (Z.mod_pos_bound sz 4096 ltac:(lia)). lia.
  - intros err h' t' Herr Hwhy Hc' Hv. wp_step. apply wp_on_ich. eapply wp_cache_unlock; [exact Hc'|]. intros h2 Hc2 E2. wp_step.
    apply (HQ1 _ _ t'); [done|done|by apply Hfa|by eapply Hbyte].
  - intros bs h' t' Hc' Hv Hlen Hb. wp_step. apply wp_on_ich. eapply wp_cache_unlock; [exact Hc'|]. intros h2 Hc2 E2. wp_step.
    apply (HQ2 _ _ t'); [by apply Hfa|by eapply Hbyte|done|]. intros j Hj. rewrite <- Hb by done. unfold file_byte, byte.
    by rewrite (contents_same (v_drv s).1 h1).
Qed.

(** After writing [bs] at [off]: those bytes are read there, and every byte
    that could be read elsewhere is what it was. *)
Definition file_wrote s t s' t' (off : Z) (bs : list Z) : Prop :=
  (∀ i, 0 <= i < Z.of_nat (length bs) -> file_byte s' t' (off + i) = bs !! Z.to_nat i) ∧
  (∀ o b, ¬ (off <= o < off + Z.of_nat (length bs)) -> 0 <= o -> file_byte s t o = Some b -> file_byte s' t' o = Some b).

Lemma wpo_file_write tries s c t off buf (Q : Z -> ST -> Prop) :
  file_at s c t -> 0 <= off -> off + Z.of_nat (length buf) < 9223372036854775808 ->
  (∀ err s' t' b1 b2, err < 0 -> may_fail t off (Z.of_nat (length buf)) -> buf = b1 ++ b2 -> file_at s' c t' -> file_wrote s t s' t' off b1 -> Q err s') ->
  (∀ s' t', file_at s' c t' -> (∀ i, 0 <= i < Z.of_nat (length buf) -> cached t' (off + i)) -> file_wrote s t s' t' off buf -> Q (Z.of_nat (length buf)) s') ->
  wpo (tries = O ∨ appends (src := src) t off (Z.of_nat (length buf))) (iwrite (IC := page_cache tries) ip off buf) s Q.
Proof.
  intros Hf Ho Hm HQ1 HQ2. pose proof (file_at_null _ _ _ Hf) as Hcn. destruct Hf as [(i & Hi & Hl & Hty & Hop & Hic) Hc]. pose proof (so_null _ _ _ Hsrc) as Hn.
  unfold iwrite. apply wpo_bind_wp. apply (wp_obj_assert_locked _ _ i); [done..|]. apply wpo_bind_wp. eapply wp_load; [done|exact Hi|]. rewrite Hic, decide_False by done.
  rewrite <- (ic_id s). apply wpo_bind_wp, wp_on_ich. eapply wp_cache_lock; [exact Hc|]. intros h1 Hc1 E1. simpl.
  apply wpo_bind. unfold icache_write. apply wpo_bind_wp, wp_on_ich. eapply wp_ic_assert; [apply Hc1|].
  assert (∀ s' h' t' bs h'', wrote (src := src) (contents h1 t) (contents h' t') off bs -> ih_pages h'' = ih_pages h' ->
     file_wrote s t (ic_ s' h'') t' off bs) as Hw.
  { intros s' h' t' bs h'' [W1 W2] E2. unfold file_wrote, file_byte. change (v_drv (ic_ s' h'')).1 with h''.
    rewrite (contents_same h' h'') by done. by rewrite <- (contents_same (v_drv s).1 h1). }
  eapply (wpo_write_loop Hsrc); [exact Hc1|by exists i|done|done| | |].
  - right. pose proof (Z.mod_pos_bound off 4096 ltac:(lia)). pose proof (Nat.div_mod (length buf) 4096 ltac:(lia)).
    pose proof (Nat.mod_upper_bound (length buf) 4096 ltac:(lia)). lia.
  - intros err s' h' t' b1 b2 Herr Hwhy Heq Hr Hc' Hw'. apply wpo_bind_wp, wp_on_ich. eapply wp_cache_unlock; [exact Hc'|]. intros h2 Hc2 E2. apply wpo_ret.
    eapply (HQ1 _ _ t' b1 b2); [done|done|done|by eapply file_at_ic|by eapply Hw].
  - intros s' h' t' Hr Hc' _ Hin Hw'. apply wpo_bind_wp, wp_on_ich. eapply wp_cache_unlock; [exact Hc'|]. intros h2 Hc2 E2. apply wpo_ret.
    rewrite Z.add_0_l. eapply (HQ2 _ t'); [by eapply file_at_ic|done|by eapply Hw].
Qed.
End props.

(** ** The theorems *)

Section theorems.
Context {E : Type} {KM : Kmalloc} {FCP : FrameCopy} {DR : Drivers (ich * E)}.
Context {ip ops : ptr} {src : Z -> Z * list Z}.
Implicit Types (s : vfs (ich * E)) (t : tree).

(** Reading through the page cache: the call returns, with an error or with
    exactly as many bytes as were asked for, those of the cached pages and of
    the driver behind them, and what the file holds does not change.  It fails
    only when a frame cannot be mapped, or on a page that is not in the cache
    yet (no memory for it, or the driver cannot read it). *)
Theorem cached_read_correct tries s c t off sz :
  source ip ops src -> file_at (ip := ip) (ops := ops) s c t -> 0 <= off -> 0 <= sz -> off + sz < 9223372036854775808 ->
  wp (iread (IC := page_cache tries) ip off sz) s (λ rb s', ∃ t', file_at (ip := ip) (ops := ops) s' c t' ∧
    (∀ o, file_byte (src := src) s' t' o = file_byte (src := src) s t o) ∧
    (rb.1 < 0 ∧ rb.2 = [] ∧ may_fail t off sz ∨
     rb.1 = sz ∧ Z.of_nat (length rb.2) = sz ∧ ∀ i, 0 <= i < sz -> file_byte (src := src) s t (off + i) = rb.2 !! Z.to_nat i)).
Proof.
  intros Hsrc Hf Ho Hs Hm. apply (wp_file_read Hsrc tries s c t); [done..| |].
  - intros err s' t' He Hwhy Hf' Hb. exists t'. split; [done|]. split; [done|]. by left.
  - intros bs s' t' Hf' Hb Hl Hi. exists t'. split; [done|]. split; [done|]. by right.
Qed.

(** C29. Writing through the page cache: the call returns (unless it waits for
    memory that never comes), with the number of bytes given or an error.  The
    bytes written, all of them or before an error a first part, are what is
    read there afterwards, and every byte that could be read elsewhere stays.
    It fails only when a frame cannot be mapped or on a page that is not in the
    cache yet, and waits only for a page behind the end of the file. *)
Theorem cached_write_correct tries s c t off buf :
  source ip ops src -> file_at (ip := ip) (ops := ops) s c t -> 0 <= off -> off + Z.of_nat (length buf) < 9223372036854775808 ->
  wpo (appends (src := src) t off (Z.of_nat (length buf))) (iwrite (IC := page_cache (S tries)) ip off buf) s (λ r s', ∃ t' b1 b2,
    file_at (ip := ip) (ops := ops) s' c t' ∧ buf = b1 ++ b2 ∧ file_wrote (src := src) s t s' t' off b1 ∧
    (r < 0 ∧ may_fail t off (Z.of_nat (length buf)) ∨ r = Z.of_nat (length buf) ∧ b2 = [])).
Proof.
  intros Hsrc Hf Ho Hm. eapply wpo_impl; [|apply (wpo_file_write Hsrc (S tries) s c t)]; [by intros [|]|done..| |].
  - intros err s' t' b1 b2 He Hwhy Hb Hf' Hw. exists t', b1, b2. split; [done|]. split; [done|]. split; [done|]. by left.
  - intros s' t' Hf' _ Hw. exists t', buf, []. rewrite app_nil_r. split; [done|]. split; [done|]. split; [done|]. by right.
Qed.

(** C28. What is written through the page cache is read back.  For a locked inode
    that is not a directory, with a driver that reads its pages and changes
    nothing, and with a page cache whose lock is free, a write followed by a read of
    the same range: the write fails, which takes a frame that cannot be mapped
    or a page of the range that is not cached; or it takes all bytes, and then the
    read returns exactly them or fails, which takes a frame that cannot be
    mapped.  Only a write that makes a page behind the end of the file may wait
    for memory without end. *)
Theorem write_then_read tries s c t off buf :
  source ip ops src -> file_at (ip := ip) (ops := ops) s c t -> 0 <= off -> off + Z.of_nat (length buf) < 9223372036854775808 ->
  wpo (appends (src := src) t off (Z.of_nat (length buf)))
    (r ← iwrite (IC := page_cache (S tries)) ip off buf;
     rb ← iread (IC := page_cache (S tries)) ip off (Z.of_nat (length buf)); mret (r, rb)) s
    (λ x _, x.1 < 0 ∧ may_fail t off (Z.of_nat (length buf)) ∨
            x.1 = Z.of_nat (length buf) ∧ (x.2.1 < 0 ∧ copy_fails ∨ x.2 = (Z.of_nat (length buf), buf))).
Proof.
  intros Hsrc Hf Ho Hm. apply wpo_bind. eapply wpo_impl; [|apply (wpo_file_write Hsrc (S tries) s c t)]; [by intros [|]|done..| |].
  - intros err s' t' b1 b2 He Hwhy Hb Hf' Hw. apply wpo_bind_wp. apply (wp_file_read Hsrc _ s' c t'); [done|done|lia|done|..]; intros; apply wpo_ret; by left.
  - intros s' t' Hf' Hin [Hw _]. apply wpo_bind_wp. apply (wp_file_read Hsrc _ s' c t'); [done|done|lia|done|..].
    + intros err s2 t2 He [Htr|(i & Hi & Hb)] _ _; apply wpo_ret; right; (split; [done|]); [by left|].
      by apply Hin in Hi.
    + intros bs s2 t2 _ _ Hl Hb. apply wpo_ret. right. split; [done|right]. simpl. f_equal. apply (list_eq_same_length _ _ (length buf)); [done|lia|].
      intros i x y Hi Hx Hy. specialize (Hb (Z.of_nat i) ltac:(lia)). specialize (Hw (Z.of_nat i) ltac:(lia)). rewrite Nat2Z.id in *. congruence.
Qed.
End theorems.

(** ** A file of ten bytes *)

Definition ten : list Z := [10; 11; 12; 13; 14; 15; 16; 17; 18; 19].
(** The driver reports the end of the file as -1, as that of the boot archive does. *)
Definition ten_src (k : Z) : Z * list Z := if decide (k = 0) then (10, ten) else (- 1, []).
Definition ten_ops : iops (ich * unit) :=
  IOps _ None None None None None None None None (Some (λ _ off _, mret (ten_src (off `div` 4096))))
    None None None None None None None None None None None.
Definition ten_driver : Drivers (ich * unit) := {| iops_at p := if decide (p = 8) then Some ten_ops else None |}.
Program Definition no_copy_errors : FrameCopy := {| fc_err _ := 0 |}.
Next Obligation. by left. Qed.
#[local] Existing Instances bump_kmalloc ten_driver no_copy_errors.

Definition ten_heap : ich := Ich (set_btrees {[32 := BTREE_INIT]} empty_dsheap) {[32 := Icache_ 1 0 16 0 false]} ∅ 0.
Definition ten_state : vfs (ich * unit) :=
  Vfs ∅ ∅ {[16 := Inode 1 0 0 FS_RGL 0 0 10 0 1 1 NULL 8 NULL NULL 32 NULL NULL true]} ∅ ∅ ∅ ∅ ∅ (Thread NULL NULL false) (ten_heap, tt) 0.

Lemma ten_source : source 16 8 ten_src.
Proof.
  split; [done|intros k; unfold ten_src; case_decide; simpl; lia|intros k; unfold ten_src; case_decide; simpl; lia|].
  split; [done|]. eexists _, _. split; [done|]. split; [done|]. intros s k _. unfold PGSZ. by rewrite Z.div_mul by lia.
Qed.
Lemma ten_file : file_at (ip := 16) (ops := 8) ten_state 32 Leaf.
Proof.
  split; [by eexists|]. split; [by eexists| |split; by intros].
  split; try done; constructor.
Qed.

Lemma cached_read_correct_witness :
  wp (iread (IC := page_cache 1) 16 2 5) ten_state (λ rb s', ∃ t', file_at (ip := 16) (ops := 8) s' 32 t' ∧
    (∀ o, file_byte (src := ten_src) s' t' o = file_byte (src := ten_src) ten_state Leaf o) ∧
    (rb.1 < 0 ∧ rb.2 = [] ∧ may_fail Leaf 2 5 ∨
     rb.1 = 5 ∧ Z.of_nat (length rb.2) = 5 ∧ ∀ i, 0 <= i < 5 -> file_byte (src := ten_src) ten_state Leaf (2 + i) = rb.2 !! Z.to_nat i)).
Proof. apply (cached_read_correct 1 ten_state 32 Leaf 2 5 ten_source ten_file); lia. Defined.

Lemma cached_write_correct_witness :
  wpo (appends (src := ten_src) Leaf 4094 4) (iwrite (IC := page_cache 1) 16 4094 [1; 2; 3; 4]) ten_state (λ r s', ∃ t' b1 b2,
    file_at (ip := 16) (ops := 8) s' 32 t' ∧ [1; 2; 3; 4] = b1 ++ b2 ∧ file_wrote (src := ten_src) ten_state Leaf s' t' 4094 b1 ∧
    (r < 0 ∧ may_fail Leaf 4094 4 ∨ r = 4 ∧ b2 = [])).
Proof. apply (cached_write_correct 0 ten_state 32 Leaf 4094 [1; 2; 3; 4] ten_source ten_file); simpl; lia. Defined.

Lemma write_then_read_witness :
  wpo (appends (src := ten_src) Leaf 4094 4)
    (r ← iwrite (IC := page_cache 1) 16 4094 [1; 2; 3; 4];
     rb ← iread (IC := page_cache 1) 16 4094 4; mret (r, rb)) ten_state
    (λ x _, x.1 < 0 ∧ may_fail Leaf 4094 4 ∨ x.1 = 4 ∧ (x.2.1 < 0 ∧ copy_fails ∨ x.2 = (4, [1; 2; 3; 4]))).
Proof. apply (write_then_read 0 ten_state 32 Leaf 4094 [1; 2; 3; 4] ten_source ten_file); simpl; lia. Defined.

(** The write above succeeds, across a page boundary and beyond the end of the
    file, and is read back. *)
Lemma ten_write_read :
  match (r ← iwrite (IC := page_cache 1) 16 4094 [1; 2; 3; 4]; rb ← iread (IC := page_cache 1) 16 4094 4; mret (r, rb)) ten_state with
  | Ok x _ => x = (4, (4, [1; 2; 3; 4]))
  | Stop _ => False
  end.
Proof. by vm_compute. Qed.

(** A read does not stop at the end of the file: twelve bytes of the ten are
    read, and asking for more than the page is an error, with no byte read. *)
Lemma read_ignores_size :
  match iread (IC := page_cache 1) 16 0 12 ten_state with Ok rb _ => rb = (12, ten ++ [0; 0]) | Stop _ => False end ∧
  match iread (IC := page_cache 1) 16 0 4097 ten_state with Ok rb _ => rb = (- 1, []) | Stop _ => False end.
Proof. split; by vm_compute. Qed.

(** A write behind the end that lands in the last page does not change the size. *)
Lemma append_keeps_size :
  match (r ← iwrite (IC := page_cache 1) 16 10 [1; 2]; i ← load (V := inode_t) 16; mret (r, i_size i)) ten_state with
  | Ok x _ => x = (2, 10)
  | Stop _ => False
  end.
Proof. by vm_compute. Qed.
