(* ===== verification/Sched.v ===== *)
(** * kernel/sys/sched, kernel/sys/threads: threads, their queues and the scheduler

    A thread is on queues (run queues of the processors, sleep queues, the
    queues of embryos and zombies, its group), and its [t_queues] lists them.
    The functions that move threads between queues are modelled on the queues
    of Queue.v.  A context switch ends a function: [sched_sleep] and the loop of
    [schedule] are cut there into the part before and the part after. *)

From S2P Require Import Prelude Dll Heap Queue Lock.

(** ** Objects *)

(** Error numbers (include/bits/errno.h). *)
Definition ESRCH : Z := 3.
Definition EOVERFLOW : Z := 75.
Definition EDEADLK : Z := 35.

Definition has (flags bit : Z) : bool := bool_decide (Z.land flags bit ≠ 0).

Variant tstate_t := T_EMBRYO | T_READY | T_RUNNING | T_ISLEEP | T_STOPPED | T_USLEEP | T_TERMINATED | T_ZOMBIE.
#[export] Instance tstate_eq_dec : EqDecision tstate_t.
Proof. solve_decision. Defined.

Definition THREAD_USER : Z := 1.
Definition THREAD_KILLED : Z := 2.
Definition THREAD_PARK : Z := 4.
Definition THREAD_WAKE : Z := 8.
Definition THREAD_HANDLING_SIG : Z := 16.
Definition THREAD_DETACHED : Z := 32.
Definition THREAD_STOP : Z := 64.
Definition THREAD_ISMAIN : Z := 256.
Definition THREAD_EXITING : Z := 4096.
Definition THREAD_SUSPEND : Z := 8192.

Definition SOFT_AFFINITY : Z := 0.
Definition HARD_AFFINITY : Z := 1.
Definition NLEVELS : Z := 8.
Definition SCHED_HIGHEST_PRIORITY : Z := 0.
Definition SCHED_LOWEST_PRIORITY : Z := 255.
Definition SCHED_LEVEL (p : Z) : Z := p `quot` ((SCHED_LOWEST_PRIORITY + 1) `quot` NLEVELS).

(** struct thread_t: the fields used here; [t_sleep] and [t_sched] are spread out. *)
Record thread_t := TCB {
  t_tid : Z;
  t_refcnt : Z;
  t_exit : Z;
  t_state : tstate_t;
  t_flags : Z;
  t_sigmask : Z;
  t_sleep_node : ptr;
  t_sleep_queue : ptr;
  t_sleep_guard : ptr;
  ts_timeslice : Z;
  ts_processor : ptr;
  ts_affinity_type : Z;
  ts_cpu_set : Z;
  ts_priority : Z;
  t_tgroup : ptr;
  t_tgrp_qn : ptr;
  t_sigdesc : ptr;
  t_cred : ptr;
  t_mmap : ptr;
  t_kstack : ptr;
  t_rsvd : ptr;
  t_lock : bool;
}.
Definition t_set_refcnt v t := TCB (t_tid t) v (t_exit t) (t_state t) (t_flags t) (t_sigmask t) (t_sleep_node t) (t_sleep_queue t) (t_sleep_guard t) (ts_timeslice t) (ts_processor t) (ts_affinity_type t) (ts_cpu_set t) (ts_priority t) (t_tgroup t) (t_tgrp_qn t) (t_sigdesc t) (t_cred t) (t_mmap t) (t_kstack t) (t_rsvd t) (t_lock t).
Definition t_set_exit v t := TCB (t_tid t) (t_refcnt t) v (t_state t) (t_flags t) (t_sigmask t) (t_sleep_node t) (t_sleep_queue t) (t_sleep_guard t) (ts_timeslice t) (ts_processor t) (ts_affinity_type t) (ts_cpu_set t) (ts_priority t) (t_tgroup t) (t_tgrp_qn t) (t_sigdesc t) (t_cred t) (t_mmap t) (t_kstack t) (t_rsvd t) (t_lock t).
Definition t_set_state v t := TCB (t_tid t) (t_refcnt t) (t_exit t) v (t_flags t) (t_sigmask t) (t_sleep_node t) (t_sleep_queue t) (t_sleep_guard t) (ts_timeslice t) (ts_processor t) (ts_affinity_type t) (ts_cpu_set t) (ts_priority t) (t_tgroup t) (t_tgrp_qn t) (t_sigdesc t) (t_cred t) (t_mmap t) (t_kstack t) (t_rsvd t) (t_lock t).
Definition t_set_flags v t := TCB (t_tid t) (t_refcnt t) (t_exit t) (t_state t) v (t_sigmask t) (t_sleep_node t) (t_sleep_queue t) (t_sleep_guard t) (ts_timeslice t) (ts_processor t) (ts_affinity_type t) (ts_cpu_set t) (ts_priority t) (t_tgroup t) (t_tgrp_qn t) (t_sigdesc t) (t_cred t) (t_mmap t) (t_kstack t) (t_rsvd t) (t_lock t).
Definition t_set_sigmask v t := TCB (t_tid t) (t_refcnt t) (t_exit t) (t_state t) (t_flags t) v (t_sleep_node t) (t_sleep_queue t) (t_sleep_guard t) (ts_timeslice t) (ts_processor t) (ts_affinity_type t) (ts_cpu_set t) (ts_priority t) (t_tgroup t) (t_tgrp_qn t) (t_sigdesc t) (t_cred t) (t_mmap t) (t_kstack t) (t_rsvd t) (t_lock t).
Definition t_set_timeslice v t := TCB (t_tid t) (t_refcnt t) (t_exit t) (t_state t) (t_flags t) (t_sigmask t) (t_sleep_node t) (t_sleep_queue t) (t_sleep_guard t) v (ts_processor t) (ts_affinity_type t) (ts_cpu_set t) (ts_priority t) (t_tgroup t) (t_tgrp_qn t) (t_sigdesc t) (t_cred t) (t_mmap t) (t_kstack t) (t_rsvd t) (t_lock t).
Definition t_set_processor v t := TCB (t_tid t) (t_refcnt t) (t_exit t) (t_state t) (t_flags t) (t_sigmask t) (t_sleep_node t) (t_sleep_queue t) (t_sleep_guard t) (ts_timeslice t) v (ts_affinity_type t) (ts_cpu_set t) (ts_priority t) (t_tgroup t) (t_tgrp_qn t) (t_sigdesc t) (t_cred t) (t_mmap t) (t_kstack t) (t_rsvd t) (t_lock t).
Definition t_set_cpu_set v t := TCB (t_tid t) (t_refcnt t) (t_exit t) (t_state t) (t_flags t) (t_sigmask t) (t_sleep_node t) (t_sleep_queue t) (t_sleep_guard t) (ts_timeslice t) (ts_processor t) (ts_affinity_type t) v (ts_priority t) (t_tgroup t) (t_tgrp_qn t) (t_sigdesc t) (t_cred t) (t_mmap t) (t_kstack t) (t_rsvd t) (t_lock t).
Definition t_set_tgroup v t := TCB (t_tid t) (t_refcnt t) (t_exit t) (t_state t) (t_flags t) (t_sigmask t) (t_sleep_node t) (t_sleep_queue t) (t_sleep_guard t) (ts_timeslice t) (ts_processor t) (ts_affinity_type t) (ts_cpu_set t) (ts_priority t) v (t_tgrp_qn t) (t_sigdesc t) (t_cred t) (t_mmap t) (t_kstack t) (t_rsvd t) (t_lock t).
Definition t_set_tgrp_qn v t := TCB (t_tid t) (t_refcnt t) (t_exit t) (t_state t) (t_flags t) (t_sigmask t) (t_sleep_node t) (t_sleep_queue t) (t_sleep_guard t) (ts_timeslice t) (ts_processor t) (ts_affinity_type t) (ts_cpu_set t) (ts_priority t) (t_tgroup t) v (t_sigdesc t) (t_cred t) (t_mmap t) (t_kstack t) (t_rsvd t) (t_lock t).
Definition t_set_sigdesc v t := TCB (t_tid t) (t_refcnt t) (t_exit t) (t_state t) (t_flags t) (t_sigmask t) (t_sleep_node t) (t_sleep_queue t) (t_sleep_guard t) (ts_timeslice t) (ts_processor t) (ts_affinity_type t) (ts_cpu_set t) (ts_priority t) (t_tgroup t) (t_tgrp_qn t) v (t_cred t) (t_mmap t) (t_kstack t) (t_rsvd t) (t_lock t).
Definition t_set_cred v t := TCB (t_tid t) (t_refcnt t) (t_exit t) (t_state t) (t_flags t) (t_sigmask t) (t_sleep_node t) (t_sleep_queue t) (t_sleep_guard t) (ts_timeslice t) (ts_processor t) (ts_affinity_type t) (ts_cpu_set t) (ts_priority t) (t_tgroup t) (t_tgrp_qn t) (t_sigdesc t) v (t_mmap t) (t_kstack t) (t_rsvd t) (t_lock t).
Definition t_set_lock v t := TCB (t_tid t) (t_refcnt t) (t_exit t) (t_state t) (t_flags t) (t_sigmask t) (t_sleep_node t) (t_sleep_queue t) (t_sleep_guard t) (ts_timeslice t) (ts_processor t) (ts_affinity_type t) (ts_cpu_set t) (ts_priority t) (t_tgroup t) (t_tgrp_qn t) (t_sigdesc t) (t_cred t) (t_mmap t) (t_kstack t) (t_rsvd t) v.
(** [t_arch.t_kstack.ss_sp] and [t_arch.t_rsvd] *)
Definition t_set_stack k r t := TCB (t_tid t) (t_refcnt t) (t_exit t) (t_state t) (t_flags t) (t_sigmask t) (t_sleep_node t) (t_sleep_queue t) (t_sleep_guard t) (ts_timeslice t) (ts_processor t) (ts_affinity_type t) (ts_cpu_set t) (ts_priority t) (t_tgroup t) (t_tgrp_qn t) (t_sigdesc t) (t_cred t) (t_mmap t) k r (t_lock t).
(** [t_sleep = { node, queue, guard }] *)
Definition t_set_sleep n q g t := TCB (t_tid t) (t_refcnt t) (t_exit t) (t_state t) (t_flags t) (t_sigmask t) n q g (ts_timeslice t) (ts_processor t) (ts_affinity_type t) (ts_cpu_set t) (ts_priority t) (t_tgroup t) (t_tgrp_qn t) (t_sigdesc t) (t_cred t) (t_mmap t) (t_kstack t) (t_rsvd t) (t_lock t).
#[export] Instance lockable_thread : Lockable thread_t := {| lk_held := t_lock; lk_put := t_set_lock |}.
#[export] Instance lock_laws_thread : LockLaws thread_t.
Proof. split; by intros; destruct v. Qed.

(** The queues and the condition variable inside a thread.  A pointer to such a
    member is named by the thread and a number; the names lie outside the
    64-bit addresses, so they are not those of any other object. *)
Definition member (t k : Z) : ptr := t + k * two64.
Definition t_queues (t : ptr) : ptr := member t 1.
Definition t_wait (t : ptr) : ptr := member t 2.
Definition t_sigqueue (t : ptr) (i : Z) : ptr := member t (3 + i).

(** spinlock_t and cond_t; the queue [waiters] has the name of the variable and
    its [guard] one of its own. *)
Definition cond_guard (c : ptr) : ptr := member c 40.
(** The lock of an address space. *)
Definition mmap_guard (m : ptr) : ptr := member m 41.
Record spinlock_t := Spin { sp_held : bool }.
#[export] Instance lockable_spin : Lockable spinlock_t := {| lk_held := sp_held; lk_put b _ := Spin b |}.
#[export] Instance lock_laws_spin : LockLaws spinlock_t.
Proof. split; by intros; destruct v. Qed.
Record cond_t := Cond { c_count : Z }.

(** struct level and the run queues of struct cpu *)
Record level_t := Level { quatum : Z; level_queue : ptr }.
Record cpu_t := Cpu { queueq : list level_t }.

Record sys := Sys {
  k_ds : dsheap;
  k_threads : gmap ptr thread_t;
  k_spins : gmap ptr spinlock_t;
  k_conds : gmap ptr cond_t;
  k_cpus : gmap ptr cpu_t;
  k_current : ptr;
  k_tids : Z;
  k_ticks : nat;
}.
Definition k_set_ds v s := Sys v (k_threads s) (k_spins s) (k_conds s) (k_cpus s) (k_current s) (k_tids s) (k_ticks s).
Definition k_set_threads v s := Sys (k_ds s) v (k_spins s) (k_conds s) (k_cpus s) (k_current s) (k_tids s) (k_ticks s).
Definition k_set_spins v s := Sys (k_ds s) (k_threads s) v (k_conds s) (k_cpus s) (k_current s) (k_tids s) (k_ticks s).
Definition k_set_conds v s := Sys (k_ds s) (k_threads s) (k_spins s) v (k_cpus s) (k_current s) (k_tids s) (k_ticks s).
Definition k_set_cpus v s := Sys (k_ds s) (k_threads s) (k_spins s) (k_conds s) v (k_current s) (k_tids s) (k_ticks s).
Definition k_set_current v s := Sys (k_ds s) (k_threads s) (k_spins s) (k_conds s) (k_cpus s) v (k_tids s) (k_ticks s).
Definition k_set_tids v s := Sys (k_ds s) (k_threads s) (k_spins s) (k_conds s) (k_cpus s) (k_current s) v (k_ticks s).
Definition k_tick s := Sys (k_ds s) (k_threads s) (k_spins s) (k_conds s) (k_cpus s) (k_current s) (k_tids s) (S (k_ticks s)).
#[export] Instance hl_threads : Heaplet sys thread_t := {| hl_get := k_threads; hl_put := k_set_threads |}.
#[export] Instance hl_spins : Heaplet sys spinlock_t := {| hl_get := k_spins; hl_put := k_set_spins |}.
#[export] Instance hl_kconds : Heaplet sys cond_t := {| hl_get := k_conds; hl_put := k_set_conds |}.
#[export] Instance hl_cpus : Heaplet sys cpu_t := {| hl_get := k_cpus; hl_put := k_set_cpus |}.
#[export] Instance kheap_sys : Kheap sys := {|
  kh_live s := kh_live (k_ds s) ∪ dom (k_threads s) ∪ dom (k_spins s) ∪ dom (k_conds s) ∪ dom (k_cpus s);
  kh_ticks := k_ticks;
  kh_tick := k_tick;
|}.
Definition on_q {A} : M dsheap A -> M sys A := zoom k_ds k_set_ds.

(** The machine, where the static queues are, and where the stack of a given size
    begins at whose end a thread is. *)
Class Machine := {
  getcpuid : Z;
  cpu_online : Z;
  cpus : Z -> ptr;
  cpu : ptr;
  threads_queue : ptr;
  embryo_queue : ptr;
  zombie_queue : ptr;
  sched_stopq : ptr;
  global_sleep_queue : ptr;
  kstack_base : ptr -> Z -> ptr;
}.

(** ** Macros of include/sys/thread.h *)

Definition thread_lock (t : ptr) : M sys unit := obj_lock thread_t t.
Definition thread_unlock (t : ptr) : M sys unit := obj_unlock thread_t t.
Definition thread_islocked (t : ptr) : M sys bool := obj_islocked thread_t t.
Definition thread_assert_locked (t : ptr) : M sys unit := obj_assert_locked thread_t t.
Definition current : M sys ptr := gets k_current.
Definition set_current (t : ptr) : M sys unit := modify (k_set_current t).
Definition current_lock : M sys unit := t ← current; thread_lock t.
Definition current_unlock : M sys unit := t ← current; thread_unlock t.
Definition current_assert_locked : M sys unit := t ← current; thread_assert_locked t.

Definition thread_getstate (t : ptr) : M sys tstate_t := thread_assert_locked t;; v ← load (V := thread_t) t; mret (t_state v).
Definition thread_isstate (t : ptr) (st : tstate_t) : M sys bool := x ← thread_getstate t; mret (bool_decide (x = st)).
Definition thread_isembryo t := thread_isstate t T_EMBRYO.
Definition thread_isisleep t := thread_isstate t T_ISLEEP.
Definition thread_isusleep t := thread_isstate t T_USLEEP.
Definition thread_isstopped t := thread_isstate t T_STOPPED.
Definition thread_iszombie t := thread_isstate t T_ZOMBIE.
Definition thread_isterminated t := thread_isstate t T_TERMINATED.
Definition thread_enter_state (t : ptr) (st : tstate_t) : M sys unit := thread_assert_locked t;; update t (t_set_state st).

Definition thread_testflags (t : ptr) (fl : Z) : M sys bool := thread_assert_locked t;; v ← load (V := thread_t) t; mret (has (t_flags v) fl).
Definition thread_setflags (t : ptr) (fl : Z) : M sys unit := thread_assert_locked t;; update t (λ v, t_set_flags (Z.lor (t_flags v) fl) v).
Definition thread_maskflags (t : ptr) (fl : Z) : M sys unit := thread_assert_locked t;; update t (λ v, t_set_flags (Z.ldiff (t_flags v) fl) v).
(** [thread_iskilled], [thread_ismain] and the like take the lock when it is free. *)
Definition thread_isset (t : ptr) (fl : Z) : M sys bool :=
  locked ← thread_islocked t;
  when (negb locked) (thread_lock t);;
  b ← thread_testflags t fl;
  when (negb locked) (thread_unlock t);;
  mret b.
Definition thread_iskilled t := thread_isset t THREAD_KILLED.
Definition thread_ismain t := thread_isset t THREAD_ISMAIN.
Definition thread_ishandling_signal t := thread_isset t THREAD_HANDLING_SIG.
Definition thread_isuser t := thread_isset t THREAD_USER.
Definition thread_setmain (t : ptr) : M sys unit :=
  locked ← thread_islocked t;
  when (negb locked) (thread_lock t);;
  thread_setflags t THREAD_ISMAIN;;
  when (negb locked) (thread_unlock t).
Definition thread_isdetached t := thread_testflags t THREAD_DETACHED.
Definition thread_issetwake t := thread_testflags t THREAD_WAKE.
Definition thread_issetpark t := thread_testflags t THREAD_PARK.
Definition thread_setwake t := thread_setflags t THREAD_WAKE.
Definition thread_setpark t := thread_setflags t THREAD_PARK.
Definition thread_mask_park_wake t := thread_maskflags t (Z.lor THREAD_WAKE THREAD_PARK).
Definition thread_getref (t : ptr) : M sys ptr := thread_assert_locked t;; update t (λ v, t_set_refcnt (t_refcnt v + 1) v);; mret t.
Definition thread_putref (t : ptr) : M sys unit := thread_assert_locked t;; update t (λ v, t_set_refcnt (t_refcnt v - 1) v).
Definition thread_gettid (t : ptr) : M sys Z := if decide (t = NULL) then mret 0 else v ← load (V := thread_t) t; mret (t_tid v).
Definition thread_self : M sys Z := t ← current; thread_gettid t.

Definition spin_lock (l : ptr) : M sys unit := obj_lock spinlock_t l.
Definition spin_unlock (l : ptr) : M sys unit := obj_unlock spinlock_t l.
Definition spin_islocked (l : ptr) : M sys bool := obj_islocked spinlock_t l.

(** [a || b] of the source: [b] runs only when [a] is false. *)
Definition orM (a b : M sys bool) : M sys bool := x ← a; if x : bool then mret true else b.
Definition andM (a b : M sys bool) : M sys bool := x ← a; if x : bool then b else mret false.

(** ** Threads on queues (threads/thread.c) *)

Section ops.
Context {KM : Kmalloc} {MC : Machine}.

(** The result and, on success, the node of [thread] on [queue]. *)
Definition thread_enqueue (queue thread : ptr) : M sys (Z * ptr) :=
  if decide (thread = NULL) then mret (- EINVAL, NULL) else
  on_q (queue_lock queue);;
  on_q (queue_lock (t_queues thread));;
  '(err, node) ← on_q (enqueue queue thread true true);
  if decide (err ≠ 0) then
    on_q (queue_unlock (t_queues thread));; on_q (queue_unlock queue);; mret (err, NULL)
  else
  '(err, _) ← on_q (enqueue (t_queues thread) queue true false);
  if decide (err ≠ 0) then
    on_q (queue_remove queue thread);;
    on_q (queue_unlock (t_queues thread));; on_q (queue_unlock queue);; mret (err, NULL)
  else
  on_q (queue_unlock (t_queues thread));;
  on_q (queue_unlock queue);;
  mret (0, default NULL node).

(** The first thread of a queue, locked, or NULL. *)
Definition thread_dequeue (queue : ptr) : M sys ptr :=
  assert_ (bool_decide (queue ≠ NULL));;
  on_q (queue_assert_locked queue);;
  '(err, thread) ← on_q (dequeue queue true);
  if decide (err ≠ 0) then mret NULL else
  let thread := default NULL thread in
  thread_lock thread;;
  on_q (queue_lock (t_queues thread));;
  err ← on_q (queue_remove (t_queues thread) queue);
  if decide (err ≠ 0) then halt Panic else
  on_q (queue_unlock (t_queues thread));;
  mret thread.

Definition thread_remove_queue (thread queue : ptr) : M sys Z :=
  on_q (queue_assert_locked queue);;
  thread_assert_locked thread;;
  on_q (queue_lock (t_queues thread));;
  err ← on_q (queue_remove (t_queues thread) queue);
  on_q (queue_unlock (t_queues thread));;
  if decide (err ≠ 0) then mret err else
  on_q (queue_remove queue thread).

(** ** Run queues (sched/sched.c, sched/queues.c) *)

Definition sched_putembryo (thread : ptr) : M sys Z :=
  if decide (thread = NULL) then mret (- EINVAL) else
  thread_assert_locked thread;;
  thread_enter_state thread T_EMBRYO;;
  '(err, _) ← thread_enqueue embryo_queue thread;
  mret err.
Definition sched_getembryo : M sys ptr :=
  on_q (queue_lock embryo_queue);;
  embryo ← thread_dequeue embryo_queue;
  on_q (queue_unlock embryo_queue);;
  mret embryo.

(** The processor chosen for a thread with hard affinity: the first one of its set. *)
Definition affine_core (cpu_set : Z) : option Z := (λ x, x.2) <$> list_find (λ core, Z.testbit cpu_set core) (seqZ 0 cpu_online).

Definition sched_park (thread : ptr) : M sys Z :=
  if decide (thread = NULL) then mret (- EINVAL) else
  thread_assert_locked thread;;
  e ← thread_isembryo thread;
  if e : bool then sched_putembryo thread else
  v ← load (V := thread_t) thread;
  core ← (if decide (ts_affinity_type v = HARD_AFFINITY) then
            match affine_core (ts_cpu_set v) with
            | Some core => mret core
            | None => update thread (λ v, t_set_cpu_set (Z.lor (ts_cpu_set v) (Z.shiftl 1 getcpuid)) v);; mret getcpuid
            end
          else mret getcpuid);
  let processor := if decide (ts_processor v ≠ NULL) then ts_processor v else cpus core in
  let processor := if decide (processor = NULL) then cpu else processor in
  update thread (t_set_processor processor);;
  c ← load (V := cpu_t) processor;
  match queueq c !! Z.to_nat (SCHED_LEVEL (ts_priority v)) with
  | None => halt BadAccess
  | Some lvl => '(err, _) ← thread_enqueue (level_queue lvl) thread; mret err
  end.
Definition thread_schedule (thread : ptr) : M sys Z := thread_assert_locked thread;; sched_park thread.

Definition thread_wake (thread : ptr) : M sys Z :=
  thread_assert_locked thread;;
  cur ← current;
  if decide (cur = thread) then mret 0 else
  d ← orM (thread_iszombie thread) (thread_isterminated thread);
  if d : bool then mret 0 else
  p ← thread_issetpark thread;
  when p (thread_setwake thread);;
  v ← load (V := thread_t) thread;
  if decide (t_sleep_queue v = NULL) then mret 0 else
  guard_locked ← (if decide (t_sleep_guard v ≠ NULL) then
                    l ← spin_islocked (t_sleep_guard v); when (negb l) (spin_lock (t_sleep_guard v));; mret (negb l)
                  else mret false);
  l ← on_q (queue_islocked (t_sleep_queue v));
  when (negb l) (on_q (queue_lock (t_sleep_queue v)));;
  err ← thread_remove_queue thread (t_sleep_queue v);
  when (negb l) (on_q (queue_unlock (t_sleep_queue v)));;
  when (bool_decide (t_sleep_guard v ≠ NULL) && guard_locked) (spin_unlock (t_sleep_guard v));;
  st ← thread_isstopped thread;
  when st (thread_maskflags thread THREAD_STOP);;
  if decide (err ≠ 0) then mret err else
  thread_enter_state thread T_READY;;
  thread_schedule thread.

Definition sched_wake1 (sleep_queue : ptr) : M sys Z :=
  on_q (queue_lock sleep_queue);;
  thread ← thread_dequeue sleep_queue;
  retval ← (if decide (thread ≠ NULL) then
    thread_assert_locked thread;;
    state ← thread_getstate thread;
    thread_enter_state thread T_READY;;
    err ← sched_park thread;
    when (bool_decide (err ≠ 0))
      (thread_enter_state thread state;;
       '(err, node) ← thread_enqueue sleep_queue thread;
       when (bool_decide (err = 0)) (update thread (λ v, t_set_sleep node (t_sleep_queue v) (t_sleep_guard v) v)));;
    thread_unlock thread;;
    mret 0
  else mret (- ESRCH));
  on_q (queue_unlock sleep_queue);;
  mret retval.

Fixpoint wakeall_loop (fuel : nat) (node : ptr) : M sys unit :=
  if decide (node = NULL) then mret tt else
  match fuel with
  | O => halt OutOfFuel
  | S n =>
      x ← on_q (nload node);
      let thread := qn_data x in
      thread_lock thread;;
      err ← thread_wake thread;
      if decide (err ≠ 0) then halt Panic else
      thread_unlock thread;;
      wakeall_loop n (qn_next x)
  end.
Definition sched_wakeall (sleep_queue : ptr) : M sys Z :=
  on_q (queue_lock sleep_queue);;
  count ← on_q (queue_count sleep_queue);
  q ← on_q (qload sleep_queue);
  fuel ← on_q walk_fuel;
  wakeall_loop fuel (q_head q);;
  on_q (queue_unlock sleep_queue);;
  mret count.

(** [cond_broadcast] (sync/cond.c) with its [cond_wakeall]. *)
Definition cond_broadcast (c : ptr) : M sys unit :=
  assert_ (bool_decide (c ≠ NULL));;
  spin_lock (cond_guard c);;
  waiters ← sched_wakeall c;
  update c (λ _ : cond_t, Cond (if decide (s32 waiters = 0) then u64 (- 1) else 0));;
  spin_unlock (cond_guard c).

Definition sched_putzombie (thread : ptr) : M sys Z :=
  if decide (thread = NULL) then mret (- EINVAL) else
  thread_assert_locked thread;;
  thread_enter_state thread T_ZOMBIE;;
  '(err, _) ← thread_enqueue zombie_queue thread;
  if decide (err ≠ 0) then mret err else
  cond_broadcast (t_wait thread);;
  mret 0.
Definition sched_getzombie : M sys ptr :=
  on_q (queue_lock zombie_queue);;
  zombie ← thread_dequeue zombie_queue;
  on_q (queue_unlock zombie_queue);;
  mret zombie.
End ops.

(** ** Creation and release (threads/thread.c) *)

Section lifetime.
Context {KM : Kmalloc} {MC : Machine}.

Definition STACKSZMIN : Z := 32768.
Definition STACKSZMAX : Z := 524288.
Definition BADSTACKSZ (sz : Z) : bool := bool_decide (sz < STACKSZMIN ∨ sz > STACKSZMAX).
Definition THREAD_CREATE_USER : Z := 1.
Definition THREAD_CREATE_DETACHED : Z := 4.
Definition NSIG : Z := 32.

Definition tid_alloc : M sys Z := modify (λ s, k_set_tids (u64 (k_tids s + 1)) s);; gets k_tids.

(** A thread lies on its own kernel stack: one allocation gives both.  The
    queues inside it come with it. *)
Definition new_thread : thread_t :=
  TCB 0 0 0 T_EMBRYO 0 0 NULL NULL NULL 0 NULL SOFT_AFFINITY 0 0 NULL NULL NULL NULL NULL NULL NULL false.
Definition add_members (t : ptr) (h : dsheap) : dsheap :=
  set_queues (<[t_queues t := QUEUE_INIT]> (<[t_wait t := QUEUE_INIT]>
    (foldr (λ i m, <[t_sigqueue t i := QUEUE_INIT]> m) (d_queues h) (seqZ 0 NSIG)))) h.
Definition thread_kstack_alloc (size : Z) (ret : bool) : M sys (Z * ptr) :=
  if decide (ret = false) then mret (- EINVAL, NULL) else
  if BADSTACKSZ size then mret (- ERANGE, NULL) else
  addr ← kmalloc new_thread;
  if decide (addr = NULL) then mret (- ENOMEM, NULL) else mret (0, addr).
Definition thread_alloc (ksz flags : Z) (ret : bool) : M sys (Z * ptr) :=
  if decide (ret = false) then mret (- EINVAL, NULL) else
  '(err, thread) ← thread_kstack_alloc ksz true;
  if decide (err ≠ 0) then mret (err, NULL) else
  modify (λ s, k_set_ds (add_members thread (k_ds s)) (k_set_conds (<[t_wait thread := Cond 0]> (k_conds s))
    (k_set_spins (<[cond_guard (t_wait thread) := Spin false]> (k_spins s)) s)));;
  thread_lock thread;;
  update thread (t_set_stack (kstack_base thread ksz) (u64 (thread - 1024)));;
  update thread (t_set_refcnt 2);;
  tid ← tid_alloc;
  update thread (λ v, TCB tid (t_refcnt v) (t_exit v) (t_state v) (t_flags v) (t_sigmask v) (t_sleep_node v) (t_sleep_queue v)
    (t_sleep_guard v) (ts_timeslice v) (ts_processor v) SOFT_AFFINITY (u32 (- 1)) SCHED_LOWEST_PRIORITY (t_tgroup v) (t_tgrp_qn v)
    (t_sigdesc v) (t_cred v) (t_mmap v) (t_kstack v) (t_rsvd v) (t_lock v));;
  thread_enter_state thread T_EMBRYO;;
  thread_setflags thread
    (Z.lor (if has flags THREAD_CREATE_USER then THREAD_USER else 0) (if has flags THREAD_CREATE_DETACHED then THREAD_DETACHED else 0));;
  '(err, _) ← thread_enqueue threads_queue thread;
  assert_ (bool_decide (err = 0));;
  thread_getref thread;;
  mret (0, thread).

Fixpoint free_loop (fuel : nat) (thread node : ptr) : M sys unit :=
  if decide (node = NULL) then mret tt else
  match fuel with
  | O => halt OutOfFuel
  | S n =>
      x ← on_q (nload node);
      let queue := qn_data x in
      on_q (queue_lock queue);;
      err ← on_q (queue_remove queue thread);
      if decide (err ≠ 0) then halt Panic else
      err ← on_q (queue_remove (t_queues thread) queue);
      if decide (err ≠ 0) then halt Panic else
      on_q (queue_unlock queue);;
      free_loop n thread (qn_next x)
  end.
Definition thread_free (thread : ptr) : M sys unit :=
  cur ← current;
  assert_ (bool_decide (cur ≠ thread));;
  thread_assert_locked thread;;
  z ← thread_iszombie thread;
  assert_ z;;
  on_q (queue_lock (t_queues thread));;
  q ← on_q (qload (t_queues thread));
  fuel ← on_q walk_fuel;
  free_loop fuel thread (q_head q);;
  on_q (queue_unlock (t_queues thread));;
  thread_unlock thread;;
  kfree thread_t thread.

(** threads/tgroup.c: the thread must be locked and is locked again. *)
Definition thread_leave_group (thread : ptr) : M sys Z :=
  thread_assert_locked thread;;
  v ← load (V := thread_t) thread;
  on_q (queue_lock (t_tgroup v));;
  thread_lock thread;;
  err ← thread_remove_queue thread (t_tgroup v);
  update thread (λ v, t_set_cred NULL (t_set_tgroup NULL (t_set_sigdesc NULL v)));;
  thread_unlock thread;;
  on_q (queue_unlock NULL);;
  assert_ (bool_decide (err = 0));;
  mret 0.
Definition thread_detach (thread : ptr) : M sys Z := thread_leave_group thread.
End lifetime.

(** ** The scheduler *)

Section scheduler.
Context {KM : Kmalloc} {MC : Machine}.

Fixpoint next_level (levels : list level_t) : M sys ptr :=
  match levels with
  | [] => mret NULL
  | lvl :: levels =>
      on_q (queue_lock (level_queue lvl));;
      thread ← thread_dequeue (level_queue lvl);
      on_q (queue_unlock (level_queue lvl));;
      if decide (thread = NULL) then next_level levels else
      update thread (t_set_timeslice (quatum lvl));; mret thread
  end.
Definition sched_next : M sys ptr :=
  thread ← sched_getembryo;
  when (bool_decide (thread ≠ NULL))
    (thread_enter_state thread T_READY;;
     err ← sched_park thread;
     assert_ (bool_decide (err = 0));;
     thread_unlock thread);;
  c ← load (V := cpu_t) cpu;
  next_level (queueq c).

Definition sched_self_destruct : M sys unit :=
  current_assert_locked;;
  current_unlock;;
  current_lock;;
  t ← current;
  d ← thread_isdetached t;
  when d (current_unlock;; thread_detach t;; current_lock);;
  err ← sched_putzombie t;
  if decide (err ≠ 0) then halt Panic else
  current_unlock.

(** The address space of a thread: the register of the page tables is not part of
    this state (Paging.v has it), nor is the stack pointer in the TSS. *)
Definition mmap_lock (m : ptr) : M sys unit := if decide (m = NULL) then halt Panic else spin_lock (mmap_guard m).
Definition mmap_unlock (m : ptr) : M sys unit := if decide (m = NULL) then halt Panic else spin_unlock (mmap_guard m).
Definition mmap_focus (m : ptr) : M sys unit := if decide (m = NULL) then mret tt else obj_assert_locked spinlock_t (mmap_guard m).
Definition arch_thread_setkstack (thread : ptr) : M sys Z :=
  v ← load (V := thread_t) thread;
  mret (if decide (t_rsvd v < t_kstack v) then - EOVERFLOW else 0).
Definition enter_space (thread : ptr) : M sys unit :=
  v ← load (V := thread_t) thread;
  if decide (t_mmap v = NULL) then mret tt else
  mmap_lock (t_mmap v);;
  mmap_focus (t_mmap v);;
  mmap_unlock (t_mmap v);;
  err ← arch_thread_setkstack thread;
  assert_ (bool_decide (err = 0)).

(** One round of the loop of [schedule] up to the switch to the thread:
    whether there is a thread to run. *)
Definition schedule_pick : M sys bool :=
  set_current NULL;;
  thread ← sched_next;
  if decide (thread = NULL) then mret false else
  set_current thread;;
  current_assert_locked;;
  d ← orM (thread_iszombie thread) (orM (thread_iskilled thread) (orM (thread_isstopped thread) (thread_isterminated thread)));
  if d : bool then
    st ← thread_isstopped thread;
    if st : bool then halt Panic else
    thread_enter_state thread T_TERMINATED;;
    k ← thread_iskilled thread;
    when k (update thread (t_set_exit (- EINTR)));;
    sched_self_destruct;;
    mret false
  else enter_space thread;; mret true.

(** The rest of the round, when the thread has switched back. *)
Definition schedule_return : M sys unit :=
  thread ← current;
  thread_assert_locked thread;;
  k ← thread_iskilled thread;
  when k (thread_enter_state thread T_TERMINATED;; update thread (t_set_exit (- EINTR)));;
  st ← thread_getstate thread;
  match st with
  | T_READY => sched_park thread;; thread_unlock thread
  | T_ISLEEP | T_USLEEP | T_STOPPED => thread_unlock thread
  | T_TERMINATED => sched_self_destruct
  | T_EMBRYO | T_RUNNING | T_ZOMBIE => halt Panic
  end.

(** [sched]: whether the thread gives up the processor. *)
Definition sched : M sys bool :=
  thread ← current;
  thread_assert_locked thread;;
  p ← andM (thread_issetpark thread) (andM (thread_isisleep thread) (thread_issetwake thread));
  if p : bool then thread_mask_park_wake thread;; mret false else mret true.

Definition sched_yield : M sys bool :=
  current_lock;;
  t ← current;
  update t (t_set_state T_READY);;
  sched.

(** [sched_sleep] up to the switch: the error, or whether the thread switches. *)
Definition sched_sleep (sleep_queue : ptr) (state : tstate_t) (lock : ptr) : M sys (Z * bool) :=
  if decide (sleep_queue = NULL) then mret (- EINVAL, false) else
  current_assert_locked;;
  t ← current;
  '(err, node) ← thread_enqueue sleep_queue t;
  if decide (err ≠ 0) then mret (err, false) else
  update t (λ v, t_set_sleep node (t_sleep_queue v) (t_sleep_guard v) v);;
  thread_enter_state t state;;
  update t (λ v, t_set_sleep (t_sleep_node v) sleep_queue lock v);;
  when (bool_decide (lock ≠ NULL)) (spin_unlock lock);;
  s ← sched;
  mret (0, s).
(** and from there on. *)
Definition sched_sleep_end (lock : ptr) : M sys Z :=
  when (bool_decide (lock ≠ NULL)) (spin_lock lock);;
  t ← current;
  update t (t_set_sleep NULL NULL NULL);;
  k ← thread_iskilled t;
  mret (if k : bool then - EINTR else 0).

(** Condition variables (sync/cond.c).  [cond_wait] returns [None] when the
    thread gives up the processor; the rest is [cond_wait_end]. *)
Definition cond_wait_end (c : ptr) : M sys Z :=
  r ← sched_sleep_end (cond_guard c);
  current_unlock;;
  spin_unlock (cond_guard c);;
  mret r.
Definition cond_wait (c : ptr) : M sys (option Z) :=
  assert_ (bool_decide (c ≠ NULL));;
  spin_lock (cond_guard c);;
  v ← load (V := cond_t) c;
  update c (λ v : cond_t, Cond (u64 (c_count v + 1)));;
  if decide (s32 (c_count v) >= 0) then
    current_lock;;
    '(err, switch) ← sched_sleep c T_ISLEEP (cond_guard c);
    if decide (err ≠ 0) then current_unlock;; spin_unlock (cond_guard c);; mret (Some err) else
    if switch : bool then mret None else
    r ← cond_wait_end c;
    mret (Some r)
  else spin_unlock (cond_guard c);; mret (Some 0).
Definition cond_signal (c : ptr) : M sys unit :=
  assert_ (bool_decide (c ≠ NULL));;
  spin_lock (cond_guard c);;
  sched_wake1 c;;
  update c (λ v : cond_t, Cond (u64 (c_count v - 1)));;
  spin_unlock (cond_guard c).

(** [x86_64_thread_exit] up to the switch. *)
Definition thread_exit (code : Z) : M sys bool :=
  current_lock;;
  t ← current;
  thread_setflags t THREAD_EXITING;;
  update t (t_set_exit code);;
  thread_enter_state t T_TERMINATED;;
  sched.

Definition thread_stop (thread queue : ptr) : M sys (Z * bool) :=
  thread_assert_locked thread;; sched_sleep queue T_STOPPED NULL.

(** [thread_reap] up to its wait: [None] when the thread waits for the end of
    [thread]; when it runs again, [cond_wait_end (t_wait thread)] and
    [thread_lock thread] come before the next test.  [fuel] bounds the tests
    between two waits. *)
Fixpoint reap_loop (fuel : nat) (thread : ptr) (reap : bool) : M sys (option Z) :=
  match fuel with
  | O => halt OutOfFuel
  | S n =>
      z ← thread_iszombie thread;
      if z : bool then
        when reap (thread_free thread);;
        mret (Some 0)
      else
      cur ← current;
      k ← thread_iskilled cur;
      if k : bool then mret (Some (- EINTR)) else
      thread_unlock thread;;
      w ← cond_wait (t_wait thread);
      match w with
      | None => mret None
      | Some err =>
          thread_lock thread;;
          if decide (err ≠ 0) then mret (Some err) else reap_loop n thread reap
      end
  end.
Definition thread_reap (fuel : nat) (thread : ptr) (reap : bool) : M sys (option Z) :=
  thread_assert_locked thread;;
  cur ← current;
  if decide (cur = thread) then mret (Some (- EDEADLK)) else reap_loop fuel thread reap.
(** A thread is marked and woken ([kill_mark]: the error or [None]), then waited
    for whatever [wait] is, which only says whether to free it. *)
Definition kill_mark (thread : ptr) : M sys (option Z) :=
  thread_assert_locked thread;;
  d ← orM (thread_iszombie thread) (thread_isterminated thread);
  if d : bool then mret (Some 0) else
  thread_setflags thread THREAD_KILLED;;
  err ← thread_wake thread;
  mret (if decide (err ≠ 0) then Some err else None).
Definition thread_kill_n (fuel : nat) (thread : ptr) (wait : bool) : M sys (option Z) :=
  r ← kill_mark thread;
  match r with
  | Some err => mret (Some err)
  | None => thread_reap fuel thread wait
  end.

(** The zombies of detached threads are freed; [due] is whether it is time to. *)
Definition sched_remove_zombies (due : bool) : M sys unit :=
  if negb due then mret tt else
  zombie ← sched_getzombie;
  if decide (zombie = NULL) then mret tt else
  d ← andM (thread_iszombie zombie) (thread_isdetached zombie);
  if d : bool then thread_free zombie else sched_putzombie zombie;; thread_unlock zombie.
End scheduler.
