(* ===== verification/SchedSpec.v ===== *)
(** * Threads and queues: specifications

    Many queues at once, the agreement between the queues of threads and the
    lists of queues that threads keep, and what the functions of Sched.v do to
    them. *)

From S2P Require Import Prelude Dll Heap Queue Lock Sched.

(** ** A family of queues *)

(** Equal maps, by the keys they were built with. *)
Ltac map_norm :=
  repeat (rewrite lookup_insert_eq || rewrite lookup_insert_ne by (by auto; congruence)).
Ltac map_ext :=
  let x := fresh "x" in
  apply map_eq; intros x;
  repeat (map_norm; try done;
    match goal with |- context [<[?k := _]> _ !! x] => destruct (decide (x = k)) as [->|] end);
  map_norm; try done.

(** For every queue whether it is locked, its nodes and its data. *)
Abbreviation fam := (gmap ptr (bool * list (ptr * ptr))).
Definition fam_ok (h : dsheap) (F : fam) : Prop := ∀ q lk xs, F !! q = Some (lk, xs) -> queue_rep h q lk xs.
(** The number of objects in memory: nodes and others. *)
Definition others (h : dsheap) : gset ptr :=
  dom (d_queues h) ∪ dom (d_stacks h) ∪ dom (d_btrees h) ∪ dom (d_bnodes h) ∪ dom (d_htabs h) ∪ dom (d_hnodes h) ∪ dom (d_rings h) ∪ dom (d_bufs h).
Definition load_of (h : dsheap) : nat := (size (others h) + size (dom (d_qnodes h)))%nat.
Lemma live_load h : (size (kh_live h) <= load_of h)%nat.
Proof.
  assert (kh_live h ⊆ others h ∪ dom (d_qnodes h)) as Hs by (unfold others; simpl; set_solver).
  apply subseteq_size in Hs. rewrite size_union_alt in Hs. unfold load_of.
  pose proof (subseteq_size (dom (d_qnodes h) ∖ others h) (dom (d_qnodes h)) ltac:(set_solver)). lia.
Qed.

Section family.
Context {KM : Kmalloc}.
Implicit Types (h : dsheap) (F : fam) (q t : ptr).

Lemma fam_frame h h' F q lk xs :
  fam_ok h F -> queue_frame q h h' -> queue_rep h' q lk xs -> fam_ok h' (<[q := (lk, xs)]> F).
Proof.
  intros HF Hfr Hq q' lk' xs'. destruct (decide (q' = q)) as [->|Hne].
  - rewrite lookup_insert_eq. by intros [= <- <-].
  - rewrite lookup_insert_ne by done. intros H. eapply queue_rep_frame; [done|done|]. by apply HF.
Qed.
Lemma fam_tick h F : fam_ok h F -> fam_ok (ds_tick h) F.
Proof. intros HF q lk xs H. by apply HF in H. Qed.

Lemma frame_load q h h' lk xs lk' xs' :
  queue_frame q h h' -> queue_rep h q lk xs -> queue_rep h' q lk' xs' -> others h' = others h.
Proof.
  intros (Hq & _ & Hr) (_ & H1 & _) (_ & H2 & _). unfold ds_rest in Hr. injection Hr as E1 E2 E3 E4 E5 E6 E7.
  assert (dom (d_queues h') = dom (d_queues h)) as Ed.
  { apply set_eq. intros x. rewrite !elem_of_dom. destruct (decide (x = q)) as [->|Hne]; [rewrite H1, H2; split; by eexists|by rewrite Hq]. }
  unfold others. by rewrite Ed, E1, E2, E3, E4, E5, E6, E7.
Qed.
Lemma frame_same q h h' lk xs lk' xs' :
  queue_frame q h h' -> queue_rep h q lk xs -> queue_rep h' q lk' xs' -> dom (d_qnodes h') = dom (d_qnodes h) -> (load_of h' <= load_of h)%nat.
Proof. intros H1 H2 H3 H4. unfold load_of. by rewrite (frame_load _ _ _ _ _ _ _ H1 H2 H3), H4. Qed.
Lemma rep_node h q lk xs p d : queue_rep h q lk xs -> (p, d) ∈ xs -> p ∈ dom (d_qnodes h).
Proof.
  intros (_ & _ & Hd & _) Hin. apply list_elem_of_split in Hin as (l1 & l2 & ->). destruct Hd as (_ & _ & _ & _ & Hs).
  rewrite own_app in Hs. apply dseg_lookup in Hs. apply elem_of_dom. by eexists.
Qed.
Lemma frame_less q h h' lk xs lk' xs' p d :
  queue_frame q h h' -> queue_rep h q lk xs -> queue_rep h' q lk' xs' -> (p, d) ∈ xs -> dom (d_qnodes h') = dom (d_qnodes h) ∖ {[p]} ->
  (S (load_of h') <= load_of h)%nat.
Proof.
  intros H1 H2 H3 H4 H5. unfold load_of. rewrite (frame_load _ _ _ _ _ _ _ H1 H2 H3), H5. apply (rep_node _ _ _ _ _ _ H2) in H4.
  pose proof (subseteq_size {[p]} (dom (d_qnodes h)) ltac:(set_solver)) as Hp. rewrite size_difference by set_solver. rewrite size_singleton in *. lia.
Qed.

Lemma wpf_lock h F q xs (Q : unit -> dsheap -> Prop) :
  fam_ok h F -> F !! q = Some (false, xs) ->
  (∀ h', fam_ok h' (<[q := (true, xs)]> F) -> (load_of h' <= load_of h)%nat -> Q tt h') -> wp (queue_lock q) h Q.
Proof.
  intros HF Hq HQ. apply HF in Hq as Hr. eapply wp_queue_lock; [done|]. intros h' Hr' Hfr En.
  apply HQ; [by eapply fam_frame|]. eapply frame_same; [done..|by rewrite En].
Qed.
Lemma wpf_unlock h F q xs (Q : unit -> dsheap -> Prop) :
  fam_ok h F -> F !! q = Some (true, xs) ->
  (∀ h', fam_ok h' (<[q := (false, xs)]> F) -> (load_of h' <= load_of h)%nat -> Q tt h') -> wp (queue_unlock q) h Q.
Proof.
  intros HF Hq HQ. apply HF in Hq as Hr. eapply wp_queue_unlock; [done|]. intros h' Hr' Hfr En.
  apply HQ; [by eapply fam_frame|]. eapply frame_same; [done..|by rewrite En].
Qed.
Lemma wpf_islocked h F q lk xs (Q : bool -> dsheap -> Prop) :
  fam_ok h F -> F !! q = Some (lk, xs) -> Q lk h -> wp (queue_islocked q) h Q.
Proof.
  intros HF Hq HQ. apply HF in Hq as (Hn & Hr & _). unfold queue_islocked, queue_assert. wp_step. apply wp_assert; [by apply bool_decide_eq_true|].
  wp_step. eapply wp_qload; [done|done|]. by wp_step.
Qed.
Lemma wpf_assert_locked h F q xs (Q : unit -> dsheap -> Prop) :
  fam_ok h F -> F !! q = Some (true, xs) -> Q tt h -> wp (queue_assert_locked q) h Q.
Proof. intros HF Hq HQ. apply HF in Hq. by eapply wp_queue_assert_locked. Qed.
Lemma wpf_head h F q lk xs (Q : queue_t -> dsheap -> Prop) :
  fam_ok h F -> F !! q = Some (lk, xs) ->
  Q (Heap.Queue (hd_or NULL xs) (last_or NULL xs) (Z.of_nat (length xs)) lk) h -> wp (qload q) h Q.
Proof. intros HF Hq HQ. apply HF in Hq. by eapply wp_queue_head. Qed.
Lemma wpf_count h F q xs (Q : Z -> dsheap -> Prop) :
  fam_ok h F -> F !! q = Some (true, xs) -> Q (Z.of_nat (length xs)) h -> wp (queue_count q) h Q.
Proof. intros HF Hq HQ. apply HF in Hq. by eapply wp_queue_count. Qed.

Lemma wpf_dequeue h F q xs (Q : Z * option ptr -> dsheap -> Prop) :
  fam_ok h F -> F !! q = Some (true, xs) ->
  (xs = [] -> Q (- ENOENT, None) h) ->
  (∀ p d ys h', xs = (p, d) :: ys -> fam_ok h' (<[q := (true, ys)]> F) -> (S (load_of h') <= load_of h)%nat -> Q (0, Some d) h') ->
  wp (dequeue q true) h Q.
Proof.
  intros HF Hq HE HO. apply HF in Hq as Hr. eapply wp_dequeue; [done|done|by intros _|].
  intros p d ys h' _ -> Hr' Hfr Hdom. eapply HO; [done|by eapply fam_frame|]. eapply frame_less; [done..|apply list_elem_of_here|done].
Qed.
Lemma wpf_remove h F q xs d (Q : Z -> dsheap -> Prop) :
  fam_ok h F -> F !! q = Some (true, xs) ->
  (d ∉ xs.*2 -> Q (- ENOENT) h) ->
  (∀ h', d ∈ xs.*2 -> fam_ok h' (<[q := (true, remove_data d xs)]> F) -> (S (load_of h') <= load_of h)%nat -> Q 0 h') ->
  wp (queue_remove q d) h Q.
Proof.
  intros HF Hq HE HO. apply HF in Hq as Hr. eapply wp_queue_remove; [done|done|]. intros p h' Hfind Hr' Hfr Hdom.
  destruct (find_node_split _ _ _ Hfind) as (l1 & l2 & Exs & _).
  apply HO; [|by eapply fam_frame|eapply frame_less; [done..|rewrite Exs, elem_of_app; right; apply list_elem_of_here|done]].
  destruct (decide (d ∈ xs.*2)) as [|Hn]; [done|]. apply find_node_None in Hn. congruence.
Qed.

(** [N] objects are granted by the allocator at any time. *)
Context {N : nat} (Hroom : ∀ n D, km_choose n D = None -> (N <= size D)%nat).
Lemma wpf_enqueue h F q xs d (pnp : bool) (Q : Z * option ptr -> dsheap -> Prop) :
  fam_ok h F -> F !! q = Some (true, xs) ->
  (d ∈ xs.*2 -> Q (- EEXIST, None) h) ->
  (d ∉ xs.*2 -> (N <= load_of h)%nat -> ∀ h', fam_ok h' F -> (load_of h' <= load_of h)%nat -> Q (- ENOMEM, None) h') ->
  (∀ p h', d ∉ xs.*2 -> fam_ok h' (<[q := (true, xs ++ [(p, d)])]> F) -> (load_of h' <= S (load_of h))%nat ->
     Q (0, if pnp then Some p else None) h') ->
  wp (enqueue q d true pnp) h Q.
Proof.
  intros HF Hq HE HM HO. apply HF in Hq as Hr. eapply wp_enqueue; [done|by intros _|..].
  - intros Hn Hno. apply HM; [naive_solver|by etrans; [eapply Hroom|apply live_load]|by apply fam_tick|done].
  - intros p h' Hn Hr' Hfr Hpn Hdom. apply HO; [naive_solver|by eapply fam_frame|].
    unfold load_of. rewrite (frame_load _ _ _ _ _ _ _ Hfr Hr Hr'), Hdom, size_union_alt, size_singleton.
    pose proof (subseteq_size (dom (d_qnodes h) ∖ {[p]}) (dom (d_qnodes h)) ltac:(set_solver)). lia.
Qed.
End family.

(** ** Threads and the queues they are on *)

(** The data of a queue. *)
Definition mem (F : fam) (q : ptr) : list ptr := default [] ((λ x, x.2.*2) <$> F !! q).
Definition without (d : ptr) (l : list ptr) : list ptr := filter (λ x, x ≠ d) l.

(** [T]: the threads; [Qs]: the queues threads are put on.  A thread is on a
    queue exactly when it has the queue on its list. *)
Record agree (F : fam) (T Qs : gset ptr) : Prop := {
  ag_valid t : t ∈ T -> valid_ptr t;
  ag_name q t : q ∈ Qs -> t ∈ T -> q ≠ t_queues t;
  ag_queue q : q ∈ Qs -> is_Some (F !! q);
  ag_own t : t ∈ T -> ∃ ys, F !! t_queues t = Some (false, ys);
  ag_nodup q : NoDup (mem F q);
  ag_threads q t : q ∈ Qs -> t ∈ mem F q -> t ∈ T;
  ag_queues q t : t ∈ T -> q ∈ mem F (t_queues t) -> q ∈ Qs;
  ag_iff q t : q ∈ Qs -> t ∈ T -> t ∈ mem F q <-> q ∈ mem F (t_queues t);
}.

Lemma mem_insert F q lk xs : mem (<[q := (lk, xs)]> F) q = xs.*2.
Proof. unfold mem. by rewrite lookup_insert_eq. Qed.
Lemma mem_insert_ne F q q' v : q' ≠ q -> mem (<[q := v]> F) q' = mem F q'.
Proof. intros H. unfold mem. by rewrite lookup_insert_ne. Qed.
Lemma mem_some F q lk xs : F !! q = Some (lk, xs) -> mem F q = xs.*2.
Proof. unfold mem. by intros ->. Qed.

Lemma without_none d l : d ∉ l -> without d l = l.
Proof.
  unfold without. induction l as [|x l IH]; intros H; [done|]. rewrite filter_cons, decide_True by set_solver. rewrite IH; [done|set_solver].
Qed.
Lemma remove_without d xs : NoDup xs.*2 -> (remove_data d xs).*2 = without d xs.*2.
Proof.
  induction xs as [|[p x] xs IH]; [done|]. simpl. inversion 1 as [|?? Hn Hd]; subst. unfold without in *. rewrite filter_cons. case_decide as Hx.
  - subst x. rewrite decide_False by tauto. symmetry. by apply without_none.
  - rewrite decide_True by congruence. simpl. f_equal. by apply IH.
Qed.
Lemma elem_of_without x d l : x ∈ without d l <-> x ≠ d ∧ x ∈ l.
Proof. unfold without. by rewrite list_elem_of_filter. Qed.
Lemma without_nodup d l : NoDup l -> NoDup (without d l).
Proof. apply NoDup_filter. Qed.
Lemma without_snoc d l : d ∉ l -> without d (l ++ [d]) = l.
Proof. intros H. unfold without. rewrite filter_app, filter_cons, decide_False by tauto. rewrite app_nil_r. by apply without_none. Qed.

(** Two families with the same lists. *)
Definition same_lists (F F' : fam) : Prop :=
  ∀ q, (λ x, x.2.*2) <$> F' !! q = (λ x, x.2.*2) <$> F !! q.
Lemma same_mem F F' q : same_lists F F' -> mem F' q = mem F q.
Proof. unfold mem. by intros ->. Qed.
Lemma same_refl F : same_lists F F.
Proof. by intros q. Qed.
Lemma same_trans F1 F2 F3 : same_lists F1 F2 -> same_lists F2 F3 -> same_lists F1 F3.
Proof. intros H1 H2 q. by rewrite H2, H1. Qed.
Lemma same_insert F q lk xs lk' xs' : F !! q = Some (lk, xs) -> xs'.*2 = xs.*2 -> same_lists F (<[q := (lk', xs')]> F).
Proof. intros H E q'. destruct (decide (q' = q)) as [->|Hne]; [rewrite lookup_insert_eq, H; simpl; by rewrite E|by rewrite lookup_insert_ne]. Qed.

Lemma agree_same F F' T Qs :
  agree F T Qs -> same_lists F F' -> (∀ t, t ∈ T -> ∃ ys, F' !! t_queues t = Some (false, ys)) -> agree F' T Qs.
Proof.
  intros [] Hs Ho. split; try done.
  - intros q Hq. specialize (Hs q). destruct (ag_queue0 q Hq) as [? E]. rewrite E in Hs. destruct (F' !! q); [done|by simplify_eq/=].
  - intros q. rewrite (same_mem F F') by done. done.
  - intros q t. rewrite (same_mem F F') by done. eauto.
  - intros q t. rewrite (same_mem F F') by done. eauto.
  - intros q t Hq Ht. rewrite !(same_mem F F') by done. eauto.
Qed.

Lemma t_queues_inj t t' : valid_ptr t -> valid_ptr t' -> t_queues t = t_queues t' -> t = t'.
Proof. unfold t_queues, member. lia. Qed.

(** One thread and one queue change. *)
Lemma agree_change F F' T Qs q t :
  agree F T Qs -> q ∈ Qs -> t ∈ T -> (∀ q', q' ≠ q -> q' ≠ t_queues t -> mem F' q' = mem F q') ->
  (∀ q', is_Some (F !! q') -> is_Some (F' !! q')) -> (∀ t, t ∈ T -> ∃ ys, F' !! t_queues t = Some (false, ys)) ->
  NoDup (mem F' q) -> NoDup (mem F' (t_queues t)) ->
  (∀ t', t' ≠ t -> t' ∈ mem F' q <-> t' ∈ mem F q) ->
  (∀ q', q' ≠ q -> q' ∈ mem F' (t_queues t) <-> q' ∈ mem F (t_queues t)) ->
  (t ∈ mem F' q <-> q ∈ mem F' (t_queues t)) -> agree F' T Qs.
Proof.
  intros HA Hq Ht Eo Hd Hown N1 N2 Eq Et Ei. pose proof (ag_valid _ _ _ HA) as Hv. pose proof (ag_name _ _ _ HA) as Hnm.
  assert (∀ t', t' ∈ T -> t' ≠ t -> t_queues t' ≠ t_queues t) as Hinj by (intros t' H1 H2 E; apply H2, (t_queues_inj t' t); auto).
  assert (∀ t', t' ∈ T -> t' ≠ t -> mem F' (t_queues t') = mem F (t_queues t')) as Eo'.
  { intros t' H1 H2. apply Eo; [by apply not_eq_sym, Hnm|by apply Hinj]. }
  assert (∀ q', q' ∈ Qs -> q' ≠ q -> mem F' q' = mem F q') as Eo2 by (intros q' H1 H2; apply Eo; [done|by apply Hnm]).
  destruct HA. split; try done; [auto|..].
  - intros q'. destruct (decide (q' = t_queues t)) as [->|H1]; [done|]. destruct (decide (q' = q)) as [->|H2]; [done|]. by rewrite Eo.
  - intros q' t' Hq' H. destruct (decide (t' = t)) as [->|H1]; [done|]. destruct (decide (q' = q)) as [->|H2]; [apply Eq in H; [eauto|done]|].
    rewrite Eo2 in H by done. eauto.
  - intros q' t' Ht' H. destruct (decide (q' = q)) as [->|H2]; [done|]. destruct (decide (t' = t)) as [->|H1]; [apply Et in H; [eauto|done]|].
    rewrite Eo' in H by done. eauto.
  - intros q' t' Hq' Ht'. destruct (decide (q' = q)) as [->|Hq2], (decide (t' = t)) as [->|Ht2]; [done|..].
    + rewrite Eq, Eo' by done. auto.
    + rewrite Et, Eo2 by done. auto.
    + rewrite Eo2, Eo' by done. auto.
Qed.

Lemma own_insert F T Qs q lk xs t ys :
  agree F T Qs -> q ∈ Qs -> ∀ t', t' ∈ T -> ∃ zs, <[t_queues t := (false, ys)]> (<[q := (lk, xs)]> F) !! t_queues t' = Some (false, zs).
Proof.
  intros HA Hq t' Ht'. destruct (decide (t_queues t' = t_queues t)) as [->|]; [rewrite lookup_insert_eq; by eexists|].
  rewrite lookup_insert_ne by done. rewrite lookup_insert_ne by (by eapply ag_name). by eapply ag_own.
Qed.
Lemma dom_insert2 (F : fam) a v b w q : is_Some (F !! q) -> is_Some (<[a := v]> (<[b := w]> F) !! q).
Proof. intros H. apply lookup_insert_is_Some'. right. apply lookup_insert_is_Some'. by right. Qed.

(** Putting a thread on a queue. *)
Lemma agree_add F T Qs q t p p' (xs ys : list (ptr * ptr)) lk :
  agree F T Qs -> q ∈ Qs -> t ∈ T -> mem F q = xs.*2 -> mem F (t_queues t) = ys.*2 -> t ∉ xs.*2 ->
  agree (<[t_queues t := (false, ys ++ [(p', q)])]> (<[q := (lk, xs ++ [(p, t)])]> F)) T Qs.
Proof.
  intros HA Hq Ht Hx Hy Hn. pose proof (ag_name _ _ _ HA q t Hq Ht) as Hne. pose proof (ag_nodup _ _ _ HA) as Hnd.
  assert (q ∉ ys.*2) as Hn'. { rewrite <- Hy. intros H. apply Hn. rewrite <- Hx. by apply (ag_iff _ _ _ HA). }
  pose proof (Hnd q) as N1. pose proof (Hnd (t_queues t)) as N2. rewrite Hx in N1. rewrite Hy in N2.
  assert (∀ (a : ptr) l, a ∉ l -> NoDup l -> NoDup (l ++ [a])) as Hsn.
  { intros a l H1 H2. apply NoDup_app. split; [done|]. split; [|apply NoDup_singleton]. by intros x H ->%list_elem_of_singleton. }
  eapply (agree_change F _ T Qs q t); [done|done|done|intros; by rewrite !mem_insert_ne|intros; by apply dom_insert2|by eapply own_insert|..];
    rewrite ?(mem_insert_ne _ _ q), ?mem_insert, ?fmap_app by done; simpl; [by apply Hsn|by apply Hsn|..].
  - intros t' H. rewrite Hx. set_solver.
  - intros q' H. rewrite Hy. set_solver.
  - set_solver.
Qed.

(** Taking it off. *)
Lemma agree_remove F T Qs q t (xs ys xs' ys' : list (ptr * ptr)) lk :
  agree F T Qs -> q ∈ Qs -> t ∈ T -> mem F q = xs.*2 -> mem F (t_queues t) = ys.*2 ->
  xs'.*2 = without t xs.*2 -> ys'.*2 = without q ys.*2 ->
  agree (<[t_queues t := (false, ys')]> (<[q := (lk, xs')]> F)) T Qs.
Proof.
  intros HA Hq Ht Hx Hy Hx' Hy'. pose proof (ag_name _ _ _ HA q t Hq Ht) as Hne. pose proof (ag_nodup _ _ _ HA) as Hnd.
  pose proof (Hnd q) as N1. pose proof (Hnd (t_queues t)) as N2. rewrite Hx in N1. rewrite Hy in N2.
  eapply (agree_change F _ T Qs q t); [done|done|done|intros; by rewrite !mem_insert_ne|intros; by apply dom_insert2|by eapply own_insert|..];
    rewrite ?(mem_insert_ne _ _ q), ?mem_insert, ?Hx', ?Hy' by done; [by apply without_nodup|by apply without_nodup|..].
  - intros t' H. rewrite Hx, elem_of_without. tauto.
  - intros q' H. rewrite Hy, elem_of_without. tauto.
  - rewrite !elem_of_without. tauto.
Qed.

(** ** Moving threads between queues *)

(** The lock of a queue. *)
Definition lkd (F : fam) (q : ptr) : option bool := fst <$> F !! q.
Lemma lkd_mem F q lk : lkd F q = Some lk -> ∃ xs, F !! q = Some (lk, xs) ∧ mem F q = xs.*2.
Proof. unfold lkd. destruct (F !! q) as [[b xs]|] eqn:E; intros [= <-]. exists xs. split; [done|]. by eapply mem_some. Qed.

Definition same_else (F F' : fam) (q t : ptr) : Prop := ∀ x, x ≠ q -> x ≠ t_queues t -> F' !! x = F !! x.
Record put_on (F F' : fam) (q t : ptr) : Prop := {
  po_q : mem F' q = mem F q ++ [t];
  po_t : mem F' (t_queues t) = mem F (t_queues t) ++ [q];
  po_lock : lkd F' q = lkd F q;
  po_rest : same_else F F' q t;
}.
Record taken_off (F F' : fam) (q t : ptr) : Prop := {
  to_q : mem F' q = without t (mem F q);
  to_nodes lk xs : F !! q = Some (lk, xs) -> F' !! q = Some (lk, remove_data t xs);
  to_t : mem F' (t_queues t) = without q (mem F (t_queues t));
  to_lock : lkd F' q = lkd F q;
  to_rest : same_else F F' q t;
}.

Lemma remove_data_snoc d p (xs : list (ptr * ptr)) : d ∉ xs.*2 -> remove_data d (xs ++ [(p, d)]) = xs.
Proof.
  induction xs as [|[p' x] xs IH]; simpl; intros H; [by rewrite decide_True|]. rewrite decide_False by set_solver. rewrite IH; [done|set_solver].
Qed.

Section moves.
Context {KM : Kmalloc} {MC : Machine} {N : nat} (Hroom : ∀ n D, km_choose n D = None -> (N <= size D)%nat).
Implicit Types (s : sys) (F : fam) (q t : ptr).

Lemma wp_on_q {A} (c : M dsheap A) s h (Q : A -> sys -> Prop) : wp c h (λ a h', Q a (k_set_ds h' s)) -> wp (on_q c) (k_set_ds h s) Q.
Proof. intros H. by apply wp_zoom. Qed.
Lemma k_ds_id s : k_set_ds (k_ds s) s = s.
Proof. by destruct s. Qed.

(** Both queues are unlocked at the end. *)
Lemma wp_unlock2 {A} s h F q t xs ys (r : A) (Q : A -> sys -> Prop) :
  fam_ok h F -> q ≠ t_queues t -> F !! q = Some (true, xs) -> F !! t_queues t = Some (true, ys) ->
  (∀ h', fam_ok h' (<[q := (false, xs)]> (<[t_queues t := (false, ys)]> F)) -> (load_of h' <= load_of h)%nat -> Q r (k_set_ds h' s)) ->
  wp (on_q (queue_unlock (t_queues t));; on_q (queue_unlock q);; mret r) (k_set_ds h s) Q.
Proof.
  intros HF Hne Hq Ht HQ. wp_step. apply wp_on_q. eapply wpf_unlock; [exact HF|done|]. intros h3 HF3 L3.
  wp_step. apply wp_on_q. eapply wpf_unlock; [exact HF3|by map_norm|]. intros h4 HF4 L4. wp_step. apply HQ; [done|lia].
Qed.

Lemma wp_thread_enqueue s h F T Qs q t (Q : Z * ptr -> sys -> Prop) :
  fam_ok h F -> agree F T Qs -> q ∈ Qs -> t ∈ T -> lkd F q = Some false ->
  (t ∈ mem F q -> ∀ h', fam_ok h' F -> (load_of h' <= load_of h)%nat -> Q (- EEXIST, NULL) (k_set_ds h' s)) ->
  (t ∉ mem F q -> (N <= S (load_of h))%nat -> ∀ h', fam_ok h' F -> Q (- ENOMEM, NULL) (k_set_ds h' s)) ->
  (t ∉ mem F q -> ∀ p h' F', fam_ok h' F' -> agree F' T Qs -> put_on F F' q t -> (load_of h' <= 2 + load_of h)%nat -> Q (0, p) (k_set_ds h' s)) ->
  wp (thread_enqueue q t) (k_set_ds h s) Q.
Proof.
  intros HF HA Hq Ht Hlk HE HM HO. destruct (lkd_mem _ _ _ Hlk) as (xs & Hx & Ex). destruct (ag_own _ _ _ HA t Ht) as (ys & Hy). pose proof (mem_some _ _ _ _ Hy) as Ey.
  pose proof (ag_name _ _ _ HA q t Hq Ht) as Hne. rewrite Ex in *. unfold thread_enqueue. rewrite decide_False by (by apply valid_ptr_nonnull, (ag_valid _ _ _ HA)).
  wp_step. apply wp_on_q. eapply wpf_lock; [exact HF|done|]. intros h1 HF1 L1.
  wp_step. apply wp_on_q. eapply wpf_lock; [exact HF1|by rewrite lookup_insert_ne|]. intros h2 HF2 L2.
  wp_step. apply wp_on_q. eapply (wpf_enqueue Hroom); [exact HF2|by map_norm|..].
  - intros Hin. rewrite decide_True by done. eapply wp_unlock2; [exact HF2|done|by map_norm|by map_norm|]. intros h3 HF3 L3. apply HE; [done| |lia].
    replace F with (<[q := (false, xs)]> (<[t_queues t := (false, ys)]> (<[t_queues t := (true, ys)]> (<[q := (true, xs)]> F)))); [done|map_ext].
  - intros Hin HN h3 HF3 L3. rewrite decide_True by done. eapply wp_unlock2; [exact HF3|done|by map_norm|by map_norm|]. intros h4 HF4 L4. apply HM; [done|lia|].
    replace F with (<[q := (false, xs)]> (<[t_queues t := (false, ys)]> (<[t_queues t := (true, ys)]> (<[q := (true, xs)]> F)))); [done|map_ext].
  - intros p h3 Hin HF3 L3. rewrite decide_False by tauto. wp_step. apply wp_on_q.
    assert (q ∉ ys.*2) as Hin'. { rewrite <- Ey. intros H. apply Hin. rewrite <- Ex. by apply (ag_iff _ _ _ HA). }
    eapply (wpf_enqueue Hroom); [exact HF3|by map_norm|done|..].
    + intros _ HN h4 HF4 L4. rewrite decide_True by done. wp_step. apply wp_on_q. eapply wpf_remove; [exact HF4|by map_norm|intros H; by rewrite fmap_app in H; set_solver|].
      intros h5 _ HF5 L5. rewrite remove_data_snoc in HF5 by done. eapply wp_unlock2; [exact HF5|done|by map_norm|by map_norm|]. intros h6 HF6 L6. apply HM; [done|lia|].
      match type of HF6 with fam_ok _ ?G => replace G with F in HF6; [done|symmetry; map_ext] end.
    + intros p' h4 _ HF4 L4. rewrite decide_False by tauto. eapply wp_unlock2; [exact HF4|done|by map_norm|by map_norm|]. intros h5 HF5 L5.
      apply (HO Hin _ h5 (<[t_queues t := (false, ys ++ [(p', q)])]> (<[q := (false, xs ++ [(p, t)])]> F))).
      * match type of HF5 with fam_ok _ ?G => match goal with |- fam_ok _ ?G' => replace G' with G; [done|map_ext] end end.
      * by eapply agree_add.
      * split; [by rewrite mem_insert_ne, mem_insert, Ex, fmap_app by done|by rewrite mem_insert, Ey, fmap_app|unfold lkd; map_norm; by rewrite Hx|].
        intros x H1 H2. by map_norm.
      * lia.
Qed.

Lemma wp_thread_remove s h F T Qs q t v (Q : Z -> sys -> Prop) :
  fam_ok h F -> agree F T Qs -> q ∈ Qs -> t ∈ T -> lkd F q = Some true -> k_threads s !! t = Some v -> t_lock v = true ->
  (t ∉ mem F q -> ∀ h', fam_ok h' F -> (load_of h' <= load_of h)%nat -> Q (- ENOENT) (k_set_ds h' s)) ->
  (t ∈ mem F q -> ∀ h' F', fam_ok h' F' -> agree F' T Qs -> taken_off F F' q t -> (2 + load_of h' <= load_of h)%nat -> Q 0 (k_set_ds h' s)) ->
  wp (thread_remove_queue t q) (k_set_ds h s) Q.
Proof.
  intros HF HA Hq Ht Hlk Hv Htl HE HO. destruct (lkd_mem _ _ _ Hlk) as (xs & Hx & Ex). destruct (ag_own _ _ _ HA t Ht) as (ys & Hy). pose proof (mem_some _ _ _ _ Hy) as Ey.
  pose proof (ag_name _ _ _ HA q t Hq Ht) as Hne. pose proof (valid_ptr_nonnull _ (ag_valid _ _ _ HA t Ht)) as Htn.
  pose proof (ag_iff _ _ _ HA q t Hq Ht) as Hiff. rewrite Ex, Ey in Hiff. rewrite Ex in *.
  unfold thread_remove_queue. wp_step. apply wp_on_q. eapply wpf_assert_locked; [exact HF|done|].
  wp_step. apply (wp_obj_assert_locked _ _ v); [done..|]. wp_step. apply wp_on_q. eapply wpf_lock; [exact HF|done|]. intros h1 HF1 L1.
  wp_step. apply wp_on_q. eapply wpf_remove; [exact HF1|by map_norm|..].
  - intros Hn. wp_step. apply wp_on_q. eapply wpf_unlock; [exact HF1|by map_norm|]. intros h2 HF2 L2. rewrite decide_True by done. wp_step. apply HE; [tauto| |lia].
    match type of HF2 with fam_ok _ ?G => replace G with F in HF2; [done|symmetry; map_ext] end.
  - intros h2 Hin HF2 L2. wp_step. apply wp_on_q. eapply wpf_unlock; [exact HF2|by map_norm|]. intros h3 HF3 L3. rewrite decide_False by tauto.
    apply wp_on_q. eapply wpf_remove; [exact HF3|by map_norm|tauto|]. intros h4 _ HF4 L4. pose proof (ag_nodup _ _ _ HA) as Hnd.
    assert ((remove_data t xs).*2 = without t xs.*2) as R1 by (apply remove_without; rewrite <- Ex; apply Hnd).
    assert ((remove_data q ys).*2 = without q ys.*2) as R2 by (apply remove_without; rewrite <- Ey; apply Hnd).
    apply (HO ltac:(tauto) h4 (<[t_queues t := (false, remove_data q ys)]> (<[q := (true, remove_data t xs)]> F))).
    + match type of HF4 with fam_ok _ ?G => match goal with |- fam_ok _ ?G' => replace G' with G; [done|map_ext] end end.
    + by eapply agree_remove.
    + split; [by rewrite mem_insert_ne, mem_insert, Ex, R1 by done|intros; map_norm; by simplify_eq|by rewrite mem_insert, Ey, R2|unfold lkd; map_norm; by rewrite Hx|].
      intros x H1 H2. by map_norm.
    + lia.
Qed.
End moves.

(** ** One thread *)

(** A state given by its queues and its threads. *)
Definition kt (s : sys) (h : dsheap) (m : gmap ptr thread_t) : sys := k_set_ds h (k_set_threads m s).
Lemma kt_id s : kt s (k_ds s) (k_threads s) = s.
Proof. by destruct s. Qed.

Section one_thread.
Context {KM : Kmalloc} {MC : Machine}.
Implicit Types (s : sys) (h : dsheap) (m : gmap ptr thread_t) (t : ptr) (v : thread_t).

Lemma wp_kt_q {A} (c : M dsheap A) s h m (Q : A -> sys -> Prop) : wp c h (λ a h', Q a (kt s h' m)) -> wp (on_q c) (kt s h m) Q.
Proof. apply wp_on_q. Qed.
Lemma wp_current s h m (Q : ptr -> sys -> Prop) : Q (k_current s) (kt s h m) -> wp current (kt s h m) Q.
Proof. intros H. by apply wp_gets. Qed.

Section live.
Context s h m t v (Ht : t ≠ NULL) (Hv : m !! t = Some v).
Lemma wp_tload (Q : thread_t -> sys -> Prop) : Q v (kt s h m) -> wp (load (V := thread_t) t) (kt s h m) Q.
Proof. intros H. by eapply wp_load. Qed.
Lemma wp_tupd f (Q : unit -> sys -> Prop) : Q tt (kt s h (<[t := f v]> m)) -> wp (update t f) (kt s h m) Q.
Proof. intros H. by eapply wp_update. Qed.
Lemma wp_tlock (Q : unit -> sys -> Prop) : t_lock v = false -> Q tt (kt s h (<[t := t_set_lock true v]> m)) -> wp (thread_lock t) (kt s h m) Q.
Proof. intros Hl H. by eapply wp_obj_lock. Qed.
Lemma wp_tunlock (Q : unit -> sys -> Prop) : t_lock v = true -> Q tt (kt s h (<[t := t_set_lock false v]> m)) -> wp (thread_unlock t) (kt s h m) Q.
Proof. intros Hl H. by eapply wp_obj_unlock. Qed.
Lemma wp_tislocked (Q : bool -> sys -> Prop) : Q (t_lock v) (kt s h m) -> wp (thread_islocked t) (kt s h m) Q.
Proof. intros H. by eapply wp_obj_islocked. Qed.

Context (Hl : t_lock v = true).
Lemma wp_tassert (Q : unit -> sys -> Prop) : Q tt (kt s h m) -> wp (thread_assert_locked t) (kt s h m) Q.
Proof. intros H. by eapply wp_obj_assert_locked. Qed.
Lemma wp_getstate (Q : tstate_t -> sys -> Prop) : Q (t_state v) (kt s h m) -> wp (thread_getstate t) (kt s h m) Q.
Proof. intros H. unfold thread_getstate. wp_step. apply wp_tassert. wp_step. apply wp_tload. by wp_step. Qed.
Lemma wp_isstate st (Q : bool -> sys -> Prop) : Q (bool_decide (t_state v = st)) (kt s h m) -> wp (thread_isstate t st) (kt s h m) Q.
Proof. intros H. unfold thread_isstate. wp_step. apply wp_getstate. by wp_step. Qed.
Lemma wp_enter st (Q : unit -> sys -> Prop) : Q tt (kt s h (<[t := t_set_state st v]> m)) -> wp (thread_enter_state t st) (kt s h m) Q.
Proof. intros H. unfold thread_enter_state. wp_step. apply wp_tassert. by apply wp_tupd. Qed.
Lemma wp_ttest fl (Q : bool -> sys -> Prop) : Q (has (t_flags v) fl) (kt s h m) -> wp (thread_testflags t fl) (kt s h m) Q.
Proof. intros H. unfold thread_testflags. wp_step. apply wp_tassert. wp_step. apply wp_tload. by wp_step. Qed.
Lemma wp_setflags fl (Q : unit -> sys -> Prop) : Q tt (kt s h (<[t := t_set_flags (Z.lor (t_flags v) fl) v]> m)) -> wp (thread_setflags t fl) (kt s h m) Q.
Proof. intros H. unfold thread_setflags. wp_step. apply wp_tassert. by apply wp_tupd. Qed.
Lemma wp_maskflags fl (Q : unit -> sys -> Prop) : Q tt (kt s h (<[t := t_set_flags (Z.ldiff (t_flags v) fl) v]> m)) -> wp (thread_maskflags t fl) (kt s h m) Q.
Proof. intros H. unfold thread_maskflags. wp_step. apply wp_tassert. by apply wp_tupd. Qed.
Lemma wp_isset fl (Q : bool -> sys -> Prop) : Q (has (t_flags v) fl) (kt s h m) -> wp (thread_isset t fl) (kt s h m) Q.
Proof.
  intros H. unfold thread_isset. wp_step. apply wp_tislocked. rewrite Hl. cbn [negb when]. wp_step. apply wp_ret. wp_step. apply wp_ttest.
  wp_step. apply wp_ret. by wp_step.
Qed.
End live.

Lemma wp_thread_dequeue s h m F T Qs q (Q : ptr -> sys -> Prop) :
  fam_ok h F -> agree F T Qs -> q ∈ Qs -> lkd F q = Some true ->
  (mem F q = [] -> Q NULL (kt s h m)) ->
  (∀ t l, mem F q = t :: l -> ∃ v, m !! t = Some v ∧ t_lock v = false ∧
     ∀ h' F', fam_ok h' F' -> agree F' T Qs -> taken_off F F' q t -> mem F' q = l -> (2 + load_of h' <= load_of h)%nat ->
       Q t (kt s h' (<[t := t_set_lock true v]> m))) ->
  wp (thread_dequeue q) (kt s h m) Q.
Proof.
  intros HF HA Hq Hlk HE HO. destruct (lkd_mem _ _ _ Hlk) as (xs & Hx & Ex). rewrite Ex in *. unfold thread_dequeue.
  destruct (HF _ _ _ Hx) as (Hqn & _). wp_step. apply wp_assert; [by apply bool_decide_eq_true|].
  wp_step. apply wp_kt_q. eapply wpf_assert_locked; [exact HF|done|]. wp_step. apply wp_kt_q. eapply wpf_dequeue; [exact HF|done|..].
  - intros ->. rewrite decide_True by done. wp_step. by apply HE.
  - intros p t ys' h1 -> HF1 L1. rewrite decide_False by tauto. cbn [default]. simpl in HO. destruct (HO t ys'.*2 eq_refl) as (v & Hv & Hvl & HQ).
    assert (t ∈ T) as Ht by (apply (ag_threads _ _ _ HA q); [done|rewrite Ex; simpl; set_solver]).
    pose proof (valid_ptr_nonnull _ (ag_valid _ _ _ HA t Ht)) as Htn. pose proof (ag_name _ _ _ HA q t Hq Ht) as Hne.
    destruct (ag_own _ _ _ HA t Ht) as (ys & Hy). pose proof (mem_some _ _ _ _ Hy) as Ey. pose proof (ag_nodup _ _ _ HA) as Hnd.
    assert (q ∈ ys.*2) as Hin. { rewrite <- Ey. apply (ag_iff _ _ _ HA q t Hq Ht). rewrite Ex. simpl. set_solver. }
    wp_step. apply (wp_tlock _ _ _ _ v); [done..|]. wp_step. apply wp_kt_q. eapply wpf_lock; [exact HF1|by map_norm|]. intros h2 HF2 L2.
    wp_step. apply wp_kt_q. eapply wpf_remove; [exact HF2|by map_norm|by intros ?|]. intros h3 _ HF3 L3. rewrite decide_False by tauto.
    wp_step. apply wp_kt_q. eapply wpf_unlock; [exact HF3|by map_norm|]. intros h4 HF4 L4. wp_step.
    assert ((remove_data q ys).*2 = without q ys.*2) as R2 by (apply remove_without; rewrite <- Ey; apply Hnd).
    assert (ys'.*2 = without t (t :: ys'.*2)) as R1.
    { specialize (Hnd q). rewrite Ex in Hnd. simpl in Hnd. inversion Hnd; subst. unfold without. rewrite filter_cons, decide_False by tauto. symmetry. by apply without_none. }
    apply (HQ h4 (<[t_queues t := (false, remove_data q ys)]> (<[q := (true, ys')]> F))).
    + match type of HF4 with fam_ok _ ?G => match goal with |- fam_ok _ ?G' => replace G' with G; [done|map_ext] end end.
    + eapply agree_remove; [done|done|done|exact Ex|exact Ey|exact R1|exact R2].
    + split; [rewrite mem_insert_ne, mem_insert, Ex by done; exact R1|intros; map_norm; simplify_eq; simpl; by rewrite decide_True|by rewrite mem_insert, Ey, R2|unfold lkd; map_norm; by rewrite Hx|].
      intros x H1 H2. by map_norm.
    + by rewrite mem_insert_ne, mem_insert by done.
    + lia.
Qed.
End one_thread.

(** ** Parking a thread on a run queue *)

Section parking.
Context {KM : Kmalloc} {MC : Machine} {N : nat} (Hroom : ∀ n D, km_choose n D = None -> (N <= size D)%nat).
Implicit Types (s : sys) (h : dsheap) (F : fam) (m : gmap ptr thread_t) (q t : ptr) (v : thread_t).

(** The processors and the static queues: every processor has eight run queues
    of its own in [LQ]; threads sleep on the queues [SQ]. *)
Record layout (K : gmap ptr cpu_t) (LQ SQ Qs : gset ptr) : Prop := {
  ly_level : LQ ⊆ Qs;
  ly_sleep : SQ ⊆ Qs;
  ly_embryo : embryo_queue ∈ Qs;
  ly_zombie : zombie_queue ∈ Qs;
  ly_disj : LQ ## SQ;
  ly_emb : embryo_queue ∉ LQ ∪ SQ;
  ly_zom : zombie_queue ∉ LQ ∪ SQ;
  ly_ez : embryo_queue ≠ zombie_queue;
  ly_cpu : cpu ≠ NULL ∧ is_Some (K !! cpu);
  ly_cpus core : cpus core = NULL ∨ is_Some (K !! cpus core);
  ly_levels P c : K !! P = Some c -> length (queueq c) = 8%nat ∧ ∀ l, l ∈ queueq c -> level_queue l ∈ LQ;
  ly_null : K !! NULL = None;
  ly_nodup P c : K !! P = Some c -> NoDup (level_queue <$> queueq c);
}.

(** The run queue of a thread on processor [P]. *)
Definition run_queue (K : gmap ptr cpu_t) (P prio : Z) : option ptr :=
  c ← K !! P; level_queue <$> queueq c !! Z.to_nat (SCHED_LEVEL prio).
(** What a thread needs for [sched_park]. *)
Definition parkable (K : gmap ptr cpu_t) v : Prop :=
  0 <= ts_priority v <= 255 ∧ (ts_processor v = NULL ∨ is_Some (K !! ts_processor v)).
(** [sched_park] settles the processor, once. *)
Definition settled v v' : Prop := ∃ P X, v' = t_set_processor P (t_set_cpu_set X v) ∧ (ts_processor v ≠ NULL -> P = ts_processor v).

Lemma sched_level_range p : 0 <= p <= 255 -> 0 <= SCHED_LEVEL p <= 7.
Proof.
  intros H. unfold SCHED_LEVEL, SCHED_LOWEST_PRIORITY, NLEVELS. change ((255 + 1) `quot` 8) with 32. rewrite Z.quot_div_nonneg by lia.
  split; [apply Z.div_pos; lia|]. pose proof (Z.div_le_mono p 255 32 ltac:(lia) ltac:(lia)) as E. change (255 `div` 32) with 7 in E. lia.
Qed.

Lemma wp_sched_park s h m F LQ SQ Qs t v (Q : Z -> sys -> Prop) :
  fam_ok h F -> agree F (dom m) Qs -> layout (k_cpus s) LQ SQ Qs -> (∀ q, q ∈ LQ -> lkd F q = Some false ∧ t ∉ mem F q) ->
  m !! t = Some v -> t_lock v = true -> t_state v ≠ T_EMBRYO -> parkable (k_cpus s) v -> (2 + load_of h <= N)%nat ->
  (∀ q v' h' F', settled v v' -> ts_processor v' ≠ NULL -> q ∈ LQ -> run_queue (k_cpus s) (ts_processor v') (ts_priority v) = Some q ->
     fam_ok h' F' -> agree F' (dom m) Qs -> put_on F F' q t -> (load_of h' <= 2 + load_of h)%nat -> Q 0 (kt s h' (<[t := v']> m))) ->
  wp (sched_park t) (kt s h m) Q.
Proof.
  intros HF HA HL Hlq Hv Hl Hst [Hpr Hproc] HN HQ. assert (t ∈ dom m) as Htd by (apply elem_of_dom; by eexists).
  pose proof (valid_ptr_nonnull _ (ag_valid _ _ _ HA t Htd)) as Ht. unfold sched_park. rewrite decide_False by done.
  wp_step. apply (wp_tassert _ _ _ _ v); [done..|]. wp_step. apply (wp_isstate _ _ _ _ v); [done..|]. rewrite bool_decide_eq_false_2 by done.
  wp_step. apply (wp_tload _ _ _ _ v); [done..|]. wp_step.
  match goal with |- wp ?c _ ?R => enough (∀ X core, R core (kt s h (<[t := t_set_cpu_set X v]> m))) as Hcore end.
  { assert (∀ core, (λ _ : Z, True) core -> kt s h m = kt s h (<[t := t_set_cpu_set (ts_cpu_set v) v]> m)) as Hid.
    { intros _ _. f_equal. symmetry. apply insert_id. rewrite Hv. by destruct v. }
    destruct (decide (ts_affinity_type v = HARD_AFFINITY)); [destruct (affine_core _) as [x|]|];
      [apply wp_ret; rewrite (Hid 0 I); apply Hcore|apply wp_bind, (wp_tupd _ _ _ _ v); [done..|]; apply wp_ret, Hcore|apply wp_ret; rewrite (Hid 0 I); apply Hcore]. }
  intros X core. cbv beta zeta. set (v1 := t_set_cpu_set X v).
  set (P := if decide (_ = NULL) then cpu else _).
  assert (P ≠ NULL ∧ is_Some (k_cpus s !! P)) as [HP [c Hc]].
  { destruct (ly_cpu _ _ _ _ HL). unfold P. case_decide as E1; [done|]. case_decide as E2; [split; [done|by destruct Hproc]|].
    split; [done|]. by destruct (ly_cpus _ _ _ _ HL core). }
  destruct (ly_levels _ _ _ _ HL P c Hc) as [H8 Hin]. pose proof (sched_level_range _ Hpr) as Hlev.
  destruct (lookup_lt_is_Some_2 (queueq c) (Z.to_nat (SCHED_LEVEL (ts_priority v)))) as [l El]; [lia|].
  wp_step. apply (wp_tupd _ _ _ _ v1); [done|by rewrite lookup_insert_eq|]. rewrite insert_insert_eq. wp_step. eapply wp_load; [done|exact Hc|]. rewrite El.
  assert (level_queue l ∈ LQ) as Hlq' by (by eapply Hin, list_elem_of_lookup_2). destruct (Hlq _ Hlq') as [Hlk Hnm].
  assert (dom (<[t := t_set_processor P v1]> m) = dom m) as Ed by (rewrite dom_insert_L; set_solver).
  wp_step. eapply (wp_thread_enqueue Hroom); [exact HF|exact HA|by apply (ly_level _ _ _ _ HL)|done|done|by intros ?|intros _ HN'; lia|].
  intros _ p h' F' HF' HA' Hpo Hlo. wp_step. eapply HQ; [|done|exact Hlq'| |done|done|done|done].
  { exists P, X. split; [done|]. intros HPn. unfold P. by rewrite (decide_True (P := ts_processor v ≠ NULL)), decide_False by done. }
  unfold run_queue. simpl. rewrite Hc. simpl. by rewrite El.
Qed.
End parking.
