(* ===== verification/SchedInv.v ===== *)
(** * The invariant of the scheduler

    Where every thread is, by its state: a ready thread that does not run is on
    the run queue of its priority on its processor, a sleeping one on its sleep
    queue, and so on; each is on one such queue only. *)

From S2P Require Import Prelude Dll Heap Queue Lock Sched SchedSpec.

(** The queues threads are put on: run queues, sleep queues, all of them; and the
    locks that threads release when they go to sleep. *)
Class Areas := { LQ : gset ptr; SQ : gset ptr; Qs : gset ptr; G : gset ptr }.

Section inv.
Context {KM : Kmalloc} {MC : Machine} {AR : Areas}.
Implicit Types (s : sys) (h : dsheap) (F : fam) (m : gmap ptr thread_t) (q t : ptr) (v : thread_t) (K : gmap ptr cpu_t) (X U : gset ptr).

(** The queues the scheduler uses; a thread may be on others too, such as the
    one of its group. *)
Definition Ss : gset ptr := LQ ∪ SQ ∪ {[embryo_queue; zombie_queue]}.
Definition on F t : list ptr := filter (λ q, q ∈ Ss) (mem F (t_queues t)).

Lemma on_put F F' q t : put_on F F' q t -> q ∈ Ss -> on F' t = on F t ++ [q].
Proof. intros H Hq. unfold on. rewrite (po_t _ _ _ _ H), filter_app. f_equal. by rewrite filter_cons, decide_True by done. Qed.
Lemma on_take F F' q t : taken_off F F' q t -> on F' t = without q (on F t).
Proof.
  intros H. unfold on. rewrite (to_t _ _ _ _ H). unfold without. induction (mem F (t_queues t)) as [|x l IH]; [done|].
  rewrite (filter_cons (λ y, y ≠ q) x l), (filter_cons (λ y, y ∈ Ss) x l). destruct (decide (x ≠ q)) as [H1|H1], (decide (x ∈ Ss)) as [H2|H2];
    rewrite ?filter_cons; [rewrite !decide_True by done|rewrite decide_False by done|rewrite decide_False by done|]; by rewrite IH.
Qed.
Lemma on_else F F' T q t t' : agree F T Qs -> same_else F F' q t -> q ∈ Qs -> t ∈ T -> t' ∈ T -> t' ≠ t -> on F' t' = on F t'.
Proof.
  intros HA Hs Hq Ht Ht' Hne. unfold on, mem. rewrite Hs; [done|by apply not_eq_sym, (ag_name _ _ _ HA)|].
  intros E. apply Hne. apply (t_queues_inj t' t); [by apply (ag_valid _ _ _ HA)..|done].
Qed.
Lemma on_mem F T q t : agree F T Qs -> q ∈ Qs -> q ∈ Ss -> t ∈ T -> t ∈ mem F q <-> q ∈ on F t.
Proof. intros HA Hq Hs Ht. unfold on. rewrite list_elem_of_filter. rewrite (ag_iff _ _ _ HA q t) by done. tauto. Qed.

(** What holds of a thread at any time. *)
Record good K v : Prop := {
  gd_park : parkable K v;
  gd_guard : t_sleep_guard v = NULL ∨ t_sleep_guard v ∈ G;
  gd_det : has (t_flags v) THREAD_DETACHED = false;
  gd_par : has (t_flags v) THREAD_PARK = false;
  gd_space : t_mmap v = NULL ∨ mmap_guard (t_mmap v) ∈ G ∧ t_kstack v <= t_rsvd v;
}.
(** Where a thread is; [cur] is the thread the processor runs. *)
Definition place K (cur t : ptr) v (l : list ptr) : Prop :=
  match t_state v with
  | T_EMBRYO => (l = [] ∨ l = [embryo_queue]) ∧ t_sleep_queue v = NULL
  | T_READY =>
      if decide (t = cur) then l = [] ∧ t_sleep_queue v = NULL
      else (t_sleep_queue v = NULL ∨ t_sleep_queue v ∈ SQ) ∧ ∃ q, run_queue K (ts_processor v) (ts_priority v) = Some q ∧ l = [q]
  | T_ISLEEP | T_USLEEP | T_STOPPED => t ≠ cur ∧ t_sleep_queue v ∈ SQ ∧ l = [t_sleep_queue v]
  | T_ZOMBIE => l = [zombie_queue]
  | T_RUNNING | T_TERMINATED => False
  end.

(** The invariant but for the threads [X], which the running function has in
    hand, with the queues [U] locked. *)
Record core s h m F X U : Prop := {
  co_fam : fam_ok h F;
  co_agree : agree F (dom m) Qs;
  co_lay : layout (k_cpus s) LQ SQ Qs;
  co_free q : q ∈ Qs -> q ∉ U -> lkd F q = Some false;
  co_held q : q ∈ U -> lkd F q = Some true;
  co_wait t : t ∈ dom m -> t_wait t ∈ SQ;
  co_spin g : g ∈ G -> g ≠ NULL ∧ is_Some (k_spins s !! g);
  co_thread t v : m !! t = Some v -> t ∉ X -> t_lock v = false ∧ good (k_cpus s) v ∧ place (k_cpus s) (k_current s) t v (on F t);
}.

Lemma dom_put m t v : t ∈ dom m -> dom (<[t := v]> m) = dom m.
Proof. intros H. rewrite dom_insert_L. set_solver. Qed.
Lemma Ss_Qs K q : layout K LQ SQ Qs -> q ∈ Ss -> q ∈ Qs.
Proof. intros HL. unfold Ss. destruct HL. set_solver. Qed.
Lemma LQ_Ss q : q ∈ LQ -> q ∈ Ss.
Proof. unfold Ss. set_solver. Qed.
Lemma SQ_Ss q : q ∈ SQ -> q ∈ Ss.
Proof. unfold Ss. set_solver. Qed.
Lemma emb_Ss : embryo_queue ∈ Ss.
Proof. unfold Ss. set_solver. Qed.
Lemma zom_Ss : zombie_queue ∈ Ss.
Proof. unfold Ss. set_solver. Qed.

Lemma core_set s h m F X U t v : core s h m F X U -> t ∈ dom m -> core s h (<[t := v]> m) F (X ∪ {[t]}) U.
Proof.
  intros [] Ht. assert (dom (<[t := v]> m) = dom m) as Ed by (rewrite dom_insert_L; set_solver). split; rewrite ?Ed; try done.
  intros t' v' Hv' Hn. rewrite lookup_insert_ne in Hv' by set_solver. apply co_thread0; [done|set_solver].
Qed.
Lemma core_set_in s h m F X U t v : core s h m F X U -> t ∈ dom m -> t ∈ X -> core s h (<[t := v]> m) F X U.
Proof. intros H Ht Hx. replace X with (X ∪ {[t]}) by set_solver. by apply core_set. Qed.
Lemma core_heap s h h' m F X U : core s h m F X U -> fam_ok h' F -> core s h' m F X U.
Proof. intros []. by split. Qed.
(** A thread is put back. *)
Lemma core_close s h m F X U t v :
  core s h m F (X ∪ {[t]}) U -> m !! t = Some v -> t_lock v = false -> good (k_cpus s) v ->
  place (k_cpus s) (k_current s) t v (on F t) -> core s h m F X U.
Proof.
  intros [] Hv H1 H2 H3. split; try done. intros t' v' Hv' Hn. destruct (decide (t' = t)) as [->|Hne]; [by simplify_eq|].
  apply co_thread0; [done|set_solver].
Qed.
(** A thread in hand moves. *)
Lemma core_move s h h' m F F' X U q t :
  core s h m F X U -> fam_ok h' F' -> agree F' (dom m) Qs -> same_else F F' q t -> lkd F' q = lkd F q -> q ∈ Qs -> t ∈ dom m -> t ∈ X ->
  core s h' m F' X U.
Proof.
  intros HC HF' HA' Hse Hlk Hq Ht Hx. pose proof (co_agree _ _ _ _ _ _ HC) as HA. destruct HC.
  assert (∀ q', q' ∈ Qs -> lkd F' q' = lkd F q') as Elk.
  { intros q' Hq'. destruct (decide (q' = q)) as [->|Hne]; [done|]. unfold lkd. rewrite Hse; [done|done|by apply (ag_name _ _ _ HA)]. }
  split; try done.
  - intros q' Hq' Hn. rewrite Elk by done. auto.
  - intros q' Hu. assert (q' ∈ Qs ∨ q' ∉ Qs) as [Hq'|Hq'] by (destruct (decide (q' ∈ Qs)); auto); [rewrite Elk by done; auto|].
    unfold lkd. rewrite Hse; [by apply co_held0|set_solver|]. intros ->. specialize (co_held0 _ Hu).
    destruct (ag_own _ _ _ HA t Ht) as [ys Ey]. unfold lkd in co_held0. by rewrite Ey in co_held0.
  - intros t' v' Hv' Hn. destruct (co_thread0 t' v' Hv' Hn) as (H1 & H2 & H3). split; [done|]. split; [done|].
    rewrite (on_else F F' (dom m) q t t'); [done|done|done|done|done|apply elem_of_dom; by eexists|set_solver].
Qed.
Lemma core_put s h h' m F F' X U q t :
  core s h m F X U -> fam_ok h' F' -> agree F' (dom m) Qs -> put_on F F' q t -> q ∈ Qs -> t ∈ dom m -> t ∈ X -> core s h' m F' X U.
Proof. intros HC HF HA [_ _ E1 E2]. by eapply core_move. Qed.
Lemma core_take s h h' m F F' X U q t :
  core s h m F X U -> fam_ok h' F' -> agree F' (dom m) Qs -> taken_off F F' q t -> q ∈ Qs -> t ∈ dom m -> t ∈ X -> core s h' m F' X U.
Proof. intros HC HF HA [_ _ _ E1 E2]. by eapply core_move. Qed.

(** Queues are locked and unlocked. *)
Lemma core_relock s h h' m F F' X U U' q lk xs :
  core s h m F X U -> F !! q = Some (negb lk, xs) -> q ∈ Qs -> F' = <[q := (lk, xs)]> F -> fam_ok h' F' ->
  (∀ x, x ≠ q -> x ∈ U' <-> x ∈ U) -> (lk = true <-> q ∈ U') -> core s h' m F' X U' ∧ (∀ x, mem F' x = mem F x).
Proof.
  intros HC Hx Hq EF HF' HU1 HU2. pose proof (co_agree _ _ _ _ _ _ HC) as HA. destruct HC.
  assert (same_lists F F') as Hs by (rewrite EF; by eapply same_insert).
  assert (∀ x, mem F' x = mem F x) as Em by (intros x; by apply same_mem).
  assert (∀ x, x ≠ q -> lkd F' x = lkd F x) as El by (intros x Hne; unfold lkd; rewrite EF; by rewrite lookup_insert_ne).
  assert (lkd F' q = Some lk) as Eq by (unfold lkd; by rewrite EF, lookup_insert_eq).
  split; [|done]. split; try done.
  - eapply agree_same; [done|done|]. intros t Ht. rewrite EF, lookup_insert_ne by (by apply (ag_name _ _ _ HA)). by apply (ag_own _ _ _ HA).
  - intros q' Hq' Hn. destruct (decide (q' = q)) as [->|Hne]; [rewrite Eq; f_equal; destruct lk; [tauto|done]|]. rewrite El by done. apply co_free0; [done|]. by rewrite <- HU1.
  - intros q' Hu. destruct (decide (q' = q)) as [->|Hne]; [rewrite Eq; f_equal; tauto|]. rewrite El by done. apply co_held0. by rewrite <- HU1.
  - intros t v Hv Hn. destruct (co_thread0 t v Hv Hn) as (H1 & H2 & H3). split; [done|]. split; [done|]. unfold on. by rewrite Em.
Qed.

Lemma wp_lockq s h m F X U q (Q : unit -> sys -> Prop) :
  core s h m F X U -> q ∈ Qs -> q ∉ U ->
  (∀ h' F', core s h' m F' X (U ∪ {[q]}) -> (∀ x, mem F' x = mem F x) -> (load_of h' <= load_of h)%nat -> Q tt (kt s h' m)) ->
  wp (on_q (queue_lock q)) (kt s h m) Q.
Proof.
  intros HC Hq Hu HQ. pose proof (co_free _ _ _ _ _ _ HC q Hq Hu) as Hl. destruct (lkd_mem _ _ _ Hl) as (xs & Hx & _).
  apply wp_kt_q. eapply wpf_lock; [apply HC|exact Hx|]. intros h' HF' Hlo.
  destruct (core_relock s h h' m F (<[q := (true, xs)]> F) X U (U ∪ {[q]}) q true xs) as [HC' Em]; [done|done|done|done|done|set_solver|set_solver|]. by apply (HQ h' _ HC').
Qed.
Lemma wp_unlockq s h m F X U q (Q : unit -> sys -> Prop) :
  core s h m F X (U ∪ {[q]}) -> q ∈ Qs -> q ∉ U ->
  (∀ h' F', core s h' m F' X U -> (∀ x, mem F' x = mem F x) -> (load_of h' <= load_of h)%nat -> Q tt (kt s h' m)) ->
  wp (on_q (queue_unlock q)) (kt s h m) Q.
Proof.
  intros HC Hq Hu HQ. pose proof (co_held _ _ _ _ _ _ HC q ltac:(set_solver)) as Hl. destruct (lkd_mem _ _ _ Hl) as (xs & Hx & _).
  apply wp_kt_q. eapply wpf_unlock; [apply HC|exact Hx|]. intros h' HF' Hlo.
  destruct (core_relock s h h' m F (<[q := (false, xs)]> F) X (U ∪ {[q]}) U q false xs) as [HC' Em]; [done|done|done|done|done|set_solver|naive_solver|]. by apply (HQ h' _ HC').
Qed.

(** The first thread of a queue is taken in hand. *)
Lemma wp_take s h m F X U q (Q : ptr -> sys -> Prop) :
  core s h m F X U -> q ∈ Ss -> q ∈ U -> (∀ t, t ∈ X -> t ∉ mem F q) ->
  (mem F q = [] -> Q NULL (kt s h m)) ->
  (∀ t l v h' F', mem F q = t :: l -> m !! t = Some v -> t ∉ X -> good (k_cpus s) v -> place (k_cpus s) (k_current s) t v (on F t) -> q ∈ on F t ->
     core s h' (<[t := t_set_lock true v]> m) F' (X ∪ {[t]}) U -> taken_off F F' q t -> mem F' q = l -> on F' t = without q (on F t) ->
     (2 + load_of h' <= load_of h)%nat -> Q t (kt s h' (<[t := t_set_lock true v]> m))) ->
  wp (thread_dequeue q) (kt s h m) Q.
Proof.
  intros HC Hs Hu HX HE HO. pose proof (co_agree _ _ _ _ _ _ HC) as HA. assert (q ∈ Qs) as Hq by (eapply Ss_Qs; [apply HC|done]).
  eapply wp_thread_dequeue; [apply HC|exact HA|done|by apply HC|done|]. intros t l El.
  assert (t ∈ mem F q) as Hin by (rewrite El; set_solver). assert (t ∈ dom m) as Ht by (by eapply ag_threads).
  assert (t ∉ X) as Hx by (intros H; by apply (HX t H)). apply elem_of_dom in Ht as Ht'. destruct Ht' as [v Hv].
  destruct (co_thread _ _ _ _ _ _ HC t v Hv Hx) as (H1 & H2 & H3). exists v. split; [done|]. split; [done|]. intros h' F' HF' HA' Hto Em Hlo.
  assert (dom (<[t := t_set_lock true v]> m) = dom m) as Ed by (rewrite dom_insert_L; set_solver).
  apply (HO t l v h' F'); try done; [by eapply on_mem| |by apply on_take].
  eapply core_take; [by apply core_set|done|by rewrite Ed|done|done|by rewrite Ed|set_solver].
Qed.
Lemma place_put_lock K cur t v b l : place K cur t (t_set_lock b v) l = place K cur t v l.
Proof. done. Qed.
Lemma good_put_lock K v b : good K v -> good K (t_set_lock b v).
Proof. by intros []. Qed.

(** A woken thread is put back. *)
Lemma core_unlock_thread s h m F X U t v :
  core s h m F (X ∪ {[t]}) U -> m !! t = Some v -> good (k_cpus s) v -> place (k_cpus s) (k_current s) t v (on F t) ->
  core s h (<[t := t_set_lock false v]> m) F X U.
Proof.
  intros HC Hv Hg Hpl. eapply core_close; [eapply core_set_in; [exact HC|apply elem_of_dom; by eexists|set_solver]|by rewrite lookup_insert_eq|done|by apply good_put_lock|done].
Qed.
Definition asleep v : Prop := t_state v = T_ISLEEP ∨ t_state v = T_USLEEP ∨ t_state v = T_STOPPED.
Lemma run_queue_LQ K P p q : layout K LQ SQ Qs -> run_queue K P p = Some q -> q ∈ LQ.
Proof.
  intros HL H. unfold run_queue in H. apply bind_Some in H as (c & Hc & H). apply fmap_Some in H as (l & El & ->).
  destruct (ly_levels _ _ _ _ HL P c Hc) as [_ Hin]. by eapply Hin, list_elem_of_lookup_2.
Qed.
(** A thread on a sleep queue is asleep there. *)
Lemma place_sleepq K cur t v l q : layout K LQ SQ Qs -> place K cur t v l -> q ∈ l -> q ∈ SQ -> l = [q] ∧ asleep v ∧ t_sleep_queue v = q.
Proof.
  intros HL Hpl Hin Hq. pose proof (ly_emb _ _ _ _ HL) as H1. pose proof (ly_zom _ _ _ _ HL) as H2. pose proof (ly_disj _ _ _ _ HL) as H3. unfold place in Hpl. unfold asleep.
  destruct (t_state v) eqn:E; try done.
  1: destruct Hpl as [[->| ->] _]; set_solver.
  1: destruct (decide (t = cur)); [destruct Hpl as [-> _]; set_solver|]; destruct Hpl as (_ & q' & Hr & ->); apply (run_queue_LQ _ _ _ _ HL) in Hr; set_solver.
  4: subst l; set_solver.
  all: destruct Hpl as (_ & _ & ->); apply list_elem_of_singleton in Hin as ->; tauto.
Qed.

(** *** Parking and waking *)

Context {N : nat} (Hroom : ∀ n D, km_choose n D = None -> (N <= size D)%nat).

Lemma settled_good K v v' q : good K v -> settled v v' -> run_queue K (ts_processor v') (ts_priority v) = Some q -> good K v'.
Proof.
  intros [[H1 H2] H3 H4 H5] (P & X & -> & _) Hr. split; try done. split; [done|]. right. simpl in *. unfold run_queue in Hr. by destruct (K !! P).
Qed.
Lemma not_mem_level s h m F X U t : core s h m F X U -> t ∈ dom m -> on F t = [] -> ∀ q, q ∈ LQ -> t ∉ mem F q.
Proof.
  intros HC Ht Ho q Hq Hin. pose proof (LQ_Ss q Hq) as Hs. eapply on_mem in Hin; [|apply HC|eapply Ss_Qs; [apply HC|done]|done|done]. rewrite Ho in Hin. set_solver.
Qed.

Lemma wp_park s h m F X U t v (Q : Z -> sys -> Prop) :
  core s h m F X U -> t ∈ X -> m !! t = Some v -> t_lock v = true -> t_state v ≠ T_EMBRYO -> good (k_cpus s) v -> on F t = [] ->
  U ## LQ -> (2 + load_of h <= N)%nat ->
  (∀ q v' h' F', settled v v' -> q ∈ LQ -> run_queue (k_cpus s) (ts_processor v') (ts_priority v) = Some q -> good (k_cpus s) v' ->
     core s h' (<[t := v']> m) F' X U -> put_on F F' q t -> on F' t = [q] -> (load_of h' <= 2 + load_of h)%nat -> Q 0 (kt s h' (<[t := v']> m))) ->
  wp (sched_park t) (kt s h m) Q.
Proof.
  intros HC Hx Hv Hl Hst Hg Ho Hu HN HQ. assert (t ∈ dom m) as Ht by (apply elem_of_dom; by eexists).
  eapply (wp_sched_park Hroom); [apply HC|apply HC|apply HC| |exact Hv|done|done|by apply Hg|done|].
  { intros q Hq. split; [|by eapply not_mem_level]. apply HC; [by eapply Ss_Qs; [apply HC|apply LQ_Ss]|set_solver]. }
  intros q v' h' F' Hset Hpn Hq Hr HF' HA' Hpo Hlo. pose proof (settled_good _ _ _ _ Hg Hset Hr) as Hg'.
  assert (dom (<[t := v']> m) = dom m) as Ed by (rewrite dom_insert_L; set_solver).
  eapply HQ; try done; [|rewrite (on_put _ _ _ _ Hpo), Ho; [done|by apply LQ_Ss]].
  eapply core_put; [by eapply core_set_in|done|by rewrite Ed|done|by eapply Ss_Qs; [apply HC|apply LQ_Ss]|by rewrite Ed|done].
Qed.

(** The thread after it was woken: ready, on its run queue. *)
Record woken K v v' q : Prop := {
  wo_state : t_state v' = T_READY;
  wo_queue : run_queue K (ts_processor v') (ts_priority v') = Some q;
  wo_lock : t_lock v' = true;
  wo_sleep : t_sleep_queue v' = t_sleep_queue v;
  wo_prio : ts_priority v' = ts_priority v;
  wo_good : good K v';
  wo_flags fl : fl ≠ THREAD_STOP -> Z.land fl THREAD_STOP = 0 -> has (t_flags v') fl = has (t_flags v) fl;
}.

Lemma tflag_ldiff a b c : Z.land b c = 0 -> has (Z.ldiff a c) b = has a b.
Proof.
  intros H. unfold has. replace (Z.land (Z.ldiff a c) b) with (Z.land a b); [done|]. apply Z.bits_inj'. intros n Hn.
  apply (f_equal (λ x, Z.testbit x n)) in H. rewrite Z.land_spec, Z.bits_0 in H. rewrite !Z.land_spec, Z.ldiff_spec.
  by destruct (Z.testbit a n), (Z.testbit b n), (Z.testbit c n).
Qed.

Lemma tflag_lor a b c : Z.land c b = 0 -> has (Z.lor a c) b = has a b.
Proof.
  intros H. unfold has. by rewrite Z.land_lor_distr_l, H, Z.lor_0_r.
Qed.

(** The part of [thread_wake] behind the removal from the sleep queue. *)
Lemma wp_wake_tail s h m F X U t v (Q : Z -> sys -> Prop) :
  core s h m F X U -> t ∈ X -> m !! t = Some v -> t_lock v = true -> asleep v -> good (k_cpus s) v -> on F t = [] -> U ## LQ -> (2 + load_of h <= N)%nat ->
  (∀ q v' h' F', woken (k_cpus s) v v' q -> core s h' (<[t := v']> m) F' X U -> put_on F F' q t -> on F' t = [q] ->
     (load_of h' <= 2 + load_of h)%nat -> Q 0 (kt s h' (<[t := v']> m))) ->
  wp (st ← thread_isstopped t;
      when st (thread_maskflags t THREAD_STOP);;
      if decide (0 ≠ 0) then mret 0 else
      thread_enter_state t T_READY;;
      thread_schedule t) (kt s h m) Q.
Proof.
  intros HC Hx Hv Hl Has Hg Ho Hu HN HQ. assert (t ∈ dom m) as Ht by (apply elem_of_dom; by eexists).
  pose proof (valid_ptr_nonnull _ (ag_valid _ _ _ (co_agree _ _ _ _ _ _ HC) t Ht)) as Htn.
  wp_step. apply (wp_isstate _ _ _ _ v); [done..|]. wp_step.
  match goal with |- wp _ _ ?R => enough (∀ v1, (v1 = v ∨ v1 = t_set_flags (Z.ldiff (t_flags v) THREAD_STOP) v) -> R tt (kt s h (<[t := v1]> m))) as Hf end.
  { case_bool_decide; cbn [when]; [apply (wp_maskflags _ _ _ _ v); [done..|]; apply Hf; by right|]. apply wp_ret.
    replace (kt s h m) with (kt s h (<[t := v]> m)); [apply Hf; by left|]. f_equal. by apply insert_id. }
  intros v1 Hv1. cbv beta. rewrite decide_False by tauto. assert (t_lock v1 = true ∧ good (k_cpus s) v1) as [Hl1 Hg1].
  { destruct Hv1 as [->| ->]; [done|]. destruct Hg. split; [done|]. split; [done|done|simpl; by rewrite tflag_ldiff|simpl; by rewrite tflag_ldiff|done]. }
  wp_step. apply (wp_enter _ _ _ _ v1); [done|by rewrite lookup_insert_eq|done|]. rewrite insert_insert_eq. unfold thread_schedule.
  set (v2 := t_set_state T_READY v1). wp_step. apply (wp_tassert _ _ _ _ v2); [done|by rewrite lookup_insert_eq|done|].
  eapply (wp_park s h _ F X U t v2); [by eapply core_set_in|done|by rewrite lookup_insert_eq|done|done|by destruct Hg1|done|done|done|].
  intros q v' h' F' Hset Hq Hr Hg' HC' Hpo Ho' Hlo. rewrite insert_insert_eq in *. eapply HQ; try done.
  destruct Hset as (P & Y & -> & HP). split; try done; try (by destruct Hv1 as [->| ->]).
  intros fl _ Hfl. simpl. destruct Hv1 as [->| ->]; [done|]. simpl. by apply tflag_ldiff.
Qed.

Lemma core_sys s s' h m F X U :
  k_cpus s' = k_cpus s -> k_current s' = k_current s -> (∀ g, is_Some (k_spins s !! g) -> is_Some (k_spins s' !! g)) -> core s h m F X U -> core s' h m F X U.
Proof. intros E1 E2 E3 []. split; rewrite ?E1, ?E2; try done. intros g Hg. destruct (co_spin0 g Hg). eauto. Qed.
(** A lock of [G] is taken, as by [spin_lock]. *)
Definition spun s g b : sys := k_set_spins (<[g := Spin b]> (k_spins s)) s.
Lemma core_spun s h m F X U g b : core s h m F X U -> core (spun s g b) h m F X U.
Proof. apply core_sys; [done|done|]. intros g' H. simpl. apply lookup_insert_is_Some'. by right. Qed.
Lemma core_unspun s h m F X U g b b' : k_spins s !! g = Some (Spin b) -> core (spun s g b') h m F X U -> core s h m F X U.
Proof.
  intros H. apply core_sys; [done|done|]. intros g' H'. simpl in H'. apply lookup_insert_is_Some' in H' as [<-|]; [by eexists|done].
Qed.
Lemma wp_spin_lock s h m g (Q : unit -> sys -> Prop) :
  g ≠ NULL -> k_spins s !! g = Some (Spin false) -> Q tt (kt (spun s g true) h m) -> wp (spin_lock g) (kt s h m) Q.
Proof. intros H1 H2 HQ. by apply (wp_obj_lock _ _ (Spin false)). Qed.
Lemma wp_spin_unlock s h m g (Q : unit -> sys -> Prop) :
  g ≠ NULL -> k_spins s !! g = Some (Spin true) -> Q tt (kt (spun s g false) h m) -> wp (spin_unlock g) (kt s h m) Q.
Proof. intros H1 H2 HQ. by apply (wp_obj_unlock _ _ (Spin true)). Qed.
Lemma spun_id s g b b' : k_spins s !! g = Some (Spin b) -> spun (spun s g b') g b = s.
Proof. intros H. unfold spun. simpl. rewrite insert_insert_eq, insert_id by done. by destruct s. Qed.
(** [thread_wake] takes the lock a thread released, if it is free. *)
Lemma wp_wake_guard s h m F X U v (C : bool -> M sys Z) (Q : Z -> sys -> Prop) :
  core s h m F X U -> good (k_cpus s) v ->
  (∀ s1 gl, (∀ h m F X U, core s h m F X U <-> core s1 h m F X U) -> k_cpus s1 = k_cpus s -> k_current s1 = k_current s ->
     (∀ h' m' (R : unit -> sys -> Prop), R tt (kt s h' m') ->
        wp (when (bool_decide (t_sleep_guard v ≠ NULL) && gl) (spin_unlock (t_sleep_guard v))) (kt s1 h' m') R) -> wp (C gl) (kt s1 h m) Q) ->
  wp (gl ← (if decide (t_sleep_guard v ≠ NULL) then
              l ← spin_islocked (t_sleep_guard v); when (negb l) (spin_lock (t_sleep_guard v));; mret (negb l)
            else mret false); C gl) (kt s h m) Q.
Proof.
  intros HC Hg HQ. assert (∀ gl, (bool_decide (t_sleep_guard v ≠ NULL) && gl) = false -> wp (C gl) (kt s h m) Q) as Hno.
  { intros gl E. apply HQ; try done. intros h' m' R HR. rewrite E. by apply wp_ret. }
  destruct (decide (t_sleep_guard v ≠ NULL)) as [Hn|Hn]; [|wp_step; apply wp_ret, Hno, andb_false_r].
  destruct (gd_guard _ _ Hg) as [|HG]; [done|]. destruct (co_spin _ _ _ _ _ _ HC _ HG) as [_ [[b] Hb]]. set (g := t_sleep_guard v) in *.
  wp_step. wp_step. eapply (wp_obj_islocked _ _ (Spin b)); [done|done|]. destruct b; cbn [lk_held lockable_spin sp_held negb when].
  - wp_step. apply wp_ret. wp_step. apply Hno, andb_false_r.
  - wp_step. apply wp_spin_lock; [done|done|]. wp_step. apply HQ; try done.
    + intros. split; [apply core_spun|by eapply core_unspun].
    + intros h' m' R HR. rewrite bool_decide_eq_true_2 by done. cbn [andb when]. apply wp_spin_unlock; [done|simpl; by rewrite lookup_insert_eq|]. by rewrite (spun_id _ _ false).
Qed.

Lemma core_t_null s h m F X U t v : core s h m F X U -> m !! t = Some v -> t ≠ NULL.
Proof. intros HC Hv. apply valid_ptr_nonnull, (ag_valid _ _ _ (co_agree _ _ _ _ _ _ HC)), elem_of_dom. by eexists. Qed.
Lemma core_q_null s h m F X U q : core s h m F X U -> q ∈ Qs -> q ≠ NULL.
Proof.
  intros HC Hq. destruct (ag_queue _ _ _ (co_agree _ _ _ _ _ _ HC) q Hq) as [[lk xs] E]. by destruct (co_fam _ _ _ _ _ _ HC _ _ _ E).
Qed.
Lemma sleepq_level s h m F X U : core s h m F X U -> U ⊆ SQ -> U ## LQ.
Proof. intros HC Hu. pose proof (ly_disj _ _ _ _ (co_lay _ _ _ _ _ _ HC)). set_solver. Qed.

(** The removal from the sleep queue, which [thread_wake] locks when it is free. *)
Lemma wp_wake_remove s h m F X U t v q (C : Z -> M sys Z) (Q : Z -> sys -> Prop) :
  core s h m F X U -> t ∈ X -> m !! t = Some v -> t_lock v = true -> q ∈ SQ ->
  (t ∉ mem F q -> ∀ h' F', core s h' m F' X U -> (∀ x, mem F' x = mem F x) -> (load_of h' <= load_of h)%nat -> wp (C (- ENOENT)) (kt s h' m) Q) ->
  (t ∈ mem F q -> ∀ h' F', core s h' m F' X U -> mem F' q = without t (mem F q) -> (∀ x, x ≠ q -> x ≠ t_queues t -> mem F' x = mem F x) ->
     on F' t = without q (on F t) -> (2 + load_of h' <= load_of h)%nat ->
     (q ∈ U -> ∀ xs, F !! q = Some (true, xs) -> F' !! q = Some (true, remove_data t xs)) -> wp (C 0) (kt s h' m) Q) ->
  wp (l ← on_q (queue_islocked q); when (negb l) (on_q (queue_lock q));; err ← thread_remove_queue t q; when (negb l) (on_q (queue_unlock q));; C err) (kt s h m) Q.
Proof.
  intros HC Hx Hv Hl Hq HE HO. pose proof (SQ_Ss q Hq) as Hs. assert (q ∈ Qs) as Hq' by (eapply Ss_Qs; [apply HC|done]).
  assert (t ∈ dom m) as Ht by (apply elem_of_dom; by eexists).
  assert (∀ h1 F1 U1, core s h1 m F1 X U1 -> q ∈ U1 -> (∀ x, mem F1 x = mem F x) -> (load_of h1 <= load_of h)%nat ->
     ∀ R : Z -> sys -> Prop,
     (t ∉ mem F q -> ∀ h' F', core s h' m F' X U1 -> (∀ x, mem F' x = mem F x) -> (load_of h' <= load_of h)%nat -> R (- ENOENT) (kt s h' m)) ->
     (t ∈ mem F q -> ∀ h' F', core s h' m F' X U1 -> mem F' q = without t (mem F q) -> (∀ x, x ≠ q -> x ≠ t_queues t -> mem F' x = mem F x) ->
        on F' t = without q (on F t) -> (2 + load_of h' <= load_of h)%nat ->
        (∀ xs, F1 !! q = Some (true, xs) -> F' !! q = Some (true, remove_data t xs)) -> R 0 (kt s h' m)) -> wp (thread_remove_queue t q) (kt s h1 m) R) as Hrem.
  { intros h1 F1 U1 HC1 Hu1 Em Hlo R HR1 HR2. pose proof (Em q) as Eq. eapply wp_thread_remove; [apply HC1|apply HC1|done|done|by apply HC1|exact Hv|done|..].
    - intros Hn h' HF' Hlo'. rewrite Eq in Hn. apply (HR1 Hn h' F1); [|done|lia]. destruct HC1. by split.
    - intros Hin h' F' HF' HA' Hto Hlo'. rewrite Eq in Hin. apply (HR2 Hin h' F'); [by eapply core_take|by rewrite (to_q _ _ _ _ Hto), Eq| | |lia|intros ys Hy; by apply (to_nodes _ _ _ _ Hto)].
      + intros x N1 N2. unfold mem. rewrite (to_rest _ _ _ _ Hto) by done. apply Em.
      + rewrite (on_take _ _ _ _ Hto). unfold on. by rewrite Em. }
  destruct (decide (q ∈ U)) as [Hu|Hu].
  - pose proof (co_held _ _ _ _ _ _ HC q Hu) as Hlk. destruct (lkd_mem _ _ _ Hlk) as (xs & Ex & _).
    wp_step. apply wp_kt_q. eapply wpf_islocked; [apply HC|exact Ex|]. cbn [negb when]. wp_step. apply wp_ret. wp_step.
    eapply (Hrem h F U); [done|done|done|done|..]; intros; wp_step; apply wp_ret; eauto.
  - pose proof (co_free _ _ _ _ _ _ HC q Hq' Hu) as Hlk. destruct (lkd_mem _ _ _ Hlk) as (xs & Ex & _).
    wp_step. apply wp_kt_q. eapply wpf_islocked; [apply HC|exact Ex|]. cbn [negb when]. wp_step. eapply wp_lockq; [done|done|done|]. intros h1 F1 HC1 Em1 Hlo1.
    wp_step. eapply (Hrem h1 F1 (U ∪ {[q]})); [done|set_solver|done|done|..].
    + intros Hn h2 F2 HC2 Em2 Hlo2. wp_step. eapply wp_unlockq; [exact HC2|done|done|]. intros h3 F3 HC3 Em3 Hlo3. eapply (HE Hn h3 F3); [done| |lia].
      intros x. by rewrite Em3.
    + intros Hin h2 F2 HC2 Eq2 Em2 Eo2 Hlo2 _. wp_step. eapply wp_unlockq; [exact HC2|done|done|]. intros h3 F3 HC3 Em3 Hlo3. eapply (HO Hin h3 F3); [done|by rewrite Em3| | |lia|by intros ?].
      * intros x N1 N2. rewrite Em3. auto.
      * unfold on in *. by rewrite Em3.
Qed.


(** Where the queues are after a thread moved from [q] to [q']. *)
Record moved F F' q q' t : Prop := {
  mv_from : mem F' q = without t (mem F q);
  mv_to : mem F' q' = mem F q' ++ [t];
  mv_else x : x ≠ q -> x ≠ q' -> x ≠ t_queues t -> mem F' x = mem F x;
}.

Lemma wp_thread_wake s h m F X U t v (Q : Z -> sys -> Prop) :
  core s h m F X U -> t ∈ X -> m !! t = Some v -> t_lock v = true -> good (k_cpus s) v -> place (k_cpus s) (k_current s) t v (on F t) ->
  U ⊆ SQ -> (load_of h <= N)%nat ->
  (¬ asleep v -> ∀ r h' F', r = 0 ∨ r = - ENOENT -> core s h' m F' X U -> (∀ x, mem F' x = mem F x) -> (load_of h' <= load_of h)%nat -> Q r (kt s h' m)) ->
  (asleep v -> ∀ q v' h' F', woken (k_cpus s) v v' q -> core s h' (<[t := v']> m) F' X U -> moved F F' (t_sleep_queue v) q t -> on F' t = [q] ->
     (load_of h' <= load_of h)%nat -> (t_sleep_queue v ∈ U -> ∀ xs, F !! t_sleep_queue v = Some (true, xs) -> F' !! t_sleep_queue v = Some (true, remove_data t xs)) -> Q 0 (kt s h' (<[t := v']> m))) ->
  wp (thread_wake t) (kt s h m) Q.
Proof.
  intros HC Hx Hv Hl Hg Hpl Hu HN HQ1 HQ2. pose proof (core_t_null _ _ _ _ _ _ _ _ HC Hv) as Htn. unfold place in Hpl.
  assert (¬ asleep v -> Q 0 (kt s h m)) as Hzero by (intros Hna; eapply (HQ1 Hna 0 h F); auto).
  unfold thread_wake. wp_step. apply (wp_tassert _ _ _ _ v); [done..|]. wp_step. apply wp_current.
  destruct (decide (k_current s = t)) as [Hc|Hc].
  { wp_step. apply Hzero. intros Ha. destruct Ha as [E|[E|E]]; rewrite E in Hpl; naive_solver. }
  unfold orM. wp_step. wp_step. apply (wp_isstate _ _ _ _ v); [done..|].
  destruct (bool_decide (t_state v = T_ZOMBIE)) eqn:Ez. { apply bool_decide_eq_true in Ez. apply wp_ret, wp_ret. apply Hzero. unfold asleep. rewrite Ez. intros [|[|]]; done. }
  apply bool_decide_eq_false in Ez. apply (wp_isstate _ _ _ _ v); [done..|]. rewrite bool_decide_eq_false_2 by (intros E; by rewrite E in Hpl).
  wp_step. apply (wp_ttest _ _ _ _ v); [done..|]. rewrite (gd_par _ _ Hg). cbn [when]. wp_step. apply wp_ret. wp_step. apply (wp_tload _ _ _ _ v); [done..|].
  destruct (decide (t_sleep_queue v = NULL)) as [Hnq|Hnq].
  { wp_step. apply Hzero. intros Ha. pose proof (ly_sleep _ _ _ _ (co_lay _ _ _ _ _ _ HC)) as Hsub.
    assert (t_sleep_queue v ∈ SQ) as Hin by (destruct Ha as [E|[E|E]]; rewrite E in Hpl; naive_solver). by apply (core_q_null _ _ _ _ _ _ _ HC (Hsub _ Hin)). }
  assert (t_sleep_queue v ∈ SQ) as Hsq. { destruct (t_state v); try rewrite decide_False in Hpl by congruence; naive_solver. }
  set (q := t_sleep_queue v) in *. eapply wp_wake_guard; [exact HC|done|]. intros s1 gl Hcore Ek Ec Hgd.
  eapply (wp_wake_remove s1 h m F X U t v q); [by apply Hcore|done|exact Hv|done|done|..].
  - intros Hn h1 F1 HC1 Em1 Hlo1. assert (¬ asleep v) as Hna.
    { intros Ha. apply Hn. assert (q ∈ on F t) as Hin by (destruct Ha as [E|[E|E]]; rewrite E in Hpl; destruct Hpl as (_ & _ & ->); set_solver).
      eapply on_mem; [apply HC|by eapply Ss_Qs; [apply HC|apply SQ_Ss]|by apply SQ_Ss|apply elem_of_dom; by eexists|done]. }
    apply Hcore in HC1. wp_step. apply Hgd. wp_step. apply (wp_isstate _ _ _ _ v); [done..|]. rewrite bool_decide_eq_false_2 by (unfold asleep in Hna; tauto).
    wp_step. apply wp_ret. rewrite decide_True by done. wp_step. eapply (HQ1 Hna _ h1 F1); auto.
  - intros Hin h1 F1 HC1 Eq1 Em1 Eo1 Hlo1 Hnd. assert (on F t = [q] ∧ asleep v) as [Ho Ha].
    { assert (q ∈ on F t) as Hin'. { eapply on_mem; [apply HC|by eapply Ss_Qs; [apply HC|apply SQ_Ss]|by apply SQ_Ss|apply elem_of_dom; by eexists|done]. }
      eapply place_sleepq in Hpl; [by destruct Hpl as (? & ? & _)|apply HC|done|done]. }
    apply Hcore in HC1. wp_step. apply Hgd.
    assert (on F1 t = []) as Ho1. { rewrite Eo1, Ho. unfold without. by rewrite filter_cons, decide_False by tauto. }
    eapply (wp_wake_tail s h1 m F1 X U t v); [done|done|exact Hv|done|done|done|done|by eapply sleepq_level|lia|].
    intros q' v' h' F' Hw HC' Hpo Ho' Hlo'.
    assert (q' ≠ q) as Hne. { pose proof (co_lay _ _ _ _ _ _ HC) as HL. pose proof (ly_disj _ _ _ _ HL). pose proof (run_queue_LQ _ _ _ _ HL (wo_queue _ _ _ _ Hw)). set_solver. }
    assert (∀ x, x ∈ Qs -> x ≠ t_queues t) as Hnm by (intros x Hx'; apply (ag_name _ _ _ (co_agree _ _ _ _ _ _ HC)); [done|apply elem_of_dom; by eexists]).
    assert (q' ∈ Qs) as Hq'. { eapply Ss_Qs; [apply HC|]. apply LQ_Ss. eapply run_queue_LQ; [apply HC|apply Hw]. }
    assert (q ∈ Qs) as Hqq by (eapply Ss_Qs; [apply HC|by apply SQ_Ss]).
    eapply HQ2; [done|exact Hw|done| |done|lia|intros Hu' ys Hy; rewrite (po_rest _ _ _ _ Hpo) by auto; by apply Hnd]. split.
    + unfold mem. rewrite (po_rest _ _ _ _ Hpo) by auto. apply Eq1.
    + rewrite (po_q _ _ _ _ Hpo). f_equal. apply Em1; auto.
    + intros x N1 N2 N3. unfold mem. rewrite (po_rest _ _ _ _ Hpo) by done. by apply Em1.
Qed.

Lemma place_woken s v v' q t F' :
  woken (k_cpus s) v v' q -> t ≠ k_current s -> t_sleep_queue v = NULL ∨ t_sleep_queue v ∈ SQ -> on F' t = [q] ->
  place (k_cpus s) (k_current s) t v' (on F' t).
Proof.
  intros Hw Hc Hs Ho. unfold place. rewrite (wo_state _ _ _ _ Hw), decide_False by done. rewrite (wo_sleep _ _ _ _ Hw). split; [done|]. exists q. by split; [apply Hw|].
Qed.
Lemma asleep_not_current K cur t v l : place K cur t v l -> asleep v -> t ≠ cur.
Proof. unfold place. intros Hpl [E|[E|E]]; rewrite E in Hpl; tauto. Qed.

Lemma wp_wake1 s h m F q (Q : Z -> sys -> Prop) :
  core s h m F ∅ ∅ -> q ∈ SQ -> (load_of h <= N)%nat ->
  (mem F q = [] -> ∀ h' F', core s h' m F' ∅ ∅ -> (∀ x, mem F' x = mem F x) -> (load_of h' <= load_of h)%nat -> Q (- ESRCH) (kt s h' m)) ->
  (∀ t l v v' q' h' F', mem F q = t :: l -> m !! t = Some v -> woken (k_cpus s) v v' q' -> core s h' (<[t := t_set_lock false v']> m) F' ∅ ∅ ->
     moved F F' q q' t -> on F t = [q] -> on F' t = [q'] -> t ≠ k_current s -> (load_of h' <= load_of h)%nat -> Q 0 (kt s h' (<[t := t_set_lock false v']> m))) ->
  wp (sched_wake1 q) (kt s h m) Q.
Proof.
  intros HC Hq HN HE HO. assert (q ∈ Qs) as Hqq by (eapply Ss_Qs; [apply HC|by apply SQ_Ss]). unfold sched_wake1.
  wp_step. eapply wp_lockq; [exact HC|done|set_solver|]. intros h1 F1 HC1 Em1 Hlo1. wp_step.
  eapply wp_take; [exact HC1|by apply SQ_Ss|set_solver|set_solver|..].
  - intros He. rewrite decide_False by tauto. wp_step. apply wp_ret. wp_step. eapply wp_unlockq; [exact HC1|done|set_solver|]. intros h2 F2 HC2 Em2 Hlo2. wp_step.
    eapply HE; [by rewrite <- Em1|exact HC2| |lia]. intros x. by rewrite Em2.
  - intros t l v h2 F2 El Hv _ Hg Hpl Hin HC2 Hto Eq2 Eo2 Hlo2. pose proof (core_t_null _ _ _ _ _ _ _ _ HC1 Hv) as Htn. rewrite decide_True by done.
    destruct (place_sleepq _ _ _ _ _ _ (co_lay _ _ _ _ _ _ HC) Hpl Hin Hq) as (Eo & Ha & Esq).
    set (v1 := t_set_lock true v) in *. assert (<[t := v1]> m !! t = Some v1) as Hv1 by (by rewrite lookup_insert_eq).
    wp_step. wp_step. apply (wp_tassert _ _ _ _ v1); [done..|]. wp_step. apply (wp_getstate _ _ _ _ v1); [done..|]. wp_step. apply (wp_enter _ _ _ _ v1); [done..|].
    rewrite insert_insert_eq. set (v2 := t_set_state T_READY v1). wp_step.
    eapply (wp_park s h2 (<[t := v2]> m) F2 _ _ t v2).
    + rewrite <- (insert_insert_eq m t v2 v1). eapply core_set_in; [exact HC2|rewrite dom_insert_L; set_solver|set_solver].
    + set_solver.
    + by rewrite lookup_insert_eq.
    + done.
    + done.
    + by destruct Hg.
    + rewrite Eo2, Eo. unfold without. by rewrite filter_cons, decide_False by tauto.
    + eapply sleepq_level; [exact HC2|set_solver].
    + lia.
    + intros q' v' h3 F3 Hset Hq' Hr Hg' HC3 Hpo Ho3 Hlo3. rewrite insert_insert_eq in *. rewrite bool_decide_eq_false_2 by tauto. cbn [when]. wp_step. apply wp_ret.
      assert (woken (k_cpus s) v v' q') as Hw by (destruct Hset as (P & Y & -> & HP); by split).
      wp_step. apply (wp_tunlock _ _ _ _ v'); [done|by rewrite lookup_insert_eq|apply Hw|]. rewrite insert_insert_eq. apply wp_ret. wp_step.
      eapply (wp_unlockq _ _ _ F3 ∅ ∅ q); [|done|apply not_elem_of_empty|].
      { rewrite <- (insert_insert_eq m t _ v'). eapply core_unlock_thread; [exact HC3|by rewrite lookup_insert_eq|apply Hw|].
        eapply place_woken; [exact Hw|by eapply asleep_not_current|by right; rewrite Esq|done]. }
      intros h4 F4 HC4 Em4 Hlo4. wp_step. eapply HO; [by rewrite <- Em1|done|exact Hw|exact HC4| |by rewrite <- Eo; unfold on; rewrite Em1|by unfold on in *; rewrite Em4|by eapply asleep_not_current|lia].
      pose proof (ly_disj _ _ _ _ (co_lay _ _ _ _ _ _ HC)) as Hd. assert (q' ∈ Qs) as Hqq' by (eapply Ss_Qs; [apply HC|by apply LQ_Ss]).
      assert (∀ x, x ∈ Qs -> x ≠ t_queues t) as Hnm by (intros x Hx'; apply (ag_name _ _ _ (co_agree _ _ _ _ _ _ HC)); [done|apply elem_of_dom; by eexists]).
      assert (q ≠ q') as Hne by set_solver. split.
      * rewrite Em4. unfold mem at 1. rewrite (po_rest _ _ _ _ Hpo) by auto. change (mem F2 q = without t (mem F q)). by rewrite (to_q _ _ _ _ Hto), Em1.
      * rewrite Em4, (po_q _ _ _ _ Hpo). f_equal. unfold mem at 1. rewrite (to_rest _ _ _ _ Hto) by auto. apply Em1.
      * intros x N1 N2 N3. rewrite Em4. unfold mem at 1. rewrite (po_rest _ _ _ _ Hpo), (to_rest _ _ _ _ Hto) by done. apply Em1.
Qed.

(** *** Waking all threads of a queue *)

Lemma fam_node h F q lk p t ys : fam_ok h F -> F !! q = Some (lk, (p, t) :: ys) -> p ≠ NULL ∧ ∃ n, d_qnodes h !! p = Some n ∧ qn_data n = t ∧ qn_next n = hd_or NULL ys.
Proof. intros HF Hq. apply HF, (queue_rep_node _ _ _ []) in Hq as (Hp & _ & _ & Hl). split; [done|]. by eexists. Qed.

Definition runq K m t : option ptr := v ← m !! t; run_queue K (ts_processor v) (ts_priority v).
(** All threads [l] of [q] were woken, in their order. *)
Record woken_all K F F' m m' q (l : list ptr) : Prop := {
  wa_dom : dom m' = dom m;
  wa_same t : t ∉ l -> m' !! t = m !! t;
  wa_new t : t ∈ l -> ∃ v v' q', m !! t = Some v ∧ woken K v v' q' ∧ m' !! t = Some (t_set_lock false v');
  wa_run r : r ∈ LQ -> mem F' r = mem F r ++ filter (λ t, runq K m' t = Some r) l;
  wa_empty : mem F' q = [];
  wa_else x : x ≠ q -> x ∉ LQ -> (∀ t, t ∈ l -> x ≠ t_queues t) -> mem F' x = mem F x;
}.

Lemma woken_all_nil K F m q : mem F q = [] -> woken_all K F F m m q [].
Proof. intros H. split; try done; [by intros t ?%elem_of_nil|intros r _; simpl; by rewrite app_nil_r]. Qed.
Lemma woken_all_cons K F F1 F' m m' q q' t l v v' :
  t ∉ l -> m !! t = Some v -> woken K v v' q' -> moved F F1 q q' t -> q ∉ LQ -> q' ∈ LQ -> (∀ r, r ∈ LQ -> r ≠ t_queues t) ->
  woken_all K F1 F' (<[t := t_set_lock false v']> m) m' q l -> woken_all K F F' m m' q (t :: l).
Proof.
  intros Ht Hv Hw [M1 M2 M3] Hq Hq' Hnm [A1 A2 A3 A4 A5 A6].
  assert (m' !! t = Some (t_set_lock false v')) as Ev by (by rewrite A2, lookup_insert_eq).
  assert (runq K m' t = Some q') as Er by (unfold runq; rewrite Ev; apply Hw). split.
  - rewrite A1, dom_insert_L. assert (t ∈ dom m) by (apply elem_of_dom; by eexists). set_solver.
  - intros t' H. rewrite A2, lookup_insert_ne by set_solver. done.
  - intros t' [->|H]%elem_of_cons; [by exists v, v', q'|]. destruct (A3 t' H) as (w & w' & r & E1 & E2 & E3). rewrite lookup_insert_ne in E1 by set_solver. by exists w, w', r.
  - intros r Hr. rewrite A4 by done. destruct (decide (r = q')) as [->|Hne].
    + rewrite M2, filter_cons, decide_True by done. by rewrite <- app_assoc.
    + rewrite filter_cons, decide_False by congruence. rewrite M3; [done|set_solver|done|auto].
  - done.
  - intros x H1 H2 H3. rewrite A6; [|done|done|set_solver]. apply M3; [done|set_solver|set_solver].
Qed.

Lemma wp_wakeall_loop s q X U ys : q ∈ SQ -> U ⊆ SQ -> q ∈ U -> ∀ h m F n (Q : unit -> sys -> Prop),
  core s h m F X U -> F !! q = Some (true, ys) -> (∀ t, t ∈ X -> t ∉ ys.*2) -> (length ys <= n)%nat -> (load_of h <= N)%nat ->
  (∀ h' m' F', core s h' m' F' X U -> woken_all (k_cpus s) F F' m m' q ys.*2 -> (load_of h' <= load_of h)%nat -> Q tt (kt s h' m')) ->
  wp (wakeall_loop n (hd_or NULL ys)) (kt s h m) Q.
Proof.
  intros Hq HU Hqu. induction ys as [|[p t] ys IH]; intros h m F n Q HC Hys HX Hn HN HQ.
  { destruct n; simpl; apply wp_ret; (apply (HQ h m F); [done| |done]); apply woken_all_nil; by rewrite (mem_some _ _ _ _ Hys). }
  destruct (fam_node _ _ _ _ _ _ _ (co_fam _ _ _ _ _ _ HC) Hys) as (Hp & nd & Hnode & En1 & En2). pose proof (mem_some _ _ _ _ Hys) as Em. simpl in Em, HX.
  destruct n as [|n]; [simpl in Hn; lia|]. cbn [wakeall_loop hd_or fst]. rewrite decide_False by done.
  wp_step. apply wp_kt_q. eapply wp_nload; [done|done|]. rewrite En1, En2. clear En1 En2. pose proof (co_agree _ _ _ _ _ _ HC) as HA. pose proof (co_lay _ _ _ _ _ _ HC) as HL.
  assert (q ∈ Qs) as Hqq by (eapply Ss_Qs; [done|by apply SQ_Ss]). assert (t ∈ mem F q) as Hin by (rewrite Em; set_solver).
  assert (t ∈ dom m) as Ht by (by eapply ag_threads). assert (t ∉ X) as Hx by (intros H; apply (HX t H); set_solver).
  apply elem_of_dom in Ht as Hv. destruct Hv as [v Hv]. destruct (co_thread _ _ _ _ _ _ HC t v Hv Hx) as (Hlk & Hg & Hpl).
  assert (q ∈ on F t) as Hon by (by eapply on_mem; [done|done|apply SQ_Ss| |]).
  destruct (place_sleepq _ _ _ _ _ _ HL Hpl Hon Hq) as (Eo & Ha & Esq). pose proof (core_t_null _ _ _ _ _ _ _ _ HC Hv) as Htn.
  wp_step. apply (wp_tlock _ _ _ _ v); [done..|]. set (v1 := t_set_lock true v). wp_step.
  eapply (wp_thread_wake s h (<[t := v1]> m) F (X ∪ {[t]}) U t v1); [by apply core_set|set_solver|by rewrite lookup_insert_eq|done|by apply good_put_lock|done|done|done|by intros []|].
  intros _ q' v' h1 F1 Hw HC1 Hmv Ho1 Hlo1 Hnd. rewrite insert_insert_eq in *. rewrite decide_False by tauto. change (t_sleep_queue v1) with (t_sleep_queue v) in *. rewrite Esq in *.
  assert (woken (k_cpus s) v v' q') as Hw' by (destruct Hw; by split).
  pose proof (ag_nodup _ _ _ HA q) as Hndp. rewrite Em in Hndp. apply NoDup_cons in Hndp as [Htl Hndl].
  wp_step. apply (wp_tunlock _ _ _ _ v'); [done|by rewrite lookup_insert_eq|apply Hw|]. rewrite insert_insert_eq.
  assert (q' ∈ LQ) as Hq' by (eapply run_queue_LQ; [done|apply Hw]). pose proof (ly_disj _ _ _ _ HL) as Hdj.
  assert (∀ x, x ∈ Qs -> x ≠ t_queues t) as Hnm by (intros x Hx'; by apply (ag_name _ _ _ HA)).
  eapply IH; [|by rewrite (Hnd Hqu _ Hys); simpl; rewrite decide_True|set_solver|simpl in Hn; lia|lia|].
  - rewrite <- (insert_insert_eq m t _ v'). eapply core_unlock_thread; [exact HC1|by rewrite lookup_insert_eq|apply Hw|].
    eapply place_woken; [exact Hw|by eapply asleep_not_current|by right; simpl; rewrite Esq|done].
  - intros h' m' F' HC' Hwa Hlo'. apply (HQ h' m' F' HC'); [|lia]. simpl.
    eapply woken_all_cons; [done|done|exact Hw'|exact Hmv|set_solver|done| |done]. intros r Hr. apply Hnm. by apply (ly_level _ _ _ _ HL).
Qed.

Lemma woken_all_mem K F F1 F2 F3 m m' q l :
  (∀ x, mem F1 x = mem F x) -> (∀ x, mem F3 x = mem F2 x) -> woken_all K F1 F2 m m' q l -> woken_all K F F3 m m' q l.
Proof. intros E1 E2 []. split; try done; [intros r Hr; rewrite E2, <- E1; auto|by rewrite E2|intros x *; rewrite E2, <- E1; auto]. Qed.

Lemma wp_wakeall s h m F X q (Q : Z -> sys -> Prop) :
  core s h m F X ∅ -> q ∈ SQ -> (∀ t, t ∈ X -> t ∉ mem F q) -> (load_of h <= N)%nat ->
  (∀ h' m' F', core s h' m' F' X ∅ -> woken_all (k_cpus s) F F' m m' q (mem F q) -> (load_of h' <= load_of h)%nat ->
     Q (Z.of_nat (length (mem F q))) (kt s h' m')) ->
  wp (sched_wakeall q) (kt s h m) Q.
Proof.
  intros HC Hq HX HN HQ. assert (q ∈ Qs) as Hqq by (eapply Ss_Qs; [apply HC|by apply SQ_Ss]). unfold sched_wakeall.
  wp_step. eapply wp_lockq; [exact HC|done|set_solver|]. intros h1 F1 HC1 Em1 Hlo1.
  pose proof (co_held _ _ _ _ _ _ HC1 q ltac:(set_solver)) as Hl. destruct (lkd_mem _ _ _ Hl) as (ys & Hys & Ey). rewrite Em1 in Ey. pose proof (co_fam _ _ _ _ _ _ HC1) as HF1.
  wp_step. apply wp_kt_q. eapply wpf_count; [done|done|]. wp_step. apply wp_kt_q. eapply wpf_head; [done|done|]. cbn [q_head].
  wp_step. apply wp_kt_q. unfold walk_fuel. apply wp_gets. wp_step.
  eapply (wp_wakeall_loop s q X (∅ ∪ {[q]}) ys); [done| |set_solver|exact HC1|done|by rewrite <- Ey|by eapply queue_rep_fuel, HF1|lia|]; [set_solver|].
  intros h2 m' F2 HC2 Hwa Hlo2. wp_step. eapply (wp_unlockq s h2 m' F2 X ∅ q); [done|done|set_solver|]. intros h3 F3 HC3 Em3 Hlo3. wp_step.
  replace (length ys) with (length (mem F q)) by (by rewrite Ey, length_fmap). eapply (HQ h3 m' F3); [done| |lia]. rewrite <- Ey in Hwa. by eapply woken_all_mem.
Qed.

End inv.
