(* ===== verification/SchedStep.v ===== *)
(** * The steps of the scheduler

    What the functions of Sched.v that end a thread, choose the next one and take
    one back do to the invariant. *)

From S2P Require Import Prelude Dll Heap Queue Lock Sched SchedSpec SchedInv.

Section step.
Context {KM : Kmalloc} {MC : Machine} {AR : Areas} {N : nat} (Hroom : ∀ n D, km_choose n D = None -> (N <= size D)%nat).
Implicit Types (s : sys) (h : dsheap) (F : fam) (m : gmap ptr thread_t) (q t g : ptr) (v : thread_t) (K : gmap ptr cpu_t) (X U : gset ptr).

(** No lock is held and every thread has its condition variable. *)
Record calm s (T : gset ptr) : Prop := {
  ca_cond t : t ∈ T -> is_Some (k_conds s !! t_wait t) ∧ cond_guard (t_wait t) ∈ G;
  ca_spin g : g ∈ G -> g ≠ NULL ∧ k_spins s !! g = Some (Spin false);
}.
Definition counted s c n : sys := k_set_conds (<[c := Cond n]> (k_conds s)) s.
Lemma core_counted s h m F X U c n : core s h m F X U -> core (counted s c n) h m F X U.
Proof. by apply core_sys. Qed.
Lemma calm_counted s T c n : calm s T -> calm (counted s c n) T.
Proof. intros [H1 H2]. split; [|done]. intros t Ht. destruct (H1 t Ht) as [H H']. split; [|done]. simpl. apply lookup_insert_is_Some'. by right. Qed.

Lemma zom_sleep K q : layout K LQ SQ Qs -> q ∈ SQ -> q ≠ zombie_queue.
Proof. intros HL Hq ->. by apply (ly_zom _ _ _ _ HL), elem_of_union_r. Qed.
Lemma not_on s h m F X U q t : core s h m F X U -> t ∈ dom m -> on F t = [] -> q ∈ Ss -> t ∉ mem F q.
Proof. intros HC Ht Ho Hq H. eapply on_mem in H; [|apply HC|by eapply Ss_Qs; [apply HC|]|done|done]. rewrite Ho in H. by apply elem_of_nil in H. Qed.

(** [cond_broadcast] on a condition variable whose lock is free. *)
Lemma wp_broadcast s h m F X c (Q : unit -> sys -> Prop) :
  core s h m F X ∅ -> c ∈ SQ -> is_Some (k_conds s !! c) -> cond_guard c ∈ G -> k_spins s !! cond_guard c = Some (Spin false) ->
  (∀ t', t' ∈ X -> t' ∉ mem F c) -> (load_of h <= N)%nat ->
  (∀ h' m' F' n, core s h' m' F' X ∅ -> woken_all (k_cpus s) F F' m m' c (mem F c) -> (load_of h' <= load_of h)%nat -> Q tt (kt (counted s c n) h' m')) ->
  wp (cond_broadcast c) (kt s h m) Q.
Proof.
  intros HC Hsq [x Hc] HG Hsp HX HN HQ. assert (c ≠ NULL) as Hn by (eapply core_q_null; [exact HC|]; eapply Ss_Qs; [apply HC|by apply SQ_Ss]).
  set (g := cond_guard c) in *. assert (g ≠ NULL) as Hgn by (by apply (co_spin _ _ _ _ _ _ HC)). unfold cond_broadcast.
  wp_step. apply wp_assert; [by apply bool_decide_eq_true|]. wp_step. apply wp_spin_lock; [done|done|].
  wp_step. eapply (wp_wakeall Hroom (spun s g true) h m F X); [by apply core_spun|done|done|done|]. intros h1 m1 F1 HC1 Hwa Hlo1. apply (core_unspun _ _ _ _ _ _ _ _ _ Hsp) in HC1.
  wp_step. eapply (wp_update _ _ x); [done|exact Hc|]. set (n := if decide _ then _ else _).
  match goal with |- wp ?a _ ?R => change (wp a (kt (spun (counted s c n) g true) h1 m1) R) end.
  apply wp_spin_unlock; [done|simpl; by rewrite lookup_insert_eq|]. rewrite spun_id by done. by eapply (HQ h1 m1 F1 n).
Qed.

(** The end of a thread: it becomes a zombie and those that wait for it are woken. *)
Lemma wp_putzombie s h m F t v (Q : Z -> sys -> Prop) :
  core s h m F {[t]} ∅ -> calm s (dom m) -> m !! t = Some v -> t_lock v = true -> on F t = [] -> (2 + load_of h <= N)%nat ->
  (∀ h1 h' m' F1 F' n, core s h1 (<[t := t_set_state T_ZOMBIE v]> m) F1 {[t]} ∅ -> core s h' m' F' {[t]} ∅ -> put_on F F1 zombie_queue t ->
     woken_all (k_cpus s) F1 F' (<[t := t_set_state T_ZOMBIE v]> m) m' (t_wait t) (mem F (t_wait t)) ->
     m' !! t = Some (t_set_state T_ZOMBIE v) -> on F' t = [zombie_queue] -> (load_of h' <= 2 + load_of h)%nat -> Q 0 (kt (counted s (t_wait t) n) h' m')) ->
  wp (sched_putzombie t) (kt s h m) Q.
Proof.
  intros HC Hca Hv Hl Ho HN HQ. assert (t ∈ dom m) as Ht by (apply elem_of_dom; by eexists). pose proof (core_t_null _ _ _ _ _ _ _ _ HC Hv) as Htn.
  pose proof (co_lay _ _ _ _ _ _ HC) as HL. pose proof (co_wait _ _ _ _ _ _ HC t Ht) as Hw. assert (zombie_queue ∈ Qs) as Hz by (eapply Ss_Qs, zom_Ss; done).
  unfold sched_putzombie. rewrite decide_False by done. wp_step. apply (wp_tassert _ _ _ _ v); [done..|]. wp_step. apply (wp_enter _ _ _ _ v); [done..|].
  set (v1 := t_set_state T_ZOMBIE v). assert (dom (<[t := v1]> m) = dom m) as Ed by (rewrite dom_insert_L; set_solver).
  assert (core s h (<[t := v1]> m) F {[t]} ∅) as HC1 by (eapply core_set_in; [done|done|set_solver]).
  assert (t ∉ mem F zombie_queue) as Hnz by (eapply not_on; [exact HC|done|done|apply zom_Ss]).
  wp_step. eapply (wp_thread_enqueue Hroom); [apply HC|apply HC|exact Hz|exact Ht|by apply HC|by intros ?|intros _ HN'; lia|].
  intros _ p h2 F2 HF2 HA2 Hpo Hlo2. rewrite decide_False by tauto. assert (core s h2 (<[t := v1]> m) F2 {[t]} ∅) as HC2.
  { eapply core_put; [exact HC1|done|by rewrite Ed|done|done|by rewrite Ed|set_solver]. }
  assert (on F2 t = [zombie_queue]) as Ho2 by (rewrite (on_put _ _ _ _ Hpo zom_Ss), Ho; done).
  assert (mem F2 (t_wait t) = mem F (t_wait t)) as Emw.
  { unfold mem. rewrite (po_rest _ _ _ _ Hpo); [done|by eapply zom_sleep|].
    apply (ag_name _ _ _ (co_agree _ _ _ _ _ _ HC)); [|done]. by apply (ly_sleep _ _ _ _ HL). }
  assert (t ∉ mem F2 (t_wait t)) as Hnw by (rewrite Emw; eapply not_on; [exact HC|done|done|by apply SQ_Ss]).
  destruct (ca_cond _ _ Hca t Ht) as [Hc HG]. wp_step.
  eapply wp_broadcast; [exact HC2|done|done|done|by apply Hca|by intros ? ->%elem_of_singleton|lia|]. intros h3 m3 F3 n HC3 Hwa Hlo3. wp_step.
  rewrite Emw in Hwa, Hnw. apply (HQ h2 h3 m3 F2 F3 n HC2 HC3 Hpo Hwa); [|..|lia].
  - rewrite (wa_same _ _ _ _ _ _ _ Hwa), lookup_insert_eq; done.
  - unfold on. rewrite (wa_else _ _ _ _ _ _ _ Hwa); [exact Ho2|..].
    + intros E. by apply (ag_name _ _ _ (co_agree _ _ _ _ _ _ HC) (t_wait t) t); [apply (ly_sleep _ _ _ _ HL)| |].
    + intros Hin. by apply (ag_name _ _ _ (co_agree _ _ _ _ _ _ HC) (t_queues t) t); [apply (ly_level _ _ _ _ HL)| |].
    + intros t' Ht' E. pose proof (co_agree _ _ _ _ _ _ HC) as HA.
      assert (t' ∈ dom m) by (eapply (ag_threads _ _ _ HA (t_wait t)); [by apply (ly_sleep _ _ _ _ HL)|done]).
      apply t_queues_inj in E as <-; [done|by apply (ag_valid _ _ _ HA)..].
Qed.

(** Who is on no queue of the scheduler. *)
Lemma woken_idle s h h' m m' F F' X U q t :
  core s h m F X U -> core s h' m' F' X U -> woken_all (k_cpus s) F F' m m' q (mem F q) -> q ∈ SQ -> (∀ t', t' ∈ X -> t' ∉ mem F q) -> t ∈ dom m ->
  on F' t = [] -> on F t = [].
Proof.
  intros HC HC' Hwa Hq HX Ht Ho. pose proof (co_agree _ _ _ _ _ _ HC) as HA. pose proof (co_lay _ _ _ _ _ _ HC) as HL. assert (q ∈ Qs) as Hqq by (by apply (ly_sleep _ _ _ _ HL)).
  destruct (decide (t ∈ mem F q)) as [Hin|Hin].
  - assert (t ∉ X) as Hx by (intros H; by apply (HX t H)). destruct (wa_new _ _ _ _ _ _ _ Hwa t Hin) as (v & v' & q' & Ev & Hw & Ev').
    destruct (co_thread _ _ _ _ _ _ HC t v Ev Hx) as (_ & _ & Hp). destruct (co_thread _ _ _ _ _ _ HC' t _ Ev' Hx) as (_ & _ & Hp').
    assert (q ∈ on F t) as Hon by (by eapply on_mem; [done|done|apply SQ_Ss| |]). destruct (place_sleepq _ _ _ _ _ _ HL Hp Hon Hq) as (_ & Ha & _).
    pose proof (asleep_not_current _ _ _ _ _ Hp Ha) as Hc. unfold place in Hp'. simpl in Hp'. rewrite (wo_state _ _ _ _ Hw), decide_False in Hp' by done.
    destruct Hp' as (_ & r & _ & E). by rewrite Ho in E.
  - revert Ho. unfold on. rewrite (wa_else _ _ _ _ _ _ _ Hwa); [done|..].
    + intros E. by apply (ag_name _ _ _ HA q t).
    + intros H. by apply (ag_name _ _ _ HA (t_queues t) t); [apply (ly_level _ _ _ _ HL)| |].
    + intros t' Ht' E. assert (t' ∈ dom m) by (by eapply (ag_threads _ _ _ HA q)). apply t_queues_inj in E as <-; [done|by apply (ag_valid _ _ _ HA)..].
Qed.

(** The thread [t] has ended. *)
Record ended K F F' m m' t v : Prop := {
  en_self : m' !! t = Some (t_set_lock false (t_set_state T_ZOMBIE v));
  en_on : on F' t = [zombie_queue];
  en_dom : dom m' = dom m;
  en_idle t' : t' ∈ dom m -> t' ≠ t -> on F' t' = [] -> on F t' = [];
  en_zombies : mem F' zombie_queue = mem F zombie_queue ++ [t];
  en_woken t' : t' ∈ mem F (t_wait t) -> ∃ w w' q, m !! t' = Some w ∧ woken K w w' q ∧ m' !! t' = Some (t_set_lock false w');
  en_same t' : t' ≠ t -> t' ∉ mem F (t_wait t) -> m' !! t' = m !! t';
  en_run r : r ∈ LQ -> mem F' r = mem F r ++ filter (λ t', runq K m' t' = Some r) (mem F (t_wait t));
  en_wait : mem F' (t_wait t) = [];
}.

Lemma LQ_not_zombie K q : layout K LQ SQ Qs -> q ∈ LQ -> q ≠ zombie_queue.
Proof. intros HL Hq ->. by apply (ly_zom _ _ _ _ HL), elem_of_union_l. Qed.
Lemma runq_filter K m t w r (l : list ptr) : t ∉ l -> filter (λ t', runq K m t' = Some r) l = filter (λ t', runq K (<[t := w]> m) t' = Some r) l.
Proof.
  induction l as [|x l IH]; [done|]. intros [Hx Hl]%not_elem_of_cons. rewrite !filter_cons, IH by done. unfold runq. by rewrite lookup_insert_ne.
Qed.
Lemma ended_intro s h h1 h2 m m1 F F1 F2 t v :
  core s h m F {[t]} ∅ -> core s h1 (<[t := t_set_state T_ZOMBIE v]> m) F1 {[t]} ∅ -> core s h2 m1 F2 {[t]} ∅ -> t ∈ dom m -> on F t = [] ->
  put_on F F1 zombie_queue t -> woken_all (k_cpus s) F1 F2 (<[t := t_set_state T_ZOMBIE v]> m) m1 (t_wait t) (mem F (t_wait t)) -> on F2 t = [zombie_queue] ->
  ended (k_cpus s) F F2 m (<[t := t_set_lock false (t_set_state T_ZOMBIE v)]> m1) t v.
Proof.
  intros HC HC1 HC2 Ht Ho Hpo Hwa Ho2. pose proof (co_agree _ _ _ _ _ _ HC) as HA. pose proof (co_lay _ _ _ _ _ _ HC) as HL. pose proof (co_wait _ _ _ _ _ _ HC t Ht) as Hw.
  assert (t ∉ mem F (t_wait t)) as Hnw by (eapply not_on; [exact HC|done|done|by apply SQ_Ss]).
  assert (∀ x, x ∈ Qs -> x ≠ zombie_queue -> mem F1 x = mem F x) as Emw. { intros x H1 H2. unfold mem. by rewrite (po_rest _ _ _ _ Hpo); [|done|apply (ag_name _ _ _ HA)]. }
  assert (mem F1 (t_wait t) = mem F (t_wait t)) as Emt by (apply Emw; [by apply (ly_sleep _ _ _ _ HL)|by eapply zom_sleep]).
  assert (dom m1 = dom m) as Ed1 by (rewrite (wa_dom _ _ _ _ _ _ _ Hwa), dom_insert_L; set_solver).
  assert (∀ t', t' ∈ mem F (t_wait t) -> t' ≠ t) as Hne by (by intros t' H ->). assert (zombie_queue ∈ Qs) as Hz by (eapply Ss_Qs, zom_Ss; done). split.
  - by rewrite lookup_insert_eq.
  - done.
  - rewrite dom_insert_L, Ed1. set_solver.
  - intros t' H1 H2 H3. rewrite <- (on_else F F1 (dom m) zombie_queue t t'); [|done|apply Hpo|done|done|done|done]. rewrite <- Emt in Hwa.
    eapply woken_idle; [exact HC1|exact HC2|exact Hwa|done|by rewrite Emt; intros ? ->%elem_of_singleton|rewrite dom_insert_L; set_solver|done].
  - rewrite (wa_else _ _ _ _ _ _ _ Hwa); [apply Hpo|by eapply not_eq_sym, zom_sleep|by intros H; eapply LQ_not_zombie|].
    intros t' H. apply (ag_name _ _ _ HA); [done|]. eapply (ag_threads _ _ _ HA (t_wait t)); [by apply (ly_sleep _ _ _ _ HL)|done].
  - intros t' H. pose proof (Hne t' H). destruct (wa_new _ _ _ _ _ _ _ Hwa t' H) as (w & w' & q' & E1 & E2 & E3). rewrite lookup_insert_ne in E1 by done.
    exists w, w', q'. by rewrite lookup_insert_ne.
  - intros t' H1 H2. by rewrite lookup_insert_ne, (wa_same _ _ _ _ _ _ _ Hwa), lookup_insert_ne.
  - intros r Hr. rewrite (wa_run _ _ _ _ _ _ _ Hwa r Hr), Emw; [|by apply (ly_level _ _ _ _ HL)|by eapply LQ_not_zombie]. f_equal.
    by apply runq_filter.
  - apply Hwa.
Qed.
Lemma wp_self_destruct s h m F t v (Q : unit -> sys -> Prop) :
  k_current s = t -> core s h m F {[t]} ∅ -> calm s (dom m) -> m !! t = Some v -> t_lock v = true -> good (k_cpus s) v -> on F t = [] -> (2 + load_of h <= N)%nat ->
  (∀ h' m' F' n, core s h' m' F' {[t]} ∅ -> ended (k_cpus s) F F' m m' t v -> (load_of h' <= 2 + load_of h)%nat -> Q tt (kt (counted s (t_wait t) n) h' m')) ->
  wp sched_self_destruct (kt s h m) Q.
Proof.
  intros Hcur HC Hca Hv Hl Hg Ho HN HQ. assert (t ∈ dom m) as Ht by (apply elem_of_dom; by eexists). pose proof (core_t_null _ _ _ _ _ _ _ _ HC Hv) as Htn.
  pose proof (co_agree _ _ _ _ _ _ HC) as HA. pose proof (co_lay _ _ _ _ _ _ HC) as HL. pose proof (co_wait _ _ _ _ _ _ HC t Ht) as Hw.
  unfold sched_self_destruct, current_assert_locked, current_unlock, current_lock. subst t. set (t := k_current s) in *.
  repeat wp_step. apply wp_current. apply (wp_tassert _ _ _ _ v); [done..|]. repeat wp_step. apply wp_current. apply (wp_tunlock _ _ _ _ v); [done..|].
  repeat wp_step. apply wp_current. eapply (wp_tlock _ _ _ _ (t_set_lock false v)); [done|by rewrite lookup_insert_eq|done|]. rewrite insert_insert_eq.
  replace (<[t := t_set_lock true (t_set_lock false v)]> m) with m by (symmetry; apply insert_id; rewrite Hv; destruct v; simpl in Hl; by rewrite Hl).
  repeat wp_step. apply wp_current. wp_step. apply (wp_ttest _ _ _ _ v); [done..|]. rewrite (gd_det _ _ Hg). cbn [when]. wp_step. apply wp_ret.
  wp_step. eapply wp_putzombie; [exact HC|done|exact Hv|done|done|done|]. intros h1 h2 m1 F1 F2 n HC1 HC2 Hpo Hwa Hv1 Ho1 Hlo1. rewrite decide_False by tauto.
  wp_step. apply wp_current. eapply (wp_tunlock _ _ _ _ (t_set_state T_ZOMBIE v)); [done|exact Hv1|done|].
  assert (dom m1 = dom m) as Ed1 by (rewrite (wa_dom _ _ _ _ _ _ _ Hwa), dom_insert_L; set_solver).
  apply HQ with (F' := F2) (n := n); [eapply core_set_in; [done|by rewrite Ed1|set_solver]|by eapply ended_intro|done].
Qed.

(** ** The choice of the next thread *)

Lemma place_embryo K cur t v l : layout K LQ SQ Qs -> place K cur t v l -> embryo_queue ∈ l -> t_state v = T_EMBRYO ∧ l = [embryo_queue] ∧ t_sleep_queue v = NULL.
Proof.
  intros HL Hpl Hin. pose proof (ly_emb _ _ _ _ HL) as He. rewrite not_elem_of_union in He. destruct He as [He1 He2]. pose proof (ly_ez _ _ _ _ HL) as Hez. unfold place in Hpl.
  destruct (t_state v) eqn:E; try done.
  1: destruct Hpl as [[->| ->] ?]; [by apply elem_of_nil in Hin|done].
  1: destruct (decide (t = cur)); [destruct Hpl as [-> _]; by apply elem_of_nil in Hin|]; destruct Hpl as (_ & q & Hr & ->); apply list_elem_of_singleton in Hin as <-; by apply (run_queue_LQ _ _ _ _ HL) in Hr.
  4: subst l; by apply list_elem_of_singleton in Hin.
  all: destruct Hpl as (_ & Hs & ->); apply list_elem_of_singleton in Hin as E'; by rewrite <- E' in Hs.
Qed.
Lemma place_level K cur t v l q : layout K LQ SQ Qs -> place K cur t v l -> q ∈ l -> q ∈ LQ ->
  t_state v = T_READY ∧ l = [q] ∧ t ≠ cur ∧ (t_sleep_queue v = NULL ∨ t_sleep_queue v ∈ SQ) ∧ run_queue K (ts_processor v) (ts_priority v) = Some q.
Proof.
  intros HL Hpl Hin Hq. pose proof (ly_disj _ _ _ _ HL) as Hd. pose proof (ly_emb _ _ _ _ HL) as He. rewrite not_elem_of_union in He. destruct He as [He1 He2].
  pose proof (ly_zom _ _ _ _ HL) as Hz. rewrite not_elem_of_union in Hz. destruct Hz as [Hz1 Hz2]. unfold place in Hpl. destruct (t_state v) eqn:E; try done.
  1: destruct Hpl as [[->| ->] ?]; [by apply elem_of_nil in Hin|by apply list_elem_of_singleton in Hin as ->].
  1: destruct (decide (t = cur)); [destruct Hpl as [-> _]; by apply elem_of_nil in Hin|]; destruct Hpl as (? & q' & Hr & ->); by apply list_elem_of_singleton in Hin as ->.
  4: subst l; by apply list_elem_of_singleton in Hin as ->.
  all: destruct Hpl as (_ & Hs & ->); apply list_elem_of_singleton in Hin as E'; rewrite <- E' in Hs; by destruct (Hd q).
Qed.

(** The head of a queue is taken. *)
Record popped F F' q t (l : list ptr) : Prop := {
  pp_q : mem F' q = l;
  pp_else x : x ≠ q -> x ≠ t_queues t -> mem F' x = mem F x;
  pp_on : on F' t = without q (on F t);
}.
Lemma wp_pop {A} s h m F q (C : ptr -> M sys A) (Q : A -> sys -> Prop) :
  core s h m F ∅ ∅ -> q ∈ Ss ->
  (mem F q = [] -> ∀ h' F', core s h' m F' ∅ ∅ -> (∀ x, mem F' x = mem F x) -> (load_of h' <= load_of h)%nat -> wp (C NULL) (kt s h' m) Q) ->
  (∀ t l v h' F', mem F q = t :: l -> m !! t = Some v -> good (k_cpus s) v -> place (k_cpus s) (k_current s) t v (on F t) -> q ∈ on F t ->
     core s h' (<[t := t_set_lock true v]> m) F' {[t]} ∅ -> popped F F' q t l -> (2 + load_of h' <= load_of h)%nat -> wp (C t) (kt s h' (<[t := t_set_lock true v]> m)) Q) ->
  wp (on_q (queue_lock q);; t ← thread_dequeue q; on_q (queue_unlock q);; C t) (kt s h m) Q.
Proof.
  intros HC Hs HE HO. assert (q ∈ Qs) as Hq by (eapply Ss_Qs; [apply HC|done]).
  wp_step. eapply wp_lockq; [exact HC|done|apply not_elem_of_empty|]. intros h1 F1 HC1 Em1 Hlo1. wp_step.
  eapply wp_take; [exact HC1|done|set_solver|by intros ? ?%elem_of_empty|..].
  - intros He. wp_step. eapply (wp_unlockq s h1 m F1 ∅ ∅ q); [done|done|apply not_elem_of_empty|]. intros h2 F2 HC2 Em2 Hlo2. eapply HE; [by rewrite <- Em1|exact HC2| |lia].
    intros x. by rewrite Em2.
  - intros t l v h2 F2 El Hv _ Hg Hpl Hin HC2 Hto Eq2 Eo2 Hlo2. wp_step. eapply (wp_unlockq s h2 _ F2 _ ∅ q); [exact HC2|done|apply not_elem_of_empty|].
    intros h3 F3 HC3 Em3 Hlo3. rewrite union_empty_l_L in HC3. assert (on F1 t = on F t) as Eon by (unfold on; by rewrite Em1). rewrite Eon in *.
    eapply (HO t l v h3 F3); [by rewrite <- Em1|done|done|done|done|done| |lia]. split; [by rewrite Em3| |unfold on in *; by rewrite Em3].
    intros x N1 N2. rewrite Em3. unfold mem. rewrite (to_rest _ _ _ _ Hto) by done. apply Em1.
Qed.

Lemma popped_moved s h m F F1 F2 X U q q' t l :
  core s h m F X U -> t ∈ dom m -> q ∈ Qs -> q' ∈ Qs -> q ≠ q' -> mem F q = t :: l -> popped F F1 q t l -> put_on F1 F2 q' t -> moved F F2 q q' t.
Proof.
  intros HC Ht Hq Hq' Hne El Hpp Hpo. pose proof (co_agree _ _ _ _ _ _ HC) as HA. pose proof (ag_nodup _ _ _ HA q) as Hnd. rewrite El in Hnd. apply NoDup_cons in Hnd as [Hn _].
  assert (∀ x, x ∈ Qs -> x ≠ t_queues t) as Hnm by (intros x Hx; by apply (ag_name _ _ _ HA)). split.
  - unfold mem at 1. rewrite (po_rest _ _ _ _ Hpo) by auto. fold (mem F1 q). rewrite (pp_q _ _ _ _ _ Hpp), El. unfold without. rewrite filter_cons, decide_False by tauto.
    symmetry. by apply without_none.
  - rewrite (po_q _ _ _ _ Hpo). f_equal. apply (pp_else _ _ _ _ _ Hpp); auto.
  - intros x N1 N2 N3. unfold mem at 1. rewrite (po_rest _ _ _ _ Hpo) by done. fold (mem F1 x). by apply (pp_else _ _ _ _ _ Hpp).
Qed.

Lemma wp_embryo {A} s h m F (C : M sys A) (Q : A -> sys -> Prop) :
  core s h m F ∅ ∅ -> k_current s = NULL -> (load_of h <= N)%nat ->
  (mem F embryo_queue = [] -> ∀ h' F', core s h' m F' ∅ ∅ -> (∀ x, mem F' x = mem F x) -> (load_of h' <= load_of h)%nat -> wp C (kt s h' m) Q) ->
  (∀ t l v v' q h' F', mem F embryo_queue = t :: l -> m !! t = Some v -> t_state v = T_EMBRYO -> woken (k_cpus s) v v' q ->
     core s h' (<[t := t_set_lock false v']> m) F' ∅ ∅ -> moved F F' embryo_queue q t -> on F t = [embryo_queue] -> on F' t = [q] -> (load_of h' <= load_of h)%nat ->
     wp C (kt s h' (<[t := t_set_lock false v']> m)) Q) ->
  wp (thread ← sched_getembryo;
      when (bool_decide (thread ≠ NULL)) (thread_enter_state thread T_READY;; err ← sched_park thread; assert_ (bool_decide (err = 0));; thread_unlock thread);; C) (kt s h m) Q.
Proof.
  intros HC Hcur HN HE HO. pose proof (co_lay _ _ _ _ _ _ HC) as HL. wp_step. unfold sched_getembryo. eapply (wp_pop s h m F embryo_queue mret); [done|apply emb_Ss|..].
  - intros He h1 F1 HC1 Em1 Hlo1. wp_step. rewrite bool_decide_eq_false_2 by tauto. cbn [when]. wp_step. apply wp_ret. by apply (HE He h1 F1).
  - intros t l v h1 F1 El Hv Hg Hpl Hin HC1 Hpp Hlo1. pose proof (core_t_null _ _ _ _ _ _ _ _ HC Hv) as Htn. destruct (place_embryo _ _ _ _ _ HL Hpl Hin) as (Est & Eo & Esq).
    assert (t ∈ dom m) as Ht by (apply elem_of_dom; by eexists). set (v1 := t_set_lock true v) in *. set (v2 := t_set_state T_READY v1).
    wp_step. rewrite bool_decide_eq_true_2 by done. cbn [when]. wp_step. wp_step. apply (wp_enter _ _ _ _ v1); [done|by rewrite lookup_insert_eq|done|]. rewrite insert_insert_eq. wp_step.
    eapply (wp_park Hroom s h1 (<[t := v2]> m) F1 {[t]} ∅ t v2);
      [rewrite <- (insert_insert_eq m t v2 v1); eapply core_set_in; [exact HC1|rewrite dom_insert_L; set_solver|set_solver]|set_solver|by rewrite lookup_insert_eq|done|done|by destruct Hg| |apply disjoint_empty_l|lia|].
    { rewrite (pp_on _ _ _ _ _ Hpp), Eo. unfold without. by rewrite filter_cons, decide_False by tauto. }
    intros q v' h2 F2 Hset Hq Hr Hg' HC2 Hpo Ho2 Hlo2. rewrite insert_insert_eq in *. wp_step. apply wp_assert; [done|].
    assert (woken (k_cpus s) v v' q) as Hw by (destruct Hset as (P & Y & -> & HP); by split).
    apply (wp_tunlock _ _ _ _ v'); [done|by rewrite lookup_insert_eq|apply Hw|]. rewrite insert_insert_eq.
    apply (HO t l v v' q h2 F2); [done|done|done|done| | |done|done|lia].
    + rewrite <- (insert_insert_eq m t _ v'). eapply core_unlock_thread; [by rewrite union_empty_l_L|by rewrite lookup_insert_eq|apply Hw|].
      eapply place_woken; [exact Hw|by rewrite Hcur|by left|done].
    + eapply popped_moved; [exact HC|done|by eapply Ss_Qs, emb_Ss|by apply (ly_level _ _ _ _ HL)| |exact El|exact Hpp|exact Hpo].
      intros <-. by apply (ly_emb _ _ _ _ HL), elem_of_union_l.
Qed.

(** The first thread of the first level that has one. *)
Record picked K F F' (ls : list level_t) t v v' : Prop := {
  pk_where : ∃ ls1 lvl ls2 l, ls = ls1 ++ lvl :: ls2 ∧ (∀ x, x ∈ ls1 -> mem F (level_queue x) = []) ∧ mem F (level_queue lvl) = t :: l ∧
    popped F F' (level_queue lvl) t l ∧ v' = t_set_timeslice (quatum lvl) (t_set_lock true v) ∧ run_queue K (ts_processor v) (ts_priority v) = Some (level_queue lvl) ∧
    on F t = [level_queue lvl];
  pk_state : t_state v = T_READY;
  pk_sleep : t_sleep_queue v = NULL ∨ t_sleep_queue v ∈ SQ;
  pk_good : good K v;
  pk_on : on F' t = [];
}.
Lemma wp_next_level s ls : (∀ l, l ∈ ls -> level_queue l ∈ LQ) -> ∀ h m F (Q : ptr -> sys -> Prop),
  core s h m F ∅ ∅ ->
  ((∀ l, l ∈ ls -> mem F (level_queue l) = []) -> ∀ h' F', core s h' m F' ∅ ∅ -> (∀ x, mem F' x = mem F x) -> (load_of h' <= load_of h)%nat -> Q NULL (kt s h' m)) ->
  (∀ t v v' h' F', m !! t = Some v -> t ≠ k_current s -> picked (k_cpus s) F F' ls t v v' -> core s h' (<[t := v']> m) F' {[t]} ∅ -> (2 + load_of h' <= load_of h)%nat ->
     Q t (kt s h' (<[t := v']> m))) ->
  wp (next_level ls) (kt s h m) Q.
Proof.
  induction ls as [|lvl ls IH]; intros Hls h m F Q HC HE HO.
  { apply wp_ret. apply (HE ltac:(by intros ? ?%elem_of_nil) h F); done. }
  assert (level_queue lvl ∈ LQ) as Hq by (apply Hls, list_elem_of_here). cbn [next_level]. eapply wp_pop; [exact HC|by apply LQ_Ss|..].
  - intros He h1 F1 HC1 Em1 Hlo1. rewrite decide_True by done. apply (IH ltac:(intros; by apply Hls, list_elem_of_further) h1 m F1); [done|..].
    + intros Hall h' F' HC' Em' Hlo'. apply (HE ltac:(intros l [->|Hl]%elem_of_cons; [done|rewrite <- Em1; auto]) h' F'); [done|intros; by rewrite Em'|lia].
    + intros t v v' h' F' Hv Hc [(ls1 & x & ls2 & l & E1 & E2 & E3 & E4 & E5 & E6 & E7) P2 P3 P4 P5] HC' Hlo'. apply (HO t v v' h' F'); [done|done| |done|lia].
      assert (∀ y, on F1 y = on F y) as Eon by (intros y; unfold on; by rewrite Em1). split; [|done..].
      exists (lvl :: ls1), x, ls2, l. rewrite <- Eon, <- Em1. split; [by rewrite E1|]. split; [intros y [->|Hy]%elem_of_cons; [done|rewrite <- Em1; auto]|]. split; [done|]. split; [|done].
      destruct E4. split; [done|intros; rewrite <- Em1; auto|by rewrite <- Eon].
  - intros t l v h1 F1 El Hv Hg Hpl Hin HC1 Hpp Hlo1. pose proof (core_t_null _ _ _ _ _ _ _ _ HC Hv) as Htn. rewrite decide_False by done.
    destruct (place_level _ _ _ _ _ _ (co_lay _ _ _ _ _ _ HC) Hpl Hin Hq) as (Est & Eo & Hc & Hsl & Hr).
    wp_step. apply (wp_tupd _ _ _ _ (t_set_lock true v)); [done|by rewrite lookup_insert_eq|]. rewrite insert_insert_eq. apply wp_ret.
    apply (HO t v _ h1 F1); [done|done| |rewrite <- (insert_insert_eq m t _ (t_set_lock true v)); eapply core_set_in; [done|rewrite dom_insert_L; set_solver|set_solver]|lia].
    split; try done; [exists [], lvl, ls, l; split_and!; try done; by intros ? ?%elem_of_nil|]. rewrite (pp_on _ _ _ _ _ Hpp), Eo. unfold without. by rewrite filter_cons, decide_False by tauto.
Qed.

(** A new thread, if there is one, goes to its run queue first. *)
Definition entered K F F' m m' : Prop :=
  (mem F embryo_queue = [] ∧ m' = m ∧ ∀ x, mem F' x = mem F x) ∨
  (∃ t l v v' q, mem F embryo_queue = t :: l ∧ m !! t = Some v ∧ t_state v = T_EMBRYO ∧ woken K v v' q ∧ m' = <[t := t_set_lock false v']> m ∧
     moved F F' embryo_queue q t ∧ on F t = [embryo_queue] ∧ on F' t = [q]).
Lemma wp_sched_next s h m F c (Q : ptr -> sys -> Prop) :
  core s h m F ∅ ∅ -> k_current s = NULL -> k_cpus s !! cpu = Some c -> (load_of h <= N)%nat ->
  (∀ m1 F1 h1 h' F', core s h1 m1 F1 ∅ ∅ -> entered (k_cpus s) F F1 m m1 -> (∀ l, l ∈ queueq c -> mem F1 (level_queue l) = []) ->
     core s h' m1 F' ∅ ∅ -> (∀ x, mem F' x = mem F1 x) -> (load_of h' <= load_of h)%nat -> Q NULL (kt s h' m1)) ->
  (∀ m1 F1 h1 t v v' h' F', core s h1 m1 F1 ∅ ∅ -> entered (k_cpus s) F F1 m m1 -> m1 !! t = Some v -> picked (k_cpus s) F1 F' (queueq c) t v v' ->
     core s h' (<[t := v']> m1) F' {[t]} ∅ -> (2 + load_of h' <= load_of h)%nat -> Q t (kt s h' (<[t := v']> m1))) ->
  wp sched_next (kt s h m) Q.
Proof.
  intros HC Hcur Hc HN HE HO. pose proof (co_lay _ _ _ _ _ _ HC) as HL. destruct (ly_levels _ _ _ _ HL _ _ Hc) as [_ Hls]. destruct (ly_cpu _ _ _ _ HL) as [Hcn _].
  assert (∀ h1 m1 F1, core s h1 m1 F1 ∅ ∅ -> entered (k_cpus s) F F1 m m1 -> (load_of h1 <= load_of h)%nat -> wp (c ← load (V := cpu_t) cpu; next_level (queueq c)) (kt s h1 m1) Q) as Hrest.
  { intros h1 m1 F1 HC1 Hen Hlo1. wp_step. eapply wp_load; [done|exact Hc|]. eapply (wp_next_level s (queueq c) Hls h1 m1 F1); [done|..].
    - intros Hall h' F' HC' Em' Hlo'. eapply (HE m1 F1 h1 h' F'); try done. lia.
    - intros t v v' h' F' Hv Hne Hpk HC' Hlo'. eapply (HO m1 F1 h1 t v v' h' F'); try done. lia. }
  unfold sched_next. eapply wp_embryo; [exact HC|done|done|..].
  - intros He h1 F1 HC1 Em1 Hlo1. eapply Hrest; [done| |done]. by left.
  - intros t l v v' q h1 F1 E1 E2 E3 E4 HC1 E6 E7 E8 Hlo1. eapply Hrest; [done| |done]. right. by exists t, l, v, v', q.
Qed.

(** The processor is given to another thread. *)
Lemma core_cur s c h m F X U :
  core s h m F X U -> k_current s ∈ X ∨ k_current s = NULL -> c ∈ X ∨ c = NULL -> core (k_set_current c s) h m F X U.
Proof.
  intros HC H1 H2. assert (∀ t v, m !! t = Some v -> t ≠ NULL) as Hn by (intros t v; by eapply core_t_null). destruct HC as [? ? ? ? ? ? ? Hth]. split; try done. intros t v Hv Hx. destruct (Hth t v Hv Hx) as (Hl & Hg & Hp).
  split; [done|]. split; [done|]. specialize (Hn t v Hv). assert (t ≠ k_current s) by (intros ->; by destruct H1). assert (t ≠ c) by (intros ->; by destruct H2).
  unfold place in *. simpl. destruct (t_state v); try done; [rewrite decide_False in Hp by done; by rewrite decide_False by done|..]; naive_solver.
Qed.

Lemma wp_isz s h m t v st (Q : bool -> sys -> Prop) :
  t ≠ NULL -> m !! t = Some v -> t_lock v = true -> t_state v ≠ st -> Q false (kt s h m) -> wp (thread_isstate t st) (kt s h m) Q.
Proof. intros H1 H2 H3 H4 HQ. apply (wp_isstate _ _ _ _ v); [done..|]. by rewrite bool_decide_eq_false_2. Qed.

(** The switch to the address space of a thread leaves the state as it is. *)
Lemma wp_enter_space s h m t v (Q : unit -> sys -> Prop) :
  t ≠ NULL -> m !! t = Some v -> good (k_cpus s) v -> (∀ g, g ∈ G -> g ≠ NULL ∧ k_spins s !! g = Some (Spin false)) ->
  Q tt (kt s h m) -> wp (enter_space t) (kt s h m) Q.
Proof.
  intros Ht Hv [_ _ _ _ Hsp] Hspin HQ. unfold enter_space. wp_step. eapply wp_load; [done|exact Hv|]. case_decide as Hm; [by apply wp_ret|].
  destruct Hsp as [?|[Hg Hk]]; [done|]. destruct (Hspin _ Hg) as [Hgn Hgs]. set (g := mmap_guard (t_mmap v)) in *.
  unfold mmap_lock, mmap_focus, mmap_unlock. rewrite !(decide_False (P := t_mmap v = NULL)) by done. fold g.
  wp_step. eapply wp_obj_lock; [done|exact Hgs|done|]. wp_step. eapply wp_obj_assert_locked; [done|simpl; by rewrite lookup_insert_eq|done|].
  wp_step. eapply wp_obj_unlock; [done|simpl; by rewrite lookup_insert_eq|done|]. unfold arch_thread_setkstack. wp_step. wp_step. eapply wp_load; [done|exact Hv|]. apply wp_ret.
  rewrite decide_False by lia. rewrite bool_decide_true by done. apply wp_ret. simpl. rewrite insert_insert_eq, insert_id by done. by destruct s.
Qed.

Lemma wp_schedule_pick s h m F c (Q : bool -> sys -> Prop) :
  core (k_set_current NULL s) h m F ∅ ∅ -> calm s (dom m) -> k_cpus s !! cpu = Some c -> (load_of h <= N)%nat ->
  (∀ m1 F1 h1 h' F', core (k_set_current NULL s) h1 m1 F1 ∅ ∅ -> entered (k_cpus s) F F1 m m1 -> (∀ l, l ∈ queueq c -> mem F1 (level_queue l) = []) ->
     core (k_set_current NULL s) h' m1 F' ∅ ∅ -> (∀ x, mem F' x = mem F1 x) -> (load_of h' <= load_of h)%nat -> Q false (kt (k_set_current NULL s) h' m1)) ->
  (∀ m1 F1 h1 t v v' h' F', core (k_set_current NULL s) h1 m1 F1 ∅ ∅ -> entered (k_cpus s) F F1 m m1 -> m1 !! t = Some v -> picked (k_cpus s) F1 F' (queueq c) t v v' ->
     core (k_set_current t s) h' (<[t := v']> m1) F' {[t]} ∅ -> (2 + load_of h' <= load_of h)%nat -> has (t_flags v) THREAD_KILLED = false ->
     Q true (kt (k_set_current t s) h' (<[t := v']> m1))) ->
  (∀ m1 F1 h1 t v v' h2 F2 m' h' F' n, core (k_set_current NULL s) h1 m1 F1 ∅ ∅ -> entered (k_cpus s) F F1 m m1 -> m1 !! t = Some v -> picked (k_cpus s) F1 F2 (queueq c) t v v' ->
     core (k_set_current t s) h2 (<[t := v']> m1) F2 {[t]} ∅ -> has (t_flags v) THREAD_KILLED = true ->
     let w := t_set_exit (- EINTR) (t_set_state T_TERMINATED v') in
     core (k_set_current t s) h' m' F' {[t]} ∅ -> ended (k_cpus s) F2 F' (<[t := w]> m1) m' t w -> (load_of h' <= load_of h)%nat ->
     Q false (kt (counted (k_set_current t s) (t_wait t) n) h' m')) ->
  wp schedule_pick (kt s h m) Q.
Proof.
  intros HC Hca Hc HN HE HO HK. unfold schedule_pick, set_current. wp_step. apply wp_modify. change (k_set_current NULL (kt s h m)) with (kt (k_set_current NULL s) h m).
  wp_step. eapply wp_sched_next; [exact HC|done|exact Hc|done|..].
  { intros m1 F1 h1 h' F' H1 H2 H3 H4 H5 H6. rewrite decide_True by done. apply wp_ret. by eapply (HE m1 F1 h1). }
  intros m1 F1 h1 t v v' h2 F2 HC1 Hen Hv Hpk HC2 Hlo2. pose proof (core_t_null _ _ _ _ _ _ _ _ HC1 Hv) as Htn. rewrite decide_False by done.
  destruct Hpk as [(ls1 & lvl & ls2 & l & E1 & E2 & E3 & E4 & E5 & E6 & E7) P2 P3 P4 P5] eqn:Epk. clear Epk.
  assert (t_lock v' = true ∧ t_state v' = T_READY ∧ t_flags v' = t_flags v ∧ good (k_cpus s) v') as (Hl & Hst & Hfl & Hg) by (rewrite E5; destruct P4; by split_and!).
  wp_step. apply wp_modify. change (k_set_current t (kt ?s0 h2 ?mm)) with (kt (k_set_current t s) h2 mm). set (s1 := k_set_current t s).
  assert (core s1 h2 (<[t := v']> m1) F2 {[t]} ∅) as HC3. { apply (core_cur (k_set_current NULL s) t); [done|by right|left; set_solver]. }
  assert (<[t := v']> m1 !! t = Some v') as Hv' by (by rewrite lookup_insert_eq).
  wp_step. unfold current_assert_locked. wp_step. apply wp_current. apply (wp_tassert _ _ _ _ v'); [done..|].
  wp_step. unfold orM. wp_step. apply (wp_isz _ _ _ _ v'); [done|done|done|by rewrite Hst|]. wp_step. apply (wp_isset _ _ _ _ v'); [done..|]. rewrite Hfl.
  destruct (has (t_flags v) THREAD_KILLED) eqn:Ek.
  - apply wp_ret. wp_step. apply (wp_isz _ _ _ _ v'); [done|done|done|by rewrite Hst|]. wp_step. apply (wp_enter _ _ _ _ v'); [done..|]. rewrite insert_insert_eq.
    wp_step. apply (wp_isset _ _ _ _ (t_set_state T_TERMINATED v')); [done|by rewrite lookup_insert_eq|done|]. simpl t_flags. rewrite Hfl, Ek. cbn [when].
    wp_step. apply (wp_tupd _ _ _ _ (t_set_state T_TERMINATED v')); [done|by rewrite lookup_insert_eq|]. rewrite insert_insert_eq. set (w := t_set_exit _ _).
    assert (t ∈ dom m1) as Ht by (apply elem_of_dom; by eexists). assert (dom m1 = dom m) as Ed.
    { destruct Hen as [(_ & -> & _)|(x & _ & vx & ? & ? & _ & Hx & _ & _ & -> & _)]; [done|]. rewrite dom_insert_L. apply elem_of_dom_2 in Hx. set_solver. }
    wp_step. eapply (wp_self_destruct s1 h2 (<[t := w]> m1) F2 t w); [done| |split; [|by apply Hca]|by rewrite lookup_insert_eq|done|by destruct Hg|done|lia|].
    + rewrite <- (insert_insert_eq m1 t w v'). eapply core_set_in; [done|rewrite dom_insert_L; set_solver|set_solver].
    + intros t' Ht'. apply (ca_cond _ _ Hca). rewrite dom_insert_L in Ht'. set_solver.
    + intros h' m' F' n HC' Hend Hlo'. apply wp_ret. eapply (HK m1 F1 h1 t v v' h2 F2 m' h' F' n); try done. lia.
  - wp_step. apply (wp_isz _ _ _ _ v'); [done|done|done|by rewrite Hst|]. apply (wp_isz _ _ _ _ v'); [done|done|done|by rewrite Hst|].
    wp_step. eapply (wp_enter_space _ _ _ _ v'); [done|done|exact Hg|apply Hca|]. apply wp_ret. by eapply (HO m1 F1 h1 t v v' h2 F2).
Qed.
End step.
