(* ===== verification/SchedProps.v ===== *)
(** * Properties of the scheduler

    What threads do on one processor as events, the invariant that all of them
    keep, and who runs next. *)

From S2P Require Import Prelude Dll Heap Queue Lock Sched SchedSpec SchedInv SchedStep.

(** ** Events *)

(** A thread that runs yields, sleeps on a queue (releasing a lock), waits on a
    condition variable, ends, wakes or kills others or starts a new one; when
    none runs, the scheduler picks one, which goes on behind its last switch. *)
Variant event :=
  | Yield
  | Sleep (q : ptr) (st : tstate_t) (lk : ptr)
  | Wait (c : ptr)
  | Exit (code : Z)
  | Wake1 (q : ptr)
  | WakeAll (q : ptr)
  | Signal (c : ptr)
  | Broadcast (c : ptr)
  | Wake (t : ptr)
  | Kill (t : ptr)
  | Start (t : ptr)
  | Pick.
#[export] Instance event_eq_dec : EqDecision event.
Proof. solve_decision. Defined.

Section events.
Context {KM : Kmalloc} {MC : Machine}.

(** The picked thread goes on: behind the switch in [sched_sleep] if it slept. *)
Definition resume : M sys unit :=
  t ← current;
  v ← load (V := thread_t) t;
  if decide (t_sleep_queue v = NULL) then current_unlock else
  sched_sleep_end (t_sleep_guard v);;
  current_unlock;;
  when (bool_decide (t_sleep_guard v ≠ NULL)) (spin_unlock (t_sleep_guard v)).

(** The result says whether a thread runs afterwards. *)
Definition run_event (e : event) : M sys bool :=
  match e with
  | Yield => sw ← sched_yield; if sw : bool then schedule_return;; mret false else current_unlock;; mret true
  | Sleep q st lk =>
      when (bool_decide (lk ≠ NULL)) (spin_lock lk);;
      current_lock;;
      '(err, sw) ← sched_sleep q st lk;
      if decide (err ≠ 0) then current_unlock;; when (bool_decide (lk ≠ NULL)) (spin_unlock lk);; mret true else
      if sw : bool then schedule_return;; mret false else
      sched_sleep_end lk;; current_unlock;; when (bool_decide (lk ≠ NULL)) (spin_unlock lk);; mret true
  | Wait c => w ← cond_wait c; match w with None => schedule_return;; mret false | Some _ => mret true end
  | Exit code => sw ← thread_exit code; if sw : bool then schedule_return;; mret false else halt Panic
  | Wake1 q => sched_wake1 q;; mret true
  | WakeAll q => sched_wakeall q;; mret true
  | Signal c => cond_signal c;; mret true
  | Broadcast c => cond_broadcast c;; mret true
  | Wake t => thread_lock t;; thread_wake t;; thread_unlock t;; mret true
  | Kill t => thread_lock t;; kill_mark t;; thread_unlock t;; mret true
  | Start t => thread_lock t;; thread_schedule t;; thread_unlock t;; mret true
  | Pick => b ← schedule_pick; when b resume;; mret b
  end.
End events.

(** ** The invariant *)

Section props.
Context {KM : Kmalloc} {MC : Machine} {AR : Areas} {N : nat} (Hroom : ∀ n D, km_choose n D = None -> (N <= size D)%nat).
Implicit Types (s : sys) (h : dsheap) (F : fam) (m : gmap ptr thread_t) (q t g : ptr) (v : thread_t) (K : gmap ptr cpu_t) (X U : gset ptr).

(** The threads on no queue of the scheduler. *)
Definition idle F m : gset ptr := filter (λ t, on F t = []) (dom m).
Lemma idle_le F F' m m' : dom m' = dom m -> (∀ t, t ∈ dom m -> on F' t = [] -> on F t = []) -> (size (idle F' m') <= size (idle F m))%nat.
Proof. intros Ed H. apply subseteq_size. intros t. unfold idle. rewrite !elem_of_filter, Ed. naive_solver. Qed.
Lemma idle_lt F F' m m' t0 :
  dom m' = dom m -> t0 ∈ dom m -> on F t0 = [] -> on F' t0 ≠ [] -> (∀ t, t ∈ dom m -> t ≠ t0 -> on F' t = [] -> on F t = []) ->
  (S (size (idle F' m')) <= size (idle F m))%nat.
Proof.
  intros Ed H0 H1 H2 H. assert (idle F' m' ⊂ idle F m) as Hs; [|by apply subset_size in Hs; lia]. split.
  - intros t. unfold idle. rewrite !elem_of_filter, Ed. intros [E Ht]. split; [|done]. apply H; [done|by intros ->|done].
  - intros Hs. specialize (Hs t0). unfold idle in Hs. rewrite !elem_of_filter in Hs. naive_solver.
Qed.
Lemma idle_add F F' m m' t0 :
  dom m' = dom m -> (∀ t, t ∈ dom m -> t ≠ t0 -> on F' t = [] -> on F t = []) -> (size (idle F' m') <= S (size (idle F m)))%nat.
Proof.
  intros Ed H. assert (idle F' m' ⊆ {[t0]} ∪ idle F m) as Hs.
  { intros t. unfold idle. rewrite elem_of_union, elem_of_singleton, !elem_of_filter, Ed. intros [E Ht]. destruct (decide (t = t0)) as [->|]; [by left|right; auto]. }
  apply subseteq_size in Hs. rewrite size_union_alt, size_singleton in Hs. pose proof (subseteq_size (idle F m ∖ {[t0]}) (idle F m) ltac:(set_solver)). lia.
Qed.

(** The invariant: every thread is where its state says ([core]), no lock is
    held, and there is memory for the two nodes that each thread outside the
    queues needs to go on one. *)
Record sinv s F : Prop := {
  si_core : core s (k_ds s) (k_threads s) F ∅ ∅;
  si_calm : calm s (dom (k_threads s));
  si_room : (load_of (k_ds s) + 2 * size (idle F (k_threads s)) <= N)%nat;
}.
Definition waiting s : Prop := ∃ F, sinv (k_set_current NULL s) F.
Definition lives s v : Prop := k_threads s !! k_current s = Some v ∧ t_state v = T_READY ∧ has (t_flags v) THREAD_KILLED = false.
Definition running s : Prop := ∃ F v, sinv s F ∧ lives s v.
Definition inv (r : bool) s : Prop := if r then running s else waiting s.

Lemma sinv_intro s h m F : core s h m F ∅ ∅ -> calm s (dom m) -> (load_of h + 2 * size (idle F m) <= N)%nat -> sinv (kt s h m) F.
Proof. intros HC [] HN. split; [by apply (core_sys s)|done|done]. Qed.

(** Which events can happen: sleep queues and locks are those of the layout, a
    thread does not kill itself, and a new one is not on a queue yet. *)
Definition allowed (r : bool) s (e : event) : Prop :=
  match e with
  | Pick => r = false
  | Yield | Exit _ => r = true
  | Sleep q st lk => r = true ∧ q ∈ SQ ∧ (st = T_ISLEEP ∨ st = T_USLEEP ∨ st = T_STOPPED) ∧ (lk = NULL ∨ lk ∈ G)
  | Wait c | Signal c | Broadcast c => r = true ∧ c ∈ SQ ∧ cond_guard c ∈ G ∧ is_Some (k_conds s !! c)
  | Wake1 q | WakeAll q => r = true ∧ q ∈ SQ
  | Wake t => r = true ∧ t ∈ dom (k_threads s)
  | Kill t => r = true ∧ t ∈ dom (k_threads s) ∧ t ≠ k_current s
  | Start t => r = true ∧ ∃ v, k_threads s !! t = Some v ∧ t_state v = T_EMBRYO
  end.

(** ** Giving up the processor *)

Lemma return_sinv s h m F t v :
  k_current s = t -> core s h m F {[t]} ∅ -> calm s (dom m) -> m !! t = Some v -> t_lock v = false -> good (k_cpus s) v -> place (k_cpus s) NULL t v (on F t) ->
  (load_of h + 2 * size (idle F m) <= N)%nat -> sinv (k_set_current NULL (kt s h m)) F.
Proof.
  intros Hcur HC Hca Hv Hl Hg Hp HN. apply (sinv_intro (k_set_current NULL s)); [|by destruct Hca|done].
  apply (core_cur s NULL) in HC; [|left; by apply elem_of_singleton|by right]. eapply core_close; [by rewrite union_empty_l_L|done|done|done|done].
Qed.

Lemma return_waiting s h m F t v :
  k_current s = t -> core s h m F {[t]} ∅ -> calm s (dom m) -> m !! t = Some v -> t_lock v = false -> good (k_cpus s) v -> place (k_cpus s) NULL t v (on F t) ->
  (load_of h + 2 * size (idle F m) <= N)%nat -> waiting (kt s h m).
Proof. intros. exists F. by eapply return_sinv. Qed.
(** What is left of a thread that was put on its run queue. *)
Definition parked s m F t v s' : Prop :=
  ∃ q v' F', settled v v' ∧ run_queue (k_cpus s) (ts_processor v') (ts_priority v) = Some q ∧ put_on F F' q t ∧ sinv (k_set_current NULL s') F' ∧
    k_threads s' = <[t := t_set_lock false v']> m ∧ k_cpus s' = k_cpus s.

(** [schedule_return] up to the switch over the state. *)
Lemma wp_return s h m t v (Q : unit -> sys -> Prop) :
  k_current s = t -> t ≠ NULL -> m !! t = Some v -> t_lock v = true -> has (t_flags v) THREAD_KILLED = false ->
  wp (match t_state v with
      | T_READY => sched_park t;; thread_unlock t
      | T_ISLEEP | T_USLEEP | T_STOPPED => thread_unlock t
      | T_TERMINATED => sched_self_destruct
      | T_EMBRYO | T_RUNNING | T_ZOMBIE => halt Panic
      end) (kt s h m) Q -> wp schedule_return (kt s h m) Q.
Proof.
  intros <- Hn Hv Hl Hk HQ. unfold schedule_return. wp_step. apply wp_current. wp_step. apply (wp_tassert _ _ _ _ v); [done..|]. wp_step. apply (wp_isset _ _ _ _ v); [done..|].
  rewrite Hk. cbn [when]. wp_step. apply wp_ret. wp_step. by apply (wp_getstate _ _ _ _ v).
Qed.

Section current.
Context s h m F t v (Hcur : k_current s = t) (HC : core s h m F {[t]} ∅) (Hca : calm s (dom m)) (Hv : m !! t = Some v) (Hl : t_lock v = true)
  (Hk : has (t_flags v) THREAD_KILLED = false) (Hg : good (k_cpus s) v).

Lemma cur_null : t ≠ NULL.
Proof. by eapply core_t_null. Qed.
Lemma cur_dom : t ∈ dom m.
Proof. apply elem_of_dom. by eexists. Qed.
Lemma cur_set w : core s h (<[t := w]> m) F {[t]} ∅ ∧ dom (<[t := w]> m) = dom m.
Proof. pose proof cur_dom. split; [eapply core_set_in; [done|done|by apply elem_of_singleton]|by apply dom_put]. Qed.
Lemma put_idle q F' m' : put_on F F' q t -> q ∈ Ss -> on F t = [] -> dom m' = dom m -> (S (size (idle F' m')) <= size (idle F m))%nat.
Proof.
  intros Hpo Hq Ho Ed. pose proof cur_dom as Ht. eapply (idle_lt F F' m m' t); [done|done|done|by rewrite (on_put _ _ _ _ Hpo Hq), Ho|].
  intros t' Ht' Hne. rewrite (on_else F F' (dom m) q t t'); [done|apply HC|apply Hpo|by eapply Ss_Qs; [apply HC|]|done|done|done].
Qed.

(** [sched] of a thread that is not to be parked gives up the processor. *)
Lemma wp_sched (Q : bool -> sys -> Prop) : Q true (kt s h m) -> wp sched (kt s h m) Q.
Proof.
  intros HQ. pose proof cur_null as Hn. unfold sched. wp_step. apply wp_current. rewrite Hcur. wp_step. apply (wp_tassert _ _ _ _ v); [done..|].
  wp_step. unfold andM. wp_step. apply (wp_ttest _ _ _ _ v); [done..|]. rewrite (gd_par _ _ Hg). by repeat wp_step.
Qed.

(** The thread was put on its run queue. *)
Lemma return_ready :
  t_state v = T_READY -> t_sleep_queue v = NULL -> on F t = [] -> (load_of h + 2 * size (idle F m) <= N)%nat ->
  wp schedule_return (kt s h m) (λ _ s', waiting s' ∧ parked s m F t v s').
Proof.
  intros Hst Hsl Ho HN. pose proof cur_null as Hn. pose proof cur_dom as Ht. apply (wp_return _ _ _ t v); [done..|]. rewrite Hst. wp_step.
  assert (0 < size (idle F m))%nat as Hpos. { pose proof (subseteq_size {[t]} (idle F m)) as Hs. rewrite size_singleton in Hs. apply Hs. intros x ->%elem_of_singleton. unfold idle. by rewrite elem_of_filter. }
  eapply (wp_park Hroom s h m F {[t]} ∅ t v); [done|by apply elem_of_singleton|done|done|by rewrite Hst|done|done|apply disjoint_empty_l|lia|].
  intros q v' h' F' Hset Hq Hr Hg' HC' Hpo Ho' Hlo. assert (t_lock v' = true) as Hl' by (by destruct Hset as (P & Y & -> & _)).
  apply (wp_tunlock _ _ _ _ v'); [done|by rewrite lookup_insert_eq|done|]. rewrite insert_insert_eq. destruct (cur_set (t_set_lock false v')) as [_ Ed].
  assert (sinv (k_set_current NULL (kt s h' (<[t := t_set_lock false v']> m))) F') as Hw; [|split; [by exists F'|by exists q, v', F']].
  eapply (return_sinv s h' _ F' t (t_set_lock false v')); [done| |by rewrite Ed|by rewrite lookup_insert_eq|done|by apply good_put_lock| |].
  - rewrite <- (insert_insert_eq m t _ v'). eapply core_set_in; [done|by rewrite dom_put|by apply elem_of_singleton].
  - rewrite Ho'. destruct Hset as (P & Y & -> & HP). unfold place. simpl. rewrite Hst, decide_False by done. split; [by left|]. by exists q.
  - pose proof (put_idle q F' (<[t := t_set_lock false v']> m) Hpo (LQ_Ss _ Hq) Ho Ed). lia.
Qed.
Lemma return_asleep q : asleep v -> q ∈ SQ -> t_sleep_queue v = q -> on F t = [q] -> (load_of h + 2 * size (idle F m) <= N)%nat ->
  wp schedule_return (kt s h m) (λ _ s', waiting s').
Proof.
  intros Has Hq Hsl Ho HN. pose proof cur_null as Hn. pose proof cur_dom as Ht. apply (wp_return _ _ _ t v); [done..|].
  destruct (cur_set (t_set_lock false v)) as [HC' Ed].
  assert (wp (thread_unlock t) (kt s h m) (λ _ s', waiting s')) as Hu; [|by destruct Has as [->|[->| ->]]].
  apply (wp_tunlock _ _ _ _ v); [done..|].
  apply (return_waiting s h _ F t (t_set_lock false v)); [done|done|by rewrite Ed|by rewrite lookup_insert_eq|done|by apply good_put_lock| |].
  - unfold place. simpl. rewrite Ho, Hsl. destruct Has as [->|[->| ->]]; done.
  - etrans; [|exact HN]. apply Nat.add_le_mono_l, Nat.mul_le_mono_l, idle_le; [done|auto].
Qed.
Lemma return_end : t_state v = T_TERMINATED -> on F t = [] -> (load_of h + 2 * size (idle F m) <= N)%nat ->
  wp schedule_return (kt s h m) (λ _ s', waiting s').
Proof.
  intros Hst Ho HN. pose proof cur_null as Hn. pose proof cur_dom as Ht. apply (wp_return _ _ _ t v); [done..|]. rewrite Hst.
  assert (0 < size (idle F m))%nat as Hpos. { pose proof (subseteq_size {[t]} (idle F m)) as Hs. rewrite size_singleton in Hs. apply Hs. intros x ->%elem_of_singleton. unfold idle. by rewrite elem_of_filter. }
  eapply (wp_self_destruct Hroom s h m F t v); [done|done|done|done|done|done|done|lia|]. intros h' m' F' n HC' Hend Hlo.
  eapply (return_waiting (counted s (t_wait t) n) h' m' F' t); [done|by apply core_counted|rewrite (en_dom _ _ _ _ _ _ _ Hend); by apply calm_counted|apply Hend|done|by destruct Hg| |].
  - unfold place. simpl. apply Hend.
  - assert (S (size (idle F' m')) <= size (idle F m))%nat; [|lia]. apply (idle_lt _ _ _ _ t); [apply Hend|done|done|by rewrite (en_on _ _ _ _ _ _ _ Hend)|apply Hend].
Qed.
End current.

(** ** What the running thread does *)

Section running.
Context s F v (HS : sinv s F) (HL : lives s v).
Let t : ptr := k_current s.
Let m : gmap ptr thread_t := k_threads s.
Let v1 : thread_t := t_set_lock true v.

Lemma run_facts : t ≠ NULL ∧ t ∈ dom m ∧ t_lock v = false ∧ good (k_cpus s) v ∧ on F t = [] ∧ t_sleep_queue v = NULL.
Proof.
  destruct HL as (Hv & Hst & _). destruct (co_thread _ _ _ _ _ _ (si_core _ _ HS) _ _ Hv (not_elem_of_empty _)) as (H1 & H2 & H3).
  unfold place in H3. rewrite Hst, decide_True in H3 by done. split; [by eapply core_t_null; [apply HS|]|]. split; [apply elem_of_dom; by eexists|]. naive_solver.
Qed.
Lemma run_core w : core s (k_ds s) (<[t := w]> m) F {[t]} ∅ ∧ dom (<[t := w]> m) = dom m.
Proof.
  destruct run_facts as (_ & Ht & _). split; [|by apply dom_put]. pose proof (core_set _ _ _ _ _ _ t w (si_core _ _ HS) Ht) as H. by rewrite union_empty_l_L in H.
Qed.
Lemma run_room w : (load_of (k_ds s) + 2 * size (idle F (<[t := w]> m)) <= N)%nat.
Proof. destruct (run_core w) as [_ Ed]. etrans; [|apply (si_room _ _ HS)]. apply Nat.add_le_mono_l, Nat.mul_le_mono_l, idle_le; auto. Qed.
Lemma wp_current_lock s' h (Q : unit -> sys -> Prop) :
  k_current s' = t -> Q tt (kt s' h (<[t := v1]> m)) -> wp current_lock (kt s' h m) Q.
Proof.
  intros Hc HQ. destruct run_facts as (Hn & _ & Hl & _). destruct HL as (Hv & _). unfold current_lock. wp_step. apply wp_current. rewrite Hc. by apply (wp_tlock _ _ _ _ v).
Qed.

Lemma yield_ok : wp (run_event Yield) s (λ r s', r = false ∧ waiting s' ∧ parked s (<[t := t_set_state T_READY v1]> m) F t (t_set_state T_READY v1) s').
Proof.
  destruct run_facts as (Hn & Ht & Hl & Hg & Ho & Hsl). destruct HL as (Hv & Hst & Hk). rewrite <- (kt_id s). cbn [run_event].
  wp_step. unfold sched_yield. wp_step. apply wp_current_lock; [done|]. wp_step. apply wp_current. fold t.
  wp_step. apply (wp_tupd _ _ _ _ v1); [done|by rewrite lookup_insert_eq|]. rewrite insert_insert_eq. set (v2 := t_set_state T_READY v1).
  destruct (run_core v2) as [HC2 Ed2]. assert (calm s (dom (<[t := v2]> m))) as Hca by (rewrite Ed2; apply HS). assert (good (k_cpus s) v2) as Hg2 by (by destruct Hg).
  eapply (wp_sched s _ _ F t v2); [done|done|by rewrite lookup_insert_eq|done|done|]. wp_step.
  eapply wp_mono; [eapply (return_ready s _ _ F t v2); try done; [by rewrite lookup_insert_eq|apply run_room]|]. intros [] s' Hw. by apply wp_ret.
Qed.
Lemma ev_yield : wp (run_event Yield) s (λ r s', inv r s').
Proof. eapply wp_mono; [apply yield_ok|]. by intros r s' (-> & ? & _). Qed.

Lemma ev_exit code : wp (run_event (Exit code)) s (λ r s', inv r s').
Proof.
  destruct run_facts as (Hn & Ht & Hl & Hg & Ho & Hsl). destruct HL as (Hv & Hst & Hk). rewrite <- (kt_id s). cbn [run_event].
  wp_step. unfold thread_exit. wp_step. apply wp_current_lock; [done|]. wp_step. apply wp_current. fold t.
  wp_step. apply (wp_setflags _ _ _ _ v1); [done|by rewrite lookup_insert_eq|done|]. rewrite insert_insert_eq. set (v2 := t_set_flags _ v1).
  wp_step. apply (wp_tupd _ _ _ _ v2); [done|by rewrite lookup_insert_eq|]. rewrite insert_insert_eq. set (v3 := t_set_exit _ v2).
  wp_step. apply (wp_enter _ _ _ _ v3); [done|by rewrite lookup_insert_eq|done|]. rewrite insert_insert_eq. set (v4 := t_set_state _ v3).
  destruct (run_core v4) as [HC4 Ed4]. assert (calm s (dom (<[t := v4]> m))) as Hca by (rewrite Ed4; apply HS).
  assert (has (t_flags v4) THREAD_KILLED = false) as Hk4 by (simpl; by rewrite tflag_lor).
  assert (good (k_cpus s) v4) as Hg4 by (destruct Hg; split; [done|done|simpl; by rewrite tflag_lor..|done]).
  eapply (wp_sched s _ _ F t v4); [done|done|by rewrite lookup_insert_eq|done|done|]. wp_step.
  eapply wp_mono; [eapply (return_end s _ _ F t v4); try done; [by rewrite lookup_insert_eq|apply run_room]|]. intros [] s' Hw. by apply wp_ret.
Qed.

Lemma run_positive w : (0 < size (idle F (<[t := w]> m)))%nat.
Proof.
  destruct run_facts as (_ & Ht & _ & _ & Ho & _). destruct (run_core w) as [_ Ed]. pose proof (subseteq_size {[t]} (idle F (<[t := w]> m))) as Hs. rewrite size_singleton in Hs. apply Hs.
  intros x ->%elem_of_singleton. unfold idle. by rewrite elem_of_filter, Ed.
Qed.
(** Going to sleep, on a state that differs by locks and counts only. *)
Lemma run_sleep s1 q st lk :
  k_cpus s1 = k_cpus s -> k_current s1 = t -> calm (if decide (lk = NULL) then s1 else spun s1 lk false) (dom m) -> (∀ g, is_Some (k_spins s !! g) -> is_Some (k_spins s1 !! g)) ->
  q ∈ SQ -> st = T_ISLEEP ∨ st = T_USLEEP ∨ st = T_STOPPED -> lk = NULL ∨ (lk ∈ G ∧ k_spins s1 !! lk = Some (Spin true)) ->
  wp (sched_sleep q st lk) (kt s1 (k_ds s) (<[t := v1]> m)) (λ r s', r = (0, true) ∧ wp schedule_return s' (λ _ s'', waiting s'')).
Proof.
  intros Ek Ec Hca Hsp Hq Hst Hlk. destruct run_facts as (Hn & Ht & Hl & Hg & Ho & Hsl). destruct HL as (Hv & Hrd & Hk).
  destruct (run_core v1) as [HC1 Ed1]. apply (core_sys s s1) in HC1; [|done|done|done]. pose proof (run_positive v1) as Hpos. pose proof (run_room v1) as HN.
  assert (q ∈ Qs) as Hqq by (eapply Ss_Qs; [apply HC1|by apply SQ_Ss]). pose proof (core_q_null _ _ _ _ _ _ _ HC1 Hqq) as Hqn.
  unfold sched_sleep. rewrite decide_False by done. wp_step. unfold current_assert_locked. wp_step. apply wp_current. rewrite Ec. apply (wp_tassert _ _ _ _ v1); [done|by rewrite lookup_insert_eq|done|].
  wp_step. apply wp_current. rewrite Ec. assert (t ∉ mem F q) as Hnq by (eapply not_on; [exact HC1|by rewrite Ed1|done|by apply SQ_Ss]).
  wp_step. eapply (wp_thread_enqueue Hroom); [apply HC1|apply HC1|exact Hqq|by rewrite Ed1|apply HC1; [done|apply not_elem_of_empty]|by intros ?|intros _ HN'; lia|].
  intros _ node h2 F2 HF2 HA2 Hpo Hlo2. rewrite decide_False by tauto.
  wp_step. eapply (wp_tupd _ _ _ _ v1); [done|by rewrite lookup_insert_eq|]. rewrite insert_insert_eq. set (v2 := t_set_sleep _ _ _ v1).
  wp_step. eapply (wp_enter _ _ _ _ v2); [done|by rewrite lookup_insert_eq|done|]. rewrite insert_insert_eq. set (v3 := t_set_state _ v2).
  wp_step. eapply (wp_tupd _ _ _ _ v3); [done|by rewrite lookup_insert_eq|]. rewrite insert_insert_eq. set (v4 := t_set_sleep _ _ _ v3). set (s2 := if decide (lk = NULL) then s1 else spun s1 lk false) in *.
  wp_step. match goal with |- wp _ _ ?R => enough (R tt (kt s2 h2 (<[t := v4]> m))) as Hgo end.
  { unfold s2 in Hgo. destruct (decide (lk = NULL)) as [->|Hlkn]; [rewrite bool_decide_eq_false_2 by tauto; by apply wp_ret|].
    rewrite bool_decide_eq_true_2 by done. cbn [when]. destruct Hlk as [|[HG Hb]]; [done|]. by apply wp_spin_unlock. }
  assert (k_current s2 = t ∧ k_cpus s2 = k_cpus s) as [Ec2 Ek2] by (unfold s2; by destruct (decide _)).
  assert (dom (<[t := v4]> m) = dom m) as Ed4 by (by apply dom_put).
  assert (good (k_cpus s2) v4) as Hg4. { rewrite Ek2. destruct Hg. split; try done. simpl. destruct Hlk as [->|[? _]]; [by left|by right]. }
  assert (core s2 h2 (<[t := v4]> m) F2 {[t]} ∅) as HC2.
  { apply (core_sys s1); [by rewrite Ek2|by rewrite Ec2|intros g; unfold s2; destruct (decide _); [done|intros; simpl; apply lookup_insert_is_Some'; by right]|].
    rewrite <- (insert_insert_eq m t v4 v1). eapply core_set_in; [|rewrite Ed1; done|by apply elem_of_singleton]. eapply core_put; [exact HC1|done|done|done|done|by rewrite Ed1|by apply elem_of_singleton]. }
  eapply (wp_bind sched), (wp_sched s2 _ _ F2 t v4); [done|done|by rewrite lookup_insert_eq|done|done|]. apply wp_ret. split; [done|].
  eapply (return_asleep s2 h2 _ F2 t v4); try done; [by rewrite Ed4|by rewrite lookup_insert_eq|by rewrite (on_put _ _ _ _ Hpo (SQ_Ss _ Hq)), Ho|].
  pose proof (put_idle s1 _ _ F t v1 HC1 ltac:(by rewrite lookup_insert_eq) q F2 (<[t := v4]> m) Hpo (SQ_Ss _ Hq) Ho ltac:(by rewrite Ed4, Ed1)). lia.
Qed.

Lemma wp_when_lock s0 h m0 lk (Q : unit -> sys -> Prop) :
  lk = NULL ∨ k_spins s0 !! lk = Some (Spin false) -> Q tt (kt (if decide (lk = NULL) then s0 else spun s0 lk true) h m0) ->
  wp (when (bool_decide (lk ≠ NULL)) (spin_lock lk)) (kt s0 h m0) Q.
Proof.
  intros Hlk HQ. destruct (decide (lk = NULL)) as [->|Hn]; [rewrite bool_decide_eq_false_2 by tauto; by apply wp_ret|].
  rewrite bool_decide_eq_true_2 by done. apply wp_spin_lock; [done|tauto|done].
Qed.

Lemma ev_sleep q st lk : allowed true s (Sleep q st lk) -> wp (run_event (Sleep q st lk)) s (λ r s', inv r s').
Proof.
  intros (_ & Hq & Hst & Hlk). rewrite <- (kt_id s). cbn [run_event]. pose proof (si_calm _ _ HS) as Hca. set (s1 := if decide (lk = NULL) then s else spun s lk true).
  wp_step. apply wp_when_lock; [destruct Hlk; [by left|right; by apply Hca]|]. fold s1.
  assert (k_cpus s1 = k_cpus s ∧ k_current s1 = t) as [Ek Ec] by (unfold s1; by destruct (decide _)). wp_step. apply wp_current_lock; [done|].
  wp_step. eapply wp_mono; [apply run_sleep; try done|].
  - unfold s1. destruct (decide (lk = NULL)) as [E|Hn]; [done|]. rewrite (spun_id s lk false); [done|]. apply Hca. tauto.
  - intros g Hg. unfold s1. destruct (decide _); [done|]. simpl. apply lookup_insert_is_Some'. by right.
  - destruct Hlk as [|Hlk]; [by left|]. assert (lk ≠ NULL) as Hn by (by apply Hca). right. split; [done|]. unfold s1. rewrite decide_False by done. simpl. by rewrite lookup_insert_eq.
  - intros r s' [-> Hw]. rewrite decide_False by tauto. wp_step. eapply wp_mono; [exact Hw|]. intros [] s'' Hw'. by apply wp_ret.
Qed.

(** The running thread goes on. *)
Lemma run_after s' h' m' F' :
  k_current s' = t -> core s' h' m' F' ∅ ∅ -> calm s' (dom m') -> m' !! t = Some v -> (load_of h' + 2 * size (idle F' m') <= N)%nat -> running (kt s' h' m').
Proof. intros Ec HC Hca Hv HN. exists F', v. split; [by apply sinv_intro|]. destruct HL as (_ & H1 & H2). unfold lives. simpl. by rewrite Ec. Qed.

Lemma ev_wait c : allowed true s (Wait c) -> wp (run_event (Wait c)) s (λ r s', inv r s').
Proof.
  intros (_ & Hq & HG & [x Hc]). destruct run_facts as (Hn & Ht & _). destruct HL as (Hv & _). pose proof (si_calm _ _ HS) as Hca. destruct (ca_spin _ _ Hca _ HG) as [Hgn Hsp].
  assert (c ≠ NULL) as Hcn by (eapply core_q_null; [apply HS|]; eapply Ss_Qs; [apply (si_core _ _ HS)|by apply SQ_Ss]).
  rewrite <- (kt_id s). cbn [run_event]. wp_step. unfold cond_wait. wp_step. apply wp_assert; [by apply bool_decide_eq_true|]. set (g := cond_guard c) in *.
  wp_step. apply wp_spin_lock; [done|done|]. wp_step. eapply (wp_load _ x); [done|exact Hc|]. wp_step. eapply (wp_update _ _ x); [done|exact Hc|]. set (n := u64 (c_count x + 1)).
  match goal with |- wp ?a _ ?R => change (wp a (kt (spun (counted s c n) g true) (k_ds s) m) R) end.
  assert (spun (spun (counted s c n) g true) g false = counted s c n) as Esp by (by apply spun_id). destruct (decide (s32 (c_count x) >= 0)).
  - wp_step. apply wp_current_lock; [done|]. wp_step. eapply wp_mono; [apply run_sleep; try done|].
    + rewrite decide_False by done. rewrite Esp. by apply calm_counted.
    + intros g' Hg'. simpl. apply lookup_insert_is_Some'. by right.
    + by left.
    + right. split; [done|]. simpl. by rewrite lookup_insert_eq.
    + intros r s' [-> Hw]. rewrite decide_False by tauto. apply wp_ret. wp_step. eapply wp_mono; [exact Hw|]. intros [] s'' Hw'. by apply wp_ret.
  - wp_step. apply wp_spin_unlock; [done|simpl; by rewrite lookup_insert_eq|]. rewrite Esp. apply wp_ret. apply wp_ret.
    apply (run_after _ _ _ F); [done|by apply core_counted, HS|by apply calm_counted|done|apply HS].
Qed.

Lemma moved_idle h m0 F0 F1 m' q q' t0 :
  core s h m0 F0 ∅ ∅ -> moved F0 F1 q q' t0 -> q ∈ Qs -> q' ∈ Qs -> t0 ∈ dom m0 -> on F1 t0 ≠ [] -> dom m' = dom m0 -> (size (idle F1 m') <= size (idle F0 m0))%nat.
Proof.
  intros HC Hmv Hq Hq' Ht0 Ho Ed. pose proof (co_agree _ _ _ _ _ _ HC) as HA. apply idle_le; [done|]. intros t' Ht' E. destruct (decide (t' = t0)) as [->|Hne]; [done|].
  revert E. unfold on. rewrite (mv_else _ _ _ _ _ Hmv); [done|by apply not_eq_sym, (ag_name _ _ _ HA)|by apply not_eq_sym, (ag_name _ _ _ HA)|].
  intros E. apply Hne. apply (t_queues_inj t' t0); [by apply (ag_valid _ _ _ HA)..|done].
Qed.
(** The state but for a lock that is held. *)
Definition alike s1 : Prop := k_cpus s1 = k_cpus s ∧ k_current s1 = t ∧ ∀ h m F X U, core s h m F X U <-> core s1 h m F X U.
Lemma alike_refl : alike s.
Proof. done. Qed.
Lemma alike_spun g : k_spins s !! g = Some (Spin false) -> alike (spun s g true).
Proof. intros H. split; [done|]. split; [done|]. intros. split; [apply core_spun|by eapply core_unspun]. Qed.
(** The result of waking threads. *)
Definition awoke s1 s' : Prop :=
  ∃ h' m' F', s' = kt s1 h' m' ∧ core s h' m' F' ∅ ∅ ∧ dom m' = dom m ∧ m' !! t = Some v ∧ (load_of h' + 2 * size (idle F' m') <= N)%nat.

Lemma run_wake1 s1 q : alike s1 -> q ∈ SQ -> wp (sched_wake1 q) (kt s1 (k_ds s) m) (λ _ s', awoke s1 s').
Proof.
  intros (Ek & Ec & Hal) Hq. pose proof (si_core _ _ HS) as HC. pose proof (co_lay _ _ _ _ _ _ HC) as Hly. pose proof (si_room _ _ HS) as HN. fold m in HN. destruct HL as (Hv & _).
  eapply (wp_wake1 Hroom s1 _ _ F); [by apply Hal|done|lia|..].
  - intros _ h' F' HC' Em Hlo. exists h', m, F'. split; [done|]. split; [by apply Hal|]. split; [done|]. split; [done|].
    assert (size (idle F' m) <= size (idle F m))%nat; [|lia]. apply idle_le; [done|]. intros t' _. unfold on. by rewrite Em.
  - intros t0 l v0 v' q' h' F' El Hv0 Hw HC' Hmv Ho Ho' Hc Hlo. rewrite Ec in Hc. assert (t0 ∈ dom m) as Ht0 by (apply elem_of_dom; by eexists).
    exists h', (<[t0 := t_set_lock false v']> m), F'. split; [done|]. split; [by apply Hal|]. split; [by apply dom_put|]. split; [by rewrite lookup_insert_ne|].
    assert (size (idle F' (<[t0 := t_set_lock false v']> m)) <= size (idle F m))%nat; [|lia].
    eapply moved_idle; [exact HC|exact Hmv|by apply (ly_sleep _ _ _ _ Hly)| |done|by rewrite Ho'|by apply dom_put].
    apply (ly_level _ _ _ _ Hly). eapply run_queue_LQ; [done|]. rewrite <- Ek. apply Hw.
Qed.
Lemma run_wakeall s1 q : alike s1 -> q ∈ SQ -> wp (sched_wakeall q) (kt s1 (k_ds s) m) (λ _ s', awoke s1 s').
Proof.
  intros (Ek & Ec & Hal) Hq. pose proof (si_core _ _ HS) as HC. pose proof (si_room _ _ HS) as HN. fold m in HN. destruct run_facts as (_ & Ht & _ & _ & Ho & _). destruct HL as (Hv & _).
  eapply (wp_wakeall Hroom s1 _ _ F ∅); [by apply Hal|done|by intros ? ?%elem_of_empty|lia|]. intros h' m' F' HC' Hwa Hlo. apply Hal in HC'. rewrite Ek in Hwa.
  assert (t ∉ mem F q) as Hnq by (eapply not_on; [exact HC|done|done|by apply SQ_Ss]).
  exists h', m', F'. split; [done|]. split; [done|]. split; [apply Hwa|]. split; [by rewrite (wa_same _ _ _ _ _ _ _ Hwa)|].
  assert (size (idle F' m') <= size (idle F m))%nat; [|lia]. apply idle_le; [apply Hwa|]. intros t' Ht' E. eapply woken_idle; [exact HC|exact HC'|exact Hwa|done|by intros ? ?%elem_of_empty|done|done].
Qed.

Lemma awoke_running s' : awoke s s' -> running s'.
Proof. intros (h' & m' & F' & -> & HC' & Ed & Hv' & HN). eapply run_after; [done|done|rewrite Ed; apply HS|done|done]. Qed.
Lemma ev_wake1 q : allowed true s (Wake1 q) -> wp (run_event (Wake1 q)) s (λ r s', inv r s').
Proof.
  intros (_ & Hq). cbn [run_event]. wp_step. rewrite <- (kt_id s) at 1. eapply wp_mono; [apply (run_wake1 s q alike_refl Hq)|]. intros r s' H. apply wp_ret. by apply awoke_running.
Qed.
Lemma ev_wakeall q : allowed true s (WakeAll q) -> wp (run_event (WakeAll q)) s (λ r s', inv r s').
Proof.
  intros (_ & Hq). cbn [run_event]. wp_step. rewrite <- (kt_id s) at 1. eapply wp_mono; [apply (run_wakeall s q alike_refl Hq)|]. intros r s' H. apply wp_ret. by apply awoke_running.
Qed.
Lemma cond_facts c : allowed true s (Wait c) -> c ≠ NULL ∧ cond_guard c ≠ NULL ∧ k_spins s !! cond_guard c = Some (Spin false) ∧ c ∈ SQ ∧ is_Some (k_conds s !! c).
Proof.
  intros (_ & Hq & HG & Hc). destruct (ca_spin _ _ (si_calm _ _ HS) _ HG) as [Hgn Hsp]. split; [|done].
  eapply core_q_null; [apply HS|]. eapply Ss_Qs; [apply (si_core _ _ HS)|by apply SQ_Ss].
Qed.
(** A lock is released, and the count changed, behind the wake-up. *)
Lemma awoke_unlock c f s' :
  allowed true s (Wait c) -> awoke (spun s (cond_guard c) true) s' -> wp (update c (λ v : cond_t, Cond (f v));; spin_unlock (cond_guard c)) s' (λ _ s'', running s'').
Proof.
  intros Hc (h' & m' & F' & -> & HC' & Ed & Hv' & HN). destruct (cond_facts c Hc) as (Hcn & Hgn & Hsp & _ & [x Hx]). wp_step. eapply (wp_update _ _ x); [done|exact Hx|].
  match goal with |- wp ?a _ ?R => change (wp a (kt (spun (counted s c (f x)) (cond_guard c) true) h' m') R) end.
  apply wp_spin_unlock; [done|simpl; by rewrite lookup_insert_eq|]. rewrite spun_id by done.
  eapply run_after; [done|by apply core_counted|rewrite Ed; by apply calm_counted, HS|done|done].
Qed.
Lemma ev_signal c : allowed true s (Signal c) -> wp (run_event (Signal c)) s (λ r s', inv r s').
Proof.
  intros Ha. destruct (cond_facts c Ha) as (Hcn & Hgn & Hsp & Hq & _). cbn [run_event]. wp_step. unfold cond_signal. rewrite <- (kt_id s) at 1.
  wp_step. apply wp_assert; [by apply bool_decide_eq_true|]. wp_step. apply wp_spin_lock; [done|done|]. wp_step. eapply wp_mono; [apply (run_wake1 _ c (alike_spun _ Hsp) Hq)|].
  intros r s' H. eapply wp_mono; [by apply awoke_unlock|]. intros [] s'' Hr. by apply wp_ret.
Qed.
Lemma ev_broadcast c : allowed true s (Broadcast c) -> wp (run_event (Broadcast c)) s (λ r s', inv r s').
Proof.
  intros Ha. destruct (cond_facts c Ha) as (Hcn & Hgn & Hsp & Hq & _). cbn [run_event]. wp_step. unfold cond_broadcast. rewrite <- (kt_id s) at 1.
  wp_step. apply wp_assert; [by apply bool_decide_eq_true|]. wp_step. apply wp_spin_lock; [done|done|]. wp_step. eapply wp_mono; [apply (run_wakeall _ c (alike_spun _ Hsp) Hq)|].
  intros w s' H. eapply wp_mono; [by apply awoke_unlock|]. intros [] s'' Hr. by apply wp_ret.
Qed.

(** A thread is locked, woken and unlocked. *)
Lemma run_wake t0 v0 w :
  m !! t0 = Some v0 -> t0 ≠ t -> t_lock w = true -> good (k_cpus s) w -> t_state w = t_state v0 -> t_sleep_queue w = t_sleep_queue v0 -> ts_processor w = ts_processor v0 ->
  ts_priority w = ts_priority v0 ->
  wp (thread_wake t0) (kt s (k_ds s) (<[t0 := w]> m)) (λ _ s', wp (thread_unlock t0) s' (λ _ s'', awoke s s'')).
Proof.
  intros Hv0 Hne Hlw Hgw E1 E2 E3 E4. pose proof (si_core _ _ HS) as HC. pose proof (co_lay _ _ _ _ _ _ HC) as Hly. pose proof (si_room _ _ HS) as HN. fold m in HN. destruct HL as (Hv & _).
  destruct (co_thread _ _ _ _ _ _ HC _ _ Hv0 (not_elem_of_empty _)) as (Hl0 & Hg0 & Hp0). assert (t0 ∈ dom m) as Ht0 by (apply elem_of_dom; by eexists).
  pose proof (core_t_null _ _ _ _ _ _ _ _ HC Hv0) as Htn. assert (place (k_cpus s) (k_current s) t0 w (on F t0)) as Hpw by (unfold place in *; by rewrite E1, E2, E3, E4).
  pose proof (core_set _ _ _ _ _ _ t0 w HC Ht0) as HCw. rewrite union_empty_l_L in HCw. pose proof (dom_put m t0 w Ht0) as Edw.
  eapply (wp_thread_wake Hroom s _ _ F {[t0]} ∅ t0 w); [done|by apply elem_of_singleton|by rewrite lookup_insert_eq|done|done|done|apply empty_subseteq|lia|..].
  - intros Hna r h' F' _ HC' Em Hlo. apply (wp_tunlock _ _ _ _ w); [done|by rewrite lookup_insert_eq|done|]. rewrite insert_insert_eq.
    exists h', (<[t0 := t_set_lock false w]> m), F'. assert (∀ x, on F' x = on F x) as Eon by (intros x; unfold on; by rewrite Em). split; [done|]. split.
    { rewrite <- (insert_insert_eq m t0 _ w). eapply core_unlock_thread; [by rewrite union_empty_l_L|by rewrite lookup_insert_eq|done|by rewrite Eon]. }
    split; [by apply dom_put|]. split; [by rewrite lookup_insert_ne|]. assert (size (idle F' (<[t0 := t_set_lock false w]> m)) <= size (idle F m))%nat; [|lia].
    apply idle_le; [by apply dom_put|]. intros x _. by rewrite Eon.
  - intros Ha q v' h' F' Hw HC' Hmv Ho' Hlo _. rewrite insert_insert_eq in *. apply (wp_tunlock _ _ _ _ v'); [done|by rewrite lookup_insert_eq|apply Hw|]. rewrite insert_insert_eq.
    assert (t_sleep_queue w ∈ SQ) as Hsq by (unfold place in Hpw; destruct Ha as [E|[E|E]]; rewrite E in Hpw; tauto).
    exists h', (<[t0 := t_set_lock false v']> m), F'. split; [done|]. split.
    { rewrite <- (insert_insert_eq m t0 _ v'). eapply core_unlock_thread; [by rewrite union_empty_l_L|by rewrite lookup_insert_eq|apply Hw|].
      eapply place_woken; [exact Hw|done|by right|done]. }
    split; [by apply dom_put|]. split; [by rewrite lookup_insert_ne|]. assert (size (idle F' (<[t0 := t_set_lock false v']> m)) <= size (idle F m))%nat; [|lia].
    eapply moved_idle; [exact HC|exact Hmv|by apply (ly_sleep _ _ _ _ Hly)| |done|by rewrite Ho'|by apply dom_put].
    apply (ly_level _ _ _ _ Hly). eapply run_queue_LQ; [done|apply Hw].
Qed.

(** A thread is locked and unlocked. *)
Lemma run_same t0 v0 (Q : unit -> sys -> Prop) :
  m !! t0 = Some v0 -> t_lock v0 = false -> t0 ≠ NULL -> Q tt s -> wp (thread_unlock t0) (kt s (k_ds s) (<[t0 := t_set_lock true v0]> m)) Q.
Proof.
  intros Hv0 Hl0 Hn HQ. apply (wp_tunlock _ _ _ _ (t_set_lock true v0)); [done|by rewrite lookup_insert_eq|done|]. rewrite insert_insert_eq, insert_id; [unfold m; by rewrite kt_id|].
  rewrite Hv0. destruct v0. simpl in Hl0. by rewrite Hl0.
Qed.
Lemma run_running : running s.
Proof. by exists F, v. Qed.
Lemma ev_wake t0 : allowed true s (Wake t0) -> wp (run_event (Wake t0)) s (λ r s', inv r s').
Proof.
  intros (_ & [v0 Hv0]%elem_of_dom). pose proof (si_core _ _ HS) as HC. pose proof (core_t_null _ _ _ _ _ _ _ _ HC Hv0) as Htn.
  destruct (co_thread _ _ _ _ _ _ HC _ _ Hv0 (not_elem_of_empty _)) as (Hl0 & Hg0 & Hp0). cbn [run_event]. rewrite <- (kt_id s) at 1.
  wp_step. apply (wp_tlock _ _ _ _ v0); [done..|]. fold m. wp_step. destruct (decide (t0 = t)) as [->|Hne].
  - unfold thread_wake. wp_step. apply (wp_tassert _ _ _ _ (t_set_lock true v0)); [done|by rewrite lookup_insert_eq|done|]. wp_step. apply wp_current. rewrite decide_True by done. apply wp_ret.
    wp_step. apply run_same; [done|done|done|]. apply wp_ret, run_running.
  - eapply wp_mono; [eapply (run_wake t0 v0 (t_set_lock true v0)); try done; by apply good_put_lock|]. intros r s' H. wp_step. eapply wp_mono; [exact H|].
    intros [] s'' H'. apply wp_ret. by apply awoke_running.
Qed.
Lemma ev_kill t0 : allowed true s (Kill t0) -> wp (run_event (Kill t0)) s (λ r s', inv r s').
Proof.
  intros (_ & [v0 Hv0]%elem_of_dom & Hne). pose proof (si_core _ _ HS) as HC. pose proof (core_t_null _ _ _ _ _ _ _ _ HC Hv0) as Htn.
  destruct (co_thread _ _ _ _ _ _ HC _ _ Hv0 (not_elem_of_empty _)) as (Hl0 & Hg0 & Hp0). cbn [run_event]. rewrite <- (kt_id s) at 1.
  wp_step. apply (wp_tlock _ _ _ _ v0); [done..|]. fold m. set (w := t_set_lock true v0). wp_step. unfold kill_mark.
  wp_step. apply (wp_tassert _ _ _ _ w); [done|by rewrite lookup_insert_eq|done|]. unfold orM. wp_step. wp_step. apply (wp_isstate _ _ _ _ w); [done|by rewrite lookup_insert_eq|done|].
  destruct (bool_decide (t_state w = T_ZOMBIE)) eqn:Ez.
  { apply wp_ret. apply wp_ret. wp_step. apply run_same; [done|done|done|]. apply wp_ret, run_running. }
  apply (wp_isstate _ _ _ _ w); [done|by rewrite lookup_insert_eq|done|]. rewrite bool_decide_eq_false_2 by (intros E; unfold place in Hp0; simpl in E; by rewrite E in Hp0).
  wp_step. apply (wp_setflags _ _ _ _ w); [done|by rewrite lookup_insert_eq|done|]. rewrite insert_insert_eq. wp_step.
  eapply wp_mono; [eapply (run_wake t0 v0 (t_set_flags (Z.lor (t_flags w) THREAD_KILLED) w)); try done|].
  - destruct Hg0. split; [done|done|simpl; by rewrite tflag_lor..|done].
  - intros r s' H. apply wp_ret. wp_step. eapply wp_mono; [exact H|]. intros [] s'' H'. apply wp_ret. by apply awoke_running.
Qed.
Lemma ev_start t0 : allowed true s (Start t0) -> wp (run_event (Start t0)) s (λ r s', inv r s').
Proof.
  intros (_ & v0 & Hv0 & Est). pose proof (si_core _ _ HS) as HC. pose proof (core_t_null _ _ _ _ _ _ _ _ HC Hv0) as Htn. pose proof (co_lay _ _ _ _ _ _ HC) as Hly. pose proof (si_room _ _ HS) as HN. fold m in HN.
  destruct (co_thread _ _ _ _ _ _ HC _ _ Hv0 (not_elem_of_empty _)) as (Hl0 & Hg0 & Hp0). assert (t0 ∈ dom m) as Ht0 by (apply elem_of_dom; by eexists).
  assert (t0 ≠ t) as Hne by (intros ->; destruct HL as (Hv & Hst & _); unfold t in Hv0; congruence). cbn [run_event]. rewrite <- (kt_id s) at 1.
  wp_step. apply (wp_tlock _ _ _ _ v0); [done..|]. fold m. set (w := t_set_lock true v0). pose proof (core_set _ _ _ _ _ _ t0 w HC Ht0) as HCw. rewrite union_empty_l_L in HCw. pose proof (dom_put m t0 w Ht0) as Edw.
  wp_step. unfold thread_schedule, sched_park. wp_step. apply (wp_tassert _ _ _ _ w); [done|by rewrite lookup_insert_eq|done|]. rewrite decide_False by done.
  wp_step. apply (wp_tassert _ _ _ _ w); [done|by rewrite lookup_insert_eq|done|]. wp_step. apply (wp_isstate _ _ _ _ w); [done|by rewrite lookup_insert_eq|done|]. rewrite bool_decide_eq_true_2 by done.
  unfold sched_putembryo. rewrite decide_False by done. wp_step. apply (wp_tassert _ _ _ _ w); [done|by rewrite lookup_insert_eq|done|].
  wp_step. apply (wp_enter _ _ _ _ w); [done|by rewrite lookup_insert_eq|done|]. rewrite insert_insert_eq.
  replace (t_set_state T_EMBRYO w) with w by (unfold w; destruct v0; simpl in Est |- *; by rewrite Est).
  assert (embryo_queue ∈ Qs) as Hqq by (by eapply Ss_Qs, emb_Ss). unfold place in Hp0. rewrite Est in Hp0. destruct Hp0 as [Hon Hsl].
  assert (t0 ∈ mem F embryo_queue <-> embryo_queue ∈ on F t0) as Hiff by (eapply on_mem; [apply HC|done|apply emb_Ss|done]).
  assert (on F t0 = [] -> 0 < size (idle F m))%nat as Hpos.
  { intros E. pose proof (subseteq_size {[t0]} (idle F m)) as Hs. rewrite size_singleton in Hs. apply Hs. intros x ->%elem_of_singleton. unfold idle. by rewrite elem_of_filter. }
  assert (∀ h' F', core s h' (<[t0 := w]> m) F' {[t0]} ∅ -> on F' t0 = [embryo_queue] -> (load_of h' + 2 * size (idle F' m) <= N)%nat ->
    wp (_ ← mret 0; thread_unlock t0;; mret true) (kt s h' (<[t0 := w]> m)) (λ r s', inv r s')) as Hend.
  { intros h' F' HC' Ho' HN'. wp_step. apply wp_ret. wp_step. apply (wp_tunlock _ _ _ _ w); [done|by rewrite lookup_insert_eq|done|]. rewrite insert_insert_eq. apply wp_ret.
    eapply (run_after s h' _ F'); [done| |rewrite dom_put by done; apply HS|rewrite lookup_insert_ne by done; apply HL|].
    - rewrite <- (insert_insert_eq m t0 _ w). eapply core_unlock_thread; [by rewrite union_empty_l_L|by rewrite lookup_insert_eq|by apply good_put_lock|]. unfold place. simpl. rewrite Est. auto.
    - etrans; [|exact HN']. apply Nat.add_le_mono_l, Nat.mul_le_mono_l, idle_le; [by apply dom_put|auto]. }
  wp_step. eapply (wp_thread_enqueue Hroom _ _ F (dom m) Qs); [apply HC|apply HC|exact Hqq|done|apply HC; [done|apply not_elem_of_empty]|..].
  - intros Hin h' HF' Hlo. apply wp_ret. apply (Hend h' F); [by eapply core_heap|destruct Hon as [E|E]; [rewrite E in Hiff; by apply Hiff, elem_of_nil in Hin|done]|lia].
  - intros Hin HN'. assert (on F t0 = []) as E; [|specialize (Hpos E); lia]. destruct Hon as [E|E]; [done|]. destruct Hin. apply Hiff. rewrite E. apply list_elem_of_here.
  - intros Hin p h' F' HF' HA' Hpo Hlo. apply wp_ret. assert (on F t0 = []) as E. { destruct Hon as [E|E]; [done|]. destruct Hin. apply Hiff. rewrite E. apply list_elem_of_here. }
    apply (Hend h' F'); [|by rewrite (on_put _ _ _ _ Hpo emb_Ss), E|].
    + eapply core_put; [exact HCw|done|by rewrite Edw|done|done|by rewrite Edw|by apply elem_of_singleton].
    + assert (S (size (idle F' m)) <= size (idle F m))%nat; [|lia]. apply (idle_lt _ _ _ _ t0); [done|done|done|by rewrite (on_put _ _ _ _ Hpo emb_Ss), E|].
      intros t' Ht' Hn'. rewrite (on_else F F' (dom m) embryo_queue t0 t'); [done|apply HC|apply Hpo|done..].
Qed.
End running.

(** ** The scheduler picks a thread *)

(** The picked thread goes on: unlocked, with no sleep queue. *)
Lemma wp_resume s h m F t v (Q : unit -> sys -> Prop) :
  k_current s = t -> core s h m F {[t]} ∅ -> calm s (dom m) -> m !! t = Some v -> t_lock v = true -> good (k_cpus s) v ->
  (∀ w, (w = v ∧ t_sleep_queue v = NULL ∨ w = t_set_sleep NULL NULL NULL v) -> core s h (<[t := t_set_lock false w]> m) F {[t]} ∅ -> Q tt (kt s h (<[t := t_set_lock false w]> m))) ->
  wp resume (kt s h m) Q.
Proof.
  intros Hcur HC Hca Hv Hl Hg HQ. pose proof (core_t_null _ _ _ _ _ _ _ _ HC Hv) as Hn. assert (t ∈ dom m) as Ht by (apply elem_of_dom; by eexists).
  assert (∀ w, core s h (<[t := w]> m) F {[t]} ∅) as HCw by (intros w; eapply core_set_in; [done|done|by apply elem_of_singleton]).
  unfold resume, current_unlock. wp_step. apply wp_current. rewrite Hcur. wp_step. apply (wp_tload _ _ _ _ v); [done..|]. destruct (decide (t_sleep_queue v = NULL)) as [E|E].
  { wp_step. apply wp_current. rewrite Hcur. apply (wp_tunlock _ _ _ _ v); [done..|]. apply HQ; auto. }
  set (lk := t_sleep_guard v). assert (lk = NULL ∨ lk ∈ G ∧ k_spins s !! lk = Some (Spin false)) as Hlk by (destruct (gd_guard _ _ Hg); [by left|right; split; [done|by apply Hca]]).
  set (s1 := if decide (lk = NULL) then s else spun s lk true). assert (k_current s1 = t) as Ec by (unfold s1; by destruct (decide _)).
  unfold sched_sleep_end. wp_step. wp_step. apply wp_when_lock; [tauto|]. fold s1. wp_step. apply wp_current. rewrite Ec.
  wp_step. apply (wp_tupd _ _ _ _ v); [done..|]. set (v1 := t_set_sleep NULL NULL NULL v). wp_step. apply (wp_isset _ _ _ _ v1); [done|by rewrite lookup_insert_eq|done|]. apply wp_ret.
  wp_step. wp_step. apply wp_current. rewrite Ec. apply (wp_tunlock _ _ _ _ v1); [done|by rewrite lookup_insert_eq|done|]. rewrite insert_insert_eq.
  unfold s1. destruct (decide (lk = NULL)) as [->|Hlkn]; [rewrite bool_decide_eq_false_2 by tauto; apply wp_ret; apply HQ; auto|]. rewrite bool_decide_eq_true_2 by done.
  destruct Hlk as [|[HG Hsp]]; [done|]. apply wp_spin_unlock; [done|simpl; by rewrite lookup_insert_eq|]. rewrite spun_id by done. apply HQ; auto.
Qed.

Lemma entered_idle s h m m' F F' : core s h m F ∅ ∅ -> entered (k_cpus s) F F' m m' -> dom m' = dom m ∧ (size (idle F' m') <= size (idle F m))%nat.
Proof.
  intros HC [(_ & -> & Em)|(t & l & v & v' & q & El & Hv & Est & Hw & -> & Hmv & Ho & Ho')].
  - split; [done|]. apply idle_le; [done|]. intros t' _. unfold on. by rewrite Em.
  - pose proof (co_lay _ _ _ _ _ _ HC) as Hly. assert (t ∈ dom m) as Ht by (apply elem_of_dom; by eexists). split; [by apply dom_put|].
    eapply moved_idle; [exact HC|exact Hmv|by eapply Ss_Qs, emb_Ss| |done|by rewrite Ho'|by apply dom_put]. apply (ly_level _ _ _ _ Hly). eapply run_queue_LQ; [done|apply Hw].
Qed.
Lemma picked_idle s h m m' F F' ls t v v' :
  core s h m F ∅ ∅ -> m !! t = Some v -> picked (k_cpus s) F F' ls t v v' -> (∀ l, l ∈ ls -> level_queue l ∈ LQ) -> dom m' = dom m -> (size (idle F' m') <= S (size (idle F m)))%nat.
Proof.
  intros HC Hv Hpk Hls Ed. destruct (pk_where _ _ _ _ _ _ _ Hpk) as (ls1 & lvl & ls2 & l & -> & _ & _ & Hpp & _). pose proof (co_agree _ _ _ _ _ _ HC) as HA.
  assert (t ∈ dom m) as Ht by (apply elem_of_dom; by eexists). assert (level_queue lvl ∈ Qs) as Hq. { apply (ly_level _ _ _ _ (co_lay _ _ _ _ _ _ HC)), Hls. set_solver. }
  apply (idle_add _ _ _ _ t); [done|]. intros t' Ht' Hne. unfold on. rewrite (pp_else _ _ _ _ _ Hpp); [done|by apply not_eq_sym, (ag_name _ _ _ HA)|].
  intros E. apply Hne. apply (t_queues_inj t' t); [by apply (ag_valid _ _ _ HA)..|done].
Qed.

(** What [Pick] does: a thread runs, or none can, or the one that was to run had
    been killed. *)
Definition pick_res s F (c : cpu_t) (r : bool) s' : Prop :=
  ∃ m1 F1, entered (k_cpus s) F F1 (k_threads s) m1 ∧
  if r then ∃ t v v' F' w, m1 !! t = Some v ∧ picked (k_cpus s) F1 F' (queueq c) t v v' ∧ has (t_flags v) THREAD_KILLED = false ∧ k_current s' = t ∧ k_cpus s' = k_cpus s ∧
    k_threads s' = <[t := w]> m1 ∧ ts_processor w = ts_processor v ∧ ts_priority w = ts_priority v ∧ sinv s' F' ∧ lives s' w
  else (∀ l, l ∈ queueq c -> mem F1 (level_queue l) = []) ∨ ∃ t v v' F', m1 !! t = Some v ∧ picked (k_cpus s) F1 F' (queueq c) t v v' ∧ has (t_flags v) THREAD_KILLED = true.
Lemma pick_ok s F c : sinv (k_set_current NULL s) F -> k_cpus s !! cpu = Some c -> wp (run_event Pick) s (λ r s', inv r s' ∧ pick_res s F c r s').
Proof.
  intros HS Hc. pose proof (si_core _ _ HS) as HC. pose proof (si_room _ _ HS : (load_of (k_ds s) + 2 * size (idle F (k_threads s)) <= N)%nat) as HN. simpl in HC. pose proof (co_lay _ _ _ _ _ _ HC) as Hly.
  assert (calm s (dom (k_threads s))) as Hca by (destruct (si_calm _ _ HS); by split). destruct (ly_levels _ _ _ _ Hly _ _ Hc) as [_ Hls].
  rewrite <- (kt_id s) at 1. cbn [run_event]. wp_step. eapply (wp_schedule_pick Hroom s _ _ F c); [exact HC|done|done|lia|..].
  - intros m1 F1 h1 h' F' HC1 Hen Hall HC' Em Hlo. cbn [when]. wp_step. apply wp_ret. apply wp_ret. destruct (entered_idle _ _ _ _ _ _ HC Hen) as [Ed Hid].
    split; [|exists m1, F1; split; [done|by left]].
    exists F'. apply (sinv_intro (k_set_current NULL s) h' m1); [done|rewrite Ed; by destruct Hca|]. assert (size (idle F' m1) <= size (idle F1 m1))%nat; [|lia].
    apply idle_le; [done|]. intros t' _. unfold on. by rewrite Em.
  - intros m1 F1 h1 t v v' h' F' HC1 Hen Hv Hpk HC' Hlo Hk. cbn [when]. destruct (entered_idle _ _ _ _ _ _ HC Hen) as [Ed Hid]. assert (t ∈ dom m1) as Ht by (apply elem_of_dom; by eexists).
    pose proof (picked_idle _ _ _ m1 _ _ _ _ _ _ HC1 Hv Hpk Hls eq_refl) as Hid2. pose proof Hpk as Hpk'. destruct Hpk as [(ls1 & lvl & ls2 & l & _ & _ & _ & _ & E5 & _) P2 P3 P4 P5].
    wp_step. eapply (wp_resume (k_set_current t s) h' _ F' t v'); [done|done|rewrite dom_put, Ed by done; by destruct Hca|by rewrite lookup_insert_eq|by rewrite E5|rewrite E5; by destruct P4|].
    intros w Hw HCw. rewrite insert_insert_eq in *. apply wp_ret. assert (t_state w = T_READY ∧ t_sleep_queue w = NULL ∧ t_flags w = t_flags v ∧ good (k_cpus s) w) as (W1 & W2 & W3 & W4).
    { destruct Hw as [[-> Hsl]| ->]; rewrite E5 in *; destruct P4; (split_and!; [done|done|done|]); split; try done. by left. }
    assert (lives (kt (k_set_current t s) h' (<[t := t_set_lock false w]> m1)) (t_set_lock false w)) as Hlv by (unfold lives; simpl; rewrite lookup_insert_eq, W3; by split_and!).
    assert (sinv (kt (k_set_current t s) h' (<[t := t_set_lock false w]> m1)) F') as HS'.
    2: { split; [by exists F', (t_set_lock false w)|]. exists m1, F1. split; [done|]. exists t, v, v', F', (t_set_lock false w). by destruct Hw as [[-> _]| ->]; rewrite E5 in *. }
    apply (sinv_intro (k_set_current t s) h' _); [|rewrite dom_put, Ed by done; by destruct Hca|].
    + eapply core_close; [by rewrite union_empty_l_L|by rewrite lookup_insert_eq|done|by apply good_put_lock|]. unfold place. simpl. by rewrite W1, decide_True.
    + assert (size (idle F' (<[t := t_set_lock false w]> m1)) <= size (idle F' m1))%nat; [|lia]. apply idle_le; [by apply dom_put|auto].
  - intros m1 F1 h1 t v v' h2 F2 m' h' F' n HC1 Hen Hv Hpk HC2 Hk w HC' Hend Hlo. cbn [when]. wp_step. apply wp_ret. apply wp_ret.
    split; [|exists m1, F1; split; [done|right; by exists t, v, v', F2]]. destruct (entered_idle _ _ _ _ _ _ HC Hen) as [Ed Hid].
    assert (t ∈ dom m1) as Ht by (apply elem_of_dom; by eexists). pose proof (picked_idle _ _ _ (<[t := w]> m1) _ _ _ _ _ _ HC1 Hv Hpk Hls ltac:(by apply dom_put)) as Hid2.
    destruct Hpk as [(ls1 & lvl & ls2 & l & _ & _ & _ & _ & E5 & _) P2 P3 P4 P5]. assert (dom (<[t := w]> m1) = dom m1) as Edw by (by apply dom_put).
    eapply (return_waiting (counted (k_set_current t s) (t_wait t) n) h' m' F' t); [done|by apply core_counted| |apply Hend|done|unfold w; rewrite E5; by destruct P4|unfold place; simpl; apply Hend|].
    + rewrite (en_dom _ _ _ _ _ _ _ Hend), Edw, Ed. apply calm_counted. by destruct Hca.
    + assert (S (size (idle F' m')) <= size (idle F2 (<[t := w]> m1)))%nat; [|lia]. apply (idle_lt _ _ _ _ t); [apply Hend|by rewrite Edw|done|by rewrite (en_on _ _ _ _ _ _ _ Hend)|apply Hend].
Qed.
Lemma ev_pick s : waiting s -> wp (run_event Pick) s (λ r s', inv r s').
Proof.
  intros [F HS]. destruct (ly_cpu _ _ _ _ (co_lay _ _ _ _ _ _ (si_core _ _ HS))) as [_ [c Hc]]. eapply wp_mono; [by apply (pick_ok s F c)|]. by intros r s' [? _].
Qed.

(** ** Every event *)

Lemma ev_ok r s e : inv r s -> allowed r s e -> wp (run_event e) s (λ r' s', inv r' s').
Proof.
  intros HI HA. destruct (decide (e = Pick)) as [->|Hne].
  { cbn in HA. subst r. by apply ev_pick. }
  assert (r = true) as -> by (destruct e; try done; naive_solver). destruct HI as (F & v & HS & HL).
  destruct e; [by eapply ev_yield|by eapply ev_sleep|by eapply ev_wait|by eapply ev_exit|by eapply ev_wake1|by eapply ev_wakeall|by eapply ev_signal|by eapply ev_broadcast|
    by eapply ev_wake|by eapply ev_kill|by eapply ev_start|done].
Qed.

(** The states that events lead to. *)
Inductive reach (r0 : bool) (s0 : sys) : bool -> sys -> Prop :=
  | reach_refl : reach r0 s0 r0 s0
  | reach_step r s e r' s' : reach r0 s0 r s -> allowed r s e -> run_event e s = Ok r' s' -> reach r0 s0 r' s'.

Lemma reach_inv r0 s0 r s : inv r0 s0 -> reach r0 s0 r s -> inv r s.
Proof.
  intros HI. induction 1 as [|r s e r' s' _ IH HA E]; [done|]. pose proof (ev_ok _ _ _ IH HA) as Hw. unfold wp in Hw. by rewrite E in Hw.
Qed.

(** C5. From a state of the invariant (every thread is on the queue that its
    state says and on no other of the scheduler, no lock is held, also none of the
    address spaces of the threads, their kernel stacks are in place, and there is
    memory for the nodes of the threads outside the queues) no sequence of
    events (yield, sleep, wait on a condition variable, exit, wake, wake all,
    signal, broadcast, kill, start, pick) leads out of it, and in every state
    reached each possible event runs to its end: no assertion or panic of the
    scheduler is met, no bad pointer followed and no lock taken twice. *)
Theorem scheduler_safe r0 s0 r s :
  inv r0 s0 -> reach r0 s0 r s -> inv r s ∧ ∀ e, allowed r s e -> ∃ r' s', run_event e s = Ok r' s' ∧ inv r' s'.
Proof.
  intros HI HR. pose proof (reach_inv _ _ _ _ HI HR) as HI'. split; [done|]. intros e HA. pose proof (ev_ok _ _ _ HI' HA) as Hw. unfold wp in Hw.
  destruct (run_event e s) as [r' s'|]; [by exists r', s'|done].
Qed.

Lemma queued s h m F X U q t : core s h m F X U -> U = ∅ -> q ∈ Qs -> t ∈ dom m -> q ∈ Ss -> q ∈ on F t -> ∃ xs, queue_rep h q false xs ∧ t ∈ xs.*2.
Proof.
  intros HC -> Hq Ht Hs Hin. destruct (lkd_mem _ _ _ (co_free _ _ _ _ _ _ HC q Hq (not_elem_of_empty _))) as (xs & Hx & Em). exists xs. split; [by apply HC|].
  rewrite <- Em. by eapply on_mem; [apply HC|..].
Qed.
(** C6. No thread is lost: in every state that events lead to, a ready thread
    other than the running one is on the run queue of its priority on its
    processor, a sleeping or stopped one on the queue it sleeps on, a zombie on
    the queue of zombies, and all these queues are well-formed and unlocked. *)
Theorem no_thread_lost r0 s0 r s t v :
  inv r0 s0 -> reach r0 s0 r s -> k_threads s !! t = Some v -> (r = true -> t ≠ k_current s) ->
  match t_state v with
  | T_READY => ∃ q xs, run_queue (k_cpus s) (ts_processor v) (ts_priority v) = Some q ∧ queue_rep (k_ds s) q false xs ∧ t ∈ xs.*2
  | T_ISLEEP | T_USLEEP | T_STOPPED => ∃ xs, queue_rep (k_ds s) (t_sleep_queue v) false xs ∧ t ∈ xs.*2
  | T_ZOMBIE => ∃ xs, queue_rep (k_ds s) zombie_queue false xs ∧ t ∈ xs.*2
  | T_EMBRYO => True
  | T_RUNNING | T_TERMINATED => False
  end.
Proof.
  intros HI HR Hv Hc. pose proof (reach_inv _ _ _ _ HI HR) as HI'.
  assert (∃ F c, core (k_set_current c s) (k_ds s) (k_threads s) F ∅ ∅ ∧ t ≠ c) as (F & c & HC & Htc).
  { destruct r; [destruct HI' as (F & w & HS & _); exists F, (k_current s)|destruct HI' as (F & HS); exists F, NULL]; pose proof (si_core _ _ HS) as HC.
    - split; [by apply (core_sys s)|auto].
    - split; [done|]. by eapply core_t_null. }
  pose proof (co_lay _ _ _ _ _ _ HC) as Hly. assert (t ∈ dom (k_threads s)) as Ht by (apply elem_of_dom; by eexists).
  destruct (co_thread _ _ _ _ _ _ HC _ _ Hv (not_elem_of_empty _)) as (_ & _ & Hp). unfold place in Hp. simpl in Hp.
  assert (∀ q, q ∈ Ss -> on F t = [q] -> ∃ xs, queue_rep (k_ds s) q false xs ∧ t ∈ xs.*2) as Hqd.
  { intros q Hs Ho. eapply queued; [exact HC|done|by eapply Ss_Qs|done|done|rewrite Ho; apply list_elem_of_here]. }
  destruct (t_state v) eqn:E; try done; [|destruct Hp as (_ & Hs & Ho); by apply Hqd; [apply SQ_Ss|]..|by apply Hqd; [apply zom_Ss|]].
  rewrite decide_False in Hp by done. destruct Hp as (_ & q & Hr & Ho). destruct (Hqd q) as (xs & ? & ?); [by eapply LQ_Ss, run_queue_LQ|done|by exists q, xs].
Qed.
End props.
