(* ===== verification/SchedEx.v ===== *)
(** * A machine with three threads

    A concrete state of the scheduler in its invariant, and an allocator that
    grants two hundred objects. *)

From S2P Require Import Prelude Dll Heap Queue Lock Sched SchedSpec SchedInv SchedStep SchedProps.

(** The first free address of a pool. *)
Definition pool : list ptr := (λ i, 1000000 + 64 * i) <$> seqZ 0 200.
Definition pool_choose (_ : nat) (D : gset ptr) : option ptr := head (filter (λ p, p ∉ D) pool).
#[global] Program Definition pool_kmalloc : Kmalloc := {| km_choose := pool_choose |}.
Next Obligation.
  intros n D p H. unfold pool_choose in H. apply head_Some_elem_of, list_elem_of_filter in H as [H1 H2]. split; [|done].
  unfold pool in H2. apply list_elem_of_fmap in H2 as (i & -> & Hi%elem_of_seqZ). unfold valid_ptr, two64. lia.
Qed.
Lemma pool_room n D : pool_choose n D = None -> (200 <= size D)%nat.
Proof.
  intros H. unfold pool_choose in H. apply head_None in H. assert (list_to_set pool ⊆ D) as Hs.
  { intros p Hp%elem_of_list_to_set. destruct (decide (p ∈ D)) as [|Hn]; [done|]. assert (p ∈ filter (λ p, p ∉ D) pool) as Hin by (by apply list_elem_of_filter). rewrite H in Hin. by apply elem_of_nil in Hin. }
  apply subseteq_size in Hs. rewrite size_list_to_set in Hs; [done|]. apply NoDup_fmap; [intros i j; lia|apply NoDup_seqZ].
Qed.

#[global] Instance mach : Machine :=
  {| getcpuid := 0; cpu_online := 1; cpus core := if decide (core = 0) then 100 else NULL; cpu := 100; threads_queue := 303; embryo_queue := 301; zombie_queue := 302;
     sched_stopq := 304; global_sleep_queue := 305; kstack_base t sz := t - sz |}.
Definition levels3 : list level_t := (λ i, Level 20 (201 + i)) <$> seqZ 0 8.
Definition tids : gset ptr := {[401; 402; 403]}.
#[global] Instance areas3 : Areas := {|
  LQ := list_to_set (level_queue <$> levels3);
  SQ := {[304; 305]} ∪ set_map t_wait tids;
  Qs := list_to_set (level_queue <$> levels3) ∪ ({[304; 305]} ∪ set_map t_wait tids) ∪ {[301; 302; 303]};
  G := {[mmap_guard 600]} ∪ set_map (λ t, cond_guard (t_wait t)) tids;
|}.
Definition tcb (tid : Z) (st : tstate_t) (prio : Z) : thread_t :=
  TCB tid 1 0 st 0 0 NULL NULL NULL 0 (if decide (st = T_EMBRYO) then NULL else 100) SOFT_AFFINITY 1 prio NULL NULL NULL NULL 600 4096 8192 false.
(** Thread 401 runs, 402 and 403 are new. *)
Definition three : sys :=
  Sys (set_queues (gset_to_gmap QUEUE_INIT (Qs ∪ set_map t_queues tids)) empty_dsheap)
    (<[401 := tcb 1 T_READY 255]> (<[402 := tcb 2 T_EMBRYO 255]> {[403 := tcb 3 T_EMBRYO 255]}))
    (gset_to_gmap (Spin false) G) (gset_to_gmap (Cond 0) (set_map t_wait tids)) {[100 := Cpu levels3]} 401 3 0.

Ltac by_check P := refine (bool_decide_unpack P _); vm_compute; exact I.
Definition fam3 : fam := gset_to_gmap (false, []) (Qs ∪ set_map t_queues tids).
Lemma fam3_some q lk xs : fam3 !! q = Some (lk, xs) -> lk = false ∧ xs = [] ∧ q ∈ Qs ∪ set_map t_queues tids.
Proof. unfold fam3. rewrite lookup_gset_to_gmap_Some. intros [H [= <- <-]]. done. Qed.
Lemma mem3 q : mem fam3 q = [].
Proof. unfold mem. destruct (fam3 !! q) as [[lk xs]|] eqn:E; [|done]. by apply fam3_some in E as (_ & -> & _). Qed.
Lemma lkd3 q : q ∈ Qs ∪ set_map t_queues tids -> fam3 !! q = Some (false, []).
Proof. intros H. unfold fam3. by rewrite lookup_gset_to_gmap_Some. Qed.
Lemma dom3 : dom (k_threads three) = tids.
Proof. by_check (dom (k_threads three) = tids). Qed.

Lemma three_fam : fam_ok (k_ds three) fam3.
Proof.
  intros q lk xs (-> & -> & Hq)%fam3_some. split; [|split; [simpl; by rewrite lookup_gset_to_gmap_Some|split; [apply dll_nil|constructor]]].
  revert q Hq. by_check (set_Forall (λ q, q ≠ NULL) (Qs ∪ set_map t_queues tids)).
Qed.
Lemma three_agree : agree fam3 (dom (k_threads three)) Qs.
Proof.
  rewrite dom3. split; intros *; rewrite ?mem3.
  - revert t. by_check (set_Forall (λ t, 0 < t < two64) tids).
  - intros Hq Ht. revert q Hq t Ht. by_check (set_Forall (λ q, set_Forall (λ t, q ≠ t_queues t) tids) Qs).
  - intros Hq. rewrite lkd3; [by eexists|]. by apply elem_of_union_l.
  - intros Ht. exists []. apply lkd3. apply elem_of_union_r. by apply elem_of_map_2.
  - constructor.
  - by intros _ ?%elem_of_nil.
  - by intros _ ?%elem_of_nil.
  - intros _ _. split; by intros ?%elem_of_nil.
Qed.
Lemma three_layout : layout (k_cpus three) LQ SQ Qs.
Proof.
  split; [by_check (LQ ⊆ Qs)|by_check (SQ ⊆ Qs)|by_check (301 ∈ Qs)|by_check (302 ∈ Qs)|by_check (LQ ## SQ)|by_check (301 ∉ LQ ∪ SQ)|by_check (302 ∉ LQ ∪ SQ)|done|..].
  - split; [done|by eexists].
  - intros core. simpl. case_decide; [right; by eexists|by left].
  - intros P c. simpl. rewrite lookup_singleton_Some. intros [<- <-]. split; [done|]. apply Forall_forall. by_check (Forall (λ l, level_queue l ∈ LQ) levels3).
  - done.
  - intros P c. simpl. rewrite lookup_singleton_Some. intros [<- <-]. by_check (NoDup (level_queue <$> levels3)).
Qed.
Lemma three_inv : inv (N := 200) true three.
Proof.
  exists fam3, (tcb 1 T_READY 255). split; [|done]. split.
  - split; [apply three_fam|apply three_agree|apply three_layout|..].
    + intros q Hq _. unfold lkd. rewrite lkd3; [done|by apply elem_of_union_l].
    + by intros q ?%elem_of_empty.
    + rewrite dom3. by_check (set_Forall (λ t, t_wait t ∈ SQ) tids).
    + by_check (set_Forall (λ g, g ≠ NULL ∧ is_Some (k_spins three !! g)) G).
    + intros t v Hv _. unfold on. rewrite mem3. revert t v Hv. apply map_Forall_insert_2; [|apply map_Forall_insert_2; [|apply map_Forall_singleton]].
      all: split; [done|]; split; [split; [by split; [done|right + left; done]|by left|done|done|right; split; [by_check (mmap_guard 600 ∈ G)|done]]|]; unfold place; simpl; auto.
  - rewrite dom3. split; [by_check (set_Forall (λ t, is_Some (k_conds three !! t_wait t) ∧ cond_guard (t_wait t) ∈ G) tids)|].
    intros g Hg. split; [revert g Hg; by_check (set_Forall (λ g, g ≠ NULL) G)|]. by apply lookup_gset_to_gmap_Some.
  - apply leb_complete. by vm_compute.
Qed.

(** *** The state after events *)

Section after.
Context {KM : Kmalloc}.
Definition after (e : event) (s : sys) : sys := match run_event e s with Ok _ s' => s' | Stop _ => s end.
Lemma reach_after r0 s0 r s e r' :
  reach r0 s0 r s -> allowed r s e -> match run_event e s with Ok x _ => x = r' | Stop _ => False end -> reach r0 s0 r' (after e s).
Proof. intros HR HA E. eapply reach_step; [exact HR|exact HA|]. unfold after. destruct (run_event e s) as [x s'|]; [by subst|done]. Qed.
End after.
#[local] Existing Instance pool_kmalloc.

(** 402 is started, 401 yields twice; then 402 runs and 401 waits. *)
Definition three1 : sys := after (Start 402) three.
Definition three2 : sys := after Pick (after Yield three1).
Definition three3 : sys := after Pick (after Yield three2).
Lemma three1_reach : reach true three true three1.
Proof. eapply reach_after; [apply reach_refl| |by vm_compute]. split; [done|]. eexists. split; [by vm_compute|done]. Qed.
Lemma three3_reach : reach true three true three3.
Proof. repeat (eapply reach_after; [|done|by vm_compute]). apply three1_reach. Qed.
Example three3_current : k_current three3 = 402.
Proof. by vm_compute. Qed.

Lemma scheduler_safe_witness :
  inv (N := 200) true three ∧ reach true three true three3 ∧
  (inv (N := 200) true three3 ∧ ∀ e, allowed true three3 e -> ∃ r' s', run_event e three3 = Ok r' s' ∧ inv (N := 200) r' s').
Proof.
  split; [apply three_inv|]. split; [apply three3_reach|]. apply (scheduler_safe (KM := pool_kmalloc) pool_room true three); [apply three_inv|apply three3_reach].
Defined.

Definition waiter : thread_t := default (tcb 0 T_READY 0) (k_threads three3 !! 401).
Lemma no_thread_lost_witness :
  k_threads three3 !! 401 = Some waiter ∧
  match t_state waiter with
  | T_READY => ∃ q xs, run_queue (k_cpus three3) (ts_processor waiter) (ts_priority waiter) = Some q ∧ queue_rep (k_ds three3) q false xs ∧ 401 ∈ xs.*2
  | T_ISLEEP | T_USLEEP | T_STOPPED => ∃ xs, queue_rep (k_ds three3) (t_sleep_queue waiter) false xs ∧ 401 ∈ xs.*2
  | T_ZOMBIE => ∃ xs, queue_rep (k_ds three3) zombie_queue false xs ∧ 401 ∈ xs.*2
  | T_EMBRYO => True
  | T_RUNNING | T_TERMINATED => False
  end.
Proof.
  assert (k_threads three3 !! 401 = Some waiter) as Hv by (by vm_compute). split; [exact Hv|].
  apply (no_thread_lost (KM := pool_kmalloc) pool_room true three true three3); [apply three_inv|apply three3_reach|exact Hv|]. intros _. rewrite three3_current. done.
Defined.

(** *** What goes wrong *)

Lemma no_ok_bind {S A B} (c : M S A) (k : A -> M S B) s : (∀ a s', c s = Ok a s' -> ∃ e, k a s' = Stop e) -> ∃ e, (c ≫= k) s = Stop e.
Proof. intros H. unfold mbind, M_bind. destruct (c s) as [a s'|e] eqn:E; [by apply H|by eexists]. Qed.
Lemma assert_held t s s' : thread_assert_locked t s = Ok tt s' -> s' = s ∧ ∃ v, k_threads s !! t = Some v ∧ t_lock v = true.
Proof.
  unfold thread_assert_locked, obj_assert_locked, obj_assert, assert_, load, mbind, M_bind. intros H. repeat case_match; simplify_eq/=; naive_solver.
Qed.
Lemma on_q_threads {A} (c : M dsheap A) s a s' : on_q c s = Ok a s' -> k_threads s' = k_threads s.
Proof. unfold on_q, zoom. intros H. case_match; by simplify_eq/=. Qed.
Lemma lock_held t s v : k_threads s !! t = Some v -> t_lock v = true -> ∃ e, thread_lock t s = Stop e.
Proof.
  intros Hv Hl. unfold thread_lock, obj_lock, obj_assert. apply no_ok_bind. intros a s1 E1. assert (s1 = s) as -> by (unfold assert_ in E1; by case_match; simplify_eq/=).
  apply no_ok_bind. intros w s2 E2. unfold load in E2. case_decide; [done|]. simpl in E2. rewrite Hv in E2. simplify_eq/=. apply no_ok_bind. intros a' s3 E3. by rewrite Hl in E3.
Qed.
(** [thread_leave_group] wants the thread locked and locks it again: it never
    returns, so that a detached thread cannot end. *)
Theorem thread_leave_group_stops `{KM : Kmalloc} t s : ∃ e, thread_leave_group t s = Stop e.
Proof.
  unfold thread_leave_group. apply no_ok_bind. intros [] s1 (-> & v & Hv & Hl)%assert_held.
  apply no_ok_bind. intros w s2 E2. assert (s2 = s) as -> by (unfold load in E2; repeat case_match; by simplify_eq/=).
  apply no_ok_bind. intros a s3 E3%on_q_threads. apply no_ok_bind. intros b s4 E4. rewrite <- E3 in Hv. destruct (lock_held t s3 v Hv Hl) as [e He]. congruence.
Qed.
