(* ===== verification/SchedFair.v ===== *)
(** * Round robin

    While the running thread and those of its level only yield, each of them
    gets the processor in turn. *)

From S2P Require Import Prelude Dll Heap Queue Lock Sched SchedSpec SchedInv SchedStep SchedProps SchedEx.

Section fair.
Context {KM : Kmalloc} {MC : Machine} {AR : Areas} {N : nat} (Hroom : ∀ n D, km_choose n D = None -> (N <= size D)%nat).
Implicit Types (s : sys) (F : fam) (q t : ptr) (v : thread_t).

(** [ts]: the running thread and, in their order, the threads on the queue [lq]
    of its level, which is the first level that is not empty. *)
Definition ring s (lq : ptr) (ts : list ptr) : Prop :=
  ∃ F v c ls1 lvl ls2, sinv (N := N) s F ∧ lives s v ∧ run_queue (k_cpus s) (ts_processor v) (ts_priority v) = Some lq ∧ mem F embryo_queue = [] ∧
    k_cpus s !! cpu = Some c ∧ queueq c = ls1 ++ lvl :: ls2 ∧ level_queue lvl = lq ∧ (∀ x, x ∈ ls1 -> mem F (level_queue x) = []) ∧
    ts = k_current s :: mem F lq ∧ ∀ t v, t ∈ mem F lq -> k_threads s !! t = Some v -> has (t_flags v) THREAD_KILLED = false.
Fixpoint rounds (k : nat) : M sys unit :=
  match k with
  | O => mret tt
  | S k => run_event Yield;; run_event Pick;; rounds k
  end.

Lemma first_unique {A} (P : A -> Prop) l1 l1' x x' l2 l2' :
  l1 ++ x :: l2 = l1' ++ x' :: l2' -> (∀ y, y ∈ l1 -> P y) -> (∀ y, y ∈ l1' -> P y) -> ¬ P x -> ¬ P x' -> x = x' ∧ l1 = l1'.
Proof.
  revert l1'. induction l1 as [|y l1 IH]; intros [|y' l1'] E H1 H2 Hx Hx'; simplify_eq/=; try done.
  - destruct Hx. apply H2, list_elem_of_here.
  - destruct Hx'. apply H1, list_elem_of_here.
  - destruct (IH l1') as [-> ->]; try done; intros; [apply H1|apply H2]; by apply list_elem_of_further.
Qed.
Lemma nodup_level c ls1 lvl ls2 x : NoDup (level_queue <$> ls1 ++ lvl :: ls2) -> x ∈ ls1 -> queueq c = ls1 ++ lvl :: ls2 -> level_queue x ≠ level_queue lvl.
Proof.
  intros Hnd Hx _ E. rewrite fmap_app, fmap_cons in Hnd. apply NoDup_app in Hnd as (_ & H & _). apply (H (level_queue x)); [by apply list_elem_of_fmap_2|rewrite E; apply list_elem_of_here].
Qed.

(** The first thread of the first level that is not empty runs. *)
Lemma pick_first s F c ls1 lvl ls2 t l v :
  sinv (N := N) (k_set_current NULL s) F -> k_cpus s !! cpu = Some c -> queueq c = ls1 ++ lvl :: ls2 -> mem F embryo_queue = [] ->
  (∀ x, x ∈ ls1 -> mem F (level_queue x) = []) -> mem F (level_queue lvl) = t :: l -> k_threads s !! t = Some v -> has (t_flags v) THREAD_KILLED = false ->
  wp (run_event Pick) s (λ r s', r = true ∧ k_current s' = t ∧ k_cpus s' = k_cpus s ∧ ∃ F' w, sinv (N := N) s' F' ∧ lives s' w ∧ k_threads s' = <[t := w]> (k_threads s) ∧
    run_queue (k_cpus s) (ts_processor w) (ts_priority w) = Some (level_queue lvl) ∧ mem F' (level_queue lvl) = l ∧ ∀ x, x ∈ Qs -> x ≠ level_queue lvl -> mem F' x = mem F x).
Proof.
  intros HS Hc Els Hemb Htop El Hv Hk. pose proof (co_agree _ _ _ _ _ _ (si_core _ _ HS)) as HA. assert (t ∈ dom (k_threads s)) as Ht by (apply elem_of_dom; by eexists).
  eapply wp_mono; [by apply (pick_ok Hroom s F c HS)|]. intros b s2 [_ (m1 & F2 & Hen & Hres)].
  destruct Hen as [(_ & -> & Em)|(x & l' & ? & ? & ? & E & _)]; [|rewrite Hemb in E; done].
  assert (∀ ls1' lvl' ls2' t' l', queueq c = ls1' ++ lvl' :: ls2' -> (∀ x, x ∈ ls1' -> mem F2 (level_queue x) = []) -> mem F2 (level_queue lvl') = t' :: l' -> lvl' = lvl ∧ t' = t ∧ l' = l) as Huq.
  { intros ls1' lvl' ls2' t' l' E1 E2 E3. rewrite E1 in Els. destruct (first_unique (λ x, mem F2 (level_queue x) = []) _ _ _ _ _ _ Els) as [-> _]; [done|intros; rewrite Em; auto|by rewrite E3|by rewrite Em, El|].
    rewrite Em, El in E3. by injection E3 as -> ->. }
  destruct b.
  - destruct Hres as (t' & w0 & w1 & F' & w & E1 & Hpk & _ & Ecur & Ek & Eth & Ep & Epr & HS' & HL'). destruct (pk_where _ _ _ _ _ _ _ Hpk) as (ls1' & lvl' & ls2' & l' & E2 & E3 & E4 & Hpp & _ & Hr & _).
    destruct (Huq _ _ _ _ _ E2 E3 E4) as (-> & -> & ->). split; [done|]. split; [done|]. split; [done|]. exists F', w. split; [done|]. split; [done|]. split; [done|]. split; [by rewrite Ep, Epr|].
    split; [apply Hpp|]. intros x H1 H2. rewrite (pp_else _ _ _ _ _ Hpp); [apply Em|done|by apply (ag_name _ _ _ HA)].
  - destruct Hres as [Hall|(t' & w0 & w1 & F' & E1 & Hpk & Hk')].
    + specialize (Hall lvl). rewrite Em, El in Hall. discriminate Hall. rewrite Els. apply elem_of_app. right. apply list_elem_of_here.
    + destruct (pk_where _ _ _ _ _ _ _ Hpk) as (ls1' & lvl' & ls2' & l' & E2 & E3 & E4 & _). destruct (Huq _ _ _ _ _ E2 E3 E4) as (-> & -> & ->). congruence.
Qed.

(** The threads of the level, after the running one was put behind them. *)
Lemma round_ok s lq t0 ts : ring s lq (t0 :: ts) -> wp (run_event Yield;; run_event Pick) s (λ r s', ring s' lq (ts ++ [t0])).
Proof.
  intros (F & v & c & ls1 & lvl & ls2 & HS & HL & Hrq & Hemb & Hc & Els & Elq & Htop & Ets & Hlive). injection Ets as -> ->. set (t := k_current s) in *.
  pose proof (si_core _ _ HS) as HC. pose proof (co_lay _ _ _ _ _ _ HC) as Hly. pose proof (co_agree _ _ _ _ _ _ HC) as HA. destruct (run_facts s F v HS HL) as (Htn & Ht & _). fold t in Htn, Ht.
  assert (lq ∈ LQ) as HlqL by (by eapply run_queue_LQ). assert (lq ∈ Qs) as HlqQ by (by apply (ly_level _ _ _ _ Hly)). assert (∀ x, x ∈ Qs -> x ≠ t_queues t) as Hnm by (intros x Hx; by apply (ag_name _ _ _ HA)).
  assert (embryo_queue ≠ lq) as Hel by (intros E; apply (ly_emb _ _ _ _ Hly), elem_of_union_l; by rewrite E). pose proof (ly_nodup _ _ _ _ Hly _ _ Hc) as Hnd. rewrite Els in Hnd.
  assert (∀ x, x ∈ ls1 -> level_queue x ≠ lq ∧ level_queue x ∈ Qs) as Hup.
  { intros x Hx. split; [rewrite <- Elq; by eapply nodup_level|]. apply (ly_level _ _ _ _ Hly). destruct (ly_levels _ _ _ _ Hly _ _ Hc) as [_ Hin]. apply Hin. rewrite Els. set_solver. }
  wp_step. eapply wp_mono; [by eapply (yield_ok Hroom s F v)|]. intros r s1 (_ & _ & q & v' & F1 & (P & X & -> & HP) & Hr & Hpo & HS1 & Eth & Ek). fold t in Hpo, Eth. rewrite insert_insert_eq in Eth.
  simpl in Hr, HP. rewrite HP in Hr. 2: { intros E. unfold run_queue in Hrq. by rewrite E, (ly_null _ _ _ _ Hly) in Hrq. }
  assert (q = lq) as -> by congruence. set (v1 := t_set_lock false _) in Eth. assert (t_flags v1 = t_flags v) as Efl by done.
  assert (∀ x, x ∈ Qs -> x ≠ lq -> mem F1 x = mem F x) as Em1. { intros x H1 H2. unfold mem. by rewrite (po_rest _ _ _ _ Hpo) by auto. }
  pose proof (po_q _ _ _ _ Hpo) as Eq1. destruct (mem F lq ++ [t]) as [|t1 l1] eqn:Eapp; [by destruct (mem F lq)|].
  assert (∀ t', t' ∈ t1 :: l1 -> ∃ w, k_threads s1 !! t' = Some w ∧ has (t_flags w) THREAD_KILLED = false) as Hall.
  { intros t' Hin. rewrite <- Eapp, Eth in *. apply elem_of_app in Hin. destruct (decide (t' = t)) as [->|Hne]; [rewrite lookup_insert_eq; exists v1; split; [done|]; rewrite Efl; apply HL|].
    rewrite lookup_insert_ne by done. destruct Hin as [Hin| ->%list_elem_of_singleton]; [|done]. assert (t' ∈ dom (k_threads s)) as [w Hw]%elem_of_dom by (by eapply ag_threads). exists w. eauto. }
  destruct (Hall t1 (list_elem_of_here _ _)) as (w1 & Hw1 & Hk1). pose proof (ag_nodup _ _ _ (co_agree _ _ _ _ _ _ (si_core _ _ HS1)) lq) as Hnd1. rewrite Eq1 in Hnd1. apply NoDup_cons in Hnd1 as [Hn1 _].
  eapply wp_mono; [apply (pick_first s1 F1 c ls1 lvl ls2 t1 l1 w1); try done; [by rewrite Ek|by rewrite Em1; [|apply (ly_embryo _ _ _ _ Hly)|]|intros x Hx; destruct (Hup x Hx); by rewrite Em1; [apply Htop|..]|by rewrite Elq]|].
  intros r2 s2 (-> & Ec2 & Ek2 & F2 & w & HS2 & HL2 & Eth2 & Hr2 & Em2 & Em2'). rewrite Elq in *. exists F2, w, c, ls1, lvl, ls2. rewrite Ek2, Ek in *. split_and!; try done.
  - rewrite Em2', Em1; [done|apply (ly_embryo _ _ _ _ Hly)|done|apply (ly_embryo _ _ _ _ Hly)|done].
  - intros x Hx. destruct (Hup x Hx). rewrite Em2', Em1 by done. by apply Htop.
  - by rewrite Em2, Ec2.
  - intros t' w' Hin Hw'. rewrite Em2 in Hin. rewrite Eth2, lookup_insert_ne in Hw' by (by intros ->). destruct (Hall t' (list_elem_of_further _ _ _ Hin)) as (x & Hx & Hkx). congruence.
Qed.

Lemma rotate_step {A} k (x : A) l : rotate k (l ++ [x]) = rotate (S k) (x :: l).
Proof.
  unfold rotate. rewrite length_app. simpl length. rewrite Nat.add_1_r. set (n := S (length l)). pose proof (Nat.mod_upper_bound k n ltac:(lia)) as Hr.
  replace (S k `mod` n)%nat with ((1 + k `mod` n) `mod` n)%nat by (by rewrite Nat.Div0.add_mod_idemp_r). set (r := (k `mod` n)%nat) in *.
  assert (r <= length l)%nat as Hrl by lia. rewrite drop_app_le, take_app_le by done. destruct (decide (1 + r = n)%nat) as [E|E].
  - rewrite E, Nat.Div0.mod_same. simpl. rewrite drop_ge, take_ge by lia. by rewrite app_nil_r.
  - rewrite Nat.mod_small by lia. simpl. by rewrite <- app_assoc.
Qed.
Lemma rotate_zero {A} (l : list A) : rotate 0 l = l.
Proof. unfold rotate. rewrite Nat.Div0.mod_0_l. simpl. by rewrite take_0, drop_0, app_nil_r. Qed.
Lemma wp_unbind {S A B} (c : M S A) (f : A -> M S B) x Q : wp (c ≫= f) x Q -> wp c x (λ a y, wp (f a) y Q).
Proof. unfold wp, mbind, M_bind. by destruct (c x). Qed.
Lemma ring_rounds k s lq ts : ring s lq ts -> wp (rounds k) s (λ _ s', ring s' lq (rotate k ts)).
Proof.
  revert s ts. induction k as [|k IH]; intros s ts HR; [apply wp_ret; by rewrite rotate_zero|]. destruct ts as [|t0 ts]; [destruct HR; naive_solver|].
  cbn [rounds]. rewrite <- rotate_step. pose proof (round_ok _ _ _ _ HR) as H1. apply wp_unbind in H1.
  wp_step. eapply wp_mono; [exact H1|]. intros r s1 H2. wp_step. eapply wp_mono; [exact H2|]. intros r2 s2 H3. by apply IH.
Qed.
Lemma ring_head s lq ts : ring s lq ts -> head ts = Some (k_current s).
Proof. by intros (F & v & c & ls1 & lvl & ls2 & _ & _ & _ & _ & _ & _ & _ & _ & -> & _). Qed.

(** C7. Round robin: when the running thread and the threads of its level, the
    first level with threads, yield in turn, then after [k] rounds the
    processor has gone [k] places along the ring of these threads, so that each
    of them runs once in every [length ts] rounds; nothing stops. *)
Theorem round_robin s lq ts k : ring s lq ts -> ∃ s', rounds k s = Ok tt s' ∧ ring s' lq (rotate k ts) ∧ head (rotate k ts) = Some (k_current s').
Proof.
  intros HR. pose proof (ring_rounds k s lq ts HR) as Hw. unfold wp in Hw. destruct (rounds k s) as [[] s'|]; [|done]. exists s'. split; [done|]. split; [done|]. by eapply ring_head.
Qed.
End fair.

(** ** Three threads on one level *)

(** 401 runs; 402 and 403 wait on the last level. *)
Definition trio_ds : dsheap :=
  set_qnodes {[501 := QNode NULL 402 502 208; 502 := QNode 501 403 NULL 208; 503 := QNode NULL 208 NULL (t_queues 402); 504 := QNode NULL 208 NULL (t_queues 403)]}
    (set_queues (<[208 := Heap.Queue 501 502 2 false]> (<[t_queues 402 := Heap.Queue 503 503 1 false]> (<[t_queues 403 := Heap.Queue 504 504 1 false]> (d_queues (k_ds three))))) (k_ds three)).
Definition trio : sys :=
  k_set_ds trio_ds (k_set_threads (<[401 := tcb 1 T_READY 255]> (<[402 := tcb 2 T_READY 255]> {[403 := tcb 3 T_READY 255]})) three).
Definition trio_fam : fam :=
  <[208 := (false, [(501, 402); (502, 403)])]> (<[t_queues 402 := (false, [(503, 208)])]> (<[t_queues 403 := (false, [(504, 208)])]> fam3)).

Lemma trio_dom : dom (k_threads trio) = tids.
Proof. by_check (dom (k_threads trio) = tids). Qed.
Lemma trio_ok : fam_ok (k_ds trio) trio_fam.
Proof.
  intros q lk xs. unfold trio_fam. rewrite !lookup_insert_Some. intros [[<- [= <- <-]]|[N1 [[<- [= <- <-]]|[N2 [[<- [= <- <-]]|[N3 H]]]]]].
  1-3: split; [done|]; split; [done|]; split; [split; [done|]; split; [done|]; split; [|split; [|by split_and!]]|]; simpl.
  1-9: repeat constructor; vm_compute; by intros ?%elem_of_list_In || done || set_solver.
  destruct (three_fam _ _ _ H) as (H1 & H2 & _ & H4). apply fam3_some in H as (-> & -> & _). split; [done|]. split; [simpl; by rewrite !lookup_insert_ne|]. split; [apply dll_nil|done].
Qed.
Lemma trio_mem q (P : list ptr -> Prop) `{!∀ l, Decision (P l)} : bool_decide (P []) = true -> bool_decide (map_Forall (λ _ x, P x.2.*2) trio_fam) = true -> P (mem trio_fam q).
Proof.
  intros H0 H1. apply bool_decide_eq_true in H0, H1. unfold mem. destruct (trio_fam !! q) as [x|] eqn:E; [|done]. by apply H1 in E.
Qed.
Lemma trio_agree : agree trio_fam (dom (k_threads trio)) Qs.
Proof.
  rewrite trio_dom. split.
  - by_check (set_Forall (λ t, 0 < t < two64) tids).
  - intros q t Hq Ht. revert q Hq t Ht. by_check (set_Forall (λ q, set_Forall (λ t, q ≠ t_queues t) tids) Qs).
  - by_check (set_Forall (λ q, is_Some (trio_fam !! q)) Qs).
  - intros t Ht. assert (fst <$> trio_fam !! t_queues t = Some false) as H by (revert t Ht; by_check (set_Forall (λ t, fst <$> trio_fam !! t_queues t = Some false) tids)).
    destruct (trio_fam !! t_queues t) as [[b xs]|]; [|done]. injection H as ->. by exists xs.
  - intros q. apply (trio_mem q (λ l, NoDup l)); by vm_compute.
  - intros q t Hq. revert t. apply Forall_forall. revert q Hq. by_check (set_Forall (λ q, Forall (λ t, t ∈ tids) (mem trio_fam q)) Qs).
  - intros q t Ht. revert q. apply Forall_forall. revert t Ht. by_check (set_Forall (λ t, Forall (λ q, q ∈ Qs) (mem trio_fam (t_queues t))) tids).
  - intros q t Hq Ht. revert q Hq t Ht. by_check (set_Forall (λ q, set_Forall (λ t, t ∈ mem trio_fam q <-> q ∈ mem trio_fam (t_queues t)) tids) Qs).
Qed.
Lemma trio_inv : sinv (N := 200) trio trio_fam.
Proof.
  split.
  - split; [apply trio_ok|apply trio_agree|apply three_layout|..].
    + intros q Hq _. revert q Hq. by_check (set_Forall (λ q, lkd trio_fam q = Some false) Qs).
    + by intros q ?%elem_of_empty.
    + rewrite trio_dom. by_check (set_Forall (λ t, t_wait t ∈ SQ) tids).
    + by_check (set_Forall (λ g, g ≠ NULL ∧ is_Some (k_spins three !! g)) G).
    + intros t v Hv _. revert t v Hv. apply map_Forall_insert_2; [|apply map_Forall_insert_2; [|apply map_Forall_singleton]].
      all: split; [done|]; split; [split; [by split; [done|right; by eexists]|by left|done|done|right; split; [by_check (mmap_guard 600 ∈ G)|done]]|].
      * by vm_compute.
      * split; [by left|]. exists 208. by vm_compute.
      * split; [by left|]. exists 208. by vm_compute.
  - rewrite trio_dom. split; [by_check (set_Forall (λ t, is_Some (k_conds three !! t_wait t) ∧ cond_guard (t_wait t) ∈ G) tids)|].
    intros g Hg. split; [revert g Hg; by_check (set_Forall (λ g, g ≠ NULL) G)|]. by apply lookup_gset_to_gmap_Some.
  - apply leb_complete. by vm_compute.
Qed.
Lemma trio_ring : ring (N := 200) trio 208 [401; 402; 403].
Proof.
  exists trio_fam, (tcb 1 T_READY 255), (Cpu levels3), (take 7 levels3), (Level 20 208), []. split; [apply trio_inv|]. split; [done|]. split_and!; try by vm_compute.
  - apply Forall_forall. by_check (Forall (λ x, mem trio_fam (level_queue x) = []) (take 7 levels3)).
  - intros t v Ht Hv. assert (has (t_flags v) THREAD_KILLED = false) as H; [|exact H]. revert t v Hv Ht. refine (map_Forall_impl (λ _ v, has (t_flags v) THREAD_KILLED = false) _ _ _ _); [|done].
    by_check (map_Forall (λ _ v, has (t_flags v) THREAD_KILLED = false) (k_threads trio)).
Qed.

(** After four rounds the second thread runs. *)
Lemma round_robin_witness :
  ring (N := 200) trio 208 [401; 402; 403] ∧
  ∃ s', rounds (KM := pool_kmalloc) 4 trio = Ok tt s' ∧ ring (N := 200) s' 208 (rotate 4 [401; 402; 403]) ∧ head (rotate 4 [401; 402; 403]) = Some (k_current s').
Proof. split; [exact trio_ring|]. apply (round_robin (KM := pool_kmalloc) pool_room). exact trio_ring. Defined.

(** A thread that was killed while it runs and then sleeps becomes a zombie but
    stays on the sleep queue; once woken, the scheduler panics on it. *)
#[local] Existing Instance pool_kmalloc.
Definition doomed : sys := k_set_threads (<[401 := t_set_flags THREAD_KILLED (tcb 1 T_READY 255)]> (k_threads trio)) trio.
Fixpoint run_events (es : list event) (s : sys) : outcome sys bool :=
  match es with
  | [] => Ok true s
  | e :: es => match run_event e s with Ok _ s' => run_events es s' | Stop x => Stop x end
  end.
Example killed_sleeper_zombie : match run_events [Sleep 305 T_ISLEEP NULL] doomed with Ok _ s => t_state <$> k_threads s !! 401 = Some T_ZOMBIE | Stop _ => False end.
Proof. by vm_compute. Qed.
Example killed_sleeper_panics : run_events [Sleep 305 T_ISLEEP NULL; Pick; Wake1 305; Yield; Pick; Yield; Pick] doomed = Stop Panic.
Proof. by vm_compute. Qed.
(** A thread that was woken but has not run yet cannot be killed or woken: it is
    no longer on the queue that its [t_sleep] names, and the error goes back to
    the caller. *)
Example kill_after_wake :
  match run_events [Sleep 305 T_ISLEEP NULL; Pick; Wake1 305] trio with
  | Ok _ s => match (thread_lock 401;; kill_mark 401) s with Ok r _ => r = Some (- ENOENT) | Stop _ => False end
  | Stop _ => False
  end.
Proof. by vm_compute. Qed.
