(* ===== verification/Tgroup.v ===== *)
(** * kernel/sys/threads/tgroup.c, kernel/sys/sleep.c: groups of threads

    Lookups in a group and in the queue of all threads, stopping and continuing
    a group, and [park]/[unpark]. *)

From S2P Require Import Prelude Dll Heap Queue Lock Sched SchedSpec SchedInv SchedStep SchedProps SchedEx.

(** Macros of include/sys/tgroup.h and thread.h *)
Definition tgroup_lock (g : ptr) : M sys unit := assert_ (bool_decide (g ≠ NULL));; on_q (queue_lock g).
Definition tgroup_unlock (g : ptr) : M sys unit := assert_ (bool_decide (g ≠ NULL));; on_q (queue_unlock g).
Definition tgroup_assert_locked (g : ptr) : M sys unit := assert_ (bool_decide (g ≠ NULL));; on_q (queue_assert_locked g).
Definition thread_tgroup (t : ptr) : M sys ptr := assert_ (bool_decide (t ≠ NULL));; v ← load (V := thread_t) t; mret (t_tgroup v).
Definition current_tgroup : M sys ptr := t ← current; if decide (t = NULL) then mret NULL else thread_tgroup t.
Definition current_tgroup_lock : M sys unit := t ← current; g ← thread_tgroup t; tgroup_lock g.
Definition current_tgroup_unlock : M sys unit := t ← current; g ← thread_tgroup t; tgroup_unlock g.

Section groups.
Context {KM : Kmalloc} {MC : Machine}.

(** The loop of [forlinked] and of [queue_foreach], which differ in when the next
    node is read: [early] is before the body.  The body may return. *)
Fixpoint each_loop {A} (early : bool) (fuel : nat) (node : ptr) (body : ptr -> M sys (option A)) : M sys (option A) :=
  if decide (node = NULL) then mret None else
  match fuel with
  | O => halt OutOfFuel
  | S n =>
      x ← on_q (nload node);
      r ← body (qn_data x);
      match r with
      | Some a => mret (Some a)
      | None => y ← (if early then mret x else on_q (nload node)); each_loop early n (qn_next y) body
      end
  end.
Definition forlinked {A} (q : ptr) (body : ptr -> M sys (option A)) : M sys (option A) :=
  x ← on_q (qload q); fuel ← on_q walk_fuel; each_loop true fuel (q_head x) body.
Definition queue_foreach {A} (q : ptr) (body : ptr -> M sys (option A)) : M sys (option A) :=
  on_q (queue_assert_locked q);; x ← on_q (qload q); fuel ← on_q walk_fuel; each_loop false fuel (q_head x) body.
(** A body that never returns. *)
Definition go_on (c : M sys unit) : M sys (option unit) := c;; mret None.

(** A thread of a queue by its number, or the first one for 0: locked. *)
Definition thread_queue_get (queue : ptr) (tid : Z) (pthread : bool) : M sys (Z * ptr) :=
  if decide (queue = NULL ∨ pthread = false) then mret (- EINVAL, NULL) else
  on_q (queue_assert_locked queue);;
  r ← forlinked queue (λ thread,
    thread_lock thread;;
    if decide (tid = 0) then mret (Some thread) else
    v ← load (V := thread_t) thread;
    if decide (t_tid v = tid) then mret (Some thread) else
    thread_unlock thread;; mret None);
  mret (match r with Some thread => (0, thread) | None => (- ESRCH, NULL) end).

(** A thread of a group by its number, any one for -1, one in [state] for 0:
    locked, with a reference. *)
Definition get_body (tid : Z) (state : tstate_t) (thread : ptr) : M sys (option ptr) :=
  thread_lock thread;;
  b ← andM (mret (bool_decide (tid = 0))) (thread_isstate thread state);
  if b : bool then t ← thread_getref thread; mret (Some t) else
  v ← load (V := thread_t) thread;
  if decide (t_tid v = tid ∨ tid = -1) then t ← thread_getref thread; mret (Some t) else
  thread_unlock thread;; mret None.
Definition tgroup_get_thread (tgroup : ptr) (tid : Z) (state : tstate_t) (pthread : bool) : M sys (Z * ptr) :=
  if decide (pthread = false) then mret (- EINVAL, NULL) else
  on_q (queue_assert_locked tgroup);;
  r ← forlinked tgroup (get_body tid state);
  mret (match r with Some thread => (0, thread) | None => (- ESRCH, NULL) end).
Definition tgroup_getmain (tgroup : ptr) (ptp : bool) : M sys (Z * ptr) :=
  if decide (tgroup = NULL ∨ ptp = false) then mret (- EINVAL, NULL) else
  tgroup_assert_locked tgroup;;
  r ← queue_foreach tgroup (λ thread,
    thread_lock thread;;
    b ← thread_ismain thread;
    if b : bool then t ← thread_getref thread; mret (Some t) else
    thread_unlock thread;; mret None);
  mret (match r with Some thread => (0, thread) | None => (- ESRCH, NULL) end).

Definition tgroup_continue (tgroup : ptr) : M sys Z :=
  tgroup_assert_locked tgroup;;
  queue_foreach tgroup (λ thread, go_on (thread_lock thread;; thread_wake thread;; thread_unlock thread));;
  mret 0.
Definition tgroup_stop (tgroup : ptr) : M sys Z :=
  tgroup_assert_locked tgroup;;
  queue_foreach tgroup (λ thread, go_on (thread_lock thread;; thread_setflags thread THREAD_STOP;; thread_wake thread;; thread_unlock thread));;
  mret 0.

Definition thread_join_group (thread : ptr) : M sys Z :=
  cur ← current;
  c ← load (V := thread_t) cur;
  '(err, node) ← thread_enqueue (t_tgroup c) thread;
  if decide (err ≠ 0) then mret err else
  update thread (t_set_tgrp_qn node);;
  c ← load (V := thread_t) cur;
  update thread (λ v, t_set_sigdesc (t_sigdesc c) (t_set_tgroup (t_tgroup c) (t_set_cred (t_cred c) v)));;
  mret 0.

(** The group of the running thread first, then all threads for a kernel thread.
    On a match by state the queue of all threads stays locked. *)
Definition thread_get (tid : Z) (state : tstate_t) (ppthread : bool) : M sys (Z * ptr) :=
  if decide (ppthread = false) then mret (- EINVAL, NULL) else
  current_tgroup_lock;;
  g ← current_tgroup;
  '(err, thread) ← tgroup_get_thread g tid state true;
  current_tgroup_unlock;;
  if decide (err = 0) then mret (0, thread) else
  cur ← current;
  u ← thread_isuser cur;
  if u : bool then mret (- ESRCH, NULL) else
  on_q (queue_lock threads_queue);;
  r ← queue_foreach threads_queue (λ thread,
    thread_lock thread;;
    b ← andM (mret (bool_decide (tid = 0))) (thread_isstate thread state);
    if b : bool then t ← thread_getref thread; mret (Some t) else
    i ← thread_gettid thread;
    if decide (i = tid) then t ← thread_getref thread; on_q (queue_unlock threads_queue);; mret (Some t) else
    thread_unlock thread;; mret None);
  match r with
  | Some t => mret (0, t)
  | None => on_q (queue_unlock threads_queue);; mret (- ESRCH, NULL)
  end.

(** [park] returns [None] when the thread sleeps; [park_end] is the rest. *)
Definition park_end : M sys Z :=
  r ← sched_sleep_end NULL;
  t ← current;
  thread_mask_park_wake t;;
  current_unlock;;
  mret r.
Definition park : M sys (option Z) :=
  current_lock;;
  t ← current;
  thread_setpark t;;
  w ← thread_issetwake t;
  if w : bool then thread_mask_park_wake t;; current_unlock;; mret (Some 0) else
  '(err, switch) ← sched_sleep global_sleep_queue T_ISLEEP NULL;
  if decide (err ≠ 0) then thread_mask_park_wake t;; current_unlock;; mret (Some err) else
  if switch : bool then mret None else
  r ← park_end; mret (Some r).
Definition unpark (tid : Z) : M sys Z :=
  current_tgroup_lock;;
  g ← current_tgroup;
  '(err, thread) ← tgroup_get_thread g tid T_ISLEEP true;
  if decide (err ≠ 0) then current_tgroup_lock;; mret err else
  current_tgroup_unlock;;
  thread_setwake thread;;
  err ← thread_wake thread;
  thread_unlock thread;;
  mret err.
End groups.

(** ** Finding a thread *)

Section find.
Context {KM : Kmalloc} {MC : Machine}.

(** The thread the caller asked for. *)
Definition wanted (s : sys) (tid : Z) (state : tstate_t) (t : ptr) : bool :=
  match k_threads s !! t with
  | Some v => bool_decide ((tid = 0 ∧ t_state v = state) ∨ t_tid v = tid ∨ tid = -1)
  | None => false
  end.
Definition taken (t : ptr) (s : sys) : sys :=
  match k_threads s !! t with
  | Some v => k_set_threads (<[t := t_set_refcnt (t_refcnt v + 1) (t_set_lock true v)]> (k_threads s)) s
  | None => s
  end.

Lemma wp_get_body s tid state t v (Q : option ptr -> sys -> Prop) :
  t ≠ NULL -> k_threads s !! t = Some v -> t_lock v = false ->
  Q (if wanted s tid state t then Some t else None) (if wanted s tid state t then taken t s else s) -> wp (get_body tid state t) s Q.
Proof.
  intros Hn Hv Hl HQ. unfold wanted, taken in HQ. rewrite Hv in HQ. rewrite <- (kt_id s). unfold get_body. wp_step. apply (wp_tlock _ _ _ _ v); [done..|]. set (m := k_threads s) in *.
  set (v1 := t_set_lock true v) in *. assert (<[t := v1]> m !! t = Some v1) as Hv1 by (by rewrite lookup_insert_eq).
  assert (wp (t ← thread_getref t; mret (Some t)) (kt s (k_ds s) (<[t := v1]> m)) (λ r s', r = Some t ∧ s' = k_set_threads (<[t := t_set_refcnt (t_refcnt v + 1) v1]> m) s)) as Href.
  { wp_step. unfold thread_getref. wp_step. apply (wp_tassert _ _ _ _ v1); [done..|]. wp_step. apply (wp_tupd _ _ _ _ v1); [done..|]. rewrite insert_insert_eq. apply wp_ret. apply wp_ret.
    split; [done|]. by destruct s. }
  wp_step. unfold andM. wp_step. apply wp_ret.
  destruct (decide (tid = 0 ∧ t_state v = state)) as [[-> E]|E].
  - rewrite bool_decide_eq_true_2 by done. apply (wp_isstate _ _ _ _ v1); [done..|]. rewrite bool_decide_eq_true_2 by done. rewrite bool_decide_eq_true_2 in HQ by auto.
    eapply wp_mono; [exact Href|]. by intros r s' [-> ->].
  - match goal with |- wp ?c _ ?R => enough (R false (kt s (k_ds s) (<[t := v1]> m))) as Hgo end.
    { destruct (decide (tid = 0)) as [E0|E0]; [rewrite (bool_decide_eq_true_2 (tid = 0)) by done; apply (wp_isstate _ _ _ _ v1); [done..|]|rewrite (bool_decide_eq_false_2 (tid = 0)) by done; by apply wp_ret].
      rewrite (bool_decide_eq_false_2 (t_state v1 = state)); [exact Hgo|]. intros E'. by apply E. }
    cbv beta. wp_step. apply (wp_tload _ _ _ _ v1); [done..|]. change (t_tid v1) with (t_tid v). destruct (decide (t_tid v = tid ∨ tid = -1)) as [E2|E2].
    + rewrite bool_decide_eq_true_2 in HQ by auto. eapply wp_mono; [exact Href|]. by intros r s' [-> ->].
    + rewrite bool_decide_eq_false_2 in HQ by tauto. wp_step. apply (wp_tunlock _ _ _ _ v1); [done..|]. rewrite insert_insert_eq. apply wp_ret.
      replace (<[t := t_set_lock false v1]> m) with m by (symmetry; apply insert_id; rewrite Hv; destruct v; simpl in Hl; by rewrite Hl). by rewrite kt_id.
Qed.

Lemma wp_get_loop s g tid state : ∀ ys xs n (Q : option ptr -> sys -> Prop),
  queue_rep (k_ds s) g true (xs ++ ys) -> (length ys <= n)%nat -> (∀ t, t ∈ ys.*2 -> t ≠ NULL ∧ ∃ v, k_threads s !! t = Some v ∧ t_lock v = false) ->
  Q ((λ x, x.2) <$> list_find (λ t, wanted s tid state t) ys.*2) (match list_find (λ t, wanted s tid state t) ys.*2 with Some (_, t) => taken t s | None => s end) ->
  wp (each_loop true n (hd_or NULL ys) (get_body tid state)) s Q.
Proof.
  induction ys as [|[p t] ys IH]; intros xs n Q Hrep Hn Hall HQ; [by destruct n; apply wp_ret|]. pose proof (queue_rep_node _ _ _ _ _ _ _ Hrep) as (Hp & _ & _ & Hnode).
  destruct n as [|n]; [simpl in Hn; lia|]. cbn [each_loop hd_or fst]. rewrite decide_False by done. destruct (Hall t) as (Htn & v & Hv & Hl); [simpl; apply list_elem_of_here|].
  wp_step. apply wp_zoom. eapply wp_nload; [done|done|]. cbn [qn_data qn_next]. rewrite k_ds_id. wp_step. eapply wp_get_body; [done|done|done|]. simpl in HQ.
  destruct (wanted s tid state t) eqn:E; simpl in HQ.
  - by apply wp_ret.
  - wp_step. apply wp_ret. cbn [qn_next]. eapply (IH (xs ++ [(p, t)])); [by rewrite <- app_assoc|simpl in Hn; lia|intros t' Ht'; apply Hall; simpl; by apply list_elem_of_further|].
    change (list_fmap _ _ snd ys) with ys.*2 in HQ. by destruct (list_find (λ t, wanted s tid state t) ys.*2) as [[i x]|].
Qed.

(** [tgroup_get_thread] on a locked group whose threads are not locked
    returns the first thread in the order of the group that is asked for (by
    number, any for -1, by state for 0), locked and with one more reference,
    and changes nothing else; without such a thread it returns -ESRCH and
    leaves the state as it was. *)
Theorem tgroup_get_thread_correct s g xs tid state :
  queue_rep (k_ds s) g true xs -> (∀ t, t ∈ xs.*2 -> t ≠ NULL ∧ ∃ v, k_threads s !! t = Some v ∧ t_lock v = false) ->
  tgroup_get_thread g tid state true s =
    match list_find (λ t, wanted s tid state t) xs.*2 with
    | Some (_, t) => Ok (0, t) (taken t s)
    | None => Ok (- ESRCH, NULL) s
    end.
Proof.
  intros Hrep Hall. enough (wp (tgroup_get_thread g tid state true) s (λ r s',
    match list_find (λ t, wanted s tid state t) xs.*2 with Some (_, t) => r = (0, t) ∧ s' = taken t s | None => r = (- ESRCH, NULL) ∧ s' = s end)) as Hw.
  { unfold wp in Hw. destruct (tgroup_get_thread g tid state true s) as [r s'|]; [|done]. destruct (list_find _ _) as [[i t]|]; by destruct Hw as [-> ->]. }
  unfold tgroup_get_thread. rewrite decide_False by done. wp_step. apply wp_zoom. eapply wp_queue_assert_locked; [done|done|]. rewrite k_ds_id. wp_step. unfold forlinked. wp_step. apply wp_zoom. eapply wp_queue_head; [done|].
  rewrite k_ds_id. wp_step. apply wp_zoom. unfold walk_fuel. apply wp_gets. rewrite k_ds_id. cbn [q_head]. eapply (wp_get_loop s g tid state xs []); [done|by eapply queue_rep_fuel|done|]. apply wp_ret.
  by destruct (list_find _ _) as [[i t]|].
Qed.
End find.

(** ** Examples *)

#[local] Existing Instance pool_kmalloc.

(** Threads 401 and 402 in the group 303, which is locked. *)
Definition pair : sys :=
  Sys (set_qnodes {[501 := QNode NULL 401 502 303; 502 := QNode 501 402 NULL 303]} (set_queues (<[303 := Heap.Queue 501 502 2 true]> (d_queues (k_ds three))) (k_ds three)))
    (<[401 := t_set_tgroup 303 (tcb 1 T_READY 255)]> {[402 := t_set_tgroup 303 (tcb 2 T_ISLEEP 255)]}) ∅ ∅ (k_cpus three) 401 2 0.
Lemma pair_rep : queue_rep (k_ds pair) 303 true [(501, 401); (502, 402)].
Proof. split; [done|]. split; [done|]. split; [|repeat constructor]. split; [done|]. split; [done|]. split; [repeat constructor; set_solver|]. split; [set_solver|by split_and!]. Qed.

Lemma tgroup_get_thread_correct_witness :
  queue_rep (k_ds pair) 303 true [(501, 401); (502, 402)] ∧ tgroup_get_thread 303 0 T_ISLEEP true pair = Ok (0, 402) (taken 402 pair).
Proof.
  split; [exact pair_rep|]. rewrite (tgroup_get_thread_correct pair 303 _ 0 T_ISLEEP pair_rep); [by vm_compute|].
  intros t Ht. assert (t = 401 ∨ t = 402) as [-> | ->] by (simpl in Ht; set_solver); (split; [done|eexists; split; [by vm_compute|done]]).
Defined.

(** [unpark] of a thread that is not in the group locks the group twice. *)
Example unpark_missing_panics : unpark 7 (k_set_ds (set_queues (<[303 := Heap.Queue 501 502 2 false]> (d_queues (k_ds pair))) (k_ds pair)) pair) = Stop Panic.
Proof. by vm_compute. Qed.
