(* ===== verification/Proc.v ===== *)
(** * kernel/sys/proc.c, kernel/sys/syscall/{proc,sysproc,waitpid}.c: processes

    The queue of processes, the lists of children, sessions and groups, and
    [waitpid].  A process shares the state of Sched.v with its threads; the
    queue [children] and the condition [child_event] inside it are named by the
    process.  Creation and end of processes, which go through the address
    spaces and the open files, are not part of this file. *)

From S2P Require Import Prelude Dll Heap Queue Lock Vfs Sched SchedSpec Tgroup.

Definition ECHILD : Z := 10.

(** ** Objects *)

Variant status_t := P_EMBROY | P_RUNNING | P_STOPPED | P_CONTINUED | P_TERMINATED | P_ZOMBIE.
#[export] Instance status_eq_dec : EqDecision status_t.
Proof. solve_decision. Defined.

Definition NPROC : Z := 32786.
Definition PROC_EXECED : Z := 2.

(** struct proc: the fields used here *)
Record proc_t := Proc {
  p_pid : Z;
  p_sid : Z;
  p_pgid : Z;
  p_parent : ptr;
  p_state : status_t;
  p_flags : Z;
  p_exit_code : Z;
  p_refcnt : Z;
  p_cred : ptr;
  p_sigdesc : ptr;
  p_threads : ptr;
  p_lock : bool;
}.
Definition p_set_sid v p := Proc (p_pid p) v (p_pgid p) (p_parent p) (p_state p) (p_flags p) (p_exit_code p) (p_refcnt p) (p_cred p) (p_sigdesc p) (p_threads p) (p_lock p).
Definition p_set_pgid v p := Proc (p_pid p) (p_sid p) v (p_parent p) (p_state p) (p_flags p) (p_exit_code p) (p_refcnt p) (p_cred p) (p_sigdesc p) (p_threads p) (p_lock p).
Definition p_set_parent v p := Proc (p_pid p) (p_sid p) (p_pgid p) v (p_state p) (p_flags p) (p_exit_code p) (p_refcnt p) (p_cred p) (p_sigdesc p) (p_threads p) (p_lock p).
Definition p_set_refcnt v p := Proc (p_pid p) (p_sid p) (p_pgid p) (p_parent p) (p_state p) (p_flags p) (p_exit_code p) v (p_cred p) (p_sigdesc p) (p_threads p) (p_lock p).
Definition p_set_lock v p := Proc (p_pid p) (p_sid p) (p_pgid p) (p_parent p) (p_state p) (p_flags p) (p_exit_code p) (p_refcnt p) (p_cred p) (p_sigdesc p) (p_threads p) v.
#[export] Instance lockable_proc : Lockable proc_t := {| lk_held := p_lock; lk_put := p_set_lock |}.
#[export] Instance lock_laws_proc : LockLaws proc_t.
Proof. split; by intros; destruct v. Qed.
Definition children (p : ptr) : ptr := member p 1.
Definition child_event (p : ptr) : ptr := member p 2.

(** siginfo_t, sigaction_t and sig_desc_t (include/sys/_signal.h); a function
    pointer is an address. *)
Record siginfo_t := Siginfo { si_signo : Z; si_code : Z; si_pid : Z; si_uid : Z; si_addr : ptr; si_status : Z; si_value : Z }.
Record sigaction_t := Sigaction { sa_handler : Z; sa_mask : Z; sa_flags : Z; sa_sigaction : Z }.
Record sig_desc_t := SigDesc { sig_mask : Z; sig_action : list sigaction_t; sig_lock : bool }.
Definition d_set_mask v d := SigDesc v (sig_action d) (sig_lock d).
Definition d_set_action v d := SigDesc (sig_mask d) v (sig_lock d).
Definition d_set_lock v d := SigDesc (sig_mask d) (sig_action d) v.
#[export] Instance lockable_desc : Lockable sig_desc_t := {| lk_held := sig_lock; lk_put := d_set_lock |}.
#[export] Instance lock_laws_desc : LockLaws sig_desc_t.
Proof. split; by intros; destruct v. Qed.
Definition sig_queue (d : ptr) (i : Z) : ptr := member d (1 + i).

(** [y_owner] is the field [t_owner] of the threads, [y_pids] the counter of
    process numbers. *)
Record psys := PSys {
  y_sys : sys;
  y_procs : gmap ptr proc_t;
  y_infos : gmap ptr siginfo_t;
  y_descs : gmap ptr sig_desc_t;
  y_creds : gmap ptr cred_t;
  y_owner : gmap ptr ptr;
  y_pids : Z;
}.
Definition y_set_sys v y := PSys v (y_procs y) (y_infos y) (y_descs y) (y_creds y) (y_owner y) (y_pids y).
Definition y_set_procs v y := PSys (y_sys y) v (y_infos y) (y_descs y) (y_creds y) (y_owner y) (y_pids y).
Definition y_set_infos v y := PSys (y_sys y) (y_procs y) v (y_descs y) (y_creds y) (y_owner y) (y_pids y).
Definition y_set_descs v y := PSys (y_sys y) (y_procs y) (y_infos y) v (y_creds y) (y_owner y) (y_pids y).
Definition y_set_creds v y := PSys (y_sys y) (y_procs y) (y_infos y) (y_descs y) v (y_owner y) (y_pids y).
Definition y_set_pids v y := PSys (y_sys y) (y_procs y) (y_infos y) (y_descs y) (y_creds y) (y_owner y) v.
#[export] Instance hl_procs : Heaplet psys proc_t := {| hl_get := y_procs; hl_put := y_set_procs |}.
#[export] Instance hl_infos : Heaplet psys siginfo_t := {| hl_get := y_infos; hl_put := y_set_infos |}.
#[export] Instance hl_descs : Heaplet psys sig_desc_t := {| hl_get := y_descs; hl_put := y_set_descs |}.
#[export] Instance hl_pcreds : Heaplet psys cred_t := {| hl_get := y_creds; hl_put := y_set_creds |}.
#[export] Instance kheap_psys : Kheap psys := {|
  kh_live y := kh_live (y_sys y) ∪ dom (y_procs y) ∪ dom (y_infos y) ∪ dom (y_descs y) ∪ dom (y_creds y);
  kh_ticks y := k_ticks (y_sys y);
  kh_tick y := y_set_sys (k_tick (y_sys y)) y;
|}.
Definition on_k {A} : M sys A -> M psys A := zoom y_sys y_set_sys.
Definition on_d {A} (c : M dsheap A) : M psys A := on_k (on_q c).

(** The static queues of sys/proc.c and of [pause] *)
Class ProcQueues := { procQ : ptr; procIDs : ptr; pause_queue : ptr }.

(** ** Macros of include/sys/proc.h *)

Definition curproc : M psys ptr :=
  t ← on_k current;
  if decide (t = NULL) then mret NULL else
  on_k (load (V := thread_t) t);; gets (λ y, default NULL (y_owner y !! t)).
Definition proc_lock (p : ptr) : M psys unit := obj_lock proc_t p.
Definition proc_unlock (p : ptr) : M psys unit := obj_unlock proc_t p.
Definition proc_islocked (p : ptr) : M psys bool := obj_islocked proc_t p.
Definition proc_assert_locked (p : ptr) : M psys unit := obj_assert_locked proc_t p.
Definition proc_getref (p : ptr) : M psys ptr := proc_assert_locked p;; update p (λ v, p_set_refcnt (p_refcnt v + 1) v);; mret p.
Definition proc_putref (p : ptr) : M psys unit := proc_assert_locked p;; update p (λ v, p_set_refcnt (p_refcnt v - 1) v).
Definition proc_release (p : ptr) : M psys unit := proc_putref p;; proc_unlock p.
Definition proc_hasexeced (p : ptr) : M psys bool :=
  locked ← proc_islocked p;
  when (negb locked) (proc_lock p);;
  proc_assert_locked p;;
  v ← load (V := proc_t) p;
  when (negb locked) (proc_unlock p);;
  mret (has (p_flags v) PROC_EXECED).

(** The loops [forlinked] and [queue_foreach] over a queue, with the local
    variables [b]: the body goes on ([inl]) or leaves the loop ([inr]). *)
Fixpoint scan_loop {A B} (fuel : nat) (node : ptr) (b : B) (body : ptr -> B -> M psys (B + A)) : M psys (B + A) :=
  if decide (node = NULL) then mret (inl b) else
  match fuel with
  | O => halt OutOfFuel
  | S n =>
      x ← on_d (nload node);
      r ← body (qn_data x) b;
      match r with
      | inr a => mret (inr a)
      | inl b => x ← on_d (nload node); scan_loop n (qn_next x) b body
      end
  end.
Definition scan {A B} (q : ptr) (b : B) (body : ptr -> B -> M psys (B + A)) : M psys (B + A) :=
  x ← on_d (qload q); fuel ← on_d walk_fuel; scan_loop fuel (q_head x) b body.
Definition scan_locked {A B} (q : ptr) (b : B) (body : ptr -> B -> M psys (B + A)) : M psys (B + A) :=
  on_d (queue_assert_locked q);; scan q b body.

Section procs.
Context {KM : Kmalloc} {MC : Machine} {PQ : ProcQueues}.

(** ** syscall/proc.c *)

Definition getpid : M psys Z :=
  cp ← curproc;
  if decide (cp = NULL) then mret 0 else
  proc_lock cp;;
  v ← load (V := proc_t) cp;
  proc_unlock cp;;
  mret (p_pid v).
Definition getppid : M psys Z :=
  cp ← curproc;
  proc_lock cp;;
  v ← load (V := proc_t) cp;
  pid ← (if decide (p_parent v = NULL) then mret (- EINVAL) else
         proc_lock (p_parent v);;
         w ← load (V := proc_t) (p_parent v);
         proc_unlock (p_parent v);;
         mret (p_pid w));
  proc_unlock cp;;
  mret pid.

(** ** sys/proc.c *)

(** A number from the bucket of returned ones, which [proc_free_pid] leaves
    empty, or a new one. *)
Definition proc_alloc_pid (ref : bool) : M psys (Z * Z) :=
  if decide (ref = false) then mret (- EINVAL, 0) else
  on_d (queue_lock procIDs);;
  '(err, data) ← on_d (dequeue procIDs true);
  on_d (queue_unlock procIDs);;
  if decide (err = 0) then mret (0, s32 (default 0 data)) else
  modify (λ y, y_set_pids (u64 (y_pids y + 1)) y);;
  n ← gets y_pids;
  if decide (s32 n >= NPROC) then mret (- EAGAIN, 0) else mret (0, s32 n).
Definition proc_free_pid (pid : Z) : M psys unit := mret tt.

Definition procQ_remove (proc : ptr) : M psys Z :=
  if decide (proc = NULL) then mret (- EINVAL) else
  proc_assert_locked proc;;
  on_d (queue_lock procQ);;
  err ← on_d (queue_remove procQ proc);
  when (bool_decide (err = 0)) (proc_putref proc);;
  on_d (queue_unlock procQ);;
  mret err.
Definition procQ_insert (proc : ptr) : M psys Z :=
  if decide (proc = NULL) then mret (- EINVAL) else
  on_d (queue_lock procQ);;
  proc_getref proc;;
  '(err, _) ← on_d (enqueue procQ proc true false);
  when (bool_decide (err ≠ 0)) (update proc (λ v, p_set_refcnt (p_refcnt v - 1) v));;
  on_d (queue_unlock procQ);;
  mret err.

(** The first process of the queue that [want] holds of: locked, with a
    reference, or, without a place for the result, neither. *)
Definition procQ_search (want : proc_t -> bool) (ref : bool) : M psys (Z * ptr) :=
  on_d (queue_lock procQ);;
  r ← scan procQ tt (λ proc _,
    proc_lock proc;;
    v ← load (V := proc_t) proc;
    if want v then (if ref then proc_getref proc;; mret tt else proc_unlock proc);; mret (inr proc)
    else proc_unlock proc;; mret (inl tt));
  on_d (queue_unlock procQ);;
  mret (match r with inr proc => (0, if ref then proc else NULL) | inl _ => (- ESRCH, NULL) end).
Definition procQ_search_bypid (pid : Z) (ref : bool) : M psys (Z * ptr) := procQ_search (λ v, bool_decide (p_pid v = pid)) ref.
Definition procQ_search_bypgid (pgid : Z) (ref : bool) : M psys (Z * ptr) := procQ_search (λ v, bool_decide (p_pgid v = pgid)) ref.

Definition proc_add_child (parent child : ptr) : M psys Z :=
  if decide (parent = NULL ∨ child = NULL) then mret (- EINVAL) else
  proc_assert_locked child;;
  proc_assert_locked parent;;
  on_d (queue_lock (children parent));;
  '(err, _) ← on_d (enqueue (children parent) child true false);
  when (bool_decide (err = 0)) (proc_getref child;; mret tt);;
  on_d (queue_unlock (children parent));;
  mret err.
Definition proc_remove_child (parent child : ptr) : M psys Z :=
  if decide (parent = NULL ∨ child = NULL) then mret (- EINVAL) else
  proc_assert_locked child;;
  proc_assert_locked parent;;
  on_d (queue_lock (children parent));;
  err ← on_d (queue_remove (children parent) child);
  when (bool_decide (err = 0)) (proc_putref child);;
  on_d (queue_unlock (children parent));;
  mret err.

(** The loop of [proc_abandon_children]: the next node is read before the body. *)
Fixpoint abandon_loop (fuel : nat) (new_parent old_parent node : ptr) : M psys Z :=
  if decide (node = NULL) then mret 0 else
  match fuel with
  | O => halt OutOfFuel
  | S n =>
      x ← on_d (nload node);
      let child := qn_data x in
      proc_lock child;;
      '(err, _) ← on_d (enqueue (children new_parent) child true false);
      if decide (err ≠ 0) then proc_unlock child;; mret err else
      err ← on_d (queue_remove (children old_parent) child);
      if decide (err ≠ 0) then on_d (queue_remove (children new_parent) child);; proc_unlock child;; mret err else
      v ← load (V := proc_t) child;
      proc_putref (p_parent v);;
      np ← proc_getref new_parent;
      update child (p_set_parent np);;
      proc_unlock child;;
      abandon_loop n new_parent old_parent (qn_next x)
  end.
Definition proc_abandon_children (new_parent old_parent : ptr) : M psys Z :=
  if decide (new_parent = NULL ∨ old_parent = NULL) then mret (- EINVAL) else
  proc_assert_locked old_parent;;
  proc_assert_locked new_parent;;
  on_d (queue_lock (children new_parent));;
  on_d (queue_lock (children old_parent));;
  q ← on_d (qload (children old_parent));
  fuel ← on_d walk_fuel;
  err ← abandon_loop fuel new_parent old_parent (q_head q);
  on_d (queue_unlock (children old_parent));;
  on_d (queue_unlock (children new_parent));;
  mret err.

(** ** syscall/sysproc.c *)

Definition getsid (pid : Z) : M psys Z :=
  cp ← curproc;
  proc_lock cp;;
  v ← load (V := proc_t) cp;
  proc_unlock cp;;
  let mysess := p_sid v in
  if decide (pid = 0) then mret mysess else
  v ← load (V := proc_t) cp;
  '(err, proc) ← procQ_search_bypid (p_pid v) true;
  if decide (err ≠ 0) then mret err else
  w ← load (V := proc_t) proc;
  proc_release proc;;
  mret (if decide (mysess ≠ p_sid w) then - EPERM else p_sid w).
Definition setsid : M psys Z :=
  cp ← curproc;
  v ← load (V := proc_t) cp;
  '(err, _) ← procQ_search_bypgid (p_pid v) false;
  if decide (err = 0) then proc_unlock cp;; mret (- EPERM) else
  proc_lock cp;;
  v ← load (V := proc_t) cp;
  if decide (p_pid v = p_pgid v) then proc_unlock cp;; mret (- EPERM) else
  update cp (λ v, p_set_pgid (p_pid v) (p_set_sid (p_pid v) v));;
  proc_unlock cp;;
  mret (p_pid v).
Definition getpgrp : M psys Z :=
  cp ← curproc;
  proc_lock cp;;
  v ← load (V := proc_t) cp;
  proc_unlock cp;;
  mret (p_pgid v).
Definition getpgid (pid : Z) : M psys Z :=
  if decide (pid < 0) then mret (- EINVAL) else
  if decide (pid = 0) then getpgrp else
  '(err, proc) ← procQ_search_bypid pid true;
  if decide (err ≠ 0) then mret err else
  cp ← curproc;
  ok ← (if decide (proc = cp) then mret true else
        proc_lock cp;;
        v ← load (V := proc_t) proc;
        w ← load (V := proc_t) cp;
        proc_unlock cp;;
        if decide (p_sid v ≠ p_sid w) then proc_release proc;; mret false else mret true);
  if negb ok then mret (- EPERM) else
  v ← load (V := proc_t) proc;
  proc_release proc;;
  mret (p_pgid v).

(** The last part of [setpgid]: the other process of the group, if any. *)
Definition group_leader (proc : ptr) (pgid : Z) : M psys ptr :=
  on_d (queue_lock procQ);;
  r ← scan procQ tt (λ leader _,
    if decide (leader = proc) then mret (inl tt) else
    proc_lock leader;;
    v ← load (V := proc_t) leader;
    if decide (p_pgid v = pgid) then proc_getref leader;; mret (inr leader)
    else proc_unlock leader;; mret (inl tt));
  on_d (queue_unlock procQ);;
  mret (match r with inr leader => leader | inl _ => NULL end).
Definition join_group (proc leader : ptr) (pgid : Z) : M psys Z :=
  cp ← curproc;
  ok ← (if decide (leader = NULL ∨ leader = cp) then mret true else
        proc_lock cp;;
        v ← load (V := proc_t) leader;
        w ← load (V := proc_t) cp;
        if decide (p_sid v ≠ p_sid w) then proc_release leader;; proc_unlock cp;; mret false
        else proc_unlock cp;; mret true);
  if negb ok then mret (- EPERM) else
  update proc (p_set_pgid pgid);;
  when (bool_decide (leader ≠ NULL)) (proc_release leader);;
  proc_release proc;;
  mret 0.
Definition setpgid (pid pgid : Z) : M psys Z :=
  if decide (pgid < 0) then mret (- EINVAL) else
  pid ← (if decide (pid = 0) then getpid else mret pid);
  '(err, proc) ← procQ_search_bypid pid true;
  if decide (err ≠ 0) then mret err else
  cp ← curproc;
  v ← load (V := proc_t) proc;
  err ← (if decide (p_parent v = cp) then
           x ← proc_hasexeced proc;
           if x : bool then proc_release proc;; mret (- EACCES) else
           proc_lock cp;;
           v ← load (V := proc_t) proc;
           w ← load (V := proc_t) cp;
           proc_unlock cp;;
           if decide (p_sid v ≠ p_sid w) then proc_release proc;; mret (- EPERM) else mret 0
         else mret 0);
  if decide (err ≠ 0) then mret err else
  v ← load (V := proc_t) proc;
  if decide (p_pid v = p_sid v) then proc_release proc;; mret (- EPERM) else
  leader ← group_leader proc pgid;
  v ← load (V := proc_t) proc;
  if decide (p_pid v ≠ pgid ∧ leader = NULL) then proc_release proc;; mret (- EPERM) else
  join_group proc leader pgid.
Definition setpgrp : M psys Z :=
  pid ← getpid;
  err ← setpgid 0 pid;
  if decide (err = 0) then getpid else mret (- EPERM).

(** ** syscall/waitpid.c *)

Definition WNOHANG : Z := 1.
Definition WUNTRACED : Z := 2.
Definition WEXITED : Z := 4.
Definition WCONTINUED : Z := 8.
Definition WNOWAIT : Z := 16777216.

(** The state of a process that the caller waits for. *)
Definition awaited (options : Z) (st : status_t) : bool :=
  (has options WEXITED && bool_decide (st = P_ZOMBIE)) || (has options WUNTRACED && bool_decide (st = P_STOPPED)) ||
  (has options WCONTINUED && bool_decide (st = P_CONTINUED)) ||
  (bool_decide (options = 0) && (bool_decide (st = P_ZOMBIE) || bool_decide (st = P_STOPPED) || bool_decide (st = P_CONTINUED))).

(** The loops over all processes and over the children: the process and its
    exit code, or whether there was a child at all ([has_kids]). *)
Definition group_scan (group : M psys Z) (options : Z) : M psys (bool + Z * Z) :=
  on_d (queue_lock procQ);;
  r ← scan_locked procQ false (λ proc has_kids,
    cp ← curproc;
    if decide (proc = cp) then mret (inl has_kids) else
    proc_lock proc;;
    g ← group;
    cp ← curproc;
    v ← load (V := proc_t) proc;
    if decide (p_pgid v = g ∧ p_parent v = cp) then
      proc_unlock proc;;
      mret (if awaited options (p_state v) then inr (p_pid v, p_exit_code v) else inl true)
    else proc_unlock proc;; mret (inl has_kids));
  on_d (queue_unlock procQ);;
  mret r.
Definition child_scan (options : Z) : M psys (bool + Z * Z) :=
  cp ← curproc;
  on_d (queue_lock (children cp));;
  r ← scan_locked (children cp) false (λ proc _,
    proc_lock proc;;
    v ← load (V := proc_t) proc;
    proc_unlock proc;;
    mret (if awaited options (p_state v) then inr (p_pid v, p_exit_code v) else inl true));
  on_d (queue_unlock (children cp));;
  mret r.
Definition wait_group (options : Z) (r : bool + Z * Z) : option (Z * option Z) :=
  match r with
  | inr (pid, code) => Some (pid, Some code)
  | inl false => Some (- ECHILD, None)
  | inl true => if has options WNOHANG then Some (0, None) else None
  end.
Definition wait_one (pid options : Z) : M psys (option (Z * option Z)) :=
  cp ← curproc;
  on_d (queue_lock (children cp));;
  r ← scan_locked (children cp) tt (λ proc _,
    proc_lock proc;;
    v ← load (V := proc_t) proc;
    if decide (p_pid v = pid) then t ← proc_getref proc; mret (inr t)
    else proc_unlock proc;; mret (inl tt));
  on_d (queue_unlock (children cp));;
  match r with
  | inl _ => mret (Some (- ECHILD, None))
  | inr target =>
      v ← load (V := proc_t) target;
      proc_release target;;
      if decide (p_parent v ≠ cp) then mret (Some (- EPERM, None)) else
      if awaited options (p_state v) then mret (Some (p_pid v, Some (p_exit_code v))) else
      if has options WNOHANG then mret (Some (0, None)) else mret None
  end.
(** One round: the result (and the status it stores), or nothing yet. *)
Definition wait_test (pid options : Z) : M psys (option (Z * option Z)) :=
  if decide (pid < -1) then wait_group options <$> group_scan (mret (Z.abs pid)) options
  else if decide (pid = -1) then wait_group options <$> child_scan options
  else if decide (pid = 0) then wait_group options <$> group_scan getpgrp options
  else wait_one pid options.

(** [waitpid] up to its wait: [None] when the thread sleeps; when it runs again,
    [cond_wait_end] of the condition comes first and then the next round.
    [fuel] bounds the rounds between two sleeps. *)
Fixpoint wait_loop (fuel : nat) (pid options : Z) : M psys (option (Z * option Z)) :=
  match fuel with
  | O => halt OutOfFuel
  | S n =>
      r ← wait_test pid options;
      match r with
      | Some r => mret (Some r)
      | None =>
          cp ← curproc;
          w ← on_k (cond_wait (child_event cp));
          match w with
          | None => mret None
          | Some err => if decide (err ≠ 0) then mret (Some (err, None)) else wait_loop n pid options
          end
      end
  end.
Definition waitpid (fuel : nat) (pid options : Z) : M psys (option (Z * option Z)) :=
  me ← getpid;
  if decide (pid = me) then mret (Some (- EDEADLK, None)) else
  if decide (Z.land options (Z.lnot (Z.lor WNOHANG (Z.lor WUNTRACED (Z.lor WEXITED (Z.lor WCONTINUED WNOWAIT))))) ≠ 0) then mret (Some (- EINVAL, None)) else
  wait_loop fuel pid options.
Definition wait_any (fuel : nat) : M psys (option (Z * option Z)) := waitpid fuel (-1) 0.
End procs.
