(* ===== verification/ProcProps.v ===== *)
(** * What the calls of Proc.v do

    Loops that only look at the processes are searches in the list of their
    queue; [waitpid] is such a search, and leaves every child where it was. *)

From S2P Require Import Prelude Dll Heap Queue Lock Vfs Sched SchedSpec SchedEx Tgroup Proc.

Definition ds (y : psys) : dsheap := k_ds (y_sys y).
Definition set_ds (h : dsheap) (y : psys) : psys := y_set_sys (k_set_ds h (y_sys y)) y.
Lemma wp_on_k {A} (c : M sys A) y (Q : A -> psys -> Prop) : wp c (y_sys y) (λ a s, Q a (y_set_sys s y)) -> wp (on_k c) y Q.
Proof. apply wp_zoom. Qed.
Lemma wp_on_d {A} (c : M dsheap A) y (Q : A -> psys -> Prop) : wp c (ds y) (λ a h, Q a (set_ds h y)) -> wp (on_d c) y Q.
Proof. intros H. by apply wp_on_k, wp_zoom. Qed.
Lemma set_ds_id y : set_ds (ds y) y = y.
Proof. by destruct y as [[]]. Qed.
Lemma set_sys_id y : y_set_sys (y_sys y) y = y.
Proof. by destruct y. Qed.

(** A queue locked, and nothing else changed. *)
Definition lockq (q : ptr) (y : psys) : psys := set_ds (set_queues (alter (q_set_lock true) q (d_queues (ds y))) (ds y)) y.
Section lockq.
Context (y : psys) (q : ptr) (xs : list (ptr * ptr)) (Hrep : queue_rep (ds y) q false xs).
Lemma lockq_rep : queue_rep (ds (lockq q y)) q true xs.
Proof. destruct Hrep as (H1 & H2 & H3). split; [done|]. split; [|done]. simpl. by rewrite lookup_alter_eq, H2. Qed.
Lemma wp_lock_d (Q : unit -> psys -> Prop) : Q tt (lockq q y) -> wp (on_d (queue_lock q)) y Q.
Proof.
  intros HQ. destruct Hrep as (H1 & H2 & _). apply wp_on_d. unfold queue_lock, queue_assert. wp_step. apply wp_assert; [by apply bool_decide_eq_true|].
  wp_step. eapply wp_qload; [done|done|]. wp_step. apply wp_assert; [done|]. eapply wp_qupd; [done|done|]. unfold lockq in HQ. by rewrite (alter_insert_Some _ _ _ _ H2).
Qed.
Lemma wp_unlock_d (Q : unit -> psys -> Prop) : Q tt y -> wp (on_d (queue_unlock q)) (lockq q y) Q.
Proof.
  intros HQ. destruct lockq_rep as (H1 & H2 & _). apply wp_on_d. unfold queue_unlock, queue_assert. wp_step. apply wp_assert; [by apply bool_decide_eq_true|].
  wp_step. eapply wp_qload; [done|done|]. wp_step. apply wp_assert; [done|]. eapply wp_qupd; [done|done|].
  destruct Hrep as (_ & H3 & _). assert (<[q := q_set_lock false (Heap.Queue (hd_or NULL xs) (last_or NULL xs) (Z.of_nat (length xs)) true)]> (d_queues (ds (lockq q y))) = d_queues (ds y)) as ->.
  { apply map_eq. intros p. destruct (decide (p = q)) as [->|Hne]; [rewrite lookup_insert_eq; by rewrite H3|rewrite lookup_insert_ne by done; apply lookup_alter_ne; done]. }
  replace (set_ds (set_queues (d_queues (ds y)) (ds (lockq q y))) (lockq q y)) with y; [done|]. by destruct y as [[[]]].
Qed.
End lockq.

(** ** Processes in memory *)

Definition proc_at (y : psys) (p : ptr) (v : proc_t) : Prop := p ≠ NULL ∧ y_procs y !! p = Some v ∧ p_lock v = false.
Definition procs_at (y : psys) (l : list ptr) : Prop := ∀ p, p ∈ l -> ∃ v, proc_at y p v.
(** The running thread belongs to the process [cp]. *)
Definition runs (y : psys) (cp : ptr) : Prop :=
  k_current (y_sys y) ≠ NULL ∧ is_Some (k_threads (y_sys y) !! k_current (y_sys y)) ∧ y_owner y !! k_current (y_sys y) = Some cp.

Section one.
Context {KM : Kmalloc} {MC : Machine} {PQ : ProcQueues}.
Implicit Types (y : psys) (p q : ptr).

Lemma wp_curproc y cp (Q : ptr -> psys -> Prop) : runs y cp -> Q cp y -> wp curproc y Q.
Proof.
  intros (H1 & [v H2] & H3) HQ. unfold curproc. wp_step. apply wp_on_k, wp_gets. rewrite set_sys_id, decide_False by done.
  wp_step. apply wp_on_k. eapply wp_load; [done|done|]. rewrite set_sys_id. apply wp_gets. by rewrite H3.
Qed.
Definition lock_proc (p : ptr) (v : proc_t) (y : psys) : psys := y_set_procs (<[p := p_set_lock true v]> (y_procs y)) y.
Lemma wp_plock y p v (Q : unit -> psys -> Prop) : proc_at y p v -> Q tt (lock_proc p v y) -> wp (proc_lock p) y Q.
Proof. intros (H1 & H2 & H3) HQ. by eapply wp_obj_lock. Qed.
Lemma wp_punlock y p v (Q : unit -> psys -> Prop) : proc_at y p v -> Q tt y -> wp (proc_unlock p) (lock_proc p v y) Q.
Proof.
  intros (H1 & H2 & H3) HQ. eapply wp_obj_unlock; [done|simpl; by rewrite lookup_insert_eq|done|]. simpl. rewrite insert_insert_eq.
  replace (p_set_lock false (p_set_lock true v)) with v by (destruct v; simpl in *; by subst). rewrite insert_id by done. by destruct y.
Qed.
Lemma wp_pload y p v (Q : proc_t -> psys -> Prop) : p ≠ NULL -> y_procs y !! p = Some v -> Q v y -> wp (load (V := proc_t) p) y Q.
Proof. intros. by eapply wp_load. Qed.
Lemma locked_at y p v : y_procs (lock_proc p v y) !! p = Some (p_set_lock true v).
Proof. simpl. by rewrite lookup_insert_eq. Qed.
Lemma locked_else y p v p' v' : proc_at y p' v' -> p' ≠ p -> proc_at (lock_proc p v y) p' v'.
Proof. intros (H1 & H2 & H3) Hne. split; [done|]. split; [|done]. simpl. by rewrite lookup_insert_ne. Qed.
Lemma runs_lock y p v cp : runs y cp -> runs (lock_proc p v y) cp.
Proof. done. Qed.
Lemma wp_pgetref y p v (Q : ptr -> psys -> Prop) :
  proc_at y p v -> Q p (y_set_procs (<[p := p_set_refcnt (p_refcnt v + 1) (p_set_lock true v)]> (y_procs y)) y) -> wp (proc_getref p) (lock_proc p v y) Q.
Proof.
  intros (H1 & H2 & H3) HQ. unfold proc_getref. wp_step. eapply wp_obj_assert_locked; [done|apply locked_at|done|]. wp_step. eapply wp_update; [done|apply locked_at|].
  apply wp_ret. simpl. by rewrite insert_insert_eq.
Qed.
Lemma wp_release y p v (Q : unit -> psys -> Prop) :
  proc_at y p v -> Q tt y -> wp (proc_release p) (y_set_procs (<[p := p_set_refcnt (p_refcnt v + 1) (p_set_lock true v)]> (y_procs y)) y) Q.
Proof.
  intros (H1 & H2 & H3) HQ. unfold proc_release, proc_putref. wp_step. wp_step. eapply wp_obj_assert_locked; [done|simpl; by rewrite lookup_insert_eq|done|].
  eapply wp_update; [done|simpl; by rewrite lookup_insert_eq|]. simpl. rewrite insert_insert_eq. eapply wp_obj_unlock; [done|simpl; by rewrite lookup_insert_eq|done|]. simpl. rewrite insert_insert_eq.
  match goal with |- Q tt ?y' => replace y' with y; [done|] end. replace (p_set_lock false _) with v; [by rewrite insert_id by done; destruct y|].
  destruct v; simpl in *; subst. unfold p_set_lock, p_set_refcnt; simpl. f_equal; lia.
Qed.

(** ** Searches *)

Fixpoint search {A B} (step : ptr -> B -> B + A) (l : list ptr) (b : B) : B + A :=
  match l with
  | [] => inl b
  | p :: l => match step p b with inl b => search step l b | inr a => inr a end
  end.
(** A loop whose body leaves the state as it was goes on along the queue; the
    round that leaves the loop may change it to [last p]. *)
Lemma wp_pscan {A B} y q lk xs (body : ptr -> B -> M psys (B + A)) step (b : B) (R : A -> psys -> Prop) (Q : B + A -> psys -> Prop) :
  queue_rep (ds y) q lk xs ->
  (∀ p b, p ∈ xs.*2 -> wp (body p b) y (λ r y', match r with inl b' => step p b = inl b' ∧ y' = y | inr a => step p b = inr a ∧ R a y' end)) ->
  (∀ b', search step xs.*2 b = inl b' -> Q (inl b') y) -> (∀ a y', search step xs.*2 b = inr a -> R a y' -> Q (inr a) y') ->
  wp (scan q b body) y Q.
Proof.
  intros Hrep Hbody HQ1 HQ2. unfold scan. wp_step. apply wp_on_d. eapply wp_queue_head; [done|]. rewrite set_ds_id. wp_step. apply wp_on_d. unfold walk_fuel. apply wp_gets. rewrite set_ds_id. cbn [q_head].
  apply queue_rep_fuel in Hrep as Hf. revert Hf. generalize (size (d_qnodes (ds y))) as n.
  assert (∀ n ys zs b, zs ++ ys = xs -> (length ys <= n)%nat -> (∀ b', search step ys.*2 b = inl b' -> Q (inl b') y) -> (∀ a y', search step ys.*2 b = inr a -> R a y' -> Q (inr a) y') ->
    wp (scan_loop n (hd_or NULL ys) b body) y Q) as Hloop; [|intros n Hn; by apply (Hloop n xs [])].
  clear HQ1 HQ2 b. induction n as [|n IH]; intros [|[p d] ys] zs b E Hn HQ1 HQ2; simpl in Hn; try lia; try (apply wp_ret; by apply HQ1).
  rewrite <- E in Hrep. pose proof (queue_rep_node _ _ _ _ _ _ _ Hrep) as (Hp & _ & _ & Hnode). cbn [scan_loop hd_or fst]. rewrite decide_False by done.
  wp_step. apply wp_on_d. eapply wp_nload; [done|exact Hnode|]. rewrite set_ds_id. cbn [qn_data]. wp_step. eapply wp_mono; [apply Hbody; rewrite <- E, fmap_app; set_solver|].
  simpl in HQ1, HQ2. intros [b'|a] y' [Es Hy]; rewrite Es in HQ1, HQ2; [subst y'|by apply wp_ret, HQ2].
  wp_step. apply wp_on_d. eapply wp_nload; [done|exact Hnode|]. rewrite set_ds_id. cbn [qn_next]. apply (IH ys (zs ++ [(p, d)])); [by rewrite <- app_assoc|lia|done|done].
Qed.

(** ** waitpid *)

(** The processes of a list that [test] holds of. *)
Definition cands (y : psys) (test : ptr -> proc_t -> bool) (l : list ptr) : list proc_t :=
  omap (λ p, v ← y_procs y !! p; if test p v then Some v else None) l.
Definition wait_spec (options : Z) (vs : list proc_t) : option (Z * option Z) :=
  match list_find (λ v, awaited options (p_state v)) vs with
  | Some (_, v) => Some (p_pid v, Some (p_exit_code v))
  | None => if decide (vs = []) then Some (- ECHILD, None) else if has options WNOHANG then Some (0, None) else None
  end.
(** The processes [pid] asks for. *)
Definition asked (y : psys) (cp : ptr) (me : proc_t) (pid : Z) (all kids : list ptr) : list proc_t :=
  let member g p v := bool_decide (p ≠ cp ∧ p_pgid v = g ∧ p_parent v = cp) in
  if decide (pid < -1) then cands y (member (Z.abs pid)) all
  else if decide (pid = -1) then cands y (λ _ _, true) kids
  else if decide (pid = 0) then cands y (member (p_pgid me)) all
  else take 1 (cands y (λ _ v, bool_decide (p_pid v = pid)) kids).

Record family (y : psys) (cp : ptr) (me : proc_t) (all kids : list (ptr * ptr)) : Prop := {
  fa_run : runs y cp;
  fa_me : proc_at y cp me;
  fa_all : queue_rep (ds y) procQ false all;
  fa_kids : queue_rep (ds y) (children cp) false kids;
  fa_procs : procs_at y all.*2;
  fa_child p : p ∈ kids.*2 -> ∃ v, proc_at y p v ∧ p_parent v = cp;
}.

Definition step_of (y : psys) (test : ptr -> proc_t -> bool) (options : Z) (p : ptr) (b : bool) : bool + Z * Z :=
  match y_procs y !! p with
  | Some v => if test p v then (if awaited options (p_state v) then inr (p_pid v, p_exit_code v) else inl true) else inl b
  | None => inl b
  end.
Lemma search_find y test options l b :
  search (step_of y test options) l b =
    match list_find (λ v, awaited options (p_state v)) (cands y test l) with
    | Some (_, v) => inr (p_pid v, p_exit_code v)
    | None => inl (b || negb (bool_decide (cands y test l = [])))
    end.
Proof.
  revert b. induction l as [|p l IH]; intros b; [simpl; by rewrite orb_false_r|]. cbn [search]. unfold step_of at 1. unfold cands. cbn [omap list_omap]. fold (cands y test l).
  change (list_omap _ _ ?f l) with (omap f l). destruct (y_procs y !! p) as [v|]; [|by rewrite IH]. cbn. destruct (test p v); [|by rewrite IH]. cbn.
  destruct (awaited options (p_state v)) eqn:E.
  - done.
  - rewrite IH. cbn. unfold cands. destruct (list_find _ _) as [[]|]; [done|]. cbn. f_equal. by rewrite orb_true_r.
Qed.
Lemma wait_group_spec y test options l : wait_group options (search (step_of y test options) l false) = wait_spec options (cands y test l).
Proof.
  rewrite search_find. unfold wait_spec. destruct (list_find _ _) as [[]|]; [done|]. simpl. destruct (decide (cands y test l = [])) as [E|E]; [by rewrite bool_decide_eq_true_2|by rewrite bool_decide_eq_false_2].
Qed.

Section wait.
Context (y : psys) (cp : ptr) (me : proc_t) (all kids : list (ptr * ptr)) (HF : family y cp me all kids).

Lemma run_lockq q p v : runs (lock_proc p v (lockq q y)) cp.
Proof. apply HF. Qed.
Lemma at_lockq q p v : proc_at y p v -> proc_at (lockq q y) p v.
Proof. done. Qed.
Lemma wp_getpgrp q p v (Q : Z -> psys -> Prop) : p ≠ cp -> Q (p_pgid me) (lock_proc p v (lockq q y)) -> wp getpgrp (lock_proc p v (lockq q y)) Q.
Proof.
  intros Hne HQ. pose proof (fa_me _ _ _ _ _ HF) as Hme. unfold getpgrp. wp_step. eapply wp_curproc; [apply run_lockq|]. assert (proc_at (lock_proc p v (lockq q y)) cp me) as Hat by (by apply locked_else).
  wp_step. eapply wp_plock; [done|]. wp_step. eapply wp_pload; [apply Hme|apply locked_at|]. wp_step. eapply wp_punlock; [done|]. by apply wp_ret.
Qed.
Lemma wp_getpid (Q : Z -> psys -> Prop) : Q (p_pid me) y -> wp getpid y Q.
Proof.
  intros HQ. pose proof (fa_me _ _ _ _ _ HF) as Hme. unfold getpid. wp_step. eapply wp_curproc; [apply HF|]. rewrite decide_False by apply Hme.
  wp_step. eapply wp_plock; [done|]. wp_step. eapply wp_pload; [apply Hme|apply locked_at|]. wp_step. eapply wp_punlock; [done|]. by apply wp_ret.
Qed.

Lemma wp_group_scan (group : M psys Z) g options (Q : bool + Z * Z -> psys -> Prop) :
  (∀ p v (R : Z -> psys -> Prop), p ≠ cp -> R g (lock_proc p v (lockq procQ y)) -> wp group (lock_proc p v (lockq procQ y)) R) ->
  Q (search (step_of y (λ p v, bool_decide (p ≠ cp ∧ p_pgid v = g ∧ p_parent v = cp)) options) all.*2 false) y -> wp (group_scan group options) y Q.
Proof.
  intros Hg HQ. pose proof (fa_all _ _ _ _ _ HF) as Hrep. unfold group_scan. wp_step. eapply wp_lock_d; [done|]. wp_step. unfold scan_locked. wp_step.
  apply wp_on_d. eapply wp_queue_assert_locked; [by apply lockq_rep|done|]. rewrite set_ds_id.
  set (step := step_of _ _ _) in *. eapply (wp_pscan _ _ _ _ _ step _ (λ _ y', y' = lockq procQ y)); [by apply lockq_rep|..].
  - intros p b Hp. destruct (fa_procs _ _ _ _ _ HF p Hp) as (v & Hv). pose proof Hv as (Hpn & Hpv & _). wp_step. eapply wp_curproc; [apply HF|]. unfold step, step_of. rewrite Hpv.
    destruct (decide (p = cp)) as [->|Hne]; [apply wp_ret; by rewrite bool_decide_eq_false_2 by tauto|].
    wp_step. eapply (wp_plock _ _ v); [by apply at_lockq|]. wp_step. apply Hg; [done|]. wp_step. eapply wp_curproc; [apply run_lockq|].
    wp_step. eapply wp_pload; [done|apply locked_at|]. change (p_pgid (p_set_lock true v)) with (p_pgid v). change (p_parent (p_set_lock true v)) with (p_parent v).
    destruct (decide (p_pgid v = g ∧ p_parent v = cp)) as [E|E]; wp_step; (eapply wp_punlock; [by apply at_lockq|]); apply wp_ret.
    + rewrite bool_decide_eq_true_2 by done. change (p_state (p_set_lock true v)) with (p_state v). by destruct (awaited options (p_state v)).
    + rewrite bool_decide_eq_false_2 by tauto. done.
  - intros b Hs. wp_step. eapply wp_unlock_d; [done|]. apply wp_ret. by rewrite Hs in HQ.
  - intros a y' Hs ->. wp_step. eapply wp_unlock_d; [done|]. apply wp_ret. by rewrite Hs in HQ.
Qed.
Lemma wp_child_scan options (Q : bool + Z * Z -> psys -> Prop) :
  Q (search (step_of y (λ _ _, true) options) kids.*2 false) y -> wp (child_scan options) y Q.
Proof.
  intros HQ. pose proof (fa_kids _ _ _ _ _ HF) as Hrep. unfold child_scan. wp_step. eapply wp_curproc; [apply HF|]. wp_step. eapply wp_lock_d; [done|]. wp_step. unfold scan_locked. wp_step.
  apply wp_on_d. eapply wp_queue_assert_locked; [by apply lockq_rep|done|]. rewrite set_ds_id.
  set (step := step_of _ _ _) in *. eapply (wp_pscan _ _ _ _ _ step _ (λ _ y', y' = lockq (children cp) y)); [by apply lockq_rep|..].
  - intros p b Hp. destruct (fa_child _ _ _ _ _ HF p Hp) as (v & Hv & _). pose proof Hv as (Hpn & Hpv & _). unfold step, step_of. rewrite Hpv.
    wp_step. eapply (wp_plock _ _ v); [by apply at_lockq|]. wp_step. eapply wp_pload; [done|apply locked_at|]. wp_step. eapply wp_punlock; [by apply at_lockq|]. apply wp_ret.
    change (p_state (p_set_lock true v)) with (p_state v). by destruct (awaited options (p_state v)).
  - intros b Hs. wp_step. eapply wp_unlock_d; [done|]. apply wp_ret. by rewrite Hs in HQ.
  - intros a y' Hs ->. wp_step. eapply wp_unlock_d; [done|]. apply wp_ret. by rewrite Hs in HQ.
Qed.

Lemma search_pid pid l :
  (∀ p, p ∈ l -> ∃ v, proc_at y p v) ->
  match search (λ p (_ : unit), match y_procs y !! p with Some v => if decide (p_pid v = pid) then inr p else inl tt | None => inl tt end) l tt with
  | inr p => ∃ v, p ∈ l ∧ proc_at y p v ∧ p_pid v = pid ∧ take 1 (cands y (λ _ v, bool_decide (p_pid v = pid)) l) = [v]
  | inl _ => cands y (λ _ v, bool_decide (p_pid v = pid)) l = []
  end.
Proof.
  induction l as [|p l IH]; intros Hall; [done|]. destruct (Hall p) as (v & Hv); [apply list_elem_of_here|]. destruct Hv as (H1 & H2 & H3). cbn [search]. unfold cands. cbn [omap list_omap]. rewrite H2. cbn.
  destruct (decide (p_pid v = pid)) as [E|E]; cbn.
  - exists v. rewrite bool_decide_eq_true_2 by done. split; [apply list_elem_of_here|]. done.
  - rewrite bool_decide_eq_false_2 by done. specialize (IH ltac:(intros; apply Hall; by apply list_elem_of_further)). destruct (search _ _ _) as [|p']; [done|].
    destruct IH as (w & Hin & Hw). exists w. split; [by apply list_elem_of_further|done].
Qed.

Lemma wp_wait_one pid options (Q : option (Z * option Z) -> psys -> Prop) :
  Q (wait_spec options (take 1 (cands y (λ _ v, bool_decide (p_pid v = pid)) kids.*2))) y -> wp (wait_one pid options) y Q.
Proof.
  intros HQ. pose proof (fa_kids _ _ _ _ _ HF) as Hrep. pose proof (search_pid pid kids.*2 ltac:(intros p Hp; destruct (fa_child _ _ _ _ _ HF p Hp) as (v & Hv & _); by eexists)) as Hs.
  unfold wait_one. wp_step. eapply wp_curproc; [apply HF|]. wp_step. eapply wp_lock_d; [done|]. wp_step. unfold scan_locked. wp_step.
  apply wp_on_d. eapply wp_queue_assert_locked; [by apply lockq_rep|done|]. rewrite set_ds_id. set (q := children cp) in *. set (step := λ p _, _) in Hs.
  set (ref p v := y_set_procs (<[p := p_set_refcnt (p_refcnt v + 1) (p_set_lock true v)]> (y_procs y)) y).
  eapply (wp_pscan _ _ _ _ _ step _ (λ p y', ∃ v, proc_at y p v ∧ y' = lockq q (ref p v))); [by apply lockq_rep|..].
  - intros p b Hp. destruct (fa_child _ _ _ _ _ HF p Hp) as (v & Hv & _). pose proof Hv as (Hpn & Hpv & _). unfold step. rewrite Hpv.
    wp_step. eapply (wp_plock _ _ v); [by apply at_lockq|]. wp_step. eapply wp_pload; [done|apply locked_at|]. change (p_pid (p_set_lock true v)) with (p_pid v). destruct (decide (p_pid v = pid)) as [E|E].
    + wp_step. eapply wp_pgetref; [by apply at_lockq|]. apply wp_ret. split; [done|]. by exists v.
    + wp_step. eapply wp_punlock; [by apply at_lockq|]. apply wp_ret. by destruct b.
  - intros b Es. rewrite Es in Hs. wp_step. eapply wp_unlock_d; [done|]. apply wp_ret. by rewrite Hs in HQ.
  - intros p y' Es (v & Hv & ->). rewrite Es in Hs. destruct Hs as (v' & Hin & (_ & Hv' & _) & Hpid & Ht). pose proof Hv as (Hpn & Hpv & _). assert (v' = v) as -> by congruence. rewrite Ht in HQ.
    wp_step. eapply wp_unlock_d; [done|]. wp_step. eapply wp_pload; [done|simpl; by rewrite lookup_insert_eq|]. wp_step. eapply wp_release; [done|].
    destruct (fa_child _ _ _ _ _ HF p Hin) as (w & (_ & Hw & _) & Hpar). assert (w = v) as -> by congruence. change (p_parent _) with (p_parent v). rewrite decide_False by tauto. unfold wait_spec in HQ. simpl in HQ. simpl.
    destruct (awaited options (p_state v)); simpl in HQ; [by apply wp_ret|]. destruct (has options WNOHANG); by apply wp_ret.
Qed.

Lemma wp_wait_test pid options (Q : option (Z * option Z) -> psys -> Prop) :
  Q (wait_spec options (asked y cp me pid all.*2 kids.*2)) y -> wp (wait_test pid options) y Q.
Proof.
  intros HQ. unfold asked in HQ. cbv zeta in HQ. unfold wait_test. destruct (decide (pid < -1)); [|destruct (decide (pid = -1)); [|destruct (decide (pid = 0)); [|by apply wp_wait_one]]].
  - apply wp_fmap. eapply (wp_group_scan _ (Z.abs pid)); [intros; by apply wp_ret|]. by rewrite wait_group_spec.
  - apply wp_fmap, wp_child_scan. by rewrite wait_group_spec.
  - apply wp_fmap. eapply (wp_group_scan _ (p_pgid me)); [intros; by apply wp_getpgrp|]. by rewrite wait_group_spec.
Qed.
End wait.

Definition wait_options : Z := Z.lor WNOHANG (Z.lor WUNTRACED (Z.lor WEXITED (Z.lor WCONTINUED WNOWAIT))).
(** C11. [waitpid] on consistent lists of processes decides by the first process
    asked for (all children for -1, the child with the number for a positive
    one, the children of the group for 0 and below -1) that is in a state
    waited for: it returns its number and exit code; -ECHILD exactly when no
    process is asked for, 0 with WNOHANG, and otherwise it sleeps on the
    condition of the process.  A call that returns leaves every process, queue
    and lock as it was: a zombie is reported again by the next call and is
    never released. *)
Theorem waitpid_correct y cp me all kids n pid options :
  family y cp me all kids -> pid ≠ p_pid me -> Z.land options (Z.lnot wait_options) = 0 ->
  (∀ r, wait_spec options (asked y cp me pid all.*2 kids.*2) = Some r -> waitpid (S n) pid options y = Ok (Some r) y) ∧
  (wait_spec options (asked y cp me pid all.*2 kids.*2) = None -> ∀ y', on_k (cond_wait (child_event cp)) y = Ok None y' -> waitpid (S n) pid options y = Ok None y').
Proof.
  intros HF Hp Ho. set (r := wait_spec _ _). assert (∀ Q : option (Z * option Z) -> psys -> Prop, match r with Some x => Q (Some x) y
     | None => wp (on_k (cond_wait (child_event cp))) y (λ w y', w = None ∧ Q None y') end -> wp (waitpid (S n) pid options) y Q) as Hw.
  { intros Q HQ. unfold waitpid. wp_step. eapply wp_getpid; [done|]. rewrite decide_False by done. rewrite decide_False by (unfold wait_options in Ho; tauto). cbn [wait_loop]. wp_step. eapply wp_wait_test; [done|]. fold r.
    destruct r as [x|]; [by apply wp_ret|]. wp_step. eapply wp_curproc; [apply HF|]. wp_step. eapply wp_mono; [exact HQ|]. intros w y' [-> HQ']. by apply wp_ret. }
  split.
  - intros x Hx. rewrite Hx in Hw. specialize (Hw (λ a y', a = Some x ∧ y' = y) ltac:(done)). unfold wp in Hw. destruct (waitpid _ _ _ _); [by destruct Hw as [-> ->]|done].
  - intros Hx y' Hc. rewrite Hx in Hw. specialize (Hw (λ a y0, a = None ∧ y0 = y') ltac:(unfold wp; by rewrite Hc)). unfold wp in Hw. destruct (waitpid _ _ _ _); [by destruct Hw as [-> ->]|done].
Qed.
End one.

(** ** Orphans *)

(** A state by its queues and processes. *)
Definition pt (y : psys) (h : dsheap) (m : gmap ptr proc_t) : psys := set_ds h (y_set_procs m y).
Lemma pt_id y : pt y (ds y) (y_procs y) = y.
Proof. by destruct y as [[]]. Qed.

Section orphans.
Context {KM : Kmalloc} {MC : Machine} {PQ : ProcQueues} {N : nat} (Hroom : ∀ n D, km_choose n D = None -> (N <= size D)%nat).
Implicit Types (y : psys) (h : dsheap) (m : gmap ptr proc_t) (p : ptr) (v : proc_t).

Lemma wp_pt_d {A} (c : M dsheap A) y h m (Q : A -> psys -> Prop) : wp c h (λ a h', Q a (pt y h' m)) -> wp (on_d c) (pt y h m) Q.
Proof. intros H. by apply wp_on_d. Qed.
Section live.
Context y h m p v (Hp : p ≠ NULL) (Hv : m !! p = Some v).
Lemma wp_pt_load (Q : proc_t -> psys -> Prop) : Q v (pt y h m) -> wp (load (V := proc_t) p) (pt y h m) Q.
Proof. intros. by eapply wp_load. Qed.
Lemma wp_pt_upd f (Q : unit -> psys -> Prop) : Q tt (pt y h (<[p := f v]> m)) -> wp (update p f) (pt y h m) Q.
Proof. intros H. by eapply wp_update. Qed.
Lemma wp_pt_lock (Q : unit -> psys -> Prop) : p_lock v = false -> Q tt (pt y h (<[p := p_set_lock true v]> m)) -> wp (proc_lock p) (pt y h m) Q.
Proof. intros Hl H. by eapply wp_obj_lock. Qed.
Lemma wp_pt_unlock (Q : unit -> psys -> Prop) : p_lock v = true -> Q tt (pt y h (<[p := p_set_lock false v]> m)) -> wp (proc_unlock p) (pt y h m) Q.
Proof. intros Hl H. by eapply wp_obj_unlock. Qed.
Lemma wp_pt_assert (Q : unit -> psys -> Prop) : p_lock v = true -> Q tt (pt y h m) -> wp (proc_assert_locked p) (pt y h m) Q.
Proof. intros Hl H. by eapply wp_obj_assert_locked. Qed.
End live.

Lemma kids_ne np op : np ≠ op -> children np ≠ children op.
Proof. unfold children, member. lia. Qed.
(** The processes when the children [l] of [op] were given to [np]. *)
Definition given (np op : ptr) (l : list ptr) (p : ptr) (v : proc_t) : proc_t :=
  if decide (p ∈ l) then p_set_parent np v
  else if decide (p = np) then p_set_refcnt (p_refcnt v + Z.of_nat (length l)) v
  else if decide (p = op) then p_set_refcnt (p_refcnt v - Z.of_nat (length l)) v else v.

Lemma given_nil np op p v : given np op [] p v = v.
Proof.
  unfold given. destruct (decide (p ∈ [])) as [Hx|_]; [by apply elem_of_nil in Hx|].
  destruct v. repeat case_decide; unfold p_set_refcnt; simpl; f_equal; lia.
Qed.
(** One child moves: the changes to the processes, in the order of the code. *)
Lemma given_step np op l c a b w (m0 m : gmap ptr proc_t) :
  np ≠ op -> c ≠ np -> c ≠ op -> c ∉ l -> np ∉ l -> op ∉ l -> m0 !! np = Some a -> m0 !! op = Some b -> m0 !! c = Some w -> p_lock w = false ->
  (∀ p, m !! p = given np op l p <$> m0 !! p) ->
  ∀ p, <[c := p_set_lock false (p_set_parent np (p_set_lock true w))]>
    (<[np := p_set_refcnt (p_refcnt a + Z.of_nat (length l) + 1) a]> (<[op := p_set_refcnt (p_refcnt b - Z.of_nat (length l) - 1) b]> m)) !! p = given np op (l ++ [c]) p <$> m0 !! p.
Proof.
  intros H1 H2 H3 H4 H5 H6 Ha Hb Hw Hl Hm p. unfold given. rewrite length_app. simpl.
  destruct (decide (p = c)) as [->|Hc].
  { rewrite lookup_insert_eq, Hw. simpl. rewrite decide_True by set_solver. f_equal. destruct w; simpl in *; by subst. }
  rewrite lookup_insert_ne by done. destruct (decide (p = np)) as [->|Hn].
  { rewrite lookup_insert_eq, Ha. simpl. rewrite decide_False by set_solver. do 2 f_equal. lia. }
  rewrite lookup_insert_ne by done. destruct (decide (p = op)) as [->|Ho].
  { rewrite lookup_insert_eq, Hb. simpl. rewrite decide_False by set_solver. do 2 f_equal. lia. }
  rewrite lookup_insert_ne by done. rewrite Hm. unfold given. destruct (m0 !! p) as [x|]; [|done]. simpl. f_equal.
  destruct (decide (p ∈ l)); [by rewrite decide_True by set_solver|]. by rewrite !decide_False by set_solver.
Qed.

Section adopt.
Context (y : psys) (F : fam) (np op : ptr) (a b : proc_t) (m0 : gmap ptr proc_t) (xs : list (ptr * ptr)) (L0 : list ptr) (H0 : nat).
Context (Hnp : np ≠ NULL) (Hop : op ≠ NULL) (Hne : np ≠ op) (Ha : m0 !! np = Some a) (Hb : m0 !! op = Some b) (Hal : p_lock a = true) (Hbl : p_lock b = true).
Context (Hkid : ∀ c, c ∈ L0 -> c ≠ NULL ∧ c ≠ np ∧ c ≠ op ∧ c ∉ xs.*2 ∧ ∃ w, m0 !! c = Some w ∧ p_lock w = false ∧ p_parent w = op) (Hnd : NoDup L0).

Definition fam2 (zs ys : list (ptr * ptr)) : fam := <[children np := (true, xs ++ zs)]> (<[children op := (true, ys)]> F).

Lemma wp_abandon_loop n (Q : Z -> psys -> Prop) :
  (∀ r h' ys' zs' m', zs'.*2 ++ ys'.*2 = L0 -> fam_ok h' (fam2 zs' ys') -> (∀ p, m' !! p = given np op zs'.*2 p <$> m0 !! p) ->
     (r = 0 ∧ ys' = []) ∨ (r = - ENOMEM ∧ (N <= H0)%nat) -> Q r (pt y h' m')) ->
  ∀ ys zs h m, (length ys <= n)%nat -> zs.*2 ++ ys.*2 = L0 -> fam_ok h (fam2 zs ys) -> (∀ p, m !! p = given np op zs.*2 p <$> m0 !! p) -> (load_of h <= H0)%nat ->
  wp (abandon_loop n np op (hd_or NULL ys)) (pt y h m) Q.
Proof.
  intros HQ. pose proof (kids_ne np op Hne) as Hcn. induction n as [|n IH]; intros [|[p c] ys] zs h m Hn E HF Hm Hlo; simpl in Hn; try lia; try (apply wp_ret; eapply (HQ 0); by eauto).
  assert (fam2 zs ((p, c) :: ys) !! children op = Some (true, (p, c) :: ys)) as Ho by (unfold fam2; by map_norm).
  pose proof (queue_rep_node _ _ _ [] _ _ _ (HF _ _ _ Ho)) as (Hp & _ & _ & Hnode). cbn [abandon_loop hd_or fst]. rewrite decide_False by done. wp_step. apply wp_pt_d. eapply wp_nload; [done|exact Hnode|].
  cbn [qn_data qn_next]. assert (c ∈ L0) as Hc by (rewrite <- E; set_solver). destruct (Hkid c Hc) as (Hcn0 & Hc1 & Hc2 & Hcx & w & Hw & Hwl & Hwp).
  rewrite <- E in Hnd. apply NoDup_app in Hnd as (_ & Hdis & Hnd2). simpl in Hnd2. apply NoDup_cons in Hnd2 as [Hcy _].
  assert (c ∉ zs.*2) as Hcz by (intros Hz; apply (Hdis c Hz); set_solver).
  assert (∀ q, q = np ∨ q = op -> q ∉ zs.*2) as Hnz by (intros q Hq Hz; destruct (Hkid q) as (? & ? & ? & _); [rewrite <- E; set_solver|naive_solver]).
  assert (m !! c = Some w) as Hmc. { rewrite Hm, Hw. simpl. unfold given. by rewrite !decide_False by done. }
  assert (m !! np = Some (p_set_refcnt (p_refcnt a + Z.of_nat (length zs.*2)) a)) as Hma. { rewrite Hm, Ha. simpl. unfold given. rewrite decide_False by auto. by rewrite decide_True. }
  assert (m !! op = Some (p_set_refcnt (p_refcnt b - Z.of_nat (length zs.*2)) b)) as Hmb. { rewrite Hm, Hb. simpl. unfold given. rewrite decide_False by auto. by rewrite decide_False, decide_True. }
  wp_step. apply (wp_pt_lock _ _ _ _ w); [done..|]. wp_step. apply wp_pt_d. eapply (wpf_enqueue Hroom _ _ _ (xs ++ zs)); [exact HF|unfold fam2; by map_norm|..].
  { rewrite fmap_app. intros Hin. set_solver. }
  { intros _ HN h1 HF1 Hlo1. rewrite decide_True by done. wp_step. apply (wp_pt_unlock _ _ _ _ (p_set_lock true w)); [done|by map_norm|done|]. apply wp_ret. rewrite insert_insert_eq.
    replace (p_set_lock false (p_set_lock true w)) with w by (destruct w; simpl in *; by subst). rewrite insert_id by done. eapply (HQ _ h1 _ _ m); [exact E|done|done|]. right. split; [done|lia]. }
  intros p' h1 Hin HF1 Hlo1. rewrite decide_False by tauto. wp_step. apply wp_pt_d. eapply (wpf_remove _ _ _ ((p, c) :: ys)); [exact HF1|unfold fam2; by map_norm|set_solver|].
  intros h2 _ HF2 Hlo2. simpl in HF2. rewrite decide_True in HF2 by done. rewrite decide_False by tauto.
  wp_step. apply (wp_pt_load _ _ _ _ (p_set_lock true w)); [done|by map_norm|]. cbn [p_parent p_set_lock]. rewrite Hwp.
  unfold proc_putref, proc_getref. wp_step. wp_step. eapply wp_pt_assert; [done|map_norm; exact Hmb|done|]. eapply wp_pt_upd; [done|map_norm; exact Hmb|].
  wp_step. wp_step. eapply wp_pt_assert; [done|map_norm; exact Hma|done|]. wp_step. eapply wp_pt_upd; [done|map_norm; exact Hma|]. apply wp_ret. cbn [p_refcnt p_set_refcnt].
  wp_step. eapply wp_pt_upd; [done|by map_norm|]. wp_step. eapply wp_pt_unlock; [done|by map_norm|done|].
  eapply (IH ys (zs ++ [(p', c)])); [lia|rewrite fmap_app, <- app_assoc; exact E| | |lia].
  - unfold fam2 in *. match goal with |- fam_ok _ ?G' => match type of HF2 with fam_ok _ ?G => replace G' with G; [done|] end end. rewrite app_assoc. map_ext.
  - rewrite fmap_app. intros q. rewrite <- (given_step np op zs.*2 c a b w m0 m) by auto. f_equal. map_ext.
Qed.
End adopt.

(** [op] ends and [np] takes over: both are locked, the children of [op] are
    processes of their own, unlocked, that have [op] as their parent. *)
Record heir (y : psys) (F : fam) (np op : ptr) (a b : proc_t) (xs ys : list (ptr * ptr)) : Prop := {
  he_fam : fam_ok (ds y) F;
  he_new : F !! children np = Some (false, xs);
  he_old : F !! children op = Some (false, ys);
  he_ne : np ≠ NULL ∧ op ≠ NULL ∧ np ≠ op;
  he_a : y_procs y !! np = Some a ∧ p_lock a = true;
  he_b : y_procs y !! op = Some b ∧ p_lock b = true;
  he_kid c : c ∈ ys.*2 -> c ≠ NULL ∧ c ≠ np ∧ c ≠ op ∧ c ∉ xs.*2 ∧ ∃ w, y_procs y !! c = Some w ∧ p_lock w = false ∧ p_parent w = op;
  he_nodup : NoDup ys.*2;
}.
(** C12. [proc_abandon_children] gives the children of an ending process to
    another: with room for one more object it moves all of them, in order, to
    the end of the other list, sets their parent and moves one reference per
    child from the old parent to the new one; without room it stops with
    -ENOMEM having moved a first part.  Other processes and queues stay as they
    are, and both lists are unlocked again. *)
Theorem proc_abandon_children_correct y F np op a b xs ys :
  heir y F np op a b xs ys ->
  ∃ r h' m' zs' ys', proc_abandon_children np op y = Ok r (pt y h' m') ∧
    fam_ok h' (<[children np := (false, xs ++ zs')]> (<[children op := (false, ys')]> F)) ∧ zs'.*2 ++ ys'.*2 = ys.*2 ∧
    (∀ p, m' !! p = given np op zs'.*2 p <$> y_procs y !! p) ∧
    ((r = 0 ∧ ys' = []) ∨ (r = - ENOMEM ∧ (N <= load_of (ds y))%nat)).
Proof.
  intros [HF Hn Ho (Hnp & Hop & Hne) [Ha Hal] [Hb Hbl] Hkid Hnd]. pose proof (kids_ne np op Hne) as Hcn.
  enough (wp (proc_abandon_children np op) y (λ r y', ∃ h' m' zs' ys', y' = pt y h' m' ∧
    fam_ok h' (<[children np := (false, xs ++ zs')]> (<[children op := (false, ys')]> F)) ∧ zs'.*2 ++ ys'.*2 = ys.*2 ∧
    (∀ p, m' !! p = given np op zs'.*2 p <$> y_procs y !! p) ∧ ((r = 0 ∧ ys' = []) ∨ (r = - ENOMEM ∧ (N <= load_of (ds y))%nat)))) as Hw.
  { unfold wp in Hw. destruct (proc_abandon_children np op y) as [r y'|]; [|done]. destruct Hw as (h' & m' & zs' & ys' & -> & Hw). by exists r, h', m', zs', ys'. }
  rewrite <- (pt_id y) at 1. unfold proc_abandon_children. rewrite decide_False by tauto. wp_step. apply (wp_pt_assert _ _ _ _ b); [done..|]. wp_step. apply (wp_pt_assert _ _ _ _ a); [done..|].
  wp_step. apply wp_pt_d. eapply wpf_lock; [exact HF|done|]. intros h1 HF1 L1. wp_step. apply wp_pt_d. eapply wpf_lock; [exact HF1|by map_norm|]. intros h2 HF2 L2.
  wp_step. apply wp_pt_d. eapply wpf_head; [exact HF2|by map_norm|]. wp_step. apply wp_pt_d. unfold walk_fuel. apply wp_gets. cbn [q_head].
  assert (queue_rep h2 (children op) true ys) as Hr by (apply HF2; by map_norm).
  wp_step. eapply (wp_abandon_loop y F np op a b (y_procs y) xs ys.*2 (load_of (ds y))) with (ys := ys) (zs := []);
    [done..| |by eapply queue_rep_fuel|done| | |lia].
  - intros r h3 ys' zs' m' E HF3 Hm Hr'. unfold fam2 in HF3. wp_step. apply wp_pt_d. eapply wpf_unlock; [exact HF3|by map_norm|]. intros h4 HF4 _.
    wp_step. apply wp_pt_d. eapply wpf_unlock; [exact HF4|by map_norm|]. intros h5 HF5 _. apply wp_ret. exists h5, m', zs', ys'. split; [done|]. split; [|done].
    match goal with |- fam_ok _ ?G' => match type of HF5 with fam_ok _ ?G => replace G' with G; [done|map_ext] end end.
  - replace (fam2 F np op xs [] ys) with (<[children op := (true, ys)]> (<[children np := (true, xs)]> F)); [done|]. unfold fam2. rewrite app_nil_r. map_ext.
  - intros p. simpl. destruct (y_procs y !! p) as [v|]; [|done]. simpl. by rewrite given_nil.
Qed.
End orphans.

(** ** Examples *)

#[local] Existing Instance pool_kmalloc.
#[global] Instance pqueues : ProcQueues := {| procQ := 701; procIDs := 702; pause_queue := 305 |}.

(** Process 600 is the first one; 601 is its child and runs, and has the
    children 602, which ended, and 603; [lk]: whether 600 and 601 are locked. *)
Definition kin (lk : bool) : psys :=
  PSys (k_set_ds (set_qnodes
      {[511 := QNode NULL 600 512 701; 512 := QNode 511 601 513 701; 513 := QNode 512 602 514 701; 514 := QNode 513 603 NULL 701;
        521 := QNode NULL 602 522 (children 601); 522 := QNode 521 603 NULL (children 601); 523 := QNode NULL 601 NULL (children 600)]}
      (set_queues (<[701 := Heap.Queue 511 514 4 false]> (<[702 := QUEUE_INIT]> (<[children 600 := Heap.Queue 523 523 1 false]> (<[children 601 := Heap.Queue 521 522 2 false]> (d_queues (k_ds three)))))) (k_ds three))) three)
    {[600 := Proc 1 1 1 NULL P_RUNNING 0 0 2 NULL NULL NULL lk; 601 := Proc 2 1 2 600 P_RUNNING 0 0 4 NULL NULL NULL lk;
      602 := Proc 3 1 2 601 P_ZOMBIE 0 7 2 NULL NULL NULL false; 603 := Proc 4 1 4 601 P_RUNNING 0 0 2 NULL NULL NULL false]}
    ∅ ∅ ∅ {[401 := 601]} 4.
Abbreviation kin_all := [(511, 600); (512, 601); (513, 602); (514, 603)].
Abbreviation kin_kids := [(521, 602); (522, 603)].

Ltac check := refine (bool_decide_unpack _ _); vm_compute; exact I.
Ltac rep_tac := split; [done|]; split; [by vm_compute|]; split; [|repeat constructor]; split; [done|]; split; [done|]; split; [check|]; split; [check|]; cbn [own fmap list_fmap dseg]; repeat split; by vm_compute.
Lemma kin_queues lk :
  queue_rep (ds (kin lk)) procQ false kin_all ∧ queue_rep (ds (kin lk)) (children 601) false kin_kids ∧ queue_rep (ds (kin lk)) (children 600) false [(523, 601)].
Proof. split; [|split]; rep_tac. Qed.
Lemma kin_family : family (kin false) 601 (Proc 2 1 2 600 P_RUNNING 0 0 4 NULL NULL NULL false) kin_all kin_kids.
Proof.
  destruct (kin_queues false) as (H1 & H2 & _). split; [split; [done|split; [eexists; by vm_compute|done]]|split; [done|split; [by vm_compute|done]]|done|done|..].
  - intros p Hp. simpl in Hp. rewrite !elem_of_cons in Hp. destruct Hp as [->|[->|[->|[->|Hp]]]]; [..|by apply elem_of_nil in Hp]; (eexists; split; [done|split; [by vm_compute|done]]).
  - intros p Hp. simpl in Hp. rewrite !elem_of_cons in Hp. destruct Hp as [->|[->|Hp]]; [..|by apply elem_of_nil in Hp]; (eexists; split; [split; [done|split; [by vm_compute|done]]|done]).
Qed.

Lemma waitpid_correct_witness :
  family (kin false) 601 (Proc 2 1 2 600 P_RUNNING 0 0 4 NULL NULL NULL false) kin_all kin_kids ∧ waitpid 1 (-1) 0 (kin false) = Ok (Some (3, Some 7)) (kin false).
Proof. split; [exact kin_family|]. apply (waitpid_correct (kin false) 601 _ _ _ 0 (-1) 0 kin_family); [done|done|by vm_compute]. Defined.

Definition kin_fam : fam := <[children 600 := (false, [(523, 601)])]> {[children 601 := (false, kin_kids)]}.
Lemma kin_heir : heir (kin true) kin_fam 600 601 (Proc 1 1 1 NULL P_RUNNING 0 0 2 NULL NULL NULL true) (Proc 2 1 2 600 P_RUNNING 0 0 4 NULL NULL NULL true) [(523, 601)] kin_kids.
Proof.
  destruct (kin_queues true) as (_ & H2 & H3). split; [|by vm_compute|by vm_compute|done|by vm_compute|by vm_compute| |check].
  - intros q lk xs. unfold kin_fam. rewrite lookup_insert_Some, lookup_singleton_Some. by intros [[<- [= <- <-]]|[_ [<- [= <- <-]]]].
  - intros p Hp. simpl in Hp. rewrite !elem_of_cons in Hp. destruct Hp as [->|[->|Hp]]; [..|by apply elem_of_nil in Hp];
      (split; [done|]; split; [done|]; split; [done|]; split; [check|]; eexists; split; [by vm_compute|done]).
Qed.
Lemma proc_abandon_children_correct_witness :
  heir (kin true) kin_fam 600 601 (Proc 1 1 1 NULL P_RUNNING 0 0 2 NULL NULL NULL true) (Proc 2 1 2 600 P_RUNNING 0 0 4 NULL NULL NULL true) [(523, 601)] kin_kids ∧
  ∃ r h m (zs ys : list (ptr * ptr)), proc_abandon_children 600 601 (kin true) = Ok r (pt (kin true) h m) ∧ zs.*2 ++ ys.*2 = [602; 603] ∧ r = 0 ∧ ys = [].
Proof.
  split; [exact kin_heir|]. destruct (proc_abandon_children_correct (KM := pool_kmalloc) (N := 200) pool_room _ _ _ _ _ _ _ _ kin_heir) as (r & h & m & zs & ys & H1 & _ & H2 & _ & H3).
  exists r, h, m, zs, ys. split; [done|]. split; [done|]. destruct H3 as [H3|[_ H3]]; [done|]. exfalso. revert H3. apply Nat.lt_nge. vm_compute. lia.
Defined.

(** A group leader that asks for a session of its own: the process is found in
    its own group, and its lock, which is not held, is released. *)
Example setsid_leader_panics : setsid (kin false) = Stop Panic.
Proof. by vm_compute. Qed.
(** A process that joins the group of another one takes its own lock twice. *)
Example setpgid_self_panics : setpgid 0 4 (kin false) = Stop Panic.
Proof. by vm_compute. Qed.
(** [getsid] of any process is the session of the caller, even of a process that
    does not exist. *)
Example getsid_any : getsid 77 (kin false) = Ok 1 (kin false).
Proof. by vm_compute. Qed.
