(* ===== verification/Signal.v ===== *)
(** * kernel/sys/signals, kernel/sys/threads/thread.c: signals

    Signal sets, the queues of pending signals of threads and of processes,
    their masks and actions, and the way of a signal from [kill] to the thread
    that takes it.  A pointer argument that may be NULL is an [option], a
    pointer to a result a [bool] that says whether it is given. *)

From S2P Require Import Prelude Dll Heap Queue Lock Vfs Sched SchedSpec Tgroup Proc.

(** ** Signal sets (include/sys/_signal.h) *)

Definition SIGALRM : Z := 2.
Definition SIGCHLD : Z := 5.
Definition SIGCONT : Z := 6.
Definition SIGINT : Z := 11.
Definition SIGKILL : Z := 14.
Definition SIGSTOP : Z := 19.
Definition SIGBAD (signo : Z) : bool := bool_decide (signo < 1 ∨ signo > NSIG).

(** [(sigset_t)(1 << (signo - 1))]: the shift is one of [int], and signal 32 gives
    a negative number. *)
Definition sigbit (signo : Z) : Z := u64 (s32 (Z.shiftl 1 (signo - 1))).
Definition sigemptyset (set : option Z) : Z * option Z := match set with None => (- EINVAL, None) | Some _ => (0, Some 0) end.
Definition sigfillset (set : option Z) : Z * option Z := match set with None => (- EINVAL, None) | Some _ => (0, Some (u64 (Z.lnot 0))) end.
Definition sigaddset (set : option Z) (signo : Z) : Z * option Z :=
  match set with
  | None => (- EINVAL, None)
  | Some s => if SIGBAD signo then (- EINVAL, Some s) else (0, Some (Z.lor s (sigbit signo)))
  end.
Definition sigdelset (set : option Z) (signo : Z) : Z * option Z :=
  match set with
  | None => (- EINVAL, None)
  | Some s => if SIGBAD signo then (- EINVAL, Some s) else (0, Some (Z.land s (u64 (Z.lnot (sigbit signo)))))
  end.
Definition sigismember (set : option Z) (signo : Z) : Z :=
  match set with
  | None => - EINVAL
  | Some s => if SIGBAD signo then - EINVAL else if decide (Z.land s (sigbit signo) ≠ 0) then 1 else 0
  end.
(** [sigaddset] on a variable. *)
Definition addset (s signo : Z) : Z := default s (sigaddset (Some s) signo).2.

Definition SIG_BLOCK : Z := 1.
Definition SIG_UNBLOCK : Z := 2.
Definition SIG_SETMASK : Z := 3.
(** The switch on [how] of [thread_sigmask] and [sigprocmask]. *)
Definition mask_how (how old set : Z) : option Z :=
  if decide (how = SIG_BLOCK) then Some (Z.lor old set)
  else if decide (how = SIG_UNBLOCK) then Some (Z.land old (u64 (Z.lnot set)))
  else if decide (how = SIG_SETMASK) then Some set else None.
Definition unmaskable (set : Z) : bool := bool_decide (sigismember (Some set) SIGKILL ≠ 0) || bool_decide (sigismember (Some set) SIGSTOP ≠ 0).

(** ** Pending signals *)

Definition sigdesc_lock (d : ptr) : M psys unit := obj_lock sig_desc_t d.
Definition sigdesc_unlock (d : ptr) : M psys unit := obj_unlock sig_desc_t d.

Section signals.
Context {KM : Kmalloc} {MC : Machine} {PQ : ProcQueues}.

Definition sigdequeue_pending (queue : ptr) (ret : bool) : M psys ptr :=
  assert_ ret;;
  on_d (queue_assert_locked queue);;
  '(_, data) ← on_d (dequeue queue true);
  mret (default NULL data).
Definition sigenqueue_pending (sigqueue info : ptr) : M psys Z :=
  if decide (info = NULL) then mret (- EINVAL) else
  i ← load (V := siginfo_t) info;
  if SIGBAD (si_signo i) then mret (- EINVAL) else
  on_d (queue_assert_locked sigqueue);;
  fst <$> on_d (enqueue sigqueue info true false).

(** threads/thread.c *)
Definition thread_sigqueue (thread info : ptr) : M psys Z :=
  if decide (thread = NULL) then mret (- EINVAL) else
  i ← load (V := siginfo_t) info;
  let signo := si_signo i in
  if SIGBAD signo then mret (- EINVAL) else
  on_k (thread_assert_locked thread);;
  d ← on_k (orM (thread_iszombie thread) (thread_isterminated thread));
  if d : bool then mret (- EINVAL) else
  st ← on_k (thread_isstopped thread);
  if st && bool_decide (signo ≠ SIGKILL) && bool_decide (signo ≠ SIGCONT) then mret (- EINVAL) else
  v ← on_k (load (V := thread_t) thread);
  let err := sigismember (Some (t_sigmask v)) signo in
  if decide (err = - EINVAL) then mret err
  else if decide (err = 0) then
    on_d (queue_lock (t_sigqueue thread (signo - 1)));;
    on_d (enqueue (t_sigqueue thread (signo - 1)) info true false);;
    on_d (queue_unlock (t_sigqueue thread (signo - 1)));;
    cur ← on_k current;
    if decide (cur ≠ thread) then on_k (thread_wake thread) else mret 0
  else mret 0.

Fixpoint sigdequeue_loop (signos : list Z) (thread : ptr) : M psys (Z * ptr) :=
  match signos with
  | [] => mret (- ENOENT, NULL)
  | signo :: signos =>
      on_d (queue_lock (t_sigqueue thread signo));;
      n ← on_d (queue_count (t_sigqueue thread signo));
      if decide (n ≠ 0) then
        v ← on_k (load (V := thread_t) thread);
        if decide (sigismember (Some (t_sigmask v)) (signo + 1) = 1) then
          on_d (queue_unlock (t_sigqueue thread signo));; mret (- EINVAL, NULL)
        else
        info ← sigdequeue_pending (t_sigqueue thread signo) true;
        on_d (queue_unlock (t_sigqueue thread signo));;
        on_k (update thread (λ v, t_set_sigmask (addset (t_sigmask v) (signo + 1)) v));;
        mret (0, info)
      else on_d (queue_unlock (t_sigqueue thread signo));; sigdequeue_loop signos thread
  end.
Definition thread_sigdequeue (thread : ptr) (ret : bool) : M psys (Z * ptr) :=
  if decide (thread = NULL ∨ ret = false) then mret (- EINVAL, NULL) else
  on_k (thread_assert_locked thread);;
  sigdequeue_loop (seqZ 0 NSIG) thread.
(** The error and, for a caller that wants it, the mask before. *)
Definition thread_sigmask (thread : ptr) (how : Z) (set : option Z) (oset : bool) : M psys (Z * option Z) :=
  on_k (thread_assert_locked thread);;
  v ← on_k (load (V := thread_t) thread);
  let old := if oset then Some (t_sigmask v) else None in
  match set with
  | None => mret (0, old)
  | Some set =>
      if unmaskable set then mret (- EINVAL, old) else
      match mask_how how (t_sigmask v) set with
      | Some m => on_k (update thread (t_set_sigmask m));; mret (0, old)
      | None => mret (- EINVAL, old)
      end
  end.

(** ** signals/signal.c *)

Definition no_action : sigaction_t := Sigaction 0 0 0 0.
Definition desc_members (d : ptr) (h : dsheap) : dsheap :=
  set_queues (foldr (λ i m, <[sig_queue d i := QUEUE_INIT]> m) (d_queues h) (seqZ 0 NSIG)) h.
Definition sig_desc_alloc (pdesc : bool) : M psys (Z * ptr) :=
  if decide (pdesc = false) then mret (- EINVAL, NULL) else
  d ← kmalloc (SigDesc 0 (replicate (Z.to_nat NSIG) no_action) false);
  if decide (d = NULL) then mret (- ENOMEM, NULL) else
  modify (λ y, y_set_sys (k_set_ds (desc_members d (k_ds (y_sys y))) (y_sys y)) y);;
  mret (0, d).
Fixpoint flush_queues (d : ptr) (l : list Z) : M psys unit :=
  match l with
  | [] => mret tt
  | i :: l =>
      on_d (queue_lock (sig_queue d i));;
      on_d (queue_flush (sig_queue d i));;
      on_d (queue_unlock (sig_queue d i));;
      flush_queues d l
  end.
Definition sig_desc_free (d : ptr) : M psys unit :=
  assert_ (bool_decide (d ≠ NULL));;
  l ← obj_islocked sig_desc_t d;
  when (negb l) (sigdesc_lock d);;
  update d (d_set_mask 0);;
  flush_queues d (seqZ 0 NSIG);;
  sigdesc_unlock d;;
  kfree sig_desc_t d.

Fixpoint pending_loop (d : ptr) (l : list Z) (set : Z) : M psys Z :=
  match l with
  | [] => mret set
  | i :: l =>
      on_d (queue_lock (sig_queue d i));;
      n ← on_d (queue_count (sig_queue d i));
      on_d (queue_unlock (sig_queue d i));;
      pending_loop d l (if decide (n ≠ 0) then addset set (i + 1) else set)
  end.
Definition sigpending (want : bool) : M psys (Z * Z) :=
  if decide (want = false) then mret (- EINVAL, 0) else
  t ← on_k current;
  v ← on_k (load (V := thread_t) t);
  sigdesc_lock (t_sigdesc v);;
  set ← pending_loop (t_sigdesc v) (seqZ 0 NSIG) 0;
  sigdesc_unlock (t_sigdesc v);;
  mret (0, set).

Definition pthread_sigmask (how : Z) (set : option Z) (oset : bool) : M psys (Z * option Z) :=
  on_k current_lock;;
  t ← on_k current;
  r ← thread_sigmask t how set oset;
  on_k current_unlock;;
  mret r.
(** The descriptor of the running thread. *)
Definition current_desc : M psys ptr :=
  on_k current_lock;;
  t ← on_k current;
  v ← on_k (load (V := thread_t) t);
  on_k current_unlock;;
  mret (t_sigdesc v).
Definition sigprocmask (how : Z) (set : option Z) (oset : bool) : M psys (Z * option Z) :=
  d ← current_desc;
  sigdesc_lock d;;
  v ← load (V := sig_desc_t) d;
  let old := if oset then Some (sig_mask v) else None in
  r ← match set with
      | None => mret (0, old)
      | Some set =>
          if unmaskable set then mret (- EINVAL, old) else
          match mask_how how (sig_mask v) set with
          | Some m => update d (d_set_mask m);; mret (0, old)
          | None => mret (- EINVAL, old)
          end
      end;
  sigdesc_unlock d;;
  mret r.

(** The polling loop of [sigwait]: [None] after [fuel] polls without a signal. *)
Fixpoint sigwait_loop (fuel : nat) (sset signo : Z) : M psys (option Z) :=
  match fuel with
  | O => mret None
  | S n =>
      on_k current_lock;;
      t ← on_k current;
      info ← (if decide (sigismember (Some sset) signo = 1) then
                on_d (queue_lock (t_sigqueue t (signo - 1)));;
                info ← sigdequeue_pending (t_sigqueue t (signo - 1)) true;
                on_d (queue_unlock (t_sigqueue t (signo - 1)));;
                mret info
              else mret NULL);
      on_k current_unlock;;
      if decide (info ≠ NULL) then kfree siginfo_t info;; mret (Some signo) else
      sigwait_loop n sset (if decide (signo > NSIG) then 1 else signo + 1)
  end.
Definition sigwait (fuel : nat) (set : option Z) : M psys (option (Z * Z)) :=
  match set with
  | None => mret (Some (- EINVAL, 0))
  | Some sset =>
      '(err, oset) ← pthread_sigmask SIG_UNBLOCK (Some sset) true;
      if decide (err ≠ 0) then mret (Some (err, 0)) else
      r ← sigwait_loop fuel sset 1;
      match r with
      | None => mret None
      | Some signo => pthread_sigmask SIG_SETMASK oset false;; mret (Some (0, signo))
      end
  end.

(** ** signals/sigaction.c *)

Definition SIG_ERR : Z := u64 (- 1).
Definition SIG_DFL : Z := 0.
Definition SIG_IGN : Z := 1.
Definition SIG_IGNORE : Z := 1.
Definition SIG_ABRT : Z := 2.
Definition SIG_TERM : Z := 3.
Definition SIG_TERM_CORE : Z := 4.
Definition SIG_STOP : Z := 5.
Definition SIG_CONT : Z := 6.
Definition SA_RESTART : Z := 32.
Definition SA_SIGINFO : Z := 64.
(** The two switches of [sigaction]: the numbers of default actions. *)
Definition reserved (f : Z) : bool := bool_decide (SIG_ABRT <= f <= SIG_CONT).
Definition good_action (signo : Z) (act : sigaction_t) : bool :=
  negb (bool_decide (signo = SIGSTOP ∨ signo = SIGKILL)) && negb (bool_decide (sa_handler act = 0 ∧ sa_sigaction act = 0)) &&
  negb (reserved (sa_handler act)) && negb (reserved (sa_sigaction act)) && negb (has (sa_flags act) SA_SIGINFO && bool_decide (sa_sigaction act = 0)).
Definition sigaction (signo : Z) (act : option sigaction_t) (oact : bool) : M psys (Z * option sigaction_t) :=
  if SIGBAD signo then mret (- EINVAL, None) else
  d ← current_desc;
  sigdesc_lock d;;
  v ← load (V := sig_desc_t) d;
  let old := if oact then sig_action v !! Z.to_nat (signo - 1) else None in
  r ← match act with
      | None => mret (0, old)
      | Some act =>
          if good_action signo act then update d (λ v, d_set_action (<[Z.to_nat (signo - 1) := act]> (sig_action v)) v);; mret (0, old)
          else mret (- EINVAL, old)
      end;
  sigdesc_unlock d;;
  mret r.
(** [sa_sigaction] of the local variable is not set: it is what [stack] holds. *)
Definition signal (stack signo func : Z) : M psys Z :=
  '(err, oact) ← sigaction signo (Some (Sigaction func 0 (if decide (signo = SIGALRM) then 0 else SA_RESTART) stack)) true;
  mret (if decide (err < 0) then SIG_ERR else sa_handler (default no_action oact)).

(** ** signals/kill.c *)

Definition signal_check_perm (proc : ptr) : M psys (Z * Z) :=
  if decide (proc = NULL) then mret (- EPERM, 0) else
  proc_assert_locked proc;;
  cur ← on_k current;
  if decide (cur = NULL) then mret (0, 0) else
  t ← on_k (load (V := thread_t) cur);
  obj_lock cred_t (t_cred t);;
  c ← load (V := cred_t) (t_cred t);
  cp ← curproc;
  obj_unlock cred_t (t_cred t);;
  let uid := c_uid c in
  if decide (cp = proc) then mret (0, uid) else
  pid ← getpid;
  if decide (pid = 0 ∨ uid = 0 ∨ c_euid c = 0 ∨ c_gid c = 0 ∨ c_egid c = 0) then mret (0, uid) else
  v ← load (V := proc_t) proc;
  obj_lock cred_t (p_cred v);;
  w ← load (V := cred_t) (p_cred v);
  obj_unlock cred_t (p_cred v);;
  if decide (c_uid w = uid ∨ c_gid w = c_gid c ∨ c_euid w = c_euid c ∨ c_egid w = c_egid c) then mret (0, uid) else mret (- EPERM, 0).

(** A thread is chosen: it stays locked and goes to the end of its group. *)
Definition pick_thread (threads thread : ptr) : M sys (Z * ptr) :=
  v ← load (V := thread_t) thread;
  err ← on_q (queue_rellocate_node threads (t_tgrp_qn v) QUEUE_RELLOC_TAIL);
  when (bool_decide (err ≠ 0)) (thread_unlock thread);;
  on_q (queue_unlock threads);;
  mret (err, if decide (err = 0) then thread else NULL).
(** The three loops: over the sleeping and stopped threads, over the others that
    handle no signal, and over the others again. *)
Definition select_body (pass : Z) (threads : ptr) (signo : Z) (thread : ptr) : M sys (option (Z * ptr)) :=
  cur ← current;
  if decide (cur = thread) then mret None else
  thread_lock thread;;
  d ← orM (thread_isterminated thread) (orM (thread_iszombie thread) (thread_isusleep thread));
  if d : bool then thread_unlock thread;; mret None else
  b ← orM (thread_isstopped thread) (thread_isisleep thread);
  b ← (if decide (pass = 1) then mret b else
       if b : bool then mret false else
       h ← thread_ishandling_signal thread; mret (negb h));
  v ← load (V := thread_t) thread;
  if b && bool_decide (sigismember (Some (t_sigmask v)) signo = 0) then r ← pick_thread threads thread; mret (Some r)
  else thread_unlock thread;; mret None.
Definition signal_select_thread (threads : ptr) (signo : Z) : M sys (Z * ptr) :=
  on_q (queue_lock threads);;
  r ← queue_foreach threads (select_body 1 threads signo);
  match r with Some r => mret r | None =>
    r ← queue_foreach threads (select_body 2 threads signo);
    match r with Some r => mret r | None =>
      r ← queue_foreach threads (select_body 3 threads signo);
      match r with Some r => mret r | None => on_q (queue_unlock threads);; mret (- ESRCH, NULL) end
    end
  end.

(** The signal is queued on the process when no thread takes it. *)
Definition signal_queue (proc : ptr) (signo info : ptr) : M psys Z :=
  v ← load (V := proc_t) proc;
  '(err, thread) ← on_k (signal_select_thread (p_threads v) signo);
  assert_ (bool_decide (err = 0 ∨ err = - ESRCH));;
  if decide (err = 0) then
    err ← thread_sigqueue thread info;
    on_k (thread_unlock thread);;
    when (bool_decide (err ≠ 0)) (kfree siginfo_t info);;
    mret err
  else
    let d := p_sigdesc v in
    sigdesc_lock d;;
    on_d (queue_lock (sig_queue d (signo - 1)));;
    err ← sigenqueue_pending (sig_queue d (signo - 1)) info;
    on_d (queue_unlock (sig_queue d (signo - 1)));;
    sigdesc_unlock d;;
    when (bool_decide (err ≠ 0)) (kfree siginfo_t info);;
    mret err.
Definition signal_send (proc : ptr) (signo : Z) : M psys Z :=
  if decide (signo < 0 ∨ signo > NSIG) then mret (- EINVAL) else
  proc_assert_locked proc;;
  '(err, uid) ← signal_check_perm proc;
  if decide (err ≠ 0) then mret err else
  if decide (signo = 0) then mret 0 else
  info ← kmalloc (Siginfo 0 0 0 0 NULL 0 0);
  if decide (info = NULL) then mret (- ENOMEM) else
  cp ← curproc;
  pid ← (if decide (proc ≠ cp) then getpid else v ← load (V := proc_t) cp; mret (p_pid v));
  update info (λ _ : siginfo_t, Siginfo signo 0 pid uid NULL 0 signo);;
  signal_queue proc signo info.

(** [kill]: one process, or those that [want] holds of and then the caller. *)
Definition kill_others (want : proc_t -> bool) (signo : Z) : M psys Z :=
  on_d (queue_lock procQ);;
  r ← scan_locked procQ tt (λ proc _,
    cp ← curproc;
    if decide (proc = cp) then mret (inl tt) else
    proc_lock proc;;
    v ← load (V := proc_t) proc;
    err ← (if want v then signal_send proc signo else mret 0);
    proc_unlock proc;;
    mret (if decide (err ≠ 0) then inr err else inl tt));
  on_d (queue_unlock procQ);;
  match r with
  | inr err => mret err
  | inl _ =>
      cp ← curproc;
      proc_lock cp;;
      err ← signal_send cp signo;
      proc_unlock cp;;
      mret err
  end.
Definition kill (pid signo : Z) : M psys Z :=
  if decide (pid > 0) then
    '(err, proc) ← procQ_search_bypid pid true;
    if decide (err ≠ 0) then mret err else
    err ← signal_send proc signo;
    proc_unlock proc;;
    mret err
  else if decide (pid = 0) then g ← getpgrp; kill_others (λ v, bool_decide (p_pgid v = g)) signo
  else if decide (pid = -1) then kill_others (λ _, true) signo
  else kill_others (λ v, bool_decide (p_pgid v = - pid)) signo.

Definition pthread_kill (tid signo : Z) : M psys Z :=
  if SIGBAD signo then mret (- EINVAL) else
  '(err, thread) ← on_k (thread_get tid T_EMBRYO true);
  if decide (err ≠ 0) then mret err else
  if decide (signo = 0) then on_k (thread_unlock thread);; mret 0 else
  info ← kmalloc (Siginfo 0 0 0 0 NULL 0 0);
  if decide (info = NULL) then on_k (thread_putref thread);; on_k (thread_unlock thread);; mret (- ENOMEM) else
  pid ← getpid;
  update info (λ _ : siginfo_t, Siginfo signo 0 pid 0 NULL 0 0);;
  err ← thread_sigqueue thread info;
  on_k (thread_putref thread);;
  on_k (thread_unlock thread);;
  when (bool_decide (err ≠ 0)) (kfree siginfo_t info);;
  mret err.

(** ** signals/alarm.c *)

Definition raise (signo : Z) : M psys Z :=
  t ← on_k current;
  tid ← on_k (thread_gettid t);
  pthread_kill tid signo.
Definition trigger_alarm (pid : Z) : M psys unit := kill pid SIGALRM;; mret tt.

(** [sched_sleep_r] (sched/queues.c) up to the switch, with the group locked: the
    error, or whether the thread switches; and from there on. *)
Definition sched_sleep_r (sleep_queue : ptr) (state : tstate_t) (lock : ptr) : M sys (Z * bool) :=
  if decide (sleep_queue = NULL) then mret (- EINVAL, false) else
  current_assert_locked;;
  t ← current;
  v ← load (V := thread_t) t;
  err ← on_q (queue_rellocate_node (t_tgroup v) (t_tgrp_qn v) QUEUE_RELLOC_HEAD);
  if decide (err ≠ 0) then mret (err, false) else
  '(err, node) ← thread_enqueue sleep_queue t;
  if decide (err ≠ 0) then mret (err, false) else
  update t (λ v, t_set_sleep node (t_sleep_queue v) (t_sleep_guard v) v);;
  thread_enter_state t state;;
  update t (λ v, t_set_sleep (t_sleep_node v) sleep_queue lock v);;
  when (bool_decide (lock ≠ NULL)) (spin_unlock lock);;
  v ← load (V := thread_t) t;
  on_q (queue_unlock (t_tgroup v));;
  s ← sched;
  mret (0, s).
Definition sched_sleep_r_end (lock : ptr) : M sys Z :=
  current_unlock;;
  when (bool_decide (lock ≠ NULL)) (spin_lock lock);;
  t ← current;
  v ← load (V := thread_t) t;
  on_q (queue_lock (t_tgroup v));;
  current_lock;;
  update t (t_set_sleep NULL NULL NULL);;
  k ← thread_iskilled t;
  mret (if k : bool then - EINTR else 0).
(** [pause] returns [None] when the thread sleeps; the rest is [pause_end]. *)
Definition pause_return : M sys Z :=
  current_unlock;;
  t ← current;
  v ← load (V := thread_t) t;
  on_q (queue_unlock (t_tgroup v));;
  mret (- EINTR).
Definition pause_end : M sys Z := sched_sleep_r_end NULL;; pause_return.
Definition pause : M sys (option Z) :=
  t ← current;
  v ← load (V := thread_t) t;
  on_q (queue_lock (t_tgroup v));;
  current_lock;;
  '(err, switch) ← sched_sleep_r pause_queue T_ISLEEP NULL;
  if decide (err ≠ 0) then r ← pause_return; mret (Some r) else
  if switch : bool then mret None else
  r ← pause_end; mret (Some r).

(** ** signals/dispatch.c *)

(** [sig_defaults] of signal.c, by signal *)
Definition sig_defaults : list Z :=
  [SIG_TERM_CORE; SIG_TERM; SIG_TERM_CORE; SIG_IGNORE; SIG_IGNORE; SIG_CONT; SIG_TERM_CORE; SIG_TERM_CORE; SIG_TERM; SIG_TERM_CORE; SIG_TERM; SIG_TERM; SIG_TERM_CORE; SIG_TERM; SIG_TERM; SIG_TERM;
   SIG_TERM_CORE; SIG_TERM_CORE; SIG_STOP; SIG_TERM_CORE; SIG_TERM; SIG_TERM_CORE; SIG_STOP; SIG_STOP; SIG_STOP; SIG_IGNORE; SIG_TERM; SIG_TERM; SIG_TERM; SIG_IGNORE; SIG_TERM; SIG_TERM].

(** A signal of the process that the thread does not block. *)
Fixpoint dispatch_loop (d : ptr) (l : list Z) : M psys (option (ptr * sigaction_t * Z)) :=
  match l with
  | [] => mret None
  | i :: l =>
      on_k current_lock;;
      t ← on_k current;
      v ← on_k (load (V := thread_t) t);
      on_k current_unlock;;
      if decide (sigismember (Some (t_sigmask v)) (i + 1) = 1) then dispatch_loop d l else
      on_d (queue_lock (sig_queue d i));;
      '(_, data) ← on_d (dequeue (sig_queue d i) true);
      on_d (queue_unlock (sig_queue d i));;
      match data with
      | None => dispatch_loop d l
      | Some info =>
          w ← load (V := sig_desc_t) d;
          s ← load (V := siginfo_t) info;
          update d (λ w, d_set_mask (addset (sig_mask w) (si_signo s - 1)) w);;
          mret (Some (info, default no_action (sig_action w !! Z.to_nat i), sig_mask w))
      end
  end.
(** The first part: a signal of the thread ([true]) or else of the process, with
    its action and the mask to restore. *)
Definition dispatch_take : M psys (option (ptr * sigaction_t * Z * bool)) :=
  on_k current_lock;;
  t ← on_k current;
  v ← on_k (load (V := thread_t) t);
  '(_, info) ← thread_sigdequeue t true;
  on_k current_unlock;;
  let d := t_sigdesc v in
  sigdesc_lock d;;
  if decide (info ≠ NULL) then
    w ← load (V := sig_desc_t) d;
    s ← load (V := siginfo_t) info;
    sigdesc_unlock d;;
    mret (Some (info, default no_action (sig_action w !! Z.to_nat (si_signo s - 1)), t_sigmask v, true))
  else
  r ← dispatch_loop d (seqZ 0 NSIG);
  sigdesc_unlock d;;
  mret (match r with Some (info, act, oset) => Some (info, act, oset, false) | None => None end).

(** What happens to the signal: the thread ends, or the handler is called by
    [arch_signal_dispatch]. *)
Variant dispatched := NoSignal | Terminate | Deliver (handler : Z) (act : sigaction_t).
Definition restore_mask (thread : bool) (oset : Z) : M psys unit :=
  (if thread then pthread_sigmask SIG_SETMASK (Some oset) false else sigprocmask SIG_SETMASK (Some oset) false);; mret tt.
Definition signal_dispatch : M psys dispatched :=
  r ← dispatch_take;
  match r with
  | None => mret NoSignal
  | Some (info, act, oset, thread) =>
      let handler := if has (sa_flags act) SA_SIGINFO then sa_sigaction act else sa_handler act in
      s ← load (V := siginfo_t) info;
      if decide (handler = SIG_DFL) then
        if decide (sig_defaults !! Z.to_nat (si_signo s - 1) = Some SIG_TERM) then
          kfree siginfo_t info;; restore_mask thread oset;; mret Terminate
        else halt Panic
      else if decide (handler = SIG_ERR ∨ handler = SIG_IGN) then halt Panic else
      on_k current_lock;;
      on_k current_unlock;;
      kfree siginfo_t info;;
      restore_mask thread oset;;
      mret (Deliver handler act)
  end.
End signals.
