(* ===== verification/SignalProps.v ===== *)
(** * What signals do

    Signal sets are sets of numbers; pending signals are one queue per signal;
    a signal that is not blocked reaches its thread and wakes it. *)

From S2P Require Import Prelude Dll Heap Queue Lock Vfs Sched SchedSpec SchedInv Tgroup Proc ProcProps Signal.

(** ** Signal sets *)

(** Signal 32 stands for the bits 31 to 63, which the macros keep equal. *)
Definition wf_set (s : Z) : Prop := in_u64 s ∧ ∀ i, 31 <= i < 64 -> Z.testbit s i = Z.testbit s 31.
Definition sigs : list Z := seqZ 1 NSIG.
Definition elems (s : Z) : gset Z := list_to_set (filter (λ n, Z.testbit s (n - 1) = true) sigs).
Lemma elem_of_elems n s : n ∈ elems s <-> 1 <= n <= 32 ∧ Z.testbit s (n - 1) = true.
Proof. unfold elems, sigs, NSIG. rewrite elem_of_list_to_set, list_elem_of_filter, elem_of_seqZ. split; intros [H1 H2]; split; auto; lia. Qed.
Lemma sigbad_spec n : SIGBAD n = false <-> 1 <= n <= 32.
Proof. unfold SIGBAD, NSIG. rewrite bool_decide_eq_false. lia. Qed.

Lemma u64_testbit z i : 0 <= i < 64 -> Z.testbit (u64 z) i = Z.testbit z i.
Proof. intros H. unfold u64. change two64 with (2 ^ 64). rewrite Z.mod_pow2_bits_low by lia. done. Qed.
Lemma in_u64_high z i : in_u64 z -> 64 <= i -> Z.testbit z i = false.
Proof.
  intros [H1 H2] Hi. destruct (decide (z = 0)) as [->|]; [apply Z.testbit_0_l|]. apply Z.bits_above_log2; [done|].
  apply Z.log2_lt_pow2; [lia|]. apply (Z.lt_le_trans _ _ _ H2). change two64 with (2 ^ 64). by apply Z.pow_le_mono_r.
Qed.
Lemma in_u64_bits z : 0 <= z -> (∀ i, 64 <= i -> Z.testbit z i = false) -> in_u64 z.
Proof.
  intros Hz H. assert (z = u64 z) as ->; [|apply u64_range]. apply Z.bits_inj'. intros i Hi. destruct (decide (i < 64)); [by rewrite u64_testbit|].
  unfold u64. change two64 with (2 ^ 64). rewrite Z.mod_pow2_bits_high by lia. apply H. lia.
Qed.
Lemma sigbit_bits n i : 1 <= n <= 32 -> 0 <= i < 64 -> Z.testbit (sigbit n) i = bool_decide (i = n - 1 ∨ (n = 32 ∧ 31 <= i)).
Proof.
  intros Hn Hi. assert (Forall (λ n, Forall (λ i, Z.testbit (sigbit n) i = bool_decide (i = n - 1 ∨ (n = 32 ∧ 31 <= i))) (seqZ 0 64)) sigs) as H.
  { refine (bool_decide_unpack _ _). vm_compute. exact I. }
  rewrite Forall_forall in H. specialize (H n ltac:(apply elem_of_seqZ; unfold NSIG; lia)). cbv beta in H. rewrite Forall_forall in H. apply H, elem_of_seqZ. lia.
Qed.
Lemma sigbit_range n : in_u64 (sigbit n).
Proof. apply u64_range. Qed.

(** Operations by their bits. *)
Lemma wf_bits s (f : Z -> bool) : 0 <= s -> (∀ i, 0 <= i < 64 -> Z.testbit s i = f i) -> (∀ i, 64 <= i -> Z.testbit s i = false) -> (∀ i, 31 <= i < 64 -> f i = f 31) -> wf_set s.
Proof. intros H0 H1 H2 H3. split; [by apply in_u64_bits|]. intros i Hi. rewrite !H1 by lia. by apply H3. Qed.
Lemma lor_wf s s' : wf_set s -> wf_set s' -> wf_set (Z.lor s s') ∧ elems (Z.lor s s') = elems s ∪ elems s'.
Proof.
  intros [H1 H2] [H3 H4]. split.
  - eapply (wf_bits _ (λ i, Z.testbit s i || Z.testbit s' i)); [apply Z.lor_nonneg; split; [apply H1|apply H3]|intros; apply Z.lor_spec|intros; rewrite Z.lor_spec, !in_u64_high by done; done|].
    intros i Hi. by rewrite H2, H4.
  - apply set_eq. intros n. rewrite elem_of_union, !elem_of_elems, Z.lor_spec, orb_true_iff. tauto.
Qed.
Lemma land_not_wf s s' : wf_set s -> wf_set s' -> wf_set (Z.land s (u64 (Z.lnot s'))) ∧ elems (Z.land s (u64 (Z.lnot s'))) = elems s ∖ elems s'.
Proof.
  intros [H1 H2] [H3 H4]. assert (∀ i, 0 <= i < 64 -> Z.testbit (Z.land s (u64 (Z.lnot s'))) i = Z.testbit s i && negb (Z.testbit s' i)) as E.
  { intros i Hi. rewrite Z.land_spec, u64_testbit by done. by rewrite Z.lnot_spec by lia. } split.
  - eapply (wf_bits _ _); [apply Z.land_nonneg; left; apply H1|exact E|intros; rewrite Z.land_spec, (in_u64_high s) by done; done|].
    intros i Hi. cbv beta. by rewrite H2, H4.
  - apply set_eq. intros n. rewrite elem_of_difference, !elem_of_elems. split; [intros [Hn Ht]; rewrite E in Ht by lia|intros [[Hn Ht] Hx]; rewrite E by lia].
    + apply andb_true_iff in Ht as [Ht Hf]. split; [done|]. intros [_ Ht']. by rewrite Ht' in Hf.
    + split; [done|]. rewrite Ht. destruct (Z.testbit s' (n - 1)) eqn:E'; [|done]. by exfalso; apply Hx.
Qed.
Lemma sigbit_wf n : 1 <= n <= 32 -> wf_set (sigbit n) ∧ elems (sigbit n) = {[n]}.
Proof.
  intros Hn. split.
  - split; [apply sigbit_range|]. intros i Hi. rewrite !sigbit_bits by lia. apply bool_decide_ext. lia.
  - apply set_eq. intros k. rewrite elem_of_singleton, elem_of_elems. split; [intros [Hk H]|intros ->; split; [done|]]; [|rewrite sigbit_bits by lia; apply bool_decide_eq_true; lia].
    rewrite sigbit_bits in H by lia. apply bool_decide_eq_true in H. lia.
Qed.
Lemma zero_wf : wf_set 0 ∧ elems 0 = ∅.
Proof. split; [split; [done|intros; by rewrite !Z.testbit_0_l]|by vm_compute]. Qed.
Lemma full_wf : wf_set (u64 (Z.lnot 0)) ∧ elems (u64 (Z.lnot 0)) = list_to_set sigs.
Proof. split; [|by vm_compute]. split; [apply u64_range|]. intros i Hi. rewrite !u64_testbit by lia. by rewrite !Z.lnot_spec, !Z.testbit_0_l by lia. Qed.
Lemma member_spec s n : wf_set s -> sigismember (Some s) n = if SIGBAD n then - EINVAL else if decide (n ∈ elems s) then 1 else 0.
Proof.
  intros [H1 H2]. unfold sigismember. destruct (SIGBAD n) eqn:E; [done|]. apply sigbad_spec in E. destruct (decide (n ∈ elems s)) as [Hin|Hin]; [rewrite decide_True; [done|]|rewrite decide_False; [done|]].
  - apply elem_of_elems in Hin as [_ Hb]. intros Hz. assert (Z.testbit (Z.land s (sigbit n)) (n - 1) = true) as Hc; [|by rewrite Hz, Z.testbit_0_l in Hc].
    rewrite Z.land_spec, Hb, sigbit_bits by lia. by apply bool_decide_eq_true; left.
  - intros Hz. apply Hz. apply Z.bits_inj'. intros i Hi. rewrite Z.testbit_0_l, Z.land_spec. destruct (Z.testbit s i) eqn:Eb; [|done]. simpl.
    destruct (decide (i < 64)) as [Hi'|Hi']; [|apply in_u64_high; [apply sigbit_range|lia]]. rewrite sigbit_bits by lia. apply bool_decide_eq_false. intros Hx. apply Hin, elem_of_elems. split; [done|].
    destruct Hx as [->|[-> Hx]]; [done|]. change (32 - 1) with 31. by rewrite <- (H2 i) by lia.
Qed.

(** A sequence of operations on one set, by the macros and by finite sets. *)
Variant set_op := SEmpty | SFill | SAdd (n : Z) | SDel (n : Z) | SMember (n : Z) | SMask (how set : Z).
Definition set_run (o : set_op) (s : Z) : Z * Z :=
  let put (r : Z * option Z) := (r.1, default s r.2) in
  match o with
  | SEmpty => put (sigemptyset (Some s))
  | SFill => put (sigfillset (Some s))
  | SAdd n => put (sigaddset (Some s) n)
  | SDel n => put (sigdelset (Some s) n)
  | SMember n => (sigismember (Some s) n, s)
  | SMask how set => match mask_how how s set with Some m => (0, m) | None => (- EINVAL, s) end
  end.
Definition set_spec (o : set_op) (X : gset Z) : Z * gset Z :=
  match o with
  | SEmpty => (0, ∅)
  | SFill => (0, list_to_set sigs)
  | SAdd n => if decide (n ∈ sigs) then (0, X ∪ {[n]}) else (- EINVAL, X)
  | SDel n => if decide (n ∈ sigs) then (0, X ∖ {[n]}) else (- EINVAL, X)
  | SMember n => (if decide (n ∈ sigs) then if decide (n ∈ X) then 1 else 0 else - EINVAL, X)
  | SMask how set =>
      if decide (how = SIG_BLOCK) then (0, X ∪ elems set)
      else if decide (how = SIG_UNBLOCK) then (0, X ∖ elems set)
      else if decide (how = SIG_SETMASK) then (0, elems set) else (- EINVAL, X)
  end.
Fixpoint runs_of {S} (run : set_op -> S -> Z * S) (ops : list set_op) (s : S) : list Z * S :=
  match ops with
  | [] => ([], s)
  | o :: ops => let r := run o s in let rs := runs_of run ops r.2 in (r.1 :: rs.1, rs.2)
  end.
Definition mask_ok (o : set_op) : Prop := match o with SMask _ set => wf_set set | _ => True end.
Lemma sigs_spec n : n ∈ sigs <-> SIGBAD n = false.
Proof. unfold sigs, NSIG. rewrite elem_of_seqZ, sigbad_spec. lia. Qed.
Lemma set_run_ok o s : wf_set s -> mask_ok o -> wf_set (set_run o s).2 ∧ (set_run o s).1 = (set_spec o (elems s)).1 ∧ elems (set_run o s).2 = (set_spec o (elems s)).2.
Proof.
  intros Hs Ho. assert (∀ n, SIGBAD n = true -> n ∉ sigs) as Hbad by (intros n E; rewrite sigs_spec, E; done). destruct o as [| |n|n|n|how set]; simpl.
  - by destruct zero_wf.
  - by destruct full_wf.
  - destruct (SIGBAD n) eqn:E; simpl; [by rewrite decide_False by auto|]. rewrite decide_True by (by apply sigs_spec). apply sigbad_spec, sigbit_wf in E as [H1 H2]. destruct (lor_wf s _ Hs H1) as [H3 H4]. by rewrite H4, H2.
  - destruct (SIGBAD n) eqn:E; simpl; [by rewrite decide_False by auto|]. rewrite decide_True by (by apply sigs_spec). apply sigbad_spec, sigbit_wf in E as [H1 H2]. destruct (land_not_wf s _ Hs H1) as [H3 H4]. by rewrite H4, H2.
  - split; [done|]. split; [|done]. change (sigismember (Some s) n = if decide (n ∈ sigs) then if decide (n ∈ elems s) then 1 else 0 else - EINVAL). rewrite member_spec by done.
    destruct (SIGBAD n) eqn:E; [by rewrite (decide_False (P := n ∈ sigs)) by auto|]. by rewrite (decide_True (P := n ∈ sigs)) by (by apply sigs_spec).
  - unfold mask_how. repeat case_decide; simpl; [by destruct (lor_wf s set)|by destruct (land_not_wf s set)|done|done].
Qed.

(** C10. Signal sets: from a well-formed set, every sequence of the macros and of
    the changes of a mask by well-formed sets returns the results of the same
    operations on a finite set of signal numbers (an error for a number that is
    not a signal), ends in the word of that set, and keeps the word well
    formed; signal 32, whose bit is sign extended over half of the word, does
    not disturb the others. *)
Theorem sigset_well_typed ops s :
  wf_set s -> Forall mask_ok ops ->
  wf_set (runs_of set_run ops s).2 ∧ (runs_of set_run ops s).1 = (runs_of set_spec ops (elems s)).1 ∧ elems (runs_of set_run ops s).2 = (runs_of set_spec ops (elems s)).2.
Proof.
  revert s. induction ops as [|o ops IH]; intros s Hs Hops; [done|]. apply Forall_cons in Hops as [Ho Hops]. destruct (set_run_ok o s Hs Ho) as (H1 & H2 & H3).
  destruct (IH _ H1 Hops) as (I1 & I2 & I3). simpl. rewrite <- H3, <- H2, I2. done.
Qed.
Lemma sigset_well_typed_witness :
  wf_set 0 ∧ (runs_of set_run [SAdd 32; SAdd 14; SMember 32; SMember 31; SMember 33; SDel 32; SMember 32; SMember 14] 0).1 = [0; 0; 1; 0; - EINVAL; 0; 0; 1].
Proof.
  split; [apply zero_wf|]. destruct (sigset_well_typed [SAdd 32; SAdd 14; SMember 32; SMember 31; SMember 33; SDel 32; SMember 32; SMember 14] 0) as (_ & -> & _); [apply zero_wf|repeat constructor|].
  by vm_compute.
Defined.

Lemma open_member s n : wf_set s -> SIGBAD n = false -> n ∉ elems s -> sigismember (Some s) n = 0.
Proof. intros Hs Hb Hn. by rewrite member_spec, Hb, decide_False. Qed.

(** ** A signal reaches a thread *)

Section deliver.
Context {KM : Kmalloc} {MC : Machine} {PQ : ProcQueues} {AR : Areas} {N : nat} (Hroom : ∀ n D, km_choose n D = None -> (N <= size D)%nat).
Implicit Types (y : psys) (s : sys) (h : dsheap) (m : gmap ptr thread_t) (F : fam) (t q : ptr) (v : thread_t).

(** The queues the scheduler does not know. *)
Definition private m q : Prop := q ∉ Qs ∧ ∀ t, t ∈ dom m -> q ≠ t_queues t.
Lemma core_other s h h' m F X q lk xs :
  core s h m F X ∅ -> private m q -> NoDup xs.*2 -> fam_ok h' (<[q := (lk, xs)]> F) -> core s h' m (<[q := (lk, xs)]> F) X ∅.
Proof.
  intros HC [Hq Hn] Hnd HF. pose proof (co_agree _ _ _ _ _ _ HC) as HA. destruct HC as [_ _ H1 H2 _ H4 H5 H6]. assert (∀ q', q' ∈ Qs -> <[q := (lk, xs)]> F !! q' = F !! q') as E1 by (intros q' Hq'; rewrite lookup_insert_ne; [done|by intros ->]).
  assert (∀ q', q' ∈ Qs -> mem (<[q := (lk, xs)]> F) q' = mem F q') as E2 by (intros q' Hq'; unfold mem; by rewrite E1).
  assert (∀ t, t ∈ dom m -> mem (<[q := (lk, xs)]> F) (t_queues t) = mem F (t_queues t)) as E3 by (intros t Ht; apply mem_insert_ne, not_eq_sym; by apply Hn).
  split; try done.
  - destruct HA. split; try done.
    + intros q' Hq'. rewrite E1 by done. auto.
    + intros t Ht. rewrite lookup_insert_ne by (by apply Hn). auto.
    + intros q'. destruct (decide (q' = q)) as [->|Hne]; [by rewrite mem_insert|by rewrite mem_insert_ne].
    + intros q' t Hq'. rewrite E2 by done. eauto.
    + intros q' t Ht. rewrite E3 by done. eauto.
    + intros q' t Hq' Ht. rewrite E2, E3 by done. auto.
  - intros q' Hq' Hu. unfold lkd. rewrite E1 by done. by apply H2.
  - intros t v Hv Hx. destruct (H6 t v Hv Hx) as (G1 & G2 & G3). split; [done|]. split; [done|]. unfold on. rewrite E3; [done|]. apply elem_of_dom. by eexists.
Qed.

Definition yk y s h m : psys := y_set_sys (kt s h m) y.
Lemma wp_yk_d {A} (c : M dsheap A) y s h m (Q : A -> psys -> Prop) : wp c h (λ a h', Q a (yk y s h' m)) -> wp (on_d c) (yk y s h m) Q.
Proof. intros H. by apply wp_on_k, wp_kt_q. Qed.
Lemma wp_yk_k {A} (c : M sys A) y s h m (Q : A -> psys -> Prop) : wp c (kt s h m) (λ a s', Q a (y_set_sys s' y)) -> wp (on_k c) (yk y s h m) Q.
Proof. intros H. by apply wp_on_k. Qed.

(** The signal is put on its queue. *)
Lemma wp_post {A} y s h m F X q xs info (C : M psys A) (Q : A -> psys -> Prop) :
  core s h m F X ∅ -> private m q -> F !! q = Some (false, xs) -> info ∉ xs.*2 -> (S (load_of h) <= N)%nat ->
  (∀ p h', core s h' m (<[q := (false, xs ++ [(p, info)])]> F) X ∅ -> (load_of h' <= S (load_of h))%nat -> wp C (yk y s h' m) Q) ->
  wp (on_d (queue_lock q);; on_d (enqueue q info true false);; on_d (queue_unlock q);; C) (yk y s h m) Q.
Proof.
  intros HC Hp Hx Hin HN HQ. pose proof (co_fam _ _ _ _ _ _ HC) as HF. assert (NoDup xs.*2) as Hnd. { rewrite <- (mem_some _ _ _ _ Hx). apply HC. }
  wp_step. apply wp_yk_d. eapply wpf_lock; [exact HF|done|]. intros h1 HF1 L1. wp_step. apply wp_yk_d. eapply (wpf_enqueue Hroom); [exact HF1|by map_norm|done|intros; lia|].
  intros p h2 _ HF2 L2. wp_step. apply wp_yk_d. eapply wpf_unlock; [exact HF2|by map_norm|]. intros h3 HF3 L3. rewrite !insert_insert_eq in HF3. apply (HQ p h3); [|lia].
  eapply core_other; [exact HC|done| |done]. rewrite fmap_app. apply NoDup_app. split; [done|]. split; [|apply NoDup_singleton]. by intros x Hx' ->%list_elem_of_singleton.
Qed.

Lemma wp_sigqueue y s h m F X t v info i xs (Q : Z -> psys -> Prop) :
  core s h m F X ∅ -> t ∈ X -> m !! t = Some v -> t_lock v = true -> good (k_cpus s) v -> place (k_cpus s) (k_current s) t v (on F t) -> t_state v ≠ T_ZOMBIE ->
  info ≠ NULL -> y_infos y !! info = Some i -> SIGBAD (si_signo i) = false -> (t_state v = T_STOPPED -> si_signo i = SIGKILL ∨ si_signo i = SIGCONT) ->
  wf_set (t_sigmask v) -> si_signo i ∉ elems (t_sigmask v) ->
  private m (t_sigqueue t (si_signo i - 1)) -> F !! t_sigqueue t (si_signo i - 1) = Some (false, xs) -> info ∉ xs.*2 -> (S (load_of h) <= N)%nat ->
  (¬ asleep v -> ∀ r p h' F', r = 0 ∨ r = - ENOENT -> core s h' m F' X ∅ -> (∀ x, mem F' x = mem (<[t_sigqueue t (si_signo i - 1) := (false, xs ++ [(p, info)])]> F) x) -> Q r (yk y s h' m)) ->
  (asleep v -> ∀ q v' p h' F', woken (k_cpus s) v v' q -> core s h' (<[t := v']> m) F' X ∅ -> on F' t = [q] ->
     moved (<[t_sigqueue t (si_signo i - 1) := (false, xs ++ [(p, info)])]> F) F' (t_sleep_queue v) q t -> Q 0 (yk y s h' (<[t := v']> m))) ->
  wp (thread_sigqueue t info) (yk y s h m) Q.
Proof.
  intros HC Hx Hv Hl Hg Hpl Hz Hin Hi Hbad Hst Hwf Hmask Hpriv HF Hnin HN HQ1 HQ2. pose proof (core_t_null _ _ _ _ _ _ _ _ HC Hv) as Htn. unfold thread_sigqueue. rewrite decide_False by done.
  wp_step. eapply wp_load; [done|exact Hi|]. cbv zeta. rewrite Hbad. wp_step. apply wp_yk_k. apply (wp_tassert _ _ _ _ v); [done..|].
  wp_step. apply wp_yk_k. unfold orM. wp_step. apply (wp_isstate _ _ _ _ v); [done..|]. rewrite bool_decide_eq_false_2 by done. apply (wp_isstate _ _ _ _ v); [done..|].
  rewrite bool_decide_eq_false_2 by (intros E; unfold place in Hpl; by rewrite E in Hpl). wp_step. apply wp_yk_k. apply (wp_isstate _ _ _ _ v); [done..|].
  replace (bool_decide (t_state v = T_STOPPED) && bool_decide (si_signo i ≠ SIGKILL) && bool_decide (si_signo i ≠ SIGCONT)) with false.
  2:{ symmetry. rewrite <- not_true_iff_false, !andb_true_iff, !bool_decide_eq_true. tauto. }
  wp_step. apply wp_yk_k. apply (wp_tload _ _ _ _ v); [done..|]. rewrite (open_member _ _ Hwf Hbad Hmask). rewrite decide_False by done. rewrite decide_True by done.
  assert (¬ k_current s ≠ t -> ¬ asleep v) as Hself by (intros Hc Ha; apply Hc, not_eq_sym; by eapply asleep_not_current).
  eapply wp_post; [exact HC|done|exact HF|done|done|].
  intros p h1 HC1 L1. wp_step. apply wp_yk_k, wp_current. destruct (decide (k_current s ≠ t)) as [Hc|Hc]; [|apply wp_ret; eapply (HQ1 (Hself Hc) 0 p h1); [by left|exact HC1|done]].
  apply wp_yk_k. set (F1 := <[_ := _]> F) in *. assert (on F1 t = on F t) as Eon by (unfold on, F1; rewrite mem_insert_ne; [done|apply not_eq_sym, Hpriv, elem_of_dom; by eexists]).
  eapply (wp_thread_wake Hroom s h1 m F1 X ∅ t v); [done|done|done|done|done|by rewrite Eon|apply empty_subseteq|lia|..].
  - intros Ha r h2 F2 Hr HC2 Em _. by eapply (HQ1 Ha r p h2 F2).
  - intros Ha q v' h2 F2 Hw HC2 Hmv Ho _ _. by eapply (HQ2 Ha q v' p h2 F2).
Qed.

(** ** The thread that takes a signal *)

(** In the first round sleeping and stopped threads, in the others those that
    are not and that handle no signal; the signal is not blocked. *)
Definition elig (pass signo : Z) v : bool :=
  bool_decide (t_state v ≠ T_TERMINATED ∧ t_state v ≠ T_ZOMBIE ∧ t_state v ≠ T_USLEEP) &&
  (let rest := bool_decide (t_state v = T_STOPPED) || bool_decide (t_state v = T_ISLEEP) in
   if decide (pass = 1) then rest else negb rest && negb (has (t_flags v) THREAD_HANDLING_SIG)) &&
  bool_decide (signo ∉ elems (t_sigmask v)).
Definition fits m (cur : ptr) (pass signo : Z) (x : ptr * ptr) : bool :=
  bool_decide (x.2 ≠ cur) && match m !! x.2 with Some v => elig pass signo v | None => false end.

Lemma zero_member (z n : Z) : wf_set z -> SIGBAD n = false -> bool_decide (sigismember (Some z) n = 0) = bool_decide (n ∉ elems z).
Proof. intros Hs Hb. rewrite member_spec, Hb by done. destruct (decide (n ∈ elems z)); [rewrite !bool_decide_eq_false_2 by naive_solver|rewrite !bool_decide_eq_true_2 by done]; done. Qed.

Lemma wp_select_body s h m F g l1 p t l2 v pass signo (Q : option (Z * ptr) -> sys -> Prop) :
  fam_ok h (<[g := (true, l1 ++ (p, t) :: l2)]> F) -> m !! t = Some v -> t ≠ NULL -> t_lock v = false -> t_tgrp_qn v = p -> wf_set (t_sigmask v) -> SIGBAD signo = false ->
  (fits m (k_current s) pass signo (p, t) = false -> Q None (kt s h m)) ->
  (fits m (k_current s) pass signo (p, t) = true -> ∀ h', fam_ok h' (<[g := (false, (l1 ++ l2) ++ [(p, t)])]> F) -> (load_of h' <= load_of h)%nat ->
     Q (Some (0, t)) (kt s h' (<[t := t_set_lock true v]> m))) ->
  wp (select_body pass g signo t) (kt s h m) Q.
Proof.
  intros HF Hv Htn Hl Hp Hwf Hb HQ1 HQ2. unfold fits in HQ1, HQ2. simpl in HQ1, HQ2. rewrite Hv in HQ1, HQ2. unfold select_body. wp_step. apply wp_current.
  destruct (decide (k_current s = t)) as [Hc|Hc]; [apply wp_ret, HQ1; rewrite (bool_decide_eq_false_2 (t ≠ k_current s)); [done|by intros Hx; apply Hx]|]. rewrite (bool_decide_eq_true_2 (t ≠ k_current s)) in HQ1, HQ2 by done. simpl in HQ1, HQ2.
  wp_step. apply (wp_tlock _ _ _ _ v); [done..|]. set (v1 := t_set_lock true v). assert (<[t := v1]> m !! t = Some v1) as Hv1 by (by rewrite lookup_insert_eq).
  assert (elig pass signo v = false -> wp (thread_unlock t;; mret None) (kt s h (<[t := v1]> m)) Q) as Hno.
  { intros E. wp_step. apply (wp_tunlock _ _ _ _ v1); [done..|]. rewrite insert_insert_eq, insert_id; [apply wp_ret; by apply HQ1|]. rewrite Hv. f_equal. destruct v; simpl in Hl; by subst. }
  unfold elig in Hno, HQ2. wp_step. unfold orM at 1. wp_step. apply (wp_isstate _ _ _ _ v1); [done..|]. change (t_state v1) with (t_state v).
  match goal with |- wp _ _ ?R => assert (∀ d : bool, d = bool_decide (t_state v = T_TERMINATED) || (bool_decide (t_state v = T_ZOMBIE) || bool_decide (t_state v = T_USLEEP)) -> R d (kt s h (<[t := v1]> m))) as Hgo end.
  { intros d Ed. destruct d.
    { apply Hno. rewrite (bool_decide_eq_false_2 (t_state v ≠ T_TERMINATED ∧ _)); [done|]. symmetry in Ed. rewrite !orb_true_iff, !bool_decide_eq_true in Ed. tauto. }
    symmetry in Ed. rewrite !orb_false_iff, !bool_decide_eq_false in Ed. rewrite (bool_decide_eq_true_2 (t_state v ≠ T_TERMINATED ∧ _)) in Hno, HQ2 by tauto.
    wp_step. unfold orM. wp_step. apply (wp_isstate _ _ _ _ v1); [done..|]. change (t_state v1) with (t_state v).
    match goal with |- wp _ _ ?R => enough (R (bool_decide (t_state v = T_STOPPED) || bool_decide (t_state v = T_ISLEEP)) (kt s h (<[t := v1]> m))) as Hgo2 end.
    { destruct (bool_decide (t_state v = T_STOPPED)); [by apply wp_ret|]. by apply (wp_isstate _ _ _ _ v1). }
    set (rest := bool_decide (t_state v = T_STOPPED) || _) in *. wp_step.
    match goal with |- wp _ _ ?R => enough (R (if decide (pass = 1) then rest else negb rest && negb (has (t_flags v) THREAD_HANDLING_SIG)) (kt s h (<[t := v1]> m))) as Hgo3 end.
    { destruct (decide (pass = 1)); [by apply wp_ret|]. destruct rest; [by apply wp_ret|]. wp_step. apply (wp_isset _ _ _ _ v1); [done..|]. by apply wp_ret. }
    cbv zeta in Hno, HQ2. set (b := if decide (pass = 1) then rest else _) in *. wp_step. apply (wp_tload _ _ _ _ v1); [done..|]. change (t_sigmask v1) with (t_sigmask v). rewrite zero_member by done. simpl in Hno, HQ2.
    destruct (b && bool_decide (signo ∉ elems (t_sigmask v))); [|by apply Hno]. wp_step. unfold pick_thread. wp_step. apply (wp_tload _ _ _ _ v1); [done..|]. change (t_tgrp_qn v1) with (t_tgrp_qn v). rewrite Hp.
    wp_step. apply wp_kt_q. assert (queue_rep h g true (l1 ++ (p, t) :: l2)) as Hr by (apply HF; by map_norm).
    eapply wp_rellocate_node; [exact Hr|done|done|]. intros h1 _ Hr1 Hf1 Hd1. rewrite bool_decide_eq_false_2 by tauto. wp_step. apply wp_ret. wp_step. apply wp_kt_q.
    eapply wpf_unlock; [eapply fam_frame; [exact HF|exact Hf1|exact Hr1]|by map_norm|]. intros h2 HF2 L2. rewrite !insert_insert_eq in HF2. rewrite decide_True by done. apply wp_ret, wp_ret. apply HQ2; [done|done|].
    etrans; [exact L2|]. by eapply frame_same. }
  destruct (bool_decide (t_state v = T_TERMINATED)); [apply wp_ret; by apply (Hgo true)|]. unfold orM. wp_step. apply (wp_isstate _ _ _ _ v1); [done..|]. change (t_state v1) with (t_state v).
  destruct (bool_decide (t_state v = T_ZOMBIE)); [apply wp_ret; by apply (Hgo true)|]. apply (wp_isstate _ _ _ _ v1); [done..|]. by apply (Hgo (bool_decide (t_state v = T_USLEEP))).
Qed.

(** The choice: the first thread that fits in the first round, or else in the
    second; the third round finds no more. *)
Definition choose m (cur : ptr) (signo : Z) (xs : list (ptr * ptr)) : option (nat * (ptr * ptr)) :=
  match list_find (λ x, fits m cur 1 signo x) xs with
  | Some r => Some r
  | None => list_find (λ x, fits m cur 2 signo x) xs
  end.
Lemma choose_some m cur signo xs i x : choose m cur signo xs = Some (i, x) -> xs !! i = Some x ∧ ∃ pass v, m !! x.2 = Some v ∧ x.2 ≠ cur ∧ elig pass signo v = true.
Proof.
  intros H. assert (∃ pass, list_find (λ x, fits m cur pass signo x) xs = Some (i, x)) as [pass (Hi & Hx & _)%list_find_Some].
  { unfold choose in H. destruct (list_find _ xs) eqn:E; [exists 1; by simplify_eq|by exists 2]. }
  split; [done|]. exists pass. unfold fits in Hx. destruct (m !! x.2) as [v|]; [|by rewrite andb_false_r in Hx]. exists v. apply Is_true_eq_true, andb_true_iff in Hx as [Hn He]. by apply bool_decide_eq_true in Hn.
Qed.

(** The threads of a group know their nodes. *)
Definition group_ok m (xs : list (ptr * ptr)) : Prop :=
  ∀ p t, (p, t) ∈ xs -> t ≠ NULL ∧ ∃ v, m !! t = Some v ∧ t_lock v = false ∧ t_tgrp_qn v = p ∧ wf_set (t_sigmask v).

Lemma wp_select_loop s h m F g xs pass signo :
  fam_ok h (<[g := (true, xs)]> F) -> group_ok m xs -> SIGBAD signo = false ->
  ∀ n ys zs (Q : option (Z * ptr) -> sys -> Prop), zs ++ ys = xs -> (length ys <= n)%nat ->
  (list_find (λ x, fits m (k_current s) pass signo x) ys = None -> Q None (kt s h m)) ->
  (∀ i x v h', list_find (λ x, fits m (k_current s) pass signo x) ys = Some (i, x) -> m !! x.2 = Some v -> fam_ok h' (<[g := (false, (zs ++ delete i ys) ++ [x])]> F) ->
     (load_of h' <= load_of h)%nat -> Q (Some (0, x.2)) (kt s h' (<[x.2 := t_set_lock true v]> m))) ->
  wp (each_loop false n (hd_or NULL ys) (select_body pass g signo)) (kt s h m) Q.
Proof.
  intros HF HG Hb. induction n as [|n IH]; intros [|[p t] ys] zs Q E Hn HQ1 HQ2; simpl in Hn; try lia; try (apply wp_ret; by apply HQ1).
  assert (queue_rep h g true (zs ++ (p, t) :: ys)) as Hr by (apply HF; rewrite E; by map_norm). pose proof (queue_rep_node _ _ _ _ _ _ _ Hr) as (Hp & _ & _ & Hnode).
  destruct (HG p t) as (Htn & v & Hv & Hl & Hq & Hwf); [rewrite <- E; set_solver|]. cbn [each_loop hd_or fst]. rewrite decide_False by done.
  wp_step. apply wp_kt_q. eapply wp_nload; [done|exact Hnode|]. cbn [qn_data]. wp_step. rewrite <- E in HF. simpl in HQ1, HQ2. eapply wp_select_body; [exact HF|done|done|done|done|done|done|..].
  - intros Hf. rewrite Hf in HQ1, HQ2. wp_step. apply wp_kt_q. eapply wp_nload; [done|exact Hnode|]. cbn [qn_next]. eapply (IH ys (zs ++ [(p, t)])); [by rewrite <- app_assoc|lia|..].
    + intros Hno. apply HQ1. cbn. by rewrite Hno.
    + intros i x w h' Hx Hw HF' Hlo. eapply (HQ2 (S i)); [cbn; by rewrite Hx|done|by rewrite <- (app_assoc zs) in HF'|done].
  - intros Hf h' HF' Hlo. rewrite Hf in HQ1, HQ2. apply wp_ret. by eapply (HQ2 0%nat (p, t)).
Qed.

Lemma wp_select s h m F g xs signo (Q : Z * ptr -> sys -> Prop) :
  fam_ok h F -> F !! g = Some (false, xs) -> group_ok m xs -> SIGBAD signo = false ->
  (choose m (k_current s) signo xs = None -> ∀ h', fam_ok h' F -> (load_of h' <= load_of h)%nat -> Q (- ESRCH, NULL) (kt s h' m)) ->
  (∀ i x v h', choose m (k_current s) signo xs = Some (i, x) -> m !! x.2 = Some v -> fam_ok h' (<[g := (false, delete i xs ++ [x])]> F) -> (load_of h' <= load_of h)%nat ->
     Q (0, x.2) (kt s h' (<[x.2 := t_set_lock true v]> m))) ->
  wp (signal_select_thread g signo) (kt s h m) Q.
Proof.
  intros HF Hx HG Hb HQ1 HQ2. unfold choose in HQ1, HQ2. unfold signal_select_thread. wp_step. apply wp_kt_q. eapply wpf_lock; [exact HF|done|]. intros h1 HF1 L1.
  assert (queue_rep h1 g true xs) as Hr by (apply HF1; by map_norm). assert (∀ pass (R : option (Z * ptr) -> sys -> Prop),
    (list_find (λ x, fits m (k_current s) pass signo x) xs = None -> R None (kt s h1 m)) ->
    (∀ i x v h', list_find (λ x, fits m (k_current s) pass signo x) xs = Some (i, x) -> m !! x.2 = Some v -> fam_ok h' (<[g := (false, delete i xs ++ [x])]> F) ->
       (load_of h' <= load_of h)%nat -> R (Some (0, x.2)) (kt s h' (<[x.2 := t_set_lock true v]> m))) -> wp (queue_foreach g (select_body pass g signo)) (kt s h1 m) R) as Hpass.
  { intros pass R HR1 HR2. unfold queue_foreach. wp_step. apply wp_kt_q. eapply wpf_assert_locked; [exact HF1|by map_norm|]. wp_step. apply wp_kt_q. eapply wpf_head; [exact HF1|by map_norm|].
    wp_step. apply wp_kt_q. unfold walk_fuel. apply wp_gets. cbn [q_head]. eapply (wp_select_loop s h1 m F g xs pass signo HF1 HG Hb _ xs []); [done|by eapply queue_rep_fuel|done|].
    intros i x v h' H1 H2 H3 H4. eapply (HR2 i); [done|done|done|lia]. }
  wp_step. apply Hpass; [intros H1|by intros i x v h' H1 H2 H3 H4; apply wp_ret; eapply (HQ2 i); [rewrite H1|..]].
  rewrite H1 in HQ1, HQ2. wp_step. apply Hpass; [intros H2|intros i x v h' H2 H3 H4 H5; apply wp_ret; by eapply (HQ2 i)].
  wp_step. apply Hpass; [intros H3|intros i x v h' H3; exfalso; change (list_find (λ x, fits m (k_current s) 2 signo x) xs = Some (i, x)) in H3; congruence].
  wp_step. apply wp_kt_q. eapply wpf_unlock; [exact HF1|by map_norm|]. intros h2 HF2 L2. rewrite insert_insert_eq, insert_id in HF2 by done. apply wp_ret, HQ1; [done|done|lia].
Qed.

(** ** Permission *)

(** The process [cp] with the credentials [c] signals [p], which it has locked. *)
Record sender (y : psys) (p cp : ptr) (pv me : proc_t) (c w : cred_t) : Prop := {
  se_run : runs y cp;
  se_proc : p ≠ NULL ∧ y_procs y !! p = Some pv ∧ p_lock pv = true;
  se_me : cp ≠ NULL ∧ y_procs y !! cp = Some me ∧ (cp ≠ p -> p_lock me = false);
  se_cred : ∃ tv, k_threads (y_sys y) !! k_current (y_sys y) = Some tv ∧ t_cred tv ≠ NULL ∧ y_creds y !! t_cred tv = Some c ∧ c_lock c = false;
  se_other : p_cred pv ≠ NULL ∧ y_creds y !! p_cred pv = Some w ∧ c_lock w = false;
}.
Definition may_signal (p cp : ptr) (me : proc_t) (c w : cred_t) : Prop :=
  cp = p ∨ p_pid me = 0 ∨ (c_uid c = 0 ∨ c_euid c = 0 ∨ c_gid c = 0 ∨ c_egid c = 0) ∨
  (c_uid w = c_uid c ∨ c_gid w = c_gid c ∨ c_euid w = c_euid c ∨ c_egid w = c_egid c).
#[export] Instance may_signal_dec p cp me c w : Decision (may_signal p cp me c w).
Proof. unfold may_signal. apply _. Defined.

Lemma cred_relock y p (c : cred_t) (Q : unit -> psys -> Prop) :
  p ≠ NULL -> y_creds y !! p = Some c -> c_lock c = false -> Q tt y -> wp (obj_unlock cred_t p) (y_set_creds (<[p := c_set_lock true c]> (y_creds y)) y) Q.
Proof.
  intros Hn Hc Hl HQ. eapply wp_obj_unlock; [done|simpl; by rewrite lookup_insert_eq|done|]. simpl. rewrite insert_insert_eq.
  replace (c_set_lock false (c_set_lock true c)) with c by (destruct c; simpl in *; by subst). rewrite insert_id by done. by destruct y.
Qed.
Lemma wp_my_pid y p cp pv me c w (Q : Z -> psys -> Prop) : sender y p cp pv me c w -> cp ≠ p -> Q (p_pid me) y -> wp getpid y Q.
Proof.
  intros HS Hne HQ. destruct (se_me _ _ _ _ _ _ _ HS) as (Hn & Hm & Hl). assert (proc_at y cp me) as Hat by (split; auto). unfold getpid. wp_step. eapply wp_curproc; [apply HS|]. rewrite decide_False by done.
  wp_step. eapply wp_plock; [done|]. wp_step. eapply wp_pload; [done|apply locked_at|]. wp_step. eapply wp_punlock; [done|]. by apply wp_ret.
Qed.
Lemma wp_check_perm y p cp pv me c w (Q : Z * Z -> psys -> Prop) :
  sender y p cp pv me c w -> Q (if decide (may_signal p cp me c w) then (0, c_uid c) else (- EPERM, 0)) y -> wp (signal_check_perm p) y Q.
Proof.
  intros HS HQ. pose proof HS as [Hrun (Hp & Hpv & Hpl) _ (tv & Ht & Hcn & Hc & Hcl) (Hwn & Hw & Hwl)]. pose proof Hrun as (Hcur & _ & _). unfold signal_check_perm. rewrite decide_False by done.
  wp_step. eapply wp_obj_assert_locked; [done|exact Hpv|done|]. wp_step. apply wp_on_k, wp_gets. rewrite set_sys_id, decide_False by done.
  wp_step. apply wp_on_k. eapply wp_load; [done|exact Ht|]. rewrite set_sys_id. wp_step. eapply wp_obj_lock; [done|exact Hc|done|]. wp_step. eapply wp_load; [done|simpl; by rewrite lookup_insert_eq|].
  wp_step. eapply wp_curproc; [exact Hrun|]. wp_step. eapply cred_relock; [done..|]. cbv zeta. cbn [c_uid c_gid c_euid c_egid lk_put lockable_cred_t c_set_lock].
  destruct (decide (cp = p)) as [Hcp|Hcp]; [apply wp_ret; by rewrite decide_True in HQ by (by left)|]. wp_step. eapply wp_my_pid; [exact HS|done|].
  destruct (decide (p_pid me = 0 ∨ c_uid c = 0 ∨ c_euid c = 0 ∨ c_gid c = 0 ∨ c_egid c = 0)) as [Hz|Hz]; [apply wp_ret; rewrite decide_True in HQ by (unfold may_signal; tauto); done|].
  wp_step. eapply wp_pload; [done|exact Hpv|]. wp_step. eapply wp_obj_lock; [done|exact Hw|done|]. wp_step. eapply wp_load; [done|simpl; by rewrite lookup_insert_eq|].
  wp_step. eapply cred_relock; [done..|]. cbn [c_uid c_gid c_euid c_egid lk_put lockable_cred_t c_set_lock].
  destruct (decide (c_uid w = c_uid c ∨ c_gid w = c_gid c ∨ c_euid w = c_euid c ∨ c_egid w = c_egid c)) as [Hm|Hm]; apply wp_ret;
    [rewrite decide_True in HQ by (unfold may_signal; tauto)|rewrite decide_False in HQ by (unfold may_signal; tauto)]; done.
Qed.
(** [signal_check_perm] lets a process signal another exactly when it is the
    same process, a process without number, has user or group 0 (real or
    effective), or one of its four identities is that of the other; it returns
    the user of the sender or -EPERM and changes nothing. *)
Theorem signal_check_perm_correct y p cp pv me c w :
  sender y p cp pv me c w -> signal_check_perm p y = Ok (if decide (may_signal p cp me c w) then (0, c_uid c) else (- EPERM, 0)) y.
Proof.
  intros HS. pose proof (wp_check_perm y p cp pv me c w (λ r y', r = (if decide (may_signal p cp me c w) then (0, c_uid c) else (- EPERM, 0)) ∧ y' = y) HS (conj eq_refl eq_refl)) as Hw.
  unfold wp in Hw. destruct (signal_check_perm p y); [by destruct Hw as [-> ->]|done].
Qed.

(** ** From the sender to the thread *)

(** A queue of threads is put in another order. *)
Lemma core_perm s h h' m F X g lk xs xs' :
  core s h m F X ∅ -> g ∈ Qs -> F !! g = Some (lk, xs) -> xs' ≡ₚ xs -> fam_ok h' (<[g := (lk, xs')]> F) -> core s h' m (<[g := (lk, xs')]> F) X ∅.
Proof.
  intros HC Hg Hx Hp HF. pose proof (co_agree _ _ _ _ _ _ HC) as HA. destruct HC as [_ _ H1 H2 _ H4 H5 H6]. set (F' := <[g := (lk, xs')]> F).
  assert (∀ t, t ∈ dom m -> g ≠ t_queues t) as Hn by (intros t Ht; by apply (ag_name _ _ _ HA)).
  assert (∀ t, t ∈ dom m -> mem F' (t_queues t) = mem F (t_queues t)) as E3 by (intros t Ht; apply mem_insert_ne, not_eq_sym; by apply Hn).
  assert (∀ q, mem F' q ≡ₚ mem F q) as E2. { intros q. unfold F'. destruct (decide (q = g)) as [->|Hne]; [rewrite mem_insert, (mem_some _ _ _ _ Hx), Hp; done|by rewrite mem_insert_ne]. }
  assert (∀ q, lkd F' q = lkd F q) as E1. { intros q. unfold lkd, F'. destruct (decide (q = g)) as [->|Hne]; [by rewrite lookup_insert_eq, Hx|by rewrite lookup_insert_ne]. }
  split; try done.
  - destruct HA. split; try done.
    + intros q Hq. destruct (ag_queue q Hq) as [x Ex]. unfold F'. apply lookup_insert_is_Some'. right. by eexists.
    + intros t Ht. unfold F'. rewrite lookup_insert_ne by (by apply Hn). auto.
    + intros q. rewrite E2. auto.
    + intros q t Hq. rewrite E2. eauto.
    + intros q t Ht. rewrite E3 by done. eauto.
    + intros q t Hq Ht. rewrite E2, E3 by done. auto.
  - intros q Hq Hu. rewrite E1. by apply H2.
  - intros t v Hv Hx'. destruct (H6 t v Hv Hx') as (G1 & G2 & G3). split; [done|]. split; [done|]. unfold on. rewrite E3; [done|]. apply elem_of_dom. by eexists.
Qed.
Lemma core_tick s h m F X : core s h m F X ∅ -> core (k_tick s) h m F X ∅.
Proof. by apply core_sys. Qed.

(** The process [p] that is signalled, with its threads [xs]. *)
Record target (y : psys) (F : fam) (p : ptr) (pv : proc_t) (xs : list (ptr * ptr)) : Prop := {
  ta_core : core (y_sys y) (ds y) (k_threads (y_sys y)) F ∅ ∅;
  ta_group : p_threads pv ∈ Qs ∧ F !! p_threads pv = Some (false, xs);
  ta_known : group_ok (k_threads (y_sys y)) xs;
  ta_sigq x i : x ∈ xs -> 0 <= i < 32 -> private (k_threads (y_sys y)) (t_sigqueue x.2 i) ∧
    ∃ zs, F !! t_sigqueue x.2 i = Some (false, zs) ∧ ∀ a, a ∈ zs.*2 -> a ∈ dom (y_infos y);
}.

(** The second part of [signal_send]. *)
Lemma wp_signal_queue y F p pv xs signo info si i x v (Q : Z -> psys -> Prop) :
  target y F p pv xs -> p ≠ NULL -> y_procs y !! p = Some pv -> SIGBAD signo = false -> si_signo si = signo -> info ≠ NULL -> y_infos y !! info = Some si ->
  info ∉ mem F (t_sigqueue x.2 (signo - 1)) -> (S (load_of (ds y)) <= N)%nat ->
  choose (k_threads (y_sys y)) (k_current (y_sys y)) signo xs = Some (i, x) -> k_threads (y_sys y) !! x.2 = Some v -> t_state v = T_ISLEEP ->
  (∀ q v' h' F', woken (k_cpus (y_sys y)) v v' q -> core (y_sys y) h' (<[x.2 := t_set_lock false v']> (k_threads (y_sys y))) F' ∅ ∅ -> on F' x.2 = [q] ->
     mem F' (t_sigqueue x.2 (signo - 1)) = mem F (t_sigqueue x.2 (signo - 1)) ++ [info] -> Q 0 (yk y (y_sys y) h' (<[x.2 := t_set_lock false v']> (k_threads (y_sys y))))) ->
  wp (signal_queue p signo info) y Q.
Proof.
  intros HT Hp Hpv Hb Hsi Hin Hinfo Hfresh HN Hch Hv Hst HQ. pose proof HT as [HC [Hg Hx] HG Hsq]. pose proof Hb as Hb'%sigbad_spec. set (s := y_sys y) in *. set (m := k_threads s) in *. change (ds y) with (k_ds s) in *.
  destruct (choose_some _ _ _ _ _ _ Hch) as (Hi & pass & v0 & Hv0 & Hne & He). assert (v0 = v) as -> by congruence. apply list_elem_of_lookup_2 in Hi as Hxin.
  destruct (Hsq x (signo - 1) Hxin) as (Hpriv & zs & Hzs & _); [lia|]. assert (x.2 ∈ dom m) as Hdom by (apply elem_of_dom; by eexists).
  destruct x as [px t]. simpl in *. destruct (HG px t Hxin) as (Htn & v1 & Hv1 & Hl & Hq & Hwf). assert (v1 = v) as -> by congruence.
  destruct (co_thread _ _ _ _ _ _ HC t v Hv (not_elem_of_empty _)) as (_ & Hgood & Hpl). rewrite (mem_some _ _ _ _ Hzs) in *.
  unfold signal_queue. wp_step. eapply wp_pload; [done|exact Hpv|]. wp_step. apply wp_on_k. rewrite <- (kt_id (y_sys y)) at 1. fold s. fold m.
  eapply (wp_select s _ m F _ xs signo); [apply HC|exact Hx|exact HG|done|intros Hno; fold m in Hno; congruence|].
  intros i' x' v' h' Hch' Hv' HF' Hlo. assert (i' = i ∧ x' = (px, t)) as [-> ->] by (split; congruence). simpl in *. assert (v' = v) as -> by congruence.
  wp_step. apply wp_assert; [done|]. set (w := t_set_lock true v). set (F1 := <[p_threads pv := _]> F) in HF'.
  assert (core s h' (<[t := w]> m) F1 {[t]} ∅) as HC1.
  { unfold F1. eapply core_perm; [rewrite <- (union_empty_l_L {[t]}); by eapply core_set|done|exact Hx| |done]. symmetry. etrans; [apply delete_Permutation; exact Hi|]. by rewrite Permutation_app_comm. }
  assert (t_sigqueue t (signo - 1) ≠ p_threads pv) as Hng by (intros E; destruct Hpriv as [Hpriv _]; apply Hpriv; by rewrite E).
  assert (∀ q, mem F1 (t_queues q) = mem F (t_queues q) ∨ p_threads pv = t_queues q) as Hmem. { intros q. destruct (decide (p_threads pv = t_queues q)); [by right|left]. unfold F1. apply mem_insert_ne. congruence. }
  assert (on F1 t = on F t) as Eon. { unfold on. destruct (Hmem t) as [->|E]; [done|]. exfalso. by apply (ag_name _ _ _ (co_agree _ _ _ _ _ _ HC) (p_threads pv) t). }
  assert (place (k_cpus s) (k_current s) t w (on F1 t)) as Hpl' by (by rewrite Eon). assert (asleep w) as Hasl by (by left).
  unfold elig in He. rewrite !andb_true_iff, !bool_decide_eq_true in He. destruct He as [_ Hopen].
  wp_step. eapply (wp_sigqueue y s h' (<[t := w]> m) F1 {[t]} t w info si zs); [exact HC1|by apply elem_of_singleton|by rewrite lookup_insert_eq|done|by apply good_put_lock|done| |done|exact Hinfo|by rewrite Hsi| |done|by rewrite Hsi|..];
    [by change (t_state v ≠ T_ZOMBIE); rewrite Hst|by intros E; change (t_state v = T_STOPPED) in E; rewrite Hst in E| |rewrite Hsi; unfold F1; by rewrite lookup_insert_ne|done|lia|done|].
  { rewrite Hsi. destruct Hpriv as [P1 P2]. split; [done|]. intros t' Ht'. apply P2. by rewrite dom_insert_L, (subseteq_union_1_L {[t]}) in Ht' by set_solver. }
  intros _ q v' p' h2 F2 Hw HC2 Ho2 Hmv. rewrite insert_insert_eq in HC2 |- *. rewrite Hsi in Hmv.
  wp_step. apply wp_yk_k. apply (wp_tunlock _ _ _ _ v'); [done|by rewrite lookup_insert_eq|apply Hw|]. rewrite insert_insert_eq.
  wp_step. apply wp_ret. apply wp_ret.
  pose proof (co_lay _ _ _ _ _ _ HC) as HL. assert (t_sleep_queue v ∈ SQ) as Hsleep by (unfold place in Hpl; rewrite Hst in Hpl; tauto).
  assert (q ∈ LQ) as Hlq by (eapply run_queue_LQ; [exact HL|apply Hw]). destruct Hpriv as [P1 P2]. apply (HQ q v' h2 F2); [by destruct Hw; split| |done|].
  - rewrite <- (insert_insert_eq m t _ v'). eapply core_unlock_thread; [by rewrite union_empty_l_L|by rewrite lookup_insert_eq|apply Hw|].
    eapply place_woken; [exact Hw|done|by right|done].
  - rewrite (mv_else _ _ _ _ _ Hmv); [by rewrite mem_insert, fmap_app|..].
    + intros E. apply P1. rewrite E. by apply (ly_sleep _ _ _ _ HL).
    + intros E. apply P1. rewrite E. by apply (ly_level _ _ _ _ HL).
    + by apply P2.
Qed.

(** A new signal in memory. *)
Definition posted (y : psys) (info : ptr) (si : siginfo_t) : psys := y_set_infos (<[info := si]> (y_infos y)) (y_set_sys (k_tick (y_sys y)) y).
Lemma posted_sender y p cp pv me c w info si : sender y p cp pv me c w -> sender (posted y info si) p cp pv me c w.
Proof. by intros []. Qed.
Lemma posted_target y F p pv xs info si : target y F p pv xs -> target (posted y info si) F p pv xs.
Proof.
  intros [HC Hg HG Hs]. split; [by apply (core_tick (y_sys y))|done|done|]. intros x i Hx Hi. destruct (Hs x i Hx Hi) as (H1 & zs & H2 & H3). split; [done|]. exists zs. split; [done|].
  intros a Ha. simpl. rewrite dom_insert_L. apply elem_of_union_r. auto.
Qed.

(** C8. A signal sent by a process that may send it, to a process one of whose
    threads the choice of [signal_select_thread] falls on while it sleeps:
    [signal_send] returns 0, a new description of the signal (number, sender,
    user) is the last one on the queue of that signal of the thread, the thread
    is ready on the run queue of its priority on its processor, and every other
    thread is where the scheduler has it; the group and the locks are as they
    were. *)
Theorem signal_send_wakes y F p cp pv me c w xs signo i x v :
  sender y p cp pv me c w -> target y F p pv xs -> may_signal p cp me c w -> SIGBAD signo = false ->
  choose (k_threads (y_sys y)) (k_current (y_sys y)) signo xs = Some (i, x) -> k_threads (y_sys y) !! x.2 = Some v -> t_state v = T_ISLEEP ->
  (size (kh_live y) < N)%nat -> (S (load_of (ds y)) <= N)%nat ->
  ∃ info v' q h' F',
    let si := Siginfo signo 0 (p_pid me) (c_uid c) NULL 0 signo in let m' := <[x.2 := v']> (k_threads (y_sys y)) in
    signal_send p signo y = Ok 0 (yk (posted y info si) (k_tick (y_sys y)) h' m') ∧ info ∉ kh_live y ∧
    core (k_tick (y_sys y)) h' m' F' ∅ ∅ ∧ t_state v' = T_READY ∧ run_queue (k_cpus (y_sys y)) (ts_processor v') (ts_priority v') = Some q ∧ on F' x.2 = [q] ∧
    mem F' (t_sigqueue x.2 (signo - 1)) = mem F (t_sigqueue x.2 (signo - 1)) ++ [info].
Proof.
  intros HS HT Hmay Hb Hch Hv Hst HN1 HN2. set (si := Siginfo signo 0 (p_pid me) (c_uid c) NULL 0 signo). pose proof Hb as Hb'%sigbad_spec.
  enough (wp (signal_send p signo) y (λ r y', ∃ info v' q h' F', r = 0 ∧ y' = yk (posted y info si) (k_tick (y_sys y)) h' (<[x.2 := v']> (k_threads (y_sys y))) ∧ info ∉ kh_live y ∧
    core (k_tick (y_sys y)) h' (<[x.2 := v']> (k_threads (y_sys y))) F' ∅ ∅ ∧ t_state v' = T_READY ∧ run_queue (k_cpus (y_sys y)) (ts_processor v') (ts_priority v') = Some q ∧ on F' x.2 = [q] ∧
    mem F' (t_sigqueue x.2 (signo - 1)) = mem F (t_sigqueue x.2 (signo - 1)) ++ [info])) as Hw.
  { unfold wp in Hw. destruct (signal_send p signo y); [|done]. destruct Hw as (info & v' & q & h' & F' & -> & -> & Hw). by exists info, v', q, h', F'. }
  destruct (se_proc _ _ _ _ _ _ _ HS) as (Hp & Hpv & Hpl). destruct (se_me _ _ _ _ _ _ _ HS) as (Hcp & Hme & _).
  unfold signal_send, NSIG. rewrite decide_False by lia. wp_step. eapply wp_obj_assert_locked; [done|exact Hpv|done|]. wp_step. eapply wp_check_perm; [exact HS|]. rewrite (decide_True (P := may_signal _ _ _ _ _)) by done.
  rewrite decide_False by tauto. rewrite decide_False by lia. wp_step. apply wp_kmalloc_why; [intros Hno; apply Hroom in Hno; lia|]. intros info Hinfo Hfr. pose proof (valid_ptr_nonnull _ Hinfo) as Hin. rewrite decide_False by done.
  set (s0 := Siginfo 0 0 0 0 NULL 0 0). change (hl_put (<[info := s0]> (hl_get (kh_tick y))) (kh_tick y)) with (posted y info s0).
  wp_step. eapply wp_curproc; [apply (posted_sender _ _ _ _ _ _ _ info s0 HS)|]. wp_step.
  match goal with |- wp _ _ ?R => enough (R (p_pid me) (posted y info s0)) as Hpid end.
  { destruct (decide (p ≠ cp)) as [Hne|Hne]; [eapply wp_my_pid; [by apply posted_sender|congruence|done]|]. wp_step. eapply wp_pload; [done|exact Hme|]. by apply wp_ret. }
  wp_step. eapply wp_update; [done|simpl; by rewrite lookup_insert_eq|].
  match goal with |- wp _ ?st _ => replace st with (posted y info si) by (unfold posted; simpl; by rewrite insert_insert_eq) end.
  eapply (wp_signal_queue (posted y info si) F p pv xs signo info si i x v); [by apply posted_target|done|done|done|done|done|simpl; by rewrite lookup_insert_eq| |done|done|done|done|].
  - destruct (choose_some _ _ _ _ _ _ Hch) as (Hi & _). apply list_elem_of_lookup_2 in Hi. destruct (ta_sigq _ _ _ _ _ HT x (signo - 1) Hi) as (_ & zs & Hz & Hlive); [lia|].
    rewrite (mem_some _ _ _ _ Hz). intros Ha%Hlive. apply Hfr. unfold kh_live; simpl. apply elem_of_union_l, elem_of_union_l, elem_of_union_r. exact Ha.
  - intros q v' h' F' Hw HC' Ho Hm. exists info, (t_set_lock false v'), q, h', F'. destruct Hw. done.
Qed.
End deliver.
