(* ===== verification/SignalPend.v ===== *)
(** * The pending signals of a thread

    A thread that posts signals to itself, takes them and changes its mask:
    every sequence of these calls behaves as one queue per signal and a set of
    blocked signals. *)

From stdpp Require Import functions.
From S2P Require Import Prelude Dll Heap Queue Lock Vfs Sched SchedSpec SchedInv SchedEx Tgroup Proc ProcProps Signal SignalProps.

Variant sig_op := Post (info : ptr) | Take | Mask (how : Z) (set : option Z).

(** ** The specification *)

Abbreviation pending := (Z -> list ptr).
Definition spec_mask (how : Z) (B X : gset Z) : option (gset Z) :=
  if decide (how = SIG_BLOCK) then Some (B ∪ X) else if decide (how = SIG_UNBLOCK) then Some (B ∖ X) else if decide (how = SIG_SETMASK) then Some X else None.
(** The result, the queues and the blocked signals after a call; [num] is the
    number of a signal. *)
Definition spec_op (num : ptr -> Z) (o : sig_op) (P : pending) (B : gset Z) : Z * ptr * pending * gset Z :=
  match o with
  | Post info =>
      let n := num info in
      if SIGBAD n then (- EINVAL, NULL, P, B)
      else if decide (n ∈ B ∨ info ∈ P n) then (0, NULL, P, B) else (0, NULL, <[n := P n ++ [info]]> P, B)
  | Take =>
      match list_find (λ n, P n ≠ []) sigs with
      | None => (- ENOENT, NULL, P, B)
      | Some (_, n) => if decide (n ∈ B) then (- EINVAL, NULL, P, B) else (0, hd NULL (P n), <[n := tl (P n)]> P, B ∪ {[n]})
      end
  | Mask how None => (0, NULL, P, B)
  | Mask how (Some set) =>
      if decide (SIGKILL ∈ elems set ∨ SIGSTOP ∈ elems set) then (- EINVAL, NULL, P, B) else
      match spec_mask how B (elems set) with Some B' => (0, NULL, P, B') | None => (- EINVAL, NULL, P, B) end
  end.
Fixpoint spec_ops (num : ptr -> Z) (ops : list sig_op) (P : pending) (B : gset Z) : list (Z * ptr) * pending * gset Z :=
  match ops with
  | [] => ([], P, B)
  | o :: ops => let '(e, i, P, B) := spec_op num o P B in let '(rs, P, B) := spec_ops num ops P B in ((e, i) :: rs, P, B)
  end.

Section pend.
Context {KM : Kmalloc} {MC : Machine} {PQ : ProcQueues} {N : nat} (Hroom : ∀ n D, km_choose n D = None -> (N <= size D)%nat).
Implicit Types (y : psys) (F : fam) (t : ptr) (v : thread_t) (P : pending) (B : gset Z).

Definition sig_run (t : ptr) (o : sig_op) : M psys (Z * ptr) :=
  match o with
  | Post info => e ← thread_sigqueue t info; mret (e, NULL)
  | Take => thread_sigdequeue t true
  | Mask how set => r ← thread_sigmask t how set false; mret (r.1, NULL)
  end.
Fixpoint sig_runs (t : ptr) (ops : list sig_op) : M psys (list (Z * ptr)) :=
  match ops with
  | [] => mret []
  | o :: ops => r ← sig_run t o; rs ← sig_runs t ops; mret (r :: rs)
  end.

(** The running thread, locked, with its queues and its mask. *)
Definition queues_of F t P : Prop := ∀ n, n ∈ sigs -> ∃ xs, F !! t_sigqueue t (n - 1) = Some (false, xs) ∧ xs.*2 = P n.
Record holds s h (m : gmap ptr thread_t) F t v P B : Prop := {
  ho_fam : fam_ok h F;
  ho_cur : k_current s = t;
  ho_thread : m !! t = Some v ∧ t ≠ NULL ∧ t_lock v = true;
  ho_state : t_state v ≠ T_ZOMBIE ∧ t_state v ≠ T_TERMINATED ∧ t_state v ≠ T_STOPPED;
  ho_mask : wf_set (t_sigmask v) ∧ elems (t_sigmask v) = B;
  ho_queues : queues_of F t P;
}.

Lemma in_sigs n : n ∈ sigs <-> 1 <= n <= 32.
Proof. unfold sigs, NSIG. rewrite elem_of_seqZ. lia. Qed.
Lemma sigqueue_inj t i j : t_sigqueue t i = t_sigqueue t j -> i = j.
Proof. unfold t_sigqueue, member, two64. lia. Qed.
Lemma queues_same F F' t P : queues_of F t P -> (∀ q, F' !! q = F !! q) -> queues_of F' t P.
Proof. intros H E n Hn. rewrite E. auto. Qed.
Lemma queues_put F t P n xs l : queues_of F t P -> n ∈ sigs -> xs.*2 = l -> queues_of (<[t_sigqueue t (n - 1) := (false, xs)]> F) t (<[n := l]> P).
Proof.
  intros H Hn Hx k Hk. destruct (decide (k = n)) as [->|Hne].
  - exists xs. by rewrite lookup_insert_eq, fn_lookup_insert.
  - rewrite lookup_insert_ne by (intros E%sigqueue_inj; lia). rewrite fn_lookup_insert_ne by done. auto.
Qed.

Lemma wp_self_post y s h m F t v P B info i (Q : Z * ptr -> psys -> Prop) :
  holds s h m F t v P B -> info ≠ NULL -> y_infos y !! info = Some i -> (S (load_of h) <= N)%nat ->
  (∀ h' F' e P' B', spec_op (λ _, si_signo i) (Post info) P B = (e, NULL, P', B') -> holds s h' m F' t v P' B' -> (load_of h' <= S (load_of h))%nat -> Q (e, NULL) (yk y s h' m)) ->
  wp (sig_run t (Post info)) (yk y s h m) Q.
Proof.
  intros HH Hin Hi HN HQ. pose proof HH as [HF Hc (Hv & Htn & Hl) (Hz & Ht & Hs) [Hwf HB] Hqs]. simpl in HQ. set (n := si_signo i) in *. cbn [sig_run]. wp_step. unfold thread_sigqueue. rewrite decide_False by done.
  wp_step. eapply wp_load; [done|exact Hi|]. cbv zeta. fold n. destruct (SIGBAD n) eqn:Hb; [apply wp_ret, wp_ret; by eapply (HQ h F); eauto|].
  wp_step. apply wp_yk_k. apply (wp_tassert _ _ _ _ v); [done..|]. wp_step. apply wp_yk_k. unfold orM. wp_step. apply (wp_isstate _ _ _ _ v); [done..|]. rewrite bool_decide_eq_false_2 by done. apply (wp_isstate _ _ _ _ v); [done..|].
  rewrite bool_decide_eq_false_2 by done. wp_step. apply wp_yk_k. apply (wp_isstate _ _ _ _ v); [done..|]. rewrite (bool_decide_eq_false_2 (t_state v = T_STOPPED)) by done. cbn [andb].
  wp_step. apply wp_yk_k. apply (wp_tload _ _ _ _ v); [done..|]. rewrite member_spec, Hb, HB by done.
  destruct (decide (n ∈ B)) as [HnB|HnB]; [rewrite decide_True in HQ by auto; apply wp_ret, wp_ret; by eapply (HQ h F); eauto|]. rewrite decide_False by done. rewrite decide_True by done.
  assert (n ∈ sigs) as Hn by (by apply sigs_spec). destruct (Hqs n Hn) as (xs & Hx & Ex). set (q := t_sigqueue t (n - 1)) in *.
  wp_step. apply wp_yk_d. eapply wpf_lock; [exact HF|done|]. intros h1 HF1 L1. wp_step. apply wp_yk_d.
  assert (∀ (xs' : list (ptr * ptr)) h2, fam_ok h2 (<[q := (true, xs')]> F) -> (load_of h2 <= S (load_of h))%nat -> (xs'.*2 = P n ∧ info ∈ P n) ∨ (xs'.*2 = P n ++ [info] ∧ info ∉ P n) ->
    wp (on_d (queue_unlock q) ≫= λ _, cur ← on_k current; if decide (cur ≠ t) then on_k (thread_wake t) else mret 0) (yk y s h2 m) (λ e y', wp (mret (e, NULL)) y' Q)) as Hend.
  { intros xs' h2 HF2 L2 Hcase. wp_step. apply wp_yk_d. eapply wpf_unlock; [exact HF2|by map_norm|]. intros h3 HF3 L3. rewrite insert_insert_eq in HF3. wp_step. apply wp_yk_k, wp_current.
    rewrite decide_False by (intros Hx'; by apply Hx'). apply wp_ret, wp_ret. destruct Hcase as [[E1 E2]|[E1 E2]].
    - rewrite decide_True in HQ by auto. eapply (HQ h3); [done| |lia]. split; try done. intros k Hk. destruct (decide (k = n)) as [->|Hne]; [exists xs'; by rewrite lookup_insert_eq|].
      rewrite lookup_insert_ne by (intros E%sigqueue_inj; lia). auto.
    - rewrite decide_False in HQ by tauto. eapply (HQ h3); [done| |lia]. split; try done. by apply queues_put. }
  eapply (wpf_enqueue Hroom); [exact HF1|by map_norm|..].
  - intros Hx'. apply (Hend xs); [done|lia|]. left. by rewrite <- Ex.
  - intros; lia.
  - intros p h2 Hx' HF2 L2. rewrite insert_insert_eq in HF2. apply (Hend (xs ++ [(p, info)])); [done|lia|]. right. by rewrite fmap_app, <- Ex.
Qed.

Lemma addset_ok z n : wf_set z -> n ∈ sigs -> wf_set (addset z n) ∧ elems (addset z n) = elems z ∪ {[n]}.
Proof.
  intros Hz Hn. apply sigs_spec in Hn. unfold addset, sigaddset. rewrite Hn. simpl. apply sigbad_spec, sigbit_wf in Hn as [H1 H2]. destruct (lor_wf z _ Hz H1) as [H3 H4]. by rewrite H4, H2.
Qed.
Lemma wp_take_loop y s m F t v P B (Q : Z * ptr -> psys -> Prop) L :
  (∀ h', holds s h' m F t v P B -> (load_of h' <= L)%nat -> ∀ e i, spec_op (λ _, 0) Take P B = (e, i, P, B) -> Q (e, i) (yk y s h' m)) ->
  (∀ h' F' v' e i P' B', holds s h' (<[t := v']> m) F' t v' P' B' -> (load_of h' <= L)%nat -> spec_op (λ _, 0) Take P B = (e, i, P', B') -> Q (e, i) (yk y s h' (<[t := v']> m))) ->
  ∀ l1 l h, (λ i, i + 1) <$> (l1 ++ l) = sigs -> Forall (λ i, P (i + 1) = []) l1 -> holds s h m F t v P B -> (load_of h <= L)%nat -> wp (sigdequeue_loop l t) (yk y s h m) Q.
Proof.
  intros HQ1 HQ2 l1 l. revert l1. induction l as [|i l IH]; intros l1 h E Hl1 HH HL; pose proof HH as [HF Hc (Hv & Htn & Hl) Hst [Hwf HB] Hqs]; cbn [spec_op] in HQ1, HQ2.
  { simpl. apply wp_ret. assert (list_find (λ n, P n ≠ []) sigs = None) as Hno; [|rewrite Hno in HQ1; by eapply HQ1].
    apply list_find_None. rewrite <- E, app_nil_r, Forall_fmap. eapply Forall_impl; [exact Hl1|]. intros x Hx Hne. by apply Hne. }
  set (n := i + 1). assert (n ∈ sigs) as Hn by (rewrite <- E, fmap_app; unfold n; set_solver). destruct (Hqs n Hn) as (xs & Hx & Ex). replace (n - 1) with i in Hx by lia.
  cbn [sigdequeue_loop]. wp_step. apply wp_yk_d. eapply wpf_lock; [exact HF|done|]. intros h1 HF1 L1. wp_step. apply wp_yk_d. eapply wpf_count; [exact HF1|by map_norm|].
  assert (∀ h2, fam_ok h2 (<[t_sigqueue t i := (false, xs)]> (<[t_sigqueue t i := (true, xs)]> F)) -> holds s h2 m F t v P B) as Hback by (intros h2; rewrite insert_insert_eq, insert_id by done; by split).
  destruct (decide (Z.of_nat (length xs) ≠ 0)) as [Hlen|Hlen].
  2:{ wp_step. apply wp_yk_d. eapply wpf_unlock; [exact HF1|by map_norm|]. intros h2 HF2 L2. apply (IH (l1 ++ [i])); [by rewrite <- app_assoc| |by apply Hback|lia].
      apply Forall_app. split; [done|]. constructor; [|done]. fold n. rewrite <- Ex. destruct xs; [done|simpl in Hlen; lia]. }
  assert (list_find (λ n, P n ≠ []) sigs = Some (length l1, n)) as Hfind.
  { apply list_find_Some. rewrite <- E, fmap_app. split; [rewrite lookup_app_r by (by rewrite length_fmap); by rewrite length_fmap, Nat.sub_diag|]. split; [rewrite <- Ex; by destruct xs|].
    intros j z Hj Hjl Hz. rewrite lookup_app_l in Hj by (by rewrite length_fmap). apply list_lookup_fmap_Some in Hj as (k & -> & Hk). rewrite Forall_forall in Hl1. apply Hz, Hl1. by eapply list_elem_of_lookup_2. }
  rewrite Hfind in HQ1, HQ2. wp_step. apply wp_yk_k. apply (wp_tload _ _ _ _ v); [done..|]. rewrite member_spec by done. fold n. apply sigs_spec in Hn as Hb. rewrite Hb, HB.
  destruct (decide (n ∈ B)) as [HnB|HnB].
  { rewrite decide_True by done. wp_step. apply wp_yk_d. eapply wpf_unlock; [exact HF1|by map_norm|]. intros h2 HF2 L2. apply wp_ret. eapply (HQ1 h2); [by apply Hback|lia|done]. }
  rewrite decide_False by done. wp_step. unfold sigdequeue_pending. wp_step. apply wp_assert; [done|]. wp_step. apply wp_yk_d. eapply wpf_assert_locked; [exact HF1|by map_norm|]. wp_step. apply wp_yk_d.
  eapply (wpf_dequeue _ _ _ xs); [exact HF1|by map_norm|intros ->; simpl in Hlen; lia|]. intros p d ys h2 -> HF2 L2. rewrite insert_insert_eq in HF2. apply wp_ret. cbn [default].
  wp_step. apply wp_yk_d. eapply wpf_unlock; [exact HF2|by map_norm|]. intros h3 HF3 L3. rewrite insert_insert_eq in HF3. wp_step. apply wp_yk_k. apply (wp_tupd _ _ _ _ v); [done..|]. apply wp_ret.
  destruct (addset_ok _ _ Hwf Hn) as [Hw' He']. eapply (HQ2 h3 _ (t_set_sigmask (addset (t_sigmask v) n) v)); [|lia|rewrite <- Ex; done].
  split; [exact HF3|done|by rewrite lookup_insert_eq|done|by rewrite <- HB|]. replace i with (n - 1) by lia. by apply queues_put.
Qed.
Lemma wp_self_take y s h m F t v P B (Q : Z * ptr -> psys -> Prop) :
  holds s h m F t v P B ->
  (∀ h' m' F' v' e i P' B', spec_op (λ _, 0) Take P B = (e, i, P', B') -> holds s h' m' F' t v' P' B' -> (load_of h' <= load_of h)%nat -> Q (e, i) (yk y s h' m')) ->
  wp (sig_run t Take) (yk y s h m) Q.
Proof.
  intros HH HQ. pose proof HH as [HF Hc (Hv & Htn & Hl) _ _ _]. cbn [sig_run]. unfold thread_sigdequeue. rewrite decide_False by naive_solver. wp_step. apply wp_yk_k. apply (wp_tassert _ _ _ _ v); [done..|].
  refine (wp_take_loop y s m F t v P B Q (load_of h) _ _ [] (seqZ 0 NSIG) h _ _ HH _); [..|done|constructor|done].
  - intros h' HH' L e i HS. by apply (HQ h' m F v e i P B).
  - intros h' F' v' e i P' B' HH' L HS. by apply (HQ h' (<[t := v']> m) F' v' e i P' B').
Qed.

Lemma mask_how_spec how z set : wf_set z -> wf_set set ->
  match mask_how how z set with Some m => wf_set m ∧ spec_mask how (elems z) (elems set) = Some (elems m) | None => spec_mask how (elems z) (elems set) = None end.
Proof.
  intros Hz Hs. unfold mask_how, spec_mask. destruct (lor_wf z set Hz Hs) as [? E1], (land_not_wf z set Hz Hs) as [? E2]. repeat case_decide; rewrite ?E1, ?E2; done.
Qed.
Lemma unmaskable_spec z : wf_set z -> unmaskable z = bool_decide (SIGKILL ∈ elems z ∨ SIGSTOP ∈ elems z).
Proof.
  intros Hz. unfold unmaskable. rewrite !member_spec by done. change (SIGBAD SIGKILL) with false. change (SIGBAD SIGSTOP) with false. cbv iota.
  destruct (decide (SIGKILL ∈ elems z)) as [H1|H1]; [by rewrite (bool_decide_eq_true_2 (_ ∨ _)) by auto|]. destruct (decide (SIGSTOP ∈ elems z)) as [H2|H2]; [by rewrite (bool_decide_eq_true_2 (_ ∨ _)) by auto|].
  by rewrite (bool_decide_eq_false_2 (_ ∨ _)) by tauto.
Qed.
Lemma wp_self_mask y s h m F t v P B how set (Q : Z * ptr -> psys -> Prop) :
  holds s h m F t v P B -> (∀ z, set = Some z -> wf_set z) ->
  (∀ m' v' e P' B', spec_op (λ _, 0) (Mask how set) P B = (e, NULL, P', B') -> holds s h m' F t v' P' B' -> Q (e, NULL) (yk y s h m')) ->
  wp (sig_run t (Mask how set)) (yk y s h m) Q.
Proof.
  intros HH Hset HQ. pose proof HH as [HF Hc (Hv & Htn & Hl) Hst [Hwf HB] Hqs]. cbn [spec_op] in HQ. cbn [sig_run]. wp_step. unfold thread_sigmask. wp_step. apply wp_yk_k. apply (wp_tassert _ _ _ _ v); [done..|].
  wp_step. apply wp_yk_k. apply (wp_tload _ _ _ _ v); [done..|]. cbv zeta. destruct set as [z|]; [|apply wp_ret, wp_ret; by eapply (HQ m v)].
  specialize (Hset z eq_refl). rewrite unmaskable_spec by done. destruct (decide (SIGKILL ∈ elems z ∨ SIGSTOP ∈ elems z)) as [Hk|Hk].
  { rewrite bool_decide_eq_true_2 by done. apply wp_ret, wp_ret. by eapply (HQ m v). }
  rewrite bool_decide_eq_false_2 by done. pose proof (mask_how_spec how _ _ Hwf Hset) as Hmh. rewrite HB in Hmh. destruct (mask_how how (t_sigmask v) z) as [z'|].
  - destruct Hmh as [Hw Es]. rewrite Es in HQ. wp_step. apply wp_yk_k. apply (wp_tupd _ _ _ _ v); [done..|]. apply wp_ret, wp_ret. eapply (HQ _ (t_set_sigmask z' v)); [done|]. split; [done|done|by rewrite lookup_insert_eq|done|done|done].
  - rewrite Hmh in HQ. apply wp_ret, wp_ret. by eapply (HQ m v).
Qed.

(** The signals that are posted exist, and new masks are sets. *)
Definition op_ok (y : psys) (o : sig_op) : Prop :=
  match o with
  | Post info => info ≠ NULL ∧ is_Some (y_infos y !! info)
  | Take | Mask _ None => True
  | Mask _ (Some set) => wf_set set
  end.
Definition number (y : psys) (info : ptr) : Z := default 0 (si_signo <$> y_infos y !! info).

Lemma wp_sig_runs y s t ops : ∀ h m F v P B (Q : list (Z * ptr) -> psys -> Prop),
  holds s h m F t v P B -> Forall (op_ok y) ops -> (load_of h + length ops <= N)%nat ->
  (∀ rs h' m' F' v' P' B', spec_ops (number y) ops P B = (rs, P', B') -> holds s h' m' F' t v' P' B' -> Q rs (yk y s h' m')) -> wp (sig_runs t ops) (yk y s h m) Q.
Proof.
  induction ops as [|o ops IH]; intros h m F v P B Q HH Hops HN HQ; [apply wp_ret; by eapply (HQ [])|]. apply Forall_cons in Hops as [Ho Hops]. simpl in HN. cbn [sig_runs]. wp_step.
  assert (∀ h' m' F' v' e i P' B', spec_op (number y) o P B = (e, i, P', B') -> holds s h' m' F' t v' P' B' -> (load_of h' <= S (load_of h))%nat ->
    wp (rs ← sig_runs t ops; mret ((e, i) :: rs)) (yk y s h' m') Q) as Hnext.
  { intros h' m' F' v' e i P' B' Hs HH' L. wp_step. eapply IH; [exact HH'|done|lia|]. intros rs h2 m2 F2 v2 P2 B2 Hs2 HH2. apply wp_ret. eapply HQ; [|exact HH2]. cbn [spec_ops]. by rewrite Hs, Hs2. }
  destruct o as [info| |how set].
  - destruct Ho as [Hin [i Hi]]. eapply wp_self_post; [exact HH|done|exact Hi|lia|]. intros h' F' e P' B' Hs HH' L. eapply Hnext; [|exact HH'|done]. simpl in *. unfold number. by rewrite Hi.
  - eapply wp_self_take; [exact HH|]. intros h' m' F' v' e i P' B' Hs HH' L. eapply Hnext; [exact Hs|exact HH'|lia].
  - eapply wp_self_mask; [exact HH|intros z ->; exact Ho|]. intros m' v' e P' B' Hs HH'. eapply Hnext; [exact Hs|exact HH'|lia].
Qed.

(** C9. With room for one more object per call, every sequence of posting
    signals to oneself ([thread_sigqueue]), taking them ([thread_sigdequeue]) and
    changing the mask ([thread_sigmask]) returns the results of one FIFO queue
    per signal and a set of blocked signals: a signal whose number is blocked is
    dropped when it is posted; taking yields the oldest signal of the lowest
    number pending and blocks that number, and fails when that number is
    blocked, even when others that are not are pending; SIGKILL and SIGSTOP
    cannot be put in a mask. *)
Theorem signals_refine_queues y F t v P B ops :
  holds (y_sys y) (ds y) (k_threads (y_sys y)) F t v P B -> Forall (op_ok y) ops -> (load_of (ds y) + length ops <= N)%nat ->
  ∃ rs h' m' F' v' P' B', sig_runs t ops y = Ok rs (yk y (y_sys y) h' m') ∧ spec_ops (number y) ops P B = (rs, P', B') ∧ holds (y_sys y) h' m' F' t v' P' B'.
Proof.
  intros HH Hops HN. enough (wp (sig_runs t ops) y (λ rs y', ∃ h' m' F' v' P' B', y' = yk y (y_sys y) h' m' ∧ spec_ops (number y) ops P B = (rs, P', B') ∧ holds (y_sys y) h' m' F' t v' P' B')) as Hw.
  { unfold wp in Hw. destruct (sig_runs t ops y) as [rs y'|]; [|done]. destruct Hw as (h' & m' & F' & v' & P' & B' & -> & Hw). by exists rs, h', m', F', v', P', B'. }
  replace y with (yk y (y_sys y) (ds y) (k_threads (y_sys y))) at 1 by (by destruct y as [[]]). eapply wp_sig_runs; [exact HH|done|done|].
  intros rs h' m' F' v' P' B' Hs HH'. by exists h', m', F', v', P', B'.
Qed.
End pend.
