(* ===== verification/SignalEx.v ===== *)
(** * Signals on a small machine

    States in which the theorems of SignalProps.v and SignalPend.v apply, and
    runs that show what the code does in cases they exclude. *)

From stdpp Require Import functions.
From S2P Require Import Prelude Dll Heap Queue Lock Vfs Sched SchedSpec SchedInv SchedStep SchedProps SchedEx Tgroup Proc ProcProps Signal SignalProps SignalPend.

#[local] Existing Instance pool_kmalloc.

(** The signal queues of a thread. *)
Definition sigqs (t : ptr) : gset ptr := list_to_set (t_sigqueue t <$> seqZ 0 NSIG).
Definition pid3 : proc_t := Proc 3 1 3 601 P_RUNNING 0 0 2 801 901 303 true.

(** Process 601 runs on thread 401, with user 5.  Process 602, which 601 has
    locked, has the thread 402, which sleeps on 305; [w] are its credentials. *)
Definition office_fam : fam :=
  <[305 := (false, [(541, 402)])]> (<[303 := (false, [(531, 402)])]> (<[t_queues 402 := (false, [(551, 303); (552, 305)])]>
    (gset_to_gmap (false, []) (Qs ∪ set_map t_queues tids ∪ sigqs 402)))).
Definition sleeper : thread_t := TCB 2 1 0 T_ISLEEP 0 0 541 305 NULL 0 100 SOFT_AFFINITY 1 255 303 531 901 801 NULL NULL NULL false.
Definition office (w : cred_t) : psys :=
  PSys (Sys (set_qnodes
      {[531 := QNode NULL 402 NULL 303; 541 := QNode NULL 402 NULL 305; 551 := QNode NULL 303 552 (t_queues 402); 552 := QNode 551 305 NULL (t_queues 402)]}
      (set_queues (<[305 := Heap.Queue 541 541 1 false]> (<[303 := Heap.Queue 531 531 1 false]> (<[t_queues 402 := Heap.Queue 551 552 2 false]>
        (gset_to_gmap QUEUE_INIT (Qs ∪ set_map t_queues tids ∪ sigqs 402))))) empty_dsheap))
    (<[401 := t_set_cred 800 (tcb 1 T_READY 255)]> {[402 := sleeper]})
    (k_spins three) (k_conds three) (k_cpus three) 401 2 0)
  {[601 := Proc 2 1 2 NULL P_RUNNING 0 0 2 800 NULL NULL false; 602 := pid3]}
  ∅ {[901 := SigDesc 0 (replicate 32 no_action) false]} {[800 := Vfs.Cred 5 5 5 5 5 5 0 false; 801 := w]} {[401 := 601; 402 := 602]} 3.
Abbreviation mine := (Vfs.Cred 5 5 5 5 5 5 0 false).
Abbreviation me2 := (Proc 2 1 2 NULL P_RUNNING 0 0 2 800 NULL NULL false).

Lemma office_sender w : c_lock w = false -> sender (office w) 602 601 pid3 me2 mine w.
Proof.
  intros Hw. split; [split; [done|split; [eexists; by vm_compute|done]]|done|done|..].
  - eexists. by split_and!.
  - done.
Qed.
Lemma signal_check_perm_correct_witness :
  sender (office (Vfs.Cred 6 6 6 7 7 7 0 false)) 602 601 pid3 me2 mine (Vfs.Cred 6 6 6 7 7 7 0 false) ∧
  signal_check_perm 602 (office (Vfs.Cred 6 6 6 7 7 7 0 false)) = Ok (- EPERM, 0) (office (Vfs.Cred 6 6 6 7 7 7 0 false)).
Proof.
  split; [by apply office_sender|]. rewrite (signal_check_perm_correct _ 602 601 pid3 me2 mine (Vfs.Cred 6 6 6 7 7 7 0 false) (office_sender (Vfs.Cred 6 6 6 7 7 7 0 false) eq_refl)). by rewrite decide_False by (unfold may_signal; simpl; lia).
Defined.

Definition pair402 : gset ptr := {[401; 402]}.
Lemma office_dom w : dom (k_threads (y_sys (office w))) = pair402.
Proof. by_check (dom (k_threads (y_sys (office w))) = pair402). Qed.
Lemma office_nodup q : NoDup (mem office_fam q).
Proof.
  unfold mem. destruct (office_fam !! q) as [x|] eqn:E; [|constructor]. simpl. revert q x E. by_check (map_Forall (λ _ x, NoDup x.2.*2) office_fam).
Qed.
Lemma office_agree : agree office_fam pair402 Qs.
Proof.
  split; [|..|apply office_nodup| | |]; intros *.
  - revert t. by_check (set_Forall (λ t, 0 < t < two64) pair402).
  - intros Hq Ht. revert q Hq t Ht. by_check (set_Forall (λ q, set_Forall (λ t, q ≠ t_queues t) pair402) Qs).
  - revert q. by_check (set_Forall (λ q, is_Some (office_fam !! q)) Qs).
  - unfold pair402. rewrite elem_of_union, !elem_of_singleton. intros [-> | ->]; eexists; by vm_compute.
  - intros Hq. revert t. rewrite <- Forall_forall. revert q Hq. by_check (set_Forall (λ q, Forall (λ t, t ∈ pair402) (mem office_fam q)) Qs).
  - intros Ht. revert q. rewrite <- Forall_forall. revert t Ht. by_check (set_Forall (λ t, Forall (λ q, q ∈ Qs) (mem office_fam (t_queues t))) pair402).
  - intros Hq Ht. revert q Hq t Ht. by_check (set_Forall (λ q, set_Forall (λ t, t ∈ mem office_fam q <-> q ∈ mem office_fam (t_queues t)) pair402) Qs).
Qed.
Lemma office_queues w : fam_ok (ds (office w)) office_fam.
Proof.
  intros q lk xs. unfold office_fam. rewrite !lookup_insert_Some, lookup_gset_to_gmap_Some. intros [[<- [= <- <-]]|[N1 [[<- [= <- <-]]|[N2 [[<- [= <- <-]]|[N3 [Hq [= <- <-]]]]]]]]; [rep_tac..|].
  split; [clear N1 N2 N3; revert q Hq; by_check (set_Forall (λ q, q ≠ NULL) (Qs ∪ set_map t_queues tids ∪ sigqs 402))|].
  split; [|split; [apply dll_nil|constructor]]. simpl. rewrite !lookup_insert_ne by done. by apply lookup_gset_to_gmap_Some.
Qed.
Lemma office_core w : core (y_sys (office w)) (ds (office w)) (k_threads (y_sys (office w))) office_fam ∅ ∅.
Proof.
  split; [apply office_queues|rewrite office_dom; apply office_agree|apply three_layout|..].
  - intros q Hq _. revert q Hq. by_check (set_Forall (λ q, lkd office_fam q = Some false) Qs).
  - by intros q ?%elem_of_empty.
  - rewrite office_dom. by_check (set_Forall (λ t, t_wait t ∈ SQ) pair402).
  - by_check (set_Forall (λ g, g ≠ NULL ∧ is_Some (k_spins three !! g)) G).
  - intros t v. cbn [y_sys office k_threads]. rewrite lookup_insert_Some, lookup_singleton_Some. intros [[<- <-]|[_ [<- <-]]] _;
      (split; [done|]; split; [split; [by split; [done|right; done]|by left|done|done|first [by left|right; split; [by_check (mmap_guard 600 ∈ G)|done]]]|]); unfold place; simpl; [split; [by vm_compute|done]|].
    split; [done|]. split; [by_check (305 ∈ SQ)|by vm_compute].
Qed.

Lemma office_target w : target (office w) office_fam 602 pid3 [(531, 402)].
Proof.
  split; [apply office_core|split; [by_check (303 ∈ Qs)|by vm_compute]|..].
  - intros p t [= -> ->]%list_elem_of_singleton. split; [done|]. exists sleeper. split; [by vm_compute|]. split; [done|]. split; [done|]. apply zero_wf.
  - intros x i ->%list_elem_of_singleton Hi. cbn [snd]. assert (i ∈ seqZ 0 32) as Hin by (apply elem_of_seqZ; lia). split.
    + unfold private. rewrite office_dom. revert i Hi Hin. assert (Forall (λ i, t_sigqueue 402 i ∉ Qs ∧ set_Forall (λ t, t_sigqueue 402 i ≠ t_queues t) pair402) (seqZ 0 32)) as H by check.
      intros i _ Hin. rewrite Forall_forall in H. by apply H.
    + exists []. split; [|by intros a ?%elem_of_nil]. revert i Hi Hin. assert (Forall (λ i, office_fam !! t_sigqueue 402 i = Some (false, [])) (seqZ 0 32)) as H by check.
      intros i _ Hin. rewrite Forall_forall in H. by apply H.
Qed.
Lemma signal_send_wakes_witness :
  target (office mine) office_fam 602 pid3 [(531, 402)] ∧
  ∃ info v' q h' F', signal_send 602 SIGINT (office mine) = Ok 0 (yk (posted (office mine) info (Siginfo 11 0 2 5 NULL 0 11)) (k_tick (y_sys (office mine))) h' (<[402 := v']> (k_threads (y_sys (office mine))))) ∧
    t_state v' = T_READY ∧ on F' 402 = [q] ∧ mem F' (t_sigqueue 402 10) = [info].
Proof.
  split; [apply office_target|]. destruct (signal_send_wakes (KM := pool_kmalloc) (N := 200) pool_room (office mine) office_fam 602 601 pid3 me2 mine mine [(531, 402)] SIGINT 0 (531, 402) sleeper
    (office_sender mine eq_refl) (office_target mine)) as (info & v' & q & h' & F' & H1 & _ & _ & H2 & _ & H3 & H4);
    [right; right; right; by left|done|by vm_compute|by vm_compute|done|vm_compute; lia|vm_compute; lia|].
  exists info, v', q, h', F'. split; [exact H1|]. split; [done|]. split; [done|]. change (mem F' (t_sigqueue (531, 402).2 (SIGINT - 1)) = [info]). rewrite H4. by replace (mem office_fam (t_sigqueue (531, 402).2 (SIGINT - 1))) with (@nil ptr) by (by vm_compute).
Defined.

(** A second signal to a thread that was woken and has not run yet: it is put on
    the queue, waking the thread fails, and [signal_send] frees what the queue
    still holds. *)
Definition then_ (r : outcome psys Z) (c : M psys Z) : outcome psys Z := match r with Ok _ y => c y | Stop e => Stop e end.
Definition dangling (r : outcome psys Z) : list ptr :=
  match r with
  | Ok _ y => filter (λ p, y_infos y !! p = None) (omap (λ x, if decide (qn_queue x.2 = t_sigqueue 402 10) then Some (qn_data x.2) else None) (map_to_list (d_qnodes (ds y))))
  | Stop _ => []
  end.
Example second_signal_dangles :
  let r := then_ (signal_send 602 SIGINT (office mine)) (signal_send 602 SIGINT) in
  match r with Ok e _ => e | Stop _ => 0 end = - ENOENT ∧ length (dangling r) = 1%nat.
Proof. by vm_compute. Qed.

(** ** A thread and its signals *)

(** Thread 401 runs, locked; the signals 911 and 912 are SIGINT and SIGCHLD. *)
Definition desk (lk : bool) : psys :=
  PSys (Sys (set_queues (gset_to_gmap QUEUE_INIT (sigqs 401 ∪ list_to_set (sig_queue 901 <$> seqZ 0 NSIG))) empty_dsheap)
      {[401 := t_set_lock lk (t_set_sigdesc 901 (tcb 1 T_READY 255))]} ∅ ∅ ∅ 401 1 0)
    ∅ {[911 := Siginfo SIGINT 0 2 5 NULL 0 11; 912 := Siginfo SIGCHLD 0 2 5 NULL 0 5]} {[901 := SigDesc 0 (replicate 32 no_action) false]} ∅ {[401 := 601]} 3.
Definition desk_fam : fam := gset_to_gmap (false, []) (sigqs 401).
Lemma desk_holds : holds (y_sys (desk true)) (ds (desk true)) (k_threads (y_sys (desk true))) desk_fam 401 (t_set_lock true (t_set_sigdesc 901 (tcb 1 T_READY 255))) (λ _, []) ∅.
Proof.
  split; [|done|done|done|apply zero_wf|].
  - intros q lk xs. unfold desk_fam. rewrite lookup_gset_to_gmap_Some. intros [Hq [= <- <-]]. split; [revert q Hq; by_check (set_Forall (λ q, q ≠ NULL) (sigqs 401))|].
    split; [|split; [apply dll_nil|constructor]]. simpl. apply lookup_gset_to_gmap_Some. split; [|done]. by apply elem_of_union_l.
  - intros n Hn. exists []. split; [|done]. apply lookup_gset_to_gmap_Some. split; [|done]. apply elem_of_list_to_set, list_elem_of_fmap. exists (n - 1). split; [done|]. apply in_sigs in Hn. apply elem_of_seqZ. unfold NSIG. lia.
Qed.
(** SIGINT waits behind SIGCHLD, which is blocked. *)
Abbreviation desk_ops := [Post 911; Post 912; Mask SIG_BLOCK (Some (sigbit SIGCHLD)); Take; Mask SIG_UNBLOCK (Some (sigbit SIGCHLD)); Take; Mask SIG_BLOCK (Some (sigbit SIGKILL)); Take].
Lemma signals_refine_queues_witness :
  holds (y_sys (desk true)) (ds (desk true)) (k_threads (y_sys (desk true))) desk_fam 401 (t_set_lock true (t_set_sigdesc 901 (tcb 1 T_READY 255))) (λ _, []) ∅ ∧
  ∃ h m, sig_runs 401 desk_ops (desk true) = Ok [(0, NULL); (0, NULL); (0, NULL); (- EINVAL, NULL); (0, NULL); (0, 912); (- EINVAL, NULL); (0, 911)] (yk (desk true) (y_sys (desk true)) h m).
Proof.
  split; [exact desk_holds|]. destruct (signals_refine_queues (KM := pool_kmalloc) (N := 200) pool_room (desk true) _ _ _ _ _ desk_ops desk_holds) as (rs & h & m & F & v & P & B & H1 & H2 & _).
  - assert (wf_set (sigbit SIGCHLD) ∧ wf_set (sigbit SIGKILL)) as [W1 W2] by (split; apply sigbit_wf; unfold SIGCHLD, SIGKILL; lia).
    rewrite !Forall_cons. by split_and!; [done|eexists|done|eexists|..].
  - vm_compute. lia.
  - exists h, m. rewrite H1. f_equal. apply (f_equal (λ r, r.1.1)) in H2. cbn [fst] in H2. rewrite <- H2. by vm_compute.
Defined.

(** A signal whose default is to be ignored stops the kernel. *)
Definition get_signal (info : ptr) : M psys dispatched :=
  on_k current_lock;; t ← on_k current; thread_sigqueue t info;; on_k current_unlock;; signal_dispatch.
Example ignored_signal_panics : get_signal 912 (desk false) = Stop Panic.
Proof. by vm_compute. Qed.
Example terminating_signal : match get_signal 911 (desk false) with Ok r y => r = Terminate ∧ y_infos y !! 911 = None | Stop _ => False end.
Proof. by vm_compute. Qed.
(** A handler cannot be taken back to the default. *)
Example default_not_restored : match sigaction SIGINT (Some (Sigaction SIG_DFL 0 0 0)) false (desk false) with Ok r _ => r.1 = - EINVAL | Stop _ => False end.
Proof. by vm_compute. Qed.
