(* ===== verification/Tmpfs.v ===== *)
(** * kernel/fs/tmpfs/tmpfs.c: a file system in memory

    A directory is a hash table (Hash.v) from names to directory entries, a file
    a block of bytes.  The objects of the file system are the private data of the
    driver, beside the page cache (PageCache.v) that the inode layer uses.  The
    names a caller passes are strings; the hash table gets the pointer to the
    name only to hand it to the functions of its context, which are therefore
    given the string. *)

From S2P Require Import Prelude Dll Heap Queue Btree Hash Cond Lock Vfs Cred Inode PageCache.

Definition EOPNOTSUPP : Z := 95.
Definition ENOTTY : Z := 25.
Definition MAXFNAME : Z := 255.

(** ** Objects *)

(** struct tmpfs_inode_t; [ti_data] is the hash table of a directory and the
    block of bytes of a file. *)
Record tmpfs_inode_t := TInode {
  ti_uid : Z;
  ti_gid : Z;
  ti_mode : Z;
  ti_ino : Z;
  ti_type : itype_t;
  ti_rdev : Z;
  ti_size : Z;
  ti_hlink : Z;
  ti_data : ptr;
}.
Definition ti_set_hlink v t := TInode (ti_uid t) (ti_gid t) (ti_mode t) (ti_ino t) (ti_type t) (ti_rdev t) (ti_size t) v (ti_data t).
Definition ti_set_dev mode rdev t := TInode (ti_uid t) (ti_gid t) mode (ti_ino t) (ti_type t) rdev (ti_size t) (ti_hlink t) (ti_data t).
Definition ti_set_data sz v t := TInode (ti_uid t) (ti_gid t) (ti_mode t) (ti_ino t) (ti_type t) (ti_rdev t) sz (ti_hlink t) v.

(** struct tmpfs_dirent_t *)
Record tmpfs_dirent_t := TDirent { de_name : ptr; de_inode : ptr }.

(** The bytes of a file. *)
Record block := Block { bk_bytes : list Z }.

Record tmpfs := Tmpfs {
  tf_ds : dsheap;                      (* the hash tables *)
  tf_inodes : gmap ptr tmpfs_inode_t;
  tf_dirents : gmap ptr tmpfs_dirent_t;
  tf_names : gmap ptr (list Z);
  tf_blocks : gmap ptr block;
  tf_inos : Z;                         (* [static long tmpfs_inos] *)
  tf_ticks : nat;
}.
Definition tf_set_ds v t := Tmpfs v (tf_inodes t) (tf_dirents t) (tf_names t) (tf_blocks t) (tf_inos t) (tf_ticks t).
Definition tf_set_inodes v t := Tmpfs (tf_ds t) v (tf_dirents t) (tf_names t) (tf_blocks t) (tf_inos t) (tf_ticks t).
Definition tf_set_dirents v t := Tmpfs (tf_ds t) (tf_inodes t) v (tf_names t) (tf_blocks t) (tf_inos t) (tf_ticks t).
Definition tf_set_names v t := Tmpfs (tf_ds t) (tf_inodes t) (tf_dirents t) v (tf_blocks t) (tf_inos t) (tf_ticks t).
Definition tf_set_blocks v t := Tmpfs (tf_ds t) (tf_inodes t) (tf_dirents t) (tf_names t) v (tf_inos t) (tf_ticks t).
Definition tf_set_inos v t := Tmpfs (tf_ds t) (tf_inodes t) (tf_dirents t) (tf_names t) (tf_blocks t) v (tf_ticks t).
Definition tf_tick t := Tmpfs (tf_ds t) (tf_inodes t) (tf_dirents t) (tf_names t) (tf_blocks t) (tf_inos t) (S (tf_ticks t)).

#[export] Instance hl_tinodes : Heaplet tmpfs tmpfs_inode_t := {| hl_get := tf_inodes; hl_put := tf_set_inodes |}.
#[export] Instance hl_tdirents : Heaplet tmpfs tmpfs_dirent_t := {| hl_get := tf_dirents; hl_put := tf_set_dirents |}.
#[export] Instance hl_tnames : Heaplet tmpfs (list Z) := {| hl_get := tf_names; hl_put := tf_set_names |}.
#[export] Instance hl_tblocks : Heaplet tmpfs block := {| hl_get := tf_blocks; hl_put := tf_set_blocks |}.
#[export] Instance kheap_tmpfs : Kheap tmpfs := {|
  kh_live t := kh_live (tf_ds t) ∪ dom (tf_inodes t) ∪ dom (tf_dirents t) ∪ dom (tf_names t) ∪ dom (tf_blocks t);
  kh_ticks := tf_ticks;
  kh_tick := tf_tick;
|}.

(** The addresses of the static tables and of the queue that [tmpfs_ireaddir]
    keeps on its stack, and the bytes that new memory happens to hold. *)
Class TmpfsStatics := {
  tmpfs_iops : ptr;
  dev_iops : ptr;
  tmpfs_hash_ctx : ptr;
  readdir_queue : ptr;
  junk : nat -> nat -> Z;
  hash_ctx_nonnull : tmpfs_hash_ctx ≠ NULL;
}.

(** ** The hash table of a directory *)

(** [char] is signed. *)
Definition char_of (b : Z) : Z := if decide (b < 128) then b else b - 256.
Definition tmpfs_hash (str : list Z) : Z :=
  foldl (λ hash c, u64 (u64 (u64 (Z.shiftl hash 5) + hash) + char_of c)) 5381 str.

(** 0 if the names are equal; an entry that is not live matches nothing. *)
Definition tmpfs_hash_verify (t : tmpfs) (fname : list Z) (dirent : ptr) : Z :=
  if decide (dirent = NULL) then - EINVAL else
  match d ← tf_dirents t !! dirent; tf_names t !! de_name d with
  | Some name => if decide (fname = name) then 0 else - 1
  | None => - 1
  end.

(** [tmpfs_hash_ctx], for a key that points to [fname]. *)
Definition tmpfs_ctx (t : tmpfs) (fname : list Z) : hash_ctx_t :=
  HashCtx (Some (λ _, tmpfs_hash_verify t fname)) (Some (λ _, tmpfs_hash fname)).

Definition on_h {A} : M dsheap A -> M tmpfs A := zoom tf_ds tf_set_ds.

Section heap.
Context {KM : Kmalloc} {TS : TmpfsStatics}.

Definition t_insert (htable : ptr) (fname : list Z) (dirent : ptr) : M tmpfs Z :=
  t ← gets id; on_h (hash_insert (λ _, tmpfs_ctx t fname) htable NULL dirent).
Definition t_search (htable : ptr) (fname : list Z) : M tmpfs (Z * option ptr) :=
  t ← gets id; on_h (hash_search (λ _, tmpfs_ctx t fname) (λ _ _, 0) htable NULL true true).

(** ** Inodes and entries of the file system *)

Definition tmpfs_ialloc (type : itype_t) (pipp : bool) : M tmpfs (Z * ptr) :=
  if negb pipp then mret (- EINVAL, NULL) else
  ip ← kmalloc (TInode 0 0 0 0 FS_INV 0 0 0 NULL);
  if decide (ip = NULL) then mret (- ENOMEM, NULL) else
  '(err, htable) ← (if decide (type = FS_DIR) then on_h (hash_alloc tmpfs_hash_ctx true) else mret (0, None));
  if decide (err ≠ 0) then kfree tmpfs_inode_t ip;; mret (err, NULL) else
  ino ← gets tf_inos;
  modify (λ t, tf_set_inos (u64 (ino + 1)) t);;
  update ip (λ _, TInode 0 0 0 ino type 0 0 1 (default NULL htable));;
  mret (0, ip).

Definition tmpfs_ifree (ip : ptr) : M tmpfs Z :=
  if decide (ip = NULL) then mret (- EINVAL) else
  update ip (λ v, ti_set_hlink (ti_hlink v - 1) v);;
  v ← load ip;
  if decide (ti_hlink v <= 0) then
    if decide (ti_type v = FS_DIR) then
      if decide (ti_data v = NULL) then mret (- EINVAL) else
      on_h (hash_lock (ti_data v));;
      err ← on_h (hash_free (ti_data v));
      if decide (err ≠ 0) then
        on_h (hash_unlock (ti_data v));;
        update ip (λ v, ti_set_hlink (ti_hlink v + 1) v);;
        mret err
      else mret 0
    else if decide (ti_data v ≠ NULL) then kfree block (ti_data v);; mret 0 else mret 0
  else mret 0.

Definition tmpfs_dirent_alloc (fname : list Z) (ip : ptr) (ptde : bool) : M tmpfs (Z * ptr) :=
  if negb ptde then mret (- EINVAL, NULL) else
  name ← kmalloc fname;
  if decide (name = NULL) then mret (- ENOMEM, NULL) else
  tde ← kmalloc (TDirent name ip);
  if decide (tde = NULL) then kfree (list Z) name;; mret (- ENOMEM, NULL) else
  mret (0, tde).

Definition tmpfs_dirent_free (dirent : ptr) : M tmpfs Z :=
  if decide (dirent = NULL) then mret (- EINVAL) else
  d ← load dirent;
  when (bool_decide (de_inode d ≠ NULL)) (update (de_inode d) (λ v, ti_set_hlink (ti_hlink v - 1) v));;
  when (bool_decide (de_name d ≠ NULL)) (kfree (list Z) (de_name d));;
  kfree tmpfs_dirent_t dirent;;
  mret 0.

(** ** The bytes of a file *)

Definition new_bytes (t : nat) (n : Z) : list Z := junk t <$> seq 0 (Z.to_nat n).
Definition bkmalloc (n : Z) : M tmpfs ptr := t ← gets tf_ticks; kmalloc (Block (new_bytes t n)).
(** [krealloc(data, n)] for a block that grows. *)
Definition bkrealloc (data : ptr) (n : Z) : M tmpfs ptr :=
  old ← load data;
  t ← gets tf_ticks;
  p ← kmalloc (Block (bk_bytes old ++ drop (length (bk_bytes old)) (new_bytes t n)));
  if decide (p = NULL) then mret NULL else kfree block data;; mret p.
(** [memcpy(data + off, bs, n)] and [memcpy(buf, data + off, n)] *)
Definition put_bytes (data : ptr) (off : Z) (bs : list Z) : M tmpfs unit :=
  if decide (bs = []) then mret tt else
  b ← load data;
  if decide (off + Z.of_nat (length bs) <= Z.of_nat (length (bk_bytes b)))
  then update data (λ b, Block (overwrite (Z.to_nat off) bs (bk_bytes b))) else halt BadAccess.
Definition get_bytes (data : ptr) (off n : Z) : M tmpfs (list Z) :=
  if decide (n = 0) then mret [] else
  b ← load data;
  if decide (off + n <= Z.of_nat (length (bk_bytes b)))
  then mret (take (Z.to_nat n) (drop (Z.to_nat off) (bk_bytes b))) else halt BadAccess.
End heap.

(** ** The operations on inodes *)

(** struct dirent *)
Record dirent := Dirent { d_ino : Z; d_type : itype_t; d_off : Z; d_reclen : Z; d_size : Z; d_name_ : list Z }.

Section tmpfs.
Context {KM : Kmalloc} {TS : TmpfsStatics} {DR : Drivers (ich * tmpfs)} {IC : Icache (ich * tmpfs)}.
Abbreviation MV := (M (vfs (ich * tmpfs))).
Definition on_tf {A} : M tmpfs A -> MV A := zoom (λ s, (v_drv s).2) (λ t s, set_drv ((v_drv s).1, t) s).

Definition tmpfs_data (ip : ptr) : MV ptr :=
  v ← load (V := inode_t) ip;
  if decide (i_priv v = NULL) then mret NULL else
  tino ← on_tf (load (i_priv v)); mret (ti_data tino).

Definition tmpfs_new_inode (type : itype_t) (pip : bool) : MV (Z * ptr) :=
  if negb pip then mret (- EINVAL, NULL) else
  '(err, tmpfs_ip) ← on_tf (tmpfs_ialloc type true);
  if decide (err ≠ 0) then mret (err, NULL) else
  '(err, inode) ← ialloc type 0 true;
  if decide (err ≠ 0) then on_tf (tmpfs_ifree tmpfs_ip);; mret (err, NULL) else
  t ← on_tf (load (V := tmpfs_inode_t) tmpfs_ip);
  update inode (λ v, Inode (ti_ino t) (i_uid v) (i_gid v) type (i_rdev v) (i_mode v) (i_size v) (i_flags v) (i_refcnt v) (i_hlinks v)
    (i_sb v) tmpfs_iops tmpfs_ip (i_alias v) (i_cache v) (i_writers v) (i_readers v) (i_lock v));;
  mret (0, inode).

Definition tmpfs_create_node (dir : ptr) (fname : list Z) (mode : Z) (type : itype_t) (dev : Z) : MV Z :=
  iassert_locked dir;;
  b ← IISDIR dir;
  if negb b then mret (- ENOTDIR) else
  htable ← tmpfs_data dir;
  if decide (htable = NULL) then mret (- EINVAL) else
  '(err, ip) ← on_tf (tmpfs_ialloc type true);
  if decide (err ≠ 0) then mret err else
  let error (dirent : ptr) : MV Z :=
    on_tf (when (bool_decide (dirent ≠ NULL)) (tmpfs_dirent_free dirent;; mret tt));;
    on_tf (tmpfs_ifree ip) in
  '(err, dirent) ← on_tf (tmpfs_dirent_alloc fname ip true);
  if decide (err ≠ 0) then error NULL else
  on_tf (on_h (hash_lock htable));;
  err ← on_tf (t_insert htable fname dirent);
  on_tf (on_h (hash_unlock htable));;
  if decide (err ≠ 0) then error dirent else
  on_tf (update ip (ti_set_dev mode dev));;
  mret 0.

Definition tmpfs_imkdir (dir : ptr) (fname : list Z) (mode : Z) : MV Z := tmpfs_create_node dir fname mode FS_DIR 0.
Definition tmpfs_icreate (dir : ptr) (fname : list Z) (mode : Z) : MV Z := tmpfs_create_node dir fname mode FS_RGL 0.

(** The type of a node, or the error of [tmpfs_imknod]; a socket keeps the
    initial value 0 of [type]. *)
Definition mknod_mode (mode : Z) : Z := if decide (Z.land mode S_IFMT = 0) then Z.lor mode S_IFREG else mode.
Definition mknod_type (mode : Z) : Z + itype_t :=
  let fmt := Z.land mode S_IFMT in
  if decide (fmt ≠ S_IFCHR ∧ fmt ≠ S_IFBLK ∧ fmt ≠ S_IFIFO ∧ fmt ≠ S_IFSOCK ∧ fmt ≠ S_IFREG) then inl (- EINVAL) else
  if decide (fmt = S_IFBLK) then inr FS_BLK else if decide (fmt = S_IFCHR) then inr FS_CHR else
  if decide (fmt = S_IFREG) then inr FS_RGL else if decide (fmt = S_IFIFO) then inl (- EOPNOTSUPP) else inr FS_INV.
Definition tmpfs_imknod (dir : ptr) (name : list Z) (mode devid : Z) : MV Z :=
  let mode := mknod_mode mode in
  match mknod_type mode with
  | inl err => mret err
  | inr type => tmpfs_create_node dir name mode type devid
  end.

Definition tmpfs_ilookup (dir : ptr) (fname : list Z) (pipp : bool) : MV (Z * ptr) :=
  iassert_locked dir;;
  if decide (dir = NULL ∨ pipp = false) then mret (- EINVAL, NULL) else
  b ← IISDIR dir;
  if negb b then mret (- ENOTDIR, NULL) else
  htable ← tmpfs_data dir;
  if decide (htable = NULL) then mret (- EINVAL, NULL) else
  on_tf (on_h (hash_lock htable));;
  '(err, found) ← on_tf (t_search htable fname);
  on_tf (on_h (hash_unlock htable));;
  if decide (err ≠ 0) then mret (err, NULL) else
  d ← on_tf (load (V := tmpfs_dirent_t) (default NULL found));
  if decide (de_inode d = NULL) then mret (- EINVAL, NULL) else
  t ← on_tf (load (V := tmpfs_inode_t) (de_inode d));
  '(err, ip) ← ialloc (ti_type t) 0 true;
  if decide (err ≠ 0) then mret (err, NULL) else
  dv ← IISDEV ip;
  w ← load (V := inode_t) dir;
  update ip (λ v, Inode (ti_ino t) (ti_uid t) (ti_gid t) (ti_type t) (ti_rdev t) (ti_mode t) (ti_size t) (i_flags v) (i_refcnt v) (ti_hlink t)
    (i_sb v) (if dv : bool then dev_iops else i_ops w) (de_inode d) (i_alias v) (i_cache v) (i_writers v) (i_readers v) (i_lock v));;
  mret (0, ip).

Definition tmpfs_itruncate (ip : ptr) : MV Z :=
  iassert_locked ip;;
  if decide (ip = NULL) then mret (- EINVAL) else
  b ← IISDIR ip; if b : bool then mret (- EISDIR) else
  b ← IISDEV ip; if b : bool then mret (- EINVAL) else
  v ← load (V := inode_t) ip;
  if decide (i_priv v = NULL) then mret (- EINVAL) else
  data ← tmpfs_data ip;
  if decide (data = NULL) then mret 0 else
  on_tf (kfree block data);;
  update ip (i_set_size 0);;
  on_tf (update (i_priv v) (ti_set_data 0 NULL));;
  mret 0.

(** The number of bytes and the bytes; [buf] tells whether there is a buffer. *)
Definition tmpfs_iread (ip : ptr) (off : Z) (buf : bool) (sz : Z) : MV (Z * list Z) :=
  iassert_locked ip;;
  if decide (ip = NULL ∨ buf = false) then mret (- EINVAL, []) else
  b ← IISDIR ip; if b : bool then mret (- EISDIR, []) else
  data ← tmpfs_data ip;
  v ← load (V := inode_t) ip;
  tino ← on_tf (load (V := tmpfs_inode_t) (i_priv v));
  if decide (off >= ti_size tino ∨ data = NULL) then mret (- 1, []) else
  let sz := Z.min (ti_size tino - off) sz in
  bs ← on_tf (get_bytes data off sz);
  mret (sz, bs).

Definition tmpfs_iwrite (ip : ptr) (off : Z) (buf : option (list Z)) : MV Z :=
  iassert_locked ip;;
  match buf with
  | None => mret (- EINVAL)
  | Some bs =>
      if decide (ip = NULL) then mret (- EINVAL) else
      b ← IISDIR ip; if b : bool then mret (- EISDIR) else
      v ← load (V := inode_t) ip;
      if decide (i_priv v = NULL) then mret (- EINVAL) else
      tino ← on_tf (load (V := tmpfs_inode_t) (i_priv v));
      let len := u64 (off + Z.of_nat (length bs)) in
      let copy data size :=
        let sz := Z.min (u64 (size - off)) (Z.of_nat (length bs)) in
        on_tf (put_bytes data off (take (Z.to_nat sz) bs));; mret sz in
      if decide (len > ti_size tino) then
        data ← on_tf (if decide (ti_data tino = NULL) then bkmalloc len else bkrealloc (ti_data tino) len);
        if decide (data = NULL) then mret (- EAGAIN) else
        on_tf (update (i_priv v) (ti_set_data len data));;
        update ip (i_set_size len);;
        copy data len
      else copy NULL (ti_size tino)
  end.

(** The loop of [tmpfs_ireaddir] over the entries in the queue. *)
Fixpoint readdir_loop (fuel : nat) (node : ptr) (off count pos ncount : Z) (acc : list dirent) : M tmpfs (list dirent) :=
  if decide (node = NULL) then mret acc else
  match fuel with
  | O => halt OutOfFuel
  | S fuel =>
      if decide (ncount >= count) then mret acc else
      n ← on_h (nload node);
      if decide (pos < off) then readdir_loop fuel (qn_next n) off count (pos + 1) ncount acc else
      d ← load (V := tmpfs_dirent_t) (qn_data n);
      t ← load (V := tmpfs_inode_t) (de_inode d);
      name ← load (V := list Z) (de_name d);
      if decide (Z.of_nat (length name) > MAXFNAME) then halt BadAccess else
      readdir_loop fuel (qn_next n) off count pos (ncount + 1)
        (acc ++ [Dirent (ti_ino t) (ti_type t) (off + ncount) 16 (ti_size t) name])
  end.

Definition tmpfs_ireaddir (dir : ptr) (off : Z) (buf : bool) (count : Z) : MV (Z * list dirent) :=
  iassert_locked dir;;
  if decide (dir = NULL ∨ buf = false) then mret (- EINVAL, []) else
  b ← IISDIR dir; if negb b then mret (- ENOTDIR, []) else
  v ← load (V := inode_t) dir;
  if decide (i_priv v = NULL) then mret (- EINVAL, []) else
  htable ← tmpfs_data dir;
  if decide (htable = NULL) then mret (- EINVAL, []) else
  if decide (count = 0) then mret (- EINVAL, []) else
  let queue := readdir_queue in
  on_tf (
    on_h (modify (λ h, set_queues (<[queue := QUEUE_INIT]> (d_queues h)) h));;
    on_h (hash_lock htable);;
    on_h (queue_lock queue);;
    err ← on_h (hash_traverse htable queue);
    r ← (if decide (err = 0) then
           n ← on_h (queue_count queue);
           if decide (off >= n) then mret (- 1, []) else
           q ← on_h (qload queue);
           fuel ← on_h walk_fuel;
           bs ← readdir_loop fuel (q_head q) off count 0 0 [];
           mret (err, bs)
         else mret (err, []));
    on_h (queue_flush queue);;
    on_h (queue_unlock queue);;
    on_h (hash_unlock htable);;
    on_h (modify (λ h, set_queues (delete queue (d_queues h)) h));;
    mret r).

Definition tmpfs_iioctl (ip : ptr) (req : Z) (argp : ptr) : MV Z :=
  iassert_locked ip;;
  if decide (ip = NULL ∨ argp = NULL) then mret (- EINVAL) else
  b ← IISDEV ip;
  if negb b then mret (- ENOTTY) else mret (- ENOTSUP).
Definition tmpfs_isync (ip : ptr) : MV Z := mret (- ENOTSUP).
Definition tmpfs_iclose (ip : ptr) : MV Z := mret (- ENOTSUP).
Definition tmpfs_iunlink (ip : ptr) : MV Z := mret (- ENOTSUP).
Definition tmpfs_igetattr (ip attr : ptr) : MV Z := mret (- ENOTSUP).
Definition tmpfs_isetattr (ip attr : ptr) : MV Z := mret (- ENOTSUP).
Definition tmpfs_ifcntl (ip : ptr) (cmd : Z) (argp : ptr) : MV Z := mret (- ENOTSUP).
Definition tmpfs_ibind (dir dentry ip : ptr) : MV Z := mret (- ENOTSUP).
Definition tmpfs_isymlink (ip atdir : ptr) (symname : list Z) : MV Z := mret (- ENOTSUP).
Definition tmpfs_ilink (oldname : list Z) (dir : ptr) (newname : list Z) : MV Z := mret (- ENOTSUP).
Definition tmpfs_irename (dir : ptr) (old : list Z) (newdir : ptr) (new : list Z) : MV Z := mret (- ENOTSUP).

(** [static iops_t tmpfs_iops] *)
Definition tmpfs_table : iops (ich * tmpfs) := {|
  op_isync := Some tmpfs_isync;
  op_iclose := Some tmpfs_iclose;
  op_iunlink := Some tmpfs_iunlink;
  op_itruncate := Some tmpfs_itruncate;
  op_igetattr := Some tmpfs_igetattr;
  op_isetattr := Some tmpfs_isetattr;
  op_ifcntl := Some tmpfs_ifcntl;
  op_iioctl := Some tmpfs_iioctl;
  op_iread := Some (λ ip off sz, tmpfs_iread ip off true sz);
  op_iwrite := Some (λ ip off bs, tmpfs_iwrite ip off (Some bs));
  op_imkdir := Some tmpfs_imkdir;
  op_icreate := Some tmpfs_icreate;
  op_ibind := Some tmpfs_ibind;
  op_ilookup := Some (λ dir fname, tmpfs_ilookup dir fname true);
  op_isymlink := Some tmpfs_isymlink;
  op_ilink := Some tmpfs_ilink;
  op_imknod := Some tmpfs_imknod;
  op_ireaddir := Some (λ dir off buf count, fst <$> tmpfs_ireaddir dir off (bool_decide (buf ≠ NULL)) count);
  op_irename := Some tmpfs_irename;
  op_ichown := None;
|}.
End tmpfs.

(** The inode layer over this file system.  Inside the functions of the table no
    call goes through a table again: [ialloc] releases only inodes without one. *)
Section driver.
Context {KM : Kmalloc} {TS : TmpfsStatics} {FCP : FrameCopy} (tries : nat).
Definition no_drivers : Drivers (ich * tmpfs) := {| iops_at _ := None |}.
Definition tmpfs_drivers : Drivers (ich * tmpfs) := {|
  iops_at p := if decide (p = tmpfs_iops) then Some (tmpfs_table (DR := no_drivers) (IC := page_cache (DR := no_drivers) tries)) else None
|}.
End driver.
