(* ===== verification/TmpfsSpec.v ===== *)
(** * Directories of tmpfs

    The hash table of a directory holds its entries in the order in which they
    were made; what creating and looking up do to them. *)

From S2P Require Import Prelude Dll Heap Queue Btree Hash Cond Lock Vfs Cred Inode PageCache Tmpfs.

(** ** The table of a directory *)

(** Names with the addresses of their entries. *)
Abbreviation listing := (list (list Z * ptr)).
(** The entries under a hash value. *)
Definition under (k : Z) (es : listing) : list ptr := (filter (λ e : list Z * ptr, tmpfs_hash e.1 = k) es).*2.
Lemma under_snoc k es name d : under k (es ++ [(name, d)]) = under k es ++ if decide (tmpfs_hash name = k) then [d] else [].
Proof. unfold under. rewrite filter_app, fmap_app, filter_cons. simpl. by case_decide. Qed.

Definition locked_tab (h : ptr) (c : ptr) (ds : dsheap) : dsheap := set_htabs (<[h := Htab c true]> (d_htabs ds)) ds.

Section tab.
Context {KM : Kmalloc} {TS : TmpfsStatics}.
Implicit Types (ds : dsheap) (es : listing).

Record tab_ok ds (h : ptr) (lk : bool) es : Prop := {
  to_tab : d_htabs ds !! h = Some (Htab tmpfs_hash_ctx lk);
  to_rep : ∃ tr B, hstate (locked_tab h tmpfs_hash_ctx ds) h tmpfs_hash_ctx false tr B ∧ ∀ k, default [] (tdata B !! k) = under k es;
}.
Lemma tab_ok_live ds h lk es : tab_ok ds h lk es -> h ∈ kh_live ds ∧ h ≠ NULL.
Proof. intros [H1 (tr & B & H2 & _)]. split; [apply elem_of_dom_2 in H1; simpl; rewrite !elem_of_union; tauto|]. by apply valid_ptr_nonnull, H2. Qed.
Lemma locked_id h c ds : d_htabs ds !! h = Some (Htab c true) -> locked_tab h c ds = ds.
Proof. intros H. unfold locked_tab. rewrite insert_id by done. by destruct ds. Qed.
Lemma locked_locked h c b ds : locked_tab h c (set_htabs (<[h := Htab c b]> (d_htabs ds)) ds) = locked_tab h c ds.
Proof. unfold locked_tab. simpl. by rewrite insert_insert_eq. Qed.
Lemma live_htab ds h x y : d_htabs ds !! h = Some x -> kh_live (set_htabs (<[h := y]> (d_htabs ds)) ds) = kh_live ds.
Proof. intros Hx. simpl. rewrite (dom_insert_lookup_L (d_htabs ds)) by done. done. Qed.

Lemma wp_tab_lock ds h es (Q : unit -> dsheap -> Prop) :
  tab_ok ds h false es -> (∀ ds', tab_ok ds' h true es -> kh_live ds' = kh_live ds -> Q tt ds') -> wp (hash_lock h) ds Q.
Proof.
  intros Ht HQ. destruct (tab_ok_live _ _ _ _ Ht) as [_ Hn]. destruct Ht as [H1 H2]. unfold hash_lock, hash_assert. wp_step. apply wp_assert; [by apply bool_decide_eq_true|].
  wp_step. eapply wp_load; [done|exact H1|]. wp_step. apply wp_assert; [done|]. eapply wp_update; [done|exact H1|]. apply HQ; [|by eapply live_htab].
  split; [simpl; by rewrite lookup_insert_eq|]. destruct H2 as (tr & B & H2 & H3). exists tr, B. cbn [hl_put hl_htabs]. unfold h_set_lock. simpl h_ctx. by rewrite locked_locked.
Qed.
Lemma wp_tab_unlock ds h es (Q : unit -> dsheap -> Prop) :
  tab_ok ds h true es -> (∀ ds', tab_ok ds' h false es -> kh_live ds' = kh_live ds -> Q tt ds') -> wp (hash_unlock h) ds Q.
Proof.
  intros Ht HQ. destruct (tab_ok_live _ _ _ _ Ht) as [_ Hn]. destruct Ht as [H1 H2]. unfold hash_unlock, hash_assert. wp_step. apply wp_assert; [by apply bool_decide_eq_true|].
  wp_step. eapply wp_load; [done|exact H1|]. wp_step. apply wp_assert; [done|]. eapply wp_update; [done|exact H1|]. apply HQ; [|by eapply live_htab].
  split; [simpl; by rewrite lookup_insert_eq|]. destruct H2 as (tr & B & H2 & H3). exists tr, B. cbn [hl_put hl_htabs]. unfold h_set_lock. simpl h_ctx. by rewrite locked_locked.
Qed.

(** Insertion appends to the listing. *)
Lemma wp_tab_insert t ds h es fname d (Q : Z -> dsheap -> Prop) :
  tab_ok ds h true es ->
  (∀ ds', tab_ok ds' h true es -> refused (size (kh_live ds) + 1) -> Q (- ENOMEM) ds') ->
  (∀ ds', tab_ok ds' h true (es ++ [(fname, d)]) -> (size (kh_live ds') <= size (kh_live ds) + 2)%nat -> Q 0 ds') ->
  wp (hash_insert (λ _, tmpfs_ctx t fname) h NULL d) ds Q.
Proof.
  intros [H1 (tr & B & H2 & H3)] HM HO. rewrite locked_id in H2 by done.
  assert (∀ ds' tr' B', hstate ds' h tmpfs_hash_ctx false tr' B' -> d_htabs ds' !! h = Some (Htab tmpfs_hash_ctx true)) as Htab by (intros ? ? ? [? ? ? ? ? ?]; done).
  eapply (wp_hash_insert (λ _, tmpfs_ctx t fname)); [exact H2|..].
  - intros ds' Hs Hr. apply HM; [|done]. split; [by eapply Htab|]. exists tr, B. by rewrite locked_id by (by eapply Htab).
  - intros ds' tr' n Hs Hsz. apply HO; [|done]. split; [by eapply Htab|]. eexists tr', _. rewrite locked_id by (by eapply Htab). split; [exact Hs|].
    intros k. rewrite under_snoc, <- H3. simpl. rewrite !tdata_lookup. destruct (decide (tmpfs_hash fname = k)) as [<-|Hk].
    + rewrite lookup_insert_eq. simpl. rewrite fmap_app. f_equal. by destruct (B !! _).
    + rewrite lookup_insert_ne by done. by rewrite app_nil_r.
Qed.

(** Entries whose names are in memory. *)
Definition named (t : tmpfs) (e : list Z * ptr) : Prop :=
  e.2 ≠ NULL ∧ ∃ v, tf_dirents t !! e.2 = Some v ∧ tf_names t !! de_name v = Some e.1.
Lemma verify_named t e fname : named t e -> tmpfs_hash_verify t fname e.2 = if decide (fname = e.1) then 0 else - 1.
Proof. intros (Hn & v & Hv & Hm). unfold tmpfs_hash_verify. rewrite decide_False by done. rewrite Hv. simpl. by rewrite Hm. Qed.
Definition find_named (fname : list Z) es : option (list Z * ptr) := snd <$> list_find (λ e, fname = e.1) es.

Lemma find_first fname es (l r : list ptr) d (P : ptr -> bool) :
  (∀ e, e ∈ es -> P e.2 = bool_decide (fname = e.1)) -> under (tmpfs_hash fname) es = l ++ d :: r -> P d = true ->
  (∀ x, x ∈ l -> P x = false) -> find_named fname es = Some (fname, d).
Proof.
  revert l. induction es as [|[nm x] es IH]; intros l HP Hu Hd Hl; [by destruct l|]. unfold find_named. simpl.
  pose proof (HP (nm, x) ltac:(left)) as Hx. simpl in Hx. destruct (decide (fname = nm)) as [<-|Hne].
  - unfold under in Hu. rewrite filter_cons in Hu. simpl in Hu. rewrite decide_True in Hu by done. destruct l as [|y l]; [by injection Hu as ->|].
    injection Hu as -> _. rewrite bool_decide_true in Hx by done. rewrite (Hl y) in Hx by left. done.
  - rewrite bool_decide_false in Hx by done. assert (∃ l', under (tmpfs_hash fname) es = l' ++ d :: r ∧ ∀ y, y ∈ l' -> P y = false) as (l' & Hu' & Hl').
    { unfold under in Hu. rewrite filter_cons in Hu. simpl in Hu. case_decide; [|by exists l]. destruct l as [|y l]; [injection Hu as -> _; congruence|].
      injection Hu as -> Hu. exists l. split; [done|]. intros y' Hy'. apply Hl. by right. }
    pose proof (IH l' ltac:(intros e He; apply HP; by right) Hu' Hd Hl') as IH'. unfold find_named in IH'. rewrite <- IH'. by destruct (list_find _ es) as [[]|].
Qed.
Lemma find_none fname es (P : ptr -> bool) :
  (∀ e, e ∈ es -> P e.2 = bool_decide (fname = e.1)) -> (∀ x, x ∈ under (tmpfs_hash fname) es -> P x = false) -> find_named fname es = None.
Proof.
  intros HP Hu. unfold find_named. destruct (list_find _ es) as [[i e]|] eqn:E; [|done]. exfalso. apply list_find_Some in E as (Hi & Hf & _). apply list_elem_of_lookup_2 in Hi.
  specialize (HP e Hi). rewrite bool_decide_true in HP by done. rewrite (Hu e.2) in HP; [done|]. apply list_elem_of_fmap. exists e. split; [done|]. apply list_elem_of_filter. by rewrite Hf.
Qed.

Lemma wp_tab_search t ds h es fname (Q : Z * option ptr -> dsheap -> Prop) :
  tab_ok ds h true es -> Forall (named t) es ->
  (∀ ds', tab_ok ds' h true es -> kh_live ds' = kh_live ds ->
     Q (match find_named fname es with Some e => (0, Some e.2) | None => (- ENOENT, None) end) ds') ->
  wp (hash_search (λ _, tmpfs_ctx t fname) (λ _ _, 0) h NULL true true) ds Q.
Proof.
  intros [H1 (tr & B & H2 & H3)] Hn HQ. rewrite locked_id in H2 by done. rewrite Forall_forall in Hn.
  assert (∀ ds', hstate ds' h tmpfs_hash_ctx false tr B -> tab_ok ds' h true es) as Hok.
  { intros ds' Hs. assert (d_htabs ds' !! h = Some (Htab tmpfs_hash_ctx true)) as Ht by apply Hs. split; [done|]. exists tr, B. by rewrite locked_id. }
  assert (∀ e, e ∈ es -> hash_match (λ _ _, 0) (tmpfs_ctx t fname) true NULL e.2 = bool_decide (fname = e.1)) as HP.
  { intros e He. unfold hash_match. simpl. rewrite (verify_named t e fname (Hn e He)). destruct (decide (fname = e.1)); [by rewrite !bool_decide_true|by rewrite !bool_decide_false]. }
  assert (∀ xs, B !! tmpfs_hash fname = Some xs -> under (tmpfs_hash fname) es = xs.*2) as Hu by (intros xs Hx; by rewrite <- H3, tdata_lookup, Hx).
  eapply (wp_hash_search (λ _, tmpfs_ctx t fname)); [exact H2|..].
  - intros ds' l n d r Hs Hx Hd Hl HL. specialize (HQ ds' (Hok _ Hs) HL). apply Hu in Hx. rewrite fmap_app in Hx. simpl in Hx.
    by rewrite (find_first fname es _ _ _ _ HP Hx Hd Hl) in HQ.
  - intros ds' Hs Hx HL. specialize (HQ ds' (Hok _ Hs) HL). rewrite (find_none fname es _ HP) in HQ; [done|].
    intros x. rewrite <- H3, tdata_lookup. simpl in Hx. destruct (B !! _) as [xs|] eqn:E; [|by intros ?%elem_of_nil]. by apply Hx.
Qed.

(** A new table beside it. *)
Lemma tab_ok_new ds h lk es p x k :
  tab_ok ds h lk es -> p ∉ kh_live ds -> tab_ok (set_btrees (<[p := BTREE_INIT]> (d_btrees ds)) (set_htabs (<[p := x]> (d_htabs ds)) (DsHeap (d_queues ds) (d_qnodes ds) (d_stacks ds) (d_btrees ds)
    (d_bnodes ds) (d_htabs ds) (d_hnodes ds) (d_rings ds) (d_bufs ds) k))) h lk es.
Proof.
  intros Ht Hp. destruct (tab_ok_live _ _ _ _ Ht) as [Hh _]. assert (p ≠ h) as Hne by (by intros ->). destruct Ht as [H1 (tr & B & H2 & H3)].
  split; [simpl; by rewrite lookup_insert_ne|]. exists tr, B. split; [|done]. destruct H2 as [? ? ? [? Hb ? ? ?] ? ?].
  split; [done|done|simpl; by rewrite lookup_insert_eq| |done|done]. split; [done| |done..]. simpl in *. by rewrite lookup_insert_ne.
Qed.
Lemma wp_tab_alloc ds h es (Q : Z * option ptr -> dsheap -> Prop) :
  tab_ok ds h false es -> ¬ refused (size (kh_live ds)) ->
  (∀ p ds', tab_ok ds' h false es -> (size (kh_live ds') <= size (kh_live ds) + 1)%nat -> Q (0, Some p) ds') ->
  wp (hash_alloc tmpfs_hash_ctx true) ds Q.
Proof.
  intros Ht Hroom HQ. unfold hash_alloc. rewrite decide_False by (pose proof hash_ctx_nonnull; naive_solver). wp_step.
  apply wp_kmalloc_why; [intros Hno; destruct Hroom; by eexists _, _|]. intros p Hp Hf. rewrite decide_False by (by apply valid_ptr_nonnull). wp_step. unfold hash_init.
  wp_step. eapply wp_update; [by apply valid_ptr_nonnull|apply lookup_insert_eq|]. apply wp_modify, wp_ret. cbn [hl_put hl_htabs hl_get]. simpl. rewrite insert_insert_eq. apply HQ.
  - by apply (tab_ok_new ds h false es p (Htab tmpfs_hash_ctx false)).
  - eapply (live_le _ (kh_live ds) p); [|done]. intros x. simpl. rewrite !dom_insert_L, !elem_of_union. tauto.
Qed.
End tab.

(** ** The objects of the file system *)

(** The objects in use; every kind is counted by itself. *)
Definition load_tf (t : tmpfs) : nat :=
  (size (kh_live (tf_ds t)) + size (tf_inodes t) + size (tf_dirents t) + size (tf_names t) + size (tf_blocks t))%nat.
Lemma size_union_le (A B : gset ptr) : (size (A ∪ B) <= size A + size B)%nat.
Proof. rewrite size_union_alt. pose proof (subseteq_size (B ∖ A) B ltac:(set_solver)). lia. Qed.
Lemma live_load_tf t : (size (kh_live t) <= load_tf t)%nat.
Proof.
  unfold load_tf. rewrite <- (size_dom (D := gset ptr) (tf_inodes t)), <- (size_dom (D := gset ptr) (tf_dirents t)), <- (size_dom (D := gset ptr) (tf_names t)), <- (size_dom (D := gset ptr) (tf_blocks t)).
  change (kh_live t) with (kh_live (tf_ds t) ∪ dom (tf_inodes t) ∪ dom (tf_dirents t) ∪ dom (tf_names t) ∪ dom (tf_blocks t)).
  repeat (etrans; [apply size_union_le|apply Nat.add_le_mono_r]). done.
Qed.

Section heap.
Context {KM : Kmalloc} {TS : TmpfsStatics} {N : nat} (Hroom : ∀ n D, km_choose n D = None -> (N <= size D)%nat).
Implicit Types (t : tmpfs) (es : listing) (vs : list tmpfs_inode_t).

Lemma not_refused k : (k < N)%nat -> ¬ refused k.
Proof. intros Hk (i & D & Hn & Hs). apply Hroom in Hn. lia. Qed.
Lemma wp_room {V} `{Heaplet tmpfs V} (v : V) t (Q : ptr -> tmpfs -> Prop) :
  (load_tf t < N)%nat ->
  (∀ p, p ≠ NULL -> p ∉ kh_live t -> Q p (hl_put (<[p := v]> (hl_get (kh_tick t))) (kh_tick t))) -> wp (kmalloc v) t Q.
Proof.
  intros Hl HQ. apply wp_kmalloc_why; [|intros p Hp; apply HQ; by apply valid_ptr_nonnull].
  intros Hno%Hroom. pose proof (live_load_tf t) as HL. exfalso. apply (Nat.lt_irrefl N). by eapply Nat.le_lt_trans; [exact Hno|]; eapply Nat.le_lt_trans; [exact HL|].
Qed.

(** An entry and the inode it names. *)
Definition entry_at t (e : list Z * ptr) (v : tmpfs_inode_t) : Prop :=
  e.2 ≠ NULL ∧ ∃ d, tf_dirents t !! e.2 = Some d ∧ tf_names t !! de_name d = Some e.1 ∧ de_inode d ≠ NULL ∧ tf_inodes t !! de_inode d = Some v.
Lemma entry_named t e v : entry_at t e v -> named t e.
Proof. intros (Hn & d & Hd & Hm & _). split; [done|]. by exists d. Qed.
Record dir_ok t (h : ptr) es vs : Prop := {
  do_tab : tab_ok (tf_ds t) h false es;
  do_entries : Forall2 (entry_at t) es vs;
}.
(** More objects do not matter. *)
Lemma entries_mono t t' es vs :
  tf_inodes t ⊆ tf_inodes t' -> tf_dirents t ⊆ tf_dirents t' -> tf_names t ⊆ tf_names t' -> Forall2 (entry_at t) es vs -> Forall2 (entry_at t') es vs.
Proof.
  intros H1 H2 H3 HF. eapply Forall2_impl; [exact HF|]. intros e v (Hn & d & Hd & Hm & Hi & Hv). split; [done|]. exists d. split_and!; [by eapply lookup_weaken..|done|by eapply lookup_weaken].
Qed.

(** [tmpfs_ialloc] with room for its two objects. *)
Definition fresh_node (ino : Z) (type : itype_t) (data : ptr) : tmpfs_inode_t := TInode 0 0 0 ino type 0 0 1 data.
Lemma wp_tmpfs_ialloc t h es type (Q : Z * ptr -> tmpfs -> Prop) :
  tab_ok (tf_ds t) h false es -> (load_tf t + 2 <= N)%nat ->
  (∀ ip data ds' k, ip ≠ NULL -> tf_inodes t !! ip = None -> tab_ok ds' h false es -> (size (kh_live ds') <= size (kh_live (tf_ds t)) + 1)%nat ->
     Q (0, ip) (Tmpfs ds' (<[ip := fresh_node (tf_inos t) type data]> (tf_inodes t)) (tf_dirents t) (tf_names t) (tf_blocks t) (u64 (tf_inos t + 1)) k)) ->
  wp (tmpfs_ialloc type true) t Q.
Proof.
  intros Ht Hl HQ. unfold tmpfs_ialloc. cbn [negb]. wp_step. apply wp_room; [lia|]. intros ip Hip Hf. rewrite decide_False by done.
  assert (tf_inodes t !! ip = None) as Hnew by (apply not_elem_of_dom; intros Hx; apply Hf; simpl; rewrite !elem_of_union; tauto).
  assert (∀ data ds', tab_ok ds' h false es -> (size (kh_live ds') <= size (kh_live (tf_ds t)) + 1)%nat ->
    wp (ino ← gets tf_inos; modify (λ t, tf_set_inos (u64 (ino + 1)) t);; update ip (λ _, TInode 0 0 0 ino type 0 0 1 data);; mret (0, ip))
      (tf_set_ds ds' (hl_put (<[ip := TInode 0 0 0 0 FS_INV 0 0 0 NULL]> (hl_get (kh_tick t))) (kh_tick t))) Q) as Hend.
  { intros data ds' H1 H2. wp_step. wp_step. wp_step. apply wp_modify. wp_step. eapply wp_update; [done|apply lookup_insert_eq|]. apply wp_ret. cbn [hl_put hl_get hl_tinodes tf_inodes tf_set_inos]. simpl.
    rewrite insert_insert_eq. by apply HQ. }
  wp_step. destruct (decide (type = FS_DIR)) as [->|].
  - apply wp_zoom. eapply wp_tab_alloc; [exact Ht|apply (not_refused (size (kh_live (tf_ds t)))); unfold load_tf in Hl; lia|]. intros p ds' H1 H2. rewrite decide_False by (by intros []). by apply Hend.
  - apply wp_ret. rewrite decide_False by (by intros []). apply (Hend NULL (tf_ds t)); [done|lia].
Qed.
Lemma wp_tmpfs_dirent_alloc t fname ip (Q : Z * ptr -> tmpfs -> Prop) :
  (load_tf t + 2 <= N)%nat ->
  (∀ name d k, d ≠ NULL -> tf_names t !! name = None -> tf_dirents t !! d = None ->
     Q (0, d) (Tmpfs (tf_ds t) (tf_inodes t) (<[d := TDirent name ip]> (tf_dirents t)) (<[name := fname]> (tf_names t)) (tf_blocks t) (tf_inos t) k)) ->
  wp (tmpfs_dirent_alloc fname ip true) t Q.
Proof.
  intros Hl HQ. unfold tmpfs_dirent_alloc. cbn [negb]. wp_step. apply wp_room; [lia|]. intros name Hn Hf. rewrite decide_False by done.
  assert (tf_names t !! name = None) as Hnew by (apply not_elem_of_dom; intros Hx; apply Hf; simpl; rewrite !elem_of_union; tauto).
  wp_step. apply wp_room. { unfold load_tf in *. cbn [hl_put hl_get hl_tnames kh_tick kheap_tmpfs tf_ds tf_inodes tf_dirents tf_names tf_blocks tf_set_names tf_tick]. rewrite map_size_insert_None by done. lia. } intros d Hd Hfd. rewrite decide_False by done. apply wp_ret. apply HQ; [done|done|].
  apply not_elem_of_dom. intros Hx. apply Hfd. simpl. rewrite !elem_of_union. tauto.
Qed.
End heap.
