(* ===== verification/TmpfsProps.v ===== *)
(** * What tmpfs does

    A directory is a sequence of named nodes: creating appends, looking up finds
    the first of a name.  A file keeps the bytes that writes append to it. *)

From S2P Require Import Prelude Dll Heap Queue Btree Hash Cond Lock Vfs Cred Inode PageCache Tmpfs TmpfsSpec.

Section dir.
Context {KM : Kmalloc} {TS : TmpfsStatics} {N : nat} (Hroom : ∀ n D, km_choose n D = None -> (N <= size D)%nat).
Context {DR : Drivers (ich * tmpfs)} {IC : Icache (ich * tmpfs)}.
Abbreviation ST := (vfs (ich * tmpfs)).
Implicit Types (s : ST) (t : tmpfs) (es : listing) (vs : list tmpfs_inode_t).

Definition tf s : tmpfs := (v_drv s).2.
Definition put_tf t s : ST := set_drv ((v_drv s).1, t) s.
Lemma wp_on_tf {A} (c : M tmpfs A) s (Q : A -> ST -> Prop) : wp c (tf s) (λ a t, Q a (put_tf t s)) -> wp (on_tf c) s Q.
Proof. apply wp_zoom. Qed.
Lemma put_put_tf t t' s : put_tf t (put_tf t' s) = put_tf t s.
Proof. by destruct s. Qed.
Lemma put_tf_id s : put_tf (tf s) s = s.
Proof. by destruct s as [? ? ? ? ? ? ? ? ? []]. Qed.
Lemma tf_put t s : tf (put_tf t s) = t.
Proof. done. Qed.

(** A locked directory: its inode, the private inode behind it and its table. *)
Definition dir_inode s (dir h : ptr) : Prop :=
  dir ≠ NULL ∧ ∃ w v, v_inodes s !! dir = Some w ∧ i_lock w = true ∧ i_type w = FS_DIR ∧ i_priv w ≠ NULL ∧
    tf_inodes (tf s) !! i_priv w = Some v ∧ ti_data v = h.
Definition dir_at s (dir : ptr) es vs : Prop := ∃ h, dir_inode s dir h ∧ dir_ok (tf s) h es vs.

Lemma wp_tmpfs_data s dir h (Q : ptr -> ST -> Prop) : dir_inode s dir h -> Q h s -> wp (tmpfs_data dir) s Q.
Proof.
  intros (Hd & w & v & Hw & _ & _ & Hp & Hv & <-) HQ. unfold tmpfs_data. wp_step. eapply wp_load; [done|exact Hw|]. rewrite decide_False by done.
  wp_step. apply wp_on_tf. eapply wp_load; [done|exact Hv|]. rewrite put_tf_id. by apply wp_ret.
Qed.
Lemma wp_dir_locked s dir h (Q : unit -> ST -> Prop) : dir_inode s dir h -> Q tt s -> wp (iassert_locked dir) s Q.
Proof. intros (Hd & w & v & Hw & Hl & _) HQ. by eapply wp_obj_assert_locked. Qed.
Lemma wp_dir_isdir s dir h (Q : bool -> ST -> Prop) : dir_inode s dir h -> Q true s -> wp (IISDIR dir) s Q.
Proof.
  intros Hdi HQ. pose proof Hdi as (Hd & w & v & Hw & Hl & Ht & _). unfold IISDIR, IISTYPE. wp_step. eapply wp_dir_locked; [done|].
  wp_step. eapply wp_load; [done|exact Hw|]. apply wp_ret. by rewrite bool_decide_true.
Qed.
Lemma dir_inode_put s dir h t : dir_inode s dir h -> tf_inodes (tf s) ⊆ tf_inodes t -> dir_inode (put_tf t s) dir h.
Proof. intros (Hd & w & v & Hw & Hl & Ht & Hp & Hv & Hh) Hs. split; [done|]. exists w, v. split_and!; try done. by eapply lookup_weaken. Qed.

(** The new node of a directory. *)
Definition made (ino : Z) (mode : Z) (type : itype_t) (dev : Z) (data : ptr) : tmpfs_inode_t := TInode 0 0 mode ino type dev 0 1 data.

Lemma wp_create_node s dir es vs fname mode type dev (Q : Z -> ST -> Prop) :
  dir_at s dir es vs -> (load_tf (tf s) + 6 <= N)%nat ->
  (∀ d data t', dir_at (put_tf t' s) dir (es ++ [(fname, d)]) (vs ++ [made (tf_inos (tf s)) mode type dev data]) ->
     (load_tf t' <= load_tf (tf s) + 6)%nat -> tf_inos t' = u64 (tf_inos (tf s) + 1) -> Q 0 (put_tf t' s)) ->
  wp (tmpfs_create_node dir fname mode type dev) s Q.
Proof.
  intros (h & Hdi & Hdo) Hl HQ. unfold tmpfs_create_node. wp_step. eapply wp_dir_locked; [done|]. wp_step. eapply wp_dir_isdir; [done|]. cbn [negb].
  wp_step. eapply wp_tmpfs_data; [done|]. destruct Hdo as [Htab Hent]. rewrite decide_False by (by eapply tab_ok_live).
  wp_step. apply wp_on_tf. eapply (wp_tmpfs_ialloc Hroom); [done|lia|]. intros ip data ds1 k1 Hip Hnew Htab1 Hsz1. set (t1 := Tmpfs _ _ _ _ _ _ _). rewrite decide_False by (by intros []).
  assert (load_tf t1 <= load_tf (tf s) + 2)%nat as Hl1.
  { unfold load_tf, t1. cbn [tf_ds tf_inodes tf_dirents tf_names tf_blocks]. rewrite map_size_insert_None by done. lia. }
  assert (size (kh_live ds1) + 5 <= N)%nat as Hsmall by (unfold load_tf in Hl; lia).
  wp_step. apply wp_on_tf. rewrite tf_put. eapply (wp_tmpfs_dirent_alloc Hroom); [lia|]. intros name d k2 Hd Hname Hdirent. rewrite decide_False by (by intros []).
  rewrite put_put_tf. set (t2 := Tmpfs _ _ _ _ _ _ _).
  assert (load_tf t2 = load_tf t1 + 2)%nat as Hl2.
  { unfold load_tf, t2. cbn [tf_ds tf_inodes tf_dirents tf_names tf_blocks]. rewrite !map_size_insert_None by done. lia. }
  wp_step. apply wp_on_tf. rewrite tf_put. apply wp_zoom. eapply wp_tab_lock; [exact Htab1|]. intros ds3 Htab3 HL3. rewrite put_put_tf.
  wp_step. apply wp_on_tf. rewrite tf_put. unfold t_insert. wp_step. wp_step. apply wp_zoom. eapply wp_tab_insert; [exact Htab3|..].
  { intros ds' _ Href. exfalso. eapply (not_refused Hroom); [|exact Href]. change (size (kh_live ds3) + 1 < N)%nat. rewrite HL3. change (size (kh_live ds1) + 1 < N)%nat. lia. }
  intros ds4 Htab4 Hsz4. rewrite put_put_tf. wp_step. apply wp_on_tf. rewrite tf_put. apply wp_zoom. eapply wp_tab_unlock; [exact Htab4|]. intros ds5 Htab5 HL5. rewrite put_put_tf.
  rewrite decide_False by (by intros []). wp_step. apply wp_on_tf. rewrite tf_put.
  eapply wp_update; [done|apply lookup_insert_eq|]. rewrite put_put_tf. apply wp_ret. set (t6 := hl_put _ _).
  assert (t6 = Tmpfs ds5 (<[ip := made (tf_inos (tf s)) mode type dev data]> (tf_inodes (tf s))) (<[d := TDirent name ip]> (tf_dirents (tf s))) (<[name := fname]> (tf_names (tf s)))
    (tf_blocks (tf s)) (u64 (tf_inos (tf s) + 1)) k2) as E6.
  { unfold t6, t2, t1. cbn. by rewrite insert_insert_eq. }
  rewrite E6. apply (HQ d data); [|..|done].
  - exists h. split; [apply dir_inode_put; [done|by apply insert_subseteq]|]. split; [exact Htab5|]. apply Forall2_app.
    + eapply entries_mono; [..|exact Hent]; by apply insert_subseteq.
    + constructor; [|constructor]. split; [done|]. exists (TDirent name ip). cbn. rewrite !lookup_insert_eq. done.
  - unfold load_tf. cbn [tf_ds tf_inodes tf_dirents tf_names tf_blocks]. rewrite !map_size_insert_None by done. rewrite HL5.
    change (size (kh_live ds4) <= size (kh_live ds3) + 2)%nat in Hsz4. change (kh_live ds3 = kh_live ds1) in HL3. change (kh_live (tf_ds (tf_set_ds ds4 (tf_set_ds ds3 t2)))) with (kh_live ds4). rewrite HL3 in Hsz4. lia.
Qed.
End dir.

(** ** A new inode *)

Section ialloc.
Context {KM : Kmalloc} {TS : TmpfsStatics} {N : nat} (Hroom : ∀ n D, km_choose n D = None -> (N <= size D)%nat).
Context {FCP : FrameCopy} {DR : Drivers (ich * tmpfs)} {tries : nat}.
#[local] Existing Instance page_cache.
Abbreviation ST := (vfs (ich * tmpfs)).
Implicit Types (s : ST).

(** The inode [ip] is new since [s0]; [n] objects and [m] caches were made. *)
Record alloced (s0 s : ST) (ip : ptr) (i : inode_t) (n m : nat) : Prop := {
  al_null : ip ≠ NULL;
  al_new : v_inodes s0 !! ip = None;
  al_inodes : v_inodes s = <[ip := i]> (v_inodes s0);
  al_tf : tf s = tf s0;
  al_live : (size (kh_live s) <= size (kh_live s0) + n)%nat;
  al_ich : (size (kh_live (v_drv s).1) <= size (kh_live (v_drv s0).1) + m)%nat;
}.
Lemma al_at s0 s ip i n m : alloced s0 s ip i n m -> v_inodes s !! ip = Some i.
Proof. intros []. rewrite al_inodes0. apply lookup_insert_eq. Qed.
Lemma live_inode s ip i x : v_inodes s !! ip = Some i -> kh_live (set_inodes (<[ip := x]> (v_inodes s)) s) = kh_live s.
Proof. intros H. simpl. rewrite (dom_insert_lookup_L (v_inodes s)) by (by eexists). done. Qed.
Lemma wp_al_update s0 s ip i n m f (Q : unit -> ST -> Prop) :
  alloced s0 s ip i n m -> (∀ s', alloced s0 s' ip (f i) n m -> v_drv s' = v_drv s -> Q tt s') -> wp (update (V := inode_t) ip f) s Q.
Proof.
  intros H HQ. pose proof (al_at _ _ _ _ _ _ H) as Hi. eapply wp_update; [apply H|exact Hi|]. apply HQ; [|done]. destruct H as [H1 H2 H3 H4 H5 H6]. split; [done|done| |done| |done].
  - simpl. by rewrite H3, insert_insert_eq.
  - cbn [hl_put hl_get hl_inodes]. by rewrite (live_inode s ip i).
Qed.
Lemma wp_al_locked s0 s ip i n m (Q : unit -> ST -> Prop) : alloced s0 s ip i n m -> i_lock i = true -> Q tt s -> wp (iassert_locked ip) s Q.
Proof. intros H Hl HQ. eapply wp_obj_assert_locked; [apply H|by eapply al_at|done|done]. Qed.
Lemma wp_al_type s0 s ip i n m ty (Q : bool -> ST -> Prop) :
  alloced s0 s ip i n m -> i_lock i = true -> Q (bool_decide (i_type i = ty)) s -> wp (IISTYPE ip ty) s Q.
Proof. intros H Hl HQ. unfold IISTYPE. wp_step. eapply wp_al_locked; [done|done|]. wp_step. eapply wp_load; [apply H|by eapply al_at|]. by apply wp_ret. Qed.
Lemma wp_al_dev s0 s ip i n m (Q : bool -> ST -> Prop) :
  alloced s0 s ip i n m -> i_lock i = true -> Q (bool_decide (i_type i = FS_CHR) || bool_decide (i_type i = FS_BLK)) s -> wp (IISDEV ip) s Q.
Proof. intros H Hl HQ. unfold IISDEV. wp_step. eapply wp_al_type; [done|done|]. case_bool_decide; [by apply wp_ret|]. by eapply wp_al_type. Qed.
Lemma wp_inew s (Q : Z * ptr -> ST -> Prop) :
  (size (kh_live s) < N)%nat ->
  (∀ ip s', alloced s s' ip (Inode 0 0 0 FS_INV 0 0 0 0 1 0 NULL NULL NULL NULL NULL NULL NULL true) 1 0 -> Q (0, ip) s') -> wp inew s Q.
Proof.
  intros Hl HQ. unfold inew. wp_step. apply wp_kmalloc_why; [intros Hno%Hroom; exfalso; apply (Nat.lt_irrefl N); by eapply Nat.le_lt_trans|].
  intros ip Hip%valid_ptr_nonnull Hf. rewrite decide_False by done. wp_step. eapply wp_obj_lock; [done|apply lookup_insert_eq|done|]. apply wp_ret, HQ. split; [done| |apply insert_insert_eq|done| |apply (Nat.le_add_r _ 0)].
  - apply not_elem_of_dom. intros Hx. apply Hf. simpl. rewrite !elem_of_union. tauto.
  - eapply (live_le _ (kh_live s) ip); [|done]. intros x. simpl. rewrite !dom_insert_L, !elem_of_union. tauto.
Qed.
Lemma wp_al_cond s0 s ip i n m (Q : Z * ptr -> ST -> Prop) :
  alloced s0 s ip i n m -> (size (kh_live s0) + n < N)%nat ->
  (∀ c s', alloced s0 s' ip i (n + 1) m -> v_drv s' = v_drv s -> Q (0, c) s') -> wp cond_new s Q.
Proof.
  intros [H1 H2 H3 H4 H5 H6] Hl HQ. unfold cond_new, cond_init. rewrite bool_decide_true by done. cbn [andb negb]. wp_step.
  apply wp_kmalloc_why; [intros Hno%Hroom; exfalso; apply (Nat.lt_irrefl N); eapply Nat.le_lt_trans; [exact Hno|]; by eapply Nat.le_lt_trans|].
  intros c Hc%valid_ptr_nonnull Hf. rewrite decide_False by done. wp_step. eapply wp_update; [done|apply lookup_insert_eq|]. apply wp_ret, HQ; [|done]. split; [done|done|done|done| |done].
  eapply Nat.le_trans; [eapply (live_le _ (kh_live s) c); [|done]|]; [|lia]. intros x. simpl. rewrite !dom_insert_L, !elem_of_union. tauto.
Qed.
Lemma wp_al_cache s0 s ip i n m (Q : Z * ptr -> ST -> Prop) :
  alloced s0 s ip i n m -> (size (kh_live (v_drv s0).1) + m < N)%nat ->
  (∀ c s', c ≠ NULL -> alloced s0 s' ip i n (m + 1) -> is_Some (ih_caches (v_drv s').1 !! c) -> Q (0, c) s') -> wp (Inode.icache_alloc (Icache := page_cache tries)) s Q.
Proof.
  intros [H1 H2 H3 H4 H5 H6] Hl HQ. apply wp_zoom. unfold icache_alloc. cbn [negb]. wp_step.
  apply wp_kmalloc_why; [intros Hno%Hroom; exfalso; apply (Nat.lt_irrefl N); eapply Nat.le_lt_trans; [exact Hno|]; by eapply Nat.le_lt_trans|].
  intros c Hc%valid_ptr_nonnull Hf. rewrite decide_False by done. wp_step. apply wp_modify. apply wp_ret, HQ; [done| |simpl; rewrite lookup_insert_eq; by eexists]. split; [done|done|done|done|done|].
  eapply Nat.le_trans; [eapply (live_le _ (kh_live (v_drv s).1) c); [|done]|]; [|lia]. intros x. simpl. rewrite !dom_insert_L, !elem_of_union. tauto.
Qed.

(** With room, [ialloc] gives a locked inode of the type with one reference. *)
Lemma wp_ialloc s type (Q : Z * ptr -> ST -> Prop) :
  (size (kh_live s) + 3 <= N)%nat -> (size (kh_live (v_drv s).1) + 1 <= N)%nat ->
  (∀ ip i s', alloced s s' ip i 3 1 -> i_lock i = true -> i_type i = type -> i_refcnt i = 1 -> Q (0, ip) s') ->
  wp (ialloc (IC := page_cache tries) type 0 true) s Q.
Proof.
  intros Hl Hm HQ. unfold ialloc. cbn [negb]. wp_step. apply wp_inew; [lia|]. intros ip s1 H1. rewrite decide_False by (by intros []).
  wp_step. eapply wp_al_update; [exact H1|]. intros s2 H2 _. cbn [i_set_type] in H2. unfold IISDIR. wp_step. eapply wp_al_type; [exact H2|done|].
  wp_step. eapply wp_al_dev; [exact H2|done|]. wp_step. eapply wp_al_type; [exact H2|done|]. wp_step. eapply wp_al_type; [exact H2|done|]. cbn [i_type i_set_type]. destruct (_ || _ || _ || _).
  - wp_step. rewrite decide_False by done. apply wp_ret. rewrite decide_False by (by intros []). wp_step. rewrite decide_False by done. apply wp_ret. rewrite decide_False by (by intros []).
    wp_step. rewrite decide_False by done. apply wp_ret. rewrite decide_False by (by intros []). rewrite decide_False by (by intros []). wp_step. apply wp_ret.
    wp_step. eapply wp_al_update; [exact H2|]. intros s3 H3 _. wp_step. eapply wp_al_update; [exact H3|]. intros s4 H4 _. wp_step. eapply wp_al_update; [exact H4|]. intros s5 [] _.
    apply wp_ret. eapply (HQ ip); [split; [done..|lia|lia]|done|done|done].
  - wp_step. rewrite decide_True by done. eapply wp_al_cache; [exact H2|lia|]. intros c s3 Hc H3 [x Hx]. rewrite decide_False by (by intros []).
    wp_step. rewrite decide_True by done. eapply wp_al_cond; [exact H3|lia|]. intros r s4 H4 E4. rewrite decide_False by (by intros []).
    wp_step. rewrite decide_True by done. eapply wp_al_cond; [exact H4|lia|]. intros w s5 H5 E5. rewrite decide_False by (by intros []). rewrite decide_True by done.
    wp_step. apply wp_zoom. eapply wp_update; [done|cbn; rewrite E5, E4; exact Hx|].
    assert (∀ h', kh_live h' = kh_live (v_drv s5).1 -> alloced s (set_drv (h', (v_drv s5).2) s5) ip (i_set_type type (Inode 0 0 0 FS_INV 0 0 0 0 1 0 NULL NULL NULL NULL NULL NULL NULL true)) 3 1) as H6.
    { intros h' E. destruct H5 as [? ? ? ? ? ?]. split; [done|done|done|done|done|]. change (v_drv (set_drv (h', (v_drv s5).2) s5)).1 with h'. rewrite E. lia. }
    wp_step. eapply wp_al_update; [apply H6; cbn; rewrite (dom_insert_lookup_L (ih_caches (v_drv s5).1)) by (rewrite E5, E4; by eexists); done|]. intros s7 H7 _.
    wp_step. eapply wp_al_update; [exact H7|]. intros s8 H8 _. wp_step. eapply wp_al_update; [exact H8|]. intros s9 H9 _. apply wp_ret. by eapply (HQ ip); [exact H9|..].
Qed.
End ialloc.

(** ** A directory is a sequence of named nodes *)

(** What a lookup tells of a node: number, type, mode and device. *)
Abbreviation view := (Z * itype_t * Z * Z)%type.
Variant tf_op := Create (name : list Z) (mode : Z) | Mkdir (name : list Z) (mode : Z) | Mknod (name : list Z) (mode dev : Z) | Lookup (name : list Z).

Definition spec_create (name : list Z) (ty : itype_t) (mode dev : Z) (E : list (list Z * view)) (n : Z) : (Z * option view) * list (list Z * view) * Z :=
  ((0, None), E ++ [(name, (n, ty, mode, dev))], u64 (n + 1)).
(** [n] is the number of the next node. *)
Definition spec_op (o : tf_op) (E : list (list Z * view)) (n : Z) : (Z * option view) * list (list Z * view) * Z :=
  match o with
  | Create name mode => spec_create name FS_RGL mode 0 E n
  | Mkdir name mode => spec_create name FS_DIR mode 0 E n
  | Mknod name mode dev =>
      let mode := if decide (Z.land mode S_IFMT = 0) then Z.lor mode S_IFREG else mode in
      let fmt := Z.land mode S_IFMT in
      if decide (fmt = S_IFIFO) then ((- EOPNOTSUPP, None), E, n) else
      if decide (fmt = S_IFREG) then spec_create name FS_RGL mode dev E n else
      if decide (fmt = S_IFCHR) then spec_create name FS_CHR mode dev E n else
      if decide (fmt = S_IFBLK) then spec_create name FS_BLK mode dev E n else
      if decide (fmt = S_IFSOCK) then spec_create name FS_INV mode dev E n else ((- EINVAL, None), E, n)
  | Lookup name => (match list_find (λ e, name = e.1) E with Some (_, e) => (0, Some e.2) | None => (- ENOENT, None) end, E, n)
  end.
Fixpoint spec_run (ops : list tf_op) (E : list (list Z * view)) (n : Z) : list (Z * option view) * list (list Z * view) * Z :=
  match ops with
  | [] => ([], E, n)
  | o :: ops => let '(r, E, n) := spec_op o E n in let '(rs, E, n) := spec_run ops E n in (r :: rs, E, n)
  end.

Definition view_of (v : tmpfs_inode_t) : view := (ti_ino v, ti_type v, ti_mode v, ti_rdev v).
Definition dir_abs (es : listing) (vs : list tmpfs_inode_t) : list (list Z * view) := zip_with (λ e v, (e.1, view_of v)) es vs.
Lemma dir_abs_snoc es vs e v : length es = length vs -> dir_abs (es ++ [e]) (vs ++ [v]) = dir_abs es vs ++ [(e.1, view_of v)].
Proof. intros H. unfold dir_abs. by rewrite zip_with_app. Qed.
Lemma find_abs t fname es vs : Forall2 (entry_at t) es vs ->
  match find_named fname es with
  | Some e => ∃ v, entry_at t e v ∧ e.1 = fname ∧ snd <$> list_find (λ e, fname = e.1) (dir_abs es vs) = Some (fname, view_of v)
  | None => list_find (λ e, fname = e.1) (dir_abs es vs) = None
  end.
Proof.
  induction 1 as [|e v es vs He HF IH]; [done|]. unfold find_named in *. simpl. destruct (decide (fname = e.1)) as [->|Hne]; simpl.
  - by exists v.
  - destruct (list_find _ es) as [[i x]|]; simpl in *.
    + destruct IH as (v' & H1 & H2 & H3). exists v'. split_and!; [done..|]. rewrite <- H3. by destruct (list_find _ (dir_abs es vs)) as [[]|].
    + by rewrite IH.
Qed.

Section refine.
Context {KM : Kmalloc} {TS : TmpfsStatics} {N : nat} (Hroom : ∀ n D, km_choose n D = None -> (N <= size D)%nat).
Context {FCP : FrameCopy} {DR : Drivers (ich * tmpfs)} {tries : nat}.
#[local] Instance IC : Icache (ich * tmpfs) := page_cache tries.
Abbreviation ST := (vfs (ich * tmpfs)).
Implicit Types (s : ST).

(** Room for [k] calls. *)
Definition room s (k : nat) : Prop :=
  (load_tf (tf s) + 6 * k <= N)%nat ∧ (size (kh_live s) + 3 * k <= N)%nat ∧ (size (kh_live (v_drv s).1) + k <= N)%nat.

Definition run_tf (dir : ptr) (o : tf_op) : M ST (Z * option view) :=
  match o with
  | Create name mode => r ← tmpfs_icreate dir name mode; mret (r, None)
  | Mkdir name mode => r ← tmpfs_imkdir dir name mode; mret (r, None)
  | Mknod name mode dev => r ← tmpfs_imknod dir name mode dev; mret (r, None)
  | Lookup name =>
      '(err, ip) ← tmpfs_ilookup dir name true;
      if decide (err ≠ 0) then mret (err, None) else
      v ← load (V := inode_t) ip; mret (0, Some (i_ino v, i_type v, i_mode v, i_rdev v))
  end.
Fixpoint run_tfs (dir : ptr) (ops : list tf_op) : M ST (list (Z * option view)) :=
  match ops with
  | [] => mret []
  | o :: ops => r ← run_tf dir o; rs ← run_tfs dir ops; mret (r :: rs)
  end.

Lemma wp_run_create s dir es vs name mode ty dev k (Q : Z * option view -> ST -> Prop) :
  dir_at s dir es vs -> room s (S k) ->
  (∀ es' vs' s', dir_at s' dir es' vs' -> room s' k -> dir_abs es' vs' = dir_abs es vs ++ [(name, (tf_inos (tf s), ty, mode, dev))] ->
     tf_inos (tf s') = u64 (tf_inos (tf s) + 1) -> Q (0, None) s') ->
  wp (r ← tmpfs_create_node dir name mode ty dev; mret (r, None)) s Q.
Proof.
  intros Hd (H1 & H2 & H3) HQ. wp_step. eapply (wp_create_node Hroom); [exact Hd|lia|]. intros d data t' Hd' Hl Hi. apply wp_ret. eapply (HQ _ _ _ Hd'); [|..|done].
  - split; [rewrite tf_put; lia|]. split; [change (kh_live (put_tf t' s)) with (kh_live s); lia|change (v_drv (put_tf t' s)).1 with (v_drv s).1; lia].
  - destruct Hd as (h & _ & [_ HF]). by rewrite dir_abs_snoc by (by eapply Forall2_length).
Qed.

Lemma dir_at_alloced s s' dir es vs ip i n m : dir_at s dir es vs -> alloced s s' ip i n m -> dir_at s' dir es vs.
Proof.
  intros (h & (Hd & w & v & Hw & Hl & Ht & Hp & Hv & Hh) & Hok) [H1 H2 H3 H4 _ _]. exists h. rewrite H4. split; [|done]. split; [done|]. exists w, v. rewrite H3, H4.
  split_and!; try done. rewrite lookup_insert_ne; [done|]. intros ->. congruence.
Qed.
Lemma dir_at_tf s dir h es vs t : dir_inode s dir h -> dir_ok (tf s) h es vs -> tab_ok (tf_ds t) h false es ->
  tf_inodes t = tf_inodes (tf s) -> tf_dirents t = tf_dirents (tf s) -> tf_names t = tf_names (tf s) -> dir_at (put_tf t s) dir es vs.
Proof.
  intros Hd [H1 H2] H3 E1 E2 E3. exists h. split; [apply dir_inode_put; [done|by rewrite E1]|]. split; [done|]. eapply entries_mono; [..|exact H2]; by rewrite ?tf_put, ?E1, ?E2, ?E3.
Qed.

Lemma wp_run_lookup s dir es vs name k (Q : Z * option view -> ST -> Prop) :
  dir_at s dir es vs -> room s (S k) ->
  (∀ s', dir_at s' dir es vs -> room s' k -> tf_inos (tf s') = tf_inos (tf s) ->
     Q (match list_find (λ e, name = e.1) (dir_abs es vs) with Some (_, e) => (0, Some e.2) | None => (- ENOENT, None) end) s') ->
  wp (run_tf dir (Lookup name)) s Q.
Proof.
  intros Hd (H1 & H2 & H3) HQ. cbn [run_tf]. wp_step. unfold tmpfs_ilookup. pose proof Hd as (h & Hdi & [Htab Hent]). wp_step. eapply wp_dir_locked; [done|].
  rewrite decide_False by (intros [->|[=]]; by destruct Hdi). wp_step. eapply wp_dir_isdir; [done|]. cbn [negb]. wp_step. eapply wp_tmpfs_data; [done|]. rewrite decide_False by (by eapply tab_ok_live).
  wp_step. apply wp_on_tf, wp_zoom. eapply wp_tab_lock; [exact Htab|]. intros ds1 Ht1 L1. wp_step. apply wp_on_tf. rewrite tf_put. unfold t_search. wp_step. wp_step. apply wp_zoom.
  eapply wp_tab_search; [exact Ht1| |]. { apply Forall_forall. intros e He. apply list_elem_of_lookup in He as [i Hi]. destruct (Forall2_lookup_l _ _ _ _ _ Hent Hi) as (v & _ & Hv). by eapply entry_named. }
  intros ds2 Ht2 L2. rewrite put_put_tf. pose proof (find_abs (tf s) name es vs Hent) as Hfind.
  assert (∀ (r : M ST (Z * ptr)) (Q : Z * ptr -> ST -> Prop), (∀ t', dir_at (put_tf t' s) dir es vs -> load_tf t' = load_tf (tf s) -> tf_inos t' = tf_inos (tf s) -> tf_inodes t' = tf_inodes (tf s) -> tf_dirents t' = tf_dirents (tf s) ->
      wp r (put_tf t' s) Q) ->
    wp (on_tf (on_h (hash_unlock h));; r) (put_tf (tf_set_ds ds2 (tf_set_ds ds1 (tf s))) s) Q) as Hend.
  { intros r Q' Hr. wp_step. apply wp_on_tf, wp_zoom. eapply wp_tab_unlock; [exact Ht2|]. intros ds3 Ht3 L3. rewrite put_put_tf. apply Hr; [by apply (dir_at_tf s dir h)| |done..].
    unfold load_tf. change (size (kh_live ds3) + size (tf_inodes (tf s)) + size (tf_dirents (tf s)) + size (tf_names (tf s)) + size (tf_blocks (tf s)) = load_tf (tf s))%nat.
    by assert (kh_live ds3 = kh_live (tf_ds (tf s))) as -> by (etrans; [exact L3|]; etrans; [exact L2|]; exact L1). }
  destruct (find_named name es) as [e|].
  - destruct Hfind as (v & (Hn & d & Hde & _ & Hi0 & Hv) & _ & Hf). apply Hend. intros t' Hd' Hl' Hi' Ei Ed. rewrite decide_False by (by intros []).
    wp_step. apply wp_on_tf. eapply wp_load; [exact Hn|cbn; rewrite Ed; exact Hde|]. rewrite decide_False by done. rewrite put_put_tf, tf_put. wp_step. apply wp_on_tf. eapply wp_load; [exact Hi0|cbn; rewrite Ei; exact Hv|]. rewrite put_put_tf, tf_put.
    wp_step. eapply (wp_ialloc Hroom); [change (kh_live (put_tf t' s)) with (kh_live s); lia|change (v_drv (put_tf t' s)).1 with (v_drv s).1; lia|]. intros ip i s1 Ha Hli Hti _. rewrite decide_False by (by intros []).
    wp_step. eapply wp_al_dev; [exact Ha|done|]. pose proof (dir_at_alloced _ _ _ _ _ _ _ _ _ Hd' Ha) as Hd1. destruct (Hd1) as (h1 & (Hdn & w & ? & Hw & _) & _). wp_step. eapply wp_load; [exact Hdn|exact Hw|].
    wp_step. eapply wp_al_update; [exact Ha|]. intros s2 Ha2 _. apply wp_ret. rewrite decide_False by (by intros []). wp_step. eapply wp_load; [apply Ha2|by eapply al_at|]. apply wp_ret. cbn [i_ino i_type i_mode i_rdev].
    destruct (list_find _ (dir_abs es vs)) as [[j y]|]; [|done]. injection Hf as ->. apply HQ; [exact (dir_at_alloced _ _ _ _ _ _ _ _ _ Hd' Ha2)| |].
    + destruct Ha2 as [_ _ _ E4 E5 E6]. rewrite tf_put in E4. change (kh_live (put_tf t' s)) with (kh_live s) in E5. change (v_drv (put_tf t' s)).1 with (v_drv s).1 in E6. split; [rewrite E4; lia|]. lia.
    + destruct Ha2 as [_ _ _ E4 _ _]. by rewrite E4, tf_put.
  - rewrite Hfind in HQ. apply Hend. intros t' Hd' Hl' Hi' _ _. rewrite decide_True by done. apply wp_ret. rewrite decide_True by done. apply wp_ret, HQ; [done| |by rewrite tf_put].
    split; [rewrite tf_put; lia|]. split; [change (kh_live (put_tf t' s)) with (kh_live s); lia|change (v_drv (put_tf t' s)).1 with (v_drv s).1; lia].
Qed.

Lemma run_tf_refines s dir es vs o k :
  dir_at s dir es vs -> room s (S k) ->
  wp (run_tf dir o) s (λ r s', ∃ es' vs', dir_at s' dir es' vs' ∧ room s' k ∧
    (r, dir_abs es' vs', tf_inos (tf s')) = spec_op o (dir_abs es vs) (tf_inos (tf s))).
Proof.
  intros Hd Hr. assert (room s k) as Hr' by (destruct Hr; split; lia).
  assert (∀ name mode ty dev, wp (r ← tmpfs_create_node dir name mode ty dev; mret (r, None)) s (λ r s', ∃ es' vs', dir_at s' dir es' vs' ∧ room s' k ∧
    (r, dir_abs es' vs', tf_inos (tf s')) = spec_create name ty mode dev (dir_abs es vs) (tf_inos (tf s)))) as Hc.
  { intros. eapply wp_run_create; [done..|]. intros es' vs' s' H1 H2 H3 H4. exists es', vs'. unfold spec_create. by rewrite H3, H4. }
  destruct o as [name mode|name mode|name mode dev|name]; [apply Hc|apply Hc| |].
  - cbn [run_tf spec_op]. unfold tmpfs_imknod. fold (mknod_mode mode). set (md := mknod_mode mode). unfold mknod_type. set (fmt := Z.land md S_IFMT).
    assert (∀ e : Z, wp ((r ← mret e; mret (r, None)) : M ST (Z * option view)) s (λ r s', ∃ es' vs', dir_at s' dir es' vs' ∧ room s' k ∧ (r, dir_abs es' vs', tf_inos (tf s')) = ((e, @None view), dir_abs es vs, tf_inos (tf s)))) as He.
    { intros e. wp_step. apply wp_ret, wp_ret. by exists es, vs. }
    destruct (decide (fmt = S_IFIFO)) as [->|]; [apply He|]. destruct (decide (fmt = S_IFREG)) as [->|]; [apply Hc|]. destruct (decide (fmt = S_IFCHR)) as [->|]; [apply Hc|].
    destruct (decide (fmt = S_IFBLK)) as [->|]; [apply Hc|]. destruct (decide (fmt = S_IFSOCK)) as [->|]; [apply Hc|]. rewrite decide_True by done. apply He.
  - eapply wp_run_lookup; [done|exact Hr|]. intros s' H1 H2 H3. exists es, vs. split; [done|]. split; [done|]. cbn [spec_op]. by rewrite H3.
Qed.

(** C32. A directory of tmpfs is the sequence of the nodes made in it.  With room
    for the objects, every sequence of creations of files, directories and
    special files and of lookups returns the results of that sequence: a creation
    appends a node with the next number, the type and the mode asked for, also when
    the name is taken; a lookup finds the first node of the name, with its
    attributes in a fresh inode, or reports -ENOENT.  Sockets become nodes without a
    type, named pipes are refused. *)
Theorem tmpfs_refines_listing s dir es vs ops :
  dir_at s dir es vs -> room s (length ops) ->
  wp (run_tfs dir ops) s (λ rs s', ∃ es' vs', dir_at s' dir es' vs' ∧
    (rs, dir_abs es' vs', tf_inos (tf s')) = spec_run ops (dir_abs es vs) (tf_inos (tf s))).
Proof.
  revert s es vs. induction ops as [|o ops IH]; intros s es vs Hd Hr; cbn [run_tfs spec_run]; [apply wp_ret; by exists es, vs|].
  wp_step. eapply wp_mono; [by eapply run_tf_refines|]. intros r s1 (es1 & vs1 & Hd1 & Hr1 & E1). wp_step. eapply wp_mono; [by eapply IH|]. intros rs s2 (es2 & vs2 & Hd2 & E2).
  apply wp_ret. exists es2, vs2. split; [done|]. rewrite <- E1, <- E2. done.
Qed.
End refine.

(** ** The bytes of a file *)

Section file.
Context {KM : Kmalloc} {TS : TmpfsStatics}.
Abbreviation ST := (vfs (ich * tmpfs)).
Implicit Types (s : ST) (bs : list Z).

(** A locked inode of a file with the bytes [bs]. *)
Record file_bytes s (ip : ptr) (bs : list Z) : Prop := {
  fb_null : ip ≠ NULL;
  fb_bound : Z.of_nat (length bs) < two64;
  fb_inode : ∃ w v, v_inodes s !! ip = Some w ∧ i_lock w = true ∧ i_type w ≠ FS_DIR ∧ i_type w ≠ FS_CHR ∧ i_type w ≠ FS_BLK ∧ i_size w = Z.of_nat (length bs) ∧ i_priv w ≠ NULL ∧
    tf_inodes (tf s) !! i_priv w = Some v ∧ ti_size v = Z.of_nat (length bs) ∧
    (if decide (ti_data v = NULL) then bs = [] else tf_blocks (tf s) !! ti_data v = Some (Block bs));
}.
Lemma wp_fb_locked s ip bs (Q : unit -> ST -> Prop) : file_bytes s ip bs -> Q tt s -> wp (iassert_locked ip) s Q.
Proof. intros [Hn _ (w & v & Hw & Hl & _)] HQ. by eapply wp_obj_assert_locked. Qed.
Lemma wp_fb_type s ip bs ty (Q : bool -> ST -> Prop) : file_bytes s ip bs -> ty = FS_DIR ∨ ty = FS_CHR ∨ ty = FS_BLK -> Q false s -> wp (IISTYPE ip ty) s Q.
Proof.
  intros Hf Hty HQ. unfold IISTYPE. wp_step. eapply wp_fb_locked; [done|]. destruct Hf as [Hn _ (w & v & Hw & Hl & H1 & H2 & H3 & _)]. wp_step. eapply wp_load; [done|exact Hw|].
  apply wp_ret. rewrite bool_decide_false; [done|]. by destruct Hty as [->|[->| ->]].
Qed.

Lemma wp_bytes_read s ip bs off sz (Q : Z * list Z -> ST -> Prop) :
  file_bytes s ip bs -> 0 <= off -> 0 <= sz ->
  Q (if decide (off < Z.of_nat (length bs)) then (Z.min (Z.of_nat (length bs) - off) sz, take (Z.to_nat sz) (drop (Z.to_nat off) bs)) else (- 1, [])) s ->
  wp (tmpfs_iread ip off true sz) s Q.
Proof.
  intros Hf Ho Hs HQ. unfold tmpfs_iread. wp_step. eapply wp_fb_locked; [done|]. pose proof Hf as [Hn Hbd (w & v & Hw & Hl & _ & _ & _ & _ & Hp & Hv & Hsz & Hd)].
  rewrite decide_False by (by intros [?|[=]]). wp_step. eapply wp_fb_type; [done|by left|]. unfold tmpfs_data. do 2 wp_step. eapply wp_load; [done|exact Hw|]. rewrite decide_False by done.
  wp_step. apply wp_on_tf. eapply wp_load; [done|exact Hv|]. rewrite put_tf_id. apply wp_ret. wp_step. eapply wp_load; [done|exact Hw|]. wp_step. apply wp_on_tf. eapply wp_load; [done|exact Hv|]. rewrite put_tf_id, Hsz.
  destruct (decide (off < Z.of_nat (length bs))) as [Hlt|Hge]; [|rewrite decide_True by lia; by apply wp_ret].
  destruct (decide (ti_data v = NULL)) as [E|Hnd]; [subst bs; simpl in Hlt; lia|]. rewrite decide_False by (intros [?|?]; [lia|done]). wp_step. apply wp_on_tf. unfold get_bytes.
  destruct (decide (Z.min (Z.of_nat (length bs) - off) sz = 0)) as [E|E].
  - apply wp_ret. rewrite put_tf_id. apply wp_ret. assert (sz = 0) as -> by lia. by rewrite E in *.
  - wp_step. eapply wp_load; [done|exact Hd|]. cbn [bk_bytes]. rewrite decide_True by lia. apply wp_ret. rewrite put_tf_id. apply wp_ret. assert (take (Z.to_nat (Z.min (Z.of_nat (length bs) - off) sz)) (drop (Z.to_nat off) bs) = take (Z.to_nat sz) (drop (Z.to_nat off) bs)) as ->; [|done].
    destruct (decide (sz <= Z.of_nat (length bs) - off)); [by rewrite Z.min_r by lia|]. rewrite !take_ge; [done|rewrite length_drop; lia|rewrite length_drop; lia].
Qed.

(** A new block with the old bytes at its beginning takes the place of the old one. *)
Lemma wp_grow s ip bs w v len (Q : ptr -> tmpfs -> Prop) :
  file_bytes s ip bs -> v_inodes s !! ip = Some w -> tf_inodes (tf s) !! i_priv w = Some v -> Z.of_nat (length bs) <= len ->
  (∀ t', tf_inodes t' = tf_inodes (tf s) -> tf_blocks t' = tf_blocks (tf s) -> Q NULL t') ->
  (∀ p t' tail, p ≠ NULL -> tf_inodes t' = tf_inodes (tf s) -> tf_blocks t' !! p = Some (Block (bs ++ tail)) -> Z.of_nat (length (bs ++ tail)) = len -> Q p t') ->
  wp (if decide (ti_data v = NULL) then bkmalloc len else bkrealloc (ti_data v) len) (tf s) Q.
Proof.
  intros [_ _ (w' & v' & Hw & _ & _ & _ & _ & _ & _ & Hv & _ & Hd)] Hw' Hv' Hlen HF HO. rewrite Hw' in Hw. injection Hw as <-. rewrite Hv' in Hv. injection Hv as <-.
  assert (∀ k, length (new_bytes k len) = Z.to_nat len) as Hnl by (intros k; unfold new_bytes; by rewrite length_fmap, length_seq). destruct (decide (ti_data v = NULL)) as [E|Hnd].
  - subst bs. unfold bkmalloc. wp_step. wp_step. apply wp_kmalloc; [by apply HF|]. intros p Hp _ _. apply (HO p _ (new_bytes (tf_ticks (tf s)) len)); [by apply valid_ptr_nonnull|done|simpl; by rewrite lookup_insert_eq|].
    simpl. rewrite Hnl. lia.
  - unfold bkrealloc. wp_step. eapply wp_load; [done|exact Hd|]. wp_step. wp_step. wp_step. apply wp_kmalloc; [rewrite decide_True by done; apply wp_ret; by apply HF|]. intros p Hp Hlive _. pose proof (valid_ptr_nonnull _ Hp). rewrite decide_False by done.
    assert (p ≠ ti_data v) as Hne by (intros ->; apply Hlive; simpl; apply elem_of_dom_2 in Hd; rewrite !elem_of_union; tauto). wp_step. eapply wp_kfree; [done|simpl; rewrite lookup_insert_ne by done; exact Hd|]. apply wp_ret.
    apply (HO p _ (drop (length bs) (new_bytes (tf_ticks (tf s)) len))); [done|done|simpl; by rewrite lookup_delete_ne, lookup_insert_eq by done|]. rewrite length_app, length_drop, Hnl. lia.
Qed.

Definition extends (bs : list Z) (off : Z) (buf bs' : list Z) : Prop :=
  ∃ gap, bs' = take (Z.to_nat off) bs ++ gap ++ buf ∧ Z.of_nat (length gap) = Z.max 0 (off - Z.of_nat (length bs)).
Lemma overwrite_extends bs tail off buf : 0 <= off -> Z.of_nat (length bs) < off + Z.of_nat (length buf) ->
  Z.of_nat (length (bs ++ tail)) = off + Z.of_nat (length buf) -> extends bs off buf (overwrite (Z.to_nat off) buf (bs ++ tail)).
Proof.
  intros Ho Hlt Hlen. exists (take (Z.to_nat off - length bs) tail). unfold overwrite. rewrite length_app in Hlen. rewrite (drop_ge (bs ++ tail)) by (rewrite length_app; lia). rewrite app_nil_r, take_app, <- app_assoc.
  split; [done|]. rewrite length_take. lia.
Qed.

Lemma wp_file_append s ip bs off buf (Q : Z -> ST -> Prop) :
  file_bytes s ip bs -> 0 <= off -> Z.of_nat (length bs) < off + Z.of_nat (length buf) < two64 ->
  (∀ s', file_bytes s' ip bs -> Q (- EAGAIN) s') ->
  (∀ s' bs', file_bytes s' ip bs' -> extends bs off buf bs' -> Q (Z.of_nat (length buf)) s') ->
  wp (tmpfs_iwrite ip off (Some buf)) s Q.
Proof.
  intros Hf Ho Hlen HF HO. unfold tmpfs_iwrite. wp_step. eapply wp_fb_locked; [done|]. pose proof Hf as [Hn Hbd (w & v & Hw & Hl & Ht1 & Ht2 & Ht3 & His & Hp & Hv & Hsz & Hd)]. rewrite decide_False by done.
  wp_step. eapply wp_fb_type; [done|by left|]. wp_step. eapply wp_load; [done|exact Hw|]. rewrite decide_False by done. wp_step. apply wp_on_tf. eapply wp_load; [done|exact Hv|]. rewrite put_tf_id, Hsz.
  assert (u64 (off + Z.of_nat (length buf)) = off + Z.of_nat (length buf)) as -> by (apply u64_small; unfold in_u64; lia). rewrite decide_True by lia. wp_step. apply wp_on_tf.
  eapply wp_grow; [done|done|done|lia|..].
  - intros t' E1 E2. rewrite decide_True by done. apply wp_ret, HF. split; [done|done|]. exists w, v. rewrite tf_put, E1, E2. by split_and!.
  - intros p t' tail Hpn E1 Hb Hbl. rewrite decide_False by done. wp_step. apply wp_on_tf. rewrite tf_put. eapply wp_update; [done|simpl; rewrite E1; exact Hv|]. rewrite put_put_tf. wp_step. eapply wp_update; [done|exact Hw|].
    assert (Z.min (u64 (off + Z.of_nat (length buf) - off)) (Z.of_nat (length buf)) = Z.of_nat (length buf)) as -> by (rewrite u64_small; unfold in_u64; lia). rewrite Nat2Z.id, take_ge by done.
    assert (buf ≠ [] ∨ buf = []) as [Hne|E] by (destruct buf; [by right|by left]).
    + wp_step. apply wp_on_tf. unfold put_bytes. rewrite decide_False by done. wp_step. eapply wp_load; [done|exact Hb|]. cbn [bk_bytes]. rewrite decide_True by lia. eapply wp_update; [done|exact Hb|]. cbn [bk_bytes]. apply wp_ret.
      apply (HO _ (overwrite (Z.to_nat off) buf (bs ++ tail))); [|by apply overwrite_extends; lia].
      assert (Z.of_nat (length (overwrite (Z.to_nat off) buf (bs ++ tail))) = off + Z.of_nat (length buf)) as El by (unfold overwrite; rewrite !length_app, length_take, length_drop; lia).
      split; [done|by rewrite El; lia|]. eexists _, _. split; [apply lookup_insert_eq|]. cbn [i_set_size i_lock i_type i_size i_priv]. split_and!; [done..|by rewrite El|done|apply lookup_insert_eq|by rewrite El|]. cbn [ti_set_data ti_data]. rewrite decide_False by done. apply lookup_insert_eq.
    + subst buf. wp_step. apply wp_on_tf. unfold put_bytes. rewrite decide_True by done. apply wp_ret, wp_ret. simpl length in *.
      apply (HO _ (bs ++ tail)); [|exists tail; rewrite length_app in Hbl; rewrite app_nil_r, take_ge by lia; split; [done|lia]].
      split; [done|by rewrite Hbl; lia|]. eexists _, _. split; [apply lookup_insert_eq|]. cbn [i_set_size i_lock i_type i_size i_priv]. split_and!; [done..|by rewrite Hbl|done|apply lookup_insert_eq|by rewrite Hbl|]. cbn [ti_set_data ti_data]. rewrite decide_False by done. exact Hb.
Qed.

Lemma wp_file_truncate s ip bs (Q : Z -> ST -> Prop) : file_bytes s ip bs -> (∀ s', file_bytes s' ip [] -> Q 0 s') -> wp (tmpfs_itruncate ip) s Q.
Proof.
  intros Hf HQ. unfold tmpfs_itruncate. wp_step. eapply wp_fb_locked; [done|]. pose proof Hf as [Hn Hbd (w & v & Hw & Hl & Ht1 & Ht2 & Ht3 & His & Hp & Hv & Hsz & Hd)]. rewrite decide_False by done.
  wp_step. eapply wp_fb_type; [done|by left|]. unfold IISDEV. do 2 wp_step. eapply wp_fb_type; [done|by right; left|]. eapply wp_fb_type; [done|by right; right|]. wp_step. eapply wp_load; [done|exact Hw|]. rewrite decide_False by done.
  wp_step. unfold tmpfs_data. wp_step. eapply wp_load; [done|exact Hw|]. rewrite decide_False by done. wp_step. apply wp_on_tf. eapply wp_load; [done|exact Hv|]. rewrite put_tf_id. apply wp_ret. destruct (decide (ti_data v = NULL)) as [E|Hnd].
  - subst bs. by apply wp_ret, HQ.
  - wp_step. apply wp_on_tf. eapply wp_kfree; [done|exact Hd|]. wp_step. eapply wp_update; [done|exact Hw|]. wp_step. apply wp_on_tf. eapply wp_update; [done|exact Hv|]. apply wp_ret, HQ. split; [done|done|].
    eexists _, _. split; [apply lookup_insert_eq|]. cbn [i_set_size i_lock i_type i_size i_priv]. split_and!; [done..|apply lookup_insert_eq|done|done].
Qed.

(** A write that does not reach the end of the file goes through a pointer that
    was never set. *)
Lemma bind_eq {T A B} (c : M T A) (k : A -> M T B) (x : T) r : wp c x (λ a y, k a y = r) -> (c ≫= k) x = r.
Proof. unfold wp, mbind, M_bind. by destruct (c x). Qed.
Lemma file_overwrite s ip bs off buf :
  file_bytes s ip bs -> 0 <= off -> off + Z.of_nat (length buf) <= Z.of_nat (length bs) -> off + Z.of_nat (length buf) < two64 ->
  tmpfs_iwrite ip off (Some buf) s = if decide (buf = []) then Ok 0 s else Stop BadAccess.
Proof.
  intros Hf Ho Hlen Hu. pose proof Hf as [Hn Hbd (w & v & Hw & Hl & Ht1 & Ht2 & Ht3 & His & Hp & Hv & Hsz & Hd)]. unfold tmpfs_iwrite.
  apply bind_eq. eapply wp_fb_locked; [done|]. rewrite decide_False by done. apply bind_eq. eapply wp_fb_type; [done|by left|]. apply bind_eq. eapply wp_load; [done|exact Hw|]. rewrite decide_False by done.
  apply bind_eq, wp_on_tf. eapply wp_load; [done|exact Hv|]. rewrite put_tf_id, Hsz, u64_small by (unfold in_u64; lia). rewrite decide_False by lia. destruct (decide (buf = [])) as [->|Hne].
  - rewrite Z.min_r by (rewrite u64_small by (unfold in_u64; lia); simpl; lia). apply bind_eq, wp_on_tf. unfold put_bytes. rewrite decide_True by done. apply wp_ret. by rewrite put_tf_id.
  - rewrite u64_small, Z.min_r, Nat2Z.id, take_ge by (unfold in_u64; lia). unfold on_tf, zoom, mbind, M_bind, put_bytes. by rewrite decide_False by done.
Qed.

(** *** Sequences of calls *)

Variant f_op := FRead (off n : Z) | FWrite (off : Z) (buf : list Z) | FTruncate.
Definition f_ok (o : f_op) : Prop :=
  match o with FRead off n => 0 <= off ∧ 0 <= n | FWrite off buf => 0 <= off ∧ off + Z.of_nat (length buf) < two64 | FTruncate => True end.
(** One call that returns. *)
Inductive file_step (bs : list Z) : f_op -> Z * list Z -> list Z -> Prop :=
  | fs_read off n : off < Z.of_nat (length bs) -> file_step bs (FRead off n) (Z.min (Z.of_nat (length bs) - off) n, take (Z.to_nat n) (drop (Z.to_nat off) bs)) bs
  | fs_eof off n : Z.of_nat (length bs) <= off -> file_step bs (FRead off n) (- 1, []) bs
  | fs_append off buf bs' : Z.of_nat (length bs) < off + Z.of_nat (length buf) -> extends bs off buf bs' -> file_step bs (FWrite off buf) (Z.of_nat (length buf), []) bs'
  | fs_again off buf : Z.of_nat (length bs) < off + Z.of_nat (length buf) -> file_step bs (FWrite off buf) (- EAGAIN, []) bs
  | fs_empty off : off <= Z.of_nat (length bs) -> file_step bs (FWrite off []) (0, []) bs
  | fs_truncate : file_step bs FTruncate (0, []) [].
(** A sequence of calls: the results and the bytes, or [None] at a write that
    does not reach past the end. *)
Inductive file_run : list Z -> list f_op -> option (list (Z * list Z) * list Z) -> Prop :=
  | fr_nil bs : file_run bs [] (Some ([], bs))
  | fr_fault bs off buf ops : buf ≠ [] -> off + Z.of_nat (length buf) <= Z.of_nat (length bs) -> file_run bs (FWrite off buf :: ops) None
  | fr_stop bs o r bs' ops : file_step bs o r bs' -> file_run bs' ops None -> file_run bs (o :: ops) None
  | fr_step bs o r bs' ops rs bs'' : file_step bs o r bs' -> file_run bs' ops (Some (rs, bs'')) -> file_run bs (o :: ops) (Some (r :: rs, bs'')).

Definition run_f (ip : ptr) (o : f_op) : M ST (Z * list Z) :=
  match o with
  | FRead off n => tmpfs_iread ip off true n
  | FWrite off buf => r ← tmpfs_iwrite ip off (Some buf); mret (r, [])
  | FTruncate => r ← tmpfs_itruncate ip; mret (r, [])
  end.
Fixpoint run_fs (ip : ptr) (ops : list f_op) : M ST (list (Z * list Z)) :=
  match ops with [] => mret [] | o :: ops => r ← run_f ip o; rs ← run_fs ip ops; mret (r :: rs) end.

Lemma run_f_steps s ip bs o : file_bytes s ip bs -> f_ok o ->
  wp (run_f ip o) s (λ r s', ∃ bs', file_step bs o r bs' ∧ file_bytes s' ip bs') ∨
  (∃ off buf, o = FWrite off buf ∧ buf ≠ [] ∧ off + Z.of_nat (length buf) <= Z.of_nat (length bs) ∧ run_f ip o s = Stop BadAccess).
Proof.
  intros Hf Hok. destruct o as [off n|off buf|]; simpl in Hok.
  - left. eapply wp_bytes_read; [done|lia|lia|]. exists bs. split; [|done]. case_decide; constructor; lia.
  - destruct (decide (Z.of_nat (length bs) < off + Z.of_nat (length buf))) as [Hlt|Hge].
    + left. cbn [run_f]. wp_step. eapply wp_file_append; [done|lia|lia|..].
      * intros s' Hf'. apply wp_ret. exists bs. split; [by constructor|done].
      * intros s' bs' Hf' He. apply wp_ret. exists bs'. split; [by constructor|done].
    + pose proof (file_overwrite s ip bs off buf Hf ltac:(lia) ltac:(lia) ltac:(lia)) as E. destruct (decide (buf = [])) as [->|Hne].
      * left. cbn [run_f]. wp_step. unfold wp at 1. rewrite E. apply wp_ret. exists bs. split; [constructor; simpl in Hge; lia|done].
      * right. exists off, buf. split_and!; [done|done|lia|]. cbn [run_f]. unfold mbind, M_bind. by rewrite E.
  - left. cbn [run_f]. wp_step. eapply wp_file_truncate; [done|]. intros s' Hf'. apply wp_ret. exists []. split; [constructor|done].
Qed.

(** C33. Every sequence of reads, writes and truncations of a file of tmpfs behaves as
    the specification on its bytes.  A read returns the bytes at the offset, or -1
    at the end of the file; a write past the end keeps the bytes before the
    offset, leaves bytes of no fixed value in a gap and puts its own bytes at the
    end, or returns -EAGAIN and changes nothing; truncation empties the file.  The
    sequence faults at the first non-empty write that does not reach past the end
    of the file, which the code sends to the address of its offset, and only
    there. *)
Theorem tmpfs_file_refines s ip bs ops :
  file_bytes s ip bs -> Forall f_ok ops ->
  match run_fs ip ops s with
  | Ok rs s' => ∃ bs', file_run bs ops (Some (rs, bs')) ∧ file_bytes s' ip bs'
  | Stop e => e = BadAccess ∧ file_run bs ops None
  end.
Proof.
  revert s bs. induction ops as [|o ops IH]; intros s bs Hf Hok; cbn [run_fs]; [exists bs; split; [constructor|done]|]. apply Forall_cons in Hok as [Ho Hok]. unfold mbind, M_bind.
  destruct (run_f_steps s ip bs o Hf Ho) as [Hw|(off & buf & -> & Hne & Hle & E)].
  - unfold wp in Hw. destruct (run_f ip o s) as [r s1|]; [|done]. destruct Hw as (bs1 & Hst & Hf1). specialize (IH s1 bs1 Hf1 Hok). destruct (run_fs ip ops s1) as [rs s2|e].
    + destruct IH as (bs2 & Hr & Hf2). exists bs2. split; [by eapply fr_step|done].
    + destruct IH as [-> Hr]. split; [done|by eapply fr_stop].
  - rewrite E. split; [done|]. by apply fr_fault.
Qed.
End file.
