(* ===== verification/TmpfsEx.v ===== *)
(** * tmpfs on a small machine

    States in which the theorems of TmpfsProps.v apply, and runs that show what the
    code does in cases they leave out. *)

From S2P Require Import Prelude Dll Heap Queue Btree Hash Cond Lock Vfs Cred Inode PageCache Sched SchedSpec SchedInv SchedStep SchedProps SchedEx Tmpfs TmpfsSpec TmpfsProps.

#[local] Program Instance statics : TmpfsStatics :=
  {| tmpfs_iops := 8; dev_iops := 16; tmpfs_hash_ctx := 24; readdir_queue := 32; junk _ _ := 170 |}.
Next Obligation. done. Qed.
#[local] Program Instance copies : FrameCopy := {| fc_err _ := 0 |}.
Next Obligation. auto. Qed.
#[local] Existing Instance no_drivers.

(** The directory 500, empty, with the private inode 600 and the table 700, and the
    file 510 with the private inode 610 and the three bytes at 710. *)
Definition home_ds : dsheap := set_htabs {[700 := Htab 24 false]} (set_btrees {[700 := BTREE_INIT]} empty_dsheap).
Definition home_tf : tmpfs :=
  Tmpfs home_ds {[600 := TInode 0 0 0 0 FS_DIR 0 0 1 700; 610 := TInode 0 0 0 1 FS_RGL 0 3 1 710]} ∅ ∅ {[710 := Block [1; 2; 3]]} 2 0.
Definition home : vfs (ich * tmpfs) :=
  Vfs ∅ ∅ {[500 := Inode 0 0 0 FS_DIR 0 0 0 0 1 1 NULL 8 600 NULL NULL NULL NULL true; 510 := Inode 1 0 0 FS_RGL 0 0 3 0 1 1 NULL 8 610 NULL NULL NULL NULL true]}
    ∅ ∅ ∅ ∅ ∅ (Thread NULL NULL false) (Ich empty_dsheap ∅ ∅ 0, home_tf) 0.

Lemma home_tab : tab_ok home_ds 700 false [].
Proof.
  split; [done|]. exists Leaf, ∅. split.
  - split; [by vm_compute|done|done| |intros k; by rewrite lookup_empty|].
    + split; [by vm_compute|done|done|constructor|constructor].
    + split; [intros k xs Hk|intros k1 k2 xs ys _ Hk]; by rewrite lookup_empty in Hk.
  - intros k. unfold tdata. by rewrite fmap_empty, lookup_empty.
Qed.
Lemma home_dir : dir_at home 500 [] [].
Proof. exists 700. split; [|split; [apply home_tab|constructor]]. split; [done|]. eexists _, _. by split_and!. Qed.
Lemma home_file : file_bytes home 510 [1; 2; 3].
Proof. split; [done|done|]. eexists _, _. by split_and!. Qed.
Lemma home_room : room (N := 200) home 6.
Proof. split_and!; apply leb_complete; by vm_compute. Qed.

Definition six_calls : list tf_op := [Create [97] 420; Mkdir [98] 493; Create [97] 384; Mknod [99] 8630 5; Lookup [97]; Lookup [100]].
Lemma tmpfs_refines_listing_witness :
  dir_at home 500 [] [] ∧ room (N := 200) home (length six_calls) ∧
  wp (run_tfs (KM := pool_kmalloc) (tries := 3) 500 six_calls) home (λ rs _, rs = [(0, None); (0, None); (0, None); (0, None); (0, Some (2, FS_RGL, 420, 0)); (- ENOENT, None)]).
Proof.
  split; [apply home_dir|]. split; [apply home_room|].
  eapply wp_mono; [apply (tmpfs_refines_listing (KM := pool_kmalloc) (N := 200) pool_room home 500 [] [] six_calls); [apply home_dir|apply home_room]|].
  intros rs s' (es' & vs' & _ & E). apply (f_equal (λ x, x.1.1)) in E. by vm_compute in E.
Defined.

Definition four_calls : list f_op := [FRead 1 9; FWrite 5 [7; 8]; FRead 5 2; FWrite 0 [9]].
Lemma tmpfs_file_refines_witness :
  file_bytes home 510 [1; 2; 3] ∧ Forall f_ok four_calls ∧
  match run_fs (KM := pool_kmalloc) 510 four_calls home with
  | Ok rs s' => ∃ bs', file_run [1; 2; 3] four_calls (Some (rs, bs')) ∧ file_bytes s' 510 bs'
  | Stop e => e = BadAccess ∧ file_run [1; 2; 3] four_calls None
  end.
Proof.
  assert (Forall f_ok four_calls) as Hok by (repeat constructor; simpl; unfold two64; lia).
  split; [apply home_file|]. split; [exact Hok|]. apply (tmpfs_file_refines (KM := pool_kmalloc) home 510 [1; 2; 3] four_calls home_file Hok).
Defined.

(** The bytes between the old end and the offset of a write are those that the
    allocator left there: a reader sees what was in kernel memory. *)
Example write_gap_shows_memory :
  match run_fs (KM := pool_kmalloc) 510 [FWrite 5 [7; 8]; FRead 0 9] home with Ok rs _ => rs = [(2, []); (7, [1; 2; 3; 170; 170; 7; 8])] | Stop _ => False end.
Proof. by vm_compute. Qed.
(** The last of the four calls above writes inside the file. *)
Example write_inside_faults : run_fs (KM := pool_kmalloc) 510 four_calls home = Stop BadAccess.
Proof. by vm_compute. Qed.

(** An allocator that grants the first [n] requests. *)
Definition first_choose (n t : nat) (D : gset ptr) : option ptr := if decide (t < n)%nat then pool_choose t D else None.
Program Definition first_kmalloc (n : nat) : Kmalloc := {| km_choose := first_choose n |}.
Next Obligation. intros n t D p H. unfold first_choose in H. case_decide; [|done]. by apply (km_fresh (Kmalloc := pool_kmalloc) t D p). Qed.

(** Out of memory after the first object, [tmpfs_icreate] reports success and there
    is no file; [tmpfs_imkdir] stops the kernel. *)
Example create_lost :
  match run_tfs (KM := first_kmalloc 1) (tries := 3) 500 [Create [97] 420; Lookup [97]] home with Ok rs _ => rs = [(0, None); (- ENOENT, None)] | Stop _ => False end.
Proof. by vm_compute. Qed.
Example mkdir_panics : run_tfs (KM := first_kmalloc 1) (tries := 3) 500 [Mkdir [97] 493] home = Stop Panic.
Proof. by vm_compute. Qed.

(** [tmpfs_ireaddir] returns 0 with the entries it has stored, and -1 at the end. *)
Example readdir_returns_zero :
  match (_ ← tmpfs_icreate (KM := pool_kmalloc) 500 [97] 420; _ ← tmpfs_icreate (KM := pool_kmalloc) 500 [98] 420;
         x ← tmpfs_ireaddir (KM := pool_kmalloc) 500 0 true 1; y ← tmpfs_ireaddir (KM := pool_kmalloc) 500 1 true 4; z ← tmpfs_ireaddir (KM := pool_kmalloc) 500 2 true 4; mret (x, y, z)) home with
  | Ok r _ => r = ((0, [Dirent 2 FS_RGL 0 16 0 [97]]), (0, [Dirent 3 FS_RGL 1 16 0 [98]]), (- 1, []))
  | Stop _ => False
  end.
Proof. by vm_compute. Qed.
