(* ===== verification/Traverse.v ===== *)
(** * kernel/fs/vfs_traverse.c: walking a path

    The walk from a directory along the names of a parsed path, through the
    entries that are in memory and then through the driver.  The parsed path is a
    record; its strings are lists of bytes. *)

From S2P Require Import Prelude Dll Cond Lock Vfs Cred Inode Dentry File FdTable.

(** struct vfspath_t (include/fs/path.h) *)
Record vfspath_t := VfsPath {
  vp_flags : Z;
  vp_dentry : ptr;
  vp_absolute : option (list Z);
  vp_lasttoken : list Z;
  vp_tok_index : Z;
  vp_tokenized : list (list Z);
  vp_directory : ptr;
  vp_token : option (list Z);
}.
Definition vp_set_flags v p := VfsPath v (vp_dentry p) (vp_absolute p) (vp_lasttoken p) (vp_tok_index p) (vp_tokenized p) (vp_directory p) (vp_token p).
Definition vp_set_dentry v p := VfsPath (vp_flags p) v (vp_absolute p) (vp_lasttoken p) (vp_tok_index p) (vp_tokenized p) (vp_directory p) (vp_token p).
Definition vp_set_tok_index v p := VfsPath (vp_flags p) (vp_dentry p) (vp_absolute p) (vp_lasttoken p) v (vp_tokenized p) (vp_directory p) (vp_token p).
Definition vp_set_directory v p := VfsPath (vp_flags p) (vp_dentry p) (vp_absolute p) (vp_lasttoken p) (vp_tok_index p) (vp_tokenized p) v (vp_token p).
Definition vp_set_token v p := VfsPath (vp_flags p) (vp_dentry p) (vp_absolute p) (vp_lasttoken p) (vp_tok_index p) (vp_tokenized p) (vp_directory p) v.

Definition PATH_ISDIR : Z := 16.
Definition PATH_TOKEN_ISLAST : Z := 32.
Definition PATH_ABSOLUTE : Z := 64.
Definition vfspath_isdir (p : vfspath_t) : bool := has (vp_flags p) PATH_ISDIR.
Definition vfspath_isabsolute (p : vfspath_t) : bool := has (vp_flags p) PATH_ABSOLUTE.
Definition vfspath_set_lasttoken (p : vfspath_t) : vfspath_t := vp_set_flags (Z.lor (vp_flags p) PATH_TOKEN_ISLAST) p.

(** [static dentry_t *droot] (fs/vfs.c) *)
Class VfsRoot := { droot : ptr }.

Section traverse.
Context {D : Type} {KM : Kmalloc} {DR : Drivers D} {IC : Icache D} {VR : VfsRoot}.
Abbreviation MV := (M (vfs D)).

Definition vfs_getdroot : MV ptr :=
  if decide (droot = NULL) then mret NULL else dlock droot;; dopen droot;; mret droot.
Definition vfs_isroot (dentry : ptr) : bool := if decide (dentry = NULL ∨ droot = NULL) then false else bool_decide (dentry = droot).

(** The directory to start from when none is given. *)
Definition start_directory (path : vfspath_t) : MV (option vfspath_t) :=
  if decide (vp_directory path ≠ NULL) then mret (Some path) else
  fctx ← cur_fctx;
  path ← (if decide (fctx = NULL) then mret path else
    fctx_lock fctx;;
    c ← load (V := file_ctx_t) fctx;
    path ← (if decide (vp_directory path = fc_cwd c) then mret path else
      let dir := if vfspath_isabsolute path then fc_root c else fc_cwd c in
      dlock dir;; ddup dir;; mret (vp_set_directory dir path));
    fctx_unlock fctx;;
    mret path);
  if decide (vp_directory path ≠ NULL) then mret (Some path) else
  d ← vfs_getdroot;
  mret (if decide (d = NULL) then None else Some (vp_set_directory d path)).

(** The path is "/". *)
Definition traverse_root (path : vfspath_t) (cred : ptr) (oflags : Z) : MV (Z * vfspath_t) :=
  fctx ← cur_fctx;
  path ← (if decide (fctx = NULL) then mret path else
    fctx_lock fctx;;
    c ← load (V := file_ctx_t) fctx;
    path ← (if decide (vp_directory path = fc_root c) then mret path else
      when_ptr (vp_directory path) (dclose (vp_directory path));;
      dlock (fc_root c);; ddup (fc_root c);; mret (vp_set_directory (fc_root c) path));
    fctx_unlock fctx;;
    mret path);
  v ← load (V := dentry_t) (vp_directory path);
  err ← (if decide (d_inode v = NULL) then mret 0 else
    ilock (d_inode v);;
    err ← icheck_perm (d_inode v) cred oflags;
    iunlock (d_inode v);;
    mret err);
  if decide (err ≠ 0) then mret (err, path) else
  mret (0, vp_set_directory NULL (vp_set_dentry (vp_directory path) path)).

(** [done]: the directory is not needed any more. *)
Definition traverse_done (path : vfspath_t) : MV (Z * vfspath_t) :=
  dclose (vp_directory path);; mret (0, vp_set_directory NULL path).

(** The end of a round of either loop: [err] tells whether the entry found is a
    directory.  [inl] goes on, [inr] ends with an error. *)
Definition next_directory (path : vfspath_t) (token : list Z) (dentry : ptr) (err : Z) : MV (vfspath_t + Z * vfspath_t) :=
  if decide (token = vp_lasttoken path) then
    let path := vfspath_set_lasttoken path in
    if vfspath_isdir path && bool_decide (err = - ENOTDIR) then dclose dentry;; mret (inr (err, path)) else
    mret (inl (vp_set_dentry dentry path))
  else if decide (err = - ENOTDIR) then dclose dentry;; mret (inr (err, path)) else
  dclose (vp_directory path);;
  mret (inl (vp_set_directory dentry (vp_set_tok_index (vp_tok_index path + 1) path))).

Definition new_token (token : list Z) (path : vfspath_t) : vfspath_t := vp_set_token (Some token) (vp_set_dentry NULL path).

(** The inner loop: the driver is asked, and what it finds is entered in memory. *)
Fixpoint driver_loop (cred : ptr) (oflags : Z) (tokens : list (list Z)) (path : vfspath_t) : MV (Z * vfspath_t) :=
  match tokens with
  | [] => traverse_done path
  | token :: tokens =>
      let path := new_token token path in
      v ← load (V := dentry_t) (vp_directory path);
      ilock (d_inode v);;
      '(err, ip) ← ilookup (d_inode v) token;
      iunlock (d_inode v);;
      if decide (err ≠ 0) then mret (err, if decide (token = vp_lasttoken path) then vfspath_set_lasttoken path else path) else
      err ← icheck_perm ip cred oflags;
      if decide (err ≠ 0) then irelease ip;; mret (err, path) else
      '(err, dentry) ← imkalias ip (Some token) true;
      if decide (err ≠ 0) then irelease ip;; mret (err, path) else
      err ← dbind (vp_directory path) dentry;
      if decide (err ≠ 0) then irelease ip;; mret (err, path) else
      b ← IISDIR ip;
      irelease ip;;
      r ← next_directory path token dentry (if b : bool then 0 else - ENOTDIR);
      match r with inl path => driver_loop cred oflags tokens path | inr r => mret r end
  end.

(** The permission to look into a directory. *)
Definition enter_directory (ip cred : ptr) (oflags : Z) : MV Z :=
  ilock ip;;
  err ← icheck_perm ip cred oflags;
  if decide (err ≠ 0) then iunlock ip;; mret err else
  b ← IISDIR ip;
  iunlock ip;;
  mret (if b : bool then 0 else - ENOTDIR).

(** The outer loop, along the entries in memory. *)
Fixpoint traverse_loop (cred : ptr) (oflags : Z) (tokens : list (list Z)) (path : vfspath_t) : MV (Z * vfspath_t) :=
  match tokens with
  | [] => traverse_done path
  | token :: tokens =>
      let path := new_token token path in
      v ← load (V := dentry_t) (vp_directory path);
      err ← enter_directory (d_inode v) cred oflags;
      if decide (err ≠ 0) then mret (err, path) else
      '(err, found) ← dlookup (vp_directory path) (Some token) true;
      if decide (err = - ENOENT) then
        v ← load (V := dentry_t) (vp_directory path);
        if decide (d_inode v = NULL) then halt Panic else
        driver_loop cred oflags (drop (Z.to_nat (vp_tok_index path)) (vp_tokenized path)) path else
      if decide (err ≠ 0) then mret (err, path) else
      let dentry := default NULL found in
      w ← load (V := dentry_t) dentry;
      r ← (if decide (d_inode w = NULL) then mret (inl 0) else
        ilock (d_inode w);;
        err ← icheck_perm (d_inode w) cred oflags;
        if decide (err ≠ 0) then iunlock (d_inode w);; dclose dentry;; mret (inr err) else
        b ← IISDIR (d_inode w);
        iunlock (d_inode w);;
        mret (inl (if b : bool then 0 else - ENOTDIR)));
      match r with
      | inr err => mret (err, path)
      | inl err =>
          r ← next_directory path token dentry err;
          match r with inl path => traverse_loop cred oflags tokens path | inr r => mret r end
      end
  end.

Definition vfs_traverse_path (path : option vfspath_t) (cred : ptr) (oflags : Z) : MV (Z * option vfspath_t) :=
  match path with
  | None => mret (- EINVAL, None)
  | Some path =>
      r ← start_directory path;
      match r with
      | None => mret (- ENOTDIR, Some path)
      | Some path =>
          match vp_absolute path with
          | None => halt BadAccess
          | Some abs =>
              '(err, path) ← (if decide (abs = str_slash) then traverse_root path cred oflags
                else traverse_loop cred oflags (drop (Z.to_nat (vp_tok_index path)) (vp_tokenized path)) path);
              mret (err, Some path)
          end
      end
  end.
End traverse.
