(* ===== verification/TraverseProps.v ===== *)
(** * Where a walk ends

    A directory that the caller has taken (one reference, locked) is exchanged for
    the entry at the end of the walk; everything else is as it was. *)

From S2P Require Import Prelude Dll Cond Lock Vfs Cred Inode Dentry DentrySpec File FdTable Traverse.

Section walk.
Context {D : Type} {KM : Kmalloc} {DR : Drivers D} {IC : Icache D} {VR : VfsRoot}.
Implicit Types (s : vfs D) (m : gmap ptr dentry_t) (i : inode_t) (w : dentry_t).

(** The state [s] with the entries [m], in which [d] is taken. *)
Definition held s m (d : ptr) : vfs D := set_dentries (alter taken d m) s.

(** An unlocked inode, and what its owner allows the caller. *)
Definition inode_is s (ip : ptr) i : Prop := ip ≠ NULL ∧ v_inodes s !! ip = Some i ∧ i_lock i = false.
Definition perm s (cr : ptr) (oflags : Z) i : bool :=
  if decide (cr = NULL) then true else match v_creds s !! cr with Some c => granted i c oflags | None => false end.
Definition cred_ok s (cr : ptr) : Prop := cr = NULL ∨ ∃ c, v_creds s !! cr = Some c ∧ c_lock c = false.

Lemma wp_perm s ip cr oflags i (Q : Z -> vfs D -> Prop) :
  ip ≠ NULL -> v_inodes s !! ip = Some i -> i_lock i = true -> cred_ok s cr ->
  Q (if perm s cr oflags i then 0 else - EACCES) s -> wp (icheck_perm ip cr oflags) s Q.
Proof.
  intros Hip Hi Hl Hc HQ. unfold perm in HQ. destruct (decide (cr = NULL)) as [->|Hcr].
  - unfold icheck_perm. rewrite decide_False by done. rewrite decide_True by done. by apply wp_ret.
  - destruct Hc as [?|(c & Hc & Hcl)]; [done|]. rewrite Hc in HQ. by apply (wp_icheck_perm s ip cr i c).
Qed.
Lemma perm_lock s cr oflags i b : perm s cr oflags (i_set_lock b i) = perm s cr oflags i.
Proof. unfold perm. case_decide; [done|]. by destruct (v_creds s !! cr). Qed.

(** An inode is locked for a while. *)
Definition ilocked s (ip : ptr) i : vfs D := set_inodes (<[ip := i_set_lock true i]> (v_inodes s)) s.
Lemma wp_ilock s ip i (Q : unit -> vfs D -> Prop) : inode_is s ip i -> Q tt (ilocked s ip i) -> wp (ilock ip) s Q.
Proof. intros (H1 & H2 & H3) HQ. by eapply wp_obj_lock. Qed.
Lemma wp_iunlock s ip i (Q : unit -> vfs D -> Prop) : inode_is s ip i -> Q tt s -> wp (iunlock ip) (ilocked s ip i) Q.
Proof.
  intros (H1 & H2 & H3) HQ. eapply (wp_obj_unlock _ _ (i_set_lock true i)); [done|simpl; by rewrite lookup_insert_eq|done|]. simpl. rewrite insert_insert_eq, insert_id; [by destruct s|].
  rewrite H2. f_equal. destruct i; simpl in *. by subst.
Qed.
Lemma wp_locked_perm s ip i cr oflags (Q : Z -> vfs D -> Prop) :
  inode_is s ip i -> cred_ok s cr -> Q (if perm s cr oflags i then 0 else - EACCES) (ilocked s ip i) -> wp (icheck_perm ip cr oflags) (ilocked s ip i) Q.
Proof.
  intros (H1 & H2 & H3) Hc HQ. eapply wp_perm; [done|apply lookup_insert_eq|done|done|]. by rewrite perm_lock.
Qed.
Lemma wp_locked_isdir s ip i (Q : bool -> vfs D -> Prop) :
  inode_is s ip i -> Q (bool_decide (i_type i = FS_DIR)) (ilocked s ip i) -> wp (IISDIR ip) (ilocked s ip i) Q.
Proof.
  intros (H1 & H2 & H3) HQ. unfold IISDIR, IISTYPE. wp_step. eapply (wp_obj_assert_locked _ _ (i_set_lock true i)); [done|apply lookup_insert_eq|done|].
  wp_step. eapply wp_load; [done|apply lookup_insert_eq|]. by apply wp_ret.
Qed.

(** What the permission check and the type of an inode say. *)
Definition status s (cr : ptr) (oflags : Z) i : Z :=
  if perm s cr oflags i then if decide (i_type i = FS_DIR) then 0 else - ENOTDIR else - EACCES.
Lemma wp_enter_directory s ip i cr oflags (Q : Z -> vfs D -> Prop) :
  inode_is s ip i -> cred_ok s cr -> Q (status s cr oflags i) s -> wp (enter_directory ip cr oflags) s Q.
Proof.
  intros Hi Hc HQ. unfold enter_directory, status in *. wp_step. eapply wp_ilock; [done|]. wp_step. eapply wp_locked_perm; [done|done|].
  destruct (perm s cr oflags i).
  - rewrite decide_False by (by intros []). wp_step. eapply wp_locked_isdir; [done|]. wp_step. eapply wp_iunlock; [done|]. apply wp_ret.
    destruct (decide (i_type i = FS_DIR)); [by rewrite bool_decide_true|by rewrite bool_decide_false].
  - rewrite decide_True by done. wp_step. eapply wp_iunlock; [done|]. by apply wp_ret.
Qed.

(** Releasing an entry that others refer to. *)
Lemma wp_dclose_held s m d w (Q : unit -> vfs D -> Prop) :
  d ≠ NULL -> m !! d = Some w -> d_lock w = false -> 1 <= d_count w -> Q tt (set_dentries m s) -> wp (dclose d) (held s m d) Q.
Proof.
  intros Hd Hw Hl Hc HQ. assert (alter taken d m !! d = Some (taken w)) as Ht by (by rewrite lookup_alter_eq, Hw).
  unfold dclose. wp_step. unfold dislocked. wp_step. eapply wp_load; [done|exact Ht|]. apply wp_ret. cbn [taken d_lock d_set_count d_set_lock negb when]. wp_step. apply wp_ret.
  unfold dput. do 2 wp_step. eapply wp_dassert_locked; [done|exact Ht|done|]. eapply wp_dupd; [done|by eexists|]. unfold dget_count. do 2 wp_step.
  assert (∀ f, alter f d (alter taken d m) !! d = Some (f (taken w))) as Hf by (intros f; by rewrite lookup_alter_eq, Ht).
  eapply wp_dassert_locked; [done|apply Hf|done|]. wp_step. eapply wp_load; [done|apply Hf|]. apply wp_ret. cbn [d_count d_set_count taken d_set_lock]. rewrite decide_False by lia.
  eapply wp_dunlock; [done|apply Hf|done|]. rewrite !set_dentries_twice. replace (alter (d_set_lock false) d _) with m; [done|]. unfold held. rewrite !dm_set. apply map_eq. intros q. destruct (decide (q = d)) as [->|Hne].
  - rewrite lookup_alter_eq. rewrite Hf, Hw. simpl. f_equal. unfold taken, d_set_lock, d_set_count. cbn. rewrite Z.add_simpl_r. destruct w; simpl in *. by subst.
  - by rewrite !lookup_alter_ne.
Qed.

(** ** Walks *)

Section rules.
Context (s : vfs D) (m : gmap ptr dentry_t) (cr : ptr) (oflags : Z) (last : list Z) (isdir : bool).

(** The entry [k] has the name [token] in the directory [d]; nobody holds their
    locks and others refer to them. *)
Record hop (d : ptr) (token : list Z) (k : ptr) : Prop := {
  hp_dots : token ≠ str_dot ∧ token ≠ str_dotdot;
  hp_dir : ∃ w xs, dirrep m (v_names s) d w xs ∧ idle xs ∧ d_lock w = false ∧ 1 <= d_count w ∧
    ∃ ys1 dk ys2, xs = ys1 ++ (k, dk) :: ys2 ∧ name_of (v_names s) dk = token ∧ 1 <= d_count dk;
}.
(** What the caller may do with an entry: 0 for a directory and for an entry
    without an inode. *)
Definition entry_status (k : ptr) (st : Z) : Prop :=
  ∃ w, m !! k = Some w ∧ if decide (d_inode w = NULL) then st = 0 else ∃ i, inode_is s (d_inode w) i ∧ st = status s cr oflags i.
Definition dir_status (d : ptr) (st : Z) : Prop := d ≠ NULL ∧ ∃ w i, m !! d = Some w ∧ inode_is s (d_inode w) i ∧ st = status s cr oflags i.

(** [walk d tokens r e d']: from [d] along the tokens, with the result [r]; on
    success [e] is the entry reached, else [d'] the directory of the error. *)
Inductive walk : ptr -> list (list Z) -> Z -> ptr -> ptr -> Prop :=
  | w_stop d token tokens st : dir_status d st -> st ≠ 0 -> walk d (token :: tokens) st NULL d
  | w_denied d token tokens k : dir_status d 0 -> hop d token k -> entry_status k (- EACCES) -> walk d (token :: tokens) (- EACCES) NULL d
  | w_file d token tokens k : dir_status d 0 -> hop d token k -> entry_status k (- ENOTDIR) -> token ≠ last ∨ isdir = true ->
      walk d (token :: tokens) (- ENOTDIR) NULL d
  | w_last d k st : dir_status d 0 -> hop d last k -> entry_status k st -> st = 0 ∨ st = - ENOTDIR ∧ isdir = false -> walk d [last] 0 k NULL
  | w_step d token k tokens r e d' : dir_status d 0 -> hop d token k -> token ≠ last -> entry_status k 0 -> walk k tokens r e d' ->
      walk d (token :: tokens) r e d'.

Lemma hop_kid d token k : hop d token k -> d ≠ NULL ∧ k ≠ NULL ∧ k ≠ d ∧ (∃ w, m !! d = Some w ∧ d_lock w = false ∧ 1 <= d_count w) ∧ ∃ w, m !! k = Some w ∧ d_lock w = false ∧ 1 <= d_count w.
Proof.
  intros [_ (w & xs & Hd & Hi & Hl & Hc & ys1 & dk & ys2 & -> & Hn & Hk)]. destruct (dirrep_kid _ _ _ _ _ _ _ _ Hd) as (H1 & H2 & _ & H3). split; [apply Hd|]. split; [done|]. split; [done|]. split.
  - exists w. split_and!; [apply Hd|done|done].
  - eexists. split; [exact H2|]. split; [exact (idle_mid _ _ _ _ Hi)|done].
Qed.
Lemma wp_hop d token k (Q : Z * option ptr -> vfs D -> Prop) :
  hop d token k -> Q (0, Some k) (held s (alter taken d m) k) -> wp (dlookup d (Some token) true) (held s m d) Q.
Proof.
  intros [[H1 H2] (w & xs & Hd & Hi & Hl & Hc & ys1 & dk & ys2 & Hx & Hn & _)] HQ. eapply wp_dlookup; [apply (dirrep_dir _ _ _ _ _ taken Hd); done|done|done|done|done|..].
  - intros Hni. exfalso. apply Hni. subst xs. unfold names_of. rewrite fmap_app. apply elem_of_app. right. rewrite <- Hn. left.
  - intros zs1 p dp zs2 Hx' Hn'. assert (p = k) as ->; [|exact HQ]. rewrite Hx in Hx'. pose proof (dr_names _ _ _ _ _ Hd) as Hnd. rewrite Hx in Hnd.
    assert (names_of (v_names s) (ys1 ++ (k, dk) :: ys2) !! length ys1 = Some token) as L1.
    { unfold names_of. by rewrite list_lookup_fmap, list_lookup_middle, <- Hn by done. }
    assert (names_of (v_names s) (ys1 ++ (k, dk) :: ys2) !! length zs1 = Some token) as L2.
    { rewrite Hx'. unfold names_of. rewrite list_lookup_fmap, list_lookup_middle by done. simpl. by rewrite <- Hn'. }
    pose proof (NoDup_lookup _ _ _ _ Hnd L1 L2) as E. apply (f_equal (λ l, l !! length ys1)) in Hx'. rewrite list_lookup_middle in Hx' by done. rewrite E, list_lookup_middle in Hx' by done. by injection Hx'.
Qed.
End rules.

Lemma has_islast f : has (Z.lor f PATH_TOKEN_ISLAST) PATH_ISDIR = has f PATH_ISDIR.
Proof. unfold has. f_equal. rewrite Z.land_lor_distr_l. change (Z.land PATH_TOKEN_ISLAST PATH_ISDIR) with 0. by rewrite Z.lor_0_r. Qed.

(** The two marks do not meet. *)
Lemma held_swap s m d k : k ≠ d -> held s (alter taken d m) k = held s (alter taken k m) d.
Proof. intros Hne. unfold held. f_equal. by apply alter_alter_ne. Qed.

Section run.
Context (s : vfs D) (m : gmap ptr dentry_t) (cr : ptr) (oflags : Z) (last : list Z) (isdir : bool) (Hc : cred_ok s cr).
Abbreviation both d k := (held s (alter taken d m) k).

Lemma wp_drop_kid d token k (Q : unit -> vfs D -> Prop) : hop s m d token k -> Q tt (held s m d) -> wp (dclose k) (both d k) Q.
Proof.
  intros (_ & Hk & Hne & _ & w & Hw & Hl & Hn)%hop_kid HQ. eapply wp_dclose_held; [done| |done|done|done]. by rewrite lookup_alter_ne by done.
Qed.
Lemma wp_drop_dir d token k (Q : unit -> vfs D -> Prop) : hop s m d token k -> Q tt (held s m k) -> wp (dclose d) (both d k) Q.
Proof.
  intros (Hd & _ & Hne & (w & Hw & Hl & Hn) & _)%hop_kid HQ. rewrite held_swap by done. eapply wp_dclose_held; [done| |done|done|done]. by rewrite lookup_alter_ne by done.
Qed.

(** A round of the loop up to the entry found. *)
Lemma wp_round d token tokens k st path (Q : Z * vfspath_t -> vfs D -> Prop) :
  dir_status s m cr oflags d 0 -> hop s m d token k -> entry_status s m cr oflags k st -> vp_directory path = d ->
  (if decide (st = - EACCES) then Q (- EACCES, new_token token path) (held s m d)
   else wp (r ← next_directory (new_token token path) token k st; match r with inl path => traverse_loop cr oflags tokens path | inr r => mret r end) (both d k) Q) ->
  wp (traverse_loop cr oflags (token :: tokens) path) (held s m d) Q.
Proof.
  intros (Hd & w & i & Hw & Hi & Hst) Hh (wk & Hwk & Hek) Hp HQ. cbn [traverse_loop]. change (vp_directory (new_token token path)) with (vp_directory path). rewrite Hp.
  wp_step. eapply (wp_load _ (taken w)); [done|simpl; by rewrite lookup_alter_eq, Hw|]. wp_step. change (d_inode (taken w)) with (d_inode w). eapply (wp_enter_directory (held s m d)); [exact Hi|exact Hc|]. change (status (held s m d) cr oflags i) with (status s cr oflags i).
  rewrite <- Hst. rewrite decide_False by (by intros []). wp_step. eapply wp_hop; [exact Hh|]. rewrite decide_False by done. rewrite decide_False by (by intros []). cbn [default from_option id].
  pose proof (hop_kid _ _ _ _ _ Hh) as (_ & Hk & Hne & _ & _). wp_step. eapply (wp_load _ (taken wk)); [done|simpl; by rewrite lookup_alter_eq, lookup_alter_ne, Hwk|].
  change (d_inode (taken wk)) with (d_inode wk). wp_step. destruct (decide (d_inode wk = NULL)).
  - subst st. rewrite decide_False in HQ by done. apply wp_ret. exact HQ.
  - destruct Hek as (j & Hj & ->). unfold status in HQ. wp_step. eapply (wp_ilock (both d k)); [exact Hj|]. wp_step. eapply (wp_locked_perm (both d k)); [exact Hj|exact Hc|].
    change (perm (both d k) cr oflags j) with (perm s cr oflags j). destruct (perm s cr oflags j).
    + rewrite decide_False by (by intros []). wp_step. eapply (wp_locked_isdir (both d k)); [exact Hj|]. wp_step. eapply (wp_iunlock (both d k)); [exact Hj|]. apply wp_ret.
      destruct (decide (i_type j = FS_DIR)); rewrite decide_False in HQ by done; [by rewrite bool_decide_true|by rewrite bool_decide_false].
    + rewrite decide_True in HQ by done. rewrite decide_True by done. wp_step. eapply (wp_iunlock (both d k)); [exact Hj|]. wp_step. eapply wp_drop_kid; [exact Hh|]. apply wp_ret. by apply wp_ret.
Qed.

Lemma wp_walk d tokens r e d' : walk s m cr oflags last isdir d tokens r e d' ->
  ∀ path, vp_directory path = d -> vp_lasttoken path = last -> vfspath_isdir path = isdir ->
  wp (traverse_loop cr oflags tokens path) (held s m d) (λ x s', x.1 = r ∧ vp_dentry x.2 = e ∧ vp_directory x.2 = d' ∧ s' = held s m (if decide (r = 0) then e else d')).
Proof.
  induction 1 as [d token tokens st (Hd & w & i & Hw & Hi & ->) Hne|d token tokens k Hd Hh He|d token tokens k Hd Hh He Hl|d k st Hd Hh He Hst|d token k tokens r e d' Hd Hh Hl He Hw IH]; intros path Hp Hlast Hdir.
  - cbn [traverse_loop]. change (vp_directory (new_token token path)) with (vp_directory path). rewrite Hp. wp_step. eapply (wp_load _ (taken w)); [done|simpl; by rewrite lookup_alter_eq, Hw|].
    wp_step. change (d_inode (taken w)) with (d_inode w). eapply (wp_enter_directory (held s m d)); [exact Hi|exact Hc|]. change (status (held s m d) cr oflags i) with (status s cr oflags i). rewrite decide_True by done. apply wp_ret. by rewrite decide_False by done.
  - eapply wp_round; [exact Hd|exact Hh|exact He|done|]. by rewrite decide_True.
  - eapply wp_round; [exact Hd|exact Hh|exact He|done|]. rewrite decide_False by done. wp_step. unfold next_directory. change (vp_lasttoken (new_token token path)) with (vp_lasttoken path). rewrite Hlast.
    destruct (decide (token = last)) as [->|Hne].
    + unfold vfspath_isdir, vfspath_set_lasttoken. cbn [vp_flags vp_set_flags new_token vp_set_token vp_set_dentry]. rewrite has_islast. unfold vfspath_isdir in Hdir. rewrite Hdir. destruct Hl as [?| ->]; [done|].
      rewrite bool_decide_true by done. cbn [andb]. wp_step. eapply wp_drop_kid; [exact Hh|]. apply wp_ret, wp_ret. by split_and!.
    + rewrite decide_True by done. wp_step. eapply wp_drop_kid; [exact Hh|]. apply wp_ret, wp_ret. by split_and!.
  - assert (st ≠ - EACCES) as Hna by (by destruct Hst as [->|[-> _]]). eapply wp_round; [exact Hd|exact Hh|exact He|done|]. rewrite decide_False by done. wp_step. unfold next_directory. change (vp_lasttoken (new_token last path)) with (vp_lasttoken path).
    rewrite Hlast, decide_True by done. unfold vfspath_isdir, vfspath_set_lasttoken. cbn [vp_flags vp_set_flags new_token vp_set_token vp_set_dentry]. rewrite has_islast. unfold vfspath_isdir in Hdir. rewrite Hdir.
    assert (isdir && bool_decide (st = - ENOTDIR) = false) as -> by (by destruct Hst as [->|[-> ->]]; [destruct isdir|]). apply wp_ret. cbn [traverse_loop]. unfold traverse_done. match goal with |- context [dclose ?x] => change x with (vp_directory path) end. rewrite Hp.
    wp_step. eapply wp_drop_dir; [exact Hh|]. apply wp_ret. by split_and!.
  - eapply wp_round; [exact Hd|exact Hh|exact He|done|]. rewrite decide_False by done. wp_step. unfold next_directory. change (vp_lasttoken (new_token token path)) with (vp_lasttoken path). rewrite Hlast.
    rewrite decide_False by done. rewrite decide_False by done. change (vp_directory (new_token token path)) with (vp_directory path). rewrite Hp. wp_step. eapply wp_drop_dir; [exact Hh|]. apply wp_ret. by apply IH.
Qed.
End run.
End walk.

Section theorem.
Context {D : Type} {KM : Kmalloc} {DR : Drivers D} {IC : Icache D} {VR : VfsRoot}.

End theorem.
