(* ===== verification/TraverseEx.v ===== *)
(** * A small tree of directories

    A state in which [vfs_traverse_walks] applies, and paths on which the walk goes
    wrong. *)

From S2P Require Import Prelude Dll Cond Lock Vfs Cred Inode Dentry DentrySpec File FdTable Traverse TraverseProps.

#[local] Instance no_tables : Drivers unit := {| iops_at _ := None |}.
#[local] Instance no_cache : Icache unit := {|
  icache_alloc := halt BadAccess; icache_free _ := halt BadAccess; icache_set_inode _ _ := halt BadAccess; icache_lock _ := halt BadAccess; icache_unlock _ := halt BadAccess;
  icache_read _ _ _ := halt BadAccess; icache_write _ _ _ := halt BadAccess |}.
#[local] Instance root100 : VfsRoot := {| droot := 100 |}.

Definition usr : list Z := [117; 115; 114].
Definition bin : list Z := [98; 105; 110].
Definition ent (name inode parent child : ptr) : dentry_t := Dentry name 0 inode 1 NULL NULL NULL NULL NULL parent child false.
(** "/" is 100, "/usr" 110, and "/usr/bin" 120, a file of user 7. *)
Definition tree : gmap ptr dentry_t := {[100 := ent 10 200 NULL 110; 110 := ent 11 210 100 120; 120 := ent 12 220 110 NULL]}.
Definition node (ty : itype_t) (mode : Z) : inode_t := Inode 0 7 7 ty 0 mode 0 0 1 1 NULL NULL NULL NULL NULL NULL NULL false.
Definition disk : vfs unit :=
  Vfs {[10 := str_slash; 11 := usr; 12 := bin]} tree {[200 := node FS_DIR 493; 210 := node FS_DIR 493; 220 := node FS_RGL 384]} ∅ ∅ ∅
    {[300 := Vfs.Cred 5 5 5 5 5 5 0 false; 301 := Vfs.Cred 7 7 7 7 7 7 0 false]} ∅ (Thread NULL NULL false) tt 0.
Definition path_to (flags : Z) (tokens : list (list Z)) (last : list Z) : vfspath_t := VfsPath flags NULL (Some []) last 0 tokens 100 None.

(** A directory with one entry. *)
Lemma hop_only d k w wk token :
  d ≠ NULL -> tree !! d = Some w -> d_lock w = false -> 1 <= d_count w -> d_child w = k -> k ≠ NULL -> k ≠ d -> tree !! k = Some wk -> d_mk NULL wk NULL = wk ->
  d_lock wk = false -> 1 <= d_count wk -> kid_ok (v_names disk) d wk -> name_of (v_names disk) wk = token -> token ≠ str_dot -> token ≠ str_dotdot -> hop disk tree d token k.
Proof.
  intros Hd Hw Hl Hc Hch Hk Hne Hwk Hmk Hkl Hkc Hok Hn H1 H2. split; [done|]. exists w, [(k, wk)]. split_and!; [|by constructor|done|done|by exists [], wk, []].
  split; [done|done| |simpl; set_solver|by constructor|apply NoDup_singleton]. repeat split; [by rewrite Hch|apply NoDup_singleton|simpl; set_solver|]. simpl. by rewrite Hmk.
Qed.
Lemma hop_usr : hop disk tree 100 usr 110.
Proof. by eapply hop_only. Qed.
Lemma hop_bin : hop disk tree 110 bin 120.
Proof. by eapply hop_only. Qed.
Lemma disk_entry cr k w i st : tree !! k = Some w -> d_inode w ≠ NULL -> v_inodes disk !! d_inode w = Some i -> i_lock i = false -> st = status disk cr 0 i -> entry_status disk tree cr 0 k st.
Proof. intros H1 H2 H3 H4 ->. exists w. split; [done|]. rewrite decide_False by done. by exists i. Qed.
Lemma disk_dir cr d w i st : d ≠ NULL -> tree !! d = Some w -> d_inode w ≠ NULL -> v_inodes disk !! d_inode w = Some i -> i_lock i = false -> st = status disk cr 0 i -> dir_status disk tree cr 0 d st.
Proof. intros H0 H1 H2 H3 H4 ->. split; [done|]. by exists w, i. Qed.

(** The owner reaches the file; another user is refused at the end, and so is a
    path that ends in a slash. *)
Lemma walk_owner : walk disk tree 301 0 bin false 100 [usr; bin] 0 120 NULL.
Proof.
  eapply (w_step _ _ _ _ _ _ 100 usr 110); [by eapply (disk_dir 301 100)|apply hop_usr|done|by eapply (disk_entry 301 110)|].
  eapply (w_last _ _ _ _ _ _ 110 120 (- ENOTDIR)); [by eapply (disk_dir 301 110)|apply hop_bin|by eapply (disk_entry 301 120)|by right].
Qed.
Lemma walk_other : walk disk tree 300 0 bin false 100 [usr; bin] (- EACCES) NULL 110.
Proof.
  eapply (w_step _ _ _ _ _ _ 100 usr 110); [by eapply (disk_dir 300 100)|apply hop_usr|done|by eapply (disk_entry 300 110)|].
  eapply (w_denied _ _ _ _ _ _ 110 bin [] 120); [by eapply (disk_dir 300 110)|apply hop_bin|by eapply (disk_entry 300 120)].
Qed.
Lemma disk_cred cr : cr = 300 ∨ cr = 301 -> cred_ok disk cr.
Proof. intros [->| ->]; right; by eexists. Qed.

(** A name on the way that equals the last token is taken for it: the walk of
    "usr/bin/usr" keeps the entry "usr" locked and looks for "bin" in the root, where
    it meets the lock it holds, and the kernel stops. *)
Example repeated_name_panics : vfs_traverse_path (KM := bump_kmalloc) (Some (path_to 0 [usr; bin; usr] usr)) 301 0 (held disk tree 100) = Stop Panic.
Proof. by vm_compute. Qed.
