(* ===== verification/Path.v ===== *)
(** * kernel/fs/path.c and kernel/fs/vfspath.c: parsing of paths

    The checks and the parsing of path names on the byte memory of CString.v, with
    the arrays of tokens and the result struct in that memory.  String literals are
    objects at given addresses. *)

From S2P Require Import Prelude CString CStringSpec CStringProps.

(** ** Constants *)

Definition MAXFNAME : Z := 255.
Definition PATH_NOABS : Z := 1.
Definition PATH_NOTOKENIZED : Z := 2.
Definition PATH_VERIFY_ONLY : Z := 4.
Definition PATH_NOLAST_TOK : Z := 8.
Definition PATH_ISDIR : Z := 16.
Definition PATH_ABSOLUTE : Z := 64.
Definition flag (flags bit : Z) : bool := bool_decide (Z.land flags bit ≠ 0).

(** "/", "." and "..". *)
Class PathLits := { lit_slash : Z; lit_dot : Z; lit_dotdot : Z }.

(** The members of struct vfspath_t, by offset; [flags] is an [int]. *)
Definition vp_flags (p : Z) : Z := p.
Definition vp_absolute (p : Z) : Z := p + 16.
Definition vp_lasttoken (p : Z) : Z := p + 24.
Definition vp_tokencount (p : Z) : Z := p + 40.
Definition vp_tokenized (p : Z) : Z := p + 48.
Definition sizeof_vfspath : Z := 72.

(** ** The characters of a path *)

(** The tests of the loop, on a [char]. *)
Definition bad_char (c : Z) : bool :=
  bool_decide (c = 10) || bool_decide (c = 9) || bool_decide (c < 32) || bool_decide (c = 92) || bool_decide (c = 127) ||
  bool_decide (c = schar 129) || bool_decide (c = schar 141) || bool_decide (c = schar 157) || bool_decide (c = schar 160) || bool_decide (c = schar 173) ||
  bool_decide (c = 13).
Definition verify_path (path : Z) : M cmem Z :=
  if decide (path = 0) then mret (- ENOTNAM) else
  c ← ldc path;
  if decide (c = 0) then mret (- ENOTNAM) else
  scan (λ p, c ← ldc p; if decide (c = 0) then mret (inr 0) else if bad_char c then mret (inr (- ENOTNAM)) else mret (inl (p + 1))) path.

Section parse.
Context {BA : Balloc} {PL : PathLits}.

(** The block is cleared also when there is none. *)
Definition kcalloc (nobj size : Z) : M cmem Z :=
  let real_size := u64 (s32 (nobj * size)) in
  p ← kmalloc real_size;
  memset p 0 real_size;;
  mret p.
Definition free_if (p : Z) : M cmem unit := if decide (p ≠ 0) then kfree p else mret tt.
Definition tokens_free_if (p : Z) : M cmem unit := if decide (p ≠ 0) then tokens_free p else mret tt.

(** [foreach (token, list)]: the body goes on with [inl] or leaves with [inr]. *)
Definition foreach {A B} (list : Z) (body : Z -> A -> M cmem (A + B)) (x : A) : M cmem (A + B) :=
  if decide (list = 0) then mret (inl x) else
  scan (λ '(p, x), t ← ldn 8 p; if decide (t = 0) then mret (inr (inl x)) else r ← body t x; match r with inl x => mret (inl (p + 8, x)) | inr b => mret (inr (inr b)) end) (list, x).

(** ** vfspath.c *)

(** [snprintf(dst, n, "%s%c", token, c)]: at most [n - 1] characters and a 0. *)
Definition snprintf_sc (dst n token c : Z) : M cmem unit :=
  len ← strlen token;
  memcpy dst token (len `min` (n - 1));;
  (if decide (len < n - 1) then stb (dst + len) c else mret tt);;
  stb (dst + (len + 1) `min` (n - 1)) 0.

(** The tokens without "." and ".."; the number of them. *)
Definition clean_tokens (canonical tokenized : Z) : M cmem Z :=
  r ← foreach (B := Empty_set) canonical (λ token index,
    d ← string_eq lit_dot token;
    if d : bool then kfree token;; mret (inl index) else
    d ← string_eq lit_dotdot token;
    if d : bool then kfree token;; mret (inl (if decide (index > 0) then index - 1 else index)) else
    stw (tokenized + 8 * index) token;; mret (inl (index + 1))) 0;
  mret (match r with inl index => index | inr b => match b : Empty_set with end end).

(** The tokens joined: the string, or the error and the string so far. *)
Definition join_tokens (tokenized lasttoken : Z) (isdir : bool) : M cmem ((Z * Z * Z) + (Z * Z)) :=
  foreach tokenized (λ token '(absolute, pathlen, index),
    tokenlen ← strlen token;
    if decide (tokenlen > MAXFNAME) then mret (inr (- ENAMETOOLONG, absolute)) else
    let pathlen := pathlen + (tokenlen + 1) in
    let ends := bool_decide (token = lasttoken) && negb isdir in
    let pathlen := if decide (token = lasttoken) then (if isdir then pathlen else pathlen - 1) else pathlen + 1 in
    let seperator := if ends then 0 else 47 in
    tmp ← krealloc absolute pathlen;
    if decide (tmp = 0) then mret (inr (- ENOMEM, absolute)) else
    let nchar := tokenlen + (if decide (seperator = 0) then 1 else 2) in
    snprintf_sc (tmp + index) nchar token seperator;;
    mret (inl (tmp, pathlen, index + (nchar - 1)))) (0, 0, 0).

Definition vfspath_parse (pathname flags : Z) (rp : bool) : M cmem (Z * Z) :=
  if decide (pathname = 0) then mret (- ENOTNAM, 0) else
  c ← ldc pathname;
  if decide (c = 0) then mret (- ENOTNAM, 0) else
  err ← verify_path pathname;
  if decide (err ≠ 0) then mret (err, 0) else
  let flags := if decide (c = 47) then Z.lor flags PATH_ABSOLUTE else flags in
  if flag flags PATH_VERIFY_ONLY then mret (0, 0) else
  if negb rp then mret (- EINVAL, 0) else
  tmppath ← strdup pathname;
  if decide (tmppath = 0) then mret (- ENOMEM, 0) else
  n ← strlen tmppath;
  c ← ldc (tmppath + (n - 1));
  let isdir := bool_decide (c = 47) in
  '(err, (canonical, pathtoks, lasttoken)) ← canonicalize_path tmppath true;
  if decide (err ≠ 0) then kfree tmppath;; tokens_free_if canonical;; mret (err, 0) else
  tokenized ← kcalloc (pathtoks + 1) 8;
  if decide (tokenized = 0) then kfree tmppath;; tokens_free_if canonical;; mret (- ENOMEM, 0) else
  pathtoks ← clean_tokens canonical tokenized;
  let error1 (err absolute : Z) : M cmem (Z * Z) :=
    kfree tmppath;; tokens_free tokenized;; free_if canonical;; free_if absolute;; mret (err, 0) in
  r ← (if flag flags PATH_NOABS then mret (inl 0) else
    r ← join_tokens tokenized lasttoken isdir;
    match r with
    | inr e => mret (inr e)
    | inl (absolute, _, _) =>
        if decide (absolute ≠ 0) then mret (inl absolute) else
        absolute ← strdup lit_slash;
        if decide (absolute = 0) then mret (inr (- ENOMEM, 0)) else mret (inl absolute)
    end);
  match r with
  | inr (err, absolute) => error1 err absolute
  | inl absolute =>
      vfspath ← kcalloc 1 sizeof_vfspath;
      if decide (vfspath = 0) then error1 (- ENOMEM) absolute else
      f ← ldn 4 (vp_flags vfspath);
      stn 4 (vp_flags vfspath) (Z.lor f (Z.lor flags (if isdir then PATH_ISDIR else 0)));;
      (if flag flags PATH_NOTOKENIZED then tokens_free tokenized
       else stw (vp_tokencount vfspath) pathtoks;; stw (vp_tokenized vfspath) tokenized);;
      stw (vp_absolute vfspath) absolute;;
      stw (vp_lasttoken vfspath) lasttoken;;
      kfree tmppath;;
      kfree canonical;;
      mret (0, vfspath)
  end.

(** ** path.c *)

(** The tokens of [parse_path]: ".." is sought with [combine_strings], which returns
    a new string.  The number of tokens and the last one. *)
Definition old_tokens (tmptokens tokens : Z) : M cmem (Z * Z) :=
  r ← foreach (B := Empty_set) tmptokens (λ token '(tok_i, last),
    c ← compare_strings lit_dot token;
    if decide (c = 0) then mret (inl (tok_i, last)) else
    c ← combine_strings lit_dotdot token;
    if decide (c = 0) then mret (inl (if decide (tok_i > 0) then tok_i - 1 else tok_i, last)) else
    stw (tokens + 8 * tok_i) token;; mret (inl (tok_i + 1, token))) (0, 0);
  mret (match r with inl x => x | inr b => match b : Empty_set with end end).

(** The absolute path; [tok_i] is the number of tokens. *)
Definition old_join (tokens tok_i abs : Z) : M cmem ((Z * Z) + (Z * Z)) :=
  foreach tokens (λ token '(abs, abslen),
    tokenlen ← strlen token;
    let abslen := abslen + tokenlen in
    if decide (tokenlen > MAXFNAME) then mret (inr (- ENAMETOOLONG, abs)) else
    tmp ← krealloc abs (abslen + 1);
    if decide (tmp = 0) then mret (inr (- ENOMEM, abs)) else
    strncpy (tmp + (abslen - tokenlen)) token tokenlen;;
    final ← ldn 8 (tokens + 8 * (tok_i - 1));
    if decide (token ≠ final) then stb (tmp + abslen) 47;; mret (inl (tmp, abslen + 1))
    else stb (tmp + abslen) 0;; mret (inl (tmp, abslen))) (abs, 1).

Definition parse_path (pathname cwd flags : Z) (pref : bool) : M cmem (Z * Z) :=
  if decide (pathname = 0) then mret (- ENOTNAM, 0) else
  c ← ldc pathname;
  if decide (c = 0) then mret (- ENOTNAM, 0) else
  let cwd := if decide (c = 47 ∨ cwd = 0) then lit_slash else cwd in
  d ← ldc cwd;
  if decide (d = 0) then mret (- ENOTNAM, 0) else
  err ← verify_path cwd;
  if decide (err ≠ 0) then mret (err, 0) else
  err ← verify_path pathname;
  if decide (err ≠ 0) then mret (err, 0) else
  if flag flags PATH_VERIFY_ONLY then mret (0, 0) else
  if negb pref then mret (- EINVAL, 0) else
  (* a working directory without a slash gets one *)
  r ← (if decide (d ≠ 47) then
      tmplen ← strlen cwd;
      p ← kmalloc (tmplen + 2);
      if decide (p = 0) then mret None else
      stb p 47;; strncpy (p + 1) cwd tmplen;; stb (p + (tmplen + 1)) 0;; mret (Some (p, p, flags))
    else mret (Some (0, cwd, Z.lor flags PATH_ABSOLUTE)));
  match r with
  | None => mret (- ENOMEM, 0)
  | Some (cwd_, cwd, flags) =>
      cwdlen ← strlen cwd;
      pathlen ← strlen pathname;
      c ← ldc (pathname + pathlen);
      let isdir := bool_decide (c = 47) in
      let error (err last_token abs tokens tmptokens tmppath : Z) : M cmem (Z * Z) :=
        free_if last_token;; free_if abs;; free_if tokens;; tokens_free_if tmptokens;; free_if tmppath;; free_if cwd_;; mret (err, 0) in
      tmppath ← kmalloc (cwdlen + pathlen + 2);
      if decide (tmppath = 0) then error (- ENOMEM) 0 0 0 0 0 else
      strncpy tmppath cwd cwdlen;;
      stb (tmppath + cwdlen) 47;;
      strncpy (tmppath + cwdlen + 1) pathname pathlen;;
      stb (tmppath + (cwdlen + pathlen + 1)) 0;;
      '(err, (tmptokens, ntok, _)) ← canonicalize_path tmppath true;
      if decide (err ≠ 0) then error err 0 0 0 tmptokens tmppath else
      tokens ← kcalloc (ntok + 1) 8;
      if decide (tokens = 0) then error err 0 0 0 tmptokens tmppath else
      '(tok_i, last_tok) ← old_tokens tmptokens tokens;
      stw (tokens + 8 * tok_i) 0;;
      abs ← kmalloc 2;
      if decide (abs = 0) then error err 0 0 tokens tmptokens tmppath else
      stb abs 47;; stb (abs + 1) 0;;
      r ← old_join tokens tok_i abs;
      match r with
      | inr (err, abs) => error err 0 abs tokens tmptokens tmppath
      | inl (abs, _) =>
          last_token ← strdup (if decide (last_tok ≠ 0) then last_tok else lit_slash);
          if decide (last_token = 0) then error (- ENOMEM) 0 abs tokens tmptokens tmppath else
          path ← kcalloc 1 sizeof_vfspath;
          if decide (path = 0) then error (- ENOMEM) last_token abs tokens tmptokens tmppath else
          kfree tmppath;;
          kfree tmptokens;;
          f ← ldn 4 (vp_flags path);
          stn 4 (vp_flags path) (Z.lor f (Z.lor flags (if isdir then PATH_ISDIR else 0)));;
          (if flag flags PATH_NOABS then kfree abs else stw (vp_absolute path) abs);;
          (if flag flags PATH_NOTOKENIZED then tokens_free tokens else stw (vp_tokencount path) tok_i;; stw (vp_tokenized path) tokens);;
          (if flag flags PATH_NOLAST_TOK then kfree last_token else stw (vp_lasttoken path) last_token);;
          mret (0, path)
      end
  end.

Definition path_free (path : Z) : M cmem unit :=
  if decide (path = 0) then mret tt else
  absolute ← ldn 8 (vp_absolute path);
  free_if absolute;;
  tokenized ← ldn 8 (vp_tokenized path);
  tokens_free_if tokenized;;
  kfree path.

(** The error and the string stored at [ltok]. *)
Definition path_get_lasttoken (pathname : Z) (ltok : bool) : M cmem (Z * Z) :=
  if negb ltok then mret (- EINVAL, 0) else
  '(err, path) ← parse_path pathname 0 (Z.lor PATH_NOABS PATH_NOTOKENIZED) true;
  if decide (err ≠ 0) then mret (err, 0) else
  lasttoken ← ldn 8 (vp_lasttoken path);
  r ← strdup lasttoken;
  path_free path;;
  mret (if decide (r = 0) then - ENOMEM else 0, r).
End parse.
