(* ===== verification/PathProps.v ===== *)
(** * Path names: what is accepted, and what the parsers return

    The characters [verify_path] accepts, for every string, and the results of the
    two parsers on given names. *)

From S2P Require Import Prelude CString CStringSpec CStringProps Path.

(** A character of a path. *)
Definition path_char (b : Z) : bool := bool_decide (32 <= b <= 126 ∧ b ≠ 92).

Lemma bad_char_byte b : 0 < b < 256 -> bad_char (schar b) = negb (path_char b).
Proof.
  intros Hb. unfold path_char. destruct (decide (b < 128)).
  - unfold bad_char, schar. rewrite (decide_True (P := b < 128)) by done. repeat (rewrite decide_False by lia). repeat case_bool_decide; simpl; first [done|lia].
  - rewrite (bool_decide_false (32 <= b <= 126 ∧ _)) by lia. unfold bad_char. replace (bool_decide (schar b < 32)) with true; [by rewrite !orb_true_r|]. symmetry. apply bool_decide_eq_true. unfold schar. rewrite decide_False by done. lia.
Qed.
Lemma schar_zero b : 0 <= b < 256 -> schar b = 0 -> b = 0.
Proof. unfold schar. case_decide; lia. Qed.
Lemma wp_ldc s a b (Q : Z -> cmem -> Prop) : c_mem s !! a = Some b -> Q (schar b) s -> wp (ldc a) s Q.
Proof. intros Ha HQ. unfold wp, ldc, fmap, M_fmap, ldb in *. by rewrite Ha. Qed.

Lemma wp_verify_path s a l (Q : Z -> cmem -> Prop) :
  a ≠ 0 -> cstr (c_mem s) a l -> Q (if decide (l ≠ []) then if forallb path_char l then 0 else - ENOTNAM else - ENOTNAM) s -> wp (verify_path a) s Q.
Proof.
  intros Ha Hs HQ. unfold verify_path. rewrite decide_False by done. wp_step. destruct l as [|b l].
  { eapply wp_ldc; [by apply cstr_nil|]. rewrite decide_True by done. by apply wp_ret. }
  pose proof Hs as (Hb & Hm & _)%cstr_cons. eapply wp_ldc; [exact Hm|]. rewrite decide_False by (intros ?%schar_zero; lia). rewrite decide_True in HQ by done.
  remember (b :: l) as l0 eqn:E. clear E.
  apply (wp_scan (λ p s', s' = s ∧ ∃ l', cstr (c_mem s) p l' ∧ p = a + (Z.of_nat (length l0) - Z.of_nat (length l')) ∧ forallb path_char l' = forallb path_char l0)
    (λ p, Z.to_nat (a + Z.of_nat (length l0) - p))).
  - split; [done|]. exists l0. split_and!; [done|lia|done].
  - pose proof (cstr_size _ _ _ Hs). lia.
  - intros p s' (-> & [|c l'] & Hc & Hp & He).
    + wp_step. eapply wp_ldc; [by apply cstr_nil|]. rewrite decide_True by done. apply wp_ret. by rewrite <- He in HQ.
    + apply cstr_cons in Hc as (Hc0 & Hcm & Hc). wp_step. eapply wp_ldc; [exact Hcm|]. rewrite decide_False by (intros ?%schar_zero; lia). rewrite bad_char_byte by done. simpl in He, Hp.
      destruct (path_char c); simpl in *; apply wp_ret.
      * split; [|lia]. split; [done|]. exists l'. split_and!; [done|lia|done].
      * by rewrite <- He in HQ.
Qed.

(** The strings [verify_path] accepts are those of at least one character in which
    every byte is printable ASCII and not a backslash; every other string is
    refused with -ENOTNAM, and the memory is only read. *)
Theorem verify_path_correct s a l :
  a ≠ 0 -> cstr (c_mem s) a l -> ∃ r, verify_path a s = Ok r s ∧ (r = 0 ∨ r = - ENOTNAM) ∧ (r = 0 <-> l ≠ [] ∧ Forall (λ b, 32 <= b <= 126 ∧ b ≠ 92) l).
Proof.
  intros Ha Hs. set (r := if decide (l ≠ []) then if forallb path_char l then 0 else - ENOTNAM else - ENOTNAM).
  assert (wp (verify_path a) s (λ x s', x = r ∧ s' = s)) as H by (by eapply wp_verify_path). unfold wp in H. destruct (verify_path a s) as [x s'|]; [|done]. destruct H as [-> ->].
  exists r. split; [done|]. unfold r. case_decide as Hn; [|split; [by right|]; split; [done|intros []; done]].
  assert (forallb path_char l = true <-> Forall (λ b, 32 <= b <= 126 ∧ b ≠ 92) l) as Hf.
  { rewrite forallb_forall, List.Forall_forall. unfold path_char. split; intros H x Hx; specialize (H x Hx); by apply bool_decide_eq_true in H || by apply bool_decide_eq_true. }
  destruct (forallb path_char l); split; [by left| |by right|]; split; try done.
  - intros _. split; [done|]. by apply Hf.
  - intros [_ HF]. by apply Hf in HF.
Qed.

(** ** Names *)

#[local] Instance bump_blocks : Balloc := {| ba_choose _ := bump_choose; ba_fill _ _ := 165; ba_fresh := bump_fresh |}.
#[local] Instance literals : PathLits := {| lit_slash := 16; lit_dot := 18; lit_dotdot := 20 |}.
(** The literals and a name at 8192. *)
Definition named (name : list Z) : cmem := CMem (blit 8192 (name ++ [0]) (blit 16 [47; 0; 46; 0; 46; 46; 0] ∅)) ∅ ∅ 0 0.
Record parsed := Parsed { pr_flags : Z; pr_absolute : list Z; pr_tokens : list (list Z); pr_count : Z; pr_last : option (list Z); pr_blocks : nat }.
(** The members of a struct; a pointer to freed memory reads as [None]. *)
Definition seen (s : cmem) (p : Z) : parsed :=
  let str q := match c_mem s !! q with Some _ => Some (read_string 64 s q) | None => None end in
  Parsed (peekn s 4 (vp_flags p)) (read_string 64 s (peekn s 8 (vp_absolute p))) (read_array 16 s (peekn s 8 (vp_tokenized p)))
    (peekn s 8 (vp_tokencount p)) (str (peekn s 8 (vp_lasttoken p))) (size (c_blk s)).
Definition result (m : M cmem (Z * Z)) (name : list Z) : option (Z * parsed) :=
  match m (named name) with Ok (err, p) s => Some (err, seen s p) | Stop _ => None end.

(** "/a//b/" and "/a//b": the tokens, the name without the slash at the front, and
    the mark of a directory. *)
Example vfspath_parse_directory :
  result (vfspath_parse 8192 0 true) [47; 97; 47; 47; 98; 47] = Some (0, Parsed (Z.lor PATH_ABSOLUTE PATH_ISDIR) [97; 47; 98; 47] [[97]; [98]] 2 (Some [98]) 5) ∧
  result (vfspath_parse 8192 0 true) [47; 97; 47; 47; 98] = Some (0, Parsed PATH_ABSOLUTE [97; 47; 98] [[97]; [98]] 2 (Some [98]) 5).
Proof. split; by vm_compute. Qed.

(** For a name of one token the buffer of the joined path has no room for the 0 at
    the end: the byte after the block is written. *)
Example vfspath_parse_one_token_overflows : result (vfspath_parse 8192 0 true) [97] = None ∧ result (vfspath_parse 8192 0 true) [47; 97] = None.
Proof. split; by vm_compute. Qed.

(** "a/b/.." counts one token, but the array and the joined path still have "b",
    and the last token is the freed string "..". *)
Example vfspath_parse_parent_keeps_token :
  result (vfspath_parse 8192 0 true) [97; 47; 98; 47; 46; 46] = Some (0, Parsed 0 [97; 47; 98; 47] [[97]; [98]] 1 None 5).
Proof. by vm_compute. Qed.

(** [parse_path] keeps "..", and leaks a block for every token it compares with it:
    "a/../b" ends with ten blocks, "a/b" with eight. *)
Example parse_path_keeps_parent :
  result (parse_path 8192 0 0 true) [97; 47; 46; 46; 47; 98] = Some (0, Parsed PATH_ABSOLUTE [47; 97; 47; 46; 46; 47; 98] [[97]; [46; 46]; [98]] 3 (Some [98]) 10) ∧
  result (parse_path 8192 0 0 true) [97; 47; 98] = Some (0, Parsed PATH_ABSOLUTE [47; 97; 47; 98] [[97]; [98]] 2 (Some [98]) 8).
Proof. split; by vm_compute. Qed.

(** [parse_path] does not see the slash at the end of "a/b/". *)
Example parse_path_misses_slash :
  result (parse_path 8192 0 0 true) [97; 47; 98; 47] = result (parse_path 8192 0 0 true) [97; 47; 98].
Proof. by vm_compute. Qed.

(** The last token of "a/b" is returned, with three blocks lost: two of the
    comparisons and the last token of the struct. *)
Example path_get_lasttoken_leaks :
  match path_get_lasttoken 8192 true (named [97; 47; 98]) with Ok (err, p) s => err = 0 ∧ read_string 8 s p = [98] ∧ size (c_blk s) = 4%nat | Stop _ => False end.
Proof. by vm_compute. Qed.

(** Without memory [kcalloc] writes to address 0. *)
Theorem kcalloc_clears_null {BA : Balloc} s nobj size :
  0 < nobj * size < 2 ^ 31 -> c_mem s !! 0 = None -> ba_choose (c_ticks s) (c_mem s) (nobj * size) = None -> kcalloc nobj size s = Stop BadAccess.
Proof.
  intros Hn H0 Hc. unfold kcalloc. replace (u64 (s32 (nobj * size))) with (nobj * size).
  - unfold mbind, M_bind, kmalloc. rewrite Hc. unfold memset. destruct (Z.to_nat (nobj * size)) as [|k] eqn:E; [lia|]. cbn. unfold mbind, M_bind, stb. cbn. by rewrite H0.
  - unfold s32, u64, two64, u32. cbv zeta. rewrite !(Z.mod_small (nobj * size)) by lia. case_decide; [|lia]. by rewrite Z.mod_small by lia.
Qed.
